(* ===== verification/_CoqProject ===== *)
-Q . S2P
Prelude.v
RecordUpdate.v
Ieee.v
Fp16.v
LutTables.v
IeeeArith.v
Lut.v
Arithmetic.v
LutTheory.v
HardwarePipeline.v
VectorMath.v
VectorPipeline.v
VectorPipelineTheory.v
BankScheduler.v
AttentionBase.v
ScoreFifo.v
ClusterState.v
OAccumulator.v
OAccumulatorTheory.v
MemoryLayout.v
ComputeUnit.v
TileArray.v
TaskDerivation.v
NativeDescriptor.v
NativeTheory.v
RowPipeline.v
RowPhases.v
RowReference.v
RowBeats.v
RowState.v
RowPipelineTheory.v
RowProgress.v
ControlTransport.v
PvWoHandoff.v
PvWoTheory.v
WindowGemm.v
GemmValues.v
GemmSystem.v
GemmArrays.v
GemmSlots.v
GemmPumps.v
GemmInvariant.v
GemmFacts.v
GemmSums.v
GemmParts.v
GemmMemory.v
GemmRows.v
GemmRank.v
GemmFlow.v
GemmTasks.v
GemmTiles.v
GemmWindows.v
GemmTick.v
GemmAnswers.v
GemmSteps.v
GemmProgress.v
GemmTheory.v
