(* ===== verification/Prelude.v ===== *)
(** * Golem: a verification library for the multicore-attention accelerator

    The repository is SST-elements with an added element, Golem
    ([src/src/sst/elements/golem/]), a simulated accelerator for transformer layers:
    arrays of compute units fed by a banked scratchpad, a special function unit, and an
    attention cluster that keeps scores, probabilities and outputs on chip.  This
    library models Golem's self-contained cores, the code that decides values,
    cycles and ownership, and leaves the simulator's event plumbing aside.

    ** The parts and their files

    - [Prelude] (this file): machine integers as [Z] with written-out wrap-around
      ([u8] ... [u64], [⊞ ⊟ ⊠]), exceptions as values ([result], [let!]), the
      ordered containers the source uses, counting of cycles, tactics.
    - [Ieee], [IeeeArith]: IEEE formats on the Standard Library's [SpecFloat] with
      bit-level encodings, [std::fma], [frexp]/[ldexp], and the theory that turns an
      operation on exact dyadics into one rounding of an integer.
    - [Fp16]: [fp16.h], the two storage conversions bit by bit.
    - [Lut], [LutTables], [LutTheory]: [sfu/lut.h] and [sfu/lut_tables.h], the ROM
      decoders and their tables.
    - [Arithmetic]: [sfu/arithmetic.h], the arithmetic of the special function unit in
      FP32 and FP16 mode; libm's exp, log and tanh are the class [Libm].
    - [HardwarePipeline]: [sfu/hardware_pipeline.h], pipelined resources with latency,
      initiation interval and queue, and the shared vector arbiter.
    - [VectorMath]: [sfu/vector_math.h] and [sfu/norm_compensated.h], the functional
      reference of every vector operation.
    - [VectorPipeline], [VectorPipelineTheory]: [sfu/vector_pipeline.h], the streaming
      implementation: jobs, FIFOs with credits, stages that share resources.
    - [BankScheduler]: [globalmemory/localGmBankScheduler.h], per-cycle arbitration of
      two request queues over a banked memory.
    - [AttentionBase], [ScoreFifo], [ClusterState], [OAccumulator],
      [OAccumulatorTheory]: [attention/attentionCluster.h], in the order of that file.
    - [MemoryLayout]: [attention/decoderMemoryLayout.h], the allocator, every tensor of
      the decoder and the static map of a core's global memory.
    - [ComputeUnit]: [isa/precision.h], [computeunit/*.h], the eight precisions, packing
      and the processing elements' dot products.
    - [TaskDerivation], [NativeDescriptor], [NativeTheory]: [isa/nativeDescriptor.h],
      [tileengine/workloadPlacement.h] and the part of [tileengine/tileEngine.h] and
      [rocc/roccAnalog.h] that admits a command and derives the tasks of the workers.
    - [RowPipeline], [RowPhases], [RowReference], [RowBeats], [RowState],
      [RowPipelineTheory], [RowProgress]: [sfu/row_pipeline.h], the pipeline that keeps
      whole rows in banks for Rope and RmsNorm; the definitions are in the first file.
    - [ControlTransport], [PvWoHandoff], [PvWoTheory]: the control message of
      [globalmemory/globalmemory.h] and [attention/pvWoHandoff.h], the protocol that hands
      the tiles of the attention output to the cores that multiply them by Wo.
    - [TileArray]: the functional side of a core's arrays, [tileunit/tileUnitArrayModel.h]
      with the request checks of [array/computeArray.h].
    - [RecordUpdate], [WindowGemm], [GemmSystem]: [attention/reuseWindowGemm.h], the
      matrix multiplication by reused windows.  A call that was accepted and not answered
      yet is an element of the state; the continuation, one closure in the source, is the
      name of the function it calls; [GemmSystem] answers the calls in any order.  The
      other [Gemm*] files are its theory: values and bytes ([GemmValues], [GemmSums]), the
      arrays ([GemmArrays], [GemmRows]), the two prefetchers ([GemmSlots]), the invariant
      ([GemmInvariant], [GemmFacts], [GemmParts], [GemmMemory]), the order in which a job
      goes through its stages ([GemmRank]), that every task, every callback and every step
      keeps the invariant and when it moves on ([GemmFlow] to [GemmSteps]), and the way to
      the end ([GemmPumps], [GemmProgress]); [GemmTheory] has the properties.

    ** How the parts interact

    [Arithmetic] rounds through [Fp16] and looks values up through [Lut]; [VectorMath]
    is written on [Arithmetic]; [VectorPipeline] issues the same operations through
    [HardwarePipeline]'s resources and its theorem says it computes [VectorMath]'s
    results.  [OAccumulator] schedules its ports through [AttentionBase]'s interval
    accounting, and every context, slot and lease of the cluster is guarded by
    [AttentionBase]'s tags.  [RowPipeline] runs its three ports on [HardwarePipeline]'s
    resources and is proved against the same [evaluateSFUVectorOp].  [NativeDescriptor]
    admits a command, [TaskDerivation] turns it into tasks on the elements of
    [ComputeUnit].  [PvWoHandoff] sends [ControlTransport]'s messages and lands tiles in
    the region [MemoryLayout] reserves for them.  [WindowGemm] reads and writes global
    memory, programs [TileArray]'s arrays and launches their multiplies, whose arithmetic
    is [Fp16]'s and [ComputeUnit]'s.

    ** What the theorems show

    - Numbers: storage conversions are exact one way and round to nearest even the
      other (one window excepted, see [Fp16.float_to_fp16_flushes_window]); FP16-mode
      arithmetic done in double equals binary16 arithmetic; the ROMs are correctly
      rounded; tree sums are balanced trees.
    - Pipelines: acceptance, latency and initiation interval of every resource; the
      streaming pipeline returns what the reference computes under any
      interleaving, never fails and never overruns a FIFO; so does the row pipeline, whose
      inner loops end.
    - Memory: the bank scheduler delivers every accepted request once, in order, in
      line-sized beats, and idles only for a stated reason.
    - Attention cluster: the score FIFO refines write-once cells; the O accumulator
      returns the fused multiply-add fold of what was submitted and its ports are
      never double-booked; leases are counted exactly; nothing of an old generation
      is accepted; busy-time accounting is exact.
    - Commands: an accepted native command's tasks cover every output tile once, stay in
      the declared regions and never write over each other; packing does not change a dot
      product; tensors and GM regions never overlap.
    - Handoff: a system of sixteen cores, the network between them and their memories,
      as a step relation.  A tile is reported done only after it landed, a generation is
      ready only with all 32 heads of that generation in place, nothing ever throws.
    - Window GEMM: whatever the order of callbacks, the replies of memory and arrays, the
      chunk sizes and the options, an accepted job delivers exactly the tiles of the
      product in order and reports success once, after the last.  When its weight
      broadcasts fit the arrays' fan-out no reachable state is stuck: with answers and free
      queues every one of them leads to the end (accepted jobs with a wider broadcast do
      get stuck, and bridged jobs with a lease and early activations are covered up to four
      output tiles; both are findings).  A failed call ends the job with one report.
    - Defects: the flush window of [golem_float_to_fp16], the colliding round-robin
      tickets of the vector pipeline, which starve a request, the out-of-bounds read of
      [AttentionClusterState::drained] and the row that never finishes behind a read port
      of two or three elements are theorems about the code as it is.

    ** Conventions, bounds and fuel

    Definitions keep the source's names, prefixed by their class where two classes
    share one.  Integers are [Z] with the wrap-around of their width; indices of
    containers are [nat].  A [throw] and an access out of bounds are [Throw].
    Single- and double-precision values are [spec_float].  Loops are structural on
    their range except these: [fp16_normalize] (fuel 10, the width of the fraction),
    [SFUArithmetic_treeLoop] (fuel the number of values), the pipeline's issue
    loop (fuel the lanes of the resource), and the row pipeline's completion and
    admission loops (fuel the pending tokens and the contexts), and the weight prefetch of
    the window GEMM (fuel 4, the slots it can fill); each is proved to reach its result.
    Theorems about cycle counters assume that clocks stay below 2^64 and runs below
    2^32 operations, as stated in each hypothesis.

    ** Not modelled

    SST components proper ([rocc/], [tileengine/], [groupctrl/], [requestscheduler/],
    [sfu/sfu.cc], [globalmemory.cc]): they are event handlers over simulator links
    with statistics and traces; of [tileengine/] and [rocc/] only admission and task
    derivation are modelled.  What the handoff asks of the components around it is the
    environment of its step relation: a memory write is taken or refused and completes
    later, the network delivers every message once in any order, and a client dispatches
    a tile once per generation.  So it is for the window GEMM: the arrays compute at any
    time between a launch and its callback, memory may change outside the job's regions;
    the latencies and queues of the arrays' transfers are not modelled.  The analog arrays
    call the external CrossSim package.  The sharing of weights
    between cores ([attention/reuseWeightCohort.h]) and the job state machines
    ([attention/projectionJob.h], [decoderOpJob.h]) drive several cores through the
    components above and are left for an extension.  Every other element of the
    repository is upstream SST. *)

From Stdlib Require Import ZArith Lia.
From stdpp Require Import base numbers list.


(** ** Scope and notations *)

Declare Scope golem_scope.
Delimit Scope golem_scope with golem.
#[global] Open Scope Z_scope.
#[global] Open Scope golem_scope.

(** ** Machine integers

    A [w]-bit unsigned integer is a [Z]; every arithmetic operation the source
    performs at that width is followed by the reduction written out here. *)

Definition u8 (x : Z) : Z := x mod 2 ^ 8.
Definition u16 (x : Z) : Z := x mod 2 ^ 16.
Definition u32 (x : Z) : Z := x mod 2 ^ 32.
Definition u64 (x : Z) : Z := x mod 2 ^ 64.

Notation "x ⊞ y" := (u64 (x + y)) (at level 50, left associativity) : golem_scope.
Notation "x ⊟ y" := (u64 (x - y)) (at level 50, left associativity) : golem_scope.
Notation "x ⊠ y" := (u64 (x * y)) (at level 40, left associativity) : golem_scope.

Definition in_u8 (x : Z) : Prop := 0 <= x < 2 ^ 8.
Definition in_u16 (x : Z) : Prop := 0 <= x < 2 ^ 16.
Definition in_u32 (x : Z) : Prop := 0 <= x < 2 ^ 32.
Definition in_u64 (x : Z) : Prop := 0 <= x < 2 ^ 64.

(** The representative in [-2^31, 2^31) of a value converted to [int32_t]. *)
Definition s32 (x : Z) : Z := (x + 2 ^ 31) mod 2 ^ 32 - 2 ^ 31.

Lemma u8_id x : in_u8 x -> u8 x = x.
Proof. apply Z.mod_small. Qed.
Lemma u16_id x : in_u16 x -> u16 x = x.
Proof. apply Z.mod_small. Qed.
Lemma u32_id x : in_u32 x -> u32 x = x.
Proof. apply Z.mod_small. Qed.
Lemma u64_id x : in_u64 x -> u64 x = x.
Proof. apply Z.mod_small. Qed.
Lemma u8_range x : in_u8 (u8 x).
Proof. apply Z.mod_pos_bound; lia. Qed.
Lemma u16_range x : in_u16 (u16 x).
Proof. apply Z.mod_pos_bound; lia. Qed.
Lemma u32_range x : in_u32 (u32 x).
Proof. apply Z.mod_pos_bound; lia. Qed.
Lemma u64_range x : in_u64 (u64 x).
Proof. apply Z.mod_pos_bound; lia. Qed.

Create HintDb word.
#[export] Hint Resolve u8_range u16_range u32_range u64_range : word.
#[export] Hint Rewrite u8_id u16_id u32_id u64_id
  using (unfold in_u8, in_u16, in_u32, in_u64 in *; lia) : word.

(** Removes every wrap-around whose argument is in range by [lia]. *)
Ltac unwrap :=
  repeat match goal with
  | H : in_u8 _ |- _ => unfold in_u8 in H
  | H : in_u16 _ |- _ => unfold in_u16 in H
  | H : in_u32 _ |- _ => unfold in_u32 in H
  | H : in_u64 _ |- _ => unfold in_u64 in H
  end;
  repeat match goal with
  | |- context [u64 ?x] => rewrite (u64_id x) by (unfold in_u64; lia)
  | |- context [u32 ?x] => rewrite (u32_id x) by (unfold in_u32; lia)
  | |- context [u16 ?x] => rewrite (u16_id x) by (unfold in_u16; lia)
  | |- context [u8 ?x] => rewrite (u8_id x) by (unfold in_u8; lia)
  end.

Ltac unwrap_in H :=
  repeat match type of H with
  | context [u64 ?x] => rewrite (u64_id x) in H by (unfold in_u64 in *; lia)
  | context [u32 ?x] => rewrite (u32_id x) in H by (unfold in_u32 in *; lia)
  | context [u16 ?x] => rewrite (u16_id x) in H by (unfold in_u16 in *; lia)
  | context [u8 ?x] => rewrite (u8_id x) in H by (unfold in_u8 in *; lia)
  end.

(** Removes the 64-bit wrap-arounds innermost first, so nested expressions open up. *)
Ltac unwrap64_with tac :=
  repeat match goal with
  | |- context [u64 ?x] =>
      lazymatch x with
      | context [u64 _] => fail
      | _ => rewrite (u64_id x) by (unfold in_u64; tac)
      end
  end.
Ltac unwrap64 := unwrap64_with lia.

(** Bits above the width of a value are zero. *)
Lemma testbit_above b n i : 0 <= b < 2 ^ n -> n <= i -> Z.testbit b i = false.
Proof.
  intros Hb Hi. destruct (Z.lt_ge_cases n 0) as [|Hn]; [rewrite Z.pow_neg_r in Hb; lia|].
  rewrite <- (Z.mod_small b (2 ^ n)) by lia. apply Z.mod_pow2_bits_high. lia.
Qed.

(** ** Exceptions as values

    A C++ [throw] leaves the component through an error value. *)

Inductive exn := invalid_argument | logic_error | runtime_error | out_of_range.

#[export] Instance exn_eq_dec : EqDecision exn.
Proof. solve_decision. Defined.

Inductive result (A : Type) :=
| Ok (a : A)
| Throw (e : exn).
Arguments Ok {A} a.
Arguments Throw {A} e.

Definition rbind {A B} (r : result A) (f : A -> result B) : result B :=
  match r with Ok a => f a | Throw e => Throw e end.

Notation "'let!' x := e 'in' k" := (rbind e (fun x => k))
  (at level 200, x pattern, e at level 100, k at level 200) : golem_scope.

Lemma rbind_Ok {A B} (r : result A) (f : A -> result B) b :
  rbind r f = Ok b -> exists a, r = Ok a /\ f a = Ok b.
Proof. destruct r; simpl; [eauto | discriminate]. Qed.

(** The value of a computation, or [d] when it throws. *)
Definition result_or {A} (d : A) (r : result A) : A := match r with Ok x => x | Throw _ => d end.
Definition is_ok {A} (r : result A) : bool := match r with Ok _ => true | Throw _ => false end.
Lemma is_ok_or {A} (d : A) r : is_ok r = true -> r = Ok (result_or d r).
Proof. destruct r; [reflexivity | discriminate]. Qed.

(** ** Proof automation *)


(** Splits the boolean test of the first [if] of the goal or of [H]. *)
Ltac case_if :=
  match goal with |- context [if ?b then _ else _] => destruct b eqn:? end.
Ltac case_if_in H :=
  match type of H with context [if ?b then _ else _] => destruct b eqn:? end.

(** Turns boolean connectives in hypotheses into propositions. *)
Ltac boolify :=
  repeat match goal with
  | H : (_ && _) = true |- _ => apply andb_true_iff in H; destruct H
  | H : (_ || _) = false |- _ => apply orb_false_iff in H; destruct H
  | H : negb _ = true |- _ => apply negb_true_iff in H
  | H : negb _ = false |- _ => apply negb_false_iff in H
  | H : (_ =? _) = true |- _ => apply Z.eqb_eq in H
  | H : (_ =? _) = false |- _ => apply Z.eqb_neq in H
  | H : (_ <? _) = true |- _ => apply Z.ltb_lt in H
  | H : (_ <? _) = false |- _ => apply Z.ltb_ge in H
  | H : (_ <=? _) = true |- _ => apply Z.leb_le in H
  | H : (_ <=? _) = false |- _ => apply Z.leb_gt in H
  | H : bool_decide _ = true |- _ => apply bool_decide_eq_true_1 in H
  | H : bool_decide _ = false |- _ => apply bool_decide_eq_false_1 in H
  end.

(** ** Exhaustive checks over the [d]-bit integers *)

Fixpoint check_range (d : nat) (p : Z -> bool) (base : Z) : bool :=
  match d with
  | O => p base
  | S d' => check_range d' p (2 * base) && check_range d' p (2 * base + 1)
  end.

Lemma check_range_sound d p base :
  check_range d p base = true ->
  forall i, base * 2 ^ Z.of_nat d <= i < (base + 1) * 2 ^ Z.of_nat d -> p i = true.
Proof.
  revert base. induction d as [|d IH]; intros base H i Hi.
  - simpl in H, Hi. replace i with base by lia. done.
  - simpl in H. boolify. rewrite Nat2Z.inj_succ, Z.pow_succ_r in Hi by lia.
    destruct (Z.lt_ge_cases i ((2 * base + 1) * 2 ^ Z.of_nat d)).
    + apply (IH (2 * base)); [done|lia].
    + apply (IH (2 * base + 1)); [done|lia].
Qed.

Definition check_bits (d : nat) (p : Z -> bool) : bool := check_range d p 0.

Lemma check_bits_sound d p :
  check_bits d p = true -> forall i, 0 <= i < 2 ^ Z.of_nat d -> p i = true.
Proof. intros H i Hi. apply (check_range_sound d p 0 H). lia. Qed.

(** ** Ordered containers

    [std::map] and [std::multimap] are association lists in iteration order. *)

Section ordered_containers.
Context {V : Type}.

(** [map.emplace(k, v)]: no effect when the key is present. *)
Fixpoint map_emplace (k : Z) (v : V) (m : list (Z * V)) : list (Z * V) :=
  match m with
  | [] => [(k, v)]
  | (k', v') :: m' =>
      if k <? k' then (k, v) :: m
      else if k =? k' then m
      else (k', v') :: map_emplace k v m'
  end.

(** [map.find(k)] / [map.at(k)]. *)
Fixpoint map_at (k : Z) (m : list (Z * V)) : option V :=
  match m with
  | [] => None
  | (k', v') :: m' => if k =? k' then Some v' else map_at k m'
  end.

(** Assignment through a reference to the value at [k]. *)
Fixpoint map_set (k : Z) (v : V) (m : list (Z * V)) : list (Z * V) :=
  match m with
  | [] => []
  | (k', v') :: m' => if k =? k' then (k', v) :: m' else (k', v') :: map_set k v m'
  end.

(** [map.erase(k)]. *)
Fixpoint map_erase (k : Z) (m : list (Z * V)) : list (Z * V) :=
  match m with
  | [] => []
  | (k', v') :: m' => if k =? k' then m' else (k', v') :: map_erase k m'
  end.

(** [multimap.emplace(k, v)]: after the elements with an equal key. *)
Fixpoint multimap_emplace (k : Z) (v : V) (m : list (Z * V)) : list (Z * V) :=
  match m with
  | [] => [(k, v)]
  | (k', v') :: m' => if k <? k' then (k, v) :: m else (k', v') :: multimap_emplace k v m'
  end.

Lemma multimap_emplace_perm k v m : multimap_emplace k v m ≡ₚ (k, v) :: m.
Proof.
  induction m as [|[k' v'] m IH]; [done|]. cbn [multimap_emplace].
  case_match; [done|]. rewrite IH. apply Permutation_swap.
Qed.

Lemma map_set_keys k v m : map fst (map_set k v m) = map fst m.
Proof.
  induction m as [|[k' v'] m IH]; [done|]. cbn [map_set]. case_match; cbn [map fst]; congruence.
Qed.

Lemma map_set_Forall_keys (P : Z -> Prop) k v m :
  Forall (fun kv => P kv.1) m -> Forall (fun kv => P kv.1) (map_set k v m).
Proof.
  induction 1 as [|[k' v'] m Hk Hm IH]; [constructor|]. cbn [map_set].
  case_match; by constructor.
Qed.

Lemma map_at_set_eq k v v0 m : map_at k m = Some v0 -> map_at k (map_set k v m) = Some v.
Proof.
  induction m as [|[k' v'] m IH]; [done|]. cbn [map_at map_set]. destruct (Z.eqb_spec k k') as [->|].
  - intros _. cbn [map_at]. by rewrite Z.eqb_refl.
  - intros Hm. cbn [map_at]. rewrite (proj2 (Z.eqb_neq k k')) by done. by apply IH.
Qed.

Lemma map_at_set_ne k k2 v m : k2 <> k -> map_at k2 (map_set k v m) = map_at k2 m.
Proof.
  intros Hne. induction m as [|[k' v'] m IH]; [done|]. cbn [map_at map_set].
  destruct (Z.eqb_spec k k') as [->|]; cbn [map_at].
  - by rewrite (proj2 (Z.eqb_neq k2 k')).
  - by rewrite IH.
Qed.

Lemma map_at_erase_ne k k2 m : k2 <> k -> map_at k2 (map_erase k m) = map_at k2 m.
Proof.
  intros Hne. induction m as [|[k' v'] m IH]; [done|]. cbn [map_at map_erase].
  destruct (Z.eqb_spec k k') as [->|]; cbn [map_at].
  - by rewrite (proj2 (Z.eqb_neq k2 k')).
  - by rewrite IH.
Qed.

Lemma map_at_elem k v m : map_at k m = Some v -> (k, v) ∈ m.
Proof.
  induction m as [|[k' v'] m IH]; [done|]. cbn [map_at].
  destruct (Z.eqb_spec k k') as [->|]; [intros [= ->]; left|intros; right; auto].
Qed.

Lemma elem_map_at k v m : NoDup (map fst m) -> (k, v) ∈ m -> map_at k m = Some v.
Proof.
  induction m as [|[k' v'] m IH]; [by intros _ ?%elem_of_nil|].
  cbn [map fst map_at]. intros [Hn Hd]%NoDup_cons [[= -> ->]|Hin]%elem_of_cons.
  - by rewrite Z.eqb_refl.
  - destruct (Z.eqb_spec k k') as [->|]; [|by apply IH].
    destruct Hn. apply list_elem_of_In, in_map_iff. exists (k', v). split; [done|by apply list_elem_of_In].
Qed.

Lemma map_erase_keys k m : map fst (map_erase k m) `sublist_of` map fst m.
Proof.
  induction m as [|[k' v'] m IH]; [done|]. cbn [map_erase].
  case_match; cbn [map fst]; [by apply sublist_cons|by apply sublist_skip].
Qed.

Lemma map_erase_elem k k2 v m : (k2, v) ∈ map_erase k m -> (k2, v) ∈ m.
Proof.
  induction m as [|[k' v'] m IH]; [done|]. cbn [map_erase]. case_match; [by right|].
  intros [->|Hin]%elem_of_cons; [left|right; auto].
Qed.

Lemma map_at_erase_eq k m : NoDup (map fst m) -> map_at k (map_erase k m) = None.
Proof.
  induction m as [|[k' v'] m IH]; [done|]. cbn [map fst map_erase]. intros [Hn Hd]%NoDup_cons.
  destruct (Z.eqb_spec k k') as [->|].
  - destruct (map_at k' m) as [v|] eqn:E; [|done]. apply map_at_elem in E. destruct Hn.
    apply list_elem_of_In, in_map_iff. exists (k', v). split; [done|by apply list_elem_of_In].
  - cbn [map_at]. rewrite (proj2 (Z.eqb_neq k k')) by done. by apply IH.
Qed.

Lemma map_at_split k v m : map_at k m = Some v -> exists m1 m2, m = m1 ++ (k, v) :: m2.
Proof. intros H%map_at_elem. by apply list_elem_of_split in H. Qed.

(** A key above every other goes last. *)
Lemma map_emplace_last k v m : Forall (fun kv => kv.1 < k) m -> map_emplace k v m = m ++ [(k, v)].
Proof.
  induction 1 as [|[k' v'] m Hk Hm IH]; [done|]. cbn in Hk. cbn [map_emplace app].
  rewrite (proj2 (Z.ltb_ge k k')), (proj2 (Z.eqb_neq k k')) by lia. by rewrite IH.
Qed.

Lemma map_at_app k m m' :
  map_at k (m ++ m') = match map_at k m with Some v => Some v | None => map_at k m' end.
Proof.
  induction m as [|[k' v'] m IH]; [done|]. cbn [map_at app]. by destruct (k =? k').
Qed.

Lemma map_at_None k m : Forall (fun kv => kv.1 <> k) m -> map_at k m = None.
Proof.
  induction 1 as [|[k' v'] m Hk Hm IH]; [done|]. cbn in Hk |- *.
  by rewrite (proj2 (Z.eqb_neq k k')) by done.
Qed.
End ordered_containers.

(** ** Counting cycles of an interval *)

(** The number of [c] in [[a, b)] with [p c]. *)
Definition count (p : Z -> bool) (a b : Z) : Z :=
  foldr (fun c n => (if p c then 1 else 0) + n) 0 (seqZ a (b - a)).

Section count.
Context (p q : Z -> bool).

Lemma count_app (l l' : list Z) :
  foldr (fun c n => (if p c then 1 else 0) + n) 0 (l ++ l') =
  foldr (fun c n => (if p c then 1 else 0) + n) 0 l + foldr (fun c n => (if p c then 1 else 0) + n) 0 l'.
Proof. induction l as [|c l IH]; cbn [app foldr]; [done|]. rewrite IH. lia. Qed.

Lemma count_split a b c : a <= b <= c -> count p a c = count p a b + count p b c.
Proof.
  intros H. unfold count. rewrite <- count_app. f_equal.
  replace (c - a) with ((b - a) + (c - b)) by lia. rewrite seqZ_app by lia. do 2 f_equal. lia.
Qed.

Lemma count_ext a b : (forall c, a <= c < b -> p c = q c) -> count p a b = count q a b.
Proof.
  intros H. unfold count. assert (Forall (fun c => p c = q c) (seqZ a (b - a))) as Hf.
  { apply Forall_forall. intros c Hc%elem_of_seqZ. apply H. lia. }
  induction Hf as [|c l E _ IH]; cbn [foldr]; [done|]. by rewrite E, IH.
Qed.

Lemma count_range a b : 0 <= count p a b <= Z.max 0 (b - a).
Proof.
  unfold count. assert (Z.of_nat (length (seqZ a (b - a))) = Z.max 0 (b - a)) as <- by (rewrite length_seqZ; lia).
  induction (seqZ a (b - a)) as [|c l IH]; cbn [foldr length]; [lia|]. destruct (p c); lia.
Qed.
End count.

Lemma count_const (v : bool) a b : count (fun _ => v) a b = if v then Z.max 0 (b - a) else 0.
Proof.
  unfold count. assert (Z.of_nat (length (seqZ a (b - a))) = Z.max 0 (b - a)) as <- by (rewrite length_seqZ; lia).
  induction (seqZ a (b - a)) as [|c l IH]; cbn [foldr length]; destruct v; lia.
Qed.

Lemma count_true p a b : (forall c, a <= c < b -> p c = true) -> count p a b = Z.max 0 (b - a).
Proof. intros H. by rewrite (count_ext p (fun _ => true)), count_const by done. Qed.
Lemma count_false p a b : (forall c, a <= c < b -> p c = false) -> count p a b = 0.
Proof. intros H. by rewrite (count_ext p (fun _ => false)), count_const by done. Qed.
Lemma count_negb p a b : count (fun c => negb (p c)) a b = Z.max 0 (b - a) - count p a b.
Proof.
  unfold count. assert (Z.of_nat (length (seqZ a (b - a))) = Z.max 0 (b - a)) as <- by (rewrite length_seqZ; lia).
  induction (seqZ a (b - a)) as [|c l IH]; [done|]. cbn [foldr length]. rewrite IH.
  destruct (p c); cbn [negb]; lia.
Qed.
