(* ===== verification/RecordUpdate.v ===== *)
(** * Functional update of record fields

    [x <| f := v |>] is [x] with field [f] replaced, [x <| f ::= g |>] with [g] applied to
    it.  A record opts in with an instance of [Settable], its eta expansion; every field then
    has an instance of [Updater] by [solve_updater]: the expansion with that field
    abstracted, so an update reduces by computation. *)

From Stdlib Require Import ZArith.
From stdpp Require Import base.

Class Settable (R : Type) := eta_of : R -> R.
#[global] Hint Mode Settable ! : typeclass_instances.

Class Updater {R T : Type} (field : R -> T) := update : (T -> T) -> R -> R.
Arguments update {R T} field {_} _ _ : simpl never.

Ltac solve_updater :=
  lazymatch goal with
  | |- @Updater ?R ?T ?field =>
      let eta := constr:(eta_of (R := R)) in
      let body := eval cbv beta delta [eta_of] in eta in
      let body := eval hnf in body in
      lazymatch (eval pattern field in body) with
      | ?abs _ => exact (fun (f : T -> T) (r : R) => abs (fun r' => f (field r')) r)
      end
  end.

Declare Scope record_scope.
Notation "x <| f ::= g |>" := (update f g x) (at level 1, left associativity) : record_scope.
Notation "x <| f := v |>" := (update f (fun _ => v) x) (at level 1, left associativity) : record_scope.
#[global] Open Scope record_scope.

(** Reads through an update: the new value at its own field, the old record elsewhere.  The
    equation is proved for a variable record, so that nothing inside [x] is unfolded. *)
Ltac field_equation p f i h x :=
  let R := type of x in
  let T := type of (f x) in
  lazymatch constr:((p, f)) with
  | (?q, ?q) => constr:((fun (h' : T -> T) (y : R) => eq_refl : p (@update R T f i h' y) = h' (p y)) h x)
  | _ => constr:((fun (h' : T -> T) (y : R) => eq_refl : p (@update R T f i h' y) = p y) h x)
  end.
Ltac read_fields :=
  repeat match goal with
  | |- context [?p (@update _ _ ?f ?i ?h ?x)] =>
      is_const p; let E := field_equation p f i h x in rewrite E; cbv beta
  end.
Ltac read_fields_in H :=
  repeat match type of H with
  | context [?p (@update _ _ ?f ?i ?h ?x)] =>
      is_const p; let E := field_equation p f i h x in rewrite E in H; cbv beta in H
  end.
