(* ===== verification/Ieee.v ===== *)
(** * IEEE-754 values behind the C++ [float] and [double] of the source

    C++ floating point is the Standard Library's executable specification
    [SpecFloat]: a value is a [spec_float], an operation at a format is the
    [SF] operation at that format's precision and maximal exponent.  This file
    adds the bit encodings ([memcpy] between a float and an integer), the
    conversions between formats, the [<cmath>] helpers the source calls, and the
    theory of rounding to nearest-even used by the conversion proofs:
    [binary_round] is characterised by integer division ([binary_round_spec])
    and depends only on the rounded value ([binary_round_double]). *)

From Stdlib Require Import ZArith Lia.
From Stdlib Require Export SpecFloat.
From stdpp Require Import base numbers.
From S2P Require Import Prelude.

(** ** Formats *)

Definition prec16 : Z := 11.
Definition emax16 : Z := 16.
Definition prec32 : Z := 24.
Definition emax32 : Z := 128.
Definition prec64 : Z := 53.
Definition emax64 : Z := 1024.

(** The value of a word with [mw] fraction bits and [ew] exponent bits. *)
Definition decode_bits (mw ew x : Z) : spec_float :=
  let s := Z.testbit x (mw + ew) in
  let e := Z.land (Z.shiftr x mw) (Z.ones ew) in
  let f := Z.land x (Z.ones mw) in
  let bias := 2 ^ (ew - 1) - 1 in
  if e =? 0 then
    (if f =? 0 then S754_zero s else S754_finite s (Z.to_pos f) (1 - bias - mw))
  else if e =? Z.ones ew then
    (if f =? 0 then S754_infinity s else S754_nan)
  else S754_finite s (Z.to_pos (f + 2 ^ mw)) (e - bias - mw).

(** The word of a value; a NaN is given the canonical quiet payload. *)
Definition encode_bits (mw ew : Z) (x : spec_float) : Z :=
  let sb (s : bool) := if s then 2 ^ (mw + ew) else 0 in
  let bias := 2 ^ (ew - 1) - 1 in
  match x with
  | S754_zero s => sb s
  | S754_infinity s => sb s + Z.ones ew * 2 ^ mw
  | S754_nan => Z.ones ew * 2 ^ mw + 2 ^ (mw - 1)
  | S754_finite s m e =>
      if Z.pos m <? 2 ^ mw then sb s + Z.pos m
      else sb s + (e + bias + mw) * 2 ^ mw + (Z.pos m - 2 ^ mw)
  end.

Definition half_of_bits : Z -> spec_float := decode_bits 10 5.
Definition bits_of_half : spec_float -> Z := encode_bits 10 5.
Definition float_of_bits : Z -> spec_float := decode_bits 23 8.
Definition bits_of_float : spec_float -> Z := encode_bits 23 8.

(** [static_cast] to the format [(p, emax)]: one rounding of the value. *)
Definition SFconv (p emax : Z) (x : spec_float) : spec_float :=
  match x with
  | S754_finite s m e => binary_round p emax s m e
  | _ => x
  end.

Definition to_half : spec_float -> spec_float := SFconv prec16 emax16.
Definition to_float : spec_float -> spec_float := SFconv prec32 emax32.
Definition to_double : spec_float -> spec_float := SFconv prec64 emax64.

(** ** [<cmath>] *)

Definition isfinite (x : spec_float) : bool :=
  match x with S754_finite _ _ _ | S754_zero _ => true | _ => false end.
Definition is_zero (x : spec_float) : bool :=
  match x with S754_zero _ => true | _ => false end.
Definition is_nan (x : spec_float) : bool :=
  match x with S754_nan => true | _ => false end.

(** A NaN has no sign here, so [copysign] from one keeps the magnitude. *)
Definition signbit (x : spec_float) : bool :=
  match x with
  | S754_zero s | S754_infinity s | S754_finite s _ _ => s
  | S754_nan => false
  end.
Definition copysign (x y : spec_float) : spec_float :=
  match x with
  | S754_zero _ => S754_zero (signbit y)
  | S754_infinity _ => S754_infinity (signbit y)
  | S754_finite _ m e => S754_finite (signbit y) m e
  | S754_nan => S754_nan
  end.

(** [std::frexp]'s exponent: [2^(e-1) <= |x| < 2^e]; [0] for a zero. *)
Definition frexp_exponent (x : spec_float) : Z :=
  match x with
  | S754_finite _ m e => Zdigits2 (Z.pos m) + e
  | _ => 0
  end.

(** [std::ldexp], [std::floor] on a [double]. *)
Definition ldexp (x : spec_float) (n : Z) : spec_float := SFldexp prec64 emax64 x n.
Definition floor (x : spec_float) : spec_float :=
  match x with
  | S754_finite s m e =>
      if 0 <=? e then x
      else binary_normalize prec64 emax64 (cond_Zopp s (Z.pos m) / 2 ^ (- e)) 0 s
  | _ => x
  end.

(** [std::fma] at a format: the exact product and sum, rounded once. *)
Definition SFfma (p emax : Z) (x y z : spec_float) : spec_float :=
  match x, y, z with
  | S754_finite sx mx ex, S754_finite sy my ey, S754_finite sz mz ez =>
      let e := Z.min (ex + ey) ez in
      let prod := cond_Zopp (xorb sx sy) (Z.pos mx * Z.pos my * 2 ^ (ex + ey - e)) in
      let add := cond_Zopp sz (Z.pos mz * 2 ^ (ez - e)) in
      binary_normalize p emax (prod + add) e false
  | S754_finite sx mx ex, S754_finite sy my ey, S754_zero _ =>
      binary_round p emax (xorb sx sy) (mx * my) (ex + ey)
  | S754_finite _ _ _, S754_finite _ _ _, _ => z
  | _, _, _ => SFadd p emax (SFmul p emax x y) z
  end.

(** ** Rounding to nearest, ties to even, as integer division *)

(** [m / 2^n] rounded to the nearest integer, ties to even. *)
Definition rne (m n : Z) : Z :=
  let q := m / 2 ^ n in
  let r := m mod 2 ^ n in
  if 2 * r <? 2 ^ n then q
  else if 2 ^ n <? 2 * r then q + 1
  else if Z.even q then q else q + 1.

Lemma rne_nearest m n k :
  0 <= n -> Z.abs (m - rne m n * 2 ^ n) <= Z.abs (m - k * 2 ^ n).
Proof.
  intros Hn. unfold rne.
  assert (Hp : 0 < 2 ^ n) by (apply Z.pow_pos_nonneg; lia).
  pose proof (Z.div_mod m (2 ^ n) ltac:(lia)) as E.
  pose proof (Z.mod_pos_bound m (2 ^ n) Hp) as B.
  set (q := m / 2 ^ n) in *. set (r := m mod 2 ^ n) in *. set (P := 2 ^ n) in *.
  replace (m - k * P) with (r - (k - q) * P) by nia.
  assert (D : k <= q \/ q + 1 <= k) by lia.
  repeat case_if; boolify.
  1: replace (m - q * P) with r by nia; destruct D; nia.
  1: replace (m - (q + 1) * P) with (r - P) by nia; destruct D; nia.
  1: replace (m - q * P) with r by nia; destruct D; nia.
  replace (m - (q + 1) * P) with (r - P) by nia; destruct D; nia.
Qed.

Lemma rne_tie_even m n :
  0 < n -> 2 * (m mod 2 ^ n) = 2 ^ n -> Z.even (rne m n) = true.
Proof.
  intros Hn H. unfold rne. rewrite H, Z.ltb_irrefl.
  destruct (Z.even (m / 2 ^ n)) eqn:E; [done|].
  rewrite Z.even_add, E. done.
Qed.

Lemma rne_bounds m n :
  0 <= m -> 0 <= n -> m / 2 ^ n <= rne m n <= m / 2 ^ n + 1.
Proof. intros. unfold rne. repeat case_if; lia. Qed.

Lemma rne_0_r m : rne m 0 = m.
Proof. unfold rne. change (2 ^ 0) with 1. rewrite Z.div_1_r, Z.mod_1_r. reflexivity. Qed.

(** Scaling the dividend and the divisor by two changes nothing. *)
Lemma rne_double m n : 0 <= n -> rne (2 * m) (n + 1) = rne m n.
Proof.
  intros Hn. unfold rne.
  assert (Hp : 0 < 2 ^ n) by (apply Z.pow_pos_nonneg; lia).
  rewrite Z.pow_add_r, Z.pow_1_r, (Z.mul_comm (2 ^ n)) by lia.
  rewrite Z.div_mul_cancel_l by lia.
  rewrite Zmult_mod_distr_l.
  repeat match goal with |- context [?a <? ?b] => destruct (Z.ltb_spec a b) end;
    try lia; reflexivity.
Qed.

(** ** [binary_round] through [rne] *)

Lemma digits2_log2 p : Z.pos (digits2_pos p) = Z.log2 (Z.pos p) + 1.
Proof.
  induction p as [p IH|p IH|]; [| |reflexivity]; cbn [digits2_pos];
    rewrite Pos2Z.inj_succ, IH.
  - change (Z.pos p~1) with (2 * Z.pos p + 1). rewrite Z.log2_succ_double; lia.
  - change (Z.pos p~0) with (2 * Z.pos p). rewrite Z.log2_double; lia.
Qed.

Lemma Zdigits2_log2 m : 0 < m -> Zdigits2 m = Z.log2 m + 1.
Proof. destruct m; try lia. intros _. apply digits2_log2. Qed.

Lemma Zdigits2_bounds m : 0 < m -> 2 ^ (Zdigits2 m - 1) <= m < 2 ^ Zdigits2 m.
Proof.
  intros H. rewrite Zdigits2_log2 by done.
  pose proof (Z.log2_spec m H). rewrite Z.add_simpl_r. lia.
Qed.

Lemma Zdigits2_unique m d : 2 ^ (d - 1) <= m < 2 ^ d -> 0 < d -> Zdigits2 m = d.
Proof.
  intros H Hd. assert (0 < m) by (pose proof (Z.pow_pos_nonneg 2 (d - 1)); lia).
  rewrite Zdigits2_log2 by done.
  rewrite (Z.log2_unique m (d - 1)); [lia | lia |].
  replace (Z.succ (d - 1)) with d by lia. done.
Qed.

Lemma Zdigits2_double m : 0 < m -> Zdigits2 (2 * m) = Zdigits2 m + 1.
Proof. intros. rewrite !Zdigits2_log2 by lia. rewrite Z.log2_double by lia. lia. Qed.

Lemma Zdigits2_pow2 m k : 0 < m -> 0 <= k -> Zdigits2 (m * 2 ^ k) = Zdigits2 m + k.
Proof.
  intros. pose proof (Z.pow_pos_nonneg 2 k ltac:(lia) ltac:(lia)).
  rewrite !Zdigits2_log2 by nia. rewrite Z.log2_mul_pow2 by lia. lia.
Qed.

Lemma iter_pos_nat {A} (f : A -> A) p x :
  SpecFloat.iter_pos f p x = Nat.iter (Pos.to_nat p) f x.
Proof.
  revert x. induction p as [p IH|p IH|]; intros x; cbn [SpecFloat.iter_pos].
  - rewrite !IH, Pos2Nat.inj_xI. replace (S (2 * Pos.to_nat p)) with
      (Pos.to_nat p + (Pos.to_nat p + 1))%nat by lia.
    rewrite !Nat.iter_add. reflexivity.
  - rewrite !IH, Pos2Nat.inj_xO. replace (2 * Pos.to_nat p)%nat with
      (Pos.to_nat p + Pos.to_nat p)%nat by lia.
    rewrite Nat.iter_add. reflexivity.
  - reflexivity.
Qed.

(** What [n] one-bit right shifts of an exact mantissa leave behind. *)
Lemma shr_iter m n :
  0 <= m ->
  Nat.iter n shr_1 {| shr_m := m; shr_r := false; shr_s := false |} =
  {| shr_m := m / 2 ^ Z.of_nat n;
     shr_r := match n with O => false | S k => Z.odd (m / 2 ^ Z.of_nat k) end;
     shr_s := match n with O => false | S k => negb (m mod 2 ^ Z.of_nat k =? 0) end |}.
Proof.
  intros Hm. induction n as [|n IH]; [cbn; rewrite Z.div_1_r; reflexivity|].
  change (Nat.iter (S n) ?f ?x) with (f (Nat.iter n f x)). rewrite IH. clear IH.
  assert (Hq : 0 <= m / 2 ^ Z.of_nat n) by (apply Z.div_pos; lia).
  assert (Ed : m / 2 ^ Z.of_nat (S n) = m / 2 ^ Z.of_nat n / 2).
  { rewrite Nat2Z.inj_succ, Z.pow_succ_r by lia.
    rewrite (Z.mul_comm 2), Z.div_div by lia. reflexivity. }
  rewrite Ed.
  assert (Es : (match n with O => false | S k => Z.odd (m / 2 ^ Z.of_nat k) end ||
      match n with O => false | S k => negb (m mod 2 ^ Z.of_nat k =? 0) end)%bool =
      negb (m mod 2 ^ Z.of_nat n =? 0)).
  { destruct n as [|k]; [cbn; rewrite Z.mod_1_r; reflexivity|].
    rewrite Nat2Z.inj_succ, Z.pow_succ_r, (Z.mul_comm 2) by lia.
    assert (0 < 2 ^ Z.of_nat k) by (apply Z.pow_pos_nonneg; lia).
    rewrite Z.rem_mul_r, (Zmod_odd (m / 2 ^ Z.of_nat k)) by lia.
    pose proof (Z.mod_pos_bound m (2 ^ Z.of_nat k) ltac:(lia)).
    destruct (Z.odd _); destruct (Z.eqb_spec (m mod 2 ^ Z.of_nat k) 0);
      cbn [negb orb]; symmetry; first [apply negb_true_iff, Z.eqb_neq | apply negb_false_iff, Z.eqb_eq]; lia. }
  unfold shr_1. fold shr_1. rewrite Es.
  set (q := m / 2 ^ Z.of_nat n) in *.
  destruct q as [|[p|p|]|p]; try lia; cbn [Z.odd];
    f_equal; try reflexivity.
  - change (Z.pos p~1) with (1 + 2 * Z.pos p). rewrite Z.add_comm, Z.mul_comm, Z.div_add_l by lia. reflexivity.
  - change (Z.pos p~0) with (2 * Z.pos p). rewrite Z.mul_comm, Z.div_mul by lia. reflexivity.
Qed.

(** Shifting and then rounding on the two lost bits is [rne]. *)
Lemma round_shr_rne m n :
  0 <= m ->
  let mrs := Nat.iter n shr_1 {| shr_m := m; shr_r := false; shr_s := false |} in
  round_nearest_even (shr_m mrs) (loc_of_shr_record mrs) = rne m (Z.of_nat n).
Proof.
  intros Hm. cbv zeta. rewrite shr_iter by done. cbn [shr_m].
  destruct n as [|k]; [cbn [loc_of_shr_record round_nearest_even]; change (Z.of_nat 0) with 0;
    rewrite Z.pow_0_r, Z.div_1_r, rne_0_r; reflexivity|].
  set (P := 2 ^ Z.of_nat k).
  assert (0 < P) by (apply Z.pow_pos_nonneg; lia).
  assert (EP : 2 ^ Z.of_nat (S k) = 2 * P)
    by (rewrite Nat2Z.inj_succ, Z.pow_succ_r by lia; reflexivity).
  unfold rne. rewrite EP.
  assert (EM : m mod (2 * P) = m mod P + P * (m / P mod 2))
    by (rewrite (Z.mul_comm 2), Z.rem_mul_r by lia; reflexivity).
  rewrite EM, (Zmod_odd (m / P)).
  pose proof (Z.mod_pos_bound m P ltac:(lia)).
  destruct (Z.odd (m / P)); destruct (Z.eqb_spec (m mod P) 0); cbn [negb loc_of_shr_record round_nearest_even];
    repeat match goal with |- context [?a <? ?b] => destruct (Z.ltb_spec a b); try lia end;
    reflexivity.
Qed.

(** The reference rounding of [m * 2^e] to [p] bits. *)
Definition round_at (p emax : Z) (s : bool) (m e : Z) : spec_float :=
  let f := fexp p emax (Zdigits2 m + e) in
  let q := if f <=? e then m * 2 ^ (e - f) else rne m (f - e) in
  if q =? 0 then S754_zero s
  else if q =? 2 ^ p then
    (if f + 1 <=? emax - p then S754_finite s (Z.to_pos (2 ^ (p - 1))) (f + 1)
     else S754_infinity s)
  else if f <=? emax - p then S754_finite s (Z.to_pos q) f else S754_infinity s.

Section round_theory.
Context (p emax : Z).
Hypothesis Hp : 1 < p.
Hypothesis Hemax : 1 < emax.

Lemma shl_iter m d : Z.pos (Pos.iter xO m d) = Z.pos m * 2 ^ Z.pos d.
Proof.
  induction d as [|d IH] using Pos.peano_ind; [cbn; lia|].
  rewrite Pos.iter_succ, Pos2Z.inj_succ, Z.pow_succ_r by lia.
  change (Z.pos (Pos.iter xO m d)~0) with (2 * Z.pos (Pos.iter xO m d)).
  rewrite IH. lia.
Qed.

(** The mantissa [binary_round] hands to [binary_round_aux]. *)
Lemma shl_align_spec m e f :
  shl_align m e f =
  (if f <? e then (Z.to_pos (Z.pos m * 2 ^ (e - f)), f) else (m, e)).
Proof.
  unfold shl_align.
  destruct (f - e) as [|d|d] eqn:E; destruct (Z.ltb_spec f e); try lia; try done.
  f_equal. replace (e - f) with (Z.pos d) by lia. rewrite <- shl_iter. reflexivity.
Qed.

Lemma shr_fexp_exact m e :
  0 <= m ->
  shr_fexp p emax m e loc_Exact =
  let n := Z.max 0 (fexp p emax (Zdigits2 m + e) - e) in
  (Nat.iter (Z.to_nat n) shr_1 {| shr_m := m; shr_r := false; shr_s := false |}, e + n).
Proof.
  intros Hm. unfold shr_fexp, shr. cbn [shr_record_of_loc]. cbv zeta.
  destruct (fexp p emax (Zdigits2 m + e) - e) as [|d|d] eqn:E.
  - rewrite Z.max_id. cbn. f_equal; lia.
  - rewrite iter_pos_nat, Z.max_r by lia. rewrite Z2Nat.inj_pos. reflexivity.
  - rewrite Z.max_l by lia. cbn. f_equal; lia.
Qed.

Lemma fexp_ge_emin d : SpecFloat.emin p emax <= fexp p emax d.
Proof. unfold fexp. lia. Qed.

(** Rounding at the exponent [fexp] asks for leaves at most [2^p]. *)
Lemma rne_fexp_bound m e :
  0 < m -> e < fexp p emax (Zdigits2 m + e) ->
  0 <= rne m (fexp p emax (Zdigits2 m + e) - e) <= 2 ^ p.
Proof.
  intros Hm Hf. set (f := fexp _ _ _) in *.
  pose proof (Zdigits2_bounds m Hm) as B.
  pose proof (rne_bounds m (f - e) ltac:(lia) ltac:(lia)) as R.
  assert (Hd : 0 < Zdigits2 m) by (rewrite Zdigits2_log2 by done; pose proof (Z.log2_nonneg m); lia).
  assert (m / 2 ^ (f - e) < 2 ^ p).
  { apply Z.div_lt_upper_bound; [apply Z.pow_pos_nonneg; lia|].
    rewrite <- Z.pow_add_r by lia.
    eapply Z.lt_le_trans; [apply B|]. apply Z.pow_le_mono_r; [lia|].
    unfold f, fexp. lia. }
  assert (0 <= m / 2 ^ (f - e)) by (apply Z.div_pos; [lia|apply Z.pow_pos_nonneg; lia]).
  lia.
Qed.

(** The last normalisation of [binary_round_aux]: only a carry out of the top
    bit moves the exponent. *)
Lemma renorm_spec s q f :
  0 <= q <= 2 ^ p -> SpecFloat.emin p emax <= f ->
  (let '(mrs, e) := shr_fexp p emax q f loc_Exact in
   match shr_m mrs with
   | Z0 => S754_zero s
   | Z.pos m => if e <=? emax - p then S754_finite s m e else S754_infinity s
   | _ => S754_nan
   end) =
  (if q =? 0 then S754_zero s
   else if q =? 2 ^ p then
     (if f + 1 <=? emax - p then S754_finite s (Z.to_pos (2 ^ (p - 1))) (f + 1)
      else S754_infinity s)
   else if f <=? emax - p then S754_finite s (Z.to_pos q) f else S754_infinity s).
Proof.
  intros Hq Hf. rewrite shr_fexp_exact by lia. cbv zeta.
  assert (H2 : 0 < 2 ^ p) by (apply Z.pow_pos_nonneg; lia).
  destruct (Z.eqb_spec q 0) as [->|Hq0].
  { rewrite shr_iter by lia. cbn [shr_m]. rewrite Z.div_0_l by (apply Z.pow_nonzero; lia). done. }
  destruct (Z.eqb_spec q (2 ^ p)) as [->|Hqp].
  - assert (Ed : Zdigits2 (2 ^ p) = p + 1).
    { apply Zdigits2_unique; [|lia]. rewrite Z.add_simpl_r.
      split; [lia|]. apply Z.pow_lt_mono_r; lia. }
    rewrite Ed. unfold fexp. replace (Z.max _ _ - f) with 1 by lia.
    change (Z.to_nat (Z.max 0 1)) with 1%nat. change (Z.max 0 1) with 1.
    rewrite shr_iter by lia. cbn [shr_m]. change (Z.of_nat 1) with 1.
    assert (E2 : 2 ^ p / 2 ^ 1 = 2 ^ (p - 1)) by (rewrite <- Z.pow_sub_r by lia; reflexivity).
    rewrite E2. pose proof (Z.pow_pos_nonneg 2 (p - 1) ltac:(lia) ltac:(lia)).
    destruct (2 ^ (p - 1)) eqn:E3; try lia. reflexivity.
  - assert (Hd : Zdigits2 q <= p).
    { rewrite Zdigits2_log2 by lia. assert (Z.log2 q < p) by (apply Z.log2_lt_pow2; lia). lia. }
    assert (E0 : Z.max 0 (fexp p emax (Zdigits2 q + f) - f) = 0) by (unfold fexp; lia).
    rewrite E0. cbn [Z.to_nat Nat.iter nat_rect shr_m]. rewrite Z.add_0_r.
    destruct q; try lia. reflexivity.
Qed.

Lemma binary_round_aux_exact s m e :
  0 < m -> e <= fexp p emax (Zdigits2 m + e) ->
  binary_round_aux p emax s m e loc_Exact = round_at p emax s m e.
Proof.
  intros Hm He. unfold binary_round_aux.
  rewrite shr_fexp_exact by lia. cbv beta iota zeta.
  set (f := fexp p emax (Zdigits2 m + e)) in *.
  rewrite round_shr_rne by lia. rewrite Z2Nat.id by lia.
  rewrite Z.max_r by lia. replace (e + (f - e)) with f by lia.
  rewrite renorm_spec.
  - unfold round_at. fold f. destruct (Z.leb_spec f e).
    + replace (f - e) with 0 by lia. replace (e - f) with 0 by lia.
      rewrite rne_0_r, Z.pow_0_r, Z.mul_1_r. reflexivity.
    + reflexivity.
  - destruct (decide (e = f)) as [E|E].
    + rewrite E, Z.sub_diag, rne_0_r. pose proof (Zdigits2_bounds m Hm).
      split; [lia|]. apply Z.lt_le_incl. eapply Z.lt_le_trans; [apply H|].
      apply Z.pow_le_mono_r; [lia|]. unfold f, fexp in E. lia.
    + apply rne_fexp_bound; [done|]. fold f. lia.
  - apply fexp_ge_emin.
Qed.

(** [binary_round] is the reference rounding of [m * 2^e]. *)
Lemma binary_round_spec s m e :
  binary_round p emax s m e = round_at p emax s (Z.pos m) e.
Proof.
  unfold binary_round. change (Z.pos (digits2_pos m)) with (Zdigits2 (Z.pos m)).
  rewrite shl_align_spec. set (f := fexp _ _ _) in *.
  destruct (Z.ltb_spec f e) as [L|L].
  - pose proof (Z.pow_pos_nonneg 2 (e - f) ltac:(lia) ltac:(lia)).
    rewrite Z2Pos.id by lia.
    assert (Ed : Zdigits2 (Z.pos m * 2 ^ (e - f)) + f = Zdigits2 (Z.pos m) + e)
      by (rewrite Zdigits2_pow2 by lia; lia).
    rewrite binary_round_aux_exact; [|lia|rewrite Ed; fold f; lia].
    unfold round_at. rewrite Ed. fold f.
    rewrite Z.leb_refl, Z.sub_diag, Z.pow_0_r, Z.mul_1_r.
    destruct (Z.leb_spec f e); [reflexivity|lia].
  - apply binary_round_aux_exact; [lia|]. fold f. lia.
Qed.

(** Rounding depends only on the value [m * 2^e]. *)
Lemma round_at_double s m e :
  0 < m -> round_at p emax s (2 * m) e = round_at p emax s m (e + 1).
Proof.
  intros Hm. unfold round_at. rewrite Zdigits2_double by done.
  replace (Zdigits2 m + 1 + e) with (Zdigits2 m + (e + 1)) by lia.
  set (f := fexp _ _ _).
  assert (E : (if f <=? e then 2 * m * 2 ^ (e - f) else rne (2 * m) (f - e)) =
              (if f <=? e + 1 then m * 2 ^ (e + 1 - f) else rne m (f - (e + 1)))).
  { destruct (Z.leb_spec f e); destruct (Z.leb_spec f (e + 1)); try lia.
    - replace (e + 1 - f) with (Z.succ (e - f)) by lia. rewrite Z.pow_succ_r by lia. lia.
    - replace (f - e) with (0 + 1) by lia. rewrite rne_double, rne_0_r by lia.
      replace (e + 1 - f) with 0 by lia. lia.
    - replace (f - e) with (f - (e + 1) + 1) by lia. rewrite rne_double by lia. reflexivity. }
  rewrite E. reflexivity.
Qed.

Lemma round_at_scale s m e k :
  0 < m -> 0 <= k -> round_at p emax s (m * 2 ^ k) e = round_at p emax s m (e + k).
Proof.
  intros Hm Hk. revert e. pattern k. apply natlike_ind; [|clear k Hk; intros k Hk IH e|done].
  - intros e. rewrite Z.pow_0_r, Z.mul_1_r, Z.add_0_r. reflexivity.
  - pose proof (Z.pow_pos_nonneg 2 k ltac:(lia) ltac:(lia)).
    rewrite Z.pow_succ_r by lia. replace (m * (2 * 2 ^ k)) with (2 * (m * 2 ^ k)) by lia.
    rewrite round_at_double by nia. rewrite IH. f_equal. lia.
Qed.

(** A value that already fits is only renormalised: no bit is lost. *)
Lemma round_at_exact s m e :
  0 < m -> fexp p emax (Zdigits2 m + e) <= e -> Zdigits2 m + e <= emax ->
  round_at p emax s m e =
  S754_finite s (Z.to_pos (m * 2 ^ (e - fexp p emax (Zdigits2 m + e))))
    (fexp p emax (Zdigits2 m + e)).
Proof.
  intros Hm Hf Hmax. unfold round_at. set (f := fexp _ _ _) in *.
  pose proof (Zdigits2_bounds m Hm) as B.
  pose proof (Z.pow_pos_nonneg 2 (e - f) ltac:(lia) ltac:(lia)).
  assert (Hd : 0 < Zdigits2 m) by (rewrite Zdigits2_log2 by done; pose proof (Z.log2_nonneg m); lia).
  assert (m * 2 ^ (e - f) < 2 ^ p).
  { eapply Z.lt_le_trans; [apply Z.mul_lt_mono_pos_r; [done|apply B]|].
    rewrite <- Z.pow_add_r by lia. apply Z.pow_le_mono_r; [lia|]. unfold f, fexp. lia. }
  rewrite (proj2 (Z.leb_le f e)) by lia.
  rewrite (proj2 (Z.eqb_neq _ 0)) by nia.
  rewrite (proj2 (Z.eqb_neq _ (2 ^ p))) by lia.
  destruct (Z.leb_spec f (emax - p)) as [|C]; [reflexivity|].
  exfalso. unfold f, fexp, SpecFloat.emin in C, Hf. lia.
Qed.
End round_theory.

(** ** Bit fields *)

(** The word with sign [s], exponent field [E] and fraction field [F]. *)
Definition pack (mw ew : Z) (s : bool) (E F : Z) : Z :=
  Z.b2z s * 2 ^ (mw + ew) + E * 2 ^ mw + F.

Definition fields_value (mw ew : Z) (s : bool) (E F : Z) : spec_float :=
  let bias := 2 ^ (ew - 1) - 1 in
  if E =? 0 then
    (if F =? 0 then S754_zero s else S754_finite s (Z.to_pos F) (1 - bias - mw))
  else if E =? Z.ones ew then
    (if F =? 0 then S754_infinity s else S754_nan)
  else S754_finite s (Z.to_pos (F + 2 ^ mw)) (E - bias - mw).

Lemma lor_shl_add a b n : 0 <= b < 2 ^ n -> Z.lor (a * 2 ^ n) b = a * 2 ^ n + b.
Proof.
  intros Hb. destruct (Z.lt_ge_cases n 0) as [|Hn]; [rewrite Z.pow_neg_r in Hb; lia|].
  assert (Hl : Z.land (a * 2 ^ n) b = 0).
  { apply Z.bits_inj'. intros i Hi.
    rewrite Z.land_spec, Z.bits_0, <- Z.shiftl_mul_pow2, Z.shiftl_spec by lia.
    destruct (Z.lt_ge_cases i n).
    - rewrite (Z.testbit_neg_r a) by lia. reflexivity.
    - rewrite (testbit_above b n) by lia. apply andb_false_r. }
  rewrite <- Z.lxor_lor, Z.add_nocarry_lxor by done. reflexivity.
Qed.

Lemma land_pow2 x k : 0 <= k -> Z.land x (2 ^ k) = Z.b2z (Z.testbit x k) * 2 ^ k.
Proof.
  intros Hk. apply Z.bits_inj'. intros i Hi.
  rewrite Z.land_spec, Z.pow2_bits_eqb by lia.
  rewrite <- Z.shiftl_mul_pow2, Z.shiftl_spec by lia.
  destruct (Z.eqb_spec k i) as [->|].
  - rewrite Z.sub_diag. destruct (Z.testbit x i); reflexivity.
  - rewrite andb_false_r. destruct (Z.lt_ge_cases i k).
    + rewrite Z.testbit_neg_r by lia. reflexivity.
    + symmetry. apply (testbit_above _ 1); [destruct (Z.testbit x k); cbn; lia|lia].
Qed.

Section fields.
Context (mw ew : Z) (s : bool) (E F : Z).
Hypothesis Hmw : 0 < mw.
Hypothesis Hew : 0 < ew.
Hypothesis HE : 0 <= E < 2 ^ ew.
Hypothesis HF : 0 <= F < 2 ^ mw.

Lemma pack_low_range : 0 <= E * 2 ^ mw + F < 2 ^ (mw + ew).
Proof. rewrite Z.pow_add_r by lia. nia. Qed.

Lemma pack_shiftr : Z.shiftr (pack mw ew s E F) mw = Z.b2z s * 2 ^ ew + E.
Proof.
  rewrite Z.shiftr_div_pow2 by lia. unfold pack. rewrite Z.pow_add_r by lia.
  replace (Z.b2z s * (2 ^ mw * 2 ^ ew) + E * 2 ^ mw + F)
    with ((Z.b2z s * 2 ^ ew + E) * 2 ^ mw + F) by ring.
  rewrite Z.div_add_l, Z.div_small by lia. lia.
Qed.

Lemma pack_exponent : Z.land (Z.shiftr (pack mw ew s E F) mw) (Z.ones ew) = E.
Proof.
  rewrite pack_shiftr, Z.land_ones by lia.
  rewrite Z.add_comm, Z.mod_add by lia. apply Z.mod_small. lia.
Qed.

Lemma pack_fraction : Z.land (pack mw ew s E F) (Z.ones mw) = F.
Proof.
  rewrite Z.land_ones by lia. unfold pack. rewrite Z.pow_add_r by lia.
  replace (Z.b2z s * (2 ^ mw * 2 ^ ew) + E * 2 ^ mw + F)
    with (F + (Z.b2z s * 2 ^ ew + E) * 2 ^ mw) by ring.
  rewrite Z.mod_add by lia. apply Z.mod_small. lia.
Qed.

Lemma pack_sign : Z.testbit (pack mw ew s E F) (mw + ew) = s.
Proof.
  unfold pack. rewrite <- Z.add_assoc.
  rewrite Z.testbit_eqb, Z.div_add_l, Z.div_small by (pose proof pack_low_range; lia).
  destruct s; reflexivity.
Qed.

Lemma decode_pack : decode_bits mw ew (pack mw ew s E F) = fields_value mw ew s E F.
Proof. unfold decode_bits. rewrite pack_exponent, pack_fraction, pack_sign. reflexivity. Qed.

Lemma pack_range : 0 <= pack mw ew s E F < 2 ^ (mw + ew + 1).
Proof.
  unfold pack. pose proof pack_low_range. rewrite (Z.pow_add_r 2 (mw + ew)) by lia.
  destruct s; cbn [Z.b2z]; lia.
Qed.
End fields.

(** Encoding a value read from its fields gives the word back. *)
Lemma encode_fields mw ew s E F :
  0 < mw -> 0 < ew -> 0 <= E < 2 ^ ew -> 0 <= F < 2 ^ mw -> ~ (E = Z.ones ew /\ F <> 0) ->
  encode_bits mw ew (fields_value mw ew s E F) = pack mw ew s E F.
Proof.
  intros Hm He HE HF Hn. unfold fields_value, pack.
  assert (forall b : bool, (if b then 2 ^ (mw + ew) else 0) = Z.b2z b * 2 ^ (mw + ew)) as Sb
    by (intros []; cbn [Z.b2z]; lia).
  destruct (Z.eqb_spec E 0) as [->|].
  - destruct (Z.eqb_spec F 0) as [->|]; unfold encode_bits; [rewrite Sb; lia|].
    rewrite Z2Pos.id, (proj2 (Z.ltb_lt F (2 ^ mw))), Sb by lia. lia.
  - destruct (Z.eqb_spec E (Z.ones ew)) as [E1|].
    + destruct (Z.eqb_spec F 0) as [->|]; [|tauto]. unfold encode_bits. rewrite Sb, <- E1. lia.
    + unfold encode_bits. rewrite Z2Pos.id by lia.
      rewrite (proj2 (Z.ltb_ge _ _)), Sb by lia. lia.
Qed.

(** Decoding an encoded value gives it back. *)
Lemma decode_encode mw ew x :
  1 < mw -> 1 < ew -> valid_binary (mw + 1) (2 ^ (ew - 1)) x = true ->
  decode_bits mw ew (encode_bits mw ew x) = x.
Proof.
  intros Hm He V.
  assert (0 < 2 ^ (ew - 1)) as Pe by (apply Z.pow_pos_nonneg; lia).
  assert (2 ^ ew = 2 * 2 ^ (ew - 1)) as Ee by (rewrite <- Z.pow_succ_r by lia; f_equal; lia).
  assert (0 < 2 ^ (mw - 1)) as Pm by (apply Z.pow_pos_nonneg; lia).
  assert (2 ^ mw = 2 * 2 ^ (mw - 1)) as Em by (rewrite <- Z.pow_succ_r by lia; f_equal; lia).
  assert (2 <= 2 ^ (ew - 1)) as Pe2 by (change 2 with (2 ^ 1) at 1; apply Z.pow_le_mono_r; lia).
  assert (Z.ones ew = 2 ^ ew - 1) as Eo by (rewrite Z.ones_equiv; lia).
  assert (P : forall b E F, 0 <= E < 2 ^ ew -> 0 <= F < 2 ^ mw ->
    decode_bits mw ew ((if b : bool then 2 ^ (mw + ew) else 0) + E * 2 ^ mw + F) = fields_value mw ew b E F).
  { intros b E F HE HF. rewrite <- decode_pack by lia. f_equal. unfold pack. destruct b; cbn [Z.b2z]; lia. }
  destruct x as [s|s| |s m e]; unfold encode_bits.
  - replace (if s then 2 ^ (mw + ew) else 0) with ((if s then 2 ^ (mw + ew) else 0) + 0 * 2 ^ mw + 0) by lia.
    rewrite P by lia. reflexivity.
  - replace ((if s then 2 ^ (mw + ew) else 0) + Z.ones ew * 2 ^ mw)
      with ((if s then 2 ^ (mw + ew) else 0) + Z.ones ew * 2 ^ mw + 0) by lia.
    rewrite P by lia. unfold fields_value. rewrite (proj2 (Z.eqb_neq (Z.ones ew) 0)), Z.eqb_refl by lia. reflexivity.
  - change (Z.ones ew * 2 ^ mw + 2 ^ (mw - 1)) with ((if false then 2 ^ (mw + ew) else 0) + Z.ones ew * 2 ^ mw + 2 ^ (mw - 1)).
    rewrite P by lia. unfold fields_value.
    rewrite (proj2 (Z.eqb_neq (Z.ones ew) 0)), Z.eqb_refl, (proj2 (Z.eqb_neq (2 ^ (mw - 1)) 0)) by lia. reflexivity.
  - cbn in V. unfold bounded, canonical_mantissa in V. boolify.
    change (Z.pos (digits2_pos m)) with (Zdigits2 (Z.pos m)) in *.
    unfold fexp, SpecFloat.emin in *.
    pose proof (Zdigits2_bounds (Z.pos m) ltac:(lia)) as [B1 B2].
    destruct (Z.ltb_spec (Z.pos m) (2 ^ mw)) as [L|L].
    + assert (Zdigits2 (Z.pos m) <= mw) as Hd.
      { rewrite Zdigits2_log2 by lia. assert (Z.log2 (Z.pos m) < mw) by (apply Z.log2_lt_pow2; lia). lia. }
      replace ((if s then 2 ^ (mw + ew) else 0) + Z.pos m)
        with ((if s then 2 ^ (mw + ew) else 0) + 0 * 2 ^ mw + Z.pos m) by lia.
      rewrite P by lia. unfold fields_value. cbn [Z.eqb]. f_equal. lia.
    + assert (2 ^ mw < 2 ^ Zdigits2 (Z.pos m)) as Hd by lia.
      apply Z.pow_lt_mono_r_iff in Hd; [|lia|].
      2:{ rewrite Zdigits2_log2 by lia. pose proof (Z.log2_nonneg (Z.pos m)). lia. }
      assert (Z.pos m < 2 ^ (mw + 1)) as Hm1 by (eapply Z.lt_le_trans; [exact B2|apply Z.pow_le_mono_r; lia]).
      rewrite Z.pow_add_r, Z.pow_1_r in Hm1 by lia.
      rewrite P by lia. unfold fields_value. cbv zeta. rewrite !(proj2 (Z.eqb_neq _ _)) by lia.
      f_equal; [|lia]. replace (Z.pos m - 2 ^ mw + 2 ^ mw) with (Z.pos m) by lia. reflexivity.
Qed.

(** Every word in range is the packing of its fields. *)
Lemma pack_fields mw ew x :
  0 < mw -> 0 < ew -> 0 <= x < 2 ^ (mw + ew + 1) ->
  let s := Z.testbit x (mw + ew) in
  let E := Z.land (Z.shiftr x mw) (Z.ones ew) in
  let F := Z.land x (Z.ones mw) in
  x = pack mw ew s E F /\ 0 <= E < 2 ^ ew /\ 0 <= F < 2 ^ mw.
Proof.
  intros Hm He Hx. cbv zeta.
  rewrite !Z.land_ones, Z.shiftr_div_pow2 by lia.
  assert (0 < 2 ^ mw) by (apply Z.pow_pos_nonneg; lia).
  assert (0 < 2 ^ ew) by (apply Z.pow_pos_nonneg; lia).
  split; [|split; apply Z.mod_pos_bound; lia].
  assert (Hs : Z.b2z (Z.testbit x (mw + ew)) = x / 2 ^ (mw + ew)).
  { rewrite Z.testbit_spec' by lia. apply Z.mod_small. split.
    - apply Z.div_pos; [lia|apply Z.pow_pos_nonneg; lia].
    - apply Z.div_lt_upper_bound; [apply Z.pow_pos_nonneg; lia|].
      rewrite Z.pow_add_r in Hx by lia. lia. }
  unfold pack. rewrite Hs.
  assert (Ed : x / 2 ^ (mw + ew) = x / 2 ^ mw / 2 ^ ew)
    by (rewrite Z.pow_add_r, Z.div_div by lia; reflexivity).
  rewrite Ed, Z.pow_add_r by lia.
  pose proof (Z.div_mod x (2 ^ mw) ltac:(lia)).
  pose proof (Z.div_mod (x / 2 ^ mw) (2 ^ ew) ltac:(lia)). nia.
Qed.

Lemma rne_add_even m n k :
  0 <= n -> Z.even k = true -> rne (m + k * 2 ^ n) n = rne m n + k.
Proof.
  intros Hn Hk. assert (0 < 2 ^ n) by (apply Z.pow_pos_nonneg; lia).
  unfold rne. rewrite Z.div_add, Z.mod_add by lia.
  rewrite Z.even_add, Hk. destruct (Z.even (m / 2 ^ n)); cbn [Bool.eqb];
    repeat case_if; lia.
Qed.

(** Below half a unit the rounded quotient is zero. *)
Lemma rne_small m n : 0 <= m -> 2 * m < 2 ^ n -> rne m n = 0.
Proof.
  intros Hm Hl. assert (0 <= n) by (destruct (Z.lt_ge_cases n 0); [rewrite Z.pow_neg_r in Hl by done|]; lia).
  unfold rne. rewrite Z.div_small, Z.mod_small by lia.
  rewrite (proj2 (Z.ltb_lt (2 * m) (2 ^ n))) by lia. reflexivity.
Qed.

Lemma rne_exact k n : 0 <= n -> rne (k * 2 ^ n) n = k.
Proof.
  intros Hn. assert (0 < 2 ^ n) by (apply Z.pow_pos_nonneg; lia).
  unfold rne. rewrite Z.div_mul, Z.mod_mul by lia.
  rewrite (proj2 (Z.ltb_lt (2 * 0) _)) by lia. reflexivity.
Qed.

(** ** Exact values

    [exact p emax s n e] is the number [n * 2^e] in the format when it fits. *)

Definition fits (p emax n e : Z) : Prop :=
  0 < n /\ fexp p emax (Zdigits2 n + e) <= e /\ Zdigits2 n + e <= emax.

Section exact_theory.
Context (p emax : Z).
Hypothesis Hp : 1 < p.
Hypothesis Hemax : 1 < emax.

Lemma fits_intro n e :
  0 < n -> n < 2 ^ p -> SpecFloat.emin p emax <= e -> Zdigits2 n + e <= emax -> fits p emax n e.
Proof.
  intros Hn Hb He Hm. split; [done|]. split; [|done]. unfold fexp.
  assert (Zdigits2 n <= p); [|lia].
  rewrite Zdigits2_log2 by done. assert (Z.log2 n < p) by (apply Z.log2_lt_pow2; lia). lia.
Qed.

(** A value in canonical form rounds to itself. *)
Lemma round_at_canonical s m e :
  valid_binary p emax (S754_finite s m e) = true ->
  round_at p emax s (Z.pos m) e = S754_finite s m e.
Proof.
  cbn. unfold bounded, canonical_mantissa. intros H. boolify.
  change (Z.pos (digits2_pos m)) with (Zdigits2 (Z.pos m)) in H.
  rewrite round_at_exact by (done || lia ||
    (unfold fexp in H; rewrite <- H; lia) || (unfold fexp in *; lia)).
  rewrite H, Z.sub_diag, Z.pow_0_r, Z.mul_1_r. reflexivity.
Qed.

Lemma round_at_valid s n e : fits p emax n e -> valid_binary p emax (round_at p emax s n e) = true.
Proof.
  intros (Hn & Hf & Hm). rewrite round_at_exact by done. cbn.
  unfold bounded, canonical_mantissa. set (f := fexp _ _ _) in *.
  pose proof (Z.pow_pos_nonneg 2 (e - f) ltac:(lia) ltac:(lia)).
  change (Z.pos (digits2_pos ?x)) with (Zdigits2 (Z.pos x)).
  rewrite Z2Pos.id by nia. rewrite Zdigits2_pow2 by lia.
  replace (Zdigits2 n + (e - f) + f) with (Zdigits2 n + e) by lia. fold f.
  rewrite Z.eqb_refl. apply Z.leb_le. unfold f, fexp, SpecFloat.emin in *. lia.
Qed.

Lemma fits_canonical s m e :
  valid_binary p emax (S754_finite s m e) = true -> fits p emax (Z.pos m) e.
Proof.
  cbn. unfold bounded, canonical_mantissa. intros H. boolify.
  change (Z.pos (digits2_pos m)) with (Zdigits2 (Z.pos m)) in H.
  split; [lia|]. split; [lia|]. unfold fexp in H. lia.
Qed.
End exact_theory.

(** Rounding an exact value of a wider format is rounding the value itself. *)
Lemma round_of_exact p emax p' emax' s n e :
  1 < p -> 1 < emax -> 1 < p' -> 1 < emax' -> fits p emax n e ->
  SFconv p' emax' (round_at p emax s n e) = round_at p' emax' s n e.
Proof.
  intros Hp He Hp' He' (Hn & Hf & Hm). rewrite round_at_exact by done. cbn [SFconv].
  set (f := fexp _ _ _) in *.
  pose proof (Z.pow_pos_nonneg 2 (e - f) ltac:(lia) ltac:(lia)).
  rewrite binary_round_spec, Z2Pos.id by (lia || nia).
  rewrite round_at_scale by lia. f_equal. lia.
Qed.

(** ** Arithmetic on exact doubles *)

Notation dbl := (round_at prec64 emax64).

Lemma ldexp_exact s n e k :
  fits prec64 emax64 n e -> ldexp (dbl s n e) k = dbl s n (e + k).
Proof.
  intros (Hn & Hf & Hm). rewrite round_at_exact by (done || reflexivity).
  unfold ldexp, SFldexp. set (f := fexp _ _ _) in *.
  pose proof (Z.pow_pos_nonneg 2 (e - f) ltac:(lia) ltac:(lia)).
  rewrite binary_round_spec, Z2Pos.id by (reflexivity || nia).
  rewrite round_at_scale by (reflexivity || lia). f_equal. lia.
Qed.

Lemma frexp_exact s n e :
  fits prec64 emax64 n e -> frexp_exponent (dbl s n e) = Zdigits2 n + e.
Proof.
  intros (Hn & Hf & Hm). rewrite round_at_exact by (done || reflexivity).
  unfold frexp_exponent. set (f := fexp _ _ _) in *.
  pose proof (Z.pow_pos_nonneg 2 (e - f) ltac:(lia) ltac:(lia)).
  rewrite Z2Pos.id, Zdigits2_pow2 by (lia || nia). lia.
Qed.
