(* ===== verification/Fp16.v ===== *)
(** * The binary16 storage type ([src/src/sst/elements/golem/fp16.h])

    [golem_fp16_to_float] and [golem_float_to_fp16] work on bit patterns (the
    source moves a [float] in and out of a [uint32_t] with [memcpy]), so a
    [float] argument is its 32-bit word here; [float_of_bits] gives its value.
    [GolemFp16] is the 16-bit storage class: its arithmetic converts both
    operands to [float], operates there and converts the result back. *)

From Stdlib Require Import ZArith Lia.
From stdpp Require Import base numbers.
From S2P Require Import Prelude Ieee.

(** ** Conversions *)

(** [while ((normalized & 0x0400u) == 0) { normalized <<= 1; --exp; }] *)
Fixpoint fp16_normalize (fuel : nat) (normalized exp : Z) : Z * Z :=
  match fuel with
  | O => (normalized, exp)
  | S fuel' =>
      if Z.land normalized 0x400 =? 0
      then fp16_normalize fuel' (u32 (Z.shiftl normalized 1)) (exp - 1)
      else (normalized, exp)
  end.

Definition golem_fp16_to_float (value : Z) : Z :=
  let sign := u32 (Z.shiftl (Z.land value 0x8000) 16) in
  let exponent := Z.land (Z.shiftr value 10) 0x1f in
  let fraction := Z.land value 0x3ff in
  if exponent =? 0 then
    if fraction =? 0 then sign
    else
      let '(normalized, exp) := fp16_normalize 11 fraction (-14) in
      let normalized := Z.land normalized 0x3ff in
      Z.lor (Z.lor sign (u32 (Z.shiftl (u32 (exp + 127)) 23)))
            (u32 (Z.shiftl normalized 13))
  else if exponent =? 0x1f then
    Z.lor (Z.lor sign 0x7f800000) (u32 (Z.shiftl fraction 13))
  else
    Z.lor (Z.lor sign (u32 (Z.shiftl (u32 (exponent + 112)) 23)))
          (u32 (Z.shiftl fraction 13)).

Definition golem_float_to_fp16 (bits : Z) : Z :=
  let sign := u16 (Z.land (Z.shiftr bits 16) 0x8000) in
  let exponent := Z.land (Z.shiftr bits 23) 0xff in
  let fraction := Z.land bits 0x7fffff in
  if exponent =? 0xff then
    if fraction =? 0 then u16 (Z.lor sign 0x7c00)
    else
      let payload := u16 (Z.shiftr fraction 13) in
      u16 (Z.lor (Z.lor (Z.lor sign 0x7c00) payload) 0x200)
  else
    let unbiased := s32 exponent - 127 in
    if 15 <? unbiased then u16 (Z.lor sign 0x7c00)
    else if unbiased <? -14 then
      if unbiased <? -24 then sign
      else
        let mantissa := Z.lor fraction 0x800000 in
        let shift := - unbiased - 14 in
        let half_fraction := Z.shiftr mantissa (shift + 13) in
        let remainder_mask := u32 (Z.shiftl 1 (shift + 13) - 1) in
        let remainder := Z.land mantissa remainder_mask in
        let halfway := u32 (Z.shiftl 1 (shift + 12)) in
        let half_fraction :=
          if (halfway <? remainder) ||
             ((remainder =? halfway) && negb (Z.land half_fraction 1 =? 0))
          then u32 (half_fraction + 1) else half_fraction in
        u16 (Z.lor sign half_fraction)
    else
      let half_exponent := u32 (unbiased + 15) in
      let half_fraction := Z.shiftr fraction 13 in
      let remainder := Z.land fraction 0x1fff in
      if (0x1000 <? remainder) ||
         ((remainder =? 0x1000) && negb (Z.land half_fraction 1 =? 0))
      then
        let half_fraction := u32 (half_fraction + 1) in
        if half_fraction =? 0x400 then
          let half_exponent := u32 (half_exponent + 1) in
          if 0x1f <=? half_exponent then u16 (Z.lor sign 0x7c00)
          else u16 (Z.lor (Z.lor sign (u32 (Z.shiftl half_exponent 10))) 0)
        else u16 (Z.lor (Z.lor sign (u32 (Z.shiftl half_exponent 10))) half_fraction)
      else u16 (Z.lor (Z.lor sign (u32 (Z.shiftl half_exponent 10))) half_fraction).

(** ** The storage class *)

(** A [GolemFp16] is its [bits]; the value is read with [operator float]. *)
Record GolemFp16 := mkFp16 { fp16_bits : Z }.

Definition GolemFp16_of_float (value : spec_float) : GolemFp16 :=
  mkFp16 (golem_float_to_fp16 (bits_of_float value)).
Definition GolemFp16_of_double (value : spec_float) : GolemFp16 :=
  GolemFp16_of_float (to_float value).
Definition GolemFp16_of_int (value : Z) : GolemFp16 :=
  GolemFp16_of_float (binary_normalize prec32 emax32 value 0 false).
Definition GolemFp16_to_float (h : GolemFp16) : spec_float :=
  float_of_bits (golem_fp16_to_float (fp16_bits h)).
Definition GolemFp16_add (lhs rhs : GolemFp16) : GolemFp16 :=
  GolemFp16_of_float
    (SFadd prec32 emax32 (GolemFp16_to_float lhs) (GolemFp16_to_float rhs)).
Definition GolemFp16_mul (lhs rhs : GolemFp16) : GolemFp16 :=
  GolemFp16_of_float
    (SFmul prec32 emax32 (GolemFp16_to_float lhs) (GolemFp16_to_float rhs)).

Example to_float_one : golem_fp16_to_float 0x3c00 = 0x3f800000.
Proof. reflexivity. Qed.
Example to_fp16_max : golem_float_to_fp16 0x477fefff = 0x7bff.
Proof. reflexivity. Qed.
Example fp16_two_plus_two : GolemFp16_add (mkFp16 0x4000) (mkFp16 0x4000) = mkFp16 0x4400.
Proof. vm_compute. reflexivity. Qed.

(** ** Field-level descriptions of the two conversions *)

(** The normalisation loop brings a nonzero 10-bit fraction to 11 bits. *)
Definition fp16_normalize_check (F : Z) : bool :=
  let '(n, x) := fp16_normalize 11 F (-14) in
  (F =? 0) ||
  ((1024 <=? n) && (n <? 2048) && (-24 <=? x) && (x <=? -15) && (n =? F * 2 ^ (-14 - x))).

Lemma fp16_normalize_all : check_bits 10 fp16_normalize_check = true.
Proof. vm_compute. reflexivity. Qed.

Lemma fp16_normalize_spec F :
  0 < F < 1024 ->
  let '(n, x) := fp16_normalize 11 F (-14) in
  1024 <= n < 2048 /\ -24 <= x <= -15 /\ n = F * 2 ^ (-14 - x).
Proof.
  intros HF. pose proof (check_bits_sound 10 _ fp16_normalize_all F) as H.
  change (2 ^ Z.of_nat 10) with 1024 in H. specialize (H ltac:(lia)).
  unfold fp16_normalize_check in H. destruct (fp16_normalize 11 F (-14)) as [n x].
  apply orb_true_iff in H as [H|H]; boolify; lia.
Qed.

Lemma sign16 mw ew s E F :
  0 < mw -> 0 < ew -> mw + ew = 15 -> 0 <= E < 2 ^ ew -> 0 <= F < 2 ^ mw ->
  Z.land (pack mw ew s E F) 0x8000 = Z.b2z s * 2 ^ 15.
Proof.
  intros. change 0x8000 with (2 ^ 15). rewrite land_pow2 by lia.
  f_equal. f_equal. replace 15 with (mw + ew) by lia. apply pack_sign; lia.
Qed.

(** [sign | (E << mw) | F] is the packed word. *)
Lemma lor_pack mw ew s E F :
  0 < mw -> 0 < ew -> 0 <= E < 2 ^ ew -> 0 <= F < 2 ^ mw ->
  Z.lor (Z.lor (Z.b2z s * 2 ^ (mw + ew)) (E * 2 ^ mw)) F = pack mw ew s E F.
Proof.
  intros Hm He HE HF. unfold pack.
  assert (0 < 2 ^ mw) by (apply Z.pow_pos_nonneg; lia).
  rewrite lor_shl_add by (rewrite Z.pow_add_r by lia; nia).
  replace (Z.b2z s * 2 ^ (mw + ew) + E * 2 ^ mw) with ((Z.b2z s * 2 ^ ew + E) * 2 ^ mw)
    by (rewrite Z.pow_add_r by lia; ring).
  rewrite lor_shl_add by lia. reflexivity.
Qed.

Lemma fp16_to_float_pack s E F :
  0 <= E < 32 -> 0 <= F < 1024 ->
  golem_fp16_to_float (pack 10 5 s E F) =
  if E =? 0 then
    if F =? 0 then pack 23 8 s 0 0
    else let '(n, x) := fp16_normalize 11 F (-14) in
         pack 23 8 s (x + 127) ((n - 1024) * 2 ^ 13)
  else if E =? 31 then pack 23 8 s 255 (F * 2 ^ 13)
  else pack 23 8 s (E + 112) (F * 2 ^ 13).
Proof.
  intros HE HF. unfold golem_fp16_to_float.
  change 0x1f with (Z.ones 5). change 0x3ff with (Z.ones 10).
  rewrite (pack_exponent 10 5), (pack_fraction 10 5), (sign16 10 5) by lia.
  assert (Es : u32 (Z.shiftl (Z.b2z s * 2 ^ 15) 16) = Z.b2z s * 2 ^ (23 + 8)).
  { destruct s; reflexivity. }
  rewrite Es. destruct (Z.eqb_spec E 0) as [->|].
  - destruct (Z.eqb_spec F 0) as [->|HF0]; [unfold pack; lia|].
    pose proof (fp16_normalize_spec F ltac:(lia)) as Hn.
    destruct (fp16_normalize 11 F (-14)) as [n x]. destruct Hn as (Hn & Hx & _).
    assert (El : Z.land n (Z.ones 10) = n - 1024).
    { rewrite Z.land_ones by lia. change (2 ^ 10) with 1024.
      replace n with (n - 1024 + 1 * 1024) at 1 by lia.
      rewrite Z.mod_add, Z.mod_small by lia. reflexivity. }
    rewrite El, !Z.shiftl_mul_pow2 by lia. unwrap. apply lor_pack; lia.
  - destruct (Z.eqb_spec E (Z.ones 5)) as [->|Hne].
    + change 0x7f800000 with (255 * 2 ^ 23).
      rewrite Z.shiftl_mul_pow2 by lia. unwrap. apply lor_pack; lia.
    + change (Z.ones 5) with 31 in Hne.
      rewrite !Z.shiftl_mul_pow2 by lia. unwrap. apply lor_pack; lia.
Qed.

(** The round-half-even test of the source is [rne]. *)
Lemma rne_code m n :
  0 <= m -> 0 < n ->
  (if (2 ^ (n - 1) <? m mod 2 ^ n) ||
      ((m mod 2 ^ n =? 2 ^ (n - 1)) && negb (Z.land (m / 2 ^ n) 1 =? 0))
   then m / 2 ^ n + 1 else m / 2 ^ n) = rne m n.
Proof.
  intros Hm Hn. unfold rne.
  assert (Ep : 2 ^ n = 2 * 2 ^ (n - 1)) by (rewrite <- Z.pow_succ_r by lia; f_equal; lia).
  assert (El : Z.land (m / 2 ^ n) 1 = m / 2 ^ n mod 2) by (apply (Z.land_ones _ 1); lia).
  rewrite El, (Zmod_odd (m / 2 ^ n)), <- Z.negb_even.
  set (q := m / 2 ^ n). set (r := m mod 2 ^ n). rewrite Ep.
  destruct (Z.even q); cbn [negb]; rewrite ?andb_false_r, ?andb_true_r;
    repeat match goal with
    | |- context [?a <? ?b] => destruct (Z.ltb_spec a b); try lia
    | |- context [?a =? ?b] => destruct (Z.eqb_spec a b); try lia
    end; cbn [orb andb negb]; try reflexivity; try lia.
Qed.

Lemma sign_of_float s E F :
  0 <= E < 256 -> 0 <= F < 2 ^ 23 ->
  u16 (Z.land (Z.shiftr (pack 23 8 s E F) 16) 0x8000) = Z.b2z s * 2 ^ 15.
Proof.
  intros HE HF. change 0x8000 with (2 ^ 15). rewrite land_pow2 by lia.
  rewrite Z.shiftr_spec, (pack_sign 23 8) by lia. destruct s; reflexivity.
Qed.

(** [sign | M] for a magnitude word [M] of at most 15 bits. *)
Lemma lor_sign s M : 0 <= M < 2 ^ 15 -> u16 (Z.lor (Z.b2z s * 2 ^ 15) M) = Z.b2z s * 2 ^ 15 + M.
Proof. intros H. rewrite lor_shl_add by lia. apply u16_id. unfold in_u16. destruct s; cbn; lia. Qed.

Lemma lor_sign3 s E F :
  0 <= E < 32 -> 0 <= F < 1024 ->
  u16 (Z.lor (Z.lor (Z.b2z s * 2 ^ 15) (u32 (Z.shiftl E 10))) F) =
  Z.b2z s * 2 ^ 15 + (E * 2 ^ 10 + F).
Proof.
  intros HE HF. rewrite Z.shiftl_mul_pow2 by lia. unwrap.
  rewrite <- Z.lor_assoc, (lor_shl_add E F 10) by lia. apply lor_sign. lia.
Qed.

(** Reads the sign, the exponent and the fraction of a packed argument. *)
Ltac open_float E :=
  unfold golem_float_to_fp16; rewrite sign_of_float by lia;
  change 0xff with (Z.ones 8); change 0x7fffff with (Z.ones 23);
  rewrite (pack_exponent 23 8), (pack_fraction 23 8) by lia;
  change (Z.ones 8) with 255;
  replace (s32 E - 127) with (E - 127) by (unfold s32; rewrite Z.mod_small; lia).

(** The normal range: fraction rounded at bit 13, a carry bumps the exponent. *)
Lemma float_to_fp16_normal s E F :
  113 <= E <= 142 -> 0 <= F < 2 ^ 23 ->
  golem_float_to_fp16 (pack 23 8 s E F) =
  Z.b2z s * 2 ^ 15 + ((E - 112) * 2 ^ 10 + rne F 13).
Proof.
  intros HE HF. open_float E.
  rewrite (proj2 (Z.eqb_neq E 255)), (proj2 (Z.ltb_ge 15 (E - 127))),
    (proj2 (Z.ltb_ge (E - 127) (-14))) by lia.
  assert (El : Z.land F 0x1fff = F mod 2 ^ 13) by (apply (Z.land_ones F 13); lia).
  rewrite El, Z.shiftr_div_pow2 by lia.
  change 0x1000 with (2 ^ (13 - 1)).
  assert (B : 0 <= F / 2 ^ 13 < 1024)
    by (split; [apply Z.div_pos; lia|apply Z.div_lt_upper_bound; lia]).
  rewrite <- rne_code by lia.
  replace (u32 (E - 127 + 15)) with (E - 112) by (unwrap; lia).
  case_if; [|apply lor_sign3; lia].
  replace (u32 (F / 2 ^ 13 + 1)) with (F / 2 ^ 13 + 1) by (unwrap; lia).
  destruct (Z.eqb_spec (F / 2 ^ 13 + 1) 0x400) as [Ec|Ec]; [|apply lor_sign3; lia].
  replace (u32 (E - 112 + 1)) with (E - 111) by (unwrap; lia).
  rewrite Ec. destruct (Z.leb_spec 31 (E - 111)).
  - rewrite lor_sign by lia. lia.
  - rewrite lor_sign3 by lia. lia.
Qed.

(** The subnormal range: the full mantissa rounded at bit [126 - E]. *)
Lemma float_to_fp16_subnormal s E F :
  103 <= E <= 112 -> 0 <= F < 2 ^ 23 ->
  golem_float_to_fp16 (pack 23 8 s E F) =
  Z.b2z s * 2 ^ 15 + rne (F + 2 ^ 23) (126 - E).
Proof.
  intros HE HF. open_float E.
  rewrite (proj2 (Z.eqb_neq E 255)), (proj2 (Z.ltb_ge 15 (E - 127))),
    (proj2 (Z.ltb_lt (E - 127) (-14))), (proj2 (Z.ltb_ge (E - 127) (-24))) by lia.
  assert (Em : Z.lor F 0x800000 = F + 2 ^ 23).
  { rewrite Z.lor_comm. change 0x800000 with (1 * 2 ^ 23). rewrite lor_shl_add; lia. }
  rewrite Em. set (m := F + 2 ^ 23).
  replace (- (E - 127) - 14 + 13) with (126 - E) by lia.
  replace (- (E - 127) - 14 + 12) with (126 - E - 1) by lia.
  assert (Hp : 2 ^ 14 <= 2 ^ (126 - E) <= 2 ^ 23)
    by (split; apply Z.pow_le_mono_r; lia).
  assert (Hp' : 0 < 2 ^ (126 - E - 1) < 2 ^ (126 - E))
    by (split; [apply Z.pow_pos_nonneg; lia|apply Z.pow_lt_mono_r; lia]).
  rewrite !Z.shiftl_1_l. change (2 ^ 14) with 16384 in Hp. change (2 ^ 23) with 8388608 in Hp.
  replace (u32 (2 ^ (126 - E) - 1)) with (Z.ones (126 - E))
    by (rewrite Z.ones_equiv; unwrap; lia).
  replace (u32 (2 ^ (126 - E - 1))) with (2 ^ (126 - E - 1)) by (unwrap; lia).
  rewrite Z.land_ones, Z.shiftr_div_pow2 by lia.
  assert (B : 0 <= m / 2 ^ (126 - E) < 1024).
  { split; [apply Z.div_pos; lia|]. apply Z.div_lt_upper_bound; lia. }
  rewrite <- rne_code by lia.
  replace (u32 (m / 2 ^ (126 - E) + 1)) with (m / 2 ^ (126 - E) + 1) by (unwrap; lia).
  case_if; apply lor_sign; lia.
Qed.

(** Everything of magnitude below [2^-24] becomes a signed zero. *)
Lemma float_to_fp16_flush s E F :
  0 <= E <= 102 -> 0 <= F < 2 ^ 23 ->
  golem_float_to_fp16 (pack 23 8 s E F) = Z.b2z s * 2 ^ 15.
Proof.
  intros HE HF. open_float E.
  rewrite (proj2 (Z.eqb_neq E 255)), (proj2 (Z.ltb_ge 15 (E - 127))),
    (proj2 (Z.ltb_lt (E - 127) (-14))), (proj2 (Z.ltb_lt (E - 127) (-24))) by lia.
  reflexivity.
Qed.

Lemma float_to_fp16_overflow s E F :
  143 <= E <= 254 -> 0 <= F < 2 ^ 23 ->
  golem_float_to_fp16 (pack 23 8 s E F) = Z.b2z s * 2 ^ 15 + 31 * 2 ^ 10.
Proof.
  intros HE HF. open_float E.
  rewrite (proj2 (Z.eqb_neq E 255)), (proj2 (Z.ltb_lt 15 (E - 127))) by lia.
  apply lor_sign. lia.
Qed.

Lemma lor_quiet x : 0 <= x < 1024 -> 0 <= Z.lor x 0x200 < 1024.
Proof.
  intros Hx. assert (Hn : 0 <= Z.lor x 0x200) by (apply Z.lor_nonneg; lia).
  split; [done|]. destruct (decide (Z.lor x 0x200 = 0)) as [E0|]; [rewrite E0; lia|].
  change 1024 with (2 ^ 10). apply Z.log2_lt_pow2; [lia|].
  rewrite Z.log2_lor by lia. apply Z.max_lub_lt; [|reflexivity].
  destruct (decide (x = 0)) as [->|]; [reflexivity|]. apply Z.log2_lt_pow2; lia.
Qed.

Lemma float_to_fp16_special s F :
  0 <= F < 2 ^ 23 ->
  golem_float_to_fp16 (pack 23 8 s 255 F) =
  Z.b2z s * 2 ^ 15 + (31 * 2 ^ 10 + (if F =? 0 then 0 else Z.lor (F / 2 ^ 13) 0x200)).
Proof.
  intros HF. unfold golem_float_to_fp16. rewrite sign_of_float by lia.
  pose proof (pack_exponent 23 8 s 255 F ltac:(lia) ltac:(lia) ltac:(lia) ltac:(lia)) as Ee.
  pose proof (pack_fraction 23 8 s 255 F ltac:(lia) ltac:(lia) ltac:(lia)) as Ef.
  change (Z.ones 8) with 0xff in Ee. change (Z.ones 23) with 0x7fffff in Ef. rewrite Ee, Ef.
  rewrite Z.eqb_refl. destruct (Z.eqb_spec F 0); [apply lor_sign; lia|].
  assert (B : 0 <= F / 2 ^ 13 < 2 ^ 10)
    by (split; [apply Z.div_pos; lia|apply Z.div_lt_upper_bound; lia]).
  rewrite Z.shiftr_div_pow2 by lia. replace (u16 (F / 2 ^ 13)) with (F / 2 ^ 13) by (unwrap; lia).
  pose proof (lor_quiet (F / 2 ^ 13) ltac:(lia)) as Bl.
  rewrite <- !Z.lor_assoc. change 0x7c00 with (31 * 2 ^ 10).
  rewrite (lor_shl_add 31 _ 10) by lia. apply lor_sign. lia.
Qed.

(** ** Values of the converted words *)

Lemma half_word_value s M :
  0 <= M < 2 ^ 15 -> half_of_bits (Z.b2z s * 2 ^ 15 + M) = fields_value 10 5 s (M / 2 ^ 10) (M mod 2 ^ 10).
Proof.
  intros HM. assert (0 <= M / 2 ^ 10 < 2 ^ 5)
    by (split; [apply Z.div_pos; lia|apply Z.div_lt_upper_bound; lia]).
  pose proof (Z.mod_pos_bound M (2 ^ 10) ltac:(lia)).
  unfold half_of_bits. rewrite <- decode_pack by lia. f_equal. unfold pack.
  pose proof (Z.div_mod M (2 ^ 10) ltac:(lia)). lia.
Qed.

Lemma half_word_fields s E F :
  0 <= E < 32 -> 0 <= F < 1024 ->
  half_of_bits (Z.b2z s * 2 ^ 15 + (E * 2 ^ 10 + F)) = fields_value 10 5 s E F.
Proof.
  intros HE HF. rewrite half_word_value by lia.
  rewrite Z.div_add_l, Z.div_small, Z.add_0_r by lia.
  rewrite Z.add_comm, Z.mod_add, Z.mod_small by lia. reflexivity.
Qed.

Lemma round_half_normal s E F :
  113 <= E <= 142 -> 0 <= F < 2 ^ 23 ->
  half_of_bits (Z.b2z s * 2 ^ 15 + ((E - 112) * 2 ^ 10 + rne F 13)) =
  round_at prec16 emax16 s (F + 2 ^ 23) (E - 150).
Proof.
  intros HE HF. unfold round_at.
  assert (Ed : Zdigits2 (F + 2 ^ 23) = 24) by (apply Zdigits2_unique; lia).
  rewrite Ed. replace (fexp prec16 emax16 (24 + (E - 150))) with (E - 137)
    by (unfold fexp, SpecFloat.emin, prec16, emax16; lia).
  rewrite (proj2 (Z.leb_gt (E - 137) (E - 150))) by lia.
  replace (E - 137 - (E - 150)) with 13 by lia.
  replace (F + 2 ^ 23) with (F + 1024 * 2 ^ 13) by lia. rewrite rne_add_even by done || lia.
  assert (B : 0 <= rne F 13 <= 1024).
  { pose proof (rne_bounds F 13 ltac:(lia) ltac:(lia)).
    assert (0 <= F / 2 ^ 13 < 1024) by (split; [apply Z.div_pos; lia|apply Z.div_lt_upper_bound; lia]). lia. }
  rewrite (proj2 (Z.eqb_neq (rne F 13 + 1024) 0)) by lia.
  change (2 ^ prec16) with 2048. change (emax16 - prec16) with 5.
  destruct (Z.eqb_spec (rne F 13 + 1024) 2048) as [Ec|Ec].
  - replace ((E - 112) * 2 ^ 10 + rne F 13) with ((E - 111) * 2 ^ 10 + 0) by lia.
    rewrite half_word_fields by lia. unfold fields_value.
    rewrite (proj2 (Z.eqb_neq (E - 111) 0)) by lia. change (Z.ones 5) with 31.
    destruct (Z.eqb_spec (E - 111) 31), (Z.leb_spec (E - 137 + 1) 5); try lia; try reflexivity.
    f_equal. lia.
  - rewrite half_word_fields by lia. unfold fields_value.
    rewrite (proj2 (Z.eqb_neq (E - 112) 0)) by lia. change (Z.ones 5) with 31.
    rewrite (proj2 (Z.eqb_neq (E - 112) 31)), (proj2 (Z.leb_le (E - 137) 5)) by lia.
    f_equal. lia.
Qed.

Lemma round_half_subnormal s E F :
  103 <= E <= 112 -> 0 <= F < 2 ^ 23 ->
  half_of_bits (Z.b2z s * 2 ^ 15 + rne (F + 2 ^ 23) (126 - E)) =
  round_at prec16 emax16 s (F + 2 ^ 23) (E - 150).
Proof.
  intros HE HF. unfold round_at.
  assert (Ed : Zdigits2 (F + 2 ^ 23) = 24) by (apply Zdigits2_unique; lia).
  rewrite Ed. replace (fexp prec16 emax16 (24 + (E - 150))) with (-24)
    by (unfold fexp, SpecFloat.emin, prec16, emax16; lia).
  rewrite (proj2 (Z.leb_gt (-24) (E - 150))) by lia.
  replace (-24 - (E - 150)) with (126 - E) by lia.
  set (q := rne _ _).
  assert (B : 0 <= q <= 1024).
  { pose proof (rne_bounds (F + 2 ^ 23) (126 - E) ltac:(lia) ltac:(lia)).
    assert (2 ^ 14 <= 2 ^ (126 - E)) by (apply Z.pow_le_mono_r; lia).
    assert (0 <= (F + 2 ^ 23) / 2 ^ (126 - E) < 1024)
      by (split; [apply Z.div_pos; lia|apply Z.div_lt_upper_bound; lia]).
    unfold q. lia. }
  change (2 ^ prec16) with 2048. rewrite (proj2 (Z.eqb_neq q 2048)) by lia.
  change (-24 <=? emax16 - prec16) with true. cbv iota.
  destruct (decide (q = 1024)) as [->|Hq]; [reflexivity || (destruct s; reflexivity)|].
  replace q with (0 * 2 ^ 10 + q) at 1 by lia. rewrite half_word_fields by lia.
  unfold fields_value. change (0 =? 0) with true. cbv iota.
  destruct (q =? 0); reflexivity.
Qed.

(** A [float] whose magnitude lies strictly between [2^-25] and [2^-24]. *)
Definition fp16_flush_window (bits : Z) : bool :=
  (Z.land (Z.shiftr bits 23) 0xff =? 102) && negb (Z.land bits 0x7fffff =? 0).

(** A binary16 NaN word. *)
Definition is_nan16 (h : Z) : bool :=
  (Z.land (Z.shiftr h 10) 0x1f =? 0x1f) && negb (Z.land h 0x3ff =? 0).

(** Replaces a word by the packing of its fields. *)
Ltac as_pack b mw ew s E F HE HF :=
  let H := fresh in
  pose proof (pack_fields mw ew b ltac:(lia) ltac:(lia) ltac:(unwrap; lia)) as H;
  cbv zeta in H;
  revert H; generalize (Z.testbit b (mw + ew)) as s;
  generalize (Z.land (Z.shiftr b mw) (Z.ones ew)) as E;
  generalize (Z.land b (Z.ones mw)) as F; intros F E s (H & HE & HF); subst b.

Lemma flush_window_pack s E F :
  0 <= E < 256 -> 0 <= F < 2 ^ 23 ->
  fp16_flush_window (pack 23 8 s E F) = (E =? 102) && negb (F =? 0).
Proof.
  intros. unfold fp16_flush_window. change 0xff with (Z.ones 8). change 0x7fffff with (Z.ones 23).
  rewrite (pack_exponent 23 8), (pack_fraction 23 8) by lia. reflexivity.
Qed.

(** Rounding a subnormal [float] or a normal one below [2^-25] gives zero. *)
Lemma round_half_tiny s m e :
  0 < m -> 2 * m * 2 ^ (e + 150) < 2 ^ 126 -> -150 <= e <= -25 ->
  round_at prec16 emax16 s m e = S754_zero s.
Proof.
  intros Hm Hl He. unfold round_at.
  pose proof (Zdigits2_bounds m Hm) as B.
  assert (Hd : Zdigits2 m + e <= -25).
  { destruct (Z.le_gt_cases (Zdigits2 m + e) (-25)); [done|].
    assert (2 ^ 126 <= 2 * 2 ^ (Zdigits2 m - 1) * 2 ^ (e + 150)); [|nia].
    assert (0 < Zdigits2 m) by (rewrite Zdigits2_log2 by done; pose proof (Z.log2_nonneg m); lia).
    rewrite <- Z.pow_succ_r, <- Z.pow_add_r by lia. apply Z.pow_le_mono_r; lia. }
  replace (fexp prec16 emax16 (Zdigits2 m + e)) with (-24)
    by (unfold fexp, SpecFloat.emin, prec16, emax16; lia).
  rewrite (proj2 (Z.leb_gt (-24) e)) by lia.
  rewrite rne_small; [reflexivity|lia|].
  assert (0 < 2 ^ (e + 150)) by (apply Z.pow_pos_nonneg; lia).
  apply (Z.mul_lt_mono_pos_r (2 ^ (e + 150))); [done|].
  rewrite <- Z.pow_add_r by lia. replace (-24 - e + (e + 150)) with 126 by lia. done.
Qed.

Lemma round_half_overflow s E F :
  143 <= E <= 254 -> 0 <= F < 2 ^ 23 ->
  round_at prec16 emax16 s (F + 2 ^ 23) (E - 127 - 23) = S754_infinity s.
Proof.
  intros HE HF. unfold round_at.
  assert (Ed : Zdigits2 (F + 2 ^ 23) = 24) by (apply Zdigits2_unique; lia).
  rewrite Ed. replace (fexp prec16 emax16 (24 + (E - 127 - 23))) with (E - 137)
    by (unfold fexp, SpecFloat.emin, prec16, emax16; lia).
  rewrite (proj2 (Z.leb_gt (E - 137) (E - 127 - 23))) by lia.
  replace (E - 137 - (E - 127 - 23)) with 13 by lia.
  pose proof (rne_bounds (F + 2 ^ 23) 13 ltac:(lia) ltac:(lia)).
  assert (1024 <= (F + 2 ^ 23) / 2 ^ 13) by (apply Z.div_le_lower_bound; lia).
  rewrite (proj2 (Z.eqb_neq _ 0)) by lia. change (emax16 - prec16) with 5.
  rewrite (proj2 (Z.leb_gt (E - 137 + 1) 5)), (proj2 (Z.leb_gt (E - 137) 5)) by lia.
  destruct (_ =? _); reflexivity.
Qed.

(** The rounded value of a normal [float] as a reference rounding. *)
Ltac normal_float E :=
  rewrite ?(proj2 (Z.eqb_neq E 0)), ?(proj2 (Z.eqb_neq E 255)) by lia;
  unfold to_half, SFconv; rewrite binary_round_spec, Z2Pos.id by (reflexivity || lia).

Lemma float_to_fp16_value (b : Z) :
  in_u32 b -> is_nan (float_of_bits b) = false -> fp16_flush_window b = false ->
  half_of_bits (golem_float_to_fp16 b) = to_half (float_of_bits b).
Proof.
  intros Hb Hn Hw. as_pack b 23 8 s E F HE HF.
  change (2 ^ 8) with 256 in HE. rewrite flush_window_pack in Hw by lia.
  unfold float_of_bits in *. rewrite decode_pack in * by lia.
  assert (Cs : E = 0 \/ 1 <= E <= 102 \/ 103 <= E <= 112 \/ 113 <= E <= 142 \/ 143 <= E <= 254 \/ E = 255) by lia.
  unfold fields_value in *. change (Z.ones 8) with 255 in *.
  change (2 ^ (8 - 1) - 1) with 127 in *.
  destruct Cs as [C|[C|[C|[C|[C|C]]]]].
  - subst E. rewrite float_to_fp16_flush by lia. cbn [Z.eqb].
    destruct (Z.eqb_spec F 0); [destruct s; reflexivity|].
    unfold to_half, SFconv. rewrite binary_round_spec, Z2Pos.id by (reflexivity || lia).
    rewrite round_half_tiny by lia. destruct s; reflexivity.
  - rewrite float_to_fp16_flush by lia.
    normal_float E.
    destruct (decide (E = 102)) as [->|].
    + destruct (Z.eqb_spec F 0) as [->|]; [destruct s; reflexivity|discriminate].
    + rewrite round_half_tiny; [destruct s; reflexivity|lia| |lia].
      replace (E - 127 - 23 + 150) with E by lia.
      assert (2 ^ E <= 2 ^ 101) by (apply Z.pow_le_mono_r; lia).
      assert (0 < 2 ^ E) by (apply Z.pow_pos_nonneg; lia). nia.
  - rewrite float_to_fp16_subnormal, round_half_subnormal by lia.
    normal_float E.
    f_equal. lia.
  - rewrite float_to_fp16_normal, round_half_normal by lia.
    normal_float E.
    f_equal. lia.
  - rewrite float_to_fp16_overflow by lia.
    normal_float E.
    rewrite round_half_overflow by lia. destruct s; reflexivity.
  - subst E. cbn [Z.eqb] in *. destruct (Z.eqb_spec F 0) as [->|]; [|discriminate].
    rewrite float_to_fp16_special by lia. destruct s; reflexivity.
Qed.

(** C23: [golem_float_to_fp16] is IEEE round-to-nearest-even to binary16
    (gradual underflow, overflow to infinity) on every non-NaN [float], except
    those whose magnitude lies strictly between [2^-25] and [2^-24]. *)
Theorem float_to_fp16_rounds_to_nearest_even (b : Z) :
  in_u32 b -> is_nan (float_of_bits b) = false -> fp16_flush_window b = false ->
  half_of_bits (golem_float_to_fp16 b) = to_half (float_of_bits b).
Proof. exact (float_to_fp16_value b). Qed.

Lemma float_to_fp16_rounds_witness :
  half_of_bits (golem_float_to_fp16 0x38800001) = to_half (float_of_bits 0x38800001).
Proof. apply float_to_fp16_rounds_to_nearest_even; [unfold in_u32; lia|reflexivity|reflexivity]. Defined.

(** C24: inside that window the conversion is wrong: it returns a signed zero
    where round-to-nearest gives the smallest binary16 subnormal [2^-24]. *)
Theorem float_to_fp16_flushes_window (b : Z) :
  in_u32 b -> fp16_flush_window b = true ->
  half_of_bits (golem_float_to_fp16 b) = S754_zero (signbit (float_of_bits b)) /\
  to_half (float_of_bits b) = S754_finite (signbit (float_of_bits b)) 1 (-24).
Proof.
  intros Hb Hw. as_pack b 23 8 s E F HE HF. change (2 ^ 8) with 256 in HE.
  rewrite flush_window_pack in Hw by lia. boolify. subst E.
  rewrite float_to_fp16_flush by lia.
  unfold float_of_bits. rewrite decode_pack by lia.
  change (fields_value 23 8 s 102 F) with (S754_finite s (Z.to_pos (F + 2 ^ 23)) (-48)).
  split; [destruct s; reflexivity|].
  unfold to_half, SFconv. rewrite binary_round_spec, Z2Pos.id by (reflexivity || lia).
  unfold round_at. assert (Ed : Zdigits2 (F + 2 ^ 23) = 24) by (apply Zdigits2_unique; lia).
  rewrite Ed. change (fexp prec16 emax16 (24 + -48)) with (-24). change (-24 <=? -48) with false.
  change (-24 - -48) with 24. cbv iota.
  assert (Er : rne (F + 2 ^ 23) 24 = 1).
  { unfold rne. rewrite Z.div_small, Z.mod_small by lia.
    rewrite (proj2 (Z.ltb_ge _ _)), (proj2 (Z.ltb_lt _ _)) by lia. reflexivity. }
  rewrite Er. reflexivity.
Qed.

Lemma float_to_fp16_flushes_witness :
  half_of_bits (golem_float_to_fp16 0x33400000) = S754_zero false /\
  to_half (float_of_bits 0x33400000) = S754_finite false 1 (-24).
Proof. apply (float_to_fp16_flushes_window 0x33400000); [unfold in_u32; lia|reflexivity]. Defined.

(** Widening a finite binary16 value to [float] loses nothing. *)
Lemma widen_half_finite s m e :
  0 < m < 2 ^ 11 -> -24 <= e <= 5 ->
  to_float (S754_finite s (Z.to_pos m) e) =
  S754_finite s (Z.to_pos (m * 2 ^ (24 - Zdigits2 m))) (Zdigits2 m + e - 24).
Proof.
  intros Hm He. unfold to_float, SFconv.
  rewrite binary_round_spec, Z2Pos.id by (reflexivity || lia).
  assert (Hd : 1 <= Zdigits2 m <= 11).
  { rewrite Zdigits2_log2 by lia. pose proof (Z.log2_nonneg m).
    assert (Z.log2 m < 11) by (apply Z.log2_lt_pow2; lia). lia. }
  assert (Ef : fexp prec32 emax32 (Zdigits2 m + e) = Zdigits2 m + e - 24)
    by (unfold fexp, SpecFloat.emin, prec32, emax32; lia).
  rewrite round_at_exact; rewrite ?Ef; unfold prec32, emax32; try lia.
  f_equal. f_equal. f_equal. f_equal. lia.
Qed.

(** The [float] word of a finite binary16 word with 11-bit mantissa [m]. *)
Lemma float_fields_value s E F :
  0 < E < 255 -> fields_value 23 8 s E F = S754_finite s (Z.to_pos (F + 2 ^ 23)) (E - 150).
Proof.
  intros HE. unfold fields_value. change (Z.ones 8) with 255.
  rewrite (proj2 (Z.eqb_neq E 0)), (proj2 (Z.eqb_neq E 255)) by lia.
  f_equal. change (2 ^ (8 - 1) - 1) with 127. lia.
Qed.

Lemma fp16_to_float_value (h : Z) :
  in_u16 h -> float_of_bits (golem_fp16_to_float h) = to_float (half_of_bits h).
Proof.
  intros Hh. as_pack h 10 5 s E F HE HF.
  change (2 ^ 5) with 32 in HE. change (2 ^ 10) with 1024 in HF.
  rewrite fp16_to_float_pack by lia. unfold half_of_bits, float_of_bits. rewrite (decode_pack 10 5) by lia.
  unfold fields_value at 1. change (Z.ones 5) with 31. change (2 ^ (5 - 1) - 1) with 15.
  destruct (Z.eqb_spec E 0) as [->|]; [destruct (Z.eqb_spec F 0) as [->|HF0]|].
  - rewrite decode_pack by lia. reflexivity.
  - pose proof (fp16_normalize_spec F ltac:(lia)) as Hn.
    destruct (fp16_normalize 11 F (-14)) as [n x]. destruct Hn as (Hn & Hx & En).
    rewrite decode_pack, float_fields_value, widen_half_finite by lia.
    assert (Ed : Zdigits2 F = 25 + x).
    { assert (Zdigits2 (F * 2 ^ (-14 - x)) = 11) by (rewrite <- En; apply Zdigits2_unique; lia).
      rewrite Zdigits2_pow2 in H by lia. lia. }
    rewrite Ed. f_equal; [f_equal|lia].
    replace (24 - (25 + x)) with (-14 - x + 13) by lia. rewrite Z.pow_add_r by lia. lia.
  - destruct (Z.eqb_spec E 31) as [->|].
    + rewrite decode_pack by lia. unfold fields_value. change (255 =? Z.ones 8) with true.
      destruct (Z.eqb_spec F 0) as [->|]; [reflexivity|].
      rewrite (proj2 (Z.eqb_neq (F * 2 ^ 13) 0)) by lia. reflexivity.
    + rewrite decode_pack, float_fields_value, widen_half_finite by lia.
      assert (Ed : Zdigits2 (F + 2 ^ 10) = 11) by (apply Zdigits2_unique; lia).
      rewrite Ed. f_equal; [f_equal|]; lia.
Qed.

(** [golem_fp16_to_float] is exact: the [float] it returns has the value of
    the binary16 word, zeros, subnormals, infinities and NaNs included. *)
Theorem fp16_to_float_exact (h : Z) :
  in_u16 h -> float_of_bits (golem_fp16_to_float h) = to_float (half_of_bits h).
Proof. exact (fp16_to_float_value h). Qed.

Lemma fp16_to_float_exact_witness :
  float_of_bits (golem_fp16_to_float 0x0003) = to_float (half_of_bits 0x0003).
Proof. apply fp16_to_float_exact. unfold in_u16; lia. Defined.

Lemma fp16_float_fp16 (h : Z) :
  in_u16 h ->
  golem_float_to_fp16 (golem_fp16_to_float h) = if is_nan16 h then Z.lor h 0x200 else h.
Proof.
  intros Hh. as_pack h 10 5 s E F HE HF.
  change (2 ^ 5) with 32 in HE. change (2 ^ 10) with 1024 in HF.
  unfold is_nan16. rewrite fp16_to_float_pack by lia.
  change 0x1f with (Z.ones 5). change 0x3ff with (Z.ones 10).
  rewrite (pack_exponent 10 5), (pack_fraction 10 5) by lia. change (Z.ones 5) with 31.
  destruct (Z.eqb_spec E 0) as [->|]; [destruct (Z.eqb_spec F 0) as [->|HF0]|].
  - destruct s; reflexivity.
  - pose proof (fp16_normalize_spec F ltac:(lia)) as Hn.
    destruct (fp16_normalize 11 F (-14)) as [n x]. destruct Hn as (Hn & Hx & En).
    rewrite float_to_fp16_subnormal by lia.
    replace ((n - 1024) * 2 ^ 13 + 2 ^ 23) with (n * 2 ^ 13) by lia.
    replace (n * 2 ^ 13) with (F * 2 ^ (126 - (x + 127))).
    + rewrite rne_exact by lia. unfold pack. cbn [Z.eqb andb]. lia.
    + rewrite En, <- Z.mul_assoc, <- Z.pow_add_r by lia. do 2 f_equal. lia.
  - destruct (Z.eqb_spec E 31) as [->|].
    + rewrite float_to_fp16_special by lia. rewrite Z.div_mul by lia.
      destruct (Z.eqb_spec F 0) as [->|]; [destruct s; reflexivity|].
      rewrite (proj2 (Z.eqb_neq (F * 2 ^ 13) 0)) by lia. cbn [andb negb].
      pose proof (lor_quiet F ltac:(lia)).
      replace (pack 10 5 s 31 F) with ((Z.b2z s * 32 + 31) * 2 ^ 10 + F) by (unfold pack; lia).
      rewrite <- (lor_shl_add (Z.b2z s * 32 + 31) F 10), <- Z.lor_assoc, lor_shl_add by lia. lia.
    + rewrite float_to_fp16_normal by lia. rewrite rne_exact by lia.
      unfold pack. cbn [andb]. lia.
Qed.

(** C25: storing a widened binary16 word again gives the same word; a NaN keeps
    its sign and payload and is quieted. *)
Theorem fp16_float_roundtrip (h : Z) :
  in_u16 h ->
  golem_float_to_fp16 (golem_fp16_to_float h) = if is_nan16 h then Z.lor h 0x200 else h.
Proof. exact (fp16_float_fp16 h). Qed.

Lemma fp16_float_roundtrip_witness :
  golem_float_to_fp16 (golem_fp16_to_float 0x83ff) = 0x83ff.
Proof. apply (fp16_float_roundtrip 0x83ff). unfold in_u16; lia. Defined.
