(* ===== verification/LutTables.v ===== *)
(** * The FP16 ROM contents ([src/src/sst/elements/golem/sfu/lut_tables.h])

    The arrays of [SFURom], entry by entry, in banks of 1024 entries. *)

From Stdlib Require Import ZArith List.
Import ListNotations.
From S2P Require Import Prelude.

(** ** Table bounds *)

Definition ExpPositiveBegin : Z := 4096.
Definition ExpPositiveEnd : Z := 18828.
Definition ExpNegativeBegin : Z := 3073.
Definition ExpNegativeEnd : Z := 19542.
Definition ExpBlockEntries : Z := 16.

(** ** [SFURom::ExpPositiveBase], 921 entries *)

Definition ExpPositiveBase : list Z := [
  15361; 15361; 15361; 15361; 15361; 15361; 15361; 15361; 15361; 15361; 15361; 15361; 15361; 15361; 15361; 15361;
  15361; 15361; 15361; 15361; 15361; 15361; 15361; 15361; 15361; 15361; 15361; 15361; 15361; 15361; 15361; 15361;
  15361; 15361; 15361; 15361; 15361; 15361; 15361; 15361; 15361; 15361; 15361; 15361; 15361; 15361; 15361; 15361;
  15361; 15361; 15361; 15361; 15361; 15361; 15361; 15361; 15361; 15361; 15361; 15361; 15361; 15361; 15361; 15361;
  15361; 15361; 15361; 15361; 15361; 15361; 15361; 15361; 15361; 15361; 15361; 15361; 15361; 15361; 15361; 15361;
  15361; 15361; 15361; 15361; 15361; 15361; 15361; 15361; 15361; 15361; 15361; 15361; 15361; 15361; 15361; 15361;
  15362; 15362; 15362; 15362; 15362; 15362; 15362; 15362; 15362; 15362; 15362; 15362; 15362; 15362; 15362; 15362;
  15362; 15362; 15362; 15362; 15362; 15362; 15362; 15362; 15362; 15362; 15362; 15362; 15362; 15362; 15362; 15362;
  15362; 15362; 15362; 15362; 15362; 15362; 15362; 15362; 15362; 15362; 15362; 15362; 15362; 15362; 15362; 15362;
  15363; 15363; 15363; 15363; 15363; 15363; 15363; 15363; 15363; 15363; 15363; 15363; 15363; 15363; 15363; 15363;
  15363; 15363; 15363; 15363; 15363; 15363; 15363; 15363; 15363; 15363; 15363; 15363; 15363; 15363; 15363; 15363;
  15364; 15364; 15364; 15364; 15364; 15364; 15364; 15364; 15364; 15364; 15364; 15364; 15364; 15364; 15364; 15364;
  15364; 15364; 15364; 15364; 15364; 15364; 15364; 15364; 15365; 15365; 15365; 15365; 15365; 15365; 15365; 15365;
  15365; 15365; 15365; 15365; 15365; 15365; 15365; 15365; 15366; 15366; 15366; 15366; 15366; 15366; 15366; 15366;
  15366; 15366; 15366; 15366; 15366; 15366; 15366; 15366; 15367; 15367; 15367; 15367; 15367; 15367; 15367; 15367;
  15367; 15367; 15367; 15367; 15367; 15367; 15367; 15367; 15368; 15368; 15368; 15368; 15368; 15368; 15368; 15368;
  15368; 15368; 15368; 15368; 15369; 15369; 15369; 15369; 15369; 15369; 15369; 15369; 15370; 15370; 15370; 15370;
  15370; 15370; 15370; 15370; 15371; 15371; 15371; 15371; 15371; 15371; 15371; 15371; 15372; 15372; 15372; 15372;
  15372; 15372; 15372; 15372; 15373; 15373; 15373; 15373; 15373; 15373; 15373; 15373; 15374; 15374; 15374; 15374;
  15374; 15374; 15374; 15374; 15375; 15375; 15375; 15375; 15375; 15375; 15375; 15375; 15376; 15376; 15376; 15376;
  15376; 15376; 15377; 15377; 15377; 15377; 15378; 15378; 15378; 15378; 15379; 15379; 15379; 15379; 15380; 15380;
  15380; 15380; 15381; 15381; 15381; 15381; 15382; 15382; 15382; 15382; 15383; 15383; 15383; 15384; 15384; 15384;
  15384; 15385; 15385; 15385; 15385; 15386; 15386; 15386; 15386; 15387; 15387; 15387; 15387; 15388; 15388; 15388;
  15388; 15389; 15389; 15389; 15389; 15390; 15390; 15390; 15390; 15391; 15391; 15391; 15391; 15392; 15392; 15392;
  15393; 15393; 15394; 15394; 15395; 15395; 15396; 15396; 15397; 15397; 15398; 15398; 15399; 15399; 15400; 15400;
  15401; 15401; 15402; 15402; 15403; 15403; 15404; 15404; 15405; 15405; 15406; 15407; 15407; 15408; 15408; 15409;
  15409; 15410; 15410; 15411; 15411; 15412; 15412; 15413; 15413; 15414; 15414; 15415; 15415; 15416; 15417; 15417;
  15418; 15418; 15419; 15419; 15420; 15420; 15421; 15421; 15422; 15422; 15423; 15423; 15424; 15424; 15425; 15426;
  15426; 15427; 15428; 15429; 15430; 15431; 15432; 15434; 15435; 15436; 15437; 15438; 15439; 15440; 15441; 15442;
  15443; 15444; 15445; 15446; 15448; 15449; 15450; 15451; 15452; 15453; 15454; 15455; 15456; 15457; 15458; 15460;
  15461; 15462; 15463; 15464; 15465; 15466; 15467; 15468; 15469; 15471; 15472; 15473; 15474; 15475; 15476; 15477;
  15478; 15479; 15481; 15482; 15483; 15484; 15485; 15486; 15487; 15488; 15490; 15491; 15492; 15493; 15494; 15495;
  15496; 15499; 15501; 15503; 15505; 15508; 15510; 15512; 15515; 15517; 15519; 15522; 15524; 15526; 15529; 15531;
  15533; 15536; 15538; 15540; 15543; 15545; 15547; 15550; 15552; 15554; 15557; 15559; 15562; 15564; 15566; 15569;
  15571; 15574; 15576; 15578; 15581; 15583; 15586; 15588; 15591; 15593; 15596; 15598; 15600; 15603; 15605; 15608;
  15610; 15613; 15615; 15618; 15620; 15623; 15625; 15628; 15630; 15633; 15636; 15638; 15641; 15643; 15646; 15648;
  15651; 15656; 15661; 15666; 15672; 15677; 15682; 15687; 15693; 15698; 15703; 15709; 15714; 15719; 15725; 15730;
  15736; 15741; 15747; 15752; 15758; 15763; 15769; 15774; 15780; 15786; 15791; 15797; 15803; 15809; 15814; 15820;
  15826; 15832; 15838; 15843; 15849; 15855; 15861; 15867; 15873; 15879; 15885; 15891; 15897; 15904; 15910; 15916;
  15922; 15928; 15934; 15941; 15947; 15953; 15960; 15966; 15972; 15979; 15985; 15992; 15998; 16005; 16011; 16018;
  16024; 16038; 16051; 16064; 16078; 16092; 16105; 16119; 16133; 16147; 16161; 16176; 16190; 16205; 16219; 16234;
  16249; 16264; 16279; 16294; 16310; 16325; 16341; 16357; 16372; 16386; 16394; 16402; 16411; 16419; 16427; 16435;
  16444; 16452; 16461; 16470; 16478; 16487; 16496; 16505; 16514; 16523; 16532; 16541; 16550; 16560; 16569; 16579;
  16588; 16598; 16608; 16617; 16627; 16637; 16647; 16657; 16667; 16678; 16688; 16698; 16709; 16720; 16730; 16741;
  16752; 16774; 16796; 16819; 16842; 16865; 16889; 16913; 16937; 16962; 16987; 17013; 17039; 17065; 17092; 17119;
  17147; 17175; 17204; 17233; 17262; 17292; 17323; 17354; 17385; 17412; 17429; 17445; 17462; 17479; 17496; 17514;
  17531; 17549; 17568; 17586; 17605; 17625; 17644; 17664; 17684; 17705; 17725; 17746; 17768; 17790; 17812; 17834;
  17857; 17880; 17904; 17928; 17952; 17977; 18002; 18027; 18053; 18080; 18106; 18133; 18161; 18189; 18217; 18246;
  18276; 18336; 18398; 18447; 18480; 18514; 18549; 18585; 18622; 18661; 18701; 18742; 18784; 18828; 18873; 18919;
  18967; 19017; 19068; 19121; 19175; 19231; 19289; 19349; 19410; 19465; 19498; 19532; 19566; 19602; 19640; 19678;
  19717; 19758; 19800; 19844; 19889; 19935; 19983; 20032; 20083; 20135; 20189; 20245; 20302; 20362; 20423; 20483;
  20516; 20549; 20584; 20620; 20657; 20695; 20734; 20775; 20817; 20860; 20904; 20950; 20998; 21047; 21097; 21149;
  21203; 21316; 21436; 21534; 21602; 21674; 21751; 21833; 21920; 22013; 22112; 22217; 22329; 22449; 22552; 22619;
  22691; 22768; 22849; 22936; 23029; 23127; 23232; 23343; 23462; 23570; 23637; 23709; 23785; 23866; 23952; 24044;
  24142; 24246; 24357; 24475; 24588; 24655; 24726; 24802; 24882; 24968; 25059; 25157; 25260; 25370; 25488; 25606;
  25673; 25743; 25819; 25899; 25984; 26075; 26172; 26274; 26384; 26501; 26624; 26690; 26761; 26836; 26915; 27000;
  27090; 27289; 27514; 27708; 27853; 28016; 28202; 28412; 28650; 28796; 28949; 29122; 29318; 29540; 29744; 29887;
  30049; 30232; 30440; 30675; 30831; 30982; 31153; 31347; 31567
].

(** ** [SFURom::ExpPositiveDelta], 14732 entries *)

Definition ExpPositiveDelta_0 : list Z := [
  0; 0; 0; 0; 0; 0; 0; 0; 0; 0; 0; 0; 0; 0; 0; 0;
  0; 0; 0; 0; 0; 0; 0; 0; 0; 0; 0; 0; 0; 0; 0; 0;
  0; 0; 0; 0; 0; 0; 0; 0; 0; 0; 0; 0; 0; 0; 0; 0;
  0; 0; 0; 0; 0; 0; 0; 0; 0; 0; 0; 0; 0; 0; 0; 0;
  0; 0; 0; 0; 0; 0; 0; 0; 0; 0; 0; 0; 0; 0; 0; 0;
  0; 0; 0; 0; 0; 0; 0; 0; 0; 0; 0; 0; 0; 0; 0; 0;
  0; 0; 0; 0; 0; 0; 0; 0; 0; 0; 0; 0; 0; 0; 0; 0;
  0; 0; 0; 0; 0; 0; 0; 0; 0; 0; 0; 0; 0; 0; 0; 0;
  0; 0; 0; 0; 0; 0; 0; 0; 0; 0; 0; 0; 0; 0; 0; 0;
  0; 0; 0; 0; 0; 0; 0; 0; 0; 0; 0; 0; 0; 0; 0; 0;
  0; 0; 0; 0; 0; 0; 0; 0; 0; 0; 0; 0; 0; 0; 0; 0;
  0; 0; 0; 0; 0; 0; 0; 0; 0; 0; 0; 0; 0; 0; 0; 0;
  0; 0; 0; 0; 0; 0; 0; 0; 0; 0; 0; 0; 0; 0; 0; 0;
  0; 0; 0; 0; 0; 0; 0; 0; 0; 0; 0; 0; 0; 0; 0; 0;
  0; 0; 0; 0; 0; 0; 0; 0; 0; 0; 0; 0; 0; 0; 0; 0;
  0; 0; 0; 0; 0; 0; 0; 0; 0; 0; 0; 0; 0; 0; 0; 0;
  0; 0; 0; 0; 0; 0; 0; 0; 0; 0; 0; 0; 0; 0; 0; 0;
  0; 0; 0; 0; 0; 0; 0; 0; 0; 0; 0; 0; 0; 0; 0; 0;
  0; 0; 0; 0; 0; 0; 0; 0; 0; 0; 0; 0; 0; 0; 0; 0;
  0; 0; 0; 0; 0; 0; 0; 0; 0; 0; 0; 0; 0; 0; 0; 0;
  0; 0; 0; 0; 0; 0; 0; 0; 0; 0; 0; 0; 0; 0; 0; 0;
  0; 0; 0; 0; 0; 0; 0; 0; 0; 0; 0; 0; 0; 0; 0; 0;
  0; 0; 0; 0; 0; 0; 0; 0; 0; 0; 0; 0; 0; 0; 0; 0;
  0; 0; 0; 0; 0; 0; 0; 0; 0; 0; 0; 0; 0; 0; 0; 0;
  0; 0; 0; 0; 0; 0; 0; 0; 0; 0; 0; 0; 0; 0; 0; 0;
  0; 0; 0; 0; 0; 0; 0; 0; 0; 0; 0; 0; 0; 0; 0; 0;
  0; 0; 0; 0; 0; 0; 0; 0; 0; 0; 0; 0; 0; 0; 0; 0;
  0; 0; 0; 0; 0; 0; 0; 0; 0; 0; 0; 0; 0; 0; 0; 0;
  0; 0; 0; 0; 0; 0; 0; 0; 0; 0; 0; 0; 0; 0; 0; 0;
  0; 0; 0; 0; 0; 0; 0; 0; 0; 0; 0; 0; 0; 0; 0; 0;
  0; 0; 0; 0; 0; 0; 0; 0; 0; 0; 0; 0; 0; 0; 0; 0;
  0; 0; 0; 0; 0; 0; 0; 0; 0; 0; 0; 0; 0; 0; 0; 0;
  0; 0; 0; 0; 0; 0; 0; 0; 0; 0; 0; 0; 0; 0; 0; 0;
  0; 0; 0; 0; 0; 0; 0; 0; 0; 0; 0; 0; 0; 0; 0; 0;
  0; 0; 0; 0; 0; 0; 0; 0; 0; 0; 0; 0; 0; 0; 0; 0;
  0; 0; 0; 0; 0; 0; 0; 0; 0; 0; 0; 0; 0; 0; 0; 0;
  0; 0; 0; 0; 0; 0; 0; 0; 0; 0; 0; 0; 0; 0; 0; 0;
  0; 0; 0; 0; 0; 0; 0; 0; 0; 0; 0; 0; 0; 0; 0; 0;
  0; 0; 0; 0; 0; 0; 0; 0; 0; 0; 0; 0; 0; 0; 0; 0;
  0; 0; 0; 0; 0; 0; 0; 0; 0; 0; 0; 0; 0; 0; 0; 0;
  0; 0; 0; 0; 0; 0; 0; 0; 0; 0; 0; 0; 0; 0; 0; 0;
  0; 0; 0; 0; 0; 0; 0; 0; 0; 0; 0; 0; 0; 0; 0; 0;
  0; 0; 0; 0; 0; 0; 0; 0; 0; 0; 0; 0; 0; 0; 0; 0;
  0; 0; 0; 0; 0; 0; 0; 0; 0; 0; 0; 0; 0; 0; 0; 0;
  0; 0; 0; 0; 0; 0; 0; 0; 0; 0; 0; 0; 0; 0; 0; 0;
  0; 0; 0; 0; 0; 0; 0; 0; 0; 0; 0; 0; 0; 0; 0; 0;
  0; 0; 0; 0; 0; 0; 0; 0; 0; 0; 0; 0; 0; 0; 0; 0;
  0; 0; 0; 0; 0; 0; 0; 0; 0; 0; 0; 0; 0; 0; 0; 0;
  0; 0; 0; 0; 0; 0; 0; 0; 0; 0; 0; 0; 0; 0; 0; 0;
  0; 0; 0; 0; 0; 0; 0; 0; 0; 0; 0; 0; 0; 0; 0; 0;
  0; 0; 0; 0; 0; 0; 0; 0; 0; 0; 0; 0; 0; 0; 0; 0;
  0; 0; 0; 0; 0; 0; 0; 0; 0; 0; 0; 0; 0; 0; 0; 0;
  0; 0; 0; 0; 0; 0; 0; 0; 0; 0; 0; 0; 0; 0; 0; 0;
  0; 0; 0; 0; 0; 0; 0; 0; 0; 0; 0; 0; 0; 0; 0; 0;
  0; 0; 0; 0; 0; 0; 0; 0; 0; 0; 0; 0; 0; 0; 0; 0;
  0; 0; 0; 0; 0; 0; 0; 0; 0; 0; 0; 0; 0; 0; 0; 0;
  0; 0; 0; 0; 0; 0; 0; 0; 0; 0; 0; 0; 0; 0; 0; 0;
  0; 0; 0; 0; 0; 0; 0; 0; 0; 0; 0; 0; 0; 0; 0; 0;
  0; 0; 0; 0; 0; 0; 0; 0; 0; 0; 0; 0; 0; 0; 0; 0;
  0; 0; 0; 0; 0; 0; 0; 0; 0; 0; 0; 0; 0; 0; 0; 0;
  0; 0; 0; 0; 0; 0; 0; 0; 0; 0; 0; 0; 0; 0; 0; 0;
  0; 0; 0; 0; 0; 0; 0; 0; 0; 0; 0; 0; 0; 0; 0; 0;
  0; 0; 0; 0; 0; 0; 0; 0; 0; 0; 0; 0; 0; 0; 0; 0;
  0; 0; 0; 0; 0; 0; 0; 0; 0; 0; 0; 0; 0; 0; 0; 0
].

Definition ExpPositiveDelta_1 : list Z := [
  0; 0; 0; 0; 0; 0; 0; 0; 0; 0; 0; 0; 0; 0; 0; 0;
  0; 0; 0; 0; 0; 0; 0; 0; 0; 0; 0; 0; 0; 0; 0; 0;
  0; 0; 0; 0; 0; 0; 0; 0; 0; 0; 0; 0; 0; 0; 0; 0;
  0; 0; 0; 0; 0; 0; 0; 0; 0; 0; 0; 0; 0; 0; 0; 0;
  0; 0; 0; 0; 0; 0; 0; 0; 0; 0; 0; 0; 0; 0; 0; 0;
  0; 0; 0; 0; 0; 0; 0; 0; 0; 0; 0; 0; 0; 0; 0; 0;
  0; 0; 0; 0; 0; 0; 0; 0; 0; 0; 0; 0; 0; 0; 0; 0;
  0; 0; 0; 0; 0; 0; 0; 0; 0; 0; 0; 0; 0; 0; 0; 0;
  0; 0; 0; 0; 0; 0; 0; 0; 0; 0; 0; 0; 0; 0; 0; 0;
  0; 0; 0; 0; 0; 0; 0; 0; 0; 0; 0; 0; 0; 0; 0; 0;
  0; 0; 0; 0; 0; 0; 0; 0; 0; 0; 0; 0; 0; 0; 0; 0;
  0; 0; 0; 0; 0; 0; 0; 0; 0; 0; 0; 0; 0; 0; 0; 0;
  0; 0; 0; 0; 0; 0; 0; 0; 0; 0; 0; 0; 0; 0; 0; 0;
  0; 0; 0; 0; 0; 0; 0; 0; 0; 0; 0; 0; 0; 0; 0; 0;
  0; 0; 0; 0; 0; 0; 0; 0; 0; 0; 0; 0; 0; 0; 0; 0;
  0; 0; 0; 0; 0; 0; 0; 0; 0; 0; 0; 0; 0; 0; 0; 0;
  0; 0; 0; 0; 0; 0; 0; 0; 0; 0; 0; 0; 0; 0; 0; 0;
  0; 0; 0; 0; 0; 0; 0; 0; 0; 0; 0; 0; 0; 0; 0; 0;
  0; 0; 0; 0; 0; 0; 0; 0; 0; 0; 0; 0; 0; 0; 0; 0;
  0; 0; 0; 0; 0; 0; 0; 0; 0; 0; 0; 0; 0; 0; 0; 0;
  0; 0; 0; 0; 0; 0; 0; 0; 0; 0; 0; 0; 0; 0; 0; 0;
  0; 0; 0; 0; 0; 0; 0; 0; 0; 0; 0; 0; 0; 0; 0; 0;
  0; 0; 0; 0; 0; 0; 0; 0; 0; 0; 0; 0; 0; 0; 0; 0;
  0; 0; 0; 0; 0; 0; 0; 0; 0; 0; 0; 0; 0; 0; 0; 0;
  0; 0; 0; 0; 0; 0; 0; 0; 0; 0; 0; 0; 0; 0; 0; 0;
  0; 0; 0; 0; 0; 0; 0; 0; 0; 0; 0; 0; 0; 0; 0; 0;
  0; 0; 0; 0; 0; 0; 0; 0; 0; 0; 0; 0; 0; 0; 0; 0;
  0; 0; 0; 0; 0; 0; 0; 0; 0; 0; 0; 0; 0; 0; 0; 0;
  0; 0; 0; 0; 0; 0; 0; 0; 0; 0; 0; 0; 0; 0; 0; 0;
  0; 0; 0; 0; 0; 0; 0; 0; 0; 0; 0; 0; 0; 0; 0; 0;
  0; 0; 0; 0; 0; 0; 0; 0; 0; 0; 0; 0; 0; 0; 0; 0;
  0; 0; 0; 0; 0; 0; 0; 0; 0; 0; 0; 0; 0; 0; 0; 1;
  0; 0; 0; 0; 0; 0; 0; 0; 0; 0; 0; 0; 0; 0; 0; 0;
  0; 0; 0; 0; 0; 0; 0; 0; 0; 0; 0; 0; 0; 0; 0; 0;
  0; 0; 0; 0; 0; 0; 0; 0; 0; 0; 0; 0; 0; 0; 0; 0;
  0; 0; 0; 0; 0; 0; 0; 0; 0; 0; 0; 0; 0; 0; 0; 0;
  0; 0; 0; 0; 0; 0; 0; 0; 0; 0; 0; 0; 0; 0; 0; 0;
  0; 0; 0; 0; 0; 0; 0; 0; 0; 0; 0; 0; 0; 0; 0; 0;
  0; 0; 0; 0; 0; 0; 0; 0; 0; 0; 0; 0; 0; 0; 0; 0;
  0; 0; 0; 0; 0; 0; 0; 0; 0; 0; 0; 0; 0; 0; 0; 0;
  0; 0; 0; 0; 0; 0; 0; 0; 0; 0; 0; 0; 0; 0; 0; 0;
  0; 0; 0; 0; 0; 0; 0; 0; 0; 0; 0; 0; 0; 0; 0; 0;
  0; 0; 0; 0; 0; 0; 0; 0; 0; 0; 0; 0; 0; 0; 0; 0;
  0; 0; 0; 0; 0; 0; 0; 0; 0; 0; 0; 0; 0; 0; 0; 0;
  0; 0; 0; 0; 0; 0; 0; 0; 0; 0; 0; 0; 0; 0; 0; 0;
  0; 0; 0; 0; 0; 0; 0; 0; 0; 0; 0; 0; 0; 0; 0; 0;
  0; 0; 0; 0; 0; 0; 0; 0; 0; 0; 0; 0; 0; 0; 0; 0;
  0; 0; 0; 0; 0; 0; 0; 0; 0; 0; 0; 0; 0; 0; 0; 0;
  0; 0; 0; 0; 0; 0; 0; 0; 0; 0; 0; 0; 0; 0; 0; 0;
  0; 0; 0; 0; 0; 0; 0; 0; 0; 0; 0; 0; 0; 0; 0; 0;
  0; 0; 0; 0; 0; 0; 0; 0; 0; 0; 0; 0; 0; 0; 0; 0;
  0; 0; 0; 0; 0; 0; 0; 0; 0; 0; 0; 0; 0; 0; 0; 0;
  0; 0; 0; 0; 0; 0; 0; 0; 0; 0; 0; 0; 0; 0; 0; 0;
  0; 0; 0; 0; 0; 0; 0; 0; 0; 0; 0; 0; 0; 0; 0; 0;
  0; 0; 0; 0; 0; 0; 0; 0; 0; 0; 0; 0; 0; 0; 0; 0;
  0; 0; 0; 0; 0; 0; 0; 0; 0; 0; 0; 0; 0; 0; 0; 0;
  0; 0; 0; 0; 0; 0; 0; 0; 0; 0; 0; 0; 0; 0; 0; 0;
  0; 0; 0; 0; 0; 0; 0; 0; 0; 0; 0; 0; 0; 0; 0; 0;
  0; 0; 0; 0; 0; 0; 0; 0; 0; 0; 0; 0; 0; 0; 0; 0;
  0; 0; 0; 0; 0; 0; 0; 0; 0; 0; 0; 0; 0; 0; 0; 0;
  0; 0; 0; 0; 0; 0; 0; 0; 0; 0; 0; 0; 0; 0; 0; 0;
  0; 0; 0; 0; 0; 0; 0; 0; 0; 0; 0; 0; 0; 0; 0; 0;
  0; 0; 0; 0; 0; 0; 0; 0; 0; 0; 0; 0; 0; 0; 0; 0;
  0; 0; 0; 0; 0; 0; 0; 0; 0; 0; 0; 0; 0; 0; 0; 0
].

Definition ExpPositiveDelta_2 : list Z := [
  0; 0; 0; 0; 0; 0; 0; 0; 0; 0; 0; 0; 0; 0; 0; 0;
  0; 0; 0; 0; 0; 0; 0; 0; 0; 0; 0; 0; 0; 0; 0; 0;
  0; 0; 0; 0; 0; 0; 0; 0; 0; 0; 0; 0; 0; 0; 0; 0;
  0; 0; 0; 0; 0; 0; 0; 0; 0; 0; 0; 0; 0; 0; 0; 0;
  0; 0; 0; 0; 0; 0; 0; 0; 0; 0; 0; 0; 0; 0; 0; 0;
  0; 0; 0; 0; 0; 0; 0; 0; 0; 0; 0; 0; 0; 0; 0; 0;
  0; 0; 0; 0; 0; 0; 0; 0; 0; 0; 0; 0; 0; 0; 0; 0;
  0; 0; 0; 0; 0; 0; 0; 0; 0; 0; 0; 0; 0; 0; 0; 0;
  0; 0; 0; 0; 0; 0; 0; 0; 0; 0; 0; 0; 0; 0; 0; 0;
  0; 0; 0; 0; 0; 0; 0; 0; 0; 0; 0; 0; 0; 0; 0; 0;
  0; 0; 0; 0; 0; 0; 0; 0; 0; 0; 0; 0; 0; 0; 0; 0;
  0; 0; 0; 0; 0; 0; 0; 0; 0; 0; 0; 0; 0; 0; 0; 0;
  0; 0; 0; 0; 0; 0; 0; 0; 0; 0; 0; 0; 0; 0; 0; 0;
  0; 0; 0; 0; 0; 0; 0; 0; 0; 0; 0; 0; 0; 0; 0; 0;
  0; 0; 0; 0; 0; 0; 0; 0; 0; 0; 0; 0; 0; 0; 0; 0;
  0; 0; 0; 0; 0; 0; 0; 0; 0; 0; 0; 0; 0; 0; 0; 1;
  0; 0; 0; 0; 0; 0; 0; 0; 0; 0; 0; 0; 0; 0; 0; 0;
  0; 0; 0; 0; 0; 0; 0; 0; 0; 0; 0; 0; 0; 0; 0; 0;
  0; 0; 0; 0; 0; 0; 0; 0; 0; 0; 0; 0; 0; 0; 0; 0;
  0; 0; 0; 0; 0; 0; 0; 0; 0; 0; 0; 0; 0; 0; 0; 0;
  0; 0; 0; 0; 0; 0; 0; 0; 0; 0; 0; 0; 0; 0; 0; 0;
  0; 0; 0; 0; 0; 0; 0; 0; 0; 0; 0; 0; 0; 0; 0; 0;
  0; 0; 0; 0; 0; 0; 0; 0; 0; 0; 0; 0; 0; 0; 0; 0;
  0; 0; 0; 0; 0; 0; 0; 0; 0; 0; 0; 0; 0; 0; 0; 0;
  0; 0; 0; 0; 0; 0; 0; 0; 0; 0; 0; 0; 0; 0; 0; 0;
  0; 0; 0; 0; 0; 0; 0; 0; 0; 0; 0; 0; 0; 0; 0; 0;
  0; 0; 0; 0; 0; 0; 0; 0; 0; 0; 0; 0; 0; 0; 0; 0;
  0; 0; 0; 0; 0; 0; 0; 0; 0; 0; 0; 0; 0; 0; 0; 0;
  0; 0; 0; 0; 0; 0; 0; 0; 0; 0; 0; 0; 0; 0; 0; 0;
  0; 0; 0; 0; 0; 0; 0; 0; 0; 0; 0; 0; 0; 0; 0; 0;
  0; 0; 0; 0; 0; 0; 0; 0; 0; 0; 0; 0; 0; 0; 0; 0;
  0; 0; 0; 0; 0; 0; 0; 0; 0; 0; 0; 0; 0; 0; 0; 0;
  0; 0; 0; 0; 0; 0; 0; 0; 0; 0; 0; 0; 0; 0; 0; 0;
  0; 0; 0; 0; 0; 0; 0; 0; 0; 0; 0; 0; 0; 0; 0; 0;
  0; 0; 0; 0; 0; 0; 0; 0; 0; 0; 0; 0; 0; 0; 0; 0;
  0; 0; 0; 0; 0; 0; 0; 0; 0; 0; 0; 0; 0; 0; 0; 0;
  0; 0; 0; 0; 0; 0; 0; 0; 0; 0; 0; 0; 0; 0; 0; 0;
  0; 0; 0; 0; 0; 0; 0; 0; 0; 0; 0; 0; 0; 0; 0; 0;
  0; 0; 0; 0; 0; 0; 0; 0; 0; 0; 0; 0; 0; 0; 0; 0;
  0; 0; 0; 0; 0; 0; 0; 0; 0; 0; 0; 0; 0; 0; 0; 0;
  0; 0; 0; 0; 0; 0; 0; 0; 0; 0; 0; 0; 0; 0; 0; 0;
  0; 0; 0; 0; 0; 0; 0; 0; 0; 0; 0; 0; 0; 0; 0; 0;
  0; 0; 0; 0; 0; 0; 0; 0; 0; 0; 0; 0; 0; 0; 0; 0;
  0; 0; 0; 0; 0; 0; 0; 0; 0; 0; 0; 0; 0; 0; 0; 0;
  0; 0; 0; 0; 0; 0; 0; 0; 0; 0; 0; 0; 0; 0; 0; 0;
  0; 0; 0; 0; 0; 0; 0; 0; 0; 0; 0; 0; 0; 0; 0; 0;
  0; 0; 0; 0; 0; 0; 0; 0; 0; 0; 0; 0; 0; 0; 0; 0;
  0; 0; 0; 0; 0; 0; 0; 0; 0; 0; 0; 0; 0; 1; 1; 1;
  0; 0; 0; 0; 0; 0; 0; 0; 0; 0; 0; 0; 0; 0; 0; 0;
  0; 0; 0; 0; 0; 0; 0; 0; 0; 0; 0; 0; 0; 0; 0; 0;
  0; 0; 0; 0; 0; 0; 0; 0; 0; 0; 0; 0; 0; 0; 0; 0;
  0; 0; 0; 0; 0; 0; 0; 0; 0; 0; 0; 0; 0; 0; 0; 0;
  0; 0; 0; 0; 0; 0; 0; 0; 0; 0; 0; 0; 0; 0; 0; 0;
  0; 0; 0; 0; 0; 0; 0; 0; 0; 0; 0; 0; 0; 0; 0; 0;
  0; 0; 0; 0; 0; 0; 0; 0; 0; 0; 0; 0; 0; 0; 0; 0;
  0; 0; 0; 0; 0; 0; 0; 0; 0; 0; 0; 0; 0; 0; 0; 0;
  0; 0; 0; 0; 0; 0; 0; 0; 0; 0; 0; 0; 0; 0; 0; 0;
  0; 0; 0; 0; 0; 0; 0; 0; 0; 0; 0; 0; 0; 0; 0; 0;
  0; 0; 0; 0; 0; 0; 0; 0; 0; 0; 0; 0; 0; 0; 0; 0;
  0; 0; 0; 0; 0; 0; 0; 0; 0; 0; 0; 0; 0; 0; 0; 0;
  0; 0; 0; 0; 0; 0; 0; 0; 0; 0; 0; 0; 0; 0; 0; 0;
  0; 0; 0; 0; 0; 0; 0; 0; 0; 0; 0; 0; 0; 0; 0; 0;
  0; 0; 0; 0; 0; 0; 0; 0; 0; 0; 0; 0; 0; 0; 0; 0;
  0; 0; 0; 0; 0; 0; 0; 0; 0; 0; 0; 0; 0; 0; 0; 0
].

Definition ExpPositiveDelta_3 : list Z := [
  0; 0; 0; 0; 0; 0; 0; 0; 0; 0; 0; 0; 0; 0; 0; 0;
  0; 0; 0; 0; 0; 0; 0; 0; 0; 0; 0; 0; 0; 0; 0; 0;
  0; 0; 0; 0; 0; 0; 0; 0; 0; 0; 0; 0; 0; 0; 0; 0;
  0; 0; 0; 0; 0; 0; 0; 0; 0; 0; 0; 0; 0; 0; 0; 0;
  0; 0; 0; 0; 0; 0; 0; 0; 0; 0; 0; 0; 0; 0; 0; 0;
  0; 0; 0; 0; 0; 0; 0; 0; 0; 0; 0; 0; 0; 0; 0; 0;
  0; 0; 0; 0; 0; 0; 0; 0; 0; 0; 0; 0; 0; 0; 0; 0;
  0; 0; 0; 0; 0; 0; 0; 0; 0; 0; 0; 0; 0; 0; 1; 1;
  0; 0; 0; 0; 0; 0; 0; 0; 0; 0; 0; 0; 0; 0; 0; 0;
  0; 0; 0; 0; 0; 0; 0; 0; 0; 0; 0; 0; 0; 0; 0; 0;
  0; 0; 0; 0; 0; 0; 0; 0; 0; 0; 0; 0; 0; 0; 0; 0;
  0; 0; 0; 0; 0; 0; 0; 0; 0; 0; 0; 0; 0; 0; 0; 0;
  0; 0; 0; 0; 0; 0; 0; 0; 0; 0; 0; 0; 0; 0; 0; 0;
  0; 0; 0; 0; 0; 0; 0; 0; 0; 0; 0; 0; 0; 0; 0; 0;
  0; 0; 0; 0; 0; 0; 0; 0; 0; 0; 0; 0; 0; 0; 0; 0;
  0; 0; 0; 0; 0; 0; 0; 0; 0; 0; 0; 0; 0; 0; 0; 0;
  0; 0; 0; 0; 0; 0; 0; 0; 0; 0; 0; 0; 0; 0; 0; 0;
  0; 0; 0; 0; 0; 0; 0; 0; 0; 0; 0; 0; 0; 0; 0; 0;
  0; 0; 0; 0; 0; 0; 0; 0; 0; 0; 0; 0; 0; 0; 0; 0;
  0; 0; 0; 0; 0; 0; 0; 0; 0; 0; 0; 0; 0; 0; 0; 0;
  0; 0; 0; 0; 0; 0; 0; 0; 0; 0; 0; 0; 0; 0; 0; 0;
  0; 0; 0; 0; 0; 0; 0; 0; 0; 0; 0; 0; 0; 0; 0; 0;
  0; 0; 0; 0; 0; 0; 0; 0; 0; 0; 0; 0; 0; 0; 0; 0;
  0; 0; 0; 0; 0; 0; 0; 0; 0; 0; 0; 0; 0; 1; 1; 1;
  0; 0; 0; 0; 0; 0; 0; 0; 0; 0; 0; 0; 0; 0; 0; 0;
  0; 0; 0; 0; 0; 0; 0; 0; 0; 0; 0; 0; 0; 0; 0; 0;
  0; 0; 0; 0; 0; 0; 0; 0; 0; 0; 0; 0; 0; 0; 0; 0;
  0; 0; 0; 0; 0; 0; 0; 0; 0; 0; 0; 0; 0; 0; 0; 0;
  0; 0; 0; 0; 0; 0; 0; 0; 0; 0; 0; 0; 0; 0; 0; 0;
  0; 0; 0; 0; 0; 0; 0; 0; 0; 0; 0; 0; 0; 0; 0; 0;
  0; 0; 0; 0; 0; 0; 0; 0; 0; 0; 0; 0; 0; 0; 0; 0;
  0; 0; 0; 0; 0; 0; 0; 0; 0; 0; 0; 0; 0; 0; 0; 0;
  0; 0; 0; 0; 0; 0; 0; 0; 0; 0; 0; 0; 0; 0; 0; 0;
  0; 0; 0; 0; 0; 0; 0; 0; 0; 0; 0; 0; 0; 0; 0; 0;
  0; 0; 0; 0; 0; 0; 0; 0; 0; 0; 0; 0; 0; 0; 0; 0;
  0; 0; 0; 0; 0; 0; 0; 0; 0; 0; 0; 0; 0; 0; 0; 0;
  0; 0; 0; 0; 0; 0; 0; 0; 0; 0; 0; 0; 0; 0; 0; 0;
  0; 0; 0; 0; 0; 0; 0; 0; 0; 0; 0; 0; 0; 0; 0; 0;
  0; 0; 0; 0; 0; 0; 0; 0; 0; 0; 0; 0; 0; 0; 0; 0;
  0; 0; 0; 0; 0; 0; 0; 0; 0; 0; 0; 1; 1; 1; 1; 1;
  0; 0; 0; 0; 0; 0; 0; 0; 0; 0; 0; 0; 0; 0; 0; 0;
  0; 0; 0; 0; 0; 0; 0; 0; 0; 0; 0; 0; 0; 0; 0; 0;
  0; 0; 0; 0; 0; 0; 0; 0; 0; 0; 0; 0; 0; 0; 0; 0;
  0; 0; 0; 0; 0; 0; 0; 0; 0; 0; 0; 0; 0; 0; 0; 0;
  0; 0; 0; 0; 0; 0; 0; 0; 0; 0; 0; 0; 0; 0; 0; 0;
  0; 0; 0; 0; 0; 0; 0; 0; 0; 0; 0; 0; 0; 0; 0; 0;
  0; 0; 0; 0; 0; 0; 0; 0; 0; 0; 0; 0; 0; 0; 0; 0;
  0; 0; 0; 0; 0; 0; 0; 0; 0; 0; 0; 0; 0; 0; 0; 0;
  0; 0; 0; 0; 0; 0; 0; 0; 0; 0; 0; 0; 0; 0; 0; 0;
  0; 0; 0; 0; 0; 0; 0; 0; 0; 0; 0; 0; 0; 0; 0; 0;
  0; 0; 0; 0; 0; 0; 0; 0; 0; 0; 0; 0; 0; 0; 0; 0;
  0; 0; 0; 0; 0; 0; 0; 0; 0; 0; 0; 0; 0; 0; 0; 0;
  0; 0; 0; 0; 0; 0; 0; 0; 0; 0; 0; 0; 0; 0; 0; 0;
  0; 0; 0; 0; 0; 0; 0; 0; 0; 0; 0; 0; 0; 0; 0; 0;
  0; 0; 0; 0; 0; 0; 0; 0; 0; 0; 0; 0; 0; 0; 0; 0;
  0; 0; 0; 0; 0; 0; 0; 0; 0; 0; 1; 1; 1; 1; 1; 1;
  0; 0; 0; 0; 0; 0; 0; 0; 0; 0; 0; 0; 0; 0; 0; 0;
  0; 0; 0; 0; 0; 0; 0; 0; 0; 0; 0; 0; 0; 0; 0; 0;
  0; 0; 0; 0; 0; 0; 0; 0; 0; 0; 0; 0; 0; 0; 0; 0;
  0; 0; 0; 0; 0; 0; 0; 0; 0; 0; 0; 0; 0; 0; 0; 0;
  0; 0; 0; 0; 0; 0; 0; 0; 0; 0; 0; 0; 0; 0; 0; 0;
  0; 0; 0; 0; 0; 0; 0; 0; 0; 0; 0; 0; 0; 0; 0; 0;
  0; 0; 0; 0; 0; 0; 0; 0; 0; 0; 0; 0; 0; 0; 0; 0;
  0; 0; 0; 0; 0; 0; 0; 0; 0; 0; 0; 0; 0; 0; 0; 0
].

Definition ExpPositiveDelta_4 : list Z := [
  0; 0; 0; 0; 0; 0; 0; 0; 0; 0; 0; 0; 0; 0; 0; 0;
  0; 0; 0; 0; 0; 0; 0; 0; 0; 0; 0; 0; 0; 0; 0; 0;
  0; 0; 0; 0; 0; 0; 0; 0; 0; 0; 0; 0; 0; 0; 0; 0;
  0; 0; 0; 0; 0; 0; 0; 0; 0; 0; 0; 0; 1; 1; 1; 1;
  0; 0; 0; 0; 0; 0; 0; 0; 0; 0; 0; 0; 0; 0; 0; 0;
  0; 0; 0; 0; 0; 0; 0; 0; 0; 0; 0; 0; 0; 0; 0; 0;
  0; 0; 0; 0; 0; 0; 0; 0; 0; 0; 0; 0; 0; 0; 0; 0;
  0; 0; 0; 0; 0; 0; 0; 0; 0; 0; 0; 0; 0; 0; 0; 0;
  0; 0; 0; 0; 0; 0; 0; 0; 0; 0; 0; 0; 0; 0; 0; 0;
  0; 0; 0; 0; 0; 0; 0; 0; 0; 0; 0; 0; 0; 0; 0; 0;
  0; 0; 0; 0; 0; 0; 0; 0; 0; 0; 0; 0; 0; 0; 0; 0;
  0; 0; 0; 0; 0; 0; 0; 0; 0; 0; 0; 1; 1; 1; 1; 1;
  0; 0; 0; 0; 0; 0; 0; 0; 0; 0; 0; 0; 0; 0; 0; 0;
  0; 0; 0; 0; 0; 0; 0; 0; 0; 0; 0; 0; 0; 0; 0; 0;
  0; 0; 0; 0; 0; 0; 0; 0; 0; 0; 0; 0; 0; 0; 0; 0;
  0; 0; 0; 0; 0; 0; 0; 0; 0; 0; 0; 0; 0; 0; 0; 0;
  0; 0; 0; 0; 0; 0; 0; 0; 0; 0; 0; 0; 0; 0; 0; 0;
  0; 0; 0; 0; 0; 0; 0; 0; 0; 0; 0; 0; 0; 0; 0; 0;
  0; 0; 0; 0; 0; 0; 0; 0; 0; 0; 0; 0; 0; 0; 0; 0;
  0; 0; 0; 0; 0; 0; 0; 0; 0; 0; 1; 1; 1; 1; 1; 1;
  0; 0; 0; 0; 0; 0; 0; 0; 0; 0; 0; 0; 0; 0; 0; 0;
  0; 0; 0; 0; 0; 0; 0; 0; 0; 0; 0; 0; 0; 0; 0; 0;
  0; 0; 0; 0; 0; 0; 0; 0; 0; 0; 0; 0; 0; 0; 0; 0;
  0; 0; 0; 0; 0; 0; 0; 0; 0; 0; 0; 0; 0; 0; 0; 0;
  0; 0; 0; 0; 0; 0; 0; 0; 0; 0; 0; 0; 0; 0; 0; 0;
  0; 0; 0; 0; 0; 0; 0; 0; 0; 0; 0; 0; 0; 0; 0; 0;
  0; 0; 0; 0; 0; 0; 0; 0; 0; 0; 0; 0; 0; 0; 0; 0;
  0; 0; 0; 0; 0; 0; 0; 0; 1; 1; 1; 1; 1; 1; 1; 1;
  0; 0; 0; 0; 0; 0; 0; 0; 0; 0; 0; 0; 0; 0; 0; 0;
  0; 0; 0; 0; 0; 0; 0; 0; 0; 0; 0; 0; 0; 0; 0; 0;
  0; 0; 0; 0; 0; 0; 0; 0; 0; 0; 0; 0; 0; 0; 0; 0;
  0; 0; 0; 0; 0; 0; 0; 0; 0; 0; 0; 0; 0; 0; 0; 0;
  0; 0; 0; 0; 0; 0; 0; 0; 0; 0; 0; 0; 0; 0; 0; 0;
  0; 0; 0; 0; 0; 0; 0; 0; 0; 0; 0; 0; 0; 0; 0; 0;
  0; 0; 0; 0; 0; 0; 0; 0; 0; 0; 0; 0; 0; 0; 0; 0;
  0; 0; 0; 0; 0; 0; 0; 1; 1; 1; 1; 1; 1; 1; 1; 1;
  0; 0; 0; 0; 0; 0; 0; 0; 0; 0; 0; 0; 0; 0; 0; 0;
  0; 0; 0; 0; 0; 0; 0; 0; 0; 0; 0; 0; 0; 0; 0; 0;
  0; 0; 0; 0; 0; 0; 0; 0; 0; 0; 0; 0; 0; 0; 0; 0;
  0; 0; 0; 0; 0; 0; 0; 0; 0; 0; 0; 0; 0; 0; 0; 0;
  0; 0; 0; 0; 0; 0; 0; 0; 0; 0; 0; 0; 0; 0; 0; 0;
  0; 0; 0; 0; 0; 0; 0; 0; 0; 0; 0; 0; 0; 0; 0; 0;
  0; 0; 0; 0; 0; 0; 0; 0; 0; 0; 0; 0; 0; 0; 0; 0;
  0; 0; 0; 0; 0; 1; 1; 1; 1; 1; 1; 1; 1; 1; 1; 1;
  0; 0; 0; 0; 0; 0; 0; 0; 0; 0; 0; 0; 0; 0; 0; 0;
  0; 0; 0; 0; 0; 0; 0; 0; 0; 0; 0; 0; 0; 0; 0; 0;
  0; 0; 0; 0; 0; 0; 0; 0; 0; 0; 0; 0; 0; 0; 0; 0;
  0; 0; 0; 0; 0; 0; 0; 0; 0; 0; 0; 0; 0; 0; 0; 0;
  0; 0; 0; 0; 0; 0; 0; 0; 0; 0; 0; 0; 0; 0; 0; 0;
  0; 0; 0; 0; 0; 0; 0; 0; 0; 0; 0; 0; 0; 0; 0; 0;
  0; 0; 0; 0; 0; 0; 0; 0; 0; 0; 0; 0; 0; 0; 0; 0;
  0; 0; 0; 1; 1; 1; 1; 1; 1; 1; 1; 1; 1; 1; 1; 1;
  0; 0; 0; 0; 0; 0; 0; 0; 0; 0; 0; 0; 0; 0; 0; 0;
  0; 0; 0; 0; 0; 0; 0; 0; 0; 0; 0; 0; 0; 0; 0; 0;
  0; 0; 0; 0; 0; 0; 0; 0; 0; 0; 0; 0; 0; 0; 0; 0;
  0; 0; 0; 0; 0; 0; 0; 0; 0; 0; 0; 0; 0; 0; 0; 0;
  0; 0; 0; 0; 0; 0; 0; 0; 0; 0; 0; 0; 0; 0; 0; 0;
  0; 0; 0; 0; 0; 0; 0; 0; 0; 0; 0; 0; 0; 0; 0; 0;
  0; 0; 0; 0; 0; 0; 0; 0; 0; 0; 0; 0; 0; 0; 0; 0;
  0; 0; 1; 1; 1; 1; 1; 1; 1; 1; 1; 1; 1; 1; 1; 1;
  0; 0; 0; 0; 0; 0; 0; 0; 0; 0; 0; 0; 0; 0; 0; 0;
  0; 0; 0; 0; 0; 0; 0; 0; 0; 0; 0; 0; 0; 0; 0; 0;
  0; 0; 0; 0; 0; 0; 0; 0; 0; 0; 0; 0; 0; 0; 0; 0;
  0; 0; 0; 0; 0; 0; 0; 0; 0; 0; 0; 0; 0; 0; 0; 0
].

Definition ExpPositiveDelta_5 : list Z := [
  0; 0; 0; 0; 0; 0; 0; 0; 0; 0; 0; 0; 0; 0; 0; 0;
  0; 0; 0; 0; 0; 0; 0; 0; 1; 1; 1; 1; 1; 1; 1; 1;
  0; 0; 0; 0; 0; 0; 0; 0; 0; 0; 0; 0; 0; 0; 0; 0;
  0; 0; 0; 0; 0; 0; 0; 0; 0; 0; 0; 0; 0; 0; 0; 0;
  0; 0; 0; 0; 0; 0; 0; 0; 0; 0; 0; 0; 0; 0; 0; 0;
  0; 0; 0; 0; 0; 0; 0; 1; 1; 1; 1; 1; 1; 1; 1; 1;
  0; 0; 0; 0; 0; 0; 0; 0; 0; 0; 0; 0; 0; 0; 0; 0;
  0; 0; 0; 0; 0; 0; 0; 0; 0; 0; 0; 0; 0; 0; 0; 0;
  0; 0; 0; 0; 0; 0; 0; 0; 0; 0; 0; 0; 0; 0; 0; 0;
  0; 0; 0; 0; 0; 0; 1; 1; 1; 1; 1; 1; 1; 1; 1; 1;
  0; 0; 0; 0; 0; 0; 0; 0; 0; 0; 0; 0; 0; 0; 0; 0;
  0; 0; 0; 0; 0; 0; 0; 0; 0; 0; 0; 0; 0; 0; 0; 0;
  0; 0; 0; 0; 0; 0; 0; 0; 0; 0; 0; 0; 0; 0; 0; 0;
  0; 0; 0; 0; 0; 1; 1; 1; 1; 1; 1; 1; 1; 1; 1; 1;
  0; 0; 0; 0; 0; 0; 0; 0; 0; 0; 0; 0; 0; 0; 0; 0;
  0; 0; 0; 0; 0; 0; 0; 0; 0; 0; 0; 0; 0; 0; 0; 0;
  0; 0; 0; 0; 0; 0; 0; 0; 0; 0; 0; 0; 0; 0; 0; 0;
  0; 0; 0; 0; 1; 1; 1; 1; 1; 1; 1; 1; 1; 1; 1; 1;
  0; 0; 0; 0; 0; 0; 0; 0; 0; 0; 0; 0; 0; 0; 0; 0;
  0; 0; 0; 0; 0; 0; 0; 0; 0; 0; 0; 0; 0; 0; 0; 0;
  0; 0; 0; 0; 0; 0; 0; 0; 0; 0; 0; 0; 0; 0; 0; 0;
  0; 0; 1; 1; 1; 1; 1; 1; 1; 1; 1; 1; 1; 1; 1; 1;
  0; 0; 0; 0; 0; 0; 0; 0; 0; 0; 0; 0; 0; 0; 0; 0;
  0; 0; 0; 0; 0; 0; 0; 0; 0; 0; 0; 0; 0; 0; 0; 0;
  0; 0; 0; 0; 0; 0; 0; 0; 0; 0; 0; 0; 0; 0; 0; 0;
  0; 1; 1; 1; 1; 1; 1; 1; 1; 1; 1; 1; 1; 1; 1; 1;
  0; 0; 0; 0; 0; 0; 0; 0; 0; 0; 0; 0; 0; 0; 0; 0;
  0; 0; 0; 0; 0; 0; 0; 0; 0; 0; 0; 0; 0; 0; 0; 0;
  0; 0; 0; 0; 0; 0; 0; 0; 0; 0; 0; 0; 0; 0; 0; 0;
  0; 0; 0; 0; 0; 0; 0; 0; 0; 0; 0; 0; 0; 0; 0; 0;
  0; 0; 0; 0; 0; 0; 0; 0; 0; 0; 0; 0; 0; 0; 0; 0;
  0; 0; 0; 0; 0; 0; 0; 0; 0; 0; 0; 0; 0; 0; 0; 0;
  0; 0; 0; 0; 0; 0; 0; 0; 0; 0; 0; 0; 0; 0; 1; 1;
  0; 0; 0; 0; 0; 0; 0; 0; 0; 0; 0; 0; 0; 0; 0; 0;
  0; 0; 0; 0; 0; 0; 0; 0; 0; 0; 0; 0; 0; 0; 0; 0;
  0; 0; 0; 0; 0; 0; 0; 0; 0; 0; 0; 0; 0; 0; 0; 0;
  0; 0; 0; 0; 0; 0; 0; 0; 0; 0; 0; 0; 0; 1; 1; 1;
  0; 0; 0; 0; 0; 0; 0; 0; 0; 0; 0; 0; 0; 0; 0; 0;
  0; 0; 0; 0; 0; 0; 0; 0; 0; 0; 0; 0; 0; 0; 0; 0;
  0; 0; 0; 0; 0; 0; 0; 0; 0; 0; 0; 0; 0; 0; 0; 0;
  0; 0; 0; 0; 0; 0; 0; 0; 0; 0; 0; 1; 1; 1; 1; 1;
  0; 0; 0; 0; 0; 0; 0; 0; 0; 0; 0; 0; 0; 0; 0; 0;
  0; 0; 0; 0; 0; 0; 0; 0; 0; 0; 0; 0; 0; 0; 0; 0;
  0; 0; 0; 0; 0; 0; 0; 0; 0; 0; 0; 0; 0; 0; 0; 0;
  0; 0; 0; 0; 0; 0; 0; 0; 0; 1; 1; 1; 1; 1; 1; 1;
  0; 0; 0; 0; 0; 0; 0; 0; 0; 0; 0; 0; 0; 0; 0; 0;
  0; 0; 0; 0; 0; 0; 0; 0; 0; 0; 0; 0; 0; 0; 0; 0;
  0; 0; 0; 0; 0; 0; 0; 0; 0; 0; 0; 0; 0; 0; 0; 0;
  0; 0; 0; 0; 0; 0; 0; 0; 1; 1; 1; 1; 1; 1; 1; 1;
  0; 0; 0; 0; 0; 0; 0; 0; 0; 0; 0; 0; 0; 0; 0; 0;
  0; 0; 0; 0; 0; 0; 0; 0; 0; 0; 0; 0; 0; 0; 0; 0;
  0; 0; 0; 0; 0; 0; 0; 0; 0; 0; 0; 0; 0; 0; 0; 0;
  0; 0; 0; 0; 0; 0; 1; 1; 1; 1; 1; 1; 1; 1; 1; 1;
  0; 0; 0; 0; 0; 0; 0; 0; 0; 0; 0; 0; 0; 0; 0; 0;
  0; 0; 0; 0; 0; 0; 0; 0; 0; 0; 0; 0; 0; 0; 0; 0;
  0; 0; 0; 0; 0; 0; 0; 0; 0; 0; 0; 0; 0; 0; 0; 0;
  0; 0; 0; 0; 1; 1; 1; 1; 1; 1; 1; 1; 1; 1; 1; 1;
  0; 0; 0; 0; 0; 0; 0; 0; 0; 0; 0; 0; 0; 0; 0; 0;
  0; 0; 0; 0; 0; 0; 0; 0; 0; 0; 0; 0; 0; 0; 0; 0;
  0; 0; 0; 0; 0; 0; 0; 0; 0; 0; 0; 0; 0; 0; 0; 0;
  0; 0; 1; 1; 1; 1; 1; 1; 1; 1; 1; 1; 1; 1; 1; 1;
  0; 0; 0; 0; 0; 0; 0; 0; 0; 0; 0; 0; 0; 0; 0; 0;
  0; 0; 0; 0; 0; 0; 0; 0; 0; 0; 0; 0; 0; 0; 0; 0;
  0; 0; 0; 0; 0; 0; 0; 0; 0; 0; 0; 0; 0; 0; 0; 0
].

Definition ExpPositiveDelta_6 : list Z := [
  0; 0; 0; 0; 0; 0; 0; 0; 0; 0; 0; 0; 0; 0; 0; 0;
  0; 0; 0; 0; 0; 0; 0; 0; 0; 0; 0; 0; 0; 0; 0; 1;
  0; 0; 0; 0; 0; 0; 0; 0; 0; 0; 0; 0; 0; 0; 0; 0;
  0; 0; 0; 0; 0; 0; 0; 0; 0; 0; 0; 0; 0; 0; 1; 1;
  0; 0; 0; 0; 0; 0; 0; 0; 0; 0; 0; 0; 0; 0; 0; 0;
  0; 0; 0; 0; 0; 0; 0; 0; 0; 0; 0; 0; 0; 1; 1; 1;
  0; 0; 0; 0; 0; 0; 0; 0; 0; 0; 0; 0; 0; 0; 0; 0;
  0; 0; 0; 0; 0; 0; 0; 0; 0; 0; 0; 0; 1; 1; 1; 1;
  0; 0; 0; 0; 0; 0; 0; 0; 0; 0; 0; 0; 0; 0; 0; 0;
  0; 0; 0; 0; 0; 0; 0; 0; 0; 0; 0; 1; 1; 1; 1; 1;
  0; 0; 0; 0; 0; 0; 0; 0; 0; 0; 0; 0; 0; 0; 0; 0;
  0; 0; 0; 0; 0; 0; 0; 0; 0; 0; 1; 1; 1; 1; 1; 1;
  0; 0; 0; 0; 0; 0; 0; 0; 0; 0; 0; 0; 0; 0; 0; 0;
  0; 0; 0; 0; 0; 0; 0; 0; 0; 1; 1; 1; 1; 1; 1; 1;
  0; 0; 0; 0; 0; 0; 0; 0; 0; 0; 0; 0; 0; 0; 0; 0;
  0; 0; 0; 0; 0; 0; 0; 0; 1; 1; 1; 1; 1; 1; 1; 1;
  0; 0; 0; 0; 0; 0; 0; 0; 0; 0; 0; 0; 0; 0; 0; 0;
  0; 0; 0; 0; 0; 0; 1; 1; 1; 1; 1; 1; 1; 1; 1; 1;
  0; 0; 0; 0; 0; 0; 0; 0; 0; 0; 0; 0; 0; 0; 0; 0;
  0; 0; 0; 0; 0; 1; 1; 1; 1; 1; 1; 1; 1; 1; 1; 1;
  0; 0; 0; 0; 0; 0; 0; 0; 0; 0; 0; 0; 0; 0; 0; 0;
  0; 0; 0; 0; 1; 1; 1; 1; 1; 1; 1; 1; 1; 1; 1; 1;
  0; 0; 0; 0; 0; 0; 0; 0; 0; 0; 0; 0; 0; 0; 0; 0;
  0; 0; 1; 1; 1; 1; 1; 1; 1; 1; 1; 1; 1; 1; 1; 1;
  0; 0; 0; 0; 0; 0; 0; 0; 0; 0; 0; 0; 0; 0; 0; 0;
  0; 1; 1; 1; 1; 1; 1; 1; 1; 1; 1; 1; 1; 1; 1; 1;
  0; 0; 0; 0; 0; 0; 0; 0; 0; 0; 0; 0; 0; 0; 0; 0;
  0; 0; 0; 0; 0; 0; 0; 0; 0; 0; 0; 0; 0; 0; 0; 0;
  0; 0; 0; 0; 0; 0; 0; 0; 0; 0; 0; 0; 0; 0; 1; 1;
  0; 0; 0; 0; 0; 0; 0; 0; 0; 0; 0; 0; 0; 0; 0; 0;
  0; 0; 0; 0; 0; 0; 0; 0; 0; 0; 0; 0; 0; 1; 1; 1;
  0; 0; 0; 0; 0; 0; 0; 0; 0; 0; 0; 0; 0; 0; 0; 0;
  0; 0; 0; 0; 0; 0; 0; 0; 0; 0; 0; 1; 1; 1; 1; 1;
  0; 0; 0; 0; 0; 0; 0; 0; 0; 0; 0; 0; 0; 0; 0; 0;
  0; 0; 0; 0; 0; 0; 0; 0; 0; 0; 1; 1; 1; 1; 1; 1;
  0; 0; 0; 0; 0; 0; 0; 0; 0; 0; 0; 0; 0; 0; 0; 0;
  0; 0; 0; 0; 0; 0; 0; 0; 1; 1; 1; 1; 1; 1; 1; 1;
  0; 0; 0; 0; 0; 0; 0; 0; 0; 0; 0; 0; 0; 0; 0; 0;
  0; 0; 0; 0; 0; 0; 0; 1; 1; 1; 1; 1; 1; 1; 1; 1;
  0; 0; 0; 0; 0; 0; 0; 0; 0; 0; 0; 0; 0; 0; 0; 0;
  0; 0; 0; 0; 0; 1; 1; 1; 1; 1; 1; 1; 1; 1; 1; 1;
  0; 0; 0; 0; 0; 0; 0; 0; 0; 0; 0; 0; 0; 0; 0; 0;
  0; 0; 0; 0; 1; 1; 1; 1; 1; 1; 1; 1; 1; 1; 1; 1;
  0; 0; 0; 0; 0; 0; 0; 0; 0; 0; 0; 0; 0; 0; 0; 0;
  0; 0; 1; 1; 1; 1; 1; 1; 1; 1; 1; 1; 1; 1; 1; 1;
  0; 0; 0; 0; 0; 0; 0; 0; 0; 0; 0; 0; 0; 0; 0; 0;
  0; 0; 0; 0; 0; 0; 0; 0; 0; 0; 0; 0; 0; 0; 0; 0;
  0; 0; 0; 0; 0; 0; 0; 0; 0; 0; 0; 0; 0; 0; 0; 1;
  0; 0; 0; 0; 0; 0; 0; 0; 0; 0; 0; 0; 0; 0; 0; 0;
  0; 0; 0; 0; 0; 0; 0; 0; 0; 0; 0; 0; 0; 1; 1; 1;
  0; 0; 0; 0; 0; 0; 0; 0; 0; 0; 0; 0; 0; 0; 0; 0;
  0; 0; 0; 0; 0; 0; 0; 0; 0; 0; 0; 1; 1; 1; 1; 1;
  0; 0; 0; 0; 0; 0; 0; 0; 0; 0; 0; 0; 0; 0; 0; 0;
  0; 0; 0; 0; 0; 0; 0; 0; 0; 1; 1; 1; 1; 1; 1; 1;
  0; 0; 0; 0; 0; 0; 0; 0; 0; 0; 0; 0; 0; 0; 0; 0;
  0; 0; 0; 0; 0; 0; 0; 0; 1; 1; 1; 1; 1; 1; 1; 1;
  0; 0; 0; 0; 0; 0; 0; 0; 0; 0; 0; 0; 0; 0; 0; 0;
  0; 0; 0; 0; 0; 0; 1; 1; 1; 1; 1; 1; 1; 1; 1; 1;
  0; 0; 0; 0; 0; 0; 0; 0; 0; 0; 0; 0; 0; 0; 0; 0;
  0; 0; 0; 0; 1; 1; 1; 1; 1; 1; 1; 1; 1; 1; 1; 1;
  0; 0; 0; 0; 0; 0; 0; 0; 0; 0; 0; 0; 0; 0; 0; 0;
  0; 0; 1; 1; 1; 1; 1; 1; 1; 1; 1; 1; 1; 1; 1; 1;
  0; 0; 0; 0; 0; 0; 0; 0; 0; 0; 0; 0; 0; 0; 0; 0;
  0; 0; 0; 0; 0; 0; 0; 0; 0; 0; 0; 0; 0; 0; 0; 0
].

Definition ExpPositiveDelta_7 : list Z := [
  0; 0; 0; 0; 0; 0; 0; 1; 1; 1; 1; 1; 1; 1; 1; 1;
  0; 0; 0; 0; 0; 0; 1; 1; 1; 1; 1; 1; 1; 1; 1; 1;
  0; 0; 0; 0; 0; 1; 1; 1; 1; 1; 1; 1; 1; 1; 1; 1;
  0; 0; 0; 0; 1; 1; 1; 1; 1; 1; 1; 1; 1; 1; 1; 1;
  0; 0; 0; 1; 1; 1; 1; 1; 1; 1; 1; 1; 1; 1; 1; 1;
  0; 0; 1; 1; 1; 1; 1; 1; 1; 1; 1; 1; 1; 1; 1; 1;
  0; 1; 1; 1; 1; 1; 1; 1; 1; 1; 1; 1; 1; 1; 1; 1;
  0; 0; 0; 0; 0; 0; 0; 0; 0; 0; 0; 0; 0; 0; 0; 1;
  0; 0; 0; 0; 0; 0; 0; 0; 0; 0; 0; 0; 0; 0; 1; 1;
  0; 0; 0; 0; 0; 0; 0; 0; 0; 0; 0; 0; 0; 1; 1; 1;
  0; 0; 0; 0; 0; 0; 0; 0; 0; 0; 0; 0; 1; 1; 1; 1;
  0; 0; 0; 0; 0; 0; 0; 0; 0; 0; 0; 1; 1; 1; 1; 1;
  0; 0; 0; 0; 0; 0; 0; 0; 0; 0; 1; 1; 1; 1; 1; 1;
  0; 0; 0; 0; 0; 0; 0; 0; 1; 1; 1; 1; 1; 1; 1; 1;
  0; 0; 0; 0; 0; 0; 0; 1; 1; 1; 1; 1; 1; 1; 1; 1;
  0; 0; 0; 0; 0; 0; 1; 1; 1; 1; 1; 1; 1; 1; 1; 1;
  0; 0; 0; 0; 0; 1; 1; 1; 1; 1; 1; 1; 1; 1; 1; 1;
  0; 0; 0; 0; 1; 1; 1; 1; 1; 1; 1; 1; 1; 1; 1; 1;
  0; 0; 1; 1; 1; 1; 1; 1; 1; 1; 1; 1; 1; 1; 1; 1;
  0; 1; 1; 1; 1; 1; 1; 1; 1; 1; 1; 1; 1; 1; 1; 1;
  0; 0; 0; 0; 0; 0; 0; 0; 0; 0; 0; 0; 0; 0; 0; 1;
  0; 0; 0; 0; 0; 0; 0; 0; 0; 0; 0; 0; 0; 1; 1; 1;
  0; 0; 0; 0; 0; 0; 0; 0; 0; 0; 0; 0; 1; 1; 1; 1;
  0; 0; 0; 0; 0; 0; 0; 0; 0; 0; 0; 1; 1; 1; 1; 1;
  0; 0; 0; 0; 0; 0; 0; 0; 0; 1; 1; 1; 1; 1; 1; 1;
  0; 0; 0; 0; 0; 0; 0; 0; 1; 1; 1; 1; 1; 1; 1; 1;
  0; 0; 0; 0; 0; 0; 0; 1; 1; 1; 1; 1; 1; 1; 1; 1;
  0; 0; 0; 0; 0; 1; 1; 1; 1; 1; 1; 1; 1; 1; 1; 1;
  0; 0; 0; 0; 1; 1; 1; 1; 1; 1; 1; 1; 1; 1; 1; 1;
  0; 0; 0; 1; 1; 1; 1; 1; 1; 1; 1; 1; 1; 1; 1; 1;
  0; 1; 1; 1; 1; 1; 1; 1; 1; 1; 1; 1; 1; 1; 1; 1;
  0; 0; 0; 0; 0; 0; 0; 0; 0; 0; 0; 0; 0; 0; 1; 1;
  0; 0; 0; 0; 0; 0; 0; 0; 0; 0; 0; 0; 0; 1; 1; 1;
  0; 0; 0; 0; 0; 0; 0; 0; 0; 0; 0; 0; 1; 1; 1; 1;
  0; 0; 0; 0; 0; 0; 0; 0; 0; 0; 1; 1; 1; 1; 1; 1;
  0; 0; 0; 0; 0; 0; 0; 0; 0; 1; 1; 1; 1; 1; 1; 1;
  0; 0; 0; 0; 0; 0; 0; 1; 1; 1; 1; 1; 1; 1; 1; 1;
  0; 0; 0; 0; 0; 0; 1; 1; 1; 1; 1; 1; 1; 1; 1; 1;
  0; 0; 0; 0; 1; 1; 1; 1; 1; 1; 1; 1; 1; 1; 1; 1;
  0; 0; 0; 1; 1; 1; 1; 1; 1; 1; 1; 1; 1; 1; 1; 1;
  0; 1; 1; 1; 1; 1; 1; 1; 1; 1; 1; 1; 1; 1; 1; 2;
  0; 0; 0; 0; 0; 0; 0; 0; 0; 0; 0; 0; 0; 0; 1; 1;
  0; 0; 0; 0; 0; 0; 0; 0; 0; 0; 0; 0; 1; 1; 1; 1;
  0; 0; 0; 0; 0; 0; 0; 0; 0; 0; 0; 1; 1; 1; 1; 1;
  0; 0; 0; 0; 0; 0; 0; 0; 0; 1; 1; 1; 1; 1; 1; 1;
  0; 0; 0; 0; 0; 0; 0; 0; 1; 1; 1; 1; 1; 1; 1; 1;
  0; 0; 0; 0; 0; 0; 1; 1; 1; 1; 1; 1; 1; 1; 1; 1;
  0; 0; 0; 0; 1; 1; 1; 1; 1; 1; 1; 1; 1; 1; 1; 1;
  0; 0; 0; 1; 1; 1; 1; 1; 1; 1; 1; 1; 1; 1; 1; 1;
  0; 1; 1; 1; 1; 1; 1; 1; 1; 1; 1; 1; 1; 1; 1; 2;
  0; 0; 0; 0; 0; 0; 0; 0; 0; 0; 0; 0; 0; 0; 1; 1;
  0; 0; 0; 0; 0; 0; 0; 0; 0; 0; 0; 0; 1; 1; 1; 1;
  0; 0; 0; 0; 0; 0; 0; 0; 0; 0; 1; 1; 1; 1; 1; 1;
  0; 0; 0; 0; 0; 0; 0; 0; 1; 1; 1; 1; 1; 1; 1; 1;
  0; 0; 0; 0; 0; 0; 0; 1; 1; 1; 1; 1; 1; 1; 1; 1;
  0; 0; 0; 0; 0; 1; 1; 1; 1; 1; 1; 1; 1; 1; 1; 1;
  0; 0; 0; 1; 1; 1; 1; 1; 1; 1; 1; 1; 1; 1; 1; 1;
  0; 1; 1; 1; 1; 1; 1; 1; 1; 1; 1; 1; 1; 1; 1; 1;
  0; 0; 0; 0; 0; 0; 0; 0; 0; 0; 0; 0; 0; 0; 1; 1;
  0; 0; 0; 0; 0; 0; 0; 0; 0; 0; 0; 0; 1; 1; 1; 1;
  0; 0; 0; 0; 0; 0; 0; 0; 0; 0; 1; 1; 1; 1; 1; 1;
  0; 0; 0; 0; 0; 0; 0; 0; 1; 1; 1; 1; 1; 1; 1; 1;
  0; 0; 0; 0; 0; 0; 1; 1; 1; 1; 1; 1; 1; 1; 1; 1;
  0; 0; 0; 0; 0; 1; 1; 1; 1; 1; 1; 1; 1; 1; 1; 1
].

Definition ExpPositiveDelta_8 : list Z := [
  0; 0; 1; 1; 1; 1; 1; 1; 1; 2; 2; 2; 2; 2; 2; 2;
  0; 0; 0; 0; 0; 0; 0; 1; 1; 1; 1; 1; 1; 1; 2; 2;
  0; 0; 0; 0; 0; 1; 1; 1; 1; 1; 1; 1; 2; 2; 2; 2;
  0; 0; 0; 1; 1; 1; 1; 1; 1; 1; 2; 2; 2; 2; 2; 2;
  0; 1; 1; 1; 1; 1; 1; 1; 2; 2; 2; 2; 2; 2; 2; 3;
  0; 0; 0; 0; 0; 0; 1; 1; 1; 1; 1; 1; 1; 2; 2; 2;
  0; 0; 0; 0; 1; 1; 1; 1; 1; 1; 1; 2; 2; 2; 2; 2;
  0; 0; 1; 1; 1; 1; 1; 1; 1; 2; 2; 2; 2; 2; 2; 2;
  0; 0; 0; 0; 0; 0; 0; 1; 1; 1; 1; 1; 1; 1; 2; 2;
  0; 0; 0; 0; 0; 1; 1; 1; 1; 1; 1; 2; 2; 2; 2; 2;
  0; 0; 1; 1; 1; 1; 1; 1; 1; 2; 2; 2; 2; 2; 2; 2;
  0; 0; 0; 0; 0; 0; 0; 1; 1; 1; 1; 1; 1; 1; 2; 2;
  0; 0; 0; 0; 0; 1; 1; 1; 1; 1; 1; 1; 2; 2; 2; 2;
  0; 0; 0; 1; 1; 1; 1; 1; 1; 1; 2; 2; 2; 2; 2; 2;
  0; 0; 0; 0; 0; 0; 0; 1; 1; 1; 1; 1; 1; 1; 2; 2;
  0; 0; 0; 0; 0; 1; 1; 1; 1; 1; 1; 1; 2; 2; 2; 2;
  0; 0; 0; 1; 1; 1; 1; 1; 1; 1; 2; 2; 2; 2; 2; 2;
  0; 0; 0; 0; 0; 0; 0; 1; 1; 1; 1; 1; 1; 1; 2; 2;
  0; 0; 0; 0; 0; 1; 1; 1; 1; 1; 1; 1; 2; 2; 2; 2;
  0; 0; 1; 1; 1; 1; 1; 1; 1; 2; 2; 2; 2; 2; 2; 2;
  0; 0; 0; 0; 0; 0; 0; 1; 1; 1; 1; 1; 1; 1; 2; 2;
  0; 0; 0; 0; 1; 1; 1; 1; 1; 1; 1; 2; 2; 2; 2; 2;
  0; 0; 1; 1; 1; 1; 1; 1; 1; 2; 2; 2; 2; 2; 2; 3;
  0; 0; 0; 0; 0; 0; 1; 1; 1; 1; 1; 1; 1; 2; 2; 2;
  0; 0; 0; 0; 1; 1; 1; 1; 1; 1; 2; 2; 2; 2; 2; 2;
  0; 1; 1; 1; 1; 1; 1; 1; 2; 2; 2; 2; 2; 2; 2; 3;
  0; 0; 0; 0; 0; 1; 1; 1; 1; 1; 1; 1; 2; 2; 2; 2;
  0; 0; 0; 1; 1; 1; 1; 1; 1; 2; 2; 2; 2; 2; 2; 2;
  0; 0; 0; 0; 0; 0; 0; 1; 1; 1; 1; 1; 1; 2; 2; 2;
  0; 0; 0; 0; 1; 1; 1; 1; 1; 1; 1; 2; 2; 2; 2; 2;
  0; 1; 1; 1; 1; 1; 1; 1; 2; 2; 2; 2; 2; 2; 2; 3;
  0; 0; 0; 0; 0; 1; 1; 1; 1; 1; 1; 1; 2; 2; 2; 2;
  0; 0; 0; 1; 1; 1; 1; 1; 1; 2; 2; 2; 2; 2; 2; 2;
  0; 0; 0; 0; 0; 0; 1; 1; 1; 1; 1; 1; 1; 2; 2; 2;
  0; 0; 0; 0; 1; 1; 1; 1; 1; 1; 2; 2; 2; 2; 2; 2;
  0; 1; 1; 1; 1; 1; 1; 2; 2; 2; 2; 2; 2; 2; 3; 3;
  0; 0; 0; 0; 0; 1; 1; 1; 1; 1; 1; 2; 2; 2; 2; 2;
  0; 0; 1; 1; 1; 1; 1; 1; 2; 2; 2; 2; 2; 2; 2; 3;
  0; 0; 0; 0; 0; 1; 1; 1; 1; 1; 1; 1; 2; 2; 2; 2;
  0; 0; 0; 1; 1; 1; 1; 1; 1; 2; 2; 2; 2; 2; 2; 2;
  0; 0; 0; 0; 0; 0; 1; 1; 1; 1; 1; 1; 1; 2; 2; 2;
  0; 0; 0; 1; 1; 1; 1; 1; 1; 1; 2; 2; 2; 2; 2; 2;
  0; 0; 0; 0; 0; 0; 0; 1; 1; 1; 1; 1; 1; 2; 2; 2;
  0; 0; 0; 0; 1; 1; 1; 1; 1; 1; 2; 2; 2; 2; 2; 2;
  0; 1; 1; 1; 1; 1; 1; 2; 2; 2; 2; 2; 2; 2; 3; 3;
  0; 0; 0; 0; 1; 1; 1; 1; 1; 1; 1; 2; 2; 2; 2; 2;
  0; 1; 1; 1; 1; 1; 1; 2; 2; 2; 2; 2; 2; 2; 3; 3;
  0; 0; 0; 0; 1; 1; 1; 1; 1; 1; 1; 2; 2; 2; 2; 2;
  0; 1; 1; 1; 1; 1; 1; 1; 2; 2; 2; 2; 2; 2; 3; 3;
  0; 0; 0; 0; 1; 1; 1; 1; 1; 1; 1; 2; 2; 2; 2; 2;
  0; 1; 1; 1; 1; 1; 1; 1; 2; 2; 2; 2; 2; 2; 3; 3;
  0; 0; 0; 0; 1; 1; 1; 1; 1; 1; 1; 2; 2; 2; 2; 2;
  0; 1; 1; 1; 1; 1; 1; 1; 2; 2; 2; 2; 2; 2; 3; 3;
  0; 0; 0; 0; 1; 1; 1; 1; 1; 1; 1; 2; 2; 2; 2; 2;
  0; 1; 1; 1; 1; 1; 1; 2; 2; 2; 2; 2; 2; 2; 3; 3;
  0; 0; 0; 0; 1; 1; 1; 1; 1; 1; 2; 2; 2; 2; 2; 2;
  0; 1; 1; 1; 1; 1; 1; 2; 2; 2; 2; 2; 2; 3; 3; 3;
  0; 0; 0; 0; 1; 1; 1; 1; 1; 1; 2; 2; 2; 2; 2; 2;
  0; 0; 0; 0; 0; 0; 0; 1; 1; 1; 1; 1; 1; 2; 2; 2;
  0; 0; 0; 1; 1; 1; 1; 1; 1; 1; 2; 2; 2; 2; 2; 2;
  0; 0; 0; 0; 0; 0; 1; 1; 1; 1; 1; 1; 2; 2; 2; 2;
  0; 0; 0; 1; 1; 1; 1; 1; 1; 2; 2; 2; 2; 2; 2; 3;
  0; 0; 0; 0; 0; 1; 1; 1; 1; 1; 1; 1; 2; 2; 2; 2;
  0; 0; 1; 1; 1; 1; 1; 1; 2; 2; 2; 2; 2; 2; 3; 3
].

Definition ExpPositiveDelta_9 : list Z := [
  0; 0; 0; 1; 1; 1; 2; 2; 2; 3; 3; 3; 4; 4; 4; 5;
  0; 0; 1; 1; 1; 2; 2; 2; 3; 3; 3; 4; 4; 4; 5; 5;
  0; 0; 1; 1; 1; 2; 2; 2; 3; 3; 3; 4; 4; 4; 5; 5;
  0; 1; 1; 1; 2; 2; 2; 3; 3; 3; 4; 4; 4; 5; 5; 5;
  0; 0; 0; 1; 1; 1; 2; 2; 2; 2; 3; 3; 3; 4; 4; 4;
  0; 0; 0; 1; 1; 1; 2; 2; 2; 3; 3; 3; 4; 4; 4; 5;
  0; 0; 1; 1; 1; 2; 2; 2; 3; 3; 3; 4; 4; 4; 5; 5;
  0; 1; 1; 1; 2; 2; 2; 3; 3; 3; 4; 4; 4; 5; 5; 5;
  0; 0; 0; 1; 1; 1; 2; 2; 2; 3; 3; 3; 4; 4; 4; 5;
  0; 0; 1; 1; 1; 2; 2; 2; 3; 3; 3; 4; 4; 4; 5; 5;
  0; 1; 1; 1; 2; 2; 2; 3; 3; 3; 4; 4; 4; 5; 5; 5;
  0; 0; 0; 1; 1; 1; 2; 2; 2; 3; 3; 3; 4; 4; 4; 5;
  0; 0; 1; 1; 1; 2; 2; 2; 3; 3; 3; 4; 4; 4; 5; 5;
  0; 1; 1; 1; 2; 2; 2; 3; 3; 3; 4; 4; 4; 5; 5; 5;
  0; 0; 0; 1; 1; 1; 2; 2; 2; 3; 3; 3; 4; 4; 5; 5;
  0; 1; 1; 1; 2; 2; 2; 3; 3; 3; 4; 4; 4; 5; 5; 5;
  0; 0; 0; 1; 1; 1; 2; 2; 2; 3; 3; 3; 4; 4; 4; 5;
  0; 0; 1; 1; 1; 2; 2; 3; 3; 3; 4; 4; 4; 5; 5; 5;
  0; 0; 0; 1; 1; 1; 2; 2; 2; 3; 3; 3; 4; 4; 4; 5;
  0; 0; 1; 1; 2; 2; 2; 3; 3; 3; 4; 4; 4; 5; 5; 5;
  0; 0; 0; 1; 1; 1; 2; 2; 2; 3; 3; 4; 4; 4; 5; 5;
  0; 1; 1; 1; 2; 2; 2; 3; 3; 3; 4; 4; 4; 5; 5; 5;
  0; 0; 1; 1; 1; 2; 2; 2; 3; 3; 3; 4; 4; 4; 5; 5;
  0; 1; 1; 1; 2; 2; 3; 3; 3; 4; 4; 4; 5; 5; 5; 6;
  0; 0; 1; 1; 1; 2; 2; 3; 3; 3; 4; 4; 4; 5; 5; 5;
  0; 0; 0; 1; 1; 1; 2; 2; 3; 3; 3; 4; 4; 4; 5; 5;
  0; 1; 1; 1; 2; 2; 3; 3; 3; 4; 4; 4; 5; 5; 5; 6;
  0; 0; 1; 1; 2; 2; 2; 3; 3; 3; 4; 4; 4; 5; 5; 5;
  0; 0; 1; 1; 1; 2; 2; 2; 3; 3; 3; 4; 4; 4; 5; 5;
  0; 0; 0; 1; 1; 1; 2; 2; 2; 3; 3; 4; 4; 4; 5; 5;
  0; 1; 1; 1; 2; 2; 2; 3; 3; 4; 4; 4; 5; 5; 5; 6;
  0; 0; 1; 1; 2; 2; 2; 3; 3; 3; 4; 4; 4; 5; 5; 6;
  0; 0; 1; 1; 1; 2; 2; 2; 3; 3; 4; 4; 4; 5; 5; 5;
  0; 0; 0; 1; 1; 2; 2; 2; 3; 3; 3; 4; 4; 4; 5; 5;
  0; 0; 0; 1; 1; 1; 2; 2; 3; 3; 3; 4; 4; 4; 5; 5;
  0; 1; 1; 2; 2; 2; 3; 3; 3; 4; 4; 5; 5; 5; 6; 6;
  0; 1; 1; 1; 2; 2; 3; 3; 3; 4; 4; 4; 5; 5; 6; 6;
  0; 1; 1; 1; 2; 2; 3; 3; 3; 4; 4; 4; 5; 5; 5; 6;
  0; 1; 1; 1; 2; 2; 2; 3; 3; 4; 4; 4; 5; 5; 5; 6;
  0; 1; 1; 1; 2; 2; 2; 3; 3; 4; 4; 4; 5; 5; 5; 6;
  0; 1; 1; 1; 2; 2; 2; 3; 3; 4; 4; 4; 5; 5; 5; 6;
  0; 1; 1; 1; 2; 2; 2; 3; 3; 4; 4; 4; 5; 5; 6; 6;
  0; 1; 1; 1; 2; 2; 3; 3; 3; 4; 4; 4; 5; 5; 6; 6;
  0; 1; 1; 1; 2; 2; 3; 3; 3; 4; 4; 5; 5; 5; 6; 6;
  0; 1; 1; 2; 2; 2; 3; 3; 3; 4; 4; 5; 5; 5; 6; 6;
  0; 0; 0; 1; 1; 1; 2; 2; 3; 3; 3; 4; 4; 5; 5; 5;
  0; 0; 0; 1; 1; 2; 2; 2; 3; 3; 4; 4; 4; 5; 5; 5;
  0; 0; 1; 1; 1; 2; 2; 3; 3; 3; 4; 4; 4; 5; 5; 6;
  0; 0; 1; 1; 2; 2; 2; 3; 3; 3; 4; 4; 5; 5; 5; 6;
  0; 1; 1; 1; 2; 2; 3; 3; 3; 4; 4; 4; 5; 5; 6; 6;
  0; 1; 1; 2; 2; 2; 3; 3; 4; 4; 4; 5; 5; 6; 6; 6;
  0; 0; 0; 1; 1; 2; 2; 2; 3; 3; 4; 4; 4; 5; 5; 6;
  0; 0; 1; 1; 2; 2; 2; 3; 3; 4; 4; 4; 5; 5; 5; 6;
  0; 1; 1; 1; 2; 2; 3; 3; 3; 4; 4; 5; 5; 5; 6; 6;
  0; 0; 0; 1; 1; 2; 2; 2; 3; 3; 4; 4; 4; 5; 5; 6;
  0; 0; 1; 1; 2; 2; 2; 3; 3; 4; 4; 4; 5; 5; 6; 6;
  0; 1; 1; 2; 2; 2; 3; 3; 4; 4; 4; 5; 5; 6; 6; 6;
  0; 0; 1; 1; 1; 2; 2; 3; 3; 3; 4; 4; 5; 5; 5; 6;
  0; 1; 1; 1; 2; 2; 3; 3; 3; 4; 4; 5; 5; 5; 6; 6;
  0; 0; 0; 1; 1; 2; 2; 2; 3; 3; 4; 4; 4; 5; 5; 6;
  0; 1; 1; 1; 2; 2; 3; 3; 3; 4; 4; 5; 5; 5; 6; 6;
  0; 0; 0; 1; 1; 2; 2; 2; 3; 3; 4; 4; 5; 5; 5; 6;
  0; 1; 1; 1; 2; 2; 3; 3; 3; 4; 4; 5; 5; 5; 6; 6;
  0; 0; 1; 1; 1; 2; 2; 3; 3; 3; 4; 4; 5; 5; 5; 6
].

Definition ExpPositiveDelta_10 : list Z := [
  0; 1; 2; 3; 4; 4; 5; 6; 7; 8; 9; 9; 10; 11; 12; 13;
  0; 0; 1; 2; 3; 4; 5; 5; 6; 7; 8; 9; 10; 10; 11; 12;
  0; 1; 2; 2; 3; 4; 5; 6; 7; 7; 8; 9; 10; 11; 12; 12;
  0; 1; 2; 3; 4; 5; 5; 6; 7; 8; 9; 10; 10; 11; 12; 13;
  0; 1; 2; 2; 3; 4; 5; 6; 7; 8; 8; 9; 10; 11; 12; 13;
  0; 0; 1; 2; 3; 4; 5; 6; 6; 7; 8; 9; 10; 11; 12; 12;
  0; 1; 2; 3; 4; 5; 6; 6; 7; 8; 9; 10; 11; 12; 12; 13;
  0; 1; 2; 3; 4; 5; 5; 6; 7; 8; 9; 10; 11; 12; 12; 13;
  0; 1; 2; 3; 4; 5; 5; 6; 7; 8; 9; 10; 11; 12; 13; 13;
  0; 1; 2; 3; 4; 5; 6; 6; 7; 8; 9; 10; 11; 12; 13; 14;
  0; 1; 2; 3; 4; 5; 6; 7; 8; 9; 9; 10; 11; 12; 13; 14;
  0; 1; 2; 2; 3; 4; 5; 6; 7; 8; 9; 10; 11; 12; 12; 13;
  0; 1; 2; 3; 4; 5; 6; 7; 7; 8; 9; 10; 11; 12; 13; 14;
  0; 1; 2; 3; 3; 4; 5; 6; 7; 8; 9; 10; 11; 12; 13; 14;
  0; 1; 2; 3; 4; 5; 6; 7; 8; 9; 10; 11; 11; 12; 13; 14;
  0; 1; 2; 3; 4; 5; 6; 7; 8; 9; 9; 10; 11; 12; 13; 14;
  0; 1; 2; 3; 4; 5; 6; 7; 8; 9; 9; 10; 11; 12; 13; 14;
  0; 1; 2; 3; 4; 5; 6; 7; 8; 9; 10; 10; 11; 12; 13; 14;
  0; 1; 2; 3; 4; 5; 6; 7; 8; 9; 10; 11; 12; 13; 14; 14;
  0; 1; 2; 3; 4; 5; 6; 7; 8; 9; 10; 11; 12; 13; 14; 15;
  0; 1; 2; 3; 4; 5; 6; 7; 8; 9; 9; 10; 11; 12; 13; 14;
  0; 1; 2; 3; 4; 5; 6; 7; 8; 9; 10; 11; 12; 13; 14; 15;
  0; 1; 2; 3; 4; 5; 6; 7; 8; 9; 10; 11; 12; 13; 14; 15;
  0; 1; 2; 3; 4; 5; 6; 7; 8; 9; 10; 11; 11; 12; 13; 14;
  0; 1; 2; 3; 4; 5; 6; 7; 8; 9; 10; 11; 12; 13; 13; 14;
  0; 1; 1; 2; 2; 3; 3; 4; 4; 5; 5; 6; 6; 7; 7; 8;
  0; 1; 1; 2; 2; 3; 3; 4; 4; 5; 5; 6; 6; 7; 7; 8;
  0; 1; 1; 2; 2; 3; 3; 4; 4; 5; 5; 6; 7; 7; 8; 8;
  0; 0; 1; 1; 2; 2; 3; 3; 4; 4; 5; 5; 6; 6; 7; 7;
  0; 0; 1; 1; 2; 2; 3; 3; 4; 4; 5; 5; 6; 7; 7; 8;
  0; 1; 1; 2; 2; 3; 3; 4; 4; 5; 5; 6; 6; 7; 7; 8;
  0; 1; 2; 2; 3; 3; 4; 4; 5; 5; 6; 6; 7; 7; 8; 8;
  0; 0; 1; 1; 2; 3; 3; 4; 4; 5; 5; 6; 6; 7; 7; 8;
  0; 1; 1; 2; 3; 3; 4; 4; 5; 5; 6; 6; 7; 7; 8; 8;
  0; 1; 1; 2; 2; 3; 3; 4; 4; 5; 5; 6; 6; 7; 8; 8;
  0; 0; 1; 1; 2; 2; 3; 3; 4; 4; 5; 6; 6; 7; 7; 8;
  0; 1; 1; 2; 2; 3; 4; 4; 5; 5; 6; 6; 7; 7; 8; 9;
  0; 1; 1; 2; 2; 3; 3; 4; 4; 5; 6; 6; 7; 7; 8; 8;
  0; 0; 1; 2; 2; 3; 3; 4; 4; 5; 5; 6; 7; 7; 8; 8;
  0; 0; 1; 2; 2; 3; 3; 4; 4; 5; 5; 6; 7; 7; 8; 8;
  0; 0; 1; 2; 2; 3; 3; 4; 4; 5; 5; 6; 7; 7; 8; 8;
  0; 0; 1; 2; 2; 3; 3; 4; 4; 5; 6; 6; 7; 7; 8; 8;
  0; 1; 1; 2; 2; 3; 3; 4; 5; 5; 6; 6; 7; 7; 8; 9;
  0; 1; 1; 2; 2; 3; 4; 4; 5; 5; 6; 7; 7; 8; 8; 9;
  0; 1; 2; 2; 3; 3; 4; 5; 5; 6; 6; 7; 7; 8; 9; 9;
  0; 0; 1; 2; 2; 3; 3; 4; 4; 5; 6; 6; 7; 7; 8; 9;
  0; 1; 1; 2; 3; 3; 4; 4; 5; 6; 6; 7; 7; 8; 8; 9;
  0; 0; 1; 1; 2; 3; 3; 4; 4; 5; 6; 6; 7; 7; 8; 9;
  0; 1; 1; 2; 3; 3; 4; 4; 5; 6; 6; 7; 7; 8; 9; 9;
  0; 0; 1; 2; 2; 3; 3; 4; 5; 5; 6; 7; 7; 8; 8; 9;
  0; 0; 1; 1; 2; 3; 3; 4; 4; 5; 6; 6; 7; 8; 8; 9;
  0; 1; 2; 2; 3; 3; 4; 5; 5; 6; 7; 7; 8; 8; 9; 10;
  0; 1; 1; 2; 3; 3; 4; 5; 5; 6; 6; 7; 8; 8; 9; 10;
  0; 1; 1; 2; 3; 3; 4; 5; 5; 6; 6; 7; 8; 8; 9; 10;
  0; 1; 1; 2; 3; 3; 4; 5; 5; 6; 6; 7; 8; 8; 9; 10;
  0; 1; 2; 2; 3; 3; 4; 5; 5; 6; 7; 7; 8; 9; 9; 10;
  0; 1; 2; 2; 3; 4; 4; 5; 6; 6; 7; 7; 8; 9; 9; 10;
  0; 0; 1; 2; 2; 3; 4; 4; 5; 5; 6; 7; 7; 8; 9; 9;
  0; 1; 1; 2; 3; 3; 4; 5; 5; 6; 7; 7; 8; 8; 9; 10;
  0; 1; 2; 2; 3; 4; 4; 5; 6; 6; 7; 8; 8; 9; 10; 10;
  0; 1; 1; 2; 3; 3; 4; 5; 5; 6; 7; 7; 8; 9; 9; 10;
  0; 0; 1; 2; 2; 3; 4; 4; 5; 6; 6; 7; 8; 8; 9; 10;
  0; 1; 2; 2; 3; 4; 4; 5; 6; 6; 7; 8; 8; 9; 10; 10;
  0; 1; 1; 2; 3; 3; 4; 5; 5; 6; 7; 7; 8; 9; 9; 10
].

Definition ExpPositiveDelta_11 : list Z := [
  0; 1; 2; 4; 5; 7; 8; 9; 11; 12; 13; 15; 16; 18; 19; 20;
  0; 1; 2; 4; 5; 7; 8; 9; 11; 12; 14; 15; 16; 18; 19; 21;
  0; 1; 3; 4; 6; 7; 8; 10; 11; 13; 14; 15; 17; 18; 20; 21;
  0; 1; 2; 4; 5; 7; 8; 10; 11; 12; 14; 15; 17; 18; 20; 21;
  0; 1; 2; 4; 5; 7; 8; 10; 11; 13; 14; 16; 17; 18; 20; 21;
  0; 1; 3; 4; 6; 7; 9; 10; 12; 13; 15; 16; 18; 19; 21; 22;
  0; 1; 3; 4; 6; 7; 9; 10; 12; 13; 15; 16; 18; 19; 21; 22;
  0; 1; 3; 4; 6; 7; 9; 10; 12; 13; 15; 16; 18; 19; 21; 23;
  0; 2; 3; 5; 6; 8; 9; 11; 12; 14; 16; 17; 19; 20; 22; 23;
  0; 1; 3; 5; 6; 8; 9; 11; 12; 14; 16; 17; 19; 20; 22; 24;
  0; 2; 3; 5; 7; 8; 10; 11; 13; 14; 16; 18; 19; 21; 23; 24;
  0; 1; 3; 5; 6; 8; 9; 11; 13; 14; 16; 18; 19; 21; 23; 24;
  0; 1; 3; 5; 6; 8; 10; 11; 13; 15; 16; 18; 20; 21; 23; 25;
  0; 2; 4; 5; 7; 9; 10; 12; 14; 15; 17; 19; 20; 22; 24; 25;
  0; 2; 3; 5; 7; 9; 10; 12; 14; 15; 17; 19; 20; 22; 24; 26;
  0; 2; 4; 6; 7; 9; 11; 12; 14; 16; 18; 19; 21; 23; 25; 26;
  0; 2; 4; 5; 7; 9; 11; 12; 14; 16; 18; 19; 21; 23; 25; 26;
  0; 2; 4; 6; 7; 9; 11; 13; 14; 16; 18; 20; 22; 23; 25; 27;
  0; 2; 3; 5; 7; 9; 11; 12; 14; 16; 18; 20; 22; 23; 25; 27;
  0; 2; 3; 5; 7; 9; 11; 13; 15; 16; 18; 20; 22; 24; 26; 27;
  0; 2; 4; 6; 8; 10; 11; 13; 15; 17; 19; 21; 23; 25; 26; 28;
  0; 2; 4; 6; 8; 10; 12; 14; 15; 17; 19; 21; 23; 25; 27; 29;
  0; 2; 4; 5; 7; 9; 11; 13; 15; 17; 19; 21; 23; 25; 27; 29;
  0; 2; 4; 5; 7; 9; 11; 13; 15; 17; 19; 21; 23; 25; 27; 29;
  0; 2; 4; 6; 8; 10; 12; 14; 16; 18; 20; 22; 23; 24; 25; 26;
  0; 1; 2; 3; 4; 5; 6; 7; 9; 10; 11; 12; 13; 14; 15; 16;
  0; 1; 2; 3; 4; 5; 6; 7; 8; 9; 10; 11; 12; 13; 14; 15;
  0; 1; 2; 3; 4; 5; 6; 7; 8; 9; 11; 12; 13; 14; 15; 16;
  0; 1; 2; 3; 4; 5; 6; 7; 8; 9; 10; 11; 13; 14; 15; 16;
  0; 1; 2; 3; 4; 5; 6; 7; 8; 9; 11; 12; 13; 14; 15; 16;
  0; 1; 2; 3; 4; 5; 7; 8; 9; 10; 11; 12; 13; 14; 15; 16;
  0; 1; 2; 3; 4; 5; 6; 7; 8; 9; 11; 12; 13; 14; 15; 16;
  0; 1; 3; 4; 5; 6; 7; 8; 9; 10; 12; 13; 14; 15; 16; 17;
  0; 2; 3; 4; 5; 6; 7; 8; 10; 11; 12; 13; 14; 15; 16; 18;
  0; 1; 2; 3; 4; 6; 7; 8; 9; 10; 11; 13; 14; 15; 16; 17;
  0; 2; 3; 4; 5; 6; 7; 9; 10; 11; 12; 13; 15; 16; 17; 18;
  0; 2; 3; 4; 5; 6; 7; 9; 10; 11; 12; 13; 15; 16; 17; 18;
  0; 1; 2; 3; 4; 6; 7; 8; 9; 10; 12; 13; 14; 15; 17; 18;
  0; 1; 3; 4; 5; 6; 7; 9; 10; 11; 12; 14; 15; 16; 17; 19;
  0; 1; 2; 4; 5; 6; 7; 9; 10; 11; 12; 14; 15; 16; 18; 19;
  0; 1; 3; 4; 5; 6; 8; 9; 10; 12; 13; 14; 15; 17; 18; 19;
  0; 1; 2; 3; 5; 6; 7; 9; 10; 11; 13; 14; 15; 16; 18; 19;
  0; 2; 3; 4; 6; 7; 8; 10; 11; 12; 14; 15; 16; 17; 19; 20;
  0; 2; 3; 4; 6; 7; 8; 10; 11; 12; 14; 15; 17; 18; 19; 21;
  0; 1; 3; 4; 5; 7; 8; 9; 11; 12; 14; 15; 16; 18; 19; 20;
  0; 1; 2; 4; 5; 7; 8; 9; 11; 12; 14; 15; 16; 18; 19; 20;
  0; 1; 3; 4; 5; 7; 8; 10; 11; 12; 14; 15; 17; 18; 20; 21;
  0; 2; 3; 5; 6; 7; 9; 10; 12; 13; 15; 16; 17; 19; 20; 22;
  0; 2; 3; 5; 6; 7; 9; 10; 12; 13; 15; 16; 18; 19; 20; 22;
  0; 2; 3; 5; 6; 8; 9; 11; 12; 14; 15; 17; 18; 19; 21; 22;
  0; 1; 3; 4; 6; 7; 9; 10; 12; 13; 15; 16; 18; 19; 21; 22;
  0; 1; 3; 4; 6; 7; 9; 10; 12; 14; 15; 17; 18; 20; 21; 23;
  0; 2; 3; 5; 6; 8; 9; 11; 12; 14; 16; 17; 19; 20; 22; 23;
  0; 1; 3; 5; 6; 8; 9; 11; 12; 14; 16; 17; 19; 20; 22; 23;
  0; 2; 3; 5; 6; 8; 9; 11; 13; 14; 16; 17; 19; 21; 22; 24;
  0; 2; 4; 5; 7; 8; 10; 12; 13; 15; 17; 18; 20; 21; 23; 25;
  0; 2; 4; 5; 7; 9; 10; 12; 13; 15; 17; 18; 20; 22; 23; 25;
  0; 1; 3; 5; 6; 8; 10; 11; 13; 15; 16; 18; 20; 21; 23; 25;
  0; 2; 4; 5; 7; 9; 10; 12; 14; 16; 17; 19; 21; 22; 24; 26;
  0; 2; 4; 6; 7; 9; 11; 12; 14; 16; 18; 19; 21; 23; 25; 26;
  0; 2; 3; 5; 7; 9; 10; 12; 14; 16; 17; 19; 21; 23; 24; 26;
  0; 2; 4; 5; 7; 9; 11; 12; 14; 16; 18; 19; 21; 23; 25; 27;
  0; 2; 4; 6; 8; 9; 11; 13; 15; 17; 18; 20; 22; 24; 26; 27;
  0; 2; 4; 6; 8; 9; 11; 13; 15; 17; 19; 20; 22; 24; 26; 28
].

Definition ExpPositiveDelta_12 : list Z := [
  0; 3; 7; 11; 14; 18; 22; 26; 29; 33; 37; 41; 44; 48; 52; 56;
  0; 3; 7; 11; 15; 19; 23; 27; 30; 34; 38; 42; 46; 50; 54; 58;
  0; 4; 7; 11; 15; 19; 23; 27; 31; 35; 37; 39; 41; 43; 45; 47;
  0; 2; 4; 6; 8; 10; 12; 14; 16; 18; 20; 22; 24; 26; 29; 31;
  0; 2; 4; 6; 8; 10; 12; 14; 17; 19; 21; 23; 25; 27; 29; 32;
  0; 2; 4; 6; 8; 11; 13; 15; 17; 19; 22; 24; 26; 28; 30; 33;
  0; 2; 4; 7; 9; 11; 13; 16; 18; 20; 22; 25; 27; 29; 31; 34;
  0; 2; 5; 7; 9; 12; 14; 16; 19; 21; 23; 26; 28; 30; 33; 35;
  0; 3; 5; 8; 10; 12; 15; 17; 20; 22; 24; 27; 29; 32; 34; 37;
  0; 2; 5; 7; 10; 12; 15; 17; 20; 22; 25; 27; 30; 32; 35; 37;
  0; 2; 5; 7; 10; 12; 15; 18; 20; 23; 25; 28; 30; 33; 36; 38;
  0; 2; 5; 8; 10; 13; 16; 18; 21; 23; 26; 29; 31; 34; 37; 39;
  0; 3; 6; 8; 11; 14; 16; 19; 22; 25; 27; 30; 33; 36; 38; 41;
  0; 3; 5; 8; 11; 14; 17; 19; 22; 25; 28; 31; 33; 36; 39; 42;
  0; 3; 6; 8; 11; 14; 17; 20; 23; 26; 29; 32; 35; 38; 40; 43;
  0; 3; 6; 9; 12; 15; 18; 21; 24; 27; 30; 33; 36; 39; 42; 45;
  0; 3; 6; 10; 13; 16; 19; 22; 25; 28; 31; 34; 37; 40; 44; 47;
  0; 3; 6; 9; 12; 16; 19; 22; 25; 28; 32; 35; 38; 41; 44; 48;
  0; 3; 6; 10; 13; 16; 19; 23; 26; 29; 33; 36; 39; 43; 46; 49;
  0; 3; 6; 10; 13; 16; 20; 23; 27; 30; 33; 37; 40; 44; 47; 51;
  0; 3; 7; 10; 14; 17; 21; 24; 28; 31; 35; 38; 42; 45; 49; 53;
  0; 4; 7; 11; 14; 18; 22; 25; 29; 32; 36; 40; 43; 47; 51; 54;
  0; 4; 7; 11; 15; 18; 22; 26; 30; 33; 37; 41; 45; 48; 52; 56;
  0; 3; 7; 11; 15; 19; 23; 26; 30; 34; 38; 42; 46; 50; 53; 57;
  0; 4; 8; 12; 16; 20; 24; 28; 32; 36; 40; 44; 47; 49; 51; 53;
  0; 2; 4; 6; 8; 10; 12; 14; 16; 18; 20; 22; 24; 26; 29; 31;
  0; 2; 4; 6; 8; 10; 12; 14; 16; 19; 21; 23; 25; 27; 29; 31;
  0; 2; 4; 6; 8; 10; 12; 15; 17; 19; 21; 23; 26; 28; 30; 32;
  0; 3; 5; 7; 9; 12; 14; 16; 18; 21; 23; 25; 27; 30; 32; 34;
  0; 3; 5; 7; 10; 12; 14; 17; 19; 21; 24; 26; 28; 31; 33; 35;
  0; 2; 4; 7; 9; 11; 14; 16; 19; 21; 23; 26; 28; 31; 33; 35;
  0; 2; 5; 7; 10; 12; 15; 17; 20; 22; 24; 27; 29; 32; 34; 37;
  0; 3; 6; 8; 11; 13; 16; 18; 21; 23; 26; 28; 31; 34; 36; 39;
  0; 3; 5; 8; 11; 13; 16; 19; 21; 24; 26; 29; 32; 34; 37; 40;
  0; 3; 6; 8; 11; 14; 17; 19; 22; 25; 27; 30; 33; 36; 38; 41;
  0; 3; 5; 8; 11; 14; 16; 19; 22; 25; 28; 30; 33; 36; 39; 42;
  0; 2; 5; 8; 11; 14; 17; 20; 23; 25; 28; 31; 34; 37; 40; 43;
  0; 3; 6; 9; 12; 15; 18; 21; 24; 27; 30; 33; 36; 39; 42; 45;
  0; 3; 6; 9; 12; 15; 18; 21; 24; 27; 30; 33; 36; 39; 43; 46;
  0; 3; 6; 9; 12; 15; 19; 22; 25; 28; 31; 35; 38; 41; 44; 47;
  0; 3; 6; 9; 13; 16; 19; 22; 26; 29; 32; 35; 39; 42; 45; 49;
  0; 3; 7; 10; 13; 17; 20; 23; 27; 30; 34; 37; 40; 44; 47; 51;
  0; 3; 7; 10; 14; 17; 21; 24; 28; 31; 35; 38; 42; 45; 49; 52;
  0; 3; 7; 10; 14; 18; 21; 25; 28; 32; 36; 39; 43; 46; 50; 54;
  0; 4; 8; 11; 15; 19; 22; 26; 30; 34; 37; 41; 45; 48; 52; 56;
  0; 3; 7; 11; 15; 19; 22; 26; 30; 34; 38; 42; 45; 49; 53; 57;
  0; 4; 8; 12; 16; 20; 23; 27; 31; 35; 39; 43; 47; 51; 55; 58;
  0; 2; 4; 6; 8; 10; 12; 14; 16; 18; 20; 22; 24; 27; 29; 31;
  0; 2; 4; 6; 8; 10; 12; 14; 16; 18; 21; 23; 25; 27; 29; 31;
  0; 2; 5; 7; 9; 11; 13; 15; 18; 20; 22; 24; 26; 28; 31; 33;
  0; 2; 4; 7; 9; 11; 13; 16; 18; 20; 22; 25; 27; 29; 31; 34;
  0; 2; 4; 7; 9; 11; 14; 16; 18; 20; 23; 25; 27; 30; 32; 34;
  0; 2; 4; 7; 9; 12; 14; 16; 19; 21; 23; 26; 28; 31; 33; 35;
  0; 2; 5; 7; 10; 12; 15; 17; 19; 22; 24; 27; 29; 32; 34; 37;
  0; 3; 5; 8; 10; 13; 15; 18; 20; 23; 25; 28; 31; 33; 36; 38;
  0; 2; 5; 8; 10; 13; 15; 18; 21; 23; 26; 28; 31; 34; 36; 39;
  0; 2; 5; 8; 10; 13; 16; 18; 21; 24; 27; 29; 32; 35; 37; 40;
  0; 3; 5; 8; 11; 14; 16; 19; 22; 25; 28; 30; 33; 36; 39; 42;
  0; 3; 6; 9; 12; 15; 18; 20; 23; 26; 29; 32; 35; 38; 41; 43;
  0; 3; 6; 9; 12; 15; 18; 21; 24; 27; 30; 33; 36; 39; 42; 45;
  0; 3; 6; 9; 12; 15; 18; 21; 24; 27; 30; 33; 36; 39; 43; 46;
  0; 3; 6; 9; 12; 15; 19; 22; 25; 28; 31; 34; 38; 41; 44; 47;
  0; 3; 7; 10; 13; 16; 20; 23; 26; 29; 33; 36; 39; 42; 46; 49;
  0; 4; 7; 10; 14; 17; 20; 24; 27; 30; 34; 37; 41; 44; 47; 51
].

Definition ExpPositiveDelta_13 : list Z := [
  0; 7; 14; 21; 28; 35; 42; 49; 56; 63; 70; 77; 84; 91; 98; 106;
  0; 7; 14; 22; 29; 37; 44; 51; 59; 66; 74; 81; 89; 97; 104; 112;
  0; 8; 15; 23; 31; 39; 47; 55; 63; 69; 73; 77; 81; 85; 90; 94;
  0; 4; 8; 12; 16; 21; 25; 29; 33; 37; 42; 46; 50; 55; 59; 63;
  0; 4; 8; 13; 17; 22; 26; 31; 35; 40; 44; 49; 54; 58; 63; 67;
  0; 5; 9; 14; 19; 24; 28; 33; 38; 43; 48; 52; 57; 62; 67; 72;
  0; 5; 10; 15; 20; 25; 30; 35; 40; 46; 51; 56; 61; 66; 71; 77;
  0; 5; 11; 16; 21; 27; 32; 38; 43; 48; 54; 59; 65; 70; 76; 82;
  0; 6; 12; 17; 23; 29; 34; 40; 46; 52; 58; 64; 69; 75; 81; 87;
  0; 6; 12; 18; 24; 30; 37; 43; 49; 55; 61; 67; 74; 80; 86; 93;
  0; 6; 13; 19; 26; 32; 39; 45; 52; 58; 65; 72; 78; 85; 92; 99;
  0; 7; 14; 21; 28; 35; 42; 48; 55; 62; 70; 77; 84; 91; 98; 105;
  0; 8; 15; 22; 29; 37; 44; 52; 59; 67; 74; 82; 89; 97; 104; 112;
  0; 7; 15; 23; 31; 38; 46; 54; 62; 70; 78; 83; 87; 91; 95; 99;
  0; 4; 8; 12; 16; 20; 25; 29; 33; 37; 42; 46; 50; 54; 59; 63;
  0; 5; 9; 14; 18; 22; 27; 31; 36; 40; 45; 49; 54; 58; 63; 68;
  0; 5; 10; 14; 19; 24; 28; 33; 38; 43; 48; 52; 57; 62; 67; 72;
  0; 5; 10; 15; 20; 25; 30; 35; 40; 45; 50; 55; 61; 66; 71; 76;
  0; 6; 11; 16; 22; 27; 32; 38; 43; 49; 54; 59; 65; 70; 76; 82;
  0; 6; 11; 17; 23; 28; 34; 40; 46; 51; 57; 63; 69; 75; 81; 87;
  0; 5; 11; 18; 24; 30; 36; 42; 48; 54; 60; 66; 73; 79; 85; 92;
  0; 6; 13; 19; 25; 32; 38; 45; 51; 58; 65; 71; 78; 84; 91; 98;
  0; 6; 13; 20; 27; 34; 40; 47; 54; 61; 68; 75; 82; 90; 97; 104;
  0; 7; 14; 22; 29; 36; 44; 51; 58; 66; 73; 81; 88; 96; 103; 111;
  0; 7; 15; 23; 30; 38; 46; 54; 62; 70; 78; 85; 92; 96; 100; 104;
  0; 4; 8; 12; 16; 20; 25; 29; 33; 37; 41; 46; 50; 54; 58; 63;
  0; 4; 9; 13; 18; 22; 26; 31; 35; 40; 44; 49; 53; 58; 62; 67;
  0; 4; 9; 14; 18; 23; 28; 32; 37; 42; 47; 51; 56; 61; 66; 71;
  0; 5; 10; 15; 20; 25; 30; 35; 40; 45; 50; 55; 60; 65; 70; 76;
  0; 5; 10; 16; 21; 26; 32; 37; 42; 48; 53; 59; 64; 70; 75; 81;
  0; 6; 11; 17; 23; 28; 34; 40; 45; 51; 57; 63; 68; 74; 80; 86;
  0; 6; 12; 18; 24; 30; 36; 42; 48; 54; 60; 67; 73; 79; 85; 91;
  0; 6; 12; 19; 25; 32; 38; 44; 51; 57; 64; 71; 77; 84; 90; 97;
  0; 7; 13; 20; 27; 34; 41; 47; 54; 61; 68; 75; 82; 89; 96; 103;
  0; 7; 14; 21; 28; 36; 43; 50; 58; 65; 72; 80; 87; 95; 102; 110;
  0; 7; 15; 22; 30; 38; 46; 53; 61; 69; 77; 85; 93; 101; 105; 109;
  0; 4; 8; 12; 16; 20; 25; 29; 33; 37; 41; 46; 50; 54; 58; 63;
  0; 4; 8; 13; 17; 22; 26; 30; 35; 39; 44; 48; 53; 57; 62; 66;
  0; 5; 9; 14; 18; 23; 28; 33; 37; 42; 47; 52; 56; 61; 66; 71;
  0; 5; 9; 14; 19; 24; 29; 34; 39; 44; 49; 55; 60; 65; 70; 75;
  0; 5; 11; 16; 21; 27; 32; 37; 43; 48; 53; 59; 64; 70; 75; 81;
  0; 6; 11; 17; 22; 28; 34; 39; 45; 51; 56; 62; 68; 74; 80; 86;
  0; 6; 12; 18; 24; 30; 36; 42; 48; 54; 60; 67; 73; 79; 85; 91;
  0; 6; 12; 19; 25; 31; 38; 44; 51; 57; 64; 70; 77; 83; 90; 96;
  0; 7; 14; 20; 27; 34; 41; 47; 54; 61; 68; 75; 82; 89; 96; 103;
  0; 7; 15; 22; 29; 36; 43; 51; 58; 65; 73; 80; 88; 95; 102; 110;
  0; 7; 15; 22; 30; 38; 45; 53; 61; 69; 77; 85; 92; 100; 108; 114;
  0; 4; 8; 12; 16; 21; 25; 29; 33; 37; 41; 45; 50; 54; 58; 62;
  0; 4; 8; 13; 17; 21; 26; 30; 34; 39; 43; 48; 52; 57; 61; 66;
  0; 5; 10; 14; 19; 23; 28; 33; 37; 42; 47; 52; 56; 61; 66; 71;
  0; 5; 9; 14; 19; 24; 29; 34; 39; 44; 49; 54; 59; 64; 69; 75;
  0; 5; 10; 15; 21; 26; 31; 36; 42; 47; 52; 58; 63; 69; 74; 80;
  0; 6; 11; 17; 22; 28; 33; 39; 45; 50; 56; 62; 68; 73; 79; 85;
  0; 6; 12; 18; 24; 29; 35; 41; 48; 54; 60; 66; 72; 78; 84; 90;
  0; 6; 12; 18; 25; 31; 37; 44; 50; 57; 63; 70; 76; 83; 89; 96;
  0; 7; 14; 21; 27; 34; 41; 48; 54; 61; 68; 75; 82; 89; 96; 103;
  0; 7; 14; 21; 29; 36; 43; 50; 57; 65; 72; 79; 87; 94; 102; 109;
  0; 7; 15; 22; 30; 38; 45; 53; 61; 69; 76; 84; 92; 100; 108; 116;
  0; 4; 8; 12; 17; 21; 25; 29; 33; 37; 41; 45; 50; 54; 58; 62;
  0; 5; 9; 13; 18; 22; 26; 31; 35; 39; 44; 48; 53; 57; 62; 66;
  0; 4; 9; 13; 18; 23; 27; 32; 37; 41; 46; 51; 55; 60; 65; 70;
  0; 4; 9; 14; 19; 24; 29; 34; 39; 44; 49; 54; 59; 64; 69; 74;
  0; 5; 11; 16; 21; 26; 32; 37; 42; 47; 53; 58; 63; 69; 74; 80;
  0; 6; 11; 17; 22; 28; 33; 39; 45; 50; 56; 62; 67; 73; 79; 85
].

Definition ExpPositiveDelta_14 : list Z := [
  0; 12; 24; 36; 48; 60; 72; 84; 97; 109; 122; 134; 147; 160; 173; 186;
  0; 13; 27; 40; 54; 67; 81; 95; 109; 123; 137; 151; 166; 180; 195; 210;
  0; 15; 30; 45; 61; 76; 92; 107; 123; 137; 145; 153; 161; 169; 178; 186;
  0; 9; 17; 26; 35; 44; 52; 61; 70; 79; 88; 98; 107; 116; 126; 135;
  0; 9; 19; 29; 39; 49; 59; 69; 79; 89; 100; 110; 120; 131; 142; 152;
  0; 11; 22; 33; 44; 56; 67; 79; 90; 102; 113; 125; 137; 149; 161; 173;
  0; 12; 25; 37; 50; 63; 75; 88; 101; 115; 128; 141; 155; 168; 182; 196;
  0; 14; 28; 42; 56; 71; 86; 100; 115; 130; 145; 160; 175; 191; 206; 222;
  0; 16; 27; 35; 43; 51; 59; 68; 76; 85; 93; 102; 110; 119; 128; 137;
  0; 9; 18; 27; 36; 45; 55; 64; 74; 83; 93; 103; 113; 122; 132; 142;
  0; 10; 20; 30; 41; 51; 62; 73; 83; 94; 105; 116; 127; 139; 150; 161;
  0; 11; 23; 35; 47; 58; 70; 83; 95; 107; 119; 132; 145; 157; 170; 183;
  0; 13; 26; 40; 53; 66; 80; 94; 108; 122; 136; 150; 164; 178; 193; 208;
  0; 15; 30; 45; 60; 76; 91; 107; 122; 138; 154; 163; 171; 179; 188; 196;
  0; 9; 17; 26; 34; 43; 52; 60; 69; 78; 87; 96; 106; 115; 124; 133;
  0; 9; 19; 29; 38; 48; 58; 68; 78; 88; 99; 109; 119; 130; 140; 151;
  0; 10; 21; 32; 43; 54; 66; 77; 88; 100; 112; 123; 135; 147; 159; 171;
  0; 12; 25; 37; 49; 62; 75; 88; 101; 114; 127; 140; 153; 167; 180; 194;
  0; 14; 27; 42; 56; 70; 84; 99; 114; 128; 143; 158; 173; 189; 204; 219;
  0; 16; 32; 46; 54; 62; 71; 79; 87; 95; 104; 112; 121; 130; 138; 147;
  0; 9; 18; 27; 36; 45; 54; 64; 73; 83; 92; 102; 111; 121; 131; 141;
  0; 10; 20; 30; 41; 51; 62; 72; 83; 94; 104; 115; 126; 137; 149; 160;
  0; 12; 23; 35; 46; 58; 70; 82; 94; 106; 119; 131; 143; 156; 169; 181;
  0; 13; 26; 39; 53; 66; 79; 93; 107; 120; 134; 148; 163; 177; 191; 206;
  0; 15; 30; 44; 59; 75; 90; 105; 121; 136; 152; 168
].

Definition ExpPositiveDelta : list Z :=
  ExpPositiveDelta_0 ++ ExpPositiveDelta_1 ++ ExpPositiveDelta_2 ++ ExpPositiveDelta_3 ++ ExpPositiveDelta_4 ++ ExpPositiveDelta_5 ++ 
    ExpPositiveDelta_6 ++ ExpPositiveDelta_7 ++ ExpPositiveDelta_8 ++ ExpPositiveDelta_9 ++ ExpPositiveDelta_10 ++ ExpPositiveDelta_11 ++ ExpPositiveDelta_12 ++ ExpPositiveDelta_13 ++ ExpPositiveDelta_14.

(** ** [SFURom::ExpNegativeBase], 1030 entries *)

Definition ExpNegativeBase_0 : list Z := [
  15359; 15359; 15359; 15359; 15359; 15359; 15359; 15359; 15359; 15359; 15359; 15359; 15359; 15359; 15359; 15359;
  15359; 15359; 15359; 15359; 15359; 15359; 15359; 15359; 15359; 15359; 15359; 15359; 15359; 15359; 15359; 15359;
  15359; 15359; 15359; 15359; 15359; 15359; 15359; 15359; 15359; 15359; 15359; 15359; 15359; 15359; 15359; 15359;
  15359; 15359; 15359; 15359; 15359; 15359; 15359; 15359; 15359; 15359; 15359; 15359; 15359; 15359; 15359; 15359;
  15359; 15359; 15359; 15359; 15359; 15359; 15359; 15359; 15359; 15359; 15359; 15359; 15359; 15359; 15359; 15359;
  15359; 15359; 15359; 15359; 15359; 15359; 15359; 15359; 15359; 15359; 15359; 15359; 15359; 15359; 15359; 15359;
  15358; 15358; 15358; 15358; 15358; 15358; 15358; 15358; 15358; 15358; 15358; 15358; 15358; 15358; 15358; 15358;
  15358; 15358; 15358; 15358; 15358; 15358; 15358; 15358; 15358; 15358; 15358; 15358; 15358; 15358; 15358; 15358;
  15358; 15358; 15358; 15358; 15358; 15358; 15358; 15358; 15358; 15358; 15358; 15358; 15358; 15358; 15358; 15358;
  15357; 15357; 15357; 15357; 15357; 15357; 15357; 15357; 15357; 15357; 15357; 15357; 15357; 15357; 15357; 15357;
  15357; 15357; 15357; 15357; 15357; 15357; 15357; 15357; 15357; 15357; 15357; 15357; 15357; 15357; 15357; 15357;
  15357; 15356; 15356; 15356; 15356; 15356; 15356; 15356; 15356; 15356; 15356; 15356; 15356; 15356; 15356; 15356;
  15356; 15356; 15356; 15356; 15356; 15356; 15356; 15356; 15356; 15355; 15355; 15355; 15355; 15355; 15355; 15355;
  15355; 15355; 15355; 15355; 15355; 15355; 15355; 15355; 15355; 15354; 15354; 15354; 15354; 15354; 15354; 15354;
  15354; 15354; 15354; 15354; 15354; 15354; 15354; 15354; 15354; 15353; 15353; 15353; 15353; 15353; 15353; 15353;
  15353; 15353; 15353; 15353; 15353; 15353; 15353; 15353; 15353; 15352; 15352; 15352; 15352; 15352; 15352; 15352;
  15352; 15352; 15352; 15352; 15352; 15351; 15351; 15351; 15351; 15351; 15351; 15351; 15351; 15350; 15350; 15350;
  15350; 15350; 15350; 15350; 15350; 15349; 15349; 15349; 15349; 15349; 15349; 15349; 15349; 15348; 15348; 15348;
  15348; 15348; 15348; 15348; 15348; 15347; 15347; 15347; 15347; 15347; 15347; 15347; 15347; 15346; 15346; 15346;
  15346; 15346; 15346; 15346; 15346; 15345; 15345; 15345; 15345; 15345; 15345; 15345; 15345; 15344; 15344; 15344;
  15344; 15344; 15344; 15343; 15343; 15343; 15343; 15342; 15342; 15342; 15342; 15341; 15341; 15341; 15341; 15340;
  15340; 15340; 15340; 15339; 15339; 15339; 15339; 15338; 15338; 15338; 15338; 15337; 15337; 15337; 15337; 15336;
  15336; 15336; 15336; 15335; 15335; 15335; 15335; 15334; 15334; 15334; 15334; 15333; 15333; 15333; 15333; 15332;
  15332; 15332; 15332; 15331; 15331; 15331; 15331; 15330; 15330; 15330; 15330; 15329; 15329; 15329; 15329; 15328;
  15328; 15328; 15327; 15327; 15326; 15326; 15325; 15325; 15324; 15324; 15323; 15323; 15322; 15322; 15321; 15321;
  15320; 15320; 15319; 15319; 15318; 15318; 15317; 15317; 15316; 15316; 15315; 15315; 15314; 15314; 15314; 15313;
  15313; 15312; 15312; 15311; 15311; 15310; 15310; 15309; 15309; 15308; 15308; 15307; 15307; 15306; 15306; 15305;
  15305; 15304; 15304; 15303; 15303; 15302; 15302; 15301; 15301; 15300; 15300; 15299; 15299; 15298; 15298; 15297;
  15297; 15296; 15295; 15294; 15293; 15292; 15291; 15290; 15289; 15288; 15287; 15286; 15285; 15284; 15283; 15282;
  15281; 15281; 15280; 15279; 15278; 15277; 15276; 15275; 15274; 15273; 15272; 15271; 15270; 15269; 15268; 15267;
  15266; 15265; 15264; 15263; 15262; 15261; 15260; 15259; 15259; 15258; 15257; 15256; 15255; 15254; 15253; 15252;
  15251; 15250; 15249; 15248; 15247; 15246; 15245; 15244; 15243; 15242; 15242; 15241; 15240; 15239; 15238; 15237;
  15236; 15234; 15232; 15230; 15228; 15226; 15225; 15223; 15221; 15219; 15217; 15215; 15213; 15212; 15210; 15208;
  15206; 15204; 15202; 15200; 15199; 15197; 15195; 15193; 15191; 15189; 15188; 15186; 15184; 15182; 15180; 15178;
  15177; 15175; 15173; 15171; 15169; 15168; 15166; 15164; 15162; 15160; 15158; 15157; 15155; 15153; 15151; 15149;
  15148; 15146; 15144; 15142; 15141; 15139; 15137; 15135; 15133; 15132; 15130; 15128; 15126; 15125; 15123; 15121;
  15119; 15116; 15112; 15109; 15105; 15102; 15098; 15095; 15091; 15088; 15084; 15081; 15077; 15074; 15070; 15067;
  15064; 15060; 15057; 15053; 15050; 15047; 15043; 15040; 15036; 15033; 15030; 15026; 15023; 15020; 15016; 15013;
  15010; 15006; 15003; 15000; 14996; 14993; 14990; 14987; 14983; 14980; 14977; 14974; 14970; 14967; 14964; 14961;
  14957; 14954; 14951; 14948; 14945; 14941; 14938; 14935; 14932; 14929; 14926; 14922; 14919; 14916; 14913; 14910;
  14907; 14900; 14894; 14888; 14882; 14876; 14870; 14864; 14858; 14852; 14846; 14840; 14834; 14828; 14822; 14816;
  14810; 14804; 14798; 14793; 14787; 14781; 14775; 14770; 14764; 14758; 14753; 14747; 14741; 14736; 14730; 14725;
  14719; 14714; 14708; 14703; 14697; 14692; 14687; 14681; 14676; 14671; 14665; 14660; 14655; 14650; 14644; 14639;
  14634; 14629; 14624; 14619; 14613; 14608; 14603; 14598; 14593; 14588; 14583; 14578; 14573; 14569; 14564; 14559;
  14554; 14544; 14534; 14525; 14515; 14506; 14497; 14487; 14478; 14469; 14460; 14451; 14442; 14434; 14425; 14416;
  14408; 14399; 14391; 14382; 14374; 14366; 14358; 14349; 14341; 14331; 14315; 14299; 14283; 14268; 14252; 14237;
  14222; 14207; 14192; 14177; 14162; 14148; 14133; 14119; 14105; 14091; 14077; 14063; 14049; 14035; 14022; 14008;
  13995; 13981; 13968; 13955; 13942; 13929; 13916; 13904; 13891; 13879; 13866; 13854; 13842; 13830; 13818; 13806;
  13793; 13770; 13747; 13724; 13702; 13680; 13659; 13637; 13616; 13596; 13576; 13556; 13536; 13517; 13498; 13479;
  13460; 13442; 13424; 13407; 13389; 13372; 13355; 13339; 13323; 13301; 13270; 13238; 13208; 13178; 13148; 13119;
  13090; 13062; 13034; 13006; 12979; 12953; 12927; 12901; 12876; 12851; 12826; 12802; 12778; 12754; 12731; 12709;
  12686; 12664; 12642; 12621; 12600; 12579; 12559; 12539; 12519; 12500; 12480; 12462; 12443; 12425; 12407; 12389;
  12371; 12336; 12303; 12255; 12193; 12133; 12075; 12018; 11963; 11910; 11859; 11809; 11761; 11714; 11669; 11625;
  11582; 11541; 11501; 11462; 11425; 11388; 11353; 11319; 11285; 11242; 11180; 11120; 11061; 11004; 10949; 10896;
  10844; 10794; 10746; 10699; 10653; 10609; 10566; 10524; 10484; 10445; 10407; 10371; 10335; 10301; 10267; 10230;
  10167; 10106; 10047; 9990; 9935; 9881; 9829; 9779; 9730; 9683; 9637; 9593; 9550; 9508; 9467; 9428;
  9388; 9315; 9247; 9150; 9030; 8918; 8812; 8712; 8618; 8531; 8448; 8370; 8298; 8229; 8138; 8017;
  7903; 7797; 7697; 7603; 7514; 7431; 7353; 7280; 7211; 7125; 7004; 6889; 6782; 6681; 6587; 6498;
  6415; 6336; 6262; 6193; 6112; 5990; 5875; 5768; 5666; 5571; 5482; 5398; 5319; 5245; 5175; 5100;
  4977; 4861; 4753; 4651; 4556; 4466; 4381; 4302; 4227; 4157; 4087; 3964; 3848; 3739; 3636; 3540;
  3444; 3280; 3135; 2943; 2718; 2519; 2343; 2188; 2051; 1813; 1600; 1412; 1246; 1100; 970; 856;
  756; 667; 589; 519; 458; 405; 357; 315; 278; 245; 217; 191; 169; 149; 131; 116;
  102; 90; 80; 70; 62; 55; 48; 43; 38; 33; 29; 26; 23; 20; 18; 16;
  14; 12; 11; 10; 8; 7; 7; 6; 5; 4; 4; 3; 3; 3; 2; 2
].

Definition ExpNegativeBase_1 : list Z := [
  2; 1; 1; 1; 1; 1
].

Definition ExpNegativeBase : list Z :=
  ExpNegativeBase_0 ++ ExpNegativeBase_1.

(** ** [SFURom::ExpNegativeDelta], 16469 entries *)

Definition ExpNegativeDelta_0 : list Z := [
  0; 0; 0; 0; 0; 0; 0; 0; 0; 0; 0; 0; 0; 0; 0; 0;
  0; 0; 0; 0; 0; 0; 0; 0; 0; 0; 0; 0; 0; 0; 0; 0;
  0; 0; 0; 0; 0; 0; 0; 0; 0; 0; 0; 0; 0; 0; 0; 0;
  0; 0; 0; 0; 0; 0; 0; 0; 0; 0; 0; 0; 0; 0; 0; 0;
  0; 0; 0; 0; 0; 0; 0; 0; 0; 0; 0; 0; 0; 0; 0; 0;
  0; 0; 0; 0; 0; 0; 0; 0; 0; 0; 0; 0; 0; 0; 0; 0;
  0; 0; 0; 0; 0; 0; 0; 0; 0; 0; 0; 0; 0; 0; 0; 0;
  0; 0; 0; 0; 0; 0; 0; 0; 0; 0; 0; 0; 0; 0; 0; 0;
  0; 0; 0; 0; 0; 0; 0; 0; 0; 0; 0; 0; 0; 0; 0; 0;
  0; 0; 0; 0; 0; 0; 0; 0; 0; 0; 0; 0; 0; 0; 0; 0;
  0; 0; 0; 0; 0; 0; 0; 0; 0; 0; 0; 0; 0; 0; 0; 0;
  0; 0; 0; 0; 0; 0; 0; 0; 0; 0; 0; 0; 0; 0; 0; 0;
  0; 0; 0; 0; 0; 0; 0; 0; 0; 0; 0; 0; 0; 0; 0; 0;
  0; 0; 0; 0; 0; 0; 0; 0; 0; 0; 0; 0; 0; 0; 0; 0;
  0; 0; 0; 0; 0; 0; 0; 0; 0; 0; 0; 0; 0; 0; 0; 0;
  0; 0; 0; 0; 0; 0; 0; 0; 0; 0; 0; 0; 0; 0; 0; 0;
  0; 0; 0; 0; 0; 0; 0; 0; 0; 0; 0; 0; 0; 0; 0; 0;
  0; 0; 0; 0; 0; 0; 0; 0; 0; 0; 0; 0; 0; 0; 0; 0;
  0; 0; 0; 0; 0; 0; 0; 0; 0; 0; 0; 0; 0; 0; 0; 0;
  0; 0; 0; 0; 0; 0; 0; 0; 0; 0; 0; 0; 0; 0; 0; 0;
  0; 0; 0; 0; 0; 0; 0; 0; 0; 0; 0; 0; 0; 0; 0; 0;
  0; 0; 0; 0; 0; 0; 0; 0; 0; 0; 0; 0; 0; 0; 0; 0;
  0; 0; 0; 0; 0; 0; 0; 0; 0; 0; 0; 0; 0; 0; 0; 0;
  0; 0; 0; 0; 0; 0; 0; 0; 0; 0; 0; 0; 0; 0; 0; 0;
  0; 0; 0; 0; 0; 0; 0; 0; 0; 0; 0; 0; 0; 0; 0; 0;
  0; 0; 0; 0; 0; 0; 0; 0; 0; 0; 0; 0; 0; 0; 0; 0;
  0; 0; 0; 0; 0; 0; 0; 0; 0; 0; 0; 0; 0; 0; 0; 0;
  0; 0; 0; 0; 0; 0; 0; 0; 0; 0; 0; 0; 0; 0; 0; 0;
  0; 0; 0; 0; 0; 0; 0; 0; 0; 0; 0; 0; 0; 0; 0; 0;
  0; 0; 0; 0; 0; 0; 0; 0; 0; 0; 0; 0; 0; 0; 0; 0;
  0; 0; 0; 0; 0; 0; 0; 0; 0; 0; 0; 0; 0; 0; 0; 0;
  0; 0; 0; 0; 0; 0; 0; 0; 0; 0; 0; 0; 0; 0; 0; 0;
  0; 0; 0; 0; 0; 0; 0; 0; 0; 0; 0; 0; 0; 0; 0; 0;
  0; 0; 0; 0; 0; 0; 0; 0; 0; 0; 0; 0; 0; 0; 0; 0;
  0; 0; 0; 0; 0; 0; 0; 0; 0; 0; 0; 0; 0; 0; 0; 0;
  0; 0; 0; 0; 0; 0; 0; 0; 0; 0; 0; 0; 0; 0; 0; 0;
  0; 0; 0; 0; 0; 0; 0; 0; 0; 0; 0; 0; 0; 0; 0; 0;
  0; 0; 0; 0; 0; 0; 0; 0; 0; 0; 0; 0; 0; 0; 0; 0;
  0; 0; 0; 0; 0; 0; 0; 0; 0; 0; 0; 0; 0; 0; 0; 0;
  0; 0; 0; 0; 0; 0; 0; 0; 0; 0; 0; 0; 0; 0; 0; 0;
  0; 0; 0; 0; 0; 0; 0; 0; 0; 0; 0; 0; 0; 0; 0; 0;
  0; 0; 0; 0; 0; 0; 0; 0; 0; 0; 0; 0; 0; 0; 0; 0;
  0; 0; 0; 0; 0; 0; 0; 0; 0; 0; 0; 0; 0; 0; 0; 0;
  0; 0; 0; 0; 0; 0; 0; 0; 0; 0; 0; 0; 0; 0; 0; 0;
  0; 0; 0; 0; 0; 0; 0; 0; 0; 0; 0; 0; 0; 0; 0; 0;
  0; 0; 0; 0; 0; 0; 0; 0; 0; 0; 0; 0; 0; 0; 0; 0;
  0; 0; 0; 0; 0; 0; 0; 0; 0; 0; 0; 0; 0; 0; 0; 0;
  0; 0; 0; 0; 0; 0; 0; 0; 0; 0; 0; 0; 0; 0; 0; 0;
  0; 0; 0; 0; 0; 0; 0; 0; 0; 0; 0; 0; 0; 0; 0; 0;
  0; 0; 0; 0; 0; 0; 0; 0; 0; 0; 0; 0; 0; 0; 0; 0;
  0; 0; 0; 0; 0; 0; 0; 0; 0; 0; 0; 0; 0; 0; 0; 0;
  0; 0; 0; 0; 0; 0; 0; 0; 0; 0; 0; 0; 0; 0; 0; 0;
  0; 0; 0; 0; 0; 0; 0; 0; 0; 0; 0; 0; 0; 0; 0; 0;
  0; 0; 0; 0; 0; 0; 0; 0; 0; 0; 0; 0; 0; 0; 0; 0;
  0; 0; 0; 0; 0; 0; 0; 0; 0; 0; 0; 0; 0; 0; 0; 0;
  0; 0; 0; 0; 0; 0; 0; 0; 0; 0; 0; 0; 0; 0; 0; 0;
  0; 0; 0; 0; 0; 0; 0; 0; 0; 0; 0; 0; 0; 0; 0; 0;
  0; 0; 0; 0; 0; 0; 0; 0; 0; 0; 0; 0; 0; 0; 0; 0;
  0; 0; 0; 0; 0; 0; 0; 0; 0; 0; 0; 0; 0; 0; 0; 0;
  0; 0; 0; 0; 0; 0; 0; 0; 0; 0; 0; 0; 0; 0; 0; 0;
  0; 0; 0; 0; 0; 0; 0; 0; 0; 0; 0; 0; 0; 0; 0; 0;
  0; 0; 0; 0; 0; 0; 0; 0; 0; 0; 0; 0; 0; 0; 0; 0;
  0; 0; 0; 0; 0; 0; 0; 0; 0; 0; 0; 0; 0; 0; 0; 0;
  0; 0; 0; 0; 0; 0; 0; 0; 0; 0; 0; 0; 0; 0; 0; 0
].

Definition ExpNegativeDelta_1 : list Z := [
  0; 0; 0; 0; 0; 0; 0; 0; 0; 0; 0; 0; 0; 0; 0; 0;
  0; 0; 0; 0; 0; 0; 0; 0; 0; 0; 0; 0; 0; 0; 0; 0;
  0; 0; 0; 0; 0; 0; 0; 0; 0; 0; 0; 0; 0; 0; 0; 0;
  0; 0; 0; 0; 0; 0; 0; 0; 0; 0; 0; 0; 0; 0; 0; 0;
  0; 0; 0; 0; 0; 0; 0; 0; 0; 0; 0; 0; 0; 0; 0; 0;
  0; 0; 0; 0; 0; 0; 0; 0; 0; 0; 0; 0; 0; 0; 0; 0;
  0; 0; 0; 0; 0; 0; 0; 0; 0; 0; 0; 0; 0; 0; 0; 0;
  0; 0; 0; 0; 0; 0; 0; 0; 0; 0; 0; 0; 0; 0; 0; 0;
  0; 0; 0; 0; 0; 0; 0; 0; 0; 0; 0; 0; 0; 0; 0; 0;
  0; 0; 0; 0; 0; 0; 0; 0; 0; 0; 0; 0; 0; 0; 0; 0;
  0; 0; 0; 0; 0; 0; 0; 0; 0; 0; 0; 0; 0; 0; 0; 0;
  0; 0; 0; 0; 0; 0; 0; 0; 0; 0; 0; 0; 0; 0; 0; 0;
  0; 0; 0; 0; 0; 0; 0; 0; 0; 0; 0; 0; 0; 0; 0; 0;
  0; 0; 0; 0; 0; 0; 0; 0; 0; 0; 0; 0; 0; 0; 0; 0;
  0; 0; 0; 0; 0; 0; 0; 0; 0; 0; 0; 0; 0; 0; 0; 0;
  0; 0; 0; 0; 0; 0; 0; 0; 0; 0; 0; 0; 0; 0; 0; 0;
  0; 0; 0; 0; 0; 0; 0; 0; 0; 0; 0; 0; 0; 0; 0; 0;
  0; 0; 0; 0; 0; 0; 0; 0; 0; 0; 0; 0; 0; 0; 0; 0;
  0; 0; 0; 0; 0; 0; 0; 0; 0; 0; 0; 0; 0; 0; 0; 0;
  0; 0; 0; 0; 0; 0; 0; 0; 0; 0; 0; 0; 0; 0; 0; 0;
  0; 0; 0; 0; 0; 0; 0; 0; 0; 0; 0; 0; 0; 0; 0; 0;
  0; 0; 0; 0; 0; 0; 0; 0; 0; 0; 0; 0; 0; 0; 0; 0;
  0; 0; 0; 0; 0; 0; 0; 0; 0; 0; 0; 0; 0; 0; 0; 0;
  0; 0; 0; 0; 0; 0; 0; 0; 0; 0; 0; 0; 0; 0; 0; 0;
  0; 0; 0; 0; 0; 0; 0; 0; 0; 0; 0; 0; 0; 0; 0; 0;
  0; 0; 0; 0; 0; 0; 0; 0; 0; 0; 0; 0; 0; 0; 0; 0;
  0; 0; 0; 0; 0; 0; 0; 0; 0; 0; 0; 0; 0; 0; 0; 0;
  0; 0; 0; 0; 0; 0; 0; 0; 0; 0; 0; 0; 0; 0; 0; 0;
  0; 0; 0; 0; 0; 0; 0; 0; 0; 0; 0; 0; 0; 0; 0; 0;
  0; 0; 0; 0; 0; 0; 0; 0; 0; 0; 0; 0; 0; 0; 0; 0;
  0; 0; 0; 0; 0; 0; 0; 0; 0; 0; 0; 0; 0; 0; 0; 0;
  0; 0; 0; 0; 0; 0; 0; 0; 0; 0; 0; 0; 0; 0; 0; 0;
  0; 0; 0; 0; 0; 0; 0; 0; 0; 0; 0; 0; 0; 0; 0; 0;
  0; 0; 0; 0; 0; 0; 0; 0; 0; 0; 0; 0; 0; 0; 0; 0;
  0; 0; 0; 0; 0; 0; 0; 0; 0; 0; 0; 0; 0; 0; 0; 0;
  0; 0; 0; 0; 0; 0; 0; 0; 0; 0; 0; 0; 0; 0; 0; 0;
  0; 0; 0; 0; 0; 0; 0; 0; 0; 0; 0; 0; 0; 0; 0; 0;
  0; 0; 0; 0; 0; 0; 0; 0; 0; 0; 0; 0; 0; 0; 0; 0;
  0; 0; 0; 0; 0; 0; 0; 0; 0; 0; 0; 0; 0; 0; 0; 0;
  0; 0; 0; 0; 0; 0; 0; 0; 0; 0; 0; 0; 0; 0; 0; 0;
  0; 0; 0; 0; 0; 0; 0; 0; 0; 0; 0; 0; 0; 0; 0; 0;
  0; 0; 0; 0; 0; 0; 0; 0; 0; 0; 0; 0; 0; 0; 0; 0;
  0; 0; 0; 0; 0; 0; 0; 0; 0; 0; 0; 0; 0; 0; 0; 0;
  0; 0; 0; 0; 0; 0; 0; 0; 0; 0; 0; 0; 0; 0; 0; 0;
  0; 0; 0; 0; 0; 0; 0; 0; 0; 0; 0; 0; 0; 0; 0; 0;
  0; 0; 0; 0; 0; 0; 0; 0; 0; 0; 0; 0; 0; 0; 0; 0;
  0; 0; 0; 0; 0; 0; 0; 0; 0; 0; 0; 0; 0; 0; 0; 0;
  0; 0; 0; 0; 0; 0; 0; 0; 0; 0; 0; 0; 0; 0; 0; 0;
  0; 0; 0; 0; 0; 0; 0; 0; 0; 0; 0; 0; 0; 0; 0; 0;
  0; 0; 0; 0; 0; 0; 0; 0; 0; 0; 0; 0; 0; 0; 0; 0;
  0; 0; 0; 0; 0; 0; 0; 0; 0; 0; 0; 0; 0; 0; 0; 0;
  0; 0; 0; 0; 0; 0; 0; 0; 0; 0; 0; 0; 0; 0; 0; 0;
  0; 0; 0; 0; 0; 0; 0; 0; 0; 0; 0; 0; 0; 0; 0; 0;
  0; 0; 0; 0; 0; 0; 0; 0; 0; 0; 0; 0; 0; 0; 0; 0;
  0; 0; 0; 0; 0; 0; 0; 0; 0; 0; 0; 0; 0; 0; 0; 0;
  0; 0; 0; 0; 0; 0; 0; 0; 0; 0; 0; 0; 0; 0; 0; 0;
  0; 0; 0; 0; 0; 0; 0; 0; 0; 0; 0; 0; 0; 0; 0; 0;
  0; 0; 0; 0; 0; 0; 0; 0; 0; 0; 0; 0; 0; 0; 0; 0;
  0; 0; 0; 0; 0; 0; 0; 0; 0; 0; 0; 0; 0; 0; 0; 0;
  0; 0; 0; 0; 0; 0; 0; 0; 0; 0; 0; 0; 0; 0; 0; 0;
  0; 0; 0; 0; 0; 0; 0; 0; 0; 0; 0; 0; 0; 0; 0; 0;
  0; 0; 0; 0; 0; 0; 0; 0; 0; 0; 0; 0; 0; 0; 0; 0;
  0; 0; 0; 0; 0; 0; 0; 0; 0; 0; 0; 0; 0; 0; 0; 0;
  0; 0; 0; 0; 0; 0; 0; 0; 0; 0; 0; 0; 0; 0; 0; 0
].

Definition ExpNegativeDelta_2 : list Z := [
  0; 0; 0; 0; 0; 0; 0; 0; 0; 0; 0; 0; 0; 0; 0; 0;
  0; 0; 0; 0; 0; 0; 0; 0; 0; 0; 0; 0; 0; 0; 0; 0;
  0; 0; 0; 0; 0; 0; 0; 0; 0; 0; 0; 0; 0; 0; 0; 0;
  0; 0; 0; 0; 0; 0; 0; 0; 0; 0; 0; 0; 0; 0; 0; 0;
  0; 0; 0; 0; 0; 0; 0; 0; 0; 0; 0; 0; 0; 0; 0; 0;
  0; 0; 0; 0; 0; 0; 0; 0; 0; 0; 0; 0; 0; 0; 0; 0;
  0; 0; 0; 0; 0; 0; 0; 0; 0; 0; 0; 0; 0; 0; 0; 0;
  0; 0; 0; 0; 0; 0; 0; 0; 0; 0; 0; 0; 0; 0; 0; 0;
  0; 0; 0; 0; 0; 0; 0; 0; 0; 0; 0; 0; 0; 0; 0; 0;
  0; 0; 0; 0; 0; 0; 0; 0; 0; 0; 0; 0; 0; 0; 0; 0;
  0; 0; 0; 0; 0; 0; 0; 0; 0; 0; 0; 0; 0; 0; 0; 0;
  0; 0; 0; 0; 0; 0; 0; 0; 0; 0; 0; 0; 0; 0; 0; 0;
  0; 0; 0; 0; 0; 0; 0; 0; 0; 0; 0; 0; 0; 0; 0; 0;
  0; 0; 0; 0; 0; 0; 0; 0; 0; 0; 0; 0; 0; 0; 0; 0;
  0; 0; 0; 0; 0; 0; 0; 0; 0; 0; 0; 0; 0; 0; 0; 0;
  0; 0; 0; 0; 0; 0; 0; 0; 0; 0; 0; 0; 0; 0; 0; 0;
  0; 0; 0; 0; 0; 0; 0; 0; 0; 0; 0; 0; 0; 0; 0; 0;
  0; 0; 0; 0; 0; 0; 0; 0; 0; 0; 0; 0; 0; 0; 0; 0;
  0; 0; 0; 0; 0; 0; 0; 0; 0; 0; 0; 0; 0; 0; 0; 0;
  0; 0; 0; 0; 0; 0; 0; 0; 0; 0; 0; 0; 0; 0; 0; 0;
  0; 0; 0; 0; 0; 0; 0; 0; 0; 0; 0; 0; 0; 0; 0; 0;
  0; 0; 0; 0; 0; 0; 0; 0; 0; 0; 0; 0; 0; 0; 0; 0;
  0; 0; 0; 0; 0; 0; 0; 0; 0; 0; 0; 0; 0; 0; 0; 0;
  0; 0; 0; 0; 0; 0; 0; 0; 0; 0; 0; 0; 0; 0; 0; 0;
  0; 0; 0; 0; 0; 0; 0; 0; 0; 0; 0; 0; 0; 0; 0; 0;
  0; 0; 0; 0; 0; 0; 0; 0; 0; 0; 0; 0; 0; 0; 0; 0;
  0; 0; 0; 0; 0; 0; 0; 0; 0; 0; 0; 0; 0; 0; 0; 0;
  0; 0; 0; 0; 0; 0; 0; 0; 0; 0; 0; 0; 0; 0; 0; 0;
  0; 0; 0; 0; 0; 0; 0; 0; 0; 0; 0; 0; 0; 0; 0; 0;
  0; 0; 0; 0; 0; 0; 0; 0; 0; 0; 0; 0; 0; 0; 0; 0;
  0; 0; 0; 0; 0; 0; 0; 0; 0; 0; 0; 0; 0; 0; 0; 0;
  0; 0; 0; 0; 0; 0; 0; 0; 0; 0; 0; 0; 0; 0; 0; 0;
  0; 0; 0; 0; 0; 0; 0; 0; 0; 0; 0; 0; 0; 0; 0; 0;
  0; 0; 0; 0; 0; 0; 0; 0; 0; 0; 0; 0; 0; 0; 0; 0;
  0; 0; 0; 0; 0; 0; 0; 0; 0; 0; 0; 0; 0; 0; 0; 0;
  0; 0; 0; 0; 0; 0; 0; 0; 0; 0; 0; 0; 0; 0; 0; 0;
  0; 0; 0; 0; 0; 0; 0; 0; 0; 0; 0; 0; 0; 0; 0; 0;
  0; 0; 0; 0; 0; 0; 0; 0; 0; 0; 0; 0; 0; 0; 0; 0;
  0; 0; 0; 0; 0; 0; 0; 0; 0; 0; 0; 0; 0; 0; 0; 0;
  0; 0; 0; 0; 0; 0; 0; 0; 0; 0; 0; 0; 0; 0; 0; 0;
  0; 0; 0; 0; 0; 0; 0; 0; 0; 0; 0; 0; 0; 0; 0; 0;
  0; 0; 0; 0; 0; 0; 0; 0; 0; 0; 0; 0; 0; 0; 0; 0;
  0; 0; 0; 0; 0; 0; 0; 0; 0; 0; 0; 0; 0; 0; 0; 0;
  0; 0; 0; 0; 0; 0; 0; 0; 0; 0; 0; 0; 0; 0; 0; 0;
  0; 0; 0; 0; 0; 0; 0; 0; 0; 0; 0; 0; 0; 0; 0; 0;
  0; 0; 0; 0; 0; 0; 0; 0; 0; 0; 0; 0; 0; 0; 0; 0;
  0; 0; 0; 0; 0; 0; 0; 0; 0; 0; 0; 0; 0; 0; 0; 0;
  0; 0; 0; 0; 0; 0; 0; 0; 0; 0; 0; 0; 0; 0; 0; 0;
  0; 1; 1; 1; 1; 1; 1; 1; 1; 1; 1; 1; 1; 1; 1; 1;
  0; 0; 0; 0; 0; 0; 0; 0; 0; 0; 0; 0; 0; 0; 0; 0;
  0; 0; 0; 0; 0; 0; 0; 0; 0; 0; 0; 0; 0; 0; 0; 0;
  0; 0; 0; 0; 0; 0; 0; 0; 0; 0; 0; 0; 0; 0; 0; 0;
  0; 0; 0; 0; 0; 0; 0; 0; 0; 0; 0; 0; 0; 0; 0; 0;
  0; 0; 0; 0; 0; 0; 0; 0; 0; 0; 0; 0; 0; 0; 0; 0;
  0; 0; 0; 0; 0; 0; 0; 0; 0; 0; 0; 0; 0; 0; 0; 0;
  0; 0; 0; 0; 0; 0; 0; 0; 0; 0; 0; 0; 0; 0; 0; 0;
  0; 0; 0; 0; 0; 0; 0; 0; 0; 0; 0; 0; 0; 0; 0; 0;
  0; 0; 0; 0; 0; 0; 0; 0; 0; 0; 0; 0; 0; 0; 0; 0;
  0; 0; 0; 0; 0; 0; 0; 0; 0; 0; 0; 0; 0; 0; 0; 0;
  0; 0; 0; 0; 0; 0; 0; 0; 0; 0; 0; 0; 0; 0; 0; 0;
  0; 0; 0; 0; 0; 0; 0; 0; 0; 0; 0; 0; 0; 0; 0; 0;
  0; 0; 0; 0; 0; 0; 0; 0; 0; 0; 0; 0; 0; 0; 0; 0;
  0; 0; 0; 0; 0; 0; 0; 0; 0; 0; 0; 0; 0; 0; 0; 0;
  0; 0; 0; 0; 0; 0; 0; 0; 0; 0; 0; 0; 0; 0; 0; 0
].

Definition ExpNegativeDelta_3 : list Z := [
  0; 0; 0; 0; 0; 0; 0; 0; 0; 0; 0; 0; 0; 0; 0; 0;
  0; 0; 0; 0; 0; 0; 0; 0; 0; 0; 0; 0; 0; 0; 0; 0;
  0; 0; 0; 0; 0; 0; 0; 0; 0; 0; 0; 0; 0; 0; 0; 0;
  0; 0; 0; 0; 0; 0; 0; 0; 0; 0; 0; 0; 0; 0; 0; 0;
  0; 0; 0; 0; 0; 0; 0; 0; 0; 0; 0; 0; 0; 0; 0; 0;
  0; 0; 0; 0; 0; 0; 0; 0; 0; 0; 0; 0; 0; 0; 0; 0;
  0; 0; 0; 0; 0; 0; 0; 0; 0; 0; 0; 0; 0; 0; 0; 0;
  0; 0; 0; 0; 0; 0; 0; 0; 0; 0; 0; 0; 0; 0; 0; 0;
  0; 1; 1; 1; 1; 1; 1; 1; 1; 1; 1; 1; 1; 1; 1; 1;
  0; 0; 0; 0; 0; 0; 0; 0; 0; 0; 0; 0; 0; 0; 0; 0;
  0; 0; 0; 0; 0; 0; 0; 0; 0; 0; 0; 0; 0; 0; 0; 0;
  0; 0; 0; 0; 0; 0; 0; 0; 0; 0; 0; 0; 0; 0; 0; 0;
  0; 0; 0; 0; 0; 0; 0; 0; 0; 0; 0; 0; 0; 0; 0; 0;
  0; 0; 0; 0; 0; 0; 0; 0; 0; 0; 0; 0; 0; 0; 0; 0;
  0; 0; 0; 0; 0; 0; 0; 0; 0; 0; 0; 0; 0; 0; 0; 0;
  0; 0; 0; 0; 0; 0; 0; 0; 0; 0; 0; 0; 0; 0; 0; 0;
  0; 0; 0; 0; 0; 0; 0; 0; 0; 0; 0; 0; 0; 0; 0; 0;
  0; 0; 0; 0; 0; 0; 0; 0; 0; 0; 0; 0; 0; 0; 0; 0;
  0; 0; 0; 0; 0; 0; 0; 0; 0; 0; 0; 0; 0; 0; 0; 0;
  0; 0; 0; 0; 0; 0; 0; 0; 0; 0; 0; 0; 0; 0; 0; 0;
  0; 0; 0; 0; 0; 0; 0; 0; 0; 0; 0; 0; 0; 0; 0; 0;
  0; 0; 0; 0; 0; 0; 0; 0; 0; 0; 0; 0; 0; 0; 0; 0;
  0; 0; 0; 0; 0; 0; 0; 0; 0; 0; 0; 0; 0; 0; 0; 0;
  0; 0; 0; 0; 0; 0; 0; 0; 0; 0; 0; 0; 0; 0; 0; 0;
  0; 1; 1; 1; 1; 1; 1; 1; 1; 1; 1; 1; 1; 1; 1; 1;
  0; 0; 0; 0; 0; 0; 0; 0; 0; 0; 0; 0; 0; 0; 0; 0;
  0; 0; 0; 0; 0; 0; 0; 0; 0; 0; 0; 0; 0; 0; 0; 0;
  0; 0; 0; 0; 0; 0; 0; 0; 0; 0; 0; 0; 0; 0; 0; 0;
  0; 0; 0; 0; 0; 0; 0; 0; 0; 0; 0; 0; 0; 0; 0; 0;
  0; 0; 0; 0; 0; 0; 0; 0; 0; 0; 0; 0; 0; 0; 0; 0;
  0; 0; 0; 0; 0; 0; 0; 0; 0; 0; 0; 0; 0; 0; 0; 0;
  0; 0; 0; 0; 0; 0; 0; 0; 0; 0; 0; 0; 0; 0; 0; 0;
  0; 0; 0; 0; 0; 0; 0; 0; 0; 0; 0; 0; 0; 0; 0; 0;
  0; 0; 0; 0; 0; 0; 0; 0; 0; 0; 0; 0; 0; 0; 0; 0;
  0; 0; 0; 0; 0; 0; 0; 0; 0; 0; 0; 0; 0; 0; 0; 0;
  0; 0; 0; 0; 0; 0; 0; 0; 0; 0; 0; 0; 0; 0; 0; 0;
  0; 0; 0; 0; 0; 0; 0; 0; 0; 0; 0; 0; 0; 0; 0; 0;
  0; 0; 0; 0; 0; 0; 0; 0; 0; 0; 0; 0; 0; 0; 0; 0;
  0; 0; 0; 0; 0; 0; 0; 0; 0; 0; 0; 0; 0; 0; 0; 0;
  0; 0; 0; 0; 0; 0; 0; 0; 0; 0; 0; 0; 0; 0; 0; 0;
  0; 0; 1; 1; 1; 1; 1; 1; 1; 1; 1; 1; 1; 1; 1; 1;
  0; 0; 0; 0; 0; 0; 0; 0; 0; 0; 0; 0; 0; 0; 0; 0;
  0; 0; 0; 0; 0; 0; 0; 0; 0; 0; 0; 0; 0; 0; 0; 0;
  0; 0; 0; 0; 0; 0; 0; 0; 0; 0; 0; 0; 0; 0; 0; 0;
  0; 0; 0; 0; 0; 0; 0; 0; 0; 0; 0; 0; 0; 0; 0; 0;
  0; 0; 0; 0; 0; 0; 0; 0; 0; 0; 0; 0; 0; 0; 0; 0;
  0; 0; 0; 0; 0; 0; 0; 0; 0; 0; 0; 0; 0; 0; 0; 0;
  0; 0; 0; 0; 0; 0; 0; 0; 0; 0; 0; 0; 0; 0; 0; 0;
  0; 0; 0; 0; 0; 0; 0; 0; 0; 0; 0; 0; 0; 0; 0; 0;
  0; 0; 0; 0; 0; 0; 0; 0; 0; 0; 0; 0; 0; 0; 0; 0;
  0; 0; 0; 0; 0; 0; 0; 0; 0; 0; 0; 0; 0; 0; 0; 0;
  0; 0; 0; 0; 0; 0; 0; 0; 0; 0; 0; 0; 0; 0; 0; 0;
  0; 0; 0; 0; 0; 0; 0; 0; 0; 0; 0; 0; 0; 0; 0; 0;
  0; 0; 0; 0; 0; 0; 0; 0; 0; 0; 0; 0; 0; 0; 0; 0;
  0; 0; 0; 0; 0; 0; 0; 0; 0; 0; 0; 0; 0; 0; 0; 0;
  0; 0; 0; 0; 0; 0; 0; 0; 0; 0; 0; 0; 0; 0; 0; 0;
  0; 0; 0; 1; 1; 1; 1; 1; 1; 1; 1; 1; 1; 1; 1; 1;
  0; 0; 0; 0; 0; 0; 0; 0; 0; 0; 0; 0; 0; 0; 0; 0;
  0; 0; 0; 0; 0; 0; 0; 0; 0; 0; 0; 0; 0; 0; 0; 0;
  0; 0; 0; 0; 0; 0; 0; 0; 0; 0; 0; 0; 0; 0; 0; 0;
  0; 0; 0; 0; 0; 0; 0; 0; 0; 0; 0; 0; 0; 0; 0; 0;
  0; 0; 0; 0; 0; 0; 0; 0; 0; 0; 0; 0; 0; 0; 0; 0;
  0; 0; 0; 0; 0; 0; 0; 0; 0; 0; 0; 0; 0; 0; 0; 0;
  0; 0; 0; 0; 0; 0; 0; 0; 0; 0; 0; 0; 0; 0; 0; 0
].

Definition ExpNegativeDelta_4 : list Z := [
  0; 0; 0; 0; 0; 0; 0; 0; 0; 0; 0; 0; 0; 0; 0; 0;
  0; 0; 0; 0; 0; 0; 0; 0; 0; 0; 0; 0; 0; 0; 0; 0;
  0; 0; 0; 0; 0; 0; 0; 0; 0; 0; 0; 0; 0; 0; 0; 0;
  0; 0; 0; 0; 0; 0; 0; 0; 0; 0; 0; 0; 0; 0; 0; 0;
  0; 0; 1; 1; 1; 1; 1; 1; 1; 1; 1; 1; 1; 1; 1; 1;
  0; 0; 0; 0; 0; 0; 0; 0; 0; 0; 0; 0; 0; 0; 0; 0;
  0; 0; 0; 0; 0; 0; 0; 0; 0; 0; 0; 0; 0; 0; 0; 0;
  0; 0; 0; 0; 0; 0; 0; 0; 0; 0; 0; 0; 0; 0; 0; 0;
  0; 0; 0; 0; 0; 0; 0; 0; 0; 0; 0; 0; 0; 0; 0; 0;
  0; 0; 0; 0; 0; 0; 0; 0; 0; 0; 0; 0; 0; 0; 0; 0;
  0; 0; 0; 0; 0; 0; 0; 0; 0; 0; 0; 0; 0; 0; 0; 0;
  0; 0; 0; 0; 0; 0; 0; 0; 0; 0; 0; 0; 0; 0; 0; 0;
  0; 0; 1; 1; 1; 1; 1; 1; 1; 1; 1; 1; 1; 1; 1; 1;
  0; 0; 0; 0; 0; 0; 0; 0; 0; 0; 0; 0; 0; 0; 0; 0;
  0; 0; 0; 0; 0; 0; 0; 0; 0; 0; 0; 0; 0; 0; 0; 0;
  0; 0; 0; 0; 0; 0; 0; 0; 0; 0; 0; 0; 0; 0; 0; 0;
  0; 0; 0; 0; 0; 0; 0; 0; 0; 0; 0; 0; 0; 0; 0; 0;
  0; 0; 0; 0; 0; 0; 0; 0; 0; 0; 0; 0; 0; 0; 0; 0;
  0; 0; 0; 0; 0; 0; 0; 0; 0; 0; 0; 0; 0; 0; 0; 0;
  0; 0; 0; 0; 0; 0; 0; 0; 0; 0; 0; 0; 0; 0; 0; 0;
  0; 0; 0; 1; 1; 1; 1; 1; 1; 1; 1; 1; 1; 1; 1; 1;
  0; 0; 0; 0; 0; 0; 0; 0; 0; 0; 0; 0; 0; 0; 0; 0;
  0; 0; 0; 0; 0; 0; 0; 0; 0; 0; 0; 0; 0; 0; 0; 0;
  0; 0; 0; 0; 0; 0; 0; 0; 0; 0; 0; 0; 0; 0; 0; 0;
  0; 0; 0; 0; 0; 0; 0; 0; 0; 0; 0; 0; 0; 0; 0; 0;
  0; 0; 0; 0; 0; 0; 0; 0; 0; 0; 0; 0; 0; 0; 0; 0;
  0; 0; 0; 0; 0; 0; 0; 0; 0; 0; 0; 0; 0; 0; 0; 0;
  0; 0; 0; 0; 0; 0; 0; 0; 0; 0; 0; 0; 0; 0; 0; 0;
  0; 0; 0; 0; 1; 1; 1; 1; 1; 1; 1; 1; 1; 1; 1; 1;
  0; 0; 0; 0; 0; 0; 0; 0; 0; 0; 0; 0; 0; 0; 0; 0;
  0; 0; 0; 0; 0; 0; 0; 0; 0; 0; 0; 0; 0; 0; 0; 0;
  0; 0; 0; 0; 0; 0; 0; 0; 0; 0; 0; 0; 0; 0; 0; 0;
  0; 0; 0; 0; 0; 0; 0; 0; 0; 0; 0; 0; 0; 0; 0; 0;
  0; 0; 0; 0; 0; 0; 0; 0; 0; 0; 0; 0; 0; 0; 0; 0;
  0; 0; 0; 0; 0; 0; 0; 0; 0; 0; 0; 0; 0; 0; 0; 0;
  0; 0; 0; 0; 0; 0; 0; 0; 0; 0; 0; 0; 0; 0; 0; 0;
  0; 0; 0; 0; 1; 1; 1; 1; 1; 1; 1; 1; 1; 1; 1; 1;
  0; 0; 0; 0; 0; 0; 0; 0; 0; 0; 0; 0; 0; 0; 0; 0;
  0; 0; 0; 0; 0; 0; 0; 0; 0; 0; 0; 0; 0; 0; 0; 0;
  0; 0; 0; 0; 0; 0; 0; 0; 0; 0; 0; 0; 0; 0; 0; 0;
  0; 0; 0; 0; 0; 0; 0; 0; 0; 0; 0; 0; 0; 0; 0; 0;
  0; 0; 0; 0; 0; 0; 0; 0; 0; 0; 0; 0; 0; 0; 0; 0;
  0; 0; 0; 0; 0; 0; 0; 0; 0; 0; 0; 0; 0; 0; 0; 0;
  0; 0; 0; 0; 0; 0; 0; 0; 0; 0; 0; 0; 0; 0; 0; 0;
  0; 0; 0; 0; 0; 1; 1; 1; 1; 1; 1; 1; 1; 1; 1; 1;
  0; 0; 0; 0; 0; 0; 0; 0; 0; 0; 0; 0; 0; 0; 0; 0;
  0; 0; 0; 0; 0; 0; 0; 0; 0; 0; 0; 0; 0; 0; 0; 0;
  0; 0; 0; 0; 0; 0; 0; 0; 0; 0; 0; 0; 0; 0; 0; 0;
  0; 0; 0; 0; 0; 0; 0; 0; 0; 0; 0; 0; 0; 0; 0; 0;
  0; 0; 0; 0; 0; 0; 0; 0; 0; 0; 0; 0; 0; 0; 0; 0;
  0; 0; 0; 0; 0; 0; 0; 0; 0; 0; 0; 0; 0; 0; 0; 0;
  0; 0; 0; 0; 0; 0; 0; 0; 0; 0; 0; 0; 0; 0; 0; 0;
  0; 0; 0; 0; 0; 0; 1; 1; 1; 1; 1; 1; 1; 1; 1; 1;
  0; 0; 0; 0; 0; 0; 0; 0; 0; 0; 0; 0; 0; 0; 0; 0;
  0; 0; 0; 0; 0; 0; 0; 0; 0; 0; 0; 0; 0; 0; 0; 0;
  0; 0; 0; 0; 0; 0; 0; 0; 0; 0; 0; 0; 0; 0; 0; 0;
  0; 0; 0; 0; 0; 0; 0; 0; 0; 0; 0; 0; 0; 0; 0; 0;
  0; 0; 0; 0; 0; 0; 0; 0; 0; 0; 0; 0; 0; 0; 0; 0;
  0; 0; 0; 0; 0; 0; 0; 0; 0; 0; 0; 0; 0; 0; 0; 0;
  0; 0; 0; 0; 0; 0; 0; 0; 0; 0; 0; 0; 0; 0; 0; 0;
  0; 0; 0; 0; 0; 0; 0; 1; 1; 1; 1; 1; 1; 1; 1; 1;
  0; 0; 0; 0; 0; 0; 0; 0; 0; 0; 0; 0; 0; 0; 0; 0;
  0; 0; 0; 0; 0; 0; 0; 0; 0; 0; 0; 0; 0; 0; 0; 0;
  0; 0; 0; 0; 0; 0; 0; 0; 0; 0; 0; 0; 0; 0; 0; 0
].

Definition ExpNegativeDelta_5 : list Z := [
  0; 0; 0; 0; 0; 0; 0; 0; 0; 0; 0; 0; 0; 0; 0; 0;
  0; 0; 0; 0; 0; 0; 0; 0; 0; 0; 0; 0; 0; 0; 0; 0;
  0; 0; 0; 0; 1; 1; 1; 1; 1; 1; 1; 1; 1; 1; 1; 1;
  0; 0; 0; 0; 0; 0; 0; 0; 0; 0; 0; 0; 0; 0; 0; 0;
  0; 0; 0; 0; 0; 0; 0; 0; 0; 0; 0; 0; 0; 0; 0; 0;
  0; 0; 0; 0; 0; 0; 0; 0; 0; 0; 0; 0; 0; 0; 0; 0;
  0; 0; 0; 0; 1; 1; 1; 1; 1; 1; 1; 1; 1; 1; 1; 1;
  0; 0; 0; 0; 0; 0; 0; 0; 0; 0; 0; 0; 0; 0; 0; 0;
  0; 0; 0; 0; 0; 0; 0; 0; 0; 0; 0; 0; 0; 0; 0; 0;
  0; 0; 0; 0; 0; 0; 0; 0; 0; 0; 0; 0; 0; 0; 0; 0;
  0; 0; 0; 0; 0; 1; 1; 1; 1; 1; 1; 1; 1; 1; 1; 1;
  0; 0; 0; 0; 0; 0; 0; 0; 0; 0; 0; 0; 0; 0; 0; 0;
  0; 0; 0; 0; 0; 0; 0; 0; 0; 0; 0; 0; 0; 0; 0; 0;
  0; 0; 0; 0; 0; 0; 0; 0; 0; 0; 0; 0; 0; 0; 0; 0;
  0; 0; 0; 0; 0; 1; 1; 1; 1; 1; 1; 1; 1; 1; 1; 1;
  0; 0; 0; 0; 0; 0; 0; 0; 0; 0; 0; 0; 0; 0; 0; 0;
  0; 0; 0; 0; 0; 0; 0; 0; 0; 0; 0; 0; 0; 0; 0; 0;
  0; 0; 0; 0; 0; 0; 0; 0; 0; 0; 0; 0; 0; 0; 0; 0;
  0; 0; 0; 0; 0; 0; 1; 1; 1; 1; 1; 1; 1; 1; 1; 1;
  0; 0; 0; 0; 0; 0; 0; 0; 0; 0; 0; 0; 0; 0; 0; 0;
  0; 0; 0; 0; 0; 0; 0; 0; 0; 0; 0; 0; 0; 0; 0; 0;
  0; 0; 0; 0; 0; 0; 0; 0; 0; 0; 0; 0; 0; 0; 0; 0;
  0; 0; 0; 0; 0; 0; 0; 1; 1; 1; 1; 1; 1; 1; 1; 1;
  0; 0; 0; 0; 0; 0; 0; 0; 0; 0; 0; 0; 0; 0; 0; 0;
  0; 0; 0; 0; 0; 0; 0; 0; 0; 0; 0; 0; 0; 0; 0; 0;
  0; 0; 0; 0; 0; 0; 0; 0; 0; 0; 0; 0; 0; 0; 0; 0;
  0; 0; 0; 0; 0; 0; 0; 1; 1; 1; 1; 1; 1; 1; 1; 1;
  0; 0; 0; 0; 0; 0; 0; 0; 0; 0; 0; 0; 0; 0; 0; 0;
  0; 0; 0; 0; 0; 0; 0; 0; 0; 0; 0; 0; 0; 0; 0; 0;
  0; 0; 0; 0; 0; 0; 0; 0; 0; 0; 0; 0; 0; 0; 0; 0;
  0; 0; 0; 0; 0; 0; 0; 0; 1; 1; 1; 1; 1; 1; 1; 1;
  0; 0; 0; 0; 0; 0; 0; 0; 0; 0; 0; 0; 0; 0; 0; 0;
  0; 0; 0; 0; 0; 0; 0; 0; 0; 0; 0; 0; 0; 0; 0; 0;
  0; 0; 0; 0; 0; 0; 0; 0; 0; 0; 0; 0; 0; 0; 0; 0;
  0; 0; 0; 0; 0; 0; 0; 0; 0; 1; 1; 1; 1; 1; 1; 1;
  0; 0; 0; 0; 0; 0; 0; 0; 0; 0; 0; 0; 0; 0; 0; 0;
  0; 0; 0; 0; 0; 0; 0; 0; 0; 0; 0; 0; 0; 0; 0; 0;
  0; 0; 0; 0; 0; 0; 0; 0; 0; 0; 0; 0; 0; 0; 0; 0;
  0; 0; 0; 0; 0; 0; 0; 0; 0; 0; 1; 1; 1; 1; 1; 1;
  0; 0; 0; 0; 0; 0; 0; 0; 0; 0; 0; 0; 0; 0; 0; 0;
  0; 0; 0; 0; 0; 0; 0; 0; 0; 0; 0; 0; 0; 0; 0; 0;
  0; 0; 0; 0; 0; 0; 0; 0; 0; 0; 0; 0; 0; 0; 0; 0;
  0; 0; 0; 0; 0; 0; 0; 0; 0; 0; 0; 1; 1; 1; 1; 1;
  0; 0; 0; 0; 0; 0; 0; 0; 0; 0; 0; 0; 0; 0; 0; 0;
  0; 0; 0; 0; 0; 0; 0; 0; 0; 0; 0; 0; 0; 0; 0; 0;
  0; 0; 0; 0; 0; 0; 0; 0; 0; 0; 0; 0; 0; 0; 0; 0;
  0; 0; 0; 0; 0; 0; 0; 0; 0; 0; 0; 1; 1; 1; 1; 1;
  0; 0; 0; 0; 0; 0; 0; 0; 0; 0; 0; 0; 0; 0; 0; 0;
  0; 0; 0; 0; 0; 0; 0; 0; 0; 0; 0; 0; 0; 0; 0; 0;
  0; 0; 0; 0; 0; 0; 0; 0; 0; 0; 0; 0; 0; 0; 0; 0;
  0; 0; 0; 0; 0; 0; 0; 0; 0; 0; 0; 0; 1; 1; 1; 1;
  0; 0; 0; 0; 0; 0; 0; 0; 0; 0; 0; 0; 0; 0; 0; 0;
  0; 0; 0; 0; 0; 0; 0; 0; 0; 0; 0; 0; 0; 0; 0; 0;
  0; 0; 0; 0; 0; 0; 0; 0; 0; 0; 0; 0; 0; 0; 0; 0;
  0; 0; 0; 0; 0; 0; 0; 0; 0; 0; 0; 0; 0; 1; 1; 1;
  0; 0; 0; 0; 0; 0; 0; 0; 0; 0; 0; 0; 0; 0; 0; 0;
  0; 0; 0; 0; 0; 0; 0; 0; 0; 0; 0; 0; 0; 0; 0; 0;
  0; 0; 0; 0; 0; 0; 0; 0; 0; 0; 0; 0; 0; 0; 0; 0;
  0; 0; 0; 0; 0; 0; 0; 0; 0; 0; 0; 0; 0; 0; 1; 1;
  0; 0; 0; 0; 0; 0; 0; 0; 0; 0; 0; 0; 0; 0; 0; 0;
  0; 0; 0; 0; 0; 0; 0; 0; 0; 0; 0; 0; 0; 0; 0; 0;
  0; 0; 0; 0; 0; 0; 0; 0; 0; 0; 0; 0; 0; 0; 0; 0;
  0; 0; 0; 0; 0; 0; 0; 0; 0; 0; 0; 0; 0; 0; 0; 1;
  0; 0; 0; 0; 0; 0; 0; 0; 0; 0; 0; 0; 0; 0; 0; 0
].

Definition ExpNegativeDelta_6 : list Z := [
  0; 0; 0; 0; 0; 0; 0; 0; 0; 0; 0; 0; 0; 0; 0; 0;
  0; 0; 0; 0; 0; 0; 0; 0; 1; 1; 1; 1; 1; 1; 1; 1;
  0; 0; 0; 0; 0; 0; 0; 0; 0; 0; 0; 0; 0; 0; 0; 0;
  0; 0; 0; 0; 0; 0; 0; 0; 1; 1; 1; 1; 1; 1; 1; 1;
  0; 0; 0; 0; 0; 0; 0; 0; 0; 0; 0; 0; 0; 0; 0; 0;
  0; 0; 0; 0; 0; 0; 0; 0; 0; 1; 1; 1; 1; 1; 1; 1;
  0; 0; 0; 0; 0; 0; 0; 0; 0; 0; 0; 0; 0; 0; 0; 0;
  0; 0; 0; 0; 0; 0; 0; 0; 0; 1; 1; 1; 1; 1; 1; 1;
  0; 0; 0; 0; 0; 0; 0; 0; 0; 0; 0; 0; 0; 0; 0; 0;
  0; 0; 0; 0; 0; 0; 0; 0; 0; 0; 1; 1; 1; 1; 1; 1;
  0; 0; 0; 0; 0; 0; 0; 0; 0; 0; 0; 0; 0; 0; 0; 0;
  0; 0; 0; 0; 0; 0; 0; 0; 0; 0; 0; 1; 1; 1; 1; 1;
  0; 0; 0; 0; 0; 0; 0; 0; 0; 0; 0; 0; 0; 0; 0; 0;
  0; 0; 0; 0; 0; 0; 0; 0; 0; 0; 0; 1; 1; 1; 1; 1;
  0; 0; 0; 0; 0; 0; 0; 0; 0; 0; 0; 0; 0; 0; 0; 0;
  0; 0; 0; 0; 0; 0; 0; 0; 0; 0; 0; 0; 1; 1; 1; 1;
  0; 0; 0; 0; 0; 0; 0; 0; 0; 0; 0; 0; 0; 0; 0; 0;
  0; 0; 0; 0; 0; 0; 0; 0; 0; 0; 0; 0; 1; 1; 1; 1;
  0; 0; 0; 0; 0; 0; 0; 0; 0; 0; 0; 0; 0; 0; 0; 0;
  0; 0; 0; 0; 0; 0; 0; 0; 0; 0; 0; 0; 0; 1; 1; 1;
  0; 0; 0; 0; 0; 0; 0; 0; 0; 0; 0; 0; 0; 0; 0; 0;
  0; 0; 0; 0; 0; 0; 0; 0; 0; 0; 0; 0; 0; 0; 1; 1;
  0; 0; 0; 0; 0; 0; 0; 0; 0; 0; 0; 0; 0; 0; 0; 0;
  0; 0; 0; 0; 0; 0; 0; 0; 0; 0; 0; 0; 0; 0; 1; 1;
  0; 0; 0; 0; 0; 0; 0; 0; 0; 0; 0; 0; 0; 0; 0; 0;
  0; 0; 0; 0; 0; 0; 0; 0; 0; 0; 0; 0; 0; 0; 0; 1;
  0; 0; 0; 0; 0; 0; 0; 0; 0; 0; 0; 0; 0; 0; 0; 0;
  0; 0; 0; 0; 0; 0; 0; 0; 0; 0; 0; 0; 0; 0; 0; 0;
  0; 0; 0; 0; 0; 0; 0; 0; 0; 0; 0; 0; 0; 0; 0; 0;
  0; 0; 0; 0; 0; 0; 0; 0; 0; 0; 0; 0; 0; 0; 0; 0;
  0; 1; 1; 1; 1; 1; 1; 1; 1; 1; 1; 1; 1; 1; 1; 1;
  0; 0; 0; 0; 0; 0; 0; 0; 0; 0; 0; 0; 0; 0; 0; 0;
  0; 1; 1; 1; 1; 1; 1; 1; 1; 1; 1; 1; 1; 1; 1; 1;
  0; 0; 0; 0; 0; 0; 0; 0; 0; 0; 0; 0; 0; 0; 0; 0;
  0; 0; 1; 1; 1; 1; 1; 1; 1; 1; 1; 1; 1; 1; 1; 1;
  0; 0; 0; 0; 0; 0; 0; 0; 0; 0; 0; 0; 0; 0; 0; 0;
  0; 0; 0; 1; 1; 1; 1; 1; 1; 1; 1; 1; 1; 1; 1; 1;
  0; 0; 0; 0; 0; 0; 0; 0; 0; 0; 0; 0; 0; 0; 0; 0;
  0; 0; 0; 0; 1; 1; 1; 1; 1; 1; 1; 1; 1; 1; 1; 1;
  0; 0; 0; 0; 0; 0; 0; 0; 0; 0; 0; 0; 0; 0; 0; 0;
  0; 0; 0; 0; 0; 1; 1; 1; 1; 1; 1; 1; 1; 1; 1; 1;
  0; 0; 0; 0; 0; 0; 0; 0; 0; 0; 0; 0; 0; 0; 0; 0;
  0; 0; 0; 0; 0; 1; 1; 1; 1; 1; 1; 1; 1; 1; 1; 1;
  0; 0; 0; 0; 0; 0; 0; 0; 0; 0; 0; 0; 0; 0; 0; 0;
  0; 0; 0; 0; 0; 0; 1; 1; 1; 1; 1; 1; 1; 1; 1; 1;
  0; 0; 0; 0; 0; 0; 0; 0; 0; 0; 0; 0; 0; 0; 0; 0;
  0; 0; 0; 0; 0; 0; 0; 1; 1; 1; 1; 1; 1; 1; 1; 1;
  0; 0; 0; 0; 0; 0; 0; 0; 0; 0; 0; 0; 0; 0; 0; 0;
  0; 0; 0; 0; 0; 0; 0; 0; 1; 1; 1; 1; 1; 1; 1; 1;
  0; 0; 0; 0; 0; 0; 0; 0; 0; 0; 0; 0; 0; 0; 0; 0;
  0; 0; 0; 0; 0; 0; 0; 0; 0; 1; 1; 1; 1; 1; 1; 1;
  0; 0; 0; 0; 0; 0; 0; 0; 0; 0; 0; 0; 0; 0; 0; 0;
  0; 0; 0; 0; 0; 0; 0; 0; 0; 0; 1; 1; 1; 1; 1; 1;
  0; 0; 0; 0; 0; 0; 0; 0; 0; 0; 0; 0; 0; 0; 0; 0;
  0; 0; 0; 0; 0; 0; 0; 0; 0; 0; 0; 1; 1; 1; 1; 1;
  0; 0; 0; 0; 0; 0; 0; 0; 0; 0; 0; 0; 0; 0; 0; 0;
  0; 0; 0; 0; 0; 0; 0; 0; 0; 0; 0; 0; 1; 1; 1; 1;
  0; 0; 0; 0; 0; 0; 0; 0; 0; 0; 0; 0; 0; 0; 0; 0;
  0; 0; 0; 0; 0; 0; 0; 0; 0; 0; 0; 0; 0; 1; 1; 1;
  0; 0; 0; 0; 0; 0; 0; 0; 0; 0; 0; 0; 0; 0; 0; 0;
  0; 0; 0; 0; 0; 0; 0; 0; 0; 0; 0; 0; 0; 0; 1; 1;
  0; 0; 0; 0; 0; 0; 0; 0; 0; 0; 0; 0; 0; 0; 0; 0;
  0; 0; 0; 0; 0; 0; 0; 0; 0; 0; 0; 0; 0; 0; 0; 1;
  0; 0; 0; 0; 0; 0; 0; 0; 0; 0; 0; 0; 0; 0; 0; 0
].

Definition ExpNegativeDelta_7 : list Z := [
  0; 0; 0; 0; 0; 0; 0; 0; 1; 1; 1; 1; 1; 1; 1; 1;
  0; 0; 0; 0; 0; 0; 0; 0; 1; 1; 1; 1; 1; 1; 1; 1;
  0; 0; 0; 0; 0; 0; 0; 0; 0; 1; 1; 1; 1; 1; 1; 1;
  0; 0; 0; 0; 0; 0; 0; 0; 0; 1; 1; 1; 1; 1; 1; 1;
  0; 0; 0; 0; 0; 0; 0; 0; 0; 0; 1; 1; 1; 1; 1; 1;
  0; 0; 0; 0; 0; 0; 0; 0; 0; 0; 1; 1; 1; 1; 1; 1;
  0; 0; 0; 0; 0; 0; 0; 0; 0; 0; 0; 1; 1; 1; 1; 1;
  0; 0; 0; 0; 0; 0; 0; 0; 0; 0; 0; 1; 1; 1; 1; 1;
  0; 0; 0; 0; 0; 0; 0; 0; 0; 0; 0; 0; 1; 1; 1; 1;
  0; 0; 0; 0; 0; 0; 0; 0; 0; 0; 0; 0; 0; 1; 1; 1;
  0; 0; 0; 0; 0; 0; 0; 0; 0; 0; 0; 0; 0; 1; 1; 1;
  0; 0; 0; 0; 0; 0; 0; 0; 0; 0; 0; 0; 0; 0; 1; 1;
  0; 0; 0; 0; 0; 0; 0; 0; 0; 0; 0; 0; 0; 0; 1; 1;
  0; 0; 0; 0; 0; 0; 0; 0; 0; 0; 0; 0; 0; 0; 0; 1;
  0; 0; 0; 0; 0; 0; 0; 0; 0; 0; 0; 0; 0; 0; 0; 0;
  0; 0; 0; 0; 0; 0; 0; 0; 0; 0; 0; 0; 0; 0; 0; 0;
  0; 0; 0; 0; 0; 0; 0; 0; 0; 0; 0; 0; 0; 0; 0; 0;
  0; 1; 1; 1; 1; 1; 1; 1; 1; 1; 1; 1; 1; 1; 1; 1;
  0; 1; 1; 1; 1; 1; 1; 1; 1; 1; 1; 1; 1; 1; 1; 1;
  0; 0; 1; 1; 1; 1; 1; 1; 1; 1; 1; 1; 1; 1; 1; 1;
  0; 0; 0; 1; 1; 1; 1; 1; 1; 1; 1; 1; 1; 1; 1; 1;
  0; 0; 0; 1; 1; 1; 1; 1; 1; 1; 1; 1; 1; 1; 1; 1;
  0; 0; 0; 0; 1; 1; 1; 1; 1; 1; 1; 1; 1; 1; 1; 1;
  0; 0; 0; 0; 0; 1; 1; 1; 1; 1; 1; 1; 1; 1; 1; 1;
  0; 0; 0; 0; 0; 0; 1; 1; 1; 1; 1; 1; 1; 1; 1; 1;
  0; 0; 0; 0; 0; 0; 1; 1; 1; 1; 1; 1; 1; 1; 1; 1;
  0; 0; 0; 0; 0; 0; 0; 1; 1; 1; 1; 1; 1; 1; 1; 1;
  0; 0; 0; 0; 0; 0; 0; 0; 1; 1; 1; 1; 1; 1; 1; 1;
  0; 0; 0; 0; 0; 0; 0; 0; 1; 1; 1; 1; 1; 1; 1; 1;
  0; 0; 0; 0; 0; 0; 0; 0; 0; 1; 1; 1; 1; 1; 1; 1;
  0; 0; 0; 0; 0; 0; 0; 0; 0; 0; 1; 1; 1; 1; 1; 1;
  0; 0; 0; 0; 0; 0; 0; 0; 0; 0; 0; 1; 1; 1; 1; 1;
  0; 0; 0; 0; 0; 0; 0; 0; 0; 0; 0; 1; 1; 1; 1; 1;
  0; 0; 0; 0; 0; 0; 0; 0; 0; 0; 0; 0; 1; 1; 1; 1;
  0; 0; 0; 0; 0; 0; 0; 0; 0; 0; 0; 0; 0; 1; 1; 1;
  0; 0; 0; 0; 0; 0; 0; 0; 0; 0; 0; 0; 0; 0; 1; 1;
  0; 0; 0; 0; 0; 0; 0; 0; 0; 0; 0; 0; 0; 0; 0; 1;
  0; 0; 0; 0; 0; 0; 0; 0; 0; 0; 0; 0; 0; 0; 0; 1;
  0; 0; 0; 0; 0; 0; 0; 0; 0; 0; 0; 0; 0; 0; 0; 0;
  0; 0; 0; 0; 0; 0; 0; 0; 0; 0; 0; 0; 0; 0; 0; 0;
  0; 1; 1; 1; 1; 1; 1; 1; 1; 1; 1; 1; 1; 1; 1; 1;
  0; 0; 1; 1; 1; 1; 1; 1; 1; 1; 1; 1; 1; 1; 1; 1;
  0; 0; 0; 1; 1; 1; 1; 1; 1; 1; 1; 1; 1; 1; 1; 1;
  0; 0; 0; 0; 1; 1; 1; 1; 1; 1; 1; 1; 1; 1; 1; 1;
  0; 0; 0; 0; 0; 1; 1; 1; 1; 1; 1; 1; 1; 1; 1; 1;
  0; 0; 0; 0; 0; 1; 1; 1; 1; 1; 1; 1; 1; 1; 1; 1;
  0; 0; 0; 0; 0; 0; 1; 1; 1; 1; 1; 1; 1; 1; 1; 1;
  0; 0; 0; 0; 0; 0; 0; 1; 1; 1; 1; 1; 1; 1; 1; 1;
  0; 0; 0; 0; 0; 0; 0; 0; 1; 1; 1; 1; 1; 1; 1; 1;
  0; 0; 0; 0; 0; 0; 0; 0; 0; 1; 1; 1; 1; 1; 1; 1;
  0; 0; 0; 0; 0; 0; 0; 0; 0; 0; 1; 1; 1; 1; 1; 1;
  0; 0; 0; 0; 0; 0; 0; 0; 0; 0; 0; 1; 1; 1; 1; 1;
  0; 0; 0; 0; 0; 0; 0; 0; 0; 0; 0; 0; 1; 1; 1; 1;
  0; 0; 0; 0; 0; 0; 0; 0; 0; 0; 0; 0; 0; 1; 1; 1;
  0; 0; 0; 0; 0; 0; 0; 0; 0; 0; 0; 0; 0; 0; 1; 1;
  0; 0; 0; 0; 0; 0; 0; 0; 0; 0; 0; 0; 0; 0; 0; 1;
  0; 0; 0; 0; 0; 0; 0; 0; 0; 0; 0; 0; 0; 0; 0; 0;
  0; 0; 0; 0; 0; 0; 0; 0; 0; 0; 0; 0; 0; 0; 0; 0;
  0; 1; 1; 1; 1; 1; 1; 1; 1; 1; 1; 1; 1; 1; 1; 1;
  0; 0; 1; 1; 1; 1; 1; 1; 1; 1; 1; 1; 1; 1; 1; 1;
  0; 0; 0; 1; 1; 1; 1; 1; 1; 1; 1; 1; 1; 1; 1; 1;
  0; 0; 0; 0; 1; 1; 1; 1; 1; 1; 1; 1; 1; 1; 1; 1;
  0; 0; 0; 0; 0; 1; 1; 1; 1; 1; 1; 1; 1; 1; 1; 1;
  0; 0; 0; 0; 0; 0; 1; 1; 1; 1; 1; 1; 1; 1; 1; 1
].

Definition ExpNegativeDelta_8 : list Z := [
  0; 0; 0; 1; 1; 1; 1; 1; 1; 1; 1; 1; 2; 2; 2; 2;
  0; 0; 0; 0; 1; 1; 1; 1; 1; 1; 1; 1; 1; 2; 2; 2;
  0; 0; 0; 0; 0; 1; 1; 1; 1; 1; 1; 1; 1; 1; 2; 2;
  0; 0; 0; 0; 0; 0; 1; 1; 1; 1; 1; 1; 1; 1; 1; 2;
  0; 0; 0; 0; 0; 0; 0; 1; 1; 1; 1; 1; 1; 1; 1; 1;
  0; 0; 0; 0; 0; 0; 0; 0; 1; 1; 1; 1; 1; 1; 1; 1;
  0; 1; 1; 1; 1; 1; 1; 1; 1; 1; 2; 2; 2; 2; 2; 2;
  0; 0; 1; 1; 1; 1; 1; 1; 1; 1; 1; 2; 2; 2; 2; 2;
  0; 0; 0; 1; 1; 1; 1; 1; 1; 1; 1; 1; 2; 2; 2; 2;
  0; 0; 0; 0; 0; 1; 1; 1; 1; 1; 1; 1; 1; 2; 2; 2;
  0; 0; 0; 0; 0; 0; 1; 1; 1; 1; 1; 1; 1; 1; 2; 2;
  0; 0; 0; 0; 0; 0; 0; 1; 1; 1; 1; 1; 1; 1; 1; 1;
  0; 0; 0; 0; 0; 0; 0; 0; 1; 1; 1; 1; 1; 1; 1; 1;
  0; 1; 1; 1; 1; 1; 1; 1; 1; 2; 2; 2; 2; 2; 2; 2;
  0; 0; 1; 1; 1; 1; 1; 1; 1; 1; 1; 2; 2; 2; 2; 2;
  0; 0; 0; 1; 1; 1; 1; 1; 1; 1; 1; 1; 2; 2; 2; 2;
  0; 0; 0; 0; 0; 1; 1; 1; 1; 1; 1; 1; 1; 2; 2; 2;
  0; 0; 0; 0; 0; 0; 1; 1; 1; 1; 1; 1; 1; 1; 1; 2;
  0; 0; 0; 0; 0; 0; 0; 1; 1; 1; 1; 1; 1; 1; 1; 1;
  0; 0; 0; 0; 0; 0; 0; 0; 0; 1; 1; 1; 1; 1; 1; 1;
  0; 1; 1; 1; 1; 1; 1; 1; 1; 1; 2; 2; 2; 2; 2; 2;
  0; 0; 0; 1; 1; 1; 1; 1; 1; 1; 1; 2; 2; 2; 2; 2;
  0; 0; 0; 0; 1; 1; 1; 1; 1; 1; 1; 1; 1; 2; 2; 2;
  0; 0; 0; 0; 0; 1; 1; 1; 1; 1; 1; 1; 1; 1; 2; 2;
  0; 0; 0; 0; 0; 0; 0; 1; 1; 1; 1; 1; 1; 1; 1; 1;
  0; 0; 0; 0; 0; 0; 0; 0; 1; 1; 1; 1; 1; 1; 1; 1;
  0; 1; 1; 1; 1; 1; 1; 1; 1; 1; 2; 2; 2; 2; 2; 2;
  0; 0; 0; 1; 1; 1; 1; 1; 1; 1; 1; 2; 2; 2; 2; 2;
  0; 0; 0; 0; 1; 1; 1; 1; 1; 1; 1; 1; 1; 2; 2; 2;
  0; 0; 0; 0; 0; 0; 1; 1; 1; 1; 1; 1; 1; 1; 2; 2;
  0; 0; 0; 0; 0; 0; 0; 1; 1; 1; 1; 1; 1; 1; 1; 1;
  0; 0; 0; 0; 0; 0; 0; 0; 0; 1; 1; 1; 1; 1; 1; 1;
  0; 1; 1; 1; 1; 1; 1; 1; 1; 1; 2; 2; 2; 2; 2; 2;
  0; 0; 0; 1; 1; 1; 1; 1; 1; 1; 1; 1; 2; 2; 2; 2;
  0; 0; 0; 0; 0; 1; 1; 1; 1; 1; 1; 1; 1; 2; 2; 2;
  0; 0; 0; 0; 0; 0; 1; 1; 1; 1; 1; 1; 1; 1; 1; 2;
  0; 0; 0; 0; 0; 0; 0; 0; 1; 1; 1; 1; 1; 1; 1; 1;
  0; 1; 1; 1; 1; 1; 1; 1; 1; 1; 2; 2; 2; 2; 2; 2;
  0; 0; 1; 1; 1; 1; 1; 1; 1; 1; 1; 2; 2; 2; 2; 2;
  0; 0; 0; 0; 1; 1; 1; 1; 1; 1; 1; 1; 1; 2; 2; 2;
  0; 0; 0; 0; 0; 0; 1; 1; 1; 1; 1; 1; 1; 1; 1; 2;
  0; 0; 0; 0; 0; 0; 0; 0; 1; 1; 1; 1; 1; 1; 1; 1;
  0; 0; 0; 0; 0; 0; 0; 0; 0; 1; 1; 1; 1; 1; 1; 1;
  0; 0; 1; 1; 1; 1; 1; 1; 1; 1; 1; 2; 2; 2; 2; 2;
  0; 0; 0; 0; 1; 1; 1; 1; 1; 1; 1; 1; 1; 2; 2; 2;
  0; 0; 0; 0; 0; 0; 1; 1; 1; 1; 1; 1; 1; 1; 1; 2;
  0; 0; 0; 0; 0; 0; 0; 0; 1; 1; 1; 1; 1; 1; 1; 1;
  0; 0; 0; 0; 0; 0; 0; 0; 0; 1; 1; 1; 1; 1; 1; 1;
  0; 0; 1; 1; 1; 1; 1; 1; 1; 1; 1; 2; 2; 2; 2; 2;
  0; 0; 0; 0; 1; 1; 1; 1; 1; 1; 1; 1; 1; 2; 2; 2;
  0; 0; 0; 0; 0; 0; 1; 1; 1; 1; 1; 1; 1; 1; 1; 2;
  0; 0; 0; 0; 0; 0; 0; 0; 1; 1; 1; 1; 1; 1; 1; 1;
  0; 1; 1; 1; 1; 1; 1; 1; 1; 1; 2; 2; 2; 2; 2; 2;
  0; 0; 0; 1; 1; 1; 1; 1; 1; 1; 1; 1; 2; 2; 2; 2;
  0; 0; 0; 0; 0; 1; 1; 1; 1; 1; 1; 1; 1; 1; 2; 2;
  0; 0; 0; 0; 0; 0; 0; 1; 1; 1; 1; 1; 1; 1; 1; 1;
  0; 0; 0; 0; 0; 0; 0; 0; 0; 1; 1; 1; 1; 1; 1; 1;
  0; 0; 1; 1; 1; 1; 1; 1; 1; 1; 1; 2; 2; 2; 2; 2;
  0; 0; 0; 0; 1; 1; 1; 1; 1; 1; 1; 1; 1; 2; 2; 2;
  0; 0; 0; 0; 0; 0; 1; 1; 1; 1; 1; 1; 1; 1; 1; 2;
  0; 0; 0; 0; 0; 0; 0; 0; 1; 1; 1; 1; 1; 1; 1; 1;
  0; 1; 1; 1; 1; 1; 1; 1; 1; 1; 2; 2; 2; 2; 2; 2;
  0; 0; 0; 1; 1; 1; 1; 1; 1; 1; 1; 1; 2; 2; 2; 2;
  0; 0; 0; 0; 0; 1; 1; 1; 1; 1; 1; 1; 1; 1; 2; 2
].

Definition ExpNegativeDelta_9 : list Z := [
  0; 0; 0; 1; 1; 1; 1; 1; 2; 2; 2; 2; 3; 3; 3; 3;
  0; 1; 1; 1; 1; 1; 2; 2; 2; 2; 3; 3; 3; 3; 3; 4;
  0; 0; 0; 1; 1; 1; 1; 1; 2; 2; 2; 2; 3; 3; 3; 3;
  0; 1; 1; 1; 1; 2; 2; 2; 2; 2; 3; 3; 3; 3; 3; 4;
  0; 0; 0; 1; 1; 1; 1; 1; 2; 2; 2; 2; 3; 3; 3; 3;
  0; 1; 1; 1; 1; 2; 2; 2; 2; 2; 3; 3; 3; 3; 3; 4;
  0; 0; 0; 1; 1; 1; 1; 1; 2; 2; 2; 2; 3; 3; 3; 3;
  0; 1; 1; 1; 1; 1; 2; 2; 2; 2; 3; 3; 3; 3; 3; 4;
  0; 0; 0; 1; 1; 1; 1; 1; 2; 2; 2; 2; 2; 3; 3; 3;
  0; 1; 1; 1; 1; 1; 2; 2; 2; 2; 3; 3; 3; 3; 3; 4;
  0; 0; 0; 0; 1; 1; 1; 1; 2; 2; 2; 2; 2; 3; 3; 3;
  0; 0; 1; 1; 1; 1; 2; 2; 2; 2; 2; 3; 3; 3; 3; 4;
  0; 0; 0; 0; 1; 1; 1; 1; 1; 2; 2; 2; 2; 3; 3; 3;
  0; 0; 1; 1; 1; 1; 1; 2; 2; 2; 2; 3; 3; 3; 3; 3;
  0; 0; 0; 0; 0; 1; 1; 1; 1; 2; 2; 2; 2; 2; 3; 3;
  0; 0; 0; 1; 1; 1; 1; 2; 2; 2; 2; 2; 3; 3; 3; 3;
  0; 1; 1; 1; 1; 2; 2; 2; 2; 2; 3; 3; 3; 3; 3; 4;
  0; 0; 0; 1; 1; 1; 1; 1; 2; 2; 2; 2; 2; 3; 3; 3;
  0; 1; 1; 1; 1; 1; 2; 2; 2; 2; 2; 3; 3; 3; 3; 3;
  0; 0; 0; 0; 1; 1; 1; 1; 1; 2; 2; 2; 2; 2; 3; 3;
  0; 0; 1; 1; 1; 1; 1; 2; 2; 2; 2; 2; 3; 3; 3; 3;
  0; 1; 1; 1; 1; 2; 2; 2; 2; 2; 3; 3; 3; 3; 3; 4;
  0; 0; 0; 1; 1; 1; 1; 1; 2; 2; 2; 2; 2; 3; 3; 3;
  0; 0; 1; 1; 1; 1; 2; 2; 2; 2; 2; 3; 3; 3; 3; 3;
  0; 0; 0; 0; 0; 1; 1; 1; 1; 2; 2; 2; 2; 2; 3; 3;
  0; 0; 0; 1; 1; 1; 1; 1; 2; 2; 2; 2; 3; 3; 3; 3;
  0; 1; 1; 1; 1; 1; 2; 2; 2; 2; 2; 3; 3; 3; 3; 3;
  0; 0; 0; 0; 1; 1; 1; 1; 1; 2; 2; 2; 2; 2; 3; 3;
  0; 0; 0; 1; 1; 1; 1; 2; 2; 2; 2; 2; 3; 3; 3; 3;
  0; 1; 1; 1; 1; 1; 2; 2; 2; 2; 2; 3; 3; 3; 3; 4;
  0; 0; 0; 0; 1; 1; 1; 1; 1; 2; 2; 2; 2; 2; 3; 3;
  0; 0; 0; 1; 1; 1; 1; 1; 2; 2; 2; 2; 3; 3; 3; 3;
  0; 1; 1; 1; 1; 1; 2; 2; 2; 2; 2; 3; 3; 3; 3; 3;
  0; 0; 0; 0; 0; 1; 1; 1; 1; 2; 2; 2; 2; 2; 3; 3;
  0; 0; 0; 1; 1; 1; 1; 1; 2; 2; 2; 2; 2; 3; 3; 3;
  0; 0; 1; 1; 1; 1; 2; 2; 2; 2; 2; 3; 3; 3; 3; 3;
  0; 0; 0; 0; 0; 1; 1; 1; 1; 1; 2; 2; 2; 2; 2; 3;
  0; 0; 0; 0; 1; 1; 1; 1; 1; 2; 2; 2; 2; 3; 3; 3;
  0; 0; 1; 1; 1; 1; 1; 2; 2; 2; 2; 2; 3; 3; 3; 3;
  0; 1; 1; 1; 1; 1; 2; 2; 2; 2; 2; 3; 3; 3; 3; 3;
  0; 0; 0; 0; 0; 1; 1; 1; 1; 2; 2; 2; 2; 2; 3; 3;
  0; 0; 0; 1; 1; 1; 1; 1; 2; 2; 2; 2; 2; 3; 3; 3;
  0; 0; 1; 1; 1; 1; 1; 2; 2; 2; 2; 2; 3; 3; 3; 3;
  0; 1; 1; 1; 1; 1; 2; 2; 2; 2; 2; 3; 3; 3; 3; 3;
  0; 0; 0; 0; 0; 1; 1; 1; 1; 2; 2; 2; 2; 2; 3; 3;
  0; 0; 0; 1; 1; 1; 1; 1; 2; 2; 2; 2; 2; 3; 3; 3;
  0; 0; 1; 1; 1; 1; 1; 2; 2; 2; 2; 2; 3; 3; 3; 3;
  0; 1; 1; 1; 1; 1; 2; 2; 2; 2; 2; 3; 3; 3; 3; 3;
  0; 0; 0; 0; 0; 1; 1; 1; 1; 1; 2; 2; 2; 2; 2; 3;
  0; 0; 0; 0; 1; 1; 1; 1; 1; 2; 2; 2; 2; 2; 3; 3;
  0; 0; 0; 1; 1; 1; 1; 1; 2; 2; 2; 2; 2; 3; 3; 3;
  0; 0; 1; 1; 1; 1; 1; 2; 2; 2; 2; 2; 3; 3; 3; 3;
  0; 1; 1; 1; 1; 1; 2; 2; 2; 2; 2; 3; 3; 3; 3; 3;
  0; 0; 0; 0; 0; 1; 1; 1; 1; 1; 2; 2; 2; 2; 2; 3;
  0; 0; 0; 0; 1; 1; 1; 1; 1; 2; 2; 2; 2; 2; 3; 3;
  0; 0; 0; 1; 1; 1; 1; 1; 2; 2; 2; 2; 2; 3; 3; 3;
  0; 0; 0; 1; 1; 1; 1; 1; 2; 2; 2; 2; 2; 3; 3; 3;
  0; 0; 1; 1; 1; 1; 1; 2; 2; 2; 2; 2; 3; 3; 3; 3;
  0; 1; 1; 1; 1; 1; 2; 2; 2; 2; 2; 3; 3; 3; 3; 3;
  0; 0; 0; 0; 0; 1; 1; 1; 1; 1; 2; 2; 2; 2; 2; 3;
  0; 0; 0; 0; 0; 1; 1; 1; 1; 1; 2; 2; 2; 2; 2; 3;
  0; 0; 0; 0; 1; 1; 1; 1; 1; 2; 2; 2; 2; 2; 3; 3;
  0; 0; 0; 1; 1; 1; 1; 1; 2; 2; 2; 2; 2; 3; 3; 3;
  0; 0; 0; 1; 1; 1; 1; 1; 2; 2; 2; 2; 2; 3; 3; 3
].

Definition ExpNegativeDelta_10 : list Z := [
  0; 1; 1; 2; 2; 2; 3; 3; 4; 4; 4; 5; 5; 5; 6; 6;
  0; 0; 0; 1; 1; 2; 2; 2; 3; 3; 3; 4; 4; 5; 5; 5;
  0; 0; 1; 1; 1; 2; 2; 3; 3; 3; 4; 4; 4; 5; 5; 6;
  0; 0; 1; 1; 2; 2; 2; 3; 3; 3; 4; 4; 5; 5; 5; 6;
  0; 1; 1; 1; 2; 2; 2; 3; 3; 4; 4; 4; 5; 5; 5; 6;
  0; 1; 1; 1; 2; 2; 3; 3; 3; 4; 4; 4; 5; 5; 6; 6;
  0; 1; 1; 1; 2; 2; 3; 3; 3; 4; 4; 5; 5; 5; 6; 6;
  0; 1; 1; 2; 2; 2; 3; 3; 3; 4; 4; 5; 5; 5; 6; 6;
  0; 1; 1; 2; 2; 2; 3; 3; 3; 4; 4; 5; 5; 5; 6; 6;
  0; 1; 1; 2; 2; 2; 3; 3; 3; 4; 4; 5; 5; 5; 6; 6;
  0; 1; 1; 2; 2; 2; 3; 3; 3; 4; 4; 5; 5; 5; 6; 6;
  0; 1; 1; 2; 2; 2; 3; 3; 3; 4; 4; 5; 5; 5; 6; 6;
  0; 1; 1; 2; 2; 2; 3; 3; 3; 4; 4; 5; 5; 5; 6; 6;
  0; 1; 1; 1; 2; 2; 3; 3; 3; 4; 4; 4; 5; 5; 6; 6;
  0; 1; 1; 1; 2; 2; 2; 3; 3; 4; 4; 4; 5; 5; 5; 6;
  0; 1; 1; 1; 2; 2; 2; 3; 3; 3; 4; 4; 5; 5; 5; 6;
  0; 0; 1; 1; 1; 2; 2; 3; 3; 3; 4; 4; 4; 5; 5; 5;
  0; 0; 1; 1; 1; 2; 2; 2; 3; 3; 3; 4; 4; 5; 5; 5;
  0; 0; 0; 1; 1; 1; 2; 2; 3; 3; 3; 4; 4; 4; 5; 5;
  0; 1; 1; 2; 2; 2; 3; 3; 3; 4; 4; 4; 5; 5; 6; 6;
  0; 1; 1; 1; 2; 2; 2; 3; 3; 3; 4; 4; 5; 5; 5; 6;
  0; 0; 1; 1; 1; 2; 2; 2; 3; 3; 4; 4; 4; 5; 5; 5;
  0; 0; 0; 1; 1; 2; 2; 2; 3; 3; 3; 4; 4; 4; 5; 5;
  0; 1; 1; 1; 2; 2; 3; 3; 3; 4; 4; 4; 5; 5; 5; 6;
  0; 0; 1; 1; 2; 2; 2; 3; 3; 3; 4; 4; 4; 5; 5; 5;
  0; 0; 0; 1; 1; 2; 2; 2; 3; 3; 3; 4; 4; 4; 5; 5;
  0; 1; 1; 1; 2; 2; 3; 3; 3; 4; 4; 4; 5; 5; 5; 6;
  0; 0; 1; 1; 1; 2; 2; 2; 3; 3; 4; 4; 4; 5; 5; 5;
  0; 0; 0; 1; 1; 1; 2; 2; 2; 3; 3; 3; 4; 4; 4; 5;
  0; 1; 1; 1; 2; 2; 2; 3; 3; 3; 4; 4; 4; 5; 5; 5;
  0; 0; 0; 1; 1; 1; 2; 2; 3; 3; 3; 4; 4; 4; 5; 5;
  0; 1; 1; 1; 2; 2; 2; 3; 3; 3; 4; 4; 4; 5; 5; 5;
  0; 0; 0; 1; 1; 1; 2; 2; 3; 3; 3; 4; 4; 4; 5; 5;
  0; 1; 1; 1; 2; 2; 2; 3; 3; 3; 4; 4; 4; 5; 5; 5;
  0; 0; 0; 1; 1; 1; 2; 2; 2; 3; 3; 3; 4; 4; 4; 5;
  0; 1; 1; 1; 2; 2; 2; 3; 3; 3; 4; 4; 4; 5; 5; 5;
  0; 0; 0; 1; 1; 1; 2; 2; 2; 3; 3; 3; 4; 4; 4; 5;
  0; 0; 1; 1; 1; 2; 2; 2; 3; 3; 3; 4; 4; 4; 5; 5;
  0; 1; 1; 1; 2; 2; 2; 3; 3; 3; 4; 4; 4; 5; 5; 5;
  0; 0; 0; 1; 1; 1; 2; 2; 2; 3; 3; 3; 4; 4; 4; 5;
  0; 0; 1; 1; 1; 2; 2; 2; 3; 3; 3; 4; 4; 4; 5; 5;
  0; 1; 1; 1; 2; 2; 2; 3; 3; 3; 4; 4; 4; 5; 5; 5;
  0; 0; 0; 1; 1; 1; 2; 2; 2; 3; 3; 3; 4; 4; 4; 5;
  0; 0; 1; 1; 1; 2; 2; 2; 3; 3; 3; 4; 4; 4; 5; 5;
  0; 1; 1; 1; 2; 2; 2; 3; 3; 3; 3; 4; 4; 4; 5; 5;
  0; 1; 1; 1; 2; 2; 2; 3; 3; 3; 4; 4; 4; 5; 5; 5;
  0; 0; 0; 1; 1; 1; 2; 2; 2; 3; 3; 3; 4; 4; 4; 5;
  0; 0; 1; 1; 1; 1; 2; 2; 2; 3; 3; 3; 4; 4; 4; 5;
  0; 0; 1; 1; 1; 2; 2; 2; 3; 3; 3; 4; 4; 4; 5; 5;
  0; 1; 1; 1; 1; 2; 2; 2; 3; 3; 3; 4; 4; 4; 5; 5;
  0; 1; 1; 1; 2; 2; 2; 3; 3; 3; 4; 4; 4; 4; 5; 5;
  0; 1; 1; 1; 2; 2; 2; 3; 3; 3; 4; 4; 4; 5; 5; 5;
  0; 0; 0; 0; 1; 1; 1; 2; 2; 2; 3; 3; 3; 4; 4; 4;
  0; 0; 0; 1; 1; 1; 2; 2; 2; 2; 3; 3; 3; 4; 4; 4;
  0; 0; 0; 1; 1; 1; 2; 2; 2; 2; 3; 3; 3; 4; 4; 4;
  0; 0; 0; 1; 1; 1; 2; 2; 2; 3; 3; 3; 3; 4; 4; 4;
  0; 0; 0; 1; 1; 1; 2; 2; 2; 3; 3; 3; 3; 4; 4; 4;
  0; 0; 0; 1; 1; 1; 2; 2; 2; 3; 3; 3; 3; 4; 4; 4;
  0; 0; 0; 1; 1; 1; 2; 2; 2; 2; 3; 3; 3; 4; 4; 4;
  0; 0; 0; 1; 1; 1; 1; 2; 2; 2; 3; 3; 3; 4; 4; 4;
  0; 0; 0; 0; 1; 1; 1; 2; 2; 2; 3; 3; 3; 4; 4; 4;
  0; 1; 1; 1; 2; 2; 2; 3; 3; 3; 4; 4; 4; 4; 5; 5;
  0; 1; 1; 1; 2; 2; 2; 3; 3; 3; 3; 4; 4; 4; 5; 5;
  0; 1; 1; 1; 1; 2; 2; 2; 3; 3; 3; 4; 4; 4; 5; 5
].

Definition ExpNegativeDelta_11 : list Z := [
  0; 1; 2; 2; 3; 3; 4; 5; 5; 6; 6; 7; 8; 8; 9; 9;
  0; 1; 1; 2; 2; 3; 4; 4; 5; 5; 6; 7; 7; 8; 8; 9;
  0; 0; 1; 1; 2; 3; 3; 4; 4; 5; 6; 6; 7; 7; 8; 9;
  0; 1; 1; 2; 3; 3; 4; 4; 5; 6; 6; 7; 7; 8; 8; 9;
  0; 0; 1; 1; 2; 3; 3; 4; 4; 5; 5; 6; 7; 7; 8; 8;
  0; 1; 1; 2; 2; 3; 3; 4; 5; 5; 6; 6; 7; 8; 8; 9;
  0; 1; 1; 2; 3; 3; 4; 4; 5; 5; 6; 7; 7; 8; 8; 9;
  0; 0; 1; 1; 2; 2; 3; 4; 4; 5; 5; 6; 6; 7; 8; 8;
  0; 0; 1; 1; 2; 2; 3; 4; 4; 5; 5; 6; 6; 7; 8; 8;
  0; 0; 1; 1; 2; 3; 3; 4; 4; 5; 5; 6; 6; 7; 8; 8;
  0; 0; 1; 1; 2; 3; 3; 4; 4; 5; 5; 6; 6; 7; 8; 8;
  0; 0; 1; 1; 2; 2; 3; 4; 4; 5; 5; 6; 6; 7; 7; 8;
  0; 0; 1; 1; 2; 2; 3; 3; 4; 4; 5; 6; 6; 7; 7; 8;
  0; 1; 1; 2; 3; 3; 4; 4; 5; 5; 6; 6; 7; 7; 8; 9;
  0; 1; 1; 2; 2; 3; 3; 4; 4; 5; 5; 6; 7; 7; 8; 8;
  0; 0; 1; 1; 2; 2; 3; 3; 4; 5; 5; 6; 6; 7; 7; 8;
  0; 1; 1; 2; 2; 3; 4; 4; 5; 5; 6; 6; 7; 7; 8; 8;
  0; 0; 1; 1; 2; 2; 3; 4; 4; 5; 5; 6; 6; 7; 7; 8;
  0; 1; 1; 2; 2; 3; 3; 4; 5; 5; 6; 6; 7; 7; 8; 8;
  0; 0; 1; 1; 2; 2; 3; 3; 4; 4; 5; 5; 6; 6; 7; 8;
  0; 1; 1; 2; 2; 3; 3; 4; 4; 5; 5; 6; 6; 7; 7; 8;
  0; 1; 1; 2; 2; 3; 3; 4; 4; 5; 5; 6; 6; 7; 7; 8;
  0; 1; 2; 2; 3; 3; 4; 4; 5; 5; 6; 6; 7; 7; 8; 8;
  0; 0; 1; 1; 2; 2; 3; 3; 4; 4; 5; 5; 6; 6; 7; 7;
  0; 0; 1; 1; 2; 2; 3; 3; 4; 4; 5; 5; 6; 7; 8; 9;
  0; 1; 2; 3; 4; 5; 6; 7; 8; 9; 10; 11; 12; 13; 14; 15;
  0; 1; 2; 3; 4; 5; 6; 7; 8; 9; 10; 11; 12; 13; 14; 15;
  0; 1; 2; 3; 4; 5; 6; 7; 8; 9; 10; 11; 12; 13; 14; 15;
  0; 1; 2; 3; 4; 5; 6; 7; 8; 8; 9; 10; 11; 12; 13; 14;
  0; 1; 2; 3; 4; 5; 6; 7; 8; 9; 10; 11; 12; 13; 14; 15;
  0; 1; 2; 3; 4; 4; 5; 6; 7; 8; 9; 10; 11; 12; 13; 14;
  0; 1; 2; 3; 4; 5; 6; 7; 8; 9; 9; 10; 11; 12; 13; 14;
  0; 1; 2; 3; 4; 5; 6; 7; 8; 9; 10; 10; 11; 12; 13; 14;
  0; 1; 2; 3; 4; 5; 6; 7; 8; 9; 10; 10; 11; 12; 13; 14;
  0; 1; 2; 3; 4; 5; 6; 7; 8; 8; 9; 10; 11; 12; 13; 14;
  0; 1; 2; 3; 4; 5; 5; 6; 7; 8; 9; 10; 11; 12; 13; 14;
  0; 1; 1; 2; 3; 4; 5; 6; 7; 8; 9; 10; 11; 11; 12; 13;
  0; 1; 2; 3; 4; 5; 6; 7; 7; 8; 9; 10; 11; 12; 13; 14;
  0; 1; 1; 2; 3; 4; 5; 6; 7; 8; 9; 10; 10; 11; 12; 13;
  0; 1; 2; 3; 4; 5; 5; 6; 7; 8; 9; 10; 11; 12; 13; 13;
  0; 1; 2; 3; 4; 5; 6; 6; 7; 8; 9; 10; 11; 12; 13; 14;
  0; 1; 2; 3; 4; 5; 6; 7; 7; 8; 9; 10; 11; 12; 13; 14;
  0; 1; 2; 3; 4; 5; 6; 7; 7; 8; 9; 10; 11; 12; 13; 14;
  0; 1; 2; 3; 4; 5; 6; 6; 7; 8; 9; 10; 11; 12; 12; 13;
  0; 1; 2; 3; 4; 4; 5; 6; 7; 8; 9; 10; 10; 11; 12; 13;
  0; 1; 2; 2; 3; 4; 5; 6; 7; 8; 8; 9; 10; 11; 12; 13;
  0; 1; 2; 3; 4; 5; 6; 6; 7; 8; 9; 10; 11; 11; 12; 13;
  0; 1; 2; 2; 3; 4; 5; 6; 7; 8; 8; 9; 10; 11; 12; 13;
  0; 1; 2; 3; 4; 5; 5; 6; 7; 8; 9; 10; 10; 11; 12; 13;
  0; 0; 1; 2; 3; 4; 5; 5; 6; 7; 8; 9; 10; 10; 11; 12;
  0; 1; 1; 2; 3; 4; 5; 6; 6; 7; 8; 9; 10; 10; 11; 12;
  0; 1; 2; 2; 3; 4; 5; 6; 6; 7; 8; 9; 10; 10; 11; 12;
  0; 1; 1; 2; 3; 4; 5; 6; 6; 7; 8; 9; 10; 10; 11; 12;
  0; 1; 1; 2; 3; 4; 5; 5; 6; 7; 8; 9; 9; 10; 11; 12;
  0; 0; 1; 2; 3; 3; 4; 5; 6; 7; 7; 8; 9; 10; 11; 11;
  0; 1; 2; 3; 3; 4; 5; 6; 6; 7; 8; 9; 10; 10; 11; 12;
  0; 1; 1; 2; 3; 4; 4; 5; 6; 7; 8; 8; 9; 10; 11; 11;
  0; 1; 2; 3; 3; 4; 5; 6; 6; 7; 8; 9; 10; 10; 11; 12;
  0; 0; 1; 2; 3; 3; 4; 5; 6; 7; 7; 8; 9; 10; 10; 11;
  0; 1; 1; 2; 3; 4; 4; 5; 6; 7; 8; 8; 9; 10; 11; 11;
  0; 1; 2; 2; 3; 4; 5; 5; 6; 7; 8; 8; 9; 10; 11; 11;
  0; 1; 2; 2; 3; 4; 5; 5; 6; 7; 8; 8; 9; 10; 11; 11;
  0; 1; 2; 2; 3; 4; 5; 5; 6; 7; 8; 8; 9; 10; 11; 11;
  0; 1; 2; 2; 3; 4; 5; 5; 6; 7; 7; 8; 9; 10; 10; 11
].

Definition ExpNegativeDelta_12 : list Z := [
  0; 1; 3; 4; 6; 7; 8; 10; 11; 13; 14; 16; 17; 19; 20; 22;
  0; 1; 3; 4; 6; 7; 9; 10; 12; 13; 14; 16; 17; 19; 20; 22;
  0; 1; 3; 4; 6; 7; 8; 10; 11; 13; 14; 16; 17; 18; 20; 21;
  0; 1; 2; 4; 5; 7; 8; 9; 11; 12; 14; 15; 16; 18; 19; 20;
  0; 1; 3; 4; 5; 7; 8; 9; 11; 12; 14; 15; 16; 18; 19; 20;
  0; 1; 2; 4; 5; 7; 8; 9; 11; 12; 13; 15; 16; 17; 19; 20;
  0; 2; 3; 4; 6; 7; 8; 10; 11; 12; 14; 15; 16; 18; 19; 20;
  0; 1; 2; 4; 5; 6; 7; 9; 10; 11; 13; 14; 15; 17; 18; 19;
  0; 1; 2; 3; 5; 6; 7; 9; 10; 11; 12; 14; 15; 16; 18; 19;
  0; 1; 3; 4; 5; 6; 8; 9; 10; 12; 13; 14; 15; 17; 18; 19;
  0; 2; 3; 4; 5; 7; 8; 9; 10; 12; 13; 14; 15; 17; 18; 19;
  0; 2; 3; 4; 5; 7; 8; 9; 10; 11; 13; 14; 15; 16; 18; 19;
  0; 1; 2; 4; 5; 6; 7; 9; 10; 11; 12; 13; 15; 16; 17; 18;
  0; 2; 3; 4; 5; 6; 8; 9; 10; 11; 12; 13; 15; 16; 17; 18;
  0; 2; 3; 4; 5; 6; 7; 9; 10; 11; 12; 13; 14; 16; 17; 18;
  0; 1; 2; 4; 5; 6; 7; 8; 9; 11; 12; 13; 14; 15; 16; 17;
  0; 1; 2; 3; 4; 5; 6; 8; 9; 10; 11; 12; 13; 14; 16; 17;
  0; 1; 2; 3; 4; 5; 7; 8; 9; 10; 11; 12; 13; 14; 15; 17;
  0; 1; 2; 3; 4; 5; 6; 7; 9; 10; 11; 12; 13; 14; 15; 16;
  0; 1; 2; 4; 5; 6; 7; 8; 9; 10; 11; 12; 13; 14; 15; 17;
  0; 1; 2; 3; 4; 5; 6; 7; 8; 9; 10; 11; 12; 14; 15; 16;
  0; 1; 2; 3; 4; 5; 6; 7; 8; 9; 10; 11; 12; 13; 14; 15;
  0; 1; 2; 3; 4; 5; 6; 7; 8; 9; 10; 11; 12; 13; 14; 15;
  0; 1; 2; 3; 4; 5; 6; 7; 8; 9; 10; 11; 12; 13; 14; 15;
  0; 1; 2; 3; 4; 5; 6; 7; 8; 9; 10; 12; 14; 16; 18; 20;
  0; 2; 4; 6; 8; 10; 12; 14; 16; 18; 20; 22; 24; 26; 28; 29;
  0; 2; 4; 6; 8; 10; 12; 14; 16; 18; 20; 22; 24; 26; 28; 30;
  0; 1; 3; 5; 7; 9; 11; 13; 15; 17; 19; 21; 23; 24; 26; 28;
  0; 2; 4; 6; 8; 10; 11; 13; 15; 17; 19; 21; 23; 25; 27; 28;
  0; 2; 4; 6; 8; 10; 11; 13; 15; 17; 19; 21; 23; 24; 26; 28;
  0; 2; 4; 5; 7; 9; 11; 13; 15; 16; 18; 20; 22; 24; 26; 27;
  0; 2; 4; 6; 7; 9; 11; 13; 15; 16; 18; 20; 22; 24; 25; 27;
  0; 2; 3; 5; 7; 9; 11; 12; 14; 16; 18; 19; 21; 23; 25; 26;
  0; 2; 4; 5; 7; 9; 11; 12; 14; 16; 18; 19; 21; 23; 25; 26;
  0; 2; 4; 5; 7; 9; 10; 12; 14; 16; 17; 19; 21; 22; 24; 26;
  0; 1; 3; 5; 6; 8; 10; 11; 13; 15; 16; 18; 20; 22; 23; 25;
  0; 1; 3; 5; 6; 8; 10; 11; 13; 15; 16; 18; 20; 21; 23; 24;
  0; 2; 3; 5; 7; 8; 10; 12; 13; 15; 17; 18; 20; 21; 23; 25;
  0; 2; 4; 5; 7; 8; 10; 12; 13; 15; 16; 18; 20; 21; 23; 24;
  0; 2; 3; 5; 6; 8; 10; 11; 13; 14; 16; 18; 19; 21; 22; 24;
  0; 2; 4; 5; 7; 8; 10; 11; 13; 15; 16; 18; 19; 21; 22; 24;
  0; 2; 4; 5; 7; 8; 10; 11; 13; 14; 16; 17; 19; 20; 22; 24;
  0; 2; 3; 5; 6; 8; 9; 11; 12; 14; 15; 17; 18; 20; 21; 23;
  0; 2; 3; 5; 6; 8; 9; 11; 12; 14; 15; 17; 18; 20; 21; 23;
  0; 2; 3; 5; 6; 7; 9; 10; 12; 13; 15; 16; 18; 19; 21; 22;
  0; 1; 2; 4; 5; 7; 8; 10; 11; 13; 14; 16; 17; 18; 20; 21;
  0; 1; 3; 4; 5; 7; 8; 10; 11; 13; 14; 15; 17; 18; 20; 21;
  0; 2; 3; 5; 6; 7; 9; 10; 12; 13; 14; 16; 17; 19; 20; 21;
  0; 1; 3; 4; 5; 7; 8; 10; 11; 12; 14; 15; 16; 18; 19; 21;
  0; 1; 3; 4; 5; 7; 8; 9; 11; 12; 13; 15; 16; 18; 19; 20;
  0; 1; 2; 4; 5; 6; 8; 9; 10; 12; 13; 14; 16; 17; 18; 20;
  0; 1; 3; 4; 5; 7; 8; 9; 11; 12; 13; 14; 16; 17; 18; 20;
  0; 1; 3; 4; 5; 7; 8; 9; 10; 12; 13; 14; 16; 17; 18; 19;
  0; 1; 2; 4; 5; 6; 7; 9; 10; 11; 12; 14; 15; 16; 18; 19;
  0; 1; 3; 4; 5; 6; 8; 9; 10; 11; 13; 14; 15; 16; 18; 19;
  0; 1; 3; 4; 5; 6; 8; 9; 10; 11; 13; 14; 15; 16; 17; 19;
  0; 1; 2; 4; 5; 6; 7; 8; 10; 11; 12; 13; 15; 16; 17; 18;
  0; 2; 3; 4; 5; 6; 8; 9; 10; 11; 12; 14; 15; 16; 17; 18;
  0; 1; 2; 3; 4; 5; 7; 8; 9; 10; 11; 13; 14; 15; 16; 17;
  0; 2; 3; 4; 5; 6; 7; 9; 10; 11; 12; 13; 14; 16; 17; 18;
  0; 1; 2; 3; 5; 6; 7; 8; 9; 10; 11; 13; 14; 15; 16; 17;
  0; 1; 3; 4; 5; 6; 7; 8; 9; 10; 12; 13; 14; 15; 16; 17;
  0; 1; 2; 4; 5; 6; 7; 8; 9; 10; 11; 12; 14; 15; 16; 17;
  0; 1; 2; 3; 4; 5; 7; 8; 9; 10; 11; 12; 13; 14; 15; 16
].

Definition ExpNegativeDelta_13 : list Z := [
  0; 3; 5; 7; 9; 11; 13; 16; 18; 20; 22; 24; 26; 28; 30; 32;
  0; 2; 4; 6; 8; 10; 12; 14; 16; 18; 20; 22; 24; 26; 28; 31;
  0; 2; 4; 6; 8; 10; 12; 14; 16; 20; 24; 28; 32; 36; 40; 44;
  0; 4; 8; 12; 16; 20; 24; 27; 31; 35; 39; 43; 47; 51; 54; 58;
  0; 4; 8; 11; 15; 19; 23; 27; 30; 34; 38; 42; 45; 49; 53; 56;
  0; 4; 7; 11; 15; 19; 22; 26; 29; 33; 37; 40; 44; 48; 51; 55;
  0; 4; 8; 11; 15; 18; 22; 25; 29; 32; 36; 39; 43; 46; 50; 53;
  0; 3; 7; 10; 14; 17; 21; 24; 27; 31; 34; 38; 41; 44; 48; 51;
  0; 3; 6; 10; 13; 16; 20; 23; 26; 30; 33; 36; 39; 43; 46; 49;
  0; 3; 6; 9; 13; 16; 19; 22; 25; 29; 32; 35; 38; 41; 45; 48;
  0; 3; 6; 9; 13; 16; 19; 22; 25; 28; 31; 34; 37; 41; 44; 47;
  0; 3; 6; 9; 12; 15; 18; 21; 24; 27; 30; 33; 36; 39; 42; 45;
  0; 3; 6; 9; 12; 15; 18; 21; 24; 27; 29; 32; 35; 38; 41; 44;
  0; 3; 6; 8; 11; 14; 17; 20; 23; 26; 28; 31; 34; 37; 40; 42;
  0; 3; 6; 9; 11; 14; 17; 20; 22; 25; 28; 31; 33; 36; 39; 41;
  0; 3; 6; 8; 11; 14; 16; 19; 22; 24; 27; 30; 32; 35; 37; 40;
  0; 2; 5; 8; 10; 13; 15; 18; 21; 23; 26; 28; 31; 33; 36; 38;
  0; 3; 5; 8; 10; 13; 15; 18; 20; 23; 25; 28; 30; 33; 35; 38;
  0; 3; 5; 7; 10; 12; 15; 17; 20; 22; 24; 27; 29; 32; 34; 36;
  0; 2; 5; 7; 9; 12; 14; 16; 19; 21; 23; 26; 28; 31; 33; 35;
  0; 3; 5; 7; 10; 12; 14; 17; 19; 21; 23; 26; 28; 30; 32; 35;
  0; 2; 4; 7; 9; 11; 13; 15; 18; 20; 22; 24; 27; 29; 31; 33;
  0; 2; 5; 7; 9; 11; 13; 15; 17; 20; 22; 24; 26; 28; 30; 32;
  0; 3; 5; 7; 9; 11; 13; 15; 17; 19; 21; 23; 25; 28; 30; 32;
  0; 2; 4; 6; 8; 10; 12; 14; 16; 18; 20; 23; 27; 31; 35; 39;
  0; 4; 8; 11; 15; 19; 23; 27; 31; 35; 39; 43; 47; 50; 54; 58;
  0; 4; 8; 11; 15; 19; 23; 27; 30; 34; 38; 42; 45; 49; 53; 57;
  0; 4; 8; 12; 15; 19; 23; 26; 30; 34; 37; 41; 44; 48; 52; 55;
  0; 4; 7; 11; 14; 18; 21; 25; 29; 32; 36; 39; 43; 46; 50; 53;
  0; 3; 7; 10; 14; 17; 21; 24; 27; 31; 34; 38; 41; 45; 48; 51;
  0; 3; 7; 10; 13; 17; 20; 23; 27; 30; 33; 37; 40; 43; 46; 50;
  0; 3; 7; 10; 13; 16; 20; 23; 26; 29; 33; 36; 39; 42; 45; 49;
  0; 3; 6; 9; 12; 16; 19; 22; 25; 28; 31; 34; 37; 41; 44; 47;
  0; 3; 6; 9; 12; 15; 18; 21; 24; 27; 30; 33; 36; 39; 42; 45;
  0; 3; 6; 9; 12; 15; 18; 21; 24; 27; 30; 33; 36; 39; 42; 45;
  0; 3; 6; 9; 12; 15; 18; 21; 23; 26; 29; 32; 35; 38; 40; 43;
  0; 3; 6; 8; 11; 14; 17; 20; 22; 25; 28; 31; 33; 36; 39; 42;
  0; 3; 6; 8; 11; 14; 17; 19; 22; 25; 27; 30; 33; 35; 38; 41;
  0; 3; 5; 8; 11; 13; 16; 18; 21; 24; 26; 29; 31; 34; 37; 39;
  0; 2; 5; 7; 10; 12; 15; 17; 20; 22; 25; 27; 30; 32; 35; 37;
  0; 2; 5; 7; 10; 12; 15; 17; 20; 22; 24; 27; 29; 32; 34; 37;
  0; 2; 5; 7; 10; 12; 14; 17; 19; 21; 24; 26; 28; 31; 33; 35;
  0; 2; 4; 7; 9; 11; 14; 16; 18; 21; 23; 25; 27; 30; 32; 34;
  0; 3; 5; 7; 9; 12; 14; 16; 18; 21; 23; 25; 27; 29; 32; 34;
  0; 2; 4; 6; 9; 11; 13; 15; 17; 19; 22; 24; 26; 28; 30; 32;
  0; 2; 5; 7; 9; 11; 13; 15; 17; 19; 21; 23; 25; 28; 30; 32;
  0; 2; 4; 6; 8; 10; 12; 14; 16; 18; 20; 22; 24; 26; 29; 33;
  0; 4; 8; 12; 16; 20; 24; 28; 32; 36; 40; 43; 47; 51; 55; 59;
  0; 4; 8; 11; 15; 19; 23; 27; 30; 34; 38; 42; 46; 49; 53; 57;
  0; 3; 7; 11; 15; 18; 22; 26; 29; 33; 37; 40; 44; 48; 51; 55;
  0; 3; 7; 10; 14; 18; 21; 25; 28; 32; 35; 39; 42; 46; 50; 53;
  0; 3; 7; 10; 14; 17; 21; 24; 27; 31; 34; 38; 41; 45; 48; 52;
  0; 3; 7; 10; 13; 17; 20; 24; 27; 30; 34; 37; 40; 44; 47; 50;
  0; 3; 6; 9; 13; 16; 19; 23; 26; 29; 32; 35; 39; 42; 45; 48;
  0; 3; 6; 9; 12; 15; 19; 22; 25; 28; 31; 34; 37; 41; 44; 47;
  0; 3; 6; 9; 12; 15; 18; 21; 25; 28; 31; 34; 37; 40; 43; 46;
  0; 3; 6; 9; 12; 15; 18; 21; 24; 27; 30; 32; 35; 38; 41; 44;
  0; 3; 6; 9; 12; 15; 17; 20; 23; 26; 29; 32; 35; 37; 40; 43;
  0; 3; 6; 8; 11; 14; 17; 20; 22; 25; 28; 31; 33; 36; 39; 42;
  0; 3; 6; 9; 11; 14; 17; 19; 22; 25; 27; 30; 33; 36; 38; 41;
  0; 3; 6; 8; 11; 14; 16; 19; 22; 24; 27; 29; 32; 35; 37; 40;
  0; 3; 5; 8; 11; 13; 16; 18; 21; 23; 26; 28; 31; 33; 36; 38;
  0; 2; 5; 7; 10; 12; 15; 17; 20; 22; 24; 27; 29; 32; 34; 37;
  0; 2; 5; 7; 10; 12; 14; 17; 19; 22; 24; 26; 29; 31; 33; 36
].

Definition ExpNegativeDelta_14 : list Z := [
  0; 5; 10; 14; 19; 23; 28; 33; 37; 42; 46; 51; 55; 60; 64; 68;
  0; 4; 9; 13; 17; 22; 26; 30; 34; 39; 43; 47; 51; 55; 60; 64;
  0; 4; 8; 12; 16; 20; 24; 28; 34; 42; 50; 57; 65; 73; 81; 89;
  0; 7; 15; 23; 30; 38; 45; 53; 61; 68; 75; 83; 90; 98; 105; 112;
  0; 7; 14; 21; 29; 36; 43; 50; 57; 64; 71; 78; 85; 92; 99; 106;
  0; 7; 14; 21; 28; 34; 41; 48; 54; 61; 68; 74; 81; 87; 94; 100;
  0; 7; 13; 20; 26; 32; 39; 45; 51; 57; 63; 70; 76; 82; 88; 94;
  0; 6; 12; 18; 24; 30; 36; 42; 48; 53; 59; 65; 71; 77; 82; 88;
  0; 5; 11; 16; 22; 28; 33; 39; 44; 50; 55; 61; 66; 71; 77; 82;
  0; 6; 11; 16; 22; 27; 32; 37; 42; 48; 53; 58; 63; 68; 73; 78;
  0; 5; 10; 15; 20; 25; 30; 35; 39; 44; 49; 54; 59; 63; 68; 73;
  0; 4; 9; 14; 18; 23; 27; 32; 37; 41; 46; 50; 55; 59; 64; 68;
  0; 5; 9; 14; 18; 22; 27; 31; 35; 39; 44; 48; 52; 56; 61; 65;
  0; 4; 8; 12; 16; 20; 24; 28; 33; 37; 44; 52; 60; 68; 76; 84;
  0; 8; 16; 24; 31; 39; 46; 54; 62; 69; 77; 84; 92; 99; 106; 114;
  0; 7; 15; 22; 29; 36; 43; 51; 58; 65; 72; 79; 86; 93; 100; 107;
  0; 6; 13; 20; 27; 34; 40; 47; 54; 60; 67; 74; 80; 87; 93; 100;
  0; 7; 13; 19; 26; 32; 38; 45; 51; 57; 63; 70; 76; 82; 88; 94;
  0; 6; 12; 18; 24; 30; 36; 42; 48; 54; 60; 66; 71; 77; 83; 89;
  0; 6; 12; 17; 23; 29; 34; 40; 45; 51; 56; 62; 67; 73; 78; 83;
  0; 5; 10; 16; 21; 26; 31; 37; 42; 47; 52; 57; 63; 68; 73; 78;
  0; 5; 10; 15; 20; 25; 30; 34; 39; 44; 49; 54; 59; 64; 68; 73;
  0; 4; 9; 14; 19; 23; 28; 32; 37; 42; 46; 51; 55; 60; 64; 69;
  0; 4; 9; 13; 18; 22; 26; 31; 35; 39; 44; 48; 52; 56; 60; 65;
  0; 4; 8; 12; 16; 20; 25; 29; 33; 37; 41; 46; 54; 62; 70; 78;
  0; 8; 16; 23; 31; 39; 46; 54; 62; 69; 77; 84; 92; 99; 107; 114;
  0; 8; 15; 22; 30; 37; 44; 51; 58; 66; 73; 80; 87; 94; 101; 108;
  0; 7; 13; 20; 27; 34; 41; 47; 54; 61; 67; 74; 81; 87; 94; 100;
  0; 6; 13; 19; 26; 32; 38; 45; 51; 57; 63; 70; 76; 82; 88; 94;
  0; 6; 12; 18; 24; 30; 36; 42; 48; 53; 59; 65; 71; 77; 83; 88;
  0; 6; 12; 17; 23; 28; 34; 40; 45; 51; 56; 62; 67; 73; 78; 84;
  0; 5; 11; 16; 21; 27; 32; 37; 42; 48; 53; 58; 63; 68; 73; 78;
  0; 6; 11; 16; 21; 26; 30; 35; 40; 45; 50; 55; 60; 65; 69; 74;
  0; 5; 9; 14; 19; 23; 28; 33; 37; 42; 47; 51; 56; 60; 65; 69;
  0; 4; 8; 13; 17; 22; 26; 30; 35; 39; 43; 48; 52; 56; 60; 65;
  0; 4; 8; 12; 16; 21; 25; 29; 33; 37; 41; 45; 49; 57; 65; 73;
  0; 8; 15; 23; 31; 39; 46; 54; 62; 69; 77; 84; 92; 99; 107; 114;
  0; 7; 15; 22; 29; 36; 44; 51; 58; 65; 72; 79; 87; 94; 101; 108;
  0; 7; 13; 20; 27; 34; 41; 48; 54; 61; 68; 74; 81; 88; 94; 101;
  0; 7; 13; 20; 26; 33; 39; 45; 52; 58; 64; 71; 77; 83; 89; 96;
  0; 6; 12; 18; 24; 30; 36; 42; 48; 54; 60; 66; 72; 77; 83; 89;
  0; 6; 11; 17; 23; 28; 34; 40; 45; 51; 56; 62; 67; 73; 78; 84;
  0; 6; 11; 16; 22; 27; 32; 38; 43; 48; 53; 58; 64; 69; 74; 79;
  0; 5; 10; 15; 20; 25; 30; 35; 40; 45; 50; 55; 60; 65; 69; 74;
  0; 5; 10; 14; 19; 24; 28; 33; 38; 42; 47; 51; 56; 61; 65; 70;
  0; 5; 9; 14; 18; 22; 27; 31; 35; 40; 44; 48; 53; 57; 61; 66;
  0; 4; 8; 12; 16; 21; 25; 29; 33; 37; 41; 45; 49; 53; 59; 67;
  0; 8; 16; 24; 32; 39; 47; 55; 63; 70; 78; 86; 93; 101; 108; 116;
  0; 8; 15; 22; 30; 37; 44; 51; 59; 66; 73; 80; 87; 94; 101; 109;
  0; 6; 13; 20; 27; 34; 41; 48; 55; 61; 68; 75; 81; 88; 95; 101;
  0; 6; 13; 20; 26; 32; 39; 45; 52; 58; 64; 71; 77; 83; 89; 96;
  0; 6; 12; 18; 24; 30; 36; 42; 48; 54; 60; 66; 72; 78; 84; 90;
  0; 6; 12; 18; 23; 29; 35; 40; 46; 52; 57; 63; 68; 74; 79; 85;
  0; 6; 11; 17; 22; 27; 33; 38; 43; 48; 54; 59; 64; 69; 75; 80;
  0; 5; 10; 15; 20; 25; 30; 35; 40; 45; 50; 55; 60; 65; 69; 74;
  0; 5; 10; 14; 19; 24; 29; 33; 38; 43; 47; 52; 56; 61; 66; 70;
  0; 4; 9; 13; 18; 22; 26; 31; 35; 40; 44; 48; 53; 57; 61; 65;
  0; 4; 8; 12; 16; 21; 25; 29; 33; 37; 41; 45; 49; 53; 57; 62;
  0; 8; 16; 24; 31; 39; 47; 55; 63; 70; 78; 86; 93; 101; 108; 116;
  0; 8; 15; 23; 30; 37; 45; 52; 59; 66; 74; 81; 88; 95; 102; 109;
  0; 7; 14; 21; 28; 35; 42; 49; 56; 63; 69; 76; 83; 89; 96; 103;
  0; 7; 14; 20; 27; 33; 40; 46; 52; 59; 65; 72; 78; 84; 90; 97;
  0; 6; 12; 18; 24; 31; 37; 43; 49; 55; 61; 67; 73; 78; 84; 90;
  0; 6; 12; 17; 23; 29; 35; 40; 46; 52; 57; 63; 68; 74; 79; 85
].

Definition ExpNegativeDelta_15 : list Z := [
  0; 11; 22; 32; 43; 53; 64; 74; 85; 95; 105; 115; 125; 135; 145; 154;
  0; 10; 19; 29; 38; 47; 56; 66; 75; 84; 93; 101; 110; 119; 128; 136;
  0; 8; 17; 25; 33; 41; 50; 58; 68; 84; 100; 116; 131; 146; 162; 177;
  0; 15; 30; 44; 59; 73; 88; 102; 116; 130; 144; 158; 172; 185; 199; 212;
  0; 14; 27; 40; 53; 65; 78; 91; 103; 115; 128; 140; 152; 164; 176; 188;
  0; 12; 24; 35; 46; 58; 69; 80; 91; 102; 113; 124; 134; 145; 155; 166;
  0; 10; 21; 31; 41; 51; 60; 70; 80; 90; 99; 109; 118; 127; 137; 146;
  0; 9; 18; 27; 36; 45; 53; 62; 71; 79; 88; 96; 104; 112; 121; 129;
  0; 13; 28; 44; 60; 75; 91; 106; 121; 136; 151; 166; 180; 195; 209; 224;
  0; 14; 28; 42; 56; 69; 83; 97; 110; 123; 136; 149; 162; 175; 188; 201;
  0; 13; 25; 37; 49; 61; 73; 85; 97; 109; 120; 132; 143; 155; 166; 177;
  0; 11; 22; 33; 44; 54; 65; 75; 86; 96; 106; 116; 126; 136; 146; 156;
  0; 10; 19; 29; 38; 48; 57; 66; 75; 85; 94; 103; 111; 120; 129; 138;
  0; 9; 17; 26; 34; 43; 51; 59; 67; 75; 83; 91; 99; 107; 114; 122;
  0; 7; 15; 22; 29; 37; 44; 51; 58; 65; 73; 80; 86; 93; 100; 107;
  0; 6; 13; 19; 26; 32; 39; 45; 52; 58; 64; 70; 76; 82; 88; 94;
  0; 6; 12; 18; 23; 29; 35; 40; 46; 52; 57; 62; 68; 73; 79; 84;
  0; 5; 10; 15; 21; 26; 31; 36; 40; 45; 50; 55; 60; 64; 69; 74;
  0; 5; 10; 14; 19; 23; 27; 32; 36; 40; 45; 49; 53; 57; 61; 66;
  0; 4; 8; 12; 16; 19; 23; 27; 31; 35; 39; 42; 46; 50; 53; 57;
  0; 3; 7; 10; 14; 17; 21; 24; 27; 31; 34; 37; 41; 44; 47; 50;
  0; 4; 7; 10; 13; 16; 19; 22; 25; 28; 31; 34; 37; 40; 42; 45;
  0; 3; 6; 8; 11; 14; 16; 19; 22; 24; 27; 29; 32; 34; 37; 39;
  0; 2; 5; 7; 10; 12; 14; 17; 19; 21; 24; 26; 28; 30; 33; 35;
  0; 2; 4; 6; 9; 11; 13; 15; 17; 19; 21; 23; 25; 27; 29; 31;
  0; 2; 3; 5; 7; 9; 11; 13; 15; 16; 18; 20; 22; 23; 25; 27;
  0; 2; 4; 5; 7; 9; 10; 12; 14; 15; 17; 18; 20; 21; 23; 24;
  0; 1; 3; 4; 6; 7; 9; 10; 11; 13; 14; 16; 17; 18; 20; 21;
  0; 2; 3; 4; 6; 7; 8; 9; 11; 12; 13; 14; 15; 17; 18; 19;
  0; 1; 2; 4; 5; 6; 7; 8; 9; 10; 11; 12; 14; 15; 16; 17;
  0; 1; 2; 3; 4; 5; 6; 7; 8; 9; 10; 10; 11; 12; 13; 14;
  0; 1; 2; 3; 4; 5; 5; 6; 7; 8; 9; 10; 10; 11; 12; 13;
  0; 1; 1; 2; 3; 4; 4; 5; 6; 7; 7; 8; 9; 10; 10; 11;
  0; 0; 1; 2; 3; 3; 4; 5; 5; 6; 7; 7; 8; 8; 9; 10;
  0; 1; 2; 2; 3; 3; 4; 5; 5; 6; 6; 7; 7; 8; 9; 9;
  0; 0; 1; 1; 2; 2; 3; 3; 4; 4; 5; 5; 6; 6; 7; 7;
  0; 0; 1; 1; 2; 2; 3; 3; 4; 4; 5; 5; 6; 6; 6; 7;
  0; 1; 1; 2; 2; 2; 3; 3; 4; 4; 4; 5; 5; 6; 6; 6;
  0; 0; 0; 1; 1; 2; 2; 2; 3; 3; 3; 4; 4; 4; 5; 5;
  0; 1; 1; 1; 2; 2; 2; 3; 3; 3; 4; 4; 4; 4; 5; 5;
  0; 1; 1; 1; 2; 2; 2; 2; 3; 3; 3; 3; 4; 4; 4; 5;
  0; 0; 0; 1; 1; 1; 1; 2; 2; 2; 2; 3; 3; 3; 3; 3;
  0; 0; 0; 0; 1; 1; 1; 1; 1; 2; 2; 2; 2; 3; 3; 3;
  0; 0; 1; 1; 1; 1; 1; 2; 2; 2; 2; 2; 2; 3; 3; 3;
  0; 0; 1; 1; 1; 1; 1; 1; 2; 2; 2; 2; 2; 2; 3; 3;
  0; 0; 0; 0; 0; 1; 1; 1; 1; 1; 1; 2; 2; 2; 2; 2;
  0; 0; 1; 1; 1; 1; 1; 1; 1; 1; 2; 2; 2; 2; 2; 2;
  0; 0; 1; 1; 1; 1; 1; 1; 1; 1; 1; 2; 2; 2; 2; 2;
  0; 0; 0; 0; 1; 1; 1; 1; 1; 1; 1; 1; 1; 1; 2; 2;
  0; 0; 0; 0; 0; 0; 0; 0; 1; 1; 1; 1; 1; 1; 1; 1;
  0; 0; 0; 0; 1; 1; 1; 1; 1; 1; 1; 1; 1; 1; 1; 1;
  0; 1; 1; 1; 1; 1; 1; 1; 1; 1; 1; 1; 1; 1; 1; 2;
  0; 0; 0; 0; 0; 0; 0; 0; 0; 0; 0; 0; 0; 0; 0; 1;
  0; 0; 0; 0; 0; 0; 0; 0; 0; 0; 0; 0; 0; 0; 0; 0;
  0; 1; 1; 1; 1; 1; 1; 1; 1; 1; 1; 1; 1; 1; 1; 1;
  0; 0; 0; 0; 0; 0; 0; 1; 1; 1; 1; 1; 1; 1; 1; 1;
  0; 0; 0; 0; 0; 0; 0; 0; 0; 0; 0; 0; 0; 0; 0; 0;
  0; 0; 0; 0; 0; 0; 0; 0; 0; 0; 0; 0; 0; 0; 0; 0;
  0; 0; 0; 0; 0; 0; 0; 0; 0; 0; 0; 0; 0; 0; 0; 0;
  0; 0; 0; 0; 0; 0; 0; 0; 0; 0; 0; 0; 0; 0; 0; 0;
  0; 0; 0; 0; 0; 0; 0; 0; 0; 0; 0; 0; 0; 0; 0; 0;
  0; 0; 0; 0; 0; 0; 0; 0; 0; 0; 0; 0; 1; 1; 1; 1;
  0; 0; 0; 0; 0; 0; 0; 0; 0; 0; 0; 0; 0; 0; 0; 0;
  0; 0; 0; 0; 0; 0; 0; 0; 0; 0; 0; 0; 0; 0; 0; 0
].

Definition ExpNegativeDelta_16 : list Z := [
  0; 0; 0; 0; 0; 0; 0; 0; 0; 0; 0; 0; 0; 0; 1; 1;
  0; 0; 0; 0; 0; 0; 0; 0; 0; 0; 0; 0; 0; 0; 0; 0;
  0; 0; 0; 0; 0; 0; 0; 0; 0; 0; 0; 0; 0; 0; 0; 0;
  0; 0; 0; 0; 0; 0; 0; 0; 0; 0; 0; 0; 0; 0; 0; 0;
  0; 0; 0; 0; 0; 0; 0; 0; 0; 0; 0; 0; 0; 0; 0; 0;
  0; 0; 0; 0; 0
].

Definition ExpNegativeDelta : list Z :=
  ExpNegativeDelta_0 ++ ExpNegativeDelta_1 ++ ExpNegativeDelta_2 ++ ExpNegativeDelta_3 ++ ExpNegativeDelta_4 ++ ExpNegativeDelta_5 ++ 
    ExpNegativeDelta_6 ++ ExpNegativeDelta_7 ++ ExpNegativeDelta_8 ++ ExpNegativeDelta_9 ++ ExpNegativeDelta_10 ++ ExpNegativeDelta_11 ++ ExpNegativeDelta_12 ++ ExpNegativeDelta_13 ++ ExpNegativeDelta_14 ++ ExpNegativeDelta_15 ++ ExpNegativeDelta_16.

(** ** [SFURom::Reciprocal], 3072 entries *)

Definition Reciprocal_0 : list Z := [
  15360; 15358; 15356; 15354; 15352; 15350; 15348; 15346; 15344; 15342; 15340; 15338; 15336; 15334; 15332; 15330;
  15328; 15327; 15325; 15323; 15321; 15319; 15317; 15315; 15313; 15311; 15309; 15307; 15305; 15304; 15302; 15300;
  15298; 15296; 15294; 15292; 15290; 15289; 15287; 15285; 15283; 15281; 15279; 15277; 15276; 15274; 15272; 15270;
  15268; 15266; 15265; 15263; 15261; 15259; 15257; 15256; 15254; 15252; 15250; 15248; 15247; 15245; 15243; 15241;
  15240; 15238; 15236; 15234; 15232; 15231; 15229; 15227; 15225; 15224; 15222; 15220; 15219; 15217; 15215; 15213;
  15212; 15210; 15208; 15206; 15205; 15203; 15201; 15200; 15198; 15196; 15195; 15193; 15191; 15189; 15188; 15186;
  15184; 15183; 15181; 15179; 15178; 15176; 15174; 15173; 15171; 15170; 15168; 15166; 15165; 15163; 15161; 15160;
  15158; 15156; 15155; 15153; 15152; 15150; 15148; 15147; 15145; 15144; 15142; 15140; 15139; 15137; 15136; 15134;
  15132; 15131; 15129; 15128; 15126; 15125; 15123; 15121; 15120; 15118; 15117; 15115; 15114; 15112; 15111; 15109;
  15108; 15106; 15104; 15103; 15101; 15100; 15098; 15097; 15095; 15094; 15092; 15091; 15089; 15088; 15086; 15085;
  15083; 15082; 15080; 15079; 15077; 15076; 15074; 15073; 15071; 15070; 15068; 15067; 15065; 15064; 15063; 15061;
  15060; 15058; 15057; 15055; 15054; 15052; 15051; 15049; 15048; 15047; 15045; 15044; 15042; 15041; 15039; 15038;
  15037; 15035; 15034; 15032; 15031; 15030; 15028; 15027; 15025; 15024; 15023; 15021; 15020; 15018; 15017; 15016;
  15014; 15013; 15011; 15010; 15009; 15007; 15006; 15005; 15003; 15002; 15001; 14999; 14998; 14996; 14995; 14994;
  14992; 14991; 14990; 14988; 14987; 14986; 14984; 14983; 14982; 14980; 14979; 14978; 14976; 14975; 14974; 14972;
  14971; 14970; 14969; 14967; 14966; 14965; 14963; 14962; 14961; 14959; 14958; 14957; 14956; 14954; 14953; 14952;
  14950; 14949; 14948; 14947; 14945; 14944; 14943; 14941; 14940; 14939; 14938; 14936; 14935; 14934; 14933; 14931;
  14930; 14929; 14928; 14926; 14925; 14924; 14923; 14921; 14920; 14919; 14918; 14917; 14915; 14914; 14913; 14912;
  14910; 14909; 14908; 14907; 14906; 14904; 14903; 14902; 14901; 14900; 14898; 14897; 14896; 14895; 14894; 14892;
  14891; 14890; 14889; 14888; 14886; 14885; 14884; 14883; 14882; 14881; 14879; 14878; 14877; 14876; 14875; 14874;
  14872; 14871; 14870; 14869; 14868; 14867; 14865; 14864; 14863; 14862; 14861; 14860; 14859; 14857; 14856; 14855;
  14854; 14853; 14852; 14851; 14850; 14848; 14847; 14846; 14845; 14844; 14843; 14842; 14841; 14839; 14838; 14837;
  14836; 14835; 14834; 14833; 14832; 14831; 14829; 14828; 14827; 14826; 14825; 14824; 14823; 14822; 14821; 14820;
  14819; 14817; 14816; 14815; 14814; 14813; 14812; 14811; 14810; 14809; 14808; 14807; 14806; 14805; 14804; 14803;
  14801; 14800; 14799; 14798; 14797; 14796; 14795; 14794; 14793; 14792; 14791; 14790; 14789; 14788; 14787; 14786;
  14785; 14784; 14783; 14782; 14781; 14780; 14779; 14778; 14776; 14775; 14774; 14773; 14772; 14771; 14770; 14769;
  14768; 14767; 14766; 14765; 14764; 14763; 14762; 14761; 14760; 14759; 14758; 14757; 14756; 14755; 14754; 14753;
  14752; 14751; 14750; 14749; 14748; 14747; 14746; 14745; 14744; 14744; 14743; 14742; 14741; 14740; 14739; 14738;
  14737; 14736; 14735; 14734; 14733; 14732; 14731; 14730; 14729; 14728; 14727; 14726; 14725; 14724; 14723; 14722;
  14721; 14720; 14719; 14719; 14718; 14717; 14716; 14715; 14714; 14713; 14712; 14711; 14710; 14709; 14708; 14707;
  14706; 14705; 14705; 14704; 14703; 14702; 14701; 14700; 14699; 14698; 14697; 14696; 14695; 14694; 14694; 14693;
  14692; 14691; 14690; 14689; 14688; 14687; 14686; 14685; 14684; 14684; 14683; 14682; 14681; 14680; 14679; 14678;
  14677; 14676; 14676; 14675; 14674; 14673; 14672; 14671; 14670; 14669; 14669; 14668; 14667; 14666; 14665; 14664;
  14663; 14662; 14662; 14661; 14660; 14659; 14658; 14657; 14656; 14655; 14655; 14654; 14653; 14652; 14651; 14650;
  14649; 14649; 14648; 14647; 14646; 14645; 14644; 14644; 14643; 14642; 14641; 14640; 14639; 14638; 14638; 14637;
  14636; 14635; 14634; 14633; 14633; 14632; 14631; 14630; 14629; 14628; 14628; 14627; 14626; 14625; 14624; 14624;
  14623; 14622; 14621; 14620; 14619; 14619; 14618; 14617; 14616; 14615; 14615; 14614; 14613; 14612; 14611; 14611;
  14610; 14609; 14608; 14607; 14607; 14606; 14605; 14604; 14603; 14603; 14602; 14601; 14600; 14599; 14599; 14598;
  14597; 14596; 14595; 14595; 14594; 14593; 14592; 14592; 14591; 14590; 14589; 14588; 14588; 14587; 14586; 14585;
  14585; 14584; 14583; 14582; 14581; 14581; 14580; 14579; 14578; 14578; 14577; 14576; 14575; 14575; 14574; 14573;
  14572; 14572; 14571; 14570; 14569; 14569; 14568; 14567; 14566; 14566; 14565; 14564; 14563; 14563; 14562; 14561;
  14560; 14560; 14559; 14558; 14557; 14557; 14556; 14555; 14554; 14554; 14553; 14552; 14551; 14551; 14550; 14549;
  14549; 14548; 14547; 14546; 14546; 14545; 14544; 14543; 14543; 14542; 14541; 14541; 14540; 14539; 14538; 14538;
  14537; 14536; 14536; 14535; 14534; 14533; 14533; 14532; 14531; 14531; 14530; 14529; 14528; 14528; 14527; 14526;
  14526; 14525; 14524; 14524; 14523; 14522; 14521; 14521; 14520; 14519; 14519; 14518; 14517; 14517; 14516; 14515;
  14514; 14514; 14513; 14512; 14512; 14511; 14510; 14510; 14509; 14508; 14508; 14507; 14506; 14506; 14505; 14504;
  14504; 14503; 14502; 14502; 14501; 14500; 14500; 14499; 14498; 14498; 14497; 14496; 14495; 14495; 14494; 14493;
  14493; 14492; 14492; 14491; 14490; 14490; 14489; 14488; 14488; 14487; 14486; 14486; 14485; 14484; 14484; 14483;
  14482; 14482; 14481; 14480; 14480; 14479; 14478; 14478; 14477; 14476; 14476; 14475; 14475; 14474; 14473; 14473;
  14472; 14471; 14471; 14470; 14469; 14469; 14468; 14467; 14467; 14466; 14466; 14465; 14464; 14464; 14463; 14462;
  14462; 14461; 14460; 14460; 14459; 14459; 14458; 14457; 14457; 14456; 14455; 14455; 14454; 14454; 14453; 14452;
  14452; 14451; 14451; 14450; 14449; 14449; 14448; 14447; 14447; 14446; 14446; 14445; 14444; 14444; 14443; 14443;
  14442; 14441; 14441; 14440; 14440; 14439; 14438; 14438; 14437; 14436; 14436; 14435; 14435; 14434; 14433; 14433;
  14432; 14432; 14431; 14430; 14430; 14429; 14429; 14428; 14428; 14427; 14426; 14426; 14425; 14425; 14424; 14423;
  14423; 14422; 14422; 14421; 14420; 14420; 14419; 14419; 14418; 14418; 14417; 14416; 14416; 14415; 14415; 14414;
  14413; 14413; 14412; 14412; 14411; 14411; 14410; 14409; 14409; 14408; 14408; 14407; 14407; 14406; 14405; 14405;
  14404; 14404; 14403; 14403; 14402; 14401; 14401; 14400; 14400; 14399; 14399; 14398; 14397; 14397; 14396; 14396;
  14395; 14395; 14394; 14394; 14393; 14392; 14392; 14391; 14391; 14390; 14390; 14389; 14389; 14388; 14387; 14387;
  14386; 14386; 14385; 14385; 14384; 14384; 14383; 14383; 14382; 14381; 14381; 14380; 14380; 14379; 14379; 14378;
  14378; 14377; 14377; 14376; 14375; 14375; 14374; 14374; 14373; 14373; 14372; 14372; 14371; 14371; 14370; 14370;
  14369; 14368; 14368; 14367; 14367; 14366; 14366; 14365; 14365; 14364; 14364; 14363; 14363; 14362; 14362; 14361;
  14361; 14360; 14360; 14359; 14358; 14358; 14357; 14357; 14356; 14356; 14355; 14355; 14354; 14354; 14353; 14353;
  14352; 14352; 14351; 14351; 14350; 14350; 14349; 14349; 14348; 14348; 14347; 14347; 14346; 14346; 14345; 14345;
  14344; 14344; 14343; 14343; 14342; 14342; 14341; 14341; 14340; 14340; 14339; 14339; 14338; 14338; 14337; 14337
].

Definition Reciprocal_1 : list Z := [
  15360; 15358; 15356; 15354; 15352; 15350; 15348; 15346; 15344; 15342; 15340; 15338; 15336; 15334; 15332; 15330;
  15328; 15326; 15324; 15322; 15320; 15318; 15316; 15316; 15314; 15312; 15310; 15308; 15306; 15304; 15302; 15300;
  15298; 15296; 15294; 15292; 15290; 15288; 15286; 15284; 15284; 15282; 15280; 15278; 15276; 15274; 15272; 15270;
  15268; 15266; 15264; 15262; 15262; 15260; 15258; 15256; 15254; 15252; 15250; 15248; 15246; 15244; 15244; 15242;
  15240; 15238; 15236; 15234; 15232; 15230; 15228; 15228; 15226; 15224; 15222; 15220; 15218; 15216; 15216; 15214;
  15212; 15210; 15208; 15206; 15204; 15204; 15202; 15200; 15198; 15196; 15194; 15192; 15192; 15190; 15188; 15186;
  15184; 15182; 15182; 15180; 15178; 15176; 15174; 15172; 15172; 15170; 15168; 15166; 15164; 15162; 15162; 15160;
  15158; 15156; 15154; 15154; 15152; 15150; 15148; 15146; 15146; 15144; 15142; 15140; 15138; 15138; 15136; 15134;
  15132; 15130; 15130; 15128; 15126; 15124; 15124; 15122; 15120; 15118; 15116; 15116; 15114; 15112; 15110; 15110;
  15108; 15106; 15104; 15102; 15102; 15100; 15098; 15096; 15096; 15094; 15092; 15090; 15090; 15088; 15086; 15084;
  15084; 15082; 15080; 15078; 15078; 15076; 15074; 15072; 15072; 15070; 15068; 15066; 15066; 15064; 15062; 15062;
  15060; 15058; 15056; 15056; 15054; 15052; 15050; 15050; 15048; 15046; 15046; 15044; 15042; 15040; 15040; 15038;
  15036; 15036; 15034; 15032; 15030; 15030; 15028; 15026; 15026; 15024; 15022; 15022; 15020; 15018; 15018; 15016;
  15014; 15012; 15012; 15010; 15008; 15008; 15006; 15004; 15004; 15002; 15000; 15000; 14998; 14996; 14996; 14994;
  14992; 14992; 14990; 14988; 14988; 14986; 14984; 14984; 14982; 14980; 14980; 14978; 14976; 14976; 14974; 14972;
  14972; 14970; 14968; 14968; 14966; 14964; 14964; 14962; 14960; 14960; 14958; 14956; 14956; 14954; 14952; 14952;
  14950; 14950; 14948; 14946; 14946; 14944; 14942; 14942; 14940; 14938; 14938; 14936; 14936; 14934; 14932; 14932;
  14930; 14928; 14928; 14926; 14926; 14924; 14922; 14922; 14920; 14920; 14918; 14916; 14916; 14914; 14912; 14912;
  14910; 14910; 14908; 14906; 14906; 14904; 14904; 14902; 14900; 14900; 14898; 14898; 14896; 14894; 14894; 14892;
  14892; 14890; 14888; 14888; 14886; 14886; 14884; 14882; 14882; 14880; 14880; 14878; 14878; 14876; 14874; 14874;
  14872; 14872; 14870; 14868; 14868; 14866; 14866; 14864; 14864; 14862; 14860; 14860; 14858; 14858; 14856; 14856;
  14854; 14852; 14852; 14850; 14850; 14848; 14848; 14846; 14846; 14844; 14842; 14842; 14840; 14840; 14838; 14838;
  14836; 14834; 14834; 14832; 14832; 14830; 14830; 14828; 14828; 14826; 14826; 14824; 14822; 14822; 14820; 14820;
  14818; 14818; 14816; 14816; 14814; 14814; 14812; 14812; 14810; 14808; 14808; 14806; 14806; 14804; 14804; 14802;
  14802; 14800; 14800; 14798; 14798; 14796; 14796; 14794; 14794; 14792; 14790; 14790; 14788; 14788; 14786; 14786;
  14784; 14784; 14782; 14782; 14780; 14780; 14778; 14778; 14776; 14776; 14774; 14774; 14772; 14772; 14770; 14770;
  14768; 14768; 14766; 14766; 14764; 14764; 14762; 14762; 14760; 14760; 14758; 14758; 14756; 14756; 14754; 14754;
  14752; 14752; 14750; 14750; 14748; 14748; 14746; 14746; 14744; 14744; 14742; 14742; 14740; 14740; 14738; 14738;
  14736; 14736; 14734; 14734; 14732; 14732; 14730; 14730; 14728; 14728; 14728; 14726; 14726; 14724; 14724; 14722;
  14722; 14720; 14720; 14718; 14718; 14716; 14716; 14714; 14714; 14712; 14712; 14712; 14710; 14710; 14708; 14708;
  14706; 14706; 14704; 14704; 14702; 14702; 14700; 14700; 14700; 14698; 14698; 14696; 14696; 14694; 14694; 14692;
  14692; 14690; 14690; 14688; 14688; 14688; 14686; 14686; 14684; 14684; 14682; 14682; 14680; 14680; 14680; 14678;
  14678; 14676; 14676; 14674; 14674; 14672; 14672; 14672; 14670; 14670; 14668; 14668; 14666; 14666; 14666; 14664;
  14664; 14662; 14662; 14660; 14660; 14658; 14658; 14658; 14656; 14656; 14654; 14654; 14652; 14652; 14652; 14650;
  14650; 14648; 14648; 14646; 14646; 14646; 14644; 14644; 14642; 14642; 14640; 14640; 14640; 14638; 14638; 14636;
  14636; 14636; 14634; 14634; 14632; 14632; 14630; 14630; 14630; 14628; 14628; 14626; 14626; 14626; 14624; 14624;
  14622; 14622; 14622; 14620; 14620; 14618; 14618; 14618; 14616; 14616; 14614; 14614; 14612; 14612; 14612; 14610;
  14610; 14608; 14608; 14608; 14606; 14606; 14604; 14604; 14604; 14602; 14602; 14600; 14600; 14600; 14598; 14598;
  14598; 14596; 14596; 14594; 14594; 14594; 14592; 14592; 14590; 14590; 14590; 14588; 14588; 14586; 14586; 14586;
  14584; 14584; 14584; 14582; 14582; 14580; 14580; 14580; 14578; 14578; 14576; 14576; 14576; 14574; 14574; 14574;
  14572; 14572; 14570; 14570; 14570; 14568; 14568; 14568; 14566; 14566; 14564; 14564; 14564; 14562; 14562; 14562;
  14560; 14560; 14558; 14558; 14558; 14556; 14556; 14556; 14554; 14554; 14552; 14552; 14552; 14550; 14550; 14550;
  14548; 14548; 14548; 14546; 14546; 14544; 14544; 14544; 14542; 14542; 14542; 14540; 14540; 14540; 14538; 14538;
  14536; 14536; 14536; 14534; 14534; 14534; 14532; 14532; 14532; 14530; 14530; 14530; 14528; 14528; 14528; 14526;
  14526; 14524; 14524; 14524; 14522; 14522; 14522; 14520; 14520; 14520; 14518; 14518; 14518; 14516; 14516; 14516;
  14514; 14514; 14514; 14512; 14512; 14512; 14510; 14510; 14510; 14508; 14508; 14506; 14506; 14506; 14504; 14504;
  14504; 14502; 14502; 14502; 14500; 14500; 14500; 14498; 14498; 14498; 14496; 14496; 14496; 14494; 14494; 14494;
  14492; 14492; 14492; 14490; 14490; 14490; 14488; 14488; 14488; 14486; 14486; 14486; 14484; 14484; 14484; 14482;
  14482; 14482; 14480; 14480; 14480; 14480; 14478; 14478; 14478; 14476; 14476; 14476; 14474; 14474; 14474; 14472;
  14472; 14472; 14470; 14470; 14470; 14468; 14468; 14468; 14466; 14466; 14466; 14464; 14464; 14464; 14464; 14462;
  14462; 14462; 14460; 14460; 14460; 14458; 14458; 14458; 14456; 14456; 14456; 14454; 14454; 14454; 14452; 14452;
  14452; 14452; 14450; 14450; 14450; 14448; 14448; 14448; 14446; 14446; 14446; 14444; 14444; 14444; 14444; 14442;
  14442; 14442; 14440; 14440; 14440; 14438; 14438; 14438; 14438; 14436; 14436; 14436; 14434; 14434; 14434; 14432;
  14432; 14432; 14432; 14430; 14430; 14430; 14428; 14428; 14428; 14426; 14426; 14426; 14426; 14424; 14424; 14424;
  14422; 14422; 14422; 14422; 14420; 14420; 14420; 14418; 14418; 14418; 14416; 14416; 14416; 14416; 14414; 14414;
  14414; 14412; 14412; 14412; 14412; 14410; 14410; 14410; 14408; 14408; 14408; 14408; 14406; 14406; 14406; 14404;
  14404; 14404; 14404; 14402; 14402; 14402; 14400; 14400; 14400; 14400; 14398; 14398; 14398; 14396; 14396; 14396;
  14396; 14394; 14394; 14394; 14394; 14392; 14392; 14392; 14390; 14390; 14390; 14390; 14388; 14388; 14388; 14386;
  14386; 14386; 14386; 14384; 14384; 14384; 14384; 14382; 14382; 14382; 14380; 14380; 14380; 14380; 14378; 14378;
  14378; 14378; 14376; 14376; 14376; 14374; 14374; 14374; 14374; 14372; 14372; 14372; 14372; 14370; 14370; 14370;
  14370; 14368; 14368; 14368; 14366; 14366; 14366; 14366; 14364; 14364; 14364; 14364; 14362; 14362; 14362; 14362;
  14360; 14360; 14360; 14360; 14358; 14358; 14358; 14356; 14356; 14356; 14356; 14354; 14354; 14354; 14354; 14352;
  14352; 14352; 14352; 14350; 14350; 14350; 14350; 14348; 14348; 14348; 14348; 14346; 14346; 14346; 14346; 14344;
  14344; 14344; 14344; 14342; 14342; 14342; 14342; 14340; 14340; 14340; 14340; 14338; 14338; 14338; 14338; 14336
].

Definition Reciprocal_2 : list Z := [
  15360; 15360; 15356; 15356; 15352; 15352; 15348; 15348; 15344; 15344; 15340; 15340; 15336; 15336; 15332; 15332;
  15328; 15328; 15324; 15324; 15320; 15320; 15316; 15316; 15312; 15312; 15308; 15308; 15304; 15304; 15300; 15300;
  15296; 15296; 15296; 15292; 15292; 15288; 15288; 15284; 15284; 15280; 15280; 15276; 15276; 15272; 15272; 15272;
  15268; 15268; 15264; 15264; 15260; 15260; 15256; 15256; 15252; 15252; 15252; 15248; 15248; 15244; 15244; 15240;
  15240; 15236; 15236; 15236; 15232; 15232; 15228; 15228; 15224; 15224; 15220; 15220; 15220; 15216; 15216; 15212;
  15212; 15208; 15208; 15208; 15204; 15204; 15200; 15200; 15196; 15196; 15196; 15192; 15192; 15188; 15188; 15188;
  15184; 15184; 15180; 15180; 15176; 15176; 15176; 15172; 15172; 15168; 15168; 15168; 15164; 15164; 15160; 15160;
  15160; 15156; 15156; 15152; 15152; 15148; 15148; 15148; 15144; 15144; 15140; 15140; 15140; 15136; 15136; 15136;
  15132; 15132; 15128; 15128; 15128; 15124; 15124; 15120; 15120; 15120; 15116; 15116; 15112; 15112; 15112; 15108;
  15108; 15104; 15104; 15104; 15100; 15100; 15100; 15096; 15096; 15092; 15092; 15092; 15088; 15088; 15088; 15084;
  15084; 15080; 15080; 15080; 15076; 15076; 15076; 15072; 15072; 15068; 15068; 15068; 15064; 15064; 15064; 15060;
  15060; 15060; 15056; 15056; 15052; 15052; 15052; 15048; 15048; 15048; 15044; 15044; 15044; 15040; 15040; 15040;
  15036; 15036; 15032; 15032; 15032; 15028; 15028; 15028; 15024; 15024; 15024; 15020; 15020; 15020; 15016; 15016;
  15016; 15012; 15012; 15012; 15008; 15008; 15004; 15004; 15004; 15000; 15000; 15000; 14996; 14996; 14996; 14992;
  14992; 14992; 14988; 14988; 14988; 14984; 14984; 14984; 14980; 14980; 14980; 14976; 14976; 14976; 14972; 14972;
  14972; 14968; 14968; 14968; 14964; 14964; 14964; 14964; 14960; 14960; 14960; 14956; 14956; 14956; 14952; 14952;
  14952; 14948; 14948; 14948; 14944; 14944; 14944; 14940; 14940; 14940; 14936; 14936; 14936; 14932; 14932; 14932;
  14932; 14928; 14928; 14928; 14924; 14924; 14924; 14920; 14920; 14920; 14916; 14916; 14916; 14916; 14912; 14912;
  14912; 14908; 14908; 14908; 14904; 14904; 14904; 14900; 14900; 14900; 14900; 14896; 14896; 14896; 14892; 14892;
  14892; 14888; 14888; 14888; 14888; 14884; 14884; 14884; 14880; 14880; 14880; 14880; 14876; 14876; 14876; 14872;
  14872; 14872; 14872; 14868; 14868; 14868; 14864; 14864; 14864; 14864; 14860; 14860; 14860; 14856; 14856; 14856;
  14856; 14852; 14852; 14852; 14848; 14848; 14848; 14848; 14844; 14844; 14844; 14840; 14840; 14840; 14840; 14836;
  14836; 14836; 14832; 14832; 14832; 14832; 14828; 14828; 14828; 14828; 14824; 14824; 14824; 14820; 14820; 14820;
  14820; 14816; 14816; 14816; 14816; 14812; 14812; 14812; 14808; 14808; 14808; 14808; 14804; 14804; 14804; 14804;
  14800; 14800; 14800; 14800; 14796; 14796; 14796; 14796; 14792; 14792; 14792; 14788; 14788; 14788; 14788; 14784;
  14784; 14784; 14784; 14780; 14780; 14780; 14780; 14776; 14776; 14776; 14776; 14772; 14772; 14772; 14772; 14768;
  14768; 14768; 14768; 14764; 14764; 14764; 14764; 14760; 14760; 14760; 14760; 14756; 14756; 14756; 14756; 14752;
  14752; 14752; 14752; 14748; 14748; 14748; 14748; 14744; 14744; 14744; 14744; 14740; 14740; 14740; 14740; 14736;
  14736; 14736; 14736; 14732; 14732; 14732; 14732; 14728; 14728; 14728; 14728; 14728; 14724; 14724; 14724; 14724;
  14720; 14720; 14720; 14720; 14716; 14716; 14716; 14716; 14712; 14712; 14712; 14712; 14712; 14708; 14708; 14708;
  14708; 14704; 14704; 14704; 14704; 14700; 14700; 14700; 14700; 14700; 14696; 14696; 14696; 14696; 14692; 14692;
  14692; 14692; 14688; 14688; 14688; 14688; 14688; 14684; 14684; 14684; 14684; 14680; 14680; 14680; 14680; 14680;
  14676; 14676; 14676; 14676; 14672; 14672; 14672; 14672; 14672; 14668; 14668; 14668; 14668; 14664; 14664; 14664;
  14664; 14664; 14660; 14660; 14660; 14660; 14660; 14656; 14656; 14656; 14656; 14652; 14652; 14652; 14652; 14652;
  14648; 14648; 14648; 14648; 14648; 14644; 14644; 14644; 14644; 14640; 14640; 14640; 14640; 14640; 14636; 14636;
  14636; 14636; 14636; 14632; 14632; 14632; 14632; 14632; 14628; 14628; 14628; 14628; 14628; 14624; 14624; 14624;
  14624; 14620; 14620; 14620; 14620; 14620; 14616; 14616; 14616; 14616; 14616; 14612; 14612; 14612; 14612; 14612;
  14608; 14608; 14608; 14608; 14608; 14604; 14604; 14604; 14604; 14604; 14600; 14600; 14600; 14600; 14600; 14596;
  14596; 14596; 14596; 14596; 14592; 14592; 14592; 14592; 14592; 14588; 14588; 14588; 14588; 14588; 14588; 14584;
  14584; 14584; 14584; 14584; 14580; 14580; 14580; 14580; 14580; 14576; 14576; 14576; 14576; 14576; 14572; 14572;
  14572; 14572; 14572; 14572; 14568; 14568; 14568; 14568; 14568; 14564; 14564; 14564; 14564; 14564; 14560; 14560;
  14560; 14560; 14560; 14560; 14556; 14556; 14556; 14556; 14556; 14552; 14552; 14552; 14552; 14552; 14548; 14548;
  14548; 14548; 14548; 14548; 14544; 14544; 14544; 14544; 14544; 14544; 14540; 14540; 14540; 14540; 14540; 14536;
  14536; 14536; 14536; 14536; 14536; 14532; 14532; 14532; 14532; 14532; 14528; 14528; 14528; 14528; 14528; 14528;
  14524; 14524; 14524; 14524; 14524; 14524; 14520; 14520; 14520; 14520; 14520; 14516; 14516; 14516; 14516; 14516;
  14516; 14512; 14512; 14512; 14512; 14512; 14512; 14508; 14508; 14508; 14508; 14508; 14508; 14504; 14504; 14504;
  14504; 14504; 14504; 14500; 14500; 14500; 14500; 14500; 14500; 14496; 14496; 14496; 14496; 14496; 14496; 14492;
  14492; 14492; 14492; 14492; 14492; 14488; 14488; 14488; 14488; 14488; 14488; 14484; 14484; 14484; 14484; 14484;
  14484; 14480; 14480; 14480; 14480; 14480; 14480; 14476; 14476; 14476; 14476; 14476; 14476; 14472; 14472; 14472;
  14472; 14472; 14472; 14472; 14468; 14468; 14468; 14468; 14468; 14468; 14464; 14464; 14464; 14464; 14464; 14464;
  14460; 14460; 14460; 14460; 14460; 14460; 14456; 14456; 14456; 14456; 14456; 14456; 14456; 14452; 14452; 14452;
  14452; 14452; 14452; 14448; 14448; 14448; 14448; 14448; 14448; 14448; 14444; 14444; 14444; 14444; 14444; 14444;
  14440; 14440; 14440; 14440; 14440; 14440; 14440; 14436; 14436; 14436; 14436; 14436; 14436; 14436; 14432; 14432;
  14432; 14432; 14432; 14432; 14428; 14428; 14428; 14428; 14428; 14428; 14428; 14424; 14424; 14424; 14424; 14424;
  14424; 14424; 14420; 14420; 14420; 14420; 14420; 14420; 14420; 14416; 14416; 14416; 14416; 14416; 14416; 14416;
  14412; 14412; 14412; 14412; 14412; 14412; 14408; 14408; 14408; 14408; 14408; 14408; 14408; 14404; 14404; 14404;
  14404; 14404; 14404; 14404; 14400; 14400; 14400; 14400; 14400; 14400; 14400; 14400; 14396; 14396; 14396; 14396;
  14396; 14396; 14396; 14392; 14392; 14392; 14392; 14392; 14392; 14392; 14388; 14388; 14388; 14388; 14388; 14388;
  14388; 14384; 14384; 14384; 14384; 14384; 14384; 14384; 14380; 14380; 14380; 14380; 14380; 14380; 14380; 14380;
  14376; 14376; 14376; 14376; 14376; 14376; 14376; 14372; 14372; 14372; 14372; 14372; 14372; 14372; 14372; 14368;
  14368; 14368; 14368; 14368; 14368; 14368; 14364; 14364; 14364; 14364; 14364; 14364; 14364; 14364; 14360; 14360;
  14360; 14360; 14360; 14360; 14360; 14356; 14356; 14356; 14356; 14356; 14356; 14356; 14356; 14352; 14352; 14352;
  14352; 14352; 14352; 14352; 14352; 14348; 14348; 14348; 14348; 14348; 14348; 14348; 14348; 14344; 14344; 14344;
  14344; 14344; 14344; 14344; 14344; 14340; 14340; 14340; 14340; 14340; 14340; 14340; 14340; 14336; 14336; 14336
].

Definition Reciprocal : list Z :=
  Reciprocal_0 ++ Reciprocal_1 ++ Reciprocal_2.

(** ** [SFURom::Sqrt], 2048 entries *)

Definition Sqrt_0 : list Z := [
  15360; 15360; 15361; 15361; 15362; 15362; 15363; 15363; 15364; 15364; 15365; 15365; 15366; 15366; 15367; 15367;
  15368; 15368; 15369; 15369; 15370; 15370; 15371; 15371; 15372; 15372; 15373; 15373; 15374; 15374; 15375; 15375;
  15376; 15376; 15377; 15377; 15378; 15378; 15379; 15379; 15380; 15380; 15381; 15381; 15382; 15382; 15383; 15383;
  15384; 15384; 15385; 15385; 15386; 15386; 15387; 15387; 15388; 15388; 15389; 15389; 15390; 15390; 15391; 15391;
  15392; 15392; 15392; 15393; 15393; 15394; 15394; 15395; 15395; 15396; 15396; 15397; 15397; 15398; 15398; 15399;
  15399; 15400; 15400; 15401; 15401; 15402; 15402; 15403; 15403; 15404; 15404; 15405; 15405; 15405; 15406; 15406;
  15407; 15407; 15408; 15408; 15409; 15409; 15410; 15410; 15411; 15411; 15412; 15412; 15413; 15413; 15414; 15414;
  15415; 15415; 15415; 15416; 15416; 15417; 15417; 15418; 15418; 15419; 15419; 15420; 15420; 15421; 15421; 15422;
  15422; 15423; 15423; 15424; 15424; 15424; 15425; 15425; 15426; 15426; 15427; 15427; 15428; 15428; 15429; 15429;
  15430; 15430; 15431; 15431; 15432; 15432; 15432; 15433; 15433; 15434; 15434; 15435; 15435; 15436; 15436; 15437;
  15437; 15438; 15438; 15438; 15439; 15439; 15440; 15440; 15441; 15441; 15442; 15442; 15443; 15443; 15444; 15444;
  15445; 15445; 15445; 15446; 15446; 15447; 15447; 15448; 15448; 15449; 15449; 15450; 15450; 15451; 15451; 15451;
  15452; 15452; 15453; 15453; 15454; 15454; 15455; 15455; 15456; 15456; 15456; 15457; 15457; 15458; 15458; 15459;
  15459; 15460; 15460; 15461; 15461; 15461; 15462; 15462; 15463; 15463; 15464; 15464; 15465; 15465; 15466; 15466;
  15466; 15467; 15467; 15468; 15468; 15469; 15469; 15470; 15470; 15471; 15471; 15471; 15472; 15472; 15473; 15473;
  15474; 15474; 15475; 15475; 15475; 15476; 15476; 15477; 15477; 15478; 15478; 15479; 15479; 15480; 15480; 15480;
  15481; 15481; 15482; 15482; 15483; 15483; 15484; 15484; 15484; 15485; 15485; 15486; 15486; 15487; 15487; 15488;
  15488; 15488; 15489; 15489; 15490; 15490; 15491; 15491; 15492; 15492; 15492; 15493; 15493; 15494; 15494; 15495;
  15495; 15496; 15496; 15496; 15497; 15497; 15498; 15498; 15499; 15499; 15499; 15500; 15500; 15501; 15501; 15502;
  15502; 15503; 15503; 15503; 15504; 15504; 15505; 15505; 15506; 15506; 15507; 15507; 15507; 15508; 15508; 15509;
  15509; 15510; 15510; 15510; 15511; 15511; 15512; 15512; 15513; 15513; 15513; 15514; 15514; 15515; 15515; 15516;
  15516; 15517; 15517; 15517; 15518; 15518; 15519; 15519; 15520; 15520; 15520; 15521; 15521; 15522; 15522; 15523;
  15523; 15523; 15524; 15524; 15525; 15525; 15526; 15526; 15526; 15527; 15527; 15528; 15528; 15529; 15529; 15529;
  15530; 15530; 15531; 15531; 15532; 15532; 15532; 15533; 15533; 15534; 15534; 15535; 15535; 15535; 15536; 15536;
  15537; 15537; 15538; 15538; 15538; 15539; 15539; 15540; 15540; 15541; 15541; 15541; 15542; 15542; 15543; 15543;
  15544; 15544; 15544; 15545; 15545; 15546; 15546; 15547; 15547; 15547; 15548; 15548; 15549; 15549; 15549; 15550;
  15550; 15551; 15551; 15552; 15552; 15552; 15553; 15553; 15554; 15554; 15555; 15555; 15555; 15556; 15556; 15557;
  15557; 15557; 15558; 15558; 15559; 15559; 15560; 15560; 15560; 15561; 15561; 15562; 15562; 15562; 15563; 15563;
  15564; 15564; 15565; 15565; 15565; 15566; 15566; 15567; 15567; 15567; 15568; 15568; 15569; 15569; 15570; 15570;
  15570; 15571; 15571; 15572; 15572; 15572; 15573; 15573; 15574; 15574; 15575; 15575; 15575; 15576; 15576; 15577;
  15577; 15577; 15578; 15578; 15579; 15579; 15579; 15580; 15580; 15581; 15581; 15582; 15582; 15582; 15583; 15583;
  15584; 15584; 15584; 15585; 15585; 15586; 15586; 15586; 15587; 15587; 15588; 15588; 15589; 15589; 15589; 15590;
  15590; 15591; 15591; 15591; 15592; 15592; 15593; 15593; 15593; 15594; 15594; 15595; 15595; 15595; 15596; 15596;
  15597; 15597; 15597; 15598; 15598; 15599; 15599; 15599; 15600; 15600; 15601; 15601; 15602; 15602; 15602; 15603;
  15603; 15604; 15604; 15604; 15605; 15605; 15606; 15606; 15606; 15607; 15607; 15608; 15608; 15608; 15609; 15609;
  15610; 15610; 15610; 15611; 15611; 15612; 15612; 15612; 15613; 15613; 15614; 15614; 15614; 15615; 15615; 15616;
  15616; 15616; 15617; 15617; 15618; 15618; 15618; 15619; 15619; 15620; 15620; 15620; 15621; 15621; 15622; 15622;
  15622; 15623; 15623; 15624; 15624; 15624; 15625; 15625; 15626; 15626; 15626; 15627; 15627; 15628; 15628; 15628;
  15629; 15629; 15630; 15630; 15630; 15631; 15631; 15632; 15632; 15632; 15633; 15633; 15633; 15634; 15634; 15635;
  15635; 15635; 15636; 15636; 15637; 15637; 15637; 15638; 15638; 15639; 15639; 15639; 15640; 15640; 15641; 15641;
  15641; 15642; 15642; 15643; 15643; 15643; 15644; 15644; 15644; 15645; 15645; 15646; 15646; 15646; 15647; 15647;
  15648; 15648; 15648; 15649; 15649; 15650; 15650; 15650; 15651; 15651; 15652; 15652; 15652; 15653; 15653; 15653;
  15654; 15654; 15655; 15655; 15655; 15656; 15656; 15657; 15657; 15657; 15658; 15658; 15658; 15659; 15659; 15660;
  15660; 15660; 15661; 15661; 15662; 15662; 15662; 15663; 15663; 15664; 15664; 15664; 15665; 15665; 15665; 15666;
  15666; 15667; 15667; 15667; 15668; 15668; 15669; 15669; 15669; 15670; 15670; 15670; 15671; 15671; 15672; 15672;
  15672; 15673; 15673; 15674; 15674; 15674; 15675; 15675; 15675; 15676; 15676; 15677; 15677; 15677; 15678; 15678;
  15678; 15679; 15679; 15680; 15680; 15680; 15681; 15681; 15682; 15682; 15682; 15683; 15683; 15683; 15684; 15684;
  15685; 15685; 15685; 15686; 15686; 15686; 15687; 15687; 15688; 15688; 15688; 15689; 15689; 15689; 15690; 15690;
  15691; 15691; 15691; 15692; 15692; 15693; 15693; 15693; 15694; 15694; 15694; 15695; 15695; 15696; 15696; 15696;
  15697; 15697; 15697; 15698; 15698; 15699; 15699; 15699; 15700; 15700; 15700; 15701; 15701; 15702; 15702; 15702;
  15703; 15703; 15703; 15704; 15704; 15705; 15705; 15705; 15706; 15706; 15706; 15707; 15707; 15708; 15708; 15708;
  15709; 15709; 15709; 15710; 15710; 15711; 15711; 15711; 15712; 15712; 15712; 15713; 15713; 15713; 15714; 15714;
  15715; 15715; 15715; 15716; 15716; 15716; 15717; 15717; 15718; 15718; 15718; 15719; 15719; 15719; 15720; 15720;
  15721; 15721; 15721; 15722; 15722; 15722; 15723; 15723; 15723; 15724; 15724; 15725; 15725; 15725; 15726; 15726;
  15726; 15727; 15727; 15728; 15728; 15728; 15729; 15729; 15729; 15730; 15730; 15730; 15731; 15731; 15732; 15732;
  15732; 15733; 15733; 15733; 15734; 15734; 15735; 15735; 15735; 15736; 15736; 15736; 15737; 15737; 15737; 15738;
  15738; 15739; 15739; 15739; 15740; 15740; 15740; 15741; 15741; 15741; 15742; 15742; 15743; 15743; 15743; 15744;
  15744; 15744; 15745; 15745; 15745; 15746; 15746; 15747; 15747; 15747; 15748; 15748; 15748; 15749; 15749; 15749;
  15750; 15750; 15751; 15751; 15751; 15752; 15752; 15752; 15753; 15753; 15753; 15754; 15754; 15755; 15755; 15755;
  15756; 15756; 15756; 15757; 15757; 15757; 15758; 15758; 15758; 15759; 15759; 15760; 15760; 15760; 15761; 15761;
  15761; 15762; 15762; 15762; 15763; 15763; 15764; 15764; 15764; 15765; 15765; 15765; 15766; 15766; 15766; 15767;
  15767; 15767; 15768; 15768; 15769; 15769; 15769; 15770; 15770; 15770; 15771; 15771; 15771; 15772; 15772; 15772;
  15773; 15773; 15774; 15774; 15774; 15775; 15775; 15775; 15776; 15776; 15776; 15777; 15777; 15777; 15778; 15778;
  15778; 15779; 15779; 15780; 15780; 15780; 15781; 15781; 15781; 15782; 15782; 15782; 15783; 15783; 15783; 15784
].

Definition Sqrt_1 : list Z := [
  15784; 15785; 15786; 15786; 15787; 15788; 15788; 15789; 15790; 15791; 15791; 15792; 15793; 15793; 15794; 15795;
  15795; 15796; 15797; 15798; 15798; 15799; 15800; 15800; 15801; 15802; 15802; 15803; 15804; 15805; 15805; 15806;
  15807; 15807; 15808; 15809; 15809; 15810; 15811; 15811; 15812; 15813; 15814; 15814; 15815; 15816; 15816; 15817;
  15818; 15818; 15819; 15820; 15820; 15821; 15822; 15823; 15823; 15824; 15825; 15825; 15826; 15827; 15827; 15828;
  15829; 15829; 15830; 15831; 15831; 15832; 15833; 15834; 15834; 15835; 15836; 15836; 15837; 15838; 15838; 15839;
  15840; 15840; 15841; 15842; 15842; 15843; 15844; 15844; 15845; 15846; 15846; 15847; 15848; 15848; 15849; 15850;
  15851; 15851; 15852; 15853; 15853; 15854; 15855; 15855; 15856; 15857; 15857; 15858; 15859; 15859; 15860; 15861;
  15861; 15862; 15863; 15863; 15864; 15865; 15865; 15866; 15867; 15867; 15868; 15869; 15869; 15870; 15871; 15871;
  15872; 15873; 15873; 15874; 15875; 15875; 15876; 15877; 15877; 15878; 15879; 15879; 15880; 15881; 15881; 15882;
  15883; 15883; 15884; 15885; 15885; 15886; 15887; 15887; 15888; 15889; 15889; 15890; 15891; 15891; 15892; 15893;
  15893; 15894; 15895; 15895; 15896; 15896; 15897; 15898; 15898; 15899; 15900; 15900; 15901; 15902; 15902; 15903;
  15904; 15904; 15905; 15906; 15906; 15907; 15908; 15908; 15909; 15910; 15910; 15911; 15911; 15912; 15913; 15913;
  15914; 15915; 15915; 15916; 15917; 15917; 15918; 15919; 15919; 15920; 15921; 15921; 15922; 15923; 15923; 15924;
  15924; 15925; 15926; 15926; 15927; 15928; 15928; 15929; 15930; 15930; 15931; 15932; 15932; 15933; 15933; 15934;
  15935; 15935; 15936; 15937; 15937; 15938; 15939; 15939; 15940; 15940; 15941; 15942; 15942; 15943; 15944; 15944;
  15945; 15946; 15946; 15947; 15947; 15948; 15949; 15949; 15950; 15951; 15951; 15952; 15953; 15953; 15954; 15954;
  15955; 15956; 15956; 15957; 15958; 15958; 15959; 15960; 15960; 15961; 15961; 15962; 15963; 15963; 15964; 15965;
  15965; 15966; 15966; 15967; 15968; 15968; 15969; 15970; 15970; 15971; 15971; 15972; 15973; 15973; 15974; 15975;
  15975; 15976; 15976; 15977; 15978; 15978; 15979; 15980; 15980; 15981; 15981; 15982; 15983; 15983; 15984; 15985;
  15985; 15986; 15986; 15987; 15988; 15988; 15989; 15990; 15990; 15991; 15991; 15992; 15993; 15993; 15994; 15994;
  15995; 15996; 15996; 15997; 15998; 15998; 15999; 15999; 16000; 16001; 16001; 16002; 16002; 16003; 16004; 16004;
  16005; 16006; 16006; 16007; 16007; 16008; 16009; 16009; 16010; 16010; 16011; 16012; 16012; 16013; 16013; 16014;
  16015; 16015; 16016; 16017; 16017; 16018; 16018; 16019; 16020; 16020; 16021; 16021; 16022; 16023; 16023; 16024;
  16024; 16025; 16026; 16026; 16027; 16027; 16028; 16029; 16029; 16030; 16030; 16031; 16032; 16032; 16033; 16034;
  16034; 16035; 16035; 16036; 16037; 16037; 16038; 16038; 16039; 16040; 16040; 16041; 16041; 16042; 16043; 16043;
  16044; 16044; 16045; 16046; 16046; 16047; 16047; 16048; 16049; 16049; 16050; 16050; 16051; 16052; 16052; 16053;
  16053; 16054; 16054; 16055; 16056; 16056; 16057; 16057; 16058; 16059; 16059; 16060; 16060; 16061; 16062; 16062;
  16063; 16063; 16064; 16065; 16065; 16066; 16066; 16067; 16068; 16068; 16069; 16069; 16070; 16071; 16071; 16072;
  16072; 16073; 16073; 16074; 16075; 16075; 16076; 16076; 16077; 16078; 16078; 16079; 16079; 16080; 16081; 16081;
  16082; 16082; 16083; 16083; 16084; 16085; 16085; 16086; 16086; 16087; 16088; 16088; 16089; 16089; 16090; 16090;
  16091; 16092; 16092; 16093; 16093; 16094; 16095; 16095; 16096; 16096; 16097; 16097; 16098; 16099; 16099; 16100;
  16100; 16101; 16102; 16102; 16103; 16103; 16104; 16104; 16105; 16106; 16106; 16107; 16107; 16108; 16108; 16109;
  16110; 16110; 16111; 16111; 16112; 16113; 16113; 16114; 16114; 16115; 16115; 16116; 16117; 16117; 16118; 16118;
  16119; 16119; 16120; 16121; 16121; 16122; 16122; 16123; 16123; 16124; 16125; 16125; 16126; 16126; 16127; 16127;
  16128; 16129; 16129; 16130; 16130; 16131; 16131; 16132; 16133; 16133; 16134; 16134; 16135; 16135; 16136; 16137;
  16137; 16138; 16138; 16139; 16139; 16140; 16141; 16141; 16142; 16142; 16143; 16143; 16144; 16144; 16145; 16146;
  16146; 16147; 16147; 16148; 16148; 16149; 16150; 16150; 16151; 16151; 16152; 16152; 16153; 16154; 16154; 16155;
  16155; 16156; 16156; 16157; 16157; 16158; 16159; 16159; 16160; 16160; 16161; 16161; 16162; 16163; 16163; 16164;
  16164; 16165; 16165; 16166; 16166; 16167; 16168; 16168; 16169; 16169; 16170; 16170; 16171; 16171; 16172; 16173;
  16173; 16174; 16174; 16175; 16175; 16176; 16176; 16177; 16178; 16178; 16179; 16179; 16180; 16180; 16181; 16181;
  16182; 16183; 16183; 16184; 16184; 16185; 16185; 16186; 16186; 16187; 16188; 16188; 16189; 16189; 16190; 16190;
  16191; 16191; 16192; 16193; 16193; 16194; 16194; 16195; 16195; 16196; 16196; 16197; 16198; 16198; 16199; 16199;
  16200; 16200; 16201; 16201; 16202; 16202; 16203; 16204; 16204; 16205; 16205; 16206; 16206; 16207; 16207; 16208;
  16208; 16209; 16210; 16210; 16211; 16211; 16212; 16212; 16213; 16213; 16214; 16214; 16215; 16216; 16216; 16217;
  16217; 16218; 16218; 16219; 16219; 16220; 16220; 16221; 16222; 16222; 16223; 16223; 16224; 16224; 16225; 16225;
  16226; 16226; 16227; 16228; 16228; 16229; 16229; 16230; 16230; 16231; 16231; 16232; 16232; 16233; 16233; 16234;
  16235; 16235; 16236; 16236; 16237; 16237; 16238; 16238; 16239; 16239; 16240; 16240; 16241; 16242; 16242; 16243;
  16243; 16244; 16244; 16245; 16245; 16246; 16246; 16247; 16247; 16248; 16249; 16249; 16250; 16250; 16251; 16251;
  16252; 16252; 16253; 16253; 16254; 16254; 16255; 16255; 16256; 16257; 16257; 16258; 16258; 16259; 16259; 16260;
  16260; 16261; 16261; 16262; 16262; 16263; 16263; 16264; 16265; 16265; 16266; 16266; 16267; 16267; 16268; 16268;
  16269; 16269; 16270; 16270; 16271; 16271; 16272; 16272; 16273; 16274; 16274; 16275; 16275; 16276; 16276; 16277;
  16277; 16278; 16278; 16279; 16279; 16280; 16280; 16281; 16281; 16282; 16282; 16283; 16284; 16284; 16285; 16285;
  16286; 16286; 16287; 16287; 16288; 16288; 16289; 16289; 16290; 16290; 16291; 16291; 16292; 16292; 16293; 16294;
  16294; 16295; 16295; 16296; 16296; 16297; 16297; 16298; 16298; 16299; 16299; 16300; 16300; 16301; 16301; 16302;
  16302; 16303; 16303; 16304; 16304; 16305; 16305; 16306; 16307; 16307; 16308; 16308; 16309; 16309; 16310; 16310;
  16311; 16311; 16312; 16312; 16313; 16313; 16314; 16314; 16315; 16315; 16316; 16316; 16317; 16317; 16318; 16318;
  16319; 16319; 16320; 16321; 16321; 16322; 16322; 16323; 16323; 16324; 16324; 16325; 16325; 16326; 16326; 16327;
  16327; 16328; 16328; 16329; 16329; 16330; 16330; 16331; 16331; 16332; 16332; 16333; 16333; 16334; 16334; 16335;
  16335; 16336; 16336; 16337; 16337; 16338; 16338; 16339; 16340; 16340; 16341; 16341; 16342; 16342; 16343; 16343;
  16344; 16344; 16345; 16345; 16346; 16346; 16347; 16347; 16348; 16348; 16349; 16349; 16350; 16350; 16351; 16351;
  16352; 16352; 16353; 16353; 16354; 16354; 16355; 16355; 16356; 16356; 16357; 16357; 16358; 16358; 16359; 16359;
  16360; 16360; 16361; 16361; 16362; 16362; 16363; 16363; 16364; 16364; 16365; 16365; 16366; 16366; 16367; 16367;
  16368; 16368; 16369; 16369; 16370; 16370; 16371; 16371; 16372; 16372; 16373; 16373; 16374; 16374; 16375; 16375;
  16376; 16376; 16377; 16377; 16378; 16378; 16379; 16379; 16380; 16380; 16381; 16381; 16382; 16382; 16383; 16383
].

Definition Sqrt : list Z :=
  Sqrt_0 ++ Sqrt_1.

(** ** [SFURom::Rsqrt], 2048 entries *)

Definition Rsqrt_0 : list Z := [
  15360; 15359; 15358; 15357; 15356; 15355; 15354; 15353; 15352; 15351; 15350; 15349; 15348; 15347; 15346; 15345;
  15344; 15343; 15342; 15341; 15340; 15339; 15338; 15337; 15336; 15335; 15334; 15334; 15333; 15332; 15331; 15330;
  15329; 15328; 15327; 15326; 15325; 15324; 15323; 15322; 15321; 15320; 15319; 15318; 15317; 15316; 15315; 15315;
  15314; 15313; 15312; 15311; 15310; 15309; 15308; 15307; 15306; 15305; 15304; 15303; 15303; 15302; 15301; 15300;
  15299; 15298; 15297; 15296; 15295; 15294; 15293; 15292; 15292; 15291; 15290; 15289; 15288; 15287; 15286; 15285;
  15284; 15284; 15283; 15282; 15281; 15280; 15279; 15278; 15277; 15276; 15276; 15275; 15274; 15273; 15272; 15271;
  15270; 15269; 15269; 15268; 15267; 15266; 15265; 15264; 15263; 15262; 15262; 15261; 15260; 15259; 15258; 15257;
  15256; 15256; 15255; 15254; 15253; 15252; 15251; 15250; 15250; 15249; 15248; 15247; 15246; 15245; 15245; 15244;
  15243; 15242; 15241; 15240; 15240; 15239; 15238; 15237; 15236; 15235; 15235; 15234; 15233; 15232; 15231; 15230;
  15230; 15229; 15228; 15227; 15226; 15226; 15225; 15224; 15223; 15222; 15221; 15221; 15220; 15219; 15218; 15217;
  15217; 15216; 15215; 15214; 15213; 15213; 15212; 15211; 15210; 15209; 15209; 15208; 15207; 15206; 15205; 15205;
  15204; 15203; 15202; 15202; 15201; 15200; 15199; 15198; 15198; 15197; 15196; 15195; 15194; 15194; 15193; 15192;
  15191; 15191; 15190; 15189; 15188; 15188; 15187; 15186; 15185; 15184; 15184; 15183; 15182; 15181; 15181; 15180;
  15179; 15178; 15178; 15177; 15176; 15175; 15175; 15174; 15173; 15172; 15172; 15171; 15170; 15169; 15169; 15168;
  15167; 15166; 15166; 15165; 15164; 15163; 15163; 15162; 15161; 15160; 15160; 15159; 15158; 15158; 15157; 15156;
  15155; 15155; 15154; 15153; 15152; 15152; 15151; 15150; 15150; 15149; 15148; 15147; 15147; 15146; 15145; 15145;
  15144; 15143; 15142; 15142; 15141; 15140; 15140; 15139; 15138; 15137; 15137; 15136; 15135; 15135; 15134; 15133;
  15132; 15132; 15131; 15130; 15130; 15129; 15128; 15128; 15127; 15126; 15125; 15125; 15124; 15123; 15123; 15122;
  15121; 15121; 15120; 15119; 15119; 15118; 15117; 15117; 15116; 15115; 15114; 15114; 15113; 15112; 15112; 15111;
  15110; 15110; 15109; 15108; 15108; 15107; 15106; 15106; 15105; 15104; 15104; 15103; 15102; 15102; 15101; 15100;
  15100; 15099; 15098; 15098; 15097; 15096; 15096; 15095; 15094; 15094; 15093; 15092; 15092; 15091; 15090; 15090;
  15089; 15088; 15088; 15087; 15086; 15086; 15085; 15085; 15084; 15083; 15083; 15082; 15081; 15081; 15080; 15079;
  15079; 15078; 15077; 15077; 15076; 15076; 15075; 15074; 15074; 15073; 15072; 15072; 15071; 15070; 15070; 15069;
  15069; 15068; 15067; 15067; 15066; 15065; 15065; 15064; 15064; 15063; 15062; 15062; 15061; 15060; 15060; 15059;
  15059; 15058; 15057; 15057; 15056; 15055; 15055; 15054; 15054; 15053; 15052; 15052; 15051; 15051; 15050; 15049;
  15049; 15048; 15047; 15047; 15046; 15046; 15045; 15044; 15044; 15043; 15043; 15042; 15041; 15041; 15040; 15040;
  15039; 15038; 15038; 15037; 15037; 15036; 15035; 15035; 15034; 15034; 15033; 15032; 15032; 15031; 15031; 15030;
  15030; 15029; 15028; 15028; 15027; 15027; 15026; 15025; 15025; 15024; 15024; 15023; 15022; 15022; 15021; 15021;
  15020; 15020; 15019; 15018; 15018; 15017; 15017; 15016; 15016; 15015; 15014; 15014; 15013; 15013; 15012; 15012;
  15011; 15010; 15010; 15009; 15009; 15008; 15008; 15007; 15006; 15006; 15005; 15005; 15004; 15004; 15003; 15002;
  15002; 15001; 15001; 15000; 15000; 14999; 14999; 14998; 14997; 14997; 14996; 14996; 14995; 14995; 14994; 14994;
  14993; 14992; 14992; 14991; 14991; 14990; 14990; 14989; 14989; 14988; 14987; 14987; 14986; 14986; 14985; 14985;
  14984; 14984; 14983; 14983; 14982; 14981; 14981; 14980; 14980; 14979; 14979; 14978; 14978; 14977; 14977; 14976;
  14976; 14975; 14974; 14974; 14973; 14973; 14972; 14972; 14971; 14971; 14970; 14970; 14969; 14969; 14968; 14968;
  14967; 14967; 14966; 14965; 14965; 14964; 14964; 14963; 14963; 14962; 14962; 14961; 14961; 14960; 14960; 14959;
  14959; 14958; 14958; 14957; 14957; 14956; 14956; 14955; 14955; 14954; 14953; 14953; 14952; 14952; 14951; 14951;
  14950; 14950; 14949; 14949; 14948; 14948; 14947; 14947; 14946; 14946; 14945; 14945; 14944; 14944; 14943; 14943;
  14942; 14942; 14941; 14941; 14940; 14940; 14939; 14939; 14938; 14938; 14937; 14937; 14936; 14936; 14935; 14935;
  14934; 14934; 14933; 14933; 14932; 14932; 14931; 14931; 14930; 14930; 14929; 14929; 14928; 14928; 14927; 14927;
  14926; 14926; 14925; 14925; 14924; 14924; 14923; 14923; 14922; 14922; 14921; 14921; 14921; 14920; 14920; 14919;
  14919; 14918; 14918; 14917; 14917; 14916; 14916; 14915; 14915; 14914; 14914; 14913; 14913; 14912; 14912; 14911;
  14911; 14910; 14910; 14909; 14909; 14909; 14908; 14908; 14907; 14907; 14906; 14906; 14905; 14905; 14904; 14904;
  14903; 14903; 14902; 14902; 14901; 14901; 14901; 14900; 14900; 14899; 14899; 14898; 14898; 14897; 14897; 14896;
  14896; 14895; 14895; 14895; 14894; 14894; 14893; 14893; 14892; 14892; 14891; 14891; 14890; 14890; 14889; 14889;
  14889; 14888; 14888; 14887; 14887; 14886; 14886; 14885; 14885; 14884; 14884; 14884; 14883; 14883; 14882; 14882;
  14881; 14881; 14880; 14880; 14880; 14879; 14879; 14878; 14878; 14877; 14877; 14876; 14876; 14875; 14875; 14875;
  14874; 14874; 14873; 14873; 14872; 14872; 14871; 14871; 14871; 14870; 14870; 14869; 14869; 14868; 14868; 14868;
  14867; 14867; 14866; 14866; 14865; 14865; 14864; 14864; 14864; 14863; 14863; 14862; 14862; 14861; 14861; 14861;
  14860; 14860; 14859; 14859; 14858; 14858; 14858; 14857; 14857; 14856; 14856; 14855; 14855; 14855; 14854; 14854;
  14853; 14853; 14852; 14852; 14852; 14851; 14851; 14850; 14850; 14849; 14849; 14849; 14848; 14848; 14847; 14847;
  14847; 14846; 14846; 14845; 14845; 14844; 14844; 14844; 14843; 14843; 14842; 14842; 14841; 14841; 14841; 14840;
  14840; 14839; 14839; 14839; 14838; 14838; 14837; 14837; 14837; 14836; 14836; 14835; 14835; 14834; 14834; 14834;
  14833; 14833; 14832; 14832; 14832; 14831; 14831; 14830; 14830; 14830; 14829; 14829; 14828; 14828; 14828; 14827;
  14827; 14826; 14826; 14825; 14825; 14825; 14824; 14824; 14823; 14823; 14823; 14822; 14822; 14821; 14821; 14821;
  14820; 14820; 14819; 14819; 14819; 14818; 14818; 14817; 14817; 14817; 14816; 14816; 14815; 14815; 14815; 14814;
  14814; 14814; 14813; 14813; 14812; 14812; 14812; 14811; 14811; 14810; 14810; 14810; 14809; 14809; 14808; 14808;
  14808; 14807; 14807; 14806; 14806; 14806; 14805; 14805; 14805; 14804; 14804; 14803; 14803; 14803; 14802; 14802;
  14801; 14801; 14801; 14800; 14800; 14800; 14799; 14799; 14798; 14798; 14798; 14797; 14797; 14796; 14796; 14796;
  14795; 14795; 14795; 14794; 14794; 14793; 14793; 14793; 14792; 14792; 14792; 14791; 14791; 14790; 14790; 14790;
  14789; 14789; 14789; 14788; 14788; 14787; 14787; 14787; 14786; 14786; 14786; 14785; 14785; 14784; 14784; 14784;
  14783; 14783; 14783; 14782; 14782; 14781; 14781; 14781; 14780; 14780; 14780; 14779; 14779; 14779; 14778; 14778;
  14777; 14777; 14777; 14776; 14776; 14776; 14775; 14775; 14775; 14774; 14774; 14773; 14773; 14773; 14772; 14772;
  14772; 14771; 14771; 14771; 14770; 14770; 14769; 14769; 14769; 14768; 14768; 14768; 14767; 14767; 14767; 14766;
  14766; 14765; 14765; 14765; 14764; 14764; 14764; 14763; 14763; 14763; 14762; 14762; 14762; 14761; 14761; 14761
].

Definition Rsqrt_1 : list Z := [
  14760; 14759; 14759; 14758; 14757; 14757; 14756; 14755; 14755; 14754; 14753; 14752; 14752; 14751; 14750; 14750;
  14749; 14748; 14748; 14747; 14746; 14746; 14745; 14744; 14743; 14743; 14742; 14741; 14741; 14740; 14739; 14739;
  14738; 14737; 14737; 14736; 14735; 14735; 14734; 14733; 14733; 14732; 14731; 14731; 14730; 14729; 14729; 14728;
  14727; 14727; 14726; 14725; 14725; 14724; 14723; 14723; 14722; 14721; 14721; 14720; 14720; 14719; 14718; 14718;
  14717; 14716; 14716; 14715; 14714; 14714; 14713; 14712; 14712; 14711; 14711; 14710; 14709; 14709; 14708; 14707;
  14707; 14706; 14705; 14705; 14704; 14704; 14703; 14702; 14702; 14701; 14700; 14700; 14699; 14699; 14698; 14697;
  14697; 14696; 14695; 14695; 14694; 14694; 14693; 14692; 14692; 14691; 14691; 14690; 14689; 14689; 14688; 14688;
  14687; 14686; 14686; 14685; 14685; 14684; 14683; 14683; 14682; 14682; 14681; 14680; 14680; 14679; 14679; 14678;
  14677; 14677; 14676; 14676; 14675; 14674; 14674; 14673; 14673; 14672; 14671; 14671; 14670; 14670; 14669; 14669;
  14668; 14667; 14667; 14666; 14666; 14665; 14664; 14664; 14663; 14663; 14662; 14662; 14661; 14660; 14660; 14659;
  14659; 14658; 14658; 14657; 14656; 14656; 14655; 14655; 14654; 14654; 14653; 14653; 14652; 14651; 14651; 14650;
  14650; 14649; 14649; 14648; 14648; 14647; 14646; 14646; 14645; 14645; 14644; 14644; 14643; 14643; 14642; 14641;
  14641; 14640; 14640; 14639; 14639; 14638; 14638; 14637; 14637; 14636; 14635; 14635; 14634; 14634; 14633; 14633;
  14632; 14632; 14631; 14631; 14630; 14630; 14629; 14629; 14628; 14627; 14627; 14626; 14626; 14625; 14625; 14624;
  14624; 14623; 14623; 14622; 14622; 14621; 14621; 14620; 14620; 14619; 14619; 14618; 14618; 14617; 14616; 14616;
  14615; 14615; 14614; 14614; 14613; 14613; 14612; 14612; 14611; 14611; 14610; 14610; 14609; 14609; 14608; 14608;
  14607; 14607; 14606; 14606; 14605; 14605; 14604; 14604; 14603; 14603; 14602; 14602; 14601; 14601; 14600; 14600;
  14599; 14599; 14598; 14598; 14597; 14597; 14596; 14596; 14595; 14595; 14594; 14594; 14593; 14593; 14592; 14592;
  14591; 14591; 14590; 14590; 14589; 14589; 14588; 14588; 14587; 14587; 14587; 14586; 14586; 14585; 14585; 14584;
  14584; 14583; 14583; 14582; 14582; 14581; 14581; 14580; 14580; 14579; 14579; 14578; 14578; 14577; 14577; 14577;
  14576; 14576; 14575; 14575; 14574; 14574; 14573; 14573; 14572; 14572; 14571; 14571; 14570; 14570; 14570; 14569;
  14569; 14568; 14568; 14567; 14567; 14566; 14566; 14565; 14565; 14564; 14564; 14564; 14563; 14563; 14562; 14562;
  14561; 14561; 14560; 14560; 14559; 14559; 14559; 14558; 14558; 14557; 14557; 14556; 14556; 14555; 14555; 14555;
  14554; 14554; 14553; 14553; 14552; 14552; 14551; 14551; 14551; 14550; 14550; 14549; 14549; 14548; 14548; 14547;
  14547; 14547; 14546; 14546; 14545; 14545; 14544; 14544; 14543; 14543; 14543; 14542; 14542; 14541; 14541; 14540;
  14540; 14540; 14539; 14539; 14538; 14538; 14537; 14537; 14537; 14536; 14536; 14535; 14535; 14534; 14534; 14534;
  14533; 14533; 14532; 14532; 14531; 14531; 14531; 14530; 14530; 14529; 14529; 14529; 14528; 14528; 14527; 14527;
  14526; 14526; 14526; 14525; 14525; 14524; 14524; 14524; 14523; 14523; 14522; 14522; 14521; 14521; 14521; 14520;
  14520; 14519; 14519; 14519; 14518; 14518; 14517; 14517; 14517; 14516; 14516; 14515; 14515; 14515; 14514; 14514;
  14513; 14513; 14513; 14512; 14512; 14511; 14511; 14511; 14510; 14510; 14509; 14509; 14509; 14508; 14508; 14507;
  14507; 14507; 14506; 14506; 14505; 14505; 14505; 14504; 14504; 14503; 14503; 14503; 14502; 14502; 14501; 14501;
  14501; 14500; 14500; 14499; 14499; 14499; 14498; 14498; 14498; 14497; 14497; 14496; 14496; 14496; 14495; 14495;
  14494; 14494; 14494; 14493; 14493; 14492; 14492; 14492; 14491; 14491; 14491; 14490; 14490; 14489; 14489; 14489;
  14488; 14488; 14488; 14487; 14487; 14486; 14486; 14486; 14485; 14485; 14485; 14484; 14484; 14483; 14483; 14483;
  14482; 14482; 14482; 14481; 14481; 14480; 14480; 14480; 14479; 14479; 14479; 14478; 14478; 14477; 14477; 14477;
  14476; 14476; 14476; 14475; 14475; 14475; 14474; 14474; 14473; 14473; 14473; 14472; 14472; 14472; 14471; 14471;
  14471; 14470; 14470; 14469; 14469; 14469; 14468; 14468; 14468; 14467; 14467; 14467; 14466; 14466; 14465; 14465;
  14465; 14464; 14464; 14464; 14463; 14463; 14463; 14462; 14462; 14462; 14461; 14461; 14461; 14460; 14460; 14459;
  14459; 14459; 14458; 14458; 14458; 14457; 14457; 14457; 14456; 14456; 14456; 14455; 14455; 14455; 14454; 14454;
  14454; 14453; 14453; 14452; 14452; 14452; 14451; 14451; 14451; 14450; 14450; 14450; 14449; 14449; 14449; 14448;
  14448; 14448; 14447; 14447; 14447; 14446; 14446; 14446; 14445; 14445; 14445; 14444; 14444; 14444; 14443; 14443;
  14443; 14442; 14442; 14442; 14441; 14441; 14441; 14440; 14440; 14440; 14439; 14439; 14439; 14438; 14438; 14438;
  14437; 14437; 14437; 14436; 14436; 14436; 14435; 14435; 14435; 14434; 14434; 14434; 14433; 14433; 14433; 14432;
  14432; 14432; 14431; 14431; 14431; 14430; 14430; 14430; 14429; 14429; 14429; 14428; 14428; 14428; 14427; 14427;
  14427; 14426; 14426; 14426; 14426; 14425; 14425; 14425; 14424; 14424; 14424; 14423; 14423; 14423; 14422; 14422;
  14422; 14421; 14421; 14421; 14420; 14420; 14420; 14419; 14419; 14419; 14418; 14418; 14418; 14418; 14417; 14417;
  14417; 14416; 14416; 14416; 14415; 14415; 14415; 14414; 14414; 14414; 14413; 14413; 14413; 14413; 14412; 14412;
  14412; 14411; 14411; 14411; 14410; 14410; 14410; 14409; 14409; 14409; 14409; 14408; 14408; 14408; 14407; 14407;
  14407; 14406; 14406; 14406; 14405; 14405; 14405; 14405; 14404; 14404; 14404; 14403; 14403; 14403; 14402; 14402;
  14402; 14402; 14401; 14401; 14401; 14400; 14400; 14400; 14399; 14399; 14399; 14399; 14398; 14398; 14398; 14397;
  14397; 14397; 14396; 14396; 14396; 14396; 14395; 14395; 14395; 14394; 14394; 14394; 14394; 14393; 14393; 14393;
  14392; 14392; 14392; 14391; 14391; 14391; 14391; 14390; 14390; 14390; 14389; 14389; 14389; 14389; 14388; 14388;
  14388; 14387; 14387; 14387; 14387; 14386; 14386; 14386; 14385; 14385; 14385; 14384; 14384; 14384; 14384; 14383;
  14383; 14383; 14382; 14382; 14382; 14382; 14381; 14381; 14381; 14380; 14380; 14380; 14380; 14379; 14379; 14379;
  14379; 14378; 14378; 14378; 14377; 14377; 14377; 14377; 14376; 14376; 14376; 14375; 14375; 14375; 14375; 14374;
  14374; 14374; 14373; 14373; 14373; 14373; 14372; 14372; 14372; 14372; 14371; 14371; 14371; 14370; 14370; 14370;
  14370; 14369; 14369; 14369; 14368; 14368; 14368; 14368; 14367; 14367; 14367; 14367; 14366; 14366; 14366; 14365;
  14365; 14365; 14365; 14364; 14364; 14364; 14364; 14363; 14363; 14363; 14362; 14362; 14362; 14362; 14361; 14361;
  14361; 14361; 14360; 14360; 14360; 14360; 14359; 14359; 14359; 14358; 14358; 14358; 14358; 14357; 14357; 14357;
  14357; 14356; 14356; 14356; 14356; 14355; 14355; 14355; 14354; 14354; 14354; 14354; 14353; 14353; 14353; 14353;
  14352; 14352; 14352; 14352; 14351; 14351; 14351; 14351; 14350; 14350; 14350; 14350; 14349; 14349; 14349; 14348;
  14348; 14348; 14348; 14347; 14347; 14347; 14347; 14346; 14346; 14346; 14346; 14345; 14345; 14345; 14345; 14344;
  14344; 14344; 14344; 14343; 14343; 14343; 14343; 14342; 14342; 14342; 14342; 14341; 14341; 14341; 14341; 14340;
  14340; 14340; 14340; 14339; 14339; 14339; 14339; 14338; 14338; 14338; 14338; 14337; 14337; 14337; 14337; 14336
].

Definition Rsqrt : list Z :=
  Rsqrt_0 ++ Rsqrt_1.
