(* ===== verification/IeeeArith.v ===== *)
(** * Exact arithmetic inside a floating-point format

    [num p emax z e] is the format's value nearest to [z * 2^e].  When the number
    fits ([exact]), addition, subtraction, multiplication, comparison, scaling,
    [floor] and conversion all act on the integer [z] as on the number itself.
    The binary16 emulation of [SFUArithmetic] rests on these lemmas. *)

From Stdlib Require Import ZArith Lia.
From stdpp Require Import base numbers.
From S2P Require Import Prelude Ieee.

(** The value nearest to [z * 2^e] (a zero result is positive). *)
Definition num (p emax z e : Z) : spec_float := binary_normalize p emax z e false.

Definition exact (p emax z e : Z) : Prop := z = 0 \/ fits p emax (Z.abs z) e.

Section num_theory.
Context (p emax : Z).
Hypothesis Hp : 1 < p.
Hypothesis Hemax : 1 < emax.

Lemma num_0 e : num p emax 0 e = S754_zero false.
Proof. reflexivity. Qed.

Lemma num_round z e :
  z <> 0 -> num p emax z e = round_at p emax (z <? 0) (Z.abs z) e.
Proof.
  intros Hz. destruct z as [|q|q]; [done| |]; unfold num; cbn [binary_normalize];
    rewrite binary_round_spec by done; reflexivity.
Qed.

Lemma num_scale z e k : 0 <= k -> num p emax (z * 2 ^ k) e = num p emax z (e + k).
Proof.
  intros Hk. destruct (decide (z = 0)) as [->|Hz]; [rewrite Z.mul_0_l, !num_0; done|].
  pose proof (Z.pow_pos_nonneg 2 k ltac:(lia) ltac:(lia)).
  rewrite !num_round by nia. rewrite Z.abs_mul, (Z.abs_eq (2 ^ k)) by lia.
  rewrite round_at_scale by lia. f_equal.
  destruct (Z.ltb_spec z 0); destruct (Z.ltb_spec (z * 2 ^ k) 0); nia || reflexivity.
Qed.

(** Two scalings of one number are the same value. *)
Lemma num_eq z1 e1 z2 e2 k :
  k <= e1 -> k <= e2 -> z1 * 2 ^ (e1 - k) = z2 * 2 ^ (e2 - k) ->
  num p emax z1 e1 = num p emax z2 e2.
Proof.
  intros H1 H2 E.
  replace e1 with (k + (e1 - k)) by lia. rewrite <- num_scale by lia. rewrite E.
  rewrite num_scale by lia. f_equal. lia.
Qed.

Lemma num_finite z e :
  z <> 0 -> exact p emax z e ->
  exists m k, 0 <= k /\ Z.pos m = Z.abs z * 2 ^ k /\
    num p emax z e = S754_finite (z <? 0) m (e - k) /\
    valid_binary p emax (S754_finite (z <? 0) m (e - k)) = true.
Proof.
  intros Hz [?|Hf]; [done|]. pose proof Hf as (Hn & Hfe & Hm).
  set (f := fexp p emax (Zdigits2 (Z.abs z) + e)) in *.
  exists (Z.to_pos (Z.abs z * 2 ^ (e - f))), (e - f).
  pose proof (Z.pow_pos_nonneg 2 (e - f) ltac:(lia) ltac:(lia)).
  assert (E : num p emax z e =
    S754_finite (z <? 0) (Z.to_pos (Z.abs z * 2 ^ (e - f))) (e - (e - f))).
  { rewrite num_round, round_at_exact by done. fold f. f_equal. lia. }
  split; [lia|]. split; [apply Z2Pos.id; nia|]. split; [done|].
  rewrite <- E, num_round by done. by apply round_at_valid.
Qed.

Lemma num_canonical s m e :
  valid_binary p emax (S754_finite s m e) = true ->
  num p emax (cond_Zopp s (Z.pos m)) e = S754_finite s m e /\
  exact p emax (cond_Zopp s (Z.pos m)) e.
Proof.
  intros V. split.
  - rewrite num_round by (destruct s; done).
    rewrite <- (round_at_canonical p emax Hp Hemax s m e V). destruct s; reflexivity.
  - right. pose proof (fits_canonical p emax s m e V). destruct s; done.
Qed.

(** An operand of a sum, aligned on a smaller exponent. *)
Lemma shl_align_num z e m k ez :
  0 <= k -> Z.pos m = Z.abs z * 2 ^ k -> ez <= e - k ->
  cond_Zopp (z <? 0) (Z.pos (fst (shl_align m (e - k) ez))) = z * 2 ^ (e - ez).
Proof.
  intros Hk Hm He. rewrite shl_align_spec.
  assert (Z.pos m * 2 ^ (e - k - ez) = Z.abs z * 2 ^ (e - ez)) as E.
  { rewrite Hm, <- Z.mul_assoc, <- Z.pow_add_r by lia. do 2 f_equal. lia. }
  assert (Z.pos (fst (if ez <? e - k then (Z.to_pos (Z.pos m * 2 ^ (e - k - ez)), ez) else (m, e - k)))
          = Z.abs z * 2 ^ (e - ez)) as ->.
  { rewrite <- E. pose proof (Z.pow_pos_nonneg 2 (e - k - ez) ltac:(lia) ltac:(lia)).
    destruct (Z.ltb_spec ez (e - k)); cbn [fst]; [apply Z2Pos.id; nia|].
    replace (e - k - ez) with 0 by lia. lia. }
  destruct (Z.ltb_spec z 0); cbn [cond_Zopp]; lia.
Qed.

Lemma num_sum_scale a ea b eb ez k :
  ez <= ea -> ez <= eb -> k <= ea -> k <= eb ->
  num p emax (a * 2 ^ (ea - ez) + b * 2 ^ (eb - ez)) ez =
  num p emax (a * 2 ^ (ea - k) + b * 2 ^ (eb - k)) k.
Proof.
  intros. apply num_eq with (k := Z.min ez k); try lia.
  rewrite !Z.mul_add_distr_r, <- !Z.mul_assoc, <- !Z.pow_add_r by lia.
  do 2 f_equal; f_equal; lia.
Qed.

Lemma SFadd_num a ea b eb k :
  exact p emax a ea -> exact p emax b eb -> k <= ea -> k <= eb ->
  SFadd p emax (num p emax a ea) (num p emax b eb) =
  num p emax (a * 2 ^ (ea - k) + b * 2 ^ (eb - k)) k.
Proof.
  intros Ha Hb Hka Hkb.
  destruct (decide (a = 0)) as [->|Na]; destruct (decide (b = 0)) as [->|Nb].
  - reflexivity.
  - destruct (num_finite b eb Nb Hb) as (m & j & Hj & Hm & E & _). rewrite num_0.
    rewrite E at 1. cbn [SFadd]. rewrite <- E. apply num_eq with k; try lia.
    rewrite Z.sub_diag, Z.pow_0_r. lia.
  - destruct (num_finite a ea Na Ha) as (m & j & Hj & Hm & E & _). rewrite num_0.
    rewrite E at 1. cbn [SFadd]. rewrite <- E. apply num_eq with k; try lia.
    rewrite Z.sub_diag, Z.pow_0_r. lia.
  - destruct (num_finite a ea Na Ha) as (m1 & j1 & Hj1 & Hm1 & E1 & _).
    destruct (num_finite b eb Nb Hb) as (m2 & j2 & Hj2 & Hm2 & E2 & _).
    rewrite E1, E2. cbn [SFadd]. cbv zeta. rewrite !shl_align_num by (done || lia).
    apply num_sum_scale; lia.
Qed.

Lemma SFsub_num a ea b eb k :
  exact p emax a ea -> exact p emax b eb -> k <= ea -> k <= eb ->
  SFsub p emax (num p emax a ea) (num p emax b eb) =
  num p emax (a * 2 ^ (ea - k) - b * 2 ^ (eb - k)) k.
Proof.
  intros Ha Hb Hka Hkb.
  destruct (decide (b = 0)) as [->|Nb].
  { assert (SFsub p emax (num p emax a ea) (num p emax 0 eb) = num p emax a ea) as ->.
    { destruct (decide (a = 0)) as [->|Na]; [reflexivity|].
      destruct (num_finite a ea Na Ha) as (m1 & j1 & Hj1 & Hm1 & E1 & _). rewrite E1. reflexivity. }
    apply num_eq with k; try lia. rewrite Z.sub_diag, Z.pow_0_r. lia. }
  destruct (num_finite b eb Nb Hb) as (m2 & j2 & Hj2 & Hm2 & E2 & V2).
  destruct (decide (a = 0)) as [->|Na].
  - rewrite num_0, E2. cbn [SFsub].
    assert (V2' : valid_binary p emax (S754_finite (negb (b <? 0)) m2 (eb - j2)) = true) by exact V2.
    rewrite <- (proj1 (num_canonical _ _ _ V2')). apply num_eq with (Z.min k (eb - j2)); try lia.
    replace (cond_Zopp (negb (b <? 0)) (Z.pos m2)) with (- b * 2 ^ j2)
      by (rewrite Hm2; destruct (Z.ltb_spec b 0); cbn [negb cond_Zopp]; lia).
    replace (0 * 2 ^ (ea - k) - b * 2 ^ (eb - k)) with (- b * 2 ^ (eb - k)) by lia.
    rewrite <- (Z.mul_assoc (- b)), <- (Z.mul_assoc (- b)), <- !Z.pow_add_r by lia. do 2 f_equal. lia.
  - destruct (num_finite a ea Na Ha) as (m1 & j1 & Hj1 & Hm1 & E1 & _).
    rewrite E1, E2. cbn [SFsub]. cbv zeta. rewrite !shl_align_num by (done || lia).
    set (ez := Z.min _ _). fold (num p emax (a * 2 ^ (ea - ez) - b * 2 ^ (eb - ez)) ez).
    pose proof (num_sum_scale a ea (- b) eb ez k ltac:(lia) ltac:(lia) Hka Hkb) as E.
    rewrite !Z.mul_opp_l, !Z.add_opp_r in E. exact E.
Qed.

Hypothesis Hemin : SpecFloat.emin p emax <= 0.

(** The product of two canonical values is rounded once. *)
Lemma SFmul_canonical sx mx ex sy my ey :
  valid_binary p emax (S754_finite sx mx ex) = true ->
  valid_binary p emax (S754_finite sy my ey) = true ->
  SFmul p emax (S754_finite sx mx ex) (S754_finite sy my ey) =
  round_at p emax (xorb sx sy) (Z.pos mx * Z.pos my) (ex + ey).
Proof.
  intros Vx Vy. cbn [SFmul]. rewrite Pos2Z.inj_mul.
  apply binary_round_aux_exact; [done..|].
  cbn in Vx, Vy. unfold bounded, canonical_mantissa in Vx, Vy. boolify.
  change (Z.pos (digits2_pos mx)) with (Zdigits2 (Z.pos mx)) in *.
  change (Z.pos (digits2_pos my)) with (Zdigits2 (Z.pos my)) in *.
  set (d1 := Zdigits2 (Z.pos mx)) in *. set (d2 := Zdigits2 (Z.pos my)) in *.
  assert (d1 + d2 - 1 <= Zdigits2 (Z.pos mx * Z.pos my)) as Hd.
  { pose proof (Z.log2_mul_below (Z.pos mx) (Z.pos my) ltac:(lia) ltac:(lia)).
    unfold d1, d2. rewrite !Zdigits2_log2 by lia. lia. }
  assert (1 <= d1) by (unfold d1; rewrite Zdigits2_log2 by lia; pose proof (Z.log2_nonneg (Z.pos mx)); lia).
  assert (1 <= d2) by (unfold d2; rewrite Zdigits2_log2 by lia; pose proof (Z.log2_nonneg (Z.pos my)); lia).
  unfold fexp in *. lia.
Qed.

Lemma SFmul_num a ea b eb :
  a <> 0 -> b <> 0 -> exact p emax a ea -> exact p emax b eb ->
  SFmul p emax (num p emax a ea) (num p emax b eb) = num p emax (a * b) (ea + eb).
Proof.
  intros Na Nb Ha Hb.
  destruct (num_finite a ea Na Ha) as (m1 & j1 & Hj1 & Hm1 & E1 & V1).
  destruct (num_finite b eb Nb Hb) as (m2 & j2 & Hj2 & Hm2 & E2 & V2).
  rewrite E1, E2, SFmul_canonical by done. rewrite num_round by nia.
  rewrite Hm1, Hm2.
  replace (Z.abs a * 2 ^ j1 * (Z.abs b * 2 ^ j2)) with (Z.abs (a * b) * 2 ^ (j1 + j2))
    by (rewrite Z.pow_add_r, Z.abs_mul by lia; lia).
  rewrite round_at_scale by nia. f_equal; [|lia].
  destruct (Z.ltb_spec a 0); destruct (Z.ltb_spec b 0); destruct (Z.ltb_spec (a * b) 0); nia || reflexivity.
Qed.

(** Canonical magnitudes are ordered by exponent first. *)
Lemma canonical_lt s1 m1 e1 s2 m2 e2 k :
  valid_binary p emax (S754_finite s1 m1 e1) = true ->
  valid_binary p emax (S754_finite s2 m2 e2) = true ->
  k <= e1 -> e1 < e2 -> Z.pos m1 * 2 ^ (e1 - k) < Z.pos m2 * 2 ^ (e2 - k).
Proof.
  intros V1 V2 Hk He. cbn in V1, V2. unfold bounded, canonical_mantissa in V1, V2. boolify.
  change (Z.pos (digits2_pos m1)) with (Zdigits2 (Z.pos m1)) in *.
  change (Z.pos (digits2_pos m2)) with (Zdigits2 (Z.pos m2)) in *. unfold fexp in *.
  pose proof (Zdigits2_bounds (Z.pos m1) ltac:(lia)) as [_ B1].
  pose proof (Zdigits2_bounds (Z.pos m2) ltac:(lia)) as [B2 _].
  assert (Z.pos m1 < 2 ^ p) by (eapply Z.lt_le_trans; [exact B1|]; apply Z.pow_le_mono_r; lia).
  assert (2 ^ (p - 1) <= Z.pos m2)
    by (replace (p - 1) with (Zdigits2 (Z.pos m2) - 1) by lia; lia).
  replace (e2 - k) with (e1 - k + (1 + (e2 - e1 - 1))) by lia.
  rewrite !(Z.pow_add_r 2 (e1 - k)), !(Z.pow_add_r 2 1), Z.pow_1_r by lia.
  assert (2 ^ p = 2 * 2 ^ (p - 1)) by (rewrite <- Z.pow_succ_r by lia; f_equal; lia).
  pose proof (Z.pow_pos_nonneg 2 (e1 - k) ltac:(lia) ltac:(lia)).
  pose proof (Z.pow_pos_nonneg 2 (e2 - e1 - 1) ltac:(lia) ltac:(lia)).
  apply Z.lt_le_trans with (2 ^ p * 2 ^ (e1 - k)); [nia|].
  assert (2 ^ p <= Z.pos m2 * (2 * 2 ^ (e2 - e1 - 1))) by nia. nia.
Qed.

(** Comparison of canonical magnitudes is comparison of the numbers. *)
Lemma canonical_compare s1 m1 e1 s2 m2 e2 k :
  valid_binary p emax (S754_finite s1 m1 e1) = true ->
  valid_binary p emax (S754_finite s2 m2 e2) = true ->
  k <= e1 -> k <= e2 ->
  match Z.compare e1 e2 with Lt => Lt | Gt => Gt | Eq => Pos.compare_cont Eq m1 m2 end =
  (Z.pos m1 * 2 ^ (e1 - k) ?= Z.pos m2 * 2 ^ (e2 - k)).
Proof.
  intros V1 V2 H1 H2. destruct (Z.compare_spec e1 e2) as [->|L|L]; symmetry.
  - pose proof (Z.pow_pos_nonneg 2 (e2 - k) ltac:(lia) ltac:(lia)).
    rewrite <- (Zmult_compare_compat_r _ _ (2 ^ (e2 - k))) by lia. reflexivity.
  - apply Z.compare_lt_iff. by eapply canonical_lt.
  - apply Z.compare_gt_iff. by eapply canonical_lt.
Qed.

Lemma SFcompare_num a ea b eb k :
  exact p emax a ea -> exact p emax b eb -> k <= ea -> k <= eb ->
  SFcompare (num p emax a ea) (num p emax b eb) =
  Some (a * 2 ^ (ea - k) ?= b * 2 ^ (eb - k)).
Proof.
  intros Ha Hb Hka Hkb.
  pose proof (Z.pow_pos_nonneg 2 (ea - k) ltac:(lia) ltac:(lia)) as Pa.
  pose proof (Z.pow_pos_nonneg 2 (eb - k) ltac:(lia) ltac:(lia)) as Pb.
  destruct (decide (a = 0)) as [->|Na]; destruct (decide (b = 0)) as [->|Nb].
  - reflexivity.
  - destruct (num_finite b eb Nb Hb) as (m & j & Hj & Hm & E & _). rewrite E. cbn [num binary_normalize SFcompare].
    f_equal. symmetry. destruct (Z.ltb_spec b 0); [apply Z.compare_gt_iff|apply Z.compare_lt_iff]; nia.
  - destruct (num_finite a ea Na Ha) as (m & j & Hj & Hm & E & _). rewrite E. cbn [num binary_normalize SFcompare].
    f_equal. symmetry. destruct (Z.ltb_spec a 0); [apply Z.compare_lt_iff|apply Z.compare_gt_iff]; nia.
  - destruct (num_finite a ea Na Ha) as (m1 & j1 & Hj1 & Hm1 & E1 & V1).
    destruct (num_finite b eb Nb Hb) as (m2 & j2 & Hj2 & Hm2 & E2 & V2).
    rewrite E1, E2. cbn [SFcompare]. f_equal.
    set (k' := Z.min k (Z.min (ea - j1) (eb - j2))).
    pose proof (canonical_compare _ _ _ _ _ _ k' V1 V2 ltac:(lia) ltac:(lia)) as C.
    assert (Q : forall z e m j, 0 <= j -> k <= e -> k' <= e - j -> Z.pos m = Z.abs z * 2 ^ j ->
              Z.pos m * 2 ^ (e - j - k') = Z.abs z * 2 ^ (e - k) * 2 ^ (k - k')).
    { intros z e m j Hj Hk Hk' ->. rewrite <- !Z.mul_assoc, <- !Z.pow_add_r by lia. do 2 f_equal. lia. }
    rewrite (Q a ea m1 j1), (Q b eb m2 j2) in C by lia. clear Q.
    pose proof (Z.pow_pos_nonneg 2 (k - k') ltac:(lia) ltac:(lia)).
    rewrite <- (Zmult_compare_compat_r _ _ (2 ^ (k - k'))) in C by lia.
    destruct (Z.ltb_spec a 0); destruct (Z.ltb_spec b 0).
    + rewrite (Z.abs_neq a), (Z.abs_neq b), !Z.mul_opp_l in C by lia.
      rewrite (Z.compare_opp (a * 2 ^ (ea - k)) (b * 2 ^ (eb - k))) in C.
      rewrite (Z.compare_antisym (b * 2 ^ (eb - k)) (a * 2 ^ (ea - k))), <- C.
      destruct (ea - j1 ?= eb - j2); reflexivity.
    + symmetry. apply Z.compare_lt_iff. nia.
    + symmetry. apply Z.compare_gt_iff. nia.
    + rewrite !Z.abs_eq in C by lia. exact C.
Qed.

Lemma exact_intro z e :
  Z.abs z < 2 ^ p -> SpecFloat.emin p emax <= e <= emax - p -> exact p emax z e.
Proof.
  intros Hz He. destruct (decide (z = 0)) as [->|]; [by left|]. right.
  apply fits_intro; [lia..|].
  rewrite Zdigits2_log2 by lia.
  assert (Z.log2 (Z.abs z) < p) by (apply Z.log2_lt_pow2; lia). lia.
Qed.

(** The exponent may shrink as long as the integer absorbs it. *)
Lemma exact_unscale z e k : 0 <= k -> exact p emax (z * 2 ^ k) e -> exact p emax z (e + k).
Proof.
  intros Hk. pose proof (Z.pow_pos_nonneg 2 k ltac:(lia) ltac:(lia)).
  intros [E|(Hn & Hf & Hm)]; [left; nia|right].
  rewrite Z.abs_mul, (Z.abs_eq (2 ^ k)) in * by lia. rewrite Zdigits2_pow2 in * by lia.
  split; [lia|]. replace (Zdigits2 (Z.abs z) + (e + k)) with (Zdigits2 (Z.abs z) + k + e) by lia.
  lia.
Qed.
End num_theory.

(** A conversion out of an exact value rounds the number once. *)
Lemma SFconv_num p emax p' emax' z e :
  1 < p -> 1 < emax -> 1 < p' -> 1 < emax' -> exact p emax z e ->
  SFconv p' emax' (num p emax z e) = num p' emax' z e.
Proof.
  intros Hp He Hp' He' H. destruct (decide (z = 0)) as [->|Hz]; [reflexivity|].
  destruct H as [?|H]; [done|]. rewrite !num_round by done. by apply round_of_exact.
Qed.

Lemma ldexp_num z e k :
  exact prec64 emax64 z e -> ldexp (num prec64 emax64 z e) k = num prec64 emax64 z (e + k).
Proof.
  intros H. destruct (decide (z = 0)) as [->|Hz]; [reflexivity|].
  destruct H as [?|H]; [done|]. rewrite !num_round by (done || reflexivity). by apply ldexp_exact.
Qed.

Lemma floor_num z e :
  0 <= z -> exact prec64 emax64 z e ->
  floor (num prec64 emax64 z e) =
  num prec64 emax64 (if 0 <=? e then z * 2 ^ e else z / 2 ^ (- e)) 0.
Proof.
  intros H0 H. destruct (decide (z = 0)) as [->|Hz].
  { rewrite Zdiv_0_l. destruct (0 <=? e); reflexivity. }
  destruct (num_finite prec64 emax64 eq_refl eq_refl z e Hz H) as (m & k & Hk & Hm & E & _).
  rewrite E. cbn [floor]. rewrite (proj2 (Z.ltb_ge z 0)) in * by lia.
  rewrite Z.abs_eq in Hm by lia.
  destruct (Z.leb_spec 0 (e - k)); destruct (Z.leb_spec 0 e); try lia.
  - rewrite <- E. apply num_eq with 0; try (reflexivity || lia). rewrite !Z.sub_0_r, Z.pow_0_r. lia.
  - cbn [cond_Zopp]. unfold num. f_equal. rewrite Hm.
    replace (z * 2 ^ k) with (z * 2 ^ e * 2 ^ (- (e - k)))
      by (rewrite <- Z.mul_assoc, <- Z.pow_add_r by lia; do 2 f_equal; lia).
    apply Z.div_mul. apply Z.pow_nonzero; lia.
  - cbn [cond_Zopp]. unfold num. f_equal. rewrite Hm.
    replace (- (e - k)) with (- e + k) by lia. rewrite Z.pow_add_r by lia.
    apply Z.div_mul_cancel_r; apply Z.pow_nonzero; lia.
Qed.

(** ** Moving between formats *)

Lemma exact_widen p emax p' emax' z e :
  p <= p' -> emax <= emax' -> SpecFloat.emin p' emax' <= SpecFloat.emin p emax ->
  exact p emax z e -> exact p' emax' z e.
Proof.
  intros Hp He Hm [?|(Hn & Hf & Hd)]; [by left|right].
  split; [done|]. unfold fexp in *. lia.
Qed.

Lemma round_at_0 p emax s e : round_at p emax s 0 e = S754_zero s.
Proof.
  unfold round_at. rewrite Z.mul_0_l. unfold rne. rewrite Zdiv_0_l, Zmod_0_l.
  destruct (_ <=? _) eqn:L; [reflexivity|]. boolify.
  assert (0 < 2 ^ (fexp p emax (Zdigits2 0 + e) - e)) by (apply Z.pow_pos_nonneg; lia).
  rewrite (proj2 (Z.ltb_lt _ _)) by lia. reflexivity.
Qed.

Lemma valid_mantissa p emax s m e :
  valid_binary p emax (S754_finite s m e) = true -> 0 < p ->
  Z.pos m < 2 ^ p /\ SpecFloat.emin p emax <= e <= emax - p.
Proof.
  cbn. unfold bounded, canonical_mantissa. intros V Hp. boolify.
  change (Z.pos (digits2_pos m)) with (Zdigits2 (Z.pos m)) in *. unfold fexp in *.
  split; [|lia]. pose proof (Zdigits2_bounds (Z.pos m) ltac:(lia)) as [_ B].
  eapply Z.lt_le_trans; [exact B|]. apply Z.pow_le_mono_r; lia.
Qed.

Lemma SFabs_num p emax z e :
  1 < p -> 1 < emax -> exact p emax z e -> SFabs (num p emax z e) = num p emax (Z.abs z) e.
Proof.
  intros Hp He H. destruct (decide (z = 0)) as [->|Hz]; [reflexivity|].
  destruct H as [?|H]; [done|]. rewrite !num_round by lia.
  rewrite Z.abs_idemp, (proj2 (Z.ltb_ge (Z.abs z) 0)) by lia.
  rewrite !round_at_exact by apply H || done. reflexivity.
Qed.

Lemma copysign_num p emax z e s x :
  1 < p -> 1 < emax -> 0 <= z -> exact p emax z e -> signbit x = s ->
  copysign (num p emax z e) x = round_at p emax s z e.
Proof.
  intros Hp He Hz H <-. destruct (decide (z = 0)) as [->|Nz].
  { rewrite num_0, round_at_0. reflexivity. }
  destruct H as [?|H]; [done|]. rewrite num_round by done.
  rewrite Z.abs_eq in * by lia. rewrite !round_at_exact by apply H || done. reflexivity.
Qed.

Lemma signbit_round_at p emax s z e : signbit (round_at p emax s z e) = s.
Proof. unfold round_at. repeat case_if; reflexivity. Qed.

(** ** More on [rne] *)

Lemma rne_scale m n j : 0 <= n -> 0 <= j -> rne (m * 2 ^ j) (n + j) = rne m n.
Proof.
  intros Hn Hj. pattern j. apply natlike_ind; [|clear j Hj; intros j Hj IH|done].
  - rewrite Z.pow_0_r, Z.mul_1_r, Z.add_0_r. reflexivity.
  - rewrite Z.pow_succ_r by lia. replace (m * (2 * 2 ^ j)) with (2 * (m * 2 ^ j)) by lia.
    replace (n + Z.succ j) with (n + j + 1) by lia. rewrite rne_double by lia. exact IH.
Qed.

(** An even bound is reached from half a unit below it. *)
Lemma rne_ge_even K m n :
  0 <= n -> Z.even K = true -> K <= rne m n <-> (2 * K - 1) * 2 ^ n <= 2 * m.
Proof.
  intros Hn HK. assert (0 < 2 ^ n) by (apply Z.pow_pos_nonneg; lia).
  pose proof (Z.div_mod m (2 ^ n) ltac:(lia)). pose proof (Z.mod_pos_bound m (2 ^ n) ltac:(lia)).
  unfold rne. set (q := m / 2 ^ n) in *. set (r := m mod 2 ^ n) in *.
  destruct (Z.ltb_spec (2 * r) (2 ^ n)); [split; intros; nia|].
  destruct (Z.ltb_spec (2 ^ n) (2 * r)); [split; intros; nia|].
  destruct (Z.even q) eqn:Ev; [|split; intros; nia].
  split; [nia|]. intros C. assert (K - 1 <= q) by nia.
  destruct (Z.eq_dec q (K - 1)) as [E|]; [|lia].
  rewrite E, Z.even_sub, HK in Ev. discriminate.
Qed.

(** ** Every rounding is a value of the format *)

Section rounding_valid.
Context (p emax : Z).
Hypothesis Hp : 1 < p.
Hypothesis Hemax : 1 < emax.

Lemma finite_valid s q f :
  0 < q < 2 ^ p -> f <= emax - p -> SpecFloat.emin p emax <= f -> (2 ^ (p - 1) <= q \/ f = SpecFloat.emin p emax) ->
  valid_binary p emax (S754_finite s (Z.to_pos q) f) = true.
Proof.
  intros Hq Hf He Hn. cbn. unfold bounded, canonical_mantissa.
  change (Z.pos (digits2_pos ?x)) with (Zdigits2 (Z.pos x)). rewrite Z2Pos.id by lia.
  apply andb_true_intro. split; [|apply Z.leb_le; lia]. apply Z.eqb_eq.
  pose proof (Zdigits2_bounds q ltac:(lia)) as [B1 B2].
  assert (Hd : Zdigits2 q <= p).
  { rewrite Zdigits2_log2 by lia. assert (Z.log2 q < p) by (apply Z.log2_lt_pow2; lia). lia. }
  unfold fexp. destruct Hn as [Hn|Hn]; [|unfold fexp in *; lia].
  assert (p <= Zdigits2 q); [|lia].
  rewrite Zdigits2_log2 by lia. assert (p - 1 <= Z.log2 q) by (apply Z.log2_le_pow2; lia). lia.
Qed.

(** Rounding always gives a value of the format. *)
Lemma round_at_format s m e : 0 < m -> valid_binary p emax (round_at p emax s m e) = true.
Proof.
  intros Hm. unfold round_at. set (d := Zdigits2 m + e). set (f := fexp p emax d).
  pose proof (fexp_ge_emin p emax d) as Hf. fold f in Hf.
  pose proof (Zdigits2_bounds m Hm) as [B1 B2].
  assert (Hd : 0 < Zdigits2 m) by (rewrite Zdigits2_log2 by done; pose proof (Z.log2_nonneg m); lia).
  set (q := if f <=? e then m * 2 ^ (e - f) else rne m (f - e)).
  assert (Hq : 0 <= q <= 2 ^ p /\ (2 ^ (p - 1) <= q \/ f = SpecFloat.emin p emax)).
  { assert (Hfd : f = d - p \/ f = SpecFloat.emin p emax) by (unfold f, fexp; lia).
    assert (Hfge : d - p <= f) by (unfold f, fexp; lia).
    unfold q. destruct (Z.leb_spec f e) as [Hle|Hlt].
    - pose proof (Z.pow_pos_nonneg 2 (e - f) ltac:(lia) ltac:(lia)).
      assert (2 ^ Zdigits2 m * 2 ^ (e - f) <= 2 ^ p)
        by (rewrite <- Z.pow_add_r by lia; apply Z.pow_le_mono_r; unfold d in *; lia).
      split; [nia|]. destruct Hfd as [Hfd|]; [left|by right].
      assert (2 ^ (Zdigits2 m - 1) * 2 ^ (e - f) = 2 ^ (p - 1))
        by (rewrite <- Z.pow_add_r by lia; f_equal; unfold d in *; lia). nia.
    - split; [apply (rne_fexp_bound p emax Hp m e Hm); exact Hlt|].
      destruct Hfd as [Hfd|]; [left|by right].
      assert (2 ^ (p - 1) <= m / 2 ^ (f - e)).
      { apply Z.div_le_lower_bound; [apply Z.pow_pos_nonneg; lia|].
        rewrite <- Z.pow_add_r by lia. etransitivity; [|exact B1]. apply Z.pow_le_mono_r; unfold d in *; lia. }
      pose proof (rne_bounds m (f - e) ltac:(lia) ltac:(lia)). lia. }
  destruct Hq as [Hq1 Hq2].
  destruct (Z.eqb_spec q 0); [done|]. destruct (Z.eqb_spec q (2 ^ p)).
  - destruct (Z.leb_spec (f + 1) (emax - p)); [|done]. apply finite_valid; try lia.
    split; [apply Z.pow_pos_nonneg; lia|]. apply Z.pow_lt_mono_r; lia.
  - destruct (Z.leb_spec f (emax - p)); [|done]. apply finite_valid; lia.
Qed.
End rounding_valid.
