(* ===== verification/Lut.v ===== *)
(** * The FP16 lookup ROM ([src/src/sst/elements/golem/sfu/lut.h])

    [SFULut] decodes reciprocal, square root, reciprocal square root and
    exponential from the ROM banks of [LutTables].  The 64 Ki-entry SiLU ROM
    ([silu_lut_tables.h]) is the argument [SiLU] of [SFULut_silu].  Arguments
    are [double]s that already hold a binary16 value. *)

From Stdlib Require Import ZArith Lia List.
From stdpp Require Import base numbers.
From S2P Require Import Prelude Ieee Fp16 LutTables.

(** [table[i]]; the theorems below show that every index is in range. *)
Definition rom_at (table : list Z) (i : Z) : Z := nth (Z.to_nat i) table 0.

Definition SFULut_bits (x : spec_float) : Z := golem_float_to_fp16 (bits_of_float (to_float x)).
Definition SFULut_decode (x : Z) : spec_float := to_double (float_of_bits (golem_fp16_to_float x)).

Definition SFULut_silu (SiLU : Z -> Z) (x : spec_float) : spec_float :=
  SFULut_decode (SiLU (SFULut_bits x)).

Definition SFULut_exp (x : spec_float) : spec_float :=
  let raw := SFULut_bits x in
  let mag := Z.land raw 0x7fff in
  if 0x7c00 <? mag then S754_nan
  else if negb (Z.land raw 0x8000 =? 0) then
    if mag <? ExpNegativeBegin then SFone prec64 emax64
    else if ExpNegativeEnd <=? mag then S754_zero false
    else
      let index := u32 (mag - ExpNegativeBegin) in
      SFULut_decode (u16 (rom_at ExpNegativeBase (index / ExpBlockEntries) -
                          rom_at ExpNegativeDelta index))
  else if mag <? ExpPositiveBegin then SFone prec64 emax64
  else if ExpPositiveEnd <=? mag then S754_infinity false
  else
    let index := u32 (mag - ExpPositiveBegin) in
    SFULut_decode (u16 (rom_at ExpPositiveBase (index / ExpBlockEntries) +
                        rom_at ExpPositiveDelta index)).

(** [while(mantissa<1024){mantissa<<=1;--exponent;}] *)
Fixpoint SFULut_normalize_loop (fuel : nat) (exponent mantissa : Z) : Z * Z :=
  match fuel with
  | O => (exponent, mantissa)
  | S fuel' =>
      if mantissa <? 1024
      then SFULut_normalize_loop fuel' (exponent - 1) (u16 (Z.shiftl mantissa 1))
      else (exponent, mantissa)
  end.

Definition SFULut_normalize (raw : Z) : Z * Z :=
  if Z.shiftr raw 10 =? 0 then
    let '(exponent, mantissa) := SFULut_normalize_loop 11 (-14) (Z.land raw 0x3ff) in
    (exponent, Z.land mantissa 0x3ff)
  else (Z.shiftr raw 10 - 15, Z.land raw 0x3ff).

Definition SFULut_reciprocal (x : spec_float) : spec_float :=
  let raw := SFULut_bits x in
  let mag := Z.land raw 0x7fff in
  if 0x7c00 <? mag then S754_nan
  else if mag =? 0 then copysign (S754_infinity false) x
  else if mag =? 0x7c00 then copysign (S754_zero false) x
  else
    let '(exponent, mantissa) := SFULut_normalize mag in
    let bank := if 14 <=? exponent then u32 (exponent - 13) else 0 in
    copysign
      (ldexp (SFULut_decode (rom_at Reciprocal (u32 (bank * 1024 + mantissa)))) (- exponent)) x.

(** [exponent%2] and the division by two truncate, as in C++. *)
Definition SFULut_root (x : spec_float) (inverse : bool) : spec_float :=
  let raw := SFULut_bits x in
  let mag := Z.land raw 0x7fff in
  if (0x7c00 <? mag) || (negb (Z.land raw 0x8000 =? 0) && negb (mag =? 0)) then S754_nan
  else if mag =? 0 then (if inverse then copysign (S754_infinity false) x else x)
  else if mag =? 0x7c00 then (if inverse then S754_zero false else x)
  else
    let '(exponent, mantissa) := SFULut_normalize mag in
    let parity := Z.rem (Z.rem exponent 2 + 2) 2 in
    let shift := Z.quot (exponent - parity) 2 in
    let index := u32 (parity * 1024 + mantissa) in
    ldexp (SFULut_decode (if inverse then rom_at Rsqrt index else rom_at Sqrt index))
      (if inverse then - shift else shift).

(** ROM sizes reported by the class, in bytes. *)
Definition SFULut_expBytes : Z :=
  2 * Z.of_nat (length ExpPositiveBase) + Z.of_nat (length ExpPositiveDelta) +
  2 * Z.of_nat (length ExpNegativeBase) + Z.of_nat (length ExpNegativeDelta).
Definition SFULut_reciprocalBytes : Z := 2 * Z.of_nat (length Reciprocal).
Definition SFULut_sqrtBytes : Z := 2 * Z.of_nat (length Sqrt).
Definition SFULut_rsqrtBytes : Z := 2 * Z.of_nat (length Rsqrt).
Definition SFULut_expDecodeLatency : Z := 1.

Example lut_sqrt_two :
  SFULut_bits (SFULut_root (SFULut_decode 0x4000) false) = 0x3da8.
Proof. vm_compute. reflexivity. Qed.
Example lut_reciprocal_three :
  SFULut_bits (SFULut_reciprocal (SFULut_decode 0x4200)) = 0x3555.
Proof. vm_compute. reflexivity. Qed.
Example lut_exp_one :
  SFULut_bits (SFULut_exp (SFULut_decode 0x3c00)) = 0x4170.
Proof. vm_compute. reflexivity. Qed.
