(* ===== verification/Arithmetic.v ===== *)
(** * SFU arithmetic ([src/src/sst/elements/golem/sfu/arithmetic.h])

    [SFUArithmetic] emulates the special-function unit's binary16 datapath on
    host [float]/[double] carriers.  A carrier value is a [spec_float] together
    with the [carrier] it is stored in; every [template<class T>] member takes the
    carrier first.  The transcendental functions of libm and the SiLU ROM are
    parameters ([Class Libm]); everything else is computed.

    [round_correct] shows that the frexp/ldexp/floor rounding is IEEE
    round-to-nearest-even to binary16; on top of it [add], [sub] and [mul] are the
    IEEE binary16 operations on the rounded operands, and [treeSum]'s in-place
    loop is the balanced pairwise tree. *)

From Stdlib Require Import ZArith Lia String.
From stdpp Require Import base numbers list.
From S2P Require Import Prelude Ieee IeeeArith Lut.

Inductive SFUInternalPrecision := FP32 | FP16.
Inductive SFUNonlinearBackend := BackendLibm | BackendLut.

#[export] Instance SFUInternalPrecision_eq_dec : EqDecision SFUInternalPrecision.
Proof. solve_decision. Defined.
#[export] Instance SFUNonlinearBackend_eq_dec : EqDecision SFUNonlinearBackend.
Proof. solve_decision. Defined.

(** The host type [T] of a template member: [float] or [double]. *)
Inductive carrier := CFloat | CDouble.

Definition cprec (c : carrier) : Z := match c with CFloat => prec32 | CDouble => prec64 end.
Definition cemax (c : carrier) : Z := match c with CFloat => emax32 | CDouble => emax64 end.
(** [static_cast<T>]. *)
Definition cast (c : carrier) : spec_float -> spec_float := SFconv (cprec c) (cemax c).
(** [std::common_type_t<T,U>]. *)
Definition common (c d : carrier) : carrier :=
  match c, d with CFloat, CFloat => CFloat | _, _ => CDouble end.
(** A value the carrier can hold. *)
Definition representable (c : carrier) (x : spec_float) : Prop :=
  valid_binary (cprec c) (cemax c) x = true.

(** The functions of libm and the SiLU ROM, which are not part of the model. *)
Class Libm := {
  std_exp : carrier -> spec_float -> spec_float;
  std_log : carrier -> spec_float -> spec_float;
  std_tanh : carrier -> spec_float -> spec_float;
  rom_SiLU : Z -> Z
}.

Record SFUArithmetic := mkSFUArithmetic {
  precision_ : SFUInternalPrecision;
  backend_ : SFUNonlinearBackend
}.

Definition SFUArithmetic_new (precision : SFUInternalPrecision) (backend : SFUNonlinearBackend) :
    result SFUArithmetic :=
  if bool_decide (backend = BackendLut) && negb (bool_decide (precision = FP16))
  then Throw invalid_argument
  else Ok (mkSFUArithmetic precision backend).

Definition SFUArithmetic_parseBackend (name : string) : result SFUNonlinearBackend :=
  if String.eqb name "libm" then Ok BackendLibm
  else if String.eqb name "lut" then Ok BackendLut
  else Throw invalid_argument.
Definition SFUArithmetic_backendName (a : SFUArithmetic) : string :=
  if bool_decide (backend_ a = BackendLut) then "lut" else "libm".
Definition SFUArithmetic_parse (name : string) : result SFUInternalPrecision :=
  if String.eqb name "fp32" then Ok FP32
  else if String.eqb name "fp16" then Ok FP16
  else Throw invalid_argument.
Definition SFUArithmetic_fp16 (a : SFUArithmetic) : bool := bool_decide (precision_ a = FP16).
Definition SFUArithmetic_name (a : SFUArithmetic) : string :=
  if SFUArithmetic_fp16 a then "fp16" else "fp32".

(** Double literals of the source. *)
Definition d_65520 : spec_float := num prec64 emax64 65520 0.
Definition d_half : spec_float := num prec64 emax64 1 (-1).
Definition d_one : spec_float := num prec64 emax64 1 0.

(** [static_cast<unsigned>(integral)] of a nonnegative integral [double]. *)
Definition unsigned_of (x : spec_float) : Z :=
  match x with
  | S754_finite _ m e => u32 (if 0 <=? e then Z.pos m * 2 ^ e else Z.pos m / 2 ^ (- e))
  | _ => 0
  end.

Section arithmetic.
Context `{Libm}.
Context (a : SFUArithmetic).

Definition SFUArithmetic_round (c : carrier) (value : spec_float) : spec_float :=
  if negb (SFUArithmetic_fp16 a) then value
  else
    let x := to_double value in
    if negb (isfinite x) || is_zero x then value
    else
      let magnitude := SFabs x in
      if SFleb d_65520 magnitude then cast c (copysign (S754_infinity false) x)
      else
        let exponent := frexp_exponent magnitude in
        let shift := Z.max (-24) (exponent - 11) in
        let scaled := ldexp magnitude (- shift) in
        let integral := floor scaled in
        let fraction := SFsub prec64 emax64 scaled integral in
        let integral :=
          if SFltb d_half fraction ||
             (SFeqb fraction d_half && negb (Z.rem (unsigned_of integral) 2 =? 0))
          then SFadd prec64 emax64 integral d_one else integral in
        cast c (copysign (ldexp integral shift) x).

(** The binary members: both operands rounded, the operation in [double], its
    result rounded and returned at the common type. *)
Definition SFUArithmetic_binop (op : Z -> Z -> spec_float -> spec_float -> spec_float)
    (c d : carrier) (x y : spec_float) : spec_float :=
  let r := common c d in
  if SFUArithmetic_fp16 a then
    cast r (SFUArithmetic_round CDouble
              (op prec64 emax64 (to_double (SFUArithmetic_round c x))
                                (to_double (SFUArithmetic_round d y))))
  else op (cprec r) (cemax r) (cast r x) (cast r y).

Definition SFUArithmetic_add := SFUArithmetic_binop SFadd.
Definition SFUArithmetic_sub := SFUArithmetic_binop SFsub.
Definition SFUArithmetic_mul := SFUArithmetic_binop SFmul.
Definition SFUArithmetic_div := SFUArithmetic_binop SFdiv.

Definition SFUArithmetic_fma (c : carrier) (x y z : spec_float) : spec_float :=
  if SFUArithmetic_fp16 a then
    cast c (SFUArithmetic_round CDouble
      (SFfma prec64 emax64 (to_double (SFUArithmetic_round c x))
         (to_double (SFUArithmetic_round c y)) (to_double (SFUArithmetic_round c z))))
  else SFfma (cprec c) (cemax c) x y z.

Definition SFUArithmetic_exp (c : carrier) (x : spec_float) : spec_float :=
  if bool_decide (backend_ a = BackendLut) then
    cast c (SFUArithmetic_round CDouble (SFULut_exp (to_double (SFUArithmetic_round c x))))
  else if SFUArithmetic_fp16 a then
    cast c (SFUArithmetic_round CDouble (std_exp CDouble (to_double (SFUArithmetic_round c x))))
  else std_exp c x.

Definition SFUArithmetic_log (c : carrier) (x : spec_float) : spec_float :=
  if SFUArithmetic_fp16 a then
    cast c (SFUArithmetic_round CDouble (std_log CDouble (to_double (SFUArithmetic_round c x))))
  else std_log c x.

Definition SFUArithmetic_tanh (c : carrier) (x : spec_float) : spec_float :=
  if SFUArithmetic_fp16 a then
    cast c (SFUArithmetic_round CDouble (std_tanh CDouble (to_double (SFUArithmetic_round c x))))
  else std_tanh c x.

Definition SFUArithmetic_reciprocal (c : carrier) (x : spec_float) : spec_float :=
  if bool_decide (backend_ a = BackendLut) then
    cast c (SFUArithmetic_round CDouble (SFULut_reciprocal (to_double (SFUArithmetic_round c x))))
  else SFUArithmetic_div c c (SFone (cprec c) (cemax c)) x.

Definition SFUArithmetic_rsqrt (c : carrier) (x : spec_float) : spec_float :=
  if bool_decide (backend_ a = BackendLut) then
    cast c (SFUArithmetic_round CDouble (SFULut_root (to_double (SFUArithmetic_round c x)) true))
  else if SFUArithmetic_fp16 a then
    cast c (SFUArithmetic_round CDouble
      (SFdiv prec64 emax64 d_one
         (SFsqrt prec64 emax64 (to_double (SFUArithmetic_round c x)))))
  else SFdiv (cprec c) (cemax c) (SFone (cprec c) (cemax c)) (SFsqrt (cprec c) (cemax c) x).

Definition SFUArithmetic_sqrt (c : carrier) (x : spec_float) : spec_float :=
  if bool_decide (backend_ a = BackendLut) then
    cast c (SFUArithmetic_round CDouble (SFULut_root (to_double (SFUArithmetic_round c x)) false))
  else if SFUArithmetic_fp16 a then
    cast c (SFUArithmetic_round CDouble
      (SFsqrt prec64 emax64 (to_double (SFUArithmetic_round c x))))
  else SFsqrt (cprec c) (cemax c) x.

Definition SFUArithmetic_silu (c : carrier) (x : spec_float) : spec_float :=
  if bool_decide (backend_ a = BackendLut) && SFUArithmetic_fp16 a then
    cast c (SFUArithmetic_round CDouble
      (SFULut_silu rom_SiLU (to_double (SFUArithmetic_round c x))))
  else
    let fp16 := SFUArithmetic_fp16 a in
    let input := if fp16 then SFUArithmetic_round c x else x in
    let e := SFUArithmetic_exp c (if fp16 then SFopp (SFabs input) else SFopp input) in
    let numerator :=
      if fp16 && SFltb input (S754_zero false) then SFUArithmetic_mul c c input e else input in
    SFUArithmetic_mul c c numerator
      (SFUArithmetic_reciprocal c
        (SFUArithmetic_add c c (SFone (cprec c) (cemax c)) e)).

(** The in-place levels of [treeSum]: [values[i] = add(values[2i], values[2i+1])]
    for [i] from [0] to [(n+1)/2 - 1]. *)
Fixpoint SFUArithmetic_treeLevel (c : carrier) (n : nat) (count i : nat) (values : list spec_float) :
    list spec_float :=
  match count with
  | O => values
  | S count' =>
      let at_ k := default (S754_zero false) (values !! k) in
      let v := if (2 * i + 1 <? n)%nat
               then SFUArithmetic_add c c (at_ (2 * i)%nat) (at_ (2 * i + 1)%nat)
               else at_ (2 * i)%nat in
      SFUArithmetic_treeLevel c n count' (S i) (<[i := v]> values)
  end.

Fixpoint SFUArithmetic_treeLoop (c : carrier) (fuel n : nat) (values : list spec_float) :
    list spec_float :=
  match fuel with
  | O => values
  | S fuel' =>
      if (1 <? n)%nat then
        let half := ((n + 1) / 2)%nat in
        SFUArithmetic_treeLoop c fuel' half (SFUArithmetic_treeLevel c n half 0 values)
      else values
  end.

Definition SFUArithmetic_treeSum (c : carrier) (values : list spec_float) : spec_float :=
  match values with
  | [] => S754_zero false
  | _ =>
      let n := length values in
      SFUArithmetic_round c
        (default (S754_zero false) (SFUArithmetic_treeLoop c n n values !! 0%nat))
  end.
End arithmetic.

(** ** Rounding *)

Notation num64 := (num prec64 emax64).
Notation exact64 := (exact prec64 emax64).

Lemma cprec_gt c : 1 < cprec c.
Proof. destruct c; reflexivity. Qed.
Lemma cemax_gt c : 1 < cemax c.
Proof. destruct c; reflexivity. Qed.
Create HintDb sfu.
#[export] Hint Resolve cprec_gt cemax_gt : sfu.

Lemma carrier_in_double c z e : exact (cprec c) (cemax c) z e -> exact64 z e.
Proof. apply exact_widen; destruct c; done. Qed.

Lemma exact64_intro z e : Z.abs z < 2 ^ 53 -> -1074 <= e <= 971 -> exact64 z e.
Proof. intros Hz He. apply exact_intro; [reflexivity..|exact Hz|exact He]. Qed.

Lemma unsigned_of_num z : 0 <= z < 2 ^ 32 -> unsigned_of (num64 z 0) = z.
Proof.
  intros Hz. destruct (decide (z = 0)) as [->|Nz]; [reflexivity|].
  destruct (num_finite prec64 emax64 eq_refl eq_refl z 0 Nz) as (m & k & Hk & Hm & E & _).
  { apply exact64_intro; lia. }
  rewrite E. cbn [unsigned_of]. rewrite Z.abs_eq in Hm by lia.
  assert ((if 0 <=? 0 - k then Z.pos m * 2 ^ (0 - k) else Z.pos m / 2 ^ (- (0 - k))) = z) as ->.
  { destruct (Z.leb_spec 0 (0 - k)).
    - replace k with 0 in * by lia. cbn in *. lia.
    - replace (- (0 - k)) with k by lia. rewrite Hm, Z.div_mul by (apply Z.pow_nonzero; lia). done. }
  apply u32_id. unfold in_u32. lia.
Qed.

(** The exponent of the binary16 unit of [z * 2^e] and the rounded number of units. *)
Definition half_shift (z e : Z) : Z := Z.max (-24) (Zdigits2 z + e - 11).
Definition half_units (z e : Z) : Z :=
  let sh := half_shift z e in
  if sh <=? e then z * 2 ^ (e - sh) else rne z (sh - e).

Lemma half_units_rne z e k :
  k <= e -> k <= half_shift z e -> half_units z e = rne (z * 2 ^ (e - k)) (half_shift z e - k).
Proof.
  intros Hk Hs. unfold half_units. set (sh := half_shift z e) in *. symmetry.
  destruct (Z.leb_spec sh e).
  - replace (e - k) with (e - sh + (sh - k)) by lia.
    rewrite Z.pow_add_r, Z.mul_assoc by lia. apply rne_exact. lia.
  - replace (sh - k) with (sh - e + (e - k)) by lia. apply rne_scale; lia.
Qed.

Lemma round_at_half s z e :
  round_at prec16 emax16 s z e =
  if half_units z e =? 0 then S754_zero s
  else if half_units z e =? 2 ^ 11 then
    (if half_shift z e + 1 <=? 5 then S754_finite s (Z.to_pos (2 ^ 10)) (half_shift z e + 1)
     else S754_infinity s)
  else if half_shift z e <=? 5 then S754_finite s (Z.to_pos (half_units z e)) (half_shift z e)
  else S754_infinity s.
Proof.
  unfold round_at, half_units.
  replace (fexp prec16 emax16 (Zdigits2 z + e)) with (half_shift z e)
    by (unfold half_shift, fexp; change (SpecFloat.emin prec16 emax16) with (-24);
        change prec16 with 11; lia).
  reflexivity.
Qed.

Section rounding.
Context (z e : Z).
Hypothesis Hz : 0 < z < 2 ^ 53.
Hypothesis He : -1074 <= e <= 971.
Notation D := (Zdigits2 z + e).
Notation sh := (half_shift z e).

Lemma digits_range : 1 <= Zdigits2 z <= 53.
Proof.
  rewrite Zdigits2_log2 by lia. pose proof (Z.log2_nonneg z).
  assert (Z.log2 z < 53) by (apply Z.log2_lt_pow2; lia). lia.
Qed.

Lemma exact_z : exact64 z e.
Proof. apply exact64_intro; lia. Qed.

Lemma magnitude_bounds k : k <= e -> 2 ^ (D - 1 - k) <= z * 2 ^ (e - k) < 2 ^ (D - k).
Proof.
  intros Hk. pose proof (Zdigits2_bounds z ltac:(lia)) as B. pose proof digits_range.
  replace (D - 1 - k) with (Zdigits2 z - 1 + (e - k)) by lia.
  replace (D - k) with (Zdigits2 z + (e - k)) by lia.
  rewrite !(Z.pow_add_r 2 _ (e - k)) by lia.
  pose proof (Z.pow_pos_nonneg 2 (e - k) ltac:(lia) ltac:(lia)). nia.
Qed.

Lemma half_units_bounds : 0 <= half_units z e <= 2 ^ 11.
Proof.
  set (k := Z.min e sh). rewrite (half_units_rne z e k) by lia.
  pose proof digits_range. pose proof (magnitude_bounds k ltac:(lia)) as B.
  assert (0 < 2 ^ (sh - k)) as P by (apply Z.pow_pos_nonneg; lia).
  pose proof (rne_bounds (z * 2 ^ (e - k)) (sh - k)) as R.
  assert (z * 2 ^ (e - k) < 2 ^ 11 * 2 ^ (sh - k)).
  { eapply Z.lt_le_trans; [apply B|]. rewrite <- Z.pow_add_r by lia.
    apply Z.pow_le_mono_r; [lia|]. unfold half_shift in *. lia. }
  assert (z * 2 ^ (e - k) / 2 ^ (sh - k) < 2 ^ 11) by (apply Z.div_lt_upper_bound; lia).
  assert (0 <= z * 2 ^ (e - k) / 2 ^ (sh - k)) by (apply Z.div_pos; lia). lia.
Qed.

Lemma magnitude_test :
  SFleb d_65520 (num64 z e) =
  (65520 * 2 ^ (0 - Z.min 0 e) <=? z * 2 ^ (e - Z.min 0 e)).
Proof.
  unfold SFleb, d_65520.
  rewrite (SFcompare_num prec64 emax64 eq_refl eq_refl _ _ _ _ (Z.min 0 e));
    [|apply exact64_intro; lia|apply exact_z|lia|lia].
  destruct (Z.compare_spec (65520 * 2 ^ (0 - Z.min 0 e)) (z * 2 ^ (e - Z.min 0 e)));
    symmetry; try apply Z.leb_le; try apply Z.leb_gt; lia.
Qed.

(** The test [magnitude >= 65520.0] is exactly overflow of the rounded value. *)
Lemma overflow_test :
  SFleb d_65520 (num64 z e) = true <-> 5 < sh \/ (sh = 5 /\ half_units z e = 2 ^ 11).
Proof.
  rewrite magnitude_test, Z.leb_le. set (k := Z.min 0 e).
  pose proof digits_range. pose proof (magnitude_bounds k ltac:(lia)) as B.
  assert (2 ^ 16 * 2 ^ (0 - k) = 2 ^ (16 - k)) as E16 by (rewrite <- Z.pow_add_r by lia; f_equal; lia).
  assert (2 ^ 15 * 2 ^ (0 - k) = 2 ^ (15 - k)) as E15 by (rewrite <- Z.pow_add_r by lia; f_equal; lia).
  assert (0 < 2 ^ (0 - k)) by (apply Z.pow_pos_nonneg; lia).
  destruct (Z.lt_trichotomy D 16) as [LD|[ED|GD]].
  - assert (2 ^ (D - k) <= 2 ^ (15 - k)) by (apply Z.pow_le_mono_r; lia).
    unfold half_shift. lia.
  - assert (sh = 5) as Esh by (unfold half_shift; lia).
    pose proof half_units_bounds as HB.
    pose proof (rne_ge_even (2 ^ 11) (z * 2 ^ (e - k)) (5 - k) ltac:(lia) eq_refl) as R.
    rewrite (half_units_rne z e k) in HB |- * by lia. rewrite Esh in *.
    replace (2 ^ (5 - k)) with (2 ^ 5 * 2 ^ (0 - k)) in R
      by (rewrite <- Z.pow_add_r by lia; f_equal; lia). lia.
  - assert (2 ^ (16 - k) <= 2 ^ (D - 1 - k)) by (apply Z.pow_le_mono_r; lia).
    unfold half_shift. lia.
Qed.

(** Without overflow, storing the binary16 value is storing its units. *)
Lemma cast_half c s :
  SFleb d_65520 (num64 z e) = false ->
  cast c (round_at prec16 emax16 s z e) = round_at (cprec c) (cemax c) s (half_units z e) sh.
Proof.
  intros Ho. assert (~ (5 < sh \/ (sh = 5 /\ half_units z e = 2 ^ 11))) as No
    by (rewrite <- overflow_test; congruence).
  pose proof half_units_bounds. rewrite round_at_half.
  destruct (Z.eqb_spec (half_units z e) 0) as [->|]; [rewrite round_at_0; reflexivity|].
  assert (F : forall m x, cast c (S754_finite s m x) = round_at (cprec c) (cemax c) s (Z.pos m) x)
    by (intros; apply binary_round_spec; auto with sfu).
  destruct (Z.eqb_spec (half_units z e) (2 ^ 11)) as [E|].
  - rewrite E. rewrite (proj2 (Z.leb_le _ _)) by lia. rewrite F.
    change (2 ^ 11) with (2 * Z.pos (Z.to_pos (2 ^ 10))).
    symmetry. apply round_at_double; auto with sfu. reflexivity.
  - rewrite (proj2 (Z.leb_le _ _)) by lia. rewrite F, Z2Pos.id by lia. reflexivity.
Qed.

Lemma cast_half_overflow c s :
  SFleb d_65520 (num64 z e) = true ->
  cast c (round_at prec16 emax16 s z e) = S754_infinity s.
Proof.
  intros Ho%overflow_test. rewrite round_at_half.
  destruct Ho as [Ho|[-> ->]]; [|reflexivity].
  destruct (Z.eqb_spec (half_units z e) 0) as [E|].
  - exfalso. pose proof digits_range. pose proof (magnitude_bounds (Z.min 0 e) ltac:(lia)) as B.
    set (k := Z.min 0 e) in *. rewrite (half_units_rne z e k) in E by lia.
    assert (2 ^ (D - 1 - k) = 2 ^ 10 * 2 ^ (sh - k))
      by (rewrite <- Z.pow_add_r by lia; f_equal; unfold half_shift in *; lia).
    pose proof (rne_bounds (z * 2 ^ (e - k)) (sh - k)) as R.
    assert (0 < 2 ^ (sh - k)) by (apply Z.pow_pos_nonneg; lia).
    assert (1 <= z * 2 ^ (e - k) / 2 ^ (sh - k)) by (apply Z.div_le_lower_bound; lia). lia.
  - rewrite !(proj2 (Z.leb_gt _ _)) by lia. case_if; reflexivity.
Qed.
End rounding.

(** The rounding step on [scaled = integer + fraction]. *)
Definition round_step (scaled : spec_float) : spec_float :=
  let integral := floor scaled in
  let fraction := SFsub prec64 emax64 scaled integral in
  if SFltb d_half fraction ||
     (SFeqb fraction d_half && negb (Z.rem (unsigned_of integral) 2 =? 0))
  then SFadd prec64 emax64 integral d_one else integral.

Lemma num64_add_one q : 0 <= q < 2 ^ 32 -> SFadd prec64 emax64 (num64 q 0) d_one = num64 (q + 1) 0.
Proof.
  intros Hq. unfold d_one. rewrite (SFadd_num prec64 emax64 eq_refl eq_refl q 0 1 0 0);
    [f_equal; rewrite Z.pow_0_r; lia| | |lia|lia]; apply exact64_intro; lia.
Qed.

Lemma round_step_whole z e :
  0 < z < 2 ^ 53 -> 0 <= e <= 971 -> exact64 (z * 2 ^ e) 0 ->
  round_step (num64 z e) = num64 (z * 2 ^ e) 0.
Proof.
  intros Hz He Hx. assert (exact64 z e) as Hze by (apply exact64_intro; lia).
  unfold round_step. rewrite floor_num by (done || lia). rewrite (proj2 (Z.leb_le 0 e)) by lia.
  rewrite (SFsub_num prec64 emax64 eq_refl eq_refl _ _ _ _ 0) by (done || lia).
  rewrite !Z.sub_0_r, Z.pow_0_r, Z.mul_1_r, Z.sub_diag. reflexivity.
Qed.

Lemma round_step_fraction z n :
  0 < z < 2 ^ 53 -> 0 < n <= 1074 -> z / 2 ^ n < 2 ^ 32 ->
  round_step (num64 z (- n)) = num64 (rne z n) 0.
Proof.
  intros Hz Hn Hq. assert (0 < 2 ^ n) as Pn by (apply Z.pow_pos_nonneg; lia).
  assert (exact64 z (- n)) as Hze by (apply exact64_intro; lia).
  pose proof (Z.mod_pos_bound z (2 ^ n) ltac:(lia)) as Hr.
  pose proof (Z.div_pos z (2 ^ n) ltac:(lia) ltac:(lia)) as Hq0.
  assert (exact64 (z / 2 ^ n) 0) as Hi by (apply exact64_intro; lia).
  unfold round_step. rewrite floor_num by (done || lia).
  rewrite (proj2 (Z.leb_gt 0 (- n))), Z.opp_involutive by lia.
  assert (SFsub prec64 emax64 (num64 z (- n)) (num64 (z / 2 ^ n) 0) = num64 (z mod 2 ^ n) (- n)) as ->.
  { rewrite (SFsub_num prec64 emax64 eq_refl eq_refl _ _ _ _ (- n)) by (done || lia).
    f_equal. rewrite Z.sub_diag, Z.pow_0_r. replace (0 - - n) with n by lia.
    rewrite Z.mod_eq by lia. lia. }
  set (r := z mod 2 ^ n) in *. set (q := z / 2 ^ n) in *.
  assert (exact64 r (- n)) as Hre.
  { pose proof (Z.mod_le z (2 ^ n) ltac:(lia) ltac:(lia)). apply exact64_intro; lia. }
  assert (forall k, 0 < k -> 2 ^ (-1 - - k) * 2 = 2 ^ k) as Eh
    by (intros k Hk; replace (2 ^ k) with (2 ^ (-1 - - k + 1)) by (f_equal; lia);
        rewrite Z.pow_add_r by lia; lia).
  specialize (Eh n ltac:(lia)).
  unfold SFltb, SFeqb, d_half.
  rewrite !(SFcompare_num prec64 emax64 eq_refl eq_refl _ _ _ _ (- n))
    by (done || lia || (apply exact64_intro; lia)).
  rewrite Z.sub_diag, Z.pow_0_r, Z.mul_1_r, Z.mul_1_l.
  rewrite unsigned_of_num, num64_add_one by lia.
  rewrite Z.rem_mod_nonneg by lia. rewrite (Zmod_even q). unfold rne. fold q r.
  destruct (Z.compare_spec (2 ^ (-1 - - n)) r); destruct (Z.compare_spec r (2 ^ (-1 - - n))); try lia;
    destruct (Z.ltb_spec (2 * r) (2 ^ n)); try lia; destruct (Z.ltb_spec (2 ^ n) (2 * r)); try lia;
    try reflexivity.
  destruct (Z.even q); reflexivity.
Qed.

Lemma round_step_units z e :
  0 < z < 2 ^ 53 -> -1074 <= e <= 971 -> SFleb d_65520 (num64 z e) = false ->
  round_step (ldexp (num64 z e) (- half_shift z e)) = num64 (half_units z e) 0.
Proof.
  intros Hz He Ho. pose proof (half_units_bounds z e Hz) as HB. pose proof (digits_range z Hz).
  rewrite ldexp_num by (apply exact_z; lia).
  assert (~ (5 < half_shift z e)) as No
    by (intros ?; assert (SFleb d_65520 (num64 z e) = true) by (apply overflow_test; auto); congruence).
  assert ((half_shift z e = -24 /\ Zdigits2 z + e <= -13) \/
          (half_shift z e = Zdigits2 z + e - 11 /\ -13 <= Zdigits2 z + e)) as Hsh
    by (unfold half_shift; lia).
  unfold half_units in HB |- *. set (sh := half_shift z e) in *.
  destruct (Z.leb_spec sh e).
  - apply round_step_whole; [lia..|]. apply exact64_intro; lia.
  - replace (e + - sh) with (- (sh - e)) by lia. apply round_step_fraction; [lia..|].
    pose proof (rne_bounds z (sh - e)). lia.
Qed.

(** [copysign(ldexp(integral, shift), x)] stored in the carrier. *)
Lemma store_units c x u k :
  0 <= u <= 2 ^ 11 -> -24 <= k <= 5 ->
  cast c (copysign (ldexp (num64 u 0) k) x) = round_at (cprec c) (cemax c) (signbit x) u k.
Proof.
  intros Hu Hk.
  assert (exact64 u 0) by (apply exact64_intro; lia).
  assert (exact64 u k) as Hx by (apply exact64_intro; lia).
  rewrite ldexp_num, Z.add_0_l by done.
  rewrite (copysign_num _ _ _ _ (signbit x)) by (done || lia).
  destruct (decide (u = 0)) as [->|]; [rewrite !round_at_0; reflexivity|].
  destruct Hx as [?|Hf]; [done|]. rewrite Z.abs_eq in Hf by lia.
  apply round_of_exact; done || auto with sfu.
Qed.

Section round_theorems.
Context `{Libm}.
Context (a : SFUArithmetic).

Lemma round_finite c s m e :
  SFUArithmetic_fp16 a = true -> representable c (S754_finite s m e) ->
  SFUArithmetic_round a c (S754_finite s m e) = cast c (to_half (S754_finite s m e)).
Proof.
  intros Hf V. unfold SFUArithmetic_round. rewrite Hf. cbn [negb].
  destruct (num_canonical (cprec c) (cemax c) (cprec_gt c) (cemax_gt c) s m e V) as [E Hx].
  pose proof (carrier_in_double c _ _ Hx) as Hx64.
  assert (to_double (S754_finite s m e) = num64 (cond_Zopp s (Z.pos m)) e) as Ed.
  { rewrite <- E. apply SFconv_num; done || auto with sfu. }
  assert (0 < Z.pos m < 2 ^ 53 /\ -1074 <= e <= 971) as [Hm He].
  { destruct (valid_mantissa _ _ _ _ _ V) as [B1 B2]; [destruct c; done|].
    destruct c; cbn [cprec cemax] in *; [change (SpecFloat.emin prec32 emax32) with (-149) in *|
      change (SpecFloat.emin prec64 emax64) with (-1074) in *];
    unfold prec32, emax32, prec64, emax64 in *; lia. }
  assert (cond_Zopp s (Z.pos m) <> 0) as Nz by (destruct s; done).
  destruct (num_finite prec64 emax64 eq_refl eq_refl _ _ Nz Hx64)
    as (m' & k' & _ & _ & Ef & _).
  assert (isfinite (to_double (S754_finite s m e)) = true) as -> by (rewrite Ed, Ef; done).
  assert (is_zero (to_double (S754_finite s m e)) = false) as -> by (rewrite Ed, Ef; done).
  cbn [negb orb]. cbv zeta. rewrite Ed, SFabs_num by done.
  assert (signbit (num64 (cond_Zopp s (Z.pos m)) e) = s) as Es by (rewrite Ef; destruct s; done).
  replace (Z.abs (cond_Zopp s (Z.pos m))) with (Z.pos m) by (destruct s; done).
  assert (to_half (S754_finite s m e) = round_at prec16 emax16 s (Z.pos m) e) as ->
    by (apply binary_round_spec; done).
  destruct (SFleb d_65520 (num64 (Z.pos m) e)) eqn:Ho.
  - rewrite cast_half_overflow by done. cbn [copysign]. rewrite Es. reflexivity.
  - rewrite cast_half by done.
    assert (frexp_exponent (num64 (Z.pos m) e) = Zdigits2 (Z.pos m) + e) as ->.
    { rewrite num_round by done. apply frexp_exact. destruct Hx64 as [?|Hf64]; [destruct s; done|].
      replace (Z.abs (cond_Zopp s (Z.pos m))) with (Z.pos m) in Hf64 by (destruct s; done). done. }
    fold (half_shift (Z.pos m) e).
    fold (round_step (ldexp (num64 (Z.pos m) e) (- half_shift (Z.pos m) e))).
    rewrite round_step_units by done.
    rewrite store_units, Es; [reflexivity|by apply half_units_bounds|].
    assert (~ (5 < half_shift (Z.pos m) e)) as No
      by (intros ?; assert (SFleb d_65520 (num64 (Z.pos m) e) = true)
            by (apply overflow_test; auto); congruence).
    unfold half_shift in *. lia.
Qed.
Lemma round_to_half (c : carrier) (x : spec_float) :
  SFUArithmetic_fp16 a = true -> representable c x ->
  SFUArithmetic_round a c x = cast c (to_half x).
Proof.
  intros Hf V. destruct x as [s|s| |s m e]; [..|by apply round_finite];
    unfold SFUArithmetic_round; rewrite Hf; reflexivity.
Qed.
(** C16: rounding is correct.  In FP16 mode [round] stores, for every value a
    [float] or [double] carrier can hold (infinities, NaNs and signed zeros
    included), the binary16 value nearest to it with ties to even: gradual
    underflow, the 65520 overflow threshold and the absence of double rounding are
    all those of one IEEE conversion. *)
Theorem round_correct (c : carrier) (x : spec_float) :
  SFUArithmetic_fp16 a = true -> representable c x ->
  SFUArithmetic_round a c x = cast c (to_half x).
Proof. apply round_to_half. Qed.
End round_theorems.

(** ** Addition, subtraction and multiplication are the binary16 operations *)

Notation num16 := (num prec16 emax16).

(** A binary16 value: the special values and the numbers on the binary16 grid. *)
Inductive half_value : spec_float -> Prop :=
| half_special x : (forall s m e, x <> S754_finite s m e) -> half_value x
| half_number z e : z <> 0 -> Z.abs z < 2 ^ 11 -> -24 <= e <= 5 -> half_value (num16 z e).

Lemma exact16_intro z e : Z.abs z < 2 ^ 11 -> -24 <= e <= 5 -> exact prec16 emax16 z e.
Proof. intros Hz He. apply exact_intro; [reflexivity..|exact Hz|exact He]. Qed.

Lemma cast_num16 c z e :
  Z.abs z < 2 ^ 11 -> -24 <= e <= 5 -> cast c (num16 z e) = num (cprec c) (cemax c) z e.
Proof. intros Hz He. apply SFconv_num; auto with sfu; try done. by apply exact16_intro. Qed.

Lemma exact_carrier c z e : Z.abs z < 2 ^ 11 -> -24 <= e <= 5 -> exact (cprec c) (cemax c) z e.
Proof. intros Hz He. eapply exact_widen, exact16_intro; destruct c; done. Qed.

(** Going through the [double] carrier loses nothing. *)
Lemma half_cast_cast c h : half_value h -> cast c (to_double h) = cast c h.
Proof.
  intros [x Hx|z e Hz Hb He].
  - destruct x; try reflexivity. by destruct (Hx s m e).
  - change to_double with (cast CDouble). rewrite !cast_num16 by done.
    apply SFconv_num; auto with sfu. by apply (exact_carrier CDouble).
Qed.

Lemma half_to_double c h : half_value h -> to_double (cast c h) = to_double h.
Proof.
  intros [x Hx|z e Hz Hb He].
  - destruct x; try reflexivity. by destruct (Hx s m e).
  - change to_double with (cast CDouble). rewrite !cast_num16 by done.
    apply SFconv_num; auto with sfu. by apply (exact_carrier c).
Qed.

Lemma representable_range c s m e :
  representable c (S754_finite s m e) -> 0 < Z.pos m < 2 ^ 53 /\ -1074 <= e <= 971.
Proof.
  intros V. destruct (valid_mantissa _ _ _ _ _ V) as [B1 B2]; [destruct c; done|].
  destruct c; cbn [cprec cemax] in *; [change (SpecFloat.emin prec32 emax32) with (-149) in *|
    change (SpecFloat.emin prec64 emax64) with (-1074) in *];
    unfold prec32, emax32, prec64, emax64 in *; lia.
Qed.

Lemma half_finite s u k :
  0 < u < 2 ^ 11 -> -24 <= k <= 5 -> (2 ^ 10 <= u \/ k = -24) ->
  half_value (S754_finite s (Z.to_pos u) k).
Proof.
  intros Hu Hk Hc.
  assert (valid_binary prec16 emax16 (S754_finite s (Z.to_pos u) k) = true) as V.
  { cbn. unfold bounded, canonical_mantissa.
    change (Z.pos (digits2_pos (Z.to_pos u))) with (Zdigits2 (Z.pos (Z.to_pos u))).
    rewrite Z2Pos.id by lia. unfold fexp. change (SpecFloat.emin prec16 emax16) with (-24).
    change prec16 with 11. change emax16 with 16.
    assert (1 <= Zdigits2 u <= 11 /\ (2 ^ 10 <= u -> Zdigits2 u = 11)) as [Hd1 Hd2].
    { rewrite Zdigits2_log2 by lia. pose proof (Z.log2_nonneg u).
      assert (Z.log2 u < 11) by (apply Z.log2_lt_pow2; lia).
      split; [lia|]. intros. assert (10 <= Z.log2 u) by (apply Z.log2_le_pow2; lia). lia. }
    apply andb_true_intro. split; [apply Z.eqb_eq|apply Z.leb_le]; lia. }
  rewrite <- (proj1 (num_canonical prec16 emax16 eq_refl eq_refl _ _ _ V)).
  rewrite Z2Pos.id by lia. apply half_number; [destruct s; cbn; lia..|done].
Qed.

(** Rounding an operand gives a binary16 value. *)
Lemma to_half_value c x : representable c x -> half_value (to_half x).
Proof.
  intros V. destruct x as [s|s| |s m e]; try (apply half_special; discriminate).
  destruct (representable_range c s m e V) as [Hm He].
  change (to_half (S754_finite s m e)) with (binary_round prec16 emax16 s m e).
  rewrite binary_round_spec, round_at_half by done.
  pose proof (half_units_bounds (Z.pos m) e Hm) as HB.
  destruct (Z.eqb_spec (half_units (Z.pos m) e) 0); [apply half_special; discriminate|].
  destruct (Z.eqb_spec (half_units (Z.pos m) e) (2 ^ 11)) as [|N2].
  - destruct (Z.leb_spec (half_shift (Z.pos m) e + 1) 5); [|apply half_special; discriminate].
    apply half_finite; unfold half_shift in *; lia.
  - destruct (Z.leb_spec (half_shift (Z.pos m) e) 5); [|apply half_special; discriminate].
    apply half_finite; [lia|unfold half_shift in *; lia|].
    destruct (Z.eq_dec (half_shift (Z.pos m) e) (-24)) as [|Ns]; [by right|left].
    set (k := Z.min e (half_shift (Z.pos m) e)) in *.
    rewrite (half_units_rne _ _ k) by lia.
    pose proof (magnitude_bounds (Z.pos m) e Hm k ltac:(lia)) as [B _].
    pose proof (digits_range _ Hm).
    assert (2 ^ (Zdigits2 (Z.pos m) + e - 1 - k) = 2 ^ 10 * 2 ^ (half_shift (Z.pos m) e - k)) as Ep
      by (rewrite <- Z.pow_add_r by lia; f_equal; unfold half_shift in *; lia).
    assert (0 < 2 ^ (half_shift (Z.pos m) e - k)) by (apply Z.pow_pos_nonneg; lia).
    pose proof (rne_bounds (Z.pos m * 2 ^ (e - k)) (half_shift (Z.pos m) e - k)) as R.
    assert (2 ^ 10 <= Z.pos m * 2 ^ (e - k) / 2 ^ (half_shift (Z.pos m) e - k))
      by (apply Z.div_le_lower_bound; lia). lia.
Qed.

Lemma exact_representable z e : exact64 z e -> representable CDouble (num64 z e).
Proof.
  intros Hx. destruct (decide (z = 0)) as [->|Nz]; [reflexivity|].
  destruct (num_finite prec64 emax64 eq_refl eq_refl z e Nz Hx) as (m & k & _ & _ & E & V).
  rewrite E. exact V.
Qed.

(** An operation whose [double] result on binary16 operands is exact enough to
    be the binary16 result after one more rounding. *)
Definition half_exact (op : Z -> Z -> spec_float -> spec_float -> spec_float) : Prop :=
  forall h1 h2, half_value h1 -> half_value h2 ->
    representable CDouble (op prec64 emax64 (to_double h1) (to_double h2)) /\
    to_half (op prec64 emax64 (to_double h1) (to_double h2)) = op prec16 emax16 h1 h2.

Lemma half_exact_number z e :
  exact64 z e -> representable CDouble (num64 z e) /\ to_half (num64 z e) = num16 z e.
Proof.
  intros Hx. split; [by apply exact_representable|]. apply SFconv_num; done.
Qed.

Lemma half_value_stable h : half_value h ->
  representable CDouble (to_double h) /\ to_half (to_double h) = h.
Proof.
  intros [x Hx|z e Hz Hb He].
  - destruct x; try (split; reflexivity). by destruct (Hx s m e).
  - change to_double with (cast CDouble). rewrite cast_num16 by done.
    apply half_exact_number. by apply (exact_carrier CDouble).
Qed.

Lemma SFopp_num p emax z e : z <> 0 -> 1 < p -> 1 < emax -> exact p emax z e ->
  SFopp (num p emax z e) = num p emax (- z) e.
Proof.
  intros Hz Hp He [?|Hx]; [done|].
  rewrite !num_round, Z.abs_opp by lia. rewrite !round_at_exact by apply Hx || done.
  cbn [SFopp]. f_equal. destruct (Z.ltb_spec z 0); destruct (Z.ltb_spec (- z) 0); cbn; lia || done.
Qed.

(** A nonzero binary16 number is finite in both formats, with one sign. *)
Lemma half_number_forms z e :
  z <> 0 -> Z.abs z < 2 ^ 11 -> -24 <= e <= 5 ->
  exists s m k m' k',
    num16 z e = S754_finite s m' k' /\ to_double (num16 z e) = S754_finite s m k /\
    num64 z e = S754_finite s m k /\
    (forall b, representable CDouble (S754_finite b m k) /\
               to_half (S754_finite b m k) = S754_finite b m' k').
Proof.
  intros Nz Hb He.
  destruct (num_finite prec64 emax64 eq_refl eq_refl z e Nz) as (m & k & _ & _ & Ed & _);
    [by apply (exact_carrier CDouble)|].
  destruct (num_finite prec16 emax16 eq_refl eq_refl z e Nz) as (m' & k' & _ & _ & Eh & _);
    [by apply exact16_intro|].
  eexists _, _, _, _, _. split; [exact Eh|].
  split; [change to_double with (cast CDouble); rewrite cast_num16 by done; exact Ed|].
  split; [exact Ed|]. intros b.
  destruct (half_exact_number z e (exact_carrier CDouble z e Hb He)) as [V E].
  destruct (half_exact_number (- z) e) as [V' E'];
    [apply (exact_carrier CDouble); lia|].
  pose proof (SFopp_num prec64 emax64 z e Nz eq_refl eq_refl (exact_carrier CDouble z e Hb He)) as O.
  pose proof (SFopp_num prec16 emax16 z e Nz eq_refl eq_refl (exact16_intro z e Hb He)) as O'.
  rewrite Ed, Eh in *. rewrite <- O, <- O' in *. cbn [SFopp] in *.
  destruct (Bool.bool_dec b (z <? 0)) as [->|Nb]; [done|].
  replace b with (negb (z <? 0)) by (destruct b, (z <? 0); done). done.
Qed.

Lemma half_exact_pairs op :
  (forall x y, (forall s m e, x <> S754_finite s m e) -> half_value y ->
     representable CDouble (op prec64 emax64 (to_double x) (to_double y)) /\
     to_half (op prec64 emax64 (to_double x) (to_double y)) = op prec16 emax16 x y) ->
  (forall x y, half_value x -> (forall s m e, y <> S754_finite s m e) ->
     representable CDouble (op prec64 emax64 (to_double x) (to_double y)) /\
     to_half (op prec64 emax64 (to_double x) (to_double y)) = op prec16 emax16 x y) ->
  (forall z1 e1 z2 e2, z1 <> 0 -> z2 <> 0 ->
     Z.abs z1 < 2 ^ 11 -> Z.abs z2 < 2 ^ 11 -> -24 <= e1 <= 5 -> -24 <= e2 <= 5 ->
     exists z e, exact64 z e /\
       op prec64 emax64 (num64 z1 e1) (num64 z2 e2) = num64 z e /\
       op prec16 emax16 (num16 z1 e1) (num16 z2 e2) = num16 z e) ->
  half_exact op.
Proof.
  intros Hl Hr Hn h1 h2 H1 H2. destruct H1 as [x Hx|z1 e1 N1 B1 E1]; [by apply Hl|].
  destruct H2 as [y Hy|z2 e2 N2 B2 E2]; [apply Hr; [by apply half_number|done]|].
  destruct (Hn z1 e1 z2 e2) as (z & e & Hx & E64 & E16); try done.
  change to_double with (cast CDouble). rewrite !cast_num16 by done. cbn [cprec cemax].
  rewrite E64, E16. by apply half_exact_number.
Qed.

(** An operand that is not a number leaves only finitely many forms to compute. *)
Ltac special_operand Hx :=
  match type of Hx with forall s m e, ?x <> _ =>
    destruct x as [[]|[]| |? ? ?]; [..|exfalso; eapply Hx; reflexivity]
  end.
Ltac half_operand H :=
  let Hx := fresh in
  destruct H as [? Hx|z e Nz Hb He];
  [special_operand Hx; (split; reflexivity)
  |destruct (half_number_forms z e Nz Hb He) as (s & m & k & m' & k' & -> & -> & _ & F);
   first [split; reflexivity | destruct s; first [split; reflexivity | apply F]]].

Lemma units_bound e : -24 <= e <= 5 -> 0 < 2 ^ (e - -24) <= 2 ^ 29.
Proof. intros He. split; [apply Z.pow_pos_nonneg|apply Z.pow_le_mono_r]; lia. Qed.

Lemma half_add_exact : half_exact SFadd.
Proof.
  apply half_exact_pairs.
  - intros x y Hx Hy. special_operand Hx; half_operand Hy.
  - intros x y Hx Hy. special_operand Hy; half_operand Hx.
  - intros z1 e1 z2 e2 _ _ B1 B2 E1 E2. eexists _, (-24).
    split; [|split; apply SFadd_num; try done; (lia || by apply exact16_intro || by apply (exact_carrier CDouble))].
    apply exact64_intro; [|lia].
    pose proof (units_bound e1 E1). pose proof (units_bound e2 E2). nia.
Qed.

Lemma half_sub_exact : half_exact SFsub.
Proof.
  apply half_exact_pairs.
  - intros x y Hx Hy. special_operand Hx; half_operand Hy.
  - intros x y Hx Hy. special_operand Hy; half_operand Hx.
  - intros z1 e1 z2 e2 _ _ B1 B2 E1 E2. eexists _, (-24).
    split; [|split; apply SFsub_num; try done; (lia || by apply exact16_intro || by apply (exact_carrier CDouble))].
    apply exact64_intro; [|lia].
    pose proof (units_bound e1 E1). pose proof (units_bound e2 E2). nia.
Qed.

Lemma half_mul_exact : half_exact SFmul.
Proof.
  apply half_exact_pairs.
  - intros x y Hx Hy. special_operand Hx; half_operand Hy.
  - intros x y Hx Hy. special_operand Hy; half_operand Hx.
  - intros z1 e1 z2 e2 N1 N2 B1 B2 E1 E2. exists (z1 * z2), (e1 + e2).
    split; [apply exact64_intro; [nia|lia]|].
    split; apply SFmul_num; try done;
      (vm_compute; discriminate) || (by apply exact16_intro) || (by apply (exact_carrier CDouble)).
Qed.

Section operation_theorems.
Context `{Libm}.
Context (a : SFUArithmetic).
Hypothesis Hfp16 : SFUArithmetic_fp16 a = true.

Lemma binop_half op c d x y :
  half_exact op -> representable c x -> representable d y ->
  SFUArithmetic_binop a op c d x y = cast (common c d) (op prec16 emax16 (to_half x) (to_half y)).
Proof.
  intros Hop Vx Vy. unfold SFUArithmetic_binop. rewrite Hfp16, (round_to_half a c x), (round_to_half a d y) by done.
  rewrite (half_to_double c), (half_to_double d) by (eapply to_half_value; eassumption).
  destruct (Hop (to_half x) (to_half y)) as [V E]; [eapply to_half_value; eassumption..|].
  rewrite round_to_half, E by done. apply half_cast_cast. rewrite <- E. by eapply to_half_value.
Qed.
End operation_theorems.

(** C19: in FP16 mode [add], [sub] and [mul] are the IEEE binary16 operations: the
    operands are rounded to binary16 and the result is the binary16 sum,
    difference or product, whatever mix of [float] and [double] carriers holds
    them, for every operand including zeros, infinities and NaNs; the [double]
    the host computes in introduces no double rounding. *)
Theorem arithmetic_is_binary16 (a : SFUArithmetic) (c d : carrier) (x y : spec_float) :
  SFUArithmetic_fp16 a = true -> representable c x -> representable d y ->
  SFUArithmetic_add a c d x y = cast (common c d) (SFadd prec16 emax16 (to_half x) (to_half y)) /\
  SFUArithmetic_sub a c d x y = cast (common c d) (SFsub prec16 emax16 (to_half x) (to_half y)) /\
  SFUArithmetic_mul a c d x y = cast (common c d) (SFmul prec16 emax16 (to_half x) (to_half y)).
Proof.
  intros Hf Vx Vy. unfold SFUArithmetic_add, SFUArithmetic_sub, SFUArithmetic_mul.
  split; [|split]; apply binop_half; try done;
    [apply half_add_exact|apply half_sub_exact|apply half_mul_exact].
Qed.

(** ** [treeSum] *)

(** One level of the balanced tree: neighbours are combined, an odd element out
    is passed up. *)
Fixpoint pair_up (f : spec_float -> spec_float -> spec_float) (l : list spec_float) : list spec_float :=
  match l with
  | x :: y :: l' => f x y :: pair_up f l'
  | l' => l'
  end.

Section pair_up_theory.
Context (f : spec_float -> spec_float -> spec_float).

Lemma list_pair_ind {A} (P : list A -> Prop) :
  P [] -> (forall x, P [x]) -> (forall x y l, P l -> P (x :: y :: l)) -> forall l, P l.
Proof.
  intros H0 H1 H2. assert (forall l, P l /\ forall x, P (x :: l)) as H; [|apply H].
  induction l as [|x l [IH1 IH2]]; split; auto.
Qed.

Lemma pair_up_length l : length (pair_up f l) = ((length l + 1) / 2)%nat.
Proof.
  induction l as [|x|x y l IH] using list_pair_ind; [reflexivity..|].
  cbn [pair_up length]. rewrite IH.
  replace (S (S (length l)) + 1)%nat with (length l + 1 + 1 * 2)%nat by lia.
  rewrite Nat.div_add by lia. lia.
Qed.

Lemma pair_up_lookup l i :
  (i < (length l + 1) / 2)%nat ->
  let at_ k := default (S754_zero false) (l !! k) in
  pair_up f l !! i =
  Some (if (2 * i + 1 <? length l)%nat then f (at_ (2 * i)%nat) (at_ (2 * i + 1)%nat)
        else at_ (2 * i)%nat).
Proof.
  cbv zeta. revert i. induction l as [|x|x y l IH] using list_pair_ind; intros i Hi.
  - cbn in Hi. lia.
  - cbn in Hi. destruct i; [reflexivity|lia].
  - cbn [length] in Hi. replace (S (S (length l)) + 1)%nat with (length l + 1 + 1 * 2)%nat in Hi by lia.
    rewrite Nat.div_add in Hi by lia. destruct i as [|i]; [reflexivity|].
    cbn [pair_up length lookup list_lookup]. change (pair_up f l !! i) with (pair_up f l !! i).
    replace (2 * S i)%nat with (S (S (2 * i))) by lia.
    replace (S (S (2 * i)) + 1)%nat with (S (S (2 * i + 1))) by lia.
    cbn [lookup list_lookup]. rewrite (IH i) by lia. reflexivity.
Qed.
End pair_up_theory.

Lemma log2_up_half n : (1 < n)%nat -> Nat.log2_up n = S (Nat.log2_up ((n + 1) / 2)).
Proof.
  intros Hn. pose proof (Nat.div_mod_eq (n + 1) 2).
  pose proof (Nat.mod_upper_bound (n + 1) 2 ltac:(lia)).
  apply Nat.log2_up_unique; [lia|]. rewrite Nat.pow_succ_r'. cbn [Nat.pred].
  destruct (decide (n = 2)%nat) as [->|]; [cbn; lia|].
  assert (1 < (n + 1) / 2)%nat as Hh by lia.
  pose proof (Nat.log2_up_spec _ Hh) as [L U].
  assert (Nat.log2_up ((n + 1) / 2) = S (Nat.pred (Nat.log2_up ((n + 1) / 2)))) as E
    by (pose proof (Nat.log2_up_pos _ Hh); lia).
  rewrite E. rewrite Nat.pow_succ_r'. rewrite E in U at 1. rewrite Nat.pow_succ_r' in U. lia.
Qed.

Section tree.
Context `{Libm}.
Context (a : SFUArithmetic) (c : carrier).
Notation add := (SFUArithmetic_add a c c).

(** The invariant of the inner loop: positions below [i] hold the next level,
    the others still hold the current one. *)
Lemma treeLevel_correct n v count i :
  (n <= length v)%nat -> (i + count = (n + 1) / 2)%nat ->
  SFUArithmetic_treeLevel a c n count i (take i (pair_up add (take n v)) ++ drop i v) =
  pair_up add (take n v) ++ drop ((n + 1) / 2) v.
Proof.
  intros Hn. set (P := pair_up add (take n v)).
  assert (length P = ((n + 1) / 2)%nat) as LP by (unfold P; rewrite pair_up_length, length_take_le; lia).
  assert ((n + 1) / 2 <= n)%nat as Hh by (pose proof (Nat.div_mod_eq (n + 1) 2); lia).
  revert i. induction count as [|count IH]; intros i Hi; cbn [SFUArithmetic_treeLevel].
  - rewrite Nat.add_0_r in Hi. subst i. rewrite take_ge by lia. reflexivity.
  - assert (i < (n + 1) / 2)%nat as Hlt by lia.
    assert (2 * i < n)%nat as H2i.
    { pose proof (Nat.div_mod_eq (n + 1) 2). pose proof (Nat.mod_upper_bound (n + 1) 2). lia. }
    assert (R : forall k, (i <= k)%nat -> (take i P ++ drop i v) !! k = v !! k).
    { intros k Hk. rewrite lookup_app_r by (rewrite length_take; lia).
      rewrite length_take_le, lookup_drop by lia. f_equal. lia. }
    rewrite !R by lia.
    assert (Pi : P !! i = Some (if (2 * i + 1 <? n)%nat
        then add (default (S754_zero false) (v !! (2 * i)%nat)) (default (S754_zero false) (v !! (2 * i + 1)%nat))
        else default (S754_zero false) (v !! (2 * i)%nat))).
    { unfold P. rewrite pair_up_lookup by (rewrite length_take_le; lia). cbv zeta.
      rewrite length_take_le by lia. destruct (Nat.ltb_spec (2 * i + 1) n);
        rewrite !lookup_take_lt by lia; reflexivity. }
    rewrite <- (IH (S i)) by lia. f_equal.
    rewrite insert_app_r_alt by (rewrite length_take; lia). rewrite length_take_le, Nat.sub_diag by lia.
    destruct (drop i v) as [|w r] eqn:Ed.
    { apply (f_equal length) in Ed. rewrite length_drop in Ed. cbn in Ed. lia. }
    cbn [insert list_insert]. rewrite (take_S_r _ _ _ Pi), <- app_assoc. cbn [app].
    do 2 f_equal. replace (S i) with (i + 1)%nat by lia. rewrite <- drop_drop, Ed. reflexivity.
Qed.

Lemma treeLoop_correct fuel n v :
  (n <= length v)%nat -> (1 <= n <= fuel)%nat ->
  take 1 (SFUArithmetic_treeLoop a c fuel n v) = Nat.iter (Nat.log2_up n) (pair_up add) (take n v).
Proof.
  revert n v. induction fuel as [|fuel IH]; intros n v Hn Hf; [lia|].
  cbn [SFUArithmetic_treeLoop]. destruct (Nat.ltb_spec 1 n).
  - assert ((n + 1) / 2 < n)%nat as Hh by (apply Nat.Div0.div_lt_upper_bound; lia).
    assert (1 <= (n + 1) / 2)%nat by (apply Nat.div_le_lower_bound; lia).
    pose proof (treeLevel_correct n v ((n + 1) / 2) 0 Hn eq_refl) as E. rewrite take_0, drop_0 in E. cbn [app] in E. cbv zeta.
    rewrite E, IH by (rewrite ?length_app, ?length_drop, ?pair_up_length, ?length_take_le; lia).
    rewrite take_app_length' by (rewrite pair_up_length, length_take_le; lia).
    rewrite <- Nat.iter_succ_r, (log2_up_half n) by lia. reflexivity.
  - replace n with 1%nat by lia. reflexivity.
Qed.

Lemma iter_pair_up_length k l : (1 <= length l <= 2 ^ k)%nat -> length (Nat.iter k (pair_up add) l) = 1%nat.
Proof.
  revert l. induction k as [|k IH]; intros l Hl; [cbn in *; lia|].
  rewrite Nat.iter_succ_r. apply IH. rewrite pair_up_length.
  rewrite Nat.pow_succ_r' in Hl. pose proof (Nat.div_mod_eq (length l + 1) 2).
  pose proof (Nat.mod_upper_bound (length l + 1) 2 ltac:(lia)). lia.
Qed.
(** C21: [treeSum]'s in-place double loop computes the balanced pairwise tree:
    after exactly [ceil (log2 n)] levels, in each of which neighbours are added and an
    odd element is passed up, one value is left, and its rounding is returned;
    no level reads a position an earlier step of it has overwritten.  The empty
    vector sums to zero. *)
Theorem treeSum_is_balanced_tree (x : spec_float) (l : list spec_float) :
  SFUArithmetic_treeSum a c [] = S754_zero false /\
  exists r,
    Nat.iter (Nat.log2_up (length (x :: l))) (pair_up add) (x :: l) = [r] /\
    SFUArithmetic_treeSum a c (x :: l) = SFUArithmetic_round a c r.
Proof.
  split; [reflexivity|]. set (v := x :: l) in *.
  assert (1 <= length v)%nat by (cbn; lia).
  pose proof (treeLoop_correct (length v) (length v) v ltac:(lia) ltac:(lia)) as E.
  rewrite firstn_all in E.
  pose proof (iter_pair_up_length (Nat.log2_up (length v)) v
    ltac:(pose proof (Nat.log2_log2_up_spec (length v) ltac:(lia)); lia)) as L1.
  destruct (Nat.iter _ _ v) as [|r [|]]; try discriminate. exists r. split; [done|].
  unfold SFUArithmetic_treeSum. fold v. cbv zeta.
  destruct (SFUArithmetic_treeLoop a c (length v) (length v) v) as [|r' t]; [discriminate|].
  cbn in E. by injection E as ->.
Qed.

(** Sums on the binary16 grid. *)
Notation numc := (num (cprec c) (cemax c)).
Definition sum_abs (zs : list Z) : Z := foldr (fun z acc => Z.abs z + acc) 0 zs.
Definition sum_Z (zs : list Z) : Z := foldr Z.add 0 zs.

Lemma sum_abs_bound zs : Z.abs (sum_Z zs) <= sum_abs zs.
Proof. induction zs as [|z zs IH]; [done|]. cbn [sum_Z sum_abs foldr]. fold (sum_Z zs) (sum_abs zs); lia. Qed.

Lemma exact_numc z k :
  Z.abs z < 2 ^ 11 -> -24 <= k <= 5 -> representable c (numc z k) /\ to_half (numc z k) = num16 z k.
Proof.
  intros Hz Hk. pose proof (exact_carrier c z k Hz Hk) as Hx.
  split; [|apply SFconv_num; auto with sfu; done].
  destruct (decide (z = 0)) as [->|Nz]; [reflexivity|].
  destruct (num_finite _ _ (cprec_gt c) (cemax_gt c) z k Nz Hx) as (m & j & _ & _ & E & V).
  rewrite E. exact V.
Qed.

Lemma common_same : common c c = c.
Proof. by destruct c. Qed.

Lemma add_on_grid k x y :
  SFUArithmetic_fp16 a = true -> -24 <= k <= 5 -> Z.abs x + Z.abs y < 2 ^ 11 ->
  add (numc x k) (numc y k) = numc (x + y) k.
Proof.
  intros Hf Hk Hb.
  destruct (exact_numc x k ltac:(lia) Hk) as [Vx Ex]. destruct (exact_numc y k ltac:(lia) Hk) as [Vy Ey].
  unfold SFUArithmetic_add. rewrite binop_half by (done || apply half_add_exact).
  rewrite Ex, Ey, common_same.
  rewrite (SFadd_num prec16 emax16 eq_refl eq_refl _ _ _ _ k) by (lia || (apply exact16_intro; lia)).
  rewrite Z.sub_diag, Z.pow_0_r, !Z.mul_1_r. apply cast_num16; lia.
Qed.

Fixpoint pair_sums (zs : list Z) : list Z :=
  match zs with x :: y :: zs' => (x + y) :: pair_sums zs' | zs' => zs' end.

Lemma pair_sums_sum zs : sum_Z (pair_sums zs) = sum_Z zs /\ sum_abs (pair_sums zs) <= sum_abs zs.
Proof.
  induction zs as [|z|x y zs' [IH1 IH2]] using list_pair_ind; [done..|].
  cbn [pair_sums sum_Z sum_abs foldr]. fold (sum_Z zs') (sum_abs zs') (sum_Z (pair_sums zs')) (sum_abs (pair_sums zs')).
  lia.
Qed.

Lemma pair_up_on_grid k zs :
  SFUArithmetic_fp16 a = true -> -24 <= k <= 5 -> sum_abs zs < 2 ^ 11 ->
  pair_up add (map (fun z => numc z k) zs) = map (fun z => numc z k) (pair_sums zs).
Proof.
  intros Hf Hk. induction zs as [|z|x y zs IH] using list_pair_ind; intros Hb; [done..|].
  cbn [sum_abs foldr] in Hb. fold (sum_abs zs) in Hb. pose proof (sum_abs_bound zs).
  cbn [map pair_up pair_sums]. rewrite add_on_grid, IH by (done || lia). reflexivity.
Qed.
(** [treeSum] is exact whenever the sum stays on the binary16 grid: for terms
    that are multiples [z * 2^k] of one binary16 unit with [sum |z| < 2^11], the
    result is the exact sum, in whatever order the tree adds them. *)
Theorem treeSum_exact (k : Z) (zs : list Z) :
  SFUArithmetic_fp16 a = true -> -24 <= k <= 5 -> sum_abs zs < 2 ^ 11 ->
  SFUArithmetic_treeSum a c (map (fun z => numc z k) zs) = numc (sum_Z zs) k.
Proof.
  intros Hf Hk Hb. destruct zs as [|z zs]; [reflexivity|].
  assert (forall j zs, sum_abs zs < 2 ^ 11 ->
    exists zs', Nat.iter j (pair_up add) (map (fun z => numc z k) zs) = map (fun z => numc z k) zs' /\
      sum_Z zs' = sum_Z zs /\ sum_abs zs' <= sum_abs zs) as It.
  { intros j. induction j as [|j IH]; intros l Hl; [exists l; done|].
    destruct (IH l Hl) as (l' & E & S1 & S2). exists (pair_sums l').
    cbn [Nat.iter nat_rect]. fold (Nat.iter j (pair_up add) (map (fun z => numc z k) l)).
    rewrite E, pair_up_on_grid by (done || lia).
    pose proof (pair_sums_sum l'). split; [done|lia]. }
  cbn [map]. set (v := numc z k :: map _ zs).
  pose proof (treeLoop_correct (length v) (length v) v ltac:(lia) ltac:(unfold v; cbn; lia)) as E.
  rewrite firstn_all in E.
  pose proof (iter_pair_up_length (Nat.log2_up (length v)) v
    ltac:(pose proof (Nat.log2_log2_up_spec (length v) ltac:(unfold v; cbn; lia)); unfold v in *; cbn [length] in *; lia)) as L1.
  destruct (It (Nat.log2_up (length v)) (z :: zs) Hb) as (zs' & Ez & S1 & S2).
  change (map (fun z => numc z k) (z :: zs)) with v in Ez. rewrite Ez in E, L1.
  destruct zs' as [|r [|]]; try discriminate.
  unfold SFUArithmetic_treeSum. cbv zeta. fold v.
  change (match v with [] => _ | _ => ?r end) with r.
  destruct (SFUArithmetic_treeLoop a c (length v) (length v) v) as [|r' t]; [discriminate|].
  cbn in E. injection E as ->. cbn [lookup list_lookup default].
  replace (sum_Z (z :: zs)) with r by (cbn in S1 |- *; lia).
  assert (Z.abs r < 2 ^ 11) by (change (sum_abs [r]) with (Z.abs r + 0) in S2; lia).
  destruct (exact_numc r k ltac:(lia) Hk) as [Vr Er].
  cbn. rewrite round_to_half, Er by done. by apply cast_num16.
Qed.
End tree.

(** ** Witnesses *)

(** A concrete unit: FP16 mode with the libm backend. *)
Definition fp16_libm : SFUArithmetic := mkSFUArithmetic FP16 BackendLibm.

Lemma round_correct_witness :
  SFUArithmetic_round fp16_libm CDouble (num64 65519 0) = num64 65504 0.
Proof. exact (round_correct fp16_libm CDouble (num64 65519 0) eq_refl eq_refl). Defined.

Lemma arithmetic_is_binary16_witness :
  SFUArithmetic_add fp16_libm CFloat CDouble (num prec32 emax32 2049 0) (num64 1 0) = num64 2048 0.
Proof.
  exact (proj1 (arithmetic_is_binary16 fp16_libm CFloat CDouble
    (num prec32 emax32 2049 0) (num64 1 0) eq_refl eq_refl eq_refl)).
Defined.

Lemma treeSum_exact_witness :
  SFUArithmetic_treeSum fp16_libm CFloat
    (map (fun z => num (cprec CFloat) (cemax CFloat) z (-3)) [5; -7; 1000; 3; 9]) =
  num (cprec CFloat) (cemax CFloat) (sum_Z [5; -7; 1000; 3; 9]) (-3).
Proof.
  apply (treeSum_exact fp16_libm CFloat (-3) [5; -7; 1000; 3; 9]);
    [reflexivity|split; discriminate|reflexivity].
Defined.
