(* ===== verification/LutTheory.v ===== *)
(** * Correctness of the ROM decoders of [Lut]

    Every entry of the square-root, reciprocal-square-root and reciprocal banks is
    the nearest representable value (a finite check over the table), and the
    decoders index the banks so that, for every positive finite binary16 argument,
    the value they return is the correctly rounded result. *)

From Stdlib Require Import ZArith Lia List.
From stdpp Require Import base numbers list.
From S2P Require Import Prelude Ieee IeeeArith Fp16 LutTables Lut Arithmetic.

(** ** Binary16 words as numbers *)

(** The significand and exponent of a positive finite word. *)
Definition word_sig (h : Z) : Z := if h <? 1024 then h else h mod 1024 + 1024.
Definition word_exp (h : Z) : Z := if h <? 1024 then -24 else h / 1024 - 25.

Lemma word_range h : 0 < h < 0x7c00 -> 0 < word_sig h < 2 ^ 11 /\ -24 <= word_exp h <= 5.
Proof.
  intros Hh. unfold word_sig, word_exp. pose proof (Z.mod_pos_bound h 1024 ltac:(lia)).
  pose proof (Z.div_mod h 1024 ltac:(lia)). destruct (Z.ltb_spec h 1024); lia.
Qed.

Lemma half_word h : 0 < h < 0x7c00 -> half_of_bits h = S754_finite false (Z.to_pos (word_sig h)) (word_exp h).
Proof.
  intros Hh.
  assert (h = pack 10 5 false (h / 1024) (h mod 1024)) as E
    by (unfold pack; cbn [Z.b2z]; pose proof (Z.div_mod h 1024 ltac:(lia)); lia).
  pose proof (Z.mod_pos_bound h 1024 ltac:(lia)). pose proof (Z.div_mod h 1024 ltac:(lia)).
  unfold half_of_bits. rewrite E at 1. rewrite decode_pack by lia.
  unfold fields_value, word_sig, word_exp. change (Z.ones 5) with 31.
  destruct (Z.eqb_spec (h / 1024) 0) as [E0|].
  - rewrite (proj2 (Z.eqb_neq (h mod 1024) 0)), (proj2 (Z.ltb_lt h 1024)) by lia.
    f_equal. f_equal. lia.
  - rewrite (proj2 (Z.eqb_neq (h / 1024) 31)), (proj2 (Z.ltb_ge h 1024)) by lia.
    f_equal. change (2 ^ (5 - 1) - 1) with 15. lia.
Qed.

Lemma half_word_num h : 0 < h < 0x7c00 -> half_of_bits h = num prec16 emax16 (word_sig h) (word_exp h).
Proof.
  intros Hh. rewrite half_word by done. pose proof (word_range h Hh).
  assert (half_value (S754_finite false (Z.to_pos (word_sig h)) (word_exp h))) as Hv.
  { apply half_finite; [lia..|]. unfold word_sig, word_exp in *.
    pose proof (Z.mod_pos_bound h 1024 ltac:(lia)). destruct (Z.ltb_spec h 1024); lia. }
  destruct (half_value_stable _ Hv) as [_ E]. rewrite <- E.
  unfold to_double at 1, SFconv at 1. rewrite binary_round_spec, Z2Pos.id by (reflexivity || lia).
  assert (num prec64 emax64 (word_sig h) (word_exp h) = round_at prec64 emax64 false (word_sig h) (word_exp h)) as <-.
  { rewrite num_round by (reflexivity || lia). rewrite (proj2 (Z.ltb_ge _ 0)), Z.abs_eq by lia. reflexivity. }
  apply SFconv_num; try done. apply exact64_intro; lia.
Qed.

Lemma lut_decode h :
  0 < h < 0x7c00 -> SFULut_decode h = num prec64 emax64 (word_sig h) (word_exp h).
Proof.
  intros Hh. pose proof (word_range h Hh). unfold SFULut_decode.
  rewrite fp16_to_float_value by (unfold in_u16; lia). rewrite half_word_num by done.
  change to_float with (cast CFloat). rewrite cast_num16 by lia.
  apply SFconv_num; try done. apply (exact_carrier CFloat); lia.
Qed.

(** Reading back the word of a decoded argument. *)
Lemma lut_bits h : 0 < h < 0x7c00 -> SFULut_bits (SFULut_decode h) = h.
Proof.
  intros Hh. pose proof (word_range h Hh). unfold SFULut_bits, SFULut_decode.
  assert (float_of_bits (golem_fp16_to_float h) = num prec32 emax32 (word_sig h) (word_exp h)) as E.
  { rewrite fp16_to_float_value by (unfold in_u16; lia). rewrite half_word_num by done.
    change to_float with (cast CFloat). apply cast_num16; lia. }
  assert (to_float (to_double (float_of_bits (golem_fp16_to_float h))) =
          float_of_bits (golem_fp16_to_float h)) as ->.
  { rewrite E. unfold to_double. rewrite SFconv_num by (done || by apply (exact_carrier CFloat); lia).
    apply SFconv_num; try done. apply exact64_intro; lia. }
  assert (bits_of_float (float_of_bits (golem_fp16_to_float h)) = golem_fp16_to_float h) as ->.
  { assert (golem_fp16_to_float h = golem_fp16_to_float (pack 10 5 false (h / 1024) (h mod 1024))) as Ep
      by (f_equal; unfold pack; cbn [Z.b2z]; pose proof (Z.div_mod h 1024 ltac:(lia)); lia).
    pose proof (Z.mod_pos_bound h 1024 ltac:(lia)). pose proof (Z.div_mod h 1024 ltac:(lia)).
    rewrite fp16_to_float_pack in Ep by lia. rewrite Ep.
    destruct (Z.eqb_spec (h / 1024) 0) as [E0|].
    - destruct (Z.eqb_spec (h mod 1024) 0) as [|_]; [lia|].
      pose proof (fp16_normalize_spec (h mod 1024) ltac:(lia)) as Hn.
      destruct (fp16_normalize 11 (h mod 1024) (-14)) as [nn xx]. destruct Hn as (Hn & Hx & En).
      unfold bits_of_float, float_of_bits. rewrite decode_pack, encode_fields by (lia || (change (Z.ones 8) with 255; lia)). done.
    - destruct (Z.eqb_spec (h / 1024) 31); [lia|].
      unfold bits_of_float, float_of_bits. rewrite decode_pack, encode_fields by (lia || (change (Z.ones 8) with 255; lia)). done. }
  rewrite fp16_float_fp16 by (unfold in_u16; lia).
  unfold is_nan16. change 0x1f with (Z.ones 5). rewrite Z.land_ones, Z.shiftr_div_pow2 by lia.
  rewrite Z.mod_small by (split; [apply Z.div_pos|apply Z.div_lt_upper_bound]; lia).
  change (Z.ones 5) with 31. rewrite (proj2 (Z.eqb_neq (h / 2 ^ 10) 31)); [reflexivity|].
  pose proof (Z.div_lt_upper_bound h (2 ^ 10) 31 ltac:(lia) ltac:(lia)). lia.
Qed.

Lemma lut_mag h : 0 < h < 0x7c00 ->
  Z.land h 0x7fff = h /\ Z.land h 0x8000 = 0.
Proof.
  intros Hh. split.
  - change 0x7fff with (Z.ones 15). rewrite Z.land_ones by lia. apply Z.mod_small. lia.
  - change 0x8000 with (2 ^ 15). rewrite land_pow2 by lia.
    rewrite (testbit_above h 15 15) by lia. reflexivity.
Qed.

(** ** [normalize] *)

Definition normalize_check (h : Z) : bool :=
  (h =? 0) ||
  let '(x, m) := SFULut_normalize h in
  (0 <=? m) && (m <? 1024) && (-24 <=? x) && (x <=? -15) && (h * 1024 =? (1024 + m) * 2 ^ (x + 24)).

Lemma normalize_subnormals : check_bits 10 normalize_check = true.
Proof. vm_compute. reflexivity. Qed.

(** [x = (1024 + mantissa) / 1024 * 2^exponent]. *)
Lemma normalize_spec h :
  0 < h < 0x7c00 ->
  let '(x, m) := SFULut_normalize h in
  0 <= m < 1024 /\ -24 <= x <= 15 /\
  word_sig h * 2 ^ (word_exp h + 34) = (1024 + m) * 2 ^ (x + 24).
Proof.
  intros Hh. pose proof (Z.mod_pos_bound h 1024 ltac:(lia)). pose proof (Z.div_mod h 1024 ltac:(lia)).
  unfold word_sig, word_exp. destruct (Z.ltb_spec h 1024) as [L|L].
  - pose proof (check_bits_sound 10 _ normalize_subnormals h ltac:(lia)) as C.
    unfold normalize_check in C. destruct (SFULut_normalize h) as [x m].
    rewrite (proj2 (Z.eqb_neq h 0)) in C by lia. cbn [orb] in C. boolify.
    split; [lia|]. split; [lia|]. change (2 ^ (-24 + 34)) with 1024. lia.
  - unfold SFULut_normalize. rewrite Z.shiftr_div_pow2 by lia. change (2 ^ 10) with 1024.
    rewrite (proj2 (Z.eqb_neq (h / 1024) 0)) by lia.
    change 0x3ff with (Z.ones 10). rewrite Z.land_ones by lia. change (2 ^ 10) with 1024.
    split; [lia|]. split; [lia|]. f_equal; [lia|]. f_equal. lia.
Qed.

(** ** Table checks *)

(** [p i table[i]] at every index, in one pass. *)
Fixpoint table_check (p : Z -> Z -> bool) (i : Z) (table : list Z) : bool :=
  match table with
  | [] => true
  | t :: table' => p i t && table_check p (i + 1) table'
  end.

Lemma table_check_sound p table i j :
  table_check p i table = true -> 0 <= j < Z.of_nat (length table) -> p (i + j) (rom_at table j) = true.
Proof.
  revert i j. induction table as [|t table IH]; intros i j H Hj; [cbn in Hj; lia|].
  cbn [table_check] in H. boolify. unfold rom_at.
  destruct (Z.eq_dec j 0) as [->|]; [rewrite Z.add_0_r; done|].
  replace (Z.to_nat j) with (S (Z.to_nat (j - 1))) by lia. cbn [nth].
  replace (i + j) with (i + 1 + (j - 1)) by lia. apply IH; [done|]. cbn [length] in Hj. lia.
Qed.

(** [2^parity * (1024 + mantissa)]: the argument in [1024, 4096), in 1/1024. *)
Definition root_arg (i : Z) : Z := 2 ^ (i / 1024) * (1024 + i mod 1024).

(** Entry [t] is [N/1024] with [N] nearest to [1024 * sqrt(arg/1024)]. *)
Definition sqrt_entry (i t : Z) : bool :=
  let N := t - 0x3c00 + 1024 in
  (0x3c00 <=? t) && (t <? 0x4000) &&
  ((2 * N - 1) * (2 * N - 1) <? 4 * 1024 * root_arg i) && (4 * 1024 * root_arg i <? (2 * N + 1) * (2 * N + 1)).
(** Entry [t] is [N/2048] with [N] nearest to [2048 / sqrt(arg/1024)]. *)
Definition rsqrt_entry (i t : Z) : bool :=
  let N := t - 0x3800 + 1024 in
  (0x3800 <=? t) && (t <=? 0x3c00) &&
  ((2 * N - 1) * (2 * N - 1) * root_arg i <? 2 ^ 34) && (2 ^ 34 <? (2 * N + 1) * (2 * N + 1) * root_arg i).

Lemma sqrt_table : table_check sqrt_entry 0 Sqrt = true /\ length Sqrt = 2048%nat.
Proof. split; vm_compute; reflexivity. Qed.
Lemma rsqrt_table : table_check rsqrt_entry 0 Rsqrt = true /\ length Rsqrt = 2048%nat.
Proof. split; vm_compute; reflexivity. Qed.

(** Entry [t] of reciprocal bank [i / 1024] is [N/2048], a multiple of the bank's
    unit [2^bank/2048], nearest to [1024 / (1024 + mantissa)] in that unit. *)
Definition reciprocal_entry (i t : Z) : bool :=
  let N := t - 0x3800 + 1024 in
  let unit_ := 2 ^ (i / 1024) in
  let arg := 1024 + i mod 1024 in
  (0x3800 <=? t) && (t <=? 0x3c00) && (N mod unit_ =? 0) &&
  ((2 * N - unit_) * arg <? 2 ^ 22) && (2 ^ 22 <? (2 * N + unit_) * arg).

Lemma reciprocal_table : table_check reciprocal_entry 0 Reciprocal = true /\ length Reciprocal = 3072%nat.
Proof. split; vm_compute; reflexivity. Qed.

(** ** Decoded entries *)

Lemma decode_unit t : 0x3c00 <= t < 0x4000 -> SFULut_decode t = num prec64 emax64 (t - 0x3c00 + 1024) (-10).
Proof.
  intros Ht. rewrite lut_decode by lia. unfold word_sig, word_exp.
  rewrite (proj2 (Z.ltb_ge t 1024)) by lia.
  assert (t / 1024 = 15) as Q by (symmetry; apply (Z.div_unique t 1024 15 (t - 15 * 1024)); lia).
  rewrite Z.mod_eq, Q by lia. f_equal; lia.
Qed.

Lemma decode_below_one t :
  0x3800 <= t <= 0x3c00 -> SFULut_decode t = num prec64 emax64 (t - 0x3800 + 1024) (-11).
Proof.
  intros Ht. destruct (Z.eq_dec t 0x3c00) as [->|].
  - rewrite decode_unit by lia.
    change (0x3c00 - 0x3800 + 1024) with ((0x3c00 - 0x3c00 + 1024) * 2 ^ 1).
    symmetry. apply num_scale; reflexivity || lia.
  - rewrite lut_decode by lia. unfold word_sig, word_exp.
    rewrite (proj2 (Z.ltb_ge t 1024)) by lia.
    assert (t / 1024 = 14) as Q by (symmetry; apply (Z.div_unique t 1024 14 (t - 14 * 1024)); lia).
    rewrite Z.mod_eq, Q by lia. f_equal; lia.
Qed.

(** The exponent split of [root]. *)
Lemma parity_split x :
  let parity := Z.rem (Z.rem x 2 + 2) 2 in
  let shift := Z.quot (x - parity) 2 in
  0 <= parity <= 1 /\ x = 2 * shift + parity.
Proof.
  cbv zeta. pose proof (Z.quot_rem' x 2). pose proof (Z.rem_bound_abs x 2 ltac:(lia)).
  rewrite (Z.rem_mod_nonneg (Z.rem x 2 + 2)) by lia.
  assert (Z.rem x 2 = -1 \/ Z.rem x 2 = 0 \/ Z.rem x 2 = 1) as C by lia.
  destruct C as [C|[C|C]]; rewrite C in *; cbn [Z.add Z.pos_sub Z.modulo Z.div_eucl Pos.add];
    match goal with |- context [?a mod 2] => let v := eval vm_compute in (a mod 2) in change (a mod 2) with v end;
    (split; [lia|]).
  - replace (x - 1) with ((Z.quot x 2 - 1) * 2) by lia. rewrite Z.quot_mul by lia. lia.
  - replace (x - 0) with (Z.quot x 2 * 2) by lia. rewrite Z.quot_mul by lia. lia.
  - replace (x - 1) with (Z.quot x 2 * 2) by lia. rewrite Z.quot_mul by lia. lia.
Qed.

Lemma bank_index b m : 0 <= b <= 2 -> 0 <= m < 1024 ->
  u32 (b * 1024 + m) = b * 1024 + m /\ (b * 1024 + m) / 1024 = b /\ (b * 1024 + m) mod 1024 = m.
Proof.
  intros Hb Hm. split; [apply u32_id; unfold in_u32; lia|].
  assert ((b * 1024 + m) / 1024 = b) as Q by (symmetry; apply (Z.div_unique _ 1024 b m); lia).
  split; [done|]. rewrite Z.mod_eq, Q by lia. lia.
Qed.

(** The argument times a power of two, as an integer. *)
Definition word_scaled (h k : Z) : Z := word_sig h * 2 ^ (word_exp h + k).

Lemma word_scaled_normal h x m k :
  0 < h < 0x7c00 -> 34 <= k -> -24 <= x -> word_sig h * 2 ^ (word_exp h + 34) = (1024 + m) * 2 ^ (x + 24) ->
  word_scaled h k = (1024 + m) * 2 ^ (x - 10 + k).
Proof.
  intros Hh Hk Hx E. pose proof (word_range h Hh). unfold word_scaled.
  replace (word_exp h + k) with (word_exp h + 34 + (k - 34)) by lia.
  rewrite Z.pow_add_r, Z.mul_assoc, E, <- Z.mul_assoc, <- Z.pow_add_r by lia. do 2 f_equal. lia.
Qed.

Lemma root_unfold h inverse :
  0 < h < 0x7c00 ->
  exists N shift parity m,
    0 <= parity <= 1 /\ 0 <= m < 1024 /\ -12 <= shift <= 7 /\
    word_sig h * 2 ^ (word_exp h + 34) = (1024 + m) * 2 ^ (2 * shift + parity + 24) /\
    SFULut_root (SFULut_decode h) inverse =
      num prec64 emax64 N (if inverse then - shift - 11 else shift - 10) /\
    let t := if inverse then N + 0x3800 - 1024 else N + 0x3c00 - 1024 in
    (if inverse then rsqrt_entry else sqrt_entry) (parity * 1024 + m) t = true.
Proof.
  intros Hh. pose proof (normalize_spec h Hh) as Hn. destruct (lut_mag h Hh) as [Hm1 Hm2].
  unfold SFULut_root. rewrite lut_bits, Hm1, Hm2 by done.
  rewrite (proj2 (Z.ltb_ge 0x7c00 h)), (proj2 (Z.eqb_neq h 0)), (proj2 (Z.eqb_neq h 0x7c00)) by lia.
  cbn [Z.eqb negb andb orb]. destruct (SFULut_normalize h) as [x m]. destruct Hn as (Hm & Hx & Hv).
  destruct (parity_split x) as [Hp Hs]. cbv zeta in Hp, Hs |- *.
  set (parity := Z.rem (Z.rem x 2 + 2) 2) in *. set (shift := Z.quot (x - parity) 2) in *.
  destruct (bank_index parity m) as (-> & Qb & Qm); [lia..|].
  destruct inverse.
  - destruct rsqrt_table as [T L].
    pose proof (table_check_sound _ _ 0 (parity * 1024 + m) T ltac:(lia)) as C. rewrite Z.add_0_l in C.
    set (t := rom_at Rsqrt (parity * 1024 + m)) in *.
    assert (0x3800 <= t <= 0x3c00) by (unfold rsqrt_entry in C; boolify; lia).
    exists (t - 0x3800 + 1024), shift, parity, m. rewrite decode_below_one by lia.
    rewrite ldexp_num by (apply exact64_intro; lia).
    split; [lia|]. split; [lia|]. split; [lia|]. split; [rewrite Hv; do 2 f_equal; lia|].
    split; [f_equal; lia|]. replace (t - 0x3800 + 1024 + 0x3800 - 1024) with t by lia. exact C.
  - destruct sqrt_table as [T L].
    pose proof (table_check_sound _ _ 0 (parity * 1024 + m) T ltac:(lia)) as C. rewrite Z.add_0_l in C.
    set (t := rom_at Sqrt (parity * 1024 + m)) in *.
    assert (0x3c00 <= t < 0x4000) by (unfold sqrt_entry in C; boolify; lia).
    exists (t - 0x3c00 + 1024), shift, parity, m. rewrite decode_unit by lia.
    rewrite ldexp_num by (apply exact64_intro; lia).
    split; [lia|]. split; [lia|]. split; [lia|]. split; [rewrite Hv; do 2 f_equal; lia|].
    split; [f_equal; lia|]. replace (t - 0x3c00 + 1024 + 0x3c00 - 1024) with t by lia. exact C.
Qed.

Lemma root_arg_bank p m : 0 <= p <= 1 -> 0 <= m < 1024 -> root_arg (p * 1024 + m) = 2 ^ p * (1024 + m).
Proof. intros Hp Hm. unfold root_arg. destruct (bank_index p m) as (_ & -> & ->); [lia..|done]. Qed.

(** The square-root ROM is correctly rounded.  For every positive finite
    binary16 argument [X], subnormals included, [SFULut::root(X, false)] is an
    11-bit number [N * 2^k] on the binary16 grid with [|N * 2^k - sqrt X| < 2^k / 2]
    (both sides scaled and squared into integers). *)
Lemma lut_sqrt_correctly_rounded (h : Z) :
  0 < h < 0x7c00 ->
  exists N k, 2 ^ 10 <= N < 2 ^ 11 /\ -24 <= k <= 5 /\
    SFULut_root (SFULut_decode h) false = num prec64 emax64 N k /\
    (2 * N - 1) * (2 * N - 1) * 2 ^ (2 * k + 48) < 4 * word_scaled h 48 <
    (2 * N + 1) * (2 * N + 1) * 2 ^ (2 * k + 48).
Proof.
  intros Hh. destruct (root_unfold h false Hh) as (N & shift & p & m & Hp & Hm & Hs & Hv & E & C).
  cbv zeta in C. exists N, (shift - 10). unfold sqrt_entry in C.
  replace (N + 0x3c00 - 1024 - 0x3c00 + 1024) with N in C by lia.
  rewrite root_arg_bank in C by lia. boolify.
  split; [lia|]. split; [lia|]. split; [exact E|].
  rewrite (word_scaled_normal h (2 * shift + p) m) by (done || lia).
  replace (2 * (shift - 10) + 48) with (2 * shift + 28) by lia.
  replace (2 * shift + p - 10 + 48) with (p + (10 + (2 * shift + 28))) by lia.
  rewrite (Z.pow_add_r 2 p), (Z.pow_add_r 2 10) by lia. change (2 ^ 10) with 1024 in *.
  assert (0 < 2 ^ (2 * shift + 28)) by (apply Z.pow_pos_nonneg; lia).
  nia.
Qed.

Lemma lut_sqrt_witness :
  exists N k, 2 ^ 10 <= N < 2 ^ 11 /\ -24 <= k <= 5 /\
    SFULut_root (SFULut_decode 0x0001) false = num prec64 emax64 N k /\
    (2 * N - 1) * (2 * N - 1) * 2 ^ (2 * k + 48) < 4 * word_scaled 0x0001 48 <
    (2 * N + 1) * (2 * N + 1) * 2 ^ (2 * k + 48).
Proof. apply (lut_sqrt_correctly_rounded 0x0001). lia. Defined.

(** The reciprocal-square-root ROM is correctly rounded.  For every positive
    finite binary16 argument [X], [SFULut::root(X, true)] is [N * 2^k] with an
    11-bit [N] (or the power of two [2^11]) and
    [|N * 2^k - 1 / sqrt X| < 2^k / 2]. *)
Lemma lut_rsqrt_correctly_rounded (h : Z) :
  0 < h < 0x7c00 ->
  exists N k, 2 ^ 10 <= N <= 2 ^ 11 /\ -24 <= k <= 5 /\
    SFULut_root (SFULut_decode h) true = num prec64 emax64 N k /\
    (2 * N - 1) * (2 * N - 1) * 2 ^ (2 * k + 36) * word_scaled h 34 < 2 ^ 72 <
    (2 * N + 1) * (2 * N + 1) * 2 ^ (2 * k + 36) * word_scaled h 34.
Proof.
  intros Hh. destruct (root_unfold h true Hh) as (N & shift & p & m & Hp & Hm & Hs & Hv & E & C).
  cbv zeta in C. exists N, (- shift - 11). unfold rsqrt_entry in C.
  replace (N + 0x3800 - 1024 - 0x3800 + 1024) with N in C by lia.
  rewrite root_arg_bank in C by lia. boolify.
  split; [lia|]. split; [lia|]. split; [exact E|].
  rewrite (word_scaled_normal h (2 * shift + p) m) by (done || lia).
  replace (2 * (- shift - 11) + 36) with (14 - 2 * shift) by lia.
  replace (2 * shift + p - 10 + 34) with (p + (2 * shift + 24)) by lia.
  rewrite (Z.pow_add_r 2 p) by lia.
  assert (2 ^ (14 - 2 * shift) * 2 ^ (2 * shift + 24) = 2 ^ 38) as E38
    by (rewrite <- Z.pow_add_r by lia; f_equal; lia).
  assert (forall q, q * 2 ^ (14 - 2 * shift) * ((1024 + m) * (2 ^ p * 2 ^ (2 * shift + 24))) =
                    q * (2 ^ p * (1024 + m)) * 2 ^ 38) as Eq by (intros q; rewrite <- E38; lia).
  rewrite !Eq. change (2 ^ 72) with (2 ^ 34 * 2 ^ 38). lia.
Qed.

Lemma lut_rsqrt_witness :
  exists N k, 2 ^ 10 <= N <= 2 ^ 11 /\ -24 <= k <= 5 /\
    SFULut_root (SFULut_decode 0x4200) true = num prec64 emax64 N k /\
    (2 * N - 1) * (2 * N - 1) * 2 ^ (2 * k + 36) * word_scaled 0x4200 34 < 2 ^ 72 <
    (2 * N + 1) * (2 * N + 1) * 2 ^ (2 * k + 36) * word_scaled 0x4200 34.
Proof. apply (lut_rsqrt_correctly_rounded 0x4200). lia. Defined.

(** The reciprocal ROM is correctly rounded, gradual underflow included.  For
    every positive finite binary16 argument [X], [SFULut::reciprocal(X)] is
    [M * 2^k] on the grid of the result ([k >= -24], and a [k] above [-24] only for
    a normal [M]) with [|M * 2^k - 1 / X| < 2^k / 2]. *)
Lemma lut_reciprocal_correctly_rounded (h : Z) :
  0 < h < 0x7c00 ->
  exists M k, 2 ^ 8 <= M <= 2 ^ 11 /\ -24 <= k <= 13 /\ (2 ^ 10 <= M \/ k = -24) /\
    SFULut_reciprocal (SFULut_decode h) = num prec64 emax64 M k /\
    (2 * M - 1) * 2 ^ (k + 24) * word_scaled h 34 < 2 ^ 59 <
    (2 * M + 1) * 2 ^ (k + 24) * word_scaled h 34.
Proof.
  intros Hh. pose proof (normalize_spec h Hh) as Hn. destruct (lut_mag h Hh) as [Hm1 Hm2].
  unfold SFULut_reciprocal. rewrite lut_bits, Hm1 by done.
  rewrite (proj2 (Z.ltb_ge 0x7c00 h)), (proj2 (Z.eqb_neq h 0)), (proj2 (Z.eqb_neq h 0x7c00)) by lia.
  destruct (SFULut_normalize h) as [x m]. destruct Hn as (Hm & Hx & Hv). cbv zeta.
  set (b := Z.max 0 (x - 13)).
  assert ((if 14 <=? x then u32 (x - 13) else 0) = b) as ->.
  { destruct (Z.leb_spec 14 x); [rewrite u32_id by (unfold in_u32; lia)|]; lia. }
  destruct (bank_index b m) as (-> & Qb & Qm); [lia..|].
  destruct reciprocal_table as [T L].
  pose proof (table_check_sound _ _ 0 (b * 1024 + m) T ltac:(lia)) as C. rewrite Z.add_0_l in C.
  set (t := rom_at Reciprocal (b * 1024 + m)) in *. clearbody t. clear T L. unfold reciprocal_entry in C.
  rewrite Qb, Qm in C. boolify. set (N := t - 0x3800 + 1024) in *.
  assert (0 < 2 ^ b <= 4) as Pb by (split; [apply Z.pow_pos_nonneg; lia|change 4 with (2 ^ 2); apply Z.pow_le_mono_r; lia]).
  assert (N = N / 2 ^ b * 2 ^ b) as EN by (pose proof (Z.div_mod N (2 ^ b) ltac:(lia)); lia).
  set (M := N / 2 ^ b) in *. exists M, (b - 11 - x).
  assert (2 ^ 8 <= M <= 2 ^ 11 /\ (b = 0 -> 2 ^ 10 <= M)) as [HM HM0].
  { assert (b = 0 \/ b = 1 \/ b = 2) as [Eb|[Eb|Eb]] by lia; rewrite Eb in EN;
      [change (2 ^ 0) with 1 in EN|change (2 ^ 1) with 2 in EN|change (2 ^ 2) with 4 in EN]; lia. }
  rewrite decode_below_one by lia. fold N. rewrite ldexp_num by (apply exact64_intro; lia).
  assert (num prec64 emax64 N (-11 + - x) = num prec64 emax64 M (b - 11 - x)) as ->.
  { rewrite EN, num_scale by (reflexivity || lia). f_equal. lia. }
  rewrite (copysign_num _ _ _ _ false); [|done|done|lia|apply exact64_intro; lia|].
  2:{ rewrite lut_decode by done. pose proof (word_range h Hh).
      rewrite num_round by (reflexivity || lia). rewrite signbit_round_at. apply Z.ltb_ge. lia. }
  split; [lia|]. split; [lia|]. split; [lia|].
  split; [rewrite num_round by (reflexivity || lia); rewrite (proj2 (Z.ltb_ge M 0)), Z.abs_eq by lia; done|].
  rewrite (word_scaled_normal h x m) by (done || lia).
  replace (b - 11 - x + 24) with (b + (13 - x)) by lia.
  replace (x - 10 + 34) with (x + 24) by lia.
  assert (2 ^ (b + (13 - x)) * 2 ^ (x + 24) = 2 ^ b * 2 ^ 37) as Ep
    by (rewrite <- !Z.pow_add_r by lia; f_equal; lia).
  assert (forall q, q * 2 ^ (b + (13 - x)) * ((1024 + m) * 2 ^ (x + 24)) =
                    q * 2 ^ b * (1024 + m) * 2 ^ 37) as Eq
    by (intros q; rewrite <- !Z.mul_assoc; f_equal;
        rewrite (Z.mul_comm (1024 + m)), Z.mul_assoc, Ep; lia).
  rewrite !Eq. change (2 ^ 59) with (2 ^ 22 * 2 ^ 37).
  replace ((2 * M - 1) * 2 ^ b) with (2 * N - 2 ^ b) by lia.
  replace ((2 * M + 1) * 2 ^ b) with (2 * N + 2 ^ b) by lia. lia.
Qed.

Lemma lut_reciprocal_witness :
  exists M k, 2 ^ 8 <= M <= 2 ^ 11 /\ -24 <= k <= 13 /\ (2 ^ 10 <= M \/ k = -24) /\
    SFULut_reciprocal (SFULut_decode 0x7bff) = num prec64 emax64 M k /\
    (2 * M - 1) * 2 ^ (k + 24) * word_scaled 0x7bff 34 < 2 ^ 59 <
    (2 * M + 1) * 2 ^ (k + 24) * word_scaled 0x7bff 34.
Proof. apply (lut_reciprocal_correctly_rounded 0x7bff). lia. Defined.


(** C22: the lookup ROMs are correctly rounded.  For every positive finite binary16
    argument [X], subnormals included, the square root, the reciprocal square root and the
    reciprocal are numbers [N * 2^k] of the result's binary16 grid less than half a unit
    [2^k] away from the true value (each inequality scaled, and for the roots squared,
    into integers). *)
Theorem lut_correctly_rounded (h : Z) : 0 < h < 0x7c00 ->
  (exists N k, 2 ^ 10 <= N < 2 ^ 11 /\ -24 <= k <= 5 /\
    SFULut_root (SFULut_decode h) false = num prec64 emax64 N k /\
    (2 * N - 1) * (2 * N - 1) * 2 ^ (2 * k + 48) < 4 * word_scaled h 48 <
    (2 * N + 1) * (2 * N + 1) * 2 ^ (2 * k + 48)) /\
  (exists N k, 2 ^ 10 <= N <= 2 ^ 11 /\ -24 <= k <= 5 /\
    SFULut_root (SFULut_decode h) true = num prec64 emax64 N k /\
    (2 * N - 1) * (2 * N - 1) * 2 ^ (2 * k + 36) * word_scaled h 34 < 2 ^ 72 <
    (2 * N + 1) * (2 * N + 1) * 2 ^ (2 * k + 36) * word_scaled h 34) /\
  (exists M k, 2 ^ 8 <= M <= 2 ^ 11 /\ -24 <= k <= 13 /\ (2 ^ 10 <= M \/ k = -24) /\
    SFULut_reciprocal (SFULut_decode h) = num prec64 emax64 M k /\
    (2 * M - 1) * 2 ^ (k + 24) * word_scaled h 34 < 2 ^ 59 <
    (2 * M + 1) * 2 ^ (k + 24) * word_scaled h 34).
Proof.
  intros Hh. split; [|split].
  - exact (lut_sqrt_correctly_rounded h Hh).
  - exact (lut_rsqrt_correctly_rounded h Hh).
  - exact (lut_reciprocal_correctly_rounded h Hh).
Qed.

Lemma lut_correctly_rounded_witness : exists N k, 2 ^ 10 <= N < 2 ^ 11 /\ -24 <= k <= 5 /\
  SFULut_root (SFULut_decode 0x0001) false = num prec64 emax64 N k.
Proof.
  destruct (lut_correctly_rounded 0x0001 ltac:(lia)) as [(N & k & H1 & H2 & H3 & _) _]. exists N, k. exact (conj H1 (conj H2 H3)).
Defined.
