(* ===== verification/HardwarePipeline.v ===== *)
(** * Finite hardware pipelines ([src/src/sst/elements/golem/sfu/hardware_pipeline.h])

    [TensorHardwarePipeline] is the timing model shared by every SFU resource: a
    token accepted at cycle [now] issues at [max now nextIssueCycle], completes
    [latency] cycles later and occupies one of [queueDepth] slots until then.
    [SFUSharedVectorArbiter] decides which of two clients runs first on a shared
    pipeline.  The client callbacks are arguments of [step]. *)

From Stdlib Require Import ZArith Lia.
From stdpp Require Import base numbers list sorting.
From S2P Require Import Prelude.

Record TensorHardwarePipeline := mkPipeline {
  latency : Z;
  initiationInterval : Z;
  queueDepth : Z;
  nextIssueCycle : Z;
  completionCycles : list Z;
  acceptedTokens : Z;
  issueWaitCycles : Z;
  backpressureEvents : Z;
  maxOccupancy : Z
}.

Definition TensorHardwarePipeline_init : TensorHardwarePipeline :=
  mkPipeline 1 1 1 0 [] 0 0 0 0.

Definition TensorHardwarePipeline_configure (p : TensorHardwarePipeline)
    (configuredLatency configuredII configuredQueueDepth : Z) : TensorHardwarePipeline :=
  mkPipeline (Z.max 1 configuredLatency) (Z.max 1 configuredII) (Z.max 1 configuredQueueDepth)
    (nextIssueCycle p) (completionCycles p) (acceptedTokens p) (issueWaitCycles p)
    (backpressureEvents p) (maxOccupancy p).

(** [while(!empty && front <= now) pop_front()]. *)
Fixpoint pop_completed (now : Z) (cycles : list Z) : list Z :=
  match cycles with
  | c :: rest => if c <=? now then pop_completed now rest else cycles
  | [] => []
  end.

Definition with_cycles (p : TensorHardwarePipeline) (cycles : list Z) : TensorHardwarePipeline :=
  mkPipeline (latency p) (initiationInterval p) (queueDepth p) (nextIssueCycle p) cycles
    (acceptedTokens p) (issueWaitCycles p) (backpressureEvents p) (maxOccupancy p).

Definition TensorHardwarePipeline_retire (p : TensorHardwarePipeline) (now : Z) : TensorHardwarePipeline :=
  with_cycles p (pop_completed now (completionCycles p)).

Definition occupancy (p : TensorHardwarePipeline) : Z := Z.of_nat (length (completionCycles p)).

(** [out] tells whether [completionCycle] is a valid pointer; the second component
    is [None] for [false] and the stored completion cycle for [true]. *)
Definition TensorHardwarePipeline_reserve (p : TensorHardwarePipeline) (now : Z) (out : bool) :
    TensorHardwarePipeline * option Z :=
  let p := TensorHardwarePipeline_retire p now in
  if negb out || (queueDepth p <=? occupancy p) then
    (mkPipeline (latency p) (initiationInterval p) (queueDepth p) (nextIssueCycle p)
       (completionCycles p) (acceptedTokens p) (issueWaitCycles p)
       (backpressureEvents p ⊞ 1) (maxOccupancy p), None)
  else
    let issue := Z.max now (nextIssueCycle p) in
    let completion := issue ⊞ latency p in
    let cycles := completionCycles p ++ [completion] in
    (mkPipeline (latency p) (initiationInterval p) (queueDepth p) (issue ⊞ initiationInterval p)
       cycles (acceptedTokens p ⊞ 1) (issueWaitCycles p ⊞ (issue - now)) (backpressureEvents p)
       (Z.max (maxOccupancy p) (Z.of_nat (length cycles))), Some completion).

Definition TensorHardwarePipeline_retryDelay (p : TensorHardwarePipeline) (now : Z) :
    TensorHardwarePipeline * Z :=
  let p := TensorHardwarePipeline_retire p now in
  if occupancy p <? queueDepth p then (p, 1)
  else (p, Z.max 1 (hd 0 (completionCycles p) ⊟ now ⊞ 1)).

(** ** The arbiter *)

Record SFUSharedVectorArbiter := mkArbiter {
  grantBased : bool;
  preferRows : bool;
  rowGrants : Z;
  vectorGrants : Z
}.

Definition SFUSharedVectorArbiter_init : SFUSharedVectorArbiter := mkArbiter true true 0 0.

Section arbiter.
Context {S : Type} (resource : S -> TensorHardwarePipeline).

Definition SFUSharedVectorArbiter_runRows (rows : S -> S) (a : SFUSharedVectorArbiter) (s : S) :
    SFUSharedVectorArbiter * S :=
  let before := acceptedTokens (resource s) in
  let s := rows s in
  let after := acceptedTokens (resource s) in
  if after =? before then (a, s)
  else (mkArbiter (grantBased a) false (rowGrants a ⊞ (after ⊟ before)) (vectorGrants a), s).

Definition SFUSharedVectorArbiter_runVectors (vectors : S -> S) (a : SFUSharedVectorArbiter) (s : S) :
    SFUSharedVectorArbiter * S :=
  let before := acceptedTokens (resource s) in
  let s := vectors s in
  let after := acceptedTokens (resource s) in
  if after =? before then (a, s)
  else (mkArbiter (grantBased a) true (rowGrants a) (vectorGrants a ⊞ (after ⊟ before)), s).

Definition SFUSharedVectorArbiter_step (rows vectors : S -> S) (now : Z)
    (a : SFUSharedVectorArbiter) (s : S) : SFUSharedVectorArbiter * S :=
  let first := if grantBased a then preferRows a else Z.odd now in
  if first then
    let '(a, s) := SFUSharedVectorArbiter_runRows rows a s in
    SFUSharedVectorArbiter_runVectors vectors a s
  else
    let '(a, s) := SFUSharedVectorArbiter_runVectors vectors a s in
    SFUSharedVectorArbiter_runRows rows a s.
End arbiter.

(** ** The in-flight tokens *)

Definition in_flight (now : Z) (cycles : list Z) : list Z := filter (fun c => now < c) cycles.

Definition spaced (ii : Z) (cycles : list Z) : Prop := StronglySorted (fun a b => a + ii <= b) cycles.

Lemma spaced_snoc ii l d : spaced ii l -> Forall (fun c => c + ii <= d) l -> spaced ii (l ++ [d]).
Proof.
  intros Hs Hf. induction Hs as [|c l Hs IH Hc]; [repeat constructor|].
  apply Forall_cons in Hf as [Hcd Hf]. cbn [app]. constructor; [by apply IH|].
  apply Forall_app. split; [done|]. by constructor.
Qed.

Lemma pop_completed_spaced now ii l : 0 <= ii -> spaced ii l -> pop_completed now l = in_flight now l.
Proof.
  intros Hii Hs. induction Hs as [|c l Hs IH Hc]; [reflexivity|].
  cbn [pop_completed]. unfold in_flight in *. destruct (Z.leb_spec c now).
  - rewrite filter_cons_False by lia. exact IH.
  - rewrite filter_cons_True by lia. f_equal. symmetry. clear IH Hs.
    induction Hc as [|d l Hd Hc IH]; [reflexivity|].
    rewrite filter_cons_True by lia. f_equal. exact IH.
Qed.

Lemma in_flight_app now l k : in_flight now (l ++ k) = in_flight now l ++ in_flight now k.
Proof. apply filter_app. Qed.

Lemma in_flight_later now now' l : now <= now' -> in_flight now' (in_flight now l) = in_flight now' l.
Proof.
  intros Hn. unfold in_flight. rewrite list_filter_filter_l; [reflexivity|]. intros x. lia.
Qed.

Lemma in_flight_length_mono now now' l : now <= now' -> (length (in_flight now' l) <= length (in_flight now l))%nat.
Proof. intros Hn. rewrite <- (in_flight_later now now') by done. apply length_filter. Qed.

Lemma in_flight_Forall (P : Z -> Prop) now l : Forall P l -> Forall P (in_flight now l).
Proof.
  intros Hf. apply Forall_forall. intros x [_ Hx]%list_elem_of_filter.
  rewrite Forall_forall in Hf. by apply Hf.
Qed.

Lemma in_flight_spaced ii now l : spaced ii l -> spaced ii (in_flight now l).
Proof.
  intros Hs. unfold in_flight. induction Hs as [|c l Hs IH Hc]; [constructor|].
  rewrite filter_cons. case_decide; [|done]. constructor; [done|].
  by apply (in_flight_Forall _ now l).
Qed.

(** ** Well-formed pipelines *)

(** [wf p]: the parameters are at least one, completions are spaced by the
    initiation interval, the next issue respects the last one, and no more than
    [queueDepth] tokens are held. *)
Record pipeline_wf (p : TensorHardwarePipeline) : Prop := {
  wf_latency : 1 <= latency p;
  wf_interval : 1 <= initiationInterval p;
  wf_depth : 1 <= queueDepth p;
  wf_spaced : spaced (initiationInterval p) (completionCycles p);
  wf_next : Forall (fun c => c + initiationInterval p <= nextIssueCycle p + latency p) (completionCycles p);
  wf_occupancy : occupancy p <= queueDepth p
}.

Lemma configure_wf l i q :
  pipeline_wf (TensorHardwarePipeline_configure TensorHardwarePipeline_init l i q).
Proof. split; cbn; try lia; [apply SSorted_nil|by apply Forall_nil|unfold occupancy; cbn; lia]. Qed.

Lemma retire_in_flight p now :
  pipeline_wf p -> TensorHardwarePipeline_retire p now = with_cycles p (in_flight now (completionCycles p)).
Proof.
  intros W. unfold TensorHardwarePipeline_retire.
  rewrite (pop_completed_spaced now (initiationInterval p)); [done| |apply W].
  pose proof (wf_interval p W). lia.
Qed.

Lemma retire_wf p now : pipeline_wf p -> pipeline_wf (TensorHardwarePipeline_retire p now).
Proof.
  intros W. rewrite retire_in_flight by done. destruct W as [W1 W2 W3 W4 W5 W6].
  split; cbn; try done; [by apply in_flight_spaced|by apply in_flight_Forall|].
  unfold occupancy in *. cbn. pose proof (length_filter (fun c => now < c) (completionCycles p)).
  unfold in_flight. lia.
Qed.

(** No cycle count wraps within the next operation. *)
Definition no_wrap (p : TensorHardwarePipeline) (now : Z) : Prop :=
  0 <= now /\ 0 <= nextIssueCycle p /\
  Z.max now (nextIssueCycle p) + Z.max (latency p) (initiationInterval p) < 2 ^ 64.
Lemma reserve_spec (p : TensorHardwarePipeline) (now : Z) :
  pipeline_wf p -> no_wrap p now ->
  let live := in_flight now (completionCycles p) in
  let issue := Z.max now (nextIssueCycle p) in
  let '(p', r) := TensorHardwarePipeline_reserve p now true in
  pipeline_wf p' /\
  latency p' = latency p /\ initiationInterval p' = initiationInterval p /\ queueDepth p' = queueDepth p /\
  if Z.of_nat (length live) <? queueDepth p then
    r = Some (issue + latency p) /\
    completionCycles p' = live ++ [issue + latency p] /\
    nextIssueCycle p' = issue + initiationInterval p
  else
    r = None /\ completionCycles p' = live /\ nextIssueCycle p' = nextIssueCycle p.
Proof.
  intros W (Hn & Hx & Hov). cbv zeta. unfold TensorHardwarePipeline_reserve.
  pose proof (retire_wf p now W) as WR. rewrite retire_in_flight in * by done.
  set (live := in_flight now (completionCycles p)) in *. cbv zeta. cbn [with_cycles negb orb queueDepth
    completionCycles nextIssueCycle latency initiationInterval].
  assert (occupancy (with_cycles p live) = Z.of_nat (length live)) as -> by reflexivity.
  destruct WR as [W1 W2 W3 W4 W5 W6]. cbn in W1, W2, W3, W4, W5, W6.
  destruct (Z.ltb_spec (Z.of_nat (length live)) (queueDepth p)).
  - rewrite (proj2 (Z.leb_gt _ _)) by done. unwrap. split; [|done].
    split; cbn; try done.
    + apply spaced_snoc; [done|]. eapply Forall_impl; [exact W5|]. intros c Hc. cbn in Hc. lia.
    + apply Forall_app. split; [|constructor; [lia|constructor]].
      eapply Forall_impl; [exact W5|]. intros c Hc. cbn in Hc. lia.
    + unfold occupancy. cbn. rewrite length_app. cbn. lia.
  - rewrite (proj2 (Z.leb_le _ _)) by done. split; [by split|done].
Qed.
(** C20: [reserve] accepts a token exactly when fewer than [queueDepth] tokens are
    still in flight at [now]; an accepted token issues at [max now nextIssueCycle],
    completes [latency] later and moves the next issue one initiation interval on;
    a rejected one changes no timing state.  Either way completed tokens, and only
    those, are retired, and the pipeline stays well formed: completions are
    spaced by the initiation interval and occupancy never exceeds the depth. *)
Theorem reserve_correct (p : TensorHardwarePipeline) (now : Z) :
  pipeline_wf p -> no_wrap p now ->
  let live := in_flight now (completionCycles p) in
  let issue := Z.max now (nextIssueCycle p) in
  let '(p', r) := TensorHardwarePipeline_reserve p now true in
  pipeline_wf p' /\
  latency p' = latency p /\ initiationInterval p' = initiationInterval p /\ queueDepth p' = queueDepth p /\
  if Z.of_nat (length live) <? queueDepth p then
    r = Some (issue + latency p) /\
    completionCycles p' = live ++ [issue + latency p] /\
    nextIssueCycle p' = issue + initiationInterval p
  else
    r = None /\ completionCycles p' = live /\ nextIssueCycle p' = nextIssueCycle p.
Proof. apply reserve_spec. Qed.

Lemma reserve_correct_witness :
  let p := TensorHardwarePipeline_configure TensorHardwarePipeline_init 8 2 4 in
  pipeline_wf (fst (TensorHardwarePipeline_reserve p 10 true)).
Proof.
  cbv zeta. assert (no_wrap (TensorHardwarePipeline_configure TensorHardwarePipeline_init 8 2 4) 10) as Hw
    by (cbv; repeat split; discriminate).
  pose proof (reserve_correct _ 10 (configure_wf 8 2 4) Hw) as W. cbv zeta in W.
  destruct (TensorHardwarePipeline_reserve _ 10 true) as [p' r]. exact (proj1 W).
Defined.

(** ** Runs *)

(** [reserve] at every time of [ts]; the accepted attempts with their completions. *)
Fixpoint pipeline_run (p : TensorHardwarePipeline) (ts : list Z) :
    TensorHardwarePipeline * list (Z * Z) :=
  match ts with
  | [] => (p, [])
  | t :: ts' =>
      let '(p', r) := TensorHardwarePipeline_reserve p t true in
      let '(p'', acc) := pipeline_run p' ts' in
      (p'', match r with Some d => (t, d) :: acc | None => acc end)
  end.

Definition tokens_at (now : Z) (acc : list (Z * Z)) : list (Z * Z) :=
  filter (fun td => td.1 <= now < td.2) acc.

Lemma tokens_at_in_flight now acc : (length (tokens_at now acc) <= length (in_flight now (map snd acc)))%nat.
Proof.
  unfold tokens_at, in_flight. induction acc as [|[t d] acc IH]; [done|].
  cbn [map]. rewrite !filter_cons. cbn [fst snd]. repeat case_decide; cbn [length]; lia.
Qed.

(** What a run has done so far: [acc] in order, [now] the last attempt. *)
Record run_inv (l i q now bound : Z) (p : TensorHardwarePipeline) (acc : list (Z * Z)) : Prop := {
  ri_wf : pipeline_wf p;
  ri_params : latency p = l /\ initiationInterval p = i /\ queueDepth p = q;
  ri_next : 0 <= nextIssueCycle p <= bound;
  ri_spaced : spaced i (map snd acc);
  ri_last : Forall (fun td => td.2 + i <= nextIssueCycle p + l) acc;
  ri_times : Forall (fun td => td.1 + l <= td.2) acc;
  ri_live : forall t, now <= t -> in_flight t (completionCycles p) = in_flight t (map snd acc);
  ri_occupancy : forall t, Z.of_nat (length (tokens_at t acc)) <= q
}.

Lemma run_inv_step l i q now bound p acc t :
  run_inv l i q now bound p acc -> 0 <= now <= t -> t <= bound -> bound + l + i < 2 ^ 64 ->
  let '(p', r) := TensorHardwarePipeline_reserve p t true in
  run_inv l i q t (bound + i) p' (acc ++ match r with Some d => [(t, d)] | None => [] end).
Proof.
  intros [W (El & Ei & Eq) Hx Hs Hl Ht Hlive Ho] Hn Hb Hov.
  pose proof (wf_latency p W). pose proof (wf_interval p W).
  pose proof (reserve_spec p t W) as R. cbv zeta in R.
  destruct (TensorHardwarePipeline_reserve p t true) as [p' r].
  destruct R as (W' & El' & Ei' & Eq' & R); [split; [|split]; lia|].
  rewrite Hlive in R by lia. rewrite El, Ei in R.
  destruct (Z.ltb_spec (Z.of_nat (length (in_flight t (map snd acc)))) (queueDepth p)) as [L|L].
  - destruct R as (-> & Ec & En). split; [done|split; [lia|split; lia]|lia|..].
    + rewrite map_app. cbn [map]. apply spaced_snoc; [done|]. apply Forall_map.
      eapply Forall_impl; [exact Hl|]. intros td Htd. cbn in Htd |- *. lia.
    + apply Forall_app. split; [|constructor; [cbn; lia|constructor]].
      eapply Forall_impl; [exact Hl|]. intros td Htd. cbn in Htd |- *. lia.
    + apply Forall_app. split; [done|constructor; [cbn; lia|constructor]].
    + intros t' Ht'. rewrite Ec, map_app, !in_flight_app, in_flight_later by done. reflexivity.
    + intros t'. unfold tokens_at. rewrite filter_app, length_app.
      destruct (Z.le_gt_cases t t') as [Hle|Hgt].
      * pose proof (tokens_at_in_flight t' acc) as T1. unfold tokens_at in T1.
        pose proof (in_flight_length_mono t t' (map snd acc) Hle).
        rewrite filter_cons, filter_nil. case_decide; cbn [length]; lia.
      * rewrite filter_cons_False by (cbn; lia). rewrite filter_nil. cbn [length].
        specialize (Ho t'). unfold tokens_at in Ho. lia.
  - destruct R as (-> & Ec & En). rewrite app_nil_r.
    split; [done|split; [lia|split; lia]|lia|done|by rewrite En|done| |done].
    intros t' Ht'. rewrite Ec. apply in_flight_later. lia.
Qed.

Lemma run_inv_run l i q ts : forall now bound p acc,
  run_inv l i q now bound p acc -> 0 <= now -> StronglySorted Z.le (now :: ts) -> Forall (fun t => t <= bound) ts ->
  1 <= i -> bound + Z.of_nat (length ts) * i + l < 2 ^ 64 ->
  exists now' bound', run_inv l i q now' bound' (pipeline_run p ts).1 (acc ++ (pipeline_run p ts).2).
Proof.
  induction ts as [|t ts IH]; intros now bound p acc I Hn Hs Hb Hi Hov.
  - exists now, bound. cbn. rewrite app_nil_r. exact I.
  - apply StronglySorted_inv in Hs as [Hs Hle]. apply Forall_cons in Hle as [Hle _].
    apply Forall_cons in Hb as [Hbt Hb]. cbn [length] in Hov.
    pose proof (run_inv_step l i q now bound p acc t I ltac:(lia) Hbt ltac:(lia)) as Istep.
    cbn [pipeline_run]. destruct (TensorHardwarePipeline_reserve p t true) as [p' r].
    destruct (IH t (bound + i) p' _ Istep) as (n' & b' & I'); [lia|done| |done|lia|].
    { eapply Forall_impl; [exact Hb|]. intros x Hx. cbn in Hx. lia. }
    exists n', b'. destruct (pipeline_run p' ts) as [p'' acc'']. cbn in I' |- *.
    rewrite <- app_assoc in I'. destruct r; exact I'.
Qed.
(** A configured pipeline behaves as hardware with [latency] stages, one issue
    every [initiationInterval] cycles and [queueDepth] slots, for any sequence of
    requests at nondecreasing times: every accepted token completes at least the
    latency after its request, completions are at least one initiation interval
    apart and in request order, and at no cycle are more than [queueDepth] tokens
    between request and completion. *)
Theorem pipeline_run_timing (cl ci cq bound : Z) (ts : list Z) :
  let p := TensorHardwarePipeline_configure TensorHardwarePipeline_init cl ci cq in
  StronglySorted Z.le (0 :: ts) -> Forall (fun t => t <= bound) ts -> 0 <= bound ->
  bound + Z.of_nat (length ts) * Z.max 1 ci + Z.max 1 cl < 2 ^ 64 ->
  let acc := (pipeline_run p ts).2 in
  spaced (Z.max 1 ci) (map snd acc) /\
  Forall (fun td => td.1 + Z.max 1 cl <= td.2) acc /\
  forall now, Z.of_nat (length (tokens_at now acc)) <= Z.max 1 cq.
Proof.
  cbv zeta. intros Hs Hb H0 Hov.
  destruct (run_inv_run (Z.max 1 cl) (Z.max 1 ci) (Z.max 1 cq) ts 0 bound
    (TensorHardwarePipeline_configure TensorHardwarePipeline_init cl ci cq) []) as (n & b & I);
    [|lia|done|done|lia|done|].
  - split; [apply configure_wf|done|cbn; lia|apply SSorted_nil|by apply Forall_nil|by apply Forall_nil|done|].
    intros t. cbn. lia.
  - destruct I. done.
Qed.

Lemma pipeline_run_timing_witness :
  Z.of_nat (length (tokens_at 5 (pipeline_run
    (TensorHardwarePipeline_configure TensorHardwarePipeline_init 8 2 3) [0; 1; 1; 4; 9; 30]).2)) <= 3.
Proof.
  refine (proj2 (proj2 (pipeline_run_timing 8 2 3 30 [0; 1; 1; 4; 9; 30] _ _ _ _)) 5).
  - repeat constructor; discriminate.
  - repeat constructor; discriminate.
  - discriminate.
  - reflexivity.
Defined.
(** [retryDelay] is sufficient and tight to one cycle: a request made that many
    cycles later is accepted, and while the pipeline is full every request made
    more than one cycle earlier than that is rejected. *)
Lemma retryDelay_sufficient (p : TensorHardwarePipeline) (now : Z) :
  pipeline_wf p -> 0 <= now -> Forall (fun c => c + 1 < 2 ^ 64) (completionCycles p) ->
  let '(p', delay) := TensorHardwarePipeline_retryDelay p now in
  1 <= delay /\
  (exists d, (TensorHardwarePipeline_reserve p' (now + delay) true).2 = Some d) /\
  (forall t, now <= t < now + delay - 1 -> (TensorHardwarePipeline_reserve p' t true).2 = None).
Proof.
  intros W Hn Hov. unfold TensorHardwarePipeline_retryDelay.
  pose proof (retire_wf p now W) as W'. rewrite retire_in_flight in * by done.
  set (live := in_flight now (completionCycles p)) in *. set (p' := with_cycles p live) in *.
  assert (R : forall t, now <= t -> (TensorHardwarePipeline_reserve p' t true).2 =
    if queueDepth p <=? Z.of_nat (length (in_flight t live)) then None
    else Some (Z.max t (nextIssueCycle p) ⊞ latency p)).
  { intros t Ht. unfold TensorHardwarePipeline_reserve. rewrite retire_in_flight by done. cbn.
    unfold occupancy. cbn. destruct (queueDepth p <=? _); reflexivity. }
  pose proof (wf_depth p W) as Hq.
  change (occupancy p') with (Z.of_nat (length live)). change (queueDepth p') with (queueDepth p).
  destruct (Z.ltb_spec (Z.of_nat (length live)) (queueDepth p)) as [L|L].
  - split; [lia|]. split; [|lia]. rewrite R by lia.
    pose proof (length_filter (fun c => now + 1 < c) live). unfold in_flight in R |- *.
    rewrite (proj2 (Z.leb_gt _ _)) by lia. eauto.
  - pose proof (wf_occupancy _ W') as Ho. unfold occupancy in Ho. cbn in Ho.
    pose proof (wf_spaced _ W') as Hs. cbn in Hs.
    assert (Forall (fun c => now < c /\ c + 1 < 2 ^ 64) live) as Hf.
    { apply Forall_forall. intros x Hx. apply list_elem_of_filter in Hx as [Hx1 Hx2].
      rewrite Forall_forall in Hov. split; [done|by apply Hov]. }
    change (completionCycles p') with live. destruct live as [|c rest]; [cbn in L; lia|].
    apply Forall_cons in Hf as [[Hc1 Hc2] Hf]. cbn [hd length] in *.
    unwrap. rewrite Z.max_r by lia. split; [lia|].
    apply StronglySorted_inv in Hs as [Hs Hcr]. split.
    + rewrite R by lia. unfold in_flight. rewrite filter_cons_False by lia.
      pose proof (length_filter (fun x => now + (c - now + 1) < x) rest).
      rewrite (proj2 (Z.leb_gt _ _)) by lia. eauto.
    + intros t Ht. rewrite R by lia.
      assert (in_flight t (c :: rest) = c :: rest) as ->.
      { unfold in_flight. rewrite filter_cons_True by lia. f_equal.
        pose proof (wf_interval p W). clear - Hcr Ht H. 
        induction Hcr as [|d r Hd Hr IH]; [done|]. rewrite filter_cons_True by lia. f_equal. exact IH. }
      rewrite (proj2 (Z.leb_le _ _)) by (cbn [length]; lia). reflexivity.
Qed.

Lemma retryDelay_sufficient_witness :
  1 <= snd (TensorHardwarePipeline_retryDelay
    (TensorHardwarePipeline_configure TensorHardwarePipeline_init 8 2 1) 5).
Proof.
  exact (proj1 (retryDelay_sufficient
    (TensorHardwarePipeline_configure TensorHardwarePipeline_init 8 2 1) 5 (configure_wf 8 2 1)
    ltac:(discriminate) ltac:(constructor))).
Defined.

(** ** Fairness of the arbiter *)

Section fairness.
Context {S : Type} (resource : S -> TensorHardwarePipeline) (rows vectors : Z -> S -> S) (ii : Z).
Notation accepted s := (acceptedTokens (resource s)).

(** Both clients have ready work and the resource has one slot at [now]: whoever
    runs first takes it and the other then gets nothing. *)
Definition contended (now : Z) (s : S) : Prop :=
  accepted (rows now s) = accepted s ⊞ 1 /\ accepted s <> accepted s ⊞ 1 /\
  accepted (vectors now (rows now s)) = accepted (rows now s) /\
  accepted (vectors now s) = accepted s ⊞ 1 /\
  accepted (rows now (vectors now s)) = accepted (vectors now s).

(** Contention at [k] successive issue slots, [ii] cycles apart, whatever the
    order in which the clients ran. *)
Fixpoint contended_run (k : nat) (now : Z) (s : S) : Prop :=
  match k with
  | O => True
  | Datatypes.S k' =>
      contended now s /\
      contended_run k' (now + ii) (vectors now (rows now s)) /\
      contended_run k' (now + ii) (rows now (vectors now s))
  end.

Fixpoint arbiter_run (k : nat) (now : Z) (a : SFUSharedVectorArbiter) (s : S) : SFUSharedVectorArbiter * S :=
  match k with
  | O => (a, s)
  | Datatypes.S k' =>
      let '(a, s) := SFUSharedVectorArbiter_step resource (rows now) (vectors now) now a s in
      arbiter_run k' (now + ii) a s
  end.

Lemma u64_succ_diff x : u64 (u64 (x + 1) - x) = 1.
Proof.
  unfold u64. rewrite Zminus_mod_idemp_l. replace (x + 1 - x) with 1 by lia. reflexivity.
Qed.

(** One contended slot goes to the preferred client, and the preference flips. *)
Lemma contended_step now a s :
  contended now s ->
  let first := if grantBased a then preferRows a else Z.odd now in
  SFUSharedVectorArbiter_step resource (rows now) (vectors now) now a s =
  if first then (mkArbiter (grantBased a) false (rowGrants a ⊞ 1) (vectorGrants a), vectors now (rows now s))
  else (mkArbiter (grantBased a) true (rowGrants a) (vectorGrants a ⊞ 1), rows now (vectors now s)).
Proof.
  intros (R1 & Rn & R2 & V1 & V2). cbv zeta. unfold SFUSharedVectorArbiter_step.
  assert (Ne : (accepted s ⊞ 1 =? accepted s) = false) by (apply Z.eqb_neq; congruence).
  destruct (if grantBased a then preferRows a else Z.odd now).
  - unfold SFUSharedVectorArbiter_runRows. rewrite R1, Ne, u64_succ_diff.
    unfold SFUSharedVectorArbiter_runVectors. rewrite R2, Z.eqb_refl. reflexivity.
  - unfold SFUSharedVectorArbiter_runVectors. rewrite V1, Ne, u64_succ_diff.
    unfold SFUSharedVectorArbiter_runRows. rewrite V2, Z.eqb_refl. reflexivity.
Qed.
(** C26: under contention the grant-based arbiter is fair: over any [2n] contended
    issue slots each client receives exactly [n] grants, whatever the issue
    interval; while the parity policy ([grantBased = false]) gives every slot to the
    vector client when the slots fall on even cycles, the starvation the source's
    comment describes for [II = 2]. *)
Theorem arbiter_fair (n : nat) (now : Z) (a : SFUSharedVectorArbiter) (s : S) :
  contended_run (2 * n) now s ->
  0 <= rowGrants a -> 0 <= vectorGrants a ->
  rowGrants a + 2 * Z.of_nat n < 2 ^ 64 -> vectorGrants a + 2 * Z.of_nat n < 2 ^ 64 ->
  let a' := (arbiter_run (2 * n) now a s).1 in
  (grantBased a = true ->
     rowGrants a' = rowGrants a + Z.of_nat n /\ vectorGrants a' = vectorGrants a + Z.of_nat n) /\
  (grantBased a = false -> Z.even now = true -> Z.even ii = true ->
     rowGrants a' = rowGrants a /\ vectorGrants a' = vectorGrants a + 2 * Z.of_nat n).
Proof.
  cbv zeta. revert now a s. induction n as [|n IH]; intros now a s C Hr Hv Br Bv.
  { split; intros; cbn; lia. }
  replace (2 * Datatypes.S n)%nat with (Datatypes.S (Datatypes.S (2 * n))) in * by lia.
  cbn [contended_run] in C. destruct C as (C0 & [C1 [C1a C1b]] & [C2 [C2a C2b]]).
  cbn [arbiter_run]. rewrite contended_step by done.
  destruct (grantBased a) eqn:G.
  - split; [|done]. intros _. destruct (preferRows a).
    + rewrite contended_step by done. cbn [grantBased preferRows rowGrants vectorGrants]. rewrite ?G.
      destruct (IH (now + ii + ii) (mkArbiter true true (rowGrants a ⊞ 1) (vectorGrants a ⊞ 1)) _ C1b)
        as [E _]; cbn in *; unwrap; unwrap_in E; try lia.
    + rewrite contended_step by done. cbn [grantBased preferRows rowGrants vectorGrants]. rewrite ?G.
      destruct (IH (now + ii + ii) (mkArbiter true false (rowGrants a ⊞ 1) (vectorGrants a ⊞ 1)) _ C2a)
        as [E _]; cbn in *; unwrap; unwrap_in E; try lia.
  - split; [done|]. intros _ Ev Ei.
    assert (Z.odd now = false) as -> by (rewrite <- Z.negb_even, Ev; done).
    assert (Z.even (now + ii) = true) as Ev2 by (rewrite Z.even_add, Ev, Ei; done).
    rewrite contended_step by done. cbn [grantBased preferRows rowGrants vectorGrants]. rewrite ?G.
    assert (Z.odd (now + ii) = false) as -> by (rewrite <- Z.negb_even, Ev2; done).
    destruct (IH (now + ii + ii) (mkArbiter false true (rowGrants a) (vectorGrants a ⊞ 1 ⊞ 1)) _ C2b)
      as [_ E]; cbn in *; unwrap; unwrap_in E; try lia.
    destruct E as [-> ->]; [done|by rewrite Z.even_add, Ev2, Ei|done|]. lia.
Qed.
End fairness.

(** A client that asks for one token whenever the pipeline may issue. *)
Definition greedy_client (now : Z) (p : TensorHardwarePipeline) : TensorHardwarePipeline :=
  if now <? nextIssueCycle p then p else (TensorHardwarePipeline_reserve p now true).1.

Lemma arbiter_fair_witness :
  let p := TensorHardwarePipeline_configure TensorHardwarePipeline_init 4 2 4 in
  let a := (arbiter_run id greedy_client greedy_client 2 (2 * 2) 0 SFUSharedVectorArbiter_init p).1 in
  rowGrants a = 2 /\ vectorGrants a = 2.
Proof.
  cbv zeta. refine (proj1 (arbiter_fair id greedy_client greedy_client 2 2 0
    SFUSharedVectorArbiter_init (TensorHardwarePipeline_configure TensorHardwarePipeline_init 4 2 4)
    _ _ _ _ _) eq_refl); [|discriminate|discriminate|reflexivity|reflexivity].
  vm_compute. repeat split; discriminate.
Defined.
