(* ===== verification/VectorMath.v ===== *)
(** * Vector operations of the SFU ([sfu/vector_math.h], [sfu/norm_compensated.h])

    [evaluateSFUVectorOp] is the functional reference of the vector unit: element-wise
    add/multiply/SiLU/gated SiLU, rotary embedding and RMS normalisation over rows.
    The result is [None] where the function returns [false]; a vector access outside
    its bounds would be undefined behaviour in C++ and is the error
    [Throw out_of_range] here, so that its absence is a theorem. *)

From Stdlib Require Import ZArith Lia.
From stdpp Require Import base numbers list.
From S2P Require Import Prelude Ieee IeeeArith Fp16 Arithmetic.

Inductive SFUVectorOp := Rope | RmsNorm | Add | Multiply | Silu | SiluMultiply.

#[export] Instance SFUVectorOp_eq_dec : EqDecision SFUVectorOp.
Proof. solve_decision. Defined.

(** Pointers are options; [rowWidth] and its companions are 32-bit. *)
Record SFUVectorRequest := mkVectorRequest {
  op : SFUVectorOp;
  input : option (list spec_float);
  coefficients : option (list spec_float);
  positions : option (list Z);
  rowWidth : Z;
  activeWidth : Z;
  coefficientStride : Z;
  coefficientOffset : Z;
  epsilon : spec_float
}.

Definition vectorFp16Value (value : spec_float) : spec_float :=
  float_of_bits (golem_fp16_to_float (golem_float_to_fp16 (bits_of_float (to_float value)))).

(** [v[i]] and [v[i] = x]. *)
Definition vec_get {A} (v : list A) (i : Z) : result A :=
  match v !! Z.to_nat i with Some x => Ok x | None => Throw out_of_range end.
Definition vec_set {A} (v : list A) (i : Z) (x : A) : result (list A) :=
  if (Z.to_nat i <? length v)%nat then Ok (<[Z.to_nat i := x]> v) else Throw out_of_range.

(** [for (i = 0; i < n; ++i) v[i] = f(i)] on a vector of [n] elements. *)
Fixpoint vec_tabulate {A} (f : Z -> result A) (n : nat) (i : Z) : result (list A) :=
  match n with
  | O => Ok []
  | S n' => let! x := f i in let! rest := vec_tabulate f n' (i + 1) in Ok (x :: rest)
  end.

(** [for (x = i; n times; x += step) s = body(x, s)]. *)
Fixpoint for_loop {S} (body : Z -> S -> result S) (step : Z) (n : nat) (i : Z) (s : S) : result S :=
  match n with
  | O => Ok s
  | Datatypes.S n' => let! s := body i s in for_loop body step n' (i + step) s
  end.

(** ** [norm_compensated.h] *)

Record SFUNormPair := mkNormPair { hi : spec_float; lo : spec_float }.

Section vector_math.
Context `{Libm}.
Context (a : SFUArithmetic).
Notation f_add := (SFUArithmetic_add a CFloat CFloat).
Notation f_sub := (SFUArithmetic_sub a CFloat CFloat).
Notation f_mul := (SFUArithmetic_mul a CFloat CFloat).
Notation f_div := (SFUArithmetic_div a CFloat CFloat).
Notation f_fma := (SFUArithmetic_fma a CFloat).

Definition normSquare (x : spec_float) : SFUNormPair :=
  let h := f_mul x x in mkNormPair h (f_fma x x (SFopp h)).

Definition normAdd (x y : SFUNormPair) : SFUNormPair :=
  let s := f_add (hi x) (hi y) in
  let v := f_sub s (hi x) in
  let e := f_add (f_sub (hi x) (f_sub s v)) (f_sub (hi y) v) in
  mkNormPair s (f_add (f_add e (lo x)) (lo y)).

Definition normRoot (m : SFUNormPair) : SFUNormPair :=
  let r := SFUArithmetic_sqrt a CFloat (hi m) in
  mkNormPair r (f_div (f_add (f_fma (SFopp r) r (hi m)) (lo m))
                      (f_mul (num prec32 emax32 2 0) r)).

Definition normDivide (x : spec_float) (r : SFUNormPair) : SFUNormPair :=
  let q := f_div x (hi r) in
  mkNormPair q (f_div (f_fma (SFopp q) (lo r) (f_fma (SFopp q) (hi r) x)) (hi r)).

Definition normGamma (q : SFUNormPair) (gamma : spec_float) : spec_float :=
  let z := f_mul (hi q) gamma in
  f_add z (f_fma (lo q) gamma (f_fma (hi q) gamma (SFopp z))).

(** ** Element-wise operations *)

(** Lines 63-71: SiLU of one element. *)
Definition vector_silu (x : spec_float) : spec_float :=
  if SFUArithmetic_fp16 a && bool_decide (backend_ a = BackendLut) then SFUArithmetic_silu a CFloat x
  else
    let exponential := SFUArithmetic_exp a CFloat
      (if SFUArithmetic_fp16 a then SFopp (SFabs x) else SFopp x) in
    let denominator := f_add (SFone prec32 emax32) exponential in
    let reciprocal := SFUArithmetic_reciprocal a CFloat denominator in
    f_mul (if SFUArithmetic_fp16 a && SFltb x (S754_zero false) then f_mul x exponential else x)
      reciprocal.

(** The body of the element-wise loop: [input[i]], and [coefficients[i]] where the
    operation reads it. *)
Definition elementwise_body (o : SFUVectorOp) (input coefficients : list spec_float) (i : Z) :
    result spec_float :=
  let! xi := vec_get input i in
  let x := vectorFp16Value xi in
  let! y :=
    match o with
    | Silu => Ok (vector_silu x)
    | SiluMultiply =>
        let y := vector_silu x in
        let! ci := vec_get coefficients i in
        Ok (f_mul (vectorFp16Value y) (vectorFp16Value ci))
    | _ =>
        let! ci := vec_get coefficients i in
        let coefficient := vectorFp16Value ci in
        Ok (if bool_decide (o = Add) then f_add x coefficient else f_mul x coefficient)
    end in
  Ok (to_double (vectorFp16Value y)).

(** ** Rotary embedding *)

(** Lines 102-109, for one pair of lanes. *)
Definition rope_pair (input coefficients : list spec_float) (base tableBase dim : Z)
    (output : list spec_float) : result (list spec_float) :=
  let! even := vec_get input (base + dim) in
  let! odd := vec_get input (base + dim + 1) in
  let! cosine := vec_get coefficients (tableBase + dim) in
  let! sine := vec_get coefficients (tableBase + dim + 1) in
  let even := vectorFp16Value even in
  let odd := vectorFp16Value odd in
  let cosine := vectorFp16Value cosine in
  let sine := vectorFp16Value sine in
  let! output := vec_set output (base + dim)
    (to_double (vectorFp16Value (f_sub (f_mul even cosine) (f_mul odd sine)))) in
  vec_set output (base + dim + 1)
    (to_double (vectorFp16Value (f_add (f_mul even sine) (f_mul odd cosine)))).

Definition rope_row (r : SFUVectorRequest) (input coefficients : list spec_float)
    (positions : list Z) (row : Z) (output : list spec_float) : result (list spec_float) :=
  let! position := vec_get positions row in
  let base := row * rowWidth r in
  let tableBase := position * coefficientStride r + coefficientOffset r in
  for_loop (rope_pair input coefficients base tableBase) 2 (Z.to_nat (activeWidth r / 2)) 0 output.

(** ** RMS normalisation *)

(** Lines 123-126: the power of two that brings the largest input below two. *)
Definition rms_scale (row : list spec_float) : spec_float :=
  let maximum := foldl (fun m x => let v := SFabs (vectorFp16Value x) in if SFltb m v then v else m)
                   (S754_zero false) row in
  SFldexp prec32 emax32 (SFone prec32 emax32) (Z.max 0 (frexp_exponent maximum - 1)).

(** Lines 130-131: the in-place pairwise levels on norm pairs. *)
Fixpoint norm_level (n : nat) (count i : nat) (p : list SFUNormPair) : list SFUNormPair :=
  match count with
  | O => p
  | S count' =>
      let at_ k := default (mkNormPair (S754_zero false) (S754_zero false)) (p !! k) in
      let v := if (2 * i + 1 <? n)%nat then normAdd (at_ (2 * i)%nat) (at_ (2 * i + 1)%nat)
               else at_ (2 * i)%nat in
      norm_level n count' (S i) (<[i := v]> p)
  end.
Fixpoint norm_tree (fuel n : nat) (p : list SFUNormPair) : list SFUNormPair :=
  match fuel with
  | O => p
  | S fuel' =>
      if (1 <? n)%nat then norm_tree fuel' ((n + 1) / 2)%nat (norm_level n ((n + 1) / 2)%nat 0 p) else p
  end.

(** Lines 127-138: one row with compensated accumulation. *)
Definition rms_row_compensated (width : Z) (eps : spec_float) (row gammas : list spec_float) :
    list spec_float :=
  let scale := rms_scale row in
  let scaled x := f_div (vectorFp16Value x) scale in
  let p := map (fun x => normSquare (scaled x)) row in
  let total := default (mkNormPair (S754_zero false) (S754_zero false))
                 (norm_tree (length p) (length p) p !! 0%nat) in
  let w := num prec32 emax32 width 0 in
  let m := mkNormPair (f_div (hi total) w) (f_div (lo total) w) in
  let eps := f_div (f_div eps scale) scale in
  let m := normAdd m (mkNormPair eps (S754_zero false)) in
  let root := normRoot m in
  zip_with (fun x g => to_double (normGamma (normDivide (scaled x) root) (vectorFp16Value g))) row gammas.

(** Lines 139-160: one row with a single accumulator. *)
Definition rms_row_plain (treeReduction : bool) (width : Z) (eps : spec_float)
    (row gammas : list spec_float) : list spec_float :=
  let fp16 := SFUArithmetic_fp16 a in
  let scale := if fp16 then rms_scale row else SFone prec32 emax32 in
  let square x :=
    let value := vectorFp16Value x in
    let scaled := if fp16 then f_div value scale else value in
    f_mul scaled scaled in
  let partials := map square row in
  let squareSum :=
    if treeReduction then
      default (S754_zero false)
        (SFUArithmetic_treeLoop a CFloat (length partials) (length partials) partials !! 0%nat)
    else foldl f_add (S754_zero false) partials in
  let eps := if fp16 then f_div (f_div eps scale) scale else eps in
  let mean := f_add (f_div squareSum (num prec32 emax32 width 0)) eps in
  let root := if fp16 then SFUArithmetic_sqrt a CFloat mean else SFUArithmetic_rsqrt a CFloat mean in
  zip_with (fun x g =>
    let value := vectorFp16Value x in
    to_double (vectorFp16Value
      (f_mul (if fp16 then f_div (f_div value scale) root else f_mul value root) (vectorFp16Value g))))
    row gammas.

Definition rms_row (treeReduction : bool) (r : SFUVectorRequest) (input gammas : list spec_float) (row : Z) :
    list spec_float :=
  let values := take (Z.to_nat (rowWidth r)) (drop (Z.to_nat (row * rowWidth r)) input) in
  if SFUArithmetic_fp16 a && treeReduction
  then rms_row_compensated (rowWidth r) (epsilon r) values gammas
  else rms_row_plain treeReduction (rowWidth r) (epsilon r) values gammas.

(** ** The dispatcher *)

Definition rope_accepts (r : SFUVectorRequest) (rows : Z) (coefficients : list spec_float)
    (positions : list Z) : bool :=
  (Z.of_nat (length positions) =? rows) && negb (activeWidth r =? 0) &&
  (activeWidth r <=? rowWidth r) && (Z.land (activeWidth r) 1 =? 0) &&
  negb (coefficientStride r =? 0) &&
  (coefficientOffset r + activeWidth r <=? coefficientStride r) &&
  (Z.of_nat (length coefficients) mod coefficientStride r =? 0) &&
  forallb (fun position => position <? Z.of_nat (length coefficients) / coefficientStride r) positions.

Definition evaluateSFUVectorOp (r : SFUVectorRequest) (output : bool) (treeReduction : bool) :
    result (option (list spec_float)) :=
  match input r, coefficients r with
  | Some inp, Some coef =>
      if negb output || (rowWidth r =? 0) || (length inp =? 0)%nat ||
         negb (Z.of_nat (length inp) mod rowWidth r =? 0) then Ok None
      else
        let rows := Z.of_nat (length inp) / rowWidth r in
        match op r with
        | Rope =>
            match positions r with
            | Some pos =>
                if negb (rope_accepts r rows coef pos) then Ok None
                else
                  let! out := for_loop (rope_row r inp coef pos) 1 (Z.to_nat rows) 0 inp in
                  Ok (Some out)
            | None => Ok None
            end
        | RmsNorm =>
            if negb (Z.of_nat (length coef) =? rowWidth r) || negb (isfinite (epsilon r)) ||
               SFleb (epsilon r) (S754_zero false) then Ok None
            else Ok (Some (concat (map (fun row => rms_row treeReduction r inp coef (Z.of_nat row))
                                     (seq 0 (Z.to_nat rows)))))
        | o =>
            if negb (bool_decide (o = Silu)) && negb (length coef =? length inp)%nat then Ok None
            else
              let! out := vec_tabulate (elementwise_body o inp coef) (length inp) 0 in
              Ok (Some out)
        end
  | _, _ => Ok None
  end.
End vector_math.

(** ** Storing a binary16 value *)

Lemma float_to_fp16_range b : in_u16 (golem_float_to_fp16 b).
Proof. unfold golem_float_to_fp16. cbv zeta. repeat case_if; auto with word. Qed.

(** The binary16 value [golem_float_to_fp16] stores for a [double]. *)
Definition store16 (value : spec_float) : spec_float :=
  half_of_bits (golem_float_to_fp16 (bits_of_float (to_float value))).

Lemma half_word_half_value w : in_u16 w -> half_value (half_of_bits w).
Proof.
  intros Hw. as_pack w 10 5 s E F HE HF.
  change (2 ^ 5) with 32 in HE. change (2 ^ 10) with 1024 in HF.
  unfold half_of_bits. rewrite decode_pack by lia. unfold fields_value.
  change (Z.ones 5) with 31. change (2 ^ (5 - 1) - 1) with 15.
  destruct (Z.eqb_spec E 0) as [->|].
  - destruct (Z.eqb_spec F 0); [apply half_special; discriminate|]. apply half_finite; lia.
  - destruct (Z.eqb_spec E 31); [destruct (Z.eqb_spec F 0); apply half_special; discriminate|].
    apply half_finite; lia.
Qed.

Lemma store16_half value : half_value (store16 value).
Proof. apply half_word_half_value, float_to_fp16_range. Qed.

Lemma vectorFp16Value_store value : vectorFp16Value value = cast CFloat (store16 value).
Proof. apply fp16_to_float_value, float_to_fp16_range. Qed.

(** The word of a binary16 number widened to [float]. *)
Lemma wide_word z e :
  z <> 0 -> Z.abs z < 2 ^ 11 -> -24 <= e <= 5 ->
  exists s E F, 103 <= E < 255 /\ 0 <= F < 2 ^ 23 /\
    bits_of_float (num prec32 emax32 z e) = pack 23 8 s E F.
Proof.
  intros Nz Hb He.
  destruct (num_finite prec32 emax32 eq_refl eq_refl z e Nz (exact_carrier CFloat z e Hb He))
    as (m & k & Hk & Hm & Ef & V).
  rewrite Ef. unfold bits_of_float, encode_bits.
  cbn in V. unfold bounded, canonical_mantissa in V. boolify.
  change (Z.pos (digits2_pos m)) with (Zdigits2 (Z.pos m)) in *.
  unfold fexp in *. change (SpecFloat.emin prec32 emax32) with (-149) in *.
  change prec32 with 24 in *. change emax32 with 128 in *.
  assert (Hd : Zdigits2 (Z.pos m) = Zdigits2 (Z.abs z) + k) by (rewrite Hm; apply Zdigits2_pow2; lia).
  assert (Hz : 1 <= Zdigits2 (Z.abs z) <= 11).
  { rewrite Zdigits2_log2 by lia. pose proof (Z.log2_nonneg (Z.abs z)).
    assert (Z.log2 (Z.abs z) < 11) by (apply Z.log2_lt_pow2; lia). lia. }
  assert (Hd24 : Zdigits2 (Z.pos m) = 24) by lia.
  pose proof (Zdigits2_bounds (Z.pos m) ltac:(lia)) as B. rewrite Hd24 in B.
  change (2 ^ (24 - 1)) with (2 ^ 23) in B.
  rewrite (proj2 (Z.ltb_ge _ _)) by lia.
  exists (z <? 0), (e - k + 150), (Z.pos m - 2 ^ 23).
  split; [lia|]. split; [lia|].
  unfold pack. destruct (z <? 0); cbn [Z.b2z]; lia.
Qed.

(** A value already on the binary16 grid is stored exactly. *)
Lemma store16_exact c h : half_value h -> store16 (cast c h) = h.
Proof.
  intros Hh. pose proof Hh as [x Hx|z e Nz Hb He].
  - special_operand Hx; reflexivity.
  - unfold store16.
    assert (to_float (cast c (num16 z e)) = num prec32 emax32 z e) as ->.
    { rewrite cast_num16 by done. apply (SFconv_num _ _ prec32 emax32); auto with sfu; try done.
      by apply exact_carrier. }
    pose proof (wide_word z e Nz Hb He) as (s & E & F & HE & HF & Eb).
    pose proof (pack_range 23 8 s E F ltac:(lia) ltac:(lia) ltac:(lia) ltac:(lia)) as Rg.
    assert (float_of_bits (bits_of_float (num prec32 emax32 z e)) = num prec32 emax32 z e) as Ef.
    { apply decode_encode; [done..|].
      destruct (num_finite prec32 emax32 eq_refl eq_refl z e Nz (exact_carrier CFloat z e Hb He))
        as (m & k & _ & _ & E1 & V). rewrite E1. exact V. }
    rewrite float_to_fp16_value.
    + rewrite Ef. apply (SFconv_num prec32 emax32 prec16 emax16); try done. by apply (exact_carrier CFloat).
    + unfold in_u32. rewrite Eb. change (23 + 8 + 1) with 32 in Rg. lia.
    + rewrite Ef.
      destruct (num_finite prec32 emax32 eq_refl eq_refl z e Nz (exact_carrier CFloat z e Hb He))
        as (m & k & _ & _ & E1 & _). rewrite E1. done.
    + rewrite Eb, flush_window_pack by lia. rewrite (proj2 (Z.eqb_neq E 102)) by lia. done.
Qed.

Lemma half_representable c h : half_value h -> representable c (cast c h) /\ to_half (cast c h) = h.
Proof.
  intros [x Hx|z e Nz Hb He].
  - destruct c; special_operand Hx; split; reflexivity.
  - rewrite cast_num16 by done. by apply exact_numc.
Qed.

(** An operation on stored operands, stored again, is the binary16 operation. *)
Lemma stored_operation a op_ x y :
  SFUArithmetic_fp16 a = true -> half_exact op_ ->
  vectorFp16Value (SFUArithmetic_binop a op_ CFloat CFloat (vectorFp16Value x) (vectorFp16Value y)) =
  cast CFloat (op_ prec16 emax16 (store16 x) (store16 y)).
Proof.
  intros Hf Hop. rewrite !(vectorFp16Value_store x), !(vectorFp16Value_store y).
  destruct (half_representable CFloat (store16 x) (store16_half x)) as [Vx Ex].
  destruct (half_representable CFloat (store16 y) (store16_half y)) as [Vy Ey].
  rewrite binop_half by done. rewrite Ex, Ey, vectorFp16Value_store. cbn [common].
  rewrite store16_exact; [done|].
  destruct (Hop (store16 x) (store16 y) (store16_half x) (store16_half y)) as [V E].
  rewrite <- E. by eapply to_half_value.
Qed.

(** ** Vector accesses *)

Definition at_ (v : list spec_float) (i : Z) : spec_float := default (S754_zero false) (v !! Z.to_nat i).
Notation len v := (Z.of_nat (length v)).

Lemma vec_get_ok v i : 0 <= i < len v -> vec_get v i = Ok (at_ v i).
Proof.
  intros Hi. unfold vec_get, at_.
  destruct (lookup_lt_is_Some_2 v (Z.to_nat i)) as [x ->]; [lia|done].
Qed.

Lemma vec_set_ok v i x :
  0 <= i < len v -> exists v', vec_set v i x = Ok v' /\ len v' = len v /\
    forall j, 0 <= j < len v -> at_ v' j = if j =? i then x else at_ v j.
Proof.
  intros Hi. unfold vec_set. rewrite (proj2 (Nat.ltb_lt _ _)) by lia. eexists. split; [done|].
  split; [by rewrite length_insert|]. intros j Hj. unfold at_. destruct (Z.eqb_spec j i) as [->|].
  - rewrite list_lookup_insert_eq by lia. done.
  - rewrite list_lookup_insert_ne by lia. done.
Qed.

Lemma vec_tabulate_ok {A} (f : Z -> result A) (g : Z -> A) n i :
  (forall k, i <= k < i + Z.of_nat n -> f k = Ok (g k)) ->
  vec_tabulate f n i = Ok (map (fun k => g (i + Z.of_nat k)) (seq 0 n)).
Proof.
  revert i. induction n as [|n IH]; intros i Hf; [reflexivity|].
  cbn [vec_tabulate]. rewrite Hf by lia. cbn [rbind]. rewrite IH by (intros; apply Hf; lia).
  cbn [rbind seq map]. do 2 f_equal; [f_equal; lia|].
  rewrite <- fmap_S_seq. rewrite map_map. apply map_ext. intros k. f_equal. lia.
Qed.

Lemma for_loop_inv {S} (Inv : Z -> S -> Prop) body step n i s :
  Inv 0 s ->
  (forall k s, 0 <= k < Z.of_nat n -> Inv k s -> exists s', body (i + k * step) s = Ok s' /\ Inv (k + 1) s') ->
  exists s', for_loop body step n i s = Ok s' /\ Inv (Z.of_nat n) s'.
Proof.
  revert Inv i s. induction n as [|n IH]; intros Inv i s H0 Hstep; [by exists s|].
  destruct (Hstep 0 s) as (s1 & E1 & I1); [lia|done|].
  rewrite Z.mul_0_l, Z.add_0_r in E1. cbn [for_loop]. rewrite E1. cbn [rbind].
  destruct (IH (fun k => Inv (k + 1)) (i + step) s1) as (s' & E & I); [done| |].
  - intros k sk Hk Ik. destruct (Hstep (k + 1) sk) as (s2 & E2 & I2); [lia|done|].
    exists s2. split; [|done]. rewrite <- E2. f_equal. lia.
  - exists s'. split; [done|]. replace (Z.of_nat (Datatypes.S n)) with (Z.of_nat n + 1) by lia. exact I.
Qed.

(** ** Element-wise operations *)

Section evaluate.
Context `{Libm}.
Context (a : SFUArithmetic).

(** The value of one output element, without the accesses. *)
Definition elementwise_value (o : SFUVectorOp) (xi ci : spec_float) : spec_float :=
  let x := vectorFp16Value xi in
  to_double (vectorFp16Value
    match o with
    | Silu => vector_silu a x
    | SiluMultiply => SFUArithmetic_mul a CFloat CFloat (vectorFp16Value (vector_silu a x)) (vectorFp16Value ci)
    | Add => SFUArithmetic_add a CFloat CFloat x (vectorFp16Value ci)
    | _ => SFUArithmetic_mul a CFloat CFloat x (vectorFp16Value ci)
    end).

Definition elementwise_op (o : SFUVectorOp) : bool :=
  match o with Add | Multiply | Silu | SiluMultiply => true | _ => false end.

Lemma elementwise_body_ok o inp coef i :
  elementwise_op o = true -> 0 <= i < len inp -> (o <> Silu -> length coef = length inp) ->
  elementwise_body a o inp coef i = Ok (elementwise_value o (at_ inp i) (at_ coef i)).
Proof.
  intros Ho Hi Hc. unfold elementwise_body, elementwise_value. rewrite vec_get_ok by done. cbn [rbind].
  destruct o; try discriminate; try reflexivity;
    (rewrite vec_get_ok by (rewrite Hc by discriminate; done); cbn [rbind];
     rewrite ?bool_decide_true, ?bool_decide_false by done; reflexivity).
Qed.

(** What [evaluateSFUVectorOp] accepts for every operation. *)
Definition vector_shape (r : SFUVectorRequest) (inp coef : list spec_float) : Prop :=
  input r = Some inp /\ coefficients r = Some coef /\ 0 < rowWidth r /\
  inp <> [] /\ len inp mod rowWidth r = 0.

Lemma evaluate_shape r inp coef t :
  vector_shape r inp coef ->
  evaluateSFUVectorOp a r true t =
  match op r with
  | Rope =>
      match positions r with
      | Some pos =>
          if negb (rope_accepts r (len inp / rowWidth r) coef pos) then Ok None
          else let! out := for_loop (rope_row a r inp coef pos) 1 (Z.to_nat (len inp / rowWidth r)) 0 inp in
               Ok (Some out)
      | None => Ok None
      end
  | RmsNorm =>
      if negb (len coef =? rowWidth r) || negb (isfinite (epsilon r)) || SFleb (epsilon r) (S754_zero false)
      then Ok None
      else Ok (Some (concat (map (fun row => rms_row a t r inp coef (Z.of_nat row))
                               (seq 0 (Z.to_nat (len inp / rowWidth r))))))
  | o => if negb (bool_decide (o = Silu)) && negb (length coef =? length inp)%nat then Ok None
         else let! out := vec_tabulate (elementwise_body a o inp coef) (length inp) 0 in Ok (Some out)
  end.
Proof.
  intros (Ei & Ec & Hw & Hn & Hm). unfold evaluateSFUVectorOp. rewrite Ei, Ec.
  rewrite (proj2 (Z.eqb_neq (rowWidth r) 0)) by lia.
  assert ((length inp =? 0)%nat = false) as -> by (apply Nat.eqb_neq; destruct inp; cbn; lia || done).
  rewrite Hm, Z.eqb_refl. cbn [negb orb]. destruct (op r); reflexivity.
Qed.

Lemma evaluate_elementwise r inp coef t :
  vector_shape r inp coef -> elementwise_op (op r) = true ->
  (op r <> Silu -> length coef = length inp) ->
  evaluateSFUVectorOp a r true t =
  Ok (Some (map (fun k => elementwise_value (op r) (at_ inp (Z.of_nat k)) (at_ coef (Z.of_nat k)))
              (seq 0 (length inp)))).
Proof.
  intros Hs Ho Hc. rewrite (evaluate_shape r inp coef t Hs).
  assert (Ht : vec_tabulate (elementwise_body a (op r) inp coef) (length inp) 0 =
    Ok (map (fun k => elementwise_value (op r) (at_ inp (Z.of_nat k)) (at_ coef (Z.of_nat k)))
          (seq 0 (length inp)))).
  { rewrite (vec_tabulate_ok _ (fun i => elementwise_value (op r) (at_ inp i) (at_ coef i))).
    - f_equal.
    - intros k Hk. apply elementwise_body_ok; done || lia. }
  destruct (op r) eqn:Eo; try discriminate;
    rewrite ?(bool_decide_true (Silu = Silu)), ?bool_decide_false by done; cbn [negb andb];
    rewrite ?(proj2 (Nat.eqb_eq _ _)) by (by apply Hc); cbn [negb]; rewrite Ht; reflexivity.
Qed.
(** C27: in FP16 mode the element-wise [Add] and [Multiply] return, at every index,
    the IEEE binary16 sum or product of the two operands as [golem_float_to_fp16]
    stores them: neither the [float] and [double] carriers nor the repeated
    conversions change the result. *)
Theorem elementwise_is_binary16 (r : SFUVectorRequest) (inp coef : list spec_float) (t : bool) :
  SFUArithmetic_fp16 a = true -> vector_shape r inp coef -> length coef = length inp ->
  op r = Add \/ op r = Multiply ->
  evaluateSFUVectorOp a r true t =
  Ok (Some (zip_with (fun x c => to_double
    ((if bool_decide (op r = Add) then SFadd else SFmul) prec16 emax16 (store16 x) (store16 c))) inp coef)).
Proof.
  intros Hf Hs Hl Ho.
  rewrite (evaluate_elementwise r inp coef t Hs); [|by destruct Ho as [-> | ->]|done].
  do 2 f_equal. apply list_eq. intros i.
  change (map ?f ?l) with (f <$> l). rewrite list_lookup_fmap, lookup_zip_with.
  destruct (decide (i < length inp)%nat) as [Li|Li].
  - rewrite (lookup_seq_lt _ _ _ Li). cbn [fmap option_fmap option_map].
    unfold at_. rewrite Nat.add_0_l, Nat2Z.id.
    destruct (lookup_lt_is_Some_2 inp i) as [x ->]; [lia|].
    destruct (lookup_lt_is_Some_2 coef i) as [c ->]; [lia|]. cbn [mbind option_bind default id].
    f_equal. unfold elementwise_value.
    assert (Hop : forall opz, half_exact opz ->
      to_double (vectorFp16Value (SFUArithmetic_binop a opz CFloat CFloat (vectorFp16Value x) (vectorFp16Value c))) =
      to_double (opz prec16 emax16 (store16 x) (store16 c))).
    { intros opz Hopz. rewrite stored_operation by done. apply half_to_double.
      destruct (Hopz (store16 x) (store16 c) (store16_half x) (store16_half c)) as [V E].
      rewrite <- E. by eapply to_half_value. }
    destruct Ho as [-> | ->].
    + rewrite bool_decide_true by done. apply Hop, half_add_exact.
    + rewrite bool_decide_false by done. apply Hop, half_mul_exact.
  - rewrite (lookup_ge_None_2 (seq 0 (length inp))) by (rewrite length_seq; lia).
    rewrite (lookup_ge_None_2 inp) by lia. reflexivity.
Qed.

(** ** Rotary embedding *)

(** Lane [d] of a row: the rotation of its pair by the row's angle. *)
Definition rope_lane (inp coef : list spec_float) (base tableBase d : Z) : spec_float :=
  let p := 2 * (d / 2) in
  let even := vectorFp16Value (at_ inp (base + p)) in
  let odd := vectorFp16Value (at_ inp (base + p + 1)) in
  let cosine := vectorFp16Value (at_ coef (tableBase + p)) in
  let sine := vectorFp16Value (at_ coef (tableBase + p + 1)) in
  let mul := SFUArithmetic_mul a CFloat CFloat in
  to_double (vectorFp16Value
    (if Z.even d then SFUArithmetic_sub a CFloat CFloat (mul even cosine) (mul odd sine)
     else SFUArithmetic_add a CFloat CFloat (mul even sine) (mul odd cosine))).

(** The value [Rope] leaves at index [i]. *)
Definition rope_value (r : SFUVectorRequest) (inp coef : list spec_float) (pos : list Z) (i : Z) : spec_float :=
  let row := i / rowWidth r in
  let d := i mod rowWidth r in
  if d <? activeWidth r then
    rope_lane inp coef (row * rowWidth r)
      (default 0 (pos !! Z.to_nat row) * coefficientStride r + coefficientOffset r) d
  else at_ inp i.

Definition u32_fields (r : SFUVectorRequest) : Prop :=
  0 <= rowWidth r /\ 0 <= activeWidth r /\ 0 <= coefficientStride r /\ 0 <= coefficientOffset r /\
  match positions r with Some pos => Forall (fun p => 0 <= p) pos | None => True end.

(** Everything below [bound] holds its final value, the rest the input. *)
Definition rope_done (r : SFUVectorRequest) (inp coef : list spec_float) (pos : list Z) (bound : Z)
    (out : list spec_float) : Prop :=
  len out = len inp /\
  forall i, 0 <= i < len inp -> at_ out i = if i <? bound then rope_value r inp coef pos i else at_ inp i.

Lemma rope_pair_step r inp coef pos row k out :
  0 < rowWidth r -> 0 <= k -> 2 * k + 2 <= activeWidth r <= rowWidth r ->
  0 <= row -> (row + 1) * rowWidth r <= len inp ->
  let tableBase := default 0 (pos !! Z.to_nat row) * coefficientStride r + coefficientOffset r in
  0 <= tableBase -> tableBase + activeWidth r <= len coef ->
  rope_done r inp coef pos (row * rowWidth r + 2 * k) out ->
  exists out', rope_pair a inp coef (row * rowWidth r) tableBase (2 * k) out = Ok out' /\
    rope_done r inp coef pos (row * rowWidth r + 2 * (k + 1)) out'.
Proof.
  intros Hw Hk Ha Hr Hn tb Htb Htc [Hl Hd]. set (base := row * rowWidth r) in *.
  assert (0 <= base) by (unfold base; nia).
  unfold rope_pair. rewrite !vec_get_ok by lia. cbn [rbind].
  set (e := to_double _). 
  destruct (vec_set_ok out (base + 2 * k) e) as (o1 & -> & L1 & G1); [lia|]. cbn [rbind].
  set (o := to_double _).
  destruct (vec_set_ok o1 (base + 2 * k + 1) o) as (o2 & -> & L2 & G2); [lia|].
  exists o2. split; [done|]. split; [lia|]. intros i Hi. rewrite G2, G1, Hd by lia.
  assert (V : forall d, 0 <= d < activeWidth r -> rope_value r inp coef pos (base + d) = rope_lane inp coef base tb d).
  { intros d Hdd. unfold rope_value, base.
    replace (row * rowWidth r + d) with (d + row * rowWidth r) by lia.
    rewrite Z.div_add, Z.mod_add, Z.div_small, Z.mod_small, Z.add_0_l by lia.
    rewrite (proj2 (Z.ltb_lt _ _)) by lia. reflexivity. }
  assert (Q : (2 * k) / 2 = k) by (rewrite Z.mul_comm, Z.div_mul by lia; done).
  assert (Q1 : (2 * k + 1) / 2 = k) by (symmetry; apply (Z.div_unique _ 2 k 1); lia).
  destruct (Z.eqb_spec i (base + 2 * k + 1)) as [->|].
  - rewrite (proj2 (Z.ltb_lt _ _)) by lia. rewrite <- Z.add_assoc, V by lia.
    unfold rope_lane. rewrite Q1, Z.even_add, Z.even_mul. reflexivity.
  - destruct (Z.eqb_spec i (base + 2 * k)) as [->|].
    + rewrite (proj2 (Z.ltb_lt _ _)) by lia. rewrite V by lia.
      unfold rope_lane. rewrite Q, Z.even_mul. reflexivity.
    + destruct (Z.ltb_spec i (base + 2 * k)); destruct (Z.ltb_spec i (base + 2 * (k + 1))); lia || done.
Qed.

Lemma rope_accepts_spec r rows coef pos :
  u32_fields r -> positions r = Some pos -> rope_accepts r rows coef pos = true ->
  len pos = rows /\ 0 < activeWidth r <= rowWidth r /\ activeWidth r mod 2 = 0 /\
  Forall (fun p => 0 <= p * coefficientStride r + coefficientOffset r /\
                   p * coefficientStride r + coefficientOffset r + activeWidth r <= len coef) pos.
Proof.
  intros (Hw & Ha & Hs & Ho & Hp) Ep A. rewrite Ep in Hp. unfold rope_accepts in A. boolify.
  assert (activeWidth r mod 2 = 0) as Hev.
  { match goal with E : Z.land (activeWidth r) 1 = 0 |- _ => change 1 with (Z.ones 1) in E;
      rewrite Z.land_ones in E by lia; exact E end. }
  split; [done|]. split; [lia|]. split; [done|].
  match goal with F : forallb _ _ = true |- _ => apply forallb_True, Is_true_true in F || rename F into FB end.
  apply Forall_forall. intros p Hin. rewrite Forall_forall in Hp. specialize (Hp p Hin).
  assert (p < len coef / coefficientStride r) as Hlt.
  { rewrite forallb_forall in FB. apply Z.ltb_lt, FB. by apply list_elem_of_In. }
  pose proof (Z.div_mod (len coef) (coefficientStride r) ltac:(lia)). nia.
Qed.

Lemma rope_row_step r inp coef pos row out :
  u32_fields r -> positions r = Some pos -> 0 < rowWidth r -> len inp mod rowWidth r = 0 ->
  rope_accepts r (len inp / rowWidth r) coef pos = true -> 0 <= row < len inp / rowWidth r ->
  rope_done r inp coef pos (row * rowWidth r) out ->
  exists out', rope_row a r inp coef pos row out = Ok out' /\
    rope_done r inp coef pos ((row + 1) * rowWidth r) out'.
Proof.
  intros Hu Ep Hw Hm A Hr Hd.
  destruct (rope_accepts_spec r _ coef pos Hu Ep A) as (Lp & Ha & Hev & Hp).
  pose proof (Z.div_mod (len inp) (rowWidth r) ltac:(lia)) as Dm.
  unfold rope_row, vec_get.
  destruct (lookup_lt_is_Some_2 pos (Z.to_nat row)) as [p Hpos]; [lia|]. rewrite Hpos. cbn [rbind].
  pose proof (Forall_lookup_1 _ _ _ _ Hp Hpos) as [T1 T2].
  destruct (for_loop_inv (fun k => rope_done r inp coef pos (row * rowWidth r + 2 * k))
    (rope_pair a inp coef (row * rowWidth r) (p * coefficientStride r + coefficientOffset r))
    2 (Z.to_nat (activeWidth r / 2)) 0 out) as (out' & -> & D).
  - rewrite Z.add_0_r. exact Hd.
  - intros k s Hk Ik. replace (0 + k * 2) with (2 * k) by lia.
    pose proof (rope_pair_step r inp coef pos row k s) as St. cbv zeta in St. rewrite Hpos in St.
    apply St; try done; try lia; [|nia].
    pose proof (Z.div_mod (activeWidth r) 2 ltac:(lia)). lia.
  - exists out'. split; [done|]. destruct D as [Dl Dv]. split; [done|].
    intros i Hi. rewrite Dv by done.
    pose proof (Z.div_mod (activeWidth r) 2 ltac:(lia)).
    destruct (Z.ltb_spec i (row * rowWidth r + 2 * Z.of_nat (Z.to_nat (activeWidth r / 2))));
      destruct (Z.ltb_spec i ((row + 1) * rowWidth r)); try lia; try done.
    unfold rope_value.
    assert (i / rowWidth r = row) as Q by (symmetry; apply (Z.div_unique _ _ row (i - row * rowWidth r)); lia).
    rewrite Z.mod_eq, Q by lia. rewrite (proj2 (Z.ltb_ge _ _)) by lia. done.
Qed.
Lemma rope_result (r : SFUVectorRequest) (inp coef : list spec_float) (pos : list Z) (t : bool) :
  vector_shape r inp coef -> op r = Rope -> positions r = Some pos -> u32_fields r ->
  rope_accepts r (len inp / rowWidth r) coef pos = true ->
  exists out, evaluateSFUVectorOp a r true t = Ok (Some out) /\ len out = len inp /\
    forall i, 0 <= i < len inp -> at_ out i = rope_value r inp coef pos i.
Proof.
  intros Hs Ho Ep Hu A. rewrite (evaluate_shape r inp coef t Hs), Ho, Ep, A. cbn [negb].
  destruct Hs as (_ & _ & Hw & _ & Hm).
  pose proof (Z.div_mod (len inp) (rowWidth r) ltac:(lia)) as Dm.
  assert (0 <= len inp / rowWidth r) by (apply Z.div_pos; lia).
  destruct (for_loop_inv (fun k => rope_done r inp coef pos (k * rowWidth r))
    (rope_row a r inp coef pos) 1 (Z.to_nat (len inp / rowWidth r)) 0 inp) as (out & -> & [Dl Dv]).
  - split; [done|]. intros i Hi. rewrite (proj2 (Z.ltb_ge _ _)) by lia. done.
  - intros k s Hk Ik. replace (0 + k * 1) with k by lia. apply rope_row_step; done || lia.
  - exists out. split; [done|]. split; [done|]. intros i Hi. rewrite Dv by done.
    rewrite (proj2 (Z.ltb_lt _ _)) by lia. done.
Qed.
(** C28: rotary embedding is correct and in bounds.  An accepted [Rope] request never
    reads or writes outside its vectors and returns, for every row and every lane
    below [activeWidth], the rotation of the lane's pair by the coefficients the
    row's position selects; the remaining lanes keep their input value. *)
Theorem rope_correct (r : SFUVectorRequest) (inp coef : list spec_float) (pos : list Z) (t : bool) :
  vector_shape r inp coef -> op r = Rope -> positions r = Some pos -> u32_fields r ->
  rope_accepts r (len inp / rowWidth r) coef pos = true ->
  exists out, evaluateSFUVectorOp a r true t = Ok (Some out) /\ len out = len inp /\
    forall i, 0 <= i < len inp -> at_ out i = rope_value r inp coef pos i.
Proof. apply rope_result. Qed.

Lemma rms_row_length t r inp coef row :
  0 <= row -> len coef = rowWidth r -> (row + 1) * rowWidth r <= len inp ->
  length (rms_row a t r inp coef row) = Z.to_nat (rowWidth r).
Proof.
  intros Hr Hc Hn. unfold rms_row. cbv zeta.
  set (values := take (Z.to_nat (rowWidth r)) (drop (Z.to_nat (row * rowWidth r)) inp)).
  assert (length values = Z.to_nat (rowWidth r)) as Lr
    by (unfold values; rewrite length_take, length_drop; lia).
  destruct (_ && _); unfold rms_row_compensated, rms_row_plain; cbv zeta; rewrite length_zip_with; lia.
Qed.
(** C29: the dispatcher is total and size-preserving: on any request, well-shaped or
    not, it either returns [false] or a vector of the input's length; no access is
    out of range. *)
Theorem evaluate_safe (r : SFUVectorRequest) (output t : bool) :
  u32_fields r ->
  exists o, evaluateSFUVectorOp a r output t = Ok o /\
    match o, input r with
    | Some out, Some inp => len out = len inp
    | Some _, None => False
    | None, _ => True
    end.
Proof.
  intros Hu.
  destruct (input r) as [inp|] eqn:Ei; [|exists None; unfold evaluateSFUVectorOp; rewrite Ei; done].
  destruct (coefficients r) as [coef|] eqn:Ec; [|exists None; unfold evaluateSFUVectorOp; rewrite Ei, Ec; done].
  destruct (negb output || (rowWidth r =? 0) || (length inp =? 0)%nat || negb (len inp mod rowWidth r =? 0)) eqn:G.
  { exists None. unfold evaluateSFUVectorOp. rewrite Ei, Ec, G. done. }
  boolify. destruct output; [|done].
  assert (Hs : vector_shape r inp coef).
  { split; [done|]. split; [done|]. destruct Hu as (Hw & _). split; [lia|]. split; [|done].
    intros ->. done. }
  pose proof Hs as (_ & _ & Hw & _ & Hm).
  pose proof (Z.div_mod (len inp) (rowWidth r) ltac:(lia)) as Dm.
  assert (0 <= len inp / rowWidth r) as Hq by (apply Z.div_pos; lia).
  destruct (elementwise_op (op r)) eqn:Eo.
  - destruct (decide (op r <> Silu -> length coef = length inp)) as [Hc|Hc].
    + rewrite (evaluate_elementwise r inp coef t Hs Eo Hc). eexists. split; [done|]. cbn.
      rewrite length_map, length_seq. done.
    + exists None. rewrite (evaluate_shape r inp coef t Hs).
      assert (op r <> Silu /\ length coef <> length inp) as [N1 N2]
        by (destruct (decide (op r = Silu)); destruct (decide (length coef = length inp)); tauto).
      destruct (op r); try discriminate; rewrite ?bool_decide_false by done;
        rewrite ?(proj2 (Nat.eqb_neq _ _)) by done; (done || by destruct N1).
  - rewrite (evaluate_shape r inp coef t Hs).
    destruct (op r) eqn:Er; try discriminate.
    + destruct (positions r) as [pos|] eqn:Ep; [|by exists None].
      destruct (rope_accepts r (len inp / rowWidth r) coef pos) eqn:A; [|by exists None].
      destruct (rope_result r inp coef pos t Hs Er Ep Hu A) as (out & E & L & _).
      rewrite (evaluate_shape r inp coef t Hs), Er, Ep, A in E. exists (Some out). done.
    + destruct (negb (len coef =? rowWidth r) || negb (isfinite (epsilon r)) || SFleb (epsilon r) (S754_zero false)) eqn:Gr;
        [by exists None|]. eexists. split; [done|]. cbn. boolify.
      rewrite length_concat, map_map.
      assert (E : map (fun row => length (rms_row a t r inp coef (Z.of_nat row)))
                    (seq 0 (Z.to_nat (len inp / rowWidth r))) =
                  replicate (Z.to_nat (len inp / rowWidth r)) (Z.to_nat (rowWidth r))).
      { apply list_eq_same_length with (Z.to_nat (len inp / rowWidth r));
          [by rewrite length_replicate|by rewrite length_map, length_seq|].
        intros i x y Hi. change (map ?f ?l) with (f <$> l).
        rewrite list_lookup_fmap, lookup_replicate_2, lookup_seq_lt by lia. intros Hx Hy. injection Hx as <-. injection Hy as <-.
        apply rms_row_length; [lia|done|]. nia. }
      rewrite E.
      assert (Rs : forall n x, list_sum (replicate n x) = (n * x)%nat) by (induction n; intros; cbn; [done|rewrite IHn; lia]).
      rewrite Rs. nia.
Qed.
End evaluate.

(** ** Witnesses *)

(** A concrete instance of the parameters. *)
Definition identity_libm : Libm :=
  {| std_exp := fun _ x => x; std_log := fun _ x => x; std_tanh := fun _ x => x; rom_SiLU := fun b => b |}.

Definition example_lanes : list spec_float := [num64 3 0; num64 5 (-1); num64 7 2; num64 (-1) 0].
Definition example_table : list spec_float := [num64 1 0; num64 0 0; num64 3 (-2); num64 1 (-1)].

Definition example_add : SFUVectorRequest :=
  mkVectorRequest Add (Some example_lanes) (Some example_table) None 2 0 0 0 (num prec32 emax32 1 (-20)).
Definition example_rope : SFUVectorRequest :=
  mkVectorRequest Rope (Some example_lanes) (Some example_table) (Some [1]) 4 2 2 0 (num prec32 emax32 1 (-20)).

Lemma example_shapes :
  vector_shape example_add example_lanes example_table /\
  vector_shape example_rope example_lanes example_table.
Proof. repeat split; discriminate. Qed.

Lemma elementwise_is_binary16_witness :
  @evaluateSFUVectorOp identity_libm fp16_libm example_add true true =
  Ok (Some (zip_with (fun x c => to_double (SFadd prec16 emax16 (store16 x) (store16 c)))
              example_lanes example_table)).
Proof.
  apply (@elementwise_is_binary16 identity_libm fp16_libm example_add example_lanes example_table true);
    [reflexivity|apply example_shapes|reflexivity|left; reflexivity].
Defined.

Lemma rope_correct_witness :
  exists out, @evaluateSFUVectorOp identity_libm fp16_libm example_rope true true = Ok (Some out) /\
    len out = 4 /\
    forall i, 0 <= i < 4 -> at_ out i = rope_value fp16_libm example_rope example_lanes example_table [1] i.
Proof.
  apply (@rope_correct identity_libm fp16_libm example_rope example_lanes example_table [1] true);
    [apply example_shapes|reflexivity|reflexivity| |reflexivity].
  repeat split; try discriminate. repeat constructor; discriminate.
Defined.

Lemma evaluate_safe_witness :
  exists o, @evaluateSFUVectorOp identity_libm fp16_libm example_rope true true = Ok o /\
    match o, input example_rope with
    | Some out, Some inp => len out = len inp
    | Some _, None => False
    | None, _ => True
    end.
Proof.
  apply (@evaluate_safe identity_libm fp16_libm example_rope true true).
  repeat split; try discriminate. repeat constructor; discriminate.
Defined.
