(* ===== verification/VectorPipeline.v ===== *)
(** * The streaming vector pipeline ([src/src/sst/elements/golem/sfu/vector_pipeline.h])

    [SFUVectorPipeline] executes element-wise requests as a cycle-driven schedule:
    every request ([Job]) feeds its elements through the SiLU stages, joined by
    bounded FIFOs, on three shared hardware pipelines; tokens become visible when
    their completion cycle is reached.  Vector sizes and element indices are [nat],
    cycles and identifiers 64-bit.  The trace callback only observes: the issues of
    a step are returned.  [jobs_.at] on a missing job would throw and is
    [Throw out_of_range]; [VectorPipelineTheory] shows that it never happens. *)

From Stdlib Require Import ZArith Lia.
From stdpp Require Import base numbers list functions.
From S2P Require Import Prelude Ieee IeeeArith Fp16 Arithmetic HardwarePipeline VectorMath.

Inductive Stage := SNegate | SExp | STailMultiply | SAddOne | SReciprocal | SMultiply | SDirect | SGateMultiply.

#[export] Instance Stage_eq_dec : EqDecision Stage.
Proof. solve_decision. Defined.

(** The enumerator's value. *)
Definition stage_index (s : Stage) : nat :=
  match s with
  | SNegate => 0 | SExp => 1 | STailMultiply => 2 | SAddOne => 3 | SReciprocal => 4 | SMultiply => 5
  | SDirect => 6 | SGateMultiply => 7
  end%nat.

Record Element := mkElement { e_index : nat; e_value : spec_float }.

Record Issue := mkIssue {
  issue_job : Z; issue_cycle : Z; issue_completion : Z; issue_stage : Stage;
  issue_first : nat; issue_elements : nat }.

Record Completion := mkCompletion {
  completion_job : Z; completion_submitted : Z; completion_cycle : Z;
  completion_op : SFUVectorOp; completion_values : list spec_float }.

(** The arrays [fifo], [reserved] and [done] are functions of the index. *)
Record Job := mkJob {
  j_op : SFUVectorOp;
  j_submitted : Z;
  j_consumed : nat;
  j_input : list spec_float;
  j_original : list spec_float;
  j_coefficients : list spec_float;
  j_output : list spec_float;
  j_fifo : nat -> list Element;
  j_reserved : nat -> nat;
  j_done : nat -> nat
}.

Record Token := mkToken { t_job : Z; t_stage : Stage; t_elements : list Element }.

Record SFUVectorPipeline := mkVectorPipeline {
  vector_ : TensorHardwarePipeline;
  exp_ : TensorHardwarePipeline;
  reciprocal_ : TensorHardwarePipeline;
  vectorLanes_ : nat;
  expLanes_ : nat;
  fifoElements_ : nat;
  maxRequests_ : nat;
  maxElements_ : nat;
  reciprocalLanes_ : nat;
  arithmetic_ : SFUArithmetic;
  sequence_ : Z;
  vectorCursor_ : Z;
  expCursor_ : Z;
  reciprocalCursor_ : Z;
  jobs_ : list (Z * Job);
  pending_ : list (Z * Token);
  completed_ : list Completion;
  fifoBackpressureEvents : Z;
  resourceBackpressureEvents : Z;
  fifoHighWater : Z;
  requestHighWater : Z
}.

(** Field updates used below. *)
Definition set_jobs (p : SFUVectorPipeline) (js : list (Z * Job)) : SFUVectorPipeline :=
  mkVectorPipeline (vector_ p) (exp_ p) (reciprocal_ p) (vectorLanes_ p) (expLanes_ p) (fifoElements_ p)
    (maxRequests_ p) (maxElements_ p) (reciprocalLanes_ p) (arithmetic_ p) (sequence_ p) (vectorCursor_ p)
    (expCursor_ p) (reciprocalCursor_ p) js (pending_ p) (completed_ p) (fifoBackpressureEvents p)
    (resourceBackpressureEvents p) (fifoHighWater p) (requestHighWater p).
Definition set_pending (p : SFUVectorPipeline) (pend : list (Z * Token)) : SFUVectorPipeline :=
  mkVectorPipeline (vector_ p) (exp_ p) (reciprocal_ p) (vectorLanes_ p) (expLanes_ p) (fifoElements_ p)
    (maxRequests_ p) (maxElements_ p) (reciprocalLanes_ p) (arithmetic_ p) (sequence_ p) (vectorCursor_ p)
    (expCursor_ p) (reciprocalCursor_ p) (jobs_ p) pend (completed_ p) (fifoBackpressureEvents p)
    (resourceBackpressureEvents p) (fifoHighWater p) (requestHighWater p).
Definition set_completed (p : SFUVectorPipeline) (c : list Completion) : SFUVectorPipeline :=
  mkVectorPipeline (vector_ p) (exp_ p) (reciprocal_ p) (vectorLanes_ p) (expLanes_ p) (fifoElements_ p)
    (maxRequests_ p) (maxElements_ p) (reciprocalLanes_ p) (arithmetic_ p) (sequence_ p) (vectorCursor_ p)
    (expCursor_ p) (reciprocalCursor_ p) (jobs_ p) (pending_ p) c (fifoBackpressureEvents p)
    (resourceBackpressureEvents p) (fifoHighWater p) (requestHighWater p).
Definition set_counters (p : SFUVectorPipeline) (fifo_bp resource_bp fifo_hw request_hw sequence : Z) :
    SFUVectorPipeline :=
  mkVectorPipeline (vector_ p) (exp_ p) (reciprocal_ p) (vectorLanes_ p) (expLanes_ p) (fifoElements_ p)
    (maxRequests_ p) (maxElements_ p) (reciprocalLanes_ p) (arithmetic_ p) sequence (vectorCursor_ p)
    (expCursor_ p) (reciprocalCursor_ p) (jobs_ p) (pending_ p) (completed_ p) fifo_bp resource_bp fifo_hw request_hw.
Definition set_resources (p : SFUVectorPipeline) (v e r : TensorHardwarePipeline) (vc ec rc : Z) :
    SFUVectorPipeline :=
  mkVectorPipeline v e r (vectorLanes_ p) (expLanes_ p) (fifoElements_ p)
    (maxRequests_ p) (maxElements_ p) (reciprocalLanes_ p) (arithmetic_ p) (sequence_ p) vc ec rc
    (jobs_ p) (pending_ p) (completed_ p) (fifoBackpressureEvents p)
    (resourceBackpressureEvents p) (fifoHighWater p) (requestHighWater p).

Definition with_job (p : SFUVectorPipeline) (id : Z) (j : Job) : SFUVectorPipeline :=
  set_jobs p (map_set id j (jobs_ p)).

Definition SFUVectorPipeline_new (vector exp reciprocal : TensorHardwarePipeline)
    (vectorLanes expLanes fifoElements maxRequests maxElements : nat)
    (precision : SFUInternalPrecision) (reciprocalLanes : nat) (backend : SFUNonlinearBackend) :
    result SFUVectorPipeline :=
  let! arithmetic := SFUArithmetic_new precision backend in
  if (vectorLanes =? 0)%nat || (expLanes =? 0)%nat || (reciprocalLanes =? 0)%nat || (maxRequests =? 0)%nat ||
     (maxElements =? 0)%nat || (fifoElements <? Nat.max vectorLanes (Nat.max expLanes reciprocalLanes))%nat
  then Throw invalid_argument
  else Ok (mkVectorPipeline vector exp reciprocal vectorLanes expLanes fifoElements maxRequests maxElements
             reciprocalLanes arithmetic 0 0 0 0 [] [] [] 0 0 0 0).

(** The requests [submit] takes. *)
Definition streamable (o : SFUVectorOp) : bool :=
  match o with Add | Multiply | Silu | SiluMultiply => true | _ => false end.

(** [id] tells whether the output pointer is valid; the second component is the
    identifier stored through it, [None] when the submission is rejected. *)
Definition SFUVectorPipeline_submit (p : SFUVectorPipeline) (r : SFUVectorRequest) (now : Z) (id : bool) :
    SFUVectorPipeline * option Z :=
  match input r, coefficients r with
  | Some inp, Some coef =>
      if negb id || (rowWidth r =? 0) || (length inp =? 0)%nat ||
         negb (Z.of_nat (length inp) mod rowWidth r =? 0) || (maxElements_ p <? length inp)%nat ||
         (maxRequests_ p <=? length (jobs_ p))%nat || negb (streamable (op r)) ||
         (negb (bool_decide (op r = Silu)) && negb (length coef =? length inp)%nat)
      then (p, None)
      else
        let values := map vectorFp16Value inp in
        let job := mkJob (op r) now 0 values values
          (if bool_decide (op r = Silu) then [] else map vectorFp16Value coef)
          (replicate (length inp) (S754_zero false)) (fun _ => []) (fun _ => O) (fun _ => O) in
        let sequence := sequence_ p ⊞ 1 in
        let jobs := map_emplace sequence job (jobs_ p) in
        let p := set_counters p (fifoBackpressureEvents p) (resourceBackpressureEvents p) (fifoHighWater p)
                   (Z.max (requestHighWater p) (Z.of_nat (length jobs))) sequence in
        (set_jobs p jobs, Some sequence)
  | _, _ => (p, None)
  end.

Definition SFUVectorPipeline_active (p : SFUVectorPipeline) : bool := negb (length (jobs_ p) =? 0)%nat.
Definition SFUVectorPipeline_fifoCapacity (p : SFUVectorPipeline) : nat := fifoElements_ p.
(** [std::exchange(completed_, {})]. *)
Definition SFUVectorPipeline_takeCompleted (p : SFUVectorPipeline) : SFUVectorPipeline * list Completion :=
  (set_completed p [], completed_ p).

Definition inputQueue (s : Stage) : nat :=
  if bool_decide (s = SGateMultiply) then 5%nat else (stage_index s - 1)%nat.
Definition outputQueue (s : Stage) : nat := stage_index s.
Definition producesFifo (o : SFUVectorOp) (s : Stage) : bool :=
  (stage_index s <? 5)%nat || (bool_decide (s = SMultiply) && bool_decide (o = SiluMultiply)).
Definition applicable (o : SFUVectorOp) (s : Stage) : bool :=
  if bool_decide (o = SiluMultiply) then negb (bool_decide (s = SDirect))
  else if bool_decide (o = Silu) then (stage_index s <=? 5)%nat else bool_decide (s = SDirect).

(** [Negate] and [Direct] read the request, the other stages a FIFO. *)
Definition source_stage (s : Stage) : bool := bool_decide (s = SNegate) || bool_decide (s = SDirect).

Definition SFUVectorPipeline_available (p : SFUVectorPipeline) (j : Job) (s : Stage) : nat :=
  let lanes := if bool_decide (s = SExp) then expLanes_ p
               else if bool_decide (s = SReciprocal) then reciprocalLanes_ p else vectorLanes_ p in
  if source_stage s then Nat.min lanes (length (j_input j) - j_consumed j)
  else
    let queue := j_fifo j (inputQueue s) in
    let previous := if bool_decide (s = SGateMultiply) then 5%nat else (stage_index s - 1)%nat in
    if (length queue <? lanes)%nat && negb (j_done j previous =? length (j_input j))%nat then 0%nat
    else Nat.min lanes (length queue).

(** The three resources and their round-robin cursors. *)
Inductive resource := RVector | RExp | RReciprocal.

Definition resource_of (p : SFUVectorPipeline) (r : resource) : TensorHardwarePipeline :=
  match r with RVector => vector_ p | RExp => exp_ p | RReciprocal => reciprocal_ p end.
Definition cursor_of (p : SFUVectorPipeline) (r : resource) : Z :=
  match r with RVector => vectorCursor_ p | RExp => expCursor_ p | RReciprocal => reciprocalCursor_ p end.
Definition set_resource (p : SFUVectorPipeline) (r : resource) (h : TensorHardwarePipeline) : SFUVectorPipeline :=
  set_resources p (if r is RVector then h else vector_ p) (if r is RExp then h else exp_ p)
    (if r is RReciprocal then h else reciprocal_ p) (vectorCursor_ p) (expCursor_ p) (reciprocalCursor_ p).
Definition set_cursor (p : SFUVectorPipeline) (r : resource) (c : Z) : SFUVectorPipeline :=
  set_resources p (vector_ p) (exp_ p) (reciprocal_ p)
    (if r is RVector then c else vectorCursor_ p) (if r is RExp then c else expCursor_ p)
    (if r is RReciprocal then c else reciprocalCursor_ p).

Definition ticket (c : Z * Stage) : Z := c.1 ⊠ 7 ⊞ Z.of_nat (stage_index c.2).

(** The (request, stage) pairs with work for a resource, in map order. *)
Definition issue_candidates (p : SFUVectorPipeline) (stages : list Stage) : list (Z * Stage) :=
  concat (map (fun '(id, j) =>
    map (fun s => (id, s))
      (filter (fun s => applicable (j_op j) s && negb (SFUVectorPipeline_available p j s =? 0)%nat) stages))
    (jobs_ p)).

(** [std::find_if] for the first ticket above the cursor, then [std::rotate]. *)
Fixpoint split_after (cursor : Z) (cs : list (Z * Stage)) : list (Z * Stage) * list (Z * Stage) :=
  match cs with
  | [] => ([], [])
  | c :: cs' =>
      if cursor <? ticket c then ([], cs)
      else let '(before, after) := split_after cursor cs' in (c :: before, after)
  end.
Definition rotate_after (cursor : Z) (cs : list (Z * Stage)) : list (Z * Stage) :=
  let '(before, after) := split_after cursor cs in after ++ before.

(** Lines 161-169: the elements taken by a token of [count] elements. *)
Fixpoint take_elements (j : Job) (s : Stage) (count : nat) : Job * list Element :=
  match count with
  | O => (j, [])
  | S count' =>
      if source_stage s then
        let index := j_consumed j in
        let e := mkElement index (default (S754_zero false) (j_input j !! index)) in
        let j := mkJob (j_op j) (j_submitted j) (S index) (j_input j) (j_original j) (j_coefficients j)
                   (j_output j) (j_fifo j) (j_reserved j) (j_done j) in
        let '(j, es) := take_elements j s count' in (j, e :: es)
      else
        match j_fifo j (inputQueue s) with
        | e :: rest =>
            let j := mkJob (j_op j) (j_submitted j) (j_consumed j) (j_input j) (j_original j) (j_coefficients j)
                       (j_output j) (<[inputQueue s := rest]> (j_fifo j)) (j_reserved j) (j_done j) in
            let '(j, es) := take_elements j s count' in (j, e :: es)
        | [] => (j, [])
        end
  end.

Definition set_reserved (j : Job) (q n : nat) : Job :=
  mkJob (j_op j) (j_submitted j) (j_consumed j) (j_input j) (j_original j) (j_coefficients j)
    (j_output j) (j_fifo j) (<[q := n]> (j_reserved j)) (j_done j).

(** Lines 150-179: the loop over the rotated candidates. *)
Fixpoint issue_loop (p : SFUVectorPipeline) (res : resource) (now : Z) (cs : list (Z * Stage)) :
    result (SFUVectorPipeline * option Issue) :=
  match cs with
  | [] => Ok (p, None)
  | (id, s) :: cs' =>
      match map_at id (jobs_ p) with
      | None => Throw out_of_range
      | Some j =>
          let count := SFUVectorPipeline_available p j s in
          if producesFifo (j_op j) s &&
             (fifoElements_ p <? length (j_fifo j (outputQueue s)) + j_reserved j (outputQueue s) + count)%nat
          then
            issue_loop (set_counters p (fifoBackpressureEvents p ⊞ 1) (resourceBackpressureEvents p)
                          (fifoHighWater p) (requestHighWater p) (sequence_ p)) res now cs'
          else
            let '(h, r) := TensorHardwarePipeline_reserve (resource_of p res) now true in
            let p := set_resource p res h in
            match r with
            | None =>
                Ok (set_counters p (fifoBackpressureEvents p) (resourceBackpressureEvents p ⊞ 1)
                      (fifoHighWater p) (requestHighWater p) (sequence_ p), None)
            | Some done =>
                let '(j, es) := take_elements j s count in
                let q := outputQueue s in
                let j := if producesFifo (j_op j) s then set_reserved j q (j_reserved j q + count)%nat else j in
                let p :=
                  if producesFifo (j_op j) s
                  then set_counters p (fifoBackpressureEvents p) (resourceBackpressureEvents p)
                         (Z.max (fifoHighWater p) (Z.of_nat (length (j_fifo j q) + j_reserved j q)%nat))
                         (requestHighWater p) (sequence_ p)
                  else p in
                let p := with_job p id j in
                let p := set_pending p (multimap_emplace done (mkToken id s es) (pending_ p)) in
                Ok (set_cursor p res (ticket (id, s)),
                    Some (mkIssue id now done s (e_index (hd (mkElement 0 (S754_zero false)) es)) count))
            end
      end
  end.

Definition SFUVectorPipeline_issueResource (p : SFUVectorPipeline) (res : resource) (now : Z)
    (stages : list Stage) : result (SFUVectorPipeline * option Issue) :=
  if now <? nextIssueCycle (resource_of p res) then Ok (p, None)
  else issue_loop p res now (rotate_after (cursor_of p res) (issue_candidates p stages)).

Section functional.
Context `{Libm}.

(** Lines 184-204: one element of a completing token. *)
Definition complete_element (a : SFUArithmetic) (s : Stage) (j : Job) (e : Element) : Job :=
  let value_at (l : list spec_float) := default (S754_zero false) (l !! e_index e) in
  let mul := SFUArithmetic_mul a CFloat CFloat in
  let add := SFUArithmetic_add a CFloat CFloat in
  let inp :=
    if bool_decide (s = STailMultiply) && SFUArithmetic_fp16 a &&
       SFltb (value_at (j_input j)) (S754_zero false)
    then <[e_index e := mul (value_at (j_input j)) (e_value e)]> (j_input j) else j_input j in
  let y :=
    match s with
    | SNegate => if SFUArithmetic_fp16 a then SFopp (SFabs (e_value e)) else SFopp (e_value e)
    | STailMultiply => e_value e
    | SExp => SFUArithmetic_exp a CFloat (e_value e)
    | SAddOne => add (SFone prec32 emax32) (e_value e)
    | SReciprocal => SFUArithmetic_reciprocal a CFloat (e_value e)
    | SMultiply =>
        if SFUArithmetic_fp16 a && bool_decide (backend_ a = BackendLut)
        then SFUArithmetic_silu a CFloat (value_at (j_original j))
        else mul (e_value e) (value_at (j_input j))
    | SGateMultiply => mul (e_value e) (value_at (j_coefficients j))
    | SDirect => if bool_decide (j_op j = Add) then add (e_value e) (value_at (j_coefficients j))
                 else mul (e_value e) (value_at (j_coefficients j))
    end in
  let q := outputQueue s in
  if producesFifo (j_op j) s then
    mkJob (j_op j) (j_submitted j) (j_consumed j) inp (j_original j) (j_coefficients j) (j_output j)
      (<[q := j_fifo j q ++ [mkElement (e_index e) (if bool_decide (s = SMultiply) then vectorFp16Value y else y)]]>
         (j_fifo j)) (j_reserved j) (j_done j)
  else
    mkJob (j_op j) (j_submitted j) (j_consumed j) inp (j_original j) (j_coefficients j)
      (<[e_index e := to_double (vectorFp16Value y)]> (j_output j)) (j_fifo j) (j_reserved j) (j_done j).

(** The stages whose completion writes the output. *)
Definition final_stage (o : SFUVectorOp) (s : Stage) : bool :=
  (bool_decide (s = SMultiply) && bool_decide (o = Silu)) || bool_decide (s = SGateMultiply) ||
  bool_decide (s = SDirect).

Definition SFUVectorPipeline_complete (p : SFUVectorPipeline) (t : Token) (now : Z) :
    result SFUVectorPipeline :=
  match map_at (t_job t) (jobs_ p) with
  | None => Throw out_of_range
  | Some j =>
      let s := t_stage t in
      let n := length (t_elements t) in
      let j := foldl (complete_element (arithmetic_ p) s) j (t_elements t) in
      let i := stage_index s in
      let j := mkJob (j_op j) (j_submitted j) (j_consumed j) (j_input j) (j_original j) (j_coefficients j)
                 (j_output j) (j_fifo j)
                 (if producesFifo (j_op j) s then <[outputQueue s := (j_reserved j (outputQueue s) - n)%nat]> (j_reserved j)
                  else j_reserved j)
                 (<[i := (j_done j i + n)%nat]> (j_done j)) in
      if final_stage (j_op j) s && (j_done j i =? length (j_input j))%nat then
        let c := mkCompletion (t_job t) (j_submitted j) now (j_op j) (j_output j) in
        Ok (set_completed (set_jobs p (map_erase (t_job t) (jobs_ p))) (completed_ p ++ [c]))
      else Ok (with_job p (t_job t) j)
  end.

(** Lines 75-80: pop and complete every token that is due. *)
Fixpoint complete_due (fuel : nat) (p : SFUVectorPipeline) (now : Z) : result SFUVectorPipeline :=
  match fuel with
  | O => Ok p
  | S fuel' =>
      match pending_ p with
      | (done, t) :: rest =>
          if done <=? now then
            let! p := SFUVectorPipeline_complete (set_pending p rest) t done in
            complete_due fuel' p now
          else Ok p
      | [] => Ok p
      end
  end.

Definition vector_stages : list Stage := [SNegate; STailMultiply; SAddOne; SMultiply; SDirect; SGateMultiply].

Definition SFUVectorPipeline_step (p : SFUVectorPipeline) (now : Z) : result (SFUVectorPipeline * list Issue) :=
  let p := set_resources p (TensorHardwarePipeline_retire (vector_ p) now)
             (TensorHardwarePipeline_retire (exp_ p) now) (TensorHardwarePipeline_retire (reciprocal_ p) now)
             (vectorCursor_ p) (expCursor_ p) (reciprocalCursor_ p) in
  let! p := complete_due (length (pending_ p)) p now in
  let! r1 := SFUVectorPipeline_issueResource p RVector now vector_stages in
  let (p, i1) := r1 in
  let! r2 := SFUVectorPipeline_issueResource p RExp now [SExp] in
  let (p, i2) := r2 in
  let! r3 := SFUVectorPipeline_issueResource p RReciprocal now [SReciprocal] in
  let (p, i3) := r3 in
  Ok (p, option_list i1 ++ option_list i2 ++ option_list i3).
End functional.
