(* ===== verification/VectorPipelineTheory.v ===== *)
(** * The streaming pipeline refines the functional reference

    Whatever the schedule (lane counts, latencies, FIFO stalls, interleaving of
    requests and of other users of the shared resources), every completion
    [SFUVectorPipeline] reports holds exactly the vector [evaluateSFUVectorOp]
    computes for the request, no step fails, and no FIFO exceeds its capacity.

    The proof follows every element of a request: it is waiting in one FIFO, in
    flight in one token, or finished ([job_inv] states this as a permutation of the
    consumed indices), and its value is the stage function of the original operand. *)

From Stdlib Require Import ZArith Lia.
From stdpp Require Import base numbers list functions sorting.
From S2P Require Import Prelude Ieee IeeeArith Fp16 Arithmetic HardwarePipeline VectorMath VectorPipeline.

(** ** Stages and queues *)

Definition stage_of_queue (q : nat) : Stage :=
  match q with
  | 0 => SExp | 1 => STailMultiply | 2 => SAddOne | 3 => SReciprocal | 4 => SMultiply | _ => SGateMultiply
  end%nat.

Notation located := (list (Stage * Element)).
Definition located_index (x : Stage * Element) : nat := e_index x.2.

Definition queued_at (f : nat -> list Element) (q : nat) : located := map (pair (stage_of_queue q)) (f q).
Definition queued (f : nat -> list Element) : located :=
  queued_at f 0 ++ queued_at f 1 ++ queued_at f 2 ++ queued_at f 3 ++ queued_at f 4 ++ queued_at f 5.

Lemma queued_push f q e :
  (q < 6)%nat -> queued (<[q := f q ++ [e]]> f) ≡ₚ (stage_of_queue q, e) :: queued f.
Proof.
  intros Hq. assert (q = 0 \/ q = 1 \/ q = 2 \/ q = 3 \/ q = 4 \/ q = 5)%nat as Hc by lia.
  unfold queued, queued_at.
  destruct Hc as [->|[->|[->|[->|[->| ->]]]]];
    rewrite fn_lookup_insert, !fn_lookup_insert_ne by lia; rewrite map_app; cbn [map]; solve_Permutation.
Qed.

Lemma queued_pop f q e rest :
  (q < 6)%nat -> f q = e :: rest -> queued f ≡ₚ (stage_of_queue q, e) :: queued (<[q := rest]> f).
Proof.
  intros Hq Hf. assert (q = 0 \/ q = 1 \/ q = 2 \/ q = 3 \/ q = 4 \/ q = 5)%nat as Hc by lia.
  unfold queued, queued_at.
  destruct Hc as [->|[->|[->|[->|[->| ->]]]]]; rewrite Hf;
    rewrite fn_lookup_insert, !fn_lookup_insert_ne by lia; cbn [map]; solve_Permutation.
Qed.

Lemma stage_of_inputQueue s : source_stage s = false -> stage_of_queue (inputQueue s) = s.
Proof. by destruct s. Qed.
Lemma inputQueue_bound s : source_stage s = false -> (inputQueue s < 6)%nat.
Proof. destruct s; try discriminate; intros _; cbv; lia. Qed.
Lemma outputQueue_bound o s : producesFifo o s = true -> (outputQueue s < 6)%nat.
Proof. destruct s, o; try discriminate; intros _; cbv; lia. Qed.

(** ** The stage functions of one operand *)

Section values.
Context `{Libm}.
Context (a : SFUArithmetic).
Notation mul := (SFUArithmetic_mul a CFloat CFloat).
Notation add := (SFUArithmetic_add a CFloat CFloat).

Definition st_negated (x : spec_float) : spec_float :=
  if SFUArithmetic_fp16 a then SFopp (SFabs x) else SFopp x.
Definition st_exponential (x : spec_float) : spec_float := SFUArithmetic_exp a CFloat (st_negated x).
Definition st_denominator (x : spec_float) : spec_float := add (SFone prec32 emax32) (st_exponential x).
Definition st_reciprocal (x : spec_float) : spec_float := SFUArithmetic_reciprocal a CFloat (st_denominator x).
Definition st_tail (x : spec_float) : spec_float :=
  if SFUArithmetic_fp16 a && SFltb x (S754_zero false) then mul x (st_exponential x) else x.
Definition st_silu (x : spec_float) : spec_float :=
  if SFUArithmetic_fp16 a && bool_decide (backend_ a = BackendLut) then SFUArithmetic_silu a CFloat x
  else mul (st_reciprocal x) (st_tail x).

(** The value an element of operand [x] carries when it enters a stage, and the
    value its input slot holds meanwhile. *)
Definition entering (s : Stage) (x : spec_float) : spec_float :=
  match s with
  | SNegate | SDirect => x
  | SExp => st_negated x
  | STailMultiply | SAddOne => st_exponential x
  | SReciprocal => st_denominator x
  | SMultiply => st_reciprocal x
  | SGateMultiply => vectorFp16Value (st_silu x)
  end.
Definition input_slot (s : Stage) (x : spec_float) : spec_float :=
  match s with
  | SNegate | SDirect | SExp | STailMultiply => x
  | _ => st_tail x
  end.

Definition final_value (o : SFUVectorOp) (x c : spec_float) : spec_float :=
  to_double (vectorFp16Value
    match o with
    | Silu => st_silu x
    | SiluMultiply => mul (vectorFp16Value (st_silu x)) c
    | Add => add x c
    | _ => mul x c
    end).

Lemma SFmul_comm p emax x y : SFmul p emax x y = SFmul p emax y x.
Proof.
  destruct x as [s|s| |s m e], y as [s'|s'| |s' m' e']; cbn [SFmul]; rewrite ?(xorb_comm s'); try done.
  by rewrite (Pos.mul_comm m'), (Z.add_comm e').
Qed.

Lemma mul_comm_float x y : mul x y = mul y x.
Proof.
  unfold SFUArithmetic_mul, SFUArithmetic_binop. cbn [common].
  destruct (SFUArithmetic_fp16 a); [do 2 f_equal|]; apply SFmul_comm.
Qed.

(** The stage functions compose to the reference's element. *)
Lemma final_value_reference o xi ci :
  streamable o = true ->
  final_value o (vectorFp16Value xi) (vectorFp16Value ci) = elementwise_value a o xi ci.
Proof.
  intros Ho. unfold final_value, elementwise_value.
  assert (st_silu (vectorFp16Value xi) = vector_silu a (vectorFp16Value xi)) as E.
  { unfold st_silu, vector_silu. cbv zeta. destruct (_ && bool_decide _); [done|].
    rewrite mul_comm_float. reflexivity. }
  destruct o; try discriminate; rewrite ?E; done.
Qed.

(** ** The invariant of a request *)

Definition original_at (j : Job) (i : nat) : spec_float := default (S754_zero false) (j_original j !! i).
Definition coefficient_at (j : Job) (i : nat) : spec_float := default (S754_zero false) (j_coefficients j !! i).
Notation size j := (length (j_original j)).

Definition element_ok (j : Job) (x : Stage * Element) : Prop :=
  let i := e_index x.2 in
  (i < size j)%nat /\ applicable (j_op j) x.1 = true /\
  e_value x.2 = entering x.1 (original_at j i) /\
  j_input j !! i = Some (input_slot x.1 (original_at j i)).

Record job_inv (j : Job) (L : located) (fin : list nat) : Prop := {
  ji_op : streamable (j_op j) = true;
  ji_input : length (j_input j) = size j;
  ji_output : length (j_output j) = size j;
  ji_consumed : (j_consumed j <= size j)%nat;
  ji_perm : map located_index (queued (j_fifo j) ++ L) ++ fin ≡ₚ seq 0 (j_consumed j);
  ji_elements : Forall (element_ok j) (queued (j_fifo j) ++ L);
  ji_fresh : forall i, (j_consumed j <= i < size j)%nat -> j_input j !! i = Some (original_at j i);
  ji_finished : Forall (fun i => j_output j !! i =
                          Some (final_value (j_op j) (original_at j i) (coefficient_at j i))) fin
}.

Lemma job_inv_perm j L L' fin fin' :
  L ≡ₚ L' -> fin ≡ₚ fin' -> job_inv j L fin -> job_inv j L' fin'.
Proof.
  intros HL Hf [H1 H2 H3 H4 H5 H6 H7 H8]. split; try done.
  - by rewrite <- HL, <- Hf.
  - by rewrite <- HL.
  - by rewrite <- Hf.
Qed.

(** The stage an element moves to when [s] produces into a FIFO. *)
Definition next_stage (s : Stage) : Stage := stage_of_queue (outputQueue s).

(** The constant parts of a job. *)
Definition same_job (j j' : Job) : Prop :=
  j_op j' = j_op j /\ j_submitted j' = j_submitted j /\ j_consumed j' = j_consumed j /\
  j_original j' = j_original j /\ j_coefficients j' = j_coefficients j /\
  j_reserved j' = j_reserved j /\ j_done j' = j_done j.

Lemma complete_element_same s j e : same_job j (complete_element a s j e).
Proof. unfold complete_element. cbv zeta. destruct (producesFifo _ _); repeat split. Qed.

(** What [complete_element] leaves in the input slots. *)
Lemma complete_element_input s j e :
  j_input (complete_element a s j e) =
  if bool_decide (s = STailMultiply) && SFUArithmetic_fp16 a &&
     SFltb (default (S754_zero false) (j_input j !! e_index e)) (S754_zero false)
  then <[e_index e := mul (default (S754_zero false) (j_input j !! e_index e)) (e_value e)]> (j_input j)
  else j_input j.
Proof. unfold complete_element. cbv zeta. destruct (producesFifo _ _); reflexivity. Qed.

Lemma complete_element_input_other s j e i :
  i <> e_index e -> j_input (complete_element a s j e) !! i = j_input j !! i.
Proof.
  intros Hi. rewrite complete_element_input. case_if; [|done]. by rewrite list_lookup_insert_ne.
Qed.

(** The slot of the moving element, after its stage. *)
Lemma complete_element_input_self s j e :
  element_ok j (s, e) -> length (j_input j) = size j ->
  j_input (complete_element a s j e) !! e_index e =
  Some (match s with
        | SNegate | SDirect | SExp => original_at j (e_index e)
        | _ => st_tail (original_at j (e_index e)) end).
Proof.
  intros (Hi & Ha & Hv & Hin) Hl. cbn [fst snd] in *. rewrite complete_element_input, Hin. cbn [default].
  destruct s; cbn [input_slot] in *; try (rewrite bool_decide_false by done; cbn [andb]; exact Hin).
  rewrite bool_decide_true by done. cbn [andb id]. unfold st_tail.
  destruct (_ && _); [|exact Hin]. rewrite list_lookup_insert_eq by lia.
  f_equal. rewrite Hv. reflexivity.
Qed.

(** The value a FIFO-producing stage pushes is what the next stage expects. *)
Definition stage_result (s : Stage) (j : Job) (e : Element) : spec_float :=
  let value_at (l : list spec_float) := default (S754_zero false) (l !! e_index e) in
  match s with
  | SNegate => if SFUArithmetic_fp16 a then SFopp (SFabs (e_value e)) else SFopp (e_value e)
  | STailMultiply => e_value e
  | SExp => SFUArithmetic_exp a CFloat (e_value e)
  | SAddOne => add (SFone prec32 emax32) (e_value e)
  | SReciprocal => SFUArithmetic_reciprocal a CFloat (e_value e)
  | SMultiply =>
      if SFUArithmetic_fp16 a && bool_decide (backend_ a = BackendLut)
      then SFUArithmetic_silu a CFloat (value_at (j_original j))
      else mul (e_value e) (value_at (j_input j))
  | SGateMultiply => mul (e_value e) (value_at (j_coefficients j))
  | SDirect => if bool_decide (j_op j = Add) then add (e_value e) (value_at (j_coefficients j))
               else mul (e_value e) (value_at (j_coefficients j))
  end.

Lemma complete_element_fifo s j e :
  producesFifo (j_op j) s = true ->
  j_fifo (complete_element a s j e) =
    <[outputQueue s := j_fifo j (outputQueue s) ++
       [mkElement (e_index e) (if bool_decide (s = SMultiply) then vectorFp16Value (stage_result s j e)
                               else stage_result s j e)]]> (j_fifo j) /\
  j_output (complete_element a s j e) = j_output j.
Proof. intros Hp. unfold complete_element, stage_result. rewrite Hp. done. Qed.

Lemma complete_element_output s j e :
  producesFifo (j_op j) s = false ->
  j_fifo (complete_element a s j e) = j_fifo j /\
  j_output (complete_element a s j e) =
    <[e_index e := to_double (vectorFp16Value (stage_result s j e))]> (j_output j).
Proof. intros Hp. unfold complete_element, stage_result. rewrite Hp. done. Qed.

(** The stage results are the stage functions. *)
Lemma stage_result_ok s j e :
  element_ok j (s, e) ->
  let x := original_at j (e_index e) in
  stage_result s j e =
  match s with
  | SNegate => st_negated x | SExp => st_exponential x | STailMultiply => st_exponential x
  | SAddOne => st_denominator x | SReciprocal => st_reciprocal x | SMultiply => st_silu x
  | SGateMultiply => mul (vectorFp16Value (st_silu x)) (coefficient_at j (e_index e))
  | SDirect => if bool_decide (j_op j = Add) then add x (coefficient_at j (e_index e))
               else mul x (coefficient_at j (e_index e))
  end.
Proof.
  intros (Hi & Ha & Hv & Hin). cbn [fst snd] in *. unfold stage_result. rewrite Hv, Hin.
  destruct s; try reflexivity.
Qed.
End values.

(** ** One element completes *)

Section job_steps.
Context `{Libm}.
Context (a : SFUArithmetic).
Notation jinv := (job_inv a).
Notation elt_ok := (element_ok a).
Notation size j := (length (j_original j)).

Lemma seq_index i n : i ∈ seq 0 n <-> (i < n)%nat.
Proof. rewrite elem_of_seq. lia. Qed.

(** Every located or finished index was consumed and occurs once. *)
Lemma job_inv_nodup j L fin :
  jinv j L fin -> NoDup (map located_index (queued (j_fifo j) ++ L) ++ fin).
Proof. intros J. rewrite (ji_perm _ _ _ _ J). apply NoDup_seq. Qed.

Lemma job_inv_index j L fin x :
  jinv j L fin -> x ∈ queued (j_fifo j) ++ L -> (located_index x < j_consumed j)%nat.
Proof.
  intros J Hx. apply seq_index. rewrite <- (ji_perm _ _ _ _ J). apply elem_of_app. left.
  apply list_elem_of_In, in_map, list_elem_of_In. exact Hx.
Qed.

Lemma element_ok_other s e j x :
  elt_ok j x -> e_index x.2 <> e_index e -> elt_ok (complete_element a s j e) x.
Proof.
  intros (Hi & Ha & Hv & Hin) Hne.
  destruct (complete_element_same a s j e) as (Eo & _ & _ & Eor & _).
  unfold element_ok, original_at in *. rewrite Eo, Eor. repeat split; try done.
  by rewrite complete_element_input_other.
Qed.

Lemma Forall_other s e j l :
  Forall (elt_ok j) l -> Forall (fun x => e_index x.2 <> e_index e) l ->
  Forall (elt_ok (complete_element a s j e)) l.
Proof.
  intros H1 H2. apply Forall_forall. intros x Hx. rewrite Forall_forall in H1, H2.
  apply element_ok_other; [by apply H1|by apply H2].
Qed.

Lemma nodup_other (l : located) i fin :
  NoDup (i :: map located_index l ++ fin) -> Forall (fun x => e_index x.2 <> i) l /\ Forall (fun k => k <> i) fin.
Proof.
  intros [Hn _]%NoDup_cons. rewrite elem_of_app in Hn. split; apply Forall_forall.
  - intros x Hx E. apply Hn. left. apply list_elem_of_In, in_map_iff. exists x.
    split; [done|by apply list_elem_of_In].
  - intros k Hk ->. tauto.
Qed.

Lemma complete_element_length s j e : length (j_input (complete_element a s j e)) = length (j_input j).
Proof. rewrite complete_element_input. case_if; [apply length_insert|done]. Qed.

Lemma produces_next o s :
  producesFifo o s = true -> applicable o s = true -> streamable o = true ->
  applicable o (next_stage s) = true /\ s <> SDirect /\ s <> SGateMultiply /\
  (s = SMultiply -> o = SiluMultiply).
Proof. destruct s, o; try discriminate; intros; repeat split; try discriminate; done. Qed.

Lemma moved_element j s e :
  elt_ok j (s, e) -> length (j_input j) = size j -> streamable (j_op j) = true ->
  producesFifo (j_op j) s = true ->
  elt_ok (complete_element a s j e)
    (next_stage s, mkElement (e_index e)
       (if bool_decide (s = SMultiply) then vectorFp16Value (stage_result a s j e) else stage_result a s j e)).
Proof.
  intros E Hl Ho Hp. pose proof E as (Hi & Ha & Hv & Hin). cbn [fst snd] in *.
  destruct (produces_next _ _ Hp Ha Ho) as (Hn & Hd & Hg & Hm).
  destruct (complete_element_same a s j e) as (Eo & _ & _ & Eor & _).
  unfold element_ok. cbn [fst snd e_index e_value]. unfold original_at. rewrite Eo, Eor.
  fold (original_at j (e_index e)).
  rewrite (complete_element_input_self a s j e E Hl), (stage_result_ok a s j e E).
  repeat split; try done; destruct s; try done; cbn [next_stage outputQueue stage_index stage_of_queue entering input_slot];
    rewrite ?bool_decide_true, ?bool_decide_false by done; reflexivity.
Qed.

Lemma finished_value j s e :
  elt_ok j (s, e) -> streamable (j_op j) = true -> producesFifo (j_op j) s = false ->
  to_double (vectorFp16Value (stage_result a s j e)) =
  final_value a (j_op j) (original_at j (e_index e)) (coefficient_at j (e_index e)).
Proof.
  intros E Ho Hp. rewrite (stage_result_ok a s j e E). pose proof E as (_ & Ha & _ & _). cbn [fst] in Ha.
  unfold final_value. destruct s, (j_op j); try discriminate; try reflexivity.
Qed.

Definition finishes (o : SFUVectorOp) (s : Stage) (i : nat) (fin : list nat) : list nat :=
  if producesFifo o s then fin else i :: fin.

Lemma complete_element_inv j s e L fin :
  jinv j ((s, e) :: L) fin ->
  jinv (complete_element a s j e) L (finishes (j_op j) s (e_index e) fin).
Proof.
  intros J. pose proof (job_inv_nodup _ _ _ J) as ND.
  pose proof (job_inv_index _ _ _ (s, e) J ltac:(apply elem_of_app; right; left)) as Hidx.
  change (located_index (s, e)) with (e_index e) in Hidx.
  destruct J as [Ho Hli Hlo Hc Hp He Hf Hfin].
  destruct (complete_element_same a s j e) as (Eo & _ & Ec & Eor & Eco & _ & _).
  assert (He' : elt_ok j (s, e)).
  { rewrite Forall_forall in He. apply He, elem_of_app. right. left. }
  assert (Pm : map located_index (queued (j_fifo j) ++ (s, e) :: L) ++ fin ≡ₚ
               e_index e :: map located_index (queued (j_fifo j) ++ L) ++ fin).
  { rewrite !map_app. cbn [map]. change (located_index (s, e)) with (e_index e). solve_Permutation. }
  rewrite Pm in ND, Hp. destruct (nodup_other _ _ _ ND) as [Hne Hnf].
  assert (Hrest : Forall (elt_ok (complete_element a s j e)) (queued (j_fifo j) ++ L)).
  { apply Forall_other; [|done]. rewrite Forall_app, Forall_cons in He. rewrite Forall_app. tauto. }
  assert (Hfresh : forall i, (j_consumed j <= i < size j)%nat ->
      j_input (complete_element a s j e) !! i = Some (original_at j i)).
  { intros i Hi. rewrite complete_element_input_other by lia. by apply Hf. }
  destruct (producesFifo (j_op j) s) eqn:Hpr.
  - destruct (complete_element_fifo a s j e Hpr) as [Ef Eout].
    pose proof (outputQueue_bound _ _ Hpr) as Hq.
    set (e' := mkElement (e_index e) _) in Ef.
    assert (Pq : queued (j_fifo (complete_element a s j e)) ≡ₚ (next_stage s, e') :: queued (j_fifo j))
      by (rewrite Ef; by apply queued_push).
    unfold finishes. rewrite Hpr.
    split; unfold original_at, coefficient_at; rewrite ?Eo, ?Eor, ?Ec, ?Eco, ?Eout; try done.
    + by rewrite complete_element_length.
    + rewrite Pq. cbn [app map]. change (located_index (next_stage s, e')) with (e_index e). exact Hp.
    + rewrite Pq. cbn [app]. apply Forall_cons. split; [|done]. by apply moved_element.
  - destruct (complete_element_output a s j e Hpr) as [Ef Eout].
    unfold finishes. rewrite Hpr.
    split; unfold original_at, coefficient_at; rewrite ?Eo, ?Eor, ?Ec, ?Eco, ?Eout, ?Ef; try done.
    + by rewrite complete_element_length.
    + by rewrite length_insert.
    + rewrite <- Hp. solve_Permutation.
    + apply Forall_cons. split.
      * rewrite list_lookup_insert_eq by lia. f_equal. by apply finished_value.
      * apply Forall_forall. intros i Hi. rewrite Forall_forall in Hfin, Hnf.
        rewrite list_lookup_insert_ne by (intros Eq; by apply (Hnf i Hi)). by apply Hfin.
Qed.

(** A whole token. *)
Lemma same_job_trans j1 j2 j3 : same_job j1 j2 -> same_job j2 j3 -> same_job j1 j3.
Proof. unfold same_job. intuition congruence. Qed.

Lemma complete_elements_same s es : forall j, same_job j (foldl (complete_element a s) j es).
Proof.
  induction es as [|e es IH]; intros j; [by repeat split|]. cbn [foldl].
  eapply same_job_trans; [apply complete_element_same|apply IH].
Qed.

Lemma complete_elements_inv s es : forall j L fin,
  jinv j (map (pair s) es ++ L) fin ->
  exists fin', jinv (foldl (complete_element a s) j es) L fin' /\
    length fin' = if producesFifo (j_op j) s then length fin else (length es + length fin)%nat.
Proof.
  induction es as [|e es IH]; intros j L fin J.
  - exists fin. split; [exact J|]. by destruct (producesFifo _ _).
  - cbn [map app] in J. apply complete_element_inv in J. cbn [foldl].
    destruct (IH _ _ _ J) as (fin' & J' & E). exists fin'. split; [done|]. rewrite E.
    destruct (complete_element_same a s j e) as (Eo & _). rewrite Eo. unfold finishes.
    destruct (producesFifo (j_op j) s); cbn [length]; lia.
Qed.

(** ** Elements are taken into a token *)

Lemma take_elements_same s count : forall j,
  let j' := (take_elements j s count).1 in
  j_op j' = j_op j /\ j_submitted j' = j_submitted j /\ j_original j' = j_original j /\
  j_coefficients j' = j_coefficients j /\ j_reserved j' = j_reserved j /\ j_done j' = j_done j.
Proof.
  induction count as [|count IH]; intros j; [by repeat split|]. cbn [take_elements].
  destruct (source_stage s).
  - match goal with |- context [take_elements ?j1 s count] => specialize (IH j1); destruct (take_elements j1 s count) end.
    exact IH.
  - destruct (j_fifo j (inputQueue s)); [by repeat split|].
    match goal with |- context [take_elements ?j1 s count] => specialize (IH j1); destruct (take_elements j1 s count) end.
    exact IH.
Qed.

Lemma take_source j L fin s :
  jinv j L fin -> source_stage s = true -> applicable (j_op j) s = true -> (j_consumed j < size j)%nat ->
  let e := mkElement (j_consumed j) (default (S754_zero false) (j_input j !! j_consumed j)) in
  jinv (mkJob (j_op j) (j_submitted j) (S (j_consumed j)) (j_input j) (j_original j) (j_coefficients j)
             (j_output j) (j_fifo j) (j_reserved j) (j_done j)) ((s, e) :: L) fin.
Proof.
  intros [Ho Hli Hlo Hc Hp He Hf Hfin] Hs Ha Hn e. split; try done.
  - cbn [j_consumed j_fifo]. rewrite seq_S, <- Hp. cbn [Nat.add].
    rewrite !map_app. cbn [map]. change (located_index (s, e)) with (j_consumed j). solve_Permutation.
  - cbn [j_fifo]. rewrite Forall_app, Forall_cons. rewrite Forall_app in He. destruct He as [H1 H2].
    split; [exact H1|]. split; [|exact H2]. unfold e.
    unfold element_ok. cbn [fst snd e_index e_value j_op j_input j_original].
    rewrite (Hf (j_consumed j)) by lia. split; [done|]. split; [done|].
    by destruct s.
  - intros i Hi. apply Hf. cbn in Hi. lia.
Qed.

Lemma take_queued j L fin s e rest :
  jinv j L fin -> source_stage s = false -> j_fifo j (inputQueue s) = e :: rest ->
  jinv (mkJob (j_op j) (j_submitted j) (j_consumed j) (j_input j) (j_original j) (j_coefficients j)
             (j_output j) (<[inputQueue s := rest]> (j_fifo j)) (j_reserved j) (j_done j)) ((s, e) :: L) fin.
Proof.
  intros [Ho Hli Hlo Hc Hp He Hf Hfin] Hs Hq.
  pose proof (queued_pop (j_fifo j) (inputQueue s) e rest (inputQueue_bound s Hs) Hq) as P.
  rewrite (stage_of_inputQueue s Hs) in P.
  assert (P2 : queued (<[inputQueue s:=rest]> (j_fifo j)) ++ (s, e) :: L ≡ₚ queued (j_fifo j) ++ L)
    by (rewrite P; solve_Permutation).
  split; try done; cbn [j_fifo].
  - by rewrite P2.
  - by rewrite P2.
Qed.

Definition stage_supply (j : Job) (s : Stage) : nat :=
  if source_stage s then (size j - j_consumed j)%nat else length (j_fifo j (inputQueue s)).

Lemma take_elements_inv s count : forall j L fin,
  jinv j L fin -> applicable (j_op j) s = true -> (count <= stage_supply j s)%nat ->
  let '(j', es) := take_elements j s count in
  jinv j' (map (pair s) es ++ L) fin /\ length es = count.
Proof.
  induction count as [|count IH]; intros j L fin J Ha Hn; cbn [take_elements]; [done|].
  unfold stage_supply in Hn. destruct (source_stage s) eqn:Hs.
  - pose proof (take_source j L fin s J Hs Ha ltac:(lia)) as J1. cbv zeta in J1 |- *.
    match goal with |- context [take_elements ?j1 s count] => pose proof (IH j1 _ _ J1) as IH1 end.
    unfold stage_supply in IH1. rewrite Hs in IH1. cbn [j_original j_consumed j_op] in IH1.
    specialize (IH1 Ha ltac:(lia)).
    destruct (take_elements _ s count) as [j' es]. destruct IH1 as [J' E].
    split; [|cbn; lia]. eapply job_inv_perm; [|done|exact J']. cbn [map app]. solve_Permutation.
  - destruct (j_fifo j (inputQueue s)) as [|e rest] eqn:Hq; [cbn in Hn; lia|].
    pose proof (take_queued j L fin s e rest J Hs Hq) as J1.
    match goal with |- context [take_elements ?j1 s count] => pose proof (IH j1 _ _ J1) as IH1 end.
    unfold stage_supply in IH1. rewrite Hs in IH1. cbn [j_fifo j_op] in IH1.
    rewrite fn_lookup_insert in IH1. cbn in Hn. specialize (IH1 Ha ltac:(lia)).
    destruct (take_elements _ s count) as [j' es]. destruct IH1 as [J' E].
    split; [|cbn; lia]. eapply job_inv_perm; [|done|exact J']. cbn [map app]. solve_Permutation.
Qed.
End job_steps.

(** ** FIFO credits *)

Definition outstanding (o : SFUVectorOp) (q : nat) (L : located) : nat :=
  length (filter (fun x : Stage * Element => producesFifo o x.1 = true /\ outputQueue x.1 = q) L).

Lemma outstanding_app o q L L' : outstanding o q (L ++ L') = (outstanding o q L + outstanding o q L')%nat.
Proof. unfold outstanding. by rewrite filter_app, length_app. Qed.

Lemma outstanding_perm o q L L' : L ≡ₚ L' -> outstanding o q L = outstanding o q L'.
Proof. intros HL. unfold outstanding. by rewrite HL. Qed.

Lemma outstanding_token o q s es :
  outstanding o q (map (pair s) es) =
  if producesFifo o s && (outputQueue s =? q)%nat then length es else 0%nat.
Proof.
  unfold outstanding. induction es as [|e es IH]; cbn [map]; [by destruct (_ && _)|].
  destruct (producesFifo o s) eqn:Hp; cbn [andb] in *.
  - destruct (Nat.eqb_spec (outputQueue s) q) as [Eq|Nq].
    + rewrite filter_cons_True by done. cbn [length]. by rewrite IH.
    + rewrite filter_cons_False by (cbn; tauto). exact IH.
  - rewrite filter_cons_False by (cbn; rewrite Hp; intros [? _]; discriminate). exact IH.
Qed.

(** Space used or promised in each FIFO. *)
Definition used (j : Job) (L : located) (q : nat) : nat := (length (j_fifo j q) + outstanding (j_op j) q L)%nat.

Section credits.
Context `{Libm}.
Context (a : SFUArithmetic).

Lemma complete_element_used s j e L q :
  used (complete_element a s j e) L q = used j ((s, e) :: L) q.
Proof.
  unfold used. destruct (complete_element_same a s j e) as (Eo & _). rewrite Eo.
  change ((s, e) :: L) with (map (pair s) [e] ++ L). rewrite outstanding_app, outstanding_token.
  destruct (producesFifo (j_op j) s) eqn:Hp.
  - destruct (complete_element_fifo a s j e Hp) as [-> _]. cbn [andb length].
    destruct (Nat.eqb_spec (outputQueue s) q) as [<-|Nq].
    + rewrite fn_lookup_insert, length_app. cbn. lia.
    + rewrite fn_lookup_insert_ne by done. lia.
  - destruct (complete_element_output a s j e Hp) as [-> _]. cbn [andb]. lia.
Qed.

Lemma complete_elements_used s es : forall j L q,
  used (foldl (complete_element a s) j es) L q = used j (map (pair s) es ++ L) q.
Proof.
  induction es as [|e es IH]; intros j L q; [done|]. cbn [foldl map app].
  rewrite IH. apply complete_element_used.
Qed.
End credits.

Lemma take_elements_fifo s count : forall j q, (length (j_fifo (take_elements j s count).1 q) <= length (j_fifo j q))%nat.
Proof.
  induction count as [|count IH]; intros j q; cbn [take_elements]; [done|].
  destruct (source_stage s).
  - match goal with |- context [take_elements ?j1 s count] => specialize (IH j1 q); destruct (take_elements j1 s count) end.
    exact IH.
  - destruct (j_fifo j (inputQueue s)) as [|e rest] eqn:Eq; [done|].
    match goal with |- context [take_elements ?j1 s count] => specialize (IH j1 q); destruct (take_elements j1 s count) end.
    cbn [fst j_fifo] in *. destruct (decide (inputQueue s = q)) as [<-|Nq].
    + rewrite fn_lookup_insert in IH. rewrite Eq. cbn. lia.
    + rewrite fn_lookup_insert_ne in IH by done. exact IH.
Qed.

(** ** Requests in flight *)

(** The located elements of the tokens of request [id]. *)
Definition in_tokens (id : Z) (pend : list (Z * Token)) : located :=
  concat (map (fun kt => if t_job kt.2 =? id then map (pair (t_stage kt.2)) (t_elements kt.2) else []) pend).

Lemma in_tokens_perm id pend pend' : pend ≡ₚ pend' -> in_tokens id pend ≡ₚ in_tokens id pend'.
Proof.
  induction 1 as [|x l l' Hl IH|x y l|l1 l2 l3 _ IH1 _ IH2]; unfold in_tokens in *; cbn [map concat]; [done|..].
  - by rewrite IH.
  - solve_Permutation.
  - by rewrite IH1.
Qed.

Lemma in_tokens_cons id k t pend :
  in_tokens id ((k, t) :: pend) =
  (if t_job t =? id then map (pair (t_stage t)) (t_elements t) else []) ++ in_tokens id pend.
Proof. reflexivity. Qed.

(** The stage whose completion finishes an element of the operation. *)
Definition last_stage (o : SFUVectorOp) : Stage :=
  match o with Silu => SMultiply | SiluMultiply => SGateMultiply | _ => SDirect end.

Lemma final_last o s :
  streamable o = true -> applicable o s = true ->
  final_stage o s = negb (producesFifo o s) /\ (final_stage o s = true <-> s = last_stage o).
Proof. destruct o, s; try discriminate; intros _ _; (split; [reflexivity|split; intros; done || discriminate]). Qed.

Lemma stage_index_inj s s' : stage_index s = stage_index s' -> s = s'.
Proof. by destruct s, s'. Qed.

(** What the client submitted, by identifier. *)
Notation submissions := (list (Z * (SFUVectorRequest * Z))).

(** A request as [submit] takes it. *)
Definition submitted_request (r : SFUVectorRequest) (inp coef : list spec_float) : Prop :=
  vector_shape r inp coef /\ streamable (op r) = true /\ (op r <> Silu -> length coef = length inp).

Definition job_of (log : submissions) (id : Z) (j : Job) : Prop :=
  exists r inp coef, (id, (r, j_submitted j)) ∈ log /\ submitted_request r inp coef /\
    j_op j = op r /\ j_original j = map vectorFp16Value inp /\
    j_coefficients j = if bool_decide (op r = Silu) then [] else map vectorFp16Value coef.

Section pipeline.
Context `{Libm}.
Context (a : SFUArithmetic) (F : nat).

(** A completion carries the reference's result for the request it answers. *)
Definition completion_ok (log : submissions) (c : Completion) : Prop :=
  exists r, (completion_job c, (r, completion_submitted c)) ∈ log /\ completion_op c = op r /\
    forall tree, evaluateSFUVectorOp a r true tree = Ok (Some (completion_values c)).

Record job_state (log : submissions) (pend : list (Z * Token)) (id : Z) (j : Job) : Prop := {
  js_of : job_of log id j;
  js_inv : exists fin, job_inv a j (in_tokens id pend) fin /\
    length fin = j_done j (stage_index (last_stage (j_op j))) /\ (length fin < length (j_original j))%nat;
  js_reserved : forall q, (q < 6)%nat -> j_reserved j q = outstanding (j_op j) q (in_tokens id pend);
  js_room : forall q, (q < 6)%nat -> (used j (in_tokens id pend) q <= F)%nat
}.

Record pipeline_inv (log : submissions) (p : SFUVectorPipeline) : Prop := {
  pi_arith : arithmetic_ p = a;
  pi_fifo : fifoElements_ p = F;
  pi_seq : 0 <= sequence_ p < 2 ^ 64;
  pi_log : Forall (fun x => x.1 <= sequence_ p) log;
  pi_keys : Forall (fun kv => kv.1 <= sequence_ p) (jobs_ p);
  pi_nodup : NoDup (map fst (jobs_ p));
  pi_jobs : Forall (fun kv => job_state log (pending_ p) kv.1 kv.2) (jobs_ p);
  pi_pending : Forall (fun kt => is_Some (map_at (t_job kt.2) (jobs_ p)) /\ t_elements kt.2 <> []) (pending_ p);
  pi_completed : Forall (completion_ok log) (completed_ p);
  pi_highwater : fifoHighWater p <= Z.of_nat F
}.

(** Fields the invariant does not mention may change freely. *)
Lemma pipeline_inv_eq log p p' :
  pipeline_inv log p ->
  arithmetic_ p' = arithmetic_ p -> fifoElements_ p' = fifoElements_ p -> sequence_ p' = sequence_ p ->
  jobs_ p' = jobs_ p -> pending_ p' = pending_ p -> Forall (completion_ok log) (completed_ p') ->
  fifoHighWater p' = fifoHighWater p -> pipeline_inv log p'.
Proof. intros [] E1 E2 E3 E4 E5 HC E6. split; rewrite ?E1, ?E2, ?E3, ?E4, ?E5, ?E6; done. Qed.

Lemma job_lookup log p id j : pipeline_inv log p -> map_at id (jobs_ p) = Some j ->
  job_state log (pending_ p) id j /\ (id, j) ∈ jobs_ p.
Proof.
  intros I E. apply map_at_elem in E. split; [|done].
  pose proof (pi_jobs _ _ I) as Hj. rewrite Forall_forall in Hj. apply (Hj (id, j) E).
Qed.

Lemma finished_values log id j L fin :
  job_of log id j -> job_inv a j L fin -> length fin = length (j_original j) ->
  L = [] /\ completion_ok log (mkCompletion id (j_submitted j) 0 (j_op j) (j_output j)).
Proof.
  intros (r & inp & coef & Hlog & (Hs & Hst & Hc) & Eo & Eor & Eco) J Hl.
  pose proof (ji_perm _ _ _ _ J) as P. pose proof (ji_consumed _ _ _ _ J) as Hcons.
  assert (Len := P). apply Permutation_length in Len.
  rewrite length_app, length_map, length_app, length_seq in Len.
  assert (queued (j_fifo j) = [] /\ L = []) as [Eq EL].
  { split; apply length_zero_iff_nil; lia. }
  split; [done|]. exists r. split; [done|]. split; [done|]. intros tree. cbn [completion_values].
  rewrite (evaluate_elementwise a r inp coef tree Hs); [|by destruct (op r)|done].
  do 2 f_equal. rewrite Eq, EL in P. cbn [app map] in P.
  assert (Hn : length (j_original j) = length inp) by (rewrite Eor; apply length_map).
  apply list_eq. intros i. change (map ?f ?l) with (f <$> l). rewrite list_lookup_fmap.
  destruct (decide (i < length inp)%nat) as [Hi|Hi].
  - rewrite (lookup_seq_lt _ _ _ Hi). cbn [fmap option_fmap option_map]. rewrite Nat.add_0_l.
    assert (i ∈ fin) as Hfin.
    { rewrite P. apply seq_index. apply Permutation_length in P. rewrite length_seq in P. lia. }
    pose proof (ji_finished _ _ _ _ J) as Hf. rewrite Forall_forall in Hf. rewrite (Hf i Hfin). f_equal.
    rewrite Eo. unfold original_at, coefficient_at, at_. rewrite Eor, Eco, Nat2Z.id.
    destruct (lookup_lt_is_Some_2 inp i Hi) as [x Ex].
    change (map vectorFp16Value inp) with (vectorFp16Value <$> inp).
    rewrite list_lookup_fmap, Ex. cbn [fmap option_fmap option_map default Datatypes.id].
    destruct (decide (op r = Silu)) as [->|Nsilu].
    + rewrite <- (final_value_reference a Silu x (default (S754_zero false) (coef !! i)) eq_refl).
      unfold final_value. cbv iota. done.
    + rewrite bool_decide_false by done.
      destruct (lookup_lt_is_Some_2 coef i) as [c Ec]; [rewrite Hc by done; done|].
      change (map vectorFp16Value coef) with (vectorFp16Value <$> coef).
      rewrite list_lookup_fmap, Ec. cbn [fmap option_fmap option_map default Datatypes.id].
      symmetry. by rewrite final_value_reference.
  - rewrite (lookup_ge_None_2 (seq _ _)) by (rewrite length_seq; lia).
    rewrite (lookup_ge_None_2 (j_output j)) by (rewrite (ji_output _ _ _ _ J); lia). reflexivity.
Qed.

(** ** A token completes *)

Lemma completion_ok_cycle log id sub now now' o vs :
  completion_ok log (mkCompletion id sub now o vs) -> completion_ok log (mkCompletion id sub now' o vs).
Proof. intros (r & H1 & H2 & H3). by exists r. Qed.

Lemma job_state_tokens log pend pend' id j :
  in_tokens id pend' ≡ₚ in_tokens id pend -> job_state log pend id j -> job_state log pend' id j.
Proof.
  intros E [H1 (fin & J & H2 & H2') H3 H4]. split; [done|..].
  - exists fin. split; [|done]. by eapply job_inv_perm; [symmetry; exact E|done|].
  - intros q Hq. rewrite (outstanding_perm _ _ _ _ E). by apply H3.
  - intros q Hq. unfold used. rewrite (outstanding_perm _ _ _ _ E). by apply H4.
Qed.

(** One job and the tokens change, the tokens of the others do not. *)
Lemma replace_job log p p' id j j' :
  pipeline_inv log p -> map_at id (jobs_ p) = Some j ->
  jobs_ p' = map_set id j' (jobs_ p) ->
  arithmetic_ p' = arithmetic_ p -> fifoElements_ p' = fifoElements_ p -> sequence_ p' = sequence_ p ->
  completed_ p' = completed_ p -> fifoHighWater p' <= Z.of_nat F ->
  job_state log (pending_ p') id j' ->
  (forall id2, id2 <> id -> in_tokens id2 (pending_ p') ≡ₚ in_tokens id2 (pending_ p)) ->
  Forall (fun kt => is_Some (map_at (t_job kt.2) (jobs_ p)) /\ t_elements kt.2 <> []) (pending_ p') ->
  pipeline_inv log p'.
Proof.
  intros [I1 I2 I3 I4 I5 I6 I7 I8 I9 I10] Hj Ej Ea Ef Es Ec Hw Js Ho Hp.
  split; rewrite ?Ea, ?Ef, ?Es, ?Ec, ?Ej; try done.
  - by apply (map_set_Forall_keys (fun k => k <= sequence_ p)).
  - by rewrite map_set_keys.
  - apply Forall_forall. intros [id2 j2] H2.
    apply (elem_map_at _ _ _) in H2; [|by rewrite map_set_keys]. cbn [fst snd].
    destruct (decide (id2 = id)) as [->|Ne].
    + rewrite (map_at_set_eq _ _ j) in H2 by done. injection H2 as <-. done.
    + rewrite map_at_set_ne in H2 by done. apply map_at_elem in H2.
      rewrite Forall_forall in I7. specialize (I7 _ H2). cbn in I7.
      eapply job_state_tokens; [|exact I7]. by apply Ho.
  - eapply Forall_impl; [exact Hp|]. intros kt [[j2 Hj2] Hne]. split; [|done].
    destruct (decide (t_job kt.2 = id)) as [->|Ne]; [rewrite (map_at_set_eq _ _ j) by done; eauto|].
    rewrite map_at_set_ne by done. eauto.
Qed.

(** The state of the job after its token, before the completion test. *)
Definition completed_job (s : Stage) (es : list Element) (j : Job) : Job :=
  let j := foldl (complete_element a s) j es in
  mkJob (j_op j) (j_submitted j) (j_consumed j) (j_input j) (j_original j) (j_coefficients j)
    (j_output j) (j_fifo j)
    (if producesFifo (j_op j) s
     then <[outputQueue s := (j_reserved j (outputQueue s) - length es)%nat]> (j_reserved j)
     else j_reserved j)
    (<[stage_index s := (j_done j (stage_index s) + length es)%nat]> (j_done j)).

Lemma job_inv_fields j j' L fin :
  j_op j' = j_op j -> j_consumed j' = j_consumed j -> j_input j' = j_input j -> j_original j' = j_original j ->
  j_coefficients j' = j_coefficients j -> j_output j' = j_output j -> j_fifo j' = j_fifo j ->
  job_inv a j L fin -> job_inv a j' L fin.
Proof.
  intros E1 E2 E3 E4 E5 E6 E7 [H1 H2 H3 H4 H5 H6 H7 H8].
  split; unfold element_ok, original_at, coefficient_at in *; rewrite ?E1, ?E2, ?E3, ?E4, ?E5, ?E6, ?E7; done.
Qed.

Lemma completed_job_state log id t j k rest :
  t_job t = id -> t_elements t <> [] ->
  job_state log ((k, t) :: rest) id j ->
  let j' := completed_job (t_stage t) (t_elements t) j in
  j_op j' = j_op j /\ j_submitted j' = j_submitted j /\ length (j_input j') = length (j_original j') /\
  job_of log id j' /\
  applicable (j_op j) (t_stage t) = true /\
  (exists fin, job_inv a j' (in_tokens id rest) fin /\
    length fin = j_done j' (stage_index (last_stage (j_op j'))) /\
    (final_stage (j_op j) (t_stage t) = false -> (length fin < length (j_original j'))%nat)) /\
  (forall q, (q < 6)%nat -> j_reserved j' q = outstanding (j_op j') q (in_tokens id rest)) /\
  (forall q, (q < 6)%nat -> (used j' (in_tokens id rest) q <= F)%nat).
Proof.
  intros Ht Hne [Hof (fin & J & Hd & Hlt) Hr Hroom]. cbv zeta.
  set (s := t_stage t) in *. set (es := t_elements t) in *.
  rewrite in_tokens_cons, Ht, Z.eqb_refl in J, Hr, Hroom. fold s es in J, Hr, Hroom.
  destruct (complete_elements_same a s es j) as (Eo & Es & Ec & Eor & Eco & Er & Ed).
  pose proof (complete_elements_inv a s es j _ _ J) as (fin' & J' & Hl').
  assert (Happ : applicable (j_op j) s = true).
  { destruct es as [|e es']; [done|]. pose proof (ji_elements _ _ _ _ J) as He.
    rewrite Forall_forall in He. destruct (He (s, e)) as (_ & Ha & _); [|exact Ha].
    apply elem_of_app. right. left. }
  pose proof (ji_op _ _ _ _ J) as Hst.
  destruct (final_last (j_op j) s Hst Happ) as [Hfp Hfl].
  split; [exact Eo|]. split; [exact Es|].
  split; [cbn; rewrite Eor; rewrite (ji_input _ _ _ _ J'), Eor; done|].
  split.
  { destruct Hof as (r & inp & coef & H1 & H2 & H3 & H4 & H5). exists r, inp, coef.
    cbn. rewrite Es, Eo, Eor, Eco. done. }
  split; [done|]. split.
  { exists fin'. split; [eapply job_inv_fields; [..|exact J']; reflexivity|].
    cbn [completed_job j_op j_done j_original]. rewrite Eo, Eor, Ed.
    rewrite Hl'. destruct (producesFifo (j_op j) s) eqn:Hp; cbn [negb] in Hfp.
    - assert (last_stage (j_op j) <> s) as Nl by (intros E; symmetry in E; apply Hfl in E; congruence).
      rewrite fn_lookup_insert_ne by (intros E; by apply stage_index_inj in E). done.
    - assert (s = last_stage (j_op j)) as E by (apply Hfl; done). rewrite <- E in Hd |- *.
      rewrite fn_lookup_insert. split; [lia|]. rewrite Hfp. discriminate. }
  split.
  - intros q Hq. cbn [completed_job j_op j_reserved]. rewrite Eo, Er. specialize (Hr q Hq).
    rewrite outstanding_app, outstanding_token in Hr.
    destruct (producesFifo (j_op j) s) eqn:Hp; cbn [andb] in Hr; [|lia].
    destruct (Nat.eqb_spec (outputQueue s) q) as [<-|Nq].
    + rewrite fn_lookup_insert. lia.
    + rewrite fn_lookup_insert_ne by done. lia.
  - intros q Hq. specialize (Hroom q Hq).
    change (used (completed_job s es j) (in_tokens id rest) q)
      with (used (foldl (complete_element a s) j es) (in_tokens id rest) q).
    rewrite complete_elements_used. exact Hroom.
Qed.

Lemma in_tokens_other id k t rest :
  t_job t <> id -> in_tokens id ((k, t) :: rest) = in_tokens id rest.
Proof. intros Hn. rewrite in_tokens_cons, (proj2 (Z.eqb_neq _ _)) by done. reflexivity. Qed.

Lemma in_tokens_nil id pend kt :
  kt ∈ pend -> t_job kt.2 = id -> t_elements kt.2 <> [] -> in_tokens id pend <> [].
Proof.
  intros Hin Ht Hne. induction pend as [|[k t] pend IH]; [by apply elem_of_nil in Hin|].
  rewrite in_tokens_cons. apply elem_of_cons in Hin as [->|Hin].
  - cbn in Ht, Hne. rewrite Ht, Z.eqb_refl. cbn [t_elements] in Hne. destruct (t_elements t); [done|discriminate].
  - specialize (IH Hin). intros E%app_eq_nil. tauto.
Qed.

Lemma complete_inv log p k t rest now :
  pipeline_inv log p -> pending_ p = (k, t) :: rest ->
  exists p', SFUVectorPipeline_complete (set_pending p rest) t now = Ok p' /\
    pipeline_inv log p' /\ pending_ p' = rest.
Proof.
  intros I Ep. pose proof (pi_pending _ _ I) as Hpd. rewrite Ep in Hpd.
  apply Forall_cons in Hpd as [[[j Hj] Hne] Hrest]. cbn [snd] in Hj, Hne.
  destruct (job_lookup _ _ _ _ I Hj) as [Js Hin]. rewrite Ep in Js.
  destruct (completed_job_state log (t_job t) t j k rest eq_refl Hne Js)
    as (Eo & Es & Hli & Hof & Happ & (fin & J & Hd & Hlt) & Hr & Hroom).
  unfold SFUVectorPipeline_complete. cbn [jobs_ set_pending]. rewrite Hj.
  cbv zeta. cbn [arithmetic_ set_pending]. rewrite (pi_arith _ _ I).
  fold (completed_job (t_stage t) (t_elements t) j).
  set (j' := completed_job (t_stage t) (t_elements t) j) in *.
  assert (Others : forall id2 j2, (id2, j2) ∈ jobs_ p -> id2 <> t_job t -> job_state log rest id2 j2).
  { intros id2 j2 H2 Hne2. pose proof (pi_jobs _ _ I) as Hjs. rewrite Forall_forall in Hjs.
    specialize (Hjs (id2, j2) H2). cbn in Hjs. rewrite Ep in Hjs.
    eapply job_state_tokens; [|exact Hjs]. rewrite in_tokens_other by done. done. }
  match goal with |- context [if ?b then Ok ?x else Ok ?y] => destruct b eqn:Hb end.
  - apply andb_true_iff in Hb as [Hfin Hdn]. apply Nat.eqb_eq in Hdn.
    change (j_op (foldl (complete_element a (t_stage t)) j (t_elements t))) with (j_op j') in *.
    rewrite Eo in Hfin. pose proof (ji_op _ _ _ _ J) as Hst. rewrite Eo in Hst.
    destruct (final_last (j_op j) (t_stage t) Hst Happ) as [_ Hfl].
    apply Hfl in Hfin. rewrite Eo, <- Hfin in Hd.
    change (j_done j' (stage_index (t_stage t)) = length (j_input j')) in Hdn.
    destruct (finished_values log (t_job t) j' _ fin Hof J ltac:(lia)) as [Htok Hok].
    eexists. split; [reflexivity|]. split; [|reflexivity].
    destruct I as [I1 I2 I3 I4 I5 I6 I7 I8 I9 I10].
    split; cbn [arithmetic_ fifoElements_ sequence_ jobs_ pending_ completed_ fifoHighWater set_completed set_jobs set_pending]; try done.
    + apply Forall_forall. intros [id2 j2] H2. apply map_erase_elem in H2.
      rewrite Forall_forall in I5. by apply (I5 (id2, j2)).
    + eapply sublist_NoDup; [exact I6|apply map_erase_keys].
    + apply Forall_forall. intros [id2 j2] H2. cbn [fst snd]. apply Others; [by eapply map_erase_elem|].
      intros ->. apply (elem_map_at _ _ _) in H2; [|eapply sublist_NoDup; [exact I6|apply map_erase_keys]].
      rewrite map_at_erase_eq in H2 by done. discriminate.
    + apply Forall_forall. intros kt Hkt. rewrite Forall_forall in Hrest.
      destruct (Hrest kt Hkt) as [[j2 Hj2] Hne2]. split; [|done].
      destruct (decide (t_job kt.2 = t_job t)) as [E|Ne].
      * exfalso. by apply (in_tokens_nil (t_job t) rest kt).
      * rewrite map_at_erase_ne by done. eauto.
    + apply Forall_app. split; [done|]. apply Forall_singleton. by eapply completion_ok_cycle.
  - eexists. split; [reflexivity|]. split; [|reflexivity].
    assert (Nf : (length fin < length (j_original j'))%nat).
    { destruct (final_stage (j_op j) (t_stage t)) eqn:Hfs; [|by apply Hlt].
      change (j_op (foldl (complete_element a (t_stage t)) j (t_elements t))) with (j_op j') in Hb.
      rewrite Eo, Hfs in Hb. cbn [andb] in Hb. apply Nat.eqb_neq in Hb.
      change (j_done j' (stage_index (t_stage t)) <> length (j_input j')) in Hb.
      pose proof (ji_op _ _ _ _ J) as Hst. rewrite Eo in Hst.
      destruct (final_last (j_op j) (t_stage t) Hst Happ) as [_ Hfl].
      apply Hfl in Hfs. rewrite Eo, <- Hfs in Hd.
      pose proof (ji_perm _ _ _ _ J) as P. apply Permutation_length in P.
      rewrite length_app, length_seq in P. pose proof (ji_consumed _ _ _ _ J). lia. }
    eapply (replace_job log p _ (t_job t) j j'); try done.
    + apply (pi_highwater _ _ I).
    + split; [done| |done|done]. exists fin. done.
    + intros id2 Hne2. rewrite Ep. cbn [pending_ with_job set_jobs set_pending].
      rewrite in_tokens_other by done. done.
Qed.

Lemma complete_due_inv log now fuel : forall p,
  pipeline_inv log p -> exists p', complete_due fuel p now = Ok p' /\ pipeline_inv log p'.
Proof.
  induction fuel as [|fuel IH]; intros p I; cbn [complete_due]; [by exists p|].
  destruct (pending_ p) as [|[k t] rest] eqn:Ep; [by exists p|].
  destruct (k <=? now); [|by exists p].
  destruct (complete_inv log p k t rest k I Ep) as (p' & -> & I' & _). cbn [rbind]. by apply IH.
Qed.

(** ** A token issues *)

Definition candidate_ok (p : SFUVectorPipeline) (c : Z * Stage) : Prop :=
  exists j, map_at c.1 (jobs_ p) = Some j /\ applicable (j_op j) c.2 = true /\
    SFUVectorPipeline_available p j c.2 <> 0%nat.

Lemma issue_candidates_ok log p stages :
  pipeline_inv log p -> Forall (candidate_ok p) (issue_candidates p stages).
Proof.
  intros I. unfold issue_candidates. apply Forall_concat. apply Forall_forall. intros l Hl.
  apply list_elem_of_In, in_map_iff in Hl. destruct Hl as ([id j] & <- & Hin).
  apply list_elem_of_In in Hin. apply Forall_forall. intros c Hc.
  apply list_elem_of_In, in_map_iff in Hc. destruct Hc as (s & <- & Hs).
  apply list_elem_of_In, list_elem_of_filter in Hs as [Hs _]. apply Is_true_true in Hs. boolify.
  exists j. cbn [fst snd]. split; [by apply elem_map_at; [apply (pi_nodup _ _ I)|]|]. split; [done|].
  by apply Nat.eqb_neq.
Qed.

Lemma rotate_after_Forall P cursor cs : Forall P cs -> Forall P (rotate_after cursor cs).
Proof.
  intros Hf. unfold rotate_after.
  assert (forall cs, (split_after cursor cs).1 ++ (split_after cursor cs).2 = cs) as E.
  { intros l. induction l as [|c l IH]; [done|]. cbn [split_after]. destruct (cursor <? ticket c); [done|].
    destruct (split_after cursor l). cbn in *. by rewrite IH. }
  specialize (E cs). destruct (split_after cursor cs) as [b r]. cbn in E. subst cs.
  apply Forall_app in Hf. apply Forall_app. tauto.
Qed.

Lemma available_supply log pend id p j s :
  job_state log pend id j -> (SFUVectorPipeline_available p j s <= stage_supply j s)%nat.
Proof.
  intros [_ (fin & J & _) _ _]. unfold SFUVectorPipeline_available, stage_supply.
  rewrite (ji_input _ _ _ _ J). destruct (source_stage s); [lia|]. case_if; lia.
Qed.

(** The job after [count] elements left for a token. *)
Definition issued_job (j : Job) (s : Stage) (count : nat) : Job :=
  let j1 := (take_elements j s count).1 in
  if producesFifo (j_op j1) s then set_reserved j1 (outputQueue s) (j_reserved j1 (outputQueue s) + count)%nat
  else j1.

Lemma issued_job_state log pend pend' id j s count k :
  job_state log pend id j -> applicable (j_op j) s = true -> (count <= stage_supply j s)%nat ->
  (producesFifo (j_op j) s = true ->
     (length (j_fifo j (outputQueue s)) + j_reserved j (outputQueue s) + count <= F)%nat) ->
  pend' ≡ₚ (k, mkToken id s (take_elements j s count).2) :: pend ->
  job_state log pend' id (issued_job j s count) /\
  length (take_elements j s count).2 = count /\
  (producesFifo (j_op j) s = true ->
     (length (j_fifo (issued_job j s count) (outputQueue s)) +
      j_reserved (issued_job j s count) (outputQueue s) <= F)%nat).
Proof.
  intros Js Ha Hc Hroom HP.
  assert (Ht : in_tokens id pend' ≡ₚ map (pair s) (take_elements j s count).2 ++ in_tokens id pend).
  { rewrite (in_tokens_perm _ _ _ HP), in_tokens_cons. cbn [t_job t_stage t_elements]. by rewrite Z.eqb_refl. }
  destruct Js as [Hof (fin & J & Hd & Hlt) Hr Hu].
  pose proof (take_elements_inv a s count j _ fin J Ha Hc) as T.
  pose proof (take_elements_same s count j) as Sm. pose proof (take_elements_fifo s count j) as Tf. cbv zeta in Sm.
  unfold issued_job. destruct (take_elements j s count) as [j1 es]. cbn [fst snd] in *.
  destruct T as [J1 Hes]. destruct Sm as (Eo & Es & Eor & Eco & Er & Ed).
  set (j2 := if producesFifo (j_op j1) s then _ else _).
  assert (E2 : j_op j2 = j_op j /\ j_submitted j2 = j_submitted j /\ j_original j2 = j_original j /\
    j_coefficients j2 = j_coefficients j /\ j_done j2 = j_done j /\ j_fifo j2 = j_fifo j1 /\
    j_reserved j2 = if producesFifo (j_op j) s
                    then <[outputQueue s := (j_reserved j (outputQueue s) + count)%nat]> (j_reserved j) else j_reserved j).
  { unfold j2. rewrite Eo. destruct (producesFifo (j_op j) s); cbn; rewrite ?Eo, ?Er; done. }
  destruct E2 as (Eo2 & Es2 & Eor2 & Eco2 & Ed2 & Ef2 & Er2).
  split; [|split; [done|]].
  - split.
    + destruct Hof as (r & inp & coef & H1 & H2 & H3 & H4 & H5). exists r, inp, coef.
      rewrite Es2, Eo2, Eor2, Eco2. done.
    + exists fin. rewrite Eo2, Ed2, Eor2. split; [|done].
      eapply job_inv_perm; [symmetry; exact Ht|done|].
      eapply job_inv_fields; [..|exact J1]; unfold j2; destruct (producesFifo (j_op j1) s); done.
    + intros q Hq. rewrite Eo2, (outstanding_perm _ _ _ _ Ht), outstanding_app, outstanding_token, Er2.
      rewrite <- Hr by done.
      destruct (producesFifo (j_op j) s); cbn [andb]; [|done].
      destruct (Nat.eqb_spec (outputQueue s) q) as [<-|Nq]; [rewrite fn_lookup_insert; lia|].
      by rewrite fn_lookup_insert_ne.
    + intros q Hq. unfold used. rewrite Ef2, Eo2, (outstanding_perm _ _ _ _ Ht), outstanding_app, outstanding_token.
      specialize (Hu q Hq). unfold used in Hu. specialize (Tf q).
      destruct (producesFifo (j_op j) s) eqn:Hp; cbn [andb]; [|lia].
      destruct (Nat.eqb_spec (outputQueue s) q) as [<-|Nq]; [|lia].
      specialize (Hroom eq_refl). rewrite Hr in Hroom by done. lia.
  - intros Hp. rewrite Ef2, Er2, Hp, fn_lookup_insert. specialize (Hroom Hp). specialize (Tf (outputQueue s)). lia.
Qed.

Lemma issue_loop_inv log res now cs : forall p,
  pipeline_inv log p -> Forall (candidate_ok p) cs ->
  exists p' i, issue_loop p res now cs = Ok (p', i) /\ pipeline_inv log p'.
Proof.
  induction cs as [|[id s] cs IH]; intros p I Hcs; cbn [issue_loop]; [by exists p, None|].
  apply Forall_cons in Hcs as [(j & Hj & Ha & Hav) Hcs]. cbn [fst snd] in *. rewrite Hj.
  destruct (job_lookup _ _ _ _ I Hj) as [Js Hin]. cbv zeta.
  set (count := SFUVectorPipeline_available p j s) in *.
  destruct (producesFifo (j_op j) s && _) eqn:Hb.
  - apply IH; [|exact Hcs].
    eapply pipeline_inv_eq; [exact I|reflexivity..|apply (pi_completed _ _ I)|reflexivity].
  - destruct (TensorHardwarePipeline_reserve (resource_of p res) now true) as [h [done_|]].
    2:{ eexists _, _. split; [reflexivity|].
        eapply pipeline_inv_eq; [exact I|reflexivity..|apply (pi_completed _ _ I)|reflexivity]. }
    assert (Hroom : producesFifo (j_op j) s = true ->
      (length (j_fifo j (outputQueue s)) + j_reserved j (outputQueue s) + count <= F)%nat).
    { intros Hp. rewrite Hp in Hb. cbn [andb] in Hb. apply Nat.ltb_ge in Hb.
      rewrite (pi_fifo _ _ I) in Hb. exact Hb. }
    destruct (issued_job_state log (pending_ p) (multimap_emplace done_ (mkToken id s (take_elements j s count).2) (pending_ p))
      id j s count done_ Js Ha (available_supply _ _ _ p _ _ Js) Hroom (multimap_emplace_perm _ _ _)) as (Js' & Hlen & Hhw).
    unfold issued_job in *.
    destruct (take_elements j s count) as [j1 es] eqn:Et. cbn [fst snd] in *.
    pose proof (take_elements_same s count j) as Sm. cbv zeta in Sm. rewrite Et in Sm. cbn [fst] in Sm.
    destruct Sm as (Eo & _).
    set (jn := if producesFifo (j_op j1) s then _ else _) in *.
    assert (En : j_op jn = j_op j) by (unfold jn; case_if; exact Eo).
    rewrite !En. clearbody jn. clear Hb.
    destruct (producesFifo (j_op j) s) eqn:Hp; (eexists _, _; split; [reflexivity|]);
      (eapply (replace_job log p _ id j jn); [done|exact Hj|destruct res; reflexivity..| | | |]).
    all: cbn [pending_ set_cursor set_resources set_pending].
    + pose proof (pi_highwater _ _ I). specialize (Hhw eq_refl).
      assert (Q : Z.max (fifoHighWater p) (Z.of_nat (length (j_fifo jn (outputQueue s)) +
                    j_reserved jn (outputQueue s))) <= Z.of_nat F) by lia.
      destruct res; exact Q.
    + exact Js'.
    + intros id2 Hne. rewrite (in_tokens_perm _ _ _ (multimap_emplace_perm _ _ _)), in_tokens_other by (cbn; congruence).
      destruct res; done.
    + rewrite multimap_emplace_perm. apply Forall_cons. split; [|destruct res; apply (pi_pending _ _ I)].
      cbn. split; [eauto|]. intros ->. cbn in Hlen. lia.
    + pose proof (pi_highwater _ _ I) as Q. destruct res; exact Q.
    + exact Js'.
    + intros id2 Hne. rewrite (in_tokens_perm _ _ _ (multimap_emplace_perm _ _ _)), in_tokens_other by (cbn; congruence).
      destruct res; done.
    + rewrite multimap_emplace_perm. apply Forall_cons. split; [|destruct res; apply (pi_pending _ _ I)].
      cbn. split; [eauto|]. intros ->. cbn in Hlen. lia.
Qed.

Lemma issueResource_inv log p res now stages :
  pipeline_inv log p ->
  exists p' i, SFUVectorPipeline_issueResource p res now stages = Ok (p', i) /\ pipeline_inv log p'.
Proof.
  intros I. unfold SFUVectorPipeline_issueResource. case_if; [by exists p, None|].
  apply issue_loop_inv; [done|]. apply rotate_after_Forall. by eapply issue_candidates_ok.
Qed.

Lemma step_inv log p now :
  pipeline_inv log p ->
  exists p' issues, SFUVectorPipeline_step p now = Ok (p', issues) /\ pipeline_inv log p'.
Proof.
  intros I. unfold SFUVectorPipeline_step. cbv zeta.
  set (p0 := set_resources _ _ _ _ _ _ _).
  assert (I0 : pipeline_inv log p0)
    by (eapply pipeline_inv_eq; [exact I|reflexivity..|apply (pi_completed _ _ I)|reflexivity]).
  destruct (complete_due_inv log now (length (pending_ p0)) p0 I0) as (p1 & -> & I1). cbn [rbind].
  destruct (issueResource_inv log p1 RVector now vector_stages I1) as (p2 & i1 & -> & I2). cbn [rbind].
  destruct (issueResource_inv log p2 RExp now [SExp] I2) as (p3 & i2 & -> & I3). cbn [rbind].
  destruct (issueResource_inv log p3 RReciprocal now [SReciprocal] I3) as (p4 & i3 & -> & I4). cbn [rbind].
  eexists _, _. split; [reflexivity|done].
Qed.
End pipeline.

(** ** Submission and reachability *)

Section refinement.
Context `{Libm}.
Context (a : SFUArithmetic) (F : nat).
Notation submissions := (list (Z * (SFUVectorRequest * Z))).

Lemma job_state_log log x pend id j : job_state a F log pend id j -> job_state a F (x :: log) pend id j.
Proof.
  intros [(r & inp & coef & Hl & Hrest) H2 H3 H4]. split; try done.
  exists r, inp, coef. split; [by right|done].
Qed.

Lemma completion_ok_log log x c : completion_ok a log c -> completion_ok a (x :: log) c.
Proof. intros (r & Hl & Hrest). exists r. split; [by right|done]. Qed.

Lemma in_tokens_fresh id pend : Forall (fun kt => t_job kt.2 <> id) pend -> in_tokens id pend = [].
Proof.
  induction 1 as [|[k t] pend Ht Hp IH]; [done|]. by rewrite in_tokens_other.
Qed.

(** The job [submit] creates. *)
Lemma new_job_state log pend r inp coef now id :
  submitted_request r inp coef -> in_tokens id pend = [] ->
  job_state a F ((id, (r, now)) :: log) pend id
    (mkJob (op r) now 0 (map vectorFp16Value inp) (map vectorFp16Value inp)
       (if bool_decide (op r = Silu) then [] else map vectorFp16Value coef)
       (replicate (length inp) (S754_zero false)) (fun _ => []) (fun _ => O) (fun _ => O)).
Proof.
  intros Hs Ht. split; rewrite ?Ht.
  - exists r, inp, coef. split; [left|done].
  - exists []. pose proof Hs as ((_ & _ & _ & Hne & _) & Hst & _). split.
    + split; cbn [j_op j_input j_original j_output j_consumed j_fifo]; try done.
      * by rewrite length_replicate, length_map.
      * lia.
      * intros i Hi. unfold original_at. cbn [j_original].
        destruct (lookup_lt_is_Some_2 (map vectorFp16Value inp) i) as [x ->]; [lia|done].
    + cbn. split; [done|]. rewrite length_map. destruct inp; [done|cbn; lia].
  - intros q Hq. reflexivity.
  - intros q Hq. cbn. lia.
Qed.

Lemma submit_inv log p r now id p' :
  pipeline_inv a F log p -> 0 <= rowWidth r -> sequence_ p + 1 < 2 ^ 64 ->
  SFUVectorPipeline_submit p r now true = (p', Some id) ->
  pipeline_inv a F ((id, (r, now)) :: log) p'.
Proof.
  intros I Hw Hq E. unfold SFUVectorPipeline_submit in E.
  destruct (input r) as [inp|] eqn:Ei; [|discriminate].
  destruct (coefficients r) as [coef|] eqn:Ec; [|discriminate].
  match type of E with (if ?b then _ else _) = _ => destruct b eqn:Hb end; [discriminate|].
  boolify. cbv zeta in E. injection E as <- <-.
  assert (Hs : submitted_request r inp coef).
  { split; [|split]; [|done|].
    - repeat split; try done; [lia|]. intros ->. done.
    - intros Hne. rewrite bool_decide_false in * by done. cbn [negb andb] in *.
      destruct (length coef =? length inp)%nat eqn:El; [by apply Nat.eqb_eq|discriminate]. }
  destruct I as [I1 I2 I3 I4 I5 I6 I7 I8 I9 I10].
  assert (u64 (sequence_ p + 1) = sequence_ p + 1) as -> by (apply u64_id; unfold in_u64; lia).
  set (id := sequence_ p + 1) in *. set (job := mkJob _ _ _ _ _ _ _ _ _ _).
  assert (Hkeys : Forall (fun kv => kv.1 < id) (jobs_ p)) by (eapply Forall_impl; [exact I5|]; intros; cbn in *; lia).
  assert (Hfresh : map_at id (jobs_ p) = None).
  { apply map_at_None. eapply Forall_impl; [exact Hkeys|]. intros. cbn in *. lia. }
  assert (Ht : in_tokens id (pending_ p) = []).
  { apply in_tokens_fresh. eapply Forall_impl; [exact I8|]. intros kt [[j Hj] _] E. rewrite E in Hj. congruence. }
  rewrite map_emplace_last by done.
  split; cbn [arithmetic_ fifoElements_ sequence_ jobs_ pending_ completed_ fifoHighWater set_jobs set_counters]; try done.
  - lia.
  - apply Forall_cons. split; [cbn; lia|]. eapply Forall_impl; [exact I4|]. intros. cbn in *. lia.
  - apply Forall_app. split; [|by apply Forall_singleton].
    eapply Forall_impl; [exact Hkeys|]. intros. cbn in *. lia.
  - rewrite map_app. apply NoDup_app. split; [done|]. split; [|apply NoDup_singleton].
    intros k Hk1 Hk2. cbn in Hk2. apply list_elem_of_singleton in Hk2 as ->.
    apply list_elem_of_In, in_map_iff in Hk1. destruct Hk1 as ([k j] & E & Hin). cbn in E. subst k.
    apply list_elem_of_In in Hin. rewrite Forall_forall in Hkeys. specialize (Hkeys _ Hin). cbn in Hkeys. lia.
  - apply Forall_app. split.
    + eapply Forall_impl; [exact I7|]. intros kv Hkv. by apply job_state_log.
    + apply Forall_singleton. cbn [fst snd]. by apply new_job_state.
  - eapply Forall_impl; [exact I8|]. intros kt [[j Hj] Hne]. split; [|done].
    rewrite map_at_app, Hj. eauto.
  - eapply Forall_impl; [exact I9|]. intros c Hc. by apply completion_ok_log.
Qed.

(** Runs of the pipeline.  [log] records the accepted submissions and [out] the
    completions taken so far; between the calls other users of the three shared
    resources may change them arbitrarily. *)
Inductive pipeline_reach (p0 : SFUVectorPipeline) :
    SFUVectorPipeline -> submissions -> list Completion -> Prop :=
| reach_init : pipeline_reach p0 p0 [] []
| reach_submit p log out r now id p' :
    pipeline_reach p0 p log out -> 0 <= rowWidth r -> sequence_ p + 1 < 2 ^ 64 ->
    SFUVectorPipeline_submit p r now true = (p', Some id) ->
    pipeline_reach p0 p' ((id, (r, now)) :: log) out
| reach_step p log out now p' issues :
    pipeline_reach p0 p log out -> SFUVectorPipeline_step p now = Ok (p', issues) ->
    pipeline_reach p0 p' log out
| reach_take p log out p' cs :
    pipeline_reach p0 p log out -> SFUVectorPipeline_takeCompleted p = (p', cs) ->
    pipeline_reach p0 p' log (out ++ cs)
| reach_resources p log out v e r :
    pipeline_reach p0 p log out ->
    pipeline_reach p0 (set_resources p v e r (vectorCursor_ p) (expCursor_ p) (reciprocalCursor_ p)) log out.

Lemma reach_inv p0 p log out :
  pipeline_inv a F [] p0 -> pipeline_reach p0 p log out ->
  pipeline_inv a F log p /\ Forall (completion_ok a log) out.
Proof.
  intros I0. induction 1 as [|p log out r now id p' _ [IH1 IH2] Hw Hs E|p log out now p' iss _ [IH1 IH2] E
    |p log out p' cs _ [IH1 IH2] E|p log out v e r _ [IH1 IH2]].
  - split; [done|by apply Forall_nil].
  - split; [by eapply submit_inv|]. eapply Forall_impl; [exact IH2|]. intros c. apply completion_ok_log.
  - destruct (step_inv a F log p now IH1) as (p2 & is2 & E2 & I2). rewrite E in E2. injection E2 as -> ->. done.
  - injection E as <- <-. split.
    + eapply pipeline_inv_eq; [exact IH1|reflexivity..|by apply Forall_nil|reflexivity].
    + apply Forall_app. split; [done|apply IH1].
  - split; [|done]. eapply pipeline_inv_eq; [exact IH1|reflexivity..|apply (pi_completed _ _ _ _ IH1)|reflexivity].
Qed.
End refinement.

Section claims.
Context `{Libm}.

Lemma new_inv vector exp reciprocal vl el fe mr me precision rl backend p0 :
  SFUVectorPipeline_new vector exp reciprocal vl el fe mr me precision rl backend = Ok p0 ->
  pipeline_inv (arithmetic_ p0) (fifoElements_ p0) [] p0.
Proof.
  intros E. apply rbind_Ok in E as (ar & Ea & E). case_if_in E; [discriminate|]. injection E as <-.
  split; cbn; try done; try lia; try by apply Forall_nil. apply NoDup_nil_2.
Qed.
(** C1: the streaming pipeline refines the functional reference.  In every run of a
    constructed pipeline (any lane counts, latencies and FIFO depth, any
    interleaving of requests, any interference of other clients on the shared
    resources), every completion answers a submitted request and its values are
    exactly the vector [evaluateSFUVectorOp] computes for that request. *)
Theorem vector_pipeline_refines_reference vector exp reciprocal vl el fe mr me precision rl backend p0 p log out :
  SFUVectorPipeline_new vector exp reciprocal vl el fe mr me precision rl backend = Ok p0 ->
  pipeline_reach p0 p log out ->
  forall c, c ∈ out ++ completed_ p ->
  exists r, (completion_job c, (r, completion_submitted c)) ∈ log /\ completion_op c = op r /\
    forall tree, evaluateSFUVectorOp (arithmetic_ p0) r true tree = Ok (Some (completion_values c)).
Proof.
  intros E R c Hc. destruct (reach_inv _ _ _ _ _ _ (new_inv _ _ _ _ _ _ _ _ _ _ _ _ E) R) as [I Ho].
  apply elem_of_app in Hc as [Hc|Hc].
  - rewrite Forall_forall in Ho. exact (Ho c Hc).
  - pose proof (pi_completed _ _ _ _ I) as Hf. rewrite Forall_forall in Hf. exact (Hf c Hc).
Qed.
(** C5: the pipeline never fails and never overruns a FIFO.  In every reachable state
    a step at any cycle succeeds (no token refers to a missing request), every FIFO
    together with the credits reserved for tokens in flight stays within
    [fifoElements_], the reserved credits are exactly the elements in flight towards
    the FIFO (so their subtraction cannot wrap), and the reported high-water mark
    is within the capacity. *)
Theorem vector_pipeline_safe vector exp reciprocal vl el fe mr me precision rl backend p0 p log out :
  SFUVectorPipeline_new vector exp reciprocal vl el fe mr me precision rl backend = Ok p0 ->
  pipeline_reach p0 p log out ->
  (forall now, exists p' issues, SFUVectorPipeline_step p now = Ok (p', issues)) /\
  fifoHighWater p <= Z.of_nat (fifoElements_ p0) /\
  forall id j q, map_at id (jobs_ p) = Some j -> (q < 6)%nat ->
    (length (j_fifo j q) + j_reserved j q <= fifoElements_ p0)%nat /\
    j_reserved j q = outstanding (j_op j) q (in_tokens id (pending_ p)).
Proof.
  intros E R. destruct (reach_inv _ _ _ _ _ _ (new_inv _ _ _ _ _ _ _ _ _ _ _ _ E) R) as [I _].
  split; [|split].
  - intros now. destruct (step_inv _ _ _ _ now I) as (p' & iss & Es & _). eauto.
  - apply (pi_highwater _ _ _ _ I).
  - intros id j q Hj Hq. destruct (job_lookup _ _ _ _ _ _ I Hj) as [[_ _ Hr Hu] _].
    specialize (Hr q Hq). specialize (Hu q Hq). unfold used in Hu. rewrite Hr. done.
Qed.
End claims.

(** ** Round-robin tickets *)

Lemma ticket_collision job :
  0 <= job -> job * 7 + 7 < 2 ^ 64 -> ticket (job, SGateMultiply) = ticket (job + 1, SNegate).
Proof. intros H0 H1. unfold ticket. cbn [fst snd stage_index Z.of_nat]. unwrap. lia. Qed.

Lemma rotate_keeps_tied cursor l1 x y l2 :
  ticket x = ticket y ->
  exists m1 m2, rotate_after cursor (l1 ++ x :: y :: l2) = m1 ++ x :: y :: m2 /\
    (forall z, z ∈ m1 -> z ∈ l1 \/ z ∈ l2).
Proof.
  intros Ht. unfold rotate_after.
  assert (S : exists b r, split_after cursor (l1 ++ x :: y :: l2) = (b, r) /\
    ((exists b2, b = l1 ++ x :: y :: b2 /\ b2 ++ r = l2) \/ (exists r1, r = r1 ++ x :: y :: l2 /\ b ++ r1 = l1))).
  { clear -Ht. induction l1 as [|z l1 IH]; cbn [app split_after].
    - destruct (cursor <? ticket x) eqn:Ex; [do 2 eexists; split; [done|]; right; exists []; done|].
      rewrite <- Ht, Ex.
      assert (exists b r, split_after cursor l2 = (b, r) /\ b ++ r = l2) as (b & r & -> & E).
      { induction l2 as [|w l2 IH]; [by exists [], []|]. cbn [split_after].
        destruct (cursor <? ticket w); [by exists [], (w :: l2)|].
        destruct IH as (b & r & -> & <-). by exists (w :: b), r. }
      do 2 eexists. split; [done|]. left. by exists b.
    - destruct (cursor <? ticket z); [do 2 eexists; split; [done|]; right; by exists (z :: l1)|].
      destruct IH as (b & r & -> & [(b2 & -> & E)|(r1 & -> & E)]); do 2 eexists; (split; [done|]).
      + left. by exists b2.
      + right. exists r1. cbn [app]. by rewrite E. }
  destruct S as (b & r & -> & [(b2 & -> & E)|(r1 & -> & E)]).
  - exists (r ++ l1), b2. split; [by rewrite <- app_assoc|].
    intros z. rewrite elem_of_app, <- E, elem_of_app. tauto.
  - exists r1, (l2 ++ b). split; [by rewrite <- app_assoc|].
    intros z Hz. left. rewrite <- E. apply elem_of_app. by right.
Qed.

(** The loop never looks past a stage that needs no FIFO space. *)
Lemma issue_loop_stops res now m1 x m2 : forall p p' i,
  (forall o, producesFifo o x.2 = false) ->
  issue_loop p res now (m1 ++ x :: m2) = Ok (p', Some i) ->
  (issue_job i, issue_stage i) ∈ m1 ++ [x].
Proof.
  induction m1 as [|[id s] m1 IH]; intros p p' i Hx E; cbn [app] in *; [destruct x as [id s]; cbn [snd] in Hx|];
    cbn [issue_loop] in E; (destruct (map_at id (jobs_ p)) as [j|]; [|discriminate]); cbv zeta in E.
  - rewrite Hx in E. cbn [andb] in E.
    destruct (TensorHardwarePipeline_reserve _ _ _) as [h [d|]]; [|discriminate].
    destruct (take_elements _ _ _) as [j1 es]. injection E as _ <-. left.
  - case_if_in E; [right; by eapply IH|].
    destruct (TensorHardwarePipeline_reserve _ _ _) as [h [d|]]; [|discriminate].
    destruct (take_elements _ _ _) as [j1 es]. injection E as _ <-. left.
Qed.
(** *** The requests stay in the order of their identifiers *)

Definition jobs_sorted (p : SFUVectorPipeline) : Prop := StronglySorted Z.lt (map fst (jobs_ p)).

Lemma sorted_sublist (l l' : list Z) : l `sublist_of` l' -> StronglySorted Z.lt l' -> StronglySorted Z.lt l.
Proof.
  induction 1 as [|x l l' H IH|x l l' H IH]; intros S; [constructor| |]; apply StronglySorted_inv in S as [S F]; [|by apply IH].
  constructor; [by apply IH|]. rewrite Forall_forall in *. intros y Hy. by apply F, (elem_of_submseteq l), sublist_submseteq.
Qed.
Lemma sorted_emplace k (v : Job) m : StronglySorted Z.lt (map fst m) -> StronglySorted Z.lt (map fst (map_emplace k v m)).
Proof.
  induction m as [|[k' v'] m IH]; intros S; [repeat constructor|]. cbn [map_emplace]. cbn [map fst] in S.
  apply StronglySorted_inv in S as S'. destruct S' as [S' F].
  destruct (Z.ltb_spec k k').
  - cbn [map fst]. constructor; [done|]. constructor; [done|]. eapply Forall_impl; [exact F|]. cbn. lia.
  - destruct (Z.eqb_spec k k') as [|Hne]; [done|]. cbn [map fst]. constructor; [by apply IH|].
    clear -F Hne H. induction m as [|[k2 v2] m IH]; cbn [map_emplace map fst] in *; [constructor; [lia|constructor]|].
    apply Forall_cons in F as [F1 F]. case_match; cbn [map fst]; [constructor; [lia|by constructor]|].
    case_match; cbn [map fst]; constructor; auto.
Qed.
Lemma sorted_keys (p p' : SFUVectorPipeline) : map fst (jobs_ p') = map fst (jobs_ p) -> jobs_sorted p -> jobs_sorted p'.
Proof. unfold jobs_sorted. by intros ->. Qed.

Lemma submit_sorted p r now b : jobs_sorted p -> jobs_sorted (SFUVectorPipeline_submit p r now b).1.
Proof.
  intros S. unfold SFUVectorPipeline_submit. destruct (input r); [|done]. destruct (coefficients r); [|done].
  case_match; [done|]. cbv zeta. cbn [fst]. unfold jobs_sorted. cbn [jobs_ set_jobs]. by apply sorted_emplace.
Qed.
Lemma issue_loop_sorted res now cs : forall p p' i, issue_loop p res now cs = Ok (p', i) -> jobs_sorted p -> jobs_sorted p'.
Proof.
  induction cs as [|[id s] cs IH]; intros p p' i E S; cbn [issue_loop] in E; [by injection E as <- _|].
  destruct (map_at id (jobs_ p)) as [j|]; [|discriminate]. cbv zeta in E. case_if_in E; [by eapply IH|].
  destruct (TensorHardwarePipeline_reserve _ _ _) as [h [d|]]; [|by injection E as <- _].
  destruct (take_elements _ _ _) as [j1 es]. injection E as <- _. eapply sorted_keys; [|exact S].
  set (x := if producesFifo (j_op j1) s then _ else j1). clearbody x.
  unfold with_job. destruct (producesFifo (j_op x) s), res; cbn; apply map_set_keys.
Qed.
Lemma issueResource_sorted p res now stages p' i :
  SFUVectorPipeline_issueResource p res now stages = Ok (p', i) -> jobs_sorted p -> jobs_sorted p'.
Proof.
  unfold SFUVectorPipeline_issueResource. case_if; [by intros [= <- _]|]. apply issue_loop_sorted.
Qed.

(** The loop issues one of its candidates, at its own resource. *)
Lemma issue_loop_candidate res now cs : forall p p' i,
  issue_loop p res now cs = Ok (p', Some i) -> (issue_job i, issue_stage i) ∈ cs.
Proof.
  induction cs as [|[id s] cs IH]; intros p p' i E; cbn [issue_loop] in E; [discriminate|].
  destruct (map_at id (jobs_ p)) as [j|]; [|discriminate]. cbv zeta in E. case_if_in E; [right; by eapply IH|].
  destruct (TensorHardwarePipeline_reserve _ _ _) as [h [d|]]; [|discriminate].
  destruct (take_elements _ _ _) as [j1 es]. injection E as _ <-. left.
Qed.
Lemma rotate_after_elem cursor cs c : c ∈ rotate_after cursor cs -> c ∈ cs.
Proof.
  intros H. pose proof (rotate_after_Forall (fun x => x ∈ cs) cursor cs) as F. rewrite !Forall_forall in F. by apply (F (fun x Hx => Hx)).
Qed.
Lemma issueResource_candidate p res now stages p' i :
  SFUVectorPipeline_issueResource p res now stages = Ok (p', Some i) -> (issue_job i, issue_stage i) ∈ issue_candidates p stages.
Proof.
  unfold SFUVectorPipeline_issueResource. case_if; [discriminate|]. intros E. by eapply rotate_after_elem, issue_loop_candidate.
Qed.
Lemma candidate_inv p stages id s : (id, s) ∈ issue_candidates p stages ->
  s ∈ stages /\ exists j, (id, j) ∈ jobs_ p /\ applicable (j_op j) s && negb (SFUVectorPipeline_available p j s =? 0)%nat = true.
Proof.
  unfold issue_candidates. intros H. apply list_elem_of_In, in_concat in H as (l & Hl & H). apply in_map_iff in Hl as ([id' j] & <- & Hj).
  apply in_map_iff in H as (s' & [= -> ->] & Hs). apply list_elem_of_In, list_elem_of_filter in Hs as [Hs Hin].
  split; [done|]. exists j. split; [by apply list_elem_of_In|]. by apply Is_true_true.
Qed.

(** *** The tied stages stand next to each other *)

(** Request [job] has a gate multiplication to issue. *)
Definition gate_work (p : SFUVectorPipeline) (job : Z) : Prop :=
  exists j, map_at job (jobs_ p) = Some j /\ applicable (j_op j) SGateMultiply = true /\
    SFUVectorPipeline_available p j SGateMultiply <> 0%nat.

(** The candidates request by request. *)
Definition stage_ready (p : SFUVectorPipeline) (j : Job) (s : Stage) : bool :=
  applicable (j_op j) s && negb (SFUVectorPipeline_available p j s =? 0)%nat.
Lemma candidates_app p js js' stages :
  issue_candidates (set_jobs p (js ++ js')) stages = issue_candidates (set_jobs p js) stages ++ issue_candidates (set_jobs p js') stages.
Proof. unfold issue_candidates. cbn [jobs_ set_jobs]. by rewrite map_app, concat_app. Qed.
Lemma candidates_cons p id j js stages :
  issue_candidates (set_jobs p ((id, j) :: js)) stages =
  map (fun s => (id, s)) (filter (fun s => Is_true (stage_ready p j s)) stages) ++ issue_candidates (set_jobs p js) stages.
Proof. done. Qed.

Lemma next_request job (j j' : Job) m1 m2 :
  StronglySorted Z.lt (map fst (m1 ++ (job, j) :: m2)) -> (job + 1, j') ∈ m1 ++ (job, j) :: m2 ->
  exists m3, m2 = (job + 1, j') :: m3 /\ (forall x, x ∈ m1 -> x.1 < job) /\ (forall x, x ∈ m3 -> job + 1 < x.1).
Proof.
  rewrite map_app. cbn [map fst]. intros S H. apply StronglySorted_app in S as (S0 & S1 & S2).
  assert (F1 : forall x, x ∈ m1 -> x.1 < job) by (intros x Hx; apply S0; [by apply (list_elem_of_fmap_2 fst)|by left]).
  apply StronglySorted_inv in S2 as [S2 F2]. apply elem_of_app in H as [H|H]; [apply F1 in H; cbn in H; lia|].
  apply elem_of_cons in H as [[= H _]|H]; [lia|].
  destruct m2 as [|[k v] m3]; [by apply not_elem_of_nil in H|]. cbn [map fst] in *. apply Forall_cons in F2 as [F2 F3].
  apply StronglySorted_inv in S2 as [S2 F4]. rewrite Forall_forall in F4.
  apply elem_of_cons in H as [H|H].
  - injection H as <- <-. exists m3. split; [done|]. split; [done|]. intros x Hx. apply F4. by apply (list_elem_of_fmap_2 fst).
  - pose proof (F4 _ (list_elem_of_fmap_2 fst _ _ H)). cbn in *. lia.
Qed.

(** Of a request with gate work that stage is the last candidate, of the next one [Negate] the first. *)
Lemma candidates_tied p job :
  jobs_sorted p -> gate_work p job -> (job + 1, SNegate) ∈ issue_candidates p vector_stages ->
  exists l1 l2, issue_candidates p vector_stages = l1 ++ (job, SGateMultiply) :: (job + 1, SNegate) :: l2 /\
    (job + 1, SNegate) ∉ l1 /\ (job + 1, SNegate) ∉ l2.
Proof.
  intros S (j & Hj & Ha & Hv) Hc. apply candidate_inv in Hc as (_ & j' & Hj' & Hn).
  destruct (map_at_split _ _ _ Hj) as (m1 & m2 & Em). unfold jobs_sorted in S. rewrite Em in S, Hj'.
  destruct (next_request _ _ _ _ _ S Hj') as (m3 & -> & F1 & F3).
  assert (Ep : forall stages, issue_candidates p stages = issue_candidates (set_jobs p (jobs_ p)) stages) by done.
  rewrite Ep, Em, candidates_app, !candidates_cons.
  set (f := stage_ready p j). set (f' := stage_ready p j').
  assert (G : filter (fun x => Is_true (f x)) vector_stages =
    filter (fun x => Is_true (f x)) [SNegate; STailMultiply; SAddOne; SMultiply; SDirect] ++ [SGateMultiply]).
  { change vector_stages with ([SNegate; STailMultiply; SAddOne; SMultiply; SDirect] ++ [SGateMultiply]).
    rewrite filter_app. f_equal. rewrite filter_cons_True; [done|]. apply Is_true_true. unfold f, stage_ready. rewrite Ha. apply negb_true_iff. by apply Nat.eqb_neq. }
  assert (N : filter (fun x => Is_true (f' x)) vector_stages = SNegate :: filter (fun x => Is_true (f' x)) [STailMultiply; SAddOne; SMultiply; SDirect; SGateMultiply]).
  { unfold vector_stages. rewrite filter_cons_True; [done|]. by apply Is_true_true. }
  rewrite G, N, map_app. cbn [map app]. rewrite <- !app_assoc. cbn [app].
  eexists (_ ++ map (fun s => (job, s)) (filter (fun x => Is_true (f x)) [SNegate; STailMultiply; SAddOne; SMultiply; SDirect])), _.
  split; [rewrite <- app_assoc; reflexivity|]. split.
  - intros H. apply elem_of_app in H as [H|H].
    + apply (candidate_inv (set_jobs p m1)) in H as (_ & j2 & H & _). apply F1 in H. cbn in H. lia.
    + apply list_elem_of_In, in_map_iff in H as (s & [= H _] & _). lia.
  - intros H. apply elem_of_app in H as [H|H].
    + apply list_elem_of_In, in_map_iff in H as (s & [= ->] & H). apply list_elem_of_In, list_elem_of_filter in H as [_ H].
      by repeat (apply elem_of_cons in H as [H|H]; [discriminate|]); apply not_elem_of_nil in H.
    + apply (candidate_inv (set_jobs p m3)) in H as (_ & j2 & H & _). apply F3 in H. cbn in H. lia.
Qed.

(** One edge. *)
Lemma tied_negate_waits p now job p' i :
  0 <= job -> job * 7 + 7 < 2 ^ 64 -> jobs_sorted p -> gate_work p job ->
  SFUVectorPipeline_issueResource p RVector now vector_stages = Ok (p', Some i) ->
  (issue_job i, issue_stage i) <> (job + 1, SNegate).
Proof.
  intros H0 H1 S W E Ei. pose proof (issueResource_candidate _ _ _ _ _ _ E) as C. rewrite Ei in C.
  destruct (candidates_tied p job S W C) as (l1 & l2 & Ec & N1 & N2).
  unfold SFUVectorPipeline_issueResource in E. case_if_in E; [discriminate|]. rewrite Ec in E.
  destruct (rotate_keeps_tied (cursor_of p RVector) l1 _ _ l2 (ticket_collision job H0 H1)) as (m1 & m2 & Em & Hm).
  rewrite Em in E. apply issue_loop_stops in E; [|done]. rewrite Ei in E.
  apply elem_of_app in E as [E|E].
  - destruct (Hm _ E); done.
  - apply list_elem_of_singleton in E. discriminate.
Qed.

Section starvation.
Context `{Libm}.

Lemma complete_sorted p t now p' : SFUVectorPipeline_complete p t now = Ok p' -> jobs_sorted p -> jobs_sorted p'.
Proof.
  unfold SFUVectorPipeline_complete. destruct (map_at _ _) as [j|]; [|discriminate]. cbv zeta. case_if; intros [= <-] S.
  - eapply sorted_sublist; [apply map_erase_keys|exact S].
  - eapply sorted_keys; [|exact S]. apply map_set_keys.
Qed.
Lemma complete_due_sorted fuel now : forall p p', complete_due fuel p now = Ok p' -> jobs_sorted p -> jobs_sorted p'.
Proof.
  induction fuel as [|fuel IH]; intros p p' E S; cbn [complete_due] in E; [by injection E as <-|].
  destruct (pending_ p) as [|[k t] rest]; [by injection E as <-|]. case_if_in E; [|by injection E as <-].
  apply rbind_Ok in E as (q & Eq & E). eapply IH; [exact E|]. by eapply complete_sorted; [exact Eq|].
Qed.

(** The state in which the resources issue at edge [now]: what is due has completed. *)
Definition due_completed (p : SFUVectorPipeline) (now : Z) : result SFUVectorPipeline :=
  complete_due (length (pending_ p))
    (set_resources p (TensorHardwarePipeline_retire (vector_ p) now) (TensorHardwarePipeline_retire (exp_ p) now)
       (TensorHardwarePipeline_retire (reciprocal_ p) now) (vectorCursor_ p) (expCursor_ p) (reciprocalCursor_ p)) now.

(** A step at an edge where request [job] has gate work. *)
Lemma step_negate_waits p now job q p' issues :
  0 <= job -> job * 7 + 7 < 2 ^ 64 -> jobs_sorted p -> due_completed p now = Ok q -> gate_work q job ->
  SFUVectorPipeline_step p now = Ok (p', issues) ->
  jobs_sorted p' /\ forall i, i ∈ issues -> (issue_job i, issue_stage i) <> (job + 1, SNegate).
Proof.
  intros H0 H1 S Eq W E. unfold SFUVectorPipeline_step in E. cbv zeta in E.
  apply rbind_Ok in E as (q' & Eq' & E). change (due_completed p now = Ok q') in Eq'. rewrite Eq in Eq'. injection Eq' as <-.
  apply complete_due_sorted in Eq as Sq; [|exact S].
  apply rbind_Ok in E as ([p1 i1] & E1 & E). apply rbind_Ok in E as ([p2 i2] & E2 & E). apply rbind_Ok in E as ([p3 i3] & E3 & E).
  injection E as <- <-.
  split; [eapply issueResource_sorted; [exact E3|eapply issueResource_sorted; [exact E2|by eapply issueResource_sorted]]|].
  intros i Hi Ei. rewrite !elem_of_app in Hi. destruct Hi as [Hi|[Hi|Hi]].
  - destruct i1 as [x|]; [|by apply not_elem_of_nil in Hi]. apply list_elem_of_singleton in Hi as ->.
    by eapply tied_negate_waits.
  - destruct i2 as [x|]; [|by apply not_elem_of_nil in Hi]. apply list_elem_of_singleton in Hi as ->.
    apply issueResource_candidate, candidate_inv in E2 as [E2 _]. injection Ei as _ Ei. rewrite Ei in E2. by apply list_elem_of_singleton in E2.
  - destruct i3 as [x|]; [|by apply not_elem_of_nil in Hi]. apply list_elem_of_singleton in Hi as ->.
    apply issueResource_candidate, candidate_inv in E3 as [E3 _]. injection Ei as _ Ei. rewrite Ei in E3. by apply list_elem_of_singleton in E3.
Qed.
Lemma step_sorted p now p' issues : SFUVectorPipeline_step p now = Ok (p', issues) -> jobs_sorted p -> jobs_sorted p'.
Proof.
  intros E S. unfold SFUVectorPipeline_step in E. cbv zeta in E. apply rbind_Ok in E as (q & Eq & E).
  apply complete_due_sorted in Eq as Sq; [|exact S].
  apply rbind_Ok in E as ([p1 i1] & E1 & E). apply rbind_Ok in E as ([p2 i2] & E2 & E). apply rbind_Ok in E as ([p3 i3] & E3 & E).
  injection E as <- _. eapply issueResource_sorted; [exact E3|eapply issueResource_sorted; [exact E2|by eapply issueResource_sorted]].
Qed.
Lemma reach_sorted p0 p log out : jobs_sorted p0 -> pipeline_reach p0 p log out -> jobs_sorted p.
Proof.
  intros S. induction 1 as [|p log out r now id p' _ IH Hw Hs E|p log out now p' iss _ IH E|p log out p' cs _ IH E|]; [done| | | |done].
  - pose proof (submit_sorted p r now true IH) as S'. by rewrite E in S'.
  - by eapply step_sorted.
  - by injection E as <- _.
Qed.

(** A run in which request [job] has gate work at every edge, and what it issues. *)
Inductive gate_run (job : Z) : SFUVectorPipeline -> SFUVectorPipeline -> list Issue -> Prop :=
| gate_stop p : gate_run job p p []
| gate_edge p now q p1 p' issues rest :
    due_completed p now = Ok q -> gate_work q job -> SFUVectorPipeline_step p now = Ok (p1, issues) ->
    gate_run job p1 p' rest -> gate_run job p p' (issues ++ rest)
| gate_submit p r now p' rest :
    gate_run job (SFUVectorPipeline_submit p r now true).1 p' rest -> gate_run job p p' rest
| gate_take p p' rest : gate_run job (SFUVectorPipeline_takeCompleted p).1 p' rest -> gate_run job p p' rest
| gate_resources p v e r p' rest :
    gate_run job (set_resources p v e r (vectorCursor_ p) (expCursor_ p) (reciprocalCursor_ p)) p' rest -> gate_run job p p' rest.

(** C30: the round-robin tickets collide and starve.  [ticket = job * 7 + stage] counts
    seven stages although there are eight, so [GateMultiply] of a request and [Negate] of
    the next one share a ticket.  The consequence, for every constructed pipeline and every
    run from any state it reaches - any clock edges, submissions, collected results and use
    of the shared resources by others: as long as request [job] has a gate multiplication
    to issue at each edge, [Negate] of request [job + 1] is not issued once, so that
    request does not even start, whatever the cursor. *)
Theorem gate_multiply_starves_next_request vector exp reciprocal vl el fe mr me precision rl backend p0 p log out job p' issues :
  SFUVectorPipeline_new vector exp reciprocal vl el fe mr me precision rl backend = Ok p0 ->
  pipeline_reach p0 p log out -> 0 <= job -> job * 7 + 7 < 2 ^ 64 ->
  ticket (job, SGateMultiply) = ticket (job + 1, SNegate) /\
  (gate_run job p p' issues -> forall i, i ∈ issues -> ~ (issue_job i = job + 1 /\ issue_stage i = SNegate)).
Proof.
  intros E R H0 H1. split; [by apply ticket_collision|]. intros G.
  assert (S : jobs_sorted p).
  { eapply reach_sorted; [|exact R]. apply rbind_Ok in E as (ar & _ & E). case_if_in E; [discriminate|]. injection E as <-. constructor. }
  clear E R. induction G as [p|p now q p1 p' iss rest Eq W E _ IH|p r now p' rest _ IH|p p' rest _ IH|p v e r p' rest _ IH].
  - intros i Hi. by apply not_elem_of_nil in Hi.
  - destruct (step_negate_waits p now job q p1 iss H0 H1 S Eq W E) as [S1 N].
    intros i Hi [E1 E2]. apply elem_of_app in Hi as [Hi|Hi]; [apply (N i Hi); congruence|by apply (IH S1 i Hi)].
  - apply IH. by apply submit_sorted.
  - by apply IH.
  - by apply IH.
Qed.
End starvation.

(** ** Witnesses *)

Definition ex_resource : TensorHardwarePipeline :=
  TensorHardwarePipeline_configure TensorHardwarePipeline_init 2 1 2.
Definition ex_p0 : SFUVectorPipeline :=
  result_or (mkVectorPipeline ex_resource ex_resource ex_resource 4 4 8 2 16 4 fp16_libm 0 0 0 0 [] [] [] 0 0 0 0)
    (SFUVectorPipeline_new ex_resource ex_resource ex_resource 4 4 8 2 16 FP16 4 BackendLibm).
Definition ex_p1 : SFUVectorPipeline := (SFUVectorPipeline_submit ex_p0 example_add 0 true).1.
Definition ex_p2 : SFUVectorPipeline :=
  (result_or (ex_p1, []) (@SFUVectorPipeline_step identity_libm ex_p1 0)).1.
Definition ex_p3 : SFUVectorPipeline :=
  (result_or (ex_p2, []) (@SFUVectorPipeline_step identity_libm ex_p2 5)).1.

Lemma ex_reach : @pipeline_reach identity_libm ex_p0 ex_p3 [(1, (example_add, 0))] [].
Proof.
  eapply (reach_step _ ex_p2 _ _ 5).
  - eapply (reach_step _ ex_p1 _ _ 0).
    + eapply (reach_submit _ ex_p0 [] [] example_add 0 1 ex_p1);
        [apply reach_init|discriminate|reflexivity|vm_compute; reflexivity].
    + unfold ex_p2. rewrite <- surjective_pairing. apply is_ok_or. vm_compute. reflexivity.
  - unfold ex_p3. rewrite <- surjective_pairing. apply is_ok_or. vm_compute. reflexivity.
Qed.

Lemma ex_new : SFUVectorPipeline_new ex_resource ex_resource ex_resource 4 4 8 2 16 FP16 4 BackendLibm = Ok ex_p0.
Proof. reflexivity. Qed.

Lemma vector_pipeline_refines_witness :
  length (completed_ ex_p3) = 1%nat /\
  forall c, c ∈ [] ++ completed_ ex_p3 ->
  exists r, (completion_job c, (r, completion_submitted c)) ∈ [(1, (example_add, 0))] /\ completion_op c = op r /\
    forall tree, @evaluateSFUVectorOp identity_libm (arithmetic_ ex_p0) r true tree = Ok (Some (completion_values c)).
Proof.
  split; [vm_compute; reflexivity|].
  exact (@vector_pipeline_refines_reference identity_libm _ _ _ _ _ _ _ _ _ _ _ _ _ _ _ ex_new ex_reach).
Defined.

Lemma vector_pipeline_safe_witness :
  fifoHighWater ex_p3 <= Z.of_nat (fifoElements_ ex_p0).
Proof.
  exact (proj1 (proj2 (@vector_pipeline_safe identity_libm _ _ _ _ _ _ _ _ _ _ _ _ _ _ _ ex_new ex_reach))).
Defined.

(** Request 1 has twelve elements; request 2 arrives when two of its gate multiplications
    are left, which take the edges 15 and 16. *)
Definition ex_silu : SFUVectorRequest :=
  mkVectorRequest SiluMultiply (Some (replicate 12 (S754_zero false))) (Some (replicate 12 (S754_zero false))) None 12 0 0 0
    (num prec32 emax32 1 (-20)).
Definition ex_step (p : SFUVectorPipeline) (now : Z) : SFUVectorPipeline * list Issue :=
  result_or (p, []) (@SFUVectorPipeline_step identity_libm p now).
Definition ex_submit (p : SFUVectorPipeline) (now : Z) : SFUVectorPipeline := (SFUVectorPipeline_submit p ex_silu now true).1.
Definition ex_edges (p : SFUVectorPipeline) (ts : list Z) : SFUVectorPipeline := foldl (fun p t => (ex_step p t).1) p ts.
Fixpoint ex_edges_ok (p : SFUVectorPipeline) (ts : list Z) : bool :=
  match ts with [] => true | t :: ts => is_ok (@SFUVectorPipeline_step identity_libm p t) && ex_edges_ok (ex_step p t).1 ts end.
Definition ex_gate_work (p : SFUVectorPipeline) (now job : Z) : bool :=
  let q := result_or p (@due_completed identity_libm p now) in
  is_ok (@due_completed identity_libm p now) &&
  match map_at job (jobs_ q) with
  | Some j => applicable (j_op j) SGateMultiply && negb (SFUVectorPipeline_available q j SGateMultiply =? 0)%nat
  | None => false
  end.

Lemma ex_step_ok p t : is_ok (@SFUVectorPipeline_step identity_libm p t) = true ->
  @SFUVectorPipeline_step identity_libm p t = Ok ((ex_step p t).1, (ex_step p t).2).
Proof. intros H. rewrite <- surjective_pairing. by apply is_ok_or. Qed.
Lemma ex_edges_reach p0 ts : forall p log out,
  @pipeline_reach identity_libm p0 p log out -> ex_edges_ok p ts = true -> @pipeline_reach identity_libm p0 (ex_edges p ts) log out.
Proof.
  induction ts as [|t ts IH]; intros p log out R E; [done|]. cbn [ex_edges_ok] in E. apply andb_true_iff in E as [E1 E2].
  apply (IH (ex_step p t).1); [|done]. eapply reach_step; [exact R|]. by apply ex_step_ok.
Qed.
Lemma ex_gate_edge p now job p' rest :
  ex_gate_work p now job = true -> is_ok (@SFUVectorPipeline_step identity_libm p now) = true ->
  @gate_run identity_libm job (ex_step p now).1 p' rest -> @gate_run identity_libm job p p' ((ex_step p now).2 ++ rest).
Proof.
  unfold ex_gate_work. cbv zeta. intros H1 H2 G. apply andb_true_iff in H1 as [H1 H3]. apply (is_ok_or p) in H1.
  set (q := result_or p _) in *. eapply (gate_edge job p now q); [exact H1| |by apply ex_step_ok|exact G].
  destruct (map_at job (jobs_ q)) as [j|] eqn:Ej; [|discriminate]. boolify. exists j. split; [exact Ej|]. split; [done|]. by apply Nat.eqb_neq.
Qed.

Definition ex_started : SFUVectorPipeline := ex_edges (ex_submit ex_p0 0) (map Z.of_nat (seq 0 15)).
Definition ex_contended : SFUVectorPipeline := ex_submit ex_started 14.
Definition ex_starved : list Issue := (ex_step ex_contended 15).2 ++ (ex_step (ex_step ex_contended 15).1 16).2 ++ [].

Lemma ex_contended_reach : exists log, @pipeline_reach identity_libm ex_p0 ex_contended log [].
Proof.
  eexists. eapply (reach_submit _ ex_started _ [] ex_silu 14 2); [|vm_compute; discriminate|vm_compute; reflexivity|].
  - apply ex_edges_reach; [|vm_compute; reflexivity].
    eapply (reach_submit _ ex_p0 [] [] ex_silu 0 1); [apply reach_init|vm_compute; discriminate|vm_compute; reflexivity|vm_compute; reflexivity].
  - vm_compute. reflexivity.
Qed.
Lemma ex_contended_run : @gate_run identity_libm 1 ex_contended (ex_step (ex_step ex_contended 15).1 16).1 ex_starved.
Proof. apply ex_gate_edge; [vm_compute; reflexivity..|]. apply ex_gate_edge; [vm_compute; reflexivity..|]. apply gate_stop. Qed.

Lemma gate_multiply_starves_witness :
  is_Some (map_at 2 (jobs_ ex_contended)) /\
  map (fun i => (issue_job i, issue_stage i)) ex_starved = [(1, SGateMultiply); (1, SGateMultiply)] /\
  forall i, i ∈ ex_starved -> ~ (issue_job i = 2 /\ issue_stage i = SNegate).
Proof.
  split; [vm_compute; by eexists|]. split; [vm_compute; reflexivity|]. destruct ex_contended_reach as [log R].
  apply (proj2 (@gate_multiply_starves_next_request identity_libm _ _ _ _ _ _ _ _ _ _ _ _ _ _ _ 1
    (ex_step (ex_step ex_contended 15).1 16).1 ex_starved ex_new R ltac:(discriminate) ltac:(reflexivity)) ex_contended_run).
Defined.
