(* ===== verification/BankScheduler.v ===== *)
(** * Local GM bank arbitration ([src/src/sst/elements/golem/globalmemory/localGmBankScheduler.h])

    Two request FIFOs (compute/control, DMA) share a banked memory: every cycle each
    lane may be granted one beat, at most a line long, the lower lane first, unless
    the banks collide or the response queue is full.  A thrown [std::logic_error] is
    [Throw logic_error]. *)

From Stdlib Require Import ZArith Lia.
From stdpp Require Import base numbers list.
From S2P Require Import Prelude.

Record GmConfig := mkGmConfig {
  banks : Z; lineBytes : Z; responseCycles : Z; responseCapacity : Z; requestCapacity : Z }.
Definition GmConfig_default : GmConfig := mkGmConfig 8 128 1 32 256.

Record GmRequest := mkGmRequest {
  r_id : Z; r_address : Z; r_length : Z; r_eligibleCycle : Z; r_offset : Z }.

Record GmGrant := mkGmGrant {
  g_id : Z; g_address : Z; g_offset : Z; g_bytes : Z; g_readyCycle : Z;
  g_lane : nat; g_bank : Z; g_last : bool }.

Record GmStats := mkGmStats {
  laneBeats : list Z;
  bankBeats : list Z;
  payloadBytes : Z; bankConflictCycles : Z; responseBlockedLaneCycles : Z; responseHighWater : Z }.

Record LocalGmBankScheduler := mkScheduler {
  config_ : GmConfig;
  stats_ : GmStats;
  queues_ : nat -> list GmRequest;
  responses_ : list Z;
  lastCycle_ : Z;
  stepped_ : bool }.

(** [x && !(x & (x - 1))] on 32 bits. *)
Definition pow2 (x : Z) : bool := negb (x =? 0) && (Z.land x (u32 (x - 1)) =? 0).

Definition LocalGmBankScheduler_new (c : GmConfig) : result LocalGmBankScheduler :=
  if negb (pow2 (banks c)) || negb (pow2 (lineBytes c)) || (responseCycles c =? 0) ||
     (responseCapacity c =? 0) || (requestCapacity c =? 0) then Throw invalid_argument
  else Ok (mkScheduler c (mkGmStats [0; 0] (replicate (Z.to_nat (banks c)) 0) 0 0 0 0)
             (fun _ => []) [] 0 false).

Definition LocalGmBankScheduler_queued (s : LocalGmBankScheduler) : nat :=
  (length (queues_ s 0) + length (queues_ s 1))%nat.
Definition LocalGmBankScheduler_busy (s : LocalGmBankScheduler) : bool :=
  negb (LocalGmBankScheduler_queued s =? 0)%nat || negb (length (responses_ s) =? 0)%nat.

Definition set_queue (s : LocalGmBankScheduler) (lane : nat) (q : list GmRequest) : LocalGmBankScheduler :=
  mkScheduler (config_ s) (stats_ s) (fun l => if (l =? lane)%nat then q else queues_ s l)
    (responses_ s) (lastCycle_ s) (stepped_ s).

Definition LocalGmBankScheduler_enqueue (s : LocalGmBankScheduler) (lane : nat) (r : GmRequest) :
    LocalGmBankScheduler * bool :=
  if (2 <=? lane)%nat || (r_length r =? 0) ||
     (requestCapacity (config_ s) <=? Z.of_nat (LocalGmBankScheduler_queued s)) then (s, false)
  else (set_queue s lane (queues_ s lane ++ [r]), true).

(** [while(!empty && front <= cycle) pop_front()]. *)
Fixpoint pop_ready (cycle : Z) (responses : list Z) : list Z :=
  match responses with
  | r :: rest => if r <=? cycle then pop_ready cycle rest else responses
  | [] => []
  end.

Definition set_stats (s : LocalGmBankScheduler) (st : GmStats) : LocalGmBankScheduler :=
  mkScheduler (config_ s) st (queues_ s) (responses_ s) (lastCycle_ s) (stepped_ s).

(** The beat the front request asks for. *)
Definition beat_address (r : GmRequest) : Z := r_address r ⊞ r_offset r.
Definition beat_bytes (c : GmConfig) (r : GmRequest) : Z :=
  Z.min (r_length r ⊟ r_offset r) (lineBytes c - beat_address r mod lineBytes c).
Definition beat_bank (c : GmConfig) (r : GmRequest) : Z := u32 (beat_address r / lineBytes c mod banks c).
Definition beat_grant (c : GmConfig) (cycle : Z) (lane : nat) (r : GmRequest) : GmGrant :=
  mkGmGrant (r_id r) (beat_address r) (r_offset r) (beat_bytes c r) (cycle ⊞ responseCycles c)
    lane (beat_bank c r) (r_offset r ⊞ beat_bytes c r =? r_length r).
Definition advance (c : GmConfig) (r : GmRequest) : GmRequest :=
  mkGmRequest (r_id r) (r_address r) (r_length r) (r_eligibleCycle r) (r_offset r ⊞ beat_bytes c r).

(** Lines 56-75: one lane; [grantedBank] is [-1] before the first grant. *)
Definition lane_step (s : LocalGmBankScheduler) (cycle grantedBank : Z) (lane : nat) :
    LocalGmBankScheduler * Z * list GmGrant :=
  let c := config_ s in
  let st := stats_ s in
  match queues_ s lane with
  | [] => (s, grantedBank, [])
  | r :: rest =>
      if cycle <? r_eligibleCycle r then (s, grantedBank, [])
      else if beat_bank c r =? grantedBank then
        (set_stats s (mkGmStats (laneBeats st) (bankBeats st) (payloadBytes st) (bankConflictCycles st ⊞ 1)
                        (responseBlockedLaneCycles st) (responseHighWater st)), grantedBank, [])
      else if responseCapacity c <=? Z.of_nat (length (responses_ s)) then
        (set_stats s (mkGmStats (laneBeats st) (bankBeats st) (payloadBytes st) (bankConflictCycles st)
                        (responseBlockedLaneCycles st ⊞ 1) (responseHighWater st)), grantedBank, [])
      else
        let g := beat_grant c cycle lane r in
        let responses := responses_ s ++ [g_readyCycle g] in
        let b := Z.to_nat (g_bank g) in
        let st := mkGmStats
          (alter (fun n => n ⊞ 1) lane (laneBeats st))
          (alter (fun n => n ⊞ 1) b (bankBeats st))
          (payloadBytes st ⊞ g_bytes g) (bankConflictCycles st) (responseBlockedLaneCycles st)
          (Z.max (responseHighWater st) (Z.of_nat (length responses))) in
        let queue := if g_last g then rest else advance c r :: rest in
        (mkScheduler c st (fun l => if (l =? lane)%nat then queue else queues_ s l) responses
           (lastCycle_ s) (stepped_ s), g_bank g, [g])
  end.

Definition LocalGmBankScheduler_step (s : LocalGmBankScheduler) (cycle : Z) :
    result (LocalGmBankScheduler * list GmGrant) :=
  if stepped_ s && (cycle <=? lastCycle_ s) then Throw logic_error
  else
    let s := mkScheduler (config_ s) (stats_ s) (queues_ s) (pop_ready cycle (responses_ s)) cycle true in
    let '(s, b, g0) := lane_step s cycle (-1) 0 in
    let '(s, _, g1) := lane_step s cycle b 1 in
    Ok (s, g0 ++ g1).

(** ** Reference: the beats of a request *)

(** What a grant delivers, apart from its timing. *)
Definition beat := (Z * Z * Z * Z * bool)%type.
Definition grant_beat (g : GmGrant) : beat := (g_id g, g_address g, g_offset g, g_bytes g, g_last g).

(** The request cut at line boundaries, from its current offset. *)
Fixpoint request_beats (line : Z) (fuel : nat) (r : GmRequest) : list beat :=
  match fuel with
  | O => []
  | S fuel' =>
      if r_length r <=? r_offset r then []
      else
        let address := r_address r + r_offset r in
        let bytes := Z.min (r_length r - r_offset r) (line - address mod line) in
        (r_id r, address, r_offset r, bytes, r_offset r + bytes =? r_length r)
        :: request_beats line fuel'
             (mkGmRequest (r_id r) (r_address r) (r_length r) (r_eligibleCycle r) (r_offset r + bytes))
  end.
Definition beats_of (line : Z) (r : GmRequest) : list beat :=
  request_beats line (Z.to_nat (r_length r - r_offset r)) r.

(** A request whose addresses do not wrap. *)
Definition request_ok (r : GmRequest) : Prop :=
  0 <= r_address r /\ 0 <= r_offset r < r_length r /\ r_address r + r_length r < 2 ^ 64.

Definition config_ok (c : GmConfig) : Prop :=
  0 < banks c < 2 ^ 32 /\ 0 < lineBytes c < 2 ^ 32 /\ 0 < responseCapacity c.

Section beats.
Context (c : GmConfig).
Hypothesis Hc : config_ok c.
Notation line := (lineBytes c).

Lemma beat_range r : request_ok r ->
  let bytes := Z.min (r_length r - r_offset r) (line - (r_address r + r_offset r) mod line) in
  beat_address r = r_address r + r_offset r /\ beat_bytes c r = bytes /\
  0 < bytes <= line /\ r_offset r + bytes <= r_length r /\
  (r_address r + r_offset r) mod line + bytes <= line.
Proof.
  intros (Ha & Ho & Hl). cbv zeta. destruct Hc as (_ & Hline & _).
  assert (beat_address r = r_address r + r_offset r) as Eb by (unfold beat_address; unwrap; done).
  pose proof (Z.mod_pos_bound (r_address r + r_offset r) line ltac:(lia)).
  unfold beat_bytes. rewrite Eb. unwrap. lia.
Qed.

(** More fuel than remaining bytes does not matter. *)
Lemma request_beats_fuel fuel fuel' r :
  (Z.to_nat (r_length r - r_offset r) <= fuel)%nat -> (fuel <= fuel')%nat ->
  request_beats line fuel r = request_beats line fuel' r.
Proof.
  destruct Hc as (_ & Hline & _).
  revert fuel' r. induction fuel as [|fuel IH]; intros fuel' r Hf Hl.
  - destruct fuel'; [done|]. cbn [request_beats]. by rewrite (proj2 (Z.leb_le _ _)) by lia.
  - destruct fuel' as [|fuel']; [lia|]. cbn [request_beats]. cbv zeta. case_if; [done|]. boolify.
    f_equal. apply IH; [|lia]. cbn [r_length r_offset].
    pose proof (Z.mod_pos_bound (r_address r + r_offset r) line ltac:(lia)). lia.
Qed.

(** A grant delivers the first beat and leaves the others. *)
Lemma beats_step r cycle lane :
  request_ok r ->
  beats_of line r =
  grant_beat (beat_grant c cycle lane r) ::
    (if g_last (beat_grant c cycle lane r) then [] else beats_of line (advance c r)) /\
  (g_last (beat_grant c cycle lane r) = false -> request_ok (advance c r)).
Proof.
  intros Hr. pose proof (beat_range r Hr) as B. cbv zeta in B.
  set (bytes := Z.min (r_length r - r_offset r) (line - (r_address r + r_offset r) mod line)) in *.
  destruct B as (Ea & Eb & Hb & Hb2 & _). pose proof Hr as (Ha & Ho & Hl).
  assert (r_offset r ⊞ beat_bytes c r = r_offset r + bytes) as Eo by (rewrite Eb; unwrap; done).
  unfold beats_of. destruct (Z.to_nat (r_length r - r_offset r)) as [|n] eqn:En; [lia|].
  cbn [request_beats]. cbv zeta. rewrite (proj2 (Z.leb_gt _ _)) by lia. fold bytes.
  unfold grant_beat, beat_grant, advance. cbn [g_id g_address g_offset g_bytes g_last r_length r_offset].
  rewrite Ea, Eo, Eb.
  split.
  - f_equal. destruct (Z.eqb_spec (r_offset r + bytes) (r_length r)) as [E|E].
    + destruct n; [done|]. cbn [request_beats r_length r_offset]. by rewrite (proj2 (Z.leb_le _ _)) by lia.
    + symmetry. apply request_beats_fuel; cbn [r_length r_offset]; lia.
  - intros E. boolify. unfold request_ok. cbn [r_address r_offset r_length]. lia.
Qed.
End beats.

(** ** Invariant and functional correctness of a step *)

Record scheduler_inv (s : LocalGmBankScheduler) : Prop := {
  si_config : config_ok (config_ s);
  si_requests : forall lane, (lane < 2)%nat -> Forall request_ok (queues_ s lane);
  si_responses : Z.of_nat (length (responses_ s)) <= responseCapacity (config_ s)
}.

(** Configurations hold 32-bit fields; a constructed scheduler satisfies the invariant. *)
Lemma gm_new_inv c s :
  0 <= banks c < 2 ^ 32 -> 0 <= lineBytes c < 2 ^ 32 -> 0 <= responseCapacity c ->
  LocalGmBankScheduler_new c = Ok s -> scheduler_inv s.
Proof.
  intros Hb Hl Hr E. unfold LocalGmBankScheduler_new in E. case_if_in E; [discriminate|]. injection E as <-.
  boolify. unfold pow2 in *. boolify. split; cbn; [repeat split; lia|intros; by apply Forall_nil|lia].
Qed.

(** Everything a lane still has to deliver. *)
Definition lane_work (s : LocalGmBankScheduler) (lane : nat) : list beat :=
  concat (map (beats_of (lineBytes (config_ s))) (queues_ s lane)).

Definition lane_beats (lane : nat) (gs : list GmGrant) : list beat :=
  map grant_beat (filter (fun g => g_lane g = lane) gs).

Lemma lane_beats_app lane gs gs' : lane_beats lane (gs ++ gs') = lane_beats lane gs ++ lane_beats lane gs'.
Proof. unfold lane_beats. by rewrite filter_app, map_app. Qed.

Lemma lane_beats_one lane g :
  lane_beats lane [g] = if (g_lane g =? lane)%nat then [grant_beat g] else [].
Proof.
  unfold lane_beats. destruct (Nat.eqb_spec (g_lane g) lane);
    [by rewrite filter_cons_True|by rewrite filter_cons_False].
Qed.

(** A grant as the hardware allows it. *)
Definition grant_ok (c : GmConfig) (cycle : Z) (g : GmGrant) : Prop :=
  0 < g_bytes g <= lineBytes c /\ g_address g mod lineBytes c + g_bytes g <= lineBytes c /\
  g_bank g = g_address g / lineBytes c mod banks c /\ g_readyCycle g = cycle ⊞ responseCycles c.

Lemma beat_grant_ok c cycle lane r :
  config_ok c -> request_ok r -> grant_ok c cycle (beat_grant c cycle lane r) /\ 0 <= g_bank (beat_grant c cycle lane r).
Proof.
  intros Hc Hr. destruct (beat_range c Hc r Hr) as (Ea & Eb & Hb & _ & Hm).
  destruct Hc as (Hbk & _ & _). unfold grant_ok, beat_grant, beat_bank.
  cbn [g_bytes g_address g_bank g_readyCycle]. rewrite Ea, Eb.
  pose proof (Z.mod_pos_bound ((r_address r + r_offset r) / lineBytes c) (banks c) ltac:(lia)).
  rewrite u32_id by (unfold in_u32; lia). repeat split; try done; lia.
Qed.

(** Closes the branches of [lane_step] that grant nothing. *)
Local Ltac refused W := split; [by split|]; do 3 (split; [done|]); split; [by apply W|done].

Lemma lane_step_inv s cycle b lane :
  scheduler_inv s -> (lane < 2)%nat ->
  let '(s', b', gs) := lane_step s cycle b lane in
  scheduler_inv s' /\ config_ s' = config_ s /\ lastCycle_ s' = lastCycle_ s /\ stepped_ s' = stepped_ s /\
  (forall l, lane_work s l = (if (l =? lane)%nat then map grant_beat gs else []) ++ lane_work s' l) /\
  match gs with
  | [] => b' = b
  | [g] => g_lane g = lane /\ b' = g_bank g /\ g_bank g <> b /\ 0 <= g_bank g /\ grant_ok (config_ s) cycle g
  | _ => False
  end.
Proof.
  intros [Hc Hr Hs] Hl. unfold lane_step. cbv zeta.
  assert (W : forall s', queues_ s' = queues_ s -> config_ s' = config_ s -> forall l,
             lane_work s l = (if (l =? lane)%nat then map grant_beat [] else []) ++ lane_work s' l).
  { intros s' Eq Ec l. unfold lane_work. rewrite Eq, Ec. by destruct (l =? lane)%nat. }
  destruct (queues_ s lane) as [|r rest] eqn:Eq; [refused W|].
  case_if; [refused W|]. case_if; [refused W|]. case_if; [refused W|].
  clear W. boolify.
  pose proof (Hr lane Hl) as Hq. rewrite Eq in Hq. apply Forall_cons in Hq as [Hrq Hrest].
  destruct (beats_step (config_ s) Hc r cycle lane Hrq) as [Eb Hadv].
  destruct (beat_grant_ok (config_ s) cycle lane r Hc Hrq) as [Hg Hg0].
  set (g := beat_grant (config_ s) cycle lane r) in *.
  split; [|split; [done|split; [done|split; [done|split]]]].
  - split; [done|..].
    + intros l Hl2. cbn [queues_]. destruct (Nat.eqb_spec l lane) as [->|]; [|by apply Hr].
      destruct (g_last g) eqn:El; [done|]. apply Forall_cons. split; [by apply Hadv|done].
    + cbn [responses_ config_]. rewrite length_app. cbn. lia.
  - intros l. unfold lane_work. cbn [queues_ config_]. destruct (Nat.eqb_spec l lane) as [->|]; [|done].
    rewrite Eq. cbn [map concat]. rewrite Eb. cbn [app].
    by destruct (g_last g).
  - repeat split; try apply Hg; done.
Qed.

Lemma pop_ready_length cycle l : (length (pop_ready cycle l) <= length l)%nat.
Proof. induction l as [|r l IH]; [done|]. cbn [pop_ready]. case_if; cbn [length]; lia. Qed.
(** The facts of one edge, shared by the claims below. *)
Lemma gm_step_facts (s : LocalGmBankScheduler) (cycle : Z) :
  scheduler_inv s ->
  if stepped_ s && (cycle <=? lastCycle_ s) then LocalGmBankScheduler_step s cycle = Throw logic_error
  else exists s' gs, LocalGmBankScheduler_step s cycle = Ok (s', gs) /\
    scheduler_inv s' /\ config_ s' = config_ s /\ lastCycle_ s' = cycle /\ stepped_ s' = true /\
    (forall lane, (lane < 2)%nat -> lane_work s lane = lane_beats lane gs ++ lane_work s' lane) /\
    Forall (grant_ok (config_ s) cycle) gs /\
    NoDup (map g_lane gs) /\ NoDup (map g_bank gs) /\ (length gs <= 2)%nat.
Proof.
  intros [Hc Hr Hs]. unfold LocalGmBankScheduler_step. case_if; [done|]. cbv zeta.
  set (s0 := mkScheduler _ _ _ _ _ _).
  assert (I0 : scheduler_inv s0).
  { split; [done|done|]. pose proof (pop_ready_length cycle (responses_ s)). cbn. lia. }
  pose proof (lane_step_inv s0 cycle (-1) 0 I0 ltac:(lia)) as L0.
  destruct (lane_step s0 cycle (-1) 0) as [[s1 b] g0]. destruct L0 as (I1 & C1 & T1 & P1 & W1 & G1).
  pose proof (lane_step_inv s1 cycle b 1 I1 ltac:(lia)) as L1.
  destruct (lane_step s1 cycle b 1) as [[s2 b2] g1]. destruct L1 as (I2 & C2 & T2 & P2 & W2 & G2).
  exists s2, (g0 ++ g1). split; [done|]. split; [done|].
  split; [rewrite C2, C1; done|]. split; [rewrite T2, T1; done|]. split; [rewrite P2, P1; done|].
  assert (Ec : config_ s0 = config_ s) by done. rewrite Ec in *. rewrite C1 in G2.
  assert (Ew : forall l, lane_work s0 l = lane_work s l) by done.
  split.
  - intros lane Hl. rewrite <- Ew, W1, W2, lane_beats_app, <- app_assoc.
    assert (E0 : map grant_beat g0 = lane_beats 0 g0 /\ lane_beats 1 g0 = []).
    { destruct g0 as [|g [|]]; [done| |done]. rewrite !lane_beats_one. by destruct G1 as (-> & _). }
    assert (E1 : map grant_beat g1 = lane_beats 1 g1 /\ lane_beats 0 g1 = []).
    { destruct g1 as [|g [|]]; [done| |done]. rewrite !lane_beats_one. by destruct G2 as (-> & _). }
    destruct E0 as [E0 E0'], E1 as [E1 E1'].
    assert (lane = 0 \/ lane = 1)%nat as [->| ->] by lia; cbn [Nat.eqb].
    + by rewrite E0, E1'.
    + by rewrite E1, E0'.
  - destruct g0 as [|g [|]], g1 as [|g' [|]]; try done; cbn [app map length].
    + repeat split; try apply NoDup_nil_2; [by apply Forall_nil|lia].
    + repeat split; try apply NoDup_singleton; [apply Forall_singleton; apply G2|lia].
    + repeat split; try apply NoDup_singleton; [apply Forall_singleton; apply G1|lia].
    + destruct G1 as (L1 & B1 & N1 & Z1 & O1). destruct G2 as (L2 & B2 & N2 & Z2 & O2).
      split; [apply Forall_cons; split; [exact O1|by apply Forall_singleton]|]. rewrite L1, L2.
      split; [apply NoDup_cons; split; [|apply NoDup_singleton]; rewrite list_elem_of_singleton; lia|].
      split; [|lia]. apply NoDup_cons. split; [|apply NoDup_singleton].
      rewrite list_elem_of_singleton. congruence.
Qed.

(** C34: one edge of the bank scheduler.  On a strictly later cycle it delivers at
    most one beat per lane, in FIFO order and without losing or repeating any part
    of a queued request; every beat stays inside one line, goes to the bank of its
    address and is ready [responseCycles] later; two beats of one cycle never share a
    bank; the response queue stays within its capacity.  On any other cycle it
    throws. *)
Theorem gm_step_correct (s : LocalGmBankScheduler) (cycle : Z) :
  scheduler_inv s ->
  if stepped_ s && (cycle <=? lastCycle_ s) then LocalGmBankScheduler_step s cycle = Throw logic_error
  else exists s' gs, LocalGmBankScheduler_step s cycle = Ok (s', gs) /\
    scheduler_inv s' /\ config_ s' = config_ s /\ lastCycle_ s' = cycle /\ stepped_ s' = true /\
    (forall lane, (lane < 2)%nat -> lane_work s lane = lane_beats lane gs ++ lane_work s' lane) /\
    Forall (grant_ok (config_ s) cycle) gs /\
    NoDup (map g_lane gs) /\ NoDup (map g_bank gs) /\ (length gs <= 2)%nat.
Proof. apply gm_step_facts. Qed.

(** ** Runs: conservation *)

Inductive gm_op := GmEnqueue (lane : nat) (r : GmRequest) | GmStep (cycle : Z).

(** Executes the operations; returns the accepted requests and the grants. *)
Fixpoint gm_run (s : LocalGmBankScheduler) (ops : list gm_op) :
    result (LocalGmBankScheduler * list (nat * GmRequest) * list GmGrant) :=
  match ops with
  | [] => Ok (s, [], [])
  | GmEnqueue lane r :: ops' =>
      let (s, accepted) := LocalGmBankScheduler_enqueue s lane r in
      let! x := gm_run s ops' in
      let '(s, rs, gs) := x in Ok (s, if accepted then (lane, r) :: rs else rs, gs)
  | GmStep cycle :: ops' =>
      let! y := LocalGmBankScheduler_step s cycle in
      let (s, g) := y in
      let! x := gm_run s ops' in
      let '(s, rs, gs) := x in Ok (s, rs, g ++ gs)
  end.

Definition accepted_on (lane : nat) (rs : list (nat * GmRequest)) : list GmRequest :=
  map snd (filter (fun x => x.1 = lane) rs).

Lemma enqueue_inv s lane r s' b :
  scheduler_inv s -> request_ok r -> LocalGmBankScheduler_enqueue s lane r = (s', b) ->
  scheduler_inv s' /\ config_ s' = config_ s /\
  forall l, (l < 2)%nat -> lane_work s' l =
    lane_work s l ++ (if b && (l =? lane)%nat then beats_of (lineBytes (config_ s)) r else []).
Proof.
  intros [Hc Hr Hs] Hok E. unfold LocalGmBankScheduler_enqueue in E. case_if_in E; injection E as <- <-.
  - split; [by split|]. split; [done|]. intros l _. by rewrite app_nil_r.
  - boolify. split; [|split; [done|]].
    + split; [done| |done]. intros l Hl. cbn [set_queue queues_]. destruct (Nat.eqb_spec l lane) as [->|]; [|by apply Hr].
      apply Forall_app. split; [by apply Hr|by apply Forall_singleton].
    + intros l _. unfold lane_work. cbn [set_queue queues_ config_ andb].
      destruct (Nat.eqb_spec l lane) as [->|]; [|by rewrite app_nil_r].
      rewrite map_app, concat_app. cbn [map concat]. by rewrite app_nil_r.
Qed.
(** C33: no payload is lost, repeated or reordered.  In every run of enqueues and
    edges that does not throw, what each lane has been granted, followed by what it
    still has queued, is exactly the accepted requests of that lane in order, each cut
    into its line-sized beats from offset zero to its length. *)
Theorem gm_run_conserves (ops : list gm_op) : forall (s s' : LocalGmBankScheduler) rs gs,
  scheduler_inv s ->
  Forall (fun o => match o with GmEnqueue _ r => request_ok r | GmStep _ => True end) ops ->
  gm_run s ops = Ok (s', rs, gs) ->
  scheduler_inv s' /\
  forall lane, (lane < 2)%nat ->
    lane_work s lane ++ concat (map (beats_of (lineBytes (config_ s))) (accepted_on lane rs)) =
    lane_beats lane gs ++ lane_work s' lane.
Proof.
  induction ops as [|o ops IH]; intros s s' rs gs I Hok E; cbn [gm_run] in E.
  - injection E as <- <- <-. split; [done|]. intros lane _. by rewrite app_nil_r.
  - apply Forall_cons in Hok as [Ho Hok]. destruct o as [lane0 r|cycle].
    + destruct (LocalGmBankScheduler_enqueue s lane0 r) as [s1 b] eqn:Eq.
      destruct (enqueue_inv s lane0 r s1 b I Ho Eq) as (I1 & C1 & W1).
      apply rbind_Ok in E as ([[s2 rs2] gs2] & E & F). injection F as <- <- <-.
      destruct (IH _ _ _ _ I1 Hok E) as [I2 W2]. split; [done|]. intros lane Hl.
      rewrite <- W2, W1, C1, <- app_assoc by done. f_equal.
      destruct b; cbn [andb]; [|done]. unfold accepted_on. rewrite filter_cons. cbn [fst].
      destruct (Nat.eqb_spec lane lane0) as [->|]; case_decide; try done; congruence.
    + apply rbind_Ok in E as ([s1 g] & Es & E).
      pose proof (gm_step_facts s cycle I) as St. case_if_in St; [congruence|].
      destruct St as (s1' & g' & Es' & I1 & C1 & _ & _ & W1 & _). rewrite Es in Es'. injection Es' as <- <-.
      apply rbind_Ok in E as ([[s2 rs2] gs2] & E & F). injection F as <- <- <-.
      destruct (IH _ _ _ _ I1 Hok E) as [I2 W2]. split; [done|]. intros lane Hl.
      rewrite lane_beats_app, <- app_assoc, <- W2, W1, C1, <- app_assoc by done. done.
Qed.

(** ** No lane idles without cause *)

Lemma lane_step_idle s cycle b lane r rest :
  queues_ s lane = r :: rest -> r_eligibleCycle r <= cycle ->
  (lane_step s cycle b lane).2 = [] ->
  beat_bank (config_ s) r = b \/ responseCapacity (config_ s) <= Z.of_nat (length (responses_ s)).
Proof.
  intros Eq He Hg. unfold lane_step in Hg. rewrite Eq in Hg.
  rewrite (proj2 (Z.ltb_ge _ _)) in Hg by lia. case_if_in Hg; [boolify; auto|].
  case_if_in Hg; [boolify; auto|discriminate].
Qed.

Lemma lane_step_responses s cycle b lane :
  let x := lane_step s cycle b lane in
  length (responses_ x.1.1) = (length (responses_ s) + length x.2)%nat /\
  forall l, l <> lane -> queues_ x.1.1 l = queues_ s l.
Proof.
  cbv zeta. unfold lane_step. destruct (queues_ s lane) as [|r rest]; [cbn; split; [lia|done]|].
  repeat (case_if; [cbn; split; [lia|done]|]). cbn. rewrite length_app. cbn. split; [lia|].
  intros l Hl. by rewrite (proj2 (Nat.eqb_neq _ _)).
Qed.
(** Arbitration is work conserving with fixed compute priority.  On a legal edge
    a lane whose front request is eligible and that receives no beat is blocked for
    one of two reasons only: the response queue is full, or it is the DMA lane and
    the compute lane was granted the same bank in this cycle. *)
Theorem gm_step_work_conserving (s : LocalGmBankScheduler) (cycle : Z) s' gs lane r rest :
  scheduler_inv s -> LocalGmBankScheduler_step s cycle = Ok (s', gs) ->
  (lane < 2)%nat -> queues_ s lane = r :: rest -> r_eligibleCycle r <= cycle ->
  lane_beats lane gs = [] ->
  responseCapacity (config_ s) <= Z.of_nat (length (pop_ready cycle (responses_ s)) + length gs) \/
  (lane = 1%nat /\ exists g, g ∈ gs /\ g_lane g = 0%nat /\ g_bank g = beat_bank (config_ s) r).
Proof.
  intros I E Hl Hq He Hn. pose proof (gm_step_facts s cycle I) as St. case_if_in St; [congruence|]. clear St.
  unfold LocalGmBankScheduler_step in E. rewrite Heqb in E. cbv zeta in E.
  set (s0 := mkScheduler _ _ _ _ _ _) in *.
  assert (I0 : scheduler_inv s0).
  { destruct I as [H1 H2 H3]. split; [done|done|]. pose proof (pop_ready_length cycle (responses_ s)). cbn. lia. }
  pose proof (lane_step_inv s0 cycle (-1) 0 I0 ltac:(lia)) as L0.
  pose proof (lane_step_responses s0 cycle (-1) 0) as R0. pose proof (lane_step_idle s0 cycle (-1) 0) as J0.
  destruct (lane_step s0 cycle (-1) 0) as [[s1 b] g0]. destruct L0 as (I1 & C1 & _ & _ & _ & G1).
  pose proof (lane_step_inv s1 cycle b 1 I1 ltac:(lia)) as L1.
  pose proof (lane_step_idle s1 cycle b 1) as J1.
  destruct (lane_step s1 cycle b 1) as [[s2 b2] g1]. destruct L1 as (_ & _ & _ & _ & _ & G2).
  cbn [fst snd] in *. destruct R0 as [R0 Q0]. injection E as <- <-.
  rewrite lane_beats_app in Hn. apply app_eq_nil in Hn as [Hn0 Hn1]. rewrite length_app.
  assert (Hbank : 0 <= beat_bank (config_ s) r).
  { unfold beat_bank. apply u32_range. }
  assert (lane = 0 \/ lane = 1)%nat as [->| ->] by lia.
  - assert (g0 = []) as -> by (destruct g0 as [|g [|]]; [done| |done];
      rewrite lane_beats_one in Hn0; destruct G1 as (Gl & _); rewrite Gl in Hn0; discriminate).
    left. destruct (J0 r rest Hq He eq_refl) as [E|E]; [cbn in E, Hbank; lia|]. cbn in E |- *. lia.
  - assert (g1 = []) as -> by (destruct g1 as [|g [|]]; [done| |done];
      rewrite lane_beats_one in Hn1; destruct G2 as (Gl & _); rewrite Gl in Hn1; discriminate).
    rewrite C1 in J1. specialize (J1 r rest). rewrite Q0 in J1 by done.
    destruct (J1 Hq He eq_refl) as [E|E].
    + destruct g0 as [|g [|]]; [subst b; cbn in E, Hbank; lia| |done].
      right. split; [done|]. exists g. destruct G1 as (Gl & Gb & _). split; [left|].
      split; [done|]. rewrite <- Gb. symmetry. exact E.
    + left. rewrite R0 in E. cbn in E |- *. lia.
Qed.

(** ** Witnesses *)

Definition ex_request (id address length : Z) : GmRequest := mkGmRequest id address length 0 0.
Definition ex_scheduler : LocalGmBankScheduler :=
  mkScheduler GmConfig_default (mkGmStats [0; 0] (replicate 8 0) 0 0 0 0)
    (fun l => if (l =? 0)%nat then [ex_request 1 100 300] else [ex_request 2 1124 64]) [] 0 false.

Lemma ex_scheduler_inv : scheduler_inv ex_scheduler.
Proof.
  split; [repeat split; reflexivity| |discriminate].
  intros [|lane] _; apply Forall_singleton; repeat split; (discriminate || reflexivity).
Qed.

Lemma gm_step_correct_witness :
  exists s' gs, LocalGmBankScheduler_step ex_scheduler 7 = Ok (s', gs) /\ scheduler_inv s'.
Proof.
  destruct (gm_step_correct ex_scheduler 7 ex_scheduler_inv) as (s' & gs & E & I & _). exists s', gs. exact (conj E I).
Defined.

Lemma gm_run_conserves_witness :
  exists s' rs gs,
    gm_run ex_scheduler [GmStep 1; GmEnqueue 1 (ex_request 3 0 10); GmStep 2; GmStep 5] = Ok (s', rs, gs) /\
    scheduler_inv s'.
Proof.
  assert (Forall (fun o => match o with GmEnqueue _ r => request_ok r | GmStep _ => True end)
    [GmStep 1; GmEnqueue 1 (ex_request 3 0 10); GmStep 2; GmStep 5]) as Hok.
  { repeat constructor; discriminate. }
  destruct (gm_run ex_scheduler [GmStep 1; GmEnqueue 1 (ex_request 3 0 10); GmStep 2; GmStep 5])
    as [[[s' rs] gs]|e] eqn:E; [|vm_compute in E; discriminate].
  exists s', rs, gs. split; [reflexivity|].
  exact (proj1 (gm_run_conserves _ ex_scheduler s' rs gs ex_scheduler_inv Hok E)).
Defined.

Lemma gm_step_work_conserving_witness :
  exists s' gs, LocalGmBankScheduler_step ex_scheduler 7 = Ok (s', gs) /\
  (32 <= Z.of_nat (length (pop_ready 7 (responses_ ex_scheduler)) + length gs) \/
   (1%nat = 1%nat /\ exists g, g ∈ gs /\ g_lane g = 0%nat /\ g_bank g = beat_bank GmConfig_default (ex_request 2 1124 64))).
Proof.
  destruct (LocalGmBankScheduler_step ex_scheduler 7) as [[s' gs]|e] eqn:E; [|vm_compute in E; discriminate].
  exists s', gs. split; [reflexivity|].
  apply (gm_step_work_conserving ex_scheduler 7 s' gs 1 (ex_request 2 1124 64) [] ex_scheduler_inv E);
    [repeat constructor|reflexivity|discriminate|].
  vm_compute in E. injection E as <- <-. reflexivity.
Defined.
