(* ===== verification/AttentionBase.v ===== *)
(** * Attention cluster: shared bookkeeping
      ([src/src/sst/elements/golem/attention/attentionCluster.h], lines 19-296)

    The cancellation registry, the traffic classes, the two busy-time accountants,
    the cluster configuration with its fingerprint, and the tag every context and
    lease carries. *)

From Stdlib Require Import ZArith Lia String Sorted.
From stdpp Require Import base numbers list gmap strings.
From S2P Require Import Prelude.
Open Scope Z_scope.

(** ** AttentionGenerationCancelRegistry *)

Module Registry.

(** [static unordered_map<uint64_t, size_t> cancelled_]. *)
Notation AttentionGenerationCancelRegistry := (gmap Z Z).

Definition Registry_token (owner generation : Z) : Z :=
  Z.lxor (u64 (Z.shiftl owner 32)) generation.

Definition Registry_cancel (cancelled : AttentionGenerationCancelRegistry) (owner generation pendingWrites : Z) :
    AttentionGenerationCancelRegistry :=
  if pendingWrites =? 0 then cancelled
  else let t := Registry_token owner generation in
       <[t := default 0 (cancelled !! t) ⊞ pendingWrites]> cancelled.

Definition Registry_consume (cancelled : AttentionGenerationCancelRegistry) (t : Z) :
    AttentionGenerationCancelRegistry * bool :=
  match cancelled !! t with
  | None => (cancelled, false)
  | Some n =>
      if t =? 0 then (cancelled, false)
      else if n <=? 1 then (delete t cancelled, true)
      else (<[t := n - 1]> cancelled, true)
  end.

Definition Registry_cancelledToken := Registry_consume.
Definition Registry_discardToken := Registry_consume.

Inductive registry_op := OpCancel (owner generation pendingWrites : Z) | OpConsume (t : Z).

(** Runs the operations; the booleans are the answers of the consumptions. *)
Fixpoint registry_run (r : AttentionGenerationCancelRegistry) (ops : list registry_op) :
    AttentionGenerationCancelRegistry * list bool :=
  match ops with
  | [] => (r, [])
  | OpCancel o g n :: ops' => registry_run (Registry_cancel r o g n) ops'
  | OpConsume t :: ops' =>
      let '(r', b) := Registry_consume r t in
      let '(r'', bs) := registry_run r' ops' in (r'', b :: bs)
  end.

(** The specification: one counter of outstanding writes per token. *)
Fixpoint counter_run (c : Z -> Z) (ops : list registry_op) : (Z -> Z) * list bool :=
  match ops with
  | [] => (c, [])
  | OpCancel o g n :: ops' =>
      counter_run (fun t => if t =? Registry_token o g then c t + n else c t) ops'
  | OpConsume t :: ops' =>
      let ok := negb (t =? 0) && (0 <? c t) in
      let '(c', bs) := counter_run (fun u => if (u =? t) && ok then c u - 1 else c u) ops' in
      (c', ok :: bs)
  end.

Definition registry_abs (r : AttentionGenerationCancelRegistry) (t : Z) : Z := default 0 (r !! t).
Definition registry_inv (r : AttentionGenerationCancelRegistry) : Prop :=
  map_Forall (fun _ n => 0 < n) r.
Definition cancelled_total (ops : list registry_op) : Z :=
  foldr (fun o acc => match o with OpCancel _ _ n => n + acc | OpConsume _ => acc end) 0 ops.
Definition op_ok (o : registry_op) : Prop :=
  match o with OpCancel _ _ n => 0 <= n | OpConsume _ => True end.

Lemma counter_run_ext ops : forall c c', (forall t, c t = c' t) ->
  (forall t, (counter_run c ops).1 t = (counter_run c' ops).1 t) /\ (counter_run c ops).2 = (counter_run c' ops).2.
Proof.
  induction ops as [|[o g n|t] ops IH]; intros c c' E; cbn [counter_run]; [done| |].
  - apply IH. intros t. by rewrite E.
  - cbv zeta. rewrite <- (E t). set (ok := negb (t =? 0) && (0 <? c t)).
    destruct (IH (fun u => if (u =? t) && ok then c u - 1 else c u)
                 (fun u => if (u =? t) && ok then c' u - 1 else c' u)) as [H1 H2];
      [intros u; by rewrite E|].
    destruct (counter_run (fun u => if (u =? t) && ok then c u - 1 else c u) ops),
      (counter_run (fun u => if (u =? t) && ok then c' u - 1 else c' u) ops).
    cbn [fst snd] in *. by rewrite H2.
Qed.

Lemma registry_cancel_abs r o g n :
  registry_inv r -> 0 <= n -> registry_abs r (Registry_token o g) + n < 2 ^ 64 ->
  registry_inv (Registry_cancel r o g n) /\
  forall t, registry_abs (Registry_cancel r o g n) t =
    if t =? Registry_token o g then registry_abs r t + n else registry_abs r t.
Proof.
  intros I Hn Hb. unfold Registry_cancel, registry_abs in *. destruct (Z.eqb_spec n 0) as [->|Hne].
  - split; [done|]. intros t. destruct (t =? _); lia.
  - cbv zeta. set (k := Registry_token o g) in *.
    assert (0 <= default 0 (r !! k)).
    { destruct (r !! k) as [m|] eqn:E; cbn; [|lia]. pose proof (I k m E : 0 < m). lia. }
    rewrite u64_id by (unfold in_u64; lia). split.
    + apply map_Forall_insert_2; [lia|done].
    + intros t. destruct (Z.eqb_spec t k) as [->|Ht].
      * by rewrite lookup_insert_eq.
      * by rewrite lookup_insert_ne.
Qed.

Lemma registry_consume_abs r t :
  registry_inv r ->
  let ok := negb (t =? 0) && (0 <? registry_abs r t) in
  (Registry_consume r t).2 = ok /\ registry_inv (Registry_consume r t).1 /\
  forall u, registry_abs (Registry_consume r t).1 u =
    if (u =? t) && ok then registry_abs r u - 1 else registry_abs r u.
Proof.
  intros I. cbv zeta. unfold Registry_consume, registry_abs. destruct (r !! t) as [n|] eqn:E.
  - change (default 0 (Some n)) with n. pose proof (I t n E : 0 < n). rewrite (proj2 (Z.ltb_lt 0 n)) by done. destruct (Z.eqb_spec t 0); cbn [negb andb].
    + split; [done|]. split; [done|]. intros u. by rewrite andb_false_r.
    + destruct (Z.leb_spec n 1); cbn [fst snd].
      * split; [done|]. split; [by apply map_Forall_delete|]. intros u. rewrite andb_true_r.
        destruct (Z.eqb_spec u t) as [->|].
        -- rewrite lookup_delete_eq, E. cbn. lia.
        -- by rewrite lookup_delete_ne.
      * split; [done|]. split; [apply map_Forall_insert_2; [lia|done]|]. intros u. rewrite andb_true_r.
        destruct (Z.eqb_spec u t) as [->|].
        -- by rewrite lookup_insert_eq, E.
        -- by rewrite lookup_insert_ne.
  - cbn. rewrite andb_false_r. split; [done|]. split; [done|]. intros u. by rewrite andb_false_r.
Qed.

(** Every cancelled write is answered exactly once.  As long as fewer than 2^64
    writes are outstanding, the registry behaves as one counter per token: a
    cancellation adds its pending writes, a consumption succeeds exactly while the
    token's counter is positive and takes one from it, and no other token changes. *)
Theorem registry_counts_writes (ops : list registry_op) : forall r,
  registry_inv r -> Forall op_ok ops ->
  (forall t, registry_abs r t + cancelled_total ops < 2 ^ 64) ->
  registry_inv (registry_run r ops).1 /\
  (registry_run r ops).2 = (counter_run (registry_abs r) ops).2 /\
  forall t, registry_abs (registry_run r ops).1 t = (counter_run (registry_abs r) ops).1 t.
Proof.
  induction ops as [|op ops IH]; intros r I Hok Hb; [done|].
  apply Forall_cons in Hok as [Ho Hok].
  assert (Hc : 0 <= cancelled_total ops).
  { clear -Hok. unfold cancelled_total. induction Hok as [|[] ops H _ IH]; cbn in *; lia. }
  destruct op as [o g n|t]; cbn [registry_run counter_run cancelled_total foldr] in *.
  - fold (cancelled_total ops) in Hb. cbn in Ho.
    destruct (registry_cancel_abs r o g n I Ho) as [I' A']; [specialize (Hb (Registry_token o g)); lia|].
    destruct (IH _ I' Hok) as (J & R & A).
    { intros t. rewrite A'. specialize (Hb t). destruct (t =? _); lia. }
    destruct (counter_run_ext ops _ _ A') as [X1 X2].
    split; [done|]. rewrite R, X2. split; [done|]. intros t. by rewrite A, X1.
  - fold (cancelled_total ops) in Hb. cbv zeta. destruct (registry_consume_abs r t I) as (Eb & I' & A'). cbv zeta in Eb, A'.
    destruct (Registry_consume r t) as [r' b]. cbn [fst snd] in *.
    destruct (IH _ I' Hok) as (J & R & A).
    { intros u. rewrite A'. specialize (Hb u). case_if; lia. }
    destruct (counter_run_ext ops _ _ A') as [X1 X2]. rewrite Eb.
    destruct (registry_run r' ops), (counter_run (registry_abs r') ops),
      (counter_run (fun u => if (u =? t) && (negb (t =? 0) && (0 <? registry_abs r t))
                             then registry_abs r u - 1 else registry_abs r u) ops).
    cbn [fst snd] in *. split; [done|]. split; [congruence|]. intros u. by rewrite A, X1.
Qed.

Lemma registry_counts_writes_witness :
  let ops := [OpCancel 1 2 2; OpConsume (Registry_token 1 2); OpConsume (Registry_token 1 3);
              OpConsume (Registry_token 1 2); OpConsume (Registry_token 1 2)] in
  registry_inv (registry_run ∅ ops).1 /\ (registry_run ∅ ops).2 = [true; false; true; false].
Proof.
  cbv zeta.
  destruct (registry_counts_writes
    [OpCancel 1 2 2; OpConsume (Registry_token 1 2); OpConsume (Registry_token 1 3);
     OpConsume (Registry_token 1 2); OpConsume (Registry_token 1 2)] ∅) as (I & R & _).
  - apply map_Forall_empty.
  - repeat constructor. discriminate.
  - intros t. unfold registry_abs. rewrite lookup_empty. reflexivity.
  - split; [exact I|]. rewrite R. vm_compute. reflexivity.
Defined.
End Registry.

(** ** BusyIntervalUnion *)

Module Busy.

(** The priority queue of interval ends: its top is the head. *)
Fixpoint heap_push (e : Z) (h : list Z) : list Z :=
  match h with
  | [] => [e]
  | x :: h' => if e <=? x then e :: h else x :: heap_push e h'
  end.
Fixpoint heap_pop_until (start : Z) (h : list Z) : list Z :=
  match h with
  | [] => []
  | x :: h' => if x <=? start then heap_pop_until start h' else h
  end.

Record BusyIntervalUnion := mkBusy {
  hasInterval_ : bool; firstStart_ : Z; lastStart_ : Z; mergedEnd_ : Z; lastEnd_ : Z;
  unionCycles_ : Z; idleCycles_ : Z; maxConcurrency_ : Z; operations_ : Z;
  activeEnds_ : list Z }.

Definition BusyIntervalUnion_new : BusyIntervalUnion := mkBusy false 0 0 0 0 0 0 0 0 [].

(** The new [firstStart_, mergedEnd_, unionCycles_, idleCycles_]. *)
Definition busy_merge (b : BusyIntervalUnion) (start e : Z) : Z * Z * Z * Z :=
  if negb (hasInterval_ b) then (start, e, e ⊟ start, idleCycles_ b)
  else if start <=? mergedEnd_ b then
    if mergedEnd_ b <? e then
      (firstStart_ b, e, unionCycles_ b ⊞ (e ⊟ mergedEnd_ b), idleCycles_ b)
    else (firstStart_ b, mergedEnd_ b, unionCycles_ b, idleCycles_ b)
  else (firstStart_ b, e, unionCycles_ b ⊞ (e ⊟ start), idleCycles_ b ⊞ (start ⊟ mergedEnd_ b)).

Definition BusyIntervalUnion_add (b : BusyIntervalUnion) (start e : Z) : BusyIntervalUnion * bool :=
  if (e <=? start) || (hasInterval_ b && (start <? lastStart_ b)) then (b, false)
  else
    let active := heap_push e (heap_pop_until start (activeEnds_ b)) in
    let '(first, merged, un, idle) := busy_merge b start e in
    (mkBusy true first start merged (Z.max (lastEnd_ b) e) un idle
       (Z.max (maxConcurrency_ b) (Z.of_nat (length active))) (operations_ b ⊞ 1) active, true).

Definition BusyIntervalUnion_empty (b : BusyIntervalUnion) : bool := negb (hasInterval_ b).
Definition BusyIntervalUnion_spanCycles (b : BusyIntervalUnion) : Z :=
  if hasInterval_ b then lastEnd_ b ⊟ firstStart_ b else 0.
Definition BusyIntervalUnion_reset (b : BusyIntervalUnion) : BusyIntervalUnion := BusyIntervalUnion_new.

(** Adds the intervals one by one; returns the accepted ones. *)
Fixpoint busy_run (b : BusyIntervalUnion) (l : list (Z * Z)) : BusyIntervalUnion * list (Z * Z) :=
  match l with
  | [] => (b, [])
  | (s, e) :: l' =>
      let (b', ok) := BusyIntervalUnion_add b s e in
      let (b'', acc) := busy_run b' l' in (b'', if ok then (s, e) :: acc else acc)
  end.

(** *** The reference: sets of cycles *)

Definition inside (i : Z * Z) (c : Z) : bool := (i.1 <=? c) && (c <? i.2).
Definition covered (l : list (Z * Z)) (c : Z) : bool := existsb (fun i => inside i c) l.
Definition concurrency (l : list (Z * Z)) (c : Z) : Z :=
  foldr (fun i n => (if inside i c then 1 else 0) + n) 0 l.
(** What the interface promises to accept: non-empty intervals in the order of their
    starts. *)
Fixpoint in_order (last : Z) (l : list (Z * Z)) : list (Z * Z) :=
  match l with
  | [] => []
  | (s, e) :: l' => if (s <? e) && (last <=? s) then (s, e) :: in_order s l' else in_order last l'
  end.

Definition active_count (s : Z) (l : list (Z * Z)) : Z :=
  foldr (fun i n => (if s <? i.2 then 1 else 0) + n) 0 l.

(** The state after the accepted intervals [l]. *)
Record busy_inv (b : BusyIntervalUnion) (l : list (Z * Z)) : Prop := {
  bi_ops : operations_ b = u64 (Z.of_nat (length l));
  bi_last : 0 <= lastStart_ b;
  bi_none : hasInterval_ b = false -> l = [] /\ b = BusyIntervalUnion_new;
  bi_some : hasInterval_ b = true ->
    (exists e, head l = Some (firstStart_ b, e)) /\
    Forall (fun i => firstStart_ b <= i.1 <= lastStart_ b /\ i.1 < i.2 <= mergedEnd_ b) l /\
    (exists s, (s, mergedEnd_ b) ∈ l) /\
    in_u64 (firstStart_ b) /\ in_u64 (mergedEnd_ b) /\ lastEnd_ b = mergedEnd_ b /\
    unionCycles_ b = count (covered l) (firstStart_ b) (mergedEnd_ b) /\
    idleCycles_ b = mergedEnd_ b - firstStart_ b - unionCycles_ b;
  bi_sorted : Sorted Z.le (activeEnds_ b);
  bi_active : forall s, lastStart_ b <= s ->
    active_count s l = foldr (fun e n => (if s <? e then 1 else 0) + n) 0 (activeEnds_ b);
  bi_max : (forall c, concurrency l c <= maxConcurrency_ b) /\
           (l <> [] -> exists c, concurrency l c = maxConcurrency_ b) }.

Lemma heap_push_perm e h : heap_push e h ≡ₚ e :: h.
Proof.
  induction h as [|x h IH]; [done|]. cbn [heap_push]. case_if; [done|]. rewrite IH. apply Permutation_swap.
Qed.

Lemma heap_push_sorted e h : Sorted Z.le h -> Sorted Z.le (heap_push e h).
Proof.
  induction 1 as [|x h Hs IH Hd]; cbn [heap_push]; [repeat constructor|].
  case_if; boolify; [repeat constructor; done|].
  constructor; [done|]. destruct h as [|y h]; cbn [heap_push]; [constructor; lia|].
  apply HdRel_inv in Hd. case_if; boolify; constructor; lia.
Qed.

Lemma heap_pop_sorted s h : Sorted Z.le h -> Sorted Z.le (heap_pop_until s h).
Proof. induction 1 as [|x h Hs IH Hd]; cbn [heap_pop_until]; [constructor|]. case_if; [done|by constructor]. Qed.

Notation above s h := (foldr (fun e n => (if s <? e then 1 else 0) + n) 0 h).

Lemma above_pop s s' h : s <= s' -> above s' (heap_pop_until s h) = above s' h.
Proof.
  intros Hs. induction h as [|x h IH]; [done|]. cbn [heap_pop_until]. case_if; [|done].
  boolify. cbn [foldr]. rewrite (proj2 (Z.ltb_ge s' x)) by lia. lia.
Qed.

Lemma above_push s e h : above s (heap_push e h) = (if s <? e then 1 else 0) + above s h.
Proof.
  induction h as [|x h IH]; [done|]. cbn [heap_push]. case_if; [done|]. cbn [foldr]. rewrite IH. lia.
Qed.

Lemma above_all s h : Sorted Z.le h -> Forall (fun e => s < e) (heap_pop_until s h).
Proof.
  intros Hs%Sorted_StronglySorted; [|intros x y z; lia].
  induction Hs as [|x h Hs IH Hd]; cbn [heap_pop_until]; [constructor|]. case_if; [done|]. boolify.
  constructor; [lia|]. eapply Forall_impl; [exact Hd|]. cbn. lia.
Qed.

Lemma above_length s h : Forall (fun e => s < e) h -> above s h = Z.of_nat (length h).
Proof.
  induction 1 as [|x h Hx _ IH]; [done|]. cbn [foldr length]. rewrite (proj2 (Z.ltb_lt s x)) by lia. lia.
Qed.

Lemma covered_app l l' c : covered (l ++ l') c = covered l c || covered l' c.
Proof. apply existsb_app. Qed.
Lemma concurrency_snoc l i c : concurrency (l ++ [i]) c = concurrency l c + (if inside i c then 1 else 0).
Proof. unfold concurrency. induction l as [|j l IH]; cbn [app foldr]; lia. Qed.
Lemma active_count_snoc s l i : active_count s (l ++ [i]) = active_count s l + (if s <? i.2 then 1 else 0).
Proof. unfold active_count. induction l as [|j l IH]; cbn [app foldr]; lia. Qed.

Lemma covered_out l lo hi c :
  Forall (fun i => lo <= i.1 /\ i.2 <= hi) l -> c < lo \/ hi <= c -> covered l c = false.
Proof.
  intros Hf Hc. induction Hf as [|i l [H1 H2] _ IH]; [done|]. unfold covered in *. cbn [existsb]. rewrite IH, orb_false_r.
  unfold inside. apply andb_false_iff. destruct Hc; [left; apply Z.leb_gt|right; apply Z.ltb_ge]; lia.
Qed.

Lemma covered_in l s e c : (s, e) ∈ l -> s <= c < e -> covered l c = true.
Proof.
  intros Hin Hc. apply existsb_exists. exists (s, e). split; [by apply list_elem_of_In|].
  unfold inside. cbn. apply andb_true_iff. split; [apply Z.leb_le|apply Z.ltb_lt]; lia.
Qed.

Lemma covered_one s e c : covered [(s, e)] c = (s <=? c) && (c <? e).
Proof. unfold covered, inside. cbn [existsb fst snd]. by rewrite orb_false_r. Qed.

(** Past the last start the number of running intervals can only fall. *)
Lemma concurrency_active l s c : Forall (fun i => i.1 <= s) l -> s <= c -> concurrency l c = active_count c l.
Proof.
  intros Hf Hc. unfold concurrency, active_count. induction Hf as [|i l Hi _ IH]; [done|]. cbn [foldr].
  rewrite IH. unfold inside. by rewrite (proj2 (Z.leb_le i.1 c)) by lia.
Qed.
Lemma active_count_mono l s c : s <= c -> active_count c l <= active_count s l.
Proof.
  intros Hc. unfold active_count. induction l as [|i l IH]; [done|]. cbn [foldr].
  destruct (Z.ltb_spec c i.2), (Z.ltb_spec s i.2); lia.
Qed.

(** The clauses of [bi_some] as one predicate on the merged fields. *)
Definition merged_inv (l : list (Z * Z)) (first last merged un idle : Z) : Prop :=
  (exists e, head l = Some (first, e)) /\
  Forall (fun i => first <= i.1 <= last /\ i.1 < i.2 <= merged) l /\
  (exists s, (s, merged) ∈ l) /\ in_u64 first /\ in_u64 merged /\
  un = count (covered l) first merged /\ idle = merged - first - un.

Lemma merge_first s e : in_u64 s -> in_u64 e -> s < e -> merged_inv [(s, e)] s s e (e ⊟ s) 0.
Proof.
  intros Hs He Hlt. split; [by exists e|]. split; [apply Forall_singleton; cbn; lia|].
  split; [exists s; apply list_elem_of_here|]. split; [done|]. split; [done|].
  assert (count (covered [(s, e)]) s e = e - s) as ->.
  { rewrite count_true; [lia|]. intros c Hc. apply (covered_in _ s e); [apply list_elem_of_here|lia]. }
  unfold in_u64 in *. rewrite u64_id by (unfold in_u64; lia). lia.
Qed.

Lemma merge_next l first last merged un idle s e :
  merged_inv l first last merged un idle -> in_u64 e -> s < e -> last <= s ->
  let '(m', u', i') :=
    if s <=? merged then
      if merged <? e then (e, un ⊞ (e ⊟ merged), idle) else (merged, un, idle)
    else (e, un ⊞ (e ⊟ s), idle ⊞ (s ⊟ merged)) in
  merged_inv (l ++ [(s, e)]) first s m' u' i' /\ m' = Z.max merged e.
Proof.
  intros (He0 & Hf & [s0 Hin] & Uf & Um & -> & ->) Ue Hlt Hlast.
  pose proof (count_range (covered l) first merged) as Hcr.
  assert (Hs0 : first <= s0 <= last /\ s0 < merged).
  { rewrite Forall_forall in Hf. specialize (Hf _ Hin). cbn in Hf. lia. }
  assert (Hfm : forall m', merged <= m' -> e <= m' ->
            Forall (fun i => first <= i.1 <= s /\ i.1 < i.2 <= m') (l ++ [(s, e)])).
  { intros m' H1 H2. apply Forall_app. split; [|apply Forall_singleton; cbn; lia].
    eapply Forall_impl; [exact Hf|]. cbn. intros i Hi. lia. }
  assert (Hh : exists e0, head (l ++ [(s, e)]) = Some (first, e0)).
  { destruct l; [by apply elem_of_nil in Hin|exact He0]. }
  assert (Hout : forall c, merged <= c -> covered (l ++ [(s, e)]) c = (s <=? c) && (c <? e)).
  { intros c Hc. rewrite covered_app, covered_one, (covered_out l first merged); [done| |lia].
    eapply Forall_impl; [exact Hf|]. cbn. intros i Hi. lia. }
  assert (Hold : s <= merged -> count (covered (l ++ [(s, e)])) first merged =
                 count (covered l) first merged).
  { intros Hsm. apply count_ext. intros c Hc. rewrite covered_app, covered_one.
    destruct (Z.le_gt_cases s c).
    - by rewrite (covered_in l s0 merged c) by (done || lia).
    - rewrite (proj2 (Z.leb_gt s c)) by lia. by rewrite orb_false_r. }
  unfold in_u64 in *.
  destruct (Z.leb_spec s merged) as [Hsm|Hsm]; [destruct (Z.ltb_spec merged e) as [Hme|Hme]|].
  - rewrite (Z.max_r merged e) by lia. split; [|done].
    split; [done|]. split; [apply Hfm; lia|].
    split; [exists s; apply elem_of_app; right; apply list_elem_of_here|]. split; [done|]. split; [done|].
    assert (count (covered (l ++ [(s, e)])) first e = count (covered l) first merged + (e - merged)) as ->.
    { rewrite (count_split _ first merged e) by lia. rewrite (Hold Hsm). f_equal.
      rewrite count_true; [lia|]. intros c Hc. rewrite Hout by lia.
      apply andb_true_iff. split; [apply Z.leb_le|apply Z.ltb_lt]; lia. }
    unwrap. split; lia.
  - rewrite (Z.max_l merged e) by lia. split; [|done].
    split; [done|]. split; [apply Hfm; lia|].
    split; [exists s0; apply elem_of_app; by left|]. split; [done|]. split; [done|].
    rewrite (Hold Hsm). lia.
  - rewrite (Z.max_r merged e) by lia. split; [|done].
    split; [done|]. split; [apply Hfm; lia|].
    split; [exists s; apply elem_of_app; right; apply list_elem_of_here|]. split; [done|]. split; [done|].
    assert (count (covered (l ++ [(s, e)])) first e = count (covered l) first merged + (e - s)) as ->.
    { rewrite (count_split _ first merged e), (count_split _ merged s e) by lia.
      rewrite (count_ext _ (covered l) first merged), (count_false _ merged s), (count_true _ s e); [lia|..].
      - intros c Hc. rewrite Hout by lia. apply andb_true_iff. split; [apply Z.leb_le|apply Z.ltb_lt]; lia.
      - intros c Hc. rewrite Hout by lia. apply andb_false_iff. left. apply Z.leb_gt. lia.
      - intros c Hc. rewrite covered_app, covered_one, (proj2 (Z.leb_gt s c)) by lia. by rewrite orb_false_r. }
    unwrap. split; lia.
Qed.

(** The concurrency clauses after one more interval. *)
Lemma max_next l last ends mx s e :
  Forall (fun i => i.1 <= last) l -> last <= s < e -> Sorted Z.le ends ->
  (forall c, last <= c -> active_count c l = above c ends) ->
  (forall c, concurrency l c <= mx) -> (l <> [] -> exists c, concurrency l c = mx) -> (l = [] -> mx = 0) ->
  let ends' := heap_push e (heap_pop_until s ends) in
  let mx' := Z.max mx (Z.of_nat (length ends')) in
  Sorted Z.le ends' /\
  (forall c, s <= c -> active_count c (l ++ [(s, e)]) = above c ends') /\
  (forall c, concurrency (l ++ [(s, e)]) c <= mx') /\ (exists c, concurrency (l ++ [(s, e)]) c = mx').
Proof.
  intros Hl Hs Hso Ha Hm Hex H0. cbv zeta.
  assert (Ha' : forall c, s <= c -> active_count c (l ++ [(s, e)]) = above c (heap_push e (heap_pop_until s ends))).
  { intros c Hc. rewrite active_count_snoc, above_push, above_pop, Ha by lia. cbn [snd]. lia. }
  assert (Hlen : Z.of_nat (length (heap_push e (heap_pop_until s ends))) = concurrency (l ++ [(s, e)]) s).
  { rewrite (concurrency_active _ s s), Ha' by (done || lia ||
      (apply Forall_app; split; [eapply Forall_impl; [exact Hl|]; cbn; lia|by apply Forall_singleton])).
    rewrite above_length; [done|]. rewrite heap_push_perm.
    constructor; [lia|by apply above_all]. }
  assert (Hf' : Forall (fun i : Z * Z => i.1 <= s) (l ++ [(s, e)])).
  { apply Forall_app. split; [eapply Forall_impl; [exact Hl|]; cbn; lia|by apply Forall_singleton]. }
  split; [by apply heap_push_sorted, heap_pop_sorted|]. split; [done|]. rewrite Hlen. split.
  - intros c. destruct (Z.le_gt_cases s c).
    + rewrite (concurrency_active _ s c), (concurrency_active _ s s) by (done || lia).
      pose proof (active_count_mono (l ++ [(s, e)]) s c). lia.
    + rewrite (concurrency_snoc _ _ c). unfold inside at 1. cbn [fst snd]. rewrite (proj2 (Z.leb_gt s c)) by lia. cbn.
      specialize (Hm c). lia.
  - destruct (Z.le_gt_cases mx (concurrency (l ++ [(s, e)]) s)); [exists s; lia|].
    assert (0 <= concurrency (l ++ [(s, e)]) s) by (rewrite <- Hlen; lia).
    destruct l as [|i l']; [specialize (H0 eq_refl); lia|]. destruct Hex as [c Hc]; [done|].
    exists c. rewrite Z.max_l by lia. rewrite <- Hc, concurrency_snoc.
    unfold inside. cbn [fst snd].
    destruct ((s <=? c) && (c <? e)) eqn:E; [|lia]. exfalso. boolify.
    pose proof (active_count_mono ((i :: l') ++ [(s, e)]) s c).
    rewrite (concurrency_active _ s s) in * by (done || lia).
    assert (concurrency ((i :: l') ++ [(s, e)]) c <= active_count s ((i :: l') ++ [(s, e)]))
      by (rewrite (concurrency_active _ s c); (done || lia)).
    rewrite concurrency_snoc in *. unfold inside in *. cbn [fst snd] in *.
    rewrite (proj2 (Z.leb_le s c)), (proj2 (Z.ltb_lt c e)) in * by lia. cbn in *. lia.
Qed.

Lemma busy_inv_nil : busy_inv BusyIntervalUnion_new [].
Proof.
  split; [done|cbn; lia|done|done|constructor|done|]. split; [|done]. intros c. cbn. lia.
Qed.

Lemma busy_add_inv b l s e :
  busy_inv b l -> in_u64 s -> in_u64 e ->
  let ok := (s <? e) && (lastStart_ b <=? s) in
  (BusyIntervalUnion_add b s e).2 = ok /\
  if ok then busy_inv (BusyIntervalUnion_add b s e).1 (l ++ [(s, e)]) /\
             lastStart_ (BusyIntervalUnion_add b s e).1 = s
  else (BusyIntervalUnion_add b s e).1 = b.
Proof.
  intros I Us Ue. cbv zeta. unfold BusyIntervalUnion_add.
  assert (H0 : lastStart_ b <= s \/ hasInterval_ b = true).
  { destruct (hasInterval_ b) eqn:Eh; [by right|]. left. destruct (bi_none b l I Eh) as [_ ->]. cbn.
    unfold in_u64 in Us. lia. }
  assert (((e <=? s) || (hasInterval_ b && (s <? lastStart_ b))) = negb ((s <? e) && (lastStart_ b <=? s))) as ->.
  { destruct (Z.leb_spec e s), (Z.ltb_spec s e), (Z.ltb_spec s (lastStart_ b)), (Z.leb_spec (lastStart_ b) s),
      (hasInterval_ b); destruct H0; try done; lia. }
  destruct ((s <? e) && (lastStart_ b <=? s)) eqn:Eok; cbn [negb]; [|done]. boolify.
  destruct (busy_merge b s e) as [[[first merged] un] idle] eqn:Em. cbn [fst snd lastStart_].
  split; [done|]. split; [|done].
  assert (Hm : merged_inv (l ++ [(s, e)]) first s merged un idle /\ merged = Z.max (lastEnd_ b) e).
  { unfold busy_merge in Em. destruct (hasInterval_ b) eqn:Eh; cbn [negb] in Em.
    - destruct (bi_some b l I Eh) as (A1 & A2 & A3 & A4 & A5 & -> & A7 & A8).
      pose proof (merge_next l _ _ _ _ _ s e (conj A1 (conj A2 (conj A3 (conj A4 (conj A5 (conj A7 A8)))))) Ue) as N.
      specialize (N ltac:(lia) ltac:(lia)).
      repeat case_if_in Em; injection Em as <- <- <- <-; done.
    - injection Em as <- <- <- <-. destruct (bi_none b l I Eh) as [-> ->]. cbn [app idleCycles_ BusyIntervalUnion_new lastEnd_].
      unfold in_u64 in *. rewrite Z.max_r by lia. split; [|done]. apply merge_first; (done || lia). }
  destruct Hm as [(M1 & M2 & M3 & M4 & M5 & M6 & M7) Hme].
  assert (Hl : Forall (fun i : Z * Z => i.1 <= lastStart_ b) l).
  { destruct (hasInterval_ b) eqn:Eh.
    - destruct (bi_some b l I Eh) as (_ & A2 & _). eapply Forall_impl; [exact A2|]. cbn. lia.
    - destruct (bi_none b l I Eh) as [-> _]. constructor. }
  assert (Hz : l = [] -> maxConcurrency_ b = 0).
  { intros ->. destruct (hasInterval_ b) eqn:Eh.
    - destruct (bi_some b [] I Eh) as (_ & _ & [x Hx%elem_of_nil] & _). done.
    - by destruct (bi_none b [] I Eh) as [_ ->]. }
  destruct (bi_max b l I) as [X1 X2].
  destruct (max_next l (lastStart_ b) (activeEnds_ b) (maxConcurrency_ b) s e Hl ltac:(lia)
              (bi_sorted b l I) (bi_active b l I) X1 X2 Hz) as (N1 & N2 & N3 & N4).
  split; cbn [operations_ lastStart_ hasInterval_ firstStart_ mergedEnd_ lastEnd_ unionCycles_ idleCycles_
              maxConcurrency_ activeEnds_]; try done.
  - rewrite (bi_ops b l I), length_app. cbn [length]. unfold u64. rewrite Zplus_mod_idemp_l. f_equal. lia.
  - unfold in_u64 in Us. lia.
Qed.

Lemma busy_run_inv l : forall b acc, busy_inv b acc -> Forall (fun i => in_u64 i.1 /\ in_u64 i.2) l ->
  busy_inv (busy_run b l).1 (acc ++ (busy_run b l).2) /\ (busy_run b l).2 = in_order (lastStart_ b) l.
Proof.
  induction l as [|[s e] l IH]; intros b acc I Hl.
  - cbn. by rewrite app_nil_r.
  - apply Forall_cons in Hl as [[Us Ue] Hl]. cbn [fst snd] in Us, Ue. cbn [busy_run in_order].
    destruct (busy_add_inv b acc s e I Us Ue) as [Eok Hs].
    destruct (BusyIntervalUnion_add b s e) as [b' ok]. cbn [fst snd] in *. subst ok.
    destruct ((s <? e) && (lastStart_ b <=? s)).
    + destruct Hs as [I' El]. destruct (IH b' _ I' Hl) as [J E]. destruct (busy_run b' l) as [b'' acc'].
      cbn [fst snd] in *. rewrite <- app_assoc in J. split; [exact J|]. by rewrite E, El.
    + subst b'. destruct (IH b _ I Hl) as [J E]. destruct (busy_run b l) as [b'' acc']. done.
Qed.

(** C36: interval accounting is exact.  Whatever intervals are offered, the accounting
    accepts exactly the non-empty ones in the order of their starts, and afterwards
    [unionCycles] is the number of cycles covered by some accepted interval,
    [idleCycles] the number of uncovered cycles between the first start and the last
    end, [spanCycles] the distance between these two, and [maxConcurrency] the
    largest number of intervals that share a cycle. *)
Theorem busy_union_correct (l : list (Z * Z)) :
  Forall (fun i => in_u64 i.1 /\ in_u64 i.2) l ->
  let (b, acc) := busy_run BusyIntervalUnion_new l in
  acc = in_order 0 l /\
  unionCycles_ b = count (covered acc) 0 (2 ^ 64) /\
  (forall first last, head acc = Some first -> Forall (fun i => i.2 <= last.2) acc -> last ∈ acc ->
     BusyIntervalUnion_spanCycles b = last.2 - first.1 /\
     idleCycles_ b = count (fun c => negb (covered acc c)) first.1 last.2) /\
  (forall c, concurrency acc c <= maxConcurrency_ b) /\
  (acc <> [] -> exists c, concurrency acc c = maxConcurrency_ b) /\
  operations_ b = u64 (Z.of_nat (length acc)) /\
  (BusyIntervalUnion_empty b = true <-> acc = []).
Proof.
  intros Hl. destruct (busy_run_inv l _ _ busy_inv_nil Hl) as [I E]. cbn [app lastStart_ BusyIntervalUnion_new] in I, E.
  destruct (busy_run BusyIntervalUnion_new l) as [b acc]. cbn [fst snd] in *. split; [exact E|]. clear E Hl.
  destruct (hasInterval_ b) eqn:Eh.
  - destruct (bi_some b acc I Eh) as ([e0 He0] & Hf & [s0 Hs0] & Uf & Um & El & Eu & Ei).
    assert (Hb : Forall (fun i => firstStart_ b <= i.1 /\ i.2 <= mergedEnd_ b) acc).
    { eapply Forall_impl; [exact Hf|]. cbn. lia. }
    assert (Hlt : firstStart_ b <= mergedEnd_ b).
    { rewrite Forall_forall in Hf. specialize (Hf _ Hs0). cbn in Hf. lia. }
    unfold in_u64 in *. split; [|split].
    + rewrite Eu, (count_split _ 0 (firstStart_ b)), (count_split _ (firstStart_ b) (mergedEnd_ b) (2 ^ 64)) by lia.
      rewrite (count_false _ 0 (firstStart_ b)), (count_false _ (mergedEnd_ b) (2 ^ 64)); [lia|..];
        intros c Hc; apply (covered_out _ _ _ _ Hb); lia.
    + intros first last Hfirst Hlast Hin. assert (first = (firstStart_ b, e0)) as -> by congruence.
      assert (last.2 = mergedEnd_ b) as ->.
      { rewrite Forall_forall in Hlast, Hb. specialize (Hlast _ Hs0). specialize (Hb _ Hin). cbn in *. lia. }
      unfold BusyIntervalUnion_spanCycles. rewrite Eh, El. cbn [fst]. unwrap. split; [done|].
      rewrite count_negb, Ei, Eu. lia.
    + split; [apply (bi_max b acc I)|]. split; [apply (bi_max b acc I)|]. split; [apply (bi_ops b acc I)|].
      unfold BusyIntervalUnion_empty. rewrite Eh. split; [done|]. intros ->. by apply elem_of_nil in Hs0.
  - destruct (bi_none b acc I Eh) as [-> ->]. split; [|split; [done|]].
    + symmetry. by apply count_false.
    + split; [intros c; cbn; lia|]. done.
Qed.

Lemma busy_union_correct_witness :
  let (b, acc) := busy_run BusyIntervalUnion_new [(3, 8); (5, 6); (2, 9); (10, 12); (11, 11); (11, 14)] in
  acc = [(3, 8); (5, 6); (10, 12); (11, 14)] /\ unionCycles_ b = count (covered acc) 0 (2 ^ 64).
Proof.
  assert (H : Forall (fun i => in_u64 i.1 /\ in_u64 i.2) [(3, 8); (5, 6); (2, 9); (10, 12); (11, 11); (11, 14)])
    by (repeat constructor; discriminate).
  pose proof (busy_union_correct _ H) as (A & B & _).
  split; [exact A|exact B].
Defined.
End Busy.

(** ** BusyActivityTracker *)

Module Tracker.

Record BusyActivityTracker := mkTracker {
  hasEvent_ : bool; hasSpan_ : bool; active_ : Z; maxConcurrency_ : Z; firstCycle_ : Z;
  openCycle_ : Z; lastCloseCycle_ : Z; lastEventCycle_ : Z; unionCycles_ : Z }.

Definition BusyActivityTracker_new : BusyActivityTracker := mkTracker false false 0 0 0 0 0 0 0.

Definition BusyActivityTracker_enter (t : BusyActivityTracker) (cycle : Z) : BusyActivityTracker * bool :=
  if hasEvent_ t && (cycle <? lastEventCycle_ t) then (t, false)
  else
    let opening := active_ t =? 0 in
    let active := active_ t ⊞ 1 in
    (mkTracker true (hasSpan_ t || opening) active (Z.max (maxConcurrency_ t) active)
       (if opening && negb (hasSpan_ t) then cycle else firstCycle_ t)
       (if opening then cycle else openCycle_ t)
       (lastCloseCycle_ t) cycle (unionCycles_ t), true).

Definition BusyActivityTracker_leave (t : BusyActivityTracker) (cycle : Z) : BusyActivityTracker * bool :=
  if (active_ t =? 0) || (hasEvent_ t && (cycle <? lastEventCycle_ t)) then (t, false)
  else
    let active := active_ t - 1 in
    let closing := active =? 0 in
    (mkTracker (hasEvent_ t) (hasSpan_ t) active (maxConcurrency_ t) (firstCycle_ t) (openCycle_ t)
       (if closing then cycle else lastCloseCycle_ t) cycle
       (if closing then unionCycles_ t ⊞ (cycle ⊟ openCycle_ t) else unionCycles_ t), true).

Definition BusyActivityTracker_unionCycles (t : BusyActivityTracker) (now : Z) : Z :=
  if active_ t =? 0 then unionCycles_ t
  else let e := Z.max now (lastEventCycle_ t) in (unionCycles_ t ⊞ e) ⊟ openCycle_ t.
Definition BusyActivityTracker_spanCycles (t : BusyActivityTracker) (now : Z) : Z :=
  if negb (hasSpan_ t) then 0
  else let e := if active_ t =? 0 then lastCloseCycle_ t else Z.max now (lastEventCycle_ t) in
       e ⊟ firstCycle_ t.
Definition BusyActivityTracker_idleCycles (t : BusyActivityTracker) (now : Z) : Z :=
  BusyActivityTracker_spanCycles t now ⊟ BusyActivityTracker_unionCycles t now.

(** An event: [true] enters, [false] leaves. *)
Definition tracker_event (t : BusyActivityTracker) (ev : bool * Z) : BusyActivityTracker * bool :=
  if ev.1 then BusyActivityTracker_enter t ev.2 else BusyActivityTracker_leave t ev.2.

Fixpoint tracker_run (t : BusyActivityTracker) (l : list (bool * Z)) : BusyActivityTracker * list (bool * Z) :=
  match l with
  | [] => (t, [])
  | ev :: l' =>
      let (t', ok) := tracker_event t ev in
      let (t'', acc) := tracker_run t' l' in (t'', if ok then ev :: acc else acc)
  end.

(** *** The reference: activities open at a cycle *)

Definition sign (ev : bool * Z) : Z := if ev.1 then 1 else -1.
(** Enters minus leaves. *)
Definition balance (l : list (bool * Z)) : Z := foldr (fun ev n => sign ev + n) 0 l.
(** Activities open during cycle [c], after every event at or before [c]. *)
Definition depth (l : list (bool * Z)) (c : Z) : Z :=
  foldr (fun ev n => (if ev.2 <=? c then sign ev else 0) + n) 0 l.
Definition busy (l : list (bool * Z)) (c : Z) : bool := 0 <? depth l c.
(** The events an ideal tracker accepts: in time order, no leave without an enter. *)
Fixpoint accepted (open last : Z) (l : list (bool * Z)) : list (bool * Z) :=
  match l with
  | [] => []
  | ev :: l' =>
      if (last <=? ev.2) && (ev.1 || (0 <? open)) then ev :: accepted (open + sign ev) ev.2 l'
      else accepted open last l'
  end.

Record tracker_inv (t : BusyActivityTracker) (l : list (bool * Z)) : Prop := {
  ti_active : active_ t = balance l;
  ti_range : 0 <= active_ t <= Z.of_nat (length l);
  ti_last : 0 <= firstCycle_ t <= lastEventCycle_ t /\ lastEventCycle_ t < 2 ^ 64;
  ti_events : Forall (fun ev => 0 <= ev.2 <= lastEventCycle_ t) l;
  ti_open : active_ t <> 0 -> firstCycle_ t <= openCycle_ t <= lastEventCycle_ t;
  ti_first : hasSpan_ t = true -> exists ev, head l = Some ev /\ ev.2 = firstCycle_ t;
  ti_none : hasSpan_ t = hasEvent_ t /\ (hasSpan_ t = false <-> l = []) /\ (hasSpan_ t = false -> t = BusyActivityTracker_new);
  ti_close : active_ t = 0 -> lastCloseCycle_ t = lastEventCycle_ t;
  ti_union : 0 <= unionCycles_ t <= (if active_ t =? 0 then lastEventCycle_ t else openCycle_ t) - firstCycle_ t;
  ti_count : forall now, lastEventCycle_ t <= now ->
    count (busy l) 0 now = unionCycles_ t + (if active_ t =? 0 then 0 else now - openCycle_ t);
  ti_lastev : forall ev, last l = Some ev -> ev.2 = lastEventCycle_ t;
  ti_max : (forall l1 l2, l = l1 ++ l2 -> balance l1 <= maxConcurrency_ t) /\
           (exists l1 l2, l = l1 ++ l2 /\ balance l1 = maxConcurrency_ t) }.

Lemma balance_snoc l ev : balance (l ++ [ev]) = balance l + sign ev.
Proof. unfold balance. induction l as [|e l IH]; cbn [app foldr]; lia. Qed.
Lemma depth_snoc l ev c : depth (l ++ [ev]) c = depth l c + (if ev.2 <=? c then sign ev else 0).
Proof. unfold depth. induction l as [|e l IH]; cbn [app foldr]; lia. Qed.
Lemma depth_balance l c : Forall (fun ev => ev.2 <= c) l -> depth l c = balance l.
Proof.
  unfold depth, balance. induction 1 as [|e l He _ IH]; [done|]. cbn [foldr].
  rewrite (proj2 (Z.leb_le e.2 c)) by done. lia.
Qed.

(** One more event at [y] splits the count there: before [y] nothing changes, from
    [y] on the depth is the new balance. *)
Lemma count_snoc l ev last y now :
  Forall (fun e => 0 <= e.2 <= last) l -> ev.2 = y -> 0 <= last <= y -> y <= now ->
  count (busy (l ++ [ev])) 0 now =
  count (busy l) 0 y + (if 0 <? balance l + sign ev then now - y else 0).
Proof.
  intros Hl Hy H1 H2. rewrite (count_split _ 0 y now) by lia. f_equal.
  - apply count_ext. intros c Hc. unfold busy. rewrite depth_snoc, (proj2 (Z.leb_gt ev.2 c)) by lia.
    f_equal. lia.
  - assert (Hd : forall c, y <= c < now -> busy (l ++ [ev]) c = (0 <? balance l + sign ev)).
    { intros c Hc. unfold busy. rewrite depth_balance, balance_snoc; [done|].
      apply Forall_app. split; [eapply Forall_impl; [exact Hl|]; cbn; lia|apply Forall_singleton; lia]. }
    destruct (0 <? balance l + sign ev); [rewrite count_true by done; lia|by rewrite count_false].
Qed.

Lemma max_snoc l ev m :
  (forall l1 l2, l = l1 ++ l2 -> balance l1 <= m) -> (exists l1 l2, l = l1 ++ l2 /\ balance l1 = m) ->
  (forall l1 l2, l ++ [ev] = l1 ++ l2 -> balance l1 <= Z.max m (balance l + sign ev)) /\
  (exists l1 l2, l ++ [ev] = l1 ++ l2 /\ balance l1 = Z.max m (balance l + sign ev)).
Proof.
  intros H1 (l1 & l2 & E & Hm). split.
  - intros k1 k2 Ek. destruct k2 as [|x k2 _] using rev_ind.
    + rewrite app_nil_r in Ek. rewrite <- Ek, balance_snoc. lia.
    + rewrite app_assoc in Ek. apply app_inj_tail in Ek as [Ek _]. specialize (H1 _ _ Ek). lia.
  - destruct (Z.le_gt_cases m (balance l + sign ev)).
    + exists (l ++ [ev]), []. rewrite app_nil_r, balance_snoc. split; [done|lia].
    + exists l1, (l2 ++ [ev]). rewrite app_assoc, <- E. split; [done|lia].
Qed.

Lemma tracker_inv_nil : tracker_inv BusyActivityTracker_new [].
Proof.
  split; cbn; try done; try lia.
  - intros now Hn. rewrite count_false; [lia|]. done.
  - split; [intros l1 l2 E; symmetry in E; apply app_eq_nil in E as [-> _]; done|by exists [], []].
Qed.

Ltac tracker_fields :=
  cbn [hasEvent_ hasSpan_ active_ maxConcurrency_ firstCycle_ openCycle_ lastCloseCycle_ lastEventCycle_ unionCycles_].

Lemma head_snoc (l : list (bool * Z)) ev x : head l = Some x -> head (l ++ [ev]) = Some x.
Proof. by destruct l. Qed.

Lemma tracker_enter_inv t l y :
  tracker_inv t l -> in_u64 y -> Z.of_nat (length l) + 1 < 2 ^ 64 -> lastEventCycle_ t <= y ->
  tracker_inv (BusyActivityTracker_enter t y).1 (l ++ [(true, y)]) /\ (BusyActivityTracker_enter t y).2 = true.
Proof.
  intros [Ia Ir Il Ie Io If [In1 [In2 In3]] Ic Iu Ico Ilv [Im1 Im2]] Uy Hlen Hy. unfold in_u64 in Uy.
  unfold BusyActivityTracker_enter. rewrite (proj2 (Z.ltb_ge _ _) Hy), andb_false_r. cbv zeta. cbn [fst snd].
  split; [|done]. rewrite (u64_id (active_ t + 1)) by (unfold in_u64; lia).
  assert (Hmx : active_ t + 1 = balance l + sign (true, y)) by (cbn; lia).
  assert (E1 : (active_ t + 1 =? 0) = false) by (apply Z.eqb_neq; lia).
  split; tracker_fields; rewrite ?E1.
  - rewrite balance_snoc. lia.
  - rewrite length_app. cbn [length]. lia.
  - case_if; boolify; lia.
  - apply Forall_app. split; [eapply Forall_impl; [exact Ie|]; cbn; lia|apply Forall_singleton; cbn; lia].
  - intros _. destruct (Z.eqb_spec (active_ t) 0), (hasSpan_ t); cbn [andb negb]; try lia; specialize (Io ltac:(done)); lia.
  - intros _. destruct (hasSpan_ t) eqn:Es.
    + rewrite andb_false_r. destruct (If eq_refl) as (ev & Hh & He). exists ev. split; [by apply head_snoc|done].
    + destruct In2 as [Hn _]. rewrite (Hn eq_refl). exists (true, y). split; [done|].
      rewrite (In3 eq_refl). done.
  - assert (hasSpan_ t || (active_ t =? 0) = true) as ->.
    { destruct (hasSpan_ t) eqn:Es; [done|]. by rewrite (In3 eq_refl). }
    split; [done|]. split; [|done]. split; [done|]. intros E. by apply app_nil in E as [_ ?].
  - lia.
  - destruct (Z.eqb_spec (active_ t) 0) as [E|E]; cbn [andb].
    + destruct (hasSpan_ t) eqn:Es; cbn [negb]; [lia|]. rewrite (In3 eq_refl) in Iu |- *. cbn in Iu |- *. lia.
    + lia.
  - intros now Hn. rewrite (count_snoc _ _ _ y now Ie) by (done || lia). rewrite <- Hmx, Ico by lia.
    rewrite (proj2 (Z.ltb_lt _ _)) by lia. destruct (active_ t =? 0); lia.
  - intros ev. rewrite last_snoc. by intros [= <-].
  - rewrite Hmx. by apply max_snoc.
Qed.

Lemma tracker_leave_inv t l y :
  tracker_inv t l -> in_u64 y -> lastEventCycle_ t <= y -> 0 < active_ t ->
  tracker_inv (BusyActivityTracker_leave t y).1 (l ++ [(false, y)]) /\ (BusyActivityTracker_leave t y).2 = true.
Proof.
  intros [Ia Ir Il Ie Io If [In1 [In2 In3]] Ic Iu Ico Ilv [Im1 Im2]] Uy Hy Hact. unfold in_u64 in Uy.
  unfold BusyActivityTracker_leave. rewrite (proj2 (Z.ltb_ge _ _) Hy), andb_false_r, (proj2 (Z.eqb_neq _ _)) by lia.
  cbv zeta. cbn [fst snd orb]. split; [|done]. rewrite (proj2 (Z.eqb_neq _ _)) in Iu by lia.
  specialize (Io ltac:(lia)).
  assert (Hmx : active_ t - 1 = balance l + sign (false, y)) by (cbn; lia).
  assert (Es : hasSpan_ t = true).
  { destruct (hasSpan_ t) eqn:Es; [done|]. rewrite (In3 eq_refl) in Hact. done. }
  rewrite !(u64_id (y - openCycle_ t)), u64_id by (unfold in_u64; lia).
  split; tracker_fields.
  - rewrite balance_snoc. lia.
  - rewrite length_app. cbn [length]. lia.
  - lia.
  - apply Forall_app. split; [eapply Forall_impl; [exact Ie|]; cbn; lia|apply Forall_singleton; cbn; lia].
  - intros _. lia.
  - intros _. destruct (If Es) as (ev & Hh & He). exists ev. split; [by apply head_snoc|done].
  - rewrite Es in *. split; [done|]. split; [|done]. split; [done|]. intros E. by apply app_nil in E as [_ ?].
  - intros E. rewrite (proj2 (Z.eqb_eq _ _)) by done. done.
  - destruct (Z.eqb_spec (active_ t - 1) 0); lia.
  - intros now Hn. rewrite (count_snoc _ _ _ y now Ie) by (done || lia). rewrite <- Hmx, Ico by lia.
    rewrite (proj2 (Z.eqb_neq (active_ t) 0)) by lia.
    destruct (Z.eqb_spec (active_ t - 1) 0), (Z.ltb_spec 0 (active_ t - 1)); lia.
  - intros ev. rewrite last_snoc. by intros [= <-].
  - destruct (max_snoc l (false, y) _ Im1 Im2) as [M1 M2].
    assert (balance l <= maxConcurrency_ t) by (apply (Im1 l []); by rewrite app_nil_r).
    rewrite Z.max_l in M1, M2 by (cbn; lia). done.
Qed.

Lemma tracker_run_inv l : forall t acc,
  tracker_inv t acc -> Forall (fun ev => in_u64 ev.2) l -> Z.of_nat (length acc + length l) < 2 ^ 64 ->
  tracker_inv (tracker_run t l).1 (acc ++ (tracker_run t l).2) /\
  (tracker_run t l).2 = accepted (active_ t) (lastEventCycle_ t) l.
Proof.
  induction l as [|[b y] l IH]; intros t acc I Hl Hn.
  - cbn. by rewrite app_nil_r.
  - apply Forall_cons in Hl as [Uy Hl]. cbn [snd] in Uy. cbn [length] in Hn. cbn [tracker_run accepted].
    assert (Step : tracker_event t (b, y) =
      if (lastEventCycle_ t <=? y) && (b || (0 <? active_ t))
      then (if b then BusyActivityTracker_enter t y else BusyActivityTracker_leave t y) else (t, false)).
    { pose proof (ti_range t acc I). destruct (ti_none t acc I) as (Es & _ & Hnew).
      unfold tracker_event, BusyActivityTracker_enter, BusyActivityTracker_leave. cbn [fst snd].
      assert (hasEvent_ t && (y <? lastEventCycle_ t) = negb (lastEventCycle_ t <=? y)) as ->.
      { rewrite <- Es. destruct (hasSpan_ t) eqn:E; [apply Z.ltb_antisym|].
        rewrite (Hnew eq_refl). cbn. unfold in_u64 in Uy. by rewrite (proj2 (Z.leb_le 0 y)) by lia. }
      destruct b, (lastEventCycle_ t <=? y), (Z.eqb_spec (active_ t) 0), (Z.ltb_spec 0 (active_ t)); try done; lia. }
    cbn [fst snd]. rewrite Step. destruct ((lastEventCycle_ t <=? y) && (b || (0 <? active_ t))) eqn:Ec.
    + apply andb_true_iff in Ec as [E1 E2]. apply Z.leb_le in E1.
      assert (exists t', (if b then BusyActivityTracker_enter t y else BusyActivityTracker_leave t y) = (t', true) /\
        tracker_inv t' (acc ++ [(b, y)]) /\ active_ t' = active_ t + sign (b, y) /\ lastEventCycle_ t' = y) as (t' & -> & I' & Ea & Ey).
      { destruct b.
        - destruct (tracker_enter_inv t acc y I Uy ltac:(lia) E1) as [I' Ok].
          exists (BusyActivityTracker_enter t y).1. split; [by rewrite (surjective_pairing (BusyActivityTracker_enter t y)), Ok|]. split; [done|].
          rewrite (ti_active _ _ I'), (ti_active _ _ I), balance_snoc. split; [done|].
          unfold BusyActivityTracker_enter. by rewrite (proj2 (Z.ltb_ge _ _) E1), andb_false_r.
        - cbn in E2. apply Z.ltb_lt in E2. destruct (tracker_leave_inv t acc y I Uy E1 E2) as [I' Ok].
          exists (BusyActivityTracker_leave t y).1. split; [by rewrite (surjective_pairing (BusyActivityTracker_leave t y)), Ok|]. split; [done|].
          rewrite (ti_active _ _ I'), (ti_active _ _ I), balance_snoc. split; [done|].
          unfold BusyActivityTracker_leave. by rewrite (proj2 (Z.ltb_ge _ _) E1), andb_false_r, (proj2 (Z.eqb_neq _ _)) by lia. }
      destruct (IH t' _ I' Hl) as [J E]; [rewrite length_app; cbn [length]; lia|].
      destruct (tracker_run t' l) as [t'' acc']. cbn [fst snd] in *. rewrite <- app_assoc in J.
      split; [exact J|]. by rewrite E, Ea, Ey.
    + destruct (IH t _ I Hl) as [J E]; [lia|]. destruct (tracker_run t l) as [t'' acc']. done.
Qed.

(** C37: activity accounting is exact.  Whatever events are offered, the tracker accepts
    exactly those in time order that do not leave an idle tracker; afterwards [active]
    is the number of open activities, [unionCycles now] the number of cycles before
    [now] during which at least one activity was open, [spanCycles] runs from the
    first event to the last one ([now] while something is open), and the three never
    wrap. *)
Theorem activity_tracker_correct (l : list (bool * Z)) (now : Z) :
  Forall (fun ev => in_u64 ev.2) l -> Z.of_nat (length l) < 2 ^ 64 -> in_u64 now ->
  let (t, acc) := tracker_run BusyActivityTracker_new l in
  acc = accepted 0 0 l /\ active_ t = balance acc /\ 0 <= active_ t /\
  (Forall (fun ev => ev.2 <= now) acc ->
     BusyActivityTracker_unionCycles t now = count (busy acc) 0 now /\
     BusyActivityTracker_idleCycles t now =
       BusyActivityTracker_spanCycles t now - BusyActivityTracker_unionCycles t now /\
     0 <= BusyActivityTracker_idleCycles t now /\
     forall first lst, head acc = Some first -> last acc = Some lst ->
       BusyActivityTracker_spanCycles t now = (if active_ t =? 0 then lst.2 else now) - first.2).
Proof.
  intros Hl Hn Un. destruct (tracker_run_inv l _ _ tracker_inv_nil Hl) as [I E]; [cbn [length]; lia|].
  change (active_ BusyActivityTracker_new) with 0 in E. change (lastEventCycle_ BusyActivityTracker_new) with 0 in E.
  cbn [app] in I. destruct (tracker_run BusyActivityTracker_new l) as [t acc]. cbn [fst snd] in *.
  split; [exact E|]. clear E Hl Hn. destruct I as [Ia Ir Il Ie Io If [In1 [In2 In3]] Ic Iu Ico Ilv _].
  split; [done|]. split; [lia|]. intros Hnow. unfold in_u64 in Un.
  unfold BusyActivityTracker_idleCycles, BusyActivityTracker_spanCycles, BusyActivityTracker_unionCycles.
  destruct (hasSpan_ t) eqn:Es; cbn [negb].
  - assert (Hle : lastEventCycle_ t <= now).
    { destruct (last acc) as [ev|] eqn:El.
      - rewrite <- (Ilv ev eq_refl). apply last_Some_elem_of in El. rewrite Forall_forall in Hnow. by apply Hnow.
      - apply last_None in El. apply In2 in El. done. }
    specialize (Ico now Hle). rewrite (Z.max_l now) by lia.
    destruct (If eq_refl) as (ev & Hh & He).
    destruct (Z.eqb_spec (active_ t) 0) as [Ez|Ez].
    + rewrite (Ic Ez) in *. unwrap. split; [lia|]. split; [lia|]. split; [lia|].
      intros first lst Hf Hlst. rewrite (Ilv lst Hlst), <- He. congruence.
    + specialize (Io Ez). 
      assert ((unionCycles_ t ⊞ now) ⊟ openCycle_ t = unionCycles_ t + (now - openCycle_ t)) as ->.
      { unfold u64. rewrite Zminus_mod_idemp_l, Z.mod_small; lia. }
      unwrap. split; [lia|]. split; [lia|]. split; [lia|].
      intros first lst Hf Hlst. rewrite <- He. congruence.
  - rewrite (proj1 In2 eq_refl) in *. rewrite (In3 eq_refl). cbn. split; [symmetry; by apply count_false|].
    split; [done|]. split; [done|]. discriminate.
Qed.

Definition ex_events : list (bool * Z) :=
  [(false, 1); (true, 3); (true, 5); (false, 4); (false, 8); (false, 9); (true, 20)].

Lemma activity_tracker_correct_witness :
  let (t, acc) := tracker_run BusyActivityTracker_new ex_events in
  active_ t = balance acc /\ BusyActivityTracker_unionCycles t 25 = count (busy acc) 0 25.
Proof.
  assert (H : Forall (fun ev : bool * Z => in_u64 ev.2) ex_events) by (repeat constructor; discriminate).
  assert (U : in_u64 25) by (split; [discriminate|reflexivity]).
  pose proof (activity_tracker_correct ex_events 25 H ltac:(reflexivity) U) as T.
  destruct (tracker_run BusyActivityTracker_new ex_events) as [t acc] eqn:E.
  destruct T as (_ & A & _ & B). split; [exact A|]. apply B.
  vm_compute in E. injection E as _ <-. repeat constructor; discriminate.
Defined.
End Tracker.

(** ** AttentionClusterConfig *)

Module Config.

Record AttentionClusterConfig := mkConfig {
  arrays : Z; qkArrays : Z; pvArrays : Z; arrayInputs : Z; arrayOutputs : Z; operandBanks : Z;
  scoreSlots : Z; pSlots : Z; oContexts : Z; headDim : Z; queryTileRows : Z; kvTileRows : Z;
  groupSize : Z; elemBytes : Z; oFmaLanes : Z; oFmaLatencyCycles : Z;
  oFp32Fused : bool; causal : bool }.

Definition AttentionClusterConfig_default : AttentionClusterConfig :=
  mkConfig 64 16 48 64 64 1 4 4 4 128 16 64 4 4 16 2 true false.

#[export] Instance config_eq_dec : EqDecision AttentionClusterConfig.
Proof. solve_decision. Defined.

(** The empty string accepts. *)
Definition AttentionClusterConfig_validate (c : AttentionClusterConfig) : string :=
  if negb (arrays c =? 64) || negb (u32 (qkArrays c + pvArrays c) =? arrays c) ||
     (negb (qkArrays c =? 16) && negb (qkArrays c =? 24) && negb (qkArrays c =? 32) && negb (qkArrays c =? 40))
  then "cluster requires 64 arrays with QK ownership 16, 24, 32, or 40"
  else if negb (qkArrays c mod 2 =? 0) || negb (pvArrays c mod 2 =? 0)
  then "cluster D128 ownership must contain complete D64 array pairs"
  else if negb (arrayInputs c =? 64) || negb (arrayOutputs c =? 64)
  then "cluster requires 64x64 arrays"
  else if negb (operandBanks c =? 1) then "cluster requires one operand context per array"
  else if negb (scoreSlots c =? 4) || negb (pSlots c =? 4) || negb (oContexts c =? 4)
  then "cluster requires four score/P/O contexts"
  else if negb (headDim c =? 128) || negb (queryTileRows c =? 16) ||
     (negb (kvTileRows c =? 32) && negb (kvTileRows c =? 64))
  then "cluster requires D128 Br16 and Bc32 or Bc64"
  else if negb (groupSize c =? 4) then "cluster requires query group size four"
  else if negb (elemBytes c =? 4) then "cluster requires FP32 operands"
  else if negb (oFmaLanes c =? 16) || negb (oFmaLatencyCycles c =? 2) || negb (oFp32Fused c)
  then "cluster requires a 16-lane two-cycle fused FP32 O engine"
  else if causal c then "cluster phase L2-L4 supports non-causal attention only"
  else "".

Definition fingerprint_values (c : AttentionClusterConfig) : list Z :=
  [arrays c; qkArrays c; pvArrays c; arrayInputs c; arrayOutputs c; operandBanks c;
   scoreSlots c; pSlots c; oContexts c; headDim c; queryTileRows c; kvTileRows c;
   groupSize c; elemBytes c; oFmaLanes c; oFmaLatencyCycles c;
   if oFp32Fused c then 1 else 0; if causal c then 1 else 0].

(** One value: eight bytes, least significant first. *)
Definition fingerprint_value (hash value : Z) : Z :=
  fold_left (fun h byte => Z.lxor h (Z.land (Z.shiftr value (byte * 8)) 0xff) ⊠ 1099511628211) (seqZ 0 8) hash.
Definition AttentionClusterConfig_fingerprint (c : AttentionClusterConfig) : Z :=
  fold_left fingerprint_value (fingerprint_values c) 1469598103934665603.

(** What the checks leave: the ownership split and the key tile height. *)
Definition supported (qk kv : Z) : AttentionClusterConfig :=
  mkConfig 64 qk (64 - qk) 64 64 1 4 4 4 128 16 kv 4 4 16 2 true false.
Definition supported_configs : list AttentionClusterConfig :=
  [supported 16 32; supported 16 64; supported 24 32; supported 24 64;
   supported 32 32; supported 32 64; supported 40 32; supported 40 64].

Lemma validate_supported c : in_u32 (pvArrays c) ->
  AttentionClusterConfig_validate c = "" -> c ∈ supported_configs.
Proof.
  destruct c as [a qk pv ai ao ob ss ps oc hd qr kv gs eb fl flc ff ca]. cbn [pvArrays]. intros Hpv.
  unfold AttentionClusterConfig_validate.
  cbn [arrays qkArrays pvArrays arrayInputs arrayOutputs operandBanks scoreSlots pSlots oContexts headDim
       queryTileRows kvTileRows groupSize elemBytes oFmaLanes oFmaLatencyCycles oFp32Fused causal].
  repeat (case_if; [done|]). intros _. boolify. subst.
  repeat match goal with H : (_ && _) = false |- _ => apply andb_false_iff in H; destruct H end; boolify; subst;
    match goal with H : u32 (?q + pv) = 64 |- _ =>
      assert (pv = 64 - q) as -> by (unfold u32, in_u32 in *; pose proof (Z.div_mod (q + pv) (2 ^ 32)); lia) end;
    repeat (first [apply list_elem_of_here | apply list_elem_of_further]).
Qed.

Lemma fingerprints_distinct :
  bool_decide (NoDup (AttentionClusterConfig_fingerprint <$> supported_configs)) = true.
Proof. vm_compute. reflexivity. Qed.

(** C38: configuration checking is exact and fingerprints identify configurations.  A
    configuration passes [validate] if and only if it is one of the eight supported
    ones (QK ownership 16, 24, 32 or 40 of 64 arrays, key tiles of 32 or 64 rows,
    everything else fixed), the default among them, and two configurations that pass
    are equal as soon as their fingerprints are. *)
Theorem config_validation_exact (c c' : AttentionClusterConfig) :
  in_u32 (pvArrays c) -> in_u32 (pvArrays c') ->
  (AttentionClusterConfig_validate c = "" <-> c ∈ supported_configs) /\
  AttentionClusterConfig_default ∈ supported_configs /\
  (AttentionClusterConfig_validate c = "" -> AttentionClusterConfig_validate c' = "" ->
   AttentionClusterConfig_fingerprint c = AttentionClusterConfig_fingerprint c' -> c = c').
Proof.
  intros H H'. split; [|split].
  - split; [by apply validate_supported|]. intros Hin.
    assert (Forall (fun x => AttentionClusterConfig_validate x = "") supported_configs) as Hf
      by (repeat constructor). rewrite Forall_forall in Hf. by apply Hf.
  - right. left.
  - intros V%validate_supported V'%validate_supported E; [|done|done].
    assert (N : NoDup (AttentionClusterConfig_fingerprint <$> supported_configs)).
    { exact (bool_decide_eq_true_1 _ fingerprints_distinct). }
    apply list_elem_of_lookup_1 in V as [i Hi]. apply list_elem_of_lookup_1 in V' as [j Hj].
    assert (i = j) as ->; [|congruence].
    apply (NoDup_lookup _ i j (AttentionClusterConfig_fingerprint c) N).
    + by rewrite list_lookup_fmap, Hi.
    + rewrite list_lookup_fmap, Hj, E. done.
Qed.

Lemma config_validation_exact_witness :
  AttentionClusterConfig_validate (supported 24 32) = "" /\ AttentionClusterConfig_default ∈ supported_configs.
Proof.
  assert (U : in_u32 40) by (split; [discriminate|reflexivity]).
  destruct (config_validation_exact (supported 24 32) (supported 24 32) U U) as (A & B & _).
  split; [apply A; do 2 right; left|exact B].
Defined.
End Config.

(** ** Traffic classes *)

Inductive AttentionClusterTrafficClass :=
| Legacy | QkKMatrix | QkQPair | QkScoreOut | SequentialQkScoreOut | SequentialQkInputScatter
| PvVMatrix | PvPInput | SequentialPvInput | SequentialPvInputScatter | SequentialPvORestore
| SequentialPvOOutput | PvOFinalDrain | ScoreSfuRead | SfuPWrite | OScale | OAccumulate
| ProjectionWeights | ProjectionInputScatter | ProjectionOutput | TrafficCount.

Definition attentionClusterTrafficClassName (c : AttentionClusterTrafficClass) : string :=
  match c with
  | Legacy => "legacy"
  | QkKMatrix => "qk_k_matrix"
  | QkQPair => "qk_q_pair"
  | QkScoreOut => "qk_score_out"
  | SequentialQkScoreOut => "sequential_qk_score_out"
  | SequentialQkInputScatter => "sequential_qk_input_scatter"
  | PvVMatrix => "pv_v_matrix"
  | PvPInput => "pv_p_input"
  | SequentialPvInput => "sequential_pv_input"
  | SequentialPvInputScatter => "sequential_pv_input_scatter"
  | SequentialPvORestore => "sequential_pv_o_restore"
  | SequentialPvOOutput => "sequential_pv_o_output"
  | PvOFinalDrain => "pv_o_final_drain"
  | ScoreSfuRead => "score_sfu_read"
  | SfuPWrite => "sfu_p_write"
  | OScale => "o_scale"
  | OAccumulate => "o_accumulate"
  | ProjectionWeights => "projection_weights"
  | ProjectionInputScatter => "projection_input_scatter"
  | ProjectionOutput => "projection_output"
  | TrafficCount => "invalid"
  end.

#[export] Instance traffic_class_eq_dec : EqDecision AttentionClusterTrafficClass.
Proof. solve_decision. Defined.

(** Statistics keyed by the names never mix two classes. *)
Lemma traffic_class_name_inj : Inj (=) (=) attentionClusterTrafficClassName.
Proof. intros [] []; (discriminate || done). Qed.

(** ** AttentionClusterTag *)

Record AttentionClusterTag := mkTag {
  generation : Z; jobId : Z; group : Z; queryContext : Z;
  queryTileIndex : Z; kvTileIndex : Z; sequence : Z }.

Definition AttentionClusterTag_default : AttentionClusterTag := mkTag 0 0 0 0 0 0 0.

Definition AttentionClusterTag_eqb (a b : AttentionClusterTag) : bool :=
  (generation a =? generation b) && (jobId a =? jobId b) && (group a =? group b) &&
  (queryContext a =? queryContext b) && (queryTileIndex a =? queryTileIndex b) &&
  (kvTileIndex a =? kvTileIndex b) && (sequence a =? sequence b).

#[export] Instance tag_eq_dec : EqDecision AttentionClusterTag.
Proof. solve_decision. Defined.

Lemma tag_eqb_spec a b : reflect (a = b) (AttentionClusterTag_eqb a b).
Proof.
  apply iff_reflect. unfold AttentionClusterTag_eqb. destruct a, b. cbn. split.
  - intros [=]. subst. by rewrite !Z.eqb_refl.
  - intros H. boolify. by subst.
Qed.
Lemma tag_eqb_refl a : AttentionClusterTag_eqb a a = true.
Proof. by destruct (tag_eqb_spec a a). Qed.
