(* ===== verification/ScoreFifo.v ===== *)
(** * The score FIFO of the attention cluster
      ([src/src/sst/elements/golem/attention/attentionCluster.h], lines 298-454)

    Sixteen slots of at most 16 x 64 scores.  A slot keeps three parallel vectors
    (values, valid flags, reserved flags) and a counter; the specification is one
    vector of cells per slot. *)

From Stdlib Require Import ZArith Lia SpecFloat.
From stdpp Require Import base numbers list.
From S2P Require Import Prelude AttentionBase.

Definition fifo_kSlots : Z := 16.
Definition kElementsPerSlot : Z := 16 * 64.

Record FifoSlot := mkFifoSlot {
  valid : bool; tag : AttentionClusterTag; elements : list spec_float;
  elementValid : list bool; elementReserved : list bool; validElements : Z }.

Definition FifoSlot_empty : FifoSlot := mkFifoSlot false AttentionClusterTag_default [] [] [] 0.

(** [std::array<Slot, kSlots>]. *)
Definition AttentionScoreFifo : Type := list FifoSlot.
Definition AttentionScoreFifo_new : AttentionScoreFifo := replicate 16 FifoSlot_empty.

Definition fifo_at (f : AttentionScoreFifo) (slot : Z) : FifoSlot := nth (Z.to_nat slot) f FifoSlot_empty.
Definition fifo_set (f : AttentionScoreFifo) (slot : Z) (s : FifoSlot) : AttentionScoreFifo :=
  <[Z.to_nat slot := s]> (f : list FifoSlot).

Definition fifo_matches (f : AttentionScoreFifo) (slot : Z) (t : AttentionClusterTag) : bool :=
  (slot <? fifo_kSlots) && valid (fifo_at f slot) && AttentionClusterTag_eqb (tag (fifo_at f slot)) t.

Definition vsize {A} (l : list A) : Z := Z.of_nat (length l).

Definition rangeInBounds (s : FifoSlot) (offset count : Z) : bool :=
  negb (count =? 0) && (offset <=? vsize (elements s)) && (count <=? vsize (elements s) - offset).

(** [std::find(begin + offset, begin + offset + count, flag) == end]: no element of
    the range equals [flag]. *)
Definition range_without (flag : bool) (flags : list bool) (offset count : Z) : bool :=
  forallb (fun x => negb (Bool.eqb x flag)) (take (Z.to_nat count) (drop (Z.to_nat offset) flags)).

Definition rangeAvailable (f : AttentionScoreFifo) (slot : Z) (t : AttentionClusterTag) (offset count : Z) : bool :=
  if negb (fifo_matches f slot t) then false
  else
    let target := fifo_at f slot in
    if negb (rangeInBounds target offset count) then false
    else range_without true (elementValid target) offset count &&
         range_without true (elementReserved target) offset count.

Definition ScoreFifo_reserve (f : AttentionScoreFifo) (slot : Z) (t : AttentionClusterTag) (n : Z) :
    AttentionScoreFifo * bool :=
  if (fifo_kSlots <=? slot) || (n =? 0) || (kElementsPerSlot <? n) || valid (fifo_at f slot) then (f, false)
  else
    let k := Z.to_nat n in
    (fifo_set f slot (mkFifoSlot true t (replicate k (S754_zero false)) (replicate k false) (replicate k false) 0), true).

(** The loop of [write], [i] being [offset + index]. *)
Fixpoint write_loop (s : FifoSlot) (i : nat) (values : list spec_float) : FifoSlot :=
  match values with
  | [] => s
  | v :: values' =>
      write_loop (mkFifoSlot (valid s) (tag s) (<[i := v]> (elements s)) (<[i := true]> (elementValid s))
                    (elementReserved s) (validElements s + 1)) (S i) values'
  end.

Definition ScoreFifo_write (f : AttentionScoreFifo) (slot : Z) (t : AttentionClusterTag) (offset : Z)
    (values : list spec_float) : AttentionScoreFifo * bool :=
  if negb (rangeAvailable f slot t offset (vsize values)) then (f, false)
  else (fifo_set f slot (write_loop (fifo_at f slot) (Z.to_nat offset) values), true).

(** [std::fill(begin + i, begin + i + n, 1)]. *)
Fixpoint fill_true (flags : list bool) (i n : nat) : list bool :=
  match n with O => flags | S n' => fill_true (<[i := true]> flags) (S i) n' end.

Definition ScoreFifo_reserveWrite (f : AttentionScoreFifo) (slot : Z) (t : AttentionClusterTag) (offset count : Z) :
    AttentionScoreFifo * bool :=
  if negb (rangeAvailable f slot t offset count) then (f, false)
  else
    let s := fifo_at f slot in
    (fifo_set f slot (mkFifoSlot (valid s) (tag s) (elements s) (elementValid s)
       (fill_true (elementReserved s) (Z.to_nat offset) (Z.to_nat count)) (validElements s)), true).

(** The loop of [commitWrite]. *)
Fixpoint commit_loop (s : FifoSlot) (i : nat) (values : list spec_float) : FifoSlot :=
  match values with
  | [] => s
  | v :: values' =>
      commit_loop (mkFifoSlot (valid s) (tag s) (<[i := v]> (elements s)) (<[i := true]> (elementValid s))
                    (<[i := false]> (elementReserved s)) (validElements s + 1)) (S i) values'
  end.

Definition ScoreFifo_commitWrite (f : AttentionScoreFifo) (slot : Z) (t : AttentionClusterTag) (offset : Z)
    (values : list spec_float) : AttentionScoreFifo * bool :=
  if negb (fifo_matches f slot t) || (vsize values =? 0) then (f, false)
  else
    let s := fifo_at f slot in
    if negb (rangeInBounds s offset (vsize values)) ||
       negb (range_without false (elementReserved s) offset (vsize values)) ||
       negb (range_without true (elementValid s) offset (vsize values)) then (f, false)
    else (fifo_set f slot (commit_loop s (Z.to_nat offset) values), true).

Definition ScoreFifo_canRead (f : AttentionScoreFifo) (slot : Z) (t : AttentionClusterTag) (offset count : Z) : bool :=
  if negb (fifo_matches f slot t) || (count =? 0) then false
  else
    let s := fifo_at f slot in
    if (vsize (elements s) <? offset) || (vsize (elements s) - offset <? count) then false
    else range_without false (elementValid s) offset count.

(** [std::copy(values, elements.begin() + i)]. *)
Fixpoint copy_loop (l : list spec_float) (i : nat) (values : list spec_float) : list spec_float :=
  match values with [] => l | v :: values' => copy_loop (<[i := v]> l) (S i) values' end.

Definition ScoreFifo_overwrite (f : AttentionScoreFifo) (slot : Z) (t : AttentionClusterTag) (offset : Z)
    (values : list spec_float) : AttentionScoreFifo * bool :=
  if negb (ScoreFifo_canRead f slot t offset (vsize values)) then (f, false)
  else
    let s := fifo_at f slot in
    (fifo_set f slot (mkFifoSlot (valid s) (tag s) (copy_loop (elements s) (Z.to_nat offset) values)
       (elementValid s) (elementReserved s) (validElements s)), true).

Definition ScoreFifo_read (f : AttentionScoreFifo) (slot : Z) (t : AttentionClusterTag) (offset count : Z) :
    option (list spec_float) :=
  if negb (ScoreFifo_canRead f slot t offset count) then None
  else Some (take (Z.to_nat count) (drop (Z.to_nat offset) (elements (fifo_at f slot)))).

Definition ScoreFifo_ready (f : AttentionScoreFifo) (slot : Z) (t : AttentionClusterTag) : bool :=
  fifo_matches f slot t && (validElements (fifo_at f slot) =? vsize (elements (fifo_at f slot))).
Definition ScoreFifo_reserved (f : AttentionScoreFifo) (slot : Z) (t : AttentionClusterTag) : bool :=
  fifo_matches f slot t.
Definition ScoreFifo_occupied_slot (f : AttentionScoreFifo) (slot : Z) : bool :=
  (slot <? fifo_kSlots) && valid (fifo_at f slot).

Definition ScoreFifo_release (f : AttentionScoreFifo) (slot : Z) (t : AttentionClusterTag) : AttentionScoreFifo * bool :=
  if negb (fifo_matches f slot t) then (f, false) else (fifo_set f slot FifoSlot_empty, true).

Fixpoint ScoreFifo_cancelGeneration (f : AttentionScoreFifo) (g : Z) : AttentionScoreFifo * Z :=
  match f with
  | [] => ([], 0)
  | s :: f' =>
      let (f'', n) := ScoreFifo_cancelGeneration f' g in
      if valid s && (generation (tag s) =? g) then (FifoSlot_empty :: f'', 1 + n) else (s :: f'', n)
  end.

Definition ScoreFifo_occupied (f : AttentionScoreFifo) : Z :=
  vsize (List.filter valid f).

(** ** Specification *)

(** A cell is written once between two reservations of its slot. *)
Inductive cell := Empty | Reserved | Full (v : spec_float).

Definition is_empty (c : cell) : bool := match c with Empty => true | _ => false end.
Definition is_reserved (c : cell) : bool := match c with Reserved => true | _ => false end.
Definition is_full (c : cell) : bool := match c with Full _ => true | _ => false end.
Definition cell_value (c : cell) : spec_float := match c with Full v => v | _ => S754_zero false end.

Definition spec_fifo : Type := list (option (AttentionClusterTag * list cell)).

Definition spec_cells (f : spec_fifo) (slot : Z) (t : AttentionClusterTag) : option (list cell) :=
  match nth (Z.to_nat slot) f None with
  | Some (t', cells) => if AttentionClusterTag_eqb t' t then Some cells else None
  | None => None
  end.

(** The [n] cells from [offset], when [n] is positive and they all exist. *)
Definition spec_range (cells : list cell) (offset n : Z) : option (list cell) :=
  if (1 <=? n) && (offset + n <=? vsize cells)
  then Some (take (Z.to_nat n) (drop (Z.to_nat offset) cells)) else None.

Fixpoint put_cells (cells : list cell) (i : nat) (new : list cell) : list cell :=
  match new with [] => cells | c :: new' => put_cells (<[i := c]> cells) (S i) new' end.

Inductive fifo_op :=
| FReserve (slot : Z) (t : AttentionClusterTag) (n : Z)
| FWrite (slot : Z) (t : AttentionClusterTag) (offset : Z) (values : list spec_float)
| FReserveWrite (slot : Z) (t : AttentionClusterTag) (offset n : Z)
| FCommit (slot : Z) (t : AttentionClusterTag) (offset : Z) (values : list spec_float)
| FOverwrite (slot : Z) (t : AttentionClusterTag) (offset : Z) (values : list spec_float)
| FRead (slot : Z) (t : AttentionClusterTag) (offset n : Z)
| FReady (slot : Z) (t : AttentionClusterTag)
| FReserved (slot : Z) (t : AttentionClusterTag)
| FRelease (slot : Z) (t : AttentionClusterTag)
| FCancel (g : Z)
| FOccupied.

Inductive fifo_answer := ABool (b : bool) | AValues (v : option (list spec_float)) | ACount (n : Z).

Definition fifo_apply (f : AttentionScoreFifo) (o : fifo_op) : AttentionScoreFifo * fifo_answer :=
  match o with
  | FReserve slot t n => let (f', b) := ScoreFifo_reserve f slot t n in (f', ABool b)
  | FWrite slot t o vs => let (f', b) := ScoreFifo_write f slot t o vs in (f', ABool b)
  | FReserveWrite slot t o n => let (f', b) := ScoreFifo_reserveWrite f slot t o n in (f', ABool b)
  | FCommit slot t o vs => let (f', b) := ScoreFifo_commitWrite f slot t o vs in (f', ABool b)
  | FOverwrite slot t o vs => let (f', b) := ScoreFifo_overwrite f slot t o vs in (f', ABool b)
  | FRead slot t o n => (f, AValues (ScoreFifo_read f slot t o n))
  | FReady slot t => (f, ABool (ScoreFifo_ready f slot t))
  | FReserved slot t => (f, ABool (ScoreFifo_reserved f slot t))
  | FRelease slot t => let (f', b) := ScoreFifo_release f slot t in (f', ABool b)
  | FCancel g => let (f', n) := ScoreFifo_cancelGeneration f g in (f', ACount n)
  | FOccupied => (f, ACount (ScoreFifo_occupied f))
  end.

(** Replaces the [n] cells from [offset], all satisfying [p], by [new]. *)
Definition spec_update (f : spec_fifo) (slot : Z) (t : AttentionClusterTag) (offset n : Z)
    (p : cell -> bool) (new : list cell) : spec_fifo * fifo_answer :=
  match spec_cells f slot t with
  | Some cells =>
      match spec_range cells offset n with
      | Some old =>
          if forallb p old
          then (<[Z.to_nat slot := Some (t, put_cells cells (Z.to_nat offset) new)]> f, ABool true)
          else (f, ABool false)
      | None => (f, ABool false)
      end
  | None => (f, ABool false)
  end.

Definition of_generation (g : Z) (x : option (AttentionClusterTag * list cell)) : bool :=
  match x with Some (t, _) => generation t =? g | None => false end.
Definition in_use (x : option (AttentionClusterTag * list cell)) : bool :=
  match x with Some _ => true | None => false end.

Definition spec_apply (f : spec_fifo) (o : fifo_op) : spec_fifo * fifo_answer :=
  match o with
  | FReserve slot t n =>
      if (slot <? 16) && (1 <=? n) && (n <=? 1024) && negb (in_use (nth (Z.to_nat slot) f None))
      then (<[Z.to_nat slot := Some (t, replicate (Z.to_nat n) Empty)]> f, ABool true) else (f, ABool false)
  | FWrite slot t offset vs => spec_update f slot t offset (vsize vs) is_empty (map Full vs)
  | FReserveWrite slot t offset n => spec_update f slot t offset n is_empty (replicate (Z.to_nat n) Reserved)
  | FCommit slot t offset vs => spec_update f slot t offset (vsize vs) is_reserved (map Full vs)
  | FOverwrite slot t offset vs => spec_update f slot t offset (vsize vs) is_full (map Full vs)
  | FRead slot t offset n =>
      (f, AValues (match spec_cells f slot t with
                   | Some cells =>
                       match spec_range cells offset n with
                       | Some old => if forallb is_full old then Some (map cell_value old) else None
                       | None => None
                       end
                   | None => None
                   end))
  | FReady slot t =>
      (f, ABool (match spec_cells f slot t with Some cells => forallb is_full cells | None => false end))
  | FReserved slot t =>
      (f, ABool (match spec_cells f slot t with Some _ => true | None => false end))
  | FRelease slot t =>
      match spec_cells f slot t with
      | Some _ => (<[Z.to_nat slot := None]> f, ABool true)
      | None => (f, ABool false)
      end
  | FCancel g =>
      (map (fun x => if of_generation g x then None else x) f, ACount (vsize (List.filter (of_generation g) f)))
  | FOccupied => (f, ACount (vsize (List.filter in_use f)))
  end.

(** ** Abstraction *)

Definition to_cell (flags : bool * bool) (x : spec_float) : cell :=
  if flags.1 then Full x else if flags.2 then Reserved else Empty.
Definition cells_of (ev er : list bool) (el : list spec_float) : list cell :=
  zip_with to_cell (zip ev er) el.
Definition slot_cells (s : FifoSlot) : list cell := cells_of (elementValid s) (elementReserved s) (elements s).
Definition slot_abs (s : FifoSlot) : option (AttentionClusterTag * list cell) :=
  if valid s then Some (tag s, slot_cells s) else None.
Definition fifo_abs (f : AttentionScoreFifo) : spec_fifo := map slot_abs f.

Definition count_true (l : list bool) : Z := foldr (fun (b : bool) n => (if b then 1 else 0) + n) 0 l.

Definition slot_inv (s : FifoSlot) : Prop :=
  length (elementValid s) = length (elements s) /\ length (elementReserved s) = length (elements s) /\
  validElements s = count_true (elementValid s).
Definition fifo_inv (f : AttentionScoreFifo) : Prop := length f = 16%nat /\ Forall slot_inv f.

Section cells.
Implicit Types (ev er : list bool) (el : list spec_float).

Lemma cells_length ev er el : length ev = length el -> length er = length el ->
  length (cells_of ev er el) = length el.
Proof. intros H1 H2. unfold cells_of. rewrite !length_zip_with. lia. Qed.

Lemma cells_ind (P : list bool -> list bool -> list spec_float -> Prop) :
  P [] [] [] -> (forall v r x ev er el, length ev = length el -> length er = length el -> P ev er el ->
                  P (v :: ev) (r :: er) (x :: el)) ->
  forall ev er el, length ev = length el -> length er = length el -> P ev er el.
Proof.
  intros H0 H1 ev er el. revert ev er. induction el as [|x el IH]; intros [|v ev] [|r er]; try discriminate; [done|].
  intros [= E1] [= E2]. apply H1; auto.
Qed.

Lemma cells_empty ev er el : length ev = length el -> length er = length el ->
  forallb is_empty (cells_of ev er el) =
  forallb (fun x => negb (Bool.eqb x true)) ev && forallb (fun x => negb (Bool.eqb x true)) er.
Proof.
  revert ev er el. apply cells_ind; [done|]. intros v r x ev er el H1 H2 IH.
  cbn. unfold cells_of in IH. rewrite IH. by destruct v, r; cbn; rewrite ?andb_false_r.
Qed.
Lemma cells_reserved ev er el : length ev = length el -> length er = length el ->
  forallb is_reserved (cells_of ev er el) =
  forallb (fun x => negb (Bool.eqb x false)) er && forallb (fun x => negb (Bool.eqb x true)) ev.
Proof.
  revert ev er el. apply cells_ind; [done|]. intros v r x ev er el H1 H2 IH.
  cbn. unfold cells_of in IH. rewrite IH. by destruct v, r; cbn; rewrite ?andb_false_r.
Qed.
Lemma cells_full ev er el : length ev = length el -> length er = length el ->
  forallb is_full (cells_of ev er el) = forallb (fun x => negb (Bool.eqb x false)) ev.
Proof.
  revert ev er el. apply cells_ind; [done|]. intros v r x ev er el H1 H2 IH.
  cbn. unfold cells_of in IH. rewrite IH. by destruct v, r.
Qed.
Lemma cells_values ev er el : length ev = length el -> length er = length el ->
  forallb is_full (cells_of ev er el) = true -> map cell_value (cells_of ev er el) = el.
Proof.
  revert ev er el. apply (cells_ind (fun ev er el => forallb is_full (cells_of ev er el) = true ->
    map cell_value (cells_of ev er el) = el)); [done|]. intros v r x ev er el H1 H2 IH H.
  cbn in H |- *. boolify. unfold cells_of in IH. rewrite IH by done. by destruct v, r.
Qed.
Lemma cells_count ev er el : length ev = length el -> length er = length el ->
  count_true ev <= vsize el /\
  (count_true ev =? vsize el) = forallb is_full (cells_of ev er el).
Proof.
  revert ev er el. apply cells_ind; [done|]. intros v r x ev er el H1 H2 [Hle IH].
  unfold vsize in *. cbn [length count_true foldr] in *. fold (count_true ev).
  change (forallb is_full (cells_of (v :: ev) (r :: er) (x :: el))) with
    (is_full (to_cell (v, r) x) && forallb is_full (cells_of ev er el)).
  rewrite <- IH. destruct v; cbn [to_cell fst is_full andb].
  - split; [lia|]. apply eq_true_iff_eq. rewrite !Z.eqb_eq. lia.
  - split; [lia|]. destruct r; cbn; apply Z.eqb_neq; lia.
Qed.

Lemma cells_range ev er el (o n : nat) :
  take n (drop o (cells_of ev er el)) = cells_of (take n (drop o ev)) (take n (drop o er)) (take n (drop o el)).
Proof. unfold cells_of. by rewrite zip_with_drop, zip_with_take, zip_with_drop, zip_with_take. Qed.

Lemma cells_insert ev er el i v r x :
  cells_of (<[i := v]> ev) (<[i := r]> er) (<[i := x]> el) = <[i := to_cell (v, r) x]> (cells_of ev er el).
Proof. unfold cells_of. by rewrite insert_zip_with, insert_zip_with. Qed.

Lemma range_lookup flag (flags : list bool) (o n : nat) :
  forallb (fun x => negb (Bool.eqb x flag)) (take n (drop o flags)) = true -> (o + n <= length flags)%nat ->
  forall j, (o <= j < o + n)%nat -> flags !! j = Some (negb flag).
Proof.
  intros H Hl j Hj. destruct (lookup_lt_is_Some_2 flags j) as [b Hb]; [lia|]. rewrite Hb. f_equal.
  assert (Hin : In b (take n (drop o flags))).
  { apply list_elem_of_In, list_elem_of_lookup. exists (j - o)%nat. rewrite lookup_take_lt by lia.
    rewrite lookup_drop. by replace (o + (j - o))%nat with j by lia. }
  rewrite forallb_forall in H. specialize (H b Hin). by destruct b, flag.
Qed.

Lemma count_true_insert (l : list bool) i : l !! i = Some false -> count_true (<[i := true]> l) = count_true l + 1.
Proof.
  revert i. induction l as [|b l IH]; intros [|i]; [done|done|..].
  - intros [= ->]. unfold count_true. cbn [foldr insert list_insert]. lia.
  - intros E. specialize (IH i E). change (<[S i := true]> (b :: l)) with (b :: <[i := true]> l).
    unfold count_true in *. cbn [foldr]. lia.
Qed.
End cells.

(** The loops keep the slot well formed and put cells one by one. *)
Lemma write_loop_cells vs : forall s i, slot_inv s -> (i + length vs <= length (elements s))%nat ->
  (forall j, (i <= j < i + length vs)%nat -> elementValid s !! j = Some false) ->
  let s' := write_loop s i vs in
  slot_inv s' /\ valid s' = valid s /\ tag s' = tag s /\ slot_cells s' = put_cells (slot_cells s) i (map Full vs).
Proof.
  induction vs as [|v vs IH]; intros s i I Hl Hf; cbn [write_loop map put_cells]; [done|]. cbn [length] in *.
  destruct I as (I1 & I2 & I3).
  destruct (IH (mkFifoSlot (valid s) (tag s) (<[i := v]> (elements s)) (<[i := true]> (elementValid s))
                    (elementReserved s) (validElements s + 1)) (S i)) as (J & V & T & C).
  - split; [|split]; cbn; rewrite ?length_insert; [done|done|].
    rewrite count_true_insert, I3 by (apply Hf; lia). done.
  - cbn. rewrite length_insert. lia.
  - intros j Hj. cbn. rewrite list_lookup_insert_ne by lia. apply Hf. lia.
  - split; [done|]. split; [done|]. split; [done|]. rewrite C. f_equal.
    destruct (lookup_lt_is_Some_2 (elementReserved s) i) as [r Hr]; [lia|].
    change (Full v) with (to_cell (true, r) v). unfold slot_cells. by rewrite <- cells_insert, (list_insert_id _ i r Hr).
Qed.

Lemma commit_loop_cells vs : forall s i, slot_inv s -> (i + length vs <= length (elements s))%nat ->
  (forall j, (i <= j < i + length vs)%nat -> elementValid s !! j = Some false) ->
  let s' := commit_loop s i vs in
  slot_inv s' /\ valid s' = valid s /\ tag s' = tag s /\ slot_cells s' = put_cells (slot_cells s) i (map Full vs).
Proof.
  induction vs as [|v vs IH]; intros s i I Hl Hf; cbn [commit_loop map put_cells]; [done|]. cbn [length] in *.
  destruct I as (I1 & I2 & I3).
  destruct (IH (mkFifoSlot (valid s) (tag s) (<[i := v]> (elements s)) (<[i := true]> (elementValid s))
                    (<[i := false]> (elementReserved s)) (validElements s + 1)) (S i)) as (J & V & T & C).
  - split; [|split]; cbn; rewrite ?length_insert; [done|done|].
    rewrite count_true_insert, I3 by (apply Hf; lia). done.
  - cbn. rewrite length_insert. lia.
  - intros j Hj. cbn. rewrite list_lookup_insert_ne by lia. apply Hf. lia.
  - split; [done|]. split; [done|]. split; [done|]. rewrite C. f_equal.
    change (Full v) with (to_cell (true, false) v). unfold slot_cells. by rewrite <- cells_insert.
Qed.

Lemma fill_cells n : forall ev er el i, length ev = length el -> length er = length el -> (i + n <= length el)%nat ->
  (forall j, (i <= j < i + n)%nat -> ev !! j = Some false) ->
  length (fill_true er i n) = length er /\
  cells_of ev (fill_true er i n) el = put_cells (cells_of ev er el) i (replicate n Reserved).
Proof.
  induction n as [|n IH]; intros ev er el i H1 H2 Hl Hf; cbn [fill_true replicate put_cells]; [done|].
  destruct (IH ev (<[i := true]> er) el (S i)) as [L C];
    [done|by rewrite length_insert|lia|intros j Hj; apply Hf; lia|].
  rewrite length_insert in L. split; [done|]. rewrite C. f_equal.
  destruct (lookup_lt_is_Some_2 el i) as [x Hx]; [lia|].
  change Reserved with (to_cell (false, true) x).
  by rewrite <- cells_insert, (list_insert_id el i x Hx), (list_insert_id ev i false (Hf i ltac:(lia))).
Qed.

Lemma copy_cells vs : forall ev er el i, length ev = length el -> length er = length el ->
  (i + length vs <= length el)%nat -> (forall j, (i <= j < i + length vs)%nat -> ev !! j = Some true) ->
  length (copy_loop el i vs) = length el /\
  cells_of ev er (copy_loop el i vs) = put_cells (cells_of ev er el) i (map Full vs).
Proof.
  induction vs as [|v vs IH]; intros ev er el i H1 H2 Hl Hf; cbn [copy_loop map put_cells]; [done|]. cbn [length] in *.
  destruct (IH ev er (<[i := v]> el) (S i)) as [L C];
    [by rewrite length_insert|by rewrite length_insert|rewrite length_insert; lia|intros j Hj; apply Hf; lia|].
  rewrite length_insert in L. split; [done|]. rewrite C. f_equal.
  destruct (lookup_lt_is_Some_2 er i) as [r Hr]; [lia|].
  change (Full v) with (to_cell (true, r) v).
  by rewrite <- cells_insert, (list_insert_id er i r Hr), (list_insert_id ev i true (Hf i ltac:(lia))).
Qed.

(** ** Simulation *)

Definition fifo_op_ok (o : fifo_op) : Prop :=
  match o with
  | FReserve slot _ n => 0 <= slot /\ 0 <= n
  | FWrite slot _ offset _ | FCommit slot _ offset _ | FOverwrite slot _ offset _ => 0 <= slot /\ 0 <= offset
  | FReserveWrite slot _ offset n | FRead slot _ offset n => 0 <= slot /\ 0 <= offset /\ 0 <= n
  | FReady slot _ | FReserved slot _ | FRelease slot _ => 0 <= slot
  | FCancel _ | FOccupied => True
  end.

Section simulation.
Context (f : AttentionScoreFifo) (I : fifo_inv f).

Lemma fifo_abs_at slot : nth (Z.to_nat slot) (fifo_abs f) None = slot_abs (fifo_at f slot).
Proof. unfold fifo_abs, fifo_at. change None with (slot_abs FifoSlot_empty). apply map_nth. Qed.

Lemma fifo_at_inv slot : slot_inv (fifo_at f slot).
Proof.
  destruct I as [L F]. unfold fifo_at. destruct (nth_in_or_default (Z.to_nat slot) f FifoSlot_empty) as [H| ->].
  - rewrite Forall_forall in F. by apply F, list_elem_of_In.
  - done.
Qed.

Lemma fifo_at_valid slot : valid (fifo_at f slot) = true -> 0 <= slot -> slot < 16.
Proof.
  intros H Hs. destruct (Z.lt_ge_cases slot 16); [done|]. exfalso. unfold fifo_at in H.
  rewrite nth_overflow in H; [done|]. destruct I as [L _]. rewrite L. lia.
Qed.

Lemma fifo_set_ok slot s : slot_inv s ->
  fifo_inv (fifo_set f slot s) /\ fifo_abs (fifo_set f slot s) = <[Z.to_nat slot := slot_abs s]> (fifo_abs f).
Proof.
  intros Hs. destruct I as [L F]. split; [split|].
  - unfold fifo_set. by rewrite length_insert.
  - by apply Forall_insert.
  - unfold fifo_abs, fifo_set. apply (list_fmap_insert slot_abs).
Qed.

Lemma matches_cells slot t : 0 <= slot ->
  spec_cells (fifo_abs f) slot t = if fifo_matches f slot t then Some (slot_cells (fifo_at f slot)) else None.
Proof.
  intros Hs. unfold spec_cells, fifo_matches. rewrite fifo_abs_at. unfold slot_abs.
  destruct (valid (fifo_at f slot)) eqn:V.
  - rewrite (proj2 (Z.ltb_lt slot fifo_kSlots)) by (apply fifo_at_valid; done). cbn [andb].
    by destruct (AttentionClusterTag_eqb _ _).
  - by rewrite andb_false_r.
Qed.

Lemma matches_abs slot t : fifo_matches f slot t = true ->
  valid (fifo_at f slot) = true /\ tag (fifo_at f slot) = t.
Proof.
  unfold fifo_matches. intros H. boolify. split; [done|]. by destruct (tag_eqb_spec (tag (fifo_at f slot)) t).
Qed.

Lemma bounds_range s offset n : slot_inv s -> 0 <= offset -> 0 <= n ->
  spec_range (slot_cells s) offset n =
  if rangeInBounds s offset n
  then Some (cells_of (take (Z.to_nat n) (drop (Z.to_nat offset) (elementValid s)))
                      (take (Z.to_nat n) (drop (Z.to_nat offset) (elementReserved s)))
                      (take (Z.to_nat n) (drop (Z.to_nat offset) (elements s)))) else None.
Proof.
  intros (I1 & I2 & _) Ho Hn. unfold spec_range, rangeInBounds, slot_cells. rewrite cells_range.
  unfold vsize. rewrite cells_length by done. set (k := Z.of_nat (length (elements s))).
  destruct (Z.leb_spec 1 n), (Z.leb_spec (offset + n) k), (Z.eqb_spec n 0), (Z.leb_spec offset k),
    (Z.leb_spec n (k - offset)); cbn; try done; lia.
Qed.

Lemma in_bounds s offset n : rangeInBounds s offset n = true -> 0 <= offset -> 0 <= n ->
  (Z.to_nat offset + Z.to_nat n <= length (elements s))%nat.
Proof. unfold rangeInBounds, vsize. intros H Ho Hn. boolify. lia. Qed.

Lemma taken_length s offset n : slot_inv s ->
  length (take n (drop offset (elementValid s))) = length (take n (drop offset (elements s))) /\
  length (take n (drop offset (elementReserved s))) = length (take n (drop offset (elements s))).
Proof. intros (I1 & I2 & _). rewrite !length_take, !length_drop. lia. Qed.

(** A slot whose cells are updated in place. *)
Lemma slot_update slot s' t new offset : fifo_matches f slot t = true ->
  slot_inv s' -> valid s' = valid (fifo_at f slot) -> tag s' = tag (fifo_at f slot) ->
  slot_cells s' = put_cells (slot_cells (fifo_at f slot)) (Z.to_nat offset) new ->
  fifo_inv (fifo_set f slot s') /\
  fifo_abs (fifo_set f slot s') =
    <[Z.to_nat slot := Some (t, put_cells (slot_cells (fifo_at f slot)) (Z.to_nat offset) new)]> (fifo_abs f).
Proof.
  intros M J V T C. destruct (fifo_set_ok slot s' J) as [K E]. split; [done|]. rewrite E.
  destruct (matches_abs slot t M) as [Mv Mt]. unfold slot_abs. by rewrite V, T, C, Mv, Mt.
Qed.

(** What every operation has to establish. *)
Definition simulates (x : AttentionScoreFifo * fifo_answer) (y : spec_fifo * fifo_answer) : Prop :=
  fifo_inv x.1 /\ fifo_abs x.1 = y.1 /\ x.2 = y.2.

Lemma simulates_refl a : simulates (f, a) (fifo_abs f, a).
Proof. done. Qed.

Lemma nat_size {A} (l : list A) : Z.to_nat (vsize l) = length l.
Proof. unfold vsize. lia. Qed.

Lemma write_sim slot t offset vs : 0 <= slot -> 0 <= offset ->
  simulates (fifo_apply f (FWrite slot t offset vs)) (spec_apply (fifo_abs f) (FWrite slot t offset vs)).
Proof.
  intros Hs Ho. cbn [fifo_apply spec_apply]. unfold ScoreFifo_write, rangeAvailable, spec_update.
  rewrite matches_cells by done. destruct (fifo_matches f slot t) eqn:M; cbn [negb]; [|apply simulates_refl].
  pose proof (fifo_at_inv slot) as J. rewrite (bounds_range _ offset) by (unfold vsize; done || lia).
  destruct (rangeInBounds _ _ _) eqn:B; cbn [negb]; [|apply simulates_refl].
  destruct (taken_length _ (Z.to_nat offset) (Z.to_nat (vsize vs)) J) as [T1 T2]. rewrite cells_empty by done.
  unfold range_without. pose proof (in_bounds _ _ _ B Ho ltac:(unfold vsize; lia)) as Hb.
  destruct (forallb _ _) eqn:E1; cbn [andb negb]; [|apply simulates_refl].
  destruct (forallb _ (take _ (drop _ (elementReserved _)))); cbn [negb]; [|apply simulates_refl].
  rewrite nat_size in *. pose proof (range_lookup _ _ _ _ E1) as R. rewrite (proj1 J) in R.
  destruct (write_loop_cells vs (fifo_at f slot) (Z.to_nat offset) J Hb (R Hb)) as (J' & V & T & C).
  destruct (slot_update slot _ t (map Full vs) offset M J' V T C). by split.
Qed.

Lemma reserveWrite_sim slot t offset n : 0 <= slot -> 0 <= offset -> 0 <= n ->
  simulates (fifo_apply f (FReserveWrite slot t offset n)) (spec_apply (fifo_abs f) (FReserveWrite slot t offset n)).
Proof.
  intros Hs Ho Hn. cbn [fifo_apply spec_apply]. unfold ScoreFifo_reserveWrite, rangeAvailable, spec_update.
  rewrite matches_cells by done. destruct (fifo_matches f slot t) eqn:M; cbn [negb]; [|apply simulates_refl].
  pose proof (fifo_at_inv slot) as J. rewrite (bounds_range _ offset) by done.
  destruct (rangeInBounds _ _ _) eqn:B; cbn [negb]; [|apply simulates_refl].
  destruct (taken_length _ (Z.to_nat offset) (Z.to_nat n) J) as [T1 T2]. rewrite cells_empty by done.
  unfold range_without. pose proof (in_bounds _ _ _ B Ho Hn) as Hb.
  destruct (forallb _ _) eqn:E1; cbn [andb negb]; [|apply simulates_refl].
  destruct (forallb _ (take _ (drop _ (elementReserved _)))); cbn [negb]; [|apply simulates_refl].
  pose proof (range_lookup _ _ _ _ E1) as R. rewrite (proj1 J) in R.
  destruct J as (J1 & J2 & J3).
  destruct (fill_cells (Z.to_nat n) _ _ _ (Z.to_nat offset) J1 J2 Hb (R Hb)) as [L C].
  match goal with |- simulates (fifo_set f slot ?s', _) _ =>
    destruct (slot_update slot s' t (replicate (Z.to_nat n) Reserved) offset M); try done end.
  split; [done|]. split; [cbn; lia|done].
Qed.

Lemma commit_sim slot t offset vs : 0 <= slot -> 0 <= offset ->
  simulates (fifo_apply f (FCommit slot t offset vs)) (spec_apply (fifo_abs f) (FCommit slot t offset vs)).
Proof.
  intros Hs Ho. cbn [fifo_apply spec_apply]. unfold ScoreFifo_commitWrite, spec_update.
  rewrite matches_cells by done. destruct (fifo_matches f slot t) eqn:M; cbn [negb orb]; [|apply simulates_refl].
  pose proof (fifo_at_inv slot) as J. rewrite (bounds_range _ offset) by (unfold vsize; done || lia).
  destruct (vsize vs =? 0) eqn:E0.
  { unfold rangeInBounds. rewrite E0. apply simulates_refl. }
  destruct (rangeInBounds _ _ _) eqn:B; cbn [negb orb]; [|apply simulates_refl].
  destruct (taken_length _ (Z.to_nat offset) (Z.to_nat (vsize vs)) J) as [T1 T2]. rewrite cells_reserved by done.
  unfold range_without. pose proof (in_bounds _ _ _ B Ho ltac:(unfold vsize; lia)) as Hb.
  destruct (forallb _ (take _ (drop _ (elementReserved _)))); cbn [andb negb orb]; [|apply simulates_refl].
  destruct (forallb _ _) eqn:E1; cbn [negb]; [|apply simulates_refl].
  rewrite nat_size in *. pose proof (range_lookup _ _ _ _ E1) as R. rewrite (proj1 J) in R.
  destruct (commit_loop_cells vs (fifo_at f slot) (Z.to_nat offset) J Hb (R Hb)) as (J' & V & T & C).
  destruct (slot_update slot _ t (map Full vs) offset M J' V T C). by split.
Qed.

Lemma canRead_spec slot t offset n : 0 <= slot -> 0 <= offset -> 0 <= n ->
  ScoreFifo_canRead f slot t offset n =
  fifo_matches f slot t && rangeInBounds (fifo_at f slot) offset n &&
  range_without false (elementValid (fifo_at f slot)) offset n.
Proof.
  intros Hs Ho Hn. unfold ScoreFifo_canRead, rangeInBounds. destruct (fifo_matches f slot t); cbn [negb orb andb]; [|done].
  destruct (Z.eqb_spec n 0); cbn [negb andb]; [done|]. unfold vsize.
  set (k := Z.of_nat (length (elements (fifo_at f slot)))).
  destruct (Z.ltb_spec k offset), (Z.ltb_spec (k - offset) n), (Z.leb_spec offset k), (Z.leb_spec n (k - offset));
    cbn; try done; lia.
Qed.

Lemma overwrite_sim slot t offset vs : 0 <= slot -> 0 <= offset ->
  simulates (fifo_apply f (FOverwrite slot t offset vs)) (spec_apply (fifo_abs f) (FOverwrite slot t offset vs)).
Proof.
  intros Hs Ho. cbn [fifo_apply spec_apply]. unfold ScoreFifo_overwrite, spec_update.
  rewrite canRead_spec by (unfold vsize; done || lia).
  rewrite matches_cells by done. destruct (fifo_matches f slot t) eqn:M; cbn [negb andb]; [|apply simulates_refl].
  pose proof (fifo_at_inv slot) as J. rewrite (bounds_range _ offset) by (unfold vsize; done || lia).
  destruct (rangeInBounds _ _ _) eqn:B; cbn [negb andb]; [|apply simulates_refl].
  destruct (taken_length _ (Z.to_nat offset) (Z.to_nat (vsize vs)) J) as [T1 T2]. rewrite cells_full by done.
  unfold range_without. pose proof (in_bounds _ _ _ B Ho ltac:(unfold vsize; lia)) as Hb.
  destruct (forallb _ _) eqn:E1; cbn [negb]; [|apply simulates_refl].
  rewrite nat_size in *. pose proof (range_lookup _ _ _ _ E1) as R. rewrite (proj1 J) in R.
  destruct J as (J1 & J2 & J3).
  destruct (copy_cells vs _ _ _ (Z.to_nat offset) J1 J2 Hb (R Hb)) as [L C].
  match goal with |- simulates (fifo_set f slot ?s', _) _ =>
    destruct (slot_update slot s' t (map Full vs) offset M); try done end.
  split; [cbn; lia|]. split; [cbn; lia|done].
Qed.

Lemma read_sim slot t offset n : 0 <= slot -> 0 <= offset -> 0 <= n ->
  simulates (fifo_apply f (FRead slot t offset n)) (spec_apply (fifo_abs f) (FRead slot t offset n)).
Proof.
  intros Hs Ho Hn. cbn [fifo_apply spec_apply]. split; [done|]. split; [done|]. cbn [snd]. f_equal.
  unfold ScoreFifo_read. rewrite canRead_spec by done.
  rewrite matches_cells by done. destruct (fifo_matches f slot t) eqn:M; cbn [negb andb]; [|done].
  pose proof (fifo_at_inv slot) as J. rewrite (bounds_range _ offset) by done.
  destruct (rangeInBounds _ _ _) eqn:B; cbn [negb andb]; [|done].
  destruct (taken_length _ (Z.to_nat offset) (Z.to_nat n) J) as [T1 T2].
  unfold range_without. rewrite <- (cells_full _ _ _ T1 T2).
  destruct (forallb is_full _) eqn:E; cbn [negb]; [|done]. by rewrite cells_values.
Qed.

Lemma ready_sim slot t : 0 <= slot ->
  simulates (fifo_apply f (FReady slot t)) (spec_apply (fifo_abs f) (FReady slot t)).
Proof.
  intros Hs. cbn [fifo_apply spec_apply]. split; [done|]. split; [done|]. cbn [snd]. f_equal. unfold ScoreFifo_ready.
  rewrite matches_cells by done. destruct (fifo_matches f slot t) eqn:M; cbn [andb]; [|done].
  destruct (fifo_at_inv slot) as (J1 & J2 & J3). rewrite J3. by apply cells_count.
Qed.

Lemma release_sim slot t : 0 <= slot ->
  simulates (fifo_apply f (FRelease slot t)) (spec_apply (fifo_abs f) (FRelease slot t)).
Proof.
  intros Hs. cbn [fifo_apply spec_apply]. unfold ScoreFifo_release. rewrite matches_cells by done.
  destruct (fifo_matches f slot t); cbn [negb]; [|apply simulates_refl].
  destruct (fifo_set_ok slot FifoSlot_empty) as [K E]; [done|]. split; [done|]. split; [exact E|done].
Qed.

Lemma reserve_sim slot t n : 0 <= slot -> 0 <= n ->
  simulates (fifo_apply f (FReserve slot t n)) (spec_apply (fifo_abs f) (FReserve slot t n)).
Proof.
  intros Hs Hn. cbn [fifo_apply spec_apply]. unfold ScoreFifo_reserve, fifo_kSlots, kElementsPerSlot.
  rewrite fifo_abs_at. assert (in_use (slot_abs (fifo_at f slot)) = valid (fifo_at f slot)) as ->.
  { unfold slot_abs. by destruct (valid _). }
  assert ((slot <? 16) && (1 <=? n) && (n <=? 1024) && negb (valid (fifo_at f slot)) =
          negb ((16 <=? slot) || (n =? 0) || (16 * 64 <? n) || valid (fifo_at f slot))) as ->.
  { destruct (Z.ltb_spec slot 16), (Z.leb_spec 16 slot), (Z.leb_spec 1 n), (Z.eqb_spec n 0), (Z.leb_spec n 1024),
      (Z.ltb_spec (16 * 64) n), (valid _); cbn; try done; lia. }
  destruct (_ || _ || _ || _); cbn [negb]; [apply simulates_refl|].
  match goal with |- simulates (fifo_set f slot ?s', _) _ => destruct (fifo_set_ok slot s') as [K E] end.
  - split; [cbn; by rewrite !length_replicate|]. split; [cbn; by rewrite !length_replicate|]. cbn.
    induction (Z.to_nat n); [done|]. by cbn.
  - split; [done|]. split; [|done]. cbn [fst]. rewrite E. do 2 f_equal. unfold slot_abs. cbn. do 2 f_equal.
    unfold slot_cells, cells_of. cbn. clear. induction (Z.to_nat n) as [|k IH]; [done|]. cbn. by rewrite IH.
Qed.
End simulation.

Lemma cancel_abs f g : Forall slot_inv f ->
  let (f', n) := ScoreFifo_cancelGeneration f g in
  length f' = length f /\ Forall slot_inv f' /\
  fifo_abs f' = map (fun x => if of_generation g x then None else x) (fifo_abs f) /\
  n = vsize (List.filter (of_generation g) (fifo_abs f)).
Proof.
  induction 1 as [|s f Hs Hf IH]; [done|]. cbn [ScoreFifo_cancelGeneration].
  destruct (ScoreFifo_cancelGeneration f g) as [f'' n]. destruct IH as (L & F & A & C).
  assert (of_generation g (slot_abs s) = valid s && (generation (tag s) =? g)) as Eg.
  { unfold slot_abs. by destruct (valid s). }
  cbn [fifo_abs map List.filter]. fold (fifo_abs f). rewrite Eg.
  destruct (valid s && (generation (tag s) =? g)); cbn [fifo_abs map length].
  - split; [lia|]. split; [by constructor|]. fold (fifo_abs f''). rewrite A. split; [done|]. rewrite C. unfold vsize. cbn [length]. lia.
  - split; [lia|]. split; [by constructor|]. fold (fifo_abs f''). by rewrite A.
Qed.

Lemma fifo_op_sim f o : fifo_inv f -> fifo_op_ok o -> simulates (fifo_apply f o) (spec_apply (fifo_abs f) o).
Proof.
  intros I Hok. destruct o; cbn in Hok.
  - apply reserve_sim; tauto.
  - apply write_sim; tauto.
  - apply reserveWrite_sim; tauto.
  - apply commit_sim; tauto.
  - apply overwrite_sim; tauto.
  - apply read_sim; tauto.
  - by apply ready_sim.
  - split; [done|]. split; [done|]. cbn. rewrite matches_cells by done. unfold ScoreFifo_reserved.
    by destruct (fifo_matches _ _ _).
  - by apply release_sim.
  - destruct I as [L F]. cbn [fifo_apply spec_apply]. pose proof (cancel_abs f g F) as C.
    destruct (ScoreFifo_cancelGeneration f g) as [f' n]. destruct C as (L' & F' & A & ->).
    split; [split; [exact (eq_trans L' L)|done]|]. split; [done|done].
  - split; [done|]. split; [done|]. cbn. f_equal. unfold ScoreFifo_occupied, vsize. f_equal.
    clear. unfold fifo_abs. induction f as [|s f IH]; [done|]. cbn [map List.filter].
    assert (in_use (slot_abs s) = valid s) as -> by (unfold slot_abs; by destruct (valid s)).
    destruct (valid s); cbn [length]; by rewrite IH.
Qed.

Fixpoint fifo_run (f : AttentionScoreFifo) (ops : list fifo_op) : AttentionScoreFifo * list fifo_answer :=
  match ops with
  | [] => (f, [])
  | o :: ops' => let (f', a) := fifo_apply f o in let (f'', l) := fifo_run f' ops' in (f'', a :: l)
  end.
Fixpoint spec_run (f : spec_fifo) (ops : list fifo_op) : spec_fifo * list fifo_answer :=
  match ops with
  | [] => (f, [])
  | o :: ops' => let (f', a) := spec_apply f o in let (f'', l) := spec_run f' ops' in (f'', a :: l)
  end.

(** C7: the score FIFO refines its specification.  For every sequence of operations
    the answers are those of sixteen independent slots of write-once cells: a range
    is accepted exactly when it is non-empty, inside the slot, owned by the tag and
    in the state the operation needs (empty to write or reserve, reserved to commit,
    full to read or overwrite), reading returns the last values put there, and a slot
    is ready exactly when each of its cells is full although the code only counts
    writes. *)
Theorem score_fifo_refines (ops : list fifo_op) : Forall fifo_op_ok ops ->
  let (f, answers) := fifo_run AttentionScoreFifo_new ops in
  let (g, answers') := spec_run (replicate 16 None) ops in
  answers = answers' /\ fifo_abs f = g /\ fifo_inv f.
Proof.
  intros Hok. change (replicate 16 None) with (fifo_abs AttentionScoreFifo_new).
  assert (I : fifo_inv AttentionScoreFifo_new) by (split; [done|repeat constructor]).
  revert I Hok. generalize AttentionScoreFifo_new. induction ops as [|o ops IH]; intros f I Hok; [done|].
  apply Forall_cons in Hok as [Ho Hok]. cbn [fifo_run spec_run].
  destruct (fifo_op_sim f o I Ho) as (I' & A & E). destruct (fifo_apply f o) as [f' a], (spec_apply (fifo_abs f) o) as [g' a'].
  cbn [fst snd] in *. subst. specialize (IH f' I' Hok).
  destruct (fifo_run f' ops), (spec_run (fifo_abs f') ops). destruct IH as (-> & E & J). done.
Qed.

Definition ex_tag : AttentionClusterTag := mkTag 1 7 0 0 0 0 0.
Definition ex_ops : list fifo_op :=
  [FReserve 2 ex_tag 4; FReserveWrite 2 ex_tag 0 2; FWrite 2 ex_tag 1 [S754_nan];
   FWrite 2 ex_tag 2 [S754_nan; S754_nan]; FReady 2 ex_tag; FCommit 2 ex_tag 0 [S754_nan; S754_zero true];
   FReady 2 ex_tag; FRead 2 ex_tag 1 2; FCancel 1; FOccupied].

Lemma score_fifo_refines_witness :
  let (f, answers) := fifo_run AttentionScoreFifo_new ex_ops in
  answers = (spec_run (replicate 16 None) ex_ops).2 /\ fifo_inv f.
Proof.
  assert (H : Forall fifo_op_ok ex_ops) by (repeat constructor; discriminate).
  pose proof (score_fifo_refines ex_ops H) as R.
  destruct (fifo_run AttentionScoreFifo_new ex_ops) as [f answers], (spec_run (replicate 16 None) ex_ops) as [g answers'].
  destruct R as (A & _ & J). split; [exact A|exact J].
Defined.
