(* ===== verification/ClusterState.v ===== *)
(** * Cluster ownership and leases
      ([src/src/sst/elements/golem/attention/attentionCluster.h], lines 834-1062)

    The generation fence, and the state that hands the 64 arrays to QK and PV,
    reserves the QK/score/PV/O contexts and counts operand-bank leases.  An access past
    the end of a [std::array] is [Throw out_of_range]. *)

From Stdlib Require Import ZArith Lia.
From stdpp Require Import base numbers list sets.
From S2P Require Import Prelude AttentionBase.

(** ** AttentionGenerationFence *)

(** [activeGeneration_], zero when none. *)
Definition AttentionGenerationFence := Z.

Definition GenerationFence_begin (f : AttentionGenerationFence) (g : Z) : AttentionGenerationFence * bool :=
  if (g =? 0) || negb (f =? 0) then (f, false) else (g, true).
Definition GenerationFence_matches (f : AttentionGenerationFence) (g : Z) : bool := negb (g =? 0) && (g =? f).
Definition GenerationFence_retire (f : AttentionGenerationFence) (g : Z) : AttentionGenerationFence * bool :=
  if negb (GenerationFence_matches f g) then (f, false) else (0, true).
Definition GenerationFence_cancel (f : AttentionGenerationFence) (g : Z) : AttentionGenerationFence * bool :=
  GenerationFence_retire f g.

(** ** AttentionClusterState *)

Inductive AttentionArrayOwner := OwnerNone | OwnerQk | OwnerPv.
Inductive AttentionClusterContextKind := KindQk | KindScore | KindPv | KindO.
#[export] Instance owner_eq_dec : EqDecision AttentionArrayOwner.
Proof. solve_decision. Defined.
#[export] Instance kind_eq_dec : EqDecision AttentionClusterContextKind.
Proof. solve_decision. Defined.

Record AttentionClusterContext := mkContext {
  ctx_valid : bool; ctx_tag : AttentionClusterTag; operandBank : Z; creditsHeld : Z }.
Definition AttentionClusterContext_default : AttentionClusterContext :=
  mkContext false AttentionClusterTag_default 0 0.

Record BankLease := mkLease { lease_tag : AttentionClusterTag; refs : Z }.
Definition BankLease_default : BankLease := mkLease AttentionClusterTag_default 0.

Definition kArrayCount : Z := 64.
Definition kOperandBanks : Z := 1.

Record AttentionClusterState := mkCluster {
  enabled_ : bool;
  generation_ : Z;
  owners_ : list AttentionArrayOwner;
  bankLeases_ : list (list BankLease);
  contexts_ : AttentionClusterContextKind -> list AttentionClusterContext }.

Definition no_leases : list (list BankLease) := replicate 64 (replicate 1 BankLease_default).
Definition no_contexts : list AttentionClusterContext := replicate 4 AttentionClusterContext_default.

Definition AttentionClusterState_new : AttentionClusterState :=
  mkCluster false 0 (replicate 64 OwnerNone) no_leases (fun _ => no_contexts).

Definition context_capacity (kind : AttentionClusterContextKind) : Z :=
  match kind with KindQk | KindPv => 2 | _ => 4 end.

Definition cluster_count_valid (l : list AttentionClusterContext) : Z := Z.of_nat (length (List.filter ctx_valid l)).

Definition ClusterState_cancel (s : AttentionClusterState) : AttentionClusterState * Z :=
  (AttentionClusterState_new,
   cluster_count_valid (contexts_ s KindQk) + cluster_count_valid (contexts_ s KindScore) +
   cluster_count_valid (contexts_ s KindPv) + cluster_count_valid (contexts_ s KindO)).

Definition ClusterState_configure (s : AttentionClusterState) (g qk : Z) : AttentionClusterState * bool :=
  if (g =? 0) || (negb (qk =? 16) && negb (qk =? 24) && negb (qk =? 32) && negb (qk =? 40)) then (s, false)
  else
    let (c, _) := ClusterState_cancel s in
    (mkCluster true g
       (map (fun id => if Z.of_nat id <? qk then OwnerQk else OwnerPv) (seq 0 64))
       (bankLeases_ c) (contexts_ c), true).

Definition ClusterState_owns (s : AttentionClusterState) (arrayId : Z) (owner : AttentionArrayOwner) : bool :=
  enabled_ s && (arrayId <? Z.of_nat (length (owners_ s))) &&
  bool_decide (nth (Z.to_nat arrayId) (owners_ s) OwnerNone = owner).

Definition set_contexts (s : AttentionClusterState) (kind : AttentionClusterContextKind)
    (l : list AttentionClusterContext) : AttentionClusterState :=
  mkCluster (enabled_ s) (generation_ s) (owners_ s) (bankLeases_ s)
    (fun k => if bool_decide (k = kind) then l else contexts_ s k).
Definition set_lease (s : AttentionClusterState) (arrayId bank : Z) (l : BankLease) : AttentionClusterState :=
  mkCluster (enabled_ s) (generation_ s) (owners_ s)
    (alter (fun leases => <[Z.to_nat bank := l]> leases) (Z.to_nat arrayId) (bankLeases_ s)) (contexts_ s).
Definition lease_at (s : AttentionClusterState) (arrayId bank : Z) : BankLease :=
  nth (Z.to_nat bank) (nth (Z.to_nat arrayId) (bankLeases_ s) []) BankLease_default.

(** The loop of [reserve]: the first invalid slot below the capacity. *)
Fixpoint reserve_slot (l : list AttentionClusterContext) (i : nat) (capacity : Z) : option nat :=
  match l with
  | [] => None
  | c :: l' =>
      if negb (Z.of_nat i <? capacity) then None
      else if negb (ctx_valid c) then Some i else reserve_slot l' (S i) capacity
  end.

Definition ClusterState_reserve (s : AttentionClusterState) (kind : AttentionClusterContextKind)
    (t : AttentionClusterTag) (bank : Z) : AttentionClusterState * Z :=
  if negb (enabled_ s) || negb (generation t =? generation_ s) || (kOperandBanks <=? bank) then (s, -1)
  else
    match reserve_slot (contexts_ s kind) 0 (context_capacity kind) with
    | Some i => (set_contexts s kind (<[i := mkContext true t bank 0]> (contexts_ s kind)), Z.of_nat i)
    | None => (s, -1)
    end.

Definition context_at (s : AttentionClusterState) (kind : AttentionClusterContextKind) (slot : Z) :
    AttentionClusterContext :=
  nth (Z.to_nat slot) (contexts_ s kind) AttentionClusterContext_default.

Definition ClusterState_callbackMatches (s : AttentionClusterState) (kind : AttentionClusterContextKind) (slot : Z)
    (t : AttentionClusterTag) : bool :=
  (slot <? Z.of_nat (length (contexts_ s kind))) && ctx_valid (context_at s kind slot) &&
  AttentionClusterTag_eqb (ctx_tag (context_at s kind slot)) t && (generation t =? generation_ s).

Definition ClusterState_release (s : AttentionClusterState) (kind : AttentionClusterContextKind) (slot : Z)
    (t : AttentionClusterTag) : AttentionClusterState * bool :=
  if negb (ClusterState_callbackMatches s kind slot t) then (s, false)
  else (set_contexts s kind (<[Z.to_nat slot := AttentionClusterContext_default]> (contexts_ s kind)), true).

Definition ClusterState_acquireBank (s : AttentionClusterState) (arrayId bank : Z) (owner : AttentionArrayOwner)
    (t : AttentionClusterTag) : AttentionClusterState * bool :=
  if negb (ClusterState_owns s arrayId owner) || (kOperandBanks <=? bank) then (s, false)
  else if negb (refs (lease_at s arrayId bank) =? 0) || negb (generation t =? generation_ s) then (s, false)
  else (set_lease s arrayId bank (mkLease t 1), true).

Definition lease_refused (s : AttentionClusterState) (arrayId bank : Z) (owner : AttentionArrayOwner)
    (t : AttentionClusterTag) : bool :=
  negb (ClusterState_owns s arrayId owner) || (kOperandBanks <=? bank) ||
  (refs (lease_at s arrayId bank) =? 0) || negb (AttentionClusterTag_eqb (lease_tag (lease_at s arrayId bank)) t).

Definition ClusterState_retainBank (s : AttentionClusterState) (arrayId bank : Z) (owner : AttentionArrayOwner)
    (t : AttentionClusterTag) : AttentionClusterState * bool :=
  if lease_refused s arrayId bank owner t then (s, false)
  else
    let l := lease_at s arrayId bank in
    (set_lease s arrayId bank (mkLease (lease_tag l) (u32 (refs l + 1))), true).

Definition ClusterState_releaseBank (s : AttentionClusterState) (arrayId bank : Z) (owner : AttentionArrayOwner)
    (t : AttentionClusterTag) : AttentionClusterState * bool :=
  if lease_refused s arrayId bank owner t then (s, false)
  else
    let l := lease_at s arrayId bank in
    let refs' := refs l - 1 in
    (set_lease s arrayId bank (if refs' =? 0 then BankLease_default else mkLease (lease_tag l) refs'), true).

Definition ClusterState_bankRefcount (s : AttentionClusterState) (arrayId bank : Z) : Z :=
  if (arrayId <? kArrayCount) && (bank <? kOperandBanks) then refs (lease_at s arrayId bank) else 0.

Definition ClusterState_bankMatches (s : AttentionClusterState) (arrayId bank : Z) (owner : AttentionArrayOwner)
    (t : AttentionClusterTag) : bool :=
  ClusterState_owns s arrayId owner && (bank <? kOperandBanks) &&
  negb (refs (lease_at s arrayId bank) =? 0) && AttentionClusterTag_eqb (lease_tag (lease_at s arrayId bank)) t.

Definition ClusterState_liveBankRefs (s : AttentionClusterState) : Z :=
  foldl (fun n leases => foldl (fun n l => u32 (n + refs l)) n leases) 0 (bankLeases_ s).

Definition ClusterState_liveContexts_kind (s : AttentionClusterState) (kind : AttentionClusterContextKind) : Z :=
  cluster_count_valid (take (Z.to_nat (context_capacity kind)) (contexts_ s kind)).
Definition ClusterState_liveContexts (s : AttentionClusterState) : Z :=
  u32 (ClusterState_liveContexts_kind s KindQk + ClusterState_liveContexts_kind s KindScore +
       ClusterState_liveContexts_kind s KindPv + ClusterState_liveContexts_kind s KindO).

(** The [all_of] of [drained]: [leases[0].refs == 0 && leases[1].refs == 0]. *)
Fixpoint no_banks (l : list (list BankLease)) : result bool :=
  match l with
  | [] => Ok true
  | leases :: l' =>
      match leases !! 0%nat with
      | None => Throw out_of_range
      | Some l0 =>
          if negb (refs l0 =? 0) then Ok false
          else match leases !! 1%nat with
               | None => Throw out_of_range
               | Some l1 => if negb (refs l1 =? 0) then Ok false else no_banks l'
               end
      end
  end.

Definition no_live (l : list AttentionClusterContext) : bool := forallb (fun c => negb (ctx_valid c)) l.

Definition ClusterState_drained (s : AttentionClusterState) : result bool :=
  let! noBanks := no_banks (bankLeases_ s) in
  Ok (no_live (contexts_ s KindQk) && no_live (contexts_ s KindScore) &&
      no_live (contexts_ s KindPv) && no_live (contexts_ s KindO) && noBanks).

(** ** The fence: at most one generation is active *)

Inductive fence_op := FenceBegin (g : Z) | FenceRetire (g : Z).
Definition fence_apply (f : AttentionGenerationFence) (o : fence_op) : AttentionGenerationFence * bool :=
  match o with FenceBegin g => GenerationFence_begin f g | FenceRetire g => GenerationFence_retire f g end.

(** Exactly the operations a one-place lock allows succeed, and they move it. *)
Lemma fence_is_lock f o :
  fence_apply f o =
  match o with
  | FenceBegin g => if bool_decide (f = 0 /\ g <> 0) then (g, true) else (f, false)
  | FenceRetire g => if bool_decide (f = g /\ g <> 0) then (0, true) else (f, false)
  end.
Proof.
  destruct o as [g|g]; cbn; unfold GenerationFence_begin, GenerationFence_retire, GenerationFence_matches.
  - destruct (Z.eqb_spec g 0), (Z.eqb_spec f 0); cbn; case_bool_decide; intuition congruence.
  - destruct (Z.eqb_spec g 0), (Z.eqb_spec g f); cbn; case_bool_decide; subst; intuition congruence.
Qed.

(** ** Runs *)

Inductive cluster_op :=
| OpConfigure (g qk : Z)
| OpReserve (kind : AttentionClusterContextKind) (t : AttentionClusterTag) (bank : Z)
| OpRelease (kind : AttentionClusterContextKind) (slot : Z) (t : AttentionClusterTag)
| OpAcquire (arrayId bank : Z) (owner : AttentionArrayOwner) (t : AttentionClusterTag)
| OpRetain (arrayId bank : Z) (owner : AttentionArrayOwner) (t : AttentionClusterTag)
| OpReleaseBank (arrayId bank : Z) (owner : AttentionArrayOwner) (t : AttentionClusterTag)
| OpCancelAll.

(** The new state and whether the operation was accepted. *)
Definition cluster_apply (s : AttentionClusterState) (o : cluster_op) : AttentionClusterState * bool :=
  match o with
  | OpConfigure g qk => ClusterState_configure s g qk
  | OpReserve kind t bank => let (s', slot) := ClusterState_reserve s kind t bank in (s', 0 <=? slot)
  | OpRelease kind slot t => ClusterState_release s kind slot t
  | OpAcquire a b o t => ClusterState_acquireBank s a b o t
  | OpRetain a b o t => ClusterState_retainBank s a b o t
  | OpReleaseBank a b o t => ClusterState_releaseBank s a b o t
  | OpCancelAll => ((ClusterState_cancel s).1, true)
  end.

Definition cluster_op_ok (o : cluster_op) : Prop :=
  match o with
  | OpAcquire a b _ _ | OpRetain a b _ _ | OpReleaseBank a b _ _ => 0 <= a /\ 0 <= b
  | OpRelease _ slot _ => 0 <= slot
  | _ => True
  end.

(** The accepted operations, most recent first. *)
Fixpoint cluster_run (s : AttentionClusterState) (log : list cluster_op) (ops : list cluster_op) :
    AttentionClusterState * list cluster_op :=
  match ops with
  | [] => (s, log)
  | o :: ops' => let (s', ok) := cluster_apply s o in cluster_run s' (if ok then o :: log else log) ops'
  end.

(** References [t] holds on the bank of array [a]: acquisitions and retentions minus
    releases since the last reset. *)
Fixpoint lease_balance (a : Z) (t : AttentionClusterTag) (log : list cluster_op) : Z :=
  match log with
  | [] => 0
  | OpConfigure _ _ :: _ | OpCancelAll :: _ => 0
  | OpAcquire a' _ _ t' :: log' | OpRetain a' _ _ t' :: log' =>
      lease_balance a t log' + (if (a' =? a) && AttentionClusterTag_eqb t' t then 1 else 0)
  | OpReleaseBank a' _ _ t' :: log' =>
      lease_balance a t log' - (if (a' =? a) && AttentionClusterTag_eqb t' t then 1 else 0)
  | _ :: log' => lease_balance a t log'
  end.

(** ** Invariant *)

Record cluster_inv (s : AttentionClusterState) : Prop := {
  ci_leases : length (bankLeases_ s) = 64%nat /\ Forall (fun l => length l = 1%nat) (bankLeases_ s);
  ci_contexts : forall kind, length (contexts_ s kind) = 4%nat;
  ci_valid : forall kind i c, contexts_ s kind !! i = Some c -> ctx_valid c = true ->
    generation (ctx_tag c) = generation_ s /\ Z.of_nat i < context_capacity kind /\ enabled_ s = true;
  ci_lease : forall a, 0 <= a < 64 -> refs (lease_at s a 0) <> 0 ->
    generation (lease_tag (lease_at s a 0)) = generation_ s /\ enabled_ s = true;
  ci_owners : if enabled_ s
    then generation_ s <> 0 /\ exists qk, qk ∈ [16; 24; 32; 40] /\
         owners_ s = map (fun id => if Z.of_nat id <? qk then OwnerQk else OwnerPv) (seq 0 64)
    else generation_ s = 0 /\ owners_ s = replicate 64 OwnerNone }.

Lemma lease_none s a : bankLeases_ s = no_leases -> 0 <= a < 64 -> lease_at s a 0 = BankLease_default.
Proof.
  intros E Ha. unfold lease_at. rewrite E. assert (nth (Z.to_nat a) no_leases [] = [BankLease_default]) as ->; [|done].
  unfold no_leases. rewrite nth_lookup, lookup_replicate_2 by lia. done.
Qed.

Lemma inv_new : cluster_inv AttentionClusterState_new.
Proof.
  split; try done.
  - split; [done|]. repeat constructor.
  - intros kind i c Hc. apply (list_elem_of_lookup_2 no_contexts i c) in Hc.
    assert (Forall (fun c => ctx_valid c = false) no_contexts) as F by (repeat constructor).
    rewrite Forall_forall in F. rewrite (F c Hc). discriminate.
  - intros a Ha. by rewrite lease_none.
Qed.

Lemma lease_at_set s a bank l a' : cluster_inv s -> 0 <= a < 64 -> 0 <= a' -> 0 <= bank < 1 ->
  lease_at (set_lease s a bank l) a' 0 = if a =? a' then l else lease_at s a' 0.
Proof.
  intros I Ha Ha' Hb. assert (bank = 0) as -> by lia. destruct (ci_leases s I) as [L F].
  unfold lease_at, set_lease. cbn [bankLeases_]. rewrite !nth_lookup.
  destruct (Z.eqb_spec a a') as [->|Hne].
  - rewrite list_lookup_alter_eq. destruct (lookup_lt_is_Some_2 (bankLeases_ s) (Z.to_nat a')) as [x Hx]; [lia|].
    rewrite Hx. cbn. assert (length x = 1%nat) as Lx by (rewrite Forall_forall in F; apply F; by eapply list_elem_of_lookup_2).
    destruct x as [|y x]; [done|]. done.
  - rewrite list_lookup_alter_ne by lia. done.
Qed.

Lemma inv_set_lease s a bank l : cluster_inv s -> 0 <= a < 64 -> 0 <= bank < 1 ->
  (refs l <> 0 -> generation (lease_tag l) = generation_ s /\ enabled_ s = true) -> cluster_inv (set_lease s a bank l).
Proof.
  intros I Ha Hb Hl. destruct (ci_leases s I) as [L F]. split; [|apply I|apply I| |apply I].
  - cbn [set_lease bankLeases_]. rewrite length_alter. split; [done|].
    apply Forall_alter; [done|]. intros x Hx Lx. by rewrite length_insert.
  - intros a' Ha'. rewrite lease_at_set by (done || lia). cbn [set_lease generation_ enabled_].
    destruct (a =? a'); [done|]. by apply I.
Qed.

Lemma inv_set_context s kind i c : cluster_inv s ->
  (ctx_valid c = true -> generation (ctx_tag c) = generation_ s /\ Z.of_nat i < context_capacity kind /\ enabled_ s = true) ->
  cluster_inv (set_contexts s kind (<[i := c]> (contexts_ s kind))).
Proof.
  intros I Hc. split; [apply I| | |apply I|apply I]; cbn [set_contexts contexts_ generation_ enabled_].
  - intros k. case_bool_decide; [|apply I]. rewrite length_insert. apply I.
  - intros k j x. case_bool_decide as Ek; [subst k|apply I]. intros Hj.
    destruct (decide (i = j)) as [<-|Hne].
    + destruct (decide (i < length (contexts_ s kind))%nat).
      * rewrite list_lookup_insert_eq in Hj by done. injection Hj as <-. done.
      * apply lookup_lt_Some in Hj. rewrite length_insert in Hj. lia.
    + rewrite list_lookup_insert_ne in Hj by done. by apply I.
Qed.

Lemma reserve_slot_spec l capacity : forall i k, reserve_slot l i capacity = Some k ->
  (i <= k)%nat /\ Z.of_nat k < capacity /\ exists c, l !! (k - i)%nat = Some c /\ ctx_valid c = false.
Proof.
  induction l as [|c l IH]; intros i k; cbn [reserve_slot]; [discriminate|].
  case_if; [discriminate|]. boolify. case_if.
  - intros [= <-]. boolify. split; [done|]. split; [done|]. exists c. by rewrite Nat.sub_diag.
  - intros E. destruct (IH _ _ E) as (H1 & H2 & c' & Hc & V). split; [lia|]. split; [done|]. exists c'.
    split; [|done]. by replace (k - i)%nat with (S (k - S i)) by lia.
Qed.

Lemma owns_range s a owner : cluster_inv s -> ClusterState_owns s a owner = true -> enabled_ s = true /\ a < 64.
Proof.
  intros I. unfold ClusterState_owns. intros H. boolify. split; [done|].
  pose proof (ci_owners s I) as Ho. rewrite H in Ho. destruct Ho as (_ & qk & _ & E).
  rewrite E, length_map, length_seq in *. lia.
Qed.

(** An accepted lease operation: the array and bank exist, and for [retain] and
    [release] the caller holds the lease. *)
Lemma lease_accepted s a bank owner t : cluster_inv s -> lease_refused s a bank owner t = false -> 0 <= bank ->
  a < 64 /\ bank = 0 /\ refs (lease_at s a 0) <> 0 /\ lease_tag (lease_at s a 0) = t.
Proof.
  intros I H Hb. unfold lease_refused, kOperandBanks in H. boolify.
  assert (bank = 0) as -> by lia. destruct (owns_range s a owner I) as [_ Ha]; [done|].
  split; [done|]. split; [done|]. split; [done|]. by destruct (tag_eqb_spec (lease_tag (lease_at s a 0)) t).
Qed.

(** The ghost count against the stored one. *)
Definition counted (s : AttentionClusterState) (log : list cluster_op) : Prop :=
  forall a t, 0 <= a < 64 ->
    lease_balance a t log =
    (if AttentionClusterTag_eqb (lease_tag (lease_at s a 0)) t then refs (lease_at s a 0) else 0) /\
    0 <= refs (lease_at s a 0) <= Z.of_nat (length log).

Lemma counted_new log : (forall a t, lease_balance a t log = 0) -> forall s, bankLeases_ s = no_leases -> counted s log.
Proof.
  intros H s E a t Ha. rewrite lease_none, H by done. cbn. split; [by case_if|lia].
Qed.

Lemma counted_more s log s' o : counted s log ->
  (forall a, 0 <= a < 64 -> lease_at s' a 0 = lease_at s a 0) ->
  (forall a t, lease_balance a t (o :: log) = lease_balance a t log) -> counted s' (o :: log).
Proof.
  intros C E B a t Ha. rewrite E, B by done. destruct (C a t Ha) as [C1 C2]. split; [done|]. cbn [length]. lia.
Qed.

Lemma cluster_apply_inv s o log : cluster_inv s -> counted s log -> cluster_op_ok o ->
  Z.of_nat (length log) + 1 < 2 ^ 32 ->
  let (s', ok) := cluster_apply s o in
  cluster_inv s' /\ counted s' (if ok then o :: log else log) /\ (ok = false -> s' = s).
Proof.
  intros I C Hok Hn. destruct o; cbn [cluster_apply] in *; cbn [cluster_op_ok] in Hok.
  - unfold ClusterState_configure. case_if; [done|]. boolify. cbn [ClusterState_cancel].
    split; [|split; [|done]].
    + split; cbn [bankLeases_ contexts_ generation_ enabled_ owners_]; try apply inv_new.
      * intros kind i c Hc V. destruct (ci_valid _ inv_new kind i c Hc V) as (_ & _ & E). done.
      * intros a Ha. by rewrite lease_none.
      * split; [done|]. exists qk. split; [|done].
        repeat match goal with H : (_ && _) = false |- _ => apply andb_false_iff in H; destruct H end; boolify; subst;
          set_solver.
    + by apply counted_new.
  - unfold ClusterState_reserve. case_if; [done|]. boolify.
    destruct (reserve_slot _ _ _) as [i|] eqn:E; [|done].
    rewrite (proj2 (Z.leb_le 0 (Z.of_nat i))) by lia.
    apply reserve_slot_spec in E as (_ & Hi & _). split; [|split; [|done]].
    + apply inv_set_context; [done|]. intros _. cbn. done.
    + by apply (counted_more s).
  - unfold ClusterState_release. case_if; [done|]. split; [|split; [|done]].
    + apply inv_set_context; [done|]. discriminate.
    + by apply (counted_more s).
  - unfold ClusterState_acquireBank. case_if; [done|]. case_if; [done|]. boolify.
    unfold kOperandBanks in *. destruct (owns_range s arrayId owner I) as [En Ha]; [done|].
    assert (bank = 0) as -> by lia.
    split; [|split; [|done]].
    + apply inv_set_lease; [done|lia|lia|]. done.
    + intros a t' Hr. destruct (C a t' Hr) as [C1 C2]. rewrite lease_at_set by (done || lia). cbn [lease_balance length].
      rewrite C1. destruct (Z.eqb_spec arrayId a) as [<-|]; cbn [andb lease_tag refs].
      * assert (refs (lease_at s arrayId 0) = 0) as -> by done. repeat case_if; lia.
      * lia.
  - unfold ClusterState_retainBank. case_if; [done|].
    destruct (lease_accepted _ _ _ _ _ I Heqb) as (Ha & -> & Hr & Ht); [lia|].
    split; [|split; [|done]].
    + apply inv_set_lease; [done|lia|lia|]. intros _. cbn. apply I; [lia|done].
    + intros a t' Hra. destruct (C a t' Hra) as [C1 C2]. rewrite lease_at_set by (done || lia).
      cbn [lease_balance length]. rewrite C1.
      destruct (Z.eqb_spec arrayId a) as [<-|]; cbn [andb lease_tag refs]; [|lia].
      rewrite u32_id by (unfold in_u32; lia). rewrite Ht. case_if; lia.
  - unfold ClusterState_releaseBank. case_if; [done|].
    destruct (lease_accepted _ _ _ _ _ I Heqb) as (Ha & -> & Hr & Ht); [lia|].
    split; [|split; [|done]].
    + apply inv_set_lease; [done|lia|lia|]. case_if; [done|]. intros _. cbn. apply I; [lia|done].
    + intros a t' Hra. destruct (C a t' Hra) as [C1 C2]. rewrite lease_at_set by (done || lia).
      cbn [lease_balance length]. rewrite C1.
      destruct (Z.eqb_spec arrayId a) as [<-|]; cbn [andb lease_tag refs]; [|lia].
      rewrite Ht. destruct (Z.eqb_spec (refs (lease_at s arrayId 0) - 1) 0) as [E|E]; cbn [lease_tag refs BankLease_default].
      * repeat case_if; lia.
      * case_if; lia.
  - split; [exact inv_new|]. split; [by apply counted_new|done].
Qed.

Lemma cluster_run_inv ops : forall s log, cluster_inv s -> counted s log -> Forall cluster_op_ok ops ->
  Z.of_nat (length log + length ops) < 2 ^ 32 ->
  cluster_inv (cluster_run s log ops).1 /\ counted (cluster_run s log ops).1 (cluster_run s log ops).2.
Proof.
  induction ops as [|o ops IH]; intros s log I C Hok Hn; [done|]. cbn [length] in Hn. cbn [cluster_run].
  apply Forall_cons in Hok as [Ho Hok]. pose proof (cluster_apply_inv s o log I C Ho ltac:(lia)) as St.
  destruct (cluster_apply s o) as [s' ok]. destruct St as (I' & C' & _).
  apply IH; [done|done|done|]. destruct ok; cbn [length]; lia.
Qed.

(** C10: bank leases are counted exactly.  In every run of fewer than 2^32 operations,
    the references a tag holds on an array's bank (acquisitions plus retentions minus
    releases since the last configuration or cancellation) are what the state stores:
    the holder's count is the stored one, every other tag holds none, so a bank is
    never leased to two tags, never released below zero and free again exactly when
    its holder gave everything back. *)
Theorem bank_leases_counted (ops : list cluster_op) :
  Forall cluster_op_ok ops -> Z.of_nat (length ops) < 2 ^ 32 ->
  let (s, log) := cluster_run AttentionClusterState_new [] ops in
  forall a, 0 <= a < 64 ->
    (forall t, 0 <= lease_balance a t log /\
       (0 < lease_balance a t log -> ClusterState_bankRefcount s a 0 = lease_balance a t log)) /\
    (forall t t', 0 < lease_balance a t log -> 0 < lease_balance a t' log -> t = t') /\
    (forall owner t, ClusterState_bankMatches s a 0 owner t = true <->
       ClusterState_owns s a owner = true /\ 0 < lease_balance a t log).
Proof.
  intros Hok Hn. destruct (cluster_run_inv ops AttentionClusterState_new []) as [I C];
    [exact inv_new|by apply counted_new|done|done|].
  destruct (cluster_run AttentionClusterState_new [] ops) as [s log]. cbn [fst snd] in *. intros a Ha.
  assert (L : forall t, lease_balance a t log =
    (if AttentionClusterTag_eqb (lease_tag (lease_at s a 0)) t then refs (lease_at s a 0) else 0)) by (intros t; by apply C).
  assert (R : 0 <= refs (lease_at s a 0)) by apply (C a AttentionClusterTag_default Ha).
  split; [|split].
  - intros t. rewrite L. unfold ClusterState_bankRefcount, kArrayCount, kOperandBanks.
    rewrite (proj2 (Z.ltb_lt a 64)) by lia. cbn. split; case_if; lia.
  - intros t t'. rewrite !L. destruct (tag_eqb_spec (lease_tag (lease_at s a 0)) t) as [<-|]; [|lia].
    destruct (tag_eqb_spec (lease_tag (lease_at s a 0)) t'); [done|lia].
  - intros owner t. rewrite L. unfold ClusterState_bankMatches, kOperandBanks. rewrite !andb_true_iff, negb_true_iff, Z.eqb_neq.
    case_if; split; intros; destruct_and?; repeat split; try done; lia.
Qed.

(** No context is live beyond the capacity. *)
Lemma live_all s kind : cluster_inv s ->
  ClusterState_liveContexts_kind s kind = cluster_count_valid (contexts_ s kind) /\
  ClusterState_liveContexts_kind s kind <= 4.
Proof.
  intros I. pose proof (ci_contexts s I kind) as L. unfold ClusterState_liveContexts_kind, cluster_count_valid.
  set (k := Z.to_nat (context_capacity kind)).
  assert (List.filter ctx_valid (drop k (contexts_ s kind)) = []) as E.
  { assert (H : forall j c, drop k (contexts_ s kind) !! j = Some c -> ctx_valid c = false).
    { intros j c. rewrite lookup_drop. intros Hj. apply not_true_iff_false. intros V.
      destruct (ci_valid s I kind _ c Hj V) as (_ & Hk & _). lia. }
    revert H. generalize (drop k (contexts_ s kind)). induction l as [|c l IH]; [done|]. intros H. cbn.
    rewrite (H 0%nat c eq_refl). apply IH. intros j. apply (H (S j)). }
  split.
  - rewrite <- (take_drop k (contexts_ s kind)) at 2. by rewrite List.filter_app, E, app_nil_r.
  - pose proof (filter_length_le ctx_valid (take k (contexts_ s kind))). rewrite length_take in *. lia.
Qed.

(** C11: nothing of an old generation survives.  In every reachable state a context
    callback, a bank lease or a reservation of a tag of another generation is
    refused, live contexts stay within the capacities of their kind (two QK, four
    score, two PV, four O), a cancellation reports exactly the live contexts, and while
    enabled every array belongs to QK or PV by one of the four splits. *)
Theorem cluster_generation_isolation (ops : list cluster_op) :
  Forall cluster_op_ok ops -> Z.of_nat (length ops) < 2 ^ 32 ->
  let (s, log) := cluster_run AttentionClusterState_new [] ops in
  (forall t, generation t <> generation_ s \/ enabled_ s = false ->
     (forall kind slot, 0 <= slot -> ClusterState_callbackMatches s kind slot t = false) /\
     (forall a bank owner, 0 <= a < 64 -> 0 <= bank -> ClusterState_bankMatches s a bank owner t = false /\
        (ClusterState_acquireBank s a bank owner t).2 = false /\
        (ClusterState_retainBank s a bank owner t).2 = false) /\
     (forall kind bank, (ClusterState_reserve s kind t bank).2 = -1)) /\
  (forall kind, ClusterState_liveContexts_kind s kind <= context_capacity kind) /\
  (ClusterState_cancel s).2 = ClusterState_liveContexts s /\
  (if enabled_ s then exists qk, qk ∈ [16; 24; 32; 40] /\ forall a, 0 <= a < 64 ->
     ClusterState_owns s a (if a <? qk then OwnerQk else OwnerPv) = true
   else forall a owner, ClusterState_owns s a owner = false).
Proof.
  intros Hok Hn. destruct (cluster_run_inv ops AttentionClusterState_new []) as [I C];
    [exact inv_new|by apply counted_new|done|done|].
  destruct (cluster_run AttentionClusterState_new [] ops) as [s log]. cbn [fst snd] in *.
  split; [|split; [|split]].
  - intros t Ht. split; [|split].
    + intros kind slot Hs. unfold ClusterState_callbackMatches. apply not_true_iff_false. intros H. boolify.
      unfold context_at in *. rewrite nth_lookup in *.
      destruct (contexts_ s kind !! Z.to_nat slot) as [c|] eqn:E; cbn in *; [|done].
      destruct (ci_valid s I kind _ c E) as (Hg & _ & En); [done|].
      destruct (tag_eqb_spec (ctx_tag c) t) as [<-|]; [|done]. destruct Ht; congruence.
    + intros a bank owner Ha Hb. unfold ClusterState_bankMatches, ClusterState_acquireBank, ClusterState_retainBank.
      split; [|split].
      * apply not_true_iff_false. intros H. boolify. unfold kOperandBanks in *. assert (bank = 0) as -> by lia.
        destruct (ci_lease s I a Ha) as [Hg En]; [done|].
        destruct (tag_eqb_spec (lease_tag (lease_at s a 0)) t) as [<-|]; [|done]. destruct Ht; congruence.
      * case_if; [done|]. case_if; [done|]. boolify. destruct (owns_range s a owner I) as [En _]; [done|].
        destruct Ht; congruence.
      * case_if; [done|]. destruct (lease_accepted _ _ _ _ _ I Heqb Hb) as (_ & -> & Hr & <-).
        destruct (ci_lease s I a Ha Hr). destruct Ht; congruence.
    + intros kind bank. unfold ClusterState_reserve. case_if; [done|]. boolify. destruct Ht; congruence.
  - intros kind. unfold ClusterState_liveContexts_kind, cluster_count_valid.
    pose proof (filter_length_le ctx_valid (take (Z.to_nat (context_capacity kind)) (contexts_ s kind))).
    rewrite length_take in *. assert (0 <= context_capacity kind) by (by destruct kind). lia.
  - assert (E : forall kind, ClusterState_liveContexts_kind s kind = cluster_count_valid (contexts_ s kind) /\
               ClusterState_liveContexts_kind s kind <= 4).
    { intros kind. by apply live_all. }
    unfold ClusterState_liveContexts. cbn [ClusterState_cancel snd].
    destruct (E KindQk) as [E1 L1], (E KindScore) as [E2 L2], (E KindPv) as [E3 L3], (E KindO) as [E4 L4].
    rewrite <- E1, <- E2, <- E3, <- E4. rewrite u32_id; [done|]. unfold in_u32.
    unfold ClusterState_liveContexts_kind, cluster_count_valid in *. lia.
  - pose proof (ci_owners s I) as Ho. unfold ClusterState_owns. destruct (enabled_ s).
    + destruct Ho as (_ & qk & Hq & ->). exists qk. split; [done|]. intros a Ha.
      rewrite length_map, length_seq, (proj2 (Z.ltb_lt _ _)) by lia. cbn [andb].
      rewrite nth_lookup, list_lookup_fmap, lookup_seq_lt by lia. cbn.
      rewrite Z2Nat.id by lia. by rewrite bool_decide_true.
    + done.
Qed.

(** C39: [drained] never reports a drained cluster.  The banks are arrays of one lease
    but the test reads a second one: in every reachable state it leaves the bounds as
    soon as the first array's bank is free, and answers [false] otherwise. *)
Theorem drained_reads_out_of_bounds (ops : list cluster_op) :
  Forall cluster_op_ok ops -> Z.of_nat (length ops) < 2 ^ 32 ->
  let s := (cluster_run AttentionClusterState_new [] ops).1 in
  ClusterState_drained s =
    if ClusterState_bankRefcount s 0 0 =? 0 then Throw out_of_range else Ok false.
Proof.
  intros Hok Hn s. destruct (cluster_run_inv ops AttentionClusterState_new []) as [I _];
    [exact inv_new|by apply counted_new|done|done|]. fold s in I.
  destruct (ci_leases s I) as [L F]. unfold ClusterState_drained, ClusterState_bankRefcount, lease_at.
  cbn [Z.ltb Z.compare kArrayCount kOperandBanks andb Z.to_nat].
  destruct (bankLeases_ s) as [|l ls]; [done|]. apply Forall_cons in F as [Fl _].
  destruct l as [|l0 [|]]; try done. change (Z.to_nat 0) with 0%nat. cbn. destruct (refs l0 =? 0); cbn; [done|]. by rewrite andb_false_r.
Qed.

(** ** Witnesses *)

Definition ex_cluster_tag : AttentionClusterTag := mkTag 5 1 0 0 0 0 0.
Definition ex_cluster_ops : list cluster_op :=
  [OpConfigure 5 16; OpAcquire 3 0 OwnerQk ex_cluster_tag; OpRetain 3 0 OwnerQk ex_cluster_tag;
   OpAcquire 3 0 OwnerQk (mkTag 5 2 0 0 0 0 0); OpReserve KindPv ex_cluster_tag 0;
   OpReleaseBank 3 0 OwnerQk ex_cluster_tag].

Lemma ex_cluster_ops_ok : Forall cluster_op_ok ex_cluster_ops.
Proof. repeat constructor; discriminate. Qed.

Lemma bank_leases_counted_witness :
  let (s, log) := cluster_run AttentionClusterState_new [] ex_cluster_ops in
  ClusterState_bankMatches s 3 0 OwnerQk ex_cluster_tag = true <->
    ClusterState_owns s 3 OwnerQk = true /\ 0 < lease_balance 3 ex_cluster_tag log.
Proof.
  pose proof (bank_leases_counted ex_cluster_ops ex_cluster_ops_ok ltac:(reflexivity)) as H.
  destruct (cluster_run AttentionClusterState_new [] ex_cluster_ops) as [s log].
  apply (H 3); split; [discriminate|reflexivity].
Defined.

Lemma cluster_generation_isolation_witness :
  let (s, log) := cluster_run AttentionClusterState_new [] ex_cluster_ops in
  (ClusterState_cancel s).2 = ClusterState_liveContexts s.
Proof.
  pose proof (cluster_generation_isolation ex_cluster_ops ex_cluster_ops_ok ltac:(reflexivity)) as H.
  destruct (cluster_run AttentionClusterState_new [] ex_cluster_ops) as [s log]. apply H.
Defined.

Lemma drained_reads_out_of_bounds_witness :
  ClusterState_drained (cluster_run AttentionClusterState_new [] ex_cluster_ops).1 = Throw out_of_range.
Proof.
  rewrite (drained_reads_out_of_bounds ex_cluster_ops ex_cluster_ops_ok ltac:(reflexivity)). reflexivity.
Defined.
