(* ===== verification/OAccumulator.v ===== *)
(** * The output accumulator of the attention cluster
      ([src/src/sst/elements/golem/attention/attentionCluster.h], lines 456-832)

    Four contexts of 16 rows x 8 panels x 16 lanes accumulate O over the key tiles
    with a fused multiply-add; one read port, one ALU and one write port are shared,
    and each row is a memory bank.  The three port schedules ([next...Cycle_],
    [...WaitCycles_], [...Intervals_]) are three values of one record. *)

From Stdlib Require Import ZArith Lia SpecFloat.
From stdpp Require Import base numbers list.
From S2P Require Import Prelude Ieee AttentionBase.

Definition kContexts : Z := 4.
Definition kRows : Z := 16.
Definition kPanels : Z := 8.
Definition kValuesPerSegment : Z := 16.
Definition kRowFmaLanes : Z := 128.
Definition kFmaLatencyCycles : Z := 2.
Definition addLatency_ : Z := 2.

Definition f_zero : spec_float := S754_zero false.
Definition f_one : spec_float := SpecFloat.SFone prec32 emax32.

Record OContext := mkOContext {
  o_valid : bool; o_draining : bool; o_tag : AttentionClusterTag; o_keyTiles : Z;
  o_expectedKeyTile : Z; o_committedSegments : Z;
  o_values : list spec_float;      (* 16 * 8 * 16 *)
  o_segmentState : list Z          (* 16 * 8 *) }.
Definition OContext_empty : OContext :=
  mkOContext false false AttentionClusterTag_default 0 0 0 (replicate 2048 f_zero) (replicate 128 0).

Record OPending := mkOPending {
  p_id : Z; p_readyCycle : Z; p_slot : Z; p_tag : AttentionClusterTag; p_kvTileIndex : Z;
  p_row : Z; p_panel : Z; p_alpha : spec_float; p_drain : bool; p_rowFused : bool;
  p_values : list spec_float; p_rowValues : list spec_float }.

Record OCompletion := mkOCompletion {
  c_id : Z; c_ok : bool; c_drain : bool; c_slot : Z; c_tag : AttentionClusterTag; c_values : list spec_float }.

(** One shared port. *)
Record OPort := mkOPort {
  nextCycle : Z; waitCycles : Z; intervals : Busy.BusyIntervalUnion }.
Definition OPort_new : OPort := mkOPort 0 0 Busy.BusyIntervalUnion_new.

Record OSchedule := mkOSchedule {
  readPort : OPort; aluPort : OPort; writePort : OPort;
  bankReadyCycle_ : list Z;
  intervalOrderValid_ : bool }.

Record OStats := mkOStats {
  scaleOperations_ : Z; accumulateOperations_ : Z; rowOperations_ : Z; drainOperations_ : Z;
  bankConflictCycles_ : Z; drainWaitCycles_ : Z }.

Record AttentionOAccumulator := mkOAccumulator {
  nextId_ : Z;
  schedule_ : OSchedule;
  o_contexts_ : list OContext;
  pending_ : list (Z * OPending);   (* std::map, by id *)
  occupied_ : Z; highWater_ : Z;
  o_stats_ : OStats }.

Definition OAccumulator_new : AttentionOAccumulator :=
  mkOAccumulator 1 (mkOSchedule OPort_new OPort_new OPort_new (replicate 16 0) true)
    (replicate 4 OContext_empty) [] 0 0 (mkOStats 0 0 0 0 0 0).

Definition o_context_at (s : AttentionOAccumulator) (slot : Z) : OContext :=
  nth (Z.to_nat slot) (o_contexts_ s) OContext_empty.
Definition contexts_matches (cs : list OContext) (slot : Z) (t : AttentionClusterTag) : bool :=
  (slot <? kContexts) && o_valid (nth (Z.to_nat slot) cs OContext_empty) &&
  AttentionClusterTag_eqb (o_tag (nth (Z.to_nat slot) cs OContext_empty)) t.
Definition OAccumulator_matches (s : AttentionOAccumulator) (slot : Z) (t : AttentionClusterTag) : bool :=
  contexts_matches (o_contexts_ s) slot t.
Definition OAccumulator_hasPending (s : AttentionOAccumulator) (slot : Z) (t : AttentionClusterTag) : bool :=
  existsb (fun x => (p_slot x.2 =? slot) && AttentionClusterTag_eqb (p_tag x.2) t) (pending_ s).

Definition OAccumulator_reserve (s : AttentionOAccumulator) (slot : Z) (t : AttentionClusterTag) (keyTiles : Z) :
    AttentionOAccumulator * bool :=
  if (kContexts <=? slot) || (generation t =? 0) || (keyTiles =? 0) || o_valid (o_context_at s slot) then (s, false)
  else
    let c := o_context_at s slot in
    let occ := u32 (occupied_ s + 1) in
    (mkOAccumulator (nextId_ s) (schedule_ s)
       (<[Z.to_nat slot := mkOContext true (o_draining c) t keyTiles (o_expectedKeyTile c) (o_committedSegments c)
                             (replicate 2048 f_zero) (replicate 128 0)]> (o_contexts_ s))
       (pending_ s) occ (Z.max (highWater_ s) occ) (o_stats_ s), true).

(** Occupies a port for the cycle [start]; false when its accounting refuses it. *)
Definition port_take (p : OPort) (start wait : Z) : OPort * bool :=
  let (iv, ok) := Busy.BusyIntervalUnion_add (intervals p) start (start ⊞ 1) in
  (mkOPort (start ⊞ 1) (waitCycles p ⊞ wait) iv, ok).

(** The earliest cycle at or after [cursor] at which the port is free. *)
Definition port_issue (p : OPort) (cursor : Z) : OPort * bool * Z :=
  let start := Z.max cursor (nextCycle p) in
  let (p', ok) := port_take p start (start ⊟ cursor) in (p', ok, start).

(** Read, FMA (or accumulate alone for the first key tile) and write of one segment
    or row, the same in [submitSegment] and [submitRow]: the new schedule and the
    cycle of the write. *)
Definition schedule_operation (h : OSchedule) (kvTileIndex row now : Z) : OSchedule * Z :=
  let cursor := Z.max now (nth (Z.to_nat row) (bankReadyCycle_ h) 0) in
  let '(rp, ap, ok, cursor) :=
    if negb (kvTileIndex =? 0) then
      let '(rp, ok1, readStart) := port_issue (readPort h) cursor in
      let '(ap, ok2, fmaIssue) := port_issue (aluPort h) (readStart ⊞ 1) in
      (rp, ap, ok2 && (ok1 && intervalOrderValid_ h), fmaIssue ⊞ kFmaLatencyCycles)
    else
      let '(ap, ok2, accumulateIssue) := port_issue (aluPort h) cursor in
      (readPort h, ap, ok2 && intervalOrderValid_ h, accumulateIssue ⊞ addLatency_) in
  let '(wp, ok3, writeStart) := port_issue (writePort h) cursor in
  (mkOSchedule rp ap wp (<[Z.to_nat row := writeStart ⊞ 1]> (bankReadyCycle_ h)) (ok3 && ok), writeStart).

Definition o_set_states (c : OContext) (first n : nat) (v : Z) : list Z :=
  foldl (fun l i => <[i := v]> l) (o_segmentState c) (seq first n).

Definition o_with_states (c : OContext) (states : list Z) : OContext :=
  mkOContext (o_valid c) (o_draining c) (o_tag c) (o_keyTiles c) (o_expectedKeyTile c) (o_committedSegments c)
    (o_values c) states.

Definition OAccumulator_submitSegment (s : AttentionOAccumulator) (slot : Z) (t : AttentionClusterTag)
    (kvTileIndex row panel : Z) (alpha : spec_float) (values : list spec_float) (now : Z) :
    AttentionOAccumulator * option (Z * Z) :=
  if negb (OAccumulator_matches s slot t) || (kRows <=? row) || (kPanels <=? panel) ||
     negb (Z.of_nat (length values) =? kValuesPerSegment) || negb (isfinite alpha) then (s, None)
  else
    let c := o_context_at s slot in
    let segment := row * kPanels + panel in
    if o_draining c || negb (kvTileIndex =? o_expectedKeyTile c) ||
       negb (nth (Z.to_nat segment) (o_segmentState c) 0 =? 0) then (s, None)
    else
      let h := schedule_ s in
      let st := o_stats_ s in
      let conflict := Z.max now (nth (Z.to_nat row) (bankReadyCycle_ h) 0) ⊟ now in
      let (h', writeStart) := schedule_operation h kvTileIndex row now in
      let id := nextId_ s in
      let ready := writeStart ⊞ 1 in
      let p := mkOPending id ready slot t kvTileIndex row panel alpha false false values (replicate 128 f_zero) in
      (mkOAccumulator (nextId_ s ⊞ 1) h'
         (<[Z.to_nat slot := o_with_states c (o_set_states c (Z.to_nat segment) 1 1)]> (o_contexts_ s))
         (map_emplace id p (pending_ s)) (occupied_ s) (highWater_ s)
         (mkOStats (if negb (kvTileIndex =? 0) then scaleOperations_ st ⊞ 1 else scaleOperations_ st)
            (accumulateOperations_ st ⊞ 1) (rowOperations_ st) (drainOperations_ st)
            (bankConflictCycles_ st ⊞ conflict) (drainWaitCycles_ st)),
       Some (id, ready)).

Definition OAccumulator_submitRow (s : AttentionOAccumulator) (slot : Z) (t : AttentionClusterTag)
    (kvTileIndex row : Z) (alpha : spec_float) (values : list spec_float) (now : Z) :
    AttentionOAccumulator * option (Z * Z) :=
  if negb (OAccumulator_matches s slot t) || (kRows <=? row) ||
     negb (Z.of_nat (length values) =? kRowFmaLanes) || negb (isfinite alpha) then (s, None)
  else
    let c := o_context_at s slot in
    let firstSegment := row * kPanels in
    if o_draining c || negb (kvTileIndex =? o_expectedKeyTile c) ||
       existsb (fun x => negb (x =? 0))
         (take (Z.to_nat kPanels) (drop (Z.to_nat firstSegment) (o_segmentState c))) then (s, None)
    else
      let st := o_stats_ s in
      let (h', writeStart) := schedule_operation (schedule_ s) kvTileIndex row now in
      let id := nextId_ s in
      let ready := writeStart ⊞ 1 in
      let p := mkOPending id ready slot t kvTileIndex row 0 alpha false true (replicate 16 f_zero) values in
      (mkOAccumulator (nextId_ s ⊞ 1) h'
         (<[Z.to_nat slot := o_with_states c (o_set_states c (Z.to_nat firstSegment) (Z.to_nat kPanels) 1)]> (o_contexts_ s))
         (map_emplace id p (pending_ s)) (occupied_ s) (highWater_ s)
         (mkOStats (if negb (kvTileIndex =? 0) then scaleOperations_ st ⊞ kPanels else scaleOperations_ st)
            (accumulateOperations_ st ⊞ kPanels) (rowOperations_ st ⊞ 1) (drainOperations_ st)
            (bankConflictCycles_ st) (drainWaitCycles_ st)),
       Some (id, ready)).

(** One read of [requestDrain]. *)
Definition drain_read (x : OSchedule * Z * Z) (row : Z) : OSchedule * Z * Z :=
  let '(h, cursor, drainWait) := x in
  let start := Z.max (Z.max cursor (nextCycle (readPort h))) (nth (Z.to_nat row) (bankReadyCycle_ h) 0) in
  let (rp, ok) := port_take (readPort h) start 0 in
  (mkOSchedule rp (aluPort h) (writePort h) (<[Z.to_nat row := start ⊞ 1]> (bankReadyCycle_ h))
     (ok && intervalOrderValid_ h), start ⊞ 1, drainWait ⊞ (start ⊟ cursor)).

(** The rows of the 16 x 8 reads, in order. *)
Definition drain_rows : list Z := concat (map (fun row => replicate 8 row) (seqZ 0 kRows)).

Definition OAccumulator_requestDrain (s : AttentionOAccumulator) (slot : Z) (t : AttentionClusterTag) (now : Z) :
    AttentionOAccumulator * option (Z * Z) :=
  if negb (OAccumulator_matches s slot t) then (s, None)
  else
    let c := o_context_at s slot in
    if o_draining c || negb (o_expectedKeyTile c =? o_keyTiles c) || negb (o_committedSegments c =? 0) then (s, None)
    else
      let st := o_stats_ s in
      let '(h', cursor, drainWait) := foldl drain_read (schedule_ s, now, drainWaitCycles_ st) drain_rows in
      let id := nextId_ s in
      let p := mkOPending id cursor slot t 0 0 0 f_one true false (replicate 16 f_zero) (replicate 128 f_zero) in
      (mkOAccumulator (nextId_ s ⊞ 1) h'
         (<[Z.to_nat slot := mkOContext (o_valid c) true (o_tag c) (o_keyTiles c) (o_expectedKeyTile c)
                               (o_committedSegments c) (o_values c) (o_segmentState c)]> (o_contexts_ s))
         (map_emplace id p (pending_ s)) (occupied_ s) (highWater_ s)
         (mkOStats (scaleOperations_ st) (accumulateOperations_ st) (rowOperations_ st) (drainOperations_ st ⊞ 1)
            (bankConflictCycles_ st) drainWait),
       Some (id, cursor)).

(** The lane loop of [progress] from value [offset] on. *)
Fixpoint commit_lanes (first : bool) (alpha : spec_float) (offset : nat) (added values : list spec_float) :
    list spec_float :=
  match added with
  | [] => values
  | v :: added' =>
      commit_lanes first alpha (S offset) added'
        (<[offset := if first then v else SFfma prec32 emax32 alpha (nth offset values f_zero) v]> values)
  end.

(** The panel loop: [n] panels from [panel] on. *)
Fixpoint commit_panels (p : OPending) (segment panel n : nat) (values : list spec_float) (states : list Z) :
    list spec_float * list Z :=
  match n with
  | O => (values, states)
  | S n' =>
      let added := if p_rowFused p then take 16 (drop (panel * 16) (p_rowValues p)) else p_values p in
      commit_panels p segment (S panel) n'
        (commit_lanes (p_kvTileIndex p =? 0) (p_alpha p) ((segment + panel) * 16) added values)
        (<[(segment + panel)%nat := 2]> states)
  end.

(** The body of the [progress] loop for one ready operation. *)
Definition progress_one (cs : list OContext) (p : OPending) : list OContext * OCompletion :=
  let completion ok values := mkOCompletion (p_id p) ok (p_drain p) (p_slot p) (p_tag p) values in
  if negb (contexts_matches cs (p_slot p) (p_tag p)) then (cs, completion false [])
  else
    let c := nth (Z.to_nat (p_slot p)) cs OContext_empty in
    if p_drain p then (cs, completion true (o_values c))
    else
      let segment := Z.to_nat (p_row p * kPanels + p_panel p) in
      let committed := if p_rowFused p then Z.to_nat kPanels else 1%nat in
      let ok := (p_kvTileIndex p =? o_expectedKeyTile c) &&
                forallb (fun i => nth i (o_segmentState c) 0 =? 1) (seq segment committed) in
      if negb ok then (cs, completion false [])
      else
        let (values, states) := commit_panels p segment 0 committed (o_values c) (o_segmentState c) in
        let count := o_committedSegments c + Z.of_nat committed in
        let c' :=
          if count =? kRows * kPanels
          then mkOContext (o_valid c) (o_draining c) (o_tag c) (o_keyTiles c) (u32 (o_expectedKeyTile c + 1)) 0
                 values (replicate 128 0)
          else mkOContext (o_valid c) (o_draining c) (o_tag c) (o_keyTiles c) (o_expectedKeyTile c) count
                 values states in
        (<[Z.to_nat (p_slot p) := c']> cs, completion true []).

(** The loop over the pending operations: those kept, the contexts, the completions. *)
Fixpoint progress_loop (now : Z) (cs : list OContext) (pending : list (Z * OPending)) :
    list OContext * list (Z * OPending) * list OCompletion :=
  match pending with
  | [] => (cs, [], [])
  | (k, p) :: rest =>
      if now <? p_readyCycle p then
        let '(cs', kept, done) := progress_loop now cs rest in (cs', (k, p) :: kept, done)
      else
        let (cs1, c) := progress_one cs p in
        let '(cs', kept, done) := progress_loop now cs1 rest in (cs', kept, c :: done)
  end.

Definition OAccumulator_progress (s : AttentionOAccumulator) (now : Z) : AttentionOAccumulator * list OCompletion :=
  let '(cs, kept, completions) := progress_loop now (o_contexts_ s) (pending_ s) in
  (mkOAccumulator (nextId_ s) (schedule_ s) cs kept (occupied_ s) (highWater_ s) (o_stats_ s), completions).

Definition OAccumulator_release (s : AttentionOAccumulator) (slot : Z) (t : AttentionClusterTag) :
    AttentionOAccumulator * bool :=
  if negb (OAccumulator_matches s slot t) || negb (o_draining (o_context_at s slot)) ||
     OAccumulator_hasPending s slot t then (s, false)
  else
    (mkOAccumulator (nextId_ s) (schedule_ s) (<[Z.to_nat slot := OContext_empty]> (o_contexts_ s)) (pending_ s)
       (u32 (occupied_ s - 1)) (highWater_ s) (o_stats_ s), true).

Definition o_of_generation (g : Z) (c : OContext) : bool := o_valid c && (generation (o_tag c) =? g).

Definition OAccumulator_cancelGeneration (s : AttentionOAccumulator) (g : Z) : AttentionOAccumulator * Z :=
  let cancelled := Z.of_nat (length (List.filter (o_of_generation g) (o_contexts_ s))) in
  (mkOAccumulator (nextId_ s) (schedule_ s)
     (map (fun c => if o_of_generation g c then OContext_empty else c) (o_contexts_ s))
     (List.filter (fun x => negb (generation (p_tag x.2) =? g)) (pending_ s))
     (u32 (occupied_ s - cancelled)) (highWater_ s) (o_stats_ s), cancelled).

Definition OAccumulator_drained (s : AttentionOAccumulator) : bool :=
  (occupied_ s =? 0) && (Z.of_nat (length (pending_ s)) =? 0).
