(* ===== verification/OAccumulatorTheory.v ===== *)
(** * Correctness of the output accumulator

    The specification is a fold per segment: the first key tile's contribution, then
    one fused multiply-add per further tile.  The invariant relates the contexts, the
    pending operations and the log of accepted submissions. *)

From Stdlib Require Import ZArith Lia SpecFloat Sorted.
From stdpp Require Import base numbers list.
From S2P Require Import Prelude Ieee AttentionBase OAccumulator.

(** ** Specification *)

(** An accepted submission: a key tile's scale and values for [e_n] consecutive
    segments. *)
Record entry := mkEntry { e_kv : Z; e_seg : nat; e_n : nat; e_alpha : spec_float; e_vals : list spec_float }.

Definition covers (seg : nat) (e : entry) : bool := (e_seg e <=? seg)%nat && (seg <? e_seg e + e_n e)%nat.
Definition slice (seg : nat) (l : list spec_float) : list spec_float := take 16 (drop (seg * 16) l).
Definition contribution (seg : nat) (e : entry) : Z * spec_float * list spec_float :=
  (e_kv e, e_alpha e, slice (seg - e_seg e) (e_vals e)).
(** The contributions to a segment, in submission order. *)
Definition contribs (seg : nat) (log : list entry) : list (Z * spec_float * list spec_float) :=
  map (contribution seg) (List.filter (covers seg) log).

Definition lane_value (first : bool) (alpha a v : spec_float) : spec_float :=
  if first then v else SFfma prec32 emax32 alpha a v.
Definition acc_step (acc : list spec_float) (x : Z * spec_float * list spec_float) : list spec_float :=
  zip_with (lane_value (x.1.1 =? 0) x.1.2) acc x.2.
(** O of one segment: the first tile's values, then [alpha * O + values] per tile. *)
Definition segment_value (l : list (Z * spec_float * list spec_float)) : list spec_float :=
  foldl acc_step (replicate 16 f_zero) l.
Definition o_value (log : list entry) : list spec_float :=
  concat (map (fun seg => segment_value (contribs seg log)) (seq 0 128)).

(** ** Committing values *)

Section commit.

Lemma commit_lanes_length first alpha added : forall off values,
  length (commit_lanes first alpha off added values) = length values.
Proof. induction added as [|v added IH]; intros off values; cbn [commit_lanes]; [done|]. by rewrite IH, length_insert. Qed.

Lemma commit_lanes_lookup first alpha added : forall off values j,
  (off + length added <= length values)%nat ->
  commit_lanes first alpha off added values !! j =
  if (off <=? j)%nat && (j <? off + length added)%nat
  then zip_with (lane_value first alpha) (drop off values) added !! (j - off)%nat else values !! j.
Proof.
  induction added as [|v added IH]; intros off values j Hl; cbn [commit_lanes].
  - cbn [length]. rewrite Nat.add_0_r. destruct (Nat.leb_spec off j), (Nat.ltb_spec j off); cbn; try done; lia.
  - cbn [length] in *. rewrite IH by (rewrite length_insert; lia).
    destruct (lookup_lt_is_Some_2 values off) as [x Hx]; [lia|].
    rewrite (drop_S values x off Hx). cbn [zip_with].
    rewrite drop_insert_lt by lia.
    destruct (Nat.leb_spec (S off) j), (Nat.leb_spec off j), (Nat.ltb_spec j (S off + length added)),
      (Nat.ltb_spec j (off + S (length added))); cbn [andb]; try lia.
    all: try (assert (j = off) as -> by lia; rewrite Nat.sub_diag, list_lookup_insert_eq by lia; cbn;
              f_equal; unfold lane_value; rewrite nth_lookup, Hx; done).
    + by replace (j - off)%nat with (S (j - S off)) by lia.
    + by rewrite list_lookup_insert_ne by lia.
    + by rewrite list_lookup_insert_ne by lia.
Qed.

Lemma slice_lookup seg l j : (j < 16)%nat -> slice seg l !! j = l !! (seg * 16 + j)%nat.
Proof. intros H. unfold slice. by rewrite lookup_take_lt, lookup_drop by done. Qed.

Lemma slice_length seg l : (seg * 16 + 16 <= length l)%nat -> length (slice seg l) = 16%nat.
Proof. intros H. unfold slice. rewrite length_take, length_drop. lia. Qed.

Lemma commit_slice first alpha added values seg seg' :
  length added = 16%nat -> (seg * 16 + 16 <= length values)%nat -> (seg' * 16 + 16 <= length values)%nat ->
  slice seg' (commit_lanes first alpha (seg * 16) added values) =
  if (seg' =? seg)%nat then zip_with (lane_value first alpha) (slice seg values) added else slice seg' values.
Proof.
  intros La Hs Hs'. apply list_eq_same_length with (n := 16%nat).
  - destruct (seg' =? seg)%nat; [|by apply slice_length]. rewrite length_zip_with, slice_length; lia.
  - apply slice_length. by rewrite commit_lanes_length.
  - intros j x y Hj. rewrite slice_lookup, commit_lanes_lookup by lia. rewrite La.
    destruct (Nat.eqb_spec seg' seg) as [->|Hne].
    + destruct (Nat.leb_spec (seg * 16) (seg * 16 + j)), (Nat.ltb_spec (seg * 16 + j) (seg * 16 + 16)); cbn [andb]; try lia.
      replace (seg * 16 + j - seg * 16)%nat with j by lia.
      rewrite !lookup_zip_with, slice_lookup, lookup_drop by done. congruence.
    + rewrite slice_lookup by done.
      destruct (Nat.leb_spec (seg * 16) (seg' * 16 + j)), (Nat.ltb_spec (seg' * 16 + j) (seg * 16 + 16)); cbn [andb];
        try lia; congruence.
Qed.
End commit.

Definition p_entry (p : OPending) : entry :=
  mkEntry (p_kvTileIndex p) (Z.to_nat (p_row p * kPanels + p_panel p))
    (if p_rowFused p then 8%nat else 1%nat) (p_alpha p) (if p_rowFused p then p_rowValues p else p_values p).

(** What every pending submission satisfies. *)
Definition pending_ok (p : OPending) : Prop :=
  length (e_vals (p_entry p)) = (e_n (p_entry p) * 16)%nat /\
  (e_seg (p_entry p) + e_n (p_entry p) <= 128)%nat /\ 0 <= p_row p < 16.

Lemma added_slice p panel : pending_ok p -> (panel < e_n (p_entry p))%nat ->
  (if p_rowFused p then take 16 (drop (panel * 16) (p_rowValues p)) else p_values p) =
  slice panel (e_vals (p_entry p)).
Proof.
  intros (Hl & _) Hp. unfold slice, p_entry in *. cbn in *. revert Hl Hp. destruct (p_rowFused p); intros Hl Hp; [done|].
  assert (panel = 0)%nat as -> by lia. rewrite Nat.mul_0_l, drop_0, take_ge by lia. done.
Qed.

Lemma in_range_succ (a n i : nat) :
  (a <=? i)%nat && (i <? a + S n)%nat = (i =? a)%nat || ((S a <=? i)%nat && (i <? S a + n)%nat).
Proof.
  destruct (Nat.leb_spec a i), (Nat.ltb_spec i (a + S n)), (Nat.eqb_spec i a), (Nat.leb_spec (S a) i),
    (Nat.ltb_spec i (S a + n)); cbn; try done; lia.
Qed.

Lemma commit_panels_spec p segment n : pending_ok p -> forall panel values states,
  (panel + n <= e_n (p_entry p))%nat -> ((segment + panel + n) * 16 <= length values)%nat ->
  (segment + panel + n <= length states)%nat ->
  let (values', states') := commit_panels p segment panel n values states in
  length values' = length values /\ length states' = length states /\
  (forall seg, (seg * 16 + 16 <= length values)%nat ->
     slice seg values' =
     if (segment + panel <=? seg)%nat && (seg <? segment + panel + n)%nat
     then acc_step (slice seg values) (p_kvTileIndex p, p_alpha p, slice (seg - segment) (e_vals (p_entry p)))
     else slice seg values) /\
  (forall i, (i < length states)%nat ->
     nth i states' 0 = if (segment + panel <=? i)%nat && (i <? segment + panel + n)%nat then 2 else nth i states 0).
Proof.
  intros Hp. induction n as [|n IH]; intros panel values states Hn Hv Hs; cbn [commit_panels].
  - split; [done|]. split; [done|]. rewrite Nat.add_0_r. split; intros i Hi;
      destruct (Nat.leb_spec (segment + panel) i), (Nat.ltb_spec i (segment + panel)); cbn [andb]; try done; lia.
  - rewrite added_slice by (done || lia).
    assert (La : length (slice panel (e_vals (p_entry p))) = 16%nat).
    { apply slice_length. destruct Hp as (Hl & _). rewrite Hl. nia. }
    specialize (IH (S panel) (commit_lanes (p_kvTileIndex p =? 0) (p_alpha p) ((segment + panel) * 16)
                  (slice panel (e_vals (p_entry p))) values) (<[(segment + panel)%nat := 2]> states)).
    rewrite commit_lanes_length, length_insert in IH. specialize (IH ltac:(lia) ltac:(lia) ltac:(lia)).
    destruct (commit_panels _ _ _ _ _ _) as [values' states']. destruct IH as (I1 & I2 & I3 & I4).
    split; [done|]. split; [done|]. split.
    + intros seg Hseg. rewrite I3, in_range_succ by done.
      rewrite Nat.add_succ_r.
      rewrite commit_slice by (done || lia). destruct (Nat.eqb_spec seg (segment + panel)) as [->|]; cbn [orb]; [|done].
      rewrite (proj2 (Nat.leb_gt (S (segment + panel)) (segment + panel))) by lia. cbn [andb].
      unfold acc_step. cbn [fst snd]. by replace (segment + panel - segment)%nat with panel by lia.
    + intros i Hi. rewrite I4, in_range_succ, Nat.add_succ_r by done.
      destruct (Nat.eqb_spec i (segment + panel)) as [->|Hne]; cbn [orb].
      * rewrite (proj2 (Nat.leb_gt (S (segment + panel)) (segment + panel))) by lia. cbn [andb].
        rewrite nth_lookup, list_lookup_insert_eq by lia. done.
      * destruct (_ && _); [done|]. rewrite !nth_lookup, list_lookup_insert_ne by lia. done.
Qed.

Lemma set_states_spec first n v : forall l, (first + n <= length l)%nat ->
  length (foldl (fun l i => <[i := v]> l) l (seq first n)) = length l /\
  forall i, (i < length l)%nat ->
    nth i (foldl (fun l i => <[i := v]> l) l (seq first n)) 0 =
    if (first <=? i)%nat && (i <? first + n)%nat then v else nth i l 0.
Proof.
  revert first. induction n as [|n IH]; intros first l Hl; cbn [seq foldl].
  - split; [done|]. intros i Hi. destruct (Nat.leb_spec first i), (Nat.ltb_spec i (first + 0)); cbn; try done; lia.
  - destruct (IH (S first) (<[first := v]> l)) as [I1 I2]; [rewrite length_insert; lia|].
    rewrite length_insert in *. split; [done|]. intros i Hi. rewrite I2, in_range_succ by done.
    destruct (Nat.eqb_spec i first) as [->|Hne]; cbn [orb].
    + rewrite (proj2 (Nat.leb_gt (S first) first)) by lia. cbn [andb].
      by rewrite nth_lookup, list_lookup_insert_eq by lia.
    + destruct (_ && _); [done|]. by rewrite !nth_lookup, list_lookup_insert_ne by lia.
Qed.

(** ** Contributions *)

Lemma contribs_app seg l l' : contribs seg (l ++ l') = contribs seg l ++ contribs seg l'.
Proof. unfold contribs. by rewrite List.filter_app, map_app. Qed.
Lemma contribs_one seg e : contribs seg [e] = if covers seg e then [contribution seg e] else [].
Proof. unfold contribs. cbn. by destruct (covers seg e). Qed.
Lemma contribs_covers seg l e : e ∈ l -> covers seg e = true -> contribs seg l <> [].
Proof.
  intros Hin Hc E. unfold contribs in E. apply map_eq_nil in E.
  assert (H : In e (List.filter (covers seg) l)) by (apply filter_In; split; [by apply list_elem_of_In|done]).
  rewrite E in H. done.
Qed.

(** A context against the log of its submissions and the pending ones [q]. *)
Record context_inv (c : OContext) (log q : list entry) : Prop := {
  xi_values : length (o_values c) = 2048%nat;
  xi_states : length (o_segmentState c) = 128%nat;
  xi_count : o_committedSegments c = Z.of_nat (length (List.filter (fun x => x =? 2) (o_segmentState c)));
  xi_open : o_committedSegments c < 128;
  xi_expected : 0 <= o_expectedKeyTile c <= Z.of_nat (length log);
  xi_segment : forall seg, (seg < 128)%nat -> exists done,
    contribs seg log = done ++ contribs seg q /\
    slice seg (o_values c) = segment_value done /\
    let st := nth seg (o_segmentState c) 0 in
    (st = 0 \/ st = 1 \/ st = 2) /\
    Z.of_nat (length done) = o_expectedKeyTile c + (if st =? 2 then 1 else 0) /\
    length (contribs seg q) = (if st =? 1 then 1%nat else 0%nat);
  xi_kv : forall seg, (seg < 128)%nat -> map (fun x => x.1.1) (contribs seg log) = seqZ 0 (Z.of_nat (length (contribs seg log))) }.

Lemma slice_replicate seg : (seg < 128)%nat -> slice seg (replicate 2048 f_zero) = replicate 16 f_zero.
Proof. intros H. unfold slice. rewrite drop_replicate, take_replicate. f_equal. lia. Qed.

Lemma context_inv_reserve c : o_committedSegments c = 0 -> o_expectedKeyTile c = 0 ->
  o_values c = replicate 2048 f_zero -> o_segmentState c = replicate 128 0 -> context_inv c [] [].
Proof.
  intros Hc He Hv Hs. split; rewrite ?Hc, ?He, ?Hv, ?Hs; try done.
  intros seg Hseg. exists []. split; [done|]. split; [by rewrite slice_replicate|].
  rewrite nth_lookup, lookup_replicate_2 by done. cbn. auto.
Qed.

Lemma filter_count_ext n : forall l l', length l = n -> length l' = n ->
  (forall i, (i < n)%nat -> (nth i l 0 =? 2) = (nth i l' 0 =? 2)) ->
  length (List.filter (fun x => x =? 2) l) = length (List.filter (fun x => x =? 2) l').
Proof.
  induction n as [|n IH]; intros [|x l] [|x' l'] L L' H; try done. injection L as L. injection L' as L'.
  specialize (IH l l' L L' (fun i Hi => H (S i) ltac:(lia))).
  specialize (H 0%nat ltac:(lia)). cbn in H |- *. rewrite H. destruct (x' =? 2); cbn [length]; congruence.
Qed.

(** A new submission, of the expected key tile on untouched segments. *)
Lemma context_inv_submit c log q e : context_inv c log q ->
  e_kv e = o_expectedKeyTile c -> (e_seg e + e_n e <= 128)%nat ->
  (forall seg, covers seg e = true -> nth seg (o_segmentState c) 0 = 0) ->
  context_inv (o_with_states c (o_set_states c (e_seg e) (e_n e) 1)) (log ++ [e]) (q ++ [e]).
Proof.
  intros I Hk Hr H0. destruct (set_states_spec (e_seg e) (e_n e) 1 (o_segmentState c)) as [S1 S2];
    [by rewrite (xi_states _ _ _ I)|].
  fold (o_set_states c (e_seg e) (e_n e) 1) in S1, S2.
  assert (Hst : forall seg, (seg < 128)%nat -> nth seg (o_set_states c (e_seg e) (e_n e) 1) 0 =
            if covers seg e then 1 else nth seg (o_segmentState c) 0).
  { intros seg Hseg. apply S2. by rewrite (xi_states _ _ _ I). }
  destruct I as [I1 I2 I3 I4 I5 I6 I7].
  split; cbn [o_with_states o_values o_segmentState o_committedSegments o_expectedKeyTile]; try done.
  - by rewrite S1.
  - rewrite I3. f_equal. symmetry. clear -Hst I2 S1 H0. apply filter_count_ext with (n := 128%nat); [by rewrite ?S1|by rewrite ?S1|].
    intros i Hi. rewrite Hst by done. destruct (covers i e) eqn:E; [|done]. by rewrite (H0 i E).
  - rewrite length_app. lia.
  - intros seg Hseg. destruct (I6 seg Hseg) as (dn & E1 & E2 & E3 & E4 & E5). exists dn.
    rewrite !contribs_app, E1, app_assoc. split; [done|]. split; [done|].
    rewrite length_app, contribs_one. cbv zeta. rewrite (Hst seg Hseg). destruct (covers seg e) eqn:E.
    + rewrite (H0 seg E) in *. cbn in *. split; [auto|]. split; [done|]. lia.
    + cbn. split; [done|]. split; [done|]. lia.
  - intros seg Hseg. destruct (I6 seg Hseg) as (dn & E1 & E2 & E3 & E4 & E5).
    rewrite contribs_app, contribs_one. destruct (covers seg e) eqn:E; [|rewrite app_nil_r; by apply I7].
    rewrite map_app, I7, length_app by done. cbn [map length].
    rewrite Nat2Z.inj_add, seqZ_app by lia. f_equal. cbn [contribution fst].
    rewrite (H0 seg E) in *. cbn in *. rewrite E1, length_app, E5, Nat.add_0_r, E4, Hk. cbn.
    replace (0 + (o_expectedKeyTile c + 0)) with (o_expectedKeyTile c) by lia. reflexivity.
Qed.

Notation twos l := (Z.of_nat (length (List.filter (fun x => x =? 2) l))).

Lemma twos_insert l : forall i, (i < length l)%nat -> nth i l 0 <> 2 -> twos (<[i := 2]> l) = twos l + 1.
Proof.
  induction l as [|x l IH]; intros [|i] Hi Hn; cbn [length] in Hi; try lia.
  - cbn in Hn. change (<[O := 2]> (x :: l)) with (2 :: l). cbn [List.filter Z.eqb Pos.eqb length].
    rewrite (proj2 (Z.eqb_neq x 2)) by done. lia.
  - change (<[S i := 2]> (x :: l)) with (x :: <[i := 2]> l). cbn [List.filter]. cbn in Hn.
    specialize (IH i ltac:(lia) Hn). destruct (x =? 2); cbn [length]; lia.
Qed.

Lemma twos_set n : forall first l, (first + n <= length l)%nat ->
  (forall i, (first <= i < first + n)%nat -> nth i l 0 <> 2) ->
  twos (foldl (fun l i => <[i := 2]> l) l (seq first n)) = twos l + Z.of_nat n.
Proof.
  induction n as [|n IH]; intros first l Hl H; cbn [seq foldl]; [lia|].
  rewrite IH, twos_insert; [lia|lia|apply H; lia|by rewrite length_insert; lia|].
  intros i Hi. rewrite nth_lookup, list_lookup_insert_ne, <- nth_lookup by lia. apply H. lia.
Qed.

Lemma twos_all l : twos l = Z.of_nat (length l) -> forall i, (i < length l)%nat -> nth i l 0 = 2.
Proof.
  induction l as [|x l IH]; intros E i Hi; cbn [length] in *; [lia|]. cbn [List.filter] in E.
  assert (twos l <= Z.of_nat (length l)).
  { pose proof (List.filter_length_le (fun x => x =? 2) l). lia. }
  destruct (Z.eqb_spec x 2) as [->|]; cbn [length] in E; [|lia].
  destruct i as [|i]; [done|]. cbn. apply IH; lia.
Qed.

Section commit_context.
Context (c : OContext) (log q1 q2 : list entry) (p : OPending).
Hypothesis I : context_inv c log (q1 ++ p_entry p :: q2).
Hypothesis Hp : pending_ok p.
Hypothesis Hdrain : p_drain p = false.

Notation e := (p_entry p).

(** A pending submission is of the expected tile, and its segments wait for it alone. *)
Lemma pending_segment seg : covers seg e = true -> (seg < 128)%nat ->
  nth seg (o_segmentState c) 0 = 1 /\ contribs seg (q1 ++ q2) = [] /\
  contribs seg (q1 ++ e :: q2) = [contribution seg e] /\ p_kvTileIndex p = o_expectedKeyTile c.
Proof.
  intros Hc Hs. destruct (xi_segment _ _ _ I seg Hs) as (dn & E1 & _ & E3 & E4 & E5). cbv zeta in E3, E4, E5.
  assert (E : contribs seg (q1 ++ e :: q2) = contribs seg q1 ++ contribution seg e :: contribs seg q2).
  { change (e :: q2) with ([e] ++ q2). by rewrite !contribs_app, contribs_one, Hc. }
  assert (nth seg (o_segmentState c) 0 = 1) as H1.
  { destruct (Z.eqb_spec (nth seg (o_segmentState c) 0) 1); [done|].
    rewrite E, length_app in E5. cbn [length] in E5. lia. }
  rewrite H1 in *. cbn in E4, E5. rewrite E, length_app in E5. cbn [length] in E5.
  assert (contribs seg q1 = []) as Q1 by (apply length_zero_iff_nil; lia).
  assert (contribs seg q2 = []) as Q2 by (apply length_zero_iff_nil; lia).
  split; [done|]. rewrite contribs_app, Q1, Q2, E, Q1, Q2. split; [done|]. split; [done|].
  pose proof (xi_kv _ _ _ I seg Hs) as K. rewrite E1, E, Q1, Q2, map_app, length_app in K. cbn [app map length] in K.
  rewrite Nat2Z.inj_add, seqZ_app in K by lia. apply app_inj_2 in K as [_ K]; [|done].
  cbn in K. injection K as K. rewrite K. lia.
Qed.

Lemma covered_range seg : (e_seg e <=? seg)%nat && (seg <? e_seg e + e_n e)%nat = covers seg e.
Proof. done. Qed.

(** The context after the commit, before the rollover to the next key tile. *)
Lemma commit_segments values states :
  commit_panels p (e_seg e) 0 (e_n e) (o_values c) (o_segmentState c) = (values, states) ->
  length values = 2048%nat /\ length states = 128%nat /\
  twos states = o_committedSegments c + Z.of_nat (e_n e) /\
  forall seg, (seg < 128)%nat -> exists done,
    contribs seg log = done ++ contribs seg (q1 ++ q2) /\ slice seg values = segment_value done /\
    let st := nth seg states 0 in
    (st = 0 \/ st = 1 \/ st = 2) /\
    Z.of_nat (length done) = o_expectedKeyTile c + (if st =? 2 then 1 else 0) /\
    length (contribs seg (q1 ++ q2)) = (if st =? 1 then 1%nat else 0%nat).
Proof.
  intros Ec. pose proof (xi_values _ _ _ I) as Lv. pose proof (xi_states _ _ _ I) as Ls. destruct Hp as (P1 & P2 & P3).
  pose proof (commit_panels_spec p (e_seg e) (e_n e) Hp 0 (o_values c) (o_segmentState c)) as S.
  rewrite Nat.add_0_r, Lv, Ls in S. specialize (S ltac:(lia) ltac:(lia) ltac:(lia)). rewrite Ec in S.
  destruct S as (S1 & S2 & S3 & S4). split; [done|]. split; [done|]. split.
  - rewrite (xi_count _ _ _ I), <- (twos_set (e_n e) (e_seg e)).
    + destruct (set_states_spec (e_seg e) (e_n e) 2 (o_segmentState c)) as [L R]; [lia|].
      f_equal. apply filter_count_ext with (n := 128%nat); [done|by rewrite L|].
      intros i Hi. by rewrite S4, R by lia.
    + lia.
    + intros i Hi. destruct (pending_segment i) as [-> _]; [|lia|done].
      unfold covers. apply andb_true_iff. split; [apply Nat.leb_le|apply Nat.ltb_lt]; lia.
  - intros seg Hseg. destruct (xi_segment _ _ _ I seg Hseg) as (dn & E1 & E2 & E3). cbv zeta in E3.
    rewrite S3, S4, covered_range by lia. destruct (covers seg e) eqn:Hc.
    + destruct (pending_segment seg Hc Hseg) as (H1 & H2 & H3 & H4). rewrite H1 in E3. cbn in E3.
      exists (dn ++ [contribution seg e]). rewrite H2, app_nil_r, E1, H3. split; [done|]. split.
      * unfold segment_value. rewrite foldl_snoc. fold (segment_value dn). by rewrite <- E2.
      * cbn. split; [auto|]. rewrite length_app. cbn. split; [lia|done].
    + exists dn. assert (contribs seg (q1 ++ q2) = contribs seg (q1 ++ e :: q2)) as ->.
      { change (e :: q2) with ([e] ++ q2). by rewrite !contribs_app, contribs_one, Hc. }
      done.
Qed.

Lemma context_inv_commit : Z.of_nat (length log) + 1 < 2 ^ 32 ->
  let (values, states) := commit_panels p (e_seg e) 0 (e_n e) (o_values c) (o_segmentState c) in
  let count := o_committedSegments c + Z.of_nat (e_n e) in
  context_inv
    (if count =? kRows * kPanels
     then mkOContext (o_valid c) (o_draining c) (o_tag c) (o_keyTiles c) (u32 (o_expectedKeyTile c + 1)) 0
            values (replicate 128 0)
     else mkOContext (o_valid c) (o_draining c) (o_tag c) (o_keyTiles c) (o_expectedKeyTile c) count values states)
    log (q1 ++ q2).
Proof.
  intros Hlog. destruct (commit_panels _ _ _ _ _ _) as [values states] eqn:Ec.
  destruct (commit_segments values states Ec) as (L1 & L2 & Ct & Sg). cbv zeta. change (kRows * kPanels) with 128.
  pose proof (xi_expected _ _ _ I) as Hx.
  destruct (Z.eqb_spec (o_committedSegments c + Z.of_nat (e_n e)) 128) as [E|E].
  - assert (All : forall i, (i < 128)%nat -> nth i states 0 = 2) by (rewrite <- L2; apply twos_all; rewrite L2; lia).
    rewrite u32_id by (unfold in_u32; lia).
    split; cbn [o_values o_segmentState o_committedSegments o_expectedKeyTile]; try done; try lia.
    + destruct (Sg 0%nat ltac:(lia)) as (dn & E1 & _ & _ & E4 & _). rewrite All in E4 by lia. cbn in E4.
      assert (length (contribs 0 log) <= length log)%nat.
      { unfold contribs. rewrite length_map. apply List.filter_length_le. }
      rewrite E1, length_app in H. lia.
    + intros seg Hseg. destruct (Sg seg Hseg) as (dn & E1 & E2 & E3 & E4 & E5). cbv zeta in E3, E4, E5.
      rewrite All in * by done. exists dn. split; [done|]. split; [done|].
      rewrite nth_lookup, lookup_replicate_2 by done. cbn in *. split; [auto|]. split; [lia|done].
    + apply I.
  - split; cbn [o_values o_segmentState o_committedSegments o_expectedKeyTile]; try done; try lia.
    + pose proof (List.filter_length_le (fun x => x =? 2) states). lia.
    + apply I.
Qed.
End commit_context.

(** ** The accumulator's invariant *)

(** The pending submissions of context [i]. *)
Definition slot_pending (i : nat) (q : list (Z * OPending)) : list OPending :=
  List.filter (fun p => negb (p_drain p) && (Z.to_nat (p_slot p) =? i)%nat) (map snd q).

(** What was asked of each context: its key tiles and its accepted submissions. *)
Definition o_ghost := nat -> Z * list entry.

Definition same_slot (p p' : OPending) : Prop := Z.to_nat (p_slot p) = Z.to_nat (p_slot p').

Record o_inv (cs : list OContext) (q : list (Z * OPending)) (g : o_ghost) (banks : list Z) (nid : Z) : Prop := {
  gi_length : length cs = 4%nat;
  gi_context : forall i c, cs !! i = Some c ->
    if o_valid c
    then context_inv c (g i).2 (map p_entry (slot_pending i q)) /\ o_keyTiles c = (g i).1 /\
         0 <= o_keyTiles c /\ (o_draining c = true -> o_keyTiles c <= o_expectedKeyTile c)
    else o_draining c = false /\ o_expectedKeyTile c = 0 /\ o_committedSegments c = 0;
  gi_pending : forall k p, (k, p) ∈ q -> k = p_id p /\ k < nid /\ 0 <= p_slot p < 4 /\
    (exists c, cs !! Z.to_nat (p_slot p) = Some c /\ o_valid c = true /\ o_tag c = p_tag p /\
               (p_drain p = true -> o_draining c = true)) /\
    (p_drain p = false -> pending_ok p /\ p_readyCycle p <= nth (Z.to_nat (p_row p)) banks 0);
  gi_sorted : StronglySorted (fun x y => x.1 < y.1) q;
  gi_drain : forall d p, d ∈ q -> p ∈ q -> p_drain d.2 = true -> p_drain p.2 = false -> same_slot p.2 d.2 ->
    p.1 < d.1 /\ p_readyCycle p.2 <= p_readyCycle d.2;
  gi_log : forall i, Z.of_nat (length (g i).2) < nid }.

Lemma slot_pending_app i q q' : slot_pending i (q ++ q') = slot_pending i q ++ slot_pending i q'.
Proof. unfold slot_pending. by rewrite map_app, List.filter_app. Qed.
Lemma slot_pending_cons i k p q :
  slot_pending i ((k, p) :: q) =
  (if negb (p_drain p) && (Z.to_nat (p_slot p) =? i)%nat then [p] else []) ++ slot_pending i q.
Proof. unfold slot_pending. cbn. by destruct (_ && _). Qed.
Lemma slot_pending_nil i q : (forall x, x ∈ q -> p_drain x.2 = true \/ Z.to_nat (p_slot x.2) <> i) -> slot_pending i q = [].
Proof.
  unfold slot_pending. induction q as [|x q IH]; intros H; [done|]. cbn.
  rewrite IH by (intros y Hy; apply H; by right).
  destruct (H x) as [E|E]; [by left| |]; [by rewrite E|].
  rewrite (proj2 (Nat.eqb_neq _ _)) by done. by rewrite andb_false_r.
Qed.

Lemma concat_slices n : forall l, length l = (n * 16)%nat -> concat (map (fun seg => slice seg l) (seq 0 n)) = l.
Proof.
  assert (G : forall n k l, length l = ((k + n) * 16)%nat ->
    concat (map (fun seg => slice seg l) (seq k n)) = drop (k * 16) l).
  { clear n. induction n as [|n IH]; intros k l L; cbn [seq map concat].
    - rewrite drop_ge; [done|]. lia.
    - rewrite IH by lia. unfold slice. rewrite <- (take_drop 16 (drop (k * 16) l)) at 2. f_equal.
      rewrite drop_drop. f_equal. lia. }
  intros l L. by rewrite G.
Qed.

(** Without a submission beyond the last key tile every segment received exactly one
    contribution per tile, in order. *)
Definition tiles_complete (keyTiles : Z) (log : list entry) : Prop :=
  Forall (fun e => e_kv e < keyTiles) log ->
  forall seg, (seg < 128)%nat -> map (fun x => x.1.1) (contribs seg log) = seqZ 0 keyTiles.

Lemma context_drained c log : context_inv c log [] -> 0 <= o_expectedKeyTile c ->
  o_values c = o_value log /\
  forall keyTiles, 0 <= keyTiles <= o_expectedKeyTile c -> tiles_complete keyTiles log.
Proof.
  intros I Hx. split.
  - rewrite <- (concat_slices 128 (o_values c)) by apply I. unfold o_value. f_equal. apply map_ext_in.
    intros seg Hseg%in_seq. destruct (xi_segment _ _ _ I seg ltac:(lia)) as (dn & -> & -> & _).
    by rewrite app_nil_r.
  - intros kt Hkt Hlt seg Hseg. pose proof (xi_kv _ _ _ I seg Hseg) as K.
    destruct (xi_segment _ _ _ I seg Hseg) as (dn & E1 & _ & _ & E4 & _). cbv zeta in E4.
    change (contribs seg []) with (@nil (Z * spec_float * list spec_float)) in E1. rewrite app_nil_r in E1.
    rewrite K. f_equal. rewrite E1 in *.
    destruct (Z.le_gt_cases (Z.of_nat (length dn)) kt); [destruct (_ =? 2); lia|]. exfalso.
    assert (Hin : kt ∈ map (fun x => x.1.1) dn) by (rewrite K; apply elem_of_seqZ; lia).
    apply list_elem_of_In, in_map_iff in Hin as ([[kv a] vs] & Ekv & Hin). cbn in Ekv. rewrite <- E1 in Hin.
    unfold contribs in Hin. apply in_map_iff in Hin as (e & Ee & Hin). apply filter_In in Hin as [Hin _].
    rewrite Forall_forall in Hlt. apply list_elem_of_In in Hin. specialize (Hlt e Hin). injection Ee as <- <- <-. lia.
Qed.

Section progress.
Context (g : o_ghost) (banks : list Z) (nid : Z) (Hnid : nid < 2 ^ 32).

Lemma sorted_later k p K R : StronglySorted (fun x y : Z * OPending => x.1 < y.1) (K ++ (k, p) :: R) ->
  forall x, x ∈ R -> k < x.1.
Proof.
  induction K as [|y K IH]; intros H x Hx; apply StronglySorted_inv in H as [H F].
  - rewrite Forall_forall in F. by apply (F x).
  - by apply IH.
Qed.

Lemma sorted_remove k p K R : StronglySorted (fun x y : Z * OPending => x.1 < y.1) (K ++ (k, p) :: R) ->
  StronglySorted (fun x y => x.1 < y.1) (K ++ R).
Proof.
  induction K as [|y K IH]; intros H; apply StronglySorted_inv in H as [H F]; [done|].
  constructor; [by apply IH|]. apply Forall_app in F as [F1 F2]. apply Forall_cons in F2 as [_ F2].
  apply Forall_app. by split.
Qed.

(** Removing a completed operation, its context possibly replaced. *)
Lemma o_inv_remove cs K k p R c c' : o_inv cs (K ++ (k, p) :: R) g banks nid ->
  cs !! Z.to_nat (p_slot p) = Some c -> o_valid c = true ->
  o_valid c' = true -> o_tag c' = o_tag c -> o_keyTiles c' = o_keyTiles c -> o_draining c' = o_draining c ->
  o_expectedKeyTile c <= o_expectedKeyTile c' ->
  context_inv c' (g (Z.to_nat (p_slot p))).2 (map p_entry (slot_pending (Z.to_nat (p_slot p)) (K ++ R))) ->
  o_inv (<[Z.to_nat (p_slot p) := c']> cs) (K ++ R) g banks nid.
Proof.
  intros I Hc Vc V T Kt D X J.
  assert (Sub : forall x, x ∈ K ++ R -> x ∈ K ++ (k, p) :: R).
  { intros x. rewrite !elem_of_app, elem_of_cons. tauto. }
  split; [by rewrite length_insert; apply I| | | | |apply I].
  - intros i x Hx. destruct (decide (i = Z.to_nat (p_slot p))) as [->|Hne].
    + rewrite list_lookup_insert_eq in Hx by (by eapply lookup_lt_Some). injection Hx as <-. rewrite V.
      split; [done|]. pose proof (gi_context _ _ _ _ _ I _ _ Hc) as Hx. rewrite Vc in Hx.
      rewrite Kt, D. split; [apply Hx|]. split; [apply Hx|]. intros Hd. destruct Hx as (_ & _ & _ & Hx). specialize (Hx Hd). lia.
    + rewrite list_lookup_insert_ne in Hx by done. pose proof (gi_context _ _ _ _ _ I _ _ Hx) as Hx'.
      rewrite slot_pending_app, slot_pending_cons, (proj2 (Nat.eqb_neq _ i)), andb_false_r in Hx' by done.
      by rewrite slot_pending_app.
  - intros k' p' Hin. destruct (gi_pending _ _ _ _ _ I k' p' (Sub _ Hin)) as (P1 & P2 & P3 & (x & X1 & X2 & X3 & X4) & P5).
    split; [done|]. split; [done|]. split; [done|]. split; [|done].
    destruct (decide (Z.to_nat (p_slot p') = Z.to_nat (p_slot p))) as [E|Hne].
    + exists c'. rewrite E, list_lookup_insert_eq by (by eapply lookup_lt_Some).
      rewrite E, Hc in X1. injection X1 as <-. rewrite V, T, D. done.
    + exists x. by rewrite list_lookup_insert_ne.
  - eapply sorted_remove, I.
  - intros d x Hd Hx. apply (gi_drain _ _ _ _ _ I); by apply Sub.
Qed.

(** A ready operation always completes; a drain returns the specified O. *)
Lemma progress_one_inv now cs K p R : o_inv cs (K ++ (p_id p, p) :: R) g banks nid ->
  Forall (fun x => now < p_readyCycle x.2) K -> p_readyCycle p <= now ->
  let (cs', c) := progress_one cs p in
  o_inv cs' (K ++ R) g banks nid /\ c_ok c = true /\ c_slot c = p_slot p /\
  (c_drain c = true -> c_values c = o_value (g (Z.to_nat (c_slot c))).2 /\
     tiles_complete (g (Z.to_nat (c_slot c))).1 (g (Z.to_nat (c_slot c))).2).
Proof.
  intros I HK Hnow. destruct (gi_pending _ _ _ _ _ I (p_id p) p) as (_ & _ & P3 & (c & X1 & X2 & X3 & X4) & P5);
    [apply elem_of_app; right; left|].
  unfold progress_one, contexts_matches. rewrite (proj2 (Z.ltb_lt (p_slot p) kContexts)) by (unfold kContexts; lia).
  rewrite nth_lookup, X1. cbn [default from_option]. unfold Datatypes.id. rewrite X2, X3, tag_eqb_refl. cbn [andb negb].
  pose proof (gi_context _ _ _ _ _ I _ _ X1) as Hx. rewrite X2 in Hx. destruct Hx as (J & Kt & K0 & Hd).
  destruct (p_drain p) eqn:Ed.
  - assert (Q : slot_pending (Z.to_nat (p_slot p)) (K ++ (p_id p, p) :: R) = []).
    { apply slot_pending_nil. intros [k' p'] Hin. cbn. destruct (p_drain p') eqn:Ed'; [by left|]. right. intros Es.
      destruct (gi_drain _ _ _ _ _ I (p_id p, p) (k', p')) as [D1 D2]; try done;
        [apply elem_of_app; right; left|]. cbn in D1, D2. apply elem_of_app in Hin as [Hin|[[= -> ->]|Hin]%elem_of_cons].
      - rewrite Forall_forall in HK. specialize (HK _ Hin). cbn in HK. lia.
      - congruence.
      - pose proof (sorted_later _ _ _ _ (gi_sorted _ _ _ _ _ I) _ Hin) as L. cbn in L. lia. }
    split; [|split; [done|split; [done|]]].
    + rewrite <- (list_insert_id cs _ c X1). apply (o_inv_remove _ _ _ _ _ c c I); try done.
      replace (slot_pending (Z.to_nat (p_slot p)) (K ++ R)) with
        (slot_pending (Z.to_nat (p_slot p)) (K ++ (p_id p, p) :: R)); [done|].
      by rewrite !slot_pending_app, slot_pending_cons, Ed.
    + intros _. cbn [c_values c_slot]. rewrite Q in J. destruct (xi_expected _ _ _ J) as [Hx _].
      destruct (context_drained _ _ J Hx) as [V C]. split; [done|]. rewrite <- Kt.
      apply C. split; [done|]. by apply Hd, X4.
  - destruct (P5 eq_refl) as [Pok _].
    rewrite slot_pending_app, slot_pending_cons, Ed, Nat.eqb_refl, map_app in J. cbn [negb andb app map] in J.
    assert (Hlog : Z.of_nat (length (g (Z.to_nat (p_slot p))).2) + 1 < 2 ^ 32).
    { pose proof (gi_log _ _ _ _ _ I (Z.to_nat (p_slot p))). lia. }
    assert (En : (if p_rowFused p then Z.to_nat kPanels else 1%nat) = e_n (p_entry p)) by (unfold p_entry; cbn [e_n]; by destruct (p_rowFused p)).
    change (Z.to_nat (p_row p * kPanels + p_panel p)) with (e_seg (p_entry p)). rewrite En.
    assert (Seg : forall i, (e_seg (p_entry p) <= i < e_seg (p_entry p) + e_n (p_entry p))%nat ->
              nth i (o_segmentState c) 0 = 1 /\ p_kvTileIndex p = o_expectedKeyTile c).
    { intros i Hi. destruct (pending_segment c _ _ _ p J i) as (S1 & _ & _ & S4); [|destruct Pok as (_ & ? & _); lia|done].
      unfold covers. apply andb_true_iff. split; [apply Nat.leb_le|apply Nat.ltb_lt]; lia. }
    assert (Hok : (p_kvTileIndex p =? o_expectedKeyTile c) &&
                forallb (fun i => nth i (o_segmentState c) 0 =? 1) (seq (e_seg (p_entry p)) (e_n (p_entry p))) = true).
    { apply andb_true_iff. split.
      - apply Z.eqb_eq. destruct (Seg (e_seg (p_entry p))) as [_ ?]; [|done]. rewrite <- En.
        destruct (p_rowFused p); [change (Z.to_nat kPanels) with 8%nat|]; lia.
      - apply forallb_forall. intros i Hi%in_seq. apply Z.eqb_eq. by apply Seg. }
    rewrite Hok. cbn [negb].
    pose proof (context_inv_commit c _ _ _ p J Pok Hlog) as Cm.
    destruct (commit_panels _ _ _ _ _ _) as [values states]. cbv zeta in Cm.
    split; [|split; [done|split; [done|discriminate]]].
    apply (o_inv_remove _ _ _ _ _ c _ I); try done; try by case_if.
    + case_if; cbn; [|lia]. rewrite u32_id; [lia|]. pose proof (xi_expected _ _ _ J). unfold in_u32. lia.
    + rewrite X2, X3 in Cm. rewrite slot_pending_app, map_app. exact Cm.
Qed.
End progress.

(** What a completion must report. *)
Definition completion_correct (g : o_ghost) (c : OCompletion) : Prop :=
  c_ok c = true /\
  (c_drain c = true ->
     c_values c = o_value (g (Z.to_nat (c_slot c))).2 /\
     tiles_complete (g (Z.to_nat (c_slot c))).1 (g (Z.to_nat (c_slot c))).2).

Lemma progress_loop_inv g banks nid now q : nid < 2 ^ 32 -> forall K cs,
  o_inv cs (K ++ q) g banks nid -> Forall (fun x => now < p_readyCycle x.2) K ->
  let '(cs', kept, done) := progress_loop now cs q in
  o_inv cs' (K ++ kept) g banks nid /\ Forall (completion_correct g) done.
Proof.
  intros Hn. induction q as [|[k p] q IH]; intros K cs I HK; cbn [progress_loop]; [done|].
  destruct (gi_pending _ _ _ _ _ I k p) as (-> & _); [apply elem_of_app; right; left|].
  destruct (Z.ltb_spec now (p_readyCycle p)).
  - specialize (IH (K ++ [(p_id p, p)]) cs). rewrite <- app_assoc in IH. specialize (IH I).
    destruct (progress_loop now cs q) as [[cs' kept] dn].
    rewrite <- app_assoc in IH. apply IH. apply Forall_app. split; [done|by apply Forall_singleton].
  - pose proof (progress_one_inv g banks nid Hn now cs K p q I HK ltac:(lia)) as S.
    destruct (progress_one cs p) as [cs1 c]. destruct S as (I1 & Ok & _ & Dr).
    specialize (IH K cs1 I1 HK). destruct (progress_loop now cs1 q) as [[cs' kept] dn].
    destruct IH as [I2 F]. split; [done|]. constructor; [by split|done].
Qed.

Definition ghost_set (g : o_ghost) (slot : Z) (x : Z * list entry) : o_ghost :=
  fun i => if (i =? Z.to_nat slot)%nat then x else g i.

Section updates.
Context (cs : list OContext) (q : list (Z * OPending)) (g : o_ghost) (banks : list Z) (nid : Z).
Hypothesis I : o_inv cs q g banks nid.

Lemma matches_context slot t : 0 <= slot -> contexts_matches cs slot t = true ->
  slot < 4 /\ let c := nth (Z.to_nat slot) cs OContext_empty in
  cs !! Z.to_nat slot = Some c /\ o_valid c = true /\ o_tag c = t /\
  context_inv c (g (Z.to_nat slot)).2 (map p_entry (slot_pending (Z.to_nat slot) q)) /\
  o_keyTiles c = (g (Z.to_nat slot)).1 /\ 0 <= o_keyTiles c /\ (o_draining c = true -> o_keyTiles c <= o_expectedKeyTile c).
Proof.
  unfold contexts_matches, kContexts. intros Hs H. boolify. split; [done|]. cbv zeta.
  destruct (lookup_lt_is_Some_2 cs (Z.to_nat slot)) as [c Hc]; [rewrite (gi_length _ _ _ _ _ I); lia|].
  rewrite nth_lookup, Hc in *. cbn [default from_option] in *. unfold Datatypes.id in *.
  pose proof (gi_context _ _ _ _ _ I _ _ Hc) as X. rewrite H1 in X.
  split; [done|]. split; [done|]. split; [|done]. by destruct (tag_eqb_spec (o_tag c) t).
Qed.

(** Appending an operation of the next id. *)
Lemma sorted_append p : StronglySorted (fun x y : Z * OPending => x.1 < y.1) (q ++ [(nid, p)]).
Proof.
  pose proof (gi_sorted _ _ _ _ _ I) as S. pose proof (gi_pending _ _ _ _ _ I) as P. clear I. revert S P.
  induction q as [|[k x] q' IH]; intros S P; cbn [app]; [repeat constructor|].
  apply StronglySorted_inv in S as [S F]. constructor.
  - apply IH; [done|]. intros k' p' Hin. apply P. by right.
  - apply Forall_app. split; [done|]. apply Forall_singleton. cbn. apply (P k x). by left.
Qed.

Lemma emplace_next p : map_emplace nid p q = q ++ [(nid, p)].
Proof.
  apply map_emplace_last. apply Forall_forall. intros [k x] Hin. cbn. by apply (gi_pending _ _ _ _ _ I k x).
Qed.

(** An accepted submission: context [c] of [slot] waits for [p]. *)
Lemma o_inv_submit slot c p ready banks' :
  0 <= slot < 4 -> cs !! Z.to_nat slot = Some c -> o_valid c = true -> o_draining c = false ->
  context_inv c (g (Z.to_nat slot)).2 (map p_entry (slot_pending (Z.to_nat slot) q)) ->
  o_keyTiles c = (g (Z.to_nat slot)).1 -> 0 <= o_keyTiles c ->
  p_id p = nid -> p_slot p = slot -> p_tag p = o_tag c -> p_drain p = false -> pending_ok p ->
  p_readyCycle p = ready -> banks' = <[Z.to_nat (p_row p) := ready]> banks -> length banks = 16%nat ->
  nth (Z.to_nat (p_row p)) banks 0 <= ready ->
  e_kv (p_entry p) = o_expectedKeyTile c ->
  (forall seg, covers seg (p_entry p) = true -> nth seg (o_segmentState c) 0 = 0) ->
  o_inv (<[Z.to_nat slot := o_with_states c (o_set_states c (e_seg (p_entry p)) (e_n (p_entry p)) 1)]> cs)
    (q ++ [(nid, p)])
    (ghost_set g slot ((g (Z.to_nat slot)).1, (g (Z.to_nat slot)).2 ++ [p_entry p])) banks' (nid + 1).
Proof.
  intros Hs Hc V D J Kt K0 Pid Psl Ptag Pd Pok Pr -> Lb Hb Hkv H0.
  pose proof (context_inv_submit c _ _ (p_entry p) J Hkv ltac:(apply Pok) H0) as J'.
  assert (Row : forall r, nth r banks 0 <= nth r (<[Z.to_nat (p_row p) := ready]> banks) 0).
  { intros r. destruct (decide (r = Z.to_nat (p_row p))) as [->|Hne].
    - rewrite (nth_lookup (<[_ := _]> _)), list_lookup_insert_eq; [done|]. rewrite Lb. destruct Pok as (_ & _ & ?). lia.
    - rewrite (nth_lookup (<[_ := _]> _)), list_lookup_insert_ne, <- nth_lookup by done. lia. }
  split.
  - rewrite length_insert. apply I.
  - intros i x Hx. unfold ghost_set. rewrite slot_pending_app, slot_pending_cons, Psl, Pd. cbn [negb andb].
    rewrite (Nat.eqb_sym (Z.to_nat slot) i). destruct (Nat.eqb_spec i (Z.to_nat slot)) as [->|Hne].
    + rewrite list_lookup_insert_eq in Hx by (by eapply lookup_lt_Some). injection Hx as <-.
      cbn [o_with_states o_valid o_keyTiles o_draining o_expectedKeyTile fst snd]. rewrite V, D, map_app.
      split; [done|]. split; [done|]. split; [done|done].
    + rewrite list_lookup_insert_ne in Hx by done. rewrite app_nil_r. by apply (gi_context _ _ _ _ _ I).
  - intros k x [Hin|[= -> ->]%list_elem_of_singleton]%elem_of_app.
    + destruct (gi_pending _ _ _ _ _ I k x Hin) as (P1 & P2 & P3 & (y & Y1 & Y2 & Y3 & Y4) & P5).
      split; [done|]. split; [lia|]. split; [done|]. split.
      * destruct (decide (Z.to_nat (p_slot x) = Z.to_nat slot)) as [E|Hne].
        -- rewrite E, list_lookup_insert_eq by (by eapply lookup_lt_Some). eexists. split; [done|].
           rewrite E, Hc in Y1. injection Y1 as <-. done.
        -- exists y. by rewrite list_lookup_insert_ne.
      * intros Hd. destruct (P5 Hd). split; [done|]. specialize (Row (Z.to_nat (p_row x))). lia.
    + rewrite Psl. split; [done|]. split; [lia|]. split; [done|]. split.
      * rewrite list_lookup_insert_eq by (by eapply lookup_lt_Some). eexists. split; [done|].
        cbn. rewrite Pd. done.
      * intros _. split; [done|]. rewrite nth_lookup, list_lookup_insert_eq; [cbn; lia|].
        rewrite Lb. destruct Pok as (_ & _ & ?). lia.
  - apply sorted_append.
  - intros d x [Hd|[= ->]%list_elem_of_singleton]%elem_of_app [Hx|[= ->]%list_elem_of_singleton]%elem_of_app Dd Dx Es;
      cbn in *; try congruence.
    + by apply (gi_drain _ _ _ _ _ I).
    + exfalso. destruct d as [kd d]. cbn in *.
      destruct (gi_pending _ _ _ _ _ I kd d Hd) as (_ & _ & _ & (y & Y1 & _ & _ & Y4) & _).
      unfold same_slot in Es. rewrite <- Es, Psl, Hc in Y1. injection Y1 as <-. rewrite (Y4 Dd) in D. done.
  - intros i. unfold ghost_set. case_if; [|pose proof (gi_log _ _ _ _ _ I i); lia]. cbn [snd].
    rewrite length_app. cbn [length]. pose proof (gi_log _ _ _ _ _ I (Z.to_nat slot)). lia.
Qed.

(** An accepted drain: later than every pending submission. *)
Lemma o_inv_drain slot c p banks' :
  0 <= slot < 4 -> cs !! Z.to_nat slot = Some c -> o_valid c = true ->
  o_keyTiles c <= o_expectedKeyTile c ->
  p_id p = nid -> p_slot p = slot -> p_tag p = o_tag c -> p_drain p = true ->
  (forall r, (r < 16)%nat -> nth r banks 0 <= p_readyCycle p) ->
  (forall r, (r < 16)%nat -> nth r banks 0 <= nth r banks' 0) ->
  o_inv (<[Z.to_nat slot := mkOContext (o_valid c) true (o_tag c) (o_keyTiles c) (o_expectedKeyTile c)
                               (o_committedSegments c) (o_values c) (o_segmentState c)]> cs)
    (q ++ [(nid, p)]) g banks' (nid + 1).
Proof.
  intros Hs Hc V Kx Pid Psl Ptag Pd Hr Hb.
  split.
  - rewrite length_insert. apply I.
  - intros i x Hx. rewrite slot_pending_app, slot_pending_cons, Pd. cbn [negb andb app]. rewrite app_nil_r.
    destruct (decide (i = Z.to_nat slot)) as [->|Hne].
    + rewrite list_lookup_insert_eq in Hx by (by eapply lookup_lt_Some). injection Hx as <-.
      cbn [o_valid o_keyTiles o_draining o_expectedKeyTile]. rewrite V.
      pose proof (gi_context _ _ _ _ _ I _ _ Hc) as X. rewrite V in X. destruct X as ([] & X2 & X3 & X4).
      split; [by split|]. split; [done|]. by split.
    + rewrite list_lookup_insert_ne in Hx by done. by apply (gi_context _ _ _ _ _ I).
  - intros k x [Hin|[= -> ->]%list_elem_of_singleton]%elem_of_app.
    + destruct (gi_pending _ _ _ _ _ I k x Hin) as (P1 & P2 & P3 & (y & Y1 & Y2 & Y3 & Y4) & P5).
      split; [done|]. split; [lia|]. split; [done|]. split.
      * destruct (decide (Z.to_nat (p_slot x) = Z.to_nat slot)) as [E|Hne].
        -- rewrite E, list_lookup_insert_eq by (by eapply lookup_lt_Some). eexists. split; [done|].
           rewrite E, Hc in Y1. injection Y1 as <-. done.
        -- exists y. by rewrite list_lookup_insert_ne.
      * intros Hd. destruct (P5 Hd) as [Pok Hp]. split; [done|]. destruct Pok as (_ & _ & ?).
        specialize (Hb (Z.to_nat (p_row x)) ltac:(lia)). lia.
    + rewrite Psl. split; [done|]. split; [lia|]. split; [done|]. split; [|congruence].
      rewrite list_lookup_insert_eq by (by eapply lookup_lt_Some). eexists. split; [done|]. done.
  - apply sorted_append.
  - intros d [kx x] [Hd|[= ->]%list_elem_of_singleton]%elem_of_app [Hx|[= -> ->]%list_elem_of_singleton]%elem_of_app Dd Dx Es;
      cbn in *; try congruence.
    + by apply (gi_drain _ _ _ _ _ I d (kx, x)).
    + destruct (gi_pending _ _ _ _ _ I kx x Hx) as (-> & P2 & _ & _ & P5). split; [done|].
      destruct (P5 Dx) as [(_ & _ & ?) Hp]. specialize (Hr (Z.to_nat (p_row x)) ltac:(lia)). lia.
  - intros i. pose proof (gi_log _ _ _ _ _ I i). lia.
Qed.

(** No operation is pending in a context that is not valid. *)
Lemma no_pending slot c : cs !! Z.to_nat slot = Some c -> o_valid c = false ->
  forall x, x ∈ q -> Z.to_nat (p_slot x.2) <> Z.to_nat slot.
Proof.
  intros Hc V [k p] Hin E. cbn in E. destruct (gi_pending _ _ _ _ _ I k p Hin) as (_ & _ & _ & (y & Y1 & Y2 & _) & _).
  rewrite E in Y1. congruence.
Qed.

Lemma o_inv_reserve slot c t keyTiles : 0 <= slot < 4 -> cs !! Z.to_nat slot = Some c -> o_valid c = false ->
  0 <= keyTiles -> 0 < nid ->
  o_inv (<[Z.to_nat slot := mkOContext true (o_draining c) t keyTiles (o_expectedKeyTile c) (o_committedSegments c)
                             (replicate 2048 f_zero) (replicate 128 0)]> cs)
    q (ghost_set g slot (keyTiles, [])) banks nid.
Proof.
  intros Hs Hc V Hk Hn. pose proof (gi_context _ _ _ _ _ I _ _ Hc) as X. rewrite V in X. destruct X as (-> & -> & ->).
  pose proof (no_pending slot c Hc V) as N.
  split; [by rewrite length_insert; apply I| | |apply I|apply I|].
  - intros i x Hx. unfold ghost_set. destruct (Nat.eqb_spec i (Z.to_nat slot)) as [->|Hne].
    + rewrite list_lookup_insert_eq in Hx by (by eapply lookup_lt_Some). injection Hx as <-. cbn.
      rewrite slot_pending_nil by (intros x Hx; right; by apply N). split; [by apply context_inv_reserve|]. done.
    + rewrite list_lookup_insert_ne in Hx by done. by apply (gi_context _ _ _ _ _ I).
  - intros k p Hin. destruct (gi_pending _ _ _ _ _ I k p Hin) as (P1 & P2 & P3 & (y & Y1 & Y2) & P5).
    split; [done|]. split; [done|]. split; [done|]. split; [|done]. exists y.
    specialize (N _ Hin). cbn in N. by rewrite list_lookup_insert_ne.
  - intros i. unfold ghost_set. case_if; [cbn; lia|]. apply I.
Qed.

Lemma o_inv_release slot c : 0 <= slot < 4 -> cs !! Z.to_nat slot = Some c ->
  (forall x, x ∈ q -> Z.to_nat (p_slot x.2) <> Z.to_nat slot) ->
  o_inv (<[Z.to_nat slot := OContext_empty]> cs) q g banks nid.
Proof.
  intros Hs Hc N. split; [by rewrite length_insert; apply I| | |apply I|apply I|apply I].
  - intros i x Hx. destruct (decide (i = Z.to_nat slot)) as [->|Hne].
    + rewrite list_lookup_insert_eq in Hx by (by eapply lookup_lt_Some). injection Hx as <-. done.
    + rewrite list_lookup_insert_ne in Hx by done. by apply (gi_context _ _ _ _ _ I).
  - intros k p Hin. destruct (gi_pending _ _ _ _ _ I k p Hin) as (P1 & P2 & P3 & (y & Y1 & Y2) & P5).
    split; [done|]. split; [done|]. split; [done|]. split; [|done]. exists y.
    specialize (N _ Hin). cbn in N. by rewrite list_lookup_insert_ne.
Qed.

Lemma sorted_filter f : StronglySorted (fun x y : Z * OPending => x.1 < y.1) q ->
  StronglySorted (fun x y : Z * OPending => x.1 < y.1) (List.filter f q).
Proof.
  clear I. induction 1 as [|x q' S IH F]; [constructor|]. cbn. destruct (f x); [|done]. constructor; [done|].
  apply Forall_forall. intros y Hy%list_elem_of_In%filter_In. rewrite Forall_forall in F. apply F, list_elem_of_In, Hy.
Qed.

Lemma slot_pending_filter (f : OPending -> bool) i : forall q',
  (forall x, x ∈ q' -> Z.to_nat (p_slot x.2) = i -> f x.2 = true) ->
  slot_pending i (List.filter (fun x => f x.2) q') = slot_pending i q'.
Proof.
  induction q' as [|[k p] q' IH]; intros H; [done|]. cbn [List.filter]. cbn [snd].
  assert (IH' := IH (fun x Hx => H x ltac:(by right))).
  specialize (H (k, p) ltac:(by left)). cbn in H. rewrite slot_pending_cons.
  destruct (f p) eqn:E; [by rewrite slot_pending_cons, IH'|]. rewrite IH'.
  destruct (Nat.eqb_spec (Z.to_nat (p_slot p)) i) as [Es|]; [specialize (H Es); congruence|]. by rewrite andb_false_r.
Qed.

Lemma o_inv_cancel gen :
  o_inv (map (fun c => if o_of_generation gen c then OContext_empty else c) cs)
    (List.filter (fun x => negb (generation (p_tag x.2) =? gen)) q) g banks nid.
Proof.
  assert (Sub : forall x, x ∈ List.filter (fun x => negb (generation (p_tag x.2) =? gen)) q ->
                x ∈ q /\ generation (p_tag x.2) <> gen).
  { intros x Hx%list_elem_of_In%filter_In. destruct Hx as [H1 H2]. boolify. split; [by apply list_elem_of_In|done]. }
  split.
  - rewrite length_map. apply I.
  - intros i x Hx. rewrite list_lookup_fmap in Hx. destruct (cs !! i) as [c|] eqn:Hc; [injection Hx as <-|done].
    pose proof (gi_context _ _ _ _ _ I _ _ Hc) as X. unfold o_of_generation. destruct (o_valid c) eqn:V; cbn [andb].
    + destruct (Z.eqb_spec (generation (o_tag c)) gen) as [E|E]; [done|]. rewrite V.
      rewrite (slot_pending_filter (fun p => negb (generation (p_tag p) =? gen))); [done|].
      intros [k p] Hin Es. destruct (gi_pending _ _ _ _ _ I k p Hin) as (_ & _ & _ & (y & Y1 & _ & Y3 & _) & _).
      cbn in Es. rewrite Es, Hc in Y1. injection Y1 as <-. cbn. rewrite <- Y3. by apply negb_true_iff, Z.eqb_neq.
    + by rewrite V.
  - intros k p Hin. destruct (Sub _ Hin) as [Hin' Hg]. cbn in Hg.
    destruct (gi_pending _ _ _ _ _ I k p Hin') as (P1 & P2 & P3 & (y & Y1 & Y2 & Y3 & Y4) & P5).
    split; [done|]. split; [done|]. split; [done|]. split; [|done]. exists y. split; [|done].
    rewrite list_lookup_fmap, Y1. cbn. unfold o_of_generation. rewrite Y2, Y3. cbn.
    by rewrite (proj2 (Z.eqb_neq _ _)).
  - apply sorted_filter, I.
  - intros d p Hd Hp. apply (gi_drain _ _ _ _ _ I); by apply Sub.
  - apply I.
Qed.
End updates.

(** ** Ports and time *)

Section ports.
Import Busy.

(** A port whose schedule stays below [T]; one cycle per operation, never two at once. *)
Record port_inv (p : OPort) (T : Z) : Prop := {
  po_next : 0 <= nextCycle p <= T;
  po_some : hasInterval_ (intervals p) = true ->
    lastStart_ (intervals p) < nextCycle p /\ 0 <= mergedEnd_ (intervals p) <= nextCycle p;
  po_none : hasInterval_ (intervals p) = false -> intervals p = BusyIntervalUnion_new;
  po_ends : Forall (fun e => e <= nextCycle p) (activeEnds_ (intervals p));
  po_union : unionCycles_ (intervals p) = operations_ (intervals p);
  po_max : maxConcurrency_ (intervals p) <= 1 }.

Lemma heap_pop_all s h : Forall (fun e => e <= s) h -> heap_pop_until s h = [].
Proof. induction 1 as [|x h Hx _ IH]; [done|]. cbn. by rewrite (proj2 (Z.leb_le x s)). Qed.

Lemma port_take_inv p start wait T T' :
  port_inv p T -> nextCycle p <= start -> start + 1 <= T' -> T' < 2 ^ 64 ->
  let (p', ok) := port_take p start wait in
  ok = true /\ port_inv p' T' /\ nextCycle p' = start + 1.
Proof.
  intros [Pn Ps P0 Pe Pu Pm] Hs HT HT'. unfold port_take, BusyIntervalUnion_add.
  rewrite (u64_id (start + 1)) by (unfold in_u64; lia).
  rewrite (proj2 (Z.leb_gt (start + 1) start)) by lia. cbn [orb].
  assert (hasInterval_ (intervals p) && (start <? lastStart_ (intervals p)) = false) as ->.
  { destruct (hasInterval_ (intervals p)) eqn:E; [|done]. cbn. apply Z.ltb_ge. destruct (Ps eq_refl). lia. }
  rewrite heap_pop_all by (eapply Forall_impl; [exact Pe|]; cbn; lia). cbn [heap_push length].
  unfold busy_merge. destruct (hasInterval_ (intervals p)) eqn:E; cbn [negb].
  - destruct (Ps eq_refl) as [S1 S2]. replace (start + 1 - start) with 1 by lia. change (u64 1) with 1.
    destruct (Z.leb_spec start (mergedEnd_ (intervals p))).
    + rewrite (proj2 (Z.ltb_lt (mergedEnd_ (intervals p)) (start + 1))) by lia.
      replace (start + 1 - mergedEnd_ (intervals p)) with 1 by lia. change (u64 1) with 1.
      split; [done|]. split; [|done]. split; cbn; try lia; try done; [by apply Forall_singleton|]. by rewrite Pu.
    + split; [done|]. split; [|done]. split; cbn; try lia; try done; [by apply Forall_singleton|]. by rewrite Pu.
  - specialize (P0 eq_refl). replace (start + 1 - start) with 1 by lia. rewrite P0 in *.
    split; [done|]. split; [|done]. split; cbn; try lia; try done. by apply Forall_singleton.
Qed.

Lemma port_issue_inv p cursor T T' :
  port_inv p T -> 0 <= cursor -> Z.max cursor T + 1 <= T' -> T' < 2 ^ 64 ->
  let '(p', ok, start) := port_issue p cursor in
  ok = true /\ port_inv p' T' /\ cursor <= start <= Z.max cursor T.
Proof.
  intros I Hc HT HT'. unfold port_issue. pose proof (po_next _ _ I).
  pose proof (port_take_inv p (Z.max cursor (nextCycle p)) (Z.max cursor (nextCycle p) ⊟ cursor) T T' I
    ltac:(lia) ltac:(lia) HT') as S.
  destruct (port_take _ _ _) as [p' ok]. destruct S as (-> & S & _). split; [done|]. split; [done|]. lia.
Qed.

Lemma port_inv_mono p T T' : port_inv p T -> T <= T' -> port_inv p T'.
Proof. intros [? ? ? ? ? ?] H. split; try done. lia. Qed.
End ports.

Record schedule_inv (h : OSchedule) (T : Z) : Prop := {
  sh_read : port_inv (readPort h) T;
  sh_alu : port_inv (aluPort h) T;
  sh_write : port_inv (writePort h) T;
  sh_banks : length (bankReadyCycle_ h) = 16%nat /\ Forall (fun x => 0 <= x <= T) (bankReadyCycle_ h);
  sh_order : intervalOrderValid_ h = true }.

Lemma schedule_inv_mono h T T' : schedule_inv h T -> T <= T' -> schedule_inv h T'.
Proof.
  intros [A B C [L F] E] H. split; try (by eapply port_inv_mono); [|done]. split; [done|].
  eapply Forall_impl; [exact F|]. cbn. lia.
Qed.

Lemma bank_bound h T r : schedule_inv h T -> (r < 16)%nat -> 0 <= nth r (bankReadyCycle_ h) 0 <= T.
Proof.
  intros I Hr. destruct (sh_banks _ _ I) as [L F]. rewrite Forall_forall in F. apply F.
  apply list_elem_of_In, nth_In. lia.
Qed.

Lemma schedule_operation_inv h T kv row now :
  schedule_inv h T -> 0 <= now <= T -> 0 <= row < 16 -> T + 8 < 2 ^ 64 ->
  let (h', w) := schedule_operation h kv row now in
  schedule_inv h' (T + 8) /\ 0 <= w /\ w + 1 <= T + 8 /\
  bankReadyCycle_ h' = <[Z.to_nat row := w + 1]> (bankReadyCycle_ h) /\
  nth (Z.to_nat row) (bankReadyCycle_ h) 0 <= w.
Proof.
  intros I Hn Hr HT. pose proof (bank_bound h T (Z.to_nat row) I ltac:(lia)) as Hb.
  destruct I as [A B C [L F] E].
  unfold schedule_operation. set (cursor := Z.max now _).
  assert (Hc : 0 <= cursor <= T) by lia.
  assert (Banks : forall w, 0 <= w -> w + 1 <= T + 8 ->
    length (<[Z.to_nat row := w + 1]> (bankReadyCycle_ h)) = 16%nat /\
    Forall (fun x => 0 <= x <= T + 8) (<[Z.to_nat row := w + 1]> (bankReadyCycle_ h))).
  { intros w H1 H2. rewrite length_insert. split; [done|]. apply Forall_insert; [|lia].
    eapply Forall_impl; [exact F|]. cbn. lia. }
  destruct (negb (kv =? 0)).
  - pose proof (port_issue_inv _ cursor T (T + 1) A ltac:(lia) ltac:(lia) ltac:(lia)) as R.
    destruct (port_issue (readPort h) cursor) as [[rp ok1] rs]. destruct R as (-> & R & Hrs).
    rewrite (u64_id (rs + 1)) by (unfold in_u64; lia).
    pose proof (port_issue_inv _ (rs + 1) T (T + 2) B ltac:(lia) ltac:(lia) ltac:(lia)) as Q.
    destruct (port_issue (aluPort h) (rs + 1)) as [[ap ok2] fi]. destruct Q as (-> & Q & Hfi).
    unfold kFmaLatencyCycles. rewrite (u64_id (fi + 2)) by (unfold in_u64; lia).
    pose proof (port_issue_inv _ (fi + 2) T (T + 4) C ltac:(lia) ltac:(lia) ltac:(lia)) as W.
    destruct (port_issue (writePort h) (fi + 2)) as [[wp ok3] w]. destruct W as (-> & W & Hw).
    rewrite (u64_id (w + 1)) by (unfold in_u64; lia). rewrite E.
    split; [|split; [lia|split; [lia|split; [done|lia]]]].
    split; cbn; try (by eapply port_inv_mono; [eassumption|lia]); [apply Banks; lia|done].
  - pose proof (port_issue_inv _ cursor T (T + 2) B ltac:(lia) ltac:(lia) ltac:(lia)) as Q.
    destruct (port_issue (aluPort h) cursor) as [[ap ok2] fi]. destruct Q as (-> & Q & Hfi).
    unfold addLatency_. rewrite (u64_id (fi + 2)) by (unfold in_u64; lia).
    pose proof (port_issue_inv _ (fi + 2) T (T + 4) C ltac:(lia) ltac:(lia) ltac:(lia)) as W.
    destruct (port_issue (writePort h) (fi + 2)) as [[wp ok3] w]. destruct W as (-> & W & Hw).
    rewrite (u64_id (w + 1)) by (unfold in_u64; lia). rewrite E.
    split; [|split; [lia|split; [lia|split; [done|lia]]]].
    split; cbn; try (by eapply port_inv_mono; [eassumption|lia]); [apply Banks; lia|done].
Qed.

Lemma drain_read_inv h T cursor wait row : schedule_inv h T -> 0 <= cursor <= T -> 0 <= row < 16 -> T + 1 < 2 ^ 64 ->
  let '(h', cursor', _) := drain_read (h, cursor, wait) row in
  schedule_inv h' (T + 1) /\ cursor <= cursor' <= T + 1 /\
  nth (Z.to_nat row) (bankReadyCycle_ h) 0 <= cursor' /\
  (forall r, (r < 16)%nat -> nth r (bankReadyCycle_ h) 0 <= nth r (bankReadyCycle_ h') 0).
Proof.
  intros I Hc Hr HT. pose proof (bank_bound h T (Z.to_nat row) I ltac:(lia)) as Hb.
  pose proof (po_next _ _ (sh_read _ _ I)) as Hp. unfold drain_read.
  set (start := Z.max _ _).
  pose proof (port_take_inv (readPort h) start 0 T (T + 1) (sh_read _ _ I) ltac:(lia) ltac:(lia) HT) as S.
  destruct (port_take (readPort h) start 0) as [rp ok]. destruct S as (-> & S & _).
  rewrite (u64_id (start + 1)) by (unfold in_u64; lia). destruct (sh_banks _ _ I) as [L F].
  split; [|split; [lia|split; [lia|]]].
  - split; cbn; [done|eapply port_inv_mono; [apply I|lia]|eapply port_inv_mono; [apply I|lia]| |apply I].
    rewrite length_insert. split; [done|]. apply Forall_insert; [|lia].
    eapply Forall_impl; [exact F|]. cbn. lia.
  - intros r Hr'. cbn [bankReadyCycle_]. destruct (decide (r = Z.to_nat row)) as [->|Hne].
    + rewrite (nth_lookup (<[_ := _]> _)), list_lookup_insert_eq by lia. cbn. lia.
    + rewrite (nth_lookup (<[_ := _]> _)), list_lookup_insert_ne, <- nth_lookup by done. lia.
Qed.

Lemma drain_reads_inv rows : forall h T cursor wait, schedule_inv h T -> 0 <= cursor <= T ->
  Forall (fun row => 0 <= row < 16) rows -> T + Z.of_nat (length rows) < 2 ^ 64 ->
  let '(h', cursor', _) := foldl drain_read (h, cursor, wait) rows in
  schedule_inv h' (T + Z.of_nat (length rows)) /\ cursor <= cursor' <= T + Z.of_nat (length rows) /\
  (forall row, row ∈ rows -> nth (Z.to_nat row) (bankReadyCycle_ h) 0 <= cursor') /\
  (forall r, (r < 16)%nat -> nth r (bankReadyCycle_ h) 0 <= nth r (bankReadyCycle_ h') 0).
Proof.
  induction rows as [|row rows IH]; intros h T cursor wait I Hc F HT.
  - cbn [foldl length]. rewrite Z.add_0_r. split; [done|]. split; [lia|]. split; [|done]. by intros row ?%elem_of_nil.
  - apply Forall_cons in F as [Fr F]. cbn [length] in *. cbn [foldl].
    pose proof (drain_read_inv h T cursor wait row I Hc Fr ltac:(lia)) as S.
    destruct (drain_read (h, cursor, wait) row) as [[h1 c1] w1]. destruct S as (S1 & S2 & S3 & S4).
    specialize (IH h1 (T + 1) c1 w1 S1 ltac:(lia) F ltac:(lia)).
    destruct (foldl drain_read (h1, c1, w1) rows) as [[h2 c2] w2]. destruct IH as (I1 & I2 & I3 & I4).
    replace (T + Z.of_nat (S (length rows))) with (T + 1 + Z.of_nat (length rows)) by lia.
    split; [done|]. split; [lia|]. split.
    + intros r [->|Hin]%elem_of_cons; [lia|]. specialize (I3 r Hin).
      rewrite Forall_forall in F. specialize (F r Hin). specialize (S4 (Z.to_nat r) ltac:(lia)). lia.
    + intros r Hr. specialize (S4 r Hr). specialize (I4 r Hr). lia.
Qed.

Lemma drain_rows_spec : length drain_rows = 128%nat /\ Forall (fun row => 0 <= row < 16) drain_rows /\
  forall r, (r < 16)%nat -> Z.of_nat r ∈ drain_rows.
Proof.
  split; [done|]. split.
  - apply Forall_forall. intros row Hin. unfold drain_rows in Hin.
    apply list_elem_of_In, in_concat in Hin as (l & Hl & Hin). apply in_map_iff in Hl as (k & <- & Hk).
    apply list_elem_of_In, elem_of_seqZ in Hk. apply list_elem_of_In, elem_of_replicate in Hin as [-> _].
    unfold kRows in Hk. lia.
  - intros r Hr. apply list_elem_of_In, in_concat. exists (replicate 8 (Z.of_nat r)). split.
    + apply (in_map (fun row => replicate 8 row)), list_elem_of_In, elem_of_seqZ. unfold kRows. lia.
    + by left.
Qed.

(** ** Runs *)

Inductive o_op :=
| OReserve (slot : Z) (t : AttentionClusterTag) (keyTiles : Z)
| OSegment (slot : Z) (t : AttentionClusterTag) (kv row panel : Z) (alpha : spec_float) (values : list spec_float) (now : Z)
| ORow (slot : Z) (t : AttentionClusterTag) (kv row : Z) (alpha : spec_float) (values : list spec_float) (now : Z)
| ODrain (slot : Z) (t : AttentionClusterTag) (now : Z)
| OProgress (now : Z)
| ORelease (slot : Z) (t : AttentionClusterTag)
| OCancel (gen : Z).

(** The operation, the log it leaves and the completions it returns. *)
Definition o_apply (s : AttentionOAccumulator) (g : o_ghost) (o : o_op) :
    AttentionOAccumulator * o_ghost * list OCompletion :=
  match o with
  | OReserve slot t keyTiles =>
      let (s', ok) := OAccumulator_reserve s slot t keyTiles in
      (s', if ok then ghost_set g slot (keyTiles, []) else g, [])
  | OSegment slot t kv row panel alpha values now =>
      let (s', r) := OAccumulator_submitSegment s slot t kv row panel alpha values now in
      (s', if r then ghost_set g slot ((g (Z.to_nat slot)).1, (g (Z.to_nat slot)).2 ++
             [mkEntry kv (Z.to_nat (row * kPanels + panel)) 1 alpha values]) else g, [])
  | ORow slot t kv row alpha values now =>
      let (s', r) := OAccumulator_submitRow s slot t kv row alpha values now in
      (s', if r then ghost_set g slot ((g (Z.to_nat slot)).1, (g (Z.to_nat slot)).2 ++
             [mkEntry kv (Z.to_nat (row * kPanels)) 8 alpha values]) else g, [])
  | ODrain slot t now => let (s', _) := OAccumulator_requestDrain s slot t now in (s', g, [])
  | OProgress now => let (s', c) := OAccumulator_progress s now in (s', g, c)
  | ORelease slot t => let (s', _) := OAccumulator_release s slot t in (s', g, [])
  | OCancel gen => let (s', _) := OAccumulator_cancelGeneration s gen in (s', g, [])
  end.

(** Arguments are unsigned and the clock stays at or below [limit]. *)
Definition o_op_ok (limit : Z) (o : o_op) : Prop :=
  match o with
  | OReserve slot _ keyTiles => 0 <= slot /\ 0 <= keyTiles
  | OSegment slot _ kv row panel _ _ now => 0 <= slot /\ 0 <= row /\ 0 <= panel /\ 0 <= now <= limit
  | ORow slot _ kv row _ _ now => 0 <= slot /\ 0 <= row /\ 0 <= now <= limit
  | ODrain slot _ now => 0 <= slot /\ 0 <= now <= limit
  | ORelease slot _ => 0 <= slot
  | OProgress _ | OCancel _ => True
  end.

(** Every completion with the log of its context. *)
Fixpoint o_run (s : AttentionOAccumulator) (g : o_ghost) (ops : list o_op) :
    AttentionOAccumulator * list (OCompletion * (Z * list entry)) :=
  match ops with
  | [] => (s, [])
  | o :: ops' =>
      let '(s', g', cs) := o_apply s g o in
      let (s'', l) := o_run s' g' ops' in
      (s'', map (fun c => (c, g' (Z.to_nat (c_slot c)))) cs ++ l)
  end.

Definition o_ghost_new : o_ghost := fun _ => (0, []).

Record o_state_inv (s : AttentionOAccumulator) (g : o_ghost) (T : Z) : Prop := {
  os_inv : o_inv (o_contexts_ s) (pending_ s) g (bankReadyCycle_ (schedule_ s)) (nextId_ s);
  os_schedule : schedule_inv (schedule_ s) T;
  os_id : 0 < nextId_ s }.

Section steps.
Context (s : AttentionOAccumulator) (g : o_ghost) (T : Z).
Hypothesis I : o_state_inv s g T.
Hypothesis HT : 0 <= T /\ T + 128 < 2 ^ 64.
Hypothesis Hid : nextId_ s + 1 < 2 ^ 32.

Definition step_ok (s' : AttentionOAccumulator) (g' : o_ghost) : Prop :=
  o_state_inv s' g' (T + 128) /\ nextId_ s' <= nextId_ s + 1.

Lemma step_same : step_ok s g.
Proof. destruct I as [A B C]. split; [split; [done|eapply schedule_inv_mono; [exact B|lia]|done]|lia]. Qed.

Lemma next_id : nextId_ s ⊞ 1 = nextId_ s + 1.
Proof. pose proof (os_id _ _ _ I). apply u64_id. unfold in_u64. lia. Qed.

(** The shared end of [submitSegment] and [submitRow]. *)
Lemma submit_step slot kv row now c p st h' w :
  0 <= now <= T -> 0 <= slot < 4 -> 0 <= row < 16 ->
  schedule_operation (schedule_ s) kv row now = (h', w) ->
  o_contexts_ s !! Z.to_nat slot = Some c -> o_valid c = true -> o_draining c = false ->
  context_inv c (g (Z.to_nat slot)).2 (map p_entry (slot_pending (Z.to_nat slot) (pending_ s))) ->
  o_keyTiles c = (g (Z.to_nat slot)).1 -> 0 <= o_keyTiles c ->
  p_id p = nextId_ s -> p_slot p = slot -> p_tag p = o_tag c -> p_drain p = false -> p_row p = row -> pending_ok p ->
  p_readyCycle p = w ⊞ 1 -> e_kv (p_entry p) = o_expectedKeyTile c ->
  (forall seg, covers seg (p_entry p) = true -> nth seg (o_segmentState c) 0 = 0) ->
  step_ok
    (mkOAccumulator (nextId_ s ⊞ 1) h'
       (<[Z.to_nat slot := o_with_states c (o_set_states c (e_seg (p_entry p)) (e_n (p_entry p)) 1)]> (o_contexts_ s))
       (map_emplace (nextId_ s) p (pending_ s)) (occupied_ s) (highWater_ s) st)
    (ghost_set g slot ((g (Z.to_nat slot)).1, (g (Z.to_nat slot)).2 ++ [p_entry p])).
Proof.
  intros Hn Hs Hr Eh Hc V D J Kt K0 Pid Psl Pt Pd Prow Pok Pr Hkv H0. destruct I as [Iv Is Ii].
  pose proof (schedule_operation_inv (schedule_ s) T kv row now Is Hn Hr ltac:(lia)) as S. rewrite Eh in S.
  destruct S as (S1 & S2 & S3 & S4 & S5). rewrite (u64_id (w + 1)) in Pr by (unfold in_u64; lia).
  rewrite next_id, (emplace_next _ _ _ _ _ Iv). split; [|cbn; lia]. split; cbn.
  - apply (o_inv_submit _ _ _ _ _ Iv slot c p (w + 1)); try done; rewrite ?Prow; try done; [|lia].
    apply (sh_banks _ _ Is).
  - eapply schedule_inv_mono; [exact S1|lia].
  - lia.
Qed.

Lemma submitSegment_step slot t kv row panel alpha values now : 0 <= slot -> 0 <= row -> 0 <= panel -> 0 <= now <= T ->
  let '(s', g', _) := o_apply s g (OSegment slot t kv row panel alpha values now) in step_ok s' g'.
Proof.
  intros Hs Hr Hp Hn. cbn [o_apply]. unfold OAccumulator_submitSegment, OAccumulator_matches, o_context_at.
  case_if; [apply step_same|]. case_if; [apply step_same|]. boolify. unfold kRows, kPanels, kValuesPerSegment in *.
  destruct (matches_context _ _ _ _ _ (os_inv _ _ _ I) slot t Hs) as (Hs4 & Hc & V & Tg & J & Kt & K0 & _); [done|].
  set (c := nth (Z.to_nat slot) (o_contexts_ s) OContext_empty) in *.
  destruct (schedule_operation (schedule_ s) kv row now) as [h' w] eqn:Eh. cbn [is_Some].
  set (p := mkOPending _ _ _ _ _ _ _ _ _ _ _ _).
  apply (submit_step slot kv row now c p _ h' w); try done; try lia.
  - unfold p. split; [cbn; lia|]. cbn. unfold kPanels. split; [lia|lia].
  - intros seg Hseg. unfold covers, p in Hseg. cbn [p_entry e_seg e_n p_rowFused p_row p_panel] in Hseg.
    apply andb_true_iff in Hseg as [Hlo%Nat.leb_le Hhi%Nat.ltb_lt].
    assert (seg = Z.to_nat (row * 8 + panel)) as -> by (unfold kPanels in *; lia). done.
Qed.

Lemma submitRow_step slot t kv row alpha values now : 0 <= slot -> 0 <= row -> 0 <= now <= T ->
  let '(s', g', _) := o_apply s g (ORow slot t kv row alpha values now) in step_ok s' g'.
Proof.
  intros Hs Hr Hn. cbn [o_apply]. unfold OAccumulator_submitRow, OAccumulator_matches, o_context_at.
  case_if; [apply step_same|]. case_if; [apply step_same|]. boolify. unfold kRows, kRowFmaLanes in *.
  destruct (matches_context _ _ _ _ _ (os_inv _ _ _ I) slot t Hs) as (Hs4 & Hc & V & Tg & J & Kt & K0 & _); [done|].
  set (c := nth (Z.to_nat slot) (o_contexts_ s) OContext_empty) in *.
  destruct (schedule_operation (schedule_ s) kv row now) as [h' w] eqn:Eh.
  set (p := mkOPending _ _ _ _ _ _ _ _ _ _ _ _).
  replace (Z.to_nat (row * kPanels)) with (e_seg (p_entry p)) by (unfold p; cbn; f_equal; lia).
  change [mkEntry kv (e_seg (p_entry p)) 8 alpha values] with [p_entry p].
  apply (submit_step slot kv row now c p _ h' w); try done; try lia.
  - unfold p. cbn. split; [cbn; lia|]. cbn. unfold kPanels. split; [lia|lia].
  - intros seg Hseg. unfold covers, p in Hseg. cbn [p_entry e_seg e_n p_rowFused p_row p_panel] in Hseg.
    apply andb_true_iff in Hseg as [Hlo%Nat.leb_le Hhi%Nat.ltb_lt].
    pose proof (xi_states _ _ _ J) as Ls.
    match goal with H : existsb _ _ = false |- _ => rename H into Hex end.
    destruct (Z.eqb_spec (nth seg (o_segmentState c) 0) 0) as [|Hne]; [done|]. exfalso.
    apply not_true_iff_false in Hex. apply Hex, existsb_exists. exists (nth seg (o_segmentState c) 0).
    split; [|by apply negb_true_iff, Z.eqb_neq].
    apply list_elem_of_In, list_elem_of_lookup. unfold kPanels in *.
    exists (seg - Z.to_nat (row * 8))%nat. rewrite lookup_take_lt by lia. rewrite lookup_drop.
    replace (Z.to_nat (row * 8) + (seg - Z.to_nat (row * 8)))%nat with seg by lia.
    destruct (lookup_lt_is_Some_2 (o_segmentState c) seg) as [x Hx]; [rewrite Ls; lia|].
    by rewrite nth_lookup, Hx.
Qed.

Lemma drain_step slot t now : 0 <= slot -> 0 <= now <= T ->
  let '(s', g', _) := o_apply s g (ODrain slot t now) in step_ok s' g'.
Proof.
  intros Hs Hn. cbn [o_apply]. unfold OAccumulator_requestDrain, OAccumulator_matches, o_context_at.
  case_if; [apply step_same|]. case_if; [apply step_same|]. boolify.
  destruct (matches_context _ _ _ _ _ (os_inv _ _ _ I) slot t Hs) as (Hs4 & Hc & V & Tg & J & Kt & K0 & _); [done|].
  set (c := nth (Z.to_nat slot) (o_contexts_ s) OContext_empty) in *.
  destruct drain_rows_spec as (L & F & Hall).
  pose proof (drain_reads_inv drain_rows (schedule_ s) T now (drainWaitCycles_ (o_stats_ s)) (os_schedule _ _ _ I) Hn F) as S.
  rewrite L in S. specialize (S ltac:(lia)).
  destruct (foldl drain_read _ drain_rows) as [[h' cursor] wait]. destruct S as (S1 & S2 & S3 & S4).
  rewrite next_id, (emplace_next _ _ _ _ _ (os_inv _ _ _ I)). split; [|cbn; lia]. split; cbn [o_contexts_ pending_ schedule_ nextId_].
  - apply (o_inv_drain _ _ _ _ _ (os_inv _ _ _ I)); try done; [lia|].
    cbn [p_readyCycle]. intros r Hr. specialize (S3 (Z.of_nat r) (Hall r Hr)). by rewrite Nat2Z.id in S3.
  - done.
  - pose proof (os_id _ _ _ I). lia.
Qed.

Lemma reserve_step slot t keyTiles : 0 <= slot -> 0 <= keyTiles ->
  let '(s', g', _) := o_apply s g (OReserve slot t keyTiles) in step_ok s' g'.
Proof.
  intros Hs Hk. cbn [o_apply]. unfold OAccumulator_reserve, o_context_at, kContexts.
  case_if; [apply step_same|]. boolify. pose proof step_same as [[A B C] _].
  destruct (lookup_lt_is_Some_2 (o_contexts_ s) (Z.to_nat slot)) as [c Hc]; [rewrite (gi_length _ _ _ _ _ A); lia|].
  rewrite nth_lookup, Hc in *. cbn [default from_option] in *. unfold Datatypes.id in *.
  split; [|cbn; lia]. split; cbn; [|done|done]. apply o_inv_reserve; try done; lia.
Qed.

Lemma release_step slot t : 0 <= slot ->
  let '(s', g', _) := o_apply s g (ORelease slot t) in step_ok s' g'.
Proof.
  intros Hs. cbn [o_apply]. unfold OAccumulator_release, OAccumulator_matches, o_context_at.
  case_if; [apply step_same|]. boolify. pose proof step_same as [[A B C] _].
  destruct (matches_context _ _ _ _ _ A slot t Hs) as (Hs4 & Hc & V & Tg & _); [done|].
  split; [|cbn; lia]. split; cbn; [|done|done]. apply (o_inv_release _ _ _ _ _ A slot _ ltac:(lia) Hc).
  intros [k p] Hin E. cbn in E. destruct (gi_pending _ _ _ _ _ A k p Hin) as (_ & _ & Hp & (y & Y1 & _ & Y3 & _) & _).
  rewrite E, Hc in Y1. injection Y1 as <-. unfold OAccumulator_hasPending in *.
  match goal with H : existsb _ _ = false |- _ => apply not_true_iff_false in H; apply H end.
  apply existsb_exists. exists (k, p). split; [by apply list_elem_of_In|]. cbn. rewrite <- Y3, Tg, tag_eqb_refl, andb_true_r.
  apply Z.eqb_eq. lia.
Qed.

Lemma o_apply_inv o : o_op_ok T o ->
  let '(s', g', cs) := o_apply s g o in step_ok s' g' /\ Forall (completion_correct g') cs.
Proof.
  intros Hok. destruct o; cbn [o_op_ok] in Hok.
  - pose proof (reserve_step slot t keyTiles) as S. destruct (o_apply _ _ _) as [[s' g'] cs] eqn:E.
    cbn in E. destruct (OAccumulator_reserve _ _ _ _). injection E as <- <- <-. split; [apply S; tauto|constructor].
  - pose proof (submitSegment_step slot t kv row panel alpha values now) as S. destruct (o_apply _ _ _) as [[s' g'] cs] eqn:E.
    cbn in E. destruct (OAccumulator_submitSegment _ _ _ _ _ _ _ _ _). injection E as <- <- <-. split; [apply S; tauto|constructor].
  - pose proof (submitRow_step slot t kv row alpha values now) as S. destruct (o_apply _ _ _) as [[s' g'] cs] eqn:E.
    cbn in E. destruct (OAccumulator_submitRow _ _ _ _ _ _ _ _). injection E as <- <- <-. split; [apply S; tauto|constructor].
  - pose proof (drain_step slot t now) as S. destruct (o_apply _ _ _) as [[s' g'] cs] eqn:E.
    cbn in E. destruct (OAccumulator_requestDrain _ _ _ _). injection E as <- <- <-. split; [apply S; tauto|constructor].
  - cbn [o_apply]. unfold OAccumulator_progress. pose proof step_same as [[A B C] _].
    pose proof (progress_loop_inv g _ (nextId_ s) now (pending_ s) ltac:(lia) [] (o_contexts_ s) A ltac:(constructor)) as P.
    destruct (progress_loop _ _ _) as [[cs' kept] dn]. destruct P as [P1 P2].
    split; [|done]. split; [|cbn; lia]. by split.
  - pose proof (release_step slot t) as S. destruct (o_apply _ _ _) as [[s' g'] cs] eqn:E.
    cbn in E. destruct (OAccumulator_release _ _ _). injection E as <- <- <-. split; [apply S; tauto|constructor].
  - cbn [o_apply OAccumulator_cancelGeneration]. pose proof step_same as [[A B C] _].
    split; [|constructor]. split; [|cbn; lia]. split; cbn; [|done|done]. by apply o_inv_cancel.
Qed.
End steps.

Lemma o_state_inv_new : o_state_inv OAccumulator_new o_ghost_new 0.
Proof.
  split; cbn; [| |lia].
  - split; cbn; try done.
    + intros i c Hc. apply (list_elem_of_lookup_2 (replicate 4 OContext_empty)) in Hc.
      assert (c = OContext_empty) as -> by (cbn in Hc; rewrite !elem_of_cons, elem_of_nil in Hc; tauto). done.
    + by intros k p ?%elem_of_nil.
    + constructor.
    + by intros d p ?%elem_of_nil.
  - assert (P : port_inv OPort_new 0) by (split; cbn; try done; lia).
    split; try done. split; [done|]. cbn. repeat constructor; lia.
Qed.

Lemma o_run_inv ops : forall s g T, o_state_inv s g T -> 0 <= T -> Forall (o_op_ok T) ops ->
  T + 128 * Z.of_nat (length ops) < 2 ^ 64 -> nextId_ s + Z.of_nat (length ops) < 2 ^ 32 ->
  Forall (fun x => c_ok x.1 = true /\ (c_drain x.1 = true -> c_values x.1 = o_value x.2.2 /\ tiles_complete x.2.1 x.2.2))
    (o_run s g ops).2 /\
  schedule_inv (schedule_ (o_run s g ops).1) (T + 128 * Z.of_nat (length ops)).
Proof.
  induction ops as [|o ops IH]; intros s g T I H0 Hok HT Hid.
  - cbn. rewrite Z.add_0_r. split; [constructor|apply I].
  - apply Forall_cons in Hok as [Ho Hok]. cbn [length] in *. cbn [o_run].
    pose proof (o_apply_inv s g T I ltac:(lia) ltac:(lia) o Ho) as S.
    destruct (o_apply s g o) as [[s' g'] cs]. destruct S as [[S1 S2] S3].
    assert (Hok' : Forall (o_op_ok (T + 128)) ops).
    { eapply Forall_impl; [exact Hok|]. intros []; cbn; lia. }
    destruct (IH s' g' (T + 128) S1 ltac:(lia) Hok' ltac:(lia) ltac:(lia)) as [J1 J2].
    destruct (o_run s' g' ops) as [s'' l]. cbn [fst snd] in *. split.
    + apply Forall_app. split; [|done]. apply Forall_fmap. exact S3.
    + replace (T + 128 * Z.of_nat (S (length ops))) with (T + 128 + 128 * Z.of_nat (length ops)) by lia. done.
Qed.

(** C6: the accumulator computes O.  In every run of reservations, segment and row
    submissions, drains, releases and cancellations on the four contexts, in any
    interleaving and with any clock, every operation that completes is accepted ([ok],
    never a stale context or key tile), and a drain returns for every segment the fold
    of all its accepted submissions in order: the first key tile's values, then one
    fused multiply-add [alpha * O + values] per tile; when no submission went beyond
    the context's key tiles, every segment received each of them exactly once. *)
Theorem o_accumulator_correct (limit : Z) (ops : list o_op) :
  0 <= limit -> Forall (o_op_ok limit) ops ->
  limit + 128 * Z.of_nat (length ops) < 2 ^ 64 -> Z.of_nat (length ops) + 1 < 2 ^ 32 ->
  Forall (fun '(c, (keyTiles, log)) =>
            c_ok c = true /\
            (c_drain c = true -> c_values c = o_value log /\ tiles_complete keyTiles log))
    (o_run OAccumulator_new o_ghost_new ops).2.
Proof.
  intros H0 Hok HT Hn.
  assert (I : o_state_inv OAccumulator_new o_ghost_new limit).
  { destruct o_state_inv_new as [A B C]. split; [done| |done]. eapply schedule_inv_mono; [exact B|lia]. }
  destruct (o_run_inv ops _ _ limit I H0 Hok HT) as [F _]; [cbn; lia|].
  eapply Forall_impl; [exact F|]. by intros [c [kt log]].
Qed.

(** C35: the shared ports are exclusive.  After any such run each of the read, ALU and
    write ports was busy one cycle per operation it served and never served two at
    once, so the accounting never reports an order violation. *)
Theorem o_ports_exclusive (limit : Z) (ops : list o_op) :
  0 <= limit -> Forall (o_op_ok limit) ops ->
  limit + 128 * Z.of_nat (length ops) < 2 ^ 64 -> Z.of_nat (length ops) + 1 < 2 ^ 32 ->
  let h := schedule_ (o_run OAccumulator_new o_ghost_new ops).1 in
  intervalOrderValid_ h = true /\
  Forall (fun p => Busy.maxConcurrency_ (intervals p) <= 1 /\
                   Busy.unionCycles_ (intervals p) = Busy.operations_ (intervals p))
    [readPort h; aluPort h; writePort h].
Proof.
  intros H0 Hok HT Hn h.
  assert (I : o_state_inv OAccumulator_new o_ghost_new limit).
  { destruct o_state_inv_new as [A B C]. split; [done| |done]. eapply schedule_inv_mono; [exact B|lia]. }
  destruct (o_run_inv ops _ _ limit I H0 Hok HT) as [_ S]; [cbn; lia|]. fold h in S. destruct S as [A B C _ E].
  split; [done|]. repeat constructor; (apply A || apply B || apply C).
Qed.

Definition ex_o_tag : AttentionClusterTag := mkTag 3 1 0 0 0 0 0.
(** One key tile in sixteen rows, then the drain. *)
Definition ex_o_ops : list o_op :=
  OReserve 1 ex_o_tag 1 ::
  map (fun row => ORow 1 ex_o_tag 0 row f_one (replicate 128 f_one) 0) (seqZ 0 16) ++
  [OProgress 900; ODrain 1 ex_o_tag 900; OProgress 2000; ORelease 1 ex_o_tag].

Lemma ex_o_ops_ok : Forall (o_op_ok 900) ex_o_ops.
Proof. repeat constructor; discriminate. Qed.

Lemma o_accumulator_correct_witness :
  Forall (fun '(c, (keyTiles, log)) =>
            c_ok c = true /\ (c_drain c = true -> c_values c = o_value log /\ tiles_complete keyTiles log))
    (o_run OAccumulator_new o_ghost_new ex_o_ops).2 /\
  map (fun x => c_drain x.1) (o_run OAccumulator_new o_ghost_new ex_o_ops).2 = replicate 16 false ++ [true].
Proof.
  split; [|vm_compute; reflexivity].
  apply (o_accumulator_correct 900 ex_o_ops); [discriminate|exact ex_o_ops_ok|reflexivity|reflexivity].
Defined.

Lemma o_ports_exclusive_witness :
  intervalOrderValid_ (schedule_ (o_run OAccumulator_new o_ghost_new ex_o_ops).1) = true.
Proof.
  apply (o_ports_exclusive 900 ex_o_ops); [discriminate|exact ex_o_ops_ok|reflexivity|reflexivity].
Defined.
