(* ===== verification/MemoryLayout.v ===== *)
(** * The decoder's memory layout
      ([src/src/sst/elements/golem/attention/decoderMemoryLayout.h])

    One bump allocator places every tensor of a run in a node's HBM; a second set of
    constants divides a worker's on-chip GM.  [alloc] is a state monad over the bytes
    used and the regions handed out. *)

From Stdlib Require Import ZArith Lia String Sorted.
From stdpp Require Import base numbers list strings.
From S2P Require Import Prelude.
Open Scope Z_scope.

Record DecoderLayerMemory := mkLayerMemory {
  l_input : Z; l_output : Z; l_gamma1 : Z; l_gamma2 : Z; l_qkv_weight : Z;
  l_wo_weight : Z; l_gate_weight : Z; l_up_weight : Z; l_down_weight : Z }.

Record DecoderMemoryRegion := mkRegion { region_name : string; region_layer : Z; region_offset : Z; region_bytes : Z }.

(** ** The GM constants *)

Definition node_stride : Z := 0x08000000.
Definition gm_stride : Z := 0x00200000.
Definition projection_release : Z := 0x1008.
Definition decoder_release : Z := 0x1010.
Definition layer_release : Z := 0x1018.
Definition final_norm_release : Z := 0x1020.
Definition lm_head_release : Z := 0x1028.
Definition embedding_release : Z := 0x1030.
Definition topology : Z := 0x1100.
Definition attention_descriptor : Z := 0x2000.
Definition gm_descriptor : Z := 0x3000.
Definition projection_scratch : Z := 0x8000.
Definition decoder_input_gm : Z := 0x10000.
Definition decoder_weight_gm : Z := 0x110000.
Definition decoder_epilogue_gm : Z := decoder_input_gm + 64 * 2048 * 2.
Definition decoder_shared_weight_gm : Z := decoder_input_gm + 0x60000.
Definition decoder_pipeline_producer_c_gm : Z := 0x80000.
Definition decoder_pipeline_down_c_gm : Z := 0x90000.
Definition decoder_norm_handoff_gm : Z := 0xb0000.
Definition decoder_norm_handoff_bytes : Z := 64 * 2048 * 2.
Definition decoder_pv_wo_landing_gm : Z := 0x1a0000.
Definition decoder_pv_wo_landing_bytes : Z := 64 * 2048 * 2.
Definition decoder_pv_wo_weight_gm : Z := decoder_input_gm.
Definition decoder_pv_wo_weight_bytes : Z := 4 * 8192.
Definition decoder_wo_handoff_gm : Z := 0x70000.
Definition decoder_wo_handoff_bytes : Z := 64 * 2048 * 2.
Definition decoder_output_gm : Z := 0x112000.
Definition decoder_panel_bytes : Z := 64 * 1024 * 2.
Definition decoder_prefetch_slots : Z := 8.
Definition decoder_prefetch_gm : Z := decoder_output_gm + 2 * decoder_panel_bytes.
Definition decoder_ffn_up_gm : Z := decoder_prefetch_gm + decoder_prefetch_slots * 8192.
Definition decoder_required_gm : Z := decoder_ffn_up_gm + 2 * decoder_panel_bytes.
Definition decoder_down_weight_gm : Z := decoder_required_gm.
Definition decoder_down_output_gm : Z := decoder_down_weight_gm + decoder_prefetch_slots * 8192.
Definition decoder_down_required_gm : Z := decoder_down_output_gm + 2 * decoder_panel_bytes.

(** The source's [static_assert]s. *)
Lemma gm_static_asserts :
  decoder_epilogue_gm + 8192 <= decoder_weight_gm /\
  decoder_epilogue_gm + 8192 <= decoder_shared_weight_gm /\
  decoder_shared_weight_gm + 8 * 8192 <= decoder_weight_gm /\
  decoder_pv_wo_weight_gm + decoder_pv_wo_weight_bytes <= decoder_pv_wo_landing_gm /\
  decoder_pv_wo_landing_gm + decoder_pv_wo_landing_bytes <= gm_stride /\
  decoder_wo_handoff_gm + decoder_wo_handoff_bytes = decoder_norm_handoff_gm /\
  decoder_pipeline_down_c_gm + 4 * 64 * 256 <= decoder_norm_handoff_gm /\
  decoder_norm_handoff_gm + decoder_norm_handoff_bytes <= decoder_weight_gm /\
  decoder_shared_weight_gm + 8 * 8192 <= decoder_pipeline_producer_c_gm /\
  decoder_pipeline_producer_c_gm + 4 * 64 * 256 <= decoder_pipeline_down_c_gm /\
  decoder_pipeline_down_c_gm + 4 * 64 * 256 <= decoder_weight_gm /\
  decoder_down_required_gm <= gm_stride /\ decoder_required_gm <= gm_stride.
Proof. repeat split; (discriminate || reflexivity). Qed.

(** ** The allocator *)

Record AllocState := mkAlloc { used_bytes : Z; s_regions : list DecoderMemoryRegion }.
Definition Alloc (A : Type) : Type := AllocState -> A * AllocState.
Definition aret {A} (a : A) : Alloc A := fun s => (a, s).
Definition abind {A B} (m : Alloc A) (f : A -> Alloc B) : Alloc B := fun s => let (a, s') := m s in f a s'.
Notation "'let*' x := e 'in' k" := (abind e (fun x => k))
  (at level 200, x name, e at level 100, k at level 200) : golem_scope.

(** [(used_bytes + 4095) & ~4095]. *)
Definition align_page (x : Z) : Z := Z.land (x ⊞ 4095) (2 ^ 64 - 1 - 4095).

Definition alloc (nm : string) (b : Z) (l : Z) : Alloc Z := fun s =>
  let off := align_page (used_bytes s) in
  (off, mkAlloc (off ⊞ b) (s_regions s ++ [mkRegion nm l off b])).

Record Shared := mkShared {
  m_activation0 : Z; m_activation1 : Z; m_projection_done : Z; m_decoder_done : Z; m_norm1 : Z; m_q : Z; m_k : Z; m_v : Z; m_o : Z;
  m_q_panel : Z; m_k_panel : Z; m_v_panel : Z; m_rope : Z; m_wo : Z; m_h1 : Z; m_norm2 : Z; m_gate : Z; m_up : Z; m_act : Z;
  m_gated : Z; m_down : Z }.

Record DecoderMemoryLayout := mkLayout {
  hbm_node_stride : Z; m_vocab : Z; m_sequence : Z;
  m_shared : Shared;
  m_layers : list DecoderLayerMemory;
  m_final_gamma : Z; m_final_output : Z; m_final_done : Z;
  m_lm_weight : Z; m_lm_output : Z; m_lm_done : Z;
  m_embedding_tokens : Z; m_embedding_weight : Z; m_embedding_output : Z; m_embedding_done : Z;
  m_used_bytes : Z; m_regions : list DecoderMemoryRegion; m_valid : bool }.

(** Every offset starts at zero. *)
Definition no_shared : Shared := mkShared 0 0 0 0 0 0 0 0 0 0 0 0 0 0 0 0 0 0 0 0 0.

Definition layout_rejected (node_bytes vocab sequence : Z) : DecoderMemoryLayout :=
  mkLayout node_bytes vocab sequence no_shared [] 0 0 0 0 0 0 0 0 0 0 0 [] false.

(** The tensors every layer shares. *)
Definition alloc_shared (sequence dim qbytes kvbytes : Z) : Alloc Shared :=
  let* a0 := alloc "activation0" qbytes 0 in
  let* a1 := alloc "activation1" qbytes 0 in
  let* pd := alloc "projection_done" 32 0 in
  let* dd := alloc "decoder_done" 32 0 in
  let* n1 := alloc "norm1" qbytes 0 in
  let* q_ := alloc "q" qbytes 0 in
  let* k_ := alloc "k" kvbytes 0 in
  let* v_ := alloc "v" kvbytes 0 in
  let* o_ := alloc "o" qbytes 0 in
  let* qp := alloc "q_panel" qbytes 0 in
  let* kp := alloc "k_panel" kvbytes 0 in
  let* vp := alloc "v_panel" kvbytes 0 in
  let* r := alloc "rope" (sequence ⊠ dim ⊠ 2) 0 in
  let* w := alloc "wo" qbytes 0 in
  let* h := alloc "h1" qbytes 0 in
  let* n2 := alloc "norm2" qbytes 0 in
  let* g := alloc "gate" (4 ⊠ qbytes) 0 in
  let* u := alloc "up" (4 ⊠ qbytes) 0 in
  let* a := alloc "act" (4 ⊠ qbytes) 0 in
  let* gd := alloc "gated" (4 ⊠ qbytes) 0 in
  let* d := alloc "down" qbytes 0 in
  aret (mkShared a0 a1 pd dd n1 q_ k_ v_ o_ qp kp vp r w h n2 g u a gd d).

(** The weights of layer [l], the same on every layer. *)
Definition alloc_weights (hq hkv dim hidden intermediate l inp out : Z) : Alloc DecoderLayerMemory :=
  let* g1 := alloc "gamma1" (hidden ⊠ 2) (l + 1) in
  let* g2 := alloc "gamma2" (hidden ⊠ 2) (l + 1) in
  let* qkv := alloc "qkv_weight" (u32 (u32 (hq + u32 (2 * hkv)) * dim) ⊠ hidden ⊠ 2) (l + 1) in
  let* w := alloc "wo_weight" ((hidden ⊠ hidden ⊠ 2) / 4) (l + 1) in
  let* ga := alloc "gate_weight" ((intermediate ⊠ hidden ⊠ 2) / 4) (l + 1) in
  let* u := alloc "up_weight" ((intermediate ⊠ hidden ⊠ 2) / 4) (l + 1) in
  let* d := alloc "down_weight" ((hidden ⊠ intermediate ⊠ 2) / 4) (l + 1) in
  aret (mkLayerMemory inp out g1 g2 qkv w ga u d).

(** One iteration of the layer loop; [prev] is [m.layers.back().output]. *)
Definition alloc_layer (sh : Shared) (retain : bool) (hq hkv dim hidden intermediate qbytes : Z)
    (l prev : Z) : Alloc DecoderLayerMemory :=
  let inp := if retain && negb (l =? 0) then prev
             else if l mod 2 =? 0 then m_activation0 sh else m_activation1 sh in
  let* out := if retain && negb (l =? 0) then alloc "retained_output" qbytes (l + 1)
              else aret (if (l + 1) mod 2 =? 0 then m_activation0 sh else m_activation1 sh) in
  alloc_weights hq hkv dim hidden intermediate l inp out.

Fixpoint alloc_layers (sh : Shared) (retain : bool) (hq hkv dim hidden intermediate qbytes : Z)
    (l prev : Z) (n : nat) : Alloc (list DecoderLayerMemory) :=
  match n with
  | O => aret []
  | S n' =>
      let* x := alloc_layer sh retain hq hkv dim hidden intermediate qbytes l prev in
      let* rest := alloc_layers sh retain hq hkv dim hidden intermediate qbytes (l + 1) (l_output x) n' in
      aret (x :: rest)
  end.

Definition alloc_final (final_norm : bool) (hidden qbytes : Z) : Alloc (Z * Z * Z) :=
  if final_norm then
    let* a := alloc "final_gamma" (hidden ⊠ 2) 0 in
    let* b := alloc "final_output" qbytes 0 in
    let* c := alloc "final_done" 32 0 in
    aret (a, b, c)
  else aret (0, 0, 0).

Definition alloc_vocab (vocab hidden : Z) : Alloc (Z * Z * Z) :=
  if negb (vocab =? 0) then
    let tiles := (vocab ⊞ 63) / 64 in
    let* a := alloc "lm_weight" ((tiles ⊞ 3) / 4 ⊠ hidden ⊠ 64 ⊠ 2) 0 in
    let* b := alloc "lm_output" ((vocab ⊞ 63) / 64 ⊠ 64 ⊠ 2) 0 in
    let* c := alloc "lm_done" 32 0 in
    aret (a, b, c)
  else aret (0, 0, 0).

Definition alloc_embedding (embedding : bool) (sequence vocab hidden qbytes : Z) : Alloc (Z * Z * Z * Z) :=
  if embedding then
    let* a := alloc "embedding_tokens" (sequence / 4 ⊠ 4) 0 in
    let* b := alloc "embedding_weight" ((vocab ⊞ 3) / 4 ⊠ hidden ⊠ 2) 0 in
    let* c := alloc "embedding_output" qbytes 0 in
    let* d := alloc "embedding_done" 32 0 in
    aret (a, b, c, d)
  else aret (0, 0, 0, 0).

(** [m.layers.front().input = m.embedding_output]. *)
Definition front_input (embedding : bool) (x : Z) (ls : list DecoderLayerMemory) : list DecoderLayerMemory :=
  match ls with
  | l :: ls' =>
      if embedding
      then mkLayerMemory x (l_output l) (l_gamma1 l) (l_gamma2 l) (l_qkv_weight l) (l_wo_weight l) (l_gate_weight l)
             (l_up_weight l) (l_down_weight l) :: ls'
      else ls
  | [] => []
  end.

(** The guard: true when the arguments are refused. *)
Definition layout_refused (sequence hq hkv dim count : Z) (final_norm : bool) (vocab node_bytes : Z)
    (embedding : bool) : bool :=
  let hidden := hq ⊠ dim in
  (sequence =? 0) || negb (sequence mod 1024 =? 0) || (8192 <? sequence) || negb (dim =? 64) ||
  (negb (hidden =? 256) && negb (hidden =? 2048)) ||
  (hkv =? 0) || negb (hq mod hkv =? 0) || (count =? 0) || (32 <? count) || (negb (vocab =? 0) && negb final_norm) ||
  (embedding && (vocab =? 0)) || (1048576 <? vocab) ||
  (node_bytes <? node_stride) || negb (Z.land node_bytes (node_bytes ⊟ 1) =? 0).

Definition alloc_all (sequence hq hkv dim count : Z) (final_norm : bool) (vocab node_bytes : Z)
    (embedding retain_outputs : bool) : Alloc DecoderMemoryLayout := fun s0 =>
  let hidden := hq ⊠ dim in
  let intermediate := 4 ⊠ hidden in
  let qbytes := sequence / 4 ⊠ hidden ⊠ 2 in
  let kvbytes := sequence / 4 ⊠ hkv ⊠ dim ⊠ 2 in
  let (sh, s1) := alloc_shared sequence dim qbytes kvbytes s0 in
  let (ls, s2) := alloc_layers sh retain_outputs hq hkv dim hidden intermediate qbytes 0 0 (Z.to_nat count) s1 in
  let '((fg, fo, fd), s3) := alloc_final final_norm hidden qbytes s2 in
  let '((lw, lo, ld), s4) := alloc_vocab vocab hidden s3 in
  let '((et, ew, eo, ed), s5) := alloc_embedding embedding sequence vocab hidden qbytes s4 in
  (mkLayout node_bytes vocab sequence sh (front_input embedding eo ls) fg fo fd lw lo ld et ew eo ed
     (used_bytes s5) (s_regions s5) (used_bytes s5 <=? node_bytes), s5).

Definition makeDecoderMemoryLayout (sequence hq hkv dim count : Z) (final_norm : bool) (vocab node_bytes : Z)
    (embedding retain_outputs : bool) : DecoderMemoryLayout :=
  if layout_refused sequence hq hkv dim count final_norm vocab node_bytes embedding
  then layout_rejected node_bytes vocab sequence
  else (alloc_all sequence hq hkv dim count final_norm vocab node_bytes embedding retain_outputs (mkAlloc 0 [])).1.

(** ** The allocator is well behaved *)

Definition before (a b : DecoderMemoryRegion) : Prop := region_offset a + region_bytes a <= region_offset b.

Record alloc_inv (s : AllocState) : Prop := {
  ai_used : 0 <= used_bytes s <= Z.of_nat (length (s_regions s)) * 2 ^ 41;
  ai_sorted : StronglySorted before (s_regions s);
  ai_regions : Forall (fun r => 0 <= region_offset r /\ region_offset r mod 4096 = 0 /\ 0 <= region_bytes r /\
                 region_offset r + region_bytes r <= used_bytes s) (s_regions s) }.

Lemma align_page_spec x : 0 <= x < 2 ^ 63 -> align_page x = (x + 4095) / 4096 * 4096.
Proof.
  intros H. unfold align_page. rewrite u64_id by (unfold in_u64; lia).
  change (2 ^ 64 - 1 - 4095) with (Z.shiftl (Z.ones 52) 12). set (y := x + 4095).
  change 4096 with (2 ^ 12). rewrite <- Z.shiftr_div_pow2, <- Z.shiftl_mul_pow2 by lia.
  apply Z.bits_inj'. intros i Hi. rewrite Z.land_spec, !Z.shiftl_spec by lia.
  destruct (Z.lt_ge_cases i 12) as [Hlt|Hge].
  - rewrite !(Z.testbit_neg_r _ (i - 12)) by lia. by rewrite andb_false_r.
  - rewrite Z.shiftr_spec by lia. replace (i - 12 + 12) with i by lia.
    destruct (Z.lt_ge_cases (i - 12) 52).
    + rewrite Z.ones_spec_low by lia. by rewrite andb_true_r.
    + rewrite Z.ones_spec_high by lia. rewrite (testbit_above y 64 i) by lia. done.
Qed.

(** [m] makes at most [n] allocations and keeps the allocator well formed. *)
Definition allocates {A} (m : Alloc A) (n : nat) : Prop := forall s,
  alloc_inv s -> Z.of_nat (length (s_regions s) + n) <= 2 ^ 20 ->
  let (_, s') := m s in
  alloc_inv s' /\ (length (s_regions s) <= length (s_regions s') <= length (s_regions s) + n)%nat /\
  used_bytes s <= used_bytes s'.

Lemma alloc_spec nm b l s : alloc_inv s -> 0 <= b <= 2 ^ 40 -> Z.of_nat (length (s_regions s)) < 2 ^ 20 ->
  let (off, s') := alloc nm b l s in
  alloc_inv s' /\ length (s_regions s') = S (length (s_regions s)) /\
  used_bytes s <= off /\ off mod 4096 = 0 /\ used_bytes s' = off + b.
Proof.
  intros [[U0 U1] So Re] Hb Hn. unfold alloc. cbv zeta. cbn [used_bytes s_regions].
  assert (Hu : used_bytes s < 2 ^ 62) by nia.
  rewrite align_page_spec by lia. set (off := (used_bytes s + 4095) / 4096 * 4096).
  assert (Hoff : used_bytes s <= off <= used_bytes s + 4095).
  { pose proof (Z.div_mod (used_bytes s + 4095) 4096 ltac:(lia)).
    pose proof (Z.mod_pos_bound (used_bytes s + 4095) 4096 ltac:(lia)). lia. }
  assert (Ho : off mod 4096 = 0) by (apply Z.mod_mul; lia).
  rewrite u64_id by (unfold in_u64; lia).
  split; [|rewrite length_app; cbn [length]; split; [lia|split; [lia|split; [done|done]]]].
  split; cbn [used_bytes s_regions].
  - rewrite length_app. cbn [length]. lia.
  - clear Hu Hn U1 Hb. induction So as [|r rs S IH F]; cbn [app]; [repeat constructor|].
    apply Forall_cons in Re as [Rr Re]. constructor; [by apply IH|]. apply Forall_app. split; [done|].
    apply Forall_singleton. unfold before. cbn. lia.
  - apply Forall_app. split; [|apply Forall_singleton; cbn; lia].
    eapply Forall_impl; [exact Re|]. cbn. intros r Hr. lia.
Qed.

Lemma allocates_alloc nm b l : 0 <= b <= 2 ^ 40 -> allocates (alloc nm b l) 1.
Proof.
  intros Hb s I Hn. pose proof (alloc_spec nm b l s I Hb ltac:(lia)) as H. destruct (alloc nm b l s) as [off s'].
  destruct H as (H1 & H2 & H3 & _ & H5). split; [done|]. lia.
Qed.

Lemma allocates_ret {A} (a : A) : allocates (aret a) 0.
Proof. intros s I Hn. cbn. split; [done|]. lia. Qed.

Lemma allocates_bind {A B} (m : Alloc A) (f : A -> Alloc B) n n' :
  allocates m n -> (forall a, allocates (f a) n') -> allocates (abind m f) (n + n').
Proof.
  intros Hm Hf s I Hn. unfold abind. specialize (Hm s I ltac:(lia)). destruct (m s) as [a s'].
  destruct Hm as (I' & L & U). specialize (Hf a s' I' ltac:(lia)). destruct (f a s') as [b s''].
  destruct Hf as (I'' & L' & U'). split; [done|]. lia.
Qed.

Lemma allocates_weaken {A} (m : Alloc A) n n' : allocates m n -> (n <= n')%nat -> allocates m n'.
Proof.
  intros Hm Hn s I Hl. specialize (Hm s I ltac:(lia)). destruct (m s) as [a s']. destruct Hm as (I' & L & U).
  split; [done|]. lia.
Qed.

(** One step of a sequence of allocations. *)
Ltac allocs := repeat (apply (allocates_bind _ _ 1); [apply allocates_alloc; try lia|intros ?]).

(** ** Accepted arguments *)

Record layout_args (sequence hq hkv dim count vocab : Z) (hidden : Z) : Prop := {
  la_sequence : 1024 <= sequence <= 8192;
  la_dim : dim = 64;
  la_hidden : hidden = 64 * hq /\ (hq = 4 \/ hq = 32);
  la_hkv : 1 <= hkv <= 32;
  la_count : 1 <= count <= 32;
  la_vocab : 0 <= vocab <= 1048576 }.

Lemma layout_accepted sequence hq hkv dim count final_norm vocab node_bytes embedding :
  in_u32 sequence -> in_u32 hq -> in_u32 hkv -> in_u32 dim -> in_u32 count -> in_u32 vocab ->
  layout_refused sequence hq hkv dim count final_norm vocab node_bytes embedding = false ->
  layout_args sequence hq hkv dim count vocab (hq ⊠ dim).
Proof.
  unfold in_u32. intros Hs Hq Hkv Hd Hc Hv H. unfold layout_refused in H. cbv zeta in H. boolify. subst dim.
  rewrite u64_id in * by (unfold in_u64; lia).
  assert (hq = 4 \/ hq = 32).
  { match goal with H : (negb _ && negb _) = false |- _ => apply andb_false_iff in H; destruct H end; boolify; lia. }
  assert (hkv <= hq).
  { match goal with H : hq mod hkv = 0 |- _ => apply Z.mod_divide in H; [apply Z.divide_pos_le in H; lia|lia] end. }
  assert (1024 <= sequence).
  { match goal with H : sequence mod 1024 = 0 |- _ => apply Z.mod_divide in H; [apply Z.divide_pos_le in H; lia|lia] end. }
  split; try lia.
Qed.

Section layout.
Context (sequence hq hkv dim count vocab hidden : Z).
Hypothesis Ha : layout_args sequence hq hkv dim count vocab hidden.

Notation qbytes := (sequence / 4 ⊠ hidden ⊠ 2).
Notation kvbytes := (sequence / 4 ⊠ hkv ⊠ dim ⊠ 2).
Notation intermediate := (4 ⊠ hidden).

Ltac args := destruct Ha as [? -> [-> Hhq] ? ? ?]; pose proof (Z.div_pos sequence 4);
  assert (sequence / 4 <= 2048) by (apply Z.div_le_upper_bound; lia).
Lemma layout_qbytes : 0 < qbytes <= 2 ^ 24 /\ qbytes = sequence / 4 * hidden * 2.
Proof.
  args. assert (256 <= sequence / 4) by (apply Z.div_le_lower_bound; lia).
  destruct Hhq as [-> | ->]; cbn [Z.mul Pos.mul Pos.add]; unwrap64; lia.
Qed.
Lemma layout_kvbytes : 0 <= kvbytes <= 2 ^ 24.
Proof. args. unwrap64_with nia. nia. Qed.
Lemma layout_rope : 0 <= sequence ⊠ dim ⊠ 2 <= 2 ^ 24.
Proof. args. unwrap64; lia. Qed.
Lemma layout_4q : 0 <= 4 ⊠ qbytes <= 2 ^ 26.
Proof. pose proof layout_qbytes as [? _]. rewrite u64_id; unfold in_u64; lia. Qed.
Lemma layout_hidden : 0 <= hidden ⊠ 2 <= 4096.
Proof. args. unwrap64; lia. Qed.
Lemma layout_qkv : 0 <= u32 (u32 (hq + u32 (2 * hkv)) * dim) ⊠ hidden ⊠ 2 <= 2 ^ 40.
Proof.
  args. rewrite (u32_id (2 * hkv)), (u32_id (hq + 2 * hkv)), (u32_id ((hq + 2 * hkv) * 64)) by (unfold in_u32; lia).
  destruct Hhq as [-> | ->]; unwrap64; lia.
Qed.
Lemma layout_square : 0 <= (hidden ⊠ hidden ⊠ 2) / 4 <= 2 ^ 40.
Proof. args. destruct Hhq as [-> | ->]; vm_compute; split; discriminate. Qed.
Lemma layout_up : 0 <= (intermediate ⊠ hidden ⊠ 2) / 4 <= 2 ^ 40.
Proof. args. destruct Hhq as [-> | ->]; vm_compute; split; discriminate. Qed.
Lemma layout_down : 0 <= (hidden ⊠ intermediate ⊠ 2) / 4 <= 2 ^ 40.
Proof. args. destruct Hhq as [-> | ->]; vm_compute; split; discriminate. Qed.
Lemma layout_lm : 0 <= ((vocab ⊞ 63) / 64 ⊞ 3) / 4 ⊠ hidden ⊠ 64 ⊠ 2 <= 2 ^ 40 /\
  0 <= (vocab ⊞ 63) / 64 ⊠ 64 ⊠ 2 <= 2 ^ 40.
Proof.
  args. rewrite (u64_id (vocab + 63)) by (unfold in_u64; lia).
  assert (0 <= (vocab + 63) / 64 <= 2 ^ 20) by (split; [apply Z.div_pos; lia|apply Z.div_le_upper_bound; lia]).
  rewrite (u64_id ((vocab + 63) / 64 + 3)) by (unfold in_u64; lia).
  assert (0 <= ((vocab + 63) / 64 + 3) / 4 <= 2 ^ 19) by (split; [apply Z.div_pos; lia|apply Z.div_le_upper_bound; lia]).
  destruct Hhq as [-> | ->]; unwrap64; lia.
Qed.
Lemma layout_tokens : 0 <= sequence / 4 ⊠ 4 <= 2 ^ 40.
Proof. args. unwrap64; lia. Qed.
Lemma layout_embedding : 0 <= (vocab ⊞ 3) / 4 ⊠ hidden ⊠ 2 <= 2 ^ 40.
Proof.
  args. rewrite (u64_id (vocab + 3)) by (unfold in_u64; lia).
  assert (0 <= (vocab + 3) / 4 <= 2 ^ 19) by (split; [apply Z.div_pos; lia|apply Z.div_le_upper_bound; lia]).
  destruct Hhq as [-> | ->]; unwrap64; lia.
Qed.

Ltac sizes := pose proof layout_qbytes; pose proof layout_kvbytes; pose proof layout_rope; pose proof layout_4q;
  pose proof layout_hidden; pose proof layout_qkv; pose proof layout_square; pose proof layout_up;
  pose proof layout_down; pose proof layout_lm; pose proof layout_tokens; pose proof layout_embedding.

Lemma alloc_shared_allocates : allocates (alloc_shared sequence dim qbytes kvbytes) 21.
Proof.
  sizes. unfold alloc_shared. apply (allocates_weaken _ (21 * 1 + 0)); [|lia]. cbn [Nat.mul Nat.add].
  allocs. apply allocates_ret.
Qed.

Lemma alloc_weights_allocates l inp out : allocates (alloc_weights hq hkv dim hidden intermediate l inp out) 7.
Proof.
  sizes. unfold alloc_weights. apply (allocates_weaken _ (7 * 1 + 0)); [|lia]. cbn [Nat.mul Nat.add].
  allocs. apply allocates_ret.
Qed.

Lemma alloc_layer_allocates sh retain l prev :
  allocates (alloc_layer sh retain hq hkv dim hidden intermediate qbytes l prev) 8.
Proof.
  sizes. unfold alloc_layer. cbv zeta. apply (allocates_bind _ _ 1 7).
  - case_if; [apply allocates_alloc; lia|]. apply (allocates_weaken _ 0); [apply allocates_ret|lia].
  - intros out. apply alloc_weights_allocates.
Qed.

Lemma alloc_layers_allocates sh retain n : forall l prev,
  allocates (alloc_layers sh retain hq hkv dim hidden intermediate qbytes l prev n) (8 * n).
Proof.
  induction n as [|n IH]; intros l prev; cbn [alloc_layers]; [apply allocates_ret|].
  replace (8 * S n)%nat with (8 + (8 * n + 0))%nat by lia.
  apply allocates_bind; [apply alloc_layer_allocates|]. intros x. apply allocates_bind; [apply IH|].
  intros rest. apply allocates_ret.
Qed.

Lemma alloc_tail_allocates final_norm embedding :
  allocates (alloc_final final_norm hidden qbytes) 3 /\ allocates (alloc_vocab vocab hidden) 3 /\
  allocates (alloc_embedding embedding sequence vocab hidden qbytes) 4.
Proof.
  sizes. unfold alloc_final, alloc_vocab, alloc_embedding. cbv zeta. split; [|split].
  - destruct final_norm; [|apply (allocates_weaken _ 0); [apply allocates_ret|lia]].
    apply (allocates_weaken _ (3 * 1 + 0)); [|lia]. cbn [Nat.mul Nat.add]. allocs. apply allocates_ret.
  - case_if; [|apply (allocates_weaken _ 0); [apply allocates_ret|lia]].
    apply (allocates_weaken _ (3 * 1 + 0)); [|lia]. cbn [Nat.mul Nat.add]. allocs. apply allocates_ret.
  - destruct embedding; [|apply (allocates_weaken _ 0); [apply allocates_ret|lia]].
    apply (allocates_weaken _ (4 * 1 + 0)); [|lia]. cbn [Nat.mul Nat.add]. allocs. apply allocates_ret.
Qed.
End layout.

(** ** What is allocated *)

Definition shared_regions (sh : Shared) (qb kvb rope : Z) : list DecoderMemoryRegion :=
  [mkRegion "activation0" 0 (m_activation0 sh) qb; mkRegion "activation1" 0 (m_activation1 sh) qb;
   mkRegion "projection_done" 0 (m_projection_done sh) 32; mkRegion "decoder_done" 0 (m_decoder_done sh) 32;
   mkRegion "norm1" 0 (m_norm1 sh) qb; mkRegion "q" 0 (m_q sh) qb; mkRegion "k" 0 (m_k sh) kvb;
   mkRegion "v" 0 (m_v sh) kvb; mkRegion "o" 0 (m_o sh) qb; mkRegion "q_panel" 0 (m_q_panel sh) qb;
   mkRegion "k_panel" 0 (m_k_panel sh) kvb; mkRegion "v_panel" 0 (m_v_panel sh) kvb;
   mkRegion "rope" 0 (m_rope sh) rope; mkRegion "wo" 0 (m_wo sh) qb; mkRegion "h1" 0 (m_h1 sh) qb;
   mkRegion "norm2" 0 (m_norm2 sh) qb; mkRegion "gate" 0 (m_gate sh) (4 ⊠ qb);
   mkRegion "up" 0 (m_up sh) (4 ⊠ qb); mkRegion "act" 0 (m_act sh) (4 ⊠ qb);
   mkRegion "gated" 0 (m_gated sh) (4 ⊠ qb); mkRegion "down" 0 (m_down sh) qb].

(** The regions of layer [l], by name and size; the first only with retained outputs. *)
Definition layer_regions (retain : bool) (hq hkv dim hidden intermediate qb l : Z) (x : DecoderLayerMemory) :
    list DecoderMemoryRegion :=
  (if retain && negb (l =? 0) then [mkRegion "retained_output" (l + 1) (l_output x) qb] else []) ++
  [mkRegion "gamma1" (l + 1) (l_gamma1 x) (hidden ⊠ 2); mkRegion "gamma2" (l + 1) (l_gamma2 x) (hidden ⊠ 2);
   mkRegion "qkv_weight" (l + 1) (l_qkv_weight x) (u32 (u32 (hq + u32 (2 * hkv)) * dim) ⊠ hidden ⊠ 2);
   mkRegion "wo_weight" (l + 1) (l_wo_weight x) ((hidden ⊠ hidden ⊠ 2) / 4);
   mkRegion "gate_weight" (l + 1) (l_gate_weight x) ((intermediate ⊠ hidden ⊠ 2) / 4);
   mkRegion "up_weight" (l + 1) (l_up_weight x) ((intermediate ⊠ hidden ⊠ 2) / 4);
   mkRegion "down_weight" (l + 1) (l_down_weight x) ((hidden ⊠ intermediate ⊠ 2) / 4)].

Fixpoint layers_regions (retain : bool) (hq hkv dim hidden intermediate qb l : Z) (ls : list DecoderLayerMemory) :
    list DecoderMemoryRegion :=
  match ls with
  | [] => []
  | x :: ls' => layer_regions retain hq hkv dim hidden intermediate qb l x ++
                layers_regions retain hq hkv dim hidden intermediate qb (l + 1) ls'
  end.

Definition final_regions (final_norm : bool) (hidden qb : Z) (m : DecoderMemoryLayout) : list DecoderMemoryRegion :=
  if final_norm
  then [mkRegion "final_gamma" 0 (m_final_gamma m) (hidden ⊠ 2); mkRegion "final_output" 0 (m_final_output m) qb;
        mkRegion "final_done" 0 (m_final_done m) 32] else [].
Definition vocab_regions (vocab hidden : Z) (m : DecoderMemoryLayout) : list DecoderMemoryRegion :=
  if negb (vocab =? 0)
  then [mkRegion "lm_weight" 0 (m_lm_weight m) (((vocab ⊞ 63) / 64 ⊞ 3) / 4 ⊠ hidden ⊠ 64 ⊠ 2);
        mkRegion "lm_output" 0 (m_lm_output m) ((vocab ⊞ 63) / 64 ⊠ 64 ⊠ 2); mkRegion "lm_done" 0 (m_lm_done m) 32] else [].
Definition embedding_regions (embedding : bool) (sequence vocab hidden qb : Z) (m : DecoderMemoryLayout) :
    list DecoderMemoryRegion :=
  if embedding
  then [mkRegion "embedding_tokens" 0 (m_embedding_tokens m) (sequence / 4 ⊠ 4);
        mkRegion "embedding_weight" 0 (m_embedding_weight m) ((vocab ⊞ 3) / 4 ⊠ hidden ⊠ 2);
        mkRegion "embedding_output" 0 (m_embedding_output m) qb; mkRegion "embedding_done" 0 (m_embedding_done m) 32]
  else [].

Lemma alloc_regions nm b l s off s' : alloc nm b l s = (off, s') -> s_regions s' = s_regions s ++ [mkRegion nm l off b].
Proof. unfold alloc. by intros [= <- <-]. Qed.

(** Names the result of every allocation and collects the regions. *)
Ltac collect :=
  repeat match goal with
  | |- context [alloc ?n ?b ?l ?s] =>
      let E := fresh "E" in destruct (alloc n b l s) as [? ?] eqn:E; apply alloc_regions in E
  end;
  repeat match goal with E : s_regions ?s' = s_regions _ ++ _ |- _ => rewrite E; clear E end;
  rewrite <- ?app_assoc.

Lemma alloc_shared_regions sequence dim qb kvb s :
  let (sh, s') := alloc_shared sequence dim qb kvb s in
  s_regions s' = s_regions s ++ shared_regions sh qb kvb (sequence ⊠ dim ⊠ 2).
Proof. unfold alloc_shared, abind, aret. collect. reflexivity. Qed.

Lemma alloc_layer_regions sh retain hq hkv dim hidden intermediate qb l prev s :
  let (x, s') := alloc_layer sh retain hq hkv dim hidden intermediate qb l prev s in
  s_regions s' = s_regions s ++ layer_regions retain hq hkv dim hidden intermediate qb l x.
Proof.
  unfold alloc_layer, alloc_weights, abind, aret, layer_regions. cbv zeta.
  destruct (retain && negb (l =? 0)); collect; reflexivity.
Qed.

Lemma alloc_layers_regions sh retain hq hkv dim hidden intermediate qb n : forall l prev s,
  let (ls, s') := alloc_layers sh retain hq hkv dim hidden intermediate qb l prev n s in
  s_regions s' = s_regions s ++ layers_regions retain hq hkv dim hidden intermediate qb l ls.
Proof.
  induction n as [|n IH]; intros l prev s; cbn [alloc_layers].
  - unfold aret. cbn. by rewrite app_nil_r.
  - unfold abind. pose proof (alloc_layer_regions sh retain hq hkv dim hidden intermediate qb l prev s) as E.
    destruct (alloc_layer _ _ _ _ _ _ _ _ _ _ _) as [x s1]. specialize (IH (l + 1) (l_output x) s1).
    destruct (alloc_layers _ _ _ _ _ _ _ _ _ _ _ _) as [ls s2]. unfold aret. rewrite IH, E, <- app_assoc. done.
Qed.

(** ** Activations *)

(** Two buffers of [n] bytes that do not overlap. *)
Definition apart (a b n : Z) : Prop := a + n <= b \/ b + n <= a.

Lemma alloc_weights_activations hq hkv dim hidden intermediate l inp out s :
  let (x, s') := alloc_weights hq hkv dim hidden intermediate l inp out s in l_input x = inp /\ l_output x = out.
Proof.
  unfold alloc_weights, abind, aret.
  repeat match goal with |- context [alloc ?n ?b ?l ?s] => destruct (alloc n b l s) as [? ?] end. done.
Qed.

Section chain.
Context (sh : Shared) (retain : bool) (hq hkv dim hidden intermediate qb : Z).
Hypothesis Hqb : 0 < qb <= 2 ^ 40.
Hypothesis Hweights : forall l inp out, allocates (alloc_weights hq hkv dim hidden intermediate l inp out) 7.
Hypothesis Hact : apart (m_activation0 sh) (m_activation1 sh) qb.

(** The ping-pong buffer layer [l] reads. *)
Definition buffer (l : Z) : Z := if l mod 2 =? 0 then m_activation0 sh else m_activation1 sh.

Lemma buffer_apart l : apart (buffer l) (buffer (l + 1)) qb.
Proof.
  unfold buffer. rewrite (Z.add_mod l 1) by lia. pose proof (Z.mod_pos_bound l 2 ltac:(lia)).
  assert (l mod 2 = 0 \/ l mod 2 = 1) as [-> | ->] by lia; [done|]. change ((1 + 1 mod 2) mod 2 =? 0) with true.
  cbn [Z.eqb]. unfold apart in *. lia.
Qed.

Definition buffers_used (u : Z) : Prop := m_activation0 sh + qb <= u /\ m_activation1 sh + qb <= u.

Lemma buffer_used u l : buffers_used u -> buffer l + qb <= u.
Proof. intros [H0 H1]. unfold buffer. by case_if. Qed.

(** Before layer [l] with the previous output [prev]. *)
Definition chain_inv (l prev : Z) (s : AllocState) : Prop :=
  alloc_inv s /\ buffers_used (used_bytes s) /\ 0 <= l /\
  (l <> 0 -> prev + qb <= used_bytes s /\ (retain = false -> prev = buffer l)).

Lemma alloc_layer_chain l prev s : chain_inv l prev s -> Z.of_nat (length (s_regions s) + 8) <= 2 ^ 20 ->
  let (x, s') := alloc_layer sh retain hq hkv dim hidden intermediate qb l prev s in
  chain_inv (l + 1) (l_output x) s' /\ l_input x = (if l =? 0 then m_activation0 sh else prev) /\
  apart (l_input x) (l_output x) qb /\ (length (s_regions s') <= length (s_regions s) + 8)%nat.
Proof.
  intros (I & B & Hl & Hp) Hn. unfold alloc_layer, abind. cbv zeta. fold (buffer l). fold (buffer (l + 1)).
  destruct (retain && negb (l =? 0)) eqn:Er.
  - boolify. pose proof (alloc_spec "retained_output" qb (l + 1) s I ltac:(lia) ltac:(lia)) as S.
    destruct (alloc "retained_output" qb (l + 1) s) as [out s1]. destruct S as (I1 & L1 & U1 & _ & E1).
    pose proof (alloc_weights_activations hq hkv dim hidden intermediate l prev out s1) as W.
    pose proof (Hweights l prev out s1 I1 ltac:(lia)) as A.
    destruct (alloc_weights _ _ _ _ _ _ _ _ s1) as [x s2]. destruct W as [-> ->]. destruct A as (I2 & L2 & U2).
    destruct B as [B0 B1]. destruct (Hp ltac:(lia)) as [Hp1 _]. rewrite (proj2 (Z.eqb_neq l 0)) by lia.
    split; [|split; [done|split; [left; lia|lia]]].
    split; [done|]. split; [split; lia|]. split; [lia|]. intros _. split; [lia|]. intros ->. done.
  - cbn [aret].
    pose proof (alloc_weights_activations hq hkv dim hidden intermediate l (buffer l) (buffer (l + 1)) s) as W.
    pose proof (Hweights l (buffer l) (buffer (l + 1)) s I ltac:(lia)) as A.
    destruct (alloc_weights _ _ _ _ _ _ _ _ s) as [x s2]. destruct W as [-> ->]. destruct A as (I2 & L2 & U2).
    pose proof (buffer_used _ (l + 1) B) as Bn. destruct B as [B0 B1].
    split; [|split; [|split; [apply buffer_apart|lia]]].
    + split; [done|]. split; [split; lia|]. split; [lia|]. intros _. split; [lia|done].
    + destruct (Z.eqb_spec l 0) as [->|Hne]; [done|]. destruct (Hp Hne) as [_ Hp2]. symmetry. apply Hp2.
      destruct retain; [discriminate Er|done].
Qed.

(** The chain of activations through the layers. *)
Fixpoint chained (prev : Z) (ls : list DecoderLayerMemory) : Prop :=
  match ls with
  | [] => True
  | x :: ls' => l_input x = prev /\ apart (l_input x) (l_output x) qb /\ chained (l_output x) ls'
  end.

Lemma alloc_layers_chain n : forall l prev s, chain_inv l prev s ->
  Z.of_nat (length (s_regions s) + 8 * n) <= 2 ^ 20 ->
  let (ls, s') := alloc_layers sh retain hq hkv dim hidden intermediate qb l prev n s in
  length ls = n /\ chained (if l =? 0 then m_activation0 sh else prev) ls /\
  Forall (fun x => l_output x + qb <= used_bytes s') ls /\ alloc_inv s' /\ used_bytes s <= used_bytes s'.
Proof.
  induction n as [|n IH]; intros l prev s C Hn; cbn [alloc_layers].
  - cbn. split; [done|]. split; [done|]. split; [constructor|]. split; [apply C|lia].
  - unfold abind. pose proof (alloc_layer_chain l prev s C ltac:(lia)) as S.
    assert (A : allocates (alloc_layer sh retain hq hkv dim hidden intermediate qb l prev) 8).
    { unfold alloc_layer. cbv zeta. apply (allocates_bind _ _ 1 7); [|intros out; apply Hweights].
      case_if; [apply allocates_alloc; lia|]. apply (allocates_weaken _ 0); [apply allocates_ret|lia]. }
    specialize (A s (proj1 C) ltac:(lia)).
    destruct (alloc_layer _ _ _ _ _ _ _ _ _ _ s) as [x s1]. destruct S as (C1 & E & Ap & L1). destruct A as (_ & _ & U1).
    specialize (IH (l + 1) (l_output x) s1 C1 ltac:(lia)).
    destruct (alloc_layers _ _ _ _ _ _ _ _ _ _ _ s1) as [ls s2]. destruct IH as (L & Ch & F & I2 & U2).
    destruct C as (_ & _ & Hl & _). destruct C1 as (_ & _ & _ & Hp). destruct (Hp ltac:(lia)) as [Hp1 _].
    rewrite (proj2 (Z.eqb_neq (l + 1) 0)) in Ch by lia.
    unfold aret. cbn [length chained]. split; [by rewrite L|]. split; [done|]. split; [|split; [done|lia]].
    constructor; [lia|done].
Qed.
End chain.


Section whole.
Context (sequence hq hkv dim count vocab hidden node_bytes : Z) (final_norm embedding retain : bool).
Hypothesis Ha : layout_args sequence hq hkv dim count vocab hidden.
Notation qbytes := (sequence / 4 ⊠ hidden ⊠ 2).
Notation kvbytes := (sequence / 4 ⊠ hkv ⊠ dim ⊠ 2).
Notation intermediate := (4 ⊠ hidden).
Notation rope := (sequence ⊠ dim ⊠ 2).

Lemma alloc_inv_start : alloc_inv (mkAlloc 0 []).
Proof. split; cbn; [lia|constructor|constructor]. Qed.

(** The shared tensors: the two activation buffers are apart and allocated. *)
Lemma alloc_shared_ok : let (sh, s) := alloc_shared sequence dim qbytes kvbytes (mkAlloc 0 []) in
  alloc_inv s /\ (length (s_regions s) <= 21)%nat /\ s_regions s = shared_regions sh qbytes kvbytes rope /\
  apart (m_activation0 sh) (m_activation1 sh) qbytes /\ buffers_used sh qbytes (used_bytes s).
Proof.
  pose proof (alloc_shared_allocates _ _ _ _ _ _ _ Ha (mkAlloc 0 []) alloc_inv_start ltac:(cbn; lia)) as A.
  pose proof (alloc_shared_regions sequence dim qbytes kvbytes (mkAlloc 0 [])) as R.
  destruct (alloc_shared _ _ _ _ _) as [sh s]. destruct A as (I & L & U). cbn in L, U, R.
  split; [done|]. split; [lia|]. split; [done|].
  destruct I as [_ So F]. rewrite R in So, F. apply StronglySorted_inv in So as [_ So].
  apply Forall_cons in F as [F0 F]. apply Forall_cons in F as [F1 _]. apply Forall_cons in So as [So _].
  unfold before in So. cbn in So, F0, F1. unfold apart, buffers_used. lia.
Qed.

Lemma alloc_final_regions s : let '((fg, fo, fd), s') := alloc_final final_norm hidden qbytes s in
  forall m, m_final_gamma m = fg -> m_final_output m = fo -> m_final_done m = fd ->
  s_regions s' = s_regions s ++ final_regions final_norm hidden qbytes m.
Proof.
  unfold alloc_final, final_regions, abind, aret. destruct final_norm; [|intros; by rewrite app_nil_r].
  collect. intros m <- <- <-. reflexivity.
Qed.

Lemma alloc_vocab_regions s : let '((lw, lo, ld), s') := alloc_vocab vocab hidden s in
  forall m, m_lm_weight m = lw -> m_lm_output m = lo -> m_lm_done m = ld ->
  s_regions s' = s_regions s ++ vocab_regions vocab hidden m.
Proof.
  unfold alloc_vocab, vocab_regions, abind, aret. destruct (negb (vocab =? 0)); [|intros; by rewrite app_nil_r].
  cbv zeta. collect. intros m <- <- <-. reflexivity.
Qed.

Lemma alloc_embedding_regions s : let '((et, ew, eo, ed), s') := alloc_embedding embedding sequence vocab hidden qbytes s in
  forall m, m_embedding_tokens m = et -> m_embedding_weight m = ew -> m_embedding_output m = eo -> m_embedding_done m = ed ->
  s_regions s' = s_regions s ++ embedding_regions embedding sequence vocab hidden qbytes m.
Proof.
  unfold alloc_embedding, embedding_regions, abind, aret. destruct embedding; [|intros; by rewrite app_nil_r].
  collect. intros m <- <- <- <-. reflexivity.
Qed.

(** The embedding's output lies above everything allocated before it. *)
Lemma alloc_embedding_above s : embedding = true -> alloc_inv s -> Z.of_nat (length (s_regions s)) + 4 <= 2 ^ 20 ->
  let '((_, _, eo, _), _) := alloc_embedding embedding sequence vocab hidden qbytes s in used_bytes s <= eo.
Proof.
  intros -> I Hn. pose proof (layout_tokens _ _ _ _ _ _ _ Ha). pose proof (layout_embedding _ _ _ _ _ _ _ Ha).
  pose proof (layout_qbytes _ _ _ _ _ _ _ Ha) as [? _].
  unfold alloc_embedding, abind, aret.
  pose proof (alloc_spec "embedding_tokens" (sequence / 4 ⊠ 4) 0 s I ltac:(lia) ltac:(lia)) as S.
  destruct (alloc _ _ _ s) as [a s1]. destruct S as (I1 & L1 & U1 & _ & E1).
  pose proof (alloc_spec "embedding_weight" ((vocab ⊞ 3) / 4 ⊠ hidden ⊠ 2) 0 s1 I1 ltac:(lia) ltac:(lia)) as S.
  destruct (alloc _ _ _ s1) as [b s2]. destruct S as (I2 & L2 & U2 & _ & E2).
  pose proof (alloc_spec "embedding_output" qbytes 0 s2 I2 ltac:(lia) ltac:(lia)) as S.
  destruct (alloc _ _ _ s2) as [c s3]. destruct S as (I3 & L3 & U3 & _ & E3).
  destruct (alloc _ _ _ s3) as [d s4]. lia.
Qed.

Lemma front_input_regions b x l ls :
  layers_regions retain hq hkv dim hidden intermediate qbytes l (front_input b x ls) =
  layers_regions retain hq hkv dim hidden intermediate qbytes l ls.
Proof. destruct ls as [|y ls]; [done|]. by destruct b. Qed.

Lemma alloc_all_spec : hidden = hq ⊠ dim ->
  let (m, s) := alloc_all sequence hq hkv dim count final_norm vocab node_bytes embedding retain (mkAlloc 0 []) in
  alloc_inv s /\ (length (s_regions s) <= 300)%nat /\ m_used_bytes m = used_bytes s /\ m_regions m = s_regions s /\
  m_valid m = (used_bytes s <=? node_bytes) /\
  let sh := m_shared m in
  s_regions s = shared_regions sh qbytes kvbytes rope ++
    layers_regions retain hq hkv dim hidden intermediate qbytes 0 (m_layers m) ++
    final_regions final_norm hidden qbytes m ++ vocab_regions vocab hidden m ++
    embedding_regions embedding sequence vocab hidden qbytes m /\
  length (m_layers m) = Z.to_nat count /\
  chained qbytes (if embedding then m_embedding_output m else m_activation0 sh) (m_layers m).
Proof.
  intros Hh. unfold alloc_all. cbv zeta. rewrite <- Hh.
  pose proof alloc_shared_ok as S1. destruct (alloc_shared _ _ _ _ _) as [sh s1]. destruct S1 as (I1 & L1 & R1 & Ap & Bu).
  pose proof (layout_qbytes _ _ _ _ _ _ _ Ha) as [Hq _].
  assert (Hc : (Z.to_nat count <= 32)%nat) by (pose proof (la_count _ _ _ _ _ _ _ Ha); lia).
  assert (C : chain_inv sh retain qbytes 0 0 s1) by (split; [done|split; [done|split; [lia|done]]]).
  pose proof (alloc_layers_chain sh retain hq hkv dim hidden intermediate qbytes ltac:(lia)
    (alloc_weights_allocates _ _ _ _ _ _ _ Ha) Ap (Z.to_nat count) 0 0 s1 C ltac:(lia)) as S2.
  pose proof (alloc_layers_regions sh retain hq hkv dim hidden intermediate qbytes (Z.to_nat count) 0 0 s1) as R2.
  pose proof (alloc_layers_allocates _ _ _ _ _ _ _ Ha sh retain (Z.to_nat count) 0 0 s1 I1 ltac:(lia)) as A2.
  destruct (alloc_layers _ _ _ _ _ _ _ _ _ _ _ s1) as [ls s2]. destruct S2 as (L & Ch & F & I2 & U2).
  destruct A2 as (_ & L2 & _).
  destruct (alloc_tail_allocates _ _ _ _ _ _ _ Ha final_norm embedding) as (T3 & T4 & T5).
  specialize (T3 s2 I2 ltac:(lia)). pose proof (alloc_final_regions s2) as R3.
  destruct (alloc_final _ _ _ s2) as [[[fg fo] fd] s3]. destruct T3 as (I3 & L3 & U3).
  specialize (T4 s3 I3 ltac:(lia)). pose proof (alloc_vocab_regions s3) as R4.
  destruct (alloc_vocab _ _ s3) as [[[lw lo] ld] s4]. destruct T4 as (I4 & L4 & U4).
  specialize (T5 s4 I4 ltac:(lia)). pose proof (alloc_embedding_regions s4) as R5.
  pose proof (fun H => alloc_embedding_above s4 H I4 ltac:(lia)) as Ab.
  destruct (alloc_embedding _ _ _ _ _ s4) as [[[[et ew] eo] ed] s5]. destruct T5 as (I5 & L5 & U5).
  split; [done|]. split; [lia|]. split; [done|]. split; [done|]. split; [done|]. cbn zeta. cbn [m_shared m_layers].
  split; [|split].
  - rewrite front_input_regions. match goal with |- context [final_regions _ _ _ ?m] => set (lay := m) end.
    rewrite (R5 lay), (R4 lay), (R3 lay), R2, R1 by done. by rewrite <- !app_assoc.
  - destruct ls; [done|]. by destruct embedding.
  - cbn [m_embedding_output]. destruct ls as [|x ls]; [done|]. destruct embedding; [|exact Ch].
    destruct Ch as (_ & _ & Ch). specialize (Ab eq_refl). apply Forall_cons in F as [F _].
    cbn [front_input chained l_input l_output]. split; [done|]. split; [right; lia|done].
Qed.
End whole.

(** ** The two properties *)

(** The regions an accepted layout hands out, in the order of the allocations. *)
Definition expected_regions (sequence hq hkv dim : Z) (final_norm : bool) (vocab : Z) (embedding retain : bool)
    (m : DecoderMemoryLayout) : list DecoderMemoryRegion :=
  let hidden := hq ⊠ dim in
  let qbytes := sequence / 4 ⊠ hidden ⊠ 2 in
  shared_regions (m_shared m) qbytes (sequence / 4 ⊠ hkv ⊠ dim ⊠ 2) (sequence ⊠ dim ⊠ 2) ++
  layers_regions retain hq hkv dim hidden (4 ⊠ hidden) qbytes 0 (m_layers m) ++
  final_regions final_norm hidden qbytes m ++ vocab_regions vocab hidden m ++
  embedding_regions embedding sequence vocab hidden qbytes m.

(** C15: Safety and bounds of the memory layout.  Refused arguments give an invalid
    layout that holds no region.  For accepted arguments every tensor of the run
    (shared, per layer, final norm, vocabulary, embedding) is handed out once and in
    order; every region starts on a 4096-byte page, ends where or before the next one
    starts and within the bytes used; the bytes used never approach the 64-bit limit,
    so no offset wraps; and the layout is valid exactly when they fit the node. *)
Theorem memory_layout_safe sequence hq hkv dim count final_norm vocab node_bytes embedding retain :
  in_u32 sequence -> in_u32 hq -> in_u32 hkv -> in_u32 dim -> in_u32 count -> in_u32 vocab ->
  let m := makeDecoderMemoryLayout sequence hq hkv dim count final_norm vocab node_bytes embedding retain in
  if layout_refused sequence hq hkv dim count final_norm vocab node_bytes embedding
  then m_valid m = false /\ m_regions m = [] /\ m_layers m = []
  else m_regions m = expected_regions sequence hq hkv dim final_norm vocab embedding retain m /\
    StronglySorted before (m_regions m) /\
    Forall (fun r => region_offset r mod 4096 = 0 /\ 0 <= region_offset r /\ 0 <= region_bytes r /\
      region_offset r + region_bytes r <= m_used_bytes m) (m_regions m) /\
    m_used_bytes m <= 2 ^ 50 /\ (m_valid m = true <-> m_used_bytes m <= node_bytes).
Proof.
  intros Hs Hq Hkv Hd Hc Hv. cbv zeta. unfold makeDecoderMemoryLayout.
  destruct (layout_refused _ _ _ _ _ _ _ _ _) eqn:E; [done|].
  pose proof (layout_accepted _ _ _ _ _ _ _ _ _ Hs Hq Hkv Hd Hc Hv E) as Ha.
  pose proof (alloc_all_spec _ _ _ _ _ _ _ node_bytes final_norm embedding retain Ha eq_refl) as S.
  destruct (alloc_all _ _ _ _ _ _ _ _ _ _ _) as [m s]. cbn [fst]. destruct S as ([U So F] & L & Eu & Er & Ev & R & _).
  rewrite Eu, Er, Ev. split; [exact R|]. split; [done|]. split; [|split; [lia|apply Z.leb_le]].
  eapply Forall_impl; [exact F|]. cbn. intros r Hr. lia.
Qed.

Lemma memory_layout_safe_witness :
  m_used_bytes (makeDecoderMemoryLayout 1024 4 2 64 2 true 1000 (2 ^ 27) true true) <= 2 ^ 50.
Proof.
  assert (E : layout_refused 1024 4 2 64 2 true 1000 (2 ^ 27) true = false) by reflexivity.
  assert (u : forall x, 0 <= x <= 2000 -> in_u32 x) by (unfold in_u32; lia).
  pose proof (memory_layout_safe 1024 4 2 64 2 true 1000 (2 ^ 27) true true
    (u 1024 ltac:(lia)) (u 4 ltac:(lia)) (u 2 ltac:(lia)) (u 64 ltac:(lia)) (u 2 ltac:(lia)) (u 1000 ltac:(lia))) as H.
  cbv zeta in H. rewrite E in H. destruct H as (_ & _ & _ & H & _). exact H.
Defined.

(** The activations form one chain through the layers.  There is a layer record per
    decoder layer; the first reads the embedding's output, or the first ping-pong buffer
    without an embedding; each later one reads what its predecessor wrote; and no layer
    writes over the activation it reads, with retained outputs and with ping-pong alike. *)
Theorem layer_activations_chain sequence hq hkv dim count final_norm vocab node_bytes embedding retain :
  in_u32 sequence -> in_u32 hq -> in_u32 hkv -> in_u32 dim -> in_u32 count -> in_u32 vocab ->
  layout_refused sequence hq hkv dim count final_norm vocab node_bytes embedding = false ->
  let m := makeDecoderMemoryLayout sequence hq hkv dim count final_norm vocab node_bytes embedding retain in
  length (m_layers m) = Z.to_nat count /\
  chained (sequence / 4 * (hq * dim) * 2) (if embedding then m_embedding_output m else m_activation0 (m_shared m)) (m_layers m).
Proof.
  intros Hs Hq Hkv Hd Hc Hv E. cbv zeta. unfold makeDecoderMemoryLayout. rewrite E.
  pose proof (layout_accepted _ _ _ _ _ _ _ _ _ Hs Hq Hkv Hd Hc Hv E) as Ha.
  pose proof (layout_qbytes _ _ _ _ _ _ _ Ha) as [_ Eq].
  pose proof (alloc_all_spec _ _ _ _ _ _ _ node_bytes final_norm embedding retain Ha eq_refl) as S.
  destruct (alloc_all _ _ _ _ _ _ _ _ _ _ _) as [m s]. cbn [fst]. destruct S as (_ & _ & _ & _ & _ & _ & L & Ch).
  split; [done|]. rewrite Eq in Ch.
  replace (hq * dim) with (hq ⊠ dim); [exact Ch|]. destruct Ha as [_ -> [_ [-> | ->]] _ _ _]; reflexivity.
Qed.

Lemma layer_activations_chain_witness :
  length (m_layers (makeDecoderMemoryLayout 1024 4 2 64 2 true 1000 (2 ^ 27) false false)) = 2%nat.
Proof.
  assert (E : layout_refused 1024 4 2 64 2 true 1000 (2 ^ 27) false = false) by reflexivity.
  assert (u : forall x, 0 <= x <= 2000 -> in_u32 x) by (unfold in_u32; lia).
  pose proof (layer_activations_chain 1024 4 2 64 2 true 1000 (2 ^ 27) false false
    (u 1024 ltac:(lia)) (u 4 ltac:(lia)) (u 2 ltac:(lia)) (u 64 ltac:(lia)) (u 2 ltac:(lia)) (u 1000 ltac:(lia)) E) as H.
  destruct H as (H & _). exact H.
Defined.
