(* ===== verification/ComputeUnit.v ===== *)
(** * Compute modes, packing and the processing elements
      ([isa/precision.h], [computeunit/computeUnit.h], [computeunit/peTiming.h],
      [computeunit/peTiming.def], [computeunit/multiPrecisionComputeUnit.h] under
      [src/src/sst/elements/golem/])

    A processing element multiplies packed operands of eight precisions and accumulates
    32 bits.  A raw pointer is the function from index to element it points to.  The
    word of a NaN result is the canonical quiet one. *)

From Stdlib Require Import ZArith Lia.
From stdpp Require Import base numbers list.
From S2P Require Import Prelude Ieee Fp16 IeeeArith.

(** ** Precisions *)

Inductive ComputeMode := Int4 | Int8 | Fp16 | Bf16 | Tf32 | Fp32 | Fp8E4M3 | Fp8E5M2.

#[export] Instance ComputeMode_eq_dec : EqDecision ComputeMode.
Proof. solve_decision. Defined.

Definition ComputeMode_of (x : Z) : option ComputeMode :=
  match x with
  | 0 => Some Int4 | 1 => Some Int8 | 2 => Some Fp16 | 3 => Some Bf16
  | 4 => Some Tf32 | 5 => Some Fp32 | 6 => Some Fp8E4M3 | 7 => Some Fp8E5M2
  | _ => None
  end.

Definition inputBits (m : ComputeMode) : Z :=
  match m with
  | Int4 => 4
  | Int8 | Fp8E4M3 | Fp8E5M2 => 8
  | Fp16 | Bf16 => 16
  | _ => 32
  end.
Definition integerMode (m : ComputeMode) : bool :=
  match m with Int4 | Int8 => true | _ => false end.
Definition lanesPerBeat (m : ComputeMode) : Z := 32 / inputBits m.
Definition packedRowBytes (k : Z) (m : ComputeMode) : Z := (k ⊠ inputBits m ⊞ 7) / 8.

Record PrecisionSpecV02 := mkPrecisionSpec {
  compute_mode : Z; input_bits : Z; output_kind : Z; accumulator_bits : Z; arithmetic_version : Z;
  reserved0 : Z; reserved1 : Z; reserved2 : Z }.

Definition PrecisionSpec_default : PrecisionSpecV02 := mkPrecisionSpec 5 32 1 32 1 0 0 0.

(** The cast to [ComputeMode] is guarded by [compute_mode <= 7]. *)
Definition validPrecision (p : PrecisionSpecV02) : bool :=
  match ComputeMode_of (compute_mode p) with
  | None => false
  | Some m =>
      (input_bits p =? inputBits m) && (output_kind p =? if integerMode m then 0 else 1) &&
      (accumulator_bits p =? 32) && (arithmetic_version p =? 1) &&
      (reserved0 p =? 0) && (reserved1 p =? 0) && (reserved2 p =? 0)
  end.

(** ** Timing *)

Record PeTiming := mkPeTiming { packetII : Z; singlePacketLatency : Z; interDotGap : Z }.

Definition completionCycles (t : PeTiming) (packets : Z) : result Z :=
  if packets =? 0 then Throw invalid_argument else Ok ((packets - 1) ⊠ packetII t ⊞ singlePacketLatency t).
Definition startInterval (t : PeTiming) (packets : Z) : result Z :=
  if packets =? 0 then Throw invalid_argument else Ok (packets ⊠ packetII t ⊞ interDotGap t).

Definition peTiming (mode : ComputeMode) : PeTiming :=
  match mode with
  | Int4 => mkPeTiming 1 5 0
  | Int8 => mkPeTiming 1 4 0
  | Fp16 => mkPeTiming 1 5 1
  | Bf16 => mkPeTiming 1 5 1
  | Tf32 => mkPeTiming 1 5 0
  | Fp32 => mkPeTiming 1 6 0
  | Fp8E4M3 => mkPeTiming 1 5 0
  | Fp8E5M2 => mkPeTiming 1 5 0
  end.

(** ** Operands *)

(** [result |= uint32_t(row[base + byte]) << (byte * 8)] for [n] bytes from [byte]. *)
Fixpoint packed_bytes (row : Z -> Z) (base : Z) (n : nat) (byte r : Z) : Z :=
  match n with
  | O => r
  | S n' => packed_bytes row base n' (byte + 1) (Z.lor r (u32 (Z.shiftl (row (base + byte)) (byte * 8))))
  end.

Definition packedElement (row : Z -> Z) (k : Z) (mode : ComputeMode) : Z :=
  let bits := inputBits mode in
  if bits =? 4 then Z.land (Z.shiftr (row (k / 2)) (k mod 2 * 4)) 15
  else packed_bytes row (k * (bits / 8)) (Z.to_nat (bits / 8)) 0 0.

Definition decodePrecision (raw : Z) (mode : ComputeMode) : spec_float :=
  match mode with
  | Fp16 => float_of_bits (golem_fp16_to_float (u16 raw))
  | Bf16 => float_of_bits (u32 (Z.shiftl raw 16))
  | Tf32 => float_of_bits (Z.land raw 0xffffe000)
  | Fp32 => float_of_bits raw
  | Fp8E4M3 | Fp8E5M2 =>
      let e5 := bool_decide (mode = Fp8E5M2) in
      let frac := if e5 then 2 else 3 in
      let bias := if e5 then 15 else 7 in
      let exponent := Z.shiftr (Z.land raw 127) frac in
      if exponent =? 0 then S754_zero false
      else
        SFmul prec32 emax32
          (SFldexp prec32 emax32
             (binary_normalize prec32 emax32 (Z.shiftl 1 frac + Z.land raw (Z.shiftl 1 frac - 1)) 0 false)
             (exponent - bias - frac))
          (binary_normalize prec32 emax32 (if Z.testbit raw 7 then -1 else 1) 0 false)
  | _ => S754_zero false
  end.

(** ** Arithmetic *)

Definition pe_add (a b : spec_float) : spec_float := SFadd prec32 emax32 a b.
Definition pe_multiply (a b : spec_float) : spec_float := SFmul prec32 emax32 a b.

(** A lane of [dot4]: [exp[lane]] and [prod[lane]], zero for a flushed operand. *)
Definition dot4_lane (e5 : bool) (a b : Z) : Z * Z :=
  let frac := if e5 then 2 else 3 in
  let bias := if e5 then 15 else 7 in
  let ea := Z.shiftr (Z.land a 127) frac in
  let eb := Z.shiftr (Z.land b 127) frac in
  if (ea =? 0) || (eb =? 0) then (0, 0)
  else
    let ma := Z.shiftl (Z.shiftl 1 frac + Z.land a (Z.shiftl 1 frac - 1)) (3 - frac) in
    let mb := Z.shiftl (Z.shiftl 1 frac + Z.land b (Z.shiftl 1 frac - 1)) (3 - frac) in
    (ea + eb - 2 * bias, ma * mb).

Fixpoint dot4_maxexp (e5 : bool) (lanes : list (Z * Z)) (maxexp : Z) : Z :=
  match lanes with
  | [] => maxexp
  | (a, b) :: lanes' =>
      let frac := if e5 then 2 else 3 in
      if (Z.shiftr (Z.land a 127) frac =? 0) || (Z.shiftr (Z.land b 127) frac =? 0) then dot4_maxexp e5 lanes' maxexp
      else dot4_maxexp e5 lanes' (Z.max maxexp (dot4_lane e5 a b).1)
  end.

Definition dot4_term (e5 : bool) (maxexp a b : Z) : Z :=
  let (exp, prod) := dot4_lane e5 a b in
  let shift := maxexp - exp in
  let term := if negb (prod =? 0) && (shift <? 16) then Z.shiftr (Z.shiftl prod 7) shift else 0 in
  if Z.testbit (Z.lxor a b) 7 then - term else term.

Fixpoint dot4_total (e5 : bool) (maxexp : Z) (lanes : list (Z * Z)) (total : Z) : Z :=
  match lanes with
  | [] => total
  | (a, b) :: lanes' => dot4_total e5 maxexp lanes' (total + dot4_term e5 maxexp a b)
  end.

(** The lanes are the pairs of raw operands, at most four. *)
Definition dot4 (mode : ComputeMode) (lanes : list (Z * Z)) : spec_float :=
  let e5 := bool_decide (mode = Fp8E5M2) in
  let maxexp := dot4_maxexp e5 lanes (-64) in
  let total := dot4_total e5 maxexp lanes 0 in
  SFldexp prec32 emax32 (binary_normalize prec32 emax32 total 0 false) (maxexp - 13).

(** *** [reduce]

    Each loop runs over [n] remaining elements from index [i]. *)

Fixpoint reduce_integer (mode : ComputeMode) (a b : Z -> Z) (n : nat) (i acc : Z) : Z :=
  match n with
  | O => acc
  | S n' =>
      let bits := inputBits mode in
      let sign := Z.shiftl 1 (bits - 1) in
      let mask := Z.shiftl 1 bits - 1 in
      let av := Z.lxor (Z.land (s32 (a i)) mask) sign in
      let bv := Z.lxor (Z.land (s32 (b i)) mask) sign in
      reduce_integer mode a b n' (i + 1) (u32 (acc + u32 ((av - sign) * (bv - sign))))
  end.

Definition pe_product (mode : ComputeMode) (a b : Z -> Z) (i : Z) : spec_float :=
  pe_multiply (decodePrecision (a i) mode) (decodePrecision (b i) mode).

(** Even elements go to [acc0], odd ones to [acc1]. *)
Fixpoint reduce_pairs (mode : ComputeMode) (a b : Z -> Z) (n : nat) (i : Z) (acc0 acc1 : spec_float) : spec_float :=
  match n with
  | O => pe_add acc0 acc1
  | S O => pe_add (pe_add acc0 (pe_product mode a b i)) acc1
  | S (S n') =>
      reduce_pairs mode a b n' (i + 2) (pe_add acc0 (pe_product mode a b i)) (pe_add acc1 (pe_product mode a b (i + 1)))
  end.

Definition fp8_lanes (a b : Z -> Z) (i : Z) (count : nat) : list (Z * Z) :=
  map (fun lane => (a (i + Z.of_nat lane), b (i + Z.of_nat lane))) (seq 0 count).

Fixpoint reduce_quads (mode : ComputeMode) (a b : Z -> Z) (n : nat) (i : Z) (acc0 : spec_float) : spec_float :=
  match n with
  | O => acc0
  | S (S (S (S n'))) => reduce_quads mode a b n' (i + 4) (pe_add acc0 (dot4 mode (fp8_lanes a b i 4)))
  | _ => pe_add acc0 (dot4 mode (fp8_lanes a b i n))
  end.

Fixpoint reduce_serial (mode : ComputeMode) (a b : Z -> Z) (n : nat) (i : Z) (acc0 : spec_float) : spec_float :=
  match n with
  | O => acc0
  | S n' => reduce_serial mode a b n' (i + 1) (pe_add acc0 (pe_product mode a b i))
  end.

Definition reduce (mode : ComputeMode) (a b : Z -> Z) (k : nat) (seed : Z) : Z :=
  if integerMode mode then reduce_integer mode a b k 0 seed
  else
    let acc0 := float_of_bits seed in
    match mode with
    | Fp16 | Bf16 => bits_of_float (reduce_pairs mode a b k 0 acc0 (S754_zero false))
    | Fp8E4M3 | Fp8E5M2 => bits_of_float (reduce_quads mode a b k 0 acc0)
    | _ => bits_of_float (reduce_serial mode a b k 0 acc0)
    end.

Definition MultiPrecision_dot (mode : ComputeMode) (a b : Z -> Z) (k : nat) (seed : Z) : Z := reduce mode a b k seed.

(** The lambda [element] of [dotPackets]. *)
Definition packet_element (mode : ComputeMode) (words : Z -> Z) (i : Z) : Z :=
  let lanes := lanesPerBeat mode in
  let bits := inputBits mode in
  let mask := if bits =? 32 then 0xffffffff else Z.shiftl 1 bits - 1 in
  Z.land (Z.shiftr (words (i / lanes)) (i mod lanes * bits)) mask.

Definition MultiPrecision_dotPackets (mode : ComputeMode) (a b : Z -> Z) (packetCount : Z) (validK : nat) (seed : Z) :
    result Z :=
  let lanes := lanesPerBeat mode in
  if negb (packetCount =? (Z.of_nat validK + lanes - 1) / lanes) then Throw invalid_argument
  else Ok (reduce mode (packet_element mode a) (packet_element mode b) validK seed).

(** ** The single-precision compute unit, over its element type [T] *)

Section compute_unit.
Context {T U : Type} (zero : T) (add mul : T -> T -> T) (to_f : U -> spec_float) (of_f : spec_float -> T).

Fixpoint ComputeUnit_dot (row vector : list T) (r : T) : T :=
  match row, vector with
  | x :: row', y :: vector' => ComputeUnit_dot row' vector' (add r (mul x y))
  | _, _ => r
  end.

Fixpoint ComputeUnit_dotConverted (row vector : list U) (r : T) : T :=
  match row, vector with
  | x :: row', y :: vector' => ComputeUnit_dotConverted row' vector' (add r (mul (of_f (to_f x)) (of_f (to_f y))))
  | _, _ => r
  end.

Lemma dotConverted_dot row : forall vector r,
  ComputeUnit_dotConverted row vector r = ComputeUnit_dot (map (of_f ∘ to_f) row) (map (of_f ∘ to_f) vector) r.
Proof. induction row as [|x row IH]; intros [|y vector] r; cbn; auto. Qed.
End compute_unit.

Example dot_int8 : MultiPrecision_dot Int8 (fun _ => 0xff) (fun i => i) 4 0 = u32 (-6).
Proof. reflexivity. Qed.
Example dot_fp8 : MultiPrecision_dot Fp8E4M3 (fun _ => 0x38) (fun _ => 0xb8) 4 0 = 0xc0800000.
Proof. vm_compute. reflexivity. Qed.
Example dot_fp16 : MultiPrecision_dot Fp16 (fun _ => 0x3c00) (fun _ => 0x4000) 3 0 = 0x40c00000.
Proof. vm_compute. reflexivity. Qed.

(** ** Packing *)

(** Bit [j] of a masked shift. *)
Lemma field_testbit w s n j : 0 <= s -> 0 <= n -> 0 <= j ->
  Z.testbit (Z.land (Z.shiftr w s) (Z.ones n)) j = (j <? n) && Z.testbit w (j + s).
Proof.
  intros Hs Hn Hj. rewrite Z.land_spec, Z.shiftr_spec by lia. destruct (Z.ltb_spec j n).
  - rewrite Z.ones_spec_low by lia. by rewrite andb_true_r.
  - rewrite Z.ones_spec_high by lia. by rewrite andb_false_r.
Qed.

Lemma u8_testbit x j : 0 <= j -> Z.testbit (u8 x) j = (j <? 8) && Z.testbit x j.
Proof.
  intros Hj. unfold u8. rewrite <- Z.land_ones by lia. rewrite <- (Z.shiftr_0_r x) at 1.
  rewrite field_testbit by lia. by rewrite Z.add_0_r.
Qed.

Lemma u32_testbit x j : 0 <= j -> Z.testbit (u32 x) j = (j <? 32) && Z.testbit x j.
Proof.
  intros Hj. unfold u32. rewrite <- Z.land_ones by lia. rewrite <- (Z.shiftr_0_r x) at 1.
  rewrite field_testbit by lia. by rewrite Z.add_0_r.
Qed.

(** The little-endian bytes of a stream of 32-bit packets. *)
Definition bytes_of_words (words : Z -> Z) (i : Z) : Z := u8 (Z.shiftr (words (i / 4)) (i mod 4 * 8)).

Lemma packed_bytes_testbit row base n : forall byte r j, (forall i, in_u8 (row i)) -> 0 <= byte -> 0 <= j ->
  byte + Z.of_nat n <= 4 ->
  Z.testbit (packed_bytes row base n byte r) j =
  Z.testbit r j || ((byte * 8 <=? j) && (j <? (byte + Z.of_nat n) * 8) && Z.testbit (row (base + j / 8)) (j mod 8)).
Proof.
  induction n as [|n IH]; intros byte r j Hrow Hb Hj Hn; cbn [packed_bytes].
  - destruct (byte * 8 <=? j) eqn:E1, (j <? (byte + Z.of_nat 0) * 8) eqn:E2; boolify; try lia; by rewrite ?orb_false_r.
  - rewrite IH, Z.lor_spec, u32_testbit by (try done; lia). rewrite <- orb_assoc. f_equal.
    replace (byte + 1 + Z.of_nat n) with (byte + Z.of_nat (S n)) by lia.
    destruct (Z.lt_ge_cases j (byte * 8)) as [Hlo|Hlo].
    { rewrite Z.shiftl_spec_low by lia. rewrite !(proj2 (Z.leb_gt _ j)) by lia. by rewrite andb_false_r. }
    rewrite Z.shiftl_spec by lia. rewrite (proj2 (Z.leb_le (byte * 8) j)) by lia.
    destruct (Z.lt_ge_cases j ((byte + 1) * 8)) as [Hhi|Hhi].
    + rewrite (proj2 (Z.leb_gt ((byte + 1) * 8) j)), (proj2 (Z.ltb_lt j 32)) by lia.
      rewrite (proj2 (Z.ltb_lt j ((byte + Z.of_nat (S n)) * 8))) by lia. cbn [andb orb]. rewrite orb_false_r.
      replace (j / 8) with byte by (apply (Z.div_unique _ _ _ (j - byte * 8)); lia).
      f_equal. apply (Z.mod_unique _ _ byte); lia.
    + rewrite (testbit_above (row (base + byte)) 8 (j - byte * 8)) by (try apply Hrow; lia).
      rewrite (proj2 (Z.leb_le ((byte + 1) * 8) j)) by lia. by rewrite andb_false_r.
Qed.

Lemma lanes_cases mode : (inputBits mode = 4 /\ lanesPerBeat mode = 8) \/ (inputBits mode = 8 /\ lanesPerBeat mode = 4) \/
  (inputBits mode = 16 /\ lanesPerBeat mode = 2) \/ (inputBits mode = 32 /\ lanesPerBeat mode = 1).
Proof. destruct mode; cbn; auto. Qed.

Lemma packet_element_testbit mode words i j : 0 <= i -> 0 <= j -> Z.testbit (packet_element mode words i) j =
  (j <? inputBits mode) && Z.testbit (words (i / lanesPerBeat mode)) (j + i mod lanesPerBeat mode * inputBits mode).
Proof.
  intros Hi Hj. unfold packet_element. cbv zeta.
  replace (if inputBits mode =? 32 then 0xffffffff else Z.shiftl 1 (inputBits mode) - 1) with (Z.ones (inputBits mode))
    by (destruct mode; reflexivity).
  pose proof (Z.mod_pos_bound i (lanesPerBeat mode)).
  apply field_testbit; [|destruct mode; cbn; lia|done].
  destruct (lanes_cases mode) as [[Eb E]|[[Eb E]|[[Eb E]|[Eb E]]]]; rewrite Eb, ?E in *; lia.
Qed.

(** Reading a row by packets and by bytes is the same. *)
Lemma packet_element_packedElement mode words i : (forall j, in_u32 (words j)) -> 0 <= i ->
  packet_element mode words i = packedElement (bytes_of_words words) i mode.
Proof.
  intros Hw Hi. apply Z.bits_inj'. intros j Hj. rewrite packet_element_testbit by done. unfold packedElement.
  destruct (Z.eqb_spec (inputBits mode) 4) as [Hb|Hb].
  - assert (El : lanesPerBeat mode = 8) by (unfold lanesPerBeat; by rewrite Hb). rewrite El, Hb.
    pose proof (Z.mod_pos_bound i 2 ltac:(lia)). change 15 with (Z.ones 4). rewrite field_testbit by lia.
    destruct (Z.ltb_spec j 4); [|done]. cbn [andb]. unfold bytes_of_words. rewrite u8_testbit by lia.
    rewrite (proj2 (Z.ltb_lt (j + i mod 2 * 4) 8)) by lia. cbn [andb].
    pose proof (Z.mod_pos_bound (i / 2) 4 ltac:(lia)). rewrite Z.shiftr_spec by lia.
    rewrite Z.div_div by lia. change (2 * 4) with 8. f_equal.
    pose proof (Z.rem_mul_r i 2 4 ltac:(lia) ltac:(lia)) as R. change (2 * 4) with 8 in R. lia.
  - assert (Hbyte : forall i, in_u8 (bytes_of_words words i)) by (intros; apply u8_range).
    rewrite packed_bytes_testbit by (try done; try lia; destruct mode; vm_compute; discriminate).
    rewrite Z.bits_0, orb_false_l, (proj2 (Z.leb_le (0 * 8) j)) by lia. cbn [andb].
    rewrite Z.add_0_l, Z2Nat.id by (destruct mode; vm_compute; discriminate).
    replace (inputBits mode / 8 * 8) with (inputBits mode) by (destruct mode; [done|reflexivity..]).
    destruct (Z.ltb_spec j (inputBits mode)) as [Hlt|]; [|done]. cbn [andb]. unfold bytes_of_words.
    pose proof (Z.mod_pos_bound j 8 ltac:(lia)). rewrite u8_testbit by lia.
    rewrite (proj2 (Z.ltb_lt (j mod 8) 8)) by lia. cbn [andb].
    assert (E8 : 8 * (inputBits mode / 8) = inputBits mode) by (destruct mode; [done|reflexivity..]).
    assert (Hp : 0 <= j / 8 < inputBits mode / 8).
    { split; [apply Z.div_pos; lia|]. apply Z.div_lt_upper_bound; lia. }
    pose proof (Z.div_mod j 8 ltac:(lia)).
    set (p := j / 8) in *. set (b := inputBits mode / 8) in *.
    pose proof (Z.mod_pos_bound (i * b + p) 4 ltac:(lia)). rewrite Z.shiftr_spec by lia.
    assert (E : (i / lanesPerBeat mode) * 4 + (i mod lanesPerBeat mode) * b = i * b /\ 0 <= (i mod lanesPerBeat mode) * b + p < 4).
    { destruct (lanes_cases mode) as [[? ?]|[[Eb El]|[[Eb El]|[Eb El]]]]; [done|..]; subst b; rewrite ?Eb, ?El in *;
        cbn in Hp |- *; pose proof (Z.div_mod i (lanesPerBeat mode)); pose proof (Z.mod_pos_bound i (lanesPerBeat mode));
        rewrite El in *; lia. }
    destruct E as [E1 E2].
    replace ((i * b + p) / 4) with (i / lanesPerBeat mode)
      by (apply (Z.div_unique _ _ _ (i mod lanesPerBeat mode * b + p)); lia).
    replace ((i * b + p) mod 4) with (i mod lanesPerBeat mode * b + p)
      by (apply (Z.mod_unique _ _ (i / lanesPerBeat mode)); lia).
    f_equal. rewrite <- E8. lia.
Qed.

(** The reference packing: [n] elements of [B]-bit fields from index [i], lowest first. *)
Fixpoint pack_fields (bits : Z) (e : Z -> Z) (n : nat) (i : Z) : Z :=
  match n with
  | O => 0
  | S n' => e i + 2 ^ bits * pack_fields bits e n' (i + 1)
  end.
Definition pack_words (mode : ComputeMode) (e : Z -> Z) (j : Z) : Z :=
  pack_fields (inputBits mode) e (Z.to_nat (lanesPerBeat mode)) (j * lanesPerBeat mode).

Lemma pack_fields_range bits e n : forall i, 0 <= bits -> (forall k, 0 <= e k < 2 ^ bits) ->
  0 <= pack_fields bits e n i < 2 ^ (bits * Z.of_nat n).
Proof.
  induction n as [|n IH]; intros i Hb He; cbn [pack_fields]; [rewrite Z.mul_0_r; lia|].
  specialize (IH (i + 1) Hb He). specialize (He i).
  replace (bits * Z.of_nat (S n)) with (bits + bits * Z.of_nat n) by lia. rewrite Z.pow_add_r by lia. nia.
Qed.

Lemma pack_fields_field bits e n : forall i k, 0 <= bits -> (forall k, 0 <= e k < 2 ^ bits) -> (k < n)%nat ->
  Z.shiftr (pack_fields bits e n i) (Z.of_nat k * bits) mod 2 ^ bits = e (i + Z.of_nat k).
Proof.
  induction n as [|n IH]; intros i k Hb He Hk; [lia|]. cbn [pack_fields]. pose proof (He i).
  destruct k as [|k].
  - rewrite Z.mul_0_l, Z.shiftr_0_r, Z.add_0_r, Z.mul_comm, Z.mod_add, Z.mod_small by lia. done.
  - replace (i + Z.of_nat (S k)) with (i + 1 + Z.of_nat k) by lia. rewrite <- (IH (i + 1) k Hb He) by lia. f_equal.
    replace (Z.of_nat (S k) * bits) with (bits + Z.of_nat k * bits) by lia. rewrite <- Z.shiftr_shiftr by lia.
    f_equal. rewrite Z.shiftr_div_pow2, Z.mul_comm, Z.div_add, Z.div_small by lia. lia.
Qed.

Definition elements_fit (mode : ComputeMode) (e : Z -> Z) : Prop := forall k, 0 <= e k < 2 ^ inputBits mode.

Lemma pack_words_range mode e : elements_fit mode e -> forall j, in_u32 (pack_words mode e j).
Proof.
  intros He j. unfold in_u32, pack_words.
  pose proof (pack_fields_range (inputBits mode) e (Z.to_nat (lanesPerBeat mode)) (j * lanesPerBeat mode)) as R.
  destruct mode; specialize (R ltac:(cbn; lia) He); exact R.
Qed.

Lemma packet_element_pack mode e i : elements_fit mode e -> 0 <= i -> packet_element mode (pack_words mode e) i = e i.
Proof.
  intros He Hi. unfold packet_element. cbv zeta.
  replace (if inputBits mode =? 32 then 0xffffffff else Z.shiftl 1 (inputBits mode) - 1) with (Z.ones (inputBits mode))
    by (destruct mode; reflexivity).
  assert (Hl : 0 < lanesPerBeat mode) by (by destruct mode). assert (Hb : 0 <= inputBits mode) by (by destruct mode).
  pose proof (Z.mod_pos_bound i (lanesPerBeat mode) Hl). pose proof (Z.div_mod i (lanesPerBeat mode) ltac:(lia)).
  rewrite Z.land_ones by done. unfold pack_words.
  pose proof (pack_fields_field (inputBits mode) e (Z.to_nat (lanesPerBeat mode)) (i / lanesPerBeat mode * lanesPerBeat mode)
    (Z.to_nat (i mod lanesPerBeat mode)) Hb He ltac:(lia)) as F.
  rewrite Z2Nat.id in F by lia. rewrite F. f_equal. lia.
Qed.

(** ** The sums only read the elements they are given *)

Section ext.
Context (mode : ComputeMode) (a a' b b' : Z -> Z).
Hypothesis Ha : forall i, 0 <= i -> a i = a' i.
Hypothesis Hb : forall i, 0 <= i -> b i = b' i.

Lemma reduce_integer_ext n : forall i acc, 0 <= i -> reduce_integer mode a b n i acc = reduce_integer mode a' b' n i acc.
Proof.
  induction n as [|n IH]; intros i acc Hi; [done|]. cbn [reduce_integer]. cbv zeta. rewrite Ha, Hb by lia. apply IH. lia.
Qed.
Lemma pe_product_ext i : 0 <= i -> pe_product mode a b i = pe_product mode a' b' i.
Proof. intros Hi. unfold pe_product. by rewrite Ha, Hb. Qed.
Lemma fp8_lanes_ext i n : 0 <= i -> fp8_lanes a b i n = fp8_lanes a' b' i n.
Proof. intros Hi. unfold fp8_lanes. apply map_ext. intros k. rewrite Ha, Hb by lia. done. Qed.
Lemma reduce_serial_ext n : forall i acc, 0 <= i -> reduce_serial mode a b n i acc = reduce_serial mode a' b' n i acc.
Proof. induction n as [|n IH]; intros i acc Hi; [done|]. cbn [reduce_serial]. rewrite pe_product_ext by lia. apply IH. lia. Qed.
Lemma reduce_pairs_ext n : forall i x y, 0 <= i -> reduce_pairs mode a b n i x y = reduce_pairs mode a' b' n i x y.
Proof.
  induction n as [n IH] using lt_wf_ind. intros i x y Hi. destruct n as [|[|n]]; [done| |]; cbn [reduce_pairs].
  - by rewrite pe_product_ext.
  - rewrite !pe_product_ext by lia. apply IH; lia.
Qed.
Lemma reduce_quads_ext n : forall i x, 0 <= i -> reduce_quads mode a b n i x = reduce_quads mode a' b' n i x.
Proof.
  induction n as [n IH] using lt_wf_ind. intros i x Hi. destruct n as [|[|[|[|n]]]]; [done|..]; cbn [reduce_quads];
    rewrite fp8_lanes_ext by lia; try done. apply IH; lia.
Qed.
Lemma reduce_ext k seed : reduce mode a b k seed = reduce mode a' b' k seed.
Proof.
  unfold reduce. cbv zeta. rewrite reduce_integer_ext, reduce_pairs_ext, reduce_quads_ext, reduce_serial_ext by lia. done.
Qed.
End ext.

(** C17: Packing does not change a dot product.  When 32-bit packets hold elements of the
    mode's width, lowest lane first, [dotPackets] of the packets is [dot] of the elements
    in every mode, with a throw exactly when the packet count does not cover the
    elements; and [packedElement] reads the same elements from the packets' bytes. *)
Theorem packed_dot_correct mode (ea eb : Z -> Z) (packetCount : Z) (validK : nat) (seed : Z) :
  elements_fit mode ea -> elements_fit mode eb ->
  MultiPrecision_dotPackets mode (pack_words mode ea) (pack_words mode eb) packetCount validK seed =
    (if packetCount =? (Z.of_nat validK + lanesPerBeat mode - 1) / lanesPerBeat mode
     then Ok (MultiPrecision_dot mode ea eb validK seed) else Throw invalid_argument) /\
  forall i, 0 <= i -> packedElement (bytes_of_words (pack_words mode ea)) i mode = ea i.
Proof.
  intros Ha Hb. split.
  - unfold MultiPrecision_dotPackets, MultiPrecision_dot. cbv zeta.
    destruct (packetCount =? (Z.of_nat validK + lanesPerBeat mode - 1) / lanesPerBeat mode); [|done]. cbn [negb]. f_equal.
    apply reduce_ext; intros i Hi; by apply packet_element_pack.
  - intros i Hi. rewrite <- packet_element_packedElement by (try done; by apply pack_words_range).
    by apply packet_element_pack.
Qed.

Lemma packed_dot_correct_witness :
  packedElement (bytes_of_words (pack_words Int4 (fun i => i mod 16))) 13 Int4 = 13.
Proof.
  assert (F : elements_fit Int4 (fun i => i mod 16)) by (intros k; apply Z.mod_pos_bound; reflexivity).
  apply (packed_dot_correct Int4 _ _ 1 8 0 F F). discriminate.
Defined.

(** ** Integer modes *)

(** The value of a two's complement field. *)
Definition field_value (bits x : Z) : Z := let y := x mod 2 ^ bits in if y <? 2 ^ (bits - 1) then y else y - 2 ^ bits.

Fixpoint dot_value (bits : Z) (a b : Z -> Z) (n : nat) (i : Z) : Z :=
  match n with
  | O => 0
  | S n' => field_value bits (a i) * field_value bits (b i) + dot_value bits a b n' (i + 1)
  end.

(** Flipping the sign bit and subtracting it sign-extends. *)
Definition sign_extend_check (bits x : Z) : bool :=
  Z.lxor x (Z.shiftl 1 (bits - 1)) - Z.shiftl 1 (bits - 1) =? (if x <? 2 ^ (bits - 1) then x else x - 2 ^ bits).
Lemma sign_extend4 : check_bits 4 (sign_extend_check 4) = true.
Proof. vm_compute. reflexivity. Qed.
Lemma sign_extend8 : check_bits 8 (sign_extend_check 8) = true.
Proof. vm_compute. reflexivity. Qed.

Lemma sign_extend_spec mode x : integerMode mode = true ->
  Z.lxor (Z.land (s32 x) (Z.shiftl 1 (inputBits mode) - 1)) (Z.shiftl 1 (inputBits mode - 1)) - Z.shiftl 1 (inputBits mode - 1)
  = field_value (inputBits mode) x.
Proof.
  intros Hm. replace (Z.shiftl 1 (inputBits mode) - 1) with (Z.ones (inputBits mode)) by (by destruct mode).
  assert (E : s32 x mod 2 ^ inputBits mode = x mod 2 ^ inputBits mode).
  { unfold s32. assert (D : (2 ^ inputBits mode | 2 ^ 31) /\ (2 ^ inputBits mode | 2 ^ 32)).
    { destruct mode; try done; split; [exists (2 ^ 27)|exists (2 ^ 28)|exists (2 ^ 23)|exists (2 ^ 24)]; reflexivity. }
    destruct D as [[q Hq] [r Hr]]. rewrite Zminus_mod, <- (Znumtheory.Zmod_div_mod _ (2 ^ 32)), <- Zminus_mod;
      [f_equal; lia|by destruct mode|lia|by exists r]. }
  rewrite Z.land_ones, E by (by destruct mode). unfold field_value. cbv zeta.
  destruct mode; try done; cbn [inputBits];
    [pose proof (check_bits_sound 4 _ sign_extend4 (x mod 2 ^ 4)) as S|pose proof (check_bits_sound 8 _ sign_extend8 (x mod 2 ^ 8)) as S];
    unfold sign_extend_check in S; apply Z.eqb_eq; apply S; apply Z.mod_pos_bound; lia.
Qed.

Lemma u32_add_l x y : u32 (u32 x + y) = u32 (x + y).
Proof. unfold u32. by rewrite Zplus_mod_idemp_l. Qed.
Lemma u32_add_r x y : u32 (x + u32 y) = u32 (x + y).
Proof. unfold u32. by rewrite Zplus_mod_idemp_r. Qed.

Lemma reduce_integer_spec mode a b n : integerMode mode = true -> forall i acc, in_u32 acc ->
  reduce_integer mode a b n i acc = u32 (acc + dot_value (inputBits mode) a b n i).
Proof.
  intros Hm. induction n as [|n IH]; intros i acc Hacc; cbn [reduce_integer dot_value].
  - rewrite Z.add_0_r. symmetry. by apply u32_id.
  - cbv zeta. rewrite !sign_extend_spec by done. rewrite IH by apply u32_range. rewrite u32_add_r, u32_add_l. f_equal. lia.
Qed.

Lemma field_value_bound bits x : 0 < bits -> - 2 ^ (bits - 1) <= field_value bits x < 2 ^ (bits - 1).
Proof.
  intros Hb. unfold field_value. cbv zeta. pose proof (Z.mod_pos_bound x (2 ^ bits) ltac:(lia)).
  replace (2 ^ bits) with (2 * 2 ^ (bits - 1)) in * by (rewrite <- Z.pow_succ_r by lia; f_equal; lia).
  case_if; boolify; lia.
Qed.

Lemma dot_value_bound bits a b n : 0 < bits -> forall i, Z.abs (dot_value bits a b n i) <= Z.of_nat n * 2 ^ (2 * (bits - 1)).
Proof.
  intros Hb. replace (2 ^ (2 * (bits - 1))) with (2 ^ (bits - 1) * 2 ^ (bits - 1)) by (rewrite <- Z.pow_add_r by lia; f_equal; lia).
  assert (0 < 2 ^ (bits - 1)) by lia.
  induction n as [|n IH]; intros i; cbn [dot_value]; [lia|]. specialize (IH (i + 1)).
  pose proof (field_value_bound bits (a i) Hb). pose proof (field_value_bound bits (b i) Hb).
  set (P := 2 ^ (bits - 1)) in *. set (x := field_value bits (a i)) in *. set (y := field_value bits (b i)) in *.
  assert (Z.abs (x * y) <= P * P) by (rewrite Z.abs_mul; apply Z.mul_le_mono_nonneg; lia). lia.
Qed.

(** Integer modes.  [dot] in Int4 and Int8 is the two's complement dot product added to
    the seed modulo 2^32; with up to 2^16 elements and a zero seed the 32-bit result
    read as a signed integer is the dot product itself. *)
Theorem integer_dot_exact mode (a b : Z -> Z) (k : nat) (seed : Z) :
  integerMode mode = true -> in_u32 seed ->
  MultiPrecision_dot mode a b k seed = u32 (seed + dot_value (inputBits mode) a b k 0) /\
  (Z.of_nat k <= 2 ^ 16 -> s32 (MultiPrecision_dot mode a b k 0) = dot_value (inputBits mode) a b k 0).
Proof.
  intros Hm Hs. unfold MultiPrecision_dot, reduce. rewrite Hm. split; [by apply reduce_integer_spec|]. intros Hk.
  rewrite reduce_integer_spec by (try done; unfold in_u32; lia). rewrite Z.add_0_l.
  assert (B : Z.abs (dot_value (inputBits mode) a b k 0) <= 2 ^ 30).
  { etransitivity; [apply dot_value_bound; by destruct mode|]. etransitivity; [apply Z.mul_le_mono_nonneg_r; [lia|exact Hk]|].
    destruct mode; try done; vm_compute; discriminate. }
  set (d := dot_value (inputBits mode) a b k 0) in *. unfold s32, u32. rewrite Zplus_mod_idemp_l, Z.mod_small by lia. lia.
Qed.

Lemma integer_dot_exact_witness : s32 (MultiPrecision_dot Int8 (fun _ => 0x80) (fun _ => 0x7f) 100 0) =
  dot_value 8 (fun _ => 0x80) (fun _ => 0x7f) 100 0.
Proof. apply (integer_dot_exact Int8 _ _ 100 0); [reflexivity|split; [discriminate|reflexivity]|discriminate]. Defined.

(** ** FP8 *)

Lemma SFldexp_num z e n : exact prec32 emax32 z e ->
  SFldexp prec32 emax32 (num prec32 emax32 z e) n = num prec32 emax32 z (e + n).
Proof.
  intros H. destruct (decide (z = 0)) as [->|Hz]; [reflexivity|]. destruct H as [?|(Hn & Hf & Hm)]; [done|].
  rewrite !num_round, round_at_exact by (done || reflexivity). unfold SFldexp. set (f := fexp _ _ _) in *.
  pose proof (Z.pow_pos_nonneg 2 (e - f) ltac:(lia) ltac:(lia)).
  rewrite binary_round_spec, Z2Pos.id by (reflexivity || nia).
  rewrite round_at_scale by (reflexivity || lia). f_equal. lia.
Qed.

(** A finite value as an integer number of units [2^-37], the grid of the FP8 operands. *)
Definition fp8_units (x : spec_float) : Z :=
  match x with S754_finite s m e => cond_Zopp s (Z.shiftl (Z.pos m) (e + 37)) | _ => 0 end.

(** A raw operand: flushed (exponent field 0) or sign, 4-bit significand and exponent. *)
Definition fp8_frac (e5 : bool) : Z := if e5 then 2 else 3.
Definition fp8_bias (e5 : bool) : Z := if e5 then 15 else 7.
Definition fp8_exponent (e5 : bool) (a : Z) : Z := Z.shiftr (Z.land a 127) (fp8_frac e5).
Definition fp8_significand (e5 : bool) (a : Z) : Z :=
  Z.shiftl (Z.shiftl 1 (fp8_frac e5) + Z.land a (Z.shiftl 1 (fp8_frac e5) - 1)) (3 - fp8_frac e5).

Definition fp8_check (e5 : bool) (a : Z) : bool :=
  let mode := if e5 then Fp8E5M2 else Fp8E4M3 in
  let u := fp8_units (decodePrecision a mode) in
  let E := fp8_exponent e5 a in
  if E =? 0 then u =? 0
  else (1 <=? E) && (E <=? 31) && (8 <=? fp8_significand e5 a) && (fp8_significand e5 a <=? 15) &&
    (0 <=? E - fp8_bias e5 + 14) &&
    (u =? (if Z.testbit a 7 then -1 else 1) * (fp8_significand e5 a * 2 ^ (E - fp8_bias e5 + 34))).

Lemma fp8_check_all e5 : check_bits 8 (fp8_check e5) = true.
Proof. destruct e5; vm_compute; reflexivity. Qed.

Lemma fp8_decode (e5 : bool) a : in_u8 a -> let u := fp8_units (decodePrecision a (if e5 then Fp8E5M2 else Fp8E4M3)) in
  let E := fp8_exponent e5 a in
  (E = 0 /\ u = 0) \/
  (1 <= E <= 31 /\ 8 <= fp8_significand e5 a <= 15 /\ 0 <= E - fp8_bias e5 + 14 /\
   u = (if Z.testbit a 7 then -1 else 1) * (fp8_significand e5 a * 2 ^ (E - fp8_bias e5 + 34))).
Proof.
  intros Ha. cbv zeta. pose proof (check_bits_sound 8 _ (fp8_check_all e5) a Ha) as C. unfold fp8_check in C. cbv zeta in C.
  destruct (Z.eqb_spec (fp8_exponent e5 a) 0) as [E|E]; boolify; [by left|right]. repeat split; assumption || lia.
Qed.

Section dot4.
Context (e5 : bool).
Notation mode := (if e5 then Fp8E5M2 else Fp8E4M3).

(** The exact product of two decoded operands, in units of [2^-74]. *)
Definition lane_product (ab : Z * Z) : Z := fp8_units (decodePrecision ab.1 mode) * fp8_units (decodePrecision ab.2 mode).
Definition lane_flushed (ab : Z * Z) : bool := (fp8_exponent e5 ab.1 =? 0) || (fp8_exponent e5 ab.2 =? 0).
Definition lane_ok (ab : Z * Z) : Prop := in_u8 ab.1 /\ in_u8 ab.2.

Lemma xor_sign a b : (if Z.testbit (Z.lxor a b) 7 then -1 else 1) =
  (if Z.testbit a 7 then -1 else 1) * (if Z.testbit b 7 then -1 else 1).
Proof. rewrite Z.lxor_spec. by destruct (Z.testbit a 7), (Z.testbit b 7). Qed.

(** The exponent of a lane's product, and the largest of a group. *)
Definition lane_exponent (ab : Z * Z) : Z := fp8_exponent e5 ab.1 + fp8_exponent e5 ab.2 - 2 * fp8_bias e5.
Definition group_exponent (lanes : list (Z * Z)) : Z :=
  foldr (fun ab m => if lane_flushed ab then m else Z.max (lane_exponent ab) m) (-64) lanes.

(** The aligned product of a lane below [maxexp] is its product truncated to units
    [2^(maxexp - 13)]: off by less than one of them, and exact when the lane lies within
    seven binades of [maxexp]. *)
Lemma dot4_term_spec maxexp ab : lane_ok ab -> -28 <= maxexp ->
  (lane_flushed ab = false -> lane_exponent ab <= maxexp) ->
  Z.abs (dot4_term e5 maxexp ab.1 ab.2) <= 28800 /\
  dot4_term e5 maxexp ab.1 ab.2 = Z.quot (lane_product ab) (2 ^ (maxexp + 61)) /\
  Z.abs (lane_product ab - dot4_term e5 maxexp ab.1 ab.2 * 2 ^ (maxexp + 61)) < 2 ^ (maxexp + 61) /\
  ((lane_flushed ab = false -> maxexp <= lane_exponent ab + 7) ->
   lane_product ab = dot4_term e5 maxexp ab.1 ab.2 * 2 ^ (maxexp + 61)).
Proof.
  destruct ab as [a b]. intros [Ha Hb]. unfold lane_flushed, lane_product, lane_exponent, dot4_term, dot4_lane. cbn [fst snd] in *.
  fold (fp8_exponent e5 a) (fp8_exponent e5 b) (fp8_significand e5 a) (fp8_significand e5 b). intros Hm Hle.
  fold (fp8_frac e5) (fp8_bias e5) in *. fold (fp8_exponent e5 a) (fp8_exponent e5 b) in *.
  fold (fp8_significand e5 a) (fp8_significand e5 b) in *.
  pose proof (Z.pow_pos_nonneg 2 (maxexp + 61) ltac:(lia) ltac:(lia)) as HP.
  destruct (fp8_decode e5 a Ha) as [[Ea Ua]|(Ea & Sa & La & Ua)]; [|destruct (fp8_decode e5 b Hb) as [[Eb Ub]|(Eb & Sb & Lb & Ub)]].
  - rewrite Ua, Ea, Z.mul_0_l, Z.quot_0_l by lia. cbn [Z.eqb orb negb andb]. destruct (Z.testbit (Z.lxor a b) 7); lia.
  - rewrite Ub, Eb, Z.eqb_refl, !orb_true_r, Z.mul_0_r, Z.quot_0_l by lia. cbn [Z.eqb orb negb andb]. destruct (Z.testbit (Z.lxor a b) 7); lia.
  - rewrite (proj2 (Z.eqb_neq (fp8_exponent e5 a) 0)), (proj2 (Z.eqb_neq (fp8_exponent e5 b) 0)) in * by lia.
    cbn [orb] in *. specialize (Hle eq_refl). cbn [fst] in *.
    set (ex := fp8_exponent e5 a + fp8_exponent e5 b - 2 * fp8_bias e5) in *.
    set (pr := fp8_significand e5 a * fp8_significand e5 b). assert (Hpr : 64 <= pr <= 225) by (unfold pr; nia).
    rewrite (proj2 (Z.eqb_neq pr 0)) by lia. cbn [negb andb].
    set (sa := if Z.testbit a 7 then -1 else 1) in *. set (sb := if Z.testbit b 7 then -1 else 1) in *.
    assert (Hex : -28 <= ex) by lia.
    assert (EP : fp8_units (decodePrecision a mode) * fp8_units (decodePrecision b mode) = sa * sb * (pr * 2 ^ (ex + 68))).
    { rewrite Ua, Ub. replace (ex + 68) with ((fp8_exponent e5 a - fp8_bias e5 + 34) + (fp8_exponent e5 b - fp8_bias e5 + 34)) by lia.
      rewrite (Z.pow_add_r 2 (fp8_exponent e5 a - fp8_bias e5 + 34)) by lia. unfold pr. ring. }
    rewrite EP. clear EP Ua Ub.
    assert (Hs : sa * sb = 1 \/ sa * sb = -1) by (unfold sa, sb; destruct (Z.testbit a 7), (Z.testbit b 7); auto).
    set (t := if maxexp - ex <? 16 then Z.shiftr (Z.shiftl pr 7) (maxexp - ex) else 0).
    assert (Et : (if Z.testbit (Z.lxor a b) 7 then - t else t) = sa * sb * t).
    { pose proof (xor_sign a b) as X. fold sa sb in X. destruct (Z.testbit (Z.lxor a b) 7); rewrite <- X; lia. }
    rewrite Et. clear Et.
    assert (T : 0 <= t <= 28800 /\ 0 <= pr * 2 ^ (ex + 68) - t * 2 ^ (maxexp + 61) < 2 ^ (maxexp + 61) /\
              (maxexp <= ex + 7 -> pr * 2 ^ (ex + 68) = t * 2 ^ (maxexp + 61))).
    { set (s := maxexp - ex) in *. assert (E61 : 2 ^ (maxexp + 61) = 2 ^ s * 2 ^ (ex + 61))
        by (rewrite <- Z.pow_add_r by lia; f_equal; lia).
      replace (2 ^ (ex + 68)) with (2 ^ 7 * 2 ^ (ex + 61)) by (rewrite <- Z.pow_add_r by lia; f_equal; lia).
      rewrite E61. pose proof (Z.pow_pos_nonneg 2 (ex + 61) ltac:(lia) ltac:(lia)) as HQ.
      pose proof (Z.pow_pos_nonneg 2 s ltac:(lia) ltac:(lia)) as HS.
      set (Q := 2 ^ (ex + 61)) in *. set (S2 := 2 ^ s) in *.
      assert (R : pr * 2 ^ 7 = t * S2 + (pr * 2 ^ 7 - t * S2) /\ 0 <= pr * 2 ^ 7 - t * S2 < S2 /\ 0 <= t <= 28800 /\
                  (s <= 7 -> pr * 2 ^ 7 = t * S2)).
      { split; [lia|]. unfold t. destruct (Z.ltb_spec s 16) as [H16|H16].
        - rewrite Z.shiftr_div_pow2, Z.shiftl_mul_pow2 by lia. fold S2.
          pose proof (Z.div_mod (pr * 2 ^ 7) S2 ltac:(lia)). pose proof (Z.mod_pos_bound (pr * 2 ^ 7) S2 HS).
          split; [lia|]. split; [split; [apply Z.div_pos; lia|apply Z.div_le_upper_bound; nia]|].
          intros H7. assert (D : pr * 2 ^ 7 = (pr * 2 ^ (7 - s)) * S2).
          { unfold S2. rewrite <- Z.mul_assoc, <- Z.pow_add_r by lia. do 2 f_equal. lia. }
          rewrite D at 1 2. rewrite Z.div_mul by lia. done.
        - assert (2 ^ 16 <= S2) by (apply Z.pow_le_mono_r; lia). lia. }
      destruct R as (_ & R1 & R2 & R3). split; [done|]. split; [nia|]. intros H7. specialize (R3 ltac:(lia)).
      rewrite Z.mul_assoc, R3. lia. }
    destruct T as (T1 & T2 & T3). split; [destruct Hs as [-> | ->]; lia|].
    assert (Q : Z.quot (pr * 2 ^ (ex + 68)) (2 ^ (maxexp + 61)) = t)
      by (symmetry; apply (Z.quot_unique _ _ _ (pr * 2 ^ (ex + 68) - t * 2 ^ (maxexp + 61))); nia).
    assert (N : forall x, -1 * x = - x) by (intros; lia).
    split; [destruct Hs as [-> | ->]; [by rewrite !Z.mul_1_l|rewrite !N, Z.quot_opp_l, Q by lia; lia]|].
    split; [destruct Hs as [-> | ->]; lia|].
    intros Hx. specialize (T3 (Hx eq_refl)). rewrite T3. lia.
Qed.

(** The scale the loop finds is the largest exponent of the group. *)
Lemma dot4_maxexp_spec lanes : forall m, dot4_maxexp e5 lanes m = foldr (fun ab m => if lane_flushed ab then m else Z.max (lane_exponent ab) m) m lanes.
Proof.
  induction lanes as [|[a b] lanes IH]; intros m; [done|]. cbn [dot4_maxexp foldr].
  fold (fp8_frac e5). fold (fp8_exponent e5 a) (fp8_exponent e5 b).
  change ((fp8_exponent e5 a =? 0) || (fp8_exponent e5 b =? 0)) with (lane_flushed (a, b)).
  destruct (lane_flushed (a, b)) eqn:Ef; [by rewrite IH|]. rewrite IH. unfold dot4_lane. fold (fp8_frac e5) (fp8_bias e5).
  fold (fp8_exponent e5 a) (fp8_exponent e5 b). unfold lane_flushed in Ef. cbn [fst snd] in Ef. rewrite Ef. cbn [fst].
  change (fp8_exponent e5 a + fp8_exponent e5 b - 2 * fp8_bias e5) with (lane_exponent (a, b)). clear. induction lanes as [|ab lanes IH]; cbn [foldr]; [lia|]. rewrite IH. destruct (lane_flushed ab); lia.
Qed.

Lemma lane_exponent_range ab : lane_ok ab -> lane_flushed ab = false -> -28 <= lane_exponent ab <= 48.
Proof.
  destruct ab as [a b]. intros [Ha Hb]. unfold lane_flushed, lane_exponent. cbn [fst snd] in *. intros Ef. boolify.
  destruct (fp8_decode e5 a Ha) as [[? _]|[? _]]; [done|]. destruct (fp8_decode e5 b Hb) as [[? _]|[? _]]; [done|].
  unfold fp8_bias. destruct e5; lia.
Qed.
Lemma group_exponent_range lanes : Forall lane_ok lanes ->
  -64 <= group_exponent lanes <= 48 /\ (group_exponent lanes = -64 \/ -28 <= group_exponent lanes) /\
  Forall (fun ab => lane_flushed ab = false -> -28 <= group_exponent lanes /\ lane_exponent ab <= group_exponent lanes) lanes.
Proof.
  induction 1 as [|ab lanes Ha Hl (I1 & I2 & I3)]; cbn [group_exponent foldr]; [split; [lia|split; [by left|constructor]]|].
  fold (group_exponent lanes). destruct (lane_flushed ab) eqn:Ef.
  - split; [done|]. split; [done|]. constructor; [by rewrite Ef|done].
  - pose proof (lane_exponent_range ab Ha Ef). split; [lia|]. split; [lia|]. constructor; [lia|].
    eapply Forall_impl; [exact I3|]. cbn. intros x Hx Hf. specialize (Hx Hf). lia.
Qed.

Definition exact_dot (lanes : list (Z * Z)) : Z := foldr (fun ab s => lane_product ab + s) 0 lanes.

(** The sum of the products, each truncated to units [2^(e - 13)]. *)
Definition truncated_dot (e : Z) (lanes : list (Z * Z)) : Z :=
  foldr (fun ab s => Z.quot (lane_product ab) (2 ^ (e + 61)) + s) 0 lanes.

Lemma dot4_total_spec maxexp lanes : -28 <= maxexp -> Forall lane_ok lanes ->
  Forall (fun ab => lane_flushed ab = false -> lane_exponent ab <= maxexp) lanes ->
  let d := truncated_dot maxexp lanes in
  (forall t, dot4_total e5 maxexp lanes t = t + d) /\
  Z.abs d <= 28800 * Z.of_nat (length lanes) /\
  Z.abs (exact_dot lanes - d * 2 ^ (maxexp + 61)) <= Z.of_nat (length lanes) * 2 ^ (maxexp + 61) /\
  (Forall (fun ab => lane_flushed ab = false -> maxexp <= lane_exponent ab + 7) lanes ->
   exact_dot lanes = d * 2 ^ (maxexp + 61)).
Proof.
  intros Hm Hl. induction Hl as [|[a b] lanes Hok Hl IH]; intros Hle; cbv zeta; cbn [dot4_total exact_dot truncated_dot foldr length].
  - split; lia.
  - apply Forall_cons in Hle as [Hle1 Hle]. destruct (dot4_term_spec maxexp (a, b) Hok Hm Hle1) as (T1 & T2 & T3 & T4).
    specialize (IH Hle). cbv zeta in IH. destruct IH as (I0 & I1 & I2 & I3). cbn [fst snd] in *. rewrite T2 in *.
    fold (exact_dot lanes) (truncated_dot maxexp lanes). set (D := truncated_dot maxexp lanes) in *.
    set (x := Z.quot _ _) in *. set (P := 2 ^ (maxexp + 61)) in *.
    split; [intros t; rewrite I0; lia|]. split; [lia|]. split; [nia|]. intros Hx. apply Forall_cons in Hx as [Hx1 Hx]. rewrite (T4 Hx1), (I3 Hx). lia.
Qed.

Lemma all_flushed m lanes : Forall lane_ok lanes -> Forall (fun ab => lane_flushed ab = true) lanes ->
  exact_dot lanes = 0 /\ truncated_dot m lanes = 0 /\ forall t, dot4_total e5 m lanes t = t.
Proof.
  induction 1 as [|[a b] lanes [Ha Hb] Hl IH]; intros F; [done|]. apply Forall_cons in F as [Fe F].
  destruct (IH F) as (I1 & I2 & I3). cbn [exact_dot truncated_dot foldr dot4_total]. fold (exact_dot lanes) (truncated_dot m lanes).
  rewrite I1, I2. cbn [fst snd] in *. unfold lane_flushed in Fe. cbn [fst snd] in Fe.
  assert (P : lane_product (a, b) = 0).
  { unfold lane_product. cbn [fst snd]. destruct (fp8_decode e5 a Ha) as [[_ ->]|[Ea _]]; [lia|].
    destruct (fp8_decode e5 b Hb) as [[_ ->]|[Eb _]]; [lia|]. boolify. lia. }
  rewrite P. split; [done|]. split; [reflexivity|].
  intros t. rewrite I3. unfold dot4_term, dot4_lane. fold (fp8_frac e5). fold (fp8_exponent e5 a) (fp8_exponent e5 b).
  rewrite Fe. cbn [Z.eqb negb andb]. destruct (Z.testbit (Z.lxor a b) 7); lia.
Qed.

(** The scale and the sum the code computes. *)
Lemma dot4_spec lanes : Forall lane_ok lanes -> (length lanes <= 4)%nat ->
  let e := group_exponent lanes in
  let total := truncated_dot e lanes in
  dot4 mode lanes = num prec32 emax32 total (e - 13) /\ exact prec32 emax32 total (e - 13) /\
  Z.abs total <= 115200 /\
  Z.abs (exact_dot lanes - total * 2 ^ (e + 61)) <= Z.of_nat (length lanes) * 2 ^ (e + 61) /\
  (Forall (fun ab => lane_flushed ab = false -> e <= lane_exponent ab + 7) lanes -> exact_dot lanes = total * 2 ^ (e + 61)).
Proof.
  intros Hl Hn e total.
  assert (E : dot4 mode lanes = SFldexp prec32 emax32 (num prec32 emax32 (dot4_total e5 e lanes 0) 0) (e - 13)).
  { subst e. unfold group_exponent. rewrite <- dot4_maxexp_spec. by destruct e5. }
  rewrite E. clear E. destruct (group_exponent_range lanes Hl) as (B & M & F). fold e in B, M, F.
  assert (S : dot4_total e5 e lanes 0 = total /\ Z.abs total <= 115200 /\
    Z.abs (exact_dot lanes - total * 2 ^ (e + 61)) <= Z.of_nat (length lanes) * 2 ^ (e + 61) /\
    (Forall (fun ab => lane_flushed ab = false -> e <= lane_exponent ab + 7) lanes -> exact_dot lanes = total * 2 ^ (e + 61))).
  { subst total. destruct M as [E|E].
    - destruct (all_flushed e lanes Hl) as (-> & -> & ->).
      { eapply Forall_impl; [exact F|]. cbn. intros ab H. destruct (lane_flushed ab); [done|]. specialize (H eq_refl). lia. }
      lia.
    - destruct (dot4_total_spec e lanes E Hl) as (T0 & T1 & T2 & T3).
      { eapply Forall_impl; [exact F|]. cbn. intros ab H Hf. by destruct (H Hf). }
      rewrite T0. split; [done|]. split; [lia|]. done. }
  destruct S as [-> S].
  assert (X : forall k, -149 <= k <= 104 -> exact prec32 emax32 total k).
  { intros k Hk. apply exact_intro; [reflexivity|destruct S; unfold prec32; lia|exact Hk]. }
  split; [|split; [apply X; lia|done]]. rewrite SFldexp_num; [done|]. apply X. lia.
Qed.
End dot4.

(** C18: FP8 groups.  [dot4] is the truncated sum of the products of up to four operand
    pairs.  Let [e] be the largest exponent among the products whose operands are not
    flushed ([group_exponent]); every product of the decoded operands is truncated towards
    zero to a multiple of [2^(e - 13)] ([truncated_dot]) and the result is exactly the
    sum of these multiples.  The sum fits 24 bits and the integer accumulator, differs from
    the exact sum of the products by at most one unit per lane, and is that sum when all
    products lie within seven binades of the largest.  (Products are integers counted in
    units of [2^-74], so [2^(e - 13)] is [2^(e + 61)] of them.) *)
Theorem fp8_dot4_truncated_sum (e5 : bool) (lanes : list (Z * Z)) :
  Forall lane_ok lanes -> (length lanes <= 4)%nat ->
  let e := group_exponent e5 lanes in
  let total := truncated_dot e5 e lanes in
  dot4 (if e5 then Fp8E5M2 else Fp8E4M3) lanes = num prec32 emax32 total (e - 13) /\
  exact prec32 emax32 total (e - 13) /\ Z.abs total <= 115200 /\
  Z.abs (exact_dot e5 lanes - total * 2 ^ (e + 61)) <= Z.of_nat (length lanes) * 2 ^ (e + 61) /\
  (Forall (fun ab => lane_flushed e5 ab = false -> e <= lane_exponent e5 ab + 7) lanes ->
   exact_dot e5 lanes = total * 2 ^ (e + 61)).
Proof. intros Hl Hn. exact (dot4_spec e5 lanes Hl Hn). Qed.

(** [1.125 * -1.125] is lost, [480 * 480] exact, [8 * 2.25 = 18] truncated to [16]. *)
Lemma fp8_dot4_truncated_sum_witness :
  let lanes := [(0x39, 0xb9); (0x7f, 0x7f); (0x50, 0x41)] in
  group_exponent false lanes = 16 /\ truncated_dot false 16 lanes = 28802 /\
  dot4 Fp8E4M3 lanes = num prec32 emax32 28802 3.
Proof.
  split; [vm_compute; reflexivity|]. split; [vm_compute; reflexivity|].
  destruct (fp8_dot4_truncated_sum false [(0x39, 0xb9); (0x7f, 0x7f); (0x50, 0x41)]) as [H _].
  - repeat constructor; cbn; discriminate.
  - cbn. lia.
  - exact H.
Defined.
