(* ===== verification/TileArray.v ===== *)
(** * The bank of tile units ([tileunit/tileUnitArrayModel.h], [tileunit/tileUnit.h] and the
      request checks of [array/computeArray.h] under [src/src/sst/elements/golem/])

    [TileUnitArrayModel<float>] is the functional side of a core's arrays: every array has
    one operand context (a matrix, an input vector), one output vector, an output mode and,
    in the packed precisions, the raw words of its processing elements.  The vectors the
    source indexes by array are the fields of one record per array here.  An asynchronous
    transfer applies its operation when it completes, so an operation below is the body of
    the completion; the transfer's latency and its trace are not part of this file. *)

From Stdlib Require Import ZArith Lia.
From stdpp Require Import base numbers functions list.
From S2P Require Import Prelude Ieee Fp16 AttentionBase ComputeUnit.

Inductive OutputMode := Overwrite | Accumulate.
#[export] Instance OutputMode_eq_dec : EqDecision OutputMode.
Proof. solve_decision. Defined.

(** Construction parameters. *)
Record TileUnitConfig := mkTileUnitConfig {
  numArrays : Z; inputArraySize : Z; outputArraySize : Z;
  functionalCompute : bool; timingNumericalFastPath : bool;
  attentionClusterQkArrays : Z; matrixBroadcastMaxFanout : Z }.

Record ArrayContext := mkContext {
  inputVector : list spec_float; outputVector : list spec_float; matrixData : list spec_float;
  outputMode : OutputMode; activeInputColumns : Z; projectionFp16Context : bool;
  rawMatrix : list Z; rawInput : list Z; rawOutput : list Z }.

Record TileBank := mkBank {
  contexts : Z -> ArrayContext;
  precisionEnabled : bool; precisionMode : ComputeMode; activeK : Z; rawPacketCapacity : Z; rawAllocated : bool }.

(** [T()] for [float]. *)
Definition tile_zero : spec_float := S754_zero false.

Section tile_bank.
Context (c : TileUnitConfig).

Definition array_inputs : nat := Z.to_nat (inputArraySize c).
Definition array_rows : nat := Z.to_nat (outputArraySize c).

Definition context_new : ArrayContext :=
  mkContext (replicate array_inputs tile_zero) (replicate array_rows tile_zero)
            (replicate (array_inputs * array_rows) tile_zero) Overwrite (inputArraySize c) false [] [] [].
Definition TileBank_new : TileBank := mkBank (fun _ => context_new) false Fp32 0 0 false.

Definition requiresNumericalData : bool := functionalCompute c || negb (timingNumericalFastPath c).
Definition validOperandContext (arrayID operandBank : Z) : bool := (arrayID <? numArrays c) && (operandBank =? 0).

(** One array's record changed. *)
Definition on_array (r : Z) (f : ArrayContext -> ArrayContext) (b : TileBank) : TileBank :=
  mkBank (<[r := f (contexts b r)]> (contexts b)) (precisionEnabled b) (precisionMode b) (activeK b)
         (rawPacketCapacity b) (rawAllocated b).

Definition with_matrix (fp16 : bool) (m : list spec_float) (x : ArrayContext) : ArrayContext :=
  mkContext (inputVector x) (outputVector x) m (outputMode x) (activeInputColumns x) fp16
            (rawMatrix x) (rawInput x) (rawOutput x).
Definition with_input (v : list spec_float) (x : ArrayContext) : ArrayContext :=
  mkContext v (outputVector x) (matrixData x) (outputMode x) (activeInputColumns x) (projectionFp16Context x)
            (rawMatrix x) (rawInput x) (rawOutput x).
Definition with_output (v : list spec_float) (x : ArrayContext) : ArrayContext :=
  mkContext (inputVector x) v (matrixData x) (outputMode x) (activeInputColumns x) (projectionFp16Context x)
            (rawMatrix x) (rawInput x) (rawOutput x).
Definition with_mode (m : OutputMode) (x : ArrayContext) : ArrayContext :=
  mkContext (inputVector x) (outputVector x) (matrixData x) m (activeInputColumns x) (projectionFp16Context x)
            (rawMatrix x) (rawInput x) (rawOutput x).
Definition with_columns (k : Z) (x : ArrayContext) : ArrayContext :=
  mkContext (inputVector x) (outputVector x) (matrixData x) (outputMode x) k (projectionFp16Context x)
            (rawMatrix x) (rawInput x) (rawOutput x).
Definition with_raw (m i o : list Z) (x : ArrayContext) : ArrayContext :=
  mkContext (inputVector x) (outputVector x) (matrixData x) (outputMode x) (activeInputColumns x)
            (projectionFp16Context x) m i o.

(** ** Request checks *)

Definition validateActiveColumnRequest (activeColumns : Z) : bool :=
  (0 <? activeColumns) && (activeColumns <=? inputArraySize c).
Definition validateActiveMatrixRequest (arrayID elements activeColumns elemBytes : Z) : bool :=
  (arrayID <? numArrays c) && validateActiveColumnRequest activeColumns &&
  (elements =? activeColumns * outputArraySize c) && (0 <? elemBytes).
Definition validateActiveInputRequest (arrayID elements activeColumns elemBytes : Z) : bool :=
  (arrayID <? numArrays c) && validateActiveColumnRequest activeColumns &&
  (elements =? activeColumns) && (0 <? elemBytes).
Definition validateActiveLaunchRequest (arrayID activeColumns : Z) : bool :=
  (arrayID <? numArrays c) && validateActiveColumnRequest activeColumns.

Definition all_arrays (ids : list Z) : bool := forallb (fun id => id <? numArrays c) ids.
Definition unique_arrays (ids : list Z) : bool := bool_decide (NoDup ids).

Definition validateMatrixBroadcastRequest (ids : list Z) (elements elemBytes activeColumns : Z) : bool :=
  let columns := if activeColumns =? 0 then inputArraySize c else activeColumns in
  negb (bool_decide (ids = [])) && (Z.of_nat (length ids) <=? matrixBroadcastMaxFanout c) && unique_arrays ids &&
  validateActiveColumnRequest columns && (elements =? columns * outputArraySize c) && (0 <? elemBytes) && all_arrays ids.
Definition validateInputMulticastRequest (ids : list Z) (elements elemBytes : Z) : bool :=
  negb (bool_decide (ids = [])) && (Z.of_nat (length ids) <=? matrixBroadcastMaxFanout c) && unique_arrays ids &&
  (0 <? elements) && (elements <=? inputArraySize c) && (0 <? elemBytes) && all_arrays ids.
Definition validateInputScatterRequest (ids : list Z) (elements elemBytes : Z) : bool :=
  negb (bool_decide (ids = [])) && unique_arrays ids &&
  (elements =? Z.of_nat (length ids) * inputArraySize c) && (0 <? elemBytes) && all_arrays ids.

(** [arrayIDs[index] == index] for every index. *)
Definition arrays_from_zero (ids : list Z) : bool := bool_decide (ids = map Z.of_nat (seq 0 (length ids))).
(** [T] is [float]: its size is 4 and [std::is_same<T, float>] holds. *)
Definition validateOutputGroupRequest (ids : list Z) (elemBytes : Z) (class : AttentionClusterTrafficClass) : bool :=
  let correctElementWidth := (elemBytes =? 4) || (bool_decide (class = ProjectionOutput) && (elemBytes =? 2)) in
  if negb (numArrays c =? 64) || negb (inputArraySize c =? 64) || negb (outputArraySize c =? 64) ||
     negb correctElementWidth then false
  else if bool_decide (class = SequentialQkScoreOut) then (length ids =? 64)%nat && arrays_from_zero ids
  else if bool_decide (class = ProjectionOutput) || bool_decide (class = SequentialPvORestore) ||
          bool_decide (class = SequentialPvOOutput)
  then negb (bool_decide (ids = [])) && (length ids <=? 64)%nat && arrays_from_zero ids
  else match ids with
  | [a; b] => if negb (b =? u32 (a + 1)) || negb (a mod 2 =? 0) then false
              else if bool_decide (class = QkScoreOut) then b <? attentionClusterQkArrays c
              else if bool_decide (class = PvOFinalDrain) then (attentionClusterQkArrays c <=? a) && (b <? 64)
              else false
  | _ => false
  end.

(** ** Programming the operands

    A request is refused ([None]) or accepted with what it does when the transfer
    completes. *)

(** [std::transform(v.begin(), v.end(), target.begin(), static_cast<T>)]. *)
Definition transform_into (v target : list spec_float) : list spec_float :=
  map to_float v ++ drop (length v) target.
Definition numeric (f : list spec_float -> list spec_float) (v : list spec_float) : list spec_float :=
  if requiresNumericalData then f v else v.

Definition setMatrixItem (arrayID index : Z) (value : spec_float) (b : TileBank) : result TileBank :=
  if negb requiresNumericalData then Ok b
  else if negb ((0 <=? arrayID) && (arrayID <? numArrays c) && (0 <=? index) &&
                (index <? Z.of_nat (length (matrixData (contexts b arrayID))))) then Throw out_of_range
  else Ok (on_array arrayID (fun x => with_matrix false (<[Z.to_nat index := to_float value]> (matrixData x)) x) b).
Definition setVectorItem (arrayID index : Z) (value : spec_float) (b : TileBank) : result TileBank :=
  if negb requiresNumericalData then Ok b
  else if negb ((0 <=? arrayID) && (arrayID <? numArrays c) && (0 <=? index) &&
                (index <? Z.of_nat (length (inputVector (contexts b arrayID))))) then Throw out_of_range
  else Ok (on_array arrayID (fun x => with_input (<[Z.to_nat index := to_float value]> (inputVector x)) x) b).

Definition program_matrix (fp16 : bool) (matrix : list spec_float) (arrayID : Z) : TileBank -> TileBank :=
  on_array arrayID (fun x => with_matrix fp16 (numeric (transform_into matrix) (matrixData x)) x).
Definition for_arrays (f : Z -> TileBank -> TileBank) (ids : list Z) (b : TileBank) : TileBank :=
  foldl (fun b id => f id b) b ids.

Definition programMatrixBankAsync (arrayID operandBank : Z) (matrix : list spec_float) (elemBytes : Z) :
    option (TileBank -> TileBank) :=
  if negb (validOperandContext arrayID operandBank) ||
     negb (Z.of_nat (length matrix) =? inputArraySize c * outputArraySize c) || (elemBytes =? 0) then None
  else Some (program_matrix false matrix arrayID).
Definition programMatrixGroupBankAsync (ids : list Z) (operandBank : Z) (matrix : list spec_float) (elemBytes : Z) :
    option (TileBank -> TileBank) :=
  if negb (validateMatrixBroadcastRequest ids (Z.of_nat (length matrix)) elemBytes 0) || (1 <=? operandBank) then None
  else Some (for_arrays (program_matrix false matrix) ids).
Definition programMatrixGroupClassBankAsync (ids : list Z) (operandBank : Z) (matrix : list spec_float) (elemBytes : Z)
    (class : AttentionClusterTrafficClass) : option (TileBank -> TileBank) :=
  if negb (validateMatrixBroadcastRequest ids (Z.of_nat (length matrix)) elemBytes 0) || (1 <=? operandBank) ||
     bool_decide (class = Legacy) then None
  else Some (for_arrays (program_matrix (bool_decide (class = ProjectionWeights)) matrix) ids).

(** Row [row] of a compact matrix, widened with zeros to the array's columns. *)
Definition compact_row (matrix : list spec_float) (activeColumns row : nat) : list spec_float :=
  map to_float (take activeColumns (drop (row * activeColumns) matrix)) ++
  replicate (array_inputs - activeColumns) tile_zero.
Definition writeCompactMatrix (matrix : list spec_float) (activeColumns : Z) (arrayID : Z) (b : TileBank) : TileBank :=
  if negb requiresNumericalData then b
  else on_array arrayID (fun x => with_matrix false
         (flat_map (compact_row matrix (Z.to_nat activeColumns)) (seq 0 array_rows)) x) b.
Definition programMatrixActiveBankAsync (arrayID operandBank : Z) (matrix : list spec_float)
    (activeColumns elemBytes : Z) : option (TileBank -> TileBank) :=
  if negb (validateActiveMatrixRequest arrayID (Z.of_nat (length matrix)) activeColumns elemBytes) ||
     (1 <=? operandBank) then None
  else Some (writeCompactMatrix matrix activeColumns arrayID).
Definition programMatrixGroupActiveBankAsync (ids : list Z) (operandBank : Z) (matrix : list spec_float)
    (activeColumns elemBytes : Z) : option (TileBank -> TileBank) :=
  if negb (validateMatrixBroadcastRequest ids (Z.of_nat (length matrix)) elemBytes activeColumns) ||
     (1 <=? operandBank) then None
  else Some (for_arrays (writeCompactMatrix matrix activeColumns) ids).

Definition programInputBankAsync (arrayID operandBank : Z) (input : list spec_float) (elemBytes : Z) :
    option (TileBank -> TileBank) :=
  if negb (validOperandContext arrayID operandBank) || bool_decide (input = []) ||
     (inputArraySize c <? Z.of_nat (length input)) || (elemBytes =? 0) then None
  else Some (on_array arrayID (fun x => with_input (numeric (transform_into input) (inputVector x)) x)).
(** [std::fill(target, T())], then the transform. *)
Definition fill_input (input : list spec_float) (arrayID : Z) : TileBank -> TileBank :=
  on_array arrayID (fun x => with_input (numeric (transform_into input) (map (const tile_zero) (inputVector x))) x).
Definition programInputGroupBankAsync (ids : list Z) (operandBank : Z) (input : list spec_float) (elemBytes : Z)
    (class : AttentionClusterTrafficClass) : option (TileBank -> TileBank) :=
  let n := Z.of_nat (length input) in
  let qk := attentionClusterQkArrays c in
  let validPvTopology := negb (bool_decide (class = PvPInput)) ||
    match ids with
    | [a; b] => ((n =? 32) || (n =? 64)) && (qk <=? a) && (b =? u32 (a + 1)) && (a mod 2 =? 0) && (b <? 64)
    | _ => false
    end in
  let validQkTopology := negb (bool_decide (class = QkQPair)) ||
    match ids with [a] => (a <? qk) && (n =? 64) | _ => false end in
  let validSequentialPvTopology := negb (bool_decide (class = SequentialPvInput)) ||
    match ids with [a] => (n =? 64) && (a <? 64) | _ => false end || ((length ids =? 64)%nat && (n =? 64)) in
  if negb (validateInputMulticastRequest ids n elemBytes) || (1 <=? operandBank) ||
     negb (bool_decide (class = QkQPair) || bool_decide (class = PvPInput) || bool_decide (class = SequentialPvInput)) ||
     negb validQkTopology || negb validPvTopology || negb validSequentialPvTopology then None
  else Some (for_arrays (fill_input input) ids).
Definition programInputActiveBankAsync (arrayID operandBank : Z) (input : list spec_float)
    (activeColumns elemBytes : Z) : option (TileBank -> TileBank) :=
  if negb (validateActiveInputRequest arrayID (Z.of_nat (length input)) activeColumns elemBytes) ||
     (1 <=? operandBank) then None
  else Some (fill_input input arrayID).

(** Lane [l] of a scatter goes to the [l]-th array. *)
Fixpoint scatter_inputs (ids : list Z) (inputs : list spec_float) (b : TileBank) : TileBank :=
  match ids with
  | [] => b
  | id :: ids' => scatter_inputs ids' (drop array_inputs inputs)
      (on_array id (fun x => with_input (transform_into (take array_inputs inputs) (inputVector x)) x) b)
  end.
Definition programInputScatterBankAsync (ids : list Z) (operandBank : Z) (inputs : list spec_float) (elemBytes : Z)
    (class : AttentionClusterTrafficClass) : option (TileBank -> TileBank) :=
  if negb (validateInputScatterRequest ids (Z.of_nat (length inputs)) elemBytes) || (1 <=? operandBank) ||
     negb (bool_decide (class = SequentialQkInputScatter) || bool_decide (class = SequentialPvInputScatter) ||
           bool_decide (class = ProjectionInputScatter)) then None
  else Some (scatter_inputs ids inputs).

Definition programOperandsAsync (arrayID : Z) (matrix input : list spec_float) (elemBytes : Z) :
    option (TileBank -> TileBank) :=
  if negb (arrayID <? numArrays c) || negb (Z.of_nat (length matrix) =? inputArraySize c * outputArraySize c) ||
     negb (Z.of_nat (length input) =? inputArraySize c) || (elemBytes =? 0) then None
  else Some (on_array arrayID (fun x =>
         with_input (numeric (transform_into input) (inputVector x))
           (with_matrix false (numeric (transform_into matrix) (matrixData x)) x))).

(** ** Reading and writing the outputs

    A read gives the values its callback receives. *)

Definition readOutputAsync (arrayID elemBytes : Z) : option (TileBank -> list spec_float) :=
  if (numArrays c <=? arrayID) || (elemBytes =? 0) then None
  else Some (fun b => outputVector (contexts b arrayID)).
Definition readOutputClassAsync (arrayID elemBytes : Z) (class : AttentionClusterTrafficClass) :
    option (TileBank -> list spec_float) :=
  if (numArrays c <=? arrayID) || (elemBytes =? 0) || negb (bool_decide (class = QkScoreOut)) then None
  else Some (fun b => outputVector (contexts b arrayID)).
(** The completion stops with [callback(false, tag, {})] at an array out of range. *)
Fixpoint gather_outputs (ids : list Z) (values : list spec_float) (b : TileBank) : bool * list spec_float :=
  match ids with
  | [] => (true, values)
  | id :: ids' =>
      if numArrays c <=? id then (false, []) else gather_outputs ids' (values ++ outputVector (contexts b id)) b
  end.
Definition readOutputGroupClassAsync (ids : list Z) (elemBytes : Z) (class : AttentionClusterTrafficClass) :
    option (TileBank -> bool * list spec_float) :=
  if negb (validateOutputGroupRequest ids elemBytes class) then None else Some (gather_outputs ids []).

(** The low bytes of a float, [min(sizeof(T), elemBytes)] of them, in a zeroed field. *)
Definition output_bytes (elemBytes : nat) (x : spec_float) : list Z :=
  map (fun i => if (i <? 4)%nat then u8 (Z.shiftr (bits_of_float x) (8 * Z.of_nat i)) else 0) (seq 0 elemBytes).
Definition readOutputBytesAsync (arrayID elemBytes : Z) : option (TileBank -> list Z) :=
  if (numArrays c <=? arrayID) || (elemBytes =? 0) then None
  else Some (fun b => flat_map (output_bytes (Z.to_nat elemBytes)) (outputVector (contexts b arrayID))).

Definition write_output (v : list spec_float) (arrayID : Z) : TileBank -> TileBank :=
  on_array arrayID (fun x => with_output (transform_into v (outputVector x)) x).
Fixpoint scatter_outputs (ids : list Z) (outputs : list spec_float) (b : TileBank) : TileBank :=
  match ids with
  | [] => b
  | id :: ids' => scatter_outputs ids' (drop array_rows outputs) (write_output (take array_rows outputs) id b)
  end.
Definition writeOutputGroupClassAsync (ids : list Z) (outputs : list spec_float) (elemBytes : Z)
    (class : AttentionClusterTrafficClass) : option (TileBank -> TileBank) :=
  if negb (validateOutputGroupRequest ids elemBytes class) ||
     negb (bool_decide (class = SequentialPvORestore) || bool_decide (class = ProjectionOutput)) ||
     negb (Z.of_nat (length outputs) =? Z.of_nat (length ids) * outputArraySize c) then None
  else Some (scatter_outputs ids outputs).
Definition writeOutputAsync (arrayID : Z) (output : list spec_float) (elemBytes : Z) : option (TileBank -> TileBank) :=
  if (numArrays c <=? arrayID) || negb (Z.of_nat (length output) =? outputArraySize c) || (elemBytes =? 0) then None
  else Some (write_output output arrayID).

Definition moveOutputToInput (src dest : Z) (b : TileBank) : TileBank :=
  on_array dest (fun x => let v := outputVector (contexts b src) in
    with_input (v ++ drop (length v) (inputVector x)) x) b.

(** ** Precisions and raw operands *)

(** [setPacketLane]: the lane of one element in a row of words; [.at] checks the word. *)
Definition setPacketLane (mode : ComputeMode) (words : list Z) (base element value : Z) : result (list Z) :=
  let bits := inputBits mode in
  let lanes := lanesPerBeat mode in
  let shift := element mod lanes * bits in
  let mask := if bits =? 32 then 0xffffffff else Z.shiftl 1 bits - 1 in
  match words !! Z.to_nat (u32 (base + element / lanes)) with
  | Some word =>
      Ok (<[Z.to_nat (u32 (base + element / lanes)) :=
             Z.lor (Z.land word (2 ^ 32 - 1 - u32 (Z.shiftl mask shift))) (u32 (Z.shiftl (Z.land value mask) shift))]> words)
  | None => Throw out_of_range
  end.

Definition with_precision (enabled : bool) (mode : ComputeMode) (k capacity : Z) (allocated : bool) (b : TileBank) :=
  mkBank (contexts b) enabled mode k capacity allocated.
Definition map_contexts (f : ArrayContext -> ArrayContext) (b : TileBank) : TileBank :=
  mkBank (fun r => f (contexts b r)) (precisionEnabled b) (precisionMode b) (activeK b) (rawPacketCapacity b) (rawAllocated b).

(** [rawMatrix.empty()] is [negb rawAllocated] up to the first configuration. *)
Definition configurePrecision (spec : PrecisionSpecV02) (k : Z) (b : TileBank) : option TileBank :=
  if negb (validPrecision spec) || (k =? 0) || (inputArraySize c <? k) then None
  else match ComputeMode_of (compute_mode spec) with
  | None => None
  | Some selected =>
      let lanes := lanesPerBeat selected in
      let packetCapacity := u32 ((inputArraySize c + lanes - 1) / lanes) in
      let fresh := requiresNumericalData && (negb (rawAllocated b) || negb (packetCapacity =? rawPacketCapacity b)) in
      let b1 := if fresh
        then map_contexts (fun x => with_raw (replicate (Z.to_nat (packetCapacity * outputArraySize c)) 0)
                                             (replicate (Z.to_nat packetCapacity) 0) (rawOutput x) x) b
        else b in
      let b2 := map_contexts (fun x => with_raw (rawMatrix x) (rawInput x)
                  (if bool_decide (rawOutput x = []) then replicate array_rows 0 else rawOutput x) x) b1 in
      Some (with_precision true selected k (if fresh then packetCapacity else rawPacketCapacity b)
                           (rawAllocated b || fresh) b2)
  end.
Definition useLegacyPrecision (b : TileBank) : TileBank :=
  with_precision false (precisionMode b) (activeK b) (rawPacketCapacity b) (rawAllocated b) b.

Definition setMatrixBits (tu idx bits : Z) (b : TileBank) : result TileBank :=
  if negb requiresNumericalData then Ok b
  else if negb ((0 <=? tu) && (tu <? numArrays c)) then Throw out_of_range
  else let row := idx / inputArraySize c in
       let col := idx mod inputArraySize c in
       let x := contexts b tu in
       let! words := setPacketLane (precisionMode b) (rawMatrix x) (u32 (row * rawPacketCapacity b)) col bits in
       Ok (on_array tu (fun x => with_raw words (rawInput x) (rawOutput x) x) b).
Definition setVectorBits (tu idx bits : Z) (b : TileBank) : result TileBank :=
  if negb requiresNumericalData then Ok b
  else if negb ((0 <=? tu) && (tu <? numArrays c)) then Throw out_of_range
  else let x := contexts b tu in
       let! words := setPacketLane (precisionMode b) (rawInput x) 0 idx bits in
       Ok (on_array tu (fun x => with_raw (rawMatrix x) words (rawOutput x) x) b).
Definition outputBits (tu row : Z) (b : TileBank) : result Z :=
  if negb ((0 <=? tu) && (tu <? numArrays c)) then Throw out_of_range
  else match rawOutput (contexts b tu) !! Z.to_nat row with Some w => Ok w | None => Throw out_of_range end.
Definition setOutputBits (tu row bits : Z) (b : TileBank) : result TileBank :=
  if negb ((0 <=? tu) && (tu <? numArrays c)) then Throw out_of_range
  else match rawOutput (contexts b tu) !! Z.to_nat row with
  | Some _ => Ok (on_array tu (fun x => with_raw (rawMatrix x) (rawInput x) (<[Z.to_nat row := u32 bits]> (rawOutput x)) x) b)
  | None => Throw out_of_range
  end.

(** ** Computation *)

Definition clearOutputVector (arrayID : Z) (b : TileBank) : TileBank :=
  on_array arrayID (fun x =>
    let y := with_output (map (const tile_zero) (outputVector x)) x in
    if precisionEnabled b then with_raw (rawMatrix y) (rawInput y) (map (const 0) (rawOutput y)) y else y) b.
Definition configureOutputMode (arrayID command : Z) (b : TileBank) : TileBank :=
  if numArrays c <=? arrayID then b
  else if command =? 0 then on_array arrayID (with_mode Overwrite) b
  else if command =? 1 then on_array arrayID (with_mode Accumulate) b
  else if command =? 2 then clearOutputVector arrayID b
  else b.

(** [TileUnit<float>::dot] and [::projectionDot] of one row. *)
Definition TileUnit_dot (row input : list spec_float) : spec_float :=
  ComputeUnit_dot pe_add pe_multiply row input tile_zero.
Definition TileUnit_projectionDot (row input : list spec_float) : GolemFp16 :=
  ComputeUnit_dotConverted GolemFp16_add GolemFp16_mul (fun x => x) GolemFp16_of_float row input (GolemFp16_of_int 0).

(** One row of [computeBank] outside the packed precisions; [old] is [outputVector[row]]. *)
Definition compute_row (x : ArrayContext) (accumulate : bool) (row : nat) (old : spec_float) : spec_float :=
  let k := Z.to_nat (activeInputColumns x) in
  let weights := take k (drop (row * array_inputs) (matrixData x)) in
  let input := take k (inputVector x) in
  if projectionFp16Context x then
    let dot := TileUnit_projectionDot weights input in
    GolemFp16_to_float (if accumulate then GolemFp16_add dot (GolemFp16_of_float old) else dot)
  else
    let dot := TileUnit_dot weights input in
    if accumulate then pe_add old dot else dot.

(** [outputVector.resize(outputArraySize)]. *)
Definition resize_output (v : list spec_float) : list spec_float :=
  take array_rows v ++ replicate (array_rows - length v) tile_zero.

(** [words[i]] of a raw pointer into a row of packets. *)
Definition packet_words (words : list Z) (base : Z) (i : Z) : Z := default 0 (words !! Z.to_nat (base + i)).
Fixpoint compute_packets (mode : ComputeMode) (x : ArrayContext) (capacity packets : Z) (k : nat) (accumulate : bool)
    (row : nat) (olds : list Z) : result (list Z) :=
  match olds with
  | [] => Ok []
  | old :: olds' =>
      let! w := MultiPrecision_dotPackets mode (packet_words (rawMatrix x) (Z.of_nat row * capacity))
                  (packet_words (rawInput x) 0) packets k (if accumulate then old else 0) in
      let! ws := compute_packets mode x capacity packets k accumulate (S row) olds' in
      Ok (w :: ws)
  end.

Definition computeBank (arrayID operandBank : Z) (b : TileBank) : result TileBank :=
  if negb (validOperandContext arrayID operandBank) then Ok b
  else
    let x := contexts b arrayID in
    let accumulate := bool_decide (outputMode x = Accumulate) in
    if precisionEnabled b then
      let lanes := lanesPerBeat (precisionMode b) in
      let k := activeInputColumns x in
      let packets := u32 (k + lanes - 1) / lanes in
      let! out := compute_packets (precisionMode b) x (rawPacketCapacity b) packets (Z.to_nat k) accumulate 0 (rawOutput x) in
      Ok (on_array arrayID (fun x => with_raw (rawMatrix x) (rawInput x) out x) b)
    else
      let b1 := on_array arrayID (fun x => with_output (resize_output (outputVector x)) x) b in
      let b2 := if accumulate then b1 else clearOutputVector arrayID b1 in
      Ok (on_array arrayID (fun y => with_output (imap (compute_row y accumulate) (outputVector y)) y) b2).
Definition compute (arrayID : Z) (b : TileBank) : result TileBank := computeBank arrayID 0 b.

(** [beginComputation...] notes the columns and posts the event [handleSelfEvent] handles. *)
Definition beginComputationBank (arrayID operandBank : Z) (b : TileBank) : option TileBank :=
  if negb (validOperandContext arrayID operandBank) then None
  else Some (on_array arrayID (with_columns (if precisionEnabled b then activeK b else inputArraySize c)) b).
Definition beginComputationActiveBank (arrayID operandBank activeColumns : Z) (b : TileBank) : option TileBank :=
  if negb (validOperandContext arrayID operandBank) || negb (validateActiveColumnRequest activeColumns) then None
  else Some (on_array arrayID (with_columns activeColumns) b).
Definition handleSelfEvent (arrayID operandBank : Z) (b : TileBank) : result TileBank :=
  if functionalCompute c then computeBank arrayID operandBank b
  else if bool_decide (outputMode (contexts b arrayID) = Overwrite) then Ok (clearOutputVector arrayID b)
  else Ok b.

End tile_bank.
