(* ===== verification/TaskDerivation.v ===== *)
(** * Tiles, tasks and addresses of a window
      ([tileengine/workloadPlacement.h] and the task derivation of
      [tileengine/tileEngine.h] under [src/src/sst/elements/golem/])

    A worker receives a header that describes a blocked matrix product; [deriveTask] turns
    a task index and a position in the reuse window into the tile it stands for and the
    addresses of its operands.  With a placement, tile owners come from explicit maps,
    otherwise from the arithmetic of worker and node counts.  A vector's [at] and
    [operator[]] out of range are [Throw]; a zero divisor, which [startWindowImpl]
    refuses beforehand, yields [Z]'s zero quotient. *)

From Stdlib Require Import ZArith Lia.
From stdpp Require Import base numbers list sorting.
From S2P Require Import Prelude Ieee ComputeUnit.

(** ** The header of a window *)

Record WorkerTaskListHeader := mkHeader {
  worker_slot : Z; task_count : Z; active_worker_cores : Z; total_groups : Z; data_memory_node_count : Z;
  mem_node_size : Z; h_m : Z; h_n : Z; h_k : Z; hw_input_size : Z; hw_output_size : Z;
  block_m : Z; block_n : Z; block_k : Z; elem_bytes : Z; mat_stride_bytes : Z; vec_stride_bytes : Z;
  off_gemm_mat_base : Z; off_gemm_vec_base : Z; off_gemm_out_base : Z;
  local_mat_ping_gm_addr : Z; local_mat_pong_gm_addr : Z; local_mat_slot2_gm_addr : Z; local_mat_slot3_gm_addr : Z;
  local_vec_ping_gm_addr : Z; local_vec_pong_gm_addr : Z; local_vec_slot2_gm_addr : Z; local_vec_slot3_gm_addr : Z;
  local_mat_slot_stride_bytes : Z; local_vec_slot_stride_bytes : Z; local_slot_count : Z;
  local_accum_gm_addr : Z; local_out_gm_addr : Z; finished_mailbox_addr : Z;
  a_reuse_n_tiles : Z; n_group_count : Z; b_reuse_m_tiles : Z; m_group_count : Z; data_node_map_mode : Z;
  descriptor_start_cycle : Z; operand_layout : Z; attention_query_length : Z; attention_rows_per_band : Z;
  scheduler_worker_slot : Z; attention_node_stride_bytes : Z; attention_pv_cache_gm_addr : Z; attention_pv_cache_bytes : Z;
  attention_key_window_major : bool; attention_causal : bool; attention_group_row_begin : Z; attention_query_band : Z;
  attention_macro_task_ids : list Z; attention_rope : bool; attention_rope_table : list spec_float }.

Record WorkerWindowDescriptor := mkWindow {
  w_task_id : Z; w_task_flags : Z; w_mat_base_addr : Z; w_vec_base_addr : Z; w_accum_base_addr : Z;
  w_completion_flag_addr : Z; w_completion_value : Z; w_k_begin : Z; w_k_count : Z; w_block_n : Z;
  w_hw_input_size : Z; w_hw_output_size : Z; w_array_input_size : Z; w_array_output_size : Z; w_elem_bytes : Z;
  w_mat_stride_bytes : Z; w_vec_stride_bytes : Z; w_local_mat_gm_addr : Z; w_local_vec_gm_addr : Z;
  w_local_accum_gm_addr : Z; w_local_out_gm_addr : Z; w_c_base_addr : Z }.

(** [vector::at] and [operator[]]. *)
Definition vec_at {A} (l : list A) (i : Z) : result A :=
  if i <? 0 then Throw out_of_range else match l !! Z.to_nat i with Some x => Ok x | None => Throw out_of_range end.

(** ** Placement *)

Record WorkloadPlacement := mkPlacement {
  dataNodes : list Z; taskNodes : list Z; aNodes : list Z; bNodes : list Z; replicateB : bool }.

(** [std::adjacent_find(..) != end()]. *)
Fixpoint adjacent_equal (l : list Z) : bool :=
  match l with
  | x :: (y :: _) as l' => (x =? y) || adjacent_equal l'
  | _ => false
  end.

(** [std::binary_search] on a sorted range is membership. *)
Definition binary_search (l : list Z) (x : Z) : bool := existsb (Z.eqb x) l.

Definition WorkloadPlacement_valid (p : WorkloadPlacement) (physicalNodes mTiles nTiles macroTasks : Z) : bool :=
  match dataNodes p with
  | [] => false
  | _ =>
      (Z.of_nat (length (taskNodes p)) =? macroTasks) && (Z.of_nat (length (aNodes p)) =? mTiles) &&
      (Z.of_nat (length (bNodes p)) =? nTiles) &&
      let sorted := merge_sort Z.le (dataNodes p) in
      negb (default 0 (head sorted) =? 0) && (default 0 (last sorted) <=? physicalNodes) && negb (adjacent_equal sorted) &&
      forallb (forallb (binary_search sorted)) [taskNodes p; aNodes p; bNodes p]
  end.

(** [std::count]. *)
Fixpoint std_count (x : Z) (l : list Z) : Z :=
  match l with
  | [] => 0
  | y :: l' => (if y =? x then 1 else 0) + std_count x l'
  end.

Definition aSlot (p : WorkloadPlacement) (tile : Z) : result Z :=
  let! node := vec_at (aNodes p) tile in Ok (std_count node (take (Z.to_nat tile) (aNodes p))).
Definition bSlot (p : WorkloadPlacement) (tile : Z) : result Z :=
  if replicateB p then Ok tile
  else let! node := vec_at (bNodes p) tile in Ok (std_count node (take (Z.to_nat tile) (bNodes p))).
Definition aAddress (p : WorkloadPlacement) (tile k kTiles nodeSize offset stride : Z) : result Z :=
  let! node := vec_at (aNodes p) tile in
  let! slot := aSlot p tile in
  Ok (node ⊠ nodeSize ⊞ offset ⊞ (slot ⊠ kTiles ⊞ k) ⊠ stride).
Definition bAddress (p : WorkloadPlacement) (tile k kTiles cNode nodeSize offset stride : Z) : result Z :=
  let! node := (if replicateB p then Ok cNode else vec_at (bNodes p) tile) in
  let! slot := bSlot p tile in
  Ok (node ⊠ nodeSize ⊞ offset ⊞ (slot ⊠ kTiles ⊞ k) ⊠ stride).

(** ** The reuse window of the engine *)

Record EngineConfig := mkEngineConfig {
  prefetchWindowDepth_ : Z; crossMacroPrefetch_ : bool; windowKtiles_ : Z;
  cBufferBytes_ : Z; cBufferReadBytesPerCycle_ : Z; cBufferWriteBytesPerCycle_ : Z; outputIsFloat_ : bool }.

Definition base2DWindowBufferCount (c : EngineConfig) : Z := Z.max (u32 (prefetchWindowDepth_ c + 1)) 2.

Definition twoDWindowBufferCount (c : EngineConfig) (h : WorkerTaskListHeader) : Z :=
  let baseBuffers := base2DWindowBufferCount c in
  if negb (crossMacroPrefetch_ c) then baseBuffers
  else
    let reuse := Z.max (Z.max (a_reuse_n_tiles h) 1) (Z.max (b_reuse_m_tiles h) 1) in
    let requestedWindowK := Z.max (windowKtiles_ c) 1 in
    let lookaheadSlots := u32 (baseBuffers + 1) ⊠ reuse ⊠ requestedWindowK in
    if lookaheadSlots <=? Z.max (local_slot_count h) 1 then u32 (baseBuffers + 1) else baseBuffers.

Definition residentKTileCount (c : EngineConfig) (h : WorkerTaskListHeader) (pingPong : bool) : Z :=
  let reuseN := Z.max (a_reuse_n_tiles h) 1 in
  let reuseM := Z.max (b_reuse_m_tiles h) 1 in
  let slotCount := Z.max (local_slot_count h) 1 in
  let buffers := if pingPong then twoDWindowBufferCount c h else 1 in
  let matLimit := slotCount / u32 (buffers * reuseM) in
  let vecLimit := slotCount / u32 (buffers * reuseN) in
  Z.min (Z.max (windowKtiles_ c) 1) (Z.min matLimit vecLimit).

Definition is2DReuse (h : WorkerTaskListHeader) : bool :=
  (1 <? Z.max (a_reuse_n_tiles h) 1) && (1 <? Z.max (b_reuse_m_tiles h) 1).

(** The buffers of the prefetched windows are [used]. *)
Fixpoint allocate_buffer_loop (active bufferCount : Z) (used : list Z) (n : nat) (off : Z) : option Z :=
  match n with
  | O => None
  | S n' =>
      let candidate := u32 (active + off) mod bufferCount in
      if (candidate =? active) || existsb (Z.eqb candidate) used
      then allocate_buffer_loop active bufferCount used n' (off + 1) else Some candidate
  end.
Definition allocatePrefetchWindowBuffer (c : EngineConfig) (h : WorkerTaskListHeader) (active : Z) (used : list Z) : option Z :=
  let bufferCount := twoDWindowBufferCount c h in
  allocate_buffer_loop active bufferCount used (Z.to_nat (bufferCount - 1)) 1.

Definition activeResidentKTileCount (c : EngineConfig) (h : WorkerTaskListHeader) (cur : WorkerWindowDescriptor) : Z :=
  if negb (is2DReuse h) then w_k_count cur
  else
    let resident := residentKTileCount c h true in
    let resident := if resident =? 0 then residentKTileCount c h false else resident in
    Z.max resident 1.

(** The slot of a K tile inside the window buffer; [reuse] is the header's reuse count and
    [index] the position of the row or column of the window. *)
Definition groupSlotFor (h : WorkerTaskListHeader) (reuse index residentK activeBuffer activeKCount kTile : Z) : Z :=
  if is2DReuse h then
    let windowKCapacity := Z.max residentK 1 in
    let perBufferSlots := u32 (windowKCapacity * Z.max reuse 1) in
    u32 (u32 (u32 (activeBuffer * perBufferSlots) + u32 (index * Z.max activeKCount 1)) + kTile)
  else kTile.
Definition groupMatSlotFor (h : WorkerTaskListHeader) (reuseMIndex residentK activeBuffer activeKCount kTile : Z) : Z :=
  groupSlotFor h (b_reuse_m_tiles h) reuseMIndex residentK activeBuffer activeKCount kTile.
Definition groupVecSlotFor (h : WorkerTaskListHeader) (reuseNIndex residentK activeBuffer activeKCount kTile : Z) : Z :=
  groupSlotFor h (a_reuse_n_tiles h) reuseNIndex residentK activeBuffer activeKCount kTile.

(** ** Causal skipping *)

Definition causalReuseSkipped (h : WorkerTaskListHeader) (taskIndex localM localN : Z) : result bool :=
  if negb (attention_causal h) then Ok false
  else
    let! macro := vec_at (attention_macro_task_ids h) taskIndex in
    let mGroup := macro mod m_group_count h in
    let nGroup := u32 (macro / m_group_count h + (if attention_key_window_major h then 0 else mGroup)) mod n_group_count h in
    let queryLocal := u32 (attention_group_row_begin h +
                           u32 (u32 (u32 (mGroup * b_reuse_m_tiles h) + localM) * block_m h)) in
    let queryLast := u32 (u32 (u32 (attention_query_band h * attention_query_length h) +
                               queryLocal mod attention_query_length h) + block_m h - 1) in
    let keyFirst := u32 (u32 (u32 (nGroup * a_reuse_n_tiles h) + localN) * block_n h) in
    Ok (queryLast <? keyFirst).

(** ** [deriveTask] *)

(** What [deriveTask] reads besides the header: the placement when enabled, the position in
    the reuse window, the active K window and the fields of [current_] it keeps. *)
Record TaskContext := mkTaskContext {
  x_placement : option WorkloadPlacement; x_reuseMIndex : Z; x_reuseNIndex : Z;
  x_activeWindowKBegin : Z; x_activeWindowKCount : Z; x_current : WorkerWindowDescriptor }.

Record DerivedTask := mkDerived {
  d_current : WorkerWindowDescriptor; d_reuseMIndex : Z; d_reuseNIndex : Z;
  d_reuseMCount : Z; d_reuseNCount : Z; d_macroTaskId : Z }.

Definition nodeForMacroTask (h : WorkerTaskListHeader) (p : option WorkloadPlacement) (macroTaskId : Z) : result Z :=
  match p with
  | Some pl => vec_at (taskNodes pl) macroTaskId
  | None =>
      let activeWorkers := Z.max (active_worker_cores h) 1 in
      let owner_slot := macroTaskId mod activeWorkers in
      let group_id := if 0 <? total_groups h then owner_slot mod total_groups h else 0 in
      let dataMapKey := if negb (data_node_map_mode h =? 0) then owner_slot else group_id in
      Ok (u32 (1 + (if 0 <? data_memory_node_count h then dataMapKey mod data_memory_node_count h else 0)))
  end.

(** [for (i = ..; i < ..; ++i) if (node(i) == target) slot++;] *)
Fixpoint count_nodes (node : Z -> result Z) (target : Z) (n : nat) (i slot : Z) : result Z :=
  match n with
  | O => Ok slot
  | S n' =>
      let! x := node i in
      count_nodes node target n' (i + 1) (if x =? target then u32 (slot + 1) else slot)
  end.

Definition macroSlotInNode (h : WorkerTaskListHeader) (p : option WorkloadPlacement) (macroTaskId nodeIdx : Z) : result Z :=
  count_nodes (nodeForMacroTask h p) nodeIdx (Z.to_nat macroTaskId) 0 0.

(** The operand addresses of the four layouts. *)
Definition row_major_addresses (h : WorkerTaskListHeader) (m_tile n_tile : Z) : Z * Z :=
  let globalQueryRow := u32 (m_tile * block_m h) in
  let queryHead := globalQueryRow / attention_query_length h in
  let queryRow := globalQueryRow mod attention_query_length h in
  let queryNode := u32 (1 + queryRow / attention_rows_per_band h) in
  let queryLocalRow := u32 (u32 (queryHead * attention_rows_per_band h) + queryRow mod attention_rows_per_band h) in
  let keyRow := u32 (n_tile * block_n h) in
  let keyNode := u32 (1 + keyRow / attention_rows_per_band h) in
  let keyLocalRow := keyRow mod attention_rows_per_band h in
  let a_node_base := queryNode ⊠ attention_node_stride_bytes h in
  let b_node_base := keyNode ⊠ attention_node_stride_bytes h in
  let sourceRowStride := h_k h ⊠ elem_bytes h in
  (a_node_base ⊞ off_gemm_mat_base h ⊞ queryLocalRow ⊠ sourceRowStride,
   b_node_base ⊞ off_gemm_vec_base h ⊞ keyLocalRow ⊠ sourceRowStride).

Definition packed_addresses (h : WorkerTaskListHeader) (k_tiles m_tile n_tile : Z) : Z * Z :=
  let globalQueryRow := u32 (m_tile * block_m h) in
  let queryHead := globalQueryRow / attention_query_length h in
  let queryRow := globalQueryRow mod attention_query_length h in
  let queryBand := attention_query_band h in
  let queryLocalTile := queryRow / block_m h in
  let keyRow := u32 (n_tile * block_n h) in
  let keyBand := keyRow / attention_rows_per_band h in
  let keyLocalTile := keyRow mod attention_rows_per_band h / block_n h in
  let queryTilesPerBand := attention_query_length h / block_m h in
  let panelBytes := block_m h ⊠ block_k h ⊠ elem_bytes h in
  let a_node_base := u32 (1 + queryBand) ⊠ attention_node_stride_bytes h in
  let b_node_base := u32 (1 + keyBand) ⊠ attention_node_stride_bytes h in
  (a_node_base ⊞ off_gemm_mat_base h ⊞ (queryHead ⊠ queryTilesPerBand ⊞ queryLocalTile) ⊠ k_tiles ⊠ panelBytes,
   b_node_base ⊞ off_gemm_vec_base h ⊞ keyLocalTile ⊠ k_tiles ⊠ panelBytes).

Definition pv_addresses (h : WorkerTaskListHeader) (k_tiles n_tile : Z) : Z * Z :=
  (local_mat_ping_gm_addr h,
   off_gemm_vec_base h ⊞ n_tile ⊠ k_tiles ⊠ block_n h ⊠ block_k h ⊠ elem_bytes h).

Definition tiled_addresses (h : WorkerTaskListHeader) (k_tiles a_node b_node a_slot b_slot : Z) : Z * Z :=
  (a_node ⊠ mem_node_size h ⊞ off_gemm_mat_base h ⊞ a_slot ⊠ k_tiles ⊠ mat_stride_bytes h,
   b_node ⊠ mem_node_size h ⊞ off_gemm_vec_base h ⊞ b_slot ⊠ u32 (k_tiles * block_n h) ⊠ vec_stride_bytes h).

(** Tile, window extents and positions of a macro task. *)
Record TilePosition := mkTile {
  t_m_tile : Z; t_n_tile : Z; t_m_group : Z; t_n_group : Z; t_mIndex : Z; t_nIndex : Z; t_mCount : Z; t_nCount : Z }.

Definition task_position (h : WorkerTaskListHeader) (macro mIndex nIndex : Z) : TilePosition :=
  let m_tiles := h_m h / block_m h in
  let n_tiles := h_n h / block_n h in
  let reuseN := Z.max (a_reuse_n_tiles h) 1 in
  let reuseM := Z.max (b_reuse_m_tiles h) 1 in
  let m_groups := if negb (m_group_count h =? 0) then m_group_count h else u32 (m_tiles + reuseM - 1) / reuseM in
  let n_groups := if negb (n_group_count h =? 0) then n_group_count h else u32 (n_tiles + reuseN - 1) / reuseN in
  let m_group := macro mod m_groups in
  let n_group := u32 (macro / m_groups + (if attention_key_window_major h then 0 else m_group)) mod n_groups in
  let m_begin := u32 (m_group * reuseM) in
  let n_begin := u32 (n_group * reuseN) in
  let mCount := Z.min reuseM (u32 (m_tiles - m_begin)) in
  let nCount := Z.min reuseN (u32 (n_tiles - n_begin)) in
  let mIndex := if reuseM =? 1 then 0 else mIndex in
  let nIndex := if reuseN =? 1 then 0 else nIndex in
  let mIndex := if mCount <=? mIndex then 0 else mIndex in
  let nIndex := if nCount <=? nIndex then 0 else nIndex in
  mkTile (u32 (m_begin + mIndex)) (u32 (n_begin + nIndex)) m_group n_group mIndex nIndex mCount nCount.

Definition macroTaskOf (h : WorkerTaskListHeader) (taskIndex : Z) : result Z :=
  if attention_causal h then vec_at (attention_macro_task_ids h) taskIndex
  else Ok (u32 (worker_slot h + u32 (taskIndex * active_worker_cores h))).

(** Owner nodes and slots of a tile's operands. *)
Definition operand_owners (h : WorkerTaskListHeader) (p : option WorkloadPlacement) (t : TilePosition) (c_node : Z) :
    result (Z * Z * Z * Z) :=
  let reuseN := Z.max (a_reuse_n_tiles h) 1 in
  let reuseM := Z.max (b_reuse_m_tiles h) 1 in
  let! a_node := match p with Some pl => vec_at (aNodes pl) (t_m_tile t) | None => nodeForMacroTask h p (t_m_group t) end in
  let! b_node := match p with
                 | Some pl => if replicateB pl then Ok c_node else vec_at (bNodes pl) (t_n_tile t)
                 | None => nodeForMacroTask h p (t_n_group t) end in
  let! a_slot := count_nodes (fun mt => match p with Some pl => vec_at (aNodes pl) mt
                                        | None => nodeForMacroTask h p (mt / reuseM) end)
                   a_node (Z.to_nat (t_m_tile t)) 0 0 in
  let! b_slot := count_nodes (fun nt => match p with Some pl => vec_at (bNodes pl) nt
                                        | None => nodeForMacroTask h p (nt / reuseN) end)
                   b_node (Z.to_nat (t_n_tile t)) 0 0 in
  let b_slot := match p with Some pl => if replicateB pl then t_n_tile t else b_slot | None => b_slot end in
  Ok (a_node, b_node, a_slot, b_slot).

Definition deriveTask (h : WorkerTaskListHeader) (x : TaskContext) (taskIndex : Z) (resetState : bool) : result DerivedTask :=
  let p := x_placement x in
  let! macro := macroTaskOf h taskIndex in
  let n_tiles := h_n h / block_n h in
  let k_tiles := h_k h / block_k h in
  let reuseN := Z.max (a_reuse_n_tiles h) 1 in
  let reuseM := Z.max (b_reuse_m_tiles h) 1 in
  let t := task_position h macro (x_reuseMIndex x) (x_reuseNIndex x) in
  let! c_node := nodeForMacroTask h p macro in
  let! macro_slot := macroSlotInNode h p macro c_node in
  let! owners := operand_owners h p t c_node in
  let '(a_node, b_node, a_slot, b_slot) := owners in
  let c_node_base := c_node ⊠ mem_node_size h in
  let out_group_slot := macro_slot ⊠ reuseM ⊠ reuseN ⊞ t_mIndex t ⊠ reuseN ⊞ t_nIndex t in
  let (mat, vec) :=
    if operand_layout h =? 1 then row_major_addresses h (t_m_tile t) (t_n_tile t)
    else if operand_layout h =? 2 then packed_addresses h k_tiles (t_m_tile t) (t_n_tile t)
    else if operand_layout h =? 3 then pv_addresses h k_tiles (t_n_tile t)
    else tiled_addresses h k_tiles a_node b_node a_slot b_slot in
  let out_bytes := block_m h ⊠ block_n h ⊠ elem_bytes h in
  let out_stride := (out_bytes ⊞ 0xff) / 0x100 ⊠ 0x100 in
  let cur := x_current x in
  let windowed := negb resetState && is2DReuse h in
  Ok (mkDerived
    (mkWindow (t_m_tile t ⊠ n_tiles ⊞ t_n_tile t) 0 mat vec (local_accum_gm_addr h) 0 0
       (if windowed then x_activeWindowKBegin x else 0)
       (if windowed && negb (x_activeWindowKCount x =? 0) then x_activeWindowKCount x else k_tiles)
       (block_n h) (hw_input_size h) (hw_output_size h) (hw_input_size h) (hw_output_size h) (elem_bytes h)
       (mat_stride_bytes h) (block_n h ⊠ vec_stride_bytes h) (w_local_mat_gm_addr cur) (w_local_vec_gm_addr cur)
       (local_accum_gm_addr h) (local_out_gm_addr h) (c_node_base ⊞ off_gemm_out_base h ⊞ out_group_slot ⊠ out_stride))
    (t_mIndex t) (t_nIndex t) (t_mCount t) (t_nCount t) macro).

(** ** The guards of [startWindowImpl]

    [idle] is [!isBusy()], [cFree] says the partial-C buffer is free, [hasArray] that a
    compute array is bound, [configure] its [configurePrecision]; [gm] is the base and size
    of local memory.  The window starts when no guard refuses it. *)

Definition precision_refused (hasArray : bool) (h : WorkerTaskListHeader) (spec : option PrecisionSpecV02) : bool :=
  match spec with
  | None => false
  | Some s =>
      negb (validPrecision s) || negb hasArray || negb (operand_layout h =? 0) || negb (elem_bytes h =? 4) ||
      negb (hw_input_size h =? block_k h) || (block_k h =? 0) ||
      match ComputeMode_of (compute_mode s) with
      | None => true
      | Some mode => negb (vec_stride_bytes h =? packedRowBytes (block_k h) mode)
      end ||
      negb (mat_stride_bytes h =? block_m h ⊠ vec_stride_bytes h)
  end.

Definition shape_refused (h : WorkerTaskListHeader) : bool :=
  let blockKSupported := negb (hw_input_size h =? 0) &&
    ((block_k h <=? hw_input_size h) || (block_k h mod hw_input_size h =? 0)) in
  (hw_input_size h =? 0) || (hw_output_size h =? 0) || (block_k h =? 0) || (block_m h =? 0) ||
  negb blockKSupported || negb (block_m h =? hw_output_size h).

Definition row_major_refused (h : WorkerTaskListHeader) : bool :=
  (operand_layout h =? 1) &&
  ((attention_query_length h =? 0) || (attention_rows_per_band h =? 0) || (attention_node_stride_bytes h =? 0) ||
   (attention_rows_per_band h <? block_m h) || (attention_rows_per_band h <? block_n h)).

Definition reuse_refused (c : EngineConfig) (h : WorkerTaskListHeader) : bool :=
  let reuseN := Z.max (a_reuse_n_tiles h) 1 in
  let reuseM := Z.max (b_reuse_m_tiles h) 1 in
  let kTiles := if 0 <? block_k h then h_k h / block_k h else 0 in
  let slotCount := Z.max (local_slot_count h) 1 in
  let both := (1 <? reuseM) && (1 <? reuseN) in
  (both && (residentKTileCount c h true =? 0)) ||
  (negb both && (1 <? reuseN) && (slotCount <? kTiles)) ||
  (negb both && (1 <? reuseM) && (slotCount <? kTiles)) ||
  (both &&
    let partialTileBytes := block_m h ⊠ block_n h ⊠
      (if outputIsFloat_ c && ((operand_layout h =? 2) || (operand_layout h =? 3)) then 4 else elem_bytes h) in
    let requiredCBufferBytes := reuseM ⊠ reuseN ⊠ partialTileBytes in
    (cBufferBytes_ c <? requiredCBufferBytes) || (cBufferReadBytesPerCycle_ c =? 0) || (cBufferWriteBytesPerCycle_ c =? 0)).

Definition placement_tasks (h : WorkerTaskListHeader) : Z * Z * Z :=
  let mt := if negb (block_m h =? 0) then h_m h / block_m h else 0 in
  let nt := if negb (block_n h =? 0) then h_n h / block_n h else 0 in
  let rm := Z.max (b_reuse_m_tiles h) 1 in
  let rn := Z.max (a_reuse_n_tiles h) 1 in
  (mt, nt, u32 (u32 (mt + rm - 1) / rm * (u32 (nt + rn - 1) / rn))).

Definition placement_refused (h : WorkerTaskListHeader) (placement : option WorkloadPlacement) : bool :=
  match placement with
  | None => false
  | Some p =>
      let '(mt, nt, tasks) := placement_tasks h in
      negb (WorkloadPlacement_valid p (data_memory_node_count h) mt nt tasks) ||
      negb (Bool.eqb (1 <? Z.max (b_reuse_m_tiles h) 1) (1 <? Z.max (a_reuse_n_tiles h) 1)) ||
      negb (operand_layout h =? 0) || (active_worker_cores h =? 0) || (active_worker_cores h <=? worker_slot h) ||
      negb (task_count h =? if worker_slot h <? tasks
                            then u32 (u32 (tasks - 1 - worker_slot h) / active_worker_cores h + 1) else 0)
  end.

Definition pv_cache_refused (h : WorkerTaskListHeader) (gmBase gmSize : Z) : bool :=
  (operand_layout h =? 3) &&
  let kTiles := if 0 <? block_k h then h_k h / block_k h else 0 in
  let entryBytes := Z.max (a_reuse_n_tiles h) 1 ⊠ kTiles ⊠ local_vec_slot_stride_bytes h in
  let base := attention_pv_cache_gm_addr h in
  negb (negb (entryBytes =? 0) && (gmBase <=? base) && (4 ⊠ entryBytes <=? attention_pv_cache_bytes h) &&
        (base ⊟ gmBase <=? gmSize) && (4 ⊠ entryBytes <=? gmSize ⊟ (base ⊟ gmBase))).

Definition startWindow_accepts (c : EngineConfig) (idle cFree hasArray : bool) (configure : PrecisionSpecV02 -> Z -> bool)
    (gmBase gmSize : Z) (h : WorkerTaskListHeader) (spec : option PrecisionSpecV02) (placement : option WorkloadPlacement) : bool :=
  negb (negb idle || negb cFree || precision_refused hasArray h spec || shape_refused h || row_major_refused h ||
        reuse_refused c h || match spec with Some s => negb (configure s (block_k h)) | None => false end ||
        placement_refused h placement || pv_cache_refused h gmBase gmSize).
