(* ===== verification/NativeDescriptor.v ===== *)
(** * Native GEMM commands ([isa/nativeDescriptor.h] and the native part of
      [rocc/roccAnalog.h] under [src/src/sst/elements/golem/])

    The host writes a descriptor, a 128-byte command with four node maps behind it, into
    local memory and starts it with one RoCC instruction.  The front end validates the
    bytes, builds the placement and the window header, starts the worker and hands out a
    token that a wait instruction returns.  The worker is the interface
    [WorkerCommandProcessorAPI]: its answers are arguments here. *)

From Stdlib Require Import ZArith Lia.
From stdpp Require Import base numbers list sorting.
From S2P Require Import Prelude Ieee ComputeUnit TaskDerivation.

(** ** The command *)

Definition Magic : Z := 0x4e444d47.
Definition Version : Z := 1.
Definition Gemm : Z := 1.
Definition MaxCommandBytes : Z := 32768.
Definition RegionBytes : Z := 1024 * 1024.
Definition VirtualAddress : Z := 0x50000000.
Definition BundleMagic : Z := 0x4e424d47.

Inductive Status := Success | InvalidDescriptor | Unsupported | QueueFull | BadToken | ExecutionFault.

Definition Status_code (s : Status) : Z :=
  match s with
  | Success => 0 | InvalidDescriptor => 1 | Unsupported => 2 | QueueFull => 3 | BadToken => 4 | ExecutionFault => 5
  end.

Record Command := mkCommand {
  c_magic : Z; c_version : Z; c_kernel_kind : Z; c_total_bytes : Z; c_checksum : Z; c_flags : Z;
  c_physical_worker : Z; c_logical_worker : Z; c_worker_count : Z; c_precision : Z; c_m : Z; c_n : Z; c_k : Z; c_reuse : Z;
  c_node_bytes : Z; c_a_offset : Z; c_b_offset : Z; c_c_offset : Z; c_start_cycle : Z;
  c_data_map : Z; c_data_count : Z; c_task_map : Z; c_task_count : Z; c_a_map : Z; c_a_count : Z; c_b_map : Z; c_b_count : Z }.

Definition command_bytes : Z := 128.

(** A little-endian field of [n] bytes at [off]. *)
Fixpoint le_field (raw : list Z) (off : nat) (n : nat) : Z :=
  match n with
  | O => 0
  | S n' => default 0 (raw !! off) + 256 * le_field raw (S off) n'
  end.

(** [std::memcpy(&c, raw.data(), sizeof(c))]. *)
Definition Command_of (raw : list Z) : Command :=
  let w off := le_field raw off 4 in
  let d off := le_field raw off 8 in
  mkCommand (w 0%nat) (w 4%nat) (w 8%nat) (w 12%nat) (w 16%nat) (w 20%nat)
    (w 24%nat) (w 28%nat) (w 32%nat) (w 36%nat) (w 40%nat) (w 44%nat) (w 48%nat) (w 52%nat)
    (d 56%nat) (d 64%nat) (d 72%nat) (d 80%nat) (d 88%nat)
    (w 96%nat) (w 100%nat) (w 104%nat) (w 108%nat) (w 112%nat) (w 116%nat) (w 120%nat) (w 124%nat).

(** FNV-1a over the bytes, the checksum field itself read as zeros. *)
Fixpoint checksum_loop (bytes : list Z) (i hash : Z) : Z :=
  match bytes with
  | [] => hash
  | b :: bytes' =>
      let hash := Z.lxor hash (if (16 <=? i) && (i <? 20) then 0 else b) in
      checksum_loop bytes' (i + 1) (u32 (hash * 16777619))
  end.
Definition checksum (bytes : list Z) : Z := checksum_loop bytes 0 2166136261.

(** The maps follow the command without gaps: the byte after the last, or [None]. *)
Fixpoint maps_end (size : Z) (maps : list (Z * Z)) (next : Z) : option Z :=
  match maps with
  | [] => Some next
  | (first, second) :: maps' =>
      if negb (first =? next) || (size <? first ⊞ second ⊠ 4) then None
      else maps_end size maps' (u32 (next + u32 (second * 4)))
  end.

Definition command_tasks (c : Command) : Z :=
  ((c_m c / 64 ⊞ c_reuse c ⊟ 1) / c_reuse c) ⊠ ((c_n c / 64 ⊞ c_reuse c ⊟ 1) / c_reuse c).

Definition command_malformed (c : Command) (size : Z) : bool :=
  negb (c_magic c =? Magic) || negb (c_total_bytes c =? size) || (size <? command_bytes) ||
  (MaxCommandBytes <? size) || negb (size mod 8 =? 0) || negb (Z.land (c_flags c) (2 ^ 32 - 1 - 1) =? 0) ||
  (16 <=? c_physical_worker c) || (c_worker_count c =? 0) || (16 <? c_worker_count c) ||
  (c_worker_count c <=? c_logical_worker c) || (c_m c =? 0) || (c_n c =? 0) || (c_k c =? 0) ||
  negb (c_m c mod 64 =? 0) || negb (c_n c mod 64 =? 0) || negb (c_k c mod 64 =? 0) ||
  (negb (c_reuse c =? 1) && negb (c_reuse c =? 2)) ||
  negb (c_node_bytes c =? 128 * 1024 * 1024) || (c_b_offset c <=? c_a_offset c) || (c_c_offset c <=? c_b_offset c) ||
  (c_node_bytes c <=? c_c_offset c).

Definition validate (c : Command) (size : Z) : Status :=
  if command_malformed c size then InvalidDescriptor
  else if negb (c_version c =? Version) || negb (c_kernel_kind c =? Gemm) || (7 <? c_precision c) then Unsupported
  else if (c_data_count c =? 0) || (4 <? c_data_count c) || negb (c_task_count c =? command_tasks c) ||
          negb (c_a_count c =? c_m c / 64) || negb (c_b_count c =? c_n c / 64) then InvalidDescriptor
  else
    match maps_end size [(c_data_map c, c_data_count c); (c_task_map c, c_task_count c);
                         (c_a_map c, c_a_count c); (c_b_map c, c_b_count c)] command_bytes with
    | None => InvalidDescriptor
    | Some next => if negb ((next ⊞ 7) / 8 ⊠ 8 =? size) then InvalidDescriptor else Success
    end.

(** ** The front end *)

(** [map(offset, count)]: [count] words copied from [raw + offset]. *)
Definition node_map (raw : list Z) (offset count : Z) : list Z :=
  map (fun i => le_field raw (Z.to_nat offset + 4 * i) 4) (seq 0 (Z.to_nat count)).

Definition native_placement (raw : list Z) (c : Command) : WorkloadPlacement :=
  mkPlacement (node_map raw (c_data_map c) (c_data_count c)) (node_map raw (c_task_map c) (c_task_count c))
    (node_map raw (c_a_map c) (c_a_count c)) (node_map raw (c_b_map c) (c_b_count c)) (Z.testbit (c_flags c) 0).

(** [validate] bounds [precision] before the cast. *)
Definition native_mode (c : Command) : ComputeMode := default Fp32 (ComputeMode_of (c_precision c)).
Definition inputTileBytes (c : Command) : Z := 64 ⊠ packedRowBytes 64 (native_mode c).

(** The regions of one node hold the tiles placed on it. *)
Definition node_overfull (c : Command) (p : WorkloadPlacement) (node : Z) : bool :=
  let kTiles := c_k c / 64 in
  let aTiles := std_count node (aNodes p) in
  let bTiles := if replicateB p then c_b_count c else std_count node (bNodes p) in
  let tasks := std_count node (taskNodes p) in
  (c_b_offset c ⊟ c_a_offset c <? aTiles ⊠ kTiles ⊠ inputTileBytes c) ||
  (c_c_offset c ⊟ c_b_offset c <? bTiles ⊠ kTiles ⊠ inputTileBytes c) ||
  (c_node_bytes c ⊟ c_c_offset c <? tasks ⊠ c_reuse c ⊠ c_reuse c ⊠ 64 ⊠ 64 ⊠ 4).

Definition native_header (gmBase : Z) (c : Command) : WorkerTaskListHeader :=
  {| worker_slot := c_logical_worker c; active_worker_cores := c_worker_count c;
     scheduler_worker_slot := c_physical_worker c; total_groups := 4; data_memory_node_count := 4;
     mem_node_size := c_node_bytes c; h_m := c_m c; h_n := c_n c; h_k := c_k c;
     hw_input_size := 64; hw_output_size := 64; block_m := 64; block_n := 64; block_k := 64; elem_bytes := 4;
     mat_stride_bytes := inputTileBytes c; vec_stride_bytes := packedRowBytes 64 (native_mode c);
     off_gemm_mat_base := c_a_offset c; off_gemm_vec_base := c_b_offset c; off_gemm_out_base := c_c_offset c;
     a_reuse_n_tiles := c_reuse c; b_reuse_m_tiles := c_reuse c;
     m_group_count := u32 (c_m c / 64 + c_reuse c - 1) / c_reuse c;
     n_group_count := u32 (c_n c / 64 + c_reuse c - 1) / c_reuse c;
     task_count := if c_logical_worker c <? c_task_count c
                   then u32 (u32 (c_task_count c - 1 - c_logical_worker c) / c_worker_count c + 1) else 0;
     local_mat_ping_gm_addr := gmBase ⊞ 0x10000; local_vec_ping_gm_addr := gmBase ⊞ 0x90000;
     local_mat_slot_stride_bytes := 64 * 64 * 4; local_vec_slot_stride_bytes := 64 * 64 * 4; local_slot_count := 24;
     local_accum_gm_addr := gmBase ⊞ 0x110000; local_out_gm_addr := gmBase ⊞ 0x114000;
     descriptor_start_cycle := c_start_cycle c;
     local_mat_pong_gm_addr := 0; local_mat_slot2_gm_addr := 0; local_mat_slot3_gm_addr := 0;
     local_vec_pong_gm_addr := 0; local_vec_slot2_gm_addr := 0; local_vec_slot3_gm_addr := 0;
     finished_mailbox_addr := 0; data_node_map_mode := 0; operand_layout := 0;
     attention_query_length := 0; attention_rows_per_band := 0; attention_node_stride_bytes := 0;
     attention_pv_cache_gm_addr := 0; attention_pv_cache_bytes := 0; attention_key_window_major := false;
     attention_causal := false; attention_group_row_begin := 0; attention_query_band := 0;
     attention_macro_task_ids := []; attention_rope := false; attention_rope_table := [] |}.

Definition native_precision (c : Command) : PrecisionSpecV02 :=
  mkPrecisionSpec (c_precision c) (inputBits (native_mode c)) (if integerMode (native_mode c) then 0 else 1) 32 1 0 0 0.

Record NativeFrontEnd := mkFrontEnd { nativeToken_ : Z; nextNativeToken_ : Z }.
Definition NativeFrontEnd_new : NativeFrontEnd := mkFrontEnd 0 1.

(** What the front end reads: the bound worker and whether it is busy, the core, local
    memory, and the worker's answer to [startPlacedWindow]. *)
Record NativeEnv := mkEnv {
  e_hasWorker : bool; e_workerBusy : bool; e_coreID : Z; e_gmBase : Z;
  e_read : Z -> Z -> list Z; e_start : WorkerTaskListHeader -> WorkloadPlacement -> PrecisionSpecV02 -> bool }.

Definition native_fail (f : NativeFrontEnd) (s : Status) : NativeFrontEnd * Z := (f, u64 (- Status_code s)).

Definition tryStartNativeDescriptor (e : NativeEnv) (f : NativeFrontEnd) (rs1 rs2 : Z) : NativeFrontEnd * Z :=
  if negb (e_hasWorker e) then native_fail f Unsupported
  else if negb (nativeToken_ f =? 0) || e_workerBusy e then native_fail f QueueFull
  else if negb (rs1 =? e_gmBase e ⊞ 0x2000) || (rs2 <? command_bytes) || (MaxCommandBytes <? rs2) || negb (rs2 mod 8 =? 0)
  then native_fail f InvalidDescriptor
  else
    let raw := e_read e rs1 rs2 in
    if negb (Z.of_nat (length raw) =? rs2) then native_fail f InvalidDescriptor
    else
      let c := Command_of raw in
      match validate c (Z.of_nat (length raw)) with
      | Success =>
          if (e_coreID e <? 4) || (20 <=? e_coreID e) || negb (c_physical_worker c =? e_coreID e - 4) ||
             negb (checksum raw =? c_checksum c) then native_fail f InvalidDescriptor
          else
            let p := native_placement raw c in
            if negb (WorkloadPlacement_valid p 4 (c_m c / 64) (c_n c / 64) (c_task_count c))
            then native_fail f InvalidDescriptor
            else if existsb (node_overfull c p) (dataNodes p) then native_fail f InvalidDescriptor
            else if negb (e_start e (native_header (e_gmBase e) c) p (native_precision c)) then native_fail f ExecutionFault
            else
              let token := nextNativeToken_ f in
              let next := token ⊞ 1 in
              let next := if (next =? 0) || (2 ^ 63 - 1 <? next) then 1 else next in
              (mkFrontEnd token next, token)
      | s => native_fail f s
      end.

(** [None]: the instruction is retried. *)
Definition tryWaitNativeDescriptor (e : NativeEnv) (f : NativeFrontEnd) (rs1 : Z) : NativeFrontEnd * option Z :=
  if negb (rs1 =? nativeToken_ f) || (nativeToken_ f =? 0) then (f, Some (Status_code BadToken))
  else if e_hasWorker e && e_workerBusy e then (f, None)
  else (mkFrontEnd 0 (nextNativeToken_ f), Some (Status_code Success)).
