(* ===== verification/NativeTheory.v ===== *)
(** * Native GEMM commands: what an accepted descriptor guarantees

    The properties of [NativeDescriptor] and [TaskDerivation] together: validated
    commands split their output tiles among the workers without loss or overlap, and the
    addresses derived for every task stay inside the regions the command declared. *)

From Stdlib Require Import ZArith Lia Sorted.
From stdpp Require Import base numbers list sorting.
From S2P Require Import Prelude Ieee ComputeUnit TaskDerivation NativeDescriptor.

(** ** Counting *)

Lemma std_count_app x l l' : std_count x (l ++ l') = std_count x l + std_count x l'.
Proof. induction l as [|y l IH]; cbn [std_count app]; [done|]. rewrite IH. lia. Qed.

Lemma std_count_nonneg x l : 0 <= std_count x l <= Z.of_nat (length l).
Proof. induction l as [|y l IH]; cbn [std_count length]; [lia|]. destruct (y =? x); lia. Qed.

Lemma std_count_take_lt x l (i j : nat) : l !! i = Some x -> (i < j)%nat ->
  std_count x (take i l) < std_count x (take j l).
Proof.
  intros E Hij. pose proof (lookup_lt_Some _ _ _ E) as Hi.
  assert (D : take j l = take i l ++ x :: take (j - S i) (drop (S i) l)).
  { transitivity (take j (take i l ++ x :: drop (S i) l)); [by rewrite take_drop_middle|].
    rewrite take_app, length_take. replace (i `min` length l)%nat with i by lia.
    rewrite (take_ge (take i l)) by (rewrite length_take; lia). f_equal.
    replace (j - i)%nat with (S (j - S i)) by lia. done. }
  rewrite D, std_count_app. cbn [std_count]. rewrite Z.eqb_refl.
  pose proof (std_count_nonneg x (take (j - S i) (drop (S i) l))). lia.
Qed.

Lemma std_count_take_all x l (i : nat) : l !! i = Some x -> std_count x (take i l) < std_count x l.
Proof.
  intros E. pose proof (lookup_lt_Some _ _ _ E). rewrite <- (take_ge l (length l)) at 2 by lia.
  by apply std_count_take_lt.
Qed.

Lemma vec_at_Ok {A} (l : list A) i x : vec_at l i = Ok x <-> 0 <= i /\ l !! Z.to_nat i = Some x.
Proof.
  unfold vec_at. destruct (Z.ltb_spec i 0); [split; [done|lia]|].
  destruct (l !! Z.to_nat i); split; intros H1; try done; [by injection H1 as ->|by destruct H1 as [_ [= ->]]|by destruct H1].
Qed.

Lemma vec_at_lt {A} (l : list A) i : 0 <= i < Z.of_nat (length l) -> exists x, vec_at l i = Ok x /\ l !! Z.to_nat i = Some x.
Proof.
  intros H. destruct (lookup_lt_is_Some_2 l (Z.to_nat i)) as [x E]; [lia|]. exists x. split; [|done].
  apply vec_at_Ok. split; [lia|done].
Qed.

Lemma count_nodes_spec l target n : forall i slot, 0 <= i -> i + Z.of_nat n <= Z.of_nat (length l) -> 0 <= slot ->
  slot + Z.of_nat n < 2 ^ 32 ->
  count_nodes (vec_at l) target n i slot = Ok (slot + std_count target (take n (drop (Z.to_nat i) l))).
Proof.
  induction n as [|n IH]; intros i slot Hi Hn Hs Hb; cbn [count_nodes]; [rewrite take_0; f_equal; cbn; lia|].
  destruct (vec_at_lt l i ltac:(lia)) as (x & E & El). rewrite E. cbn [rbind].
  rewrite (drop_S _ x) by done. cbn [take std_count].
  replace (S (Z.to_nat i)) with (Z.to_nat (i + 1)) by lia.
  destruct (x =? target); [rewrite (u32_id (slot + 1)) by (unfold in_u32; lia)|]; rewrite IH by lia; f_equal; lia.
Qed.

Lemma count_nodes_ext f g target n : (forall i, f i = g i) -> forall i slot, count_nodes f target n i slot = count_nodes g target n i slot.
Proof. intros H. induction n as [|n IH]; intros i slot; [done|]. cbn [count_nodes]. rewrite H. destruct (g i); [apply IH|done]. Qed.

(** ** Validated commands *)

Lemma le_field_range raw n : Forall in_u8 raw -> forall off, 0 <= le_field raw off n < 2 ^ (8 * Z.of_nat n).
Proof.
  intros Hr. induction n as [|n IH]; intros off; cbn [le_field]; [cbn; lia|].
  assert (0 <= default 0 (raw !! off) < 256).
  { destruct (raw !! off) as [x|] eqn:E; cbn; [|lia]. apply (Forall_lookup_1 _ _ _ _ Hr E). }
  specialize (IH (S off)). replace (8 * Z.of_nat (S n)) with (8 + 8 * Z.of_nat n) by lia.
  rewrite Z.pow_add_r by lia. change (2 ^ 8) with 256. lia.
Qed.

Definition command_in_range (c : Command) : Prop :=
  in_u32 (c_logical_worker c) /\ in_u32 (c_worker_count c) /\ in_u32 (c_m c) /\ in_u32 (c_n c) /\ in_u32 (c_k c) /\
  in_u32 (c_reuse c) /\ in_u64 (c_a_offset c) /\ in_u64 (c_b_offset c) /\ in_u64 (c_c_offset c) /\
  in_u32 (c_task_count c) /\ in_u32 (c_a_count c) /\ in_u32 (c_b_count c) /\ in_u32 (c_data_count c) /\ in_u32 (c_flags c) /\
  in_u32 (c_data_map c) /\ in_u32 (c_task_map c) /\ in_u32 (c_a_map c) /\ in_u32 (c_b_map c).

Lemma Command_of_range raw : Forall in_u8 raw -> command_in_range (Command_of raw).
Proof.
  intros Hr. pose proof (fun off => le_field_range raw 4 Hr off) as H4. pose proof (fun off => le_field_range raw 8 Hr off) as H8.
  unfold command_in_range, in_u32, in_u64.
  repeat split; (apply H4 || apply H8).
Qed.

Lemma maps_end_spec size maps : forall next next', size <= MaxCommandBytes -> 0 <= next ->
  Forall (fun ab => in_u32 ab.1 /\ in_u32 ab.2) maps ->
  maps_end size maps next = Some next' ->
  Forall (fun ab => next <= ab.1 /\ ab.1 + 4 * ab.2 <= size) maps /\ next <= next' /\
  StronglySorted (fun a b => a.1 + 4 * a.2 <= b.1) maps.
Proof.
  induction maps as [|[a n] maps IH]; intros next next' Hs Hn Hf; cbn [maps_end].
  - intros [= ->]. split; [constructor|]. split; [lia|constructor].
  - apply Forall_cons in Hf as [[Ha Hc] Hf]. cbn [fst snd] in *. unfold in_u32, MaxCommandBytes in *.
    rewrite (u64_id (n * 4)), (u64_id (a + n * 4)) by (unfold in_u64; lia).
    destruct (negb (a =? next) || (size <? a + n * 4)) eqn:E; [done|]. boolify. subst next.
    rewrite (u32_id (n * 4)), (u32_id (a + n * 4)) by (unfold in_u32; lia). intros H.
    destruct (IH (a + n * 4) next' ltac:(lia) ltac:(lia) Hf H) as (I1 & I2 & I3).
    split; [constructor; [cbn; lia|]|split; [lia|constructor; [done|]]].
    + eapply Forall_impl; [exact I1|]. cbn. intros ab Hab. lia.
    + eapply Forall_impl; [exact I1|]. cbn. intros ab Hab. lia.
Qed.

(** The shape of a validated command. *)
Record native_shape (c : Command) : Prop := {
  ns_m : c_m c = 64 * (c_m c / 64) /\ 1 <= c_m c / 64 <= 2 ^ 13;
  ns_n : c_n c = 64 * (c_n c / 64) /\ 1 <= c_n c / 64 <= 2 ^ 13;
  ns_k : c_k c = 64 * (c_k c / 64) /\ 1 <= c_k c / 64 < 2 ^ 26;
  ns_reuse : c_reuse c = 1 \/ c_reuse c = 2;
  ns_workers : 1 <= c_worker_count c <= 16 /\ 0 <= c_logical_worker c < c_worker_count c;
  ns_tasks : c_task_count c = (c_m c / 64 + c_reuse c - 1) / c_reuse c * ((c_n c / 64 + c_reuse c - 1) / c_reuse c) /\
             c_task_count c <= 2 ^ 13;
  ns_counts : c_a_count c = c_m c / 64 /\ c_b_count c = c_n c / 64 /\ 1 <= c_data_count c <= 4;
  ns_node : c_node_bytes c = 2 ^ 27;
  ns_offsets : 0 <= c_a_offset c < c_b_offset c /\ c_b_offset c < c_c_offset c < 2 ^ 27;
  ns_precision : c_precision c <= 7 }.

(** Success: the maps lie behind the command, in order, apart and inside its bytes. *)
Lemma validate_spec raw : Forall in_u8 raw -> let c := Command_of raw in
  validate c (Z.of_nat (length raw)) = Success ->
  native_shape c /\ Z.of_nat (length raw) <= MaxCommandBytes /\
  Forall (fun ab => 128 <= ab.1 /\ ab.1 + 4 * ab.2 <= Z.of_nat (length raw))
    [(c_data_map c, c_data_count c); (c_task_map c, c_task_count c); (c_a_map c, c_a_count c); (c_b_map c, c_b_count c)] /\
  StronglySorted (fun a b : Z * Z => a.1 + 4 * a.2 <= b.1)
    [(c_data_map c, c_data_count c); (c_task_map c, c_task_count c); (c_a_map c, c_a_count c); (c_b_map c, c_b_count c)].
Proof.
  intros Hr c. unfold validate. destruct (command_malformed c (Z.of_nat (length raw))) eqn:E1; [done|].
  destruct (_ || _ || _) eqn:E2; [done|]. destruct (_ || _ || _ || _ || _) eqn:E3; [done|].
  destruct (maps_end _ _ _) as [next|] eqn:E4; [|done]. intros _.
  set (size := Z.of_nat (length raw)) in *. clearbody size.
  destruct (Command_of_range raw Hr) as (Rl & Rw & Rm & Rn & Rk & Rr & Ra & Rb & Rc & Rt & Rac & Rbc & Rdc & Rf & R1 & R2 & R3 & R4).
  fold c in Rl, Rw, Rm, Rn, Rk, Rr, Ra, Rb, Rc, Rt, Rac, Rbc, Rdc, R1, R2, R3, R4. clearbody c. clear Hr Rf.
  unfold command_malformed in E1. boolify.
  assert (Hsz : size <= MaxCommandBytes) by lia.
  apply maps_end_spec in E4 as (F & _ & S); [|done|done|rewrite !Forall_cons, Forall_nil; cbn [fst snd]; auto 20].
  unfold in_u32, in_u64, command_bytes, MaxCommandBytes in *.
  pose proof F as F'. apply Forall_cons in F' as [Fd F']. apply Forall_cons in F' as [Ft F'].
  apply Forall_cons in F' as [Fa F']. apply Forall_cons in F' as [Fb _]. cbn [fst snd] in Fd, Ft, Fa, Fb.
  assert (Hreuse : c_reuse c = 1 \/ c_reuse c = 2).
  { match goal with H : (negb _ && negb _) = false |- _ => apply andb_false_iff in H; destruct H end; boolify; lia. }
  assert (D : forall x, 0 <= x < 2 ^ 32 -> x mod 64 = 0 -> x <> 0 -> x = 64 * (x / 64) /\ 1 <= x / 64 < 2 ^ 26).
  { intros x Hx Hm Hz. pose proof (Z.div_mod x 64 ltac:(lia)). split; [lia|].
    split; [apply Z.div_le_lower_bound; lia|apply Z.div_lt_upper_bound; lia]. }
  destruct (D (c_m c)) as [Dm1 Dm2]; [lia..|]. destruct (D (c_n c)) as [Dn1 Dn2]; [lia..|].
  destruct (D (c_k c)) as [Dk1 Dk2]; [lia..|].
  assert (T : command_tasks c = (c_m c / 64 + c_reuse c - 1) / c_reuse c * ((c_n c / 64 + c_reuse c - 1) / c_reuse c)).
  { unfold command_tasks. rewrite (u64_id (c_m c / 64 + c_reuse c)), (u64_id (c_n c / 64 + c_reuse c)) by (unfold in_u64; lia).
    rewrite (u64_id (c_m c / 64 + c_reuse c - 1)), (u64_id (c_n c / 64 + c_reuse c - 1)) by (unfold in_u64; lia).
    assert (Q : forall x, 1 <= x < 2 ^ 26 -> 0 <= (x + c_reuse c - 1) / c_reuse c <= 2 ^ 27).
    { intros x Hx. split; [apply Z.div_pos; lia|]. apply Z.div_le_upper_bound; lia. }
    pose proof (Q _ Dm2). pose proof (Q _ Dn2). apply u64_id. unfold in_u64. nia. }
  split; [|split; [lia|split; [exact F|exact S]]].
  split; lia.
Qed.

(** ** Validated placements *)

Lemma adjacent_equal_sorted l : StronglySorted Z.le l -> adjacent_equal l = false -> NoDup l.
Proof.
  intros S. induction S as [|x l S IH F]; intros H; [constructor|]. destruct l as [|y l]; [apply NoDup_singleton|].
  cbn [adjacent_equal] in H. apply orb_false_iff in H as [Hxy H]. boolify. constructor; [|by apply IH].
  intros Hin. apply StronglySorted_inv in S as [_ Fy]. apply Forall_cons in F as [Fxy F].
  apply elem_of_cons in Hin as [->|Hin]; [done|]. rewrite Forall_forall in Fy. specialize (Fy _ Hin). lia.
Qed.

Lemma sorted_bounds l lo hi : StronglySorted Z.le l -> lo <= default 0 (head l) -> default 0 (last l) <= hi ->
  Forall (fun x => lo <= x <= hi) l.
Proof.
  intros S Hlo Hhi. apply Forall_forall. intros x Hx. split.
  - destruct l as [|y l]; [by apply not_elem_of_nil in Hx|]. cbn in Hlo. apply StronglySorted_inv in S as [_ F].
    apply elem_of_cons in Hx as [->|Hx]; [done|]. rewrite Forall_forall in F. specialize (F _ Hx). lia.
  - destruct (last l) as [z|] eqn:E; [|apply last_None in E; subst; by apply not_elem_of_nil in Hx]. cbn in Hhi.
    apply last_Some in E as [l' ->]. apply elem_of_app in Hx as [Hx|Hx]; [|apply list_elem_of_singleton in Hx; lia].
    enough (x <= z) by lia. clear - S Hx. induction l' as [|y l' IH]; [by apply not_elem_of_nil in Hx|].
    apply StronglySorted_inv in S as [S F]. apply elem_of_cons in Hx as [->|Hx]; [|by apply IH].
    rewrite Forall_forall in F. apply F, elem_of_app. right. by apply list_elem_of_singleton.
Qed.

(** A valid placement: the maps have one entry per tile or task, every entry is a data
    node, and the data nodes are distinct physical nodes [1 .. physicalNodes]. *)
Lemma placement_valid_spec p physical mT nT tasks : Forall (fun x => 0 <= x) (dataNodes p) ->
  WorkloadPlacement_valid p physical mT nT tasks = true ->
  Z.of_nat (length (taskNodes p)) = tasks /\ Z.of_nat (length (aNodes p)) = mT /\ Z.of_nat (length (bNodes p)) = nT /\
  NoDup (dataNodes p) /\ Forall (fun x => 1 <= x <= physical) (dataNodes p) /\
  Forall (fun x => x ∈ dataNodes p) (taskNodes p) /\ Forall (fun x => x ∈ dataNodes p) (aNodes p) /\
  Forall (fun x => x ∈ dataNodes p) (bNodes p).
Proof.
  intros Hnn. unfold WorkloadPlacement_valid. destruct (dataNodes p) as [|d ds] eqn:Ed; [done|]. rewrite <- Ed in *. cbv zeta.
  set (s := merge_sort Z.le (dataNodes p)).
  assert (P : s ≡ₚ dataNodes p) by apply merge_sort_Permutation.
  assert (S : StronglySorted Z.le s) by (apply StronglySorted_merge_sort; [intros ? ? ?; lia|intros ? ?; lia]).
  intros H. apply andb_true_iff in H as [H Hf]. cbn [forallb] in Hf.
  assert (B : forall l, forallb (binary_search s) l = true -> Forall (fun x => x ∈ dataNodes p) l).
  { intros l Hl. apply Forall_forall. intros x Hx. rewrite forallb_forall in Hl. specialize (Hl x (proj1 (list_elem_of_In _ _) Hx)).
    unfold binary_search in Hl. apply existsb_exists in Hl as (y & Hy & E). boolify. subst y. rewrite <- P. by apply list_elem_of_In. }
  boolify. split; [done|]. split; [done|]. split; [done|].
  split; [rewrite <- P; by apply adjacent_equal_sorted|].
  split; [|split; [by apply B|split; by apply B]].
  rewrite <- P. apply sorted_bounds; [done| |lia].
  destruct s as [|x s'] eqn:Es; [by apply Permutation_nil in P; rewrite P in Ed|]. cbn in *.
  assert (0 <= x); [|lia]. rewrite Forall_forall in Hnn. apply Hnn. rewrite <- P. by apply list_elem_of_here.
Qed.

(** ** The schedule *)

(** The command of logical worker [w] of the same product. *)
Definition with_worker (c : Command) (w : Z) : Command :=
  mkCommand (c_magic c) (c_version c) (c_kernel_kind c) (c_total_bytes c) (c_checksum c) (c_flags c)
    (c_physical_worker c) w (c_worker_count c) (c_precision c) (c_m c) (c_n c) (c_k c) (c_reuse c)
    (c_node_bytes c) (c_a_offset c) (c_b_offset c) (c_c_offset c) (c_start_cycle c)
    (c_data_map c) (c_data_count c) (c_task_map c) (c_task_count c) (c_a_map c) (c_a_count c) (c_b_map c) (c_b_count c).

(** Where one output tile is computed: worker, task, and position in the reuse window. *)
Record TileSite := mkSite { s_worker : Z; s_task : Z; s_mIndex : Z; s_nIndex : Z }.

Section native.
Context (c : Command) (gm : Z).
Hypothesis Hc : native_shape c.
Notation M := (c_m c / 64).
Notation N := (c_n c / 64).
Notation r := (c_reuse c).
Notation W := (c_worker_count c).
Notation T := (c_task_count c).
Notation mg := ((M + r - 1) / r).
Notation ng := ((N + r - 1) / r).
Notation hdr w := (native_header gm (with_worker c w)).

(** [i < task_count] tasks of worker [w], and the position inside the window's extents. *)
Definition site_ok (s : TileSite) : Prop :=
  0 <= s_worker s < W /\ 0 <= s_task s < task_count (hdr (s_worker s)) /\
  exists macro, macroTaskOf (hdr (s_worker s)) (s_task s) = Ok macro /\
  let t := task_position (hdr (s_worker s)) macro (s_mIndex s) (s_nIndex s) in
  0 <= s_mIndex s < t_mCount t /\ 0 <= s_nIndex s < t_nCount t.

Definition site_tile (s : TileSite) : Z * Z :=
  match macroTaskOf (hdr (s_worker s)) (s_task s) with
  | Ok macro => let t := task_position (hdr (s_worker s)) macro (s_mIndex s) (s_nIndex s) in (t_m_tile t, t_n_tile t)
  | Throw _ => (-1, -1)
  end.

Lemma groups_bound x : 1 <= x <= 2 ^ 13 -> 1 <= (x + r - 1) / r <= 2 ^ 13 /\ x <= (x + r - 1) / r * r.
Proof.
  intros Hx. destruct (ns_reuse c Hc) as [-> | ->].
  - rewrite Z.add_simpl_r, Z.div_1_r. lia.
  - pose proof (Z.div_mod (x + 2 - 1) 2 ltac:(lia)). pose proof (Z.mod_pos_bound (x + 2 - 1) 2 ltac:(lia)). lia.
Qed.

Lemma groups_u32 x : 1 <= x <= 2 ^ 13 -> u32 (x + r - 1) / r = (x + r - 1) / r.
Proof. intros Hx. rewrite u32_id; [done|]. unfold in_u32. destruct (ns_reuse c Hc) as [-> | ->]; lia. Qed.

Lemma header_groups w : m_group_count (hdr w) = mg /\ n_group_count (hdr w) = ng.
Proof.
  cbn [m_group_count n_group_count native_header with_worker c_m c_n c_reuse].
  pose proof (ns_m c Hc). pose proof (ns_n c Hc). rewrite !groups_u32 by lia. done.
Qed.

Lemma header_task_count w : 0 <= w < W -> task_count (hdr w) = if w <? T then (T - 1 - w) / W + 1 else 0.
Proof.
  intros Hw. cbn [task_count native_header with_worker c_logical_worker c_task_count c_worker_count].
  destruct (Z.ltb_spec w T); [|done]. pose proof (ns_workers c Hc). pose proof (ns_tasks c Hc).
  rewrite (u32_id (T - 1 - w)) by (unfold in_u32; lia).
  assert (0 <= (T - 1 - w) / W <= T) by (split; [apply Z.div_pos; lia|apply Z.div_le_upper_bound; nia]).
  apply u32_id. unfold in_u32. lia.
Qed.

Lemma macro_of w i : 0 <= w < W -> 0 <= i < task_count (hdr w) -> macroTaskOf (hdr w) i = Ok (w + i * W) /\ 0 <= w + i * W < T.
Proof.
  intros Hw Hi. rewrite header_task_count in Hi by done. pose proof (ns_workers c Hc). pose proof (ns_tasks c Hc).
  destruct (Z.ltb_spec w T); [|lia].
  assert (i * W <= T - 1 - w).
  { pose proof (Z.mul_div_le (T - 1 - w) W ltac:(lia)). nia. }
  unfold macroTaskOf. cbn [attention_causal worker_slot active_worker_cores native_header with_worker c_logical_worker c_worker_count].
  rewrite (u32_id (i * W)), (u32_id (w + i * W)) by (unfold in_u32; nia). split; [done|nia].
Qed.

(** Every macro task belongs to exactly one worker and index. *)
Lemma macro_site id : 0 <= id < T -> 0 <= id mod W < W /\ 0 <= id / W < task_count (hdr (id mod W)) /\ id = id mod W + id / W * W.
Proof.
  intros Hid. pose proof (ns_workers c Hc) as [Hw _]. pose proof (Z.mod_pos_bound id W ltac:(lia)) as B.
  pose proof (Z.div_mod id W ltac:(lia)). rewrite header_task_count by done. rewrite (proj2 (Z.ltb_lt (id mod W) T)) by (pose proof (Z.mod_le id W); lia).
  split; [done|]. split; [|lia]. split; [apply Z.div_pos; lia|].
  enough (id / W <= (T - 1 - id mod W) / W) by lia. apply Z.div_le_lower_bound; lia.
Qed.

(** The position of a macro task, opened. *)
Definition group_n (id : Z) : Z := (id / mg + id mod mg) mod ng.


Lemma group_in_range x g : 1 <= x <= 2 ^ 13 -> 0 <= g < (x + r - 1) / r -> 0 <= g * r < x /\ g * r < 2 ^ 13.
Proof.
  intros Hx Hg. destruct (ns_reuse c Hc) as [E|E]; rewrite E in *.
  - rewrite Z.add_simpl_r, Z.div_1_r in Hg. lia.
  - pose proof (Z.div_mod (x + 2 - 1) 2 ltac:(lia)). pose proof (Z.mod_pos_bound (x + 2 - 1) 2 ltac:(lia)). lia.
Qed.

Lemma task_position_spec w id a b : 0 <= id < T -> 0 <= a -> 0 <= b ->
  let t := task_position (hdr w) id a b in
  let x := id mod mg in
  let y := group_n id in
  0 <= x < mg /\ 0 <= y < ng /\ t_m_group t = x /\ t_n_group t = y /\
  t_mCount t = Z.min r (M - x * r) /\ t_nCount t = Z.min r (N - y * r) /\
  0 <= t_mIndex t < t_mCount t /\ 0 <= t_nIndex t < t_nCount t /\
  t_m_tile t = x * r + t_mIndex t /\ t_n_tile t = y * r + t_nIndex t /\
  (a < t_mCount t -> t_mIndex t = a) /\ (b < t_nCount t -> t_nIndex t = b).
Proof.
  intros Hid Ha Hb. cbv zeta.
  pose proof (ns_m c Hc) as [_ HM]. pose proof (ns_n c Hc) as [_ HN]. pose proof (ns_reuse c Hc) as Hr.
  destruct (groups_bound M HM) as [Gm Gm']. destruct (groups_bound N HN) as [Gn Gn'].
  pose proof (Z.mod_pos_bound id mg ltac:(lia)) as Bx. pose proof (ns_tasks c Hc) as [ET HT].
  assert (Bd : 0 <= id / mg < ng) by (split; [apply Z.div_pos; lia|apply Z.div_lt_upper_bound; lia]).
  assert (By : 0 <= group_n id < ng) by (apply Z.mod_pos_bound; lia).
  destruct (group_in_range M _ HM Bx) as [Rx Rx']. destruct (group_in_range N _ HN By) as [Ry Ry'].
  unfold task_position. cbv zeta. destruct (header_groups w) as [-> ->].
  cbn [h_m h_n block_m block_n a_reuse_n_tiles b_reuse_m_tiles attention_key_window_major native_header with_worker c_m c_n c_reuse].
  rewrite (Z.max_l r 1) by lia. rewrite (proj2 (Z.eqb_neq mg 0)), (proj2 (Z.eqb_neq ng 0)) by lia. cbn [negb].
  rewrite (u32_id (id / mg + id mod mg)) by (unfold in_u32; lia). fold (group_n id).
  rewrite (u32_id (id mod mg * r)), (u32_id (group_n id * r)) by (unfold in_u32; lia).
  rewrite (u32_id (M - id mod mg * r)), (u32_id (N - group_n id * r)) by (unfold in_u32; lia).
  cbn [t_m_tile t_n_tile t_m_group t_n_group t_mIndex t_nIndex t_mCount t_nCount].
  set (x := id mod mg) in *. set (y := group_n id) in *.
  set (cm := Z.min r (M - x * r)). set (cn := Z.min r (N - y * r)).
  assert (Hcm : 1 <= cm <= r) by lia. assert (Hcn : 1 <= cn <= r) by lia.
  assert (I : forall i cnt, 0 <= i -> 1 <= cnt <= r ->
    let j := (if cnt <=? (if r =? 1 then 0 else i) then 0 else if r =? 1 then 0 else i) in
    0 <= j < cnt /\ (i < cnt -> j = i)).
  { intros i cnt Hi Hcnt. cbv zeta. destruct (Z.eqb_spec r 1); destruct (Z.leb_spec cnt (if r =? 1 then 0 else i)) as [L|L];
      destruct (Z.leb_spec cnt 0); destruct (Z.leb_spec cnt i); rewrite ?e in *; lia. }
  destruct (I a cm Ha Hcm) as [I1 I2]. destruct (I b cn Hb Hcn) as [J1 J2]. cbv zeta in I1, I2, J1, J2.
  set (i := if cm <=? _ then _ else _) in *. set (j := if cn <=? _ then _ else _) in *.
  rewrite (u32_id (x * r + i)), (u32_id (y * r + j)) by (unfold in_u32; lia).
  split; [done|]. split; [done|]. repeat (split; [done|]). done.
Qed.

Lemma site_spec s : site_ok s -> exists id, 0 <= id < T /\ macroTaskOf (hdr (s_worker s)) (s_task s) = Ok id /\
  id = s_worker s + s_task s * W /\
  0 <= s_mIndex s < Z.min r (M - id mod mg * r) /\ 0 <= s_nIndex s < Z.min r (N - group_n id * r) /\
  0 <= id mod mg < mg /\ 0 <= group_n id < ng /\
  let t := task_position (hdr (s_worker s)) id (s_mIndex s) (s_nIndex s) in
  t_m_tile t = id mod mg * r + s_mIndex s /\ t_n_tile t = group_n id * r + s_nIndex s /\
  t_mIndex t = s_mIndex s /\ t_nIndex t = s_nIndex s.
Proof.
  intros (Hw & Hi & macro & Em & Ha & Hb). destruct (macro_of _ _ Hw Hi) as [E Hid]. rewrite E in Em. injection Em as <-.
  exists (s_worker s + s_task s * W). split; [done|]. split; [done|]. split; [done|].
  destruct (task_position_spec (s_worker s) _ (s_mIndex s) (s_nIndex s) Hid ltac:(lia) ltac:(lia))
    as (X & Y & _ & _ & Cm & Cn & _ & _ & Tm & Tn & Ia & Ib).
  rewrite Cm in Ha, Ia. rewrite Cn in Hb, Ib. split; [lia|]. split; [lia|]. split; [done|]. split; [done|]. cbv zeta.
  rewrite Tm, Tn, Ia, Ib by lia. done.
Qed.

Lemma group_of_pair x y : 0 <= x < mg -> 0 <= y < ng ->
  let id := x + mg * ((y - x) mod ng) in 0 <= id < mg * ng /\ id mod mg = x /\ group_n id = y.
Proof.
  intros Hx Hy. cbv zeta. pose proof (Z.mod_pos_bound (y - x) ng ltac:(lia)) as D. set (d := (y - x) mod ng) in *.
  assert (E1 : (x + mg * d) mod mg = x) by (rewrite Z.mul_comm, Z.mod_add, Z.mod_small; lia).
  assert (E2 : (x + mg * d) / mg = d) by (rewrite Z.mul_comm, Z.div_add, Z.div_small; lia).
  split; [nia|]. split; [done|]. unfold group_n. rewrite E1, E2. unfold d. rewrite Zplus_mod_idemp_l.
  replace (y - x + x) with y by lia. by apply Z.mod_small.
Qed.

Lemma group_pair_unique id : 0 <= id < mg * ng -> 1 <= mg -> 1 <= ng -> id = id mod mg + mg * ((group_n id - id mod mg) mod ng).
Proof.
  intros Hid Hm Hn. unfold group_n. rewrite Zminus_mod_idemp_l. replace (id / mg + id mod mg - id mod mg) with (id / mg) by lia.
  rewrite (Z.mod_small (id / mg)); [pose proof (Z.div_mod id mg ltac:(lia)); lia|].
  split; [apply Z.div_pos; lia|apply Z.div_lt_upper_bound; lia].
Qed.

Lemma tile_divmod x g a t : 1 <= r -> 0 <= a < Z.min r (x - g * r) -> t = g * r + a -> g = t / r /\ a = t mod r.
Proof.
  intros Hr Ha ->. split; [apply (Z.div_unique _ _ _ a); lia|apply (Z.mod_unique _ _ g); lia].
Qed.

Lemma every_tile_once m n : 0 <= m < M -> 0 <= n < N ->
  exists s, site_ok s /\ site_tile s = (m, n) /\ forall s', site_ok s' -> site_tile s' = (m, n) -> s' = s.
Proof.
  intros Hm Hn. pose proof (ns_m c Hc) as [_ HM]. pose proof (ns_n c Hc) as [_ HN].
  destruct (groups_bound M HM) as [Gm Gm']. destruct (groups_bound N HN) as [Gn Gn'].
  assert (Hr : 1 <= r) by (destruct (ns_reuse c Hc); lia). pose proof (ns_tasks c Hc) as [ET HT].
  pose proof (Z.div_mod m r ltac:(lia)) as Dm. pose proof (Z.mod_pos_bound m r ltac:(lia)) as Bm.
  pose proof (Z.div_mod n r ltac:(lia)) as Dn. pose proof (Z.mod_pos_bound n r ltac:(lia)) as Bn.
  assert (Xm : 0 <= m / r < mg) by (split; [apply Z.div_pos; lia|nia]).
  assert (Xn : 0 <= n / r < ng) by (split; [apply Z.div_pos; lia|nia]).
  destruct (group_of_pair _ _ Xm Xn) as (Hid & E1 & E2). set (id := m / r + mg * ((n / r - m / r) mod ng)) in *.
  rewrite <- ET in Hid. destruct (macro_site id Hid) as (Hw & Hi & Eid).
  exists (mkSite (id mod W) (id / W) (m mod r) (n mod r)).
  destruct (macro_of _ _ Hw Hi) as [Emac _]. rewrite <- Eid in Emac.
  destruct (task_position_spec (id mod W) id (m mod r) (n mod r) Hid ltac:(lia) ltac:(lia))
    as (_ & _ & _ & _ & Cm & Cn & _ & _ & Tm & Tn & Ia & Ib). rewrite E1 in Cm, Tm. rewrite E2 in Cn, Tn.
  split; [|split].
  - split; [done|]. split; [done|]. exists id. split; [done|]. cbn [s_worker s_mIndex s_nIndex]. cbv zeta. rewrite Cm, Cn. lia.
  - unfold site_tile. cbn [s_worker s_task s_mIndex s_nIndex]. rewrite Emac. cbv zeta. rewrite Tm, Tn, Ia, Ib by lia. f_equal; lia.
  - intros s' Hs' Et. destruct (site_spec s' Hs') as (id' & Hid' & Em' & Ei' & Ha' & Hb' & Hx' & Hy' & Tm' & Tn' & _).
    unfold site_tile in Et. rewrite Em' in Et. cbv zeta in Et. rewrite Tm', Tn' in Et. injection Et as F1 F2.
    symmetry in F1, F2. destruct (tile_divmod _ _ _ _ Hr Ha' F1) as [G1 A1]. destruct (tile_divmod _ _ _ _ Hr Hb' F2) as [G2 B1].
    assert (id' = id).
    { rewrite (group_pair_unique id' ltac:(lia) ltac:(lia) ltac:(lia)). unfold id. by rewrite <- G1, <- G2. }
    subst id'. destruct Hs' as (Hw' & _). destruct s' as [w' i' a' b']. cbn [s_worker s_task s_mIndex s_nIndex] in *. subst a' b'.
    f_equal; [apply (Z.mod_unique _ _ i'); lia|apply (Z.div_unique _ _ _ w'); lia].
Qed.

(** ** The addresses *)

Notation S := (inputTileBytes c).
Notation K := (c_k c / 64).
Notation nb := (c_node_bytes c).

Lemma tile_bytes : S = 64 * packedRowBytes 64 (native_mode c) /\ 1 <= packedRowBytes 64 (native_mode c) /\ S <= 2 ^ 14.
Proof. unfold inputTileBytes. destruct (native_mode c); vm_compute; (split; [reflexivity|split; discriminate]). Qed.

Context (p : WorkloadPlacement).

(** A placement the front end accepts. *)
Record native_placed : Prop := {
  np_tasks : Z.of_nat (length (taskNodes p)) = T;
  np_a : Z.of_nat (length (aNodes p)) = M;
  np_b : Z.of_nat (length (bNodes p)) = N;
  np_data : Forall (fun x => 1 <= x <= 4) (dataNodes p);
  np_taskNodes : Forall (fun x => x ∈ dataNodes p) (taskNodes p);
  np_aNodes : Forall (fun x => x ∈ dataNodes p) (aNodes p);
  np_bNodes : Forall (fun x => x ∈ dataNodes p) (bNodes p);
  np_fits : Forall (fun x => node_overfull c p x = false) (dataNodes p) }.
Hypothesis Hp : native_placed.

Lemma node_lookup l i x : Forall (fun x => x ∈ dataNodes p) l -> l !! i = Some x -> x ∈ dataNodes p /\ 1 <= x <= 4.
Proof.
  intros Hl E. pose proof (Forall_lookup_1 _ _ _ _ Hl E) as H. split; [done|].
  pose proof (np_data Hp) as D. rewrite Forall_forall in D. by apply D.
Qed.

(** The declared regions hold every tile placed on a node. *)
Lemma node_capacity x : x ∈ dataNodes p ->
  std_count x (aNodes p) * K * S <= c_b_offset c - c_a_offset c /\
  (if replicateB p then N else std_count x (bNodes p)) * K * S <= c_c_offset c - c_b_offset c /\
  std_count x (taskNodes p) * (r * r * 16384) <= nb - c_c_offset c.
Proof.
  intros Hx. pose proof (np_fits Hp) as F. rewrite Forall_forall in F. specialize (F x Hx).
  pose proof (ns_k c Hc) as [_ HK]. pose proof (ns_m c Hc) as [_ HM]. pose proof (ns_n c Hc) as [_ HN].
  pose proof (ns_offsets c Hc). pose proof (ns_node c Hc) as En. pose proof tile_bytes as (_ & _ & HS).
  pose proof (ns_tasks c Hc) as [_ HT]. pose proof (ns_counts c Hc) as (_ & Eb & _).
  assert (0 <= S) by (pose proof tile_bytes; lia).
  pose proof (std_count_nonneg x (aNodes p)). pose proof (std_count_nonneg x (bNodes p)). pose proof (std_count_nonneg x (taskNodes p)).
  rewrite (np_a Hp), (np_b Hp), (np_tasks Hp) in *.
  assert (P : forall q, 0 <= q <= 2 ^ 13 -> q ⊠ K ⊠ S = q * K * S).
  { intros q Hq. rewrite (u64_id (q * K)) by (unfold in_u64; nia). apply u64_id. unfold in_u64.
    assert (0 <= q * K <= 2 ^ 39) by nia. nia. }
  unfold node_overfull in F. cbv zeta in F. rewrite Eb in F. apply orb_false_iff in F as [F F3]. apply orb_false_iff in F as [F1 F2].
  boolify. rewrite P in F1 by lia. rewrite P in F2 by (destruct (replicateB p); lia).
  rewrite (u64_id (c_b_offset c - _)) in F1 by (unfold in_u64; lia). rewrite (u64_id (c_c_offset c - _)) in F2 by (unfold in_u64; lia).
  rewrite (u64_id (nb - _)) in F3 by (unfold in_u64; lia).
  assert (Q : std_count x (taskNodes p) ⊠ r ⊠ r ⊠ 64 ⊠ 64 ⊠ 4 = std_count x (taskNodes p) * (r * r * 16384)).
  { destruct (ns_reuse c Hc) as [-> | ->]; unwrap64; lia. }
  rewrite Q in F3. lia.
Qed.

(** The node and slot of the B operand. *)
Definition b_owner (nc n : Z) : Z := if replicateB p then nc else default 0 (bNodes p !! Z.to_nat n).
Definition b_slot (nc n : Z) : Z :=
  if replicateB p then n else std_count (b_owner nc n) (take (Z.to_nat n) (bNodes p)).

(** [deriveTask] of a site, opened: three node-relative addresses. *)
Lemma derive_spec s x reset : site_ok s -> x_placement x = Some p ->
  x_reuseMIndex x = s_mIndex s -> x_reuseNIndex x = s_nIndex s ->
  exists id m n na nc d,
  macroTaskOf (hdr (s_worker s)) (s_task s) = Ok id /\ 0 <= id < T /\ site_tile s = (m, n) /\ 0 <= m < M /\ 0 <= n < N /\
  0 <= s_mIndex s < r /\ 0 <= s_nIndex s < r /\
  aNodes p !! Z.to_nat m = Some na /\ taskNodes p !! Z.to_nat id = Some nc /\
  1 <= b_owner nc n <= 4 /\ b_owner nc n ∈ dataNodes p /\
  0 <= b_slot nc n < (if replicateB p then N else std_count (b_owner nc n) (bNodes p)) /\
  deriveTask (hdr (s_worker s)) x (s_task s) reset = Ok d /\
  w_mat_base_addr (d_current d) = na * nb + c_a_offset c + std_count na (take (Z.to_nat m) (aNodes p)) * K * S /\
  w_vec_base_addr (d_current d) = b_owner nc n * nb + c_b_offset c + b_slot nc n * K * S /\
  w_c_base_addr (d_current d) = nc * nb + c_c_offset c +
    (std_count nc (take (Z.to_nat id) (taskNodes p)) * (r * r) + s_mIndex s * r + s_nIndex s) * 16384 /\
  w_task_id (d_current d) = m * N + n.
Proof.
  intros Hs Ex Ea Eb. destruct (site_spec s Hs) as (id & Hid & Em & _ & Ha & Hb & Hx & Hy & Tm & Tn & Ia & Ib).
  pose proof (ns_m c Hc) as [_ HM]. pose proof (ns_n c Hc) as [_ HN]. pose proof (ns_k c Hc) as [_ HK].
  pose proof (ns_offsets c Hc) as HO. pose proof (ns_node c Hc) as Enb. pose proof (ns_tasks c Hc) as [_ HT].
  pose proof (ns_reuse c Hc) as Hr. pose proof tile_bytes as (ES & HP & HS).
  destruct (group_in_range M _ HM Hx) as [Rx _]. destruct (group_in_range N _ HN Hy) as [Ry _].
  set (t := task_position (hdr (s_worker s)) id (s_mIndex s) (s_nIndex s)) in *.
  assert (Hm : 0 <= t_m_tile t < M) by (rewrite Tm; lia). assert (Hn : 0 <= t_n_tile t < N) by (rewrite Tn; lia).
  destruct (vec_at_lt (aNodes p) (t_m_tile t)) as (na & Va & La); [rewrite (np_a Hp); lia|].
  destruct (vec_at_lt (taskNodes p) id) as (nc & Vc & Lc); [rewrite (np_tasks Hp); lia|].
  destruct (vec_at_lt (bNodes p) (t_n_tile t)) as (nn & Vb & Lb); [rewrite (np_b Hp); lia|].
  destruct (node_lookup _ _ _ (np_aNodes Hp) La) as [Da Na]. destruct (node_lookup _ _ _ (np_taskNodes Hp) Lc) as [Dc Nc].
  destruct (node_lookup _ _ _ (np_bNodes Hp) Lb) as [Db Nb].
  destruct (node_capacity _ Da) as (Ca & _ & _). destruct (node_capacity _ Dc) as (_ & _ & Cc).
  pose proof (std_count_take_all _ _ _ La) as SA. pose proof (std_count_take_all _ _ _ Lc) as SC.
  pose proof (std_count_take_all _ _ _ Lb) as SB.
  pose proof (std_count_nonneg na (take (Z.to_nat (t_m_tile t)) (aNodes p))) as [PA _].
  pose proof (std_count_nonneg nc (take (Z.to_nat id) (taskNodes p))) as [PC _].
  pose proof (std_count_nonneg nn (take (Z.to_nat (t_n_tile t)) (bNodes p))) as [PB _].
  pose proof (std_count_nonneg na (aNodes p)) as [_ LA]. rewrite (np_a Hp) in LA.
  pose proof (std_count_nonneg nc (taskNodes p)) as [_ LC]. rewrite (np_tasks Hp) in LC.
  assert (Eo : b_owner nc (t_n_tile t) = if replicateB p then nc else nn) by (unfold b_owner; rewrite Lb; done).
  assert (Do : b_owner nc (t_n_tile t) ∈ dataNodes p) by (rewrite Eo; by destruct (replicateB p)).
  assert (No : 1 <= b_owner nc (t_n_tile t) <= 4) by (rewrite Eo; by destruct (replicateB p)).
  assert (Bs : 0 <= b_slot nc (t_n_tile t) < if replicateB p then N else std_count (b_owner nc (t_n_tile t)) (bNodes p))
    by (unfold b_slot; rewrite Eo; destruct (replicateB p); lia).
  destruct (node_capacity _ Do) as (_ & Cb & _).
  assert (Ow : operand_owners (hdr (s_worker s)) (Some p) t nc =
    Ok (na, b_owner nc (t_n_tile t), std_count na (take (Z.to_nat (t_m_tile t)) (aNodes p)), b_slot nc (t_n_tile t))).
  { unfold operand_owners. rewrite Va. cbn [rbind].
    replace (if replicateB p then Ok nc else vec_at (bNodes p) (t_n_tile t)) with (Ok (b_owner nc (t_n_tile t)))
      by (rewrite Eo, Vb; by destruct (replicateB p)). cbn [rbind].
    rewrite (count_nodes_spec (aNodes p)) by (rewrite ?(np_a Hp); lia). cbn [rbind].
    rewrite (count_nodes_spec (bNodes p)) by (rewrite ?(np_b Hp); lia). cbn [rbind]. rewrite Z.add_0_l, Z2Nat.inj_0, drop_0.
    unfold b_slot. by destruct (replicateB p). }
  assert (Ms : macroSlotInNode (hdr (s_worker s)) (Some p) id nc = Ok (std_count nc (take (Z.to_nat id) (taskNodes p)))).
  { unfold macroSlotInNode. rewrite (count_nodes_ext _ (vec_at (taskNodes p))) by done.
    rewrite (count_nodes_spec (taskNodes p)) by (rewrite ?(np_tasks Hp); lia). by rewrite Z.add_0_l. }
  exists id, (t_m_tile t), (t_n_tile t), na, nc. eexists.
  split; [done|]. split; [done|]. split; [unfold site_tile; rewrite Em; done|]. split; [done|]. split; [done|].
  split; [lia|]. split; [lia|]. split; [done|]. split; [done|]. split; [done|]. split; [done|]. split; [done|].
  split.
  { unfold deriveTask. rewrite Ex, Em. cbn [rbind]. cbv zeta. rewrite Ea, Eb. fold t. cbn [nodeForMacroTask]. rewrite Vc. cbn [rbind].
    rewrite Ms. cbn [rbind]. rewrite Ow. cbn [rbind]. reflexivity. }
  cbn [d_current w_mat_base_addr w_vec_base_addr w_c_base_addr w_task_id].
  cbn [operand_layout native_header Z.eqb
    mem_node_size h_k h_n block_k block_m block_n elem_bytes off_gemm_mat_base off_gemm_vec_base off_gemm_out_base
    mat_stride_bytes vec_stride_bytes a_reuse_n_tiles b_reuse_m_tiles].
  change (inputTileBytes (with_worker c (s_worker s))) with S.
  change (native_mode (with_worker c (s_worker s))) with (native_mode c).
  cbn [with_worker c_node_bytes c_k c_n c_a_offset c_b_offset c_c_offset c_reuse].
  rewrite Ia, Ib, (Z.max_l r 1) by lia.
  set (pa := std_count na (take _ (aNodes p))) in *. set (pc := std_count nc (take _ (taskNodes p))) in *.
  set (pb := b_slot nc (t_n_tile t)) in *. set (no := b_owner nc (t_n_tile t)) in *.
  set (vs := packedRowBytes 64 (native_mode c)) in *. rewrite Enb in *.
  assert (B1 : 0 <= pa * K /\ pa * K * S <= 2 ^ 27) by nia.
  assert (B2 : 0 <= pb * K /\ pb * K * S <= 2 ^ 27) by (destruct (replicateB p); nia).
  split; [|split; [|split]].
  - rewrite (u64_id (na * _)), (u64_id (pa * K)), (u64_id (pa * K * S)) by (unfold in_u64; nia).
    rewrite (u64_id (na * 2 ^ 27 + c_a_offset c)) by (unfold in_u64; lia). apply u64_id. unfold in_u64. lia.
  - rewrite (u32_id (K * 64)) by (unfold in_u32; lia). rewrite (u64_id (no * _)) by (unfold in_u64; lia).
    replace (pb ⊠ (K * 64)) with (pb * (K * 64)) by (symmetry; apply u64_id; unfold in_u64; nia).
    rewrite (u64_id (pb * (K * 64) * vs)) by (unfold in_u64; nia).
    rewrite (u64_id (no * 2 ^ 27 + c_b_offset c)) by (unfold in_u64; lia). rewrite u64_id by (unfold in_u64; nia). nia.
  - assert (B3 : 0 <= pc <= 2 ^ 13) by lia. change ((64 ⊠ 64 ⊠ 4 ⊞ 255) / 256 ⊠ 256) with 16384.
    assert (E3 : pc ⊠ r ⊠ r ⊞ s_mIndex s ⊠ r ⊞ s_nIndex s = pc * (r * r) + s_mIndex s * r + s_nIndex s).
    { destruct Hr as [E|E]; rewrite E in *; unwrap64; lia. }
    rewrite E3. assert (0 <= pc * (r * r) + s_mIndex s * r + s_nIndex s <= 2 ^ 16) by (destruct Hr as [E|E]; rewrite E in *; lia).
    rewrite (u64_id (nc * _)) by (unfold in_u64; lia). rewrite (u64_id (_ * 16384)) by (unfold in_u64; lia).
    rewrite (u64_id (nc * 2 ^ 27 + c_c_offset c)) by (unfold in_u64; lia). apply u64_id. unfold in_u64. lia.
  - rewrite (u64_id (t_m_tile t * N)) by (unfold in_u64; nia). apply u64_id. unfold in_u64. nia.
Qed.

(** Different sites on one node store into different output slots. *)
Lemma site_slots_differ id id' nc a b a' b' : 0 <= id -> 0 <= id' ->
  taskNodes p !! Z.to_nat id = Some nc -> taskNodes p !! Z.to_nat id' = Some nc ->
  0 <= a < r -> 0 <= b < r -> 0 <= a' < r -> 0 <= b' < r -> (id, a, b) <> (id', a', b') ->
  std_count nc (take (Z.to_nat id) (taskNodes p)) * (r * r) + a * r + b <>
  std_count nc (take (Z.to_nat id') (taskNodes p)) * (r * r) + a' * r + b'.
Proof.
  intros Hid Hid' E E' Ha Hb Ha' Hb' Hne.
  pose proof (std_count_take_lt nc (taskNodes p) (Z.to_nat id) (Z.to_nat id') E) as L1.
  pose proof (std_count_take_lt nc (taskNodes p) (Z.to_nat id') (Z.to_nat id) E') as L2.
  set (q := std_count nc (take (Z.to_nat id) (taskNodes p))) in *.
  set (q' := std_count nc (take (Z.to_nat id') (taskNodes p))) in *.
  assert (D : id <> id' -> q <> q') by (intros H; destruct (Z.lt_total id id') as [|[|]]; [specialize (L1 ltac:(lia))|done|specialize (L2 ltac:(lia))]; lia).
  intros Eq. apply Hne. assert (Hq : q = q' /\ a = a' /\ b = b').
  { destruct (ns_reuse c Hc) as [Er|Er]; rewrite Er in *; lia. }
  destruct Hq as (Hq & -> & ->). destruct (decide (id = id')) as [->|Hn]; [done|]. by destruct (D Hn).
Qed.

(** The placement's own address functions agree with the derived base addresses. *)
Lemma placement_addresses m n k na nc : 0 <= m < M -> 0 <= n < N -> 0 <= k < K ->
  aNodes p !! Z.to_nat m = Some na -> nc ∈ dataNodes p ->
  aAddress p m k K nb (c_a_offset c) S =
    Ok (na * nb + c_a_offset c + std_count na (take (Z.to_nat m) (aNodes p)) * K * S + k * S) /\
  bAddress p n k K nc nb (c_b_offset c) S = Ok (b_owner nc n * nb + c_b_offset c + b_slot nc n * K * S + k * S).
Proof.
  intros Hm Hn Hk La Dc. pose proof (ns_k c Hc) as [_ HK]. pose proof (ns_offsets c Hc) as HO. pose proof (ns_node c Hc) as Enb.
  pose proof tile_bytes as (ES & HP & HS). destruct (node_lookup _ _ _ (np_aNodes Hp) La) as [Da Na].
  destruct (vec_at_lt (bNodes p) n) as (nn & Vb & Lb); [rewrite (np_b Hp); lia|].
  destruct (node_lookup _ _ _ (np_bNodes Hp) Lb) as [Db Nb].
  assert (Nc : 1 <= nc <= 4) by (pose proof (np_data Hp) as D; rewrite Forall_forall in D; by apply D).
  destruct (node_capacity _ Da) as (Ca & _ & _). pose proof (std_count_take_all _ _ _ La) as SA.
  pose proof (std_count_nonneg na (take (Z.to_nat m) (aNodes p))) as [PA _].
  assert (Eo : b_owner nc n = if replicateB p then nc else nn) by (unfold b_owner; rewrite Lb; done).
  assert (Do : b_owner nc n ∈ dataNodes p) by (rewrite Eo; by destruct (replicateB p)).
  assert (No : 1 <= b_owner nc n <= 4) by (rewrite Eo; by destruct (replicateB p)).
  pose proof (std_count_take_all _ _ _ Lb) as SB. pose proof (std_count_nonneg nn (take (Z.to_nat n) (bNodes p))) as [PB _].
  assert (Bs : 0 <= b_slot nc n < if replicateB p then N else std_count (b_owner nc n) (bNodes p))
    by (unfold b_slot; rewrite Eo; destruct (replicateB p); lia).
  destruct (node_capacity _ Do) as (_ & Cb & _).
  assert (A : forall node off slot, 1 <= node <= 4 -> 0 <= off <= 2 ^ 27 -> 0 <= slot * K -> (slot * K + K) * S <= 2 ^ 27 ->
    node ⊠ nb ⊞ off ⊞ (slot ⊠ K ⊞ k) ⊠ S = node * nb + off + slot * K * S + k * S).
  { intros node off slot H1 H2 H3 H4. rewrite Enb in *. rewrite (u64_id (node * _)) by (unfold in_u64; lia).
    rewrite (u64_id (slot * K)) by (unfold in_u64; nia). rewrite (u64_id (slot * K + k)) by (unfold in_u64; nia).
    rewrite (u64_id ((slot * K + k) * S)) by (unfold in_u64; nia). rewrite (u64_id (node * 2 ^ 27 + off)) by (unfold in_u64; lia).
    rewrite u64_id by (unfold in_u64; nia). lia. }
  assert (Va : vec_at (aNodes p) m = Ok na) by (apply vec_at_Ok; split; [lia|done]).
  split.
  - unfold aAddress, aSlot. rewrite Va. cbn [rbind]. rewrite A; [done|lia|lia|nia|nia].
  - unfold bAddress, bSlot, b_slot. unfold b_slot in Bs. rewrite Eo in *.
    destruct (replicateB p); cbn [rbind]; rewrite ?Vb; cbn [rbind]; (rewrite A; [done|lia|lia|nia|nia]).
Qed.
End native.

(** ** Accepted commands *)

(** The front end accepts the bytes at [rs1]: it issues a token. *)
Record native_started (e : NativeEnv) (f : NativeFrontEnd) (rs1 rs2 : Z) (c : Command) (p : WorkloadPlacement) : Prop := {
  st_bytes : Forall in_u8 (e_read e rs1 rs2);
  st_command : c = Command_of (e_read e rs1 rs2);
  st_placement : p = native_placement (e_read e rs1 rs2) c;
  st_idle : nativeToken_ f = 0;
  st_token : nativeToken_ (tryStartNativeDescriptor e f rs1 rs2).1 <> 0 }.

Lemma native_started_spec e f rs1 rs2 c p : native_started e f rs1 rs2 c p ->
  native_shape c /\ native_placed c p /\ validate c (Z.of_nat (length (e_read e rs1 rs2))) = Success /\
  e_start e (native_header (e_gmBase e) c) p (native_precision c) = true.
Proof.
  intros [Hr -> -> Hf Ht]. unfold tryStartNativeDescriptor in Ht. set (raw := e_read e rs1 rs2) in *.
  set (c := Command_of raw) in *. cbv zeta in Ht.
  destruct (negb (e_hasWorker e)); [done|]. destruct (_ || e_workerBusy e); [done|]. destruct (_ || _ || _ || _); [done|].
  destruct (negb (Z.of_nat (length raw) =? rs2)); [done|]. destruct (validate c _) eqn:V; try done.
  destruct (_ || _ || _ || _); [done|]. set (p := native_placement raw c) in *.
  destruct (negb (WorkloadPlacement_valid _ _ _ _ _)) eqn:E1; [done|]. destruct (existsb _ _) eqn:E2; [done|].
  destruct (negb (e_start _ _ _ _)) eqn:E3; [done|]. clear Ht. boolify.
  destruct (validate_spec raw Hr V) as (Sh & _). fold c in Sh. split; [done|]. split; [|done].
  assert (Hnn : Forall (fun x => 0 <= x) (dataNodes p)).
  { apply Forall_forall. intros x Hx. apply list_elem_of_In, in_map_iff in Hx as (i & <- & _). by apply le_field_range. }
  destruct (placement_valid_spec _ _ _ _ _ Hnn E1) as (H1 & H2 & H3 & _ & H5 & H6 & H7 & H8). split; try done.
  apply Forall_forall. intros x Hx. apply not_true_iff_false. intros Hov.
  assert (existsb (node_overfull c p) (dataNodes p) = true); [|congruence].
  apply existsb_exists. exists x. split; [by apply list_elem_of_In|done].
Qed.

(** C13: Every output tile once.  When the front end accepts a command, the tasks its worker
    and the other workers of the same product take ([task_count] tasks each, a window of
    [reuse x reuse] tiles per task) cover every 64x64 output tile of the product, and
    each tile belongs to exactly one worker, task and window position. *)
Theorem native_tiles_computed_once e f rs1 rs2 c p m n :
  native_started e f rs1 rs2 c p -> 0 <= m < c_m c / 64 -> 0 <= n < c_n c / 64 ->
  exists s, site_ok c (e_gmBase e) s /\ site_tile c (e_gmBase e) s = (m, n) /\
    forall s', site_ok c (e_gmBase e) s' -> site_tile c (e_gmBase e) s' = (m, n) -> s' = s.
Proof. intros H. destruct (native_started_spec _ _ _ _ _ _ H) as (Hc & _). by apply every_tile_once. Qed.

(** C14: Operands and results stay in their regions.  For an accepted command, every task of
    every worker derives without an error; its A panel lies in the node's A region, its B
    panel in the B region and its output tile in the C region of existing nodes, so reads
    and writes never leave the declared regions and no address wraps; every K tile of the
    panels is where the placement's own address functions (used to prefetch) put it; and
    two different tasks or window positions never store to overlapping output bytes. *)
Theorem native_addresses_in_region e f rs1 rs2 c p s x reset :
  native_started e f rs1 rs2 c p -> site_ok c (e_gmBase e) s ->
  x_placement x = Some p -> x_reuseMIndex x = s_mIndex s -> x_reuseNIndex x = s_nIndex s ->
  let hdr s := native_header (e_gmBase e) (with_worker c (s_worker s)) in
  let panel := c_k c / 64 * inputTileBytes c in
  exists d na nb nc, deriveTask (hdr s) x (s_task s) reset = Ok d /\ 1 <= na <= 4 /\ 1 <= nb <= 4 /\ 1 <= nc <= 4 /\
  na * 2 ^ 27 + c_a_offset c <= w_mat_base_addr (d_current d) /\
  w_mat_base_addr (d_current d) + panel <= na * 2 ^ 27 + c_b_offset c /\
  nb * 2 ^ 27 + c_b_offset c <= w_vec_base_addr (d_current d) /\
  w_vec_base_addr (d_current d) + panel <= nb * 2 ^ 27 + c_c_offset c /\
  nc * 2 ^ 27 + c_c_offset c <= w_c_base_addr (d_current d) /\
  w_c_base_addr (d_current d) + 16384 <= (nc + 1) * 2 ^ 27 /\
  (forall k, 0 <= k < c_k c / 64 -> let (m, n) := site_tile c (e_gmBase e) s in
    aAddress p m k (c_k c / 64) (2 ^ 27) (c_a_offset c) (inputTileBytes c) = Ok (w_mat_base_addr (d_current d) + k * inputTileBytes c) /\
    bAddress p n k (c_k c / 64) nc (2 ^ 27) (c_b_offset c) (inputTileBytes c) = Ok (w_vec_base_addr (d_current d) + k * inputTileBytes c)) /\
  (forall s' x' reset' d', site_ok c (e_gmBase e) s' -> s' <> s -> x_placement x' = Some p ->
    x_reuseMIndex x' = s_mIndex s' -> x_reuseNIndex x' = s_nIndex s' ->
    deriveTask (hdr s') x' (s_task s') reset' = Ok d' ->
    w_c_base_addr (d_current d') + 16384 <= w_c_base_addr (d_current d) \/
    w_c_base_addr (d_current d) + 16384 <= w_c_base_addr (d_current d')).
Proof.
  intros H Hs Ex Ea Eb. cbv zeta. destruct (native_started_spec _ _ _ _ _ _ H) as (Hc & Hp & _).
  destruct (derive_spec c _ Hc p Hp s x reset Hs Ex Ea Eb)
    as (id & m & n & na & nc & d & Em & Hid & Et & Hm & Hn & Hi & Hj & La & Lc & No & Do & Bs & Ed & Ma & Ve & Cb & _).
  destruct (node_lookup c p Hp _ _ _ (np_aNodes _ _ Hp) La) as [Da Na].
  destruct (node_lookup c p Hp _ _ _ (np_taskNodes _ _ Hp) Lc) as [Dc Nc].
  destruct (node_capacity c Hc p Hp _ Da) as (Ca & _ & _). destruct (node_capacity c Hc p Hp _ Dc) as (_ & _ & Cc).
  destruct (node_capacity c Hc p Hp _ Do) as (_ & Cv & _).
  pose proof (std_count_take_all _ _ _ La) as SA. pose proof (std_count_take_all _ _ _ Lc) as SC.
  pose proof (std_count_nonneg na (take (Z.to_nat m) (aNodes p))) as [PA _].
  pose proof (std_count_nonneg nc (take (Z.to_nat id) (taskNodes p))) as [PC _].
  pose proof (ns_k c Hc) as [_ HK]. pose proof (tile_bytes c) as (ES & HP & HS). pose proof (ns_reuse c Hc) as Hr.
  pose proof (ns_node c Hc) as En.
  exists d, na, (b_owner p nc n), nc. split; [done|]. split; [done|]. split; [done|]. split; [done|].
  rewrite Ma, Ve, Cb, En in *.
  assert (KS : 0 <= c_k c / 64 * inputTileBytes c) by nia.
  split; [nia|]. split; [nia|]. split; [nia|]. split; [destruct (replicateB p); nia|].
  split; [lia|]. split; [destruct Hr as [Er|Er]; rewrite Er in *; nia|]. split.
  - intros k Hk. rewrite Et. pose proof (placement_addresses c Hc p Hp m n k na nc Hm Hn Hk La Dc) as PP.
    rewrite En in PP. exact PP.
  - intros s' x' reset' d' Hs' Hne Ex' Ea' Eb' Ed'.
    destruct (derive_spec c _ Hc p Hp s' x' reset' Hs' Ex' Ea' Eb')
      as (id' & m' & n' & na' & nc' & d2 & Em' & Hid' & _ & _ & _ & Hi' & Hj' & _ & Lc' & _ & _ & _ & Ed2 & _ & _ & Cb' & _).
    rewrite Ed2 in Ed'. injection Ed' as ->. rewrite Cb', En in *. clear Cb' Ed2.
    destruct (node_lookup c p Hp _ _ _ (np_taskNodes _ _ Hp) Lc') as [Dc' Nc'].
    destruct (node_capacity c Hc p Hp _ Dc') as (_ & _ & Cc'). rewrite En in Cc'. pose proof (std_count_take_all _ _ _ Lc') as SC'.
    pose proof (std_count_nonneg nc' (take (Z.to_nat id') (taskNodes p))) as [PC' _].
    set (q := std_count nc (take (Z.to_nat id) (taskNodes p)) * (c_reuse c * c_reuse c) + s_mIndex s * c_reuse c + s_nIndex s).
    set (q' := std_count nc' (take (Z.to_nat id') (taskNodes p)) * (c_reuse c * c_reuse c) + s_mIndex s' * c_reuse c + s_nIndex s').
    assert (Q : 0 <= q /\ (q + 1) * 16384 <= 2 ^ 27 - c_c_offset c) by (unfold q; destruct Hr as [Er|Er]; rewrite Er in *; nia).
    assert (Q' : 0 <= q' /\ (q' + 1) * 16384 <= 2 ^ 27 - c_c_offset c) by (unfold q'; destruct Hr as [Er|Er]; rewrite Er in *; nia).
    pose proof (ns_offsets c Hc) as HO.
    destruct (decide (nc = nc')) as [<-|Hnc]; [|destruct (Z.lt_total nc nc') as [|[|]]; [right; nia|done|left; nia]].
    assert (D : q <> q').
    { apply (site_slots_differ c Hc p id id'); try done; try lia. intros [= E1 E2 E3]. subst id'. apply Hne.
      destruct Hs as (Hw & Ht & _). destruct Hs' as (Hw' & Ht' & _).
      destruct (macro_of c _ Hc _ _ Hw Ht) as [F _]. rewrite F in Em. injection Em as F1.
      destruct (macro_of c _ Hc _ _ Hw' Ht') as [F' _]. rewrite F' in Em'. injection Em' as F1'.
      destruct s as [w i a b], s' as [w' i' a' b']. cbn [s_worker s_task s_mIndex s_nIndex] in *.
      assert (Ew : w = w').
      { rewrite <- (Z.mod_small w (c_worker_count c)), <- (Z.mod_small w' (c_worker_count c)) by lia.
        rewrite <- (Z.mod_add w i), <- (Z.mod_add w' i') by lia. f_equal. lia. }
      assert (Ei : i = i') by (apply (Z.mul_reg_r _ _ (c_worker_count c)); lia). by rewrite Ew, Ei, E2, E3. }
    destruct (Z.lt_total q q') as [|[|]]; [right; lia|done|left; lia].
Qed.

(** C40: Validation is sound.  When [validate] answers Success for the bytes of a command,
    its dimensions are positive multiples of 64 with at most 8192 tiles a side, the
    worker indices, reuse, offsets and counts are consistent, and its four node maps lie
    behind the 128-byte header, in order, apart and within the received bytes, so copying
    them reads nothing else. *)
Theorem native_validate_sound raw : Forall in_u8 raw -> let c := Command_of raw in
  validate c (Z.of_nat (length raw)) = Success ->
  native_shape c /\ Z.of_nat (length raw) <= MaxCommandBytes /\
  Forall (fun ab => command_bytes <= ab.1 /\ ab.1 + 4 * ab.2 <= Z.of_nat (length raw))
    [(c_data_map c, c_data_count c); (c_task_map c, c_task_count c); (c_a_map c, c_a_count c); (c_b_map c, c_b_count c)] /\
  StronglySorted (fun a b : Z * Z => a.1 + 4 * a.2 <= b.1)
    [(c_data_map c, c_data_count c); (c_task_map c, c_task_count c); (c_a_map c, c_a_count c); (c_b_map c, c_b_count c)].
Proof. intros Hr c V. exact (validate_spec raw Hr V). Qed.

(** ** A concrete command: 128x128x64 in single precision with 2x2 reuse on one node *)

Fixpoint le_bytes (n : nat) (x : Z) : list Z :=
  match n with
  | O => []
  | S n' => x mod 256 :: le_bytes n' (x / 256)
  end.

Definition ex_raw (sum : Z) : list Z :=
  concat (map (le_bytes 4) [Magic; Version; Gemm; 152; sum; 0; 0; 0; 1; 5; 128; 128; 64; 2]) ++
  concat (map (le_bytes 8) [2 ^ 27; 0; 32768; 65536; 0]) ++
  concat (map (le_bytes 4) [128; 1; 132; 1; 136; 2; 144; 2; 1; 1; 1; 1; 1; 1]).
Definition ex_bytes : list Z := ex_raw (checksum (ex_raw 0)).
Definition ex_command : Command := Command_of ex_bytes.
Definition ex_placement : WorkloadPlacement := native_placement ex_bytes ex_command.
Definition ex_env : NativeEnv := mkEnv true false 4 0 (fun _ _ => ex_bytes) (fun _ _ _ => true).

Lemma ex_bytes_in_range : Forall in_u8 ex_bytes.
Proof.
  assert (E : forallb (fun x => (0 <=? x) && (x <? 256)) ex_bytes = true) by (vm_compute; reflexivity).
  rewrite forallb_forall in E. apply Forall_forall. intros x Hx. apply list_elem_of_In, E in Hx. unfold in_u8. boolify. lia.
Qed.

Lemma ex_started : native_started ex_env NativeFrontEnd_new 0x2000 152 ex_command ex_placement.
Proof.
  split; [exact ex_bytes_in_range|reflexivity|reflexivity|reflexivity|].
  assert (E : nativeToken_ (tryStartNativeDescriptor ex_env NativeFrontEnd_new 0x2000 152).1 = 1) by (vm_compute; reflexivity).
  rewrite E. discriminate.
Qed.

Lemma ex_dimensions : c_m ex_command / 64 = 2 /\ c_n ex_command / 64 = 2.
Proof. vm_compute. done. Qed.

Lemma native_validate_sound_witness : native_shape (Command_of ex_bytes).
Proof.
  assert (V : validate (Command_of ex_bytes) (Z.of_nat (length ex_bytes)) = Success) by (vm_compute; reflexivity).
  exact (proj1 (native_validate_sound ex_bytes ex_bytes_in_range V)).
Defined.

Lemma native_tiles_computed_once_witness :
  exists s, site_ok ex_command (e_gmBase ex_env) s /\ site_tile ex_command (e_gmBase ex_env) s = (1, 0).
Proof.
  destruct ex_dimensions as [Em En].
  destruct (native_tiles_computed_once ex_env NativeFrontEnd_new 0x2000 152 ex_command ex_placement 1 0 ex_started)
    as (s & H1 & H2 & _); [rewrite Em; lia|rewrite En; lia|]. exists s. exact (conj H1 H2).
Defined.

(** The site of the first tile. *)
Definition ex_site : TileSite := mkSite 0 0 0 0.
Definition ex_context : TaskContext :=
  mkTaskContext (Some ex_placement) 0 0 0 0 (mkWindow 0 0 0 0 0 0 0 0 0 0 0 0 0 0 0 0 0 0 0 0 0 0).

Lemma ex_site_ok : site_ok ex_command (e_gmBase ex_env) ex_site.
Proof.
  split; [vm_compute; split; [discriminate|reflexivity]|]. split; [vm_compute; split; [discriminate|reflexivity]|].
  exists 0. split; [vm_compute; reflexivity|]. vm_compute. repeat split; discriminate || reflexivity.
Qed.

Lemma native_addresses_in_region_witness : exists d,
  deriveTask (native_header 0 (with_worker ex_command 0)) ex_context 0 true = Ok d.
Proof.
  destruct (native_addresses_in_region ex_env NativeFrontEnd_new 0x2000 152 ex_command ex_placement ex_site ex_context true
    ex_started ex_site_ok eq_refl eq_refl eq_refl) as (d & na & nb & nc & H & _). exists d. exact H.
Defined.
