(* ===== verification/RowPipeline.v ===== *)
(** * The row pipeline ([src/src/sst/elements/golem/sfu/row_pipeline.h])

    [SFURowPipeline] runs rotary embedding and RMS normalisation row by row.  A row is a
    context with four row banks that goes through phases; each phase is cut into beats of
    a few lanes that travel read, compute (one reservation per micro-operation) and write
    ports, and a phase barrier separates the phases.  All rows share five or six hardware
    pipelines and a pool of beat registers.

    Element counts and indices are [nat], bytes, cycles and identifiers 64-bit.  The
    resources, held by reference in the source, are distinct pipelines stored by name; the
    trace callback only observes, and a step returns what it is told.  Accesses through
    [at] or beyond a vector are [Throw]. *)

From Stdlib Require Import ZArith Lia.
From stdpp Require Import base numbers list functions.
From S2P Require Import Prelude Ieee IeeeArith Fp16 Arithmetic HardwarePipeline VectorMath.

Inductive Phase :=
  | PLoad | PNormMax | PInputScale | PSquare | PReduce | PMean | PEpsilonScaleA | PEpsilonScaleB | PEpsilon | PRsqrt
  | PScale | PGamma | PRopeLeft | PRopeRight | PRopeMerge | PDone.
#[export] Instance Phase_eq_dec : EqDecision Phase.
Proof. solve_decision. Defined.

Inductive Port := PortRead | PortCompute | PortWrite.
#[export] Instance Port_eq_dec : EqDecision Port.
Proof. solve_decision. Defined.

(** The pipelines the constructor takes; [RDivide] may be absent ([hasDivide_]). *)
Inductive RowUnit := UVector | UReduction | URsqrt | URead | UWrite | UDivide.
#[export] Instance RowUnit_eq_dec : EqDecision RowUnit.
Proof. solve_decision. Defined.

Inductive RowCounter :=
  | CRowHighWater | CStagingHighWater | CRequestHighWater | CBeatHighWater | CRowBeatHighWater
  | CActiveCycles | CIssuedBeats | CBeatBackpressure | CPortWait (p : Port) | CPortIssues (p : Port)
  | CResourceBackpressure | CAdmissionBackpressure | CReadBytes | CWriteBytes.
#[export] Instance RowCounter_eq_dec : EqDecision RowCounter.
Proof. solve_decision. Defined.

Record RowIssue := mkRowIssue {
  ri_job : Z; ri_context : Z; ri_issueCycle : Z; ri_completionCycle : Z; ri_phase : Phase; ri_port : Port;
  ri_first : nat; ri_elements : nat; ri_bytes : Z; ri_unit : RowUnit; ri_micro : nat }.

Record RowCompletion := mkRowCompletion {
  rc_job : Z; rc_submittedCycle : Z; rc_completionCycle : Z; rc_op : SFUVectorOp; rc_values : list spec_float }.

Record RowJob := mkRowJob {
  rj_op : SFUVectorOp; rj_submitted : Z; rj_width : nat; rj_activeWidth : nat; rj_stride : nat; rj_offset : nat;
  rj_nextRow : nat; rj_finished : nat; rj_bytes : Z; rj_epsilon : spec_float;
  rj_input : list spec_float; rj_coefficients : list spec_float; rj_output : list spec_float; rj_positions : list Z }.

Record Beat := mkBeat {
  b_cursor : nat; b_count : nat; b_micro : nat; b_port : Port; b_busy : bool; b_finished : bool;
  b_values : list spec_float; b_residuals : list spec_float }.

(** The scalar registers and row banks of a context. *)
Record RowData := mkRowData {
  d_scalar : spec_float; d_scalarLow : spec_float; d_inputScale : spec_float; d_epsilon : spec_float;
  d_x : list spec_float; d_gamma : list spec_float; d_work : list spec_float; d_other : list spec_float }.

Record RowContext := mkRowContext {
  r_job : Z; r_row : nat; r_cursor : nat; r_completed : nat; r_reduceSize : nat; r_phase : Phase;
  r_beats : list (Z * Beat); r_accumulator : spec_float; r_maximum : spec_float; r_data : RowData }.

Record RowToken := mkRowToken { tk_context : Z; tk_beat : Z; tk_port : Port }.

Record RowConfig := mkRowConfig {
  lanes_ : nat; readElements_ : nat; writeElements_ : nat; rowBytes_ : Z; stagingBytes_ : Z; contexts_ : nat;
  maxRequests_ : nat; arithmetic_ : SFUArithmetic; tree_ : bool; hasDivide_ : bool; beatCapacity_ : nat; overlap_ : bool }.

Record SFURowPipeline := mkRowPipeline {
  config_ : RowConfig; units_ : RowUnit -> TensorHardwarePipeline;
  beatUsed_ : nat; beatSequence_ : Z; beatCursor_ : Z; sequence_ : Z; contextSequence_ : Z; admissionCursor_ : Z;
  cursors_ : Port -> Z; rowUsed_ : Z; stagingUsed_ : Z;
  jobs_ : list (Z * RowJob); rows_ : list (Z * RowContext); pending_ : list (Z * RowToken);
  completed_ : list RowCompletion; counters_ : RowCounter -> Z }.

(** ** Updates *)

Definition set_units (p : SFURowPipeline) (u : RowUnit -> TensorHardwarePipeline) : SFURowPipeline :=
  mkRowPipeline (config_ p) u (beatUsed_ p) (beatSequence_ p) (beatCursor_ p) (sequence_ p) (contextSequence_ p)
    (admissionCursor_ p) (cursors_ p) (rowUsed_ p) (stagingUsed_ p) (jobs_ p) (rows_ p) (pending_ p) (completed_ p) (counters_ p).
Definition set_counter (p : SFURowPipeline) (k : RowCounter) (v : Z) : SFURowPipeline :=
  mkRowPipeline (config_ p) (units_ p) (beatUsed_ p) (beatSequence_ p) (beatCursor_ p) (sequence_ p) (contextSequence_ p)
    (admissionCursor_ p) (cursors_ p) (rowUsed_ p) (stagingUsed_ p) (jobs_ p) (rows_ p) (pending_ p) (completed_ p)
    (<[k := v]> (counters_ p)).
Definition add_counter (p : SFURowPipeline) (k : RowCounter) (n : Z) : SFURowPipeline := set_counter p k (counters_ p k ⊞ n).
Definition max_counter (p : SFURowPipeline) (k : RowCounter) (n : Z) : SFURowPipeline := set_counter p k (Z.max (counters_ p k) n).
Definition set_row_jobs (p : SFURowPipeline) (js : list (Z * RowJob)) : SFURowPipeline :=
  mkRowPipeline (config_ p) (units_ p) (beatUsed_ p) (beatSequence_ p) (beatCursor_ p) (sequence_ p) (contextSequence_ p)
    (admissionCursor_ p) (cursors_ p) (rowUsed_ p) (stagingUsed_ p) js (rows_ p) (pending_ p) (completed_ p) (counters_ p).
Definition set_rows (p : SFURowPipeline) (rs : list (Z * RowContext)) : SFURowPipeline :=
  mkRowPipeline (config_ p) (units_ p) (beatUsed_ p) (beatSequence_ p) (beatCursor_ p) (sequence_ p) (contextSequence_ p)
    (admissionCursor_ p) (cursors_ p) (rowUsed_ p) (stagingUsed_ p) (jobs_ p) rs (pending_ p) (completed_ p) (counters_ p).
Definition set_row_pending (p : SFURowPipeline) (ts : list (Z * RowToken)) : SFURowPipeline :=
  mkRowPipeline (config_ p) (units_ p) (beatUsed_ p) (beatSequence_ p) (beatCursor_ p) (sequence_ p) (contextSequence_ p)
    (admissionCursor_ p) (cursors_ p) (rowUsed_ p) (stagingUsed_ p) (jobs_ p) (rows_ p) ts (completed_ p) (counters_ p).
Definition set_row_completed (p : SFURowPipeline) (cs : list RowCompletion) : SFURowPipeline :=
  mkRowPipeline (config_ p) (units_ p) (beatUsed_ p) (beatSequence_ p) (beatCursor_ p) (sequence_ p) (contextSequence_ p)
    (admissionCursor_ p) (cursors_ p) (rowUsed_ p) (stagingUsed_ p) (jobs_ p) (rows_ p) (pending_ p) cs (counters_ p).
Definition set_used (p : SFURowPipeline) (rowUsed stagingUsed : Z) : SFURowPipeline :=
  mkRowPipeline (config_ p) (units_ p) (beatUsed_ p) (beatSequence_ p) (beatCursor_ p) (sequence_ p) (contextSequence_ p)
    (admissionCursor_ p) (cursors_ p) rowUsed stagingUsed (jobs_ p) (rows_ p) (pending_ p) (completed_ p) (counters_ p).
Definition set_beats (p : SFURowPipeline) (used : nat) (sequence cursor : Z) : SFURowPipeline :=
  mkRowPipeline (config_ p) (units_ p) used sequence cursor (sequence_ p) (contextSequence_ p)
    (admissionCursor_ p) (cursors_ p) (rowUsed_ p) (stagingUsed_ p) (jobs_ p) (rows_ p) (pending_ p) (completed_ p) (counters_ p).
Definition set_sequence (p : SFURowPipeline) (sequence : Z) : SFURowPipeline :=
  mkRowPipeline (config_ p) (units_ p) (beatUsed_ p) (beatSequence_ p) (beatCursor_ p) sequence (contextSequence_ p)
    (admissionCursor_ p) (cursors_ p) (rowUsed_ p) (stagingUsed_ p) (jobs_ p) (rows_ p) (pending_ p) (completed_ p) (counters_ p).
Definition set_admission (p : SFURowPipeline) (contextSequence cursor : Z) : SFURowPipeline :=
  mkRowPipeline (config_ p) (units_ p) (beatUsed_ p) (beatSequence_ p) (beatCursor_ p) (sequence_ p) contextSequence
    cursor (cursors_ p) (rowUsed_ p) (stagingUsed_ p) (jobs_ p) (rows_ p) (pending_ p) (completed_ p) (counters_ p).
Definition set_port_cursor (p : SFURowPipeline) (port : Port) (cursor : Z) : SFURowPipeline :=
  mkRowPipeline (config_ p) (units_ p) (beatUsed_ p) (beatSequence_ p) (beatCursor_ p) (sequence_ p) (contextSequence_ p)
    (admissionCursor_ p) (<[port := cursor]> (cursors_ p)) (rowUsed_ p) (stagingUsed_ p) (jobs_ p) (rows_ p) (pending_ p)
    (completed_ p) (counters_ p).

Definition f_zero32 : spec_float := S754_zero false.

(** ** Construction and submission *)

Definition SFURowPipeline_new (units : RowUnit -> TensorHardwarePipeline) (lanes readElements writeElements : nat)
    (rowBytes stagingBytes : Z) (contexts maxRequests fifoElements : nat) (precision : SFUInternalPrecision)
    (tree hasDivide : bool) (backend : SFUNonlinearBackend) (overlap : bool) : result SFURowPipeline :=
  let! arithmetic := SFUArithmetic_new precision backend in
  let capacity := if (lanes =? 0)%nat then 0%nat else (fifoElements / lanes)%nat in
  let contexts := if (lanes =? 0)%nat then 0%nat else Nat.min contexts capacity in
  if (lanes =? 0)%nat || (readElements <? 2)%nat || (writeElements <? 2)%nat || (rowBytes =? 0) || (stagingBytes =? 0) ||
     (contexts =? 0)%nat || (maxRequests =? 0)%nat
  then Throw invalid_argument
  else Ok (mkRowPipeline
             (mkRowConfig lanes readElements writeElements rowBytes stagingBytes contexts maxRequests arithmetic tree
                hasDivide capacity overlap)
             units 0 0 0 0 0 0 (fun _ => 0) 0 0 [] [] [] [] (fun _ => 0)).

(** The operations [submit] takes, with the conditions on their operands. *)
Definition row_operands_ok (r : SFUVectorRequest) (inp coef : list spec_float) : bool :=
  match op r with
  | RmsNorm =>
      (Z.of_nat (length coef) =? rowWidth r) && isfinite (epsilon r) && negb (SFleb (epsilon r) (S754_zero false))
  | Rope =>
      match positions r with
      | Some pos => rope_accepts r (Z.of_nat (length inp) / rowWidth r) coef pos
      | None => false
      end
  | _ => false
  end.

Definition row_bytes (r : SFUVectorRequest) (inp coef : list spec_float) : Z :=
  Z.of_nat (length inp) ⊠ 4 ⊞ Z.of_nat (length coef) ⊠ 2 ⊞
  (if bool_decide (op r = Rope) then (Z.of_nat (length inp) / rowWidth r) ⊠ 4 else 0).

Definition SFURowPipeline_submit (p : SFURowPipeline) (r : SFUVectorRequest) (now : Z) (id : bool) :
    SFURowPipeline * option Z :=
  match input r, coefficients r with
  | Some inp, Some coef =>
      if negb id || (rowWidth r =? 0) || (length inp =? 0)%nat || negb (Z.of_nat (length inp) mod rowWidth r =? 0) ||
         (8192 <? Z.of_nat (length inp)) || (rowBytes_ (config_ p) <? rowWidth r ⊠ 8) ||
         (maxRequests_ (config_ p) <=? length (jobs_ p))%nat || negb (row_operands_ok r inp coef)
      then (p, None)
      else
        let bytes := row_bytes r inp coef in
        if stagingBytes_ (config_ p) ⊟ stagingUsed_ p <? bytes then (add_counter p CAdmissionBackpressure 1, None)
        else
          let rope := bool_decide (op r = Rope) in
          let job := mkRowJob (op r) now (Z.to_nat (rowWidth r)) (Z.to_nat (activeWidth r)) (Z.to_nat (coefficientStride r))
                       (Z.to_nat (coefficientOffset r)) 0 0 bytes (epsilon r) inp coef
                       (if rope then inp else replicate (length inp) f_zero32)
                       (if rope then default [] (positions r) else []) in
          let sequence := sequence_ p ⊞ 1 in
          let p := set_used (set_sequence p sequence) (rowUsed_ p) (stagingUsed_ p ⊞ bytes) in
          let p := set_row_jobs p (map_emplace sequence job (jobs_ p)) in
          let p := max_counter p CStagingHighWater (stagingUsed_ p) in
          (max_counter p CRequestHighWater (Z.of_nat (length (jobs_ p))), Some sequence)
  | _, _ => (p, None)
  end.

Definition SFURowPipeline_active (p : SFURowPipeline) : bool := negb (length (jobs_ p) =? 0)%nat.
(** [std::exchange(completed_, {})]. *)
Definition SFURowPipeline_takeCompleted (p : SFURowPipeline) : SFURowPipeline * list RowCompletion :=
  (set_row_completed p [], completed_ p).

(** ** The shape of a phase *)

Definition scalar_phase (ph : Phase) : bool :=
  match ph with PMean | PEpsilonScaleA | PEpsilonScaleB | PEpsilon | PRsqrt => true | _ => false end.

Section shape.
Context (g : RowConfig) (j : RowJob).

Definition compensated : bool := SFUArithmetic_fp16 (arithmetic_ g) && tree_ g && bool_decide (rj_op j = RmsNorm).
Definition pairOutput (ph : Phase) : bool :=
  compensated && match ph with PSquare | PReduce | PScale => true | _ => false end.

Definition row_width (ph : Phase) (reduceSize : nat) : nat :=
  if bool_decide (ph = PReduce) then (if tree_ g then (reduceSize + 1) / 2 else rj_width j)%nat
  else if scalar_phase ph then 1%nat
  else match ph with PRopeLeft | PRopeRight | PRopeMerge => rj_activeWidth j | _ => rj_width j end.

Definition microCount (ph : Phase) : nat :=
  if negb compensated then 1%nat
  else match ph with
       | PSquare => 2 | PReduce | PEpsilon => 8 | PMean => 2 | PRsqrt => 5 | PScale | PGamma => 4 | _ => 1
       end%nat.

Definition readFactor (ph : Phase) : nat :=
  if compensated && bool_decide (ph = PMean) then 2%nat
  else if compensated && bool_decide (ph = PReduce) then 4%nat
  else if compensated && bool_decide (ph = PGamma) then 3%nat
  else match ph with
       | PGamma | PRopeLeft | PRopeRight | PRopeMerge => 2%nat
       | PReduce => if tree_ g then 2%nat else 1%nat
       | _ => 1%nat
       end.

Definition row_reads (ph : Phase) (reduceSize : nat) (b : Beat) : Z :=
  if bool_decide (ph = PReduce) && tree_ g
  then Z.min (Z.of_nat (b_count b) * 2) (Z.of_nat reduceSize ⊟ Z.of_nat (b_cursor b) * 2) * (if compensated then 2 else 1)
  else Z.of_nat (b_count b * readFactor ph).

(** The lanes of the next beat. *)
Definition row_count (ph : Phase) (reduceSize cursor : nat) : nat :=
  if scalar_phase ph || (bool_decide (ph = PReduce) && negb (tree_ g)) then 1%nat
  else
    let portLimit := if bool_decide (ph = PLoad) then (writeElements_ g / 2)%nat else (readElements_ g / readFactor ph)%nat in
    Nat.min (Nat.min (lanes_ g) portLimit)
      (Nat.min (writeElements_ g / (if pairOutput ph then 2 else 1))%nat (row_width ph reduceSize - cursor)).

Definition unit_for (ph : Phase) (port : Port) (micro : nat) : RowUnit :=
  match port with
  | PortRead => URead
  | PortWrite => UWrite
  | PortCompute =>
      let divide := hasDivide_ g in
      let plain :=
        if bool_decide (ph = PReduce) then UReduction
        else if bool_decide (ph = PRsqrt) then URsqrt
        else if bool_decide (ph = PScale) && SFUArithmetic_fp16 (arithmetic_ g) && divide then UDivide
        else UVector in
      if compensated then
        if match ph with PMean | PInputScale | PEpsilonScaleA | PEpsilonScaleB => true | _ => false end && divide then UDivide
        else if bool_decide (ph = PRsqrt) then
          (if (micro =? 0)%nat then URsqrt else if (micro =? 4)%nat && divide then UDivide else UVector)
        else if bool_decide (ph = PScale) then
          (if ((micro =? 0)%nat || (micro =? 3)%nat) && divide then UDivide else UVector)
        else plain
      else plain
  end.
End shape.

(** ** Completing a beat *)

Definition vget (l : list spec_float) (i : nat) : result spec_float :=
  match l !! i with Some x => Ok x | None => Throw out_of_range end.
Definition vset (l : list spec_float) (i : nat) (x : spec_float) : result (list spec_float) :=
  if (i <? length l)%nat then Ok (<[i := x]> l) else Throw out_of_range.

Definition start_phase (c : RowContext) (ph : Phase) : RowContext :=
  mkRowContext (r_job c) (r_row c) 0 0 (r_reduceSize c) ph (r_beats c) (r_accumulator c) (r_maximum c) (r_data c).
Definition with_reduceSize (c : RowContext) (n : nat) : RowContext :=
  mkRowContext (r_job c) (r_row c) (r_cursor c) (r_completed c) n (r_phase c) (r_beats c) (r_accumulator c) (r_maximum c) (r_data c).
Definition with_data (c : RowContext) (d : RowData) : RowContext :=
  mkRowContext (r_job c) (r_row c) (r_cursor c) (r_completed c) (r_reduceSize c) (r_phase c) (r_beats c) (r_accumulator c)
    (r_maximum c) d.
Definition with_beats (c : RowContext) (bs : list (Z * Beat)) : RowContext :=
  mkRowContext (r_job c) (r_row c) (r_cursor c) (r_completed c) (r_reduceSize c) (r_phase c) bs (r_accumulator c)
    (r_maximum c) (r_data c).
Definition with_progress (c : RowContext) (cursor completed : nat) : RowContext :=
  mkRowContext (r_job c) (r_row c) cursor completed (r_reduceSize c) (r_phase c) (r_beats c) (r_accumulator c)
    (r_maximum c) (r_data c).
Definition with_registers (c : RowContext) (accumulator maximum : spec_float) : RowContext :=
  mkRowContext (r_job c) (r_row c) (r_cursor c) (r_completed c) (r_reduceSize c) (r_phase c) (r_beats c) accumulator
    maximum (r_data c).

Definition set_scalars (d : RowData) (hi lo : spec_float) : RowData :=
  mkRowData hi lo (d_inputScale d) (d_epsilon d) (d_x d) (d_gamma d) (d_work d) (d_other d).
Definition set_scale (d : RowData) (s : spec_float) : RowData :=
  mkRowData (d_scalar d) (d_scalarLow d) s (d_epsilon d) (d_x d) (d_gamma d) (d_work d) (d_other d).
Definition set_epsilon (d : RowData) (e : spec_float) : RowData :=
  mkRowData (d_scalar d) (d_scalarLow d) (d_inputScale d) e (d_x d) (d_gamma d) (d_work d) (d_other d).
Definition set_banks (d : RowData) (x gamma work other : list spec_float) : RowData :=
  mkRowData (d_scalar d) (d_scalarLow d) (d_inputScale d) (d_epsilon d) x gamma work other.

Definition float_of_nat (n : nat) : spec_float := num prec32 emax32 (Z.of_nat n) 0.

Section complete.
Context `{Libm}.
Context (g : RowConfig) (j : RowJob).
Notation a := (arithmetic_ g).
Notation f_add := (SFUArithmetic_add a CFloat CFloat).
Notation f_sub := (SFUArithmetic_sub a CFloat CFloat).
Notation f_mul := (SFUArithmetic_mul a CFloat CFloat).
Notation f_div := (SFUArithmetic_div a CFloat CFloat).

Definition row_nextPhase (c : RowContext) : RowContext :=
  let fp16 := SFUArithmetic_fp16 a in
  match r_phase c with
  | PLoad =>
      start_phase c (if bool_decide (rj_op j = RmsNorm) then (if fp16 then PNormMax else PSquare) else PRopeLeft)
  | PNormMax =>
      let scale := SFldexp prec32 emax32 (SFone prec32 emax32) (Z.max 0 (frexp_exponent (r_maximum c) - 1)) in
      start_phase (with_data c (set_scale (r_data c) scale)) PInputScale
  | PInputScale => start_phase c PSquare
  | PSquare => start_phase c (if (r_reduceSize c =? 1)%nat then PMean else PReduce)
  | PReduce =>
      let c := if tree_ g then with_reduceSize c ((r_reduceSize c + 1) / 2)%nat else c in
      start_phase c (if negb (tree_ g) || (r_reduceSize c =? 1)%nat then PMean else PReduce)
  | PMean =>
      start_phase (with_data c (set_epsilon (r_data c) (SFUArithmetic_round a CFloat (rj_epsilon j))))
        (if fp16 then PEpsilonScaleA else PEpsilon)
  | PEpsilonScaleA => start_phase c PEpsilonScaleB
  | PEpsilonScaleB => start_phase c PEpsilon
  | PEpsilon => start_phase c PRsqrt
  | PRsqrt => start_phase c PScale
  | PScale => start_phase c PGamma
  | PGamma | PRopeMerge =>
      mkRowContext (r_job c) (r_row c) (r_cursor c) (r_completed c) (r_reduceSize c) PDone (r_beats c) (r_accumulator c)
        (r_maximum c) (r_data c)
  | PRopeLeft => start_phase c PRopeRight
  | PRopeRight => start_phase c PRopeMerge
  | PDone => c
  end.

(** The scalar phases: the new registers. *)
Definition scalar_update (ph : Phase) (accumulator : spec_float) (d : RowData) : result RowData :=
  let w := float_of_nat (rj_width j) in
  if compensated g j then
    match ph with
    | PMean =>
        let! hi := vget (d_work d) 0 in
        let! lo := vget (d_other d) 0 in
        Ok (set_scalars d (f_div hi w) (f_div lo w))
    | PEpsilonScaleA | PEpsilonScaleB => Ok (set_epsilon d (f_div (d_epsilon d) (d_inputScale d)))
    | PEpsilon =>
        let p := normAdd a (mkNormPair (d_scalar d) (d_scalarLow d)) (mkNormPair (d_epsilon d) f_zero32) in
        Ok (set_scalars d (hi p) (lo p))
    | _ =>
        let p := normRoot a (mkNormPair (d_scalar d) (d_scalarLow d)) in
        Ok (set_scalars d (hi p) (lo p))
    end
  else
    match ph with
    | PMean =>
        let! sum := (if tree_ g || (rj_width j =? 1)%nat then vget (d_work d) 0 else Ok accumulator) in
        Ok (set_scalars d (f_div sum w) (d_scalarLow d))
    | PEpsilonScaleA | PEpsilonScaleB => Ok (set_epsilon d (f_div (d_epsilon d) (d_inputScale d)))
    | PEpsilon => Ok (set_scalars d (f_add (d_scalar d) (d_epsilon d)) (d_scalarLow d))
    | _ =>
        Ok (set_scalars d (if SFUArithmetic_fp16 a then SFUArithmetic_sqrt a CFloat (d_scalar d)
                           else SFUArithmetic_rsqrt a CFloat (d_scalar d)) (d_scalarLow d))
    end.

(** The value and residual of element [i]; a single-word result has residual zero. *)
Definition element_value (ph : Phase) (reduceSize : nat) (accumulator : spec_float) (d : RowData) (i : nat) :
    result SFUNormPair :=
  let one v := Ok (mkNormPair v f_zero32) in
  if compensated g j && (pairOutput g j ph || bool_decide (ph = PGamma)) then
    match ph with
    | PSquare => let! x := vget (d_x d) i in Ok (normSquare a x)
    | PReduce =>
        let! hi0 := vget (d_work d) (2 * i) in
        let! lo0 := vget (d_other d) (2 * i) in
        if (2 * i + 1 <? reduceSize)%nat then
          let! hi1 := vget (d_work d) (2 * i + 1) in
          let! lo1 := vget (d_other d) (2 * i + 1) in
          Ok (normAdd a (mkNormPair hi0 lo0) (mkNormPair hi1 lo1))
        else Ok (mkNormPair hi0 lo0)
    | PScale => let! x := vget (d_x d) i in Ok (normDivide a x (mkNormPair (d_scalar d) (d_scalarLow d)))
    | _ =>
        let! w := vget (d_work d) i in
        let! o := vget (d_other d) i in
        let! c := vget (d_gamma d) i in
        one (normGamma a (mkNormPair w o) c)
    end
  else
    match ph with
    | PNormMax => let! x := vget (d_x d) i in one (SFabs x)
    | PInputScale => let! x := vget (d_x d) i in one (f_div x (d_inputScale d))
    | PSquare => let! x := vget (d_x d) i in one (f_mul x x)
    | PReduce =>
        if negb (tree_ g) then let! w := vget (d_work d) i in one (f_add accumulator w)
        else
          let! w0 := vget (d_work d) (2 * i) in
          if (2 * i + 1 <? reduceSize)%nat then let! w1 := vget (d_work d) (2 * i + 1) in one (f_add w0 w1) else one w0
    | PScale =>
        let! x := vget (d_x d) i in
        one (if SFUArithmetic_fp16 a then f_div x (d_scalar d) else f_mul x (d_scalar d))
    | PGamma => let! w := vget (d_work d) i in let! c := vget (d_gamma d) i in one (f_mul w c)
    | PRopeLeft => let! x := vget (d_x d) (i - i mod 2) in let! c := vget (d_gamma d) i in one (f_mul x c)
    | PRopeRight =>
        let! x := vget (d_x d) (i - i mod 2 + 1) in
        let! c := vget (d_gamma d) (if Nat.odd i then i - 1 else i + 1) in one (f_mul x c)
    | PRopeMerge =>
        let! w := vget (d_work d) i in let! o := vget (d_other d) i in
        one (if Nat.odd i then f_add w o else f_sub w o)
    | _ => Throw logic_error
    end.

(** [c.maximum = std::max(c.maximum, value)], in the same loop. *)
Fixpoint element_loop (c : RowContext) (n i : nat) (maximum : spec_float) : result (list SFUNormPair * spec_float) :=
  match n with
  | O => Ok ([], maximum)
  | S n' =>
      let! v := element_value (r_phase c) (r_reduceSize c) (r_accumulator c) (r_data c) i in
      let maximum := if bool_decide (r_phase c = PNormMax) && SFltb maximum (hi v) then hi v else maximum in
      let! rest := element_loop c n' (S i) maximum in
      Ok (v :: rest.1, rest.2)
  end.

(** One element written back: the row banks and the job's output. *)
Definition write_element (ph : Phase) (row : nat) (d : RowData) (output : list spec_float) (i : nat) (value residual : spec_float) :
    result (RowData * list spec_float) :=
  let base := (row * rj_width j)%nat in
  match ph with
  | PLoad =>
      let! inp := vget (rj_input j) (base + i) in
      let! x := vset (d_x d) i (vectorFp16Value inp) in
      let rope := bool_decide (rj_op j = Rope) in
      let! position := (if rope then match rj_positions j !! row with Some q => Ok q | None => Throw out_of_range end else Ok 0) in
      let coefficient := if rope then (Z.to_nat position * rj_stride j + rj_offset j + i)%nat else i in
      let! c := (if rope && (rj_activeWidth j <=? i)%nat then Ok f_zero32
                 else let! v := vget (rj_coefficients j) coefficient in Ok (vectorFp16Value v)) in
      let! gamma := vset (d_gamma d) i c in
      Ok (set_banks d x gamma (d_work d) (d_other d), output)
  | PInputScale => let! x := vset (d_x d) i value in Ok (set_banks d x (d_gamma d) (d_work d) (d_other d), output)
  | PGamma | PRopeMerge =>
      let! output := vset output (base + i) (to_double (vectorFp16Value value)) in Ok (d, output)
  | PRopeRight => let! other := vset (d_other d) i value in Ok (set_banks d (d_x d) (d_gamma d) (d_work d) other, output)
  | _ =>
      let! work := vset (d_work d) i value in
      let! other := (if pairOutput g j ph then vset (d_other d) i residual else Ok (d_other d)) in
      Ok (set_banks d (d_x d) (d_gamma d) work other, output)
  end.

Fixpoint row_write_loop (ph : Phase) (row : nat) (vs : list SFUNormPair) (i : nat) (d : RowData) (output : list spec_float) :
    result (RowData * list spec_float) :=
  match vs with
  | [] => Ok (d, output)
  | v :: vs' => let! r := write_element ph row d output i (hi v) (lo v) in row_write_loop ph row vs' (S i) r.1 r.2
  end.

Definition beat_at (b : Beat) (micro : nat) (port : Port) (finished : bool) (values residuals : list spec_float) : Beat :=
  mkBeat (b_cursor b) (b_count b) micro port (b_busy b) finished values residuals.

(** [complete]: the context, the beat and the job's output. *)
Definition row_complete (c : RowContext) (b : Beat) (port : Port) : result (RowContext * Beat * list spec_float) :=
  match port with
  | PortRead => Ok (c, beat_at b (b_micro b) PortCompute (b_finished b) (b_values b) (b_residuals b), rj_output j)
  | PortCompute =>
      let micro := S (b_micro b) in
      if (micro <? microCount g j (r_phase c))%nat
      then Ok (c, beat_at b micro (b_port b) (b_finished b) (b_values b) (b_residuals b), rj_output j)
      else if scalar_phase (r_phase c) then
        let! d := scalar_update (r_phase c) (r_accumulator c) (r_data c) in
        Ok (with_data c d, beat_at b micro (b_port b) true (b_values b) (b_residuals b), rj_output j)
      else
        let! vs := element_loop c (b_count b) (b_cursor b) (r_maximum c) in
        let values := map hi vs.1 in
        let residuals := map lo vs.1 in
        if bool_decide (r_phase c = PReduce) && negb (tree_ g) then
          let! v := vget values 0 in
          Ok (with_registers c v vs.2, beat_at b micro (b_port b) true values residuals, rj_output j)
        else Ok (with_registers c (r_accumulator c) vs.2, beat_at b micro PortWrite (b_finished b) values residuals, rj_output j)
  | PortWrite =>
      let vs := if bool_decide (r_phase c = PLoad) then replicate (b_count b) (mkNormPair f_zero32 f_zero32)
                else zip_with mkNormPair (b_values b) (b_residuals b) in
      let! r := row_write_loop (r_phase c) (r_row c) vs (b_cursor b) (r_data c) (rj_output j) in
      Ok (with_data c r.1, beat_at b (b_micro b) (b_port b) true (b_values b) (b_residuals b), r.2)
  end.
End complete.

Definition job_with (j : RowJob) (nextRow finished : nat) (output : list spec_float) : RowJob :=
  mkRowJob (rj_op j) (rj_submitted j) (rj_width j) (rj_activeWidth j) (rj_stride j) (rj_offset j) nextRow finished
    (rj_bytes j) (rj_epsilon j) (rj_input j) (rj_coefficients j) output (rj_positions j).
Definition job_rows (j : RowJob) : nat := (length (rj_input j) / rj_width j)%nat.

Definition beat_idle (b : Beat) : Beat :=
  mkBeat (b_cursor b) (b_count b) (b_micro b) (b_port b) false (b_finished b) (b_values b) (b_residuals b).
Definition beat_start (b : Beat) : Beat :=
  mkBeat (b_cursor b) (b_count b) (b_micro b) (b_port b) true (b_finished b) (b_values b) (b_residuals b).

Definition at_or_throw {A} (k : Z) (m : list (Z * A)) : result A :=
  match map_at k m with Some x => Ok x | None => Throw out_of_range end.

Section pipeline.
Context `{Libm}.

(** A finished row: lines 119-127. *)
Definition finish_row (p : SFURowPipeline) (key id : Z) (j : RowJob) (done : Z) : SFURowPipeline :=
  let j := job_with j (rj_nextRow j) (S (rj_finished j)) (rj_output j) in
  let p := set_used p (rowUsed_ p ⊟ Z.of_nat (rj_width j) ⊠ 8) (stagingUsed_ p) in
  let p := set_rows p (map_erase key (rows_ p)) in
  if (rj_finished j =? job_rows j)%nat then
    let p := set_row_completed p (completed_ p ++ [mkRowCompletion id (rj_submitted j) done (rj_op j) (rj_output j)]) in
    let p := set_used p (rowUsed_ p) (stagingUsed_ p ⊟ rj_bytes j) in
    set_row_jobs p (map_erase id (jobs_ p))
  else set_row_jobs p (map_set id j (jobs_ p)).

Definition complete_token (p : SFURowPipeline) (t : RowToken) (done : Z) : result SFURowPipeline :=
  let g := config_ p in
  let! c := at_or_throw (tk_context t) (rows_ p) in
  let! b := at_or_throw (tk_beat t) (r_beats c) in
  let! j := at_or_throw (r_job c) (jobs_ p) in
  let! r := row_complete g j c (beat_idle b) (tk_port t) in
  let '(c, b, output) := r in
  let j := job_with j (rj_nextRow j) (rj_finished j) output in
  let p := set_row_jobs p (map_set (r_job c) j (jobs_ p)) in
  let '(p, c) :=
    if b_finished b then
      let c := with_beats (with_progress c (r_cursor c) (r_completed c + b_count b)%nat) (map_erase (tk_beat t) (r_beats c)) in
      let p := set_beats p (beatUsed_ p - 1)%nat (beatSequence_ p) (beatCursor_ p) in
      (p, if (r_completed c =? row_width g j (r_phase c) (r_reduceSize c))%nat then row_nextPhase g j c else c)
    else (p, with_beats c (map_set (tk_beat t) b (r_beats c))) in
  let p := set_rows p (map_set (tk_context t) c (rows_ p)) in
  if bool_decide (r_phase c = PDone) then Ok (finish_row p (tk_context t) (r_job c) j done) else Ok p.

Fixpoint complete_tokens (fuel : nat) (p : SFURowPipeline) (now : Z) : result SFURowPipeline :=
  match fuel with
  | O => Ok p
  | S fuel' =>
      match pending_ p with
      | (done, t) :: rest =>
          if done <=? now then let! p := complete_token (set_row_pending p rest) t done in complete_tokens fuel' p now
          else Ok p
      | [] => Ok p
      end
  end.

(** [std::upper_bound] on ascending keys, then [std::rotate]. *)
Fixpoint rotate_keys (cursor : Z) (keys before : list Z) : list Z :=
  match keys with
  | k :: keys' => if cursor <? k then keys ++ before else rotate_keys cursor keys' (before ++ [k])
  | [] => before
  end.
Definition rotated {A} (cursor : Z) (m : list (Z * A)) : list Z := rotate_keys cursor (map fst m) [].

Definition row_fresh (id : Z) (row width : nat) : RowContext :=
  let zeros := replicate width f_zero32 in
  mkRowContext id row 0 0 width PLoad [] f_zero32 f_zero32
    (mkRowData f_zero32 f_zero32 (SFone prec32 emax32) f_zero32 zeros zeros zeros zeros).

(** Lines 222-229: the first job in the rotated order that has a row and room for it. *)
Fixpoint admit_one (p : SFURowPipeline) (order : list Z) : result (SFURowPipeline * bool) :=
  match order with
  | [] => Ok (p, false)
  | id :: order' =>
      let! j := at_or_throw id (jobs_ p) in
      if (rj_nextRow j =? job_rows j)%nat || (rowBytes_ (config_ p) ⊟ rowUsed_ p <? Z.of_nat (rj_width j) ⊠ 8)
      then admit_one p order'
      else
        let c := row_fresh id (rj_nextRow j) (rj_width j) in
        let key := contextSequence_ p ⊞ 1 in
        let p := set_row_jobs p (map_set id (job_with j (S (rj_nextRow j)) (rj_finished j) (rj_output j)) (jobs_ p)) in
        let p := set_rows p (map_emplace key c (rows_ p)) in
        let p := set_used p (rowUsed_ p ⊞ Z.of_nat (rj_width j) ⊠ 8) (stagingUsed_ p) in
        let p := max_counter p CRowHighWater (rowUsed_ p) in
        Ok (set_admission p key id, true)
  end.

Fixpoint admitRows (fuel : nat) (p : SFURowPipeline) : result SFURowPipeline :=
  match fuel with
  | O => Ok p
  | S fuel' =>
      if (length (rows_ p) <? contexts_ (config_ p))%nat then
        let! r := admit_one p (rotated (admissionCursor_ p) (jobs_ p)) in
        let (p, admitted) := r in
        if admitted then admitRows fuel' p else Ok p
      else Ok p
  end.

(** Lines 137-147 for one context. *)
Definition allocate_beat (p : SFURowPipeline) (key : Z) : result SFURowPipeline :=
  let g := config_ p in
  let! c := at_or_throw key (rows_ p) in
  let! j := at_or_throw (r_job c) (jobs_ p) in
  let ph := r_phase c in
  let occupied := negb (length (r_beats c) =? 0)%nat in
  if (r_cursor c =? row_width g j ph (r_reduceSize c))%nat || (negb (overlap_ g) && occupied) ||
     ((scalar_phase ph || (bool_decide (ph = PReduce) && negb (tree_ g))) && occupied) then Ok p
  else if (beatUsed_ p =? beatCapacity_ g)%nat then Ok (add_counter p CBeatBackpressure 1)
  else
    let count := row_count g j ph (r_reduceSize c) (r_cursor c) in
    let port := if bool_decide (ph = PLoad) then PortWrite
                else if scalar_phase ph && negb (compensated g j && bool_decide (ph = PMean)) then PortCompute else PortRead in
    let b := mkBeat (r_cursor c) count 0 port false false [] [] in
    let id := beatSequence_ p ⊞ 1 in
    let c := with_beats (with_progress c (r_cursor c + count)%nat (r_completed c)) (map_emplace id b (r_beats c)) in
    let p := set_rows p (map_set key c (rows_ p)) in
    let p := set_beats p (S (beatUsed_ p)) id key in
    let p := add_counter p CIssuedBeats 1 in
    let p := max_counter p CBeatHighWater (Z.of_nat (beatUsed_ p)) in
    Ok (max_counter p CRowBeatHighWater (Z.of_nat (length (r_beats c)))).

Fixpoint allocate_beats (p : SFURowPipeline) (keys : list Z) : result SFURowPipeline :=
  match keys with
  | [] => Ok p
  | key :: keys' => let! p := allocate_beat p key in allocate_beats p keys'
  end.

(** Lines 161-164: the first idle beat at a port. *)
Fixpoint select_beat (port : Port) (bs : list (Z * Beat)) : option (Z * Beat) :=
  match bs with
  | [] => None
  | (id, b) :: bs' => if bool_decide (b_port b = port) && negb (b_busy b) then Some (id, b) else select_beat port bs'
  end.

Definition issue_bytes (g : RowConfig) (j : RowJob) (c : RowContext) (port : Port) (b : Beat) : Z :=
  match port with
  | PortRead => row_reads g j (r_phase c) (r_reduceSize c) b * 2
  | PortCompute => 0
  | PortWrite => Z.of_nat (b_count b) * 2 * (if bool_decide (r_phase c = PLoad) || pairOutput g j (r_phase c) then 2 else 1)
  end.

(** Lines 158-176 for one context and port. *)
Definition issue_port (p : SFURowPipeline) (port : Port) (now key : Z) : result (SFURowPipeline * list RowIssue) :=
  let g := config_ p in
  let! c := at_or_throw key (rows_ p) in
  match select_beat port (r_beats c) with
  | None => Ok (p, [])
  | Some (id, b) =>
      let! j := at_or_throw (r_job c) (jobs_ p) in
      let u := unit_for g j (r_phase c) port (b_micro b) in
      let wait p := (add_counter (add_counter p CResourceBackpressure 1) (CPortWait port) 1, []) in
      if now <? nextIssueCycle (units_ p u) then Ok (wait p)
      else
        let (h, done) := TensorHardwarePipeline_reserve (units_ p u) now true in
        let p := set_units p (<[u := h]> (units_ p)) in
        match done with
        | None => Ok (wait p)
        | Some done =>
            let c' := with_beats c (map_set id (beat_start b) (r_beats c)) in
            let p := set_rows p (map_set key c' (rows_ p)) in
            let p := set_row_pending p (multimap_emplace done (mkRowToken key id port) (pending_ p)) in
            let p := set_port_cursor p port key in
            let bytes := issue_bytes g j c port b in
            let p := match port with
                     | PortRead => add_counter p CReadBytes bytes
                     | PortCompute => p
                     | PortWrite => add_counter p CWriteBytes bytes
                     end in
            Ok (add_counter p (CPortIssues port) 1,
                [mkRowIssue (r_job c) key now done (r_phase c) port (b_cursor b) (b_count b) bytes u (b_micro b)])
        end
  end.

Fixpoint issue_keys (p : SFURowPipeline) (port : Port) (now : Z) (keys : list Z) : result (SFURowPipeline * list RowIssue) :=
  match keys with
  | [] => Ok (p, [])
  | key :: keys' =>
      let! r := issue_port p port now key in
      let! rest := issue_keys r.1 port now keys' in
      Ok (rest.1, r.2 ++ rest.2)
  end.

Definition SFURowPipeline_step (p : SFURowPipeline) (now : Z) : result (SFURowPipeline * list RowIssue) :=
  let p := set_units p (fun u => if bool_decide (u = UDivide) && negb (hasDivide_ (config_ p)) then units_ p u
                                 else TensorHardwarePipeline_retire (units_ p u) now) in
  let! p := complete_tokens (length (pending_ p)) p now in
  let! p := admitRows (contexts_ (config_ p)) p in
  let p := if SFURowPipeline_active p then add_counter p CActiveCycles 1 else p in
  let! p := allocate_beats p (rotated (beatCursor_ p) (rows_ p)) in
  let! r1 := issue_keys p PortRead now (rotated (cursors_ p PortRead) (rows_ p)) in
  let! r2 := issue_keys r1.1 PortCompute now (rotated (cursors_ r1.1 PortCompute) (rows_ r1.1)) in
  let! r3 := issue_keys r2.1 PortWrite now (rotated (cursors_ r2.1 PortWrite) (rows_ r2.1)) in
  Ok (r3.1, r1.2 ++ r2.2 ++ r3.2).
End pipeline.
