(* ===== verification/RowPhases.v ===== *)
(** * The phases of a row, functionally ([sfu/row_pipeline.h])

    What one element's micro-operations leave in the banks, phase by phase, as functions
    on whole vectors: the values stay in the format, and the functions compose to the
    loops of [VectorMath]. *)

From Stdlib Require Import ZArith Lia.
From stdpp Require Import base numbers list.
From S2P Require Import Prelude Ieee IeeeArith Fp16 Arithmetic VectorMath RowPipeline.

(** ** Values the banks hold *)

Lemma cast_representable c x : representable c (cast c x).
Proof.
  destruct x as [s|s| |s m e]; try done. unfold representable, cast, SFconv.
  rewrite binary_round_spec by auto with sfu. apply round_at_format; auto with sfu. lia.
Qed.
Lemma cast_id c x : representable c x -> cast c x = x.
Proof.
  intros V. destruct x as [s|s| |s m e]; try done. unfold cast, SFconv.
  rewrite binary_round_spec by auto with sfu. apply round_at_canonical; auto with sfu.
Qed.

Section closure.
Context `{Libm}.
Context (a : SFUArithmetic).
Notation f_mul := (SFUArithmetic_mul a CFloat CFloat).
Notation f_div := (SFUArithmetic_div a CFloat CFloat).
Notation f_fma := (SFUArithmetic_fma a CFloat).
Notation f_add := (SFUArithmetic_add a CFloat CFloat).

Lemma binop_half_value op x y :
  SFUArithmetic_fp16 a = true -> half_exact op -> representable CFloat x -> representable CFloat y ->
  exists h, half_value h /\ SFUArithmetic_binop a op CFloat CFloat x y = cast CFloat h.
Proof.
  intros Hf Hop Vx Vy. exists (op prec16 emax16 (to_half x) (to_half y)).
  split; [|by rewrite binop_half].
  destruct (Hop (to_half x) (to_half y)) as [V E]; [eapply to_half_value; eassumption..|].
  rewrite <- E. by eapply to_half_value.
Qed.

(** Storing a stored value again changes nothing. *)
Lemma store_half_value h : half_value h -> vectorFp16Value (cast CFloat h) = cast CFloat h.
Proof. intros Hh. by rewrite vectorFp16Value_store, store16_exact. Qed.

Lemma round_again x :
  representable CFloat x -> SFUArithmetic_round a CFloat (SFUArithmetic_round a CFloat x) = SFUArithmetic_round a CFloat x.
Proof.
  intros V. destruct (SFUArithmetic_fp16 a) eqn:Hf; [|unfold SFUArithmetic_round; by rewrite Hf].
  rewrite (round_to_half a CFloat x) by done.
  destruct (half_representable CFloat (to_half x)) as [V' E]; [eapply to_half_value; exact V|].
  by rewrite round_to_half, E by done.
Qed.

Lemma div_round x y : representable CFloat x -> f_div (SFUArithmetic_round a CFloat x) y = f_div x y.
Proof.
  intros V. unfold SFUArithmetic_div, SFUArithmetic_binop. rewrite round_again by done.
  destruct (SFUArithmetic_fp16 a) eqn:Hf; [done|]. unfold SFUArithmetic_round. by rewrite Hf.
Qed.

Lemma fma_representable x y z : SFUArithmetic_fp16 a = true -> representable CFloat (f_fma x y z).
Proof. intros Hf. unfold SFUArithmetic_fma. rewrite Hf. apply cast_representable. Qed.
Lemma binop_representable op x y :
  SFUArithmetic_fp16 a = true -> representable CFloat (SFUArithmetic_binop a op CFloat CFloat x y).
Proof. intros Hf. unfold SFUArithmetic_binop. rewrite Hf. apply cast_representable. Qed.

(** The result of the compensated gamma is a binary16 value. *)
Lemma normGamma_stored q c : SFUArithmetic_fp16 a = true -> vectorFp16Value (normGamma a q c) = normGamma a q c.
Proof.
  intros Hf. unfold normGamma. cbv zeta. unfold SFUArithmetic_add at 1 2.
  destruct (binop_half_value SFadd (f_mul (hi q) c)
    (f_fma (lo q) c (f_fma (hi q) c (SFopp (f_mul (hi q) c))))) as (h & Hh & ->).
  - done.
  - apply half_add_exact.
  - by apply binop_representable.
  - by apply fma_representable.
  - by apply store_half_value.
Qed.

(** A square is not the negative zero, so adding it to zero gives it back. *)
Lemma SFmul_square_sign p emax x : SFmul p emax x x <> S754_zero true.
Proof.
  destruct x as [s|s| |s m e]; cbn [SFmul]; try (destruct s; done); try done.
  assert (xorb s s = false) as -> by (by destruct s).
  unfold binary_round_aux. destruct (shr_fexp _ _ _ _ _) as [mrs e']. 
  destruct (shr_fexp _ _ _ _ _) as [mrs' e'']. destruct (shr_m mrs'); try done. by case_match.
Qed.

Lemma SFadd_zero_l p emax y : y <> S754_zero true -> SFadd p emax (S754_zero false) y = y.
Proof. destruct y as [[]|s| |s m e]; done. Qed.

Lemma square_added_to_zero x :
  representable CFloat x -> f_add f_zero32 (f_mul x x) = f_mul x x.
Proof.
  intros V. destruct (SFUArithmetic_fp16 a) eqn:Hf.
  - unfold SFUArithmetic_mul. rewrite (binop_half a Hf) by (done || apply half_mul_exact).
    set (h := SFmul prec16 emax16 (to_half x) (to_half x)).
    assert (half_value h) as Hh.
    { destruct (half_mul_exact (to_half x) (to_half x)) as [V' E]; [eapply to_half_value; eassumption..|].
      unfold h. rewrite <- E. by eapply to_half_value. }
    cbn [common]. destruct (half_representable CFloat h Hh) as [Vh Eh].
    unfold SFUArithmetic_add. rewrite (binop_half a Hf) by (done || apply half_add_exact).
    rewrite Eh. change (to_half f_zero32) with (S754_zero false).
    rewrite SFadd_zero_l; [done|]. apply SFmul_square_sign.
  - unfold SFUArithmetic_mul, SFUArithmetic_add, SFUArithmetic_binop. rewrite Hf. cbn [common].
    rewrite (cast_id CFloat x) by done. cbn [cprec cemax].
    set (y := SFmul prec32 emax32 x x).
    assert (representable CFloat y) as Vy.
    { unfold y. destruct x as [s|s| |s m e]; try done; [by destruct s..|].
      rewrite SFmul_canonical by done. cbn [cprec cemax] in *. apply round_at_format; [done..|]. lia. }
    rewrite (cast_id CFloat y) by done. change (cast CFloat f_zero32) with (S754_zero false).
    apply SFadd_zero_l, SFmul_square_sign.
Qed.
End closure.

(** ** Overwriting a bank from the front *)

Section overwrite.
Context {A : Type}.

(** [l] with the first [n] elements replaced by [f 0 .. f (n-1)]. *)
Definition overwrite (f : nat -> A) (n : nat) (l : list A) : list A := map f (seq 0 n) ++ drop n l.

Lemma overwrite_0 f l : overwrite f 0 l = l.
Proof. reflexivity. Qed.
Lemma overwrite_length f n l : (n <= length l)%nat -> length (overwrite f n l) = length l.
Proof. intros Hn. unfold overwrite. rewrite length_app, length_map, length_seq, length_drop. lia. Qed.
Lemma overwrite_ge f n l i : (n <= i)%nat -> overwrite f n l !! i = l !! i.
Proof.
  intros Hi. unfold overwrite. rewrite lookup_app_r by (rewrite length_map, length_seq; lia).
  rewrite length_map, length_seq, lookup_drop. f_equal. lia.
Qed.
Lemma overwrite_lt f n l i : (i < n)%nat -> overwrite f n l !! i = Some (f i).
Proof.
  intros Hi. unfold overwrite. rewrite lookup_app_l by (rewrite length_map, length_seq; lia).
  change (map f ?k) with (f <$> k). rewrite list_lookup_fmap, lookup_seq_lt by lia. reflexivity.
Qed.
Lemma overwrite_S f n l : (n < length l)%nat -> <[n := f n]> (overwrite f n l) = overwrite f (S n) l.
Proof.
  intros Hn. apply list_eq. intros i. destruct (Nat.lt_trichotomy i n) as [|[->|]].
  - rewrite list_lookup_insert_ne, !overwrite_lt by lia. reflexivity.
  - rewrite list_lookup_insert_eq by (rewrite overwrite_length; lia). by rewrite overwrite_lt by lia.
  - rewrite list_lookup_insert_ne, !overwrite_ge by lia. reflexivity.
Qed.
Lemma overwrite_all f n l : length l = n -> overwrite f n l = map f (seq 0 n).
Proof. intros <-. unfold overwrite. by rewrite drop_all, app_nil_r. Qed.
Lemma overwrite_ext f f' n l : (forall i, (i < n)%nat -> f i = f' i) -> overwrite f n l = overwrite f' n l.
Proof.
  intros E. unfold overwrite. f_equal. apply map_ext_in. intros i [_ Hi]%in_seq. apply E. lia.
Qed.
End overwrite.

Lemma overwrite_zip n (f : nat -> SFUNormPair) (l l' : list spec_float) :
  (n <= length l)%nat -> length l = length l' ->
  zip_with mkNormPair (overwrite (fun i => hi (f i)) n l) (overwrite (fun i => lo (f i)) n l') =
  overwrite f n (zip_with mkNormPair l l').
Proof.
  intros Hn Hl. apply list_eq. intros i. destruct (Nat.lt_ge_cases i n).
  - rewrite lookup_zip_with, !overwrite_lt by done. cbn. by destruct (f i).
  - rewrite lookup_zip_with, !overwrite_ge by done. by rewrite lookup_zip_with.
Qed.

Lemma map_seq_lookup {A B} (f : A -> B) (d : A) (l : list A) :
  map (fun i => f (default d (l !! i))) (seq 0 (length l)) = map f l.
Proof.
  apply list_eq. intros i. change (map ?f ?k) with (f <$> k). rewrite !list_lookup_fmap.
  destruct (Nat.lt_ge_cases i (length l)).
  - rewrite lookup_seq_lt by lia. destruct (lookup_lt_is_Some_2 l i ltac:(done)) as [x E].
    cbn. by rewrite E.
  - rewrite (lookup_ge_None_2 l), lookup_ge_None_2 by (rewrite ?length_seq; lia). reflexivity.
Qed.

(** ** The in-place trees *)

Lemma half_le n : ((n + 1) / 2 <= n)%nat.
Proof. pose proof (Nat.div_mod_eq (n + 1) 2). lia. Qed.
Lemma half_lt n : (1 < n)%nat -> ((n + 1) / 2 < n)%nat.
Proof. intros. apply Nat.Div0.div_lt_upper_bound; lia. Qed.
Lemma half_pos n : (1 <= n)%nat -> (1 <= (n + 1) / 2)%nat.
Proof. intros. apply Nat.div_le_lower_bound; lia. Qed.
Lemma half_index n i : (i < (n + 1) / 2)%nat -> (2 * i < n)%nat.
Proof. pose proof (Nat.div_mod_eq (n + 1) 2). pose proof (Nat.mod_upper_bound (n + 1) 2). lia. Qed.

Section trees.
Context `{Libm}.
Context (a : SFUArithmetic).
Notation zero_pair := (mkNormPair (S754_zero false) (S754_zero false)).
Notation f_add := (SFUArithmetic_add a CFloat CFloat).

(** The value a level of the tree gives position [i]. *)
Definition pair_node (n : nat) (p : list SFUNormPair) (i : nat) : SFUNormPair :=
  if (2 * i + 1 <? n)%nat
  then normAdd a (default zero_pair (p !! (2 * i)%nat)) (default zero_pair (p !! (2 * i + 1)%nat))
  else default zero_pair (p !! (2 * i)%nat).
Definition plain_node (n : nat) (v : list spec_float) (i : nat) : spec_float :=
  if (2 * i + 1 <? n)%nat
  then f_add (default f_zero32 (v !! (2 * i)%nat)) (default f_zero32 (v !! (2 * i + 1)%nat))
  else default f_zero32 (v !! (2 * i)%nat).

Lemma norm_level_overwrite n p k i :
  (i + k <= length p)%nat ->
  norm_level a n k i (overwrite (pair_node n p) i p) = overwrite (pair_node n p) (i + k) p.
Proof.
  revert i. induction k as [|k IH]; intros i Hi; [by rewrite Nat.add_0_r|].
  cbn [norm_level]. rewrite !overwrite_ge by lia. fold (pair_node n p i).
  rewrite overwrite_S, IH by lia. f_equal. lia.
Qed.

Lemma treeLevel_overwrite n v k i :
  (i + k <= length v)%nat ->
  SFUArithmetic_treeLevel a CFloat n k i (overwrite (plain_node n v) i v) = overwrite (plain_node n v) (i + k) v.
Proof.
  revert i. induction k as [|k IH]; intros i Hi; [by rewrite Nat.add_0_r|].
  cbn [SFUArithmetic_treeLevel]. rewrite !overwrite_ge by lia. change (S754_zero false) with f_zero32.
  fold (plain_node n v i). rewrite overwrite_S, IH by lia. f_equal. lia.
Qed.

Lemma norm_tree_fuel fuel : forall n p, (n <= fuel)%nat -> norm_tree a fuel n p = norm_tree a n n p.
Proof.
  induction fuel as [fuel IH] using lt_wf_ind. intros n p Hn.
  destruct (Nat.le_gt_cases n 1) as [Hs|Hs].
  { assert (forall f, norm_tree a f n p = p) as E; [|by rewrite !E].
    intros [|f]; [done|]. cbn [norm_tree]. by rewrite (proj2 (Nat.ltb_ge 1 n)). }
  pose proof (half_lt n Hs).
  destruct fuel as [|fuel]; [lia|]. destruct n as [|n']; [lia|]. cbn [norm_tree].
  rewrite (proj2 (Nat.ltb_lt 1 (S n'))) by done.
  rewrite (IH fuel) by lia. destruct (Nat.eq_dec n' fuel) as [->|]; [by rewrite (IH fuel) by lia|].
  by rewrite (IH n') by lia.
Qed.

Lemma treeLoop_fuel fuel : forall n v,
  (n <= fuel)%nat -> SFUArithmetic_treeLoop a CFloat fuel n v = SFUArithmetic_treeLoop a CFloat n n v.
Proof.
  induction fuel as [fuel IH] using lt_wf_ind. intros n p Hn.
  destruct (Nat.le_gt_cases n 1) as [Hs|Hs].
  { assert (forall f, SFUArithmetic_treeLoop a CFloat f n p = p) as E; [|by rewrite !E].
    intros [|f]; [done|]. cbn [SFUArithmetic_treeLoop]. by rewrite (proj2 (Nat.ltb_ge 1 n)). }
  pose proof (half_lt n Hs).
  destruct fuel as [|fuel]; [lia|]. destruct n as [|n']; [lia|]. cbn [SFUArithmetic_treeLoop].
  rewrite (proj2 (Nat.ltb_lt 1 (S n'))) by done. cbv zeta.
  rewrite (IH fuel) by lia. destruct (Nat.eq_dec n' fuel) as [->|]; [by rewrite (IH fuel) by lia|].
  by rewrite (IH n') by lia.
Qed.

(** One level, then the rest of the tree on half the positions. *)
Lemma norm_tree_step n p :
  (1 < n <= length p)%nat ->
  norm_tree a n n p = norm_tree a ((n + 1) / 2) ((n + 1) / 2) (overwrite (pair_node n p) ((n + 1) / 2) p).
Proof.
  intros Hn. pose proof (half_lt n ltac:(lia)). destruct n as [|n']; [lia|]. cbn [norm_tree].
  rewrite (proj2 (Nat.ltb_lt 1 (S n'))) by lia. rewrite norm_tree_fuel by lia. f_equal.
  rewrite <- (overwrite_0 (pair_node (S n') p) p) at 1. by rewrite norm_level_overwrite by lia.
Qed.
Lemma treeLoop_step n v :
  (1 < n <= length v)%nat ->
  SFUArithmetic_treeLoop a CFloat n n v =
  SFUArithmetic_treeLoop a CFloat ((n + 1) / 2) ((n + 1) / 2) (overwrite (plain_node n v) ((n + 1) / 2) v).
Proof.
  intros Hn. pose proof (half_lt n ltac:(lia)). destruct n as [|n']; [lia|]. cbn [SFUArithmetic_treeLoop].
  rewrite (proj2 (Nat.ltb_lt 1 (S n'))) by lia. cbv zeta. rewrite treeLoop_fuel by lia. f_equal.
  rewrite <- (overwrite_0 (plain_node (S n') v) v) at 1. by rewrite treeLevel_overwrite by lia.
Qed.
End trees.

(** ** The elements of a phase

    [V i] is the result of element [i] computed from the banks at the start of the phase;
    [written V d n] are the banks once the first [n] elements are written. *)

Definition at0 (l : list spec_float) (i : nat) : spec_float := default f_zero32 (l !! i).
Lemma vget_ok l i : (i < length l)%nat -> vget l i = Ok (at0 l i).
Proof. intros Hi. unfold vget, at0. destruct (lookup_lt_is_Some_2 l i Hi) as [x ->]. reflexivity. Qed.
Lemma vget_overwrite f n l i : (n <= i)%nat -> vget (overwrite f n l) i = vget l i.
Proof. intros Hi. unfold vget. by rewrite overwrite_ge. Qed.
Lemma vset_overwrite f n l :
  (n < length l)%nat -> vset (overwrite f n l) n (f n) = Ok (overwrite f (S n) l).
Proof.
  intros Hn. unfold vset. rewrite overwrite_length, (proj2 (Nat.ltb_lt _ _)), overwrite_S by lia. reflexivity.
Qed.

#[local] Arguments Nat.div : simpl never.
#[local] Arguments Nat.modulo : simpl never.
#[local] Arguments Nat.mul : simpl never.

Section phase_elements.
Context `{Libm}.
Context (g : RowConfig) (j : RowJob).
Notation w := (rj_width j).
Notation rope := (bool_decide (rj_op j = Rope)).

Record job_ok : Prop := {
  jk_width : (0 < w)%nat;
  jk_op : rj_op j = Rope \/ rj_op j = RmsNorm;
  jk_active : rj_op j = Rope -> (0 < rj_activeWidth j <= w)%nat /\ (rj_activeWidth j mod 2 = 0)%nat;
  jk_input : (length (rj_input j) = job_rows j * w)%nat;
  jk_coefficients : rj_op j = RmsNorm -> length (rj_coefficients j) = w;
  jk_positions : rj_op j = Rope -> forall row, (row < job_rows j)%nat -> exists q, rj_positions j !! row = Some q /\
    (Z.to_nat q * rj_stride j + rj_offset j + rj_activeWidth j <= length (rj_coefficients j))%nat
}.

Record banks_ok (d : RowData) : Prop := {
  bk_x : length (d_x d) = w; bk_gamma : length (d_gamma d) = w;
  bk_work : length (d_work d) = w; bk_other : length (d_other d) = w }.

(** Reduction with a single accumulator writes no bank. *)
Definition serial (ph : Phase) : bool := bool_decide (ph = PReduce) && negb (tree_ g).

Notation a := (arithmetic_ g).
Notation one v := (mkNormPair v f_zero32).
Notation f_add := (SFUArithmetic_add a CFloat CFloat).
Notation f_mul := (SFUArithmetic_mul a CFloat CFloat).
Notation f_div := (SFUArithmetic_div a CFloat CFloat).

Definition phase_value (ph : Phase) (rs : nat) (acc : spec_float) (d : RowData) (i : nat) : SFUNormPair :=
  let x := at0 (d_x d) i in
  match ph with
  | PNormMax => one (SFabs x)
  | PInputScale => one (f_div x (d_inputScale d))
  | PSquare => if compensated g j then normSquare a x else one (f_mul x x)
  | PReduce =>
      if compensated g j then pair_node a rs (zip_with mkNormPair (d_work d) (d_other d)) i
      else if tree_ g then one (plain_node a rs (d_work d) i) else one (f_add acc (at0 (d_work d) i))
  | PScale =>
      if compensated g j then normDivide a x (mkNormPair (d_scalar d) (d_scalarLow d))
      else one (if SFUArithmetic_fp16 a then f_div x (d_scalar d) else f_mul x (d_scalar d))
  | PGamma =>
      let c := at0 (d_gamma d) i in
      if compensated g j then one (normGamma a (mkNormPair (at0 (d_work d) i) (at0 (d_other d) i)) c)
      else one (f_mul (at0 (d_work d) i) c)
  | PRopeLeft => one (f_mul (at0 (d_x d) (i - i mod 2)) (at0 (d_gamma d) i))
  | PRopeRight =>
      one (f_mul (at0 (d_x d) (i - i mod 2 + 1)) (at0 (d_gamma d) (if Nat.odd i then i - 1 else i + 1)))
  | PRopeMerge =>
      one (if Nat.odd i then f_add (at0 (d_work d) i) (at0 (d_other d) i)
           else SFUArithmetic_sub a CFloat CFloat (at0 (d_work d) i) (at0 (d_other d) i))
  | _ => one f_zero32
  end.

Definition load_x (row i : nat) : spec_float := vectorFp16Value (at0 (rj_input j) (row * w + i)).
Definition load_gamma (row i : nat) : spec_float :=
  if rope && (rj_activeWidth j <=? i)%nat then f_zero32
  else vectorFp16Value (at0 (rj_coefficients j)
    (if rope then (Z.to_nat (default 0%Z (rj_positions j !! row)) * rj_stride j + rj_offset j + i)%nat else i)).

Definition written (ph : Phase) (row : nat) (V : nat -> SFUNormPair) (d : RowData) (n : nat) : RowData :=
  let v i := hi (V i) in
  if serial ph then d else
  match ph with
  | PLoad => set_banks d (overwrite (load_x row) n (d_x d)) (overwrite (load_gamma row) n (d_gamma d)) (d_work d) (d_other d)
  | PInputScale => set_banks d (overwrite v n (d_x d)) (d_gamma d) (d_work d) (d_other d)
  | PGamma | PRopeMerge => d
  | PRopeRight => set_banks d (d_x d) (d_gamma d) (d_work d) (overwrite v n (d_other d))
  | _ => set_banks d (d_x d) (d_gamma d) (overwrite v n (d_work d))
           (if pairOutput g j ph then overwrite (fun i => lo (V i)) n (d_other d) else d_other d)
  end.

(** The job's output: row [row] is the [w] elements from [row * w]. *)
Definition writes_output (ph : Phase) : bool := match ph with PGamma | PRopeMerge => true | _ => false end.
Definition output_value (V : nat -> SFUNormPair) (i : nat) : spec_float := to_double (vectorFp16Value (hi (V i))).
Definition segment (row : nat) (out : list spec_float) : list spec_float := take w (drop (row * w) out).

Definition max_step (m v : spec_float) : spec_float := if SFltb m v then v else m.
Definition phase_max (ph : Phase) (V : nat -> SFUNormPair) (n : nat) (m : spec_float) : spec_float :=
  if bool_decide (ph = PNormMax) then foldl max_step m (map (fun i => hi (V i)) (seq 0 n)) else m.

Hypothesis J : job_ok.

Lemma set_banks_same d : set_banks d (d_x d) (d_gamma d) (d_work d) (d_other d) = d.
Proof. by destruct d. Qed.
Lemma written_0 ph row V d : written ph row V d 0 = d.
Proof. unfold written. destruct (serial ph); [done|]. destruct ph; rewrite ?overwrite_0; try done;
  cbv zeta; rewrite ?overwrite_0; try case_match; apply set_banks_same. Qed.

Lemma written_banks ph row V d n : (n <= w)%nat -> banks_ok d -> banks_ok (written ph row V d n).
Proof.
  intros Hn [B1 B2 B3 B4]. unfold written. destruct (serial ph); [by split|].
  destruct ph; split; cbn; try case_match; rewrite ?overwrite_length by lia; done.
Qed.

(** The phases whose beats compute element by element. *)
Definition element_phase (ph : Phase) : bool :=
  negb (scalar_phase ph) && negb (bool_decide (ph = PLoad)) && negb (bool_decide (ph = PDone)).
Definition rope_phase (ph : Phase) : bool := match ph with PRopeLeft | PRopeRight | PRopeMerge => true | _ => false end.

Lemma row_width_cases ph rs :
  row_width g j ph rs =
  match ph with
  | PReduce => if tree_ g then ((rs + 1) / 2)%nat else w
  | PMean | PEpsilonScaleA | PEpsilonScaleB | PEpsilon | PRsqrt => 1%nat
  | PRopeLeft | PRopeRight | PRopeMerge => rj_activeWidth j
  | _ => w
  end.
Proof. by destruct ph. Qed.

Lemma row_width_le ph rs : (rj_op j = Rope \/ rope_phase ph = false) -> (rs <= w)%nat -> (row_width g j ph rs <= w)%nat.
Proof.
  intros Hr Hs. pose proof (jk_width J). pose proof (half_le rs). rewrite row_width_cases.
  destruct ph; try lia; try (case_match; lia); destruct Hr as [Hr|Hr]; try done; destruct (jk_active J Hr); lia.
Qed.

Lemma pair_phases ph :
  compensated g j && (pairOutput g j ph || bool_decide (ph = PGamma)) =
  compensated g j && match ph with PSquare | PReduce | PScale | PGamma => true | _ => false end.
Proof. unfold pairOutput. by destruct (compensated g j), ph. Qed.

Lemma zip_lookup (l l' : list spec_float) i :
  (i < length l)%nat -> length l = length l' ->
  default (mkNormPair (S754_zero false) (S754_zero false)) (zip_with mkNormPair l l' !! i) = mkNormPair (at0 l i) (at0 l' i).
Proof.
  intros Hi Hl. rewrite lookup_zip_with. unfold at0.
  destruct (lookup_lt_is_Some_2 l i Hi) as [x ->].
  destruct (lookup_lt_is_Some_2 l' i) as [x' ->]; [lia|done].
Qed.

Lemma element_value_ok ph rs acc d i :
  banks_ok d -> element_phase ph = true -> (rj_op j = Rope \/ rope_phase ph = false) -> (rs <= w)%nat ->
  (i < row_width g j ph rs)%nat -> element_value g j ph rs acc d i = Ok (phase_value ph rs acc d i).
Proof.
  intros [B1 B2 B3 B4] He Hr Hs Hi. pose proof (row_width_le ph rs Hr Hs) as Hw.
  assert (C : forall l, length l = w -> vget l i = Ok (at0 l i)) by (intros l El; apply vget_ok; lia).
  unfold element_value. rewrite pair_phases. rewrite row_width_cases in Hi, Hw.
  assert (Ht : compensated g j = true -> tree_ g = true) by (unfold compensated; intros E; boolify; done).
  destruct ph; try done; cbn [andb]; rewrite ?andb_false_r, ?andb_true_r; unfold phase_value;
    rewrite ?C by done; cbn [rbind]; try done.
  - by destruct (compensated g j).
  - destruct (tree_ g) eqn:Et; cbn [negb]; rewrite ?Et in Hi.
    + pose proof (half_index rs i Hi) as H2.
      destruct (compensated g j); unfold pair_node, plain_node; destruct (Nat.ltb_spec (2 * i + 1) rs);
        rewrite ?zip_lookup, ?vget_ok by lia; done.
    + destruct (compensated g j); [by specialize (Ht eq_refl)|done].
  - by destruct (compensated g j).
  - by destruct (compensated g j).
  - rewrite vget_ok by lia. done.
  - destruct Hr as [Hr|Hr]; [|done]. destruct (jk_active J Hr) as [Ha He2].
    pose proof (Nat.div_mod_eq i 2). pose proof (Nat.mod_upper_bound i 2).
    pose proof (Nat.div_mod_eq (rj_activeWidth j) 2).
    assert (i - i mod 2 + 1 < rj_activeWidth j)%nat by lia.
    rewrite vget_ok by lia. cbn [rbind]. rewrite vget_ok; [done|].
    destruct (Nat.odd i) eqn:Eo; [lia|].
    assert (i mod 2 = 0)%nat; [|lia].
    rewrite <- Nat.negb_even in Eo. apply negb_false_iff, Nat.even_spec in Eo. destruct Eo as [k ->].
    rewrite Nat.mul_comm. apply Nat.Div0.mod_mul.
Qed.

(** A beat reads only positions that the beats before it have not overwritten. *)
Lemma at0_overwrite f n l i : (n <= i)%nat -> at0 (overwrite f n l) i = at0 l i.
Proof. intros Hi. unfold at0. by rewrite overwrite_ge. Qed.

Lemma phase_value_written ph row rs acc V d n i :
  banks_ok d -> (n <= i)%nat -> (n <= w)%nat ->
  (rj_op j = Rope \/ rope_phase ph = false) -> (rs <= w)%nat -> (i < row_width g j ph rs)%nat ->
  phase_value ph rs acc (written ph row V d n) i = phase_value ph rs acc d i.
Proof.
  intros [B1 B2 B3 B4] Hn Hnw Hr Hs Hi. rewrite row_width_cases in Hi.
  unfold written, serial. destruct ph; try done; cbn [andb negb]; unfold phase_value;
    rewrite ?bool_decide_false by done; cbn [andb set_banks d_x d_gamma d_work d_other d_inputScale d_scalar d_scalarLow]; try done.
  - by rewrite at0_overwrite.
  - rewrite bool_decide_true by done. cbn [andb]. destruct (tree_ g) eqn:Et; cbn [negb]; rewrite ?Et in Hi; [|done].
    cbn [set_banks d_x d_gamma d_work d_other]. pose proof (half_index rs i Hi).
    destruct (compensated g j) eqn:Ec.
    + unfold pairOutput. rewrite Ec. cbn [andb]. unfold pair_node.
      rewrite overwrite_zip by lia. destruct (2 * i + 1 <? rs)%nat; rewrite ?overwrite_ge by lia; done.
    + unfold plain_node. destruct (2 * i + 1 <? rs)%nat; rewrite ?overwrite_ge by lia; done.
Qed.


(** ** A beat computes and writes its elements *)

Lemma phase_value_accumulator ph rs acc acc' d i : serial ph = false -> phase_value ph rs acc d i = phase_value ph rs acc' d i.
Proof.
  unfold serial. destruct ph; try done. rewrite bool_decide_true by done. cbn [andb].
  intros Ht. apply negb_false_iff in Ht. unfold phase_value. by rewrite Ht.
Qed.

Lemma phase_max_S ph V n m :
  phase_max ph V (S n) m =
  if bool_decide (ph = PNormMax) && SFltb (phase_max ph V n m) (hi (V n)) then hi (V n) else phase_max ph V n m.
Proof.
  unfold phase_max. destruct (bool_decide (ph = PNormMax)); [|done]. cbn [andb].
  rewrite seq_S, map_app, foldl_app. reflexivity.
Qed.

Lemma segment_length row out : (row * w + w <= length out)%nat -> length (segment row out) = w.
Proof. intros Ho. unfold segment. rewrite length_take, length_drop. lia. Qed.

Lemma segment_insert row row' out i x :
  (i < w)%nat -> (row * w + w <= length out)%nat ->
  segment row' (<[(row * w + i)%nat := x]> out) =
  if bool_decide (row' = row) then <[i := x]> (segment row out) else segment row' out.
Proof.
  intros Hi Ho. unfold segment. case_bool_decide as E.
  - subst row'. apply list_eq. intros k. destruct (Nat.lt_ge_cases k w) as [Hk|Hk].
    + rewrite lookup_take_lt, lookup_drop by done. destruct (decide (k = i)) as [->|Hne].
      * rewrite !list_lookup_insert_eq by (rewrite ?length_take, ?length_drop; lia). done.
      * rewrite !list_lookup_insert_ne by lia. by rewrite lookup_take_lt, lookup_drop.
    + rewrite lookup_take_ge by done. rewrite lookup_ge_None_2; [done|].
      rewrite length_insert, length_take, length_drop. lia.
  - apply list_eq. intros k. destruct (Nat.lt_ge_cases k w) as [Hk|Hk]; [|by rewrite !lookup_take_ge].
    rewrite !lookup_take_lt, !lookup_drop by done. rewrite list_lookup_insert_ne; [done|].
    destruct (Nat.lt_ge_cases row' row); nia.
Qed.

Section beat.
Context (ph : Phase) (row rs : nat) (acc : spec_float) (d : RowData).
Notation V := (phase_value ph rs acc d).
Hypothesis B : banks_ok d.
Hypothesis Hrope : rj_op j = Rope \/ rope_phase ph = false.
Hypothesis Hrs : (rs <= w)%nat.

Lemma element_loop_ok c n cnt : forall f m,
  element_phase ph = true -> serial ph = false ->
  r_phase c = ph -> r_reduceSize c = rs -> r_data c = written ph row V d n ->
  (n <= f)%nat -> (f + cnt <= row_width g j ph rs)%nat ->
  element_loop g j c cnt f (phase_max ph V f m) = Ok (map V (seq f cnt), phase_max ph V (f + cnt) m).
Proof.
  induction cnt as [|cnt IH]; intros f m He Hs Ep Er Ed Hn Hf; [by rewrite Nat.add_0_r|].
  pose proof (row_width_le ph rs Hrope Hrs).
  cbn [element_loop]. rewrite Ep, Er, Ed, element_value_ok;
    [|apply written_banks; done || lia|done|done|done|lia]. cbn [rbind].
  rewrite (phase_value_accumulator _ _ _ acc) by done.
  rewrite phase_value_written by (done || lia).
  rewrite <- phase_max_S, IH by (done || lia). cbn [rbind fst snd seq map].
  by rewrite <- Nat.add_succ_comm.
Qed.

Lemma element_loop_serial c f m :
  serial ph = true -> r_phase c = ph -> r_data c = d -> (f < w)%nat ->
  element_loop g j c 1 f m = Ok ([one (f_add (r_accumulator c) (at0 (d_work d) f))], m).
Proof.
  intros Hs Ep Ed Hf. unfold serial in Hs. boolify. subst ph.
  match goal with E : PReduce = r_phase c |- _ => rename E into Ep | E : r_phase c = PReduce |- _ => rename E into Ep | _ => idtac end.
  cbn [element_loop]. rewrite Ed.
  match goal with E : tree_ g = false |- _ => rename E into Et end.
  assert (Ec : compensated g j = false) by (unfold compensated; rewrite Et; by rewrite andb_false_r).
  replace (r_phase c) with PReduce by congruence.
  unfold element_value. rewrite Ec, Et. cbn [andb negb].
  rewrite vget_ok by (rewrite (bk_work _ B); done). cbn [rbind fst snd hi].
  by rewrite bool_decide_false by done.
Qed.

Definition out_write (out : list spec_float) (i : nat) : list spec_float :=
  if writes_output ph then <[(row * w + i)%nat := output_value V i]> out else out.

Hypothesis Hrow : (row < job_rows j)%nat.

Lemma load_values n :
  ph = PLoad -> (n < w)%nat ->
  vget (rj_input j) (row * w + n) = Ok (at0 (rj_input j) (row * w + n)) /\
  (if rope then match rj_positions j !! row with Some q => Ok q | None => Throw out_of_range end else Ok 0) =
  Ok (if rope then default 0%Z (rj_positions j !! row) else 0) /\
  forall k, k = (if rope then (Z.to_nat (default 0%Z (rj_positions j !! row)) * rj_stride j + rj_offset j + n)%nat else n) ->
  (if rope && (rj_activeWidth j <=? n)%nat then Ok f_zero32
   else let! v := vget (rj_coefficients j) k in Ok (vectorFp16Value v)) = Ok (load_gamma row n).
Proof.
  intros _ Hn. pose proof (jk_input J) as Hi. split; [apply vget_ok; nia|].
  unfold load_gamma. destruct (decide (rj_op j = Rope)) as [Ho|Ho].
  - rewrite bool_decide_true by done. cbn [andb]. destruct (jk_positions J Ho row Hrow) as (q & -> & Hq).
    split; [done|]. intros k ->. cbn. destruct (Nat.leb_spec (rj_activeWidth j) n); [done|].
    rewrite vget_ok by lia. done.
  - rewrite bool_decide_false by done. split; [done|]. intros k ->. cbn [andb].
    rewrite vget_ok; [done|]. rewrite (jk_coefficients J); [done|]. by destruct (jk_op J).
Qed.

Lemma write_element_ok n out value residual :
  scalar_phase ph = false -> ph <> PDone -> serial ph = false ->
  (ph <> PLoad -> value = hi (V n) /\ residual = lo (V n)) ->
  (n < w)%nat -> (row * w + w <= length out)%nat ->
  write_element g j ph row (written ph row V d n) out n value residual =
  Ok (written ph row V d (S n), out_write out n).
Proof.
  intros Hsc Hd Hs Hv Hn Ho. destruct B as [B1 B2 B3 B4].
  unfold write_element, written, out_write. rewrite Hs.
  revert Hv. generalize V. intros W Hv. destruct ph eqn:Ep; try done;
    try (destruct Hv as [-> ->]; [done|]); cbn [writes_output set_banks d_x d_gamma d_work d_other].
  { destruct (load_values n) as (E1 & E2 & E3); [done|lia|].
    rewrite E1. cbn [rbind]. rewrite (vset_overwrite (load_x row)) by lia. cbn [rbind]. rewrite E2. cbn [rbind].
    rewrite E3 by (by destruct rope). cbn [rbind]. rewrite (vset_overwrite (load_gamma row)) by lia. done. }
  all: try (rewrite (vset_overwrite (fun i => hi (W i))) by lia; cbn [rbind];
    first [reflexivity
          |unfold pairOutput; destruct (compensated g j); cbn [andb rbind]; [|reflexivity];
           rewrite ?(vset_overwrite (fun i => lo (W i))) by lia; reflexivity]).
  all: unfold vset; rewrite (proj2 (Nat.ltb_lt _ _)) by lia; reflexivity.
Qed.

Definition seg_at (seg : list spec_float) (n : nat) : list spec_float :=
  if writes_output ph then overwrite (output_value V) n seg else seg.

Lemma write_loop_ok vs : forall n out seg,
  scalar_phase ph = false -> ph <> PDone -> serial ph = false ->
  (ph <> PLoad -> vs = map V (seq n (length vs))) ->
  (n + length vs <= w)%nat -> (row * w + w <= length out)%nat -> length seg = w ->
  segment row out = seg_at seg n ->
  exists out', row_write_loop g j ph row vs n (written ph row V d n) out = Ok (written ph row V d (n + length vs), out') /\
    length out' = length out /\ segment row out' = seg_at seg (n + length vs) /\
    forall row', row' <> row -> segment row' out' = segment row' out.
Proof.
  induction vs as [|v vs IH]; intros n out seg Hsc Hd Hs Hv Hn Ho Hl Hseg.
  { exists out. cbn. rewrite Nat.add_0_r. done. }
  cbn [length] in *. cbn [row_write_loop].
  rewrite write_element_ok; [|done|done|done| |lia|done].
  - cbn [rbind fst snd].
    assert (Hlen : length (out_write out n) = length out) by (unfold out_write; case_match; rewrite ?length_insert; done).
    destruct (IH (S n) (out_write out n) seg) as (out' & E & L & S1 & S2);
      [done|done|done| |lia|by rewrite Hlen|done| |].
    + intros Hp. specialize (Hv Hp). cbn [seq map] in Hv. injection Hv as _ Hv. exact Hv.
    + unfold out_write, seg_at in *. destruct (writes_output ph); [|done].
      rewrite segment_insert, bool_decide_true, Hseg, overwrite_S by (done || lia). done.
    + rewrite <- Nat.add_succ_comm. exists out'. split; [done|]. split; [by rewrite L|]. split; [done|].
      intros row' Hne. rewrite S2 by done. unfold out_write. destruct (writes_output ph); [|done].
      by rewrite segment_insert, bool_decide_false by (done || lia).
  - intros Hp. specialize (Hv Hp). cbn [seq map] in Hv. injection Hv as -> _. done.
Qed.
End beat.
End phase_elements.
