(* ===== verification/RowReference.v ===== *)
(** * The phases compute the reference row *)

From Stdlib Require Import ZArith Lia.
From stdpp Require Import base numbers list.
From S2P Require Import Prelude Ieee IeeeArith Fp16 Arithmetic VectorMath RowPipeline RowPhases.

#[local] Arguments Nat.div : simpl never.
#[local] Arguments Nat.modulo : simpl never.
#[local] Arguments Nat.mul : simpl never.

Section row_reference.
Context `{Libm}.
Context (g : RowConfig) (j : RowJob) (row : nat).
Notation w := (rj_width j).
Notation a := (arithmetic_ g).
Notation comp := (compensated g j).
Notation fp16 := (SFUArithmetic_fp16 a).
Notation one v := (mkNormPair v f_zero32).
Notation zero_pair := (mkNormPair (S754_zero false) (S754_zero false)).
Notation f_add := (SFUArithmetic_add a CFloat CFloat).
Notation f_sub := (SFUArithmetic_sub a CFloat CFloat).
Notation f_mul := (SFUArithmetic_mul a CFloat CFloat).
Notation f_div := (SFUArithmetic_div a CFloat CFloat).

(** ** What the row should hold, stage by stage *)

Definition row_input : list spec_float := segment j row (rj_input j).
Definition row_stored : list spec_float := map vectorFp16Value row_input.
Definition row_gamma : list spec_float := map (load_gamma j row) (seq 0 w).
Definition row_scale : spec_float := rms_scale row_input.
Definition row_scaled : list spec_float :=
  if fp16 then map (fun x => f_div (vectorFp16Value x) row_scale) row_input else row_stored.
Definition row_pairs : list SFUNormPair := map (normSquare a) row_scaled.
Definition row_squares : list spec_float := map (fun x => f_mul x x) row_scaled.
Definition row_total : SFUNormPair :=
  if comp then default zero_pair (norm_tree a w w row_pairs !! 0%nat)
  else one (if tree_ g then default f_zero32 (SFUArithmetic_treeLoop a CFloat w w row_squares !! 0%nat)
            else foldl f_add f_zero32 row_squares).
Definition row_mean : SFUNormPair :=
  let n := float_of_nat w in
  if comp then mkNormPair (f_div (hi row_total) n) (f_div (lo row_total) n) else one (f_div (hi row_total) n).
Definition row_epsilon : spec_float :=
  if fp16 then f_div (f_div (rj_epsilon j) row_scale) row_scale else rj_epsilon j.
Definition row_variance : SFUNormPair :=
  if comp then normAdd a row_mean (one row_epsilon) else one (f_add (hi row_mean) row_epsilon).
Definition row_root : SFUNormPair :=
  if comp then normRoot a row_variance
  else one (if fp16 then SFUArithmetic_sqrt a CFloat (hi row_variance) else SFUArithmetic_rsqrt a CFloat (hi row_variance)).
Definition row_normal (i : nat) : SFUNormPair :=
  let x := at0 row_scaled i in
  if comp then normDivide a x row_root else one (if fp16 then f_div x (hi row_root) else f_mul x (hi row_root)).
Definition row_normalised (i : nat) : spec_float :=
  if comp then normGamma a (row_normal i) (at0 row_gamma i) else f_mul (hi (row_normal i)) (at0 row_gamma i).

Definition rope_left (i : nat) : spec_float := f_mul (at0 row_stored (i - i mod 2)) (at0 row_gamma i).
Definition rope_right (i : nat) : spec_float :=
  f_mul (at0 row_stored (i - i mod 2 + 1)) (at0 row_gamma (if Nat.odd i then i - 1 else i + 1)).
Definition rope_merged (i : nat) : spec_float :=
  if Nat.odd i then f_add (rope_left i) (rope_right i) else f_sub (rope_left i) (rope_right i).

Definition row_initial : list spec_float :=
  if bool_decide (rj_op j = Rope) then row_input else replicate w f_zero32.
Definition row_output : list spec_float :=
  if bool_decide (rj_op j = Rope)
  then overwrite (fun i => to_double (vectorFp16Value (rope_merged i))) (rj_activeWidth j) row_input
  else map (fun i => to_double (vectorFp16Value (row_normalised i))) (seq 0 w).

(** ** The banks at the start of a phase *)

Definition scalar_is (d : RowData) (p : SFUNormPair) : Prop :=
  d_scalar d = hi p /\ (comp = true -> d_scalarLow d = lo p).

Record normalising (d : RowData) : Prop := {
  nm_x : d_x d = row_scaled; nm_gamma : d_gamma d = row_gamma; nm_scale : fp16 = true -> d_inputScale d = row_scale }.

(** The reduction still to do gives the row's total. *)
Definition reduction_left (rs : nat) (acc : spec_float) (d : RowData) : Prop :=
  if comp then default zero_pair (norm_tree a rs rs (zip_with mkNormPair (d_work d) (d_other d)) !! 0%nat) = row_total
  else if tree_ g then default f_zero32 (SFUArithmetic_treeLoop a CFloat rs rs (d_work d) !! 0%nat) = hi row_total
  else foldl f_add acc (d_work d) = hi row_total.

Definition reduced (acc : spec_float) (d : RowData) : Prop :=
  if comp then at0 (d_work d) 0 = hi row_total /\ at0 (d_other d) 0 = lo row_total
  else (if tree_ g || (w =? 1)%nat then at0 (d_work d) 0 else acc) = hi row_total.

Definition norm_phase (ph : Phase) : bool :=
  match ph with PLoad | PRopeLeft | PRopeRight | PRopeMerge | PDone => false | _ => true end.

Definition phase_holds (ph : Phase) (rs : nat) (acc mx : spec_float) (d : RowData) : Prop :=
  match ph with
  | PLoad => acc = f_zero32 /\ mx = f_zero32 /\ rs = w
  | PNormMax => fp16 = true /\ d_x d = row_stored /\ d_gamma d = row_gamma /\ acc = f_zero32 /\ mx = f_zero32 /\ rs = w
  | PInputScale => fp16 = true /\ d_x d = row_stored /\ d_gamma d = row_gamma /\ acc = f_zero32 /\ rs = w /\
      d_inputScale d = row_scale
  | PSquare => normalising d /\ acc = f_zero32 /\ rs = w
  | PReduce => normalising d /\ (1 < rs)%nat /\ reduction_left rs acc d
  | PMean => normalising d /\ reduced acc d
  | PEpsilonScaleA => normalising d /\ fp16 = true /\ scalar_is d row_mean /\ d_epsilon d = SFUArithmetic_round a CFloat (rj_epsilon j)
  | PEpsilonScaleB => normalising d /\ fp16 = true /\ scalar_is d row_mean /\ d_epsilon d = f_div (rj_epsilon j) row_scale
  | PEpsilon => normalising d /\ scalar_is d row_mean /\ d_epsilon d = row_epsilon
  | PRsqrt => normalising d /\ scalar_is d row_variance
  | PScale => normalising d /\ scalar_is d row_root
  | PGamma => d_gamma d = row_gamma /\ forall i, (i < w)%nat ->
      at0 (d_work d) i = hi (row_normal i) /\ (comp = true -> at0 (d_other d) i = lo (row_normal i))
  | PRopeLeft => d_x d = row_stored /\ d_gamma d = row_gamma
  | PRopeRight => d_x d = row_stored /\ d_gamma d = row_gamma /\
      forall i, (i < rj_activeWidth j)%nat -> at0 (d_work d) i = rope_left i
  | PRopeMerge => forall i, (i < rj_activeWidth j)%nat -> at0 (d_work d) i = rope_left i /\ at0 (d_other d) i = rope_right i
  | PDone => True
  end.

Record phase_start (ph : Phase) (rs : nat) (acc mx : spec_float) (d : RowData) (seg : list spec_float) : Prop := {
  ps_banks : banks_ok j d;
  ps_size : (0 < rs <= w)%nat;
  ps_op : (rope_phase ph = true -> rj_op j = Rope) /\ (norm_phase ph = true -> rj_op j = RmsNorm);
  ps_segment : seg = if bool_decide (ph = PDone) then row_output else row_initial;
  ps_holds : phase_holds ph rs acc mx d }.

Definition phase_accumulator (ph : Phase) (acc : spec_float) (d : RowData) (n : nat) : spec_float :=
  if serial g ph then foldl f_add acc (take n (d_work d)) else acc.

(** A context whose phase has written its [n] elements, [f] of them computed. *)
Record phase_state (c : RowContext) (ph : Phase) (rs : nat) (acc mx : spec_float) (d : RowData) (n f : nat) : Prop := {
  pt_phase : r_phase c = ph;
  pt_size : r_reduceSize c = rs;
  pt_data : r_data c = written g j ph row (phase_value g j ph rs acc d) d n;
  pt_accumulator : r_accumulator c = phase_accumulator ph acc d n;
  pt_maximum : r_maximum c = phase_max ph (phase_value g j ph rs acc d) f mx }.

Definition context_start (c : RowContext) (seg : list spec_float) : Prop :=
  phase_start (r_phase c) (r_reduceSize c) (r_accumulator c) (r_maximum c) (r_data c) seg.

Hypothesis J : job_ok j.
Hypothesis Hrow : (row < job_rows j)%nat.
Hypothesis Heps : representable CFloat (rj_epsilon j).

Lemma input_length : length row_input = w.
Proof. unfold row_input. apply segment_length. pose proof (jk_input j J). nia. Qed.
Lemma scaled_length : length row_scaled = w.
Proof. unfold row_scaled, row_stored. case_match; by rewrite length_map, input_length. Qed.
Lemma gamma_length : length row_gamma = w.
Proof. unfold row_gamma. by rewrite length_map, length_seq. Qed.

Lemma at0_map (f : spec_float -> spec_float) l i : (i < length l)%nat -> at0 (map f l) i = f (at0 l i).
Proof.
  intros Hi. unfold at0. change (map f l) with (f <$> l). rewrite list_lookup_fmap.
  destruct (lookup_lt_is_Some_2 l i Hi) as [x ->]. done.
Qed.
Lemma at0_seq (f : nat -> spec_float) n i : (i < n)%nat -> at0 (map f (seq 0 n)) i = f i.
Proof.
  intros Hi. unfold at0. change (map f ?k) with (f <$> k). rewrite list_lookup_fmap, lookup_seq_lt by done. done.
Qed.
Lemma at0_overwritten f n l i : (i < n)%nat -> at0 (overwrite f n l) i = f i.
Proof. intros Hi. unfold at0. by rewrite overwrite_lt. Qed.
(** A bank wholly overwritten with a function of another bank's elements. *)
Lemma overwrite_map (f : spec_float -> spec_float) (l l' : list spec_float) n :
  length l' = n -> length l = n -> overwrite (fun i => f (at0 l i)) n l' = map f l.
Proof. intros E <-. rewrite overwrite_all by done. apply (map_seq_lookup f f_zero32). Qed.

Lemma loaded_input l : length l = w -> overwrite (load_x j row) w l = row_stored.
Proof.
  intros El. unfold row_stored. rewrite <- (overwrite_map vectorFp16Value row_input l w); [|done|apply input_length].
  apply overwrite_ext. intros i Hi. unfold load_x. f_equal. unfold row_input, segment, at0.
  by rewrite lookup_take_lt, lookup_drop.
Qed.
Lemma loaded_gamma l : length l = w -> overwrite (load_gamma j row) w l = row_gamma.
Proof. intros El. by rewrite overwrite_all. Qed.

(** ** One phase after the other *)

Lemma start_phase_fields c ph :
  r_phase (start_phase c ph) = ph /\ r_reduceSize (start_phase c ph) = r_reduceSize c /\
  r_accumulator (start_phase c ph) = r_accumulator c /\ r_maximum (start_phase c ph) = r_maximum c /\
  r_data (start_phase c ph) = r_data c.
Proof. done. Qed.

Lemma comp_facts : comp = true -> fp16 = true /\ tree_ g = true /\ rj_op j = RmsNorm.
Proof. unfold compensated. intros E. boolify. done. Qed.

Lemma stored_length : length row_stored = w.
Proof. unfold row_stored. by rewrite length_map, input_length. Qed.
Lemma not_rope : rj_op j = RmsNorm -> rj_op j <> Rope.
Proof. by intros ->. Qed.

(** The largest magnitude of the row, as the reference folds it. *)
Lemma stored_maximum m :
  foldl max_step m (map (fun i => SFabs (at0 row_stored i)) (seq 0 w)) =
  foldl (fun m x => let v := SFabs (vectorFp16Value x) in if SFltb m v then v else m) m row_input.
Proof.
  assert (map (fun i => SFabs (at0 row_stored i)) (seq 0 w) = map (fun x => SFabs (vectorFp16Value x)) row_input) as ->.
  { rewrite <- (map_map vectorFp16Value SFabs). fold row_stored.
    rewrite <- (map_seq_lookup SFabs f_zero32 row_stored).
    by rewrite stored_length. }
  generalize m. induction row_input as [|x l IH]; intros m'; [done|]. cbn [map foldl]. apply IH.
Qed.

Lemma scaled_fp16 : fp16 = true -> row_scaled = map (fun x => f_div x row_scale) row_stored.
Proof. intros Hf. unfold row_scaled, row_stored. rewrite Hf, map_map. done. Qed.

Lemma total_pairs : comp = true -> row_total = default zero_pair (norm_tree a w w row_pairs !! 0%nat).
Proof. intros Hc. unfold row_total. by rewrite Hc. Qed.

(** A phase whose elements are all written leads to the start of the next one. *)
Definition phase_ends (ph : Phase) : Prop := forall rs acc mx d seg c,
  phase_start ph rs acc mx d seg -> phase_state c ph rs acc mx d (row_width g j ph rs) (row_width g j ph rs) ->
  context_start (row_nextPhase g j c) (seg_at g j ph rs acc d seg (row_width g j ph rs)).

Lemma context_start_phase c ph seg :
  phase_start ph (r_reduceSize c) (r_accumulator c) (r_maximum c) (r_data c) seg -> context_start (start_phase c ph) seg.
Proof. done. Qed.

Lemma end_banks ph rs acc mx d seg c :
  phase_start ph rs acc mx d seg -> phase_state c ph rs acc mx d (row_width g j ph rs) (row_width g j ph rs) ->
  banks_ok j (r_data c).
Proof.
  intros [B Hs [Hop _] _ _] [_ _ T3 _ _]. rewrite T3. apply written_banks; [|done].
  apply row_width_le; [done| |lia]. destruct (rope_phase ph); [left|right]; auto.
Qed.

Ltac open_phase :=
  intros rs acc mx d seg c S0 T; pose proof (end_banks _ _ _ _ _ _ _ S0 T) as Bw;
  destruct S0 as [[B1 B2 B3 B4] Hs [Hop1 Hop2] Hseg Hh]; destruct T as [T1 T2 T3 T4 T5];
  unfold row_nextPhase; rewrite T1; cbn [phase_holds] in Hh;
  try (assert (Hop : rj_op j = RmsNorm) by (by apply Hop2)); try (assert (Hop : rj_op j = Rope) by (by apply Hop1));
  rewrite row_width_cases in *;
  unfold seg_at, written, phase_accumulator, phase_max, serial in *; cbn [writes_output] in *;
  rewrite ?bool_decide_false in T3, T4, T5 by done; cbn [andb] in *.
Ltac close_phase T2 T3 T4 T5 :=
  apply context_start_phase; rewrite ?T2, ?T3, ?T4, ?T5.

Lemma scaled_plain : fp16 = false -> row_scaled = row_stored.
Proof. intros Hf. unfold row_scaled. by rewrite Hf. Qed.

Lemma end_load : phase_ends PLoad.
Proof.
  open_phase. destruct Hh as (-> & -> & ->). rewrite loaded_input, loaded_gamma in T3 by done.
  close_phase T2 T3 T4 T5. pose proof stored_length. pose proof gamma_length.
  destruct (jk_op j J) as [Ho|Ho]; rewrite Ho in *.
  - rewrite bool_decide_false by done. by split.
  - rewrite bool_decide_true by done. destruct fp16 eqn:Hf; split; try done.
    cbn. split; [|done]. split; cbn; [by rewrite scaled_plain|done|by rewrite Hf].
Qed.

Lemma end_norm_max : phase_ends PNormMax.
Proof.
  open_phase. destruct Hh as (Hf & Hx & Hg & -> & -> & ->).
  rewrite bool_decide_true in T5 by done.
  assert (r_maximum c = foldl (fun m x => let v := SFabs (vectorFp16Value x) in if SFltb m v then v else m)
            (S754_zero false) row_input) as T5'.
  { rewrite T5, <- stored_maximum. unfold phase_value. by rewrite Hx. }
  rewrite T5'. fold (rms_scale row_input). fold row_scale.
  apply context_start_phase. cbn [r_reduceSize r_accumulator r_maximum r_data with_data]. rewrite T2, T4.
  split; try done; [by destruct Bw; split|]. cbn. by rewrite T3.
Qed.

Lemma end_input_scale : phase_ends PInputScale.
Proof.
  open_phase. destruct Hh as (Hf & Hx & Hg & -> & -> & Hs').
  assert (E : overwrite (fun i => hi (phase_value g j PInputScale w f_zero32 d i)) w (d_x d) = row_scaled).
  { unfold phase_value. cbn [hi]. rewrite Hx, Hs'.
    rewrite (overwrite_map (fun x => f_div x row_scale)), <- scaled_fp16 by (done || apply stored_length). done. }
  rewrite E in T3. close_phase T2 T3 T4 T5.
  split; cbn; try done. split; cbn; try done. apply scaled_length.
Qed.

(** The squares, or their compensated pairs, in the work banks. *)
Lemma square_work rs acc d :
  length (d_work d) = w -> length (d_other d) = w -> d_x d = row_scaled ->
  (comp = true -> zip_with mkNormPair
     (overwrite (fun i => hi (phase_value g j PSquare rs acc d i)) w (d_work d))
     (overwrite (fun i => lo (phase_value g j PSquare rs acc d i)) w (d_other d)) = row_pairs) /\
  (comp = false -> overwrite (fun i => hi (phase_value g j PSquare rs acc d i)) w (d_work d) = row_squares).
Proof.
  intros Lw Lo Hx. pose proof scaled_length. split; intros Hc.
  - rewrite overwrite_zip by lia. unfold phase_value. rewrite Hc, Hx.
    rewrite overwrite_all by (rewrite length_zip_with; lia). unfold row_pairs.
    rewrite <- (map_seq_lookup (normSquare a) f_zero32 row_scaled). by rewrite H0.
  - unfold phase_value. rewrite Hc, Hx. cbn [hi].
    by rewrite (overwrite_map (fun x => f_mul x x)) by done.
Qed.

Lemma scaled_representable i : (i < w)%nat -> representable CFloat (at0 row_scaled i).
Proof.
  intros Hi. destruct fp16 eqn:Hf.
  - rewrite scaled_fp16 by done. rewrite at0_map by (rewrite stored_length; lia).
    by apply binop_representable.
  - rewrite scaled_plain by done. unfold row_stored. rewrite at0_map by (rewrite input_length; lia).
    rewrite vectorFp16Value_store. apply cast_representable.
Qed.

Lemma reduced_last acc d :
  length (d_work d) = w -> length (d_other d) = w -> tree_ g = true -> reduction_left 1 acc d -> reduced acc d.
Proof.
  intros Lw Lo Ht. pose proof (jk_width j J). unfold reduction_left, reduced. rewrite Ht. cbn [orb].
  destruct comp; [|done]. change (norm_tree a 1 1 ?p) with p. rewrite zip_lookup by lia. intros <-. done.
Qed.

Lemma end_square : phase_ends PSquare.
Proof.
  open_phase. destruct Hh as ([N1 N2 N3] & -> & ->). pose proof (jk_width j J).
  destruct (square_work w f_zero32 d B3 B4 N1) as [Wc Wp].
  assert (R : reduction_left w f_zero32 (r_data c)).
  { unfold reduction_left. rewrite T3. unfold pairOutput. cbn [set_banks d_work d_other].
    destruct comp eqn:Hc; cbn [andb].
    - rewrite Wc by done. by rewrite total_pairs.
    - rewrite Wp by done. unfold row_total. rewrite Hc. by destruct (tree_ g). }
  assert (N : normalising (r_data c)) by (rewrite T3; by split).
  rewrite T2. destruct (Nat.eqb_spec w 1) as [E1|E1]; apply context_start_phase; rewrite T2, T4.
  - split; try done. cbn. split; [done|]. destruct Bw. destruct (tree_ g) eqn:Et.
    + apply reduced_last; try done. by rewrite <- E1 at 1.
    + unfold reduction_left, reduced in *. rewrite Et in *. unfold compensated in *. rewrite Et, andb_false_r in *.
      cbn [andb] in *. rewrite E1, Nat.eqb_refl. cbn [orb]. rewrite <- R.
      assert (d_work (r_data c) = row_squares) as -> by (rewrite T3; cbn; by apply Wp).
      assert (exists s, row_squares = [f_mul s s] /\ representable CFloat s) as (s & -> & Hr).
      { exists (at0 row_scaled 0). split; [|apply scaled_representable; lia]. unfold row_squares.
        pose proof scaled_length as L. rewrite E1 in L. by destruct row_scaled as [|x [|]]. }
      cbn. symmetry. by apply square_added_to_zero.
  - split; try done. cbn. split; [done|]. split; [lia|done].
Qed.

Lemma end_reduce : phase_ends PReduce.
Proof.
  open_phase. destruct Hh as (N & Hgt & R). rewrite bool_decide_true in T3, T4 by done.
  assert (N' : normalising (r_data c)).
  { rewrite T3. destruct N. by destruct (tree_ g); split. }
  destruct (tree_ g) eqn:Et; cbn [andb negb orb] in *.
  - pose proof (half_le rs). pose proof (half_pos rs ltac:(lia)).
    assert (R' : reduction_left ((rs + 1) / 2) acc (r_data c)).
    { unfold reduction_left in *. rewrite T3. unfold pairOutput. cbn [set_banks d_work d_other].
      destruct comp eqn:Hc; cbn [andb] in *; unfold phase_value; rewrite Hc, ?Et in *; cbn [hi lo].
      - rewrite norm_tree_step in R by (rewrite length_zip_with; lia).
        by rewrite overwrite_zip by lia.
      - by rewrite treeLoop_step in R by lia. }
    cbn [with_reduceSize r_reduceSize]. rewrite T2.
    destruct (Nat.eqb_spec ((rs + 1) / 2) 1) as [E1|E1]; apply context_start_phase;
      cbn [with_reduceSize r_reduceSize r_data r_accumulator r_maximum]; rewrite ?T2, T4; split; try done; try lia.
    + cbn. split; [done|]. destruct Bw. apply reduced_last; try done. by rewrite <- E1.
    + cbn. split; [done|]. split; [lia|done].
  - apply context_start_phase. rewrite T2, T4, T3. split; try done. cbn. rewrite T3 in N'. split; [done|].
    unfold reduced, reduction_left in *. unfold compensated in *. rewrite Et, andb_false_r in *. cbn [andb orb] in *.
    rewrite firstn_all2 by lia. destruct (Nat.eqb_spec w 1); [lia|done].
Qed.

Lemma end_scale : phase_ends PScale.
Proof.
  open_phase. destruct Hh as ([N1 N2 N3] & S1 & S2). close_phase T2 T3 T4 T5.
  rewrite <- T3. split; try done. cbn. rewrite T3. cbn. split; [done|]. intros i Hi.
  rewrite at0_overwritten by done. unfold phase_value, row_normal, pairOutput. rewrite N1, S1.
  destruct comp eqn:Hc; cbn [andb]; [|done]. rewrite at0_overwritten, S2 by done. done.
Qed.

Lemma end_gamma : phase_ends PGamma.
Proof.
  open_phase. destruct Hh as (Hg & Hn). unfold context_start. cbn [r_phase r_reduceSize r_data r_accumulator r_maximum].
  rewrite T2. split; try done. rewrite Hseg, (bool_decide_true (PDone = PDone)), bool_decide_false by done.
  unfold row_initial, row_output. rewrite Hop, bool_decide_false by done.
  rewrite overwrite_all by apply length_replicate. apply map_ext_in. intros i [_ Hi]%in_seq.
  unfold output_value, phase_value, row_normalised. destruct (Hn i) as [E1 E2]; [lia|].
  rewrite E1, Hg. destruct comp eqn:Hc; [|done]. cbn [hi]. rewrite E2 by done. by destruct (row_normal i).
Qed.

Lemma end_rope_left : phase_ends PRopeLeft.
Proof.
  open_phase. destruct Hh as (Hx & Hg). close_phase T2 T3 T4 T5. rewrite <- T3. split; try done. cbn.
  rewrite T3. cbn. split; [done|]. split; [done|]. intros i Hi. rewrite at0_overwritten by done.
  unfold phase_value, rope_left. cbn [hi]. by rewrite Hx, Hg.
Qed.
Lemma end_rope_right : phase_ends PRopeRight.
Proof.
  open_phase. destruct Hh as (Hx & Hg & Hl). close_phase T2 T3 T4 T5. rewrite <- T3. split; try done. cbn.
  rewrite T3. cbn. intros i Hi. rewrite at0_overwritten by done. split; [by apply Hl|].
  unfold phase_value, rope_right. cbn [hi]. by rewrite Hx, Hg.
Qed.
Lemma end_rope_merge : phase_ends PRopeMerge.
Proof.
  open_phase. unfold context_start. cbn [r_phase r_reduceSize r_data r_accumulator r_maximum].
  rewrite T2. split; try done. rewrite Hseg, (bool_decide_true (PDone = PDone)), bool_decide_false by done.
  unfold row_initial, row_output. rewrite Hop, bool_decide_true by done. apply overwrite_ext. intros i Hi.
  unfold output_value, phase_value, rope_merged. destruct (Hh i Hi) as [-> ->]. by destruct (Nat.odd i).
Qed.

Lemma phase_end ph : scalar_phase ph = false -> ph <> PDone -> phase_ends ph.
Proof.
  destruct ph; try done; intros _ _; auto using end_load, end_norm_max, end_input_scale, end_square, end_reduce,
    end_scale, end_gamma, end_rope_left, end_rope_right, end_rope_merge.
Qed.

Lemma normalising_registers d d' :
  normalising d -> d_x d' = d_x d -> d_gamma d' = d_gamma d -> d_inputScale d' = d_inputScale d -> normalising d'.
Proof. intros [N1 N2 N3] E1 E2 E3. split; [by rewrite E1|by rewrite E2|by rewrite E3]. Qed.

(** The scalar phases update the registers at once. *)
Lemma scalar_end rs acc mx d seg c ph :
  scalar_phase ph = true -> phase_start ph rs acc mx d seg ->
  r_phase c = ph -> r_reduceSize c = rs -> r_accumulator c = acc -> r_maximum c = mx ->
  exists d', scalar_update g j ph acc d = Ok d' /\ context_start (row_nextPhase g j (with_data c d')) seg.
Proof.
  intros Hsc [[B1 B2 B3 B4] Hs [_ Hop2] Hseg Hh] T1 T2 T4 T5. pose proof (jk_width j J).
  assert (Hop : rj_op j = RmsNorm) by (apply Hop2; by destruct ph).
  unfold scalar_update, row_nextPhase. cbn [r_phase with_data]. rewrite T1. unfold context_start.
  destruct ph; try done; cbn [phase_holds] in Hh.
  - destruct Hh as ([N1 N2 N3] & R). unfold reduced in R.
    assert (E : forall p, row_mean = p ->
      exists d', (if comp then let! hi := vget (d_work d) 0 in let! lo := vget (d_other d) 0 in
                    Ok (set_scalars d (f_div hi (float_of_nat w)) (f_div lo (float_of_nat w)))
                  else let! sum := (if tree_ g || (w =? 1)%nat then vget (d_work d) 0 else Ok acc) in
                    Ok (set_scalars d (f_div sum (float_of_nat w)) (d_scalarLow d))) = Ok d' /\
        scalar_is d' p /\ banks_ok j d' /\ normalising d').
    { intros p <-. unfold scalar_is, row_mean. destruct comp eqn:Hc.
      - rewrite !vget_ok by lia. destruct R as [-> ->]. eexists. split; [reflexivity|]. by repeat split.
      - assert ((if tree_ g || (w =? 1)%nat then vget (d_work d) 0 else Ok acc) =
          Ok (if tree_ g || (w =? 1)%nat then at0 (d_work d) 0 else acc)) as ->
          by (destruct (_ || _); [apply vget_ok; lia|done]).
        cbn [rbind]. rewrite R. eexists. split; [reflexivity|]. by repeat split. }
    destruct (E _ eq_refl) as (d' & Ed & Sd & [] & N'). exists d'.
    split; [exact Ed|]. destruct fp16 eqn:Hf; cbn; rewrite ?T2, ?T4, ?T5; split; try done; cbn.
    + split; [by eapply normalising_registers|done].
    + split; [by eapply normalising_registers|]. split; [done|].
      unfold SFUArithmetic_round, row_epsilon. by rewrite Hf.
  - destruct Hh as ([N1 N2 N3] & Hf & Sd & He). exists (set_epsilon d (f_div (d_epsilon d) (d_inputScale d))).
    split; [by destruct comp|]. cbn. rewrite T2, T4, T5. split; try done. cbn.
    rewrite He, N3, div_round by done. split; [by split|done].
  - destruct Hh as ([N1 N2 N3] & Hf & Sd & He). exists (set_epsilon d (f_div (d_epsilon d) (d_inputScale d))).
    split; [by destruct comp|]. cbn. rewrite T2, T4, T5. split; try done. cbn. unfold row_epsilon.
    rewrite He, N3, Hf by done. split; [by split|done].
  - destruct Hh as ([N1 N2 N3] & [Sh Sl] & He). unfold row_variance, scalar_is.
    destruct comp eqn:Hc; (eexists; split; [reflexivity|]); cbn; rewrite T2, T4, T5; split; try done; cbn;
      (split; [by split|]); unfold scalar_is, row_variance; rewrite Hc; cbn; rewrite Sh, He, ?Sl by done; done.
  - destruct Hh as ([N1 N2 N3] & [Sh Sl]).
    destruct comp eqn:Hc; (eexists; split; [reflexivity|]); cbn; rewrite T2, T4, T5; split; try done; cbn;
      (split; [by split|]); unfold scalar_is, row_root; rewrite Hc; cbn; rewrite Sh, ?Sl by done; done.
Qed.

Lemma output_length : length row_output = w.
Proof.
  unfold row_output. case_bool_decide as Ho.
  - destruct (jk_active j J Ho). rewrite overwrite_length by (rewrite input_length; lia). apply input_length.
  - by rewrite length_map, length_seq.
Qed.
Lemma initial_length : length row_initial = w.
Proof. unfold row_initial. case_match; [apply input_length|apply length_replicate]. Qed.
End row_reference.

(** ** The row the reference computes *)

Notation len v := (Z.of_nat (length v)).

(** The requests [submit] takes, as their 32-bit fields and pointers are typed. *)
Record row_request (r : SFUVectorRequest) (inp coef : list spec_float) : Prop := {
  rq_shape : vector_shape r inp coef;
  rq_fields : u32_fields r;
  rq_epsilon : representable CFloat (epsilon r);
  rq_operands : row_operands_ok r inp coef = true }.

(** The job made for a request. *)
Record job_for (r : SFUVectorRequest) (inp coef : list spec_float) (j : RowJob) : Prop := {
  jf_op : rj_op j = op r;
  jf_width : rj_width j = Z.to_nat (rowWidth r);
  jf_active : rj_activeWidth j = Z.to_nat (activeWidth r);
  jf_stride : rj_stride j = Z.to_nat (coefficientStride r);
  jf_offset : rj_offset j = Z.to_nat (coefficientOffset r);
  jf_epsilon : rj_epsilon j = epsilon r;
  jf_input : rj_input j = inp;
  jf_coefficients : rj_coefficients j = coef;
  jf_positions : op r = Rope -> positions r = Some (rj_positions j) }.

Lemma odd_mod i : Nat.odd i = (i mod 2 =? 1)%nat.
Proof.
  pose proof (Nat.div_mod_eq i 2). pose proof (Nat.mod_upper_bound i 2).
  destruct (Nat.odd i) eqn:E.
  - apply Nat.odd_spec in E as [k E]. symmetry. apply Nat.eqb_eq. lia.
  - assert (Nat.even i = true) as E' by (rewrite <- Nat.negb_odd, E; reflexivity).
    apply Nat.even_spec in E' as [k E']. symmetry. apply Nat.eqb_neq. lia.
Qed.

(** A vector is its segments in order. *)
Lemma concat_segments w rows : forall (f : nat -> list spec_float) out,
  length out = (rows * w)%nat -> (forall k, (k < rows)%nat -> take w (drop (k * w) out) = f k) ->
  out = concat (map f (seq 0 rows)).
Proof.
  induction rows as [|rows IH]; intros f out Hl Hs; [by apply nil_length_inv in Hl|].
  cbn [seq map concat]. rewrite <- (take_drop w out) at 1. f_equal.
  - rewrite <- (Hs 0%nat) by lia. by rewrite Nat.mul_0_l, drop_0.
  - rewrite <- fmap_S_seq. change (map f (S <$> seq 0 rows)) with (map f (map S (seq 0 rows))).
    rewrite map_map. apply IH.
    + rewrite length_drop. lia.
    + intros k Hk. rewrite drop_drop. rewrite <- Hs by lia. done.
Qed.

Section request.
Context `{Libm}.
Context (g : RowConfig) (j : RowJob) (r : SFUVectorRequest) (inp coef : list spec_float).
Notation w := (rj_width j).
Notation a := (arithmetic_ g).
Hypothesis Q : row_request r inp coef.
Hypothesis F : job_for r inp coef j.

Lemma job_rows_for : Z.of_nat (job_rows j) = len inp / rowWidth r /\ (length inp = job_rows j * w)%nat /\ (0 < w)%nat.
Proof.
  destruct (rq_shape _ _ _ Q) as (_ & _ & Hw & _ & Hm). unfold job_rows. rewrite (jf_input _ _ _ _ F), (jf_width _ _ _ _ F).
  rewrite Nat2Z.inj_div, Z2Nat.id by lia. split; [done|]. split; [|lia].
  apply Nat2Z.inj. rewrite Nat2Z.inj_mul, Nat2Z.inj_div, Z2Nat.id by lia.
  pose proof (Z.div_mod (len inp) (rowWidth r) ltac:(lia)). lia.
Qed.

Lemma rope_request : op r = Rope ->
  positions r = Some (rj_positions j) /\ rope_accepts r (len inp / rowWidth r) coef (rj_positions j) = true.
Proof.
  intros Ho. pose proof (jf_positions _ _ _ _ F Ho) as Ep. split; [done|].
  pose proof (rq_operands _ _ _ Q) as Hq. unfold row_operands_ok in Hq. by rewrite Ho, Ep in Hq.
Qed.

Lemma job_for_ok : job_ok j.
Proof.
  destruct job_rows_for as (Hr & Hl & Hw). pose proof (rq_operands _ _ _ Q) as Hq.
  destruct F as [F1 F2 F3 F4 F5 F6 F7 F8 F9]. unfold row_operands_ok in Hq.
  split; rewrite ?F7, ?F8; try done; rewrite ?F1.
  - destruct (op r); try done; auto.
  - intros Ho. destruct (rope_request Ho) as [Ep Ha].
    destruct (rope_accepts_spec _ _ _ _ (rq_fields _ _ _ Q) Ep Ha) as (_ & Ha1 & Ha2 & _).
    rewrite F2, F3. split; [lia|]. apply Nat2Z.inj. rewrite Nat2Z.inj_mod, Z2Nat.id by lia. done.
  - intros Ho. rewrite Ho in Hq. boolify. rewrite F2. lia.
  - intros Ho row Hrow. destruct (rope_request Ho) as [Ep Ha].
    destruct (rope_accepts_spec _ _ _ _ (rq_fields _ _ _ Q) Ep Ha) as (Lp & Ha1 & _ & Hp).
    destruct (lookup_lt_is_Some_2 (rj_positions j) row) as [q Eq]; [lia|]. exists q. split; [done|].
    destruct (rq_fields _ _ _ Q) as (_ & _ & Hs & Hoff & Hpos). rewrite Ep in Hpos.
    pose proof (Forall_lookup_1 _ _ _ _ Hp Eq) as [T1 T2]. pose proof (Forall_lookup_1 _ _ _ _ Hpos Eq) as T3. cbn in T3.
    rewrite F3, F4, F5. apply Nat2Z.inj_le. rewrite !Nat2Z.inj_add, Nat2Z.inj_mul, !Z2Nat.id by lia. lia.
Qed.

Section row.
Context (row : nat).
Hypothesis Hrow : (row < job_rows j)%nat.

Lemma row_input_for : row_input j row = take (Z.to_nat (rowWidth r)) (drop (Z.to_nat (Z.of_nat row * rowWidth r)) inp).
Proof.
  destruct (rq_shape _ _ _ Q) as (_ & _ & Hw & _ & _).
  unfold row_input, segment. rewrite (jf_input _ _ _ _ F), (jf_width _ _ _ _ F). do 2 f_equal. lia.
Qed.

Lemma width_float : float_of_nat w = num prec32 emax32 (rowWidth r) 0.
Proof.
  destruct (rq_shape _ _ _ Q) as (_ & _ & Hw & _ & _).
  unfold float_of_nat. rewrite (jf_width _ _ _ _ F), Z2Nat.id by lia. done.
Qed.

Lemma row_output_lookup i : op r = RmsNorm -> (i < w)%nat ->
  exists x c, row_input j row !! i = Some x /\ coef !! i = Some c /\
    row_output g j row !! i = Some (to_double (vectorFp16Value (row_normalised g j row i))) /\
    at0 (row_scaled g j row) i =
      (if SFUArithmetic_fp16 a then SFUArithmetic_div a CFloat CFloat (vectorFp16Value x) (row_scale j row)
       else vectorFp16Value x) /\
    at0 (row_gamma j row) i = vectorFp16Value c.
Proof.
  intros Ho Hi. pose proof job_for_ok as J. pose proof (input_length j row J Hrow) as Li.
  pose proof (jf_op _ _ _ _ F) as Eo. rewrite Ho in Eo.
  pose proof (jk_coefficients j J Eo) as Lc. rewrite (jf_coefficients _ _ _ _ F) in Lc.
  destruct (lookup_lt_is_Some_2 (row_input j row) i) as [x Ex]; [lia|].
  destruct (lookup_lt_is_Some_2 coef i) as [c Ec]; [lia|]. exists x, c. split; [done|]. split; [done|].
  assert (Ax : at0 (row_input j row) i = x) by (unfold at0; by rewrite Ex).
  split; [|split].
  - unfold row_output. rewrite Eo, bool_decide_false by done. change (map ?f ?k) with (f <$> k).
    rewrite list_lookup_fmap, lookup_seq_lt by done. done.
  - unfold row_scaled, row_stored. case_match; rewrite at0_map, Ax by lia; done.
  - unfold row_gamma. rewrite at0_seq by done. unfold load_gamma. rewrite Eo, bool_decide_false by done. cbn [andb].
    rewrite (jf_coefficients _ _ _ _ F). unfold at0. by rewrite Ec.
Qed.

Lemma row_output_rms : op r = RmsNorm -> row_output g j row = rms_row a (tree_ g) r inp coef (Z.of_nat row).
Proof.
  intros Ho. pose proof job_for_ok as J. pose proof (input_length j row J Hrow) as Li.
  pose proof (output_length g j row J Hrow) as Lo.
  pose proof (jf_op _ _ _ _ F) as Eo. rewrite Ho in Eo.
  assert (Ec : compensated g j = SFUArithmetic_fp16 a && tree_ g)
    by (unfold compensated; rewrite Eo, bool_decide_true, andb_true_r by done; done).
  apply list_eq_same_length with w; [|done|].
  { rewrite rms_row_length; [by rewrite (jf_width _ _ _ _ F)|lia|..].
    - pose proof (rq_operands _ _ _ Q) as Hq. unfold row_operands_ok in Hq. rewrite Ho in Hq. by boolify.
    - destruct job_rows_for as (Hr & Hl & Hw). destruct (rq_shape _ _ _ Q) as (_ & _ & Hw' & _ & _).
      pose proof (Z.div_mod (len inp) (rowWidth r) ltac:(lia)). pose proof (Z.mod_pos_bound (len inp) (rowWidth r) ltac:(lia)).
      nia. }
  intros i y y' Hi Hy Hy'. destruct (row_output_lookup i Ho Hi) as (x & c & Ex & Ecc & Eout & Es & Eg).
  rewrite Eout in Hy. apply (inj Some) in Hy. subst y. unfold rms_row in Hy'. rewrite <- row_input_for, <- Ec in Hy'. cbv zeta in Hy'.
  destruct (compensated g j) eqn:Hc.
  - symmetry in Ec. apply andb_true_iff in Ec as [Hf Ht].
    unfold rms_row_compensated in Hy'. cbv zeta in Hy'. rewrite lookup_zip_with, Ex, Ecc in Hy'. apply (inj Some) in Hy'. subst y'.
    f_equal. unfold row_normalised, row_normal, row_root, row_variance, row_mean, row_total, row_epsilon.
    rewrite !Hc, normGamma_stored, Hf, Es, Eg, Hf, width_float, (jf_epsilon _ _ _ _ F) by done.
    assert (row_pairs g j row = map (fun x => normSquare a (SFUArithmetic_div a CFloat CFloat (vectorFp16Value x)
              (rms_scale (row_input j row)))) (row_input j row)) as ->
      by (unfold row_pairs, row_scaled; rewrite Hf, map_map; done).
    rewrite length_map, Li. done.
  - unfold rms_row_plain in Hy'. cbv zeta in Hy'. rewrite lookup_zip_with, Ex, Ecc in Hy'. apply (inj Some) in Hy'. subst y'.
    do 2 f_equal. unfold row_normalised, row_normal, row_root, row_variance, row_mean, row_total, row_epsilon.
    rewrite !Hc, Es, Eg, width_float, (jf_epsilon _ _ _ _ F). cbn [hi].
    assert (row_squares g j row = map (fun x => let s := (if SFUArithmetic_fp16 a
              then SFUArithmetic_div a CFloat CFloat (vectorFp16Value x) (rms_scale (row_input j row))
              else vectorFp16Value x) in SFUArithmetic_mul a CFloat CFloat s s) (row_input j row)) as Esq
      by (unfold row_squares, row_scaled, row_stored; case_match; rewrite map_map; done).
    destruct (SFUArithmetic_fp16 a) eqn:Hf; rewrite Esq, length_map, Li; destruct (tree_ g); done.
Qed.

(** A lane of a rotated row is the reference's lane. *)
Lemma row_output_rope i : op r = Rope -> (i < w)%nat ->
  at0 (row_output g j row) i = rope_value a r inp coef (rj_positions j) (Z.of_nat (row * w + i)).
Proof.
  intros Ho Hi. pose proof job_for_ok as J. pose proof (input_length j row J Hrow) as Li.
  pose proof (jf_op _ _ _ _ F) as Eo. rewrite Ho in Eo. destruct (jk_active j J Eo) as [Ha He].
  destruct (jk_positions j J Eo row Hrow) as (q & Eq & Hq).
  destruct (rq_shape _ _ _ Q) as (_ & _ & Hw & _ & _). destruct job_rows_for as (Hr & Hl & _).
  destruct (rq_fields _ _ _ Q) as (_ & Haf & Hsf & Hof & _).
  pose proof (jf_width _ _ _ _ F) as Ew.
  unfold rope_value. rewrite Nat2Z.inj_add, Nat2Z.inj_mul, Ew, Z2Nat.id by lia.
  replace (Z.of_nat row * rowWidth r + Z.of_nat i) with (Z.of_nat i + Z.of_nat row * rowWidth r) by lia.
  rewrite Z.div_add, Z.mod_add, Z.div_small, Z.mod_small, Z.add_0_l, Nat2Z.id, Eq by lia. cbn [default].
  assert (Ex : forall k, (k < w)%nat -> at0 (row_input j row) k = at_ inp (Z.of_nat row * rowWidth r + Z.of_nat k)).
  { intros k Hk. unfold row_input, segment, at0, at_. rewrite lookup_take_lt, lookup_drop, (jf_input _ _ _ _ F) by done.
    change f_zero32 with (S754_zero false). do 2 f_equal. lia. }
  pose proof (jf_active _ _ _ _ F) as Ea.
  unfold row_output. rewrite Eo, bool_decide_true by done.
  destruct (Z.ltb_spec (Z.of_nat i) (activeWidth r)) as [Hlt|Hge].
  2:{ rewrite at0_overwrite by lia. rewrite Ex by done. f_equal. lia. }
  rewrite at0_overwritten by lia.
  assert (Es : forall k, (k < w)%nat -> at0 (row_stored j row) k = vectorFp16Value (at_ inp (Z.of_nat row * rowWidth r + Z.of_nat k))).
  { intros k Hk. unfold row_stored. rewrite at0_map, Ex by lia. done. }
  assert (Eg : forall k, (k < rj_activeWidth j)%nat -> at0 (row_gamma j row) k =
    vectorFp16Value (at_ coef (q * coefficientStride r + coefficientOffset r + Z.of_nat k))).
  { intros k Hk. unfold row_gamma. rewrite at0_seq by lia. unfold load_gamma.
    rewrite Eo, bool_decide_true by done. cbn [andb]. rewrite (proj2 (Nat.leb_gt _ _)), Eq by lia. cbn [default].
    f_equal. rewrite (jf_coefficients _ _ _ _ F), (jf_stride _ _ _ _ F), (jf_offset _ _ _ _ F).
    unfold at0, at_. change f_zero32 with (S754_zero false). do 2 f_equal.
    destruct (rope_request Ho) as [Ep Hacc]. destruct (rq_fields _ _ _ Q) as (_ & _ & _ & _ & Hpos).
    rewrite Ep in Hpos. pose proof (Forall_lookup_1 _ _ _ _ Hpos Eq) as T3. cbn in T3.
    assert (0 <= q * coefficientStride r) by (apply Z.mul_nonneg_nonneg; lia).
    apply Nat2Z.inj. rewrite !Nat2Z.inj_add, Nat2Z.inj_mul. change (id q) with q. rewrite !Z2Nat.id by lia. lia. }
  unfold rope_lane. cbv zeta. f_equal. f_equal. unfold rope_merged, rope_left, rope_right.
  set (p := (i - i mod 2)%nat).
  assert (Hp : (p + 1 < rj_activeWidth j)%nat /\ 2 * (Z.of_nat i / 2) = Z.of_nat p /\
               (if Nat.odd i then i = p + 1 else i = p)%nat /\ Nat.odd i = negb (Z.even (Z.of_nat i))).
  { pose proof (Nat.div_mod_eq i 2). pose proof (Nat.mod_upper_bound i 2).
    pose proof (Nat.div_mod_eq (rj_activeWidth j) 2).
    assert (Z.of_nat i / 2 = Z.of_nat (i / 2)) as -> by (rewrite Nat2Z.inj_div; done).
    rewrite odd_mod.
    pose proof (Zmod_even (Z.of_nat i)) as Zm. change 2 with (Z.of_nat 2) in Zm at 1.
    rewrite <- Nat2Z.inj_mod in Zm.
    unfold p. destruct (Nat.eqb_spec (i mod 2) 1), (Z.even (Z.of_nat i)); repeat split; try lia; done. }
  destruct Hp as (Hp1 & Hp2 & Hp3 & Hp4). rewrite Hp2. rewrite Hp4 in *.
  assert (Es0 := Es p ltac:(lia)). assert (Es1 := Es (p + 1)%nat ltac:(lia)).
  assert (Eg0 := Eg p ltac:(lia)). assert (Eg1 := Eg (p + 1)%nat ltac:(lia)).
  rewrite Nat2Z.inj_add, Z.add_assoc in Es1, Eg1. change (Z.of_nat 1) with 1 in Es1, Eg1.
  rewrite Es0, Es1. clear Es Eg. clearbody p.
  destruct (Z.even (Z.of_nat i)); cbn [negb] in *.
  - subst i. by rewrite Eg0, Eg1.
  - subst i. rewrite Nat.add_sub. by rewrite Eg0, Eg1.
Qed.
End row.

(** The reference returns the rows of the job in order. *)
Lemma evaluate_rows :
  evaluateSFUVectorOp a r true (tree_ g) = Ok (Some (concat (map (row_output g j) (seq 0 (job_rows j))))).
Proof.
  pose proof job_for_ok as J. destruct job_rows_for as (Hr & Hl & Hw).
  destruct (jk_op j J) as [Eo|Eo]; rewrite (jf_op _ _ _ _ F) in Eo.
  - destruct (rope_request Eo) as [Ep Ha].
    destruct (rope_result a r inp coef (rj_positions j) (tree_ g)) as (out & E & Lo & Hv);
      try done; [apply (rq_shape _ _ _ Q)|apply (rq_fields _ _ _ Q)|].
    rewrite E. do 3 f_equal. apply (concat_segments w); [lia|]. intros k Hk.
    apply list_eq. intros i. destruct (Nat.lt_ge_cases i w) as [Hi|Hi].
    + rewrite lookup_take_lt, lookup_drop by done.
      pose proof (row_output_rope k Hk i Eo Hi) as Er. rewrite <- Hv in Er by nia.
      unfold at0, at_ in Er. rewrite Nat2Z.id in Er.
      destruct (lookup_lt_is_Some_2 out (k * w + i)) as [y Ey]; [nia|].
      destruct (lookup_lt_is_Some_2 (row_output g j k) i) as [z Ez]; [by rewrite output_length|].
      rewrite Ey, Ez in *. cbn in Er. by rewrite Er.
    + rewrite lookup_take_ge by done. by rewrite lookup_ge_None_2 by (by rewrite output_length).
  - rewrite (evaluate_shape a r inp coef (tree_ g) (rq_shape _ _ _ Q)), Eo.
    pose proof (rq_operands _ _ _ Q) as Hq. unfold row_operands_ok in Hq. rewrite Eo in Hq. boolify.
    rewrite (proj2 (Z.eqb_eq _ _)) by done.
    repeat match goal with E : ?b = true |- context [?b] => rewrite E | E : ?b = false |- context [?b] => rewrite E end. cbn [negb orb].
    rewrite <- Hr, Nat2Z.id. do 3 f_equal. apply map_ext_in. intros k [_ Hk]%in_seq. symmetry.
    apply row_output_rms; done || lia.
Qed.
End request.
