(* ===== verification/RowBeats.v ===== *)
(** * The beats of a row as queues ([sfu/row_pipeline.h])

    Within a phase the beats of a row overtake one another at no port: those at the same
    place are issued in order, and their tokens complete in order because the place
    determines the resource and with it the latency.  [queue_ok] states that about the
    beats of a row and its tokens in flight; the lemmas below preserve it when a beat is
    allocated, issued, moved on and released. *)

From Stdlib Require Import ZArith Lia.
From stdpp Require Import base numbers list sorting.
From S2P Require Import Prelude RowPipeline.

(** ** Sorted association lists *)

Section sorted_lists.
Context {A : Type}.

Lemma ss_app (R : A -> A -> Prop) l1 l2 :
  StronglySorted R l1 -> StronglySorted R l2 -> (forall x y, x ∈ l1 -> y ∈ l2 -> R x y) -> StronglySorted R (l1 ++ l2).
Proof.
  intros H1 H2. induction H1 as [|x l1 H1 IH Hf]; intros Hx; [done|]. cbn [app]. constructor.
  - apply IH. intros y z Hy Hz. apply Hx; [by right|done].
  - apply Forall_app. split; [done|]. apply Forall_forall. intros y Hy. apply Hx; [left|done].
Qed.

Lemma ss_drop_middle (R : A -> A -> Prop) l1 x l2 : StronglySorted R (l1 ++ x :: l2) -> StronglySorted R (l1 ++ l2).
Proof.
  intros Hs. apply ss_app; [by eapply StronglySorted_app_1_l|..].
  - apply StronglySorted_app_1_r, StronglySorted_inv in Hs as [Hs _]. done.
  - intros y z Hy Hz. eapply StronglySorted_app_1_elem_of; [exact Hs|done|by right].
Qed.

Lemma ss_replace (R : A -> A -> Prop) l1 x y l2 :
  StronglySorted R (l1 ++ x :: l2) -> (forall z, z ∈ l1 -> R z y) -> (forall z, z ∈ l2 -> R y z) ->
  StronglySorted R (l1 ++ y :: l2).
Proof.
  intros Hs H1 H2. apply ss_app; [by eapply StronglySorted_app_1_l|..].
  - pose proof (StronglySorted_app_1_r _ _ _ Hs) as Hr. apply StronglySorted_inv in Hr as [Hr _].
    constructor; [done|]. by apply Forall_forall.
  - intros z u Hz [->|Hu]%elem_of_cons; [by apply H1|].
    eapply StronglySorted_app_1_elem_of; [exact Hs|done|by right].
Qed.
Lemma ss_middle (R : A -> A -> Prop) l1 x l2 :
  StronglySorted R (l1 ++ x :: l2) -> (forall z, z ∈ l1 -> R z x) /\ (forall z, z ∈ l2 -> R x z).
Proof.
  intros Hs. split; intros z Hz.
  - eapply StronglySorted_app_1_elem_of; [exact Hs|done|left].
  - apply StronglySorted_app_1_r, StronglySorted_inv in Hs as [_ Hf]. rewrite Forall_forall in Hf. by apply Hf.
Qed.
End sorted_lists.

Section keyed.
Context {V : Type}.
Implicit Types (m : list (Z * V)).
Notation by_key := (fun x y : Z * V => x.1 < y.1).

Lemma keys_before k v l1 l2 : StronglySorted by_key (l1 ++ (k, v) :: l2) -> Forall (fun kv => kv.1 <> k) l1.
Proof.
  intros Hs. apply Forall_forall. intros [k' v'] Hin.
  pose proof (proj1 (ss_middle _ _ _ _ Hs) _ Hin). cbn in *. lia.
Qed.

Lemma map_at_middle k v l1 l2 : StronglySorted by_key (l1 ++ (k, v) :: l2) -> map_at k (l1 ++ (k, v) :: l2) = Some v.
Proof.
  intros Hs. rewrite map_at_app, map_at_None by (by eapply keys_before). cbn [map_at]. by rewrite Z.eqb_refl.
Qed.

Lemma map_set_middle k v v' l1 l2 :
  StronglySorted by_key (l1 ++ (k, v) :: l2) -> map_set k v' (l1 ++ (k, v) :: l2) = l1 ++ (k, v') :: l2.
Proof.
  intros Hs%keys_before. induction Hs as [|[k' u] l1 Hk _ IH]; cbn [app map_set].
  - by rewrite Z.eqb_refl.
  - cbn in Hk. rewrite (proj2 (Z.eqb_neq k k')) by done. by rewrite IH.
Qed.

Lemma map_erase_middle k v l1 l2 :
  StronglySorted by_key (l1 ++ (k, v) :: l2) -> map_erase k (l1 ++ (k, v) :: l2) = l1 ++ l2.
Proof.
  intros Hs%keys_before. induction Hs as [|[k' u] l1 Hk _ IH]; cbn [app map_erase].
  - by rewrite Z.eqb_refl.
  - cbn in Hk. rewrite (proj2 (Z.eqb_neq k k')) by done. by rewrite IH.
Qed.

Lemma keys_inj m k v v' : StronglySorted by_key m -> (k, v) ∈ m -> (k, v') ∈ m -> v = v'.
Proof.
  intros Hs (l1 & l2 & ->)%list_elem_of_split [H2|[H2|H2]%elem_of_cons]%elem_of_app.
  - pose proof (proj1 (ss_middle _ _ _ _ Hs) _ H2). cbn in *. lia.
  - by injection H2 as ->.
  - pose proof (proj2 (ss_middle _ _ _ _ Hs) _ H2). cbn in *. lia.
Qed.

Lemma sorted_map_at m k v : StronglySorted by_key m -> (k, v) ∈ m -> map_at k m = Some v.
Proof. intros Hs (l1 & l2 & ->)%list_elem_of_split. by apply map_at_middle. Qed.

(** Where [multimap.emplace] puts an element. *)
Lemma multimap_emplace_split k v m :
  StronglySorted (fun x y : Z * V => x.1 <= y.1) m ->
  exists l1 l2, m = l1 ++ l2 /\ multimap_emplace k v m = l1 ++ (k, v) :: l2 /\
    Forall (fun kv => kv.1 <= k) l1 /\ Forall (fun kv => k < kv.1) l2.
Proof.
  intros Hs. induction Hs as [|[k' v'] m Hs (l1 & l2 & -> & E & F1 & F2) Hf]; [by exists [], []|].
  cbn [multimap_emplace]. destruct (Z.ltb_spec k k') as [Hk|Hk].
  - exists [], ((k', v') :: l1 ++ l2). split; [done|]. split; [done|]. split; [done|].
    constructor; [done|]. eapply Forall_impl; [exact Hf|]. intros [k2 v2]. cbn. lia.
  - exists ((k', v') :: l1), l2. split; [done|]. split; [by rewrite E|]. split; [|done].
    by constructor.
Qed.

Lemma multimap_emplace_sorted k v m :
  StronglySorted (fun x y : Z * V => x.1 <= y.1) m ->
  StronglySorted (fun x y : Z * V => x.1 <= y.1) (multimap_emplace k v m).
Proof.
  intros Hs. destruct (multimap_emplace_split k v m Hs) as (l1 & l2 & -> & -> & F1 & F2).
  rewrite Forall_forall in F1, F2. apply ss_app; [by eapply StronglySorted_app_1_l|..].
  - constructor; [by eapply StronglySorted_app_1_r|]. apply Forall_forall. intros x Hx.
    specialize (F2 x Hx). cbn. lia.
  - intros x y Hx [->|Hy]%elem_of_cons; [by apply F1|]. specialize (F1 x Hx). specialize (F2 y Hy). cbn in *. lia.
Qed.

(** Filtering by the value commutes with [multimap.emplace]. *)
Lemma filter_multimap_emplace (P : Z * V -> Prop) `{forall x, Decision (P x)} k v m :
  StronglySorted (fun x y : Z * V => x.1 <= y.1) m ->
  filter P (multimap_emplace k v m) =
  if decide (P (k, v)) then multimap_emplace k v (filter P m) else filter P m.
Proof.
  intros Hs. induction Hs as [|[k' v'] m Hs IH Hf].
  - cbn [multimap_emplace]. rewrite filter_cons, filter_nil. by case_decide.
  - cbn [multimap_emplace]. destruct (Z.ltb_spec k k') as [Hk|Hk].
    + rewrite filter_cons. case_decide as HP; [|done].
      assert (Forall (fun kv => k < kv.1) (filter P ((k', v') :: m))) as Hlt.
      { apply Forall_forall. intros x [_ Hx]%list_elem_of_filter. apply elem_of_cons in Hx as [->|Hx]; [done|].
        rewrite Forall_forall in Hf. specialize (Hf x Hx). cbn in *. lia. }
      destruct (filter P ((k', v') :: m)) as [|[k2 v2] rest]; [done|]. apply Forall_cons in Hlt as [Hlt _]. cbn in Hlt.
      cbn [multimap_emplace]. by rewrite (proj2 (Z.ltb_lt k k2)).
    + rewrite !filter_cons. case_decide as HP'.
      * rewrite IH. case_decide; [|done]. cbn [multimap_emplace]. by rewrite (proj2 (Z.ltb_ge k k')).
      * rewrite IH. done.
Qed.
End keyed.

(** ** Tables *)

Section tables.
Context {V : Type}.
Implicit Types (m : list (Z * V)).
Notation by_key := (fun x y : Z * V => x.1 < y.1).

Lemma map_set_set k v v' m : map_set k v (map_set k v' m) = map_set k v m.
Proof.
  induction m as [|[k' u] m IH]; [done|]. cbn [map_set]. destruct (Z.eqb_spec k k') as [->|Hne]; cbn [map_set].
  - by rewrite Z.eqb_refl.
  - rewrite (proj2 (Z.eqb_neq k k')) by done. by rewrite IH.
Qed.
Lemma map_erase_set k v m : map_erase k (map_set k v m) = map_erase k m.
Proof.
  induction m as [|[k' u] m IH]; [done|]. cbn [map_set map_erase]. destruct (Z.eqb_spec k k') as [->|Hne]; cbn [map_erase].
  - by rewrite Z.eqb_refl.
  - rewrite (proj2 (Z.eqb_neq k k')) by done. by rewrite IH.
Qed.
Lemma map_set_same k v m : map_at k m = Some v -> map_set k v m = m.
Proof.
  induction m as [|[k' u] m IH]; [done|]. cbn [map_at map_set]. destruct (Z.eqb_spec k k') as [->|Hne].
  - by intros [= ->].
  - intros E. by rewrite IH.
Qed.

Lemma keys_sorted_set k v m : StronglySorted by_key m -> StronglySorted by_key (map_set k v m).
Proof.
  induction 1 as [|[k' u] m Hs IH Hf]; [constructor|]. cbn [map_set].
  destruct (Z.eqb_spec k k') as [->|Hne]; constructor; try done.
  apply map_set_Forall_keys. exact Hf.
Qed.
Lemma keys_sorted_erase k m : StronglySorted by_key m -> StronglySorted by_key (map_erase k m).
Proof.
  induction 1 as [|[k' u] m Hs IH Hf]; [constructor|]. cbn [map_erase].
  destruct (Z.eqb_spec k k') as [->|Hne]; [done|]. constructor; [done|].
  apply Forall_forall. intros [k2 v2] Hin%map_erase_elem. rewrite Forall_forall in Hf. by apply (Hf _ Hin).
Qed.
Lemma keys_sorted_last k v m :
  StronglySorted by_key m -> Forall (fun kv => kv.1 < k) m -> StronglySorted by_key (m ++ [(k, v)]).
Proof.
  intros Hs Hf. rewrite Forall_forall in Hf. apply ss_app; [done|repeat constructor|].
  intros x y Hx ->%list_elem_of_singleton. by apply Hf.
Qed.
Lemma sorted_nodup m : StronglySorted by_key m -> NoDup (map fst m).
Proof.
  induction 1 as [|[k v] m Hs IH Hf]; cbn; constructor; [|done]. intros Hin%list_elem_of_In.
  apply in_map_iff in Hin as ([k' v'] & E & Hin). cbn in E. subst k'. apply list_elem_of_In in Hin.
  rewrite Forall_forall in Hf. specialize (Hf _ Hin). cbn in Hf. lia.
Qed.

Lemma map_at_erased k k' m : StronglySorted by_key m -> map_at k' (map_erase k m) = if k' =? k then None else map_at k' m.
Proof.
  intros Hs. destruct (Z.eqb_spec k' k) as [->|Hne]; [by apply map_at_erase_eq, sorted_nodup|by apply map_at_erase_ne].
Qed.
Lemma map_at_set k k' v v0 m : map_at k m = Some v0 -> map_at k' (map_set k v m) = if k' =? k then Some v else map_at k' m.
Proof.
  intros E. destruct (Z.eqb_spec k' k) as [->|Hne]; [by eapply map_at_set_eq|by apply map_at_set_ne].
Qed.
Lemma map_at_last k k' v m :
  Forall (fun kv => kv.1 < k) m -> map_at k' (m ++ [(k, v)]) = if k' =? k then Some v else map_at k' m.
Proof.
  intros Hf. rewrite map_at_app. cbn [map_at]. destruct (Z.eqb_spec k' k) as [->|Hne].
  - rewrite map_at_None; [done|]. eapply Forall_impl; [exact Hf|]. intros x Hx. cbn in Hx. lia.
  - by destruct (map_at k' m).
Qed.
Lemma map_at_key k v m (P : Z -> Prop) : Forall (fun kv => P kv.1) m -> map_at k m = Some v -> P k.
Proof. intros Hf Hin%map_at_elem. rewrite Forall_forall in Hf. by apply (Hf _ Hin). Qed.
Lemma map_erase_Forall_keys (P : Z -> Prop) k m : Forall (fun kv => P kv.1) m -> Forall (fun kv => P kv.1) (map_erase k m).
Proof.
  intros Hf. apply Forall_forall. intros [k2 v2] Hin%map_erase_elem. rewrite Forall_forall in Hf. by apply (Hf _ Hin).
Qed.

(** Counting the values with a property. *)
Definition count_values (P : V -> bool) m : nat := length (filter (fun kv => P kv.2 = true) m).

Lemma count_values_app P m m' : count_values P (m ++ m') = (count_values P m + count_values P m')%nat.
Proof. unfold count_values. by rewrite filter_app, length_app. Qed.
Lemma count_values_cons P k v m : count_values P ((k, v) :: m) = ((if P v then 1 else 0) + count_values P m)%nat.
Proof. unfold count_values. rewrite filter_cons. cbn. destruct (P v); by case_decide. Qed.
Lemma count_values_set P k v v0 m : map_at k m = Some v0 -> P v = P v0 -> count_values P (map_set k v m) = count_values P m.
Proof.
  intros E Hp. induction m as [|[k' u] m IH]; [done|]. cbn [map_at map_set] in *. destruct (k =? k').
  - injection E as ->. by rewrite !count_values_cons, Hp.
  - by rewrite !count_values_cons, IH.
Qed.
Lemma count_values_erase P k v m :
  map_at k m = Some v -> count_values P m = ((if P v then 1 else 0) + count_values P (map_erase k m))%nat.
Proof.
  intros E. induction m as [|[k' u] m IH]; [done|]. cbn [map_at map_erase] in *. destruct (k =? k').
  - injection E as ->. by rewrite count_values_cons.
  - rewrite !count_values_cons, IH by done. lia.
Qed.
End tables.

(** ** Beats and their tokens *)

(** How far a beat has come: read, then one place per micro-operation, then write. *)
Definition rank (b : Beat) : nat :=
  match b_port b with PortRead => 0 | PortCompute => S (b_micro b) | PortWrite => 20 end.

Notation beat_before := (fun x y : Z * Beat => x.1 < y.1).
Notation token_before := (fun x y : Z * RowToken => x.1 <= y.1).
Definition token_beats (ts : list (Z * RowToken)) : list Z := map (fun kt => tk_beat kt.2) ts.

(** Every token holds given the beats whose tokens come before it. *)
Fixpoint in_order (P : list Z -> Z * RowToken -> Prop) (seen : list Z) (ts : list (Z * RowToken)) : Prop :=
  match ts with
  | [] => True
  | kt :: ts' => P seen kt /\ in_order P (tk_beat kt.2 :: seen) ts'
  end.

Lemma in_order_mono (P Q : list Z -> Z * RowToken -> Prop) ts : forall seen seen',
  (forall s s' kt, kt ∈ ts -> s ⊆ s' -> P s kt -> Q s' kt) -> seen ⊆ seen' -> in_order P seen ts -> in_order Q seen' ts.
Proof.
  induction ts as [|kt ts IH]; intros seen seen' Hpq Hs; [done|]. intros [Hp Ho]. split.
  - eapply Hpq; [left|exact Hs|exact Hp].
  - eapply IH; [|by apply list_subseteq_skip|exact Ho]. intros s s' x Hx. apply Hpq. by right.
Qed.

(** The same when the beat [id] may be forgotten. *)
Lemma in_order_forget (P Q : list Z -> Z * RowToken -> Prop) id ts : forall seen seen',
  (forall s s' kt, kt ∈ ts -> (forall x, x ∈ s -> x <> id -> x ∈ s') -> P s kt -> Q s' kt) ->
  (forall x, x ∈ seen -> x <> id -> x ∈ seen') -> in_order P seen ts -> in_order Q seen' ts.
Proof.
  induction ts as [|kt ts IH]; intros seen seen' Hpq Hs; [done|]. intros [Hp Ho]. split.
  - eapply Hpq; [left|exact Hs|exact Hp].
  - eapply IH; [|clear IH|exact Ho]; [intros s s' x Hx; apply Hpq; by right|].
    intros x [->|Hx]%elem_of_cons Hne; [left|right; by apply Hs].
Qed.

Lemma in_order_app (P : list Z -> Z * RowToken -> Prop) l1 l2 : forall seen,
  in_order P seen (l1 ++ l2) <-> in_order P seen l1 /\ in_order P (rev (token_beats l1) ++ seen) l2.
Proof.
  induction l1 as [|kt l1 IH]; intros seen; cbn; [tauto|].
  rewrite IH, <- app_assoc. cbn. tauto.
Qed.

(** A token refers to a busy beat at its port, completes within the latency of its place
    and after the tokens of the earlier beats of the same place.  [lat r] is the latency
    of the resource of place [r], [last] the last cycle of a step. *)
Definition token_ok (lat : nat -> Z) (last : Z) (bs : list (Z * Beat)) (seen : list Z) (kt : Z * RowToken) : Prop :=
  exists b, (tk_beat kt.2, b) ∈ bs /\ b_busy b = true /\ b_port b = tk_port kt.2 /\ kt.1 <= last + lat (rank b) /\
    forall id' b', (id', b') ∈ bs -> id' < tk_beat kt.2 -> rank b' = rank b -> id' ∈ seen.

Record queue_ok (lat : nat -> Z) (last : Z) (bs : list (Z * Beat)) (ts : list (Z * RowToken)) : Prop := {
  qo_keys : StronglySorted beat_before bs;
  qo_rank : StronglySorted (fun x y : Z * Beat => (rank y.2 <= rank x.2)%nat) bs;
  qo_sorted : StronglySorted token_before ts;
  qo_nodup : NoDup (token_beats ts);
  qo_busy : forall id b, (id, b) ∈ bs -> b_busy b = true -> id ∈ token_beats ts;
  qo_token : in_order (token_ok lat last bs) [] ts }.

Section queue.
Context (lat : nat -> Z).

Lemma queue_nil last : queue_ok lat last [] [].
Proof. split; try constructor. by intros ? ? ?%elem_of_nil. Qed.

Lemma token_ok_later last last' bs s s' kt :
  last <= last' -> s ⊆ s' -> token_ok lat last bs s kt -> token_ok lat last' bs s' kt.
Proof.
  intros Hl Hs (b & H1 & H2 & H3 & H4 & H5). exists b. repeat (split; [done|]). split; [lia|].
  intros id' b' Hin Hlt He. apply Hs. by eapply H5.
Qed.

Lemma queue_later last last' bs ts : queue_ok lat last bs ts -> last <= last' -> queue_ok lat last' bs ts.
Proof.
  intros [Q1 Q2 Q3 Q4 Q5 Q6] Hl. split; try done.
  eapply in_order_mono; [|done|exact Q6]. intros s s' kt _ Hs. by apply token_ok_later.
Qed.

Lemma token_beats_in ts id : id ∈ token_beats ts -> exists kt, kt ∈ ts /\ tk_beat kt.2 = id.
Proof.
  unfold token_beats. intros Hin%list_elem_of_In. apply in_map_iff in Hin as (kt & E & Hin).
  exists kt. split; [by apply list_elem_of_In|done].
Qed.
Lemma in_token_beats ts kt : kt ∈ ts -> tk_beat kt.2 ∈ token_beats ts.
Proof.
  intros Hin. unfold token_beats. apply list_elem_of_In, in_map_iff. exists kt. split; [done|by apply list_elem_of_In].
Qed.

Lemma in_order_elem (P : list Z -> Z * RowToken -> Prop) ts kt : forall seen,
  in_order P seen ts -> kt ∈ ts -> exists s, P s kt.
Proof.
  induction ts as [|x ts IH]; intros seen; [by intros _ ?%elem_of_nil|].
  intros [Hp Ho] [->|Hin]%elem_of_cons; [eauto|by eapply IH].
Qed.

(** The token of a beat refers to that beat. *)
Lemma token_beat last bs ts kt b :
  queue_ok lat last bs ts -> kt ∈ ts -> (tk_beat kt.2, b) ∈ bs -> b_busy b = true /\ kt.1 <= last + lat (rank b).
Proof.
  intros Q Hin Hb. destruct (in_order_elem _ _ _ _ (qo_token _ _ _ _ Q) Hin) as (s & b' & H1 & H2 & H3 & H4 & _).
  assert (b = b') as -> by (by eapply keys_inj; [apply Q|..]). done.
Qed.

(** A new beat goes to the back, at the first place. *)
Lemma queue_allocate last bs ts id b :
  queue_ok lat last bs ts -> Forall (fun kb => kb.1 < id) bs -> b_busy b = false ->
  Forall (fun kb => (rank b <= rank kb.2)%nat) bs -> queue_ok lat last (bs ++ [(id, b)]) ts.
Proof.
  intros [Q1 Q2 Q3 Q4 Q5 Q6] Hid Hb Hr. rewrite Forall_forall in Hid, Hr. split; try done.
  - apply ss_app; [done|repeat constructor|]. intros x y Hx ->%list_elem_of_singleton. by apply Hid.
  - apply ss_app; [done|repeat constructor|]. intros x y Hx ->%list_elem_of_singleton. by apply Hr.
  - intros id' b' [Hin|[= -> ->]%list_elem_of_singleton]%elem_of_app Hbusy; [by eapply Q5|congruence].
  - eapply in_order_mono; [|done|exact Q6]. intros s s' kt _ Hs (b0 & H1 & H2 & H3 & H4 & H5). exists b0.
    split; [apply elem_of_app; by left|]. repeat (split; [done|]).
    intros id' b' [Hin|[= -> ->]%list_elem_of_singleton]%elem_of_app Hlt He; [apply Hs; by eapply H5|].
    specialize (Hid _ H1). cbn in Hid. lia.
Qed.

Lemma elem_middle {A} (x y : A) l1 l2 : x ∈ l1 ++ y :: l2 <-> x = y \/ x ∈ l1 ++ l2.
Proof. rewrite !elem_of_app, elem_of_cons. tauto. Qed.

(** The first idle beat of a place is issued: its token completes after those ahead. *)
Lemma queue_issue last now pre id b post ts t :
  queue_ok lat last (pre ++ (id, b) :: post) ts -> last <= now -> b_busy b = false ->
  Forall (fun kb => rank kb.2 = rank b -> b_busy kb.2 = true) pre ->
  tk_beat t = id -> tk_port t = b_port b ->
  queue_ok lat now (pre ++ (id, beat_start b) :: post) (multimap_emplace (now + lat (rank b)) t ts).
Proof.
  intros Q Hn Hb Hpre Et Ep. pose proof Q as [Q1 Q2 Q3 Q4 Q5 Q6].
  rewrite Forall_forall in Hpre.
  assert (Hfresh : id ∉ token_beats ts).
  { intros (kt & Hin & E')%token_beats_in.
    destruct (token_beat _ _ _ kt b Q Hin) as [Hbusy _]; [|congruence].
    rewrite E'. apply elem_middle. by left. }
  destruct (multimap_emplace_split (now + lat (rank b)) t ts Q3) as (l1 & l2 & E & E' & F1 & F2).
  split.
  - eapply ss_replace; [exact Q1|..]; intros z Hz; by apply (ss_middle _ _ _ _ Q1).
  - eapply ss_replace; [exact Q2|..]; intros z Hz; by apply (ss_middle _ _ _ _ Q2).
  - by apply multimap_emplace_sorted.
  - unfold token_beats. rewrite multimap_emplace_perm. cbn [map snd]. rewrite Et. by constructor.
  - intros id' b' Hin Hbusy. unfold token_beats. rewrite multimap_emplace_perm. cbn [map snd]. rewrite Et.
    apply elem_middle in Hin as [[= -> _]|Hin]; [left|right]. apply (Q5 id' b'); [|done]. apply elem_middle. by right.
  - assert (Hold : forall s s' kt, kt ∈ ts -> s ⊆ s' -> token_ok lat last (pre ++ (id, b) :: post) s kt ->
      token_ok lat now (pre ++ (id, beat_start b) :: post) s' kt).
    { intros s s' kt Hin Hs (b0 & H1 & H2 & H3 & H4 & H5). exists b0.
      split; [apply elem_middle; right; apply elem_middle in H1 as [[= -> ->]|H1]; [congruence|done]|].
      repeat (split; [done|]). split; [lia|]. intros id' b' Hin' Hlt He. apply Hs.
      apply elem_middle in Hin' as [[= -> ->]|Hin']; [apply (H5 id b)|apply (H5 id' b')]; try done;
        apply elem_middle; [by left|by right]. }
    rewrite E', E in *. apply in_order_app in Q6 as [O1 O2]. apply in_order_app. split.
    + eapply in_order_mono; [|done|exact O1]. intros s s' kt Hin. apply Hold. apply elem_of_app. by left.
    + split.
      * exists (beat_start b). split; [cbn [snd]; rewrite Et; apply elem_middle; by left|]. split; [done|].
        split; [done|]. split; [change (rank (beat_start b)) with (rank b); cbn [fst]; lia|]. intros id' b' Hin Hlt He. cbn [snd] in Hlt. rewrite Et in Hlt.
        change (rank (beat_start b)) with (rank b) in He.
        assert ((id', b') ∈ pre) as Hin'.
        { apply elem_of_app in Hin as [Hin|[[= -> ->]|Hin]%elem_of_cons]; [done|lia|].
          pose proof (proj2 (ss_middle _ _ _ _ Q1) _ Hin). cbn in *. lia. }
        assert (b_busy b' = true) as Hbusy by (by apply (Hpre _ Hin')).
        assert (Hin2 : (id', b') ∈ pre ++ (id, b) :: post) by (apply elem_of_app; by left).
        pose proof (Q5 id' b' Hin2 Hbusy) as Ht. rewrite app_nil_r. apply list_elem_of_In. apply -> in_rev. apply list_elem_of_In.
        unfold token_beats in Ht. rewrite map_app in Ht. apply elem_of_app in Ht as [Ht|Ht]; [done|].
        fold (token_beats l2) in Ht. apply token_beats_in in Ht as (kt & Hkt & Ekt).
        destruct (token_beat _ _ _ kt b' Q) as [_ Hd]; [apply elem_of_app; by right|by rewrite Ekt|].
        rewrite Forall_forall in F2. specialize (F2 _ Hkt). rewrite He in Hd. lia.
      * eapply in_order_mono; [|by apply list_subseteq_cons|exact O2]. intros s s' kt Hin. apply Hold.
        apply elem_of_app. by right.
Qed.

(** The head token completes the first beat of its place; the beat moves on, or leaves. *)
Lemma queue_head last bs kt ts :
  queue_ok lat last bs (kt :: ts) -> exists pre b post, bs = pre ++ (tk_beat kt.2, b) :: post /\
    b_busy b = true /\ b_port b = tk_port kt.2 /\ Forall (fun kb => (rank b < rank kb.2)%nat) pre.
Proof.
  intros [Q1 Q2 Q3 Q4 Q5 Q6]. destruct Q6 as [(b & H1 & H2 & H3 & H4 & H5) _].
  apply list_elem_of_split in H1 as (pre & post & ->). exists pre, b, post.
  repeat (split; [done|]). apply Forall_forall. intros [id' b'] Hin.
  pose proof (proj1 (ss_middle _ _ _ _ Q1) _ Hin) as Hk. pose proof (proj1 (ss_middle _ _ _ _ Q2) _ Hin) as Hr.
  cbn in *. destruct (decide (rank b' = rank b)) as [He|]; [|lia].
  assert (id' ∈ @nil Z) as []%elem_of_nil. apply (H5 id' b'); [|done..]. apply elem_of_app. by left.
Qed.

Lemma queue_move last pre id b b' post kt ts :
  queue_ok lat last (pre ++ (id, b) :: post) (kt :: ts) -> tk_beat kt.2 = id ->
  b_busy b' = false -> (rank b < rank b')%nat -> Forall (fun kb => (rank b' <= rank kb.2)%nat) pre ->
  queue_ok lat last (pre ++ (id, b') :: post) ts.
Proof.
  intros [Q1 Q2 Q3 Q4 Q5 [_ Q6]] Et Hb Hr Hpre. rewrite Forall_forall in Hpre.
  apply StronglySorted_inv in Q3 as [Q3 _]. apply NoDup_cons in Q4 as [Q4n Q4]. rewrite Et in Q4n.
  split; try done.
  - eapply ss_replace; [exact Q1|..]; intros z Hz; by apply (ss_middle _ _ _ _ Q1).
  - eapply ss_replace; [exact Q2|..]; intros z Hz; cbn; [by apply Hpre|].
    pose proof (proj2 (ss_middle _ _ _ _ Q2) _ Hz). cbn in *. lia.
  - intros id' c Hin Hbusy. pose proof (proj1 (elem_middle _ _ _ _) Hin) as [[= -> ->]|Hin2]; [congruence|].
    assert (id' ∈ token_beats (kt :: ts)) as [E|Ht]%elem_of_cons; [|exfalso|done].
    { apply (Q5 id' c); [|done]. apply elem_middle. by right. }
    rewrite Et in E. subst id'. apply elem_of_app in Hin2 as [Hin2|Hin2].
    + pose proof (proj1 (ss_middle _ _ _ _ Q1) _ Hin2). cbn in *. lia.
    + pose proof (proj2 (ss_middle _ _ _ _ Q1) _ Hin2). cbn in *. lia.
  - eapply (in_order_forget _ _ id); [| |exact Q6].
    + intros s s' x Hx Hs (b0 & H1 & H2 & H3 & H4 & H5). exists b0.
      assert (tk_beat x.2 <> id) as Hne by (intros E; apply Q4n; rewrite <- E; by apply in_token_beats).
      split; [apply elem_middle; right; apply elem_middle in H1 as [[= E _]|H1]; done|]. repeat (split; [done|]).
      intros id' c Hin Hlt He. apply elem_middle in Hin as [[= -> ->]|Hin].
      * exfalso. assert (tk_beat x.2 ∈ map fst post) as Hp.
        { apply elem_middle in H1 as [[= E _]|[H1|H1]%elem_of_app]; [done| |].
          - pose proof (proj1 (ss_middle _ _ _ _ Q1) _ H1). cbn in *. lia.
          - apply list_elem_of_In, in_map_iff. exists (tk_beat x.2, b0). split; [done|by apply list_elem_of_In]. }
        apply list_elem_of_In, in_map_iff in Hp as ([k b1] & E1 & Hin1). cbn in E1. subst k.
        apply list_elem_of_In in Hin1. pose proof (proj2 (ss_middle _ _ _ _ Q2) _ Hin1) as Hr1. cbn in Hr1.
        assert (b0 = b1) as -> by (eapply keys_inj; [exact Q1|exact H1|apply elem_of_app; right; by right]). lia.
      * apply Hs; [|intros ->]. 
        -- apply (H5 id' c); [apply elem_middle; by right|done..].
        -- apply elem_of_app in Hin as [Hin|Hin];
             [pose proof (proj1 (ss_middle _ _ _ _ Q1) _ Hin)|pose proof (proj2 (ss_middle _ _ _ _ Q1) _ Hin)]; cbn in *; lia.
    + intros x [E|[]%elem_of_nil]%elem_of_cons Hne. by rewrite Et in E.
Qed.

Lemma queue_leave last pre id b post kt ts :
  queue_ok lat last (pre ++ (id, b) :: post) (kt :: ts) -> tk_beat kt.2 = id -> queue_ok lat last (pre ++ post) ts.
Proof.
  intros [Q1 Q2 Q3 Q4 Q5 [_ Q6]] Et.
  apply StronglySorted_inv in Q3 as [Q3 _]. apply NoDup_cons in Q4 as [Q4n Q4]. rewrite Et in Q4n.
  assert (Hne : forall id' c, (id', c) ∈ pre ++ post -> id' <> id).
  { intros id' c [Hin|Hin]%elem_of_app ->;
      [pose proof (proj1 (ss_middle _ _ _ _ Q1) _ Hin)|pose proof (proj2 (ss_middle _ _ _ _ Q1) _ Hin)]; cbn in *; lia. }
  split; try done; [by eapply ss_drop_middle..| |].
  - intros id' c Hin Hbusy. assert (id' ∈ token_beats (kt :: ts)) as [E|Ht]%elem_of_cons; [|exfalso|done].
    { apply (Q5 id' c); [|done]. apply elem_middle. by right. }
    rewrite Et in E. by eapply Hne.
  - eapply (in_order_forget _ _ id); [| |exact Q6].
    + intros s s' x Hx Hs (b0 & H1 & H2 & H3 & H4 & H5). exists b0.
      assert (tk_beat x.2 <> id) as Hxe by (intros E; apply Q4n; rewrite <- E; by apply in_token_beats).
      split; [apply elem_middle in H1 as [[= E _]|H1]; done|]. repeat (split; [done|]).
      intros id' c Hin Hlt He. apply Hs; [|by eapply Hne]. apply (H5 id' c); [apply elem_middle; by right|done..].
    + intros x [E|[]%elem_of_nil]%elem_of_cons Hx. by rewrite Et in E.
Qed.

(** Without beats there are no tokens. *)
Lemma queue_empty last ts : queue_ok lat last [] ts -> ts = [].
Proof.
  intros Q. destruct ts as [|kt ts]; [done|]. destruct (queue_head _ _ _ _ Q) as (pre & b & post & E & _).
  by destruct pre.
Qed.
End queue.
