(* ===== verification/RowState.v ===== *)
(** * A row between two steps ([sfu/row_pipeline.h])

    [row_state] is the invariant of a row context: its phase started from banks that hold
    what the reference prescribes, the elements written so far are in the banks or the
    output, the beats cover the rest contiguously and queue in order.  The lemmas show
    that allocating, issuing and completing a beat preserve it, and that a row whose last
    phase ends has left the reference's row in the output. *)

From Stdlib Require Import ZArith Lia.
From stdpp Require Import base numbers list sorting.
From S2P Require Import Prelude Ieee IeeeArith Fp16 Arithmetic.
From S2P Require Import HardwarePipeline VectorMath RowPipeline RowPhases RowReference RowBeats.

#[local] Arguments Nat.div : simpl never.
#[local] Arguments Nat.modulo : simpl never.
#[local] Arguments Nat.mul : simpl never.

(** The beats from element [n] to [m], without gaps. *)
Fixpoint beats_chain (n : nat) (bs : list (Z * Beat)) (m : nat) : Prop :=
  match bs with
  | [] => n = m
  | (_, b) :: bs' => b_cursor b = n /\ beats_chain (n + b_count b) bs' m
  end.

(** The elements computed: those written and those of the beats waiting to write. *)
Fixpoint frontier (n : nat) (bs : list (Z * Beat)) : nat :=
  match bs with
  | (_, b) :: bs' => match b_port b with PortWrite => frontier (n + b_count b) bs' | _ => n end
  | [] => n
  end.

Lemma beats_chain_app bs1 bs2 : forall n m,
  beats_chain n (bs1 ++ bs2) m <-> exists k, beats_chain n bs1 k /\ beats_chain k bs2 m.
Proof.
  induction bs1 as [|[id b] bs1 IH]; intros n m; cbn [app beats_chain].
  - split; [by exists n|by intros (k & -> & Hk)].
  - rewrite IH. split.
    + intros [Hn (k & H1 & H2)]. by exists k.
    + intros (k & [Hn H1] & H2). split; [done|by exists k].
Qed.
Lemma beats_chain_le bs : forall n m, beats_chain n bs m -> (n <= m)%nat.
Proof.
  induction bs as [|[id b] bs IH]; intros n m; cbn [beats_chain]; [lia|]. intros [_ Hc%IH]. lia.
Qed.

Lemma frontier_app_write bs1 bs2 : forall n k,
  Forall (fun kb => b_port kb.2 = PortWrite) bs1 -> beats_chain n bs1 k -> frontier n (bs1 ++ bs2) = frontier k bs2.
Proof.
  induction bs1 as [|[id b] bs1 IH]; intros n k; cbn [app beats_chain frontier]; [by intros _ ->|].
  intros [Hb Hf]%Forall_cons [Hn Hc]. cbn in Hb. rewrite Hb. by apply IH.
Qed.
Lemma frontier_other n bs : Forall (fun kb => b_port kb.2 <> PortWrite) bs -> frontier n bs = n.
Proof. intros [|[id b] bs' Hb _]; [done|]. cbn in *. by destruct (b_port b). Qed.

Lemma frontier_snoc bs id b : b_port b <> PortWrite -> forall n, frontier n (bs ++ [(id, b)]) = frontier n bs.
Proof.
  intros Hb. induction bs as [|[k b'] bs IH]; intros n; cbn [app frontier]; [by destruct (b_port b)|].
  destruct (b_port b'); [done..|apply IH].
Qed.

(** The resource of a place. *)
Definition place_unit (g : RowConfig) (j : RowJob) (ph : Phase) (r : nat) : RowUnit :=
  match r with
  | O => URead
  | S m => if (r =? 20)%nat then UWrite else unit_for g j ph PortCompute m
  end.

Lemma microCount_bound g j ph : (1 <= microCount g j ph <= 8)%nat.
Proof. unfold microCount. destruct (compensated g j); cbn [negb]; [destruct ph|]; lia. Qed.

Section row_state.
Context `{Libm}.
Context (g : RowConfig) (L : RowUnit -> Z).

(** A beat of a phase whose elements have the values [V]. *)
Record beat_ok (j : RowJob) (ph : Phase) (V : nat -> SFUNormPair) (W : nat) (b : Beat) : Prop := {
  bt_finished : b_finished b = false;
  bt_range : (b_cursor b < W)%nat /\ (b_cursor b + b_count b <= W)%nat;
  bt_port : match b_port b with
            | PortRead => ph <> PLoad /\ b_micro b = 0%nat
            | PortCompute => ph <> PLoad /\ (b_micro b < microCount g j ph)%nat
            | PortWrite => ph = PLoad \/ (element_phase ph = true /\ serial g ph = false /\
                b_values b = map (fun i => hi (V i)) (seq (b_cursor b) (b_count b)) /\
                b_residuals b = map (fun i => lo (V i)) (seq (b_cursor b) (b_count b)))
            end;
  bt_single : scalar_phase ph || serial g ph = true -> b_count b = 1%nat }.

Definition place_latency (j : RowJob) (ph : Phase) (r : nat) : Z := L (place_unit g j ph r).

Record row_at (j : RowJob) (out : list spec_float) (last : Z) (c : RowContext) (ts : list (Z * RowToken))
    (d : RowData) (acc mx : spec_float) (seg : list spec_float) : Prop := {
  ra_start : phase_start g j (r_row c) (r_phase c) (r_reduceSize c) acc mx d seg;
  ra_phase : r_phase c <> PDone;
  ra_state : phase_state g j (r_row c) c (r_phase c) (r_reduceSize c) acc mx d (r_completed c)
               (frontier (r_completed c) (r_beats c));
  ra_segment : segment j (r_row c) out = seg_at g j (r_phase c) (r_reduceSize c) acc d seg (r_completed c);
  ra_chain : beats_chain (r_completed c) (r_beats c) (r_cursor c);
  ra_cursor : (r_cursor c <= row_width g j (r_phase c) (r_reduceSize c))%nat;
  ra_beats : Forall (fun kb => beat_ok j (r_phase c) (phase_value g j (r_phase c) (r_reduceSize c) acc d)
               (row_width g j (r_phase c) (r_reduceSize c)) kb.2) (r_beats c);
  ra_single : scalar_phase (r_phase c) || serial g (r_phase c) = true -> (length (r_beats c) <= 1)%nat;
  ra_queue : queue_ok (place_latency j (r_phase c)) last (r_beats c) ts }.

Definition row_state (j : RowJob) (out : list spec_float) (last : Z) (c : RowContext) (ts : list (Z * RowToken)) : Prop :=
  exists d acc mx seg, row_at j out last c ts d acc mx seg.

(** The place of a beat determines its resource and its port. *)
Lemma beat_place j ph V W b : beat_ok j ph V W b -> place_unit g j ph (rank b) = unit_for g j ph (b_port b) (b_micro b).
Proof.
  intros [_ _ Hp _]. pose proof (microCount_bound g j ph). unfold rank, place_unit.
  destruct (b_port b); [done| |done]. destruct Hp as [_ Hm].
  destruct (Nat.eqb_spec (S (b_micro b)) 20); [lia|done].
Qed.
Lemma rank_port j ph V V' W W' b b' :
  beat_ok j ph V W b -> beat_ok j ph V' W' b' -> rank b = rank b' -> b_port b = b_port b'.
Proof.
  intros [_ _ Hp _] [_ _ Hp' _]. pose proof (microCount_bound g j ph). unfold rank.
  destruct (b_port b), (b_port b'); try done; try lia.
Qed.

Lemma row_state_later j out last last' c ts : row_state j out last c ts -> last <= last' -> row_state j out last' c ts.
Proof.
  intros (d & acc & mx & seg & [R1 R2 R3 R4 R5 R6 R7 R8 R9]) Hl. exists d, acc, mx, seg. split; try done.
  by eapply queue_later.
Qed.

(** The part of the state that the beats' order and busy flags do not touch. *)
Lemma phase_state_beats j row c ph rs acc mx d n f bs f' :
  phase_state g j row c ph rs acc mx d n f ->
  (ph = PNormMax -> f' = f) -> phase_state g j row (with_beats c bs) ph rs acc mx d n f'.
Proof.
  intros [T1 T2 T3 T4 T5] Hf. split; try done. cbn. rewrite T5. unfold phase_max.
  case_bool_decide as E; [by rewrite Hf|done].
Qed.

(** ** Allocation *)

Lemma row_count_le j ph rs cursor :
  (cursor < row_width g j ph rs)%nat -> (cursor + row_count g j ph rs cursor <= row_width g j ph rs)%nat.
Proof.
  intros Hc. unfold row_count. destruct (scalar_phase ph || _); [lia|]. cbv zeta. lia.
Qed.

Definition new_beat (j : RowJob) (c : RowContext) : Beat :=
  mkBeat (r_cursor c) (row_count g j (r_phase c) (r_reduceSize c) (r_cursor c)) 0
    (if bool_decide (r_phase c = PLoad) then PortWrite
     else if scalar_phase (r_phase c) && negb (compensated g j && bool_decide (r_phase c = PMean)) then PortCompute
     else PortRead) false false [] [].

Lemma row_allocate j out last c ts id :
  row_state j out last c ts -> (r_cursor c < row_width g j (r_phase c) (r_reduceSize c))%nat ->
  (scalar_phase (r_phase c) || serial g (r_phase c) = true -> r_beats c = []) ->
  Forall (fun kb => kb.1 < id) (r_beats c) ->
  row_state j out last
    (with_beats (with_progress c (r_cursor c + b_count (new_beat j c))%nat (r_completed c)) (r_beats c ++ [(id, new_beat j c)])) ts.
Proof.
  intros (d & acc & mx & seg & [R1 R2 R3 R4 R5 R6 R7 R8 R9]) Hc Hs Hid. exists d, acc, mx, seg.
  assert (Hb : beat_ok j (r_phase c) (phase_value g j (r_phase c) (r_reduceSize c) acc d)
                 (row_width g j (r_phase c) (r_reduceSize c)) (new_beat j c)).
  { pose proof (microCount_bound g j (r_phase c)). split; cbn.
    - done.
    - split; [done|]. by apply row_count_le.
    - case_bool_decide; [by left|]. destruct (_ && _); [split; [done|lia]|done].
    - intros E. unfold row_count. unfold serial in E. by rewrite E. }
  split; cbn [with_beats with_progress r_row r_phase r_reduceSize r_completed r_beats r_cursor]; try done.
  - set (c' := with_beats _ _). assert (phase_state g j (r_row c) (with_beats c (r_beats c')) (r_phase c) (r_reduceSize c) acc mx d
      (r_completed c) (frontier (r_completed c) (r_beats c ++ [(id, new_beat j c)]))) as [T1 T2 T3 T4 T5].
    { eapply phase_state_beats; [exact R3|]. intros Ep. cbn in *.
      apply frontier_snoc. unfold new_beat. cbn. by rewrite Ep. }
    by split.
  - apply beats_chain_app. exists (r_cursor c). split; [done|]. done.
  - by apply row_count_le.
  - apply Forall_app. split; [done|]. by apply Forall_singleton.
  - intros E. rewrite (Hs E). cbn. lia.
  - apply queue_allocate; [done..|]. apply Forall_forall. intros [k b] Hin.
    rewrite Forall_forall in R7. pose proof (R7 _ Hin) as Bk. cbn [snd] in *.
    unfold rank at 1. cbn [new_beat b_port b_micro]. case_bool_decide as El.
    + destruct Bk as [_ _ Hp _]. unfold rank. destruct (b_port b); [by destruct Hp|by destruct Hp|done].
    + destruct (scalar_phase (r_phase c)) eqn:Es; cbn [andb]; [|lia].
      rewrite Hs in Hin by done. by apply elem_of_nil in Hin.
Qed.

(** ** Issue *)

Lemma select_beat_split port bs id b :
  select_beat port bs = Some (id, b) -> exists pre post, bs = pre ++ (id, b) :: post /\
    b_port b = port /\ b_busy b = false /\ Forall (fun kb => b_port kb.2 = port -> b_busy kb.2 = true) pre.
Proof.
  induction bs as [|[k b'] bs IH]; [done|]. cbn [select_beat].
  destruct (bool_decide (b_port b' = port) && negb (b_busy b')) eqn:E.
  - intros [= -> ->]. boolify. by exists [], bs.
  - intros (pre & post & -> & E1 & E2 & E3)%IH. exists ((k, b') :: pre), post. split; [done|].
    repeat (split; [done|]). constructor; [|done]. cbn. intros Ep. rewrite bool_decide_true in E by done.
    cbn in E. by apply negb_false_iff in E.
Qed.

Lemma frontier_replace b b' id pre post : forall n,
  b_port b <> PortWrite -> b_port b' <> PortWrite ->
  frontier n (pre ++ (id, b') :: post) = frontier n (pre ++ (id, b) :: post).
Proof.
  induction pre as [|[k bk] pre IH]; intros n H1 H2; cbn [app frontier].
  - by destruct (b_port b), (b_port b').
  - destruct (b_port bk); [done..|by apply IH].
Qed.
Lemma chain_replace b b' id pre post n m :
  b_cursor b' = b_cursor b -> b_count b' = b_count b ->
  beats_chain n (pre ++ (id, b) :: post) m -> beats_chain n (pre ++ (id, b') :: post) m.
Proof.
  intros E1 E2 (k & H1 & H2)%beats_chain_app. apply beats_chain_app. exists k. split; [done|].
  cbn in *. by rewrite E1, E2.
Qed.

(** A beat is replaced by one with the same elements that has come as far as the queue allows. *)
Lemma row_replace j out last last' c c' ts ts' id b b' pre post d acc mx seg :
  row_at j out last c ts d acc mx seg -> r_beats c = pre ++ (id, b) :: post ->
  r_row c' = r_row c -> r_phase c' = r_phase c -> r_reduceSize c' = r_reduceSize c -> r_cursor c' = r_cursor c ->
  r_completed c' = r_completed c -> r_beats c' = pre ++ (id, b') :: post ->
  phase_state g j (r_row c) c' (r_phase c) (r_reduceSize c) acc mx d (r_completed c) (frontier (r_completed c) (r_beats c')) ->
  b_cursor b' = b_cursor b -> b_count b' = b_count b ->
  beat_ok j (r_phase c) (phase_value g j (r_phase c) (r_reduceSize c) acc d)
    (row_width g j (r_phase c) (r_reduceSize c)) b' ->
  queue_ok (place_latency j (r_phase c)) last' (pre ++ (id, b') :: post) ts' ->
  row_state j out last' c' ts'.
Proof.
  intros [R1 R2 R3 R4 R5 R6 R7 R8 R9] Eb E1 E2 E3 E4 E5 E6 S Ec1 Ec2 Hb Hq. rewrite E6 in S. exists d, acc, mx, seg.
  split; rewrite ?E1, ?E2, ?E3, ?E4, ?E5; try done; rewrite ?E6.
  - exact S.
  - rewrite Eb in R5. by eapply chain_replace.
  - rewrite Eb in R7. apply Forall_app in R7 as [F1 F2]. apply Forall_cons in F2 as [_ F2].
    apply Forall_app. split; [done|]. by constructor.
  - intros E. specialize (R8 E). rewrite Eb in R8. by rewrite !length_app in *.
  - exact Hq.
Qed.

Lemma row_issue j out last now c ts t id b :
  row_state j out last c ts -> select_beat (tk_port t) (r_beats c) = Some (id, b) -> last <= now -> tk_beat t = id ->
  row_state j out now (with_beats c (map_set id (beat_start b) (r_beats c)))
    (multimap_emplace (now + L (unit_for g j (r_phase c) (tk_port t) (b_micro b))) t ts).
Proof.
  intros (d & acc & mx & seg & R) Hs Hl Et. apply select_beat_split in Hs as (pre & post & Eb & Ep & Hi & Hpre).
  pose proof R as [R1 R2 R3 R4 R5 R6 R7 R8 R9].
  pose proof (qo_keys _ _ _ _ R9) as Hk. rewrite Eb in Hk, R7, R9.
  apply Forall_app in R7 as [F1 [Hb F2]%Forall_cons]. cbn [snd] in Hb.
  rewrite Eb, map_set_middle by done.
  assert (Hb' : beat_ok j (r_phase c) (phase_value g j (r_phase c) (r_reduceSize c) acc d)
      (row_width g j (r_phase c) (r_reduceSize c)) (beat_start b)) by (destruct Hb; by split).
  assert (El : L (unit_for g j (r_phase c) (tk_port t) (b_micro b)) = place_latency j (r_phase c) (rank b))
    by (unfold place_latency; by rewrite (beat_place _ _ _ _ _ Hb), Ep).
  rewrite El.
  eapply (row_replace j out last now c _ ts _ id b (beat_start b) pre post d acc mx seg); try done.
  - eapply phase_state_beats; [exact R3|]. intros _. cbn [with_beats r_beats]. rewrite Eb.
    destruct (b_port b) eqn:Epb; [apply frontier_replace; cbn; congruence..|].
    generalize (r_completed c). clear -Epb. induction pre as [|[k bk] pre IH]; intros n; cbn [app frontier].
    + cbn. by rewrite Epb.
    + destruct (b_port bk); [done..|apply IH].
  - eapply queue_issue; try done. rewrite Forall_forall in Hpre, F1 |- *. intros x Hx Hr.
    apply Hpre; [done|]. rewrite <- Ep. eapply rank_port; [by apply F1|exact Hb|done].
Qed.

(** ** Completion *)

(** What [step] does with a beat after [complete]: lines 114-118. *)
Definition row_advance (j : RowJob) (c : RowContext) (id : Z) (b : Beat) : RowContext :=
  if b_finished b then
    let c := with_beats (with_progress c (r_cursor c) (r_completed c + b_count b)%nat) (map_erase id (r_beats c)) in
    if (r_completed c =? row_width g j (r_phase c) (r_reduceSize c))%nat then row_nextPhase g j c else c
  else with_beats c (map_set id b (r_beats c)).

(** The outcome for the row. *)
Definition row_outcome (j : RowJob) (out : list spec_float) (last : Z) (c : RowContext) (ts : list (Z * RowToken)) : Prop :=
  if decide (r_phase c = PDone) then ts = [] /\ segment j (r_row c) out = row_output g j (r_row c)
  else row_state j out last c ts.

Lemma nextPhase_fields j c :
  r_job (row_nextPhase g j c) = r_job c /\ r_row (row_nextPhase g j c) = r_row c /\
  r_beats (row_nextPhase g j c) = r_beats c /\
  (r_phase (row_nextPhase g j c) <> PDone -> r_phase c <> PDone ->
   r_cursor (row_nextPhase g j c) = 0%nat /\ r_completed (row_nextPhase g j c) = 0%nat).
Proof.
  unfold row_nextPhase. destruct (r_phase c) eqn:E; try (by repeat split).
  by destruct (tree_ g).
Qed.

(** The next phase depends on the phase and the registers only. *)
Lemma context_start_ext j row c c' seg :
  r_phase c' = r_phase c -> r_reduceSize c' = r_reduceSize c -> r_accumulator c' = r_accumulator c ->
  r_maximum c' = r_maximum c -> r_data c' = r_data c ->
  context_start g j row (row_nextPhase g j c) seg -> context_start g j row (row_nextPhase g j c') seg.
Proof.
  intros E1 E2 E3 E4 E5. unfold context_start.
  assert (r_phase (row_nextPhase g j c') = r_phase (row_nextPhase g j c) /\
    r_reduceSize (row_nextPhase g j c') = r_reduceSize (row_nextPhase g j c) /\
    r_accumulator (row_nextPhase g j c') = r_accumulator (row_nextPhase g j c) /\
    r_maximum (row_nextPhase g j c') = r_maximum (row_nextPhase g j c) /\
    r_data (row_nextPhase g j c') = r_data (row_nextPhase g j c)) as (-> & -> & -> & -> & ->); [|done].
  unfold row_nextPhase. rewrite E1, E2, E4, E5.
  destruct (r_phase c) eqn:Ep; try destruct (tree_ g); cbn [r_reduceSize with_reduceSize]; rewrite ?E2;
    repeat split; cbn; congruence.
Qed.

(** A row at the start of a phase. *)
Lemma row_boundary j out last c seg ts :
  job_ok j -> context_start g j (r_row c) c seg -> segment j (r_row c) out = seg ->
  (r_phase c <> PDone -> r_cursor c = 0%nat /\ r_completed c = 0%nat) -> r_beats c = [] -> ts = [] ->
  row_outcome j out last c ts.
Proof.
  intros J S Es Hc Eb ->. unfold row_outcome. case_decide as Ep.
  - split; [done|]. destruct S as [_ _ _ Hseg _]. rewrite Es, Hseg, Ep. by rewrite bool_decide_true.
  - destruct (Hc Ep) as [E1 E2]. exists (r_data c), (r_accumulator c), (r_maximum c), seg.
    split; rewrite ?E1, ?E2, ?Eb; try done; try lia.
    + cbn [frontier]. split; try done.
      * by rewrite written_0.
      * unfold phase_accumulator. by destruct (serial g (r_phase c)).
      * unfold phase_max. by case_bool_decide.
    + unfold seg_at. by destruct (writes_output (r_phase c)).
    + cbn. lia.
    + apply queue_nil.
Qed.

Lemma width_scalar j ph rs : scalar_phase ph = true -> row_width g j ph rs = 1%nat.
Proof. by destruct ph. Qed.

(** A finished beat: its elements are done, and with the last of them the phase. *)
Lemma row_finish j out' last c c1 ts' id b1 post d acc mx seg :
  job_ok j -> (r_row c < job_rows j)%nat ->
  phase_start g j (r_row c) (r_phase c) (r_reduceSize c) acc mx d seg -> r_phase c <> PDone ->
  scalar_phase (r_phase c) = false ->
  r_phase c1 = r_phase c -> r_reduceSize c1 = r_reduceSize c -> r_row c1 = r_row c -> r_cursor c1 = r_cursor c ->
  r_completed c1 = r_completed c -> map_erase id (r_beats c1) = post -> b_finished b1 = true ->
  let n := (r_completed c + b_count b1)%nat in
  phase_state g j (r_row c) c1 (r_phase c) (r_reduceSize c) acc mx d n (frontier n post) ->
  segment j (r_row c) out' = seg_at g j (r_phase c) (r_reduceSize c) acc d seg n ->
  beats_chain n post (r_cursor c) -> (r_cursor c <= row_width g j (r_phase c) (r_reduceSize c))%nat ->
  Forall (fun kb => beat_ok j (r_phase c) (phase_value g j (r_phase c) (r_reduceSize c) acc d)
            (row_width g j (r_phase c) (r_reduceSize c)) kb.2) post ->
  (serial g (r_phase c) = true -> (length post <= 1)%nat) ->
  queue_ok (place_latency j (r_phase c)) last post ts' ->
  row_outcome j out' last (row_advance j c1 id b1) ts'.
Proof.
  intros J Hrow S Hd Hsc E1 E2 E3 E4 E5 E6 Ef n T Hseg Hch Hcur Hbs Hser Hq.
  unfold row_advance. rewrite Ef. cbv zeta.
  set (c2 := with_beats _ _).
  assert (F : r_phase c2 = r_phase c /\ r_reduceSize c2 = r_reduceSize c /\ r_row c2 = r_row c /\ r_cursor c2 = r_cursor c /\
    r_completed c2 = n /\ r_beats c2 = post) by (unfold c2; cbn; by rewrite E1, E2, E3, E4, E5, E6).
  destruct F as (F1 & F2 & F3 & F4 & F5 & F6).
  assert (T2 : phase_state g j (r_row c) c2 (r_phase c) (r_reduceSize c) acc mx d n (frontier n post)) by (destruct T; by split).
  clearbody c2. rewrite F1, F2, F5.
  destruct (Nat.eqb_spec n (row_width g j (r_phase c) (r_reduceSize c))) as [En|En].
  - assert (post = []) as ->.
    { destruct post as [|[k b] post]; [done|]. exfalso. cbn in Hch. destruct Hch as [Hk _].
      apply Forall_cons in Hbs as [[_ [Hlt _] _ _] _]. cbn in Hlt. lia. }
    cbn [frontier] in T2. rewrite En in T2, Hseg.
    destruct (nextPhase_fields j c2) as (_ & N2 & N3 & N4).
    eapply (row_boundary j out' last _ _ ts' J); rewrite ?N2, ?F3.
    + eapply (phase_end g j (r_row c) J Hrow); [exact Hsc|exact Hd|exact S|exact T2].
    + exact Hseg.
    + intros Hp. apply N4; [done|by rewrite F1].
    + by rewrite N3.
    + by eapply queue_empty.
  - unfold row_outcome. rewrite F1, decide_False by done. exists d, acc, mx, seg.
    split; rewrite ?F1, ?F2, ?F3, ?F4, ?F5, ?F6; try done.
    intros [Hs|Hs]%orb_true_iff; [congruence|by apply Hser].
Qed.

(** A beat that goes on: only its place and values change. *)
Lemma row_move j out last c ts id b b' pre post kt d acc mx seg :
  row_at j out last c (kt :: ts) d acc mx seg -> r_beats c = pre ++ (id, b) :: post -> tk_beat kt.2 = id ->
  b_port b <> PortWrite -> b_port b' <> PortWrite -> b_cursor b' = b_cursor b -> b_count b' = b_count b -> b_busy b' = false ->
  b_finished b' = false -> rank b' = S (rank b) -> Forall (fun kb => (rank b < rank kb.2)%nat) pre ->
  beat_ok j (r_phase c) (phase_value g j (r_phase c) (r_reduceSize c) acc d)
    (row_width g j (r_phase c) (r_reduceSize c)) b' ->
  row_outcome j out last (row_advance j c id b') ts.
Proof.
  intros R Eb Et Np Np' Ec En Hi Hf Hr Hpre Hb. pose proof R as [R1 R2 R3 R4 R5 R6 R7 R8 R9].
  unfold row_advance, row_outcome. rewrite Hf. cbn [with_beats r_phase]. rewrite decide_False by done.
  rewrite Eb in R9. rewrite Eb, map_set_middle by apply R9.
  eapply (row_replace j out last last c _ _ ts id b b' pre post); try done.
  - eapply phase_state_beats; [exact R3|]. intros _. cbn [with_beats r_beats]. rewrite Eb. by apply frontier_replace.
  - eapply queue_move; try done; [lia|]. eapply Forall_impl; [exact Hpre|]. intros x. cbn. lia.
Qed.

(** The last reservation of a scalar phase. *)
Lemma row_scalar j last c ts id b kt d acc mx seg :
  job_ok j -> (r_row c < job_rows j)%nat -> representable CFloat (rj_epsilon j) ->
  row_at j (rj_output j) last c (kt :: ts) d acc mx seg -> r_beats c = [(id, b)] -> tk_beat kt.2 = id ->
  scalar_phase (r_phase c) = true ->
  exists d', scalar_update g j (r_phase c) (r_accumulator c) (r_data c) = Ok d' /\
    forall b', b_finished b' = true -> b_count b' = b_count b ->
      row_outcome j (rj_output j) last (row_advance j (with_data c d') id b') ts.
Proof.
  intros J Hrow Heps R Eb Et Hsc. pose proof R as [R1 R2 R3 R4 R5 R6 R7 R8 R9].
  rewrite Eb in *. cbn in R5. destruct R5 as [Hc0 Hc1]. apply Forall_singleton in R7 as [_ [Hlt _] _ Hone]. cbn [snd] in *.
  rewrite width_scalar in Hlt by done. assert (r_completed c = 0%nat) as E0 by lia.
  rewrite Hsc in Hone. specialize (Hone eq_refl).
  pose proof R3 as [_ _ T3 T4 T5]. rewrite E0 in *. rewrite written_0 in T3. cbn [frontier Nat.add] in *.
  assert (Ea : r_accumulator c = acc) by (rewrite T4; unfold phase_accumulator, serial; by destruct (r_phase c)).
  assert (Em : r_maximum c = mx) by (rewrite T5; unfold phase_max; by destruct (r_phase c)).
  destruct (scalar_end g j (r_row c) J Hrow Heps (r_reduceSize c) acc mx d seg c (r_phase c)) as (d' & Ed & S); try done.
  rewrite Ea, T3. exists d'. split; [done|]. intros b' Hf Hn.
  unfold row_advance. rewrite Hf. cbn [with_data with_beats with_progress r_completed r_phase r_reduceSize r_beats].
  rewrite width_scalar, E0, Hn, Hone by done. cbn [Nat.add Nat.eqb].
  rewrite Eb. cbn [map_erase]. rewrite Z.eqb_refl.
  set (c2 := with_beats _ _). destruct (nextPhase_fields j c2) as (_ & N2 & N3 & N4).
  eapply (row_boundary j _ last _ seg ts J); rewrite ?N2.
  - eapply context_start_ext; [..|exact S]; done.
  - change (r_row c2) with (r_row c). rewrite R4. unfold seg_at. by destruct (r_phase c).
  - intros Hp. by apply N4.
  - by rewrite N3.
  - eapply queue_empty. eapply (queue_leave _ _ [] id b []); [exact R9|done].
Qed.

Lemma values_zip vs : zip_with mkNormPair (map hi vs) (map lo vs) = vs.
Proof. induction vs as [|v vs IH]; [done|]. cbn. rewrite IH. by destruct v. Qed.

(** The last reservation of an element phase: the beat's values. *)
Lemma row_compute j last c ts id b kt pre post d acc mx seg :
  job_ok j -> (r_row c < job_rows j)%nat ->
  row_at j (rj_output j) last c (kt :: ts) d acc mx seg -> r_beats c = pre ++ (id, b) :: post -> tk_beat kt.2 = id ->
  scalar_phase (r_phase c) = false -> b_port b = PortCompute -> S (b_micro b) = microCount g j (r_phase c) ->
  Forall (fun kb => (rank b < rank kb.2)%nat) pre ->
  exists c1 b1, row_complete g j c (beat_idle b) PortCompute = Ok (c1, b1, rj_output j) /\
    r_job c1 = r_job c /\ r_row c1 = r_row c /\ b_count b1 = b_count b /\ r_beats c1 = r_beats c /\
    row_outcome j (rj_output j) last (row_advance j c1 id b1) ts.
Proof.
  intros J Hrow R Eb Et Hsc Hport Hm Hpre. pose proof R as [R1 R2 R3 R4 R5 R6 R7 R8 R9].
  rewrite Eb in R5, R7, R9. apply Forall_app in R7 as [F1 [Hb F2]%Forall_cons]. cbn [snd] in Hb.
  pose proof Hb as [Hfin [Hlt Hle] Hp Hone]. rewrite Hport in Hp. destruct Hp as [Hload _].
  apply beats_chain_app in R5 as (k & Ch1 & [Hk Ch2]). rewrite Hk in *. subst k.
  assert (Hw : Forall (fun kb => b_port kb.2 = PortWrite) pre).
  { rewrite Forall_forall in *. intros x Hx. pose proof (F1 x Hx) as [_ _ Hpx _]. pose proof (Hpre x Hx) as Hr.
    unfold rank in Hr. rewrite Hport in Hr. destruct (b_port x.2); [lia|destruct Hpx; lia|done]. }
  assert (Hfront : frontier (r_completed c) (r_beats c) = b_cursor b).
  { rewrite Eb, (frontier_app_write _ _ _ (b_cursor b)) by done. cbn [frontier]. by rewrite Hport. }
  assert (He : element_phase (r_phase c) = true).
  { unfold element_phase. rewrite Hsc, !bool_decide_false by done. done. }
  unfold row_complete. cbn [beat_idle b_micro b_count b_cursor].
  rewrite (proj2 (Nat.ltb_ge _ _)), Hsc by lia.
  pose proof R1 as [B Hs [Hrp _] _ _].
  assert (Hrp' : rj_op j = Rope \/ rope_phase (r_phase c) = false)
    by (destruct (rope_phase (r_phase c)); [left; by apply Hrp|by right]).
  pose proof R3 as [_ _ T3 T4 T5]. rewrite Hfront in *.
  destruct (serial g (r_phase c)) eqn:Eser.
  - (* a single accumulator *)
    rewrite orb_true_r in Hone, R8. specialize (Hone eq_refl). specialize (R8 eq_refl).
    assert (pre = [] /\ post = []) as [-> ->].
    { rewrite Eb, length_app in R8. cbn in R8. destruct pre, post; cbn in R8; try lia. done. }
    cbn in Ch1, Ch2. rewrite Hone in *.
    assert (Ew : written g j (r_phase c) (r_row c) (phase_value g j (r_phase c) (r_reduceSize c) acc d) d (r_completed c) = d)
      by (unfold written; by rewrite Eser).
    rewrite Ew in T3.
    assert (Hww : row_width g j (r_phase c) (r_reduceSize c) = rj_width j).
    { unfold serial in Eser. boolify. rewrite row_width_cases.
      replace (r_phase c) with PReduce by (symmetry; done).
      by match goal with E : tree_ g = false |- _ => rewrite E end. }
    rewrite (element_loop_serial g j (r_phase c) d B Hrp' c (b_cursor b)) by (done || lia).
    cbn [rbind fst snd map hi lo].
    change (bool_decide (r_phase c = PReduce) && negb (tree_ g)) with (serial g (r_phase c)). rewrite Eser.
    cbn [vget lookup list_lookup rbind]. eexists _, _. split; [reflexivity|]. repeat (split; [done|]).
    eapply (row_finish j _ last c _ ts id _ [] d acc mx seg); try done; cbn [with_registers beat_at beat_idle b_count b_finished
      r_beats r_completed].
    + rewrite Eb. cbn [app map_erase]. by rewrite Z.eqb_refl.
    + rewrite Hone. cbn [frontier]. split; cbn [with_registers r_phase r_reduceSize r_data r_accumulator r_maximum]; try done.
      * rewrite T3. unfold written. by rewrite Eser.
      * rewrite T4. unfold phase_accumulator. rewrite Eser. rewrite Nat.add_1_r, <- Ch1.
        assert (Hl : (r_completed c < length (d_work d))%nat) by (rewrite (bk_work _ _ B); lia).
        destruct (lookup_lt_is_Some_2 (d_work d) (r_completed c) Hl) as [x Ex].
        rewrite (take_S_r _ _ _ Ex), foldl_app. cbn [foldl]. unfold at0. by rewrite Ex.
      * rewrite T5. unfold phase_max. unfold serial in Eser. boolify.
        replace (r_phase c) with PReduce by (symmetry; done). done.
    + rewrite R4. unfold seg_at. unfold serial in Eser. boolify.
      replace (r_phase c) with PReduce by (symmetry; done). done.
    + rewrite Hone. cbn. lia.
    + intros _. cbn. lia.
    + eapply (queue_leave _ _ [] id b []); [exact R9|done].
  - assert (Hn : (r_completed c <= b_cursor b)%nat) by (by eapply beats_chain_le).
    rewrite T5, (element_loop_ok g j J (r_phase c) (r_row c) (r_reduceSize c) acc d B Hrp' (proj2 Hs) c (r_completed c))
      by (done || lia).
    cbn [rbind fst snd]. change (bool_decide (r_phase c = PReduce) && negb (tree_ g)) with (serial g (r_phase c)).
    rewrite Eser. eexists _, _. split; [reflexivity|]. repeat (split; [done|]).
    set (vs := map _ (seq _ _)). set (c1 := with_registers _ _ _). set (b1 := beat_at _ _ _ _ _ _).
    unfold row_advance, row_outcome. cbn [b_finished b1 beat_at beat_idle]. rewrite Hfin.
    cbn [with_beats r_phase c1 with_registers r_beats]. rewrite decide_False by done.
    rewrite Eb, map_set_middle by apply R9.
    eapply (row_replace j _ last last c _ (kt :: ts) ts id b b1 pre post d acc mx seg); try done.
    + cbn [with_beats r_beats c1 with_registers].
      rewrite (frontier_app_write _ _ _ (b_cursor b)) by done. cbn [frontier b1 beat_at beat_idle b_port b_count].
      rewrite frontier_other.
      * split; try done. 
      * pose proof (qo_rank _ _ _ _ R9) as Hrk. apply Forall_forall. intros x Hx.
        pose proof (proj2 (ss_middle _ _ _ _ Hrk) _ Hx) as Hr. cbn in Hr. unfold rank at 2 in Hr. rewrite Hport in Hr.
        pose proof (microCount_bound g j (r_phase c)). unfold rank in Hr. intros E. rewrite E in Hr. lia.
    + split; [done|by split| |intros E; rewrite Eser in E; by apply Hone]. right. split; [done|]. split; [done|].
      cbn [b1 beat_at beat_idle b_values b_residuals b_cursor b_count]. unfold vs. by rewrite !map_map.
    + eapply queue_move; try done.
      * unfold rank. cbn [b1 beat_at b_port]. rewrite Hport. pose proof (microCount_bound g j (r_phase c)). lia.
      * eapply Forall_impl; [exact Hw|]. intros x Hx. cbn. unfold rank. by rewrite Hx.
Qed.

(** A beat written: banks, output, and the row moves on. *)
Lemma row_write j last c ts id b kt pre post d acc mx seg :
  job_ok j -> (r_row c < job_rows j)%nat -> length (rj_output j) = length (rj_input j) ->
  row_at j (rj_output j) last c (kt :: ts) d acc mx seg -> r_beats c = pre ++ (id, b) :: post -> tk_beat kt.2 = id ->
  b_port b = PortWrite -> Forall (fun kb => (rank b < rank kb.2)%nat) pre ->
  exists c1 b1 out', row_complete g j c (beat_idle b) PortWrite = Ok (c1, b1, out') /\
    r_job c1 = r_job c /\ r_row c1 = r_row c /\ b_count b1 = b_count b /\ r_beats c1 = r_beats c /\ b_finished b1 = true /\
    length out' = length (rj_output j) /\
    (forall row, row <> r_row c -> segment j row out' = segment j row (rj_output j)) /\
    row_outcome j out' last (row_advance j c1 id b1) ts.
Proof.
  intros J Hrow Hout R Eb Et Hport Hpre. pose proof R as [R1 R2 R3 R4 R5 R6 R7 R8 R9].
  rewrite Eb in R5, R7, R9. apply Forall_app in R7 as [F1 [Hb F2]%Forall_cons]. cbn [snd] in Hb.
  pose proof Hb as [Hfin [Hlt Hle] Hp Hone]. rewrite Hport in Hp.
  assert (pre = []) as ->.
  { destruct pre as [|[k x] pre]; [done|]. exfalso. apply Forall_cons in Hpre as [Hr _]. apply Forall_cons in F1 as [Hx _].
    cbn in Hr, Hx. destruct Hx as [_ _ Hpx _]. pose proof (microCount_bound g j (r_phase c)).
    unfold rank in Hr. rewrite Hport in Hr. destruct (b_port x); [lia|destruct Hpx; lia|lia]. }
  cbn [app] in *. destruct R5 as [Hc Ch]. 
  assert (Hser : serial g (r_phase c) = false).
  { destruct Hp as [Hp|(_ & Hp & _)]; [|done]. unfold serial. by rewrite Hp. }
  assert (Hsc : scalar_phase (r_phase c) = false).
  { destruct Hp as [Hp|(Hp & _)]; [by rewrite Hp|]. unfold element_phase in Hp. by destruct (scalar_phase (r_phase c)). }
  pose proof R1 as [B Hs [Hrp _] Hseg _].
  assert (Hrp' : rj_op j = Rope \/ rope_phase (r_phase c) = false)
    by (destruct (rope_phase (r_phase c)); [left; by apply Hrp|by right]).
  pose proof (row_width_le g j J (r_phase c) (r_reduceSize c) Hrp' ltac:(lia)) as Hww.
  pose proof R3 as [_ _ T3 T4 T5].
  assert (Hlseg : length seg = rj_width j).
  { rewrite Hseg, bool_decide_false by done. by apply initial_length. }
  unfold row_complete. cbn [beat_idle b_count b_cursor b_values b_residuals].
  set (vs := if bool_decide (r_phase c = PLoad) then _ else _).
  assert (Hvs : length vs = b_count b /\ (r_phase c <> PLoad -> vs =
      map (phase_value g j (r_phase c) (r_reduceSize c) acc d) (seq (b_cursor b) (length vs)))).
  { unfold vs. destruct (decide (r_phase c = PLoad)) as [El|El].
    { rewrite bool_decide_true by done. split; [apply length_replicate|done]. }
    rewrite bool_decide_false by done.
    destruct Hp as [Hp|(_ & _ & E1 & E2)]; [done|]. rewrite E1, E2.
    rewrite <- !(map_map (phase_value g j (r_phase c) (r_reduceSize c) acc d)), values_zip, length_map, length_seq. done. }
  destruct Hvs as [Lvs Evs].
  destruct (write_loop_ok g j J (r_phase c) (r_row c) (r_reduceSize c) acc d B Hrp' (proj2 Hs) Hrow vs (b_cursor b)
    (rj_output j) seg) as (out' & E & Lo & Sg & So).
  { done. } { done. } { done. } { done. } { lia. } { rewrite Hout, (jk_input j J). nia. } { done. } { by rewrite Hc. }
  rewrite T3, Hc in *. rewrite E. cbn [rbind fst snd]. eexists _, _, out'. split; [reflexivity|].
  repeat (split; [done|]).
  rewrite Lvs in *.
  eapply (row_finish j out' last c _ ts id _ post d acc mx seg); try done;
    cbn [with_data beat_at beat_idle b_count b_finished r_beats r_completed].
  - rewrite Eb. cbn [map_erase]. by rewrite Z.eqb_refl.
  - split; cbn [with_data r_phase r_reduceSize r_data r_accumulator r_maximum]; try done.
    + rewrite T4. unfold phase_accumulator. by rewrite Hser.
    + rewrite T5, Eb. cbn [frontier]. by rewrite Hport.
  - intros Hs'. congruence.
  - eapply (queue_leave _ _ [] id b post); [exact R9|done].
Qed.

(** A token completes: the beat is there, nothing is out of range, and the row goes on or
    has left the reference's row in the output. *)
Lemma row_complete_ok j last c kt ts :
  job_ok j -> (r_row c < job_rows j)%nat -> representable CFloat (rj_epsilon j) ->
  length (rj_output j) = length (rj_input j) ->
  row_state j (rj_output j) last c (kt :: ts) ->
  exists b c1 b1 out', map_at (tk_beat kt.2) (r_beats c) = Some b /\
    row_complete g j c (beat_idle b) (tk_port kt.2) = Ok (c1, b1, out') /\
    r_job c1 = r_job c /\ r_row c1 = r_row c /\ r_beats c1 = r_beats c /\
    length out' = length (rj_output j) /\
    (forall row, row <> r_row c -> segment j row out' = segment j row (rj_output j)) /\
    row_outcome j out' last (row_advance j c1 (tk_beat kt.2) b1) ts.
Proof.
  intros J Hrow Heps Hout (d & acc & mx & seg & R). pose proof R as [R1 R2 R3 R4 R5 R6 R7 R8 R9].
  destruct (queue_head _ _ _ _ _ R9) as (pre & b & post & Eb & Hbusy & Hport & Hpre).
  pose proof R9 as Hq. rewrite Eb in Hq. set (id := tk_beat kt.2) in *.
  pose proof R7 as F. rewrite Eb in F. apply Forall_app in F as [F1 [Hb F2]%Forall_cons]. cbn [snd] in Hb.
  pose proof Hb as [Hfin Hrange Hp Hone].
  exists b. assert (map_at id (r_beats c) = Some b) as Ea by (rewrite Eb; apply map_at_middle, Hq).
  rewrite <- Hport. destruct (b_port b) eqn:Epb.
  - (* read *)
    cbn [row_complete]. eexists _, _, _. split; [done|]. split; [reflexivity|]. repeat (split; [done|]).
    destruct Hp as [Hload Hm]. pose proof (microCount_bound g j (r_phase c)).
    eapply (row_move j _ last c ts id b _ pre post kt); try done; [congruence|..].
    + unfold rank. cbn [beat_at b_port b_micro beat_idle]. by rewrite Epb, Hm.
    + split; try done. cbn [beat_at b_port b_micro beat_idle]. split; [done|lia].
  - destruct Hp as [Hload Hm]. destruct (Nat.lt_ge_cases (S (b_micro b)) (microCount g j (r_phase c))) as [Hlt|Hge].
    + (* one more micro-operation *)
      cbn [row_complete]. cbn [beat_idle b_micro]. rewrite (proj2 (Nat.ltb_lt _ _)) by done.
      eexists _, _, _. split; [done|]. split; [reflexivity|]. repeat (split; [done|]).
      eapply (row_move j _ last c ts id b _ pre post kt); try done; [congruence|..].
      * cbn [beat_at b_port beat_idle]. congruence.
      * unfold rank. cbn [beat_at b_port b_micro beat_idle]. by rewrite Epb.
      * split; try done. cbn [beat_at b_port b_micro beat_idle]. by rewrite Epb.
    + destruct (scalar_phase (r_phase c)) eqn:Hsc.
      * assert (pre = [] /\ post = []) as [-> ->].
        { rewrite Eb, length_app in R8. specialize (R8 eq_refl). cbn in R8. destruct pre, post; cbn in R8; try lia. done. }
        cbn [app] in Eb.
        destruct (row_scalar j last c ts id b kt d acc mx seg J Hrow Heps R Eb eq_refl Hsc) as (d' & Ed & Hd).
        unfold row_complete. cbn [beat_idle b_micro]. rewrite (proj2 (Nat.ltb_ge _ _)), Hsc, Ed by lia.
        cbn [rbind]. eexists _, _, _. split; [done|]. split; [reflexivity|]. repeat (split; [done|]). by apply Hd.
      * destruct (row_compute j last c ts id b kt pre post d acc mx seg J Hrow R Eb eq_refl Hsc Epb ltac:(lia) Hpre)
          as (c1 & b1 & E & H1 & H2 & H3 & H4 & Ho).
        exists c1, b1, (rj_output j). repeat (split; [done|]). done.
  - destruct (row_write j last c ts id b kt pre post d acc mx seg J Hrow Hout R Eb eq_refl Epb Hpre)
      as (c1 & b1 & out' & E & H1 & H2 & H3 & H4 & H5 & H6 & H7 & Ho).
    exists c1, b1, out'. repeat (split; [done|]). done.
Qed.
End row_state.

(** ** A job whose counters or output change *)

Section job_with.
Context `{Libm}.
Context (g : RowConfig) (j : RowJob) (n f : nat) (o : list spec_float).
Notation j' := (job_with j n f o).

Lemma job_ok_with : job_ok j -> job_ok j'.
Proof. intros []. by split. Qed.
Lemma job_for_with r inp coef : job_for r inp coef j -> job_for r inp coef j'.
Proof. intros []. by split. Qed.
Lemma banks_ok_with d : banks_ok j d -> banks_ok j' d.
Proof. intros []. by split. Qed.
Lemma normalising_with row d : normalising g j row d -> normalising g j' row d.
Proof. intros []. by split. Qed.

Lemma phase_start_with row ph rs acc mx d seg :
  phase_start g j row ph rs acc mx d seg -> phase_start g j' row ph rs acc mx d seg.
Proof.
  intros [B S O E Hh]. split; [by apply banks_ok_with|exact S|exact O|exact E|].
  destruct ph; cbn [phase_holds] in *; try exact Hh.
  all: destruct Hh as [N Hh]; split; [by apply normalising_with|exact Hh].
Qed.

Lemma segments_with row out k : segment j' row out = segment j row out /\
  (if (row <? k)%nat then row_output g j' row else row_initial j' row) =
  (if (row <? k)%nat then row_output g j row else row_initial j row).
Proof. split; reflexivity. Qed.

Lemma row_state_with L out last c ts : row_state g L j out last c ts -> row_state g L j' out last c ts.
Proof.
  intros (d & acc & mx & seg & [R1 R2 R3 R4 R5 R6 R7 R8 R9]). exists d, acc, mx, seg.
  split; try done; [by apply phase_start_with|..].
  - destruct R3. by split.
  - eapply Forall_impl; [exact R7|]. intros kb [B1 B2 B3 B4]. by split.
Qed.
End job_with.
