(* ===== verification/RowPipelineTheory.v ===== *)
(** * The row pipeline refines the reference ([sfu/row_pipeline.h])

    [pipeline_inv] collects the row invariants of [RowState] with the job table, the
    pending tokens of all rows and the output segments of finished and unstarted rows;
    every operation of the pipeline preserves it. *)

From Stdlib Require Import ZArith Lia.
From stdpp Require Import base numbers functions list sorting relations.
From S2P Require Import Prelude Ieee IeeeArith Fp16 Arithmetic HardwarePipeline.
From S2P Require Import VectorMath RowPipeline RowPhases RowReference RowBeats RowState.

#[local] Arguments Nat.div : simpl never.
#[local] Arguments Nat.modulo : simpl never.
#[local] Arguments Nat.mul : simpl never.


(** ** The invariant *)

Definition row_submissions := list (Z * (SFUVectorRequest * Z)).

(** The tokens in flight of a row. *)
Definition row_tokens (key : Z) (ts : list (Z * RowToken)) : list (Z * RowToken) :=
  filter (fun kt => tk_context kt.2 = key) ts.

(** The cycles of steps do not go back, and no 64-bit cycle or identifier wraps during the
    step: it can start at most [contexts_] rows and as many beats. *)
Definition row_clock (p : SFURowPipeline) (last now : Z) : Prop :=
  0 <= last <= now /\ (forall u, 0 <= latency (units_ p u) /\ now + latency (units_ p u) < 2 ^ 64) /\
  contextSequence_ p + Z.of_nat (contexts_ (config_ p)) < 2 ^ 64 /\
  beatSequence_ p + Z.of_nat (contexts_ (config_ p)) < 2 ^ 64.

Section refinement.
Context `{Libm}.
Context (g : RowConfig) (L : RowUnit -> Z).
Notation by_key := (fun x y => x.1 < y.1).

(** A completion carries the reference's result for the request it answers. *)
Definition row_completion_ok (log : row_submissions) (c : RowCompletion) : Prop :=
  exists r, (rc_job c, (r, rc_submittedCycle c)) ∈ log /\ rc_op c = op r /\
    evaluateSFUVectorOp (arithmetic_ g) r true (tree_ g) = Ok (Some (rc_values c)).

Definition of_job (id : Z) (c : RowContext) : bool := r_job c =? id.

Record job_inv (log : row_submissions) (rows : list (Z * RowContext)) (id : Z) (j : RowJob) : Prop := {
  ji_request : exists r inp coef, (id, (r, rj_submitted j)) ∈ log /\ row_request r inp coef /\ job_for r inp coef j;
  ji_output : length (rj_output j) = length (rj_input j);
  ji_rows : (rj_finished j + count_values (of_job id) rows = rj_nextRow j)%nat /\ (rj_nextRow j <= job_rows j)%nat /\
            (rj_finished j < job_rows j)%nat;
  ji_segments : forall row, (row < job_rows j)%nat ->
    (forall key c, map_at key rows = Some c -> r_job c = id -> r_row c <> row) ->
    segment j row (rj_output j) = if (row <? rj_nextRow j)%nat then row_output g j row else row_initial j row }.

Record row_inv (last : Z) (jobs : list (Z * RowJob)) (rows : list (Z * RowContext)) (pending : list (Z * RowToken))
    (beatSequence key : Z) (c : RowContext) : Prop := {
  wi_job : exists j, map_at (r_job c) jobs = Some j /\ (r_row c < rj_nextRow j)%nat /\
    row_state g L j (rj_output j) last c (row_tokens key pending);
  wi_beats : Forall (fun kb => kb.1 <= beatSequence) (r_beats c);
  wi_distinct : forall key' c', map_at key' rows = Some c' -> r_job c' = r_job c -> r_row c' = r_row c -> key' = key }.

Record pipeline_inv (log : row_submissions) (last : Z) (p : SFURowPipeline) : Prop := {
  pi_config : config_ p = g;
  pi_latency : forall u, latency (units_ p u) = L u;
  pi_sequence : 0 <= sequence_ p < 2 ^ 64 /\ 0 <= contextSequence_ p < 2 ^ 64 /\ 0 <= beatSequence_ p < 2 ^ 64;
  pi_log : Forall (fun x => x.1 <= sequence_ p) log;
  pi_job_keys : StronglySorted by_key (jobs_ p) /\ Forall (fun kv => kv.1 <= sequence_ p) (jobs_ p);
  pi_row_keys : StronglySorted by_key (rows_ p) /\ Forall (fun kv => kv.1 <= contextSequence_ p) (rows_ p);
  pi_pending : StronglySorted (fun x y => x.1 <= y.1) (pending_ p);
  pi_tokens : Forall (fun kt => is_Some (map_at (tk_context kt.2) (rows_ p))) (pending_ p);
  pi_jobs : forall id j, map_at id (jobs_ p) = Some j -> job_inv log (rows_ p) id j;
  pi_rows : forall key c, map_at key (rows_ p) = Some c ->
    row_inv last (jobs_ p) (rows_ p) (pending_ p) (beatSequence_ p) key c;
  pi_completed : Forall (row_completion_ok log) (completed_ p);
  pi_contexts : (length (rows_ p) <= contexts_ g)%nat }.

Lemma map_set_length {A} k (v : A) m : length (map_set k v m) = length m.
Proof. rewrite <- (length_map fst), map_set_keys. apply length_map. Qed.
Lemma map_erase_length {A} k (m : list (Z * A)) : (length (map_erase k m) <= length m)%nat.
Proof.
  induction m as [|[k' v] m IH]; cbn [map_erase length]; [lia|]. destruct (k =? k'); cbn [length]; lia.
Qed.

(** Fields the invariant does not mention may change freely. *)
Lemma row_pipeline_inv_eq log last p p' :
  pipeline_inv log last p -> config_ p' = config_ p -> (forall u, latency (units_ p' u) = latency (units_ p u)) ->
  sequence_ p' = sequence_ p -> contextSequence_ p' = contextSequence_ p -> beatSequence_ p' = beatSequence_ p ->
  jobs_ p' = jobs_ p -> rows_ p' = rows_ p -> pending_ p' = pending_ p -> Forall (row_completion_ok log) (completed_ p') ->
  pipeline_inv log last p'.
Proof.
  intros [] E1 E2 E3 E4 E5 E6 E7 E8 E9. split; rewrite ?E1, ?E3, ?E4, ?E5, ?E6, ?E7, ?E8; try done.
  intros u. by rewrite E2.
Qed.

Lemma pipeline_inv_later log last last' p : pipeline_inv log last p -> last <= last' -> pipeline_inv log last' p.
Proof.
  intros [] Hl. split; try done. intros key c Hc. destruct (pi_rows0 key c Hc) as [(j & H1 & H2 & H3) W2 W3].
  split; try done. exists j. repeat (split; [done|]). by eapply row_state_later.
Qed.

(** The facts about the job of a row. *)
Lemma row_job log last p key c :
  pipeline_inv log last p -> map_at key (rows_ p) = Some c ->
  exists j, map_at (r_job c) (jobs_ p) = Some j /\ (r_row c < rj_nextRow j)%nat /\
    row_state g L j (rj_output j) last c (row_tokens key (pending_ p)) /\
    job_ok j /\ (r_row c < job_rows j)%nat /\ representable CFloat (rj_epsilon j) /\
    length (rj_output j) = length (rj_input j).
Proof.
  intros I Hc. destruct (pi_rows _ _ _ I key c Hc) as [(j & H1 & H2 & H3) _ _]. exists j.
  destruct (pi_jobs _ _ _ I _ _ H1) as [(r & inp & coef & Hin & Q & F) Ho (_ & Hr & _) _].
  repeat (split; [done|]). split; [by eapply job_for_ok|]. split; [lia|]. split; [|done].
  rewrite (jf_epsilon _ _ _ _ F). apply Q.
Qed.

(** ** A row goes on *)

Lemma row_tokens_other key t d ts : key <> tk_context t -> StronglySorted (fun x y : Z * RowToken => x.1 <= y.1) ts ->
  row_tokens key (multimap_emplace d t ts) = row_tokens key ts.
Proof.
  intros Hne Hs. unfold row_tokens. rewrite filter_multimap_emplace by done. rewrite decide_False; [done|]. cbn. congruence.
Qed.
Lemma row_tokens_self t d ts : StronglySorted (fun x y : Z * RowToken => x.1 <= y.1) ts ->
  row_tokens (tk_context t) (multimap_emplace d t ts) = multimap_emplace d t (row_tokens (tk_context t) ts).
Proof. intros Hs. unfold row_tokens. rewrite filter_multimap_emplace by done. by rewrite decide_True. Qed.

(** The context [key] becomes [c'], its job's output [out], and only its tokens change. *)
Lemma update_row log last last' p p' key c c' j out :
  pipeline_inv log last p -> map_at key (rows_ p) = Some c -> map_at (r_job c) (jobs_ p) = Some j ->
  last <= last' -> r_job c' = r_job c -> r_row c' = r_row c ->
  config_ p' = config_ p -> (forall u, latency (units_ p' u) = latency (units_ p u)) ->
  sequence_ p' = sequence_ p -> contextSequence_ p' = contextSequence_ p ->
  beatSequence_ p <= beatSequence_ p' < 2 ^ 64 -> completed_ p' = completed_ p ->
  rows_ p' = map_set key c' (rows_ p) -> jobs_ p' = map_set (r_job c) (job_with j (rj_nextRow j) (rj_finished j) out) (jobs_ p) ->
  StronglySorted (fun x y => x.1 <= y.1) (pending_ p') ->
  Forall (fun kt => is_Some (map_at (tk_context kt.2) (rows_ p))) (pending_ p') ->
  (forall k, k <> key -> row_tokens k (pending_ p') = row_tokens k (pending_ p)) ->
  length out = length (rj_output j) ->
  (forall row, row <> r_row c -> segment j row out = segment j row (rj_output j)) ->
  row_state g L j out last' c' (row_tokens key (pending_ p')) ->
  Forall (fun kb => kb.1 <= beatSequence_ p') (r_beats c') ->
  pipeline_inv log last' p'.
Proof.
  intros I Hc Hj Hl Ejob Erow E1 E2 E3 E4 E5 E6 Er Ej Hps Hpt Hother Hlen Hseg Hst Hb.
  pose proof I as [I1 I2 I3 I4 [I5 I5'] [I6 I6'] I7 I8 I9 I10 I11 I12].
  pose proof (fun k => map_at_set key k c' c (rows_ p) Hc) as Hrows.
  pose proof (fun k => map_at_set (r_job c) k (job_with j (rj_nextRow j) (rj_finished j) out) j (jobs_ p) Hj) as Hjobs.
  split; rewrite ?E1, ?E3, ?E4, ?E6, ?Er, ?Ej; try done.
  - intros u. by rewrite E2.
  - split; [lia|]. split; lia.
  - split; [by apply keys_sorted_set|by apply (map_set_Forall_keys (fun k => k <= sequence_ p))].
  - split; [by apply keys_sorted_set|by apply (map_set_Forall_keys (fun k => k <= contextSequence_ p))].
  - eapply Forall_impl; [exact Hpt|]. intros kt [x Hx]. cbn. rewrite Hrows. destruct (tk_context kt.2 =? key); eauto.
  - intros id j0. rewrite Hjobs.
    assert (Hcnt : count_values (of_job id) (map_set key c' (rows_ p)) = count_values (of_job id) (rows_ p))
      by (eapply count_values_set; [exact Hc|]; unfold of_job; by rewrite Ejob).
    assert (Hact : forall row,
      (forall k x, map_at k (map_set key c' (rows_ p)) = Some x -> r_job x = id -> r_row x <> row) ->
      (forall k x, map_at k (rows_ p) = Some x -> r_job x = id -> r_row x <> row)).
    { intros row Ha k x Hx Hjx. destruct (Z.eqb_spec k key) as [->|Hne].
      - rewrite Hc in Hx. injection Hx as <-. rewrite <- Erow. apply (Ha key c'); [|congruence].
        by rewrite Hrows, Z.eqb_refl.
      - apply (Ha k x); [|done]. by rewrite Hrows, (proj2 (Z.eqb_neq k key)). }
    destruct (Z.eqb_spec id (r_job c)) as [->|Hne].
    + intros [= <-]. destruct (I9 _ _ Hj) as [(r & inp & coef & Hin & Q & F) Ho Hn Hs].
      split; rewrite ?Hcnt; try done.
      * exists r, inp, coef. split; [exact Hin|]. split; [done|]. by apply job_for_with.
      * cbn. congruence.
      * intros row Hrow Ha. cbn [job_with rj_nextRow].
        assert (row <> r_row c) as Hnr.
        { intros ->. apply (Ha key c'); [by rewrite Hrows, Z.eqb_refl|done..]. }
        assert (segment j row out = if (row <? rj_nextRow j)%nat then row_output g j row else row_initial j row) as Hs'.
        { rewrite Hseg by done. apply Hs; [done|]. by apply Hact. }
        destruct (segments_with g j (rj_nextRow j) (rj_finished j) out row out (rj_nextRow j)) as [Es Ew].
        etransitivity; [exact Es|]. rewrite Hs'. symmetry. exact Ew.
    + intros Hj0. destruct (I9 _ _ Hj0) as [Hr Ho Hn Hs]. split; rewrite ?Hcnt; try done.
      intros row Hrow Ha. apply Hs; [done|]. by apply Hact.
  - intros k x Hx. rewrite Hrows in Hx.
    assert (Hd : forall k' x', map_at k' (map_set key c' (rows_ p)) = Some x' -> exists y, map_at k' (rows_ p) = Some y /\
      r_job y = r_job x' /\ r_row y = r_row x').
    { intros k' x'. rewrite Hrows. destruct (Z.eqb_spec k' key) as [->|]; [intros [= <-]; by exists c|by exists x']. }
    destruct (Z.eqb_spec k key) as [->|Hne].
    + injection Hx as <-. destruct (I10 _ _ Hc) as [(j1 & W1 & W2 & _) _ W3]. rewrite Hj in W1. injection W1 as <-.
      split; [|done|].
      * exists (job_with j (rj_nextRow j) (rj_finished j) out). rewrite Ejob, Erow, Hjobs, Z.eqb_refl.
        split; [done|]. split; [done|]. by apply row_state_with.
      * intros k' x' (y & Hy & Ey1 & Ey2)%Hd E7 E8. apply (W3 k' y); congruence.
    + destruct (I10 _ _ Hx) as [(j1 & W1 & W2 & W3) W4 W5]. split.
      * rewrite Hother by done. destruct (Z.eqb_spec (r_job x) (r_job c)) as [Ee|Ne].
        -- exists (job_with j (rj_nextRow j) (rj_finished j) out). rewrite Ee, Hjobs, Z.eqb_refl in *.
           rewrite Hj in W1. injection W1 as <-. split; [done|]. split; [done|]. apply row_state_with.
           eapply row_state_later; [|exact Hl]. destruct W3 as (d & acc & mx & seg & W). exists d, acc, mx, seg.
           assert (r_row x <> r_row c) as Hnr.
           { intros E7. apply Hne. destruct (I10 _ _ Hc) as [_ _ W6]. by apply (W6 k x). }
           destruct W as [R1 R2 R3 R4 R5 R6 R7 R8 R9]. split; try done. cbn [job_with rj_output]. by rewrite Hseg.
        -- exists j1. rewrite Hjobs, (proj2 (Z.eqb_neq _ _)) by done. split; [done|]. split; [done|].
           by eapply row_state_later.
      * eapply Forall_impl; [exact W4|]. intros kb Hkb. cbn in *. lia.
      * intros k' x' (y & Hy & Ey1 & Ey2)%Hd E7 E8. apply (W5 k' y); congruence.
  - by rewrite map_set_length.
Qed.

(** ** A row ends *)

Lemma count_values_zero (P : RowContext -> bool) (m : list (Z * RowContext)) k x :
  count_values P m = 0%nat -> map_at k m = Some x -> P x = false.
Proof.
  intros Hc Hx. rewrite (count_values_erase P k x m Hx) in Hc. destruct (P x); [lia|done].
Qed.

(** The output of a job whose rows are all in place is the reference's. *)
Lemma row_finished_values log rows id j out :
  job_inv log rows id j -> length out = length (rj_input j) ->
  (forall row, (row < job_rows j)%nat -> segment j row out = row_output g j row) ->
  forall d, row_completion_ok log (mkRowCompletion id (rj_submitted j) d (rj_op j) out).
Proof.
  intros [(r & inp & coef & Hin & Q & F) _ _ _] Hl Hs d.
  exists r. split; [exact Hin|]. split; [by rewrite <- (jf_op _ _ _ _ F)|]. cbn [rc_values].
  rewrite (evaluate_rows g j r inp coef Q F). do 2 f_equal. symmetry. f_equal.
  destruct (job_rows_for j r inp coef Q F) as (_ & Hl' & _).
  apply (concat_segments (rj_width j)); [rewrite Hl, (jf_input _ _ _ _ F); done|exact Hs].
Qed.

Lemma end_row log last p p' key c j out done_ :
  pipeline_inv log last p -> map_at key (rows_ p) = Some c -> map_at (r_job c) (jobs_ p) = Some j ->
  config_ p' = config_ p -> (forall u, latency (units_ p' u) = latency (units_ p u)) ->
  sequence_ p' = sequence_ p -> contextSequence_ p' = contextSequence_ p -> beatSequence_ p' = beatSequence_ p ->
  rows_ p' = map_erase key (rows_ p) ->
  jobs_ p' = (if (S (rj_finished j) =? job_rows j)%nat then map_erase (r_job c) (jobs_ p)
              else map_set (r_job c) (job_with j (rj_nextRow j) (S (rj_finished j)) out) (jobs_ p)) ->
  completed_ p' = (if (S (rj_finished j) =? job_rows j)%nat
                   then completed_ p ++ [mkRowCompletion (r_job c) (rj_submitted j) done_ (rj_op j) out] else completed_ p) ->
  StronglySorted (fun x y => x.1 <= y.1) (pending_ p') ->
  Forall (fun kt => is_Some (map_at (tk_context kt.2) (rows_ p))) (pending_ p') ->
  (forall k, k <> key -> row_tokens k (pending_ p') = row_tokens k (pending_ p)) -> row_tokens key (pending_ p') = [] ->
  length out = length (rj_output j) ->
  (forall row, row <> r_row c -> segment j row out = segment j row (rj_output j)) ->
  segment j (r_row c) out = row_output g j (r_row c) ->
  pipeline_inv log last p'.
Proof.
  intros I Hc Hj E1 E2 E3 E4 E5 Er Ej Ec Hps Hpt Hother Hnone Hlen Hseg Hself.
  pose proof I as [I1 I2 I3 I4 [I5 I5'] [I6 I6'] I7 I8 I9 I10 I11 I12].
  pose proof (fun k => map_at_erased key k (rows_ p) I6) as Hrows.
  pose proof (I9 _ _ Hj) as Jc. pose proof Jc as [Jreq Jout (Jn1 & Jn2 & Jn3) Jseg].
  destruct (I10 _ _ Hc) as [(j1 & W1 & W2 & _) _ W3]. rewrite Hj in W1. injection W1 as <-.
  assert (Hcount : forall id, count_values (of_job id) (rows_ p) =
    ((if (r_job c =? id)%Z then 1 else 0) + count_values (of_job id) (map_erase key (rows_ p)))%nat)
    by (intros id; by rewrite (count_values_erase _ key c) by done).
  assert (Hact : forall row, row <> r_row c ->
    (forall k x, map_at k (map_erase key (rows_ p)) = Some x -> r_job x = r_job c -> r_row x <> row) ->
    (forall k x, map_at k (rows_ p) = Some x -> r_job x = r_job c -> r_row x <> row)).
  { intros row Hnr Ha k x Hx Hjx. destruct (Z.eqb_spec k key) as [->|Hne].
    - rewrite Hc in Hx. injection Hx as <-. congruence.
    - apply (Ha k x); [|done]. by rewrite Hrows, (proj2 (Z.eqb_neq k key)). }
  assert (Hsegs : forall row, (row < job_rows j)%nat ->
    (forall k x, map_at k (map_erase key (rows_ p)) = Some x -> r_job x = r_job c -> r_row x <> row) ->
    segment j row out = if (row <? rj_nextRow j)%nat then row_output g j row else row_initial j row).
  { intros row Hrow Ha. destruct (Nat.eq_dec row (r_row c)) as [->|Hnr].
    - by rewrite (proj2 (Nat.ltb_lt _ _)).
    - rewrite Hseg by done. apply Jseg; [done|]. by apply Hact. }
  assert (Hjobs : forall id j0, map_at id (jobs_ p') = Some j0 ->
    (id <> r_job c /\ map_at id (jobs_ p) = Some j0) \/
    (id = r_job c /\ (S (rj_finished j) <> job_rows j)%nat /\ j0 = job_with j (rj_nextRow j) (S (rj_finished j)) out)).
  { intros id j0. rewrite Ej. destruct (Nat.eqb_spec (S (rj_finished j)) (job_rows j)).
    - rewrite map_at_erased by done. destruct (Z.eqb_spec id (r_job c)); [done|by left].
    - rewrite (map_at_set _ _ _ j) by done. destruct (Z.eqb_spec id (r_job c)); [intros [= <-]; by right|by left]. }
  assert (Hlast : (S (rj_finished j) = job_rows j)%nat -> forall k x,
    map_at k (map_erase key (rows_ p)) = Some x -> r_job x <> r_job c).
  { intros El k x Hx E. specialize (Hcount (r_job c)). rewrite Z.eqb_refl in Hcount.
    assert (count_values (of_job (r_job c)) (map_erase key (rows_ p)) = 0)%nat as H0 by lia.
    pose proof (count_values_zero _ _ _ _ H0 Hx) as Hf. unfold of_job in Hf. by apply Z.eqb_neq in Hf. }
  split; rewrite ?E1, ?E3, ?E4, ?E5, ?Er; try done.
  - intros u. by rewrite E2.
  - rewrite Ej. destruct (_ =? _)%nat.
    + split; [by apply keys_sorted_erase|by apply (map_erase_Forall_keys (fun k => k <= sequence_ p))].
    + split; [by apply keys_sorted_set|by apply (map_set_Forall_keys (fun k => k <= sequence_ p))].
  - split; [by apply keys_sorted_erase|by apply (map_erase_Forall_keys (fun k => k <= contextSequence_ p))].
  - rewrite Forall_forall in Hpt |- *. intros kt Hin. rewrite Hrows.
    destruct (Z.eqb_spec (tk_context kt.2) key) as [E|]; [|by apply Hpt].
    exfalso. assert (kt ∈ row_tokens key (pending_ p')) as Hk by (by apply list_elem_of_filter).
    rewrite Hnone in Hk. by apply elem_of_nil in Hk.
  - intros id j0 [[Hne Hj0]|(-> & Hne & ->)]%Hjobs.
    + destruct (I9 _ _ Hj0) as [Hr Ho Hn Hs]. rewrite Hcount, (proj2 (Z.eqb_neq (r_job c) id)) in Hn by done.
      split; try done. intros row Hrow Ha. apply Hs; [done|]. intros k x Hx Hjx.
      apply (Ha k x); [|done]. rewrite Hrows. destruct (Z.eqb_spec k key) as [->|]; [congruence|done].
    + specialize (Hcount (r_job c)). rewrite Z.eqb_refl in Hcount. split.
      * destruct Jreq as (r & inp & coef & Hin & Q & F). exists r, inp, coef. split; [exact Hin|].
        split; [done|]. by apply job_for_with.
      * cbn. congruence.
      * change (job_rows (job_with j (rj_nextRow j) (S (rj_finished j)) out)) with (job_rows j).
        cbn [job_with rj_finished rj_nextRow]. lia.
      * intros row Hrow Ha. specialize (Hsegs row Hrow Ha).
        destruct (segments_with g j (rj_nextRow j) (S (rj_finished j)) out row out (rj_nextRow j)) as [Es Ew].
        etransitivity; [exact Es|]. rewrite Hsegs. symmetry. exact Ew.
  - intros k x Hx. rewrite Hrows in Hx. destruct (Z.eqb_spec k key) as [->|Hne]; [done|].
    destruct (I10 _ _ Hx) as [(j1 & V1 & V2 & V3) V4 V5]. split; [|done|].
    + rewrite Hother by done. rewrite Ej. destruct (Z.eqb_spec (r_job x) (r_job c)) as [Ee|Ne].
      * destruct (Nat.eqb_spec (S (rj_finished j)) (job_rows j)) as [El|El].
        { exfalso. apply (Hlast El k x); [|done]. by rewrite Hrows, (proj2 (Z.eqb_neq k key)). }
        exists (job_with j (rj_nextRow j) (S (rj_finished j)) out). rewrite Ee, (map_at_set _ _ _ j), Z.eqb_refl by done.
        rewrite Ee, Hj in V1. injection V1 as <-. split; [done|]. split; [done|]. apply row_state_with.
        destruct V3 as (d & acc & mx & seg & V). exists d, acc, mx, seg.
        assert (r_row x <> r_row c) as Hnr by (intros E7; apply Hne; by apply (W3 k x)).
        destruct V as [R1 R2 R3 R4 R5 R6 R7 R8 R9]. split; try done. cbn [job_with rj_output]. by rewrite Hseg.
      * exists j1. split; [|done]. destruct (_ =? _)%nat; [rewrite map_at_erased by done|rewrite (map_at_set _ _ _ j) by done];
          by rewrite (proj2 (Z.eqb_neq _ _)).
    + intros k' x'. rewrite Hrows. destruct (Z.eqb_spec k' key) as [->|]; [done|]. intros Hx'. by apply (V5 k' x').
  - rewrite Ec. destruct (Nat.eqb_spec (S (rj_finished j)) (job_rows j)) as [El|El]; [|done].
    apply Forall_app. split; [done|]. apply Forall_singleton. eapply row_finished_values; [exact Jc|congruence|].
    intros row Hrow. rewrite Hsegs; [|done|].
    + rewrite (proj2 (Nat.ltb_lt _ _)); [reflexivity|]. specialize (Hcount (r_job c)). rewrite Z.eqb_refl in Hcount. lia.
    + intros k x Hx Hjx. exfalso. by eapply Hlast.
  - pose proof (map_erase_length key (rows_ p)). lia.
Qed.

(** ** Completing the tokens that are due *)

Lemma advance_fields j c id b :
  r_job (row_advance g j c id b) = r_job c /\ r_row (row_advance g j c id b) = r_row c /\
  r_beats (row_advance g j c id b) = (if b_finished b then map_erase id (r_beats c) else map_set id b (r_beats c)).
Proof.
  unfold row_advance. destruct (b_finished b); [|done]. cbv zeta.
  set (c2 := with_beats _ _). destruct (nextPhase_fields g j c2) as (N1 & N2 & N3 & _).
  destruct (_ =? _)%nat; [|done]. rewrite N1, N2, N3. done.
Qed.

(** [complete_token] by way of [row_advance]. *)
Lemma complete_token_eq p t d c b j c1 b1 out :
  map_at (tk_context t) (rows_ p) = Some c -> map_at (tk_beat t) (r_beats c) = Some b ->
  map_at (r_job c) (jobs_ p) = Some j -> config_ p = g ->
  row_complete g j c (beat_idle b) (tk_port t) = Ok (c1, b1, out) -> r_job c1 = r_job c ->
  let j' := job_with j (rj_nextRow j) (rj_finished j) out in
  let c2 := row_advance g j' c1 (tk_beat t) b1 in
  exists p1, complete_token p t d = Ok (if bool_decide (r_phase c2 = PDone) then finish_row p1 (tk_context t) (r_job c) j' d else p1) /\
    config_ p1 = config_ p /\ units_ p1 = units_ p /\ sequence_ p1 = sequence_ p /\ contextSequence_ p1 = contextSequence_ p /\
    beatSequence_ p1 = beatSequence_ p /\ completed_ p1 = completed_ p /\ pending_ p1 = pending_ p /\
    rows_ p1 = map_set (tk_context t) c2 (rows_ p) /\ jobs_ p1 = map_set (r_job c) j' (jobs_ p).
Proof.
  intros Hc Hb Hj Eg E Ejob. cbv zeta. set (j' := job_with j _ _ out).
  destruct (advance_fields j' c1 (tk_beat t) b1) as (A1 & _ & _).
  unfold complete_token, at_or_throw. rewrite Hc. cbn [rbind]. rewrite Hb. cbn [rbind]. rewrite Hj. cbn [rbind].
  rewrite Eg, E. cbn [rbind]. fold j'. rewrite Ejob.
  destruct (b_finished b1) eqn:Ef.
  - assert ((let c := with_beats (with_progress c1 (r_cursor c1) (r_completed c1 + b_count b1)%nat) (map_erase (tk_beat t) (r_beats c1)) in
      if (r_completed c =? row_width g j' (r_phase c) (r_reduceSize c))%nat then row_nextPhase g j' c else c) = row_advance g j' c1 (tk_beat t) b1) as Ec
      by (unfold row_advance; rewrite Ef; done).
    cbv zeta in Ec |- *. rewrite Ec. eexists. rewrite A1, Ejob. case_bool_decide; split; [reflexivity|done|reflexivity|done].
  - assert (with_beats c1 (map_set (tk_beat t) b1 (r_beats c1)) = row_advance g j' c1 (tk_beat t) b1) as Ec
      by (unfold row_advance; rewrite Ef; done).
    cbv zeta. rewrite Ec, A1, Ejob. eexists. case_bool_decide; split; [reflexivity|done|reflexivity|done].
Qed.

Lemma complete_token_inv log last p d t rest :
  pipeline_inv log last p -> pending_ p = (d, t) :: rest ->
  exists p', complete_token (set_row_pending p rest) t d = Ok p' /\ pipeline_inv log last p' /\
    contextSequence_ p' = contextSequence_ p /\ beatSequence_ p' = beatSequence_ p.
Proof.
  intros I Ep. set (key := tk_context t).
  pose proof (pi_tokens _ _ _ I) as Ht. pose proof (pi_pending _ _ _ I) as Hs. rewrite Ep in Ht, Hs.
  apply Forall_cons in Ht as [[c Hc] Ht]. cbn in Hc. fold key in Hc. apply StronglySorted_inv in Hs as [Hs _].
  destruct (row_job _ _ _ _ _ I Hc) as (j & Hj & Hn & Hst & J & Hrow & Heps & Hout).
  assert (row_tokens key (pending_ p) = (d, t) :: row_tokens key rest) as Et
    by (unfold row_tokens; rewrite Ep, filter_cons_True; done).
  rewrite Et in Hst.
  destruct (row_complete_ok g L j last c (d, t) (row_tokens key rest) J Hrow Heps Hout Hst)
    as (b & c1 & b1 & out & Hb & Hr & F1 & F2 & F3 & F4 & F5 & Ho). cbn [snd] in *.
  set (j' := job_with j (rj_nextRow j) (rj_finished j) out).
  destruct (complete_token_eq (set_row_pending p rest) t d c b j c1 b1 out Hc Hb Hj (pi_config _ _ _ I) Hr F1)
    as (p1 & E & G1 & G2 & G3 & G4 & G5 & G6 & G7 & G8 & G9). fold key in E, G8. fold j' in E, G8, G9.
  cbn [set_row_pending config_ units_ sequence_ contextSequence_ beatSequence_ completed_ pending_ rows_ jobs_] in *.
  assert (row_advance g j' c1 (tk_beat t) b1 = row_advance g j c1 (tk_beat t) b1) as Ea by reflexivity.
  rewrite Ea in *. set (c2 := row_advance g j c1 (tk_beat t) b1) in *.
  destruct (advance_fields j c1 (tk_beat t) b1) as (A1 & A2 & A3). fold c2 in A1, A2, A3.
  assert (Hother : forall k, k <> key -> row_tokens k rest = row_tokens k (pending_ p)).
  { intros k Hk. unfold row_tokens. rewrite Ep, filter_cons_False; [done|]. cbn. by intros E'; apply Hk. }
  unfold row_outcome in Ho. rewrite A2, F2 in Ho. destruct (decide (r_phase c2 = PDone)) as [Ed|Ed].
  - rewrite bool_decide_true in E by done. destruct Ho as [Hnone Hself].
    eexists. split; [exact E|].
    assert (Hfin : forall q, q = finish_row p1 key (r_job c) j' d ->
      config_ q = config_ p /\ units_ q = units_ p /\ sequence_ q = sequence_ p /\ contextSequence_ q = contextSequence_ p /\
      beatSequence_ q = beatSequence_ p /\ pending_ q = rest /\ rows_ q = map_erase key (rows_ p) /\
      jobs_ q = (if (S (rj_finished j) =? job_rows j)%nat then map_erase (r_job c) (jobs_ p)
              else map_set (r_job c) (job_with j (rj_nextRow j) (S (rj_finished j)) out) (jobs_ p)) /\
      completed_ q = (if (S (rj_finished j) =? job_rows j)%nat
                   then completed_ p ++ [mkRowCompletion (r_job c) (rj_submitted j) d (rj_op j) out] else completed_ p)).
    { intros q ->. unfold finish_row. cbn [job_with j' rj_finished].
      change (job_rows (job_with j' (rj_nextRow j') (S (rj_finished j)) (rj_output j'))) with (job_rows j).
      destruct (_ =? _)%nat; cbn [set_row_jobs set_used set_row_completed set_rows config_ units_ sequence_ contextSequence_
        beatSequence_ pending_ rows_ jobs_ completed_]; rewrite ?G1, ?G2, ?G3, ?G4, ?G5, ?G6, ?G7, ?G8, ?G9, ?map_erase_set, ?map_set_set;
        repeat split; done. }
    destruct (Hfin _ eq_refl) as (H1 & H2 & H3 & H4 & H5 & H6 & H7 & H8 & H9).
    split; [|by rewrite H4, H5]. eapply (end_row log last p _ key c j out d I Hc Hj); try done; rewrite ?H6; try done.
    + intros u. by rewrite H2.
  - rewrite bool_decide_false in E by done. exists p1. split; [exact E|]. split; [|done].
    eapply (update_row log last last p p1 key c c2 j out I Hc Hj); try done; rewrite ?G7; try done; try lia; try congruence.
    + destruct (pi_sequence _ _ _ I) as (_ & _ & ?). rewrite G5. lia.
    + rewrite A3, F3, G5. destruct (pi_rows _ _ _ I _ _ Hc) as [_ W _].
      destruct (b_finished b1); [by apply (map_erase_Forall_keys (fun k => k <= beatSequence_ p))|
        by apply (map_set_Forall_keys (fun k => k <= beatSequence_ p))].
Qed.

Lemma complete_tokens_inv log last now fuel : forall p,
  pipeline_inv log last p -> exists p', complete_tokens fuel p now = Ok p' /\ pipeline_inv log last p' /\
    contextSequence_ p' = contextSequence_ p /\ beatSequence_ p' = beatSequence_ p.
Proof.
  induction fuel as [|fuel IH]; intros p I; [by exists p|]. cbn [complete_tokens].
  destruct (pending_ p) as [|[d t] rest] eqn:Ep; [by exists p|]. destruct (d <=? now); [|by exists p].
  destruct (complete_token_inv log last p d t rest I Ep) as (p1 & -> & I1 & <- & <-). cbn [rbind]. by apply IH.
Qed.

(** ** Admission *)

Lemma row_fresh_state j row last :
  job_ok j -> (row < job_rows j)%nat -> segment j row (rj_output j) = row_initial j row ->
  forall id, row_state g L j (rj_output j) last (row_fresh id row (rj_width j)) [].
Proof.
  intros J Hrow Hs id. pose proof (jk_width j J).
  assert (row_outcome g L j (rj_output j) last (row_fresh id row (rj_width j)) []) as Ho; [|exact Ho].
  eapply (row_boundary g L j _ last _ (row_initial j row)); try done.
  split; try done. split; apply length_replicate.
Qed.

Lemma admit_row log last p p' id j :
  pipeline_inv log last p -> map_at id (jobs_ p) = Some j -> rj_nextRow j <> job_rows j ->
  contextSequence_ p + 1 < 2 ^ 64 -> (length (rows_ p) < contexts_ g)%nat ->
  config_ p' = config_ p -> units_ p' = units_ p -> sequence_ p' = sequence_ p ->
  contextSequence_ p' = contextSequence_ p + 1 -> beatSequence_ p' = beatSequence_ p -> completed_ p' = completed_ p ->
  pending_ p' = pending_ p ->
  rows_ p' = rows_ p ++ [(contextSequence_ p + 1, row_fresh id (rj_nextRow j) (rj_width j))] ->
  jobs_ p' = map_set id (job_with j (S (rj_nextRow j)) (rj_finished j) (rj_output j)) (jobs_ p) ->
  pipeline_inv log last p'.
Proof.
  intros I Hj Hnext Hc Hroom E1 E2 E3 E4 E5 E6 E7 Er Ej. set (key := contextSequence_ p + 1) in *.
  set (c := row_fresh id (rj_nextRow j) (rj_width j)) in *.
  pose proof I as [I1 I2 I3 I4 [I5 I5'] [I6 I6'] I7 I8 I9 I10 I11 I12].
  assert (Hlt : Forall (fun kv => kv.1 < key) (rows_ p))
    by (eapply Forall_impl; [exact I6'|]; intros x Hx; cbn in *; unfold key; lia).
  pose proof (fun k => map_at_last key k c (rows_ p) Hlt) as Hrows.
  pose proof (fun k => map_at_set id k (job_with j (S (rj_nextRow j)) (rj_finished j) (rj_output j)) j (jobs_ p) Hj) as Hjobs.
  pose proof (I9 _ _ Hj) as [Jreq Jout (Jn1 & Jn2 & Jn3) Jseg].
  assert (Hnew : forall k x, map_at k (rows_ p) = Some x -> r_job x = id -> (r_row x < rj_nextRow j)%nat).
  { intros k x Hx <-. destruct (I10 _ _ Hx) as [(j1 & W1 & W2 & _) _ _]. rewrite Hj in W1. by injection W1 as <-. }
  assert (Hkey : forall k x, map_at k (rows_ p) = Some x -> k <> key).
  { intros k x Hx ->. pose proof (map_at_key key x (rows_ p) (fun k => k < key) Hlt Hx) as Hk. cbv beta in Hk. lia. }
  assert (Htok : row_tokens key (pending_ p) = []).
  { destruct (row_tokens key (pending_ p)) as [|kt ts] eqn:Et; [done|]. exfalso.
    assert (kt ∈ row_tokens key (pending_ p)) as [Ek Hin]%list_elem_of_filter by (rewrite Et; left).
    rewrite Forall_forall in I8. destruct (I8 _ Hin) as [x Hx]. apply (Hkey _ _ Hx). exact Ek. }
  assert (J : job_ok j) by (destruct Jreq as (r & inp & coef & _ & Q & F); by eapply job_for_ok).
  assert (Hfresh : row_state g L j (rj_output j) last c []).
  { apply row_fresh_state; [done|lia|]. rewrite Jseg; [by rewrite Nat.ltb_irrefl|lia|].
    intros k x Hx Hjx. pose proof (Hnew _ _ Hx Hjx). lia. }
  split; rewrite ?E1, ?E3, ?E4, ?E5, ?E6, ?E7, ?Er, ?Ej; try done.
  - intros u. by rewrite E2.
  - unfold key. split; [lia|]. split; lia.
  - split; [by apply keys_sorted_set|by apply (map_set_Forall_keys (fun k => k <= sequence_ p))].
  - split; [by apply keys_sorted_last|]. apply Forall_app. split; [|apply Forall_singleton; cbn; lia].
    eapply Forall_impl; [exact Hlt|]. intros x Hx. cbn in *. lia.
  - eapply Forall_impl; [exact I8|]. intros kt [x Hx]. rewrite Hrows.
    destruct (Z.eqb_spec (tk_context kt.2) key); [eauto|by exists x].
  - intros id0 j0. rewrite Hjobs.
    assert (Hcnt : count_values (of_job id0) (rows_ p ++ [(key, c)]) =
      (count_values (of_job id0) (rows_ p) + if (id =? id0)%Z then 1 else 0)%nat).
    { rewrite count_values_app, count_values_cons. unfold of_job at 2. cbn. lia. }
    destruct (Z.eqb_spec id0 id) as [->|Hne].
    + intros [= <-]. rewrite Z.eqb_refl in Hcnt. split.
      * destruct Jreq as (r & inp & coef & Hin & Q & F). exists r, inp, coef. split; [exact Hin|]. split; [done|].
        by apply job_for_with.
      * exact Jout.
      * rewrite Hcnt. change (job_rows (job_with j (S (rj_nextRow j)) (rj_finished j) (rj_output j))) with (job_rows j).
        cbn [job_with rj_nextRow rj_finished]. lia.
      * intros row Hrow Ha.
        destruct (segments_with g j (S (rj_nextRow j)) (rj_finished j) (rj_output j) row (rj_output j) (S (rj_nextRow j)))
          as [Es Ew].
        etransitivity; [exact Es|]. etransitivity; [|symmetry; exact Ew]. rewrite Jseg; [|exact Hrow|].
        -- assert (row <> rj_nextRow j) as Hnr
             by (intros ->; apply (Ha key c); [by rewrite Hrows, Z.eqb_refl|done..]).
           destruct (Nat.ltb_spec row (rj_nextRow j)), (Nat.ltb_spec row (S (rj_nextRow j))); try lia; reflexivity.
        -- intros k x Hx Hjx. apply (Ha k x); [|done]. by rewrite Hrows, (proj2 (Z.eqb_neq k key)) by (by eapply Hkey).
    + intros Hj0. destruct (I9 _ _ Hj0) as [Hr Ho Hn Hs]. rewrite (proj2 (Z.eqb_neq id id0)), Nat.add_0_r in Hcnt by congruence.
      split; rewrite ?Hcnt; try done. intros row Hrow Ha. apply Hs; [done|]. intros k x Hx Hjx.
      apply (Ha k x); [|done]. by rewrite Hrows, (proj2 (Z.eqb_neq k key)) by (by eapply Hkey).
  - intros k x Hx. rewrite Hrows in Hx. destruct (Z.eqb_spec k key) as [->|Hne].
    + injection Hx as <-. split.
      * exists (job_with j (S (rj_nextRow j)) (rj_finished j) (rj_output j)). rewrite Hjobs.
        change (r_job c) with id. rewrite Z.eqb_refl. split; [done|]. split; [cbn; lia|].
        rewrite Htok. apply row_state_with. exact Hfresh.
      * apply Forall_nil_2.
      * intros k x. rewrite Hrows. destruct (Z.eqb_spec k key) as [->|]; [done|]. intros Hx Hjx Hrx.
        pose proof (Hnew _ _ Hx Hjx). change (r_row c) with (rj_nextRow j) in Hrx. lia.
    + destruct (I10 _ _ Hx) as [(j1 & W1 & W2 & W3) W4 W5]. split; [|done|].
      * rewrite Hjobs. destruct (Z.eqb_spec (r_job x) id) as [Ee|Ne].
        -- exists (job_with j (S (rj_nextRow j)) (rj_finished j) (rj_output j)). rewrite Ee, Hj in W1. injection W1 as <-.
           split; [done|]. split; [cbn; lia|]. by apply row_state_with.
        -- by exists j1.
      * intros k' x'. rewrite Hrows. destruct (Z.eqb_spec k' key) as [->|]; [|by apply W5].
        intros [= <-] Hjx Hrx. pose proof (Hnew _ _ Hx). change (r_job c) with id in Hjx. change (r_row c) with (rj_nextRow j) in Hrx.
        rewrite Hjx in *. specialize (H0 eq_refl). lia.
  - rewrite length_app. cbn. lia.
Qed.

Lemma rotate_keys_elem cursor keys : forall before k, k ∈ rotate_keys cursor keys before -> k ∈ keys \/ k ∈ before.
Proof.
  induction keys as [|x keys IH]; intros before k; cbn [rotate_keys]; [by right|].
  destruct (cursor <? x); [by intros ?%elem_of_app|].
  intros [Hin|[Hin|Hin%list_elem_of_singleton]%elem_of_app]%IH; [left; by right|by right|left; rewrite Hin; left].
Qed.
Lemma rotated_present {A} cursor (m : list (Z * A)) k :
  StronglySorted by_key m -> k ∈ rotated cursor m -> is_Some (map_at k m).
Proof.
  intros Hs [Hin|Hin]%rotate_keys_elem; [|by apply elem_of_nil in Hin].
  apply list_elem_of_In, in_map_iff in Hin as ([k' v] & E & Hin). cbn in E. subst k'.
  exists v. apply sorted_map_at; [done|by apply list_elem_of_In].
Qed.

Lemma admit_one_inv log last order : forall p,
  pipeline_inv log last p -> contextSequence_ p + 1 < 2 ^ 64 -> (length (rows_ p) < contexts_ g)%nat ->
  (forall id, id ∈ order -> is_Some (map_at id (jobs_ p))) ->
  exists p' b, admit_one p order = Ok (p', b) /\ pipeline_inv log last p' /\
    contextSequence_ p' <= contextSequence_ p + 1 /\ beatSequence_ p' = beatSequence_ p.
Proof.
  induction order as [|id order IH]; intros p I Hc Hroom Ho.
  { exists p, false. split; [done|]. split; [done|]. split; [lia|done]. }
  cbn [admit_one]. destruct (Ho id) as [j Hj]; [left|]. unfold at_or_throw. rewrite Hj. cbn [rbind].
  destruct (_ || _) eqn:Eg.
  { apply IH; [done..|]. intros k Hk. apply Ho. by right. }
  apply orb_false_iff in Eg as [Eg _]. apply Nat.eqb_neq in Eg.
  pose proof (pi_sequence _ _ _ I) as (_ & Hcs & _). pose proof (pi_row_keys _ _ _ I) as [_ Hrk].
  assert (contextSequence_ p ⊞ 1 = contextSequence_ p + 1) as -> by (apply u64_id; split; lia).
  assert (Hrows : map_emplace (contextSequence_ p + 1) (row_fresh id (rj_nextRow j) (rj_width j)) (rows_ p) =
    rows_ p ++ [(contextSequence_ p + 1, row_fresh id (rj_nextRow j) (rj_width j))]).
  { apply map_emplace_last. eapply Forall_impl; [exact Hrk|]. intros x Hx. cbn in *. lia. }
  eexists _, true. split; [reflexivity|]. split; [|split].
  - eapply (admit_row log last p _ id j I Hj Eg Hc Hroom); try done.
  - cbn. lia.
  - done.
Qed.

Lemma admitRows_inv log last fuel : forall p,
  pipeline_inv log last p -> contextSequence_ p + Z.of_nat fuel < 2 ^ 64 ->
  exists p', admitRows fuel p = Ok p' /\ pipeline_inv log last p' /\ beatSequence_ p' = beatSequence_ p.
Proof.
  induction fuel as [|fuel IH]; intros p I Hc; [by exists p|]. cbn [admitRows].
  rewrite (pi_config _ _ _ I). destruct (Nat.ltb_spec (length (rows_ p)) (contexts_ g)) as [Hroom|]; [|by exists p].
  destruct (admit_one_inv log last (rotated (admissionCursor_ p) (jobs_ p)) p I ltac:(lia) Hroom) as (p1 & b & -> & I1 & H1 & H2).
  { intros id. apply rotated_present, I. }
  cbn [rbind]. destruct b; [|by exists p1]. rewrite <- H2. apply IH; [done|lia].
Qed.

(** ** Allocation and issue *)

Lemma job_with_same j : job_with j (rj_nextRow j) (rj_finished j) (rj_output j) = j.
Proof. by destruct j. Qed.

(** [update_row] for a context that leaves its job alone. *)
Lemma update_context log last p p' key c c' j :
  pipeline_inv log last p -> map_at key (rows_ p) = Some c -> map_at (r_job c) (jobs_ p) = Some j ->
  r_job c' = r_job c -> r_row c' = r_row c ->
  config_ p' = config_ p -> (forall u, latency (units_ p' u) = latency (units_ p u)) ->
  sequence_ p' = sequence_ p -> contextSequence_ p' = contextSequence_ p ->
  beatSequence_ p <= beatSequence_ p' < 2 ^ 64 -> completed_ p' = completed_ p ->
  rows_ p' = map_set key c' (rows_ p) -> jobs_ p' = jobs_ p ->
  StronglySorted (fun x y => x.1 <= y.1) (pending_ p') ->
  Forall (fun kt => is_Some (map_at (tk_context kt.2) (rows_ p))) (pending_ p') ->
  (forall k, k <> key -> row_tokens k (pending_ p') = row_tokens k (pending_ p)) ->
  row_state g L j (rj_output j) last c' (row_tokens key (pending_ p')) ->
  Forall (fun kb => kb.1 <= beatSequence_ p') (r_beats c') ->
  pipeline_inv log last p'.
Proof.
  intros I Hc Hj E1 E2 E3 E4 E5 E6 E7 E8 E9 E10 Hs Hf Ho Hst Hb.
  eapply (update_row log last last p p' key c c' j (rj_output j) I Hc Hj); try done.
  rewrite E10, job_with_same. symmetry. by apply map_set_same.
Qed.

Lemma allocate_beat_inv log last p key :
  pipeline_inv log last p -> is_Some (map_at key (rows_ p)) -> beatSequence_ p + 1 < 2 ^ 64 ->
  exists p', allocate_beat p key = Ok p' /\ pipeline_inv log last p' /\ beatSequence_ p' <= beatSequence_ p + 1 /\
    (forall k, is_Some (map_at k (rows_ p)) -> is_Some (map_at k (rows_ p'))).
Proof.
  intros I [c Hc] Hb. destruct (row_job _ _ _ _ _ I Hc) as (j & Hj & _ & Hst & J & _).
  unfold allocate_beat, at_or_throw. rewrite Hc. cbn [rbind]. rewrite Hj. cbn [rbind].
  rewrite (pi_config _ _ _ I).
  match goal with |- context [if ?b || ?b' || ?b'' then Ok p else _] => destruct (b || b' || b'') eqn:Eg end.
  { exists p. split; [done|]. split; [done|]. split; [lia|done]. }
  destruct (beatUsed_ p =? _)%nat.
  { eexists. split; [reflexivity|]. split; [|split; [cbn; lia|done]].
    eapply row_pipeline_inv_eq; [exact I|done..|apply (pi_completed _ _ _ I)]. }
  apply orb_false_iff in Eg as [Eg Es]. apply orb_false_iff in Eg as [Ec _]. apply Nat.eqb_neq in Ec.
  pose proof (pi_sequence _ _ _ I) as (_ & _ & Hbs).
  assert (beatSequence_ p ⊞ 1 = beatSequence_ p + 1) as -> by (apply u64_id; split; lia).
  assert (Hkeys : Forall (fun kb => kb.1 <= beatSequence_ p) (r_beats c)) by apply (pi_rows _ _ _ I _ _ Hc).
  assert (Hlt : Forall (fun kb => kb.1 < beatSequence_ p + 1) (r_beats c))
    by (eapply Forall_impl; [exact Hkeys|]; intros x Hx; cbn in *; lia).
  rewrite map_emplace_last by done. fold (new_beat g j c).
  set (c' := with_beats _ _).
  eexists. split; [reflexivity|]. split; [|split].
  - eapply (update_context log last p _ key c c' j I Hc Hj); try done.
    + cbn. lia.
    + apply (pi_pending _ _ _ I).
    + apply (pi_tokens _ _ _ I).
    + cbn. apply row_allocate; try done.
      * destruct Hst as (d & acc & mx & seg & [_ _ _ _ _ R6 _ _ _]). lia.
      * intros E. unfold serial in E. rewrite E in Es. cbn [andb] in Es. apply negb_false_iff, Nat.eqb_eq in Es.
        by apply nil_length_inv.
    + cbn. apply Forall_app. split; [|apply Forall_singleton; cbn; lia].
      eapply Forall_impl; [exact Hkeys|]. intros x Hx. cbn in *. lia.
  - cbn. lia.
  - intros k [x Hx]. cbn. rewrite (map_at_set _ _ _ c) by done. destruct (k =? key); eauto.
Qed.

Lemma allocate_beats_inv log last keys : forall p,
  pipeline_inv log last p -> (forall k, k ∈ keys -> is_Some (map_at k (rows_ p))) ->
  beatSequence_ p + Z.of_nat (length keys) < 2 ^ 64 ->
  exists p', allocate_beats p keys = Ok p' /\ pipeline_inv log last p'.
Proof.
  induction keys as [|key keys IH]; intros p I Hk Hb; [by exists p|]. cbn [allocate_beats length] in *.
  destruct (allocate_beat_inv log last p key I) as (p1 & -> & I1 & H1 & H2); [apply Hk; left|lia|]. cbn [rbind].
  apply IH; [done| |lia]. intros k Hin. apply H2, Hk. by right.
Qed.

Lemma reserve_latency h now : latency (TensorHardwarePipeline_reserve h now true).1 = latency h /\
  forall d, (TensorHardwarePipeline_reserve h now true).2 = Some d -> d = Z.max now (nextIssueCycle h) ⊞ latency h.
Proof.
  unfold TensorHardwarePipeline_reserve, TensorHardwarePipeline_retire, with_cycles. cbn [negb orb]. cbv zeta.
  cbn [queueDepth latency nextIssueCycle]. destruct (_ <=? _); cbn; split; try done. by intros d [= <-].
Qed.

Lemma issue_port_inv log now p port key :
  pipeline_inv log now p -> is_Some (map_at key (rows_ p)) -> 0 <= now -> (forall u, 0 <= L u /\ now + L u < 2 ^ 64) ->
  exists p' evs, issue_port p port now key = Ok (p', evs) /\ pipeline_inv log now p' /\
    (forall k, is_Some (map_at k (rows_ p)) -> is_Some (map_at k (rows_ p'))).
Proof.
  intros I [c Hc] Hn HL. destruct (row_job _ _ _ _ _ I Hc) as (j & Hj & _ & Hst & J & _).
  unfold issue_port, at_or_throw. rewrite Hc. cbn [rbind].
  destruct (select_beat port (r_beats c)) as [[id b]|] eqn:Esel; [|by exists p, []].
  rewrite Hj. cbn [rbind]. rewrite (pi_config _ _ _ I). cbv zeta.
  set (u := unit_for g j (r_phase c) port (b_micro b)).
  destruct (Z.ltb_spec now (nextIssueCycle (units_ p u))) as [Hlt|Hge].
  { eexists _, _. split; [reflexivity|]. split; [|done].
    eapply row_pipeline_inv_eq; [exact I|done..|apply (pi_completed _ _ _ I)]. }
  destruct (reserve_latency (units_ p u) now) as [Hlat Hdone].
  destruct (TensorHardwarePipeline_reserve (units_ p u) now true) as [h [done_|]] eqn:Er; cbn [fst snd] in *.
  2:{ eexists _, _. split; [reflexivity|]. split; [|done].
      eapply row_pipeline_inv_eq; [exact I|done| |done..|apply (pi_completed _ _ _ I)].
      intros u'. cbn. destruct (decide (u' = u)) as [->|]; [by rewrite fn_lookup_insert|by rewrite fn_lookup_insert_ne]. }
  rewrite (pi_latency _ _ _ I) in *. specialize (Hdone _ eq_refl).
  rewrite Z.max_l, u64_id in Hdone by (unfold in_u64; pose proof (HL u); lia). subst done_.
  pose proof (row_issue g L j (rj_output j) now now c (row_tokens key (pending_ p)) (mkRowToken key id port) id b Hst Esel
    ltac:(lia) eq_refl) as Hst'. cbn [tk_port] in Hst'. fold u in Hst'.
  set (c' := with_beats c _) in *.
  pose proof (pi_pending _ _ _ I) as Hsort.
  set (bytes := issue_bytes _ _ _ _ _).
  eexists _, _. split; [reflexivity|].
  assert (forall q, config_ q = config_ p -> (forall v, latency (units_ q v) = latency (units_ p v)) ->
    sequence_ q = sequence_ p -> contextSequence_ q = contextSequence_ p -> beatSequence_ q = beatSequence_ p ->
    completed_ q = completed_ p -> rows_ q = map_set key c' (rows_ p) -> jobs_ q = jobs_ p ->
    pending_ q = multimap_emplace (now + L u) (mkRowToken key id port) (pending_ p) ->
    pipeline_inv log now q /\ forall k, is_Some (map_at k (rows_ p)) -> is_Some (map_at k (rows_ q))) as Hgoal.
  { intros q Q1 Q2 Q3 Q4 Q5 Q6 Q7 Q8 Q9. split.
    - eapply (update_context log now p q key c c' j I Hc Hj); try done; rewrite ?Q9, ?Q5.
      + destruct (pi_sequence _ _ _ I) as (_ & _ & ?). lia.
      + by apply multimap_emplace_sorted.
      + rewrite multimap_emplace_perm. constructor; [by exists c|apply (pi_tokens _ _ _ I)].
      + intros k Hk. by apply row_tokens_other.
      + pose proof (row_tokens_self (mkRowToken key id port) (now + L u) (pending_ p) Hsort) as Es. cbn [tk_context] in Es.
        by rewrite Es.
      + cbn [c' with_beats r_beats]. apply (map_set_Forall_keys (fun k => k <= beatSequence_ p)).
        apply (pi_rows _ _ _ I _ _ Hc).
    - intros k [x Hx]. rewrite Q7, (map_at_set _ _ _ c) by done. destruct (k =? key); eauto. }
  apply Hgoal; destruct port; try done.
  all: intros v; cbn; destruct (decide (v = u)) as [->|]; [by rewrite fn_lookup_insert, Hlat, (pi_latency _ _ _ I)|by rewrite fn_lookup_insert_ne].
Qed.

Lemma issue_keys_inv log now port keys : forall p,
  pipeline_inv log now p -> (forall k, k ∈ keys -> is_Some (map_at k (rows_ p))) -> 0 <= now ->
  (forall u, 0 <= L u /\ now + L u < 2 ^ 64) ->
  exists p' evs, issue_keys p port now keys = Ok (p', evs) /\ pipeline_inv log now p'.
Proof.
  induction keys as [|key keys IH]; intros p I Hk Hn HL; [by exists p, []|]. cbn [issue_keys].
  destruct (issue_port_inv log now p port key I) as (p1 & evs1 & -> & I1 & H1); [apply Hk; left|done..|]. cbn [rbind fst snd].
  destruct (IH p1 I1) as (p2 & evs2 & -> & I2); [|done..|].
  { intros k Hin. apply H1, Hk. by right. }
  cbn [rbind fst snd]. eauto.
Qed.

Lemma rotated_length {A} cursor (m : list (Z * A)) : length (rotated cursor m) = length m.
Proof.
  unfold rotated. assert (forall keys before, length (rotate_keys cursor keys before) = (length keys + length before)%nat) as E.
  { intros keys. induction keys as [|k keys IH]; intros before; cbn [rotate_keys]; [done|].
    destruct (_ <? _); [by rewrite length_app|]. rewrite IH, length_app. cbn. lia. }
  rewrite E, length_map. cbn. lia.
Qed.

(** ** The operations *)

Lemma retire_latency h now : latency (TensorHardwarePipeline_retire h now) = latency h.
Proof. done. Qed.

Lemma rotated_here {A} cursor (m : list (Z * A)) :
  StronglySorted by_key m -> forall k, k ∈ rotated cursor m -> is_Some (map_at k m).
Proof. intros Hs k. by apply rotated_present. Qed.

Lemma row_step_inv log last now p :
  pipeline_inv log last p -> row_clock p last now ->
  exists p' evs, SFURowPipeline_step p now = Ok (p', evs) /\ pipeline_inv log now p'.
Proof.
  intros I (Hl & HL & Hc & Hb). rewrite (pi_config _ _ _ I) in Hc, Hb.
  assert (0 <= now) as Hn by lia.
  assert (forall u, 0 <= L u /\ now + L u < 2 ^ 64) as HL' by (intros u; rewrite <- (pi_latency _ _ _ I); apply HL).
  unfold SFURowPipeline_step. cbv zeta.
  set (p0 := set_units p _).
  assert (pipeline_inv log now p0) as I0.
  { eapply row_pipeline_inv_eq; [eapply pipeline_inv_later; [exact I|lia]|done| |done..|apply (pi_completed _ _ _ I)].
    intros u. cbn. by destruct (_ && _). }
  destruct (complete_tokens_inv log now now (length (pending_ p0)) p0 I0) as (p1 & -> & I1 & C1 & B1). cbn [rbind].
  rewrite (pi_config _ _ _ I1).
  change (contextSequence_ p0) with (contextSequence_ p) in C1. change (beatSequence_ p0) with (beatSequence_ p) in B1.
  destruct (admitRows_inv log now (contexts_ g) p1 I1) as (p2 & -> & I2 & B2); [lia|]. cbn [rbind].
  set (p3 := if SFURowPipeline_active p2 then _ else p2).
  assert (pipeline_inv log now p3 /\ beatSequence_ p3 = beatSequence_ p2) as [I3 B3].
  { unfold p3. destruct (SFURowPipeline_active p2); [|done]. split; [|done].
    eapply row_pipeline_inv_eq; [exact I2|done..|apply (pi_completed _ _ _ I2)]. }
  destruct (allocate_beats_inv log now (rotated (beatCursor_ p3) (rows_ p3)) p3 I3) as (p4 & -> & I4).
  { apply rotated_here, I3. }
  { rewrite rotated_length. pose proof (pi_contexts _ _ _ I3). lia. }
  cbn [rbind].
  destruct (issue_keys_inv log now PortRead (rotated (cursors_ p4 PortRead) (rows_ p4)) p4 I4) as (p5 & e5 & -> & I5);
    [apply rotated_here, I4|done..|]. cbn [rbind fst snd].
  destruct (issue_keys_inv log now PortCompute (rotated (cursors_ p5 PortCompute) (rows_ p5)) p5 I5) as (p6 & e6 & -> & I6);
    [apply rotated_here, I5|done..|]. cbn [rbind fst snd].
  destruct (issue_keys_inv log now PortWrite (rotated (cursors_ p6 PortWrite) (rows_ p6)) p6 I6) as (p7 & e7 & -> & I7);
    [apply rotated_here, I6|done..|]. cbn [rbind fst snd]. eauto.
Qed.

(** More submissions only add requests a completion may answer. *)
Lemma job_inv_log log log' rows id j : log ⊆ log' -> job_inv log rows id j -> job_inv log' rows id j.
Proof.
  intros Hs [(r & inp & coef & Hin & Q & F) Ho Hn Hg]. split; try done. exists r, inp, coef. split; [by apply Hs|done].
Qed.
Lemma completion_log log log' c : log ⊆ log' -> row_completion_ok log c -> row_completion_ok log' c.
Proof. intros Hs (r & Hin & H1 & H2). exists r. split; [by apply Hs|done]. Qed.

Lemma initial_segment r inp coef j row :
  row_request r inp coef -> job_for r inp coef j -> (row < job_rows j)%nat ->
  rj_output j = (if bool_decide (op r = Rope) then inp else replicate (length inp) f_zero32) ->
  segment j row (rj_output j) = row_initial j row.
Proof.
  intros Q F Hrow ->. pose proof (job_for_ok j r inp coef Q F) as J. pose proof (jk_input j J) as Hi.
  unfold row_initial, row_input, segment. rewrite (jf_op _ _ _ _ F), (jf_input _ _ _ _ F) in *.
  case_bool_decide; [done|]. rewrite drop_replicate, take_replicate. f_equal. nia.
Qed.

Lemma submit_request p r now p' id :
  SFURowPipeline_submit p r now true = (p', Some id) -> u32_fields r -> representable CFloat (epsilon r) ->
  exists inp coef j, row_request r inp coef /\ job_for r inp coef j /\ rj_submitted j = now /\
    rj_nextRow j = 0%nat /\ rj_finished j = 0%nat /\
    rj_output j = (if bool_decide (op r = Rope) then inp else replicate (length inp) f_zero32) /\
    id = sequence_ p ⊞ 1 /\ config_ p' = config_ p /\ units_ p' = units_ p /\ sequence_ p' = id /\
    contextSequence_ p' = contextSequence_ p /\ beatSequence_ p' = beatSequence_ p /\ completed_ p' = completed_ p /\
    pending_ p' = pending_ p /\ rows_ p' = rows_ p /\ jobs_ p' = map_emplace id j (jobs_ p).
Proof.
  unfold SFURowPipeline_submit. intros E Hu He.
  destruct (input r) as [inp|] eqn:Ei, (coefficients r) as [coef|] eqn:Ec; try discriminate E.
  destruct (negb true || _ || _ || _ || _ || _ || _ || _) eqn:Eg; [discriminate E|]. cbv zeta in E.
  destruct (stagingBytes_ (config_ p) ⊟ _ <? _); [discriminate E|]. apply pair_eq in E as [Ep Eid]. apply (inj Some) in Eid.
  cbn [negb orb] in Eg. boolify.
  assert (row_request r inp coef) as Q.
  { split; try done. unfold vector_shape. repeat split; try done; try lia.
    - destruct Hu as (? & _). unfold in_u32 in *. lia.
    - by intros ->. }
  match type of Ep with context [map_emplace _ ?j _] => exists inp, coef, j end.
  split; [exact Q|]. rewrite <- Ep, <- Eid. split; [|repeat (split; [reflexivity|]); reflexivity].
  split; try reflexivity. intros Ho. cbn. rewrite bool_decide_true by done.
  pose proof (rq_operands _ _ _ Q) as Hop. unfold row_operands_ok in Hop. rewrite Ho in Hop. by destruct (positions r).
Qed.

Lemma row_submit_inv log last p r now p' id :
  pipeline_inv log last p -> u32_fields r -> representable CFloat (epsilon r) -> sequence_ p + 1 < 2 ^ 64 ->
  SFURowPipeline_submit p r now true = (p', Some id) -> pipeline_inv ((id, (r, now)) :: log) last p'.
Proof.
  intros I Hu He Hs E.
  destruct (submit_request p r now p' id E Hu He) as
    (inp & coef & j & Q & F & Ej & En & Ef & Eo & Eid & E1 & E2 & E3 & E4 & E5 & E6 & E7 & Er & Ejobs).
  pose proof I as [I1 I2 I3 I4 [I5 I5'] [I6 I6'] I7 I8 I9 I10 I11 I12].
  assert (id = sequence_ p + 1) as -> by (rewrite Eid; apply u64_id; split; lia).
  set (id := sequence_ p + 1) in *.
  assert (Hlt : Forall (fun kv => kv.1 < id) (jobs_ p))
    by (eapply Forall_impl; [exact I5'|]; intros x Hx; cbn in *; unfold id; lia).
  rewrite map_emplace_last in Ejobs by done.
  pose proof (fun k => map_at_last id k j (jobs_ p) Hlt) as Hjobs.
  assert (Hnew : forall key c, map_at key (rows_ p) = Some c -> r_job c <> id).
  { intros key c Hc Ejob. destruct (I10 _ _ Hc) as [(j1 & W1 & _) _ _]. rewrite Ejob in W1.
    pose proof (map_at_key id j1 (jobs_ p) (fun k => k < id) Hlt W1) as Hk. cbv beta in Hk. lia. }
  assert (Hsub : log ⊆ (id, (r, now)) :: log) by (intros x Hx; by right).
  split; rewrite ?E1, ?E3, ?E4, ?E5, ?E6, ?E7, ?Er, ?Ejobs; try done.
  - intros u. by rewrite E2.
  - unfold id. split; [lia|]. split; lia.
  - constructor; [cbn; lia|]. eapply Forall_impl; [exact I4|]. intros x Hx. cbn in *. unfold id. lia.
  - split; [by apply keys_sorted_last|]. apply Forall_app. split; [|apply Forall_singleton; cbn; lia].
    eapply Forall_impl; [exact Hlt|]. intros x Hx. cbn in *. lia.
  - intros id0 j0. rewrite Hjobs. destruct (Z.eqb_spec id0 id) as [->|Hne].
    + intros [= <-].
      assert (Hzero : count_values (of_job id) (rows_ p) = 0%nat).
      { unfold count_values. destruct (filter _ _) as [|[k c] cs] eqn:Ec; [done|]. exfalso.
        assert ((k, c) ∈ filter (fun kv => of_job id kv.2 = true) (rows_ p)) as [Eo' Hin]%list_elem_of_filter
          by (rewrite Ec; left).
        apply (sorted_map_at _ _ _ I6), Hnew in Hin. by apply Z.eqb_eq in Eo'. }
      destruct (job_rows_for j r inp coef Q F) as (Hr & Hl & Hw).
      split; [..|].
      * exists r, inp, coef. rewrite Ej. split; [left|done].
      * rewrite Eo, (jf_input _ _ _ _ F). case_bool_decide; [done|apply length_replicate].
      * rewrite Hzero, En, Ef. pose proof (rq_shape _ _ _ Q) as (_ & _ & _ & Hne & _).
        destruct inp; [done|]. cbn in Hl. nia.
      * intros row Hrow _. rewrite En. cbn [Nat.ltb Nat.leb]. by eapply initial_segment.
    + intros Hj0. eapply job_inv_log; [exact Hsub|]. by apply I9.
  - intros key c Hc. destruct (I10 _ _ Hc) as [(j1 & W1 & W2 & W3) W4 W5]. split; [|done..].
    exists j1. rewrite Hjobs, (proj2 (Z.eqb_neq _ _)) by (by eapply Hnew). done.
  - eapply Forall_impl; [exact I11|]. intros c. by apply completion_log.
Qed.

(** ** Runs *)

(** Runs of the pipeline: the state, the last cycle stepped at, the accepted requests and
    the completions taken.  Between two steps the shared pipelines may be used by others,
    which does not change their latency. *)
Inductive row_reach (p0 : SFURowPipeline) : SFURowPipeline -> Z -> row_submissions -> list RowCompletion -> Prop :=
| row_reach_init : row_reach p0 p0 0 [] []
| row_reach_submit p last log out r now p' id :
    row_reach p0 p last log out -> u32_fields r -> representable CFloat (epsilon r) -> sequence_ p + 1 < 2 ^ 64 ->
    SFURowPipeline_submit p r now true = (p', Some id) -> row_reach p0 p' last ((id, (r, now)) :: log) out
| row_reach_step p last log out now p' issues :
    row_reach p0 p last log out -> row_clock p last now -> SFURowPipeline_step p now = Ok (p', issues) ->
    row_reach p0 p' now log out
| row_reach_take p last log out p' cs :
    row_reach p0 p last log out -> SFURowPipeline_takeCompleted p = (p', cs) -> row_reach p0 p' last log (out ++ cs)
| row_reach_resources p last log out units :
    row_reach p0 p last log out -> (forall u, latency (units u) = latency (units_ p u)) ->
    row_reach p0 (set_units p units) last log out.

Lemma row_new_inv units lanes re we rb sb ctx mr fe precision tree div backend ov p0 :
  SFURowPipeline_new units lanes re we rb sb ctx mr fe precision tree div backend ov = Ok p0 ->
  config_ p0 = g -> (forall u, latency (units u) = L u) -> pipeline_inv [] 0 p0.
Proof.
  unfold SFURowPipeline_new. destruct (SFUArithmetic_new precision backend) as [a|]; [|discriminate].
  cbn [rbind]. cbv zeta. destruct (_ || _); [discriminate|]. intros [= <-] <- HL.
  split; cbn; try done; try (by split; constructor || constructor); try constructor; try lia.
Qed.

Lemma row_reach_inv p0 p last log out :
  pipeline_inv [] 0 p0 -> row_reach p0 p last log out -> pipeline_inv log last p /\ Forall (row_completion_ok log) out.
Proof.
  intros I0. induction 1 as [|p last log out r now p' id _ [I C] Hu He Hs E|p last log out now p' iss _ [I C] Hc E
    |p last log out p' cs _ [I C] E|p last log out units _ [I C] Hu].
  - done.
  - split; [by eapply row_submit_inv|]. eapply Forall_impl; [exact C|]. intros c. apply completion_log. intros x Hx. by right.
  - destruct (row_step_inv log last now p I Hc) as (p'' & evs & E' & I'). rewrite E in E'. by injection E' as <- <-.
  - injection E as <- <-. split; [|apply Forall_app; split; [done|apply I]].
    eapply row_pipeline_inv_eq; [exact I|done..|]. constructor.
  - split; [|done]. eapply row_pipeline_inv_eq; [exact I|done| |done..|apply I]. exact Hu.
Qed.
End refinement.

(** ** The claims *)

Section row_claims.
Context `{Libm}.
Context (units : RowUnit -> TensorHardwarePipeline) (lanes re we contexts requests fifo : nat) (rowBytes staging : Z).
Context (precision : SFUInternalPrecision) (tree div overlap : bool) (backend : SFUNonlinearBackend).
Context (p0 : SFURowPipeline).
Hypothesis new_ok :
  SFURowPipeline_new units lanes re we rowBytes staging contexts requests fifo precision tree div backend overlap = Ok p0.

Lemma reachable_inv p last log out :
  row_reach p0 p last log out ->
  pipeline_inv (config_ p0) (fun u => latency (units_ p0 u)) log last p /\
  Forall (row_completion_ok (config_ p0) log) out.
Proof.
  apply row_reach_inv. eapply row_new_inv; [exact new_ok|done|]. revert new_ok. unfold SFURowPipeline_new.
  destruct (SFUArithmetic_new precision backend) as [a|]; [|discriminate].
  cbn [rbind]. cbv zeta. by destruct (_ || _); [discriminate|intros [= <-]].
Qed.

(** C2: In every run of the row pipeline, whatever the lanes, port widths, banks, contexts
    and the load the other clients put on the shared units, each completion answers a
    submitted request of its operation with exactly the vector [evaluateSFUVectorOp]
    computes for it; the next step never fails and the contexts stay within their number. *)
Theorem row_pipeline_refines_reference p last log out :
  row_reach p0 p last log out ->
  (forall c, c ∈ out ++ completed_ p ->
   exists r, (rc_job c, (r, rc_submittedCycle c)) ∈ log /\ rc_op c = op r /\
     evaluateSFUVectorOp (arithmetic_ (config_ p0)) r true (tree_ (config_ p0)) = Ok (Some (rc_values c))) /\
  (forall now, row_clock p last now -> exists p' issues, SFURowPipeline_step p now = Ok (p', issues)) /\
  (length (rows_ p) <= contexts_ (config_ p0))%nat.
Proof.
  intros [I C]%reachable_inv. split; [|split].
  - intros c Hc. assert (Forall (row_completion_ok (config_ p0) log) (out ++ completed_ p)) as F
      by (apply Forall_app; split; [done|apply I]).
    rewrite Forall_forall in F. exact (F c Hc).
  - intros now Hn. destruct (row_step_inv _ _ _ _ _ _ I Hn) as (p' & issues & E & _). eauto.
  - apply I.
Qed.
End row_claims.

(** ** A run *)

Definition row_units : list RowUnit := [UVector; UReduction; URsqrt; URead; UWrite; UDivide].
Definition clock_ok (p : SFURowPipeline) (last now : Z) : bool :=
  (0 <=? last) && (last <=? now) &&
  forallb (fun u => (0 <=? latency (units_ p u)) && (now + latency (units_ p u) <? 2 ^ 64)) row_units &&
  (contextSequence_ p + Z.of_nat (contexts_ (config_ p)) <? 2 ^ 64) &&
  (beatSequence_ p + Z.of_nat (contexts_ (config_ p)) <? 2 ^ 64).
Lemma clock_ok_sound p last now : clock_ok p last now = true -> row_clock p last now.
Proof.
  unfold clock_ok, row_clock. intros E. boolify. split; [lia|]. split; [|lia]. intros u.
  match goal with Hf : forallb _ _ = true |- _ => rewrite forallb_forall in Hf; specialize (Hf u) end.
  assert (In u row_units) as Hin by (destruct u; cbn; tauto).
  match goal with Hf : In u _ -> _ |- _ => specialize (Hf Hin) end. boolify. lia.
Qed.

(** Steps at the given cycles. *)
Fixpoint row_run (p : SFURowPipeline) (last : Z) (cycles : list Z) : option (SFURowPipeline * Z) :=
  match cycles with
  | [] => Some (p, last)
  | now :: cycles' =>
      if clock_ok p last now then
        match SFURowPipeline_step p now with Ok (p', _) => row_run p' now cycles' | Throw _ => None end
      else None
  end.
Lemma row_run_reach p0 log out cycles : forall p last p' last',
  row_reach p0 p last log out -> row_run p last cycles = Some (p', last') -> row_reach p0 p' last' log out.
Proof.
  induction cycles as [|now cycles IH]; intros p last p' last' R E; cbn [row_run] in E; [by injection E as <- <-|].
  destruct (clock_ok p last now) eqn:Ec; [|discriminate].
  destruct (SFURowPipeline_step p now) as [[q is']|] eqn:Es; [|discriminate].
  eapply IH; [|exact E]. eapply row_reach_step; [exact R|by apply clock_ok_sound|exact Es].
Qed.


(** ** Witness *)

Definition ex_units (u : RowUnit) : TensorHardwarePipeline := TensorHardwarePipeline_configure TensorHardwarePipeline_init 2 1 4.
Definition ex_config : RowConfig := mkRowConfig 4 8 8 64 256 2 2 fp16_libm true true 4 true.
Definition ex_p0 : SFURowPipeline := mkRowPipeline ex_config ex_units 0 0 0 0 0 0 (fun _ => 0) 0 0 [] [] [] [] (fun _ => 0).
Definition ex_p1 : SFURowPipeline := (SFURowPipeline_submit ex_p0 example_rope 0 true).1.
Definition ex_cycles : list Z := map Z.of_nat (seq 0 40).
Definition ex_done : SFURowPipeline := (default (ex_p1, 0) (row_run ex_p1 0 ex_cycles)).1.

Lemma ex_row_new :
  SFURowPipeline_new ex_units 4 8 8 64 256 2 2 16 FP16 true true BackendLibm true = Ok ex_p0.
Proof. reflexivity. Qed.

Lemma ex_row_reach : row_reach ex_p0 ex_done 39 [(1, (example_rope, 0))] [].
Proof.
  eapply (row_run_reach _ _ _ ex_cycles ex_p1 0).
  - eapply (row_reach_submit _ ex_p0 0 [] [] example_rope 0 ex_p1 1); [apply row_reach_init| |reflexivity|done|vm_compute; reflexivity].
    repeat split; try done. cbn. constructor; [done|constructor].
  - assert (last_at : (default (ex_p1, 0) (row_run ex_p1 0 ex_cycles)).2 = 39) by (vm_compute; reflexivity).
    unfold ex_done. destruct (row_run ex_p1 0 ex_cycles) as [[q t]|] eqn:E; [cbn in *; by rewrite last_at|].
    vm_compute in last_at. discriminate.
Qed.

Lemma row_pipeline_refines_witness :
  length (completed_ ex_done) = 1%nat /\
  (forall c, c ∈ [] ++ completed_ ex_done ->
   exists r, (rc_job c, (r, rc_submittedCycle c)) ∈ [(1, (example_rope, 0))] /\ rc_op c = op r /\
     @evaluateSFUVectorOp identity_libm (arithmetic_ (config_ ex_p0)) r true (tree_ (config_ ex_p0)) = Ok (Some (rc_values c))) /\
  (forall now, row_clock ex_done 39 now -> exists p' issues, SFURowPipeline_step ex_done now = Ok (p', issues)) /\
  (length (rows_ ex_done) <= contexts_ (config_ ex_p0))%nat.
Proof.
  split; [vm_compute; reflexivity|].
  exact (@row_pipeline_refines_reference identity_libm ex_units 4 8 8 2 2 16 64 256 FP16 true true true BackendLibm ex_p0
    ex_row_new ex_done 39 _ _ ex_row_reach).
Defined.
