(* ===== verification/RowProgress.v ===== *)
(** * Progress of the row pipeline ([sfu/row_pipeline.h])

    The loops inside a step end within the fuel of the model; a read port narrower than
    the compensated reduction needs stalls a row for ever. *)

From Stdlib Require Import ZArith Lia.
From stdpp Require Import base numbers functions list sorting relations.
From S2P Require Import Prelude Ieee IeeeArith Fp16 Arithmetic HardwarePipeline VectorMath.
From S2P Require Import RowPipeline RowPhases RowReference RowBeats RowState RowPipelineTheory.

#[local] Arguments Nat.div : simpl never.
#[local] Arguments Nat.modulo : simpl never.
#[local] Arguments Nat.mul : simpl never.

(** ** A read port too narrow for the compensated reduction *)

(** The reduction of a row has begun and no element of it is in a beat or done. *)
Definition reduction_idle (c : RowContext) : Prop :=
  r_phase c = PReduce /\ (1 < r_reduceSize c)%nat /\ r_cursor c = 0%nat /\ r_completed c = 0%nat /\
  Forall (fun kb => b_count kb.2 = 0%nat /\ b_values kb.2 = []) (r_beats c).

Record stalled (key : Z) (p : SFURowPipeline) : Prop := {
  sl_port : (readElements_ (config_ p) < 4)%nat /\ SFUArithmetic_fp16 (arithmetic_ (config_ p)) = true /\
            tree_ (config_ p) = true;
  sl_keys : StronglySorted (fun x y => x.1 < y.1) (jobs_ p) /\ StronglySorted (fun x y => x.1 < y.1) (rows_ p);
  sl_row : exists c, map_at key (rows_ p) = Some c /\ reduction_idle c /\
           forall j, map_at (r_job c) (jobs_ p) = Some j -> rj_op j = RmsNorm }.

(** A step at any cycle, or others using the shared units. *)
Definition row_moves (p p' : SFURowPipeline) : Prop :=
  (exists now issues, SFURowPipeline_step p now = Ok (p', issues)) \/ exists units, p' = set_units p units.

Lemma stalled_eq key p p' :
  stalled key p -> config_ p' = config_ p -> jobs_ p' = jobs_ p -> rows_ p' = rows_ p -> stalled key p'.
Proof. intros [S1 S2 S3] E1 E2 E3. split; rewrite ?E1, ?E2, ?E3; done. Qed.

(** The stalled row itself is updated, or another one. *)
Lemma stalled_update key p p' k c c' j j' :
  stalled key p -> map_at k (rows_ p) = Some c -> map_at (r_job c) (jobs_ p) = Some j ->
  config_ p' = config_ p -> rows_ p' = map_set k c' (rows_ p) -> jobs_ p' = map_set (r_job c) j' (jobs_ p) ->
  rj_op j' = rj_op j -> r_job c' = r_job c -> (reduction_idle c -> rj_op j = RmsNorm -> reduction_idle c') -> stalled key p'.
Proof.
  intros [S1 [S2 S3] (x & Hx & Hi & Ho)] Hc Hj E1 E2 E3 Ej Ec Hk.
  split; rewrite ?E1, ?E2, ?E3; [done|split; by apply keys_sorted_set|].
  assert (Hops : forall id, (forall i, map_at id (jobs_ p) = Some i -> rj_op i = RmsNorm) ->
    forall i, map_at id (map_set (r_job c) j' (jobs_ p)) = Some i -> rj_op i = RmsNorm).
  { intros id Hid i. rewrite (map_at_set _ _ _ j) by done. destruct (Z.eqb_spec id (r_job c)) as [->|]; [|by apply Hid].
    intros [= <-]. rewrite Ej. by apply Hid. }
  destruct (Z.eqb_spec k key) as [->|Hne].
  - rewrite Hx in Hc. injection Hc as <-. exists c'. rewrite (map_at_set_eq _ _ x) by done.
    split; [done|]. split; [by apply Hk, Ho|]. rewrite Ec. by apply Hops.
  - exists x. rewrite map_at_set_ne by done. split; [done|]. split; [done|]. by apply Hops.
Qed.

Lemma stalled_finish key p k id j d :
  stalled key p -> k <> key -> map_at id (jobs_ p) = Some j -> stalled key (finish_row p k id j d).
Proof.
  intros [S1 [S2 S3] (x & Hx & Hi & Ho)] Hne Hj. pose proof (sorted_nodup _ S2) as Hnd.
  unfold finish_row. destruct (_ =? _)%nat; split; cbn; try done.
  - split; by apply keys_sorted_erase.
  - exists x. rewrite map_at_erase_ne by done. split; [done|]. split; [done|]. intros i Hi'.
    apply Ho. destruct (Z.eqb_spec (r_job x) id) as [E|E]; [|by rewrite map_at_erase_ne in Hi'].
    rewrite E, map_at_erase_eq in Hi' by done. discriminate.
  - split; [by apply keys_sorted_set|by apply keys_sorted_erase].
  - exists x. rewrite map_at_erase_ne by done. split; [done|]. split; [done|]. intros i.
    rewrite (map_at_set _ _ _ j) by done. destruct (Z.eqb_spec (r_job x) id) as [E|E]; [|by apply Ho].
    intros [= <-]. cbn. apply Ho. by rewrite E.
Qed.

Lemma width_idle g j c : reduction_idle c -> tree_ g = true -> row_width g j (r_phase c) (r_reduceSize c) <> 0%nat.
Proof.
  intros (-> & Hs & _) Ht. unfold row_width. rewrite bool_decide_true, Ht by done. pose proof (half_pos (r_reduceSize c)). lia.
Qed.

(** An empty beat stays empty and computes nothing. *)
Lemma complete_idle g j c b port c1 b1 out :
  reduction_idle c -> tree_ g = true -> b_count b = 0%nat -> b_values b = [] -> row_complete g j c b port = Ok (c1, b1, out) ->
  r_job c1 = r_job c /\ r_beats c1 = r_beats c /\ reduction_idle c1 /\ b_count b1 = 0%nat /\ b_values b1 = [].
Proof.
  intros I Ht Hb Hv. pose proof I as (Hp & Hr). unfold row_complete. rewrite Hp. destruct port.
  - by intros [= <- <- <-].
  - destruct (_ <? _)%nat; [by intros [= <- <- <-]|]. cbn [scalar_phase]. rewrite Hb. cbn [element_loop rbind fst snd map].
    rewrite Ht, andb_false_r. intros [= <- <- <-]. do 2 (split; [done|]). by split; [exact I|].
  - rewrite bool_decide_false by done. rewrite Hv. cbn [zip_with row_write_loop rbind fst snd]. intros [= <- <- <-]. do 2 (split; [done|]). by split; [exact I|].
Qed.
Lemma complete_job g j c b port c1 b1 out : row_complete g j c b port = Ok (c1, b1, out) -> r_job c1 = r_job c.
Proof.
  unfold row_complete. destruct port; [by intros [= <- <- <-]| |].
  - cbv zeta. destruct (_ <? _)%nat; [by intros [= <- <- <-]|]. destruct (scalar_phase _).
    + destruct (scalar_update _ _ _ _ _); [|discriminate]. by intros [= <- <- <-].
    + destruct (element_loop _ _ _ _ _ _) as [[vs m]|]; [|discriminate]. cbn [rbind fst snd]. case_match.
      * destruct (vget _ _); [|discriminate]. by intros [= <- <- <-].
      * by intros [= <- <- <-].
  - cbv zeta. destruct (row_write_loop _ _ _ _ _ _ _ _) as [[d o]|]; [|discriminate]. by intros [= <- <- <-].
Qed.

Lemma idle_beats_set c id b : b_count b = 0%nat -> b_values b = [] -> reduction_idle c ->
  reduction_idle (with_beats c (map_set id b (r_beats c))).
Proof.
  intros H1 H2 (I1 & I2 & I3 & I4 & I5). do 4 (split; [done|]). cbn [with_beats r_beats].
  induction (r_beats c) as [|[k v] m IH]; cbn [map_set]; [constructor|].
  apply Forall_cons in I5 as [I5 I6]. destruct (_ =? _); constructor; auto.
Qed.
Lemma idle_beats_erase c id : reduction_idle c -> reduction_idle (with_beats c (map_erase id (r_beats c))).
Proof.
  intros (I1 & I2 & I3 & I4 & I5). do 4 (split; [done|]). cbn [with_beats r_beats]. apply Forall_forall. intros [k v] Hin.
  rewrite Forall_forall in I5. by apply I5, (map_erase_elem id).
Qed.

Lemma stalled_complete key p t d p' : stalled key p -> complete_token p t d = Ok p' -> stalled key p'.
Proof.
  intros S E. unfold complete_token, at_or_throw in E.
  destruct (map_at (tk_context t) (rows_ p)) as [c|] eqn:Ec; [|discriminate]. cbn [rbind] in E.
  destruct (map_at (tk_beat t) (r_beats c)) as [b|] eqn:Eb; [|discriminate]. cbn [rbind] in E.
  destruct (map_at (r_job c) (jobs_ p)) as [j|] eqn:Ej; [|discriminate]. cbn [rbind] in E.
  destruct (row_complete _ _ _ _ _) as [[[c1 b1] out]|] eqn:Er; [|discriminate]. cbn [rbind] in E.
  set (j' := job_with j _ _ _) in E. pose proof (sl_port _ _ S) as (_ & _ & Ht). pose proof (complete_job _ _ _ _ _ _ _ _ Er) as Ejob.
  assert (Hb : reduction_idle c -> b_count b = 0%nat /\ b_values b = []).
  { intros (_ & _ & _ & _ & I). rewrite Forall_forall in I. exact (I _ (map_at_elem _ _ _ Eb)). }
  assert (Hc1 : reduction_idle c -> r_beats c1 = r_beats c /\ reduction_idle c1 /\ b_count b1 = 0%nat /\ b_values b1 = []).
  { intros I. destruct (Hb I) as [B1 B2]. by destruct (complete_idle _ _ _ (beat_idle b) _ _ _ _ I Ht B1 B2 Er) as (_ & ?). }
  assert (Hend : forall q c2, config_ q = config_ p -> rows_ q = map_set (tk_context t) c2 (rows_ p) ->
    jobs_ q = map_set (r_job c1) j' (jobs_ p) -> r_job c2 = r_job c -> (reduction_idle c -> reduction_idle c2) ->
    (if bool_decide (r_phase c2 = PDone) then Ok (finish_row q (tk_context t) (r_job c2) j' d) else Ok q) = Ok p' ->
    stalled key p').
  { intros q c2 Q1 Q2 Q3 Q4 Q5 Eq. rewrite Ejob in Q3.
    assert (stalled key q) as Sq by (eapply (stalled_update key p q (tk_context t) c c2 j j'); try done; auto).
    case_bool_decide as Hd; injection Eq as <-; [|done]. apply (stalled_finish _ _ _ _ j'); [done| |].
    - intros <-. destruct (sl_row _ _ Sq) as (x & Hx & (Hi & _) & _). rewrite Q2, (map_at_set_eq _ _ c) in Hx by done.
      injection Hx as <-. congruence.
    - by rewrite Q3, Q4, (map_at_set_eq _ _ j). }
  destruct (b_finished b1); (eapply Hend; [| | | | |exact E]); try reflexivity.
  - match goal with |- r_job (if ?b then _ else _) = _ => destruct b; [|exact Ejob] end.
    etransitivity; [apply nextPhase_fields|exact Ejob].
  - intros I. destruct (Hc1 I) as (_ & I1 & B1 & _).
    assert (I2 : reduction_idle (with_progress c1 (r_cursor c1) (r_completed c1 + b_count b1)%nat)).
    { destruct I1 as (? & ? & ? & Hcomp & ?). do 3 (split; [done|]). split; [|done]. cbn. by rewrite Hcomp, B1. }
    apply (idle_beats_erase _ (tk_beat t)) in I2. pose proof (width_idle (config_ p) j' _ I2 Ht) as Hw.
    pose proof I2 as (_ & _ & _ & I4 & _).
    match goal with |- reduction_idle (if ?x =? ?y then _ else _)%nat =>
      replace (x =? y)%nat with false; [exact I2|symmetry; apply Nat.eqb_neq] end.
    intros Hd. apply Hw. rewrite <- I4. symmetry. exact Hd.
  - exact Ejob.
  - intros I. destruct (Hc1 I) as (Eb' & I1 & B1 & B2). by apply idle_beats_set.
Qed.

Lemma map_emplace_Forall {A} (P : Z -> Prop) k (v : A) m :
  P k -> Forall (fun kv => P kv.1) m -> Forall (fun kv => P kv.1) (map_emplace k v m).
Proof.
  intros Hk. induction 1 as [|[k1 v1] m H1 Hm IH]; cbn [map_emplace]; [by constructor|].
  destruct (_ <? _); [by repeat constructor|]. destruct (_ =? _); by constructor.
Qed.
Lemma map_emplace_keeps {A} k (v : A) m :
  StronglySorted (fun x y => x.1 < y.1) m ->
  StronglySorted (fun x y => x.1 < y.1) (map_emplace k v m) /\
  forall k' x, map_at k' m = Some x -> map_at k' (map_emplace k v m) = Some x.
Proof.
  induction m as [|[k1 v1] m IH]; intros Hs; cbn [map_emplace]; [by split; [repeat constructor|]|].
  pose proof Hs as Hs'. apply StronglySorted_inv in Hs' as [Hm Hf]. destruct (Z.ltb_spec k k1).
  - assert (Hlt : Forall (fun kv => k < kv.1) ((k1, v1) :: m)).
    { constructor; [done|]. eapply Forall_impl; [exact Hf|]. intros y Hy. cbn in *. lia. }
    split; [by constructor|]. intros k' x Hx.
    pose proof (map_at_key k' x ((k1, v1) :: m) (fun i => k < i) Hlt Hx) as Hk. cbv beta in Hk.
    cbn [map_at] in *. by rewrite (proj2 (Z.eqb_neq k' k)) by lia.
  - destruct (Z.eqb_spec k k1); [done|]. destruct (IH Hm) as [IH1 IH2]. split.
    + constructor; [done|]. apply (map_emplace_Forall (fun i => k1 < i)); [lia|done].
    + intros k' x. cbn [map_at]. destruct (_ =? _); [done|apply IH2].
Qed.

Lemma stalled_admit key p p' order b : stalled key p -> admit_one p order = Ok (p', b) -> stalled key p'.
Proof.
  intros S E. revert E. induction order as [|id order IH]; cbn [admit_one]; [by intros [= <- _]|]. unfold at_or_throw.
  destruct (map_at id (jobs_ p)) as [j|] eqn:Ej; [|discriminate]. cbn [rbind]. destruct (_ || _); [exact IH|].
  intros [= <- _]. destruct S as [S1 [S2 S3] (x & Hx & Hi & Ho)].
  destruct (map_emplace_keeps (contextSequence_ p ⊞ 1) (row_fresh id (rj_nextRow j) (rj_width j)) (rows_ p) S3) as [S4 S5].
  split; cbn; [done|split; [by apply keys_sorted_set|done]|]. exists x. split; [by apply S5|]. split; [done|]. intros i.
  rewrite (map_at_set _ _ _ j) by done. destruct (Z.eqb_spec (r_job x) id) as [<-|]; [|apply Ho].
  intros [= <-]. exact (Ho j Ej).
Qed.

Lemma count_idle g j c : reduction_idle c -> (readElements_ g < 4)%nat -> SFUArithmetic_fp16 (arithmetic_ g) = true ->
  tree_ g = true -> rj_op j = RmsNorm -> row_count g j (r_phase c) (r_reduceSize c) (r_cursor c) = 0%nat.
Proof.
  intros (-> & _) Hr Hf Ht Hj. unfold row_count, readFactor, compensated. rewrite Hf, Ht, Hj.
  rewrite !(bool_decide_true (PReduce = PReduce)), !(bool_decide_true (RmsNorm = RmsNorm)), !(bool_decide_false (PReduce = PMean)),
    (bool_decide_false (PReduce = PLoad)) by done. cbn -[Nat.div Nat.min]. rewrite (Nat.div_small (readElements_ g) 4) by done. lia.
Qed.

Lemma stalled_allocate key p k p' : stalled key p -> allocate_beat p k = Ok p' -> stalled key p'.
Proof.
  intros S E. unfold allocate_beat, at_or_throw in E.
  destruct (map_at k (rows_ p)) as [c|] eqn:Ec; [|discriminate]. cbn [rbind] in E.
  destruct (map_at (r_job c) (jobs_ p)) as [j|] eqn:Ej; [|discriminate]. cbn [rbind] in E.
  destruct (_ || _); [by injection E as <-|]. destruct (beatUsed_ p =? _)%nat; [by injection E as <-; eapply stalled_eq|].
  injection E as <-. destruct (sl_port _ _ S) as (S1 & S2 & S3).
  eapply (stalled_update key p _ k c _ j j); try done; [cbn; symmetry; by apply map_set_same|].
  intros I Hj. pose proof (count_idle _ _ _ I S1 S2 S3 Hj) as Hcount. rewrite Hcount.
  destruct I as (I1 & I2 & I3 & I4 & I5). do 2 (split; [done|]). split; [cbn; lia|]. split; [done|].
  cbn [with_beats with_progress r_beats].
  induction (r_beats c) as [|[k1 b1] m IH]; cbn [map_emplace]; [by repeat constructor|]. pose proof I5 as I7.
  apply Forall_cons in I5 as [I5 I6]. destruct (_ <? _); [by constructor|]. destruct (_ =? _); constructor; auto.
Qed.

Lemma stalled_issue key p port now k p' evs : stalled key p -> issue_port p port now k = Ok (p', evs) -> stalled key p'.
Proof.
  intros S E. unfold issue_port, at_or_throw in E.
  destruct (map_at k (rows_ p)) as [c|] eqn:Ec; [|discriminate]. cbn [rbind] in E.
  destruct (select_beat port (r_beats c)) as [[id b]|] eqn:Eb; [|by injection E as <- _].
  destruct (map_at (r_job c) (jobs_ p)) as [j|] eqn:Ej; [|discriminate]. cbn [rbind] in E.
  destruct (now <? _); [by injection E as <- _; eapply stalled_eq|].
  destruct (TensorHardwarePipeline_reserve _ _ _) as [h [d|]]; [|by injection E as <- _; eapply stalled_eq].
  destruct (select_beat_split _ _ _ _ Eb) as (pre & post & Eq & _ & _).
  injection E as <- _.
  eapply (stalled_update key p _ k c (with_beats c (map_set id (beat_start b) (r_beats c))) j j); try done; try (by destruct port).
  - destruct port; cbn; symmetry; by apply map_set_same.
  - intros I _. destruct I as (I1 & I2 & I3 & I4 & I5). pose proof I5 as I6. rewrite Eq in I6.
    apply Forall_app in I6 as [_ [[H1 H2] _]%Forall_cons]. by apply idle_beats_set.
Qed.

(** Every loop of a step keeps the row stalled. *)
Lemma stalled_step key p now p' evs : stalled key p -> SFURowPipeline_step p now = Ok (p', evs) -> stalled key p'.
Proof.
  assert (Hcomplete : forall fuel p p', stalled key p -> complete_tokens fuel p now = Ok p' -> stalled key p').
  { intros fuel. induction fuel as [|fuel IH]; intros q q' S; cbn [complete_tokens]; [by intros [= <-]|].
    destruct (pending_ q) as [|[d t] rest]; [by intros [= <-]|]. destruct (_ <=? _); [|by intros [= <-]].
    destruct (complete_token _ _ _) as [q1|] eqn:E; [|discriminate]. apply IH. eapply stalled_complete; [|exact E].
    by eapply stalled_eq. }
  assert (Hadmit : forall fuel p p', stalled key p -> admitRows fuel p = Ok p' -> stalled key p').
  { intros fuel. induction fuel as [|fuel IH]; intros q q' S; cbn [admitRows]; [by intros [= <-]|].
    destruct (_ <? _)%nat; [|by intros [= <-]]. destruct (admit_one _ _) as [[q1 b]|] eqn:E; [|discriminate]. cbn [rbind].
    apply stalled_admit with (key := key) in E; [|done]. destruct b; [by apply IH|by intros [= <-]]. }
  assert (Hallocate : forall keys p p', stalled key p -> allocate_beats p keys = Ok p' -> stalled key p').
  { intros keys. induction keys as [|k keys IH]; intros q q' S; cbn [allocate_beats]; [by intros [= <-]|].
    destruct (allocate_beat _ _) as [q1|] eqn:E; [|discriminate]. apply IH. by eapply stalled_allocate. }
  assert (Hissue : forall port keys p p' evs, stalled key p -> issue_keys p port now keys = Ok (p', evs) -> stalled key p').
  { intros port keys. induction keys as [|k keys IH]; intros q q' ev S; cbn [issue_keys]; [by intros [= <- _]|].
    destruct (issue_port _ _ _ _) as [[q1 e1]|] eqn:E; [|discriminate]. cbn [rbind fst snd].
    destruct (issue_keys q1 _ _ _) as [[q2 e2]|] eqn:E2; [|discriminate]. intros [= <- _]. eapply IH; [|exact E2].
    by eapply stalled_issue. }
  intros S E. unfold SFURowPipeline_step in E. cbv zeta in E.
  repeat match type of E with rbind ?r _ = _ => let Er := fresh "Er" in destruct r as [?|] eqn:Er; [cbn [rbind] in E|discriminate] end.
  injection E as <- _. repeat match goal with x : SFURowPipeline * list RowIssue |- _ => destruct x end. cbn [fst snd] in *.
  eapply Hissue; [|eassumption]. eapply Hissue; [|eassumption]. eapply Hissue; [|eassumption]. eapply Hallocate; [|eassumption].
  match goal with |- stalled _ (if _ then _ else ?q) => assert (stalled key q) as Sq end.
  { eapply Hadmit; [|eassumption]. eapply Hcomplete; [|eassumption]. by eapply stalled_eq. }
  case_match; [by eapply stalled_eq|done].
Qed.

Lemma stalled_moves key p p' : stalled key p -> rtc row_moves p p' -> stalled key p'.
Proof.
  intros S M. induction M as [|p p1 p' [(now & evs & E)|(units & ->)] _ IH]; [done| |].
  - apply IH. by eapply stalled_step.
  - apply IH. by eapply stalled_eq.
Qed.

(** C32: The constructor accepts a read port of two or three elements, but the compensated
    reduction reads four per result: its beats hold no element, so a row that has entered
    the reduction is never completed, whatever steps are taken at whatever cycles. *)
Theorem narrow_port_row_never_finishes key p p' :
  stalled key p -> rtc row_moves p p' ->
  exists c, map_at key (rows_ p') = Some c /\ r_phase c = PReduce /\ r_completed c = 0%nat.
Proof.
  intros S M. destruct (sl_row _ _ (stalled_moves _ _ _ S M)) as (c & Hc & (H1 & _ & _ & H4 & _) & _). eauto.
Qed.

(** ** The loops of a step end *)

Lemma complete_token_pending p t d p' : complete_token p t d = Ok p' -> pending_ p' = pending_ p.
Proof.
  unfold complete_token. intros E. repeat (apply rbind_Ok in E as (? & _ & E)). destruct x2 as [[c1 b1] out].
  destruct (b_finished b1); case_bool_decide; injection E as <-; unfold finish_row; repeat case_match; reflexivity.
Qed.

Lemma complete_tokens_enough now n : forall m p, (length (pending_ p) <= n <= m)%nat ->
  complete_tokens m p now = complete_tokens n p now /\
  forall p', complete_tokens n p now = Ok p' -> Forall (fun kt => now < kt.1) (take 1 (pending_ p')).
Proof.
  induction n as [|n IH]; intros m p Hm.
  - destruct (pending_ p) as [|kt ts] eqn:Ep; [|cbn in Hm; lia]. split; [|intros p' [= <-]; rewrite Ep; constructor].
    destruct m; cbn [complete_tokens]; [done|by rewrite Ep].
  - destruct m as [|m]; [lia|]. cbn [complete_tokens]. destruct (pending_ p) as [|[d t] rest] eqn:Ep.
    { split; [done|]. intros p' [= <-]. rewrite Ep. constructor. }
    destruct (Z.leb_spec d now).
    2:{ split; [done|]. intros p' [= <-]. rewrite Ep. by repeat constructor. }
    destruct (complete_token (set_row_pending p rest) t d) as [p1|] eqn:E; [|done]. cbn [rbind].
    apply complete_token_pending in E. cbn in E, Hm. apply IH. rewrite E. lia.
Qed.

Lemma map_emplace_length {A} k (v : A) m : Forall (fun kv => kv.1 < k) m -> length (map_emplace k v m) = S (length m).
Proof. intros Hk. rewrite map_emplace_last, length_app by done. cbn. lia. Qed.

Lemma admit_one_length p p' order : 
  Forall (fun kv => kv.1 <= contextSequence_ p) (rows_ p) -> 0 <= contextSequence_ p -> contextSequence_ p + 1 < 2 ^ 64 ->
  admit_one p order = Ok (p', true) -> length (rows_ p') = S (length (rows_ p)) /\ contextSequence_ p' = contextSequence_ p + 1.
Proof.
  intros Hk H0 H1. induction order as [|id order IH]; cbn [admit_one]; [done|]. unfold at_or_throw.
  destruct (map_at id (jobs_ p)) as [j|]; [|done]. cbn [rbind]. destruct (_ || _); [exact IH|]. intros [= <-]. cbn.
  rewrite u64_id by (split; lia). split; [|done]. apply map_emplace_length.
  eapply Forall_impl; [exact Hk|]. intros x Hx. cbn in *. lia.
Qed.

Lemma admitRows_enough `{Libm} g L log last n : forall m p,
  pipeline_inv g L log last p -> contextSequence_ p + Z.of_nat n < 2 ^ 64 -> (contexts_ g <= length (rows_ p) + n)%nat ->
  (n <= m)%nat -> admitRows m p = admitRows n p.
Proof.
  induction n as [|n IH]; intros m p I Hc Hn Hm; (destruct m as [|m]; [done || lia|]); cbn [admitRows];
    rewrite (pi_config _ _ _ _ _ I); destruct (Nat.ltb_spec (length (rows_ p)) (contexts_ g)) as [Hroom|]; try done; [lia|].
  destruct (admit_one_inv g L log last (rotated (admissionCursor_ p) (jobs_ p)) p I) as (p1 & b & E & I1 & H1 & H2); [lia|done| |].
  { intros id. apply rotated_present, I. }
  rewrite E. cbn [rbind]. destruct b; [|done].
  destruct (admit_one_length p p1 (rotated (admissionCursor_ p) (jobs_ p))) as [Hlen Hseq]; try done.
  - apply I.
  - apply I.
  - lia.
  - apply IH; [done|lia|lia|lia].
Qed.

(** C31: The two loops of a step end by themselves: completing tokens takes no more
    iterations than there are tokens and leaves none that is due, and admission takes no
    more than there are contexts; more iterations change nothing. *)
Theorem row_loops_terminate `{Libm} units lanes re we rowBytes staging contexts requests fifo precision tree div backend overlap
    p0 p last log out now fuel :
  SFURowPipeline_new units lanes re we rowBytes staging contexts requests fifo precision tree div backend overlap = Ok p0 ->
  row_reach p0 p last log out -> row_clock p last now -> 
  ((length (pending_ p) <= fuel)%nat -> complete_tokens fuel p now = complete_tokens (length (pending_ p)) p now) /\
  (forall p', complete_tokens (length (pending_ p)) p now = Ok p' -> Forall (fun kt => now < kt.1) (take 1 (pending_ p'))) /\
  ((contexts_ (config_ p) <= fuel)%nat -> admitRows fuel p = admitRows (contexts_ (config_ p)) p).
Proof.
  intros N R C. destruct (reachable_inv _ _ _ _ _ _ _ _ _ _ _ _ _ _ p0 N _ _ _ _ R) as [I _].
  split; [|split].
  - intros Hf. by apply complete_tokens_enough.
  - intros p' E. by eapply (complete_tokens_enough now (length (pending_ p)) (length (pending_ p)) p).
  - intros Hf. eapply admitRows_enough; [exact I|apply C| |done]. rewrite (pi_config _ _ _ _ _ I). lia.
Qed.

(** ** Witnesses of the stall *)

Definition narrow_config : RowConfig := mkRowConfig 4 2 8 64 256 2 2 fp16_libm true true 4 true.
Definition narrow_p0 : SFURowPipeline := mkRowPipeline narrow_config ex_units 0 0 0 0 0 0 (fun _ => 0) 0 0 [] [] [] [] (fun _ => 0).
Definition narrow_rms : SFUVectorRequest :=
  mkVectorRequest RmsNorm (Some example_lanes) (Some example_lanes) None 4 0 0 0 (num prec32 emax32 1 (-20)).
Definition narrow_p1 : SFURowPipeline := (SFURowPipeline_submit narrow_p0 narrow_rms 0 true).1.
Definition narrow_run : SFURowPipeline := (default (narrow_p1, 0) (row_run narrow_p1 0 ex_cycles)).1.
Definition narrow_next : SFURowPipeline := (result_or (narrow_run, []) (SFURowPipeline_step narrow_run 40)).1.
Definition narrow_issues : list RowIssue := (result_or (narrow_run, []) (SFURowPipeline_step narrow_run 40)).2.

(** [stalled] for a pipeline with one job and one row, decided. *)
Definition stalled_check (key : Z) (p : SFURowPipeline) : bool :=
  (readElements_ (config_ p) <? 4)%nat && SFUArithmetic_fp16 (arithmetic_ (config_ p)) && tree_ (config_ p) &&
  (length (jobs_ p) =? 1)%nat && (length (rows_ p) =? 1)%nat && forallb (fun kv => bool_decide (rj_op kv.2 = RmsNorm)) (jobs_ p) &&
  match map_at key (rows_ p) with
  | Some c =>
      bool_decide (r_phase c = PReduce) && (1 <? r_reduceSize c)%nat && (r_cursor c =? 0)%nat && (r_completed c =? 0)%nat &&
      forallb (fun kb => (b_count kb.2 =? 0)%nat && (length (b_values kb.2) =? 0)%nat) (r_beats c)
  | None => false
  end.
Lemma single_sorted {A} (m : list (Z * A)) : length m = 1%nat -> StronglySorted (fun x y => x.1 < y.1) m.
Proof. destruct m as [|x [|y m]]; try done. by repeat constructor. Qed.
Lemma stalled_check_sound key p : stalled_check key p = true -> stalled key p.
Proof.
  unfold stalled_check. destruct (map_at key (rows_ p)) as [c|] eqn:Ec; [|by rewrite andb_false_r].
  intros E. rewrite !andb_true_iff in E. destruct E as [[[[[[E1 E2] E3] E4] E5] E6] [[[[C1 C2] C3] C4] C5]].
  apply Nat.ltb_lt in E1, C2. apply Nat.eqb_eq in E4, E5, C3, C4. apply bool_decide_eq_true in C1.
  rewrite forallb_forall in E6, C5. split; [done|split; by apply single_sorted|]. exists c. split; [done|]. split.
  - repeat (split; [done|]). apply Forall_forall. intros kb Hin%list_elem_of_In%C5.
    apply andb_true_iff in Hin as [H1 H2]. apply Nat.eqb_eq in H1, H2. split; [done|]. by apply nil_length_inv.
  - intros j Hj%map_at_elem%list_elem_of_In%E6. by apply bool_decide_eq_true in Hj.
Qed.

Lemma narrow_port_row_never_finishes_witness :
  SFURowPipeline_new ex_units 4 2 8 64 256 2 2 16 FP16 true true BackendLibm true = Ok narrow_p0 /\
  exists c, map_at 1 (rows_ narrow_next) = Some c /\ r_phase c = PReduce /\ r_completed c = 0%nat.
Proof.
  split; [reflexivity|]. apply (narrow_port_row_never_finishes 1 narrow_run narrow_next).
  - apply stalled_check_sound. vm_compute. reflexivity.
  - apply rtc_once. left. exists 40, narrow_issues. unfold narrow_next, narrow_issues. rewrite <- surjective_pairing.
    apply is_ok_or. vm_compute. reflexivity.
Defined.

Lemma row_loops_terminate_witness :
  row_clock ex_done 39 40 /\ complete_tokens 7 ex_done 40 = complete_tokens (length (pending_ ex_done)) ex_done 40.
Proof.
  assert (C : row_clock ex_done 39 40) by (apply clock_ok_sound; vm_compute; reflexivity).
  split; [exact C|].
  apply (@row_loops_terminate identity_libm ex_units 4 8 8 64 256 2 2 16 FP16 true true BackendLibm true ex_p0 ex_done 39
    _ _ 40 7 ex_row_new ex_row_reach C).
  apply Nat.leb_le. vm_compute. reflexivity.
Defined.
