(* ===== verification/ControlTransport.v ===== *)
(** * Control messages and local memory as the software protocols use them
      ([src/src/sst/elements/golem/globalmemory/globalmemory.h])

    The protocols between cores talk over the control network and land their data in a
    core's global memory (GM) through a timed port; the window GEMM works in it.
    This file has the message and the memory they share.  Of a message the fields that the
    protocols write or read are kept; a byte memory is a function from addresses. *)

From Stdlib Require Import ZArith Lia.
From Stdlib Require Import Init.Byte.
From stdpp Require Import base numbers list.
From S2P Require Import Prelude Ieee.
Open Scope Z_scope.

Inductive ControlTransportMessageKind :=
  | MaxRequest | MaxResponse | SumRequest | SumResponse | TensorRowDispatch | TensorRowComplete
  | AttentionDispatch | AttentionComplete | AttentionManagerComplete | AttentionClusterPvDispatch
  | AttentionClusterPvComplete | AttentionClusterPvAllocationRequest | AttentionClusterPvAllocationResponse
  | AttentionClusterPvAllocationRelease | AttentionClusterPvVPrefetchHint | AttentionClusterPvVRequest
  | AttentionClusterPvVDelivery | AttentionPvWoData | AttentionPvWoAck | DiagnosticProjectionReady
  | GemmWeightJoin | GemmWeightRequest | GemmWeightDelivery | GemmWeightFinish | GemmWeightRelease.
#[export] Instance ControlTransportMessageKind_eq_dec : EqDecision ControlTransportMessageKind.
Proof. solve_decision. Defined.

Record ControlTransportMessage := mkMessage {
  kind : ControlTransportMessageKind; jobId : Z; tag : Z; ownerCore : Z; workerSlot : Z; workerCore : Z; row : Z;
  value : spec_float; inputAddr : Z; outputAddr : Z; headDim : Z; numQueryHeads : Z; numKvHeads : Z; kvHeadIndex : Z;
  queryLength : Z; kvLength : Z; groupQueryRowBegin : Z; tensorPayload : list byte }.

(** [Message m{}]: the defaults of the declaration. *)
Definition Message_default : ControlTransportMessage :=
  mkMessage MaxRequest 0 0 0 0 0 0 (S754_zero false) 0 0 0 1 1 0 0 0 0 [].

(** ** Byte memory *)

Definition blen (bs : list byte) : Z := Z.of_nat (length bs).
(** [bytes.begin() + offset .. + length]. *)
Definition bslice (offset len : Z) (bs : list byte) : list byte := take (Z.to_nat len) (drop (Z.to_nat offset) bs).

Definition write_mem (m : Z -> byte) (a : Z) (bs : list byte) : Z -> byte :=
  let len := blen bs in fun x =>
  if (a <=? x) && (x <? a + len) then default (m x) (bs !! Z.to_nat (x - a)) else m x.
(** The memory holds [bs] from address [a] on. *)
Definition holds (m : Z -> byte) (a : Z) (bs : list byte) : Prop :=
  forall i b, bs !! i = Some b -> m (a + Z.of_nat i) = b.

Lemma holds_nil m a : holds m a [].
Proof. intros i b H. by rewrite lookup_nil in H. Qed.

Lemma holds_app m a bs bs' : holds m a bs -> holds m (a + blen bs) bs' -> holds m a (bs ++ bs').
Proof.
  intros H1 H2 i b E. apply lookup_app_Some in E as [E|[Hi E]]; [by apply H1|].
  apply H2 in E. rewrite <- E. f_equal. unfold blen. lia.
Qed.

Lemma write_holds m a bs : holds (write_mem m a bs) a bs.
Proof.
  intros i b E. pose proof (lookup_lt_Some _ _ _ E). unfold write_mem, blen.
  rewrite (proj2 (Z.leb_le _ _)), (proj2 (Z.ltb_lt _ _)) by lia. cbn [andb].
  replace (Z.to_nat (a + Z.of_nat i - a)) with i by lia. by rewrite E.
Qed.

(** A write elsewhere leaves what the memory holds. *)
Lemma write_keeps m a bs a' bs' :
  holds m a' bs' -> a + blen bs <= a' \/ a' + blen bs' <= a -> holds (write_mem m a bs) a' bs'.
Proof.
  intros H Hd i b E. pose proof (lookup_lt_Some _ _ _ E). unfold write_mem, blen in *.
  destruct ((a <=? a' + Z.of_nat i) && (a' + Z.of_nat i <? a + Z.of_nat (length bs))) eqn:Eb; [|by apply H].
  boolify. lia.
Qed.

Lemma bslice_length offset len bs : 0 <= offset -> 0 <= len -> offset + len <= blen bs -> blen (bslice offset len bs) = len.
Proof. intros. unfold bslice, blen in *. rewrite length_take, length_drop. lia. Qed.

(** A transfer in pieces: the next slice extends what is there. *)
Lemma bslice_extend offset len bs :
  0 <= offset -> 0 <= len -> bslice 0 offset bs ++ bslice offset len bs = bslice 0 (offset + len) bs.
Proof.
  intros H1 H2. unfold bslice. cbn [Z.to_nat]. rewrite !drop_0, Z2Nat.inj_add by done.
  by rewrite take_take_drop.
Qed.
Lemma bslice_all bs : bslice 0 (blen bs) bs = bs.
Proof. unfold bslice, blen. rewrite drop_0, Nat2Z.id. by rewrite take_ge. Qed.
