(* ===== verification/PvWoHandoff.v ===== *)
(** * The PV-to-Wo handoff ([src/src/sst/elements/golem/attention/pvWoHandoff.h])

    A PV worker (cores 12 to 19) that has finished the output tile of a head sends its
    8 KiB to the core that will multiply it by Wo (cores 4 to 19); the receiver lands it in
    its GM through a timed port and acknowledges.  32 landed heads make a generation,
    which a consumer takes at once ([consume]) or leases ([acquire], [release]).

    [PvWoHandoff] is the state of one core's service; its operations are functions on it.
    The GM is met through what its two calls answer: whether [sendControlMessage] took the
    message, whether [localWriteAsync] took the write, and later the write's callback.
    The [done] callback of a dispatch is named by the key of the dispatch. *)

From Stdlib Require Import ZArith Lia.
From Stdlib Require Import Init.Byte.
From stdpp Require Import base numbers list gmap.
From S2P Require Import Prelude Ieee MemoryLayout ControlTransport.
Open Scope Z_scope.

Definition Key : Type := Z * Z * Z.

Record Landing := mkLanding { ln_message : ControlTransportMessage; ln_offset : Z }.

Record PvWoHandoff := mkPvWo {
  core_ : Z; tag_ : Z; consumedEpoch_ : Z; received_ : Z; landed_ : Z; landingPending_ : bool; leased_ : bool;
  pending_ : gmap Key Z; incoming_ : list Landing; outgoing_ : list (Z * ControlTransportMessage) }.

Definition payloadBytes : Z := 8192.
Definition headBlockBytes : Z := 64 * 64 * 2.
Definition workerTileBytes : Z := 64 * 2048 * 2.
Definition uint32_max : Z := 2 ^ 32 - 1.
Definition one64 : spec_float := SFone prec64 emax64.

(** ** Updates *)

Definition pv_pending (s : PvWoHandoff) (p : gmap Key Z) : PvWoHandoff :=
  mkPvWo (core_ s) (tag_ s) (consumedEpoch_ s) (received_ s) (landed_ s) (landingPending_ s) (leased_ s) p (incoming_ s) (outgoing_ s).
Definition pv_incoming (s : PvWoHandoff) (q : list Landing) : PvWoHandoff :=
  mkPvWo (core_ s) (tag_ s) (consumedEpoch_ s) (received_ s) (landed_ s) (landingPending_ s) (leased_ s) (pending_ s) q (outgoing_ s).
Definition pv_outgoing (s : PvWoHandoff) (q : list (Z * ControlTransportMessage)) : PvWoHandoff :=
  mkPvWo (core_ s) (tag_ s) (consumedEpoch_ s) (received_ s) (landed_ s) (landingPending_ s) (leased_ s) (pending_ s) (incoming_ s) q.
Definition pv_bits (s : PvWoHandoff) (received landed : Z) : PvWoHandoff :=
  mkPvWo (core_ s) (tag_ s) (consumedEpoch_ s) received landed (landingPending_ s) (leased_ s) (pending_ s) (incoming_ s) (outgoing_ s).
Definition pv_landing (s : PvWoHandoff) (tag : Z) (busy : bool) : PvWoHandoff :=
  mkPvWo (core_ s) tag (consumedEpoch_ s) (received_ s) (landed_ s) busy (leased_ s) (pending_ s) (incoming_ s) (outgoing_ s).
Definition pv_lease (s : PvWoHandoff) (leased : bool) : PvWoHandoff :=
  mkPvWo (core_ s) (tag_ s) (consumedEpoch_ s) (received_ s) (landed_ s) (landingPending_ s) leased (pending_ s) (incoming_ s) (outgoing_ s).

(** ** Construction *)

(** [base], [size], [maxRequest]: [getBaseAddr], [getSize] and [localMaxRequestBytes] of the GM. *)
Definition PvWoHandoff_new (gm : option (Z * Z)) (core : Z) : result PvWoHandoff :=
  match gm with
  | Some (size, maxRequest) =>
      if (core <? 4) || (20 <=? core) || (size <? decoder_pv_wo_landing_gm + workerTileBytes) || (maxRequest =? 0)
      then Throw invalid_argument
      else Ok (mkPvWo core 0 0 0 0 false false ∅ [] [])
  | None => Throw invalid_argument
  end.

Definition PvWoHandoff_accepts (k : ControlTransportMessageKind) : bool :=
  bool_decide (k = AttentionPvWoData) || bool_decide (k = AttentionPvWoAck).

Definition pv_enqueue (s : PvWoHandoff) (target : Z) (m : ControlTransportMessage) : result PvWoHandoff :=
  if (16 <=? length (outgoing_ s))%nat then Throw logic_error else Ok (pv_outgoing s (outgoing_ s ++ [(target, m)])).

(** ** The producer *)

Definition message_key (m : ControlTransportMessage) : Key := (jobId m, tag m, groupQueryRowBegin m).

(** Lines 50-62: the tile's manager, its first row in the manager's part, and whether the
    core may hand it off. *)
Definition tile_manager (source : ControlTransportMessage) : Z := row source / 1024.
Definition tile_begin (source : ControlTransportMessage) : Z :=
  u32 (row source - tile_manager source * 1024 + groupQueryRowBegin source).
Definition tile_generation (source : ControlTransportMessage) : Z := u32 (jobId source).
Definition tile_epoch (source : ControlTransportMessage) : Z := (tile_generation source - 0xD1000401) / 65536 + 1.
Definition tile_target (source : ControlTransportMessage) : Z :=
  4 + tile_manager source + 4 * (tile_begin source mod 256 / 64).
Definition tile_head (source : ControlTransportMessage) : Z := kvHeadIndex source * 4 + tile_begin source / 256.

Definition tile_refused (core : Z) (source : ControlTransportMessage) (bytes : list byte) : bool :=
  (core <? 12) || negb (blen bytes =? headBlockBytes) || negb (headDim source =? 64) || negb (queryLength source =? 256) ||
  negb (kvLength source =? 1024) || negb (numQueryHeads source =? 32) || negb (numKvHeads source =? 8) ||
  negb (groupQueryRowBegin source mod 64 =? 0) || (3 <? row source / 1024) || (8 <=? kvHeadIndex source) ||
  negb (Z.shiftr (jobId source) 32 =? kvHeadIndex source) ||
  (tile_generation source <? 0xD1000401) || negb ((tile_generation source - 0xD1000401) mod 65536 =? 0) ||
  (32 <=? (tile_generation source - 0xD1000401) / 65536) ||
  (1024 <? u32 (tile_begin source + 64)) || negb (tile_begin source / 256 =? u32 (tile_begin source + 63) / 256).

Definition data_message (core : Z) (source : ControlTransportMessage) (bytes : list byte) : ControlTransportMessage :=
  mkMessage AttentionPvWoData (jobId source) (tag source) core (tile_head source) (tile_target source) 0 (S754_zero false)
    (tile_epoch source) (tile_manager source) 64 1 1 0 256 0 (groupQueryRowBegin source) bytes.

(** [None] when [dispatch] answers false; [hasDone]: the callback is not empty. *)
Definition PvWoHandoff_dispatch (s : PvWoHandoff) (source : ControlTransportMessage) (bytes : list byte) (hasDone : bool) :
    result (option PvWoHandoff) :=
  if tile_refused (core_ s) source bytes || negb (bool_decide (pending_ s = ∅)) || negb hasDone then Ok None
  else
    let s := pv_pending s (<[message_key source := tile_target source]> (pending_ s)) in
    let! s := pv_enqueue s (tile_target source) (data_message (core_ s) source bytes) in
    Ok (Some s).

(** ** Reception *)

(** [received_ & bit]. *)
Definition has_bit (mask i : Z) : bool := negb (Z.land mask (Z.shiftl 1 i) =? 0).
Definition set_bit (mask i : Z) : Z := Z.lor mask (Z.shiftl 1 i).

(** The key of the dispatch whose [done] callback is called, if any. *)
Definition PvWoHandoff_receive (s : PvWoHandoff) (m : ControlTransportMessage) : result (PvWoHandoff * option Key) :=
  if bool_decide (kind m = AttentionPvWoAck) then
    match pending_ s !! message_key m with
    | Some target =>
        if negb (ownerCore m =? core_ s) || negb (workerCore m =? target) || negb (SFeqb (value m) one64)
        then Throw logic_error
        else Ok (pv_pending s (delete (message_key m) (pending_ s)), Some (message_key m))
    | None => Throw logic_error
    end
  else if leased_ s || negb (bool_decide (kind m = AttentionPvWoData)) || negb (workerCore m =? core_ s) ||
          (ownerCore m <? 12) || (20 <=? ownerCore m) || (32 <=? workerSlot m) || negb (blen (tensorPayload m) =? payloadBytes) ||
          negb (queryLength m =? 256) || negb (headDim m =? 64) || negb (outputAddr m =? (core_ s - 4) mod 4) ||
          negb (inputAddr m =? u32 (consumedEpoch_ s + 1)) || (8 <=? length (incoming_ s))%nat
  then Throw logic_error
  else if has_bit (received_ s) (workerSlot m) then Throw logic_error
  else Ok (pv_incoming (pv_bits s (set_bit (received_ s) (workerSlot m)) (landed_ s)) (incoming_ s ++ [mkLanding m 0]), None).

(** ** The consumer *)

Definition pv_ready (s : PvWoHandoff) (epoch manager lane : Z) : bool :=
  negb (leased_ s) && (epoch =? u32 (consumedEpoch_ s + 1)) && (core_ s =? u32 (4 + manager + 4 * lane)) &&
  (received_ s =? uint32_max) && (landed_ s =? uint32_max) && negb (landingPending_ s) && (length (incoming_ s) =? 0)%nat.

Definition retireGeneration (s : PvWoHandoff) : PvWoHandoff :=
  mkPvWo (core_ s) (tag_ s) (u32 (consumedEpoch_ s + 1)) 0 0 (landingPending_ s) (leased_ s) (pending_ s) (incoming_ s) (outgoing_ s).

Definition PvWoHandoff_consume (s : PvWoHandoff) (epoch manager lane : Z) : PvWoHandoff * bool :=
  if pv_ready s epoch manager lane then (retireGeneration s, true) else (s, false).
Definition PvWoHandoff_acquire (s : PvWoHandoff) (epoch manager lane : Z) : PvWoHandoff * bool :=
  if pv_ready s epoch manager lane then (pv_lease s true, true) else (s, false).
Definition PvWoHandoff_release (s : PvWoHandoff) (epoch manager lane : Z) : PvWoHandoff * bool :=
  if negb (leased_ s) || negb (epoch =? u32 (consumedEpoch_ s + 1)) || negb (core_ s =? u32 (4 + manager + 4 * lane))
  then (s, false)
  else (retireGeneration (pv_lease s false), true).

(** ** The clock *)

(** [sent]: [sendControlMessage] takes the message. The message it took, if any. *)
Definition pumpOutgoing (s : PvWoHandoff) (sent : bool) :
    result (PvWoHandoff * option Key * option (Z * ControlTransportMessage)) :=
  match outgoing_ s with
  | [] => Ok (s, None, None)
  | (target, m) :: rest =>
      if target =? core_ s then
        let! r := PvWoHandoff_receive (pv_outgoing s rest) m in
        Ok (r.1, r.2, None)
      else if sent then Ok (pv_outgoing s rest, None, Some (target, m)) else Ok (s, None, None)
  end.

Section gm.
Context (base maxRequest : Z).

Definition landing_address (l : Landing) : Z :=
  u64 (base + decoder_pv_wo_landing_gm + workerSlot (ln_message l) * payloadBytes + ln_offset l).
Definition landing_length (l : Landing) : Z := Z.min maxRequest (payloadBytes - ln_offset l).

(** [accepted]: [localWriteAsync] takes the write. What was written, if anything. *)
Definition pumpLanding (s : PvWoHandoff) (accepted : bool) : PvWoHandoff * option (Z * list byte) :=
  match incoming_ s with
  | l :: _ =>
      if landingPending_ s then (s, None)
      else
        let bytes := bslice (ln_offset l) (landing_length l) (tensorPayload (ln_message l)) in
        (pv_landing s (u64 (tag_ s + 1)) accepted, if accepted then Some (landing_address l, bytes) else None)
  | [] => (s, None)
  end.

Record PvEffects := mkPvEffects {
  ef_done : option Key; ef_sent : option (Z * ControlTransportMessage); ef_write : option (Z * list byte) }.

Definition PvWoHandoff_tick (s : PvWoHandoff) (sent accepted : bool) : result (PvWoHandoff * PvEffects) :=
  let! r := pumpOutgoing s sent in
  let '(s, done, message) := r in
  let (s, write) := pumpLanding s accepted in
  Ok (s, mkPvEffects done message write).
End gm.

Definition ack_message (core : Z) (m : ControlTransportMessage) : ControlTransportMessage :=
  mkMessage AttentionPvWoAck (jobId m) (tag m) (ownerCore m) 0 core 0 one64 0 0 0 1 1 0 0 0 (groupQueryRowBegin m) [].

(** The callback of a write of [len] bytes. *)
Definition pv_written (s : PvWoHandoff) (len : Z) (ok : bool) : result PvWoHandoff :=
  let s := pv_landing s (tag_ s) false in
  match incoming_ s with
  | l :: rest =>
      if negb ok then Throw runtime_error
      else
        let l := mkLanding (ln_message l) (ln_offset l + len) in
        if negb (ln_offset l =? payloadBytes) then Ok (pv_incoming s (l :: rest))
        else
          let m := ln_message l in
          let s := pv_bits s (received_ s) (set_bit (landed_ s) (workerSlot m)) in
          let! s := pv_enqueue s (ownerCore m) (ack_message (core_ s) m) in
          Ok (pv_incoming s rest)
  | [] => Throw runtime_error
  end.
