(* ===== verification/PvWoTheory.v ===== *)
(** * The handoff between the cores

    The sixteen worker cores with their services, the control network and the GMs as one
    step relation; every tile that is handed off lands unchanged, once, and nothing fails. *)

From Stdlib Require Import ZArith Lia.
From Stdlib Require Import Init.Byte.
From stdpp Require Import base numbers functions list gmap.
From S2P Require Import Prelude Ieee MemoryLayout ControlTransport PvWoHandoff.
Open Scope Z_scope.

(** ** The tiles *)

(** A tile handed off: the core that computed it, the message of its computation, its bytes. *)
Record Dispatch := mkDispatch { d_owner : Z; d_source : ControlTransportMessage; d_bytes : list byte }.
Definition d_target (d : Dispatch) : Z := tile_target (d_source d).
Definition d_head (d : Dispatch) : Z := tile_head (d_source d).
Definition d_epoch (d : Dispatch) : Z := tile_epoch (d_source d).
Definition d_data (d : Dispatch) : ControlTransportMessage := data_message (d_owner d) (d_source d) (d_bytes d).
Definition d_ack (d : Dispatch) : ControlTransportMessage := ack_message (d_target d) (d_data d).
Definition d_key (d : Dispatch) : Key := message_key (d_source d).

Definition is_core (c : Z) : Prop := 4 <= c < 20.
(** The unsigned fields [dispatch] reads; the tile begins inside the 1024 rows of a manager. *)
Definition tile_fields (source : ControlTransportMessage) : Prop :=
  0 <= row source /\ 0 <= groupQueryRowBegin source < 1024 /\ 0 <= kvHeadIndex source.
Definition dispatch_ok (d : Dispatch) : Prop :=
  tile_refused (d_owner d) (d_source d) (d_bytes d) = false /\ tile_fields (d_source d) /\ d_owner d < 20.

Lemma tile_ranges core m bytes : tile_refused core m bytes = false -> tile_fields m ->
  0 <= tile_manager m <= 3 /\ 0 <= tile_begin m < 1024 /\ 0 <= kvHeadIndex m < 8 /\ 12 <= core /\ blen bytes = headBlockBytes /\
  (row m mod 64 = 0 -> tile_begin m mod 64 = 0).
Proof.
  unfold tile_refused, tile_fields. intros E (F1 & F2 & F3). boolify.
  assert (Hm : tile_manager m * 1024 <= row m < tile_manager m * 1024 + 1024 /\ 0 <= tile_manager m <= 3)
    by (unfold tile_manager in *; pose proof (Z.div_mod (row m) 1024); pose proof (Z.mod_pos_bound (row m) 1024); lia).
  assert (tile_begin m = row m - tile_manager m * 1024 + groupQueryRowBegin m) as Eb by (apply u32_id; split; lia).
  assert (Hb : 0 <= tile_begin m < 1024) by (rewrite Eb in *; rewrite u32_id in * by (split; lia); lia).
  split; [lia|]. split; [lia|]. split; [lia|]. split; [lia|]. split; [lia|]. intros Hr. rewrite Eb.
  pose proof (Z.div_mod (row m) 64). pose proof (Z.div_mod (groupQueryRowBegin m) 64).
  replace (row m - tile_manager m * 1024 + groupQueryRowBegin m)
    with ((row m / 64 - tile_manager m * 16 + groupQueryRowBegin m / 64) * 64) by lia. apply Z.mod_mul. lia.
Qed.

Lemma tile_facts d : dispatch_ok d ->
  12 <= d_owner d < 20 /\ is_core (d_target d) /\ 0 <= d_head d < 32 /\ 1 <= d_epoch d <= 32 /\
  blen (d_bytes d) = payloadBytes /\ (d_target d - 4) mod 4 = tile_manager (d_source d).
Proof.
  destruct d as [p m bs]. intros (E & F & Hp). cbn [d_owner d_source d_bytes] in *.
  destruct (tile_ranges p m bs E F) as (R1 & R2 & R3 & R4 & R5 & _). change headBlockBytes with payloadBytes in R5.
  assert (0 <= (tile_generation m - 0xD1000401) / 65536 < 32) as R6.
  { unfold tile_refused in E. boolify. split; [apply Z.div_pos; lia|lia]. }
  unfold d_target, d_head, d_epoch, tile_target, tile_head, tile_epoch, is_core. cbn [d_owner d_source d_bytes].
  split; [lia|]. split; [Z.div_mod_to_equations; lia|]. split; [Z.div_mod_to_equations; lia|]. split; [lia|]. split; [done|].
  Z.div_mod_to_equations. lia.
Qed.

(** ** Bits of the head masks *)

Lemma has_bit_testbit mask i : 0 <= i -> has_bit mask i = Z.testbit mask i.
Proof.
  intros Hi. unfold has_bit. rewrite Z.shiftl_1_l. destruct (Z.testbit mask i) eqn:E.
  - apply negb_true_iff, Z.eqb_neq. intros E0.
    assert (Z.testbit (Z.land mask (2 ^ i)) i = true) as H by (rewrite Z.land_spec, Z.pow2_bits_true, E; lia || done).
    rewrite E0, Z.bits_0 in H. done.
  - apply negb_false_iff, Z.eqb_eq. apply Z.bits_inj'. intros n Hn. rewrite Z.land_spec, Z.bits_0.
    destruct (Z.eq_dec n i) as [->|]; [by rewrite E|]. by rewrite Z.pow2_bits_false, andb_false_r.
Qed.
Lemma set_bit_testbit mask i j : 0 <= i -> 0 <= j -> Z.testbit (set_bit mask i) j = (i =? j) || Z.testbit mask j.
Proof.
  intros Hi Hj. unfold set_bit. rewrite Z.lor_spec, Z.shiftl_1_l, Z.pow2_bits_eqb by done. apply orb_comm.
Qed.
Lemma all_bits i : 0 <= i < 32 -> Z.testbit uint32_max i = true.
Proof. intros Hi. change uint32_max with (Z.ones 32). by rewrite Z.ones_spec_low. Qed.

(** ** The system *)

(** [heads c h] is the tile of head [h] that belongs to the generation core [c] receives
    now, [current p] the tile core [p] handed off last, [finished] the tiles whose
    producer was told so; these three are kept for the statements only. *)
Record PvWorld := mkPvWorld {
  node : Z -> PvWoHandoff; net : list (Z * ControlTransportMessage); write : Z -> option (Z * list byte); mem : Z -> Z -> byte;
  heads : Z -> Z -> option Dispatch; current : Z -> option Dispatch; finished : list Dispatch }.

Definition set_node (w : PvWorld) (c : Z) (s : PvWoHandoff) : PvWorld :=
  mkPvWorld (<[c := s]> (node w)) (net w) (write w) (mem w) (heads w) (current w) (finished w).
Definition set_net (w : PvWorld) (n : list (Z * ControlTransportMessage)) : PvWorld :=
  mkPvWorld (node w) n (write w) (mem w) (heads w) (current w) (finished w).
Definition set_write (w : PvWorld) (c : Z) (x : option (Z * list byte)) : PvWorld :=
  mkPvWorld (node w) (net w) (<[c := x]> (write w)) (mem w) (heads w) (current w) (finished w).
Definition set_mem (w : PvWorld) (c : Z) (m : Z -> byte) : PvWorld :=
  mkPvWorld (node w) (net w) (write w) (<[c := m]> (mem w)) (heads w) (current w) (finished w).
Definition set_heads (w : PvWorld) (c : Z) (h : Z -> option Dispatch) : PvWorld :=
  mkPvWorld (node w) (net w) (write w) (mem w) (<[c := h]> (heads w)) (current w) (finished w).
Definition set_current (w : PvWorld) (p : Z) (d : Dispatch) : PvWorld :=
  mkPvWorld (node w) (net w) (write w) (mem w) (heads w) (<[p := Some d]> (current w)) (finished w).
Definition add_finished (w : PvWorld) (p : Z) (k : option Key) : PvWorld :=
  mkPvWorld (node w) (net w) (write w) (mem w) (heads w) (current w)
    (match k, current w p with Some _, Some d => d :: finished w | _, _ => finished w end).
Definition retire_heads (w : PvWorld) (c : Z) (b : bool) : PvWorld := if b then set_heads w c (fun _ => None) else w.

(** Steps of the system.  What is asked of its clients is in [pv_dispatch]: a core hands
    each tile of a generation off once, and only when its target has given up the
    generation before.  Messages arrive in any order; the accepted writes complete. *)
Inductive pv_step (base maxRequest : Z) (w : PvWorld) : PvWorld -> Prop :=
| pv_dispatch p source bytes s :
    let d := mkDispatch p source bytes in
    is_core p -> tile_fields source -> d_epoch d = consumedEpoch_ (node w (d_target d)) + 1 ->
    heads w (d_target d) (d_head d) = None -> PvWoHandoff_dispatch (node w p) source bytes true = Ok (Some s) ->
    pv_step base maxRequest w
      (set_current (set_heads (set_node w p s) (d_target d) (<[d_head d := Some d]> (heads w (d_target d)))) p d)
| pv_tick c sent accepted s e :
    is_core c -> PvWoHandoff_tick base maxRequest (node w c) sent accepted = Ok (s, e) ->
    pv_step base maxRequest w
      (let w1 := set_node w c s in
       let w1 := set_net w1 (net w ++ match ef_sent e with Some x => [x] | None => [] end) in
       let w1 := match ef_write e with Some x => set_write w1 c (Some x) | None => w1 end in
       add_finished w1 c (ef_done e))
| pv_deliver c m l1 l2 s k :
    net w = l1 ++ (c, m) :: l2 -> PvWoHandoff_receive (node w c) m = Ok (s, k) ->
    pv_step base maxRequest w (add_finished (set_net (set_node w c s) (l1 ++ l2)) c k)
| pv_write c a bs s :
    is_core c -> write w c = Some (a, bs) -> pv_written (node w c) (blen bs) true = Ok s ->
    pv_step base maxRequest w (set_mem (set_write (set_node w c s) c None) c (write_mem (mem w c) a bs))
| pv_consume c epoch manager lane s b :
    is_core c -> PvWoHandoff_consume (node w c) epoch manager lane = (s, b) ->
    pv_step base maxRequest w (retire_heads (set_node w c s) c b)
| pv_acquire c epoch manager lane s b :
    is_core c -> PvWoHandoff_acquire (node w c) epoch manager lane = (s, b) ->
    pv_step base maxRequest w (set_node w c s)
| pv_release c epoch manager lane s b :
    is_core c -> PvWoHandoff_release (node w c) epoch manager lane = (s, b) ->
    pv_step base maxRequest w (retire_heads (set_node w c s) c b).

(** All services new, any memory. *)
Definition pv_initial (gm : option (Z * Z)) (w : PvWorld) : Prop :=
  (forall c, is_core c -> PvWoHandoff_new gm c = Ok (node w c)) /\ net w = [] /\ (forall c, write w c = None) /\
  (forall c h, heads w c h = None) /\ (forall p, current w p = None) /\ finished w = [].

(** ** Where a tile is *)

Inductive place := AtOut | InNet | Queued | AckOut | AckNet.
Notation tokens := (Z -> option (Dispatch * place)).

Section invariant.
Context (base : Z) (maxRequest : Z).

Definition slot_address (h : Z) : Z := base + decoder_pv_wo_landing_gm + h * payloadBytes.

Definition at_node (d : Dispatch) (pl : place) (c : Z) : Prop :=
  match pl with AtOut => c = d_owner d | Queued | AckOut => c = d_target d | InNet | AckNet => False end.

Definition out_ok (t : tokens) (c : Z) (x : Z * ControlTransportMessage) : Prop :=
  exists d, (t (ownerCore x.2) = Some (d, AtOut) /\ c = d_owner d /\ x = (d_target d, d_data d)) \/
            (t (ownerCore x.2) = Some (d, AckOut) /\ c = d_target d /\ x = (d_owner d, d_ack d)).
Definition net_ok (t : tokens) (x : Z * ControlTransportMessage) : Prop :=
  exists d, (t (ownerCore x.2) = Some (d, InNet) /\ x = (d_target d, d_data d)) \/
            (t (ownerCore x.2) = Some (d, AckNet) /\ x = (d_owner d, d_ack d)).
Definition in_ok (t : tokens) (m : Z -> byte) (c : Z) (l : Landing) : Prop :=
  exists d, t (ownerCore (ln_message l)) = Some (d, Queued) /\ c = d_target d /\ ln_message l = d_data d /\
    0 <= ln_offset l < payloadBytes /\ holds m (slot_address (d_head d)) (bslice 0 (ln_offset l) (d_bytes d)).

Definition owners (q : list (Z * ControlTransportMessage)) : list Z := map (fun x => ownerCore x.2) q.
Definition in_owners (q : list Landing) : list Z := map (fun l => ownerCore (ln_message l)) q.

Record node_inv (t : tokens) (s : PvWoHandoff) (wr : option (Z * list byte)) (m : Z -> byte) (hd : Z -> option Dispatch) (c : Z) : Prop := {
  ni_core : core_ s = c;
  ni_epoch : 0 <= consumedEpoch_ s <= 32;
  ni_out : Forall (out_ok t c) (outgoing_ s) /\ NoDup (owners (outgoing_ s));
  ni_in : Forall (in_ok t m c) (incoming_ s) /\ NoDup (in_owners (incoming_ s));
  ni_write : match wr with
             | Some (a, bs) => landingPending_ s = true /\ exists l rest, incoming_ s = l :: rest /\ a = landing_address base l /\
                 bs = bslice (ln_offset l) (landing_length maxRequest l) (tensorPayload (ln_message l))
             | None => landingPending_ s = false
             end;
  ni_heads : forall h d, hd h = Some d -> dispatch_ok d /\ d_target d = c /\ d_head d = h /\ d_epoch d = consumedEpoch_ s + 1;
  ni_received : forall h, 0 <= h < 32 -> Z.testbit (received_ s) h = true -> exists d, hd h = Some d;
  ni_landed : forall h, 0 <= h < 32 -> Z.testbit (landed_ s) h = true ->
    Z.testbit (received_ s) h = true /\ exists d, hd h = Some d /\ holds m (slot_address h) (d_bytes d);
  ni_leased : leased_ s = true -> received_ s = uint32_max /\ landed_ s = uint32_max }.

(** The tile has landed, or its target has given its generation up since. *)
Definition delivered (w : PvWorld) (d : Dispatch) : Prop :=
  d_epoch d <= consumedEpoch_ (node w (d_target d)) \/
  (heads w (d_target d) (d_head d) = Some d /\ Z.testbit (landed_ (node w (d_target d))) (d_head d) = true).

Definition place_ok (w : PvWorld) (d : Dispatch) (pl : place) : Prop :=
  let s := node w (d_target d) in
  match pl with
  | AtOut | InNet => heads w (d_target d) (d_head d) = Some d /\ Z.testbit (received_ s) (d_head d) = false
  | Queued => heads w (d_target d) (d_head d) = Some d /\ Z.testbit (received_ s) (d_head d) = true /\
      Z.testbit (landed_ s) (d_head d) = false
  | AckOut | AckNet => delivered w d
  end.

Record token_inv (t : tokens) (w : PvWorld) (p : Z) : Prop := {
  ti_some : forall d pl, t p = Some (d, pl) -> d_owner d = p /\ dispatch_ok d /\ current w p = Some d /\
    pending_ (node w p) = {[d_key d := d_target d]} /\ place_ok w d pl;
  ti_none : t p = None -> is_core p -> pending_ (node w p) = ∅ }.

(** [n] are the messages in flight. *)
Record pv_inv (t : tokens) (w : PvWorld) (n : list (Z * ControlTransportMessage)) : Prop := {
  vi_nodes : forall c, is_core c -> node_inv t (node w c) (write w c) (mem w c) (heads w c) c;
  vi_tokens : forall p, token_inv t w p;
  vi_net : Forall (net_ok t) n /\ NoDup (owners n);
  vi_finished : Forall (fun d => dispatch_ok d /\ delivered w d) (finished w) }.

Hypothesis Hbase : 0 <= base /\ base + decoder_pv_wo_landing_gm + workerTileBytes <= 2 ^ 64.

Lemma landing_at l h : workerSlot (ln_message l) = h -> 0 <= h < 32 -> 0 <= ln_offset l < payloadBytes ->
  landing_address base l = slot_address h + ln_offset l.
Proof.
  intros <- H1 H2. unfold landing_address, slot_address. assert (decoder_pv_wo_landing_gm = 1703936) as E by reflexivity.
  unfold payloadBytes, workerTileBytes in *. rewrite E in *. rewrite u64_id by (split; lia). lia.
Qed.

(** ** Frames *)

Lemma node_inv_tokens t t' s wr m hd c :
  node_inv t s wr m hd c -> (forall p d pl, t p = Some (d, pl) -> at_node d pl c -> t' p = Some (d, pl)) ->
  node_inv t' s wr m hd c.
Proof.
  intros [] Ht. destruct ni_out0 as [O1 O2], ni_in0 as [I1 I2]. split; try done; (split; [|done]).
  - eapply Forall_impl; [exact O1|]. intros x (d & [(H1 & H2 & H3)|(H1 & H2 & H3)]); exists d; [left|right];
      (split; [by eapply Ht|done]).
  - eapply Forall_impl; [exact I1|]. intros l (d & H1 & H2 & H3). exists d. split; [by eapply Ht|done].
Qed.

(** A token elsewhere does not occur in the queues of a node. *)
Lemma out_owner t c q p d pl : Forall (out_ok t c) q -> t p = Some (d, pl) -> ~ at_node d pl c -> p ∉ owners q.
Proof.
  intros H Ht Hn Hin. apply list_elem_of_In, in_map_iff in Hin as (x & Ex & Hin). apply list_elem_of_In in Hin.
  rewrite Forall_forall in H. destruct (H x Hin) as (d' & [(H1 & H2 & _)|(H1 & H2 & _)]); rewrite Ex, Ht in H1;
    injection H1 as -> ->; by apply Hn.
Qed.
Lemma in_owner t m c q p d pl : Forall (in_ok t m c) q -> t p = Some (d, pl) -> pl <> Queued -> p ∉ in_owners q.
Proof.
  intros H Ht Hn Hin. apply list_elem_of_In, in_map_iff in Hin as (x & Ex & Hin). apply list_elem_of_In in Hin.
  rewrite Forall_forall in H. destruct (H x Hin) as (d' & H1 & _). rewrite Ex, Ht in H1. injection H1 as _ ->. done.
Qed.
Lemma net_owner t q p d pl : Forall (net_ok t) q -> t p = Some (d, pl) -> pl <> InNet -> pl <> AckNet -> p ∉ owners q.
Proof.
  intros H Ht Hn Ha Hin. apply list_elem_of_In, in_map_iff in Hin as (x & Ex & Hin). apply list_elem_of_In in Hin.
  rewrite Forall_forall in H. destruct (H x Hin) as (d' & [(H1 & _)|(H1 & _)]); rewrite Ex, Ht in H1; injection H1 as _ ->; done.
Qed.

(** Updating the token of [p] keeps what is known of the others. *)
Lemma out_insert t c q p x : Forall (out_ok t c) q -> p ∉ owners q -> Forall (out_ok (<[p := x]> t) c) q.
Proof.
  intros H Hp. apply Forall_forall. intros y Hy. rewrite Forall_forall in H.
  assert (ownerCore y.2 <> p) by (intros <-; apply Hp, list_elem_of_In, in_map_iff; exists y; split; [done|by apply list_elem_of_In]).
  destruct (H y Hy) as (d & [(H1 & H2)|(H1 & H2)]); exists d; [left|right]; by rewrite fn_lookup_insert_ne.
Qed.
Lemma in_insert t m c q p x : Forall (in_ok t m c) q -> p ∉ in_owners q -> Forall (in_ok (<[p := x]> t) m c) q.
Proof.
  intros H Hp. apply Forall_forall. intros y Hy. rewrite Forall_forall in H.
  assert (ownerCore (ln_message y) <> p)
    by (intros <-; apply Hp, list_elem_of_In, in_map_iff; exists y; split; [done|by apply list_elem_of_In]).
  destruct (H y Hy) as (d & H1 & H2). exists d. by rewrite fn_lookup_insert_ne.
Qed.
Lemma net_insert t q p x : Forall (net_ok t) q -> p ∉ owners q -> Forall (net_ok (<[p := x]> t)) q.
Proof.
  intros H Hp. apply Forall_forall. intros y Hy. rewrite Forall_forall in H.
  assert (ownerCore y.2 <> p) by (intros <-; apply Hp, list_elem_of_In, in_map_iff; exists y; split; [done|by apply list_elem_of_In]).
  destruct (H y Hy) as (d & [(H1 & H2)|(H1 & H2)]); exists d; [left|right]; by rewrite fn_lookup_insert_ne.
Qed.

Lemma token_inv_frame t t' w w' p :
  token_inv t w p -> t' p = t p -> current w' p = current w p -> pending_ (node w' p) = pending_ (node w p) ->
  (forall d pl, t p = Some (d, pl) -> dispatch_ok d -> place_ok w d pl -> place_ok w' d pl) -> token_inv t' w' p.
Proof.
  intros [T1 T2] E1 E2 E3 Hp. split; rewrite E1, ?E2, ?E3; [|done].
  intros d pl Ht. destruct (T1 d pl Ht) as (H1 & H2 & H3 & H4 & H5). repeat (split; [done|]). by apply Hp.
Qed.

(** At most the eight producers have a token in a queue. *)
Lemma owners_bound (l : list Z) : NoDup l -> Forall (fun p => 12 <= p < 20) l -> (length l <= 8)%nat.
Proof.
  intros Hn Hf. assert (l ⊆+ map Z.of_nat (seq 12 8)) as Hs.
  { apply NoDup_submseteq; [done|]. intros p Hp. rewrite Forall_forall in Hf. apply Hf in Hp.
    apply list_elem_of_In, in_map_iff. exists (Z.to_nat p). split; [lia|]. apply in_seq. lia. }
  apply submseteq_length in Hs. by rewrite length_map, length_seq in Hs.
Qed.
Lemma pv_out_bound t w n c : pv_inv t w n -> is_core c -> (length (outgoing_ (node w c)) <= 8)%nat.
Proof.
  intros V Hc. destruct (ni_out _ _ _ _ _ _ (vi_nodes _ _ _ V c Hc)) as [H1 H2].
  rewrite <- (length_map (fun x => ownerCore x.2)). apply owners_bound; [done|]. apply Forall_forall. intros p Hp.
  apply list_elem_of_In, in_map_iff in Hp as (x & <- & Hx). apply list_elem_of_In in Hx. rewrite Forall_forall in H1.
  assert (exists d pl, t (ownerCore x.2) = Some (d, pl)) as (d & pl & Ht)
    by (destruct (H1 x Hx) as (d & [(E & _)|(E & _)]); eauto).
  destruct (ti_some _ _ _ (vi_tokens _ _ _ V (ownerCore x.2)) d pl Ht) as (<- & D & _). apply (tile_facts d D).
Qed.
Lemma pv_in_bound t w n c : pv_inv t w n -> is_core c ->
  (length (incoming_ (node w c)) <= 8)%nat /\
  forall p d pl, t p = Some (d, pl) -> pl <> Queued -> (length (incoming_ (node w c)) < 8)%nat.
Proof.
  intros V Hc. destruct (ni_in _ _ _ _ _ _ (vi_nodes _ _ _ V c Hc)) as [H1 H2].
  assert (Hown : Forall (fun p => 12 <= p < 20) (in_owners (incoming_ (node w c)))).
  { apply Forall_forall. intros p Hp.
    apply list_elem_of_In, in_map_iff in Hp as (x & <- & Hx). apply list_elem_of_In in Hx. rewrite Forall_forall in H1.
    destruct (H1 x Hx) as (d & Ht & _).
    destruct (ti_some _ _ _ (vi_tokens _ _ _ V _) d _ Ht) as (<- & D & _). apply (tile_facts d D). }
  rewrite <- (length_map (fun l => ownerCore (ln_message l))). split; [by apply owners_bound|].
  intros p d pl Ht Hpl.
  assert (length (p :: in_owners (incoming_ (node w c))) <= 8)%nat as Hb; [|cbn in Hb; unfold in_owners in *; lia].
  apply owners_bound.
  - constructor; [|done]. by eapply in_owner.
  - constructor; [|done]. destruct (ti_some _ _ _ (vi_tokens _ _ _ V _) d _ Ht) as (<- & D & _). apply (tile_facts d D).
Qed.

(** ** Messages leave a queue, travel and arrive *)

Lemma net_permutation t w n n' : n ≡ₚ n' -> pv_inv t w n -> pv_inv t w n'.
Proof.
  intros Hn [V1 V2 [V3 V4] V5]. split; try done. split; [by rewrite <- Hn|].
  unfold owners in *. by rewrite <- Hn.
Qed.

Lemma owners_cons x q : owners (x :: q) = ownerCore x.2 :: owners q.
Proof. done. Qed.

(** Nothing of a node changes that the ledger of tiles depends on. *)
Definition same_ledger (w w' : PvWorld) : Prop :=
  (forall c, pending_ (node w' c) = pending_ (node w c) /\ received_ (node w' c) = received_ (node w c) /\
     landed_ (node w' c) = landed_ (node w c) /\ consumedEpoch_ (node w' c) = consumedEpoch_ (node w c)) /\
  heads w' = heads w /\ current w' = current w /\ finished w' = finished w.
Lemma same_ledger_node w c s :
  pending_ s = pending_ (node w c) -> received_ s = received_ (node w c) -> landed_ s = landed_ (node w c) ->
  consumedEpoch_ s = consumedEpoch_ (node w c) -> same_ledger w (set_node w c s).
Proof.
  intros E1 E2 E3 E4. split; [|done]. intros c'. cbn. destruct (decide (c' = c)) as [->|];
    [by rewrite fn_lookup_insert|by rewrite fn_lookup_insert_ne].
Qed.
Lemma ledger_delivered w w' d : same_ledger w w' -> delivered w d -> delivered w' d.
Proof. intros (S & Eh & _). unfold delivered. rewrite Eh. by destruct (S (d_target d)) as (_ & _ & -> & ->). Qed.
Lemma ledger_place w w' d pl : same_ledger w w' -> place_ok w d pl -> place_ok w' d pl.
Proof.
  intros S. pose proof (ledger_delivered w w' d S) as Hd. destruct S as (S & Eh & _). unfold place_ok. rewrite Eh.
  destruct (S (d_target d)) as (_ & -> & -> & _). by destruct pl.
Qed.
Lemma ledger_token t w w' p : same_ledger w w' -> token_inv t w p -> token_inv t w' p.
Proof.
  intros S T. pose proof S as (S1 & S2 & S3 & S4).
  eapply token_inv_frame; [exact T|done|by rewrite S3|apply S1|]. intros d pl _ _. by apply ledger_place.
Qed.
Lemma ledger_finished w w' : same_ledger w w' ->
  Forall (fun d => dispatch_ok d /\ delivered w d) (finished w) -> Forall (fun d => dispatch_ok d /\ delivered w' d) (finished w').
Proof.
  intros S H. pose proof S as (_ & _ & _ & ->). eapply Forall_impl; [exact H|]. intros d [D1 D2]. split; [done|].
  by eapply ledger_delivered.
Qed.

(** The head of the outgoing queue of [c] is taken out and floats. *)
Lemma pop_out t w n c x rest :
  pv_inv t w n -> is_core c -> outgoing_ (node w c) = x :: rest ->
  exists t', pv_inv t' (set_node w c (pv_outgoing (node w c) rest)) (x :: n).
Proof.
  intros V Hc Eo. pose proof V as [V1 V2 [V3 V4] V5]. pose proof (V1 c Hc) as N.
  destruct (ni_out _ _ _ _ _ _ N) as [O1 O2]. rewrite Eo in O1, O2. rewrite owners_cons in O2.
  apply Forall_cons in O1 as [Ox O1]. apply NoDup_cons in O2 as [O2 O3].
  set (p := ownerCore x.2) in *. destruct Ox as (d & Hd). fold p in Hd.
  assert (exists pl pl', t p = Some (d, pl) /\ at_node d pl c /\ (pl = AtOut \/ pl = AckOut) /\
    (forall w, place_ok w d pl -> place_ok w d pl') /\ net_ok (<[p := Some (d, pl')]> t) x) as (pl & pl' & Ht & Ha & Hpl & Hpo & Hx).
  { destruct Hd as [(H1 & H2 & H3)|(H1 & H2 & H3)].
    - exists AtOut, InNet. split; [done|]. split; [done|]. split; [by left|]. split; [done|].
      exists d. left. fold p. by rewrite fn_lookup_insert.
    - exists AckOut, AckNet. split; [done|]. split; [done|]. split; [by right|].
      split; [done|]. exists d. right. fold p. by rewrite fn_lookup_insert. }
  assert (same_ledger w (set_node w c (pv_outgoing (node w c) rest))) as S by (by apply same_ledger_node).
  exists (<[p := Some (d, pl')]> t). split.
  - intros c' Hc'. destruct (decide (c' = c)) as [->|Hne].
    + cbn [set_node node write mem heads]. rewrite fn_lookup_insert.
      destruct N as [N1 N2 _ [N3 N3'] N4 N5 N6 N7 N8]. split; try done; cbn [pv_outgoing outgoing_ incoming_].
      * split; [|done]. by apply out_insert.
      * split; [|done]. apply in_insert; [done|]. eapply in_owner; [done|exact Ht|]. by destruct Hpl as [-> | ->].
    + cbn [set_node node write mem heads]. rewrite fn_lookup_insert_ne by done.
      eapply node_inv_tokens; [by apply V1|]. intros p' d' pl2 Ht' Ha'. rewrite fn_lookup_insert_ne; [done|].
      intros <-. rewrite Ht in Ht'. injection Ht' as <- <-. apply Hne. destruct Hpl as [-> | ->]; cbn in *; congruence.
  - intros p'. destruct (decide (p' = p)) as [->|Hne].
    + destruct (ledger_token t _ _ p S (V2 p)) as [T1 T2]. destruct (T1 d pl Ht) as (H1 & H2 & H3 & H4 & H5).
      split; [|by rewrite fn_lookup_insert]. rewrite fn_lookup_insert. intros d1 pl1 [= <- <-].
      repeat (split; [done|]). by apply Hpo.
    + eapply token_inv_frame; [apply (ledger_token t _ _ p' S), V2|by rewrite fn_lookup_insert_ne|done..].
  - rewrite owners_cons. fold p. assert (p ∉ owners n) as Hn by (eapply net_owner; [exact V3|exact Ht|by destruct Hpl as [-> | ->]..]).
    split; [|by constructor]. constructor; [done|]. by apply net_insert.
  - by apply (ledger_finished w).
Qed.

(** What [receive] does with the data of a tile in flight. *)
Lemma receive_data c s d :
  core_ s = c -> 0 <= consumedEpoch_ s <= 32 -> dispatch_ok d -> d_target d = c -> d_epoch d = consumedEpoch_ s + 1 ->
  leased_ s = false -> (length (incoming_ s) < 8)%nat -> Z.testbit (received_ s) (d_head d) = false ->
  PvWoHandoff_receive s (d_data d) =
  Ok (pv_incoming (pv_bits s (set_bit (received_ s) (d_head d)) (landed_ s)) (incoming_ s ++ [mkLanding (d_data d) 0]), None).
Proof.
  intros Ec He D Et Ep El Hq Hb. destruct (tile_facts d D) as (F1 & F2 & F3 & F4 & F5 & F6).
  unfold PvWoHandoff_receive. rewrite bool_decide_false by done. rewrite El. cbn [d_data data_message kind workerCore ownerCore
    workerSlot tensorPayload queryLength headDim outputAddr inputAddr].
  change (tile_target (d_source d)) with (d_target d). change (tile_head (d_source d)) with (d_head d).
  change (tile_epoch (d_source d)) with (d_epoch d).
  rewrite Et, Ec, F5, <- F6, Et, Ep, !Z.eqb_refl, u32_id by (split; lia).
  rewrite has_bit_testbit, Hb by lia. rewrite Z.eqb_refl, (bool_decide_true (_ = _)) by done.
  rewrite (proj2 (Z.ltb_ge _ _)), (proj2 (Z.leb_gt _ _)), (proj2 (Z.leb_gt 32 _)), (proj2 (Nat.leb_gt _ _)) by lia. done.
Qed.

Lemma receive_ack s d :
  pending_ s = {[d_key d := d_target d]} -> core_ s = d_owner d ->
  PvWoHandoff_receive s (d_ack d) = Ok (pv_pending s ∅, Some (d_key d)).
Proof.
  intros Ep Ec. unfold PvWoHandoff_receive. rewrite bool_decide_true by done.
  change (message_key (d_ack d)) with (d_key d). rewrite Ep, lookup_singleton_eq, Ec.
  change (ownerCore (d_ack d)) with (d_owner d). change (workerCore (d_ack d)) with (d_target d).
  rewrite !Z.eqb_refl. change (SFeqb (value (d_ack d)) one64) with true. cbn [negb orb].
  by rewrite delete_singleton_eq.
Qed.

Lemma deliver_data t w n c d :
  pv_inv t w n -> t (d_owner d) = Some (d, InNet) -> c = d_target d -> d_owner d ∉ owners n ->
  exists s, PvWoHandoff_receive (node w c) (d_data d) = Ok (s, None) /\
    pv_inv (<[d_owner d := Some (d, Queued)]> t) (set_node w c s) n.
Proof.
  intros V Ht -> Hfresh. set (c := d_target d). set (p := d_owner d) in *.
  pose proof V as [V1 V2 [V3 V4] V5]. destruct (V2 p) as [T1 _]. destruct (T1 _ _ Ht) as (_ & D & Tc & Tp & Hh & Hr).
  destruct (tile_facts d D) as (F1 & F2 & F3 & F4 & F5 & F6). fold c in F2, F6, Hh, Hr.
  pose proof (V1 c F2) as N. pose proof N as [N1 N2 [N3 N3'] [N4 N4'] N5 N6 N7 N8 N9].
  destruct (N6 _ _ Hh) as (_ & _ & _ & Hep).
  assert (Hl : leased_ (node w c) = false).
  { destruct (leased_ (node w c)); [|done]. destruct N9 as [E _]; [done|]. rewrite E, all_bits in Hr by done. done. }
  destruct (pv_in_bound t w n c V F2) as [_ Hq]. specialize (Hq p d InNet Ht ltac:(done)).
  eexists. split; [by apply (receive_data c)|].
  set (s := pv_incoming _ _).
  assert (Hbits : forall h, 0 <= h < 32 -> Z.testbit (received_ s) h = (d_head d =? h) || Z.testbit (received_ (node w c)) h)
    by (intros h Hb; apply set_bit_testbit; lia).
  assert (Hnode : forall c', consumedEpoch_ (node (set_node w c s) c') = consumedEpoch_ (node w c') /\
    landed_ (node (set_node w c s) c') = landed_ (node w c') /\ pending_ (node (set_node w c s) c') = pending_ (node w c')).
  { intros c'. cbn. destruct (decide (c' = c)) as [->|]; [by rewrite fn_lookup_insert|by rewrite fn_lookup_insert_ne]. }
  assert (Hdel : forall d0, delivered w d0 -> delivered (set_node w c s) d0)
    by (intros d0; unfold delivered; by destruct (Hnode (d_target d0)) as (-> & -> & _)).
  split.
  - intros c' Hc'. cbn [set_node node write mem heads]. destruct (decide (c' = c)) as [->|Hne].
    + rewrite fn_lookup_insert. split; try done.
      * split; [|done]. apply out_insert; [done|]. eapply out_owner; [exact N3|exact Ht|]. cbn. tauto.
      * cbn [s pv_incoming incoming_]. assert (p ∉ in_owners (incoming_ (node w c))) as Hi by (by eapply in_owner).
        split.
        -- apply Forall_app. split; [by apply in_insert|]. apply Forall_singleton. exists d.
           cbn [ln_message ln_offset d_data data_message ownerCore]. fold p. rewrite fn_lookup_insert.
           repeat (split; [done|]). apply holds_nil.
        -- unfold in_owners. rewrite map_app. apply NoDup_app. split; [done|]. split; [|apply NoDup_singleton].
           intros x Hx ->%list_elem_of_singleton. done.
      * destruct (write w c) as [[a bs]|]; [|done]. destruct N5 as (H1 & l & rest & H2 & H3). split; [done|].
        exists l, (rest ++ [mkLanding (d_data d) 0]). cbn [s pv_incoming incoming_]. by rewrite H2.
      * intros h Hb. rewrite Hbits by done. destruct (Z.eqb_spec (d_head d) h) as [<-|]; [by exists d|apply N7, Hb].
      * intros h Hb Hlb. destruct (N8 h Hb Hlb) as [H1 H2]. split; [|done]. rewrite Hbits, H1 by done. by rewrite orb_true_r.
      * intros Hl'. cbn in Hl'. congruence.
    + rewrite fn_lookup_insert_ne by done. eapply node_inv_tokens; [by apply V1|].
      intros p' d' pl Ht' Ha. rewrite fn_lookup_insert_ne; [done|]. intros <-. rewrite Ht in Ht'. injection Ht' as <- <-. done.
  - intros p'. destruct (decide (p' = p)) as [->|Hne].
    + split; [|by rewrite fn_lookup_insert]. rewrite fn_lookup_insert. intros d1 pl1 [= <- <-].
      destruct (Hnode p) as (_ & _ & ->). repeat (split; [done|]). cbn [place_ok]. fold c.
      destruct (Hnode c) as (_ & -> & _). cbn [set_node heads node]. rewrite fn_lookup_insert, Hbits, Z.eqb_refl by done.
      repeat (split; [done|]). destruct (Z.testbit (landed_ (node w c)) (d_head d)) eqn:El; [|done].
      destruct (N8 _ F3 El) as [H1 _]. congruence.
    + eapply token_inv_frame; [apply V2|by rewrite fn_lookup_insert_ne|done|apply Hnode|].
      intros d0 pl0 Ht0 D0 P0. destruct (tile_facts d0 D0) as (_ & _ & G3 & _).
      assert (Hrec : forall b, heads w (d_target d0) (d_head d0) = Some d0 ->
        Z.testbit (received_ (node w (d_target d0))) (d_head d0) = b ->
        Z.testbit (received_ (node (set_node w c s) (d_target d0))) (d_head d0) = b).
      { intros b Hh0 Hb0. cbn. destruct (decide (d_target d0 = c)) as [Ec|]; [|by rewrite fn_lookup_insert_ne].
        rewrite Ec in *. rewrite fn_lookup_insert, Hbits by done. destruct (Z.eqb_spec (d_head d) (d_head d0)) as [Eh|]; [|done].
        exfalso. rewrite <- Eh, Hh in Hh0. injection Hh0 as <-. destruct (V2 p') as [T' _].
        destruct (T' _ _ Ht0) as (E1 & _). by apply Hne. }
      unfold place_ok in *. cbn [set_node heads] in *. destruct (Hnode (d_target d0)) as (_ & El & _). cbn [set_node] in El.
      destruct pl0; rewrite ?El; try (destruct P0 as [P1 P2]; split; [done|]); try (by apply Hrec); try (by apply Hdel).
      destruct P2 as [P2 P3]. split; [by apply Hrec|done].
  - split; [|done]. by apply net_insert.
  - eapply Forall_impl; [exact V5|]. intros d0 [D1 D2]. split; [done|by apply Hdel].
Qed.

Lemma deliver_ack t w n d :
  pv_inv t w n -> t (d_owner d) = Some (d, AckNet) -> d_owner d ∉ owners n ->
  let s := pv_pending (node w (d_owner d)) ∅ in
  PvWoHandoff_receive (node w (d_owner d)) (d_ack d) = Ok (s, Some (d_key d)) /\
  pv_inv (<[d_owner d := None]> t) (add_finished (set_node w (d_owner d) s) (d_owner d) (Some (d_key d))) n.
Proof.
  intros V Ht Hfresh. cbv zeta. set (p := d_owner d) in *. set (s := pv_pending _ _).
  pose proof V as [V1 V2 [V3 V4] V5]. destruct (V2 p) as [T1 _]. destruct (T1 _ _ Ht) as (_ & D & Tc & Tp & Hd). cbn in Hd.
  destruct (tile_facts d D) as (F1 & _). fold p in F1. assert (is_core p) as Hp by (unfold is_core; lia).
  pose proof (V1 p Hp) as N. split; [apply receive_ack; [done|apply N]|].
  assert (Hnode : forall c', received_ (node (set_node w p s) c') = received_ (node w c') /\
    landed_ (node (set_node w p s) c') = landed_ (node w c') /\
    consumedEpoch_ (node (set_node w p s) c') = consumedEpoch_ (node w c')).
  { intros c'. cbn. destruct (decide (c' = p)) as [->|]; [by rewrite fn_lookup_insert|by rewrite fn_lookup_insert_ne]. }
  assert (Hdel : forall d0, delivered w d0 -> delivered (set_node w p s) d0)
    by (intros d0; unfold delivered; by destruct (Hnode (d_target d0)) as (_ & -> & ->)).
  split.
  - intros c' Hc'. cbn [add_finished set_node node write mem heads].
    assert (N' : node_inv (<[p := None]> t) (node w c') (write w c') (mem w c') (heads w c') c').
    { eapply node_inv_tokens; [by apply V1|]. intros p' d' pl Ht' Ha. rewrite fn_lookup_insert_ne; [done|].
      intros <-. rewrite Ht in Ht'. injection Ht' as <- <-. done. }
    destruct (decide (c' = p)) as [->|Hne]; [|by rewrite fn_lookup_insert_ne].
    rewrite fn_lookup_insert. destruct N' as [N1 N2 N3 N4 N5 N6 N7 N8 N9]. by split.
  - intros p'. destruct (decide (p' = p)) as [->|Hne].
    + split; rewrite fn_lookup_insert; [done|]. intros _ _. cbn. by rewrite fn_lookup_insert.
    + eapply token_inv_frame; [apply V2|by rewrite fn_lookup_insert_ne|done|cbn; by rewrite fn_lookup_insert_ne|].
      intros d0 pl0 _ _ P0. unfold place_ok in *. cbn [add_finished set_node heads node] in *.
      destruct (Hnode (d_target d0)) as (Er & El & _). cbn [set_node node] in Er, El. rewrite Er, El.
      destruct pl0; try done; by apply Hdel.
  - split; [|done]. by apply net_insert.
  - cbn [add_finished finished set_node current]. rewrite Tc. constructor; [split; [done|by apply Hdel]|].
    eapply Forall_impl; [exact V5|]. intros d0 [D1 D2]. split; [done|by apply Hdel].
Qed.

(** A floating message arrives. *)
Lemma deliver t w n c m :
  pv_inv t w ((c, m) :: n) ->
  exists s k t', PvWoHandoff_receive (node w c) m = Ok (s, k) /\ pv_inv t' (add_finished (set_node w c s) c k) n /\ is_core c.
Proof.
  intros [V1 V2 [V3 V4] V5]. apply Forall_cons in V3 as [(d & Hx) V3]. rewrite owners_cons in V4. apply NoDup_cons in V4 as [V4 V4'].
  cbn [snd] in *. assert (V : pv_inv t w n) by done.
  destruct Hx as [(Ht & E)|(Ht & E)]; injection E as -> ->.
  - change (ownerCore (d_data d)) with (d_owner d) in *.
    destruct (deliver_data t w n _ d V Ht eq_refl V4) as (s & E & V').
    destruct (V2 (d_owner d)) as [T1 _]. destruct (T1 _ _ Ht) as (_ & D & _).
    exists s, None, (<[d_owner d := Some (d, Queued)]> t). split; [done|]. split; [exact V'|apply (tile_facts d D)].
  - change (ownerCore (d_ack d)) with (d_owner d) in *. destruct (deliver_ack t w n d V Ht V4) as [E V'].
    destruct (V2 (d_owner d)) as [T1 _]. destruct (T1 _ _ Ht) as (_ & D & _). pose proof (tile_facts d D) as (F & _).
    eexists _, _, _. split; [exact E|]. split; [exact V'|unfold is_core; lia].
Qed.

(** Worlds that agree pointwise. *)
Lemma pv_inv_ext t w w' n :
  pv_inv t w n -> (forall c, node w' c = node w c) -> (forall c, write w' c = write w c) -> (forall c, mem w' c = mem w c) ->
  (forall c, heads w' c = heads w c) -> (forall p, current w' p = current w p) -> finished w' = finished w -> pv_inv t w' n.
Proof.
  intros [V1 V2 V3 V4] E1 E2 E3 E4 E5 E6.
  assert (Hd : forall d, delivered w d -> delivered w' d) by (intros d; unfold delivered; by rewrite E1, E4).
  split; [..|done|].
  - intros c Hc. rewrite E1, E2, E3, E4. by apply V1.
  - intros p. eapply token_inv_frame; [apply V2|done|apply E5|by rewrite E1|].
    intros d pl _ _. unfold place_ok. rewrite E1, E4. destruct pl; try done; apply Hd.
  - rewrite E6. eapply Forall_impl; [exact V4|]. intros d [D1 D2]. split; [done|by apply Hd].
Qed.
Lemma set_node_twice w c s s' c' : node (set_node (set_node w c s) c s') c' = node (set_node w c s') c'.
Proof. cbn. destruct (decide (c' = c)) as [->|]; [by rewrite !fn_lookup_insert|by rewrite !fn_lookup_insert_ne]. Qed.

Lemma pump_outgoing t w n c sent :
  pv_inv t w n -> is_core c ->
  exists s k x t', pumpOutgoing (node w c) sent = Ok (s, k, x) /\
    pv_inv t' (add_finished (set_node w c s) c k) (n ++ match x with Some x => [x] | None => [] end).
Proof.
  intros V Hc. pose proof (vi_nodes _ _ _ V c Hc) as N. unfold pumpOutgoing.
  assert (Hsame : pv_inv t (add_finished (set_node w c (node w c)) c None) (n ++ [])).
  { rewrite app_nil_r. eapply pv_inv_ext; [exact V| |done..]. intros c'. cbn.
    destruct (decide (c' = c)) as [->|]; [by rewrite fn_lookup_insert|by rewrite fn_lookup_insert_ne]. }
  destruct (outgoing_ (node w c)) as [|[dst m] rest] eqn:Eo; [eexists _, _, _, _; split; [done|exact Hsame]|].
  rewrite (ni_core _ _ _ _ _ _ N). destruct (pop_out t w n c (dst, m) rest V Hc Eo) as (t1 & V1).
  destruct (Z.eqb_spec dst c) as [->|Hne].
  - destruct (deliver t1 _ n c m V1) as (s & k & t2 & E & V2 & _). cbn [set_node node] in E. rewrite fn_lookup_insert in E.
    rewrite E. cbn [rbind fst snd]. exists s, k, None, t2. split; [done|]. rewrite app_nil_r.
    eapply pv_inv_ext; [exact V2|intros c'; symmetry; apply (set_node_twice w c _ s)|done..].
  - destruct sent; [|eexists _, _, _, _; split; [done|exact Hsame]].
    eexists _, _, (Some (dst, m)), t1. split; [done|]. eapply net_permutation; [|exact V1]. by rewrite Permutation_app_comm.
Qed.

Lemma pump_landing t w n c accepted s x :
  pv_inv t w n -> is_core c -> pumpLanding base maxRequest (node w c) accepted = (s, x) ->
  pv_inv t (match x with Some x => set_write (set_node w c s) c (Some x) | None => set_node w c s end) n.
Proof.
  intros V Hc E. pose proof V as [V1 V2 V3 V4]. pose proof (V1 c Hc) as N. unfold pumpLanding in E.
  assert (Hsame : (s, x) = (node w c, None) ->
    pv_inv t (match x with Some x => set_write (set_node w c s) c (Some x) | None => set_node w c s end) n).
  { intros [= -> ->]. eapply pv_inv_ext; [exact V| |done..]. intros c'. cbn.
    destruct (decide (c' = c)) as [->|]; [by rewrite fn_lookup_insert|by rewrite fn_lookup_insert_ne]. }
  destruct (incoming_ (node w c)) as [|l rest] eqn:Ei; [by apply Hsame|].
  destruct (landingPending_ (node w c)) eqn:Ep; [by apply Hsame|]. clear Hsame.
  injection E as <- <-. set (s := pv_landing _ _ _).
  assert (same_ledger w (set_node w c s)) as S by (by apply same_ledger_node).
  assert (Hw : write w c = None).
  { pose proof (ni_write _ _ _ _ _ _ N) as Hw. destruct (write w c) as [[a bs]|]; [|done]. destruct Hw. congruence. }
  assert (Hn : forall wr, match wr with Some (a, bs) => accepted = true /\ a = landing_address base l /\
      bs = bslice (ln_offset l) (landing_length maxRequest l) (tensorPayload (ln_message l)) | None => accepted = false end ->
    node_inv t s wr (mem w c) (heads w c) c).
  { intros wr Hwr. destruct N as [N1 N2 N3 N4 N5 N6 N7 N8 N9]. split; try done.
    destruct wr as [[a bs]|]; [|exact Hwr]. destruct Hwr as (-> & -> & ->). split; [done|]. exists l, rest. by rewrite <- Ei. }
  destruct accepted.
  - split; [|intros p; by apply (ledger_token t w)|done|by apply (ledger_finished w)].
    intros c' Hc'. cbn. destruct (decide (c' = c)) as [->|]; [rewrite !fn_lookup_insert|rewrite !fn_lookup_insert_ne by done; by apply V1].
    by apply Hn.
  - split; [|intros p; by apply (ledger_token t w)|done|by apply (ledger_finished w)].
    intros c' Hc'. cbn. destruct (decide (c' = c)) as [->|]; [rewrite fn_lookup_insert|rewrite !fn_lookup_insert_ne by done; by apply V1].
    rewrite Hw. by apply Hn.
Qed.

Lemma tick_inv t w c sent accepted :
  pv_inv t w (net w) -> is_core c ->
  exists s e t', PvWoHandoff_tick base maxRequest (node w c) sent accepted = Ok (s, e) /\
    pv_inv t' (let w1 := set_node w c s in
       let w1 := set_net w1 (net w ++ match ef_sent e with Some x => [x] | None => [] end) in
       let w1 := match ef_write e with Some x => set_write w1 c (Some x) | None => w1 end in
       add_finished w1 c (ef_done e)) (net w ++ match ef_sent e with Some x => [x] | None => [] end).
Proof.
  intros V Hc. destruct (pump_outgoing t w (net w) c sent V Hc) as (s1 & k & x & t1 & E & V1).
  unfold PvWoHandoff_tick. rewrite E. cbn [rbind].
  destruct (pumpLanding base maxRequest s1 accepted) as [s wr] eqn:El.
  eexists s, _, t1. split; [done|]. cbn [ef_done ef_sent ef_write]. cbv zeta.
  assert (node (add_finished (set_node w c s1) c k) c = s1) as En by (cbn; by rewrite fn_lookup_insert).
  rewrite <- En in El. pose proof (pump_landing t1 _ _ c accepted s wr V1 Hc El) as V2.
  destruct wr as [wr|]; (eapply pv_inv_ext; [exact V2|intros c'; symmetry; apply (set_node_twice w c s1 s)|done..]).
Qed.

Hypothesis Hmax : 0 < maxRequest.

(** ** A write completes *)

(** A write inside the slot of head [h] leaves the other slots. *)
Lemma other_slot m h h' o bs bs' :
  holds m (slot_address h') bs' -> h <> h' -> 0 <= o -> o + blen bs <= payloadBytes -> blen bs' <= payloadBytes ->
  holds (write_mem m (slot_address h + o) bs) (slot_address h') bs'.
Proof.
  intros H Hne H1 H2 H3. apply write_keeps; [done|]. unfold slot_address, payloadBytes in *.
  assert (0 <= blen bs /\ 0 <= blen bs') by (unfold blen; lia). destruct (Z.lt_ge_cases h h'); [left|right]; nia.
Qed.

Lemma bslice_bound o l bs : 0 <= o -> 0 <= l -> blen (bslice o l bs) <= l.
Proof. intros. unfold bslice, blen. rewrite length_take. lia. Qed.

(** The bytes written extend what has landed of the tile. *)
Lemma landing_write m d o :
  dispatch_ok d -> 0 <= o < payloadBytes -> holds m (slot_address (d_head d)) (bslice 0 o (d_bytes d)) ->
  let len := Z.min maxRequest (payloadBytes - o) in
  let bs := bslice o len (d_bytes d) in
  blen bs = len /\ 0 < len /\ o + len <= payloadBytes /\
  holds (write_mem m (slot_address (d_head d) + o) bs) (slot_address (d_head d)) (bslice 0 (o + len) (d_bytes d)).
Proof.
  intros D Ho H. cbv zeta. destruct (tile_facts d D) as (_ & _ & _ & _ & Hb & _). set (len := Z.min _ _).
  assert (0 < len /\ o + len <= payloadBytes) as [H1 H2] by (unfold len; lia).
  assert (blen (bslice o len (d_bytes d)) = len) as Hl by (apply bslice_length; lia).
  repeat (split; [done|]). rewrite <- bslice_extend by lia. apply holds_app.
  - apply write_keeps; [done|]. right. rewrite bslice_length; lia.
  - rewrite bslice_length by lia. apply write_holds.
Qed.

(** The other landings and the landed heads of the node keep their bytes. *)
Lemma in_keeps t c m q d o bs w n :
  pv_inv t w n -> Forall (in_ok t m c) q -> d_owner d ∉ in_owners q -> t (d_owner d) = Some (d, Queued) -> d_target d = c ->
  0 <= o -> o + blen bs <= payloadBytes -> Forall (in_ok t (write_mem m (slot_address (d_head d) + o) bs) c) q.
Proof.
  intros V H Hn Ht Et H1 H2. apply Forall_forall. intros l Hl. rewrite Forall_forall in H.
  destruct (H l Hl) as (d' & E1 & E2 & E3 & E4 & E5). exists d'. repeat (split; [done|]).
  destruct (ti_some _ _ _ (vi_tokens _ _ _ V _) _ _ E1) as (G1 & _ & _ & _ & Gh & _).
  destruct (ti_some _ _ _ (vi_tokens _ _ _ V _) _ _ Ht) as (_ & _ & _ & _ & Fh & _).
  apply other_slot; try done.
  - intros Eh. apply Hn. rewrite <- E2, <- Et, <- Eh, Fh in Gh. injection Gh as <-. rewrite G1.
    apply list_elem_of_In, in_map_iff. exists l. split; [done|by apply list_elem_of_In].
  - etransitivity; [apply bslice_bound; lia|lia].
Qed.

(** The last piece of a tile: its head is marked and its acknowledgement queued. *)
Lemma full_inv t w n c d m rest s :
  pv_inv t w n -> is_core c -> t (d_owner d) = Some (d, Queued) -> d_target d = c ->
  Forall (in_ok t m c) rest -> d_owner d ∉ in_owners rest -> NoDup (in_owners rest) ->
  (forall h, 0 <= h < 32 -> Z.testbit (landed_ (node w c)) h = true ->
    exists d0, heads w c h = Some d0 /\ holds m (slot_address h) (d_bytes d0)) ->
  holds m (slot_address (d_head d)) (d_bytes d) ->
  s = pv_incoming (pv_outgoing (pv_bits (pv_landing (node w c) (tag_ (node w c)) false) (received_ (node w c))
        (set_bit (landed_ (node w c)) (d_head d))) (outgoing_ (node w c) ++ [(d_owner d, d_ack d)])) rest ->
  pv_inv (<[d_owner d := Some (d, AckOut)]> t) (set_mem (set_write (set_node w c s) c None) c m) n.
Proof.
  intros V Hc Ht Et Hrest Hn Hnd Hlanded Hall Es. set (p := d_owner d) in *.
  pose proof V as [V1 V2 [V3 V4] V5]. destruct (V2 p) as [T1 _]. destruct (T1 _ _ Ht) as (_ & D & Tc & Tp & Hh & Hr & Hl).
  rewrite Et in *. destruct (tile_facts d D) as (F1 & _ & F3 & _).
  pose proof (V1 c Hc) as N. pose proof N as [N1 N2 [N3 N3'] _ N5 N6 N7 N8 N9].
  set (w' := set_mem (set_write (set_node w c s) c None) c m).
  assert (Hbits : forall h, 0 <= h < 32 -> Z.testbit (landed_ s) h = (d_head d =? h) || Z.testbit (landed_ (node w c)) h)
    by (intros h Hb; rewrite Es; apply set_bit_testbit; lia).
  assert (Hnode : forall c', pending_ (node w' c') = pending_ (node w c') /\ received_ (node w' c') = received_ (node w c') /\
    consumedEpoch_ (node w' c') = consumedEpoch_ (node w c')).
  { intros c'. cbn. destruct (decide (c' = c)) as [->|]; [rewrite fn_lookup_insert, Es|rewrite fn_lookup_insert_ne]; done. }
  assert (Hself : delivered w' d).
  { right. rewrite Et. cbn. rewrite fn_lookup_insert, Hbits, Z.eqb_refl by done. done. }
  assert (Hdel : forall d0, dispatch_ok d0 -> delivered w d0 -> delivered w' d0).
  { intros d0 D0. destruct (tile_facts d0 D0) as (_ & _ & G3 & _). unfold delivered. destruct (Hnode (d_target d0)) as (_ & _ & ->).
    intros [H1|[H1 H2]]; [by left|right]. split; [done|]. cbn. destruct (decide (d_target d0 = c)) as [Ec|]; [|by rewrite fn_lookup_insert_ne].
    rewrite Ec in *. by rewrite fn_lookup_insert, Hbits, H2, orb_true_r. }
  split.
  - intros c' Hc'. cbn [w' set_mem set_write set_node node write mem heads].
    destruct (decide (c' = c)) as [->|Hne].
    + rewrite !fn_lookup_insert. rewrite Es. split; try done; cbn [pv_incoming pv_outgoing pv_bits pv_landing
        outgoing_ incoming_ landed_ received_ leased_ consumedEpoch_ core_].
      * assert (p ∉ owners (outgoing_ (node w c))) as Ho.
        { intros Hin. apply list_elem_of_In, in_map_iff in Hin as (x & Ex & Hin). apply list_elem_of_In in Hin.
          rewrite Forall_forall in N3. destruct (N3 x Hin) as (d' & [(H1 & _)|(H1 & _)]); rewrite Ex, Ht in H1; done. }
        split.
        -- apply Forall_app. split; [by apply out_insert|]. apply Forall_singleton. exists d. right.
           change (ownerCore (p, d_ack d).2) with p. by rewrite fn_lookup_insert.
        -- unfold owners. rewrite map_app. apply NoDup_app. split; [done|]. split; [|apply NoDup_singleton].
           intros x Hx ->%list_elem_of_singleton. done.
      * split; [|done]. by apply in_insert.
      * intros h Hb Hlb. assert (Hs : Z.testbit (landed_ s) h = true) by (by rewrite Es). rewrite Hbits in Hs by done.
        destruct (Z.eqb_spec (d_head d) h) as [<-|]; [split; [done|]; exists d; done|].
        destruct (N8 h Hb Hs) as [H1 _]. split; [done|]. by apply Hlanded.
      * intros Hlease. destruct (N9 Hlease) as [_ E]. rewrite E, all_bits in Hl by done. done.
    + rewrite !fn_lookup_insert_ne by done. eapply node_inv_tokens; [by apply V1|].
      intros p' d' pl Ht' Ha. rewrite fn_lookup_insert_ne; [done|]. intros <-. rewrite Ht in Ht'. injection Ht' as <- <-.
      cbn in Ha. congruence.
  - intros p'. destruct (decide (p' = p)) as [->|Hne].
    + split; [|by rewrite fn_lookup_insert]. rewrite fn_lookup_insert. intros d1 pl1 [= <- <-].
      destruct (Hnode p) as [-> _]. rewrite Et. repeat (split; [done|]). exact Hself.
    + eapply token_inv_frame; [apply V2|by rewrite fn_lookup_insert_ne|done|apply Hnode|].
      intros d0 pl0 Ht0 D0 P0. unfold place_ok in *. destruct (Hnode (d_target d0)) as (_ & -> & _).
      destruct pl0; try (by apply Hdel); try exact P0. destruct P0 as (P1 & P2 & P3). split; [done|]. split; [done|].
      cbn. destruct (decide (d_target d0 = c)) as [Ec|]; [|by rewrite fn_lookup_insert_ne].
      rewrite Ec in *. destruct (tile_facts d0 D0) as (_ & _ & G3 & _). rewrite fn_lookup_insert, Hbits, P3, orb_false_r by done.
      apply Z.eqb_neq. intros Eh. rewrite <- Eh, Hh in P1. injection P1 as <-. destruct (V2 p') as [T' _].
      destruct (T' _ _ Ht0) as (E1 & _). by apply Hne.
  - split; [|done]. apply net_insert; [done|]. by eapply net_owner.
  - eapply Forall_impl; [exact V5|]. intros d0 [D1 D2]. split; [done|by apply Hdel].
Qed.

Lemma written_inv t w n c a bs :
  pv_inv t w n -> is_core c -> write w c = Some (a, bs) ->
  exists s t', pv_written (node w c) (blen bs) true = Ok s /\
    pv_inv t' (set_mem (set_write (set_node w c s) c None) c (write_mem (mem w c) a bs)) n.
Proof.
  intros V Hc Hw. pose proof V as [V1 V2 V3 V4]. pose proof (V1 c Hc) as N.
  pose proof N as [N1 N2 [N3 N3'] [N4 N4'] N5 N6 N7 N8 N9]. rewrite Hw in N5. destruct N5 as (Hp & l & rest & Ei & Ea & Eb).
  rewrite Ei in N4, N4'. apply Forall_cons in N4 as [(d & Ht & Et & Em & Ho & Hpre) N4]. cbn [in_owners map] in N4'.
  apply NoDup_cons in N4' as [Nn N4']. set (p := ownerCore (ln_message l)) in *.
  destruct (V2 p) as [T1 _]. destruct (T1 _ _ Ht) as (Ep & D & Tc & Tp & Hh & Hr & Hl). rewrite <- Et in *.
  destruct (tile_facts d D) as (F1 & _ & F3 & _ & F5 & _).
  destruct (landing_write (mem w c) d (ln_offset l) D Ho Hpre) as (L1 & L2 & L3 & L4).
  assert (Hbs : bs = bslice (ln_offset l) (landing_length maxRequest l) (d_bytes d)) by (rewrite Eb, Em; done).
  assert (Ha : a = slot_address (d_head d) + ln_offset l)
    by (rewrite Ea; apply (landing_at l (d_head d)); [by rewrite Em|done|done]).
  assert (Hlen : blen bs = landing_length maxRequest l) by (by rewrite Hbs).
  assert (Hlanded : forall h, 0 <= h < 32 -> Z.testbit (landed_ (node w c)) h = true ->
    exists d0, heads w c h = Some d0 /\ holds (write_mem (mem w c) a bs) (slot_address h) (d_bytes d0)).
  { intros h Hb Hlb. destruct (N8 h Hb Hlb) as (_ & d0 & E0 & H0). exists d0. split; [done|]. rewrite Ha. apply other_slot; try done.
    - intros <-. congruence.
    - lia.
    - rewrite Hlen. exact L3.
    - destruct (N6 _ _ E0) as (D0 & _). by destruct (tile_facts d0 D0) as (_ & _ & _ & _ & -> & _). }
  assert (Hrest : Forall (in_ok t (write_mem (mem w c) a bs) c) rest).
  { rewrite Ha. eapply in_keeps; [exact V|exact N4|by rewrite Ep|by rewrite Ep|done|lia|rewrite Hlen; exact L3]. }
  assert (Hfull : holds (write_mem (mem w c) a bs) (slot_address (d_head d)) (bslice 0 (ln_offset l + blen bs) (d_bytes d)))
    by (rewrite Ha, Hlen, Hbs; exact L4).
  unfold pv_written. change (incoming_ (pv_landing (node w c) (tag_ (node w c)) false)) with (incoming_ (node w c)).
  rewrite Ei. cbn [negb ln_message ln_offset]. destruct (Z.eqb_spec (ln_offset l + blen bs) payloadBytes) as [Efull|Epart]; cbn [negb].
  - rewrite Efull in Hfull. assert (Hall : holds (write_mem (mem w c) a bs) (slot_address (d_head d)) (d_bytes d))
      by (rewrite <- F5, bslice_all in Hfull; exact Hfull).
    pose proof (pv_out_bound t w n c V Hc) as Hout. unfold pv_enqueue.
    cbn [pv_bits pv_landing outgoing_ incoming_ core_ landed_ received_].
    rewrite (proj2 (Nat.leb_gt _ _)) by lia. cbn [rbind].
    assert (ownerCore (ln_message l) = d_owner d /\ ack_message (core_ (node w c)) (ln_message l) = d_ack d /\
      workerSlot (ln_message l) = d_head d) as (E1 & E2 & E3) by (rewrite N1, Em, Et; done).
    eexists _, (<[d_owner d := Some (d, AckOut)]> t). split; [done|]. rewrite E1, E2, E3. set (s := pv_incoming _ _).
    apply (full_inv t w n c d (write_mem (mem w c) a bs) rest s V Hc); try done; by rewrite Ep.
  - eexists _, t. split; [done|]. set (s := pv_incoming _ _).
    assert (same_ledger w (set_mem (set_write (set_node w c s) c None) c (write_mem (mem w c) a bs))) as S.
    { split; [|done]. apply (same_ledger_node w c s); done. }
    split; [|intros q; by apply (ledger_token t w)|done|by apply (ledger_finished w)].
    intros c' Hc'. cbn [set_mem set_write set_node node write mem heads].
    destruct (decide (c' = c)) as [->|]; [rewrite !fn_lookup_insert|rewrite !fn_lookup_insert_ne by done; by apply V1].
    split; try done.
    + cbn [s pv_incoming incoming_]. split; [|by constructor]. constructor; [|done].
      exists d. cbn [ln_message ln_offset]. fold p. repeat (split; [done|]). split; [|done].
      rewrite Hlen in *. unfold landing_length in *. lia.
    + intros h Hb Hlb. destruct (N8 h Hb Hlb) as [H1 _]. split; [done|]. by apply Hlanded.
Qed.

(** ** The clients *)

Lemma dispatch_runs t w n p source bytes :
  pv_inv t w n -> is_core p ->
  exists o, PvWoHandoff_dispatch (node w p) source bytes true = Ok o.
Proof.
  intros V Hp. unfold PvWoHandoff_dispatch. destruct (_ || _); [by eexists|]. unfold pv_enqueue. cbn [pv_pending outgoing_].
  pose proof (pv_out_bound t w n p V Hp). rewrite (proj2 (Nat.leb_gt _ _)) by lia. by eexists.
Qed.

Lemma dispatch_inv t w n p source bytes s :
  let d := mkDispatch p source bytes in
  pv_inv t w n -> is_core p -> tile_fields source -> d_epoch d = consumedEpoch_ (node w (d_target d)) + 1 ->
  heads w (d_target d) (d_head d) = None -> PvWoHandoff_dispatch (node w p) source bytes true = Ok (Some s) ->
  exists t', pv_inv t'
    (set_current (set_heads (set_node w p s) (d_target d) (<[d_head d := Some d]> (heads w (d_target d)))) p d) n.
Proof.
  intros d V Hp Hf Hep Hnone E. pose proof V as [V1 V2 [V3 V4] V5]. pose proof (V1 p Hp) as Np.
  unfold PvWoHandoff_dispatch in E. rewrite (ni_core _ _ _ _ _ _ Np) in E. destruct (_ || _) eqn:Eg; [discriminate|].
  apply orb_false_iff in Eg as [[Eg Epend]%orb_false_iff _]. apply negb_false_iff, bool_decide_eq_true in Epend.
  assert (D : dispatch_ok d) by (split; [done|split; [done|unfold is_core in Hp; cbn; lia]]).
  destruct (tile_facts d D) as (F1 & F2 & F3 & F4 & _). set (c := d_target d) in *.
  assert (Ht : t p = None).
  { destruct (t p) as [[d0 pl]|] eqn:Ht; [|done]. destruct (ti_some _ _ _ (V2 p) d0 pl Ht) as (_ & _ & _ & Ep & _).
    exfalso. rewrite Ep in Epend. exact (map_non_empty_singleton _ _ Epend). }
  unfold pv_enqueue in E. cbn [pv_pending outgoing_] in E. pose proof (pv_out_bound t w n p V Hp) as Hout.
  rewrite (proj2 (Nat.leb_gt _ _)) in E by lia. cbn [rbind] in E. injection E as E. symmetry in E.
  rewrite Epend, insert_empty in E.
  cbn [pv_pending core_] in E. rewrite ?(ni_core _ _ _ _ _ _ Np) in E. change (data_message p source bytes) with (d_data d) in E. change (tile_target source) with c in E. change (message_key source) with (d_key d) in E.
  set (w' := set_current _ _ _). set (t' := <[p := Some (d, AtOut)]> t).
  assert (Hbit : Z.testbit (received_ (node w c)) (d_head d) = false).
  { destruct (Z.testbit (received_ (node w c)) (d_head d)) eqn:Eb; [|done].
    destruct (ni_received _ _ _ _ _ _ (V1 c F2) _ F3 Eb) as [d0 H0]. congruence. }
  assert (Hnode : forall c', received_ (node w' c') = received_ (node w c') /\ landed_ (node w' c') = landed_ (node w c') /\
    consumedEpoch_ (node w' c') = consumedEpoch_ (node w c')).
  { intros c'. cbn. destruct (decide (c' = p)) as [->|]; [rewrite fn_lookup_insert, E|rewrite fn_lookup_insert_ne]; done. }
  assert (Hheads : forall c' h d0, heads w c' h = Some d0 -> heads w' c' h = Some d0).
  { intros c' h d0 H0. cbn. destruct (decide (c' = c)) as [->|]; [rewrite fn_lookup_insert|by rewrite fn_lookup_insert_ne].
    rewrite fn_lookup_insert_ne; [done|]. intros <-. congruence. }
  assert (Hself : heads w' c (d_head d) = Some d) by (cbn; by rewrite !fn_lookup_insert).
  assert (Hdel : forall d0, delivered w d0 -> delivered w' d0).
  { intros d0. unfold delivered. destruct (Hnode (d_target d0)) as (_ & -> & ->). intros [H1|[H1 H2]]; [by left|right].
    split; [by apply Hheads|done]. }
  assert (Hnode_inv : forall c', is_core c' -> node_inv t' (node w c') (write w c') (mem w c') (heads w' c') c').
  { intros c' Hc'. assert (N : node_inv t' (node w c') (write w c') (mem w c') (heads w c') c').
    { eapply node_inv_tokens; [by apply V1|]. intros p' d' pl Ht' _. unfold t'. rewrite fn_lookup_insert_ne; [done|].
      intros <-. congruence. }
    destruct N as [N1 N2 N3 N4 N5 N6 N7 N8 N9]. split; try done.
    - intros h d0. cbn. destruct (decide (c' = c)) as [->|]; [|rewrite fn_lookup_insert_ne by done; apply N6].
      rewrite fn_lookup_insert. destruct (decide (h = d_head d)) as [->|]; [rewrite fn_lookup_insert|rewrite fn_lookup_insert_ne by done; apply N6].
      by intros [= <-].
    - intros h Hb Hr. destruct (N7 h Hb Hr) as [d0 H0]. exists d0. by apply Hheads.
    - intros h Hb Hl. destruct (N8 h Hb Hl) as (H1 & d0 & H0 & H2). split; [done|]. exists d0. split; [by apply Hheads|done]. }
  exists t'. split.
  - intros c' Hc'. change (write w' c') with (write w c'). change (mem w' c') with (mem w c').
    change (node w' c') with ((<[p := s]> (node w)) c'). specialize (Hnode_inv c' Hc').
    destruct (decide (c' = p)) as [->|]; [|by rewrite fn_lookup_insert_ne]. rewrite fn_lookup_insert.
    destruct Hnode_inv as [N1 N2 [N3 N3'] N4 N5 N6 N7 N8 N9]. rewrite E. split; try done. cbn [pv_outgoing outgoing_].
    assert (p ∉ owners (outgoing_ (node w p))) as Ho.
    { intros Hin. apply list_elem_of_In, in_map_iff in Hin as (x & Ex & Hin). apply list_elem_of_In in Hin.
      destruct (ni_out _ _ _ _ _ _ Np) as [O1 _]. rewrite Forall_forall in O1.
      destruct (O1 x Hin) as (d' & [(H1' & _)|(H1' & _)]); rewrite Ex in H1'; congruence. }
    split.
    + apply Forall_app. split; [done|]. apply Forall_singleton. exists d. left. cbn [snd].
      change (ownerCore (d_data d)) with p. unfold t'. by rewrite fn_lookup_insert.
    + unfold owners. rewrite map_app. apply NoDup_app. split; [done|]. split; [|apply NoDup_singleton].
      intros x Hx ->%list_elem_of_singleton. done.
  - intros p'. unfold t'. destruct (decide (p' = p)) as [->|Hne].
    + split; [|by rewrite fn_lookup_insert]. rewrite fn_lookup_insert. intros d1 pl1 [= <- <-].
      split; [done|]. split; [done|]. split; [cbn; by rewrite fn_lookup_insert|]. split; [cbn; by rewrite fn_lookup_insert, E|].
      cbn [place_ok]. fold c. destruct (Hnode c) as (-> & _). done.
    + eapply token_inv_frame; [apply V2|by rewrite fn_lookup_insert_ne|cbn; by rewrite fn_lookup_insert_ne|
        cbn; by rewrite fn_lookup_insert_ne|].
      intros d0 pl0 _ _ P0. unfold place_ok in *. destruct (Hnode (d_target d0)) as (-> & -> & _).
      destruct pl0; try (by apply Hdel); destruct P0 as [P1 P2]; (split; [by apply Hheads|done]).
  - split; [|done]. apply net_insert; [done|]. intros Hin. apply list_elem_of_In, in_map_iff in Hin as (x & Ex & Hin).
    apply list_elem_of_In in Hin. rewrite Forall_forall in V3. destruct (V3 x Hin) as (d' & [(H1' & _)|(H1' & _)]); rewrite Ex in H1'; congruence.
  - eapply Forall_impl; [exact V5|]. intros d0 [D1 D2]. split; [done|by apply Hdel].
Qed.

(** A whole generation is given up. *)
Lemma retire_inv t w n c s :
  pv_inv t w n -> is_core c -> received_ (node w c) = uint32_max -> landed_ (node w c) = uint32_max ->
  s = retireGeneration (pv_lease (node w c) false) \/ s = retireGeneration (node w c) /\ leased_ (node w c) = false ->
  consumedEpoch_ s = consumedEpoch_ (node w c) + 1 /\ pv_inv t (retire_heads (set_node w c s) c true) n.
Proof.
  intros V Hc Hr Hl Es. pose proof V as [V1 V2 V3 V5]. pose proof (V1 c Hc) as N.
  pose proof N as [N1 N2 N3 N4 N5 N6 N7 N8 N9].
  assert (consumedEpoch_ (node w c) + 1 <= 32).
  { destruct (N7 0) as [d Hd]; [lia|by rewrite Hr|]. destruct (N6 _ _ Hd) as (D & _ & _ & E).
    pose proof (tile_facts d D). lia. }
  assert (Hs : core_ s = core_ (node w c) /\ outgoing_ s = outgoing_ (node w c) /\ incoming_ s = incoming_ (node w c) /\
    landingPending_ s = landingPending_ (node w c) /\ pending_ s = pending_ (node w c) /\ leased_ s = false /\
    received_ s = 0 /\ landed_ s = 0 /\ consumedEpoch_ s = consumedEpoch_ (node w c) + 1).
  { assert (u32 (consumedEpoch_ (node w c) + 1) = consumedEpoch_ (node w c) + 1) as E by (apply u32_id; split; lia).
    destruct Es as [-> | [-> El]]; cbn; rewrite E; repeat split; done. }
  destruct Hs as (S1 & S2 & S3 & S4 & S5 & S6 & S7 & S8 & S9). split; [done|].
  set (w' := retire_heads _ _ _).
  assert (Hnode : forall c', node w' c' = if decide (c' = c) then s else node w c').
  { intros c'. cbn. destruct (decide (c' = c)) as [->|]; [by rewrite fn_lookup_insert|by rewrite fn_lookup_insert_ne]. }
  assert (Hheads : forall c', heads w' c' = if decide (c' = c) then (fun _ => None) else heads w c').
  { intros c'. cbn. destruct (decide (c' = c)) as [->|]; [by rewrite fn_lookup_insert|by rewrite fn_lookup_insert_ne]. }
  assert (Hdel : forall d0, delivered w d0 -> delivered w' d0).
  { intros d0. unfold delivered. rewrite Hnode, Hheads. destruct (decide (d_target d0 = c)) as [Ec|]; [|done].
    rewrite Ec, S9. intros [G|[G _]]; left; [lia|]. destruct (N6 _ _ G) as (_ & _ & _ & ->). lia. }
  split; [| |done|].
  - intros c' Hc'. rewrite Hnode, Hheads. change (write w' c') with (write w c'). change (mem w' c') with (mem w c').
    destruct (decide (c' = c)) as [->|]; [|by apply V1].
    split; rewrite ?S1, ?S2, ?S3, ?S4, ?S6, ?S7, ?S8, ?S9; try done; [lia|..]; intros h Hb; by rewrite Z.bits_0.
  - intros p. eapply token_inv_frame; [apply V2|done|done|rewrite Hnode; by destruct (decide (p = c)) as [->|]|].
    intros d0 pl0 _ D0 P0. destruct (tile_facts d0 D0) as (_ & _ & G3 & _). unfold place_ok in *.
    destruct (decide (d_target d0 = c)) as [Ec|Nc].
    + rewrite Ec in P0. rewrite Hr, Hl, all_bits in P0 by done. destruct pl0; try (by destruct P0 as [_ P0]); try (by apply Hdel).
      by destruct P0 as (_ & _ & P0).
    + rewrite Hnode, Hheads, !decide_False by done. destruct pl0; try done; by apply Hdel.
  - eapply Forall_impl; [exact V5|]. intros d0 [D1 D2]. split; [done|by apply Hdel].
Qed.

(** What a consumer finds: every head of the generation in place. *)
Definition generation_landed (w : PvWorld) (c : Z) : Prop :=
  forall h, 0 <= h < 32 -> exists d, heads w c h = Some d /\ d_target d = c /\ d_head d = h /\
    d_epoch d = consumedEpoch_ (node w c) + 1 /\ holds (mem w c) (slot_address h) (d_bytes d).

Lemma landed_generation t w n c : pv_inv t w n -> is_core c -> landed_ (node w c) = uint32_max -> generation_landed w c.
Proof.
  intros V Hc Hl h Hh. pose proof (vi_nodes _ _ _ V c Hc) as N.
  destruct (ni_landed _ _ _ _ _ _ N h Hh) as (_ & d & Hd & H2); [by rewrite Hl, all_bits|].
  destruct (ni_heads _ _ _ _ _ _ N _ _ Hd) as (_ & H3 & H4 & H5). by exists d.
Qed.

Lemma ready_facts s e m l : pv_ready s e m l = true ->
  leased_ s = false /\ received_ s = uint32_max /\ landed_ s = uint32_max /\ e = u32 (consumedEpoch_ s + 1).
Proof. unfold pv_ready. intros E. boolify. done. Qed.

Lemma same_node_inv t w n c s : pv_inv t w n -> s = node w c -> pv_inv t (set_node w c s) n.
Proof.
  intros V ->. eapply pv_inv_ext; [exact V| |done..]. intros c'. cbn.
  destruct (decide (c' = c)) as [->|]; [by rewrite fn_lookup_insert|by rewrite fn_lookup_insert_ne].
Qed.

Lemma client_inv t w c s b :
  pv_inv t w (net w) -> is_core c ->
  (exists e m l, PvWoHandoff_consume (node w c) e m l = (s, b) \/ PvWoHandoff_release (node w c) e m l = (s, b)) ->
  pv_inv t (retire_heads (set_node w c s) c b) (net w).
Proof.
  intros V Hc (e & m & l & [E|E]).
  - unfold PvWoHandoff_consume in E. destruct (pv_ready _ _ _ _) eqn:Er; injection E as <- <-; [|by apply same_node_inv].
    destruct (ready_facts _ _ _ _ Er) as (E1 & E2 & E3 & _). apply (retire_inv t w); try done. by right.
  - unfold PvWoHandoff_release in E. destruct (_ || _) eqn:Er; injection E as <- <-; [by apply same_node_inv|]. boolify.
    destruct (ni_leased _ _ _ _ _ _ (vi_nodes _ _ _ V c Hc)) as [E2 E3]; [done|]. apply (retire_inv t w); try done. by left.
Qed.

Lemma acquire_inv t w c e m l s b :
  pv_inv t w (net w) -> is_core c -> PvWoHandoff_acquire (node w c) e m l = (s, b) -> pv_inv t (set_node w c s) (net w).
Proof.
  intros V Hc E. unfold PvWoHandoff_acquire in E. destruct (pv_ready _ _ _ _) eqn:Er; injection E as <- <-; [|by apply same_node_inv].
  destruct (ready_facts _ _ _ _ Er) as (E1 & E2 & E3 & _). pose proof V as [V1 V2 V3 V5].
  assert (same_ledger w (set_node w c (pv_lease (node w c) true))) as S by (by apply same_ledger_node).
  split; [|intros p; by apply (ledger_token t w)|done|by apply (ledger_finished w)].
  intros c' Hc'. cbn. destruct (decide (c' = c)) as [->|]; [rewrite fn_lookup_insert|rewrite fn_lookup_insert_ne by done; by apply V1].
  destruct (V1 c Hc) as [N1 N2 N3 N4 N5 N6 N7 N8 N9]. by split.
Qed.

Inductive pv_reach (w0 : PvWorld) : PvWorld -> Prop :=
| pv_reach_init : pv_reach w0 w0
| pv_reach_step w w' : pv_reach w0 w -> pv_step base maxRequest w w' -> pv_reach w0 w'.

Lemma pv_initial_inv gm w0 : pv_initial gm w0 -> pv_inv (fun _ => None) w0 (net w0).
Proof.
  intros (H1 & -> & H3 & H4 & H5 & H6).
  assert (Hn : forall c, is_core c -> node w0 c = mkPvWo c 0 0 0 0 false false ∅ [] []).
  { intros c Hc. specialize (H1 c Hc). unfold PvWoHandoff_new in H1. destruct gm as [[? ?]|]; [|done].
    destruct (_ || _); [done|]. by injection H1. }
  split.
  - intros c Hc. rewrite (Hn c Hc), H3. split; cbn; try done; try (by split; constructor).
    + intros h d. by rewrite H4.
    + intros h Hb. by rewrite Z.bits_0.
    + intros h Hb. by rewrite Z.bits_0.
  - intros p. split; [done|]. intros _ Hp. by rewrite (Hn p Hp).
  - split; constructor.
  - rewrite H6. constructor.
Qed.

Lemma step_keeps t w w' : pv_inv t w (net w) -> pv_step base maxRequest w w' -> exists t', pv_inv t' w' (net w').
Proof.
  intros V St. destruct St as [p source bytes s d Hp Hf He Hh E|c sent accepted s e Hc E|c m l1 l2 s k En E|c a bs s Hc Hw E
    |c e m l s b Hc E|c e m l s b Hc E|c e m l s b Hc E].
  - by apply (dispatch_inv t w (net w) p source bytes s).
  - destruct (tick_inv t w c sent accepted V Hc) as (s' & e' & t' & E' & V'). rewrite E in E'. injection E' as <- <-.
    exists t'. destruct (ef_write e); exact V'.
  - destruct (deliver t w (l1 ++ l2) c m) as (s' & k' & t' & E' & V' & _).
    { eapply net_permutation; [|exact V]. rewrite En. by rewrite Permutation_middle. }
    rewrite E in E'. injection E' as <- <-. exists t'. by eapply pv_inv_ext; [exact V'|..].
  - destruct (written_inv t w (net w) c a bs V Hc Hw) as (s' & t' & E' & V'). rewrite E in E'. injection E' as <-. by exists t'.
  - exists t. replace (net (retire_heads (set_node w c s) c b)) with (net w) by (by destruct b). apply client_inv; [done..|]. exists e, m, l. by left.
  - exists t. exact (acquire_inv t w c e m l s b V Hc E).
  - exists t. replace (net (retire_heads (set_node w c s) c b)) with (net w) by (by destruct b). apply client_inv; [done..|]. exists e, m, l. by right.
Qed.

Lemma pv_reach_inv gm w0 w : pv_initial gm w0 -> pv_reach w0 w -> exists t, pv_inv t w (net w).
Proof.
  intros H0. induction 1 as [|w w' _ [t IH] St]; [by exists (fun _ => None); eapply pv_initial_inv|]. by eapply step_keeps.
Qed.
End invariant.

(** ** The claims *)

Section pv_claims.
Context (base size maxRequest : Z) (w0 w : PvWorld).
Hypothesis gm_fits : 0 <= base /\ base + size <= 2 ^ 64 /\ 0 <= maxRequest.
Hypothesis initial : pv_initial (Some (size, maxRequest)) w0.
Hypothesis reached : pv_reach base maxRequest w0 w.

Lemma constructed : 0 < maxRequest /\ (0 <= base /\ base + decoder_pv_wo_landing_gm + workerTileBytes <= 2 ^ 64).
Proof.
  destruct initial as (H1 & _). specialize (H1 4 ltac:(unfold is_core; lia)). unfold PvWoHandoff_new in H1.
  destruct (_ || _) eqn:E; [discriminate|]. boolify. unfold workerTileBytes in *. destruct gm_fits as (? & ? & ?). lia.
Qed.

Lemma reached_inv : exists t, pv_inv base maxRequest t w (net w).
Proof. destruct constructed. by eapply pv_reach_inv. Qed.

(** C8: Handed-off tiles arrive.  In every run of the sixteen cores, the control network and
    their GMs, when the producer of a tile is told it is done, the tile's 8 KiB are in the
    slot of its head in the target's landing area, unless the target has given the
    generation up since; and when a consumer finds the generation ready or holds its
    lease, all 32 heads of exactly that generation are in place. *)
Theorem pv_wo_delivers :
  (forall d, d ∈ finished w -> d_epoch d <= consumedEpoch_ (node w (d_target d)) \/
     holds (mem w (d_target d)) (slot_address base (d_head d)) (d_bytes d)) /\
  (forall c, is_core c -> (exists e m l, pv_ready (node w c) e m l = true) \/ leased_ (node w c) = true -> generation_landed base w c).
Proof.
  destruct reached_inv as [t V]. split.
  - intros d Hd. pose proof (vi_finished _ _ _ _ _ V) as F. rewrite Forall_forall in F. destruct (F d Hd) as [D [Hp|[Hp Hl]]]; [by left|right].
    destruct (tile_facts d D) as (_ & F2 & F3 & _).
    destruct (ni_landed _ _ _ _ _ _ _ _ (vi_nodes _ _ _ _ _ V _ F2) _ F3 Hl) as (_ & d0 & E & H0).
    rewrite Hp in E. by injection E as <-.
  - intros c Hc H. eapply landed_generation; [exact V|done|]. destruct H as [(e & m & l & Er)|Hl]; [by destruct (ready_facts _ _ _ _ Er) as (_ & _ & ? & _)|].
    by apply (ni_leased _ _ _ _ _ _ _ _ (vi_nodes _ _ _ _ _ V c Hc)).
Qed.

(** C9: Nothing fails: in every run no dispatch, tick, delivery or completed write throws.
    The landing queue of eight and the outgoing queue of sixteen never overflow, no head
    lands twice, no tile of another generation arrives, every acknowledgement is expected. *)
Theorem pv_wo_never_fails :
  (forall p source bytes, is_core p -> exists o, PvWoHandoff_dispatch (node w p) source bytes true = Ok o) /\
  (forall c sent accepted, is_core c -> exists r, PvWoHandoff_tick base maxRequest (node w c) sent accepted = Ok r) /\
  (forall c m l1 l2, net w = l1 ++ (c, m) :: l2 -> exists r, PvWoHandoff_receive (node w c) m = Ok r) /\
  (forall c a bs, is_core c -> write w c = Some (a, bs) -> exists s, pv_written (node w c) (blen bs) true = Ok s) /\
  (forall c, is_core c -> (length (incoming_ (node w c)) <= 8)%nat /\ (length (outgoing_ (node w c)) <= 8)%nat).
Proof.
  destruct reached_inv as [t V]. destruct constructed as [Hm Hb]. split; [|split; [|split; [|split]]].
  - intros p source bytes Hp. by eapply dispatch_runs.
  - intros c sent accepted Hc. destruct (tick_inv base maxRequest Hb t w c sent accepted V Hc) as (s & e & _ & E & _). eauto.
  - intros c m l1 l2 En. destruct (deliver base maxRequest Hb t w (l1 ++ l2) c m) as (s & k & _ & E & _); [|eauto].
    eapply net_permutation; [|exact V]. rewrite En. by rewrite Permutation_middle.
  - intros c a bs Hc Hw. destruct (written_inv base maxRequest Hb Hm t w (net w) c a bs V Hc Hw) as (s & _ & E & _). eauto.
  - intros c Hc. split; [by eapply pv_in_bound|by eapply pv_out_bound].
Qed.
End pv_claims.

(** ** The tiles and the slots *)

(** The tile for a slot. *)
Definition slot_tile (target head : Z) : ControlTransportMessage :=
  mkMessage AttentionClusterPvDispatch (head / 4 * 2 ^ 32 + 0xD1000401) 0 0 0 0 ((target - 4) mod 4 * 1024) (S754_zero false) 0 0
    64 32 8 (head / 4) 256 1024 (head mod 4 * 256 + (target - 4) / 4 * 64) [].
Lemma slot_tile_ok (t h : nat) : (t < 16)%nat -> (h < 32)%nat ->
  let m := slot_tile (Z.of_nat t + 4) (Z.of_nat h) in
  (forall core bytes, 12 <= core -> blen bytes = headBlockBytes -> tile_refused core m bytes = false) /\ tile_fields m /\
  tile_target m = Z.of_nat t + 4 /\ tile_head m = Z.of_nat h.
Proof.
  intros Ht Hh. cbv zeta.
  assert (C : forallb (fun t => forallb (fun h => let m := slot_tile (Z.of_nat t + 4) (Z.of_nat h) in
      negb (tile_refused 12 m (repeat x00 (Z.to_nat 8192))) && (0 <=? row m) && (0 <=? groupQueryRowBegin m) && (groupQueryRowBegin m <? 1024) &&
      (0 <=? kvHeadIndex m) && (tile_target m =? Z.of_nat t + 4) && (tile_head m =? Z.of_nat h)) (seq 0 32)) (seq 0 16) = true)
    by (vm_compute; reflexivity).
  assert (In t (seq 0 16) /\ In h (seq 0 32)) as [It Ih] by (rewrite !in_seq; lia).
  rewrite forallb_forall in C. apply C in It. rewrite forallb_forall in It. apply It in Ih as C'. clear C It. rename C' into C. cbv zeta in C. set (m := slot_tile _ _) in *.
  apply andb_true_iff in C as [C C6]. apply andb_true_iff in C as [C C5]. apply andb_true_iff in C as [C C4].
  apply andb_true_iff in C as [C C3]. apply andb_true_iff in C as [C C2]. apply andb_true_iff in C as [C C1].
  apply negb_true_iff in C. split.
  - intros core bytes H1 H2. rewrite <- C. unfold tile_refused. rewrite H2.
    replace (blen (repeat x00 (Z.to_nat 8192))) with headBlockBytes by (vm_compute; reflexivity).
    by rewrite (proj2 (Z.ltb_ge core 12)) by lia.
  - unfold tile_fields. lia.
Qed.

(** The 512 tiles of a generation and the 16 x 32 landing slots correspond one to one:
    two accepted tiles with row-aligned parts go to the same core and head only if they
    are the same tile of the same manager, and every slot has its tile. *)
Theorem tile_map_bijective core core' m m' bytes bytes' :
  tile_refused core m bytes = false -> tile_refused core' m' bytes' = false -> tile_fields m -> tile_fields m' ->
  row m mod 64 = 0 -> row m' mod 64 = 0 ->
  (tile_target m = tile_target m' /\ tile_head m = tile_head m' <->
   tile_manager m = tile_manager m' /\ kvHeadIndex m = kvHeadIndex m' /\ tile_begin m = tile_begin m') /\
  (forall target head, is_core target -> 0 <= head < 32 -> exists m0, tile_refused core m0 bytes = false /\ tile_fields m0 /\
     tile_target m0 = target /\ tile_head m0 = head).
Proof.
  intros E E' F F' R R'.
  destruct (tile_ranges _ _ _ E F) as (A1 & A2 & A3 & A4 & A5 & A6). destruct (tile_ranges _ _ _ E' F') as (B1 & B2 & B3 & _ & _ & B6).
  specialize (A6 R). specialize (B6 R'). split.
  - unfold tile_target, tile_head. split; [|intros (-> & -> & ->); done].
    intros [H1 H2]. Z.div_mod_to_equations. lia.
  - intros target head Ht Hh. unfold is_core in Ht.
    destruct (slot_tile_ok (Z.to_nat (target - 4)) (Z.to_nat head)) as (S1 & S2 & S3 & S4); [lia..|].
    rewrite !Z2Nat.id in * by lia. replace (target - 4 + 4) with target in * by lia.
    exists (slot_tile target head). split; [by apply S1|done].
Qed.

(** ** A run *)

Inductive command :=
  | CDispatch (p : Z) (source : ControlTransportMessage) (bytes : list byte)
  | CTick (c : Z) (sent accepted : bool)
  | CDeliver
  | CWritten (c : Z).

Definition core_b (c : Z) : bool := (4 <=? c) && (c <? 20).
Definition fields_b (m : ControlTransportMessage) : bool :=
  (0 <=? row m) && (0 <=? groupQueryRowBegin m) && (groupQueryRowBegin m <? 1024) && (0 <=? kvHeadIndex m).

(** The command's step, if it is one; [CDeliver] takes the oldest message. *)
Definition run_command (base maxRequest : Z) (w : PvWorld) (x : command) : option PvWorld :=
  match x with
  | CDispatch p source bytes =>
      let d := mkDispatch p source bytes in
      if core_b p && fields_b source && (d_epoch d =? consumedEpoch_ (node w (d_target d)) + 1) &&
         match heads w (d_target d) (d_head d) with None => true | _ => false end
      then match PvWoHandoff_dispatch (node w p) source bytes true with
           | Ok (Some s) => Some (set_current (set_heads (set_node w p s) (d_target d)
                                   (<[d_head d := Some d]> (heads w (d_target d)))) p d)
           | _ => None
           end
      else None
  | CTick c sent accepted =>
      if core_b c then
        match PvWoHandoff_tick base maxRequest (node w c) sent accepted with
        | Ok (s, e) =>
            let w1 := set_node w c s in
            let w1 := set_net w1 (net w ++ match ef_sent e with Some x => [x] | None => [] end) in
            let w1 := match ef_write e with Some x => set_write w1 c (Some x) | None => w1 end in
            Some (add_finished w1 c (ef_done e))
        | Throw _ => None
        end
      else None
  | CDeliver =>
      match net w with
      | (c, m) :: l2 =>
          match PvWoHandoff_receive (node w c) m with
          | Ok (s, k) => Some (add_finished (set_net (set_node w c s) l2) c k)
          | Throw _ => None
          end
      | [] => None
      end
  | CWritten c =>
      if core_b c then
        match write w c with
        | Some (a, bs) =>
            match pv_written (node w c) (blen bs) true with
            | Ok s => Some (set_mem (set_write (set_node w c s) c None) c (write_mem (mem w c) a bs))
            | Throw _ => None
            end
        | None => None
        end
      else None
  end.

Lemma run_command_step base maxRequest w x w' : run_command base maxRequest w x = Some w' -> pv_step base maxRequest w w'.
Proof.
  destruct x as [p source bytes|c sent accepted| |c]; cbn [run_command].
  - cbv zeta. destruct (_ && _) eqn:E; [|done]. destruct (heads _ _ _) eqn:Eh; [by rewrite andb_false_r in E|].
    rewrite andb_true_r in E. unfold core_b, fields_b in E. boolify.
    destruct (PvWoHandoff_dispatch _ _ _ _) as [[s|]|] eqn:Ed; [|done..]. intros [= <-].
    apply (pv_dispatch base maxRequest w p source bytes s); unfold is_core, tile_fields; (done || lia).
  - unfold core_b. destruct (_ && _) eqn:Eg; [|done]. destruct (PvWoHandoff_tick _ _ _ _ _) as [[s e]|] eqn:E; [|done].
    intros [= <-]. apply (pv_tick base maxRequest w c sent accepted s e); [unfold is_core; lia|done].
  - destruct (net w) as [|[c m] l2] eqn:En; [done|]. destruct (PvWoHandoff_receive _ _) as [[s k]|] eqn:E; [|done].
    intros [= <-]. by apply (pv_deliver base maxRequest w c m [] l2 s k).
  - unfold core_b. destruct (_ && _) eqn:Eg; [|done]. destruct (write w c) as [[a bs]|] eqn:Ew; [|done].
    destruct (pv_written _ _ _) as [s|] eqn:E; [|done]. intros [= <-]. apply pv_write; [unfold is_core; lia|done..].
Qed.

Fixpoint run_commands (base maxRequest : Z) (w : PvWorld) (xs : list command) : option PvWorld :=
  match xs with
  | [] => Some w
  | x :: xs' => match run_command base maxRequest w x with Some w' => run_commands base maxRequest w' xs' | None => None end
  end.
Lemma run_commands_reach base maxRequest w0 xs : forall w w',
  pv_reach base maxRequest w0 w -> run_commands base maxRequest w xs = Some w' -> pv_reach base maxRequest w0 w'.
Proof.
  induction xs as [|x xs IH]; intros w w' R E; cbn [run_commands] in E; [by injection E as <-|].
  destruct (run_command base maxRequest w x) as [w1|] eqn:E1; [|done]. eapply IH; [|exact E].
  eapply pv_reach_step; [exact R|]. by eapply run_command_step.
Qed.

(** Core 12 hands a tile to core 4, over a GM port of 4 KiB. *)
Definition ex_w0 : PvWorld :=
  mkPvWorld (fun c => mkPvWo c 0 0 0 0 false false ∅ [] []) [] (fun _ => None) (fun _ _ => x00) (fun _ _ => None) (fun _ => None) [].
Definition ex_bytes : list byte := repeat x2a (Z.to_nat 8192).
Definition ex_commands : list command :=
  [CDispatch 12 (slot_tile 4 5) ex_bytes; CTick 12 true true; CDeliver; CTick 4 true true; CWritten 4; CTick 4 true true;
   CWritten 4; CTick 4 true true; CDeliver].
Definition ex_w : PvWorld := default ex_w0 (run_commands 0 4096 ex_w0 ex_commands).

Lemma ex_initial : pv_initial (Some (0x200000, 4096)) ex_w0.
Proof.
  split; [|done]. intros c Hc. unfold is_core in Hc. unfold PvWoHandoff_new.
  by rewrite (proj2 (Z.ltb_ge c 4)), (proj2 (Z.leb_gt 20 c)) by lia.
Qed.
Lemma ex_pv_reach : pv_reach 0 4096 ex_w0 ex_w.
Proof.
  apply (run_commands_reach 0 4096 ex_w0 ex_commands ex_w0); [constructor|].
  assert (H : match run_commands 0 4096 ex_w0 ex_commands with Some _ => true | None => false end = true) by (vm_compute; reflexivity).
  unfold ex_w. by destruct (run_commands 0 4096 ex_w0 ex_commands).
Qed.

Lemma pv_wo_delivers_witness :
  length (finished ex_w) = 1%nat /\
  (forall d, d ∈ finished ex_w -> d_epoch d <= consumedEpoch_ (node ex_w (d_target d)) \/
     holds (mem ex_w (d_target d)) (slot_address 0 (d_head d)) (d_bytes d)).
Proof.
  split; [vm_compute; reflexivity|].
  apply (pv_wo_delivers 0 0x200000 4096 ex_w0 ex_w); [lia|exact ex_initial|exact ex_pv_reach].
Defined.

Lemma pv_wo_never_fails_witness : exists r, PvWoHandoff_tick 0 4096 (node ex_w 4) true true = Ok r.
Proof.
  apply (pv_wo_never_fails 0 0x200000 4096 ex_w0 ex_w); [lia|exact ex_initial|exact ex_pv_reach|unfold is_core; lia].
Defined.

Lemma tile_map_bijective_witness :
  (tile_target (slot_tile 4 5) = tile_target (slot_tile 8 5) /\ tile_head (slot_tile 4 5) = tile_head (slot_tile 8 5) <->
   tile_manager (slot_tile 4 5) = tile_manager (slot_tile 8 5) /\ kvHeadIndex (slot_tile 4 5) = kvHeadIndex (slot_tile 8 5) /\
   tile_begin (slot_tile 4 5) = tile_begin (slot_tile 8 5)).
Proof.
  apply (tile_map_bijective 12 13 (slot_tile 4 5) (slot_tile 8 5) ex_bytes ex_bytes); try (vm_compute; reflexivity).
  - vm_compute. repeat split; discriminate.
  - vm_compute. repeat split; discriminate.
Defined.
