(* ===== verification/WindowGemm.v ===== *)
(** * The window GEMM ([attention/reuseWindowGemm.h] under [src/src/sst/elements/golem/])

    [ReuseWindowGemm] multiplies up to 64 activation rows by a list of 64-column weight
    tiles.  Four output tiles share a window of input tiles in global memory (GM); weight
    tiles are prefetched into at most four slots and read back through the timed GM port
    while the arrays compute; partial sums are spilled between windows of the reduction.

    Everything the job asks of its surroundings is asynchronous.  A call that was accepted
    and whose callback has not run yet is an element of [calls]: the constructor says which
    callback it is and holds what the closure captured.  The handlers below are the
    functions of the class; the continuation [next_], one closure in the source, is the
    name of the function it calls.  [GemmSystem.v] answers the calls. *)

From Stdlib Require Import ZArith Lia String Ascii.
From Stdlib Require Import Init.Byte.
From stdpp Require Import base numbers functions list.
From S2P Require Import Prelude RecordUpdate Ieee Fp16 AttentionBase ComputeUnit TileArray ControlTransport.
Open Scope Z_scope.

Notation Values := (list spec_float).

(** ** Values and bytes *)

Definition byte_of_Z (z : Z) : byte := default x00 (Byte.of_N (Z.to_N (u8 z))).
Definition Z_of_byte (b : byte) : Z := Z.of_N (Byte.to_N b).
(** A little-endian field of [n] bytes. *)
Definition le_bytes (n : nat) (w : Z) : list byte := map (fun i => byte_of_Z (Z.shiftr w (8 * Z.of_nat i))) (seq 0 n).
Fixpoint le_value (bs : list byte) : Z :=
  match bs with [] => 0 | b :: bs' => Z_of_byte b + 2 ^ 8 * le_value bs' end.

(** One value in memory, as binary16 ([bytes == 2]) or binary32. *)
Definition pack_value (bytes : Z) (x : spec_float) : list byte :=
  if bytes =? 2 then le_bytes 2 (golem_float_to_fp16 (bits_of_float (to_float x)))
  else le_bytes 4 (bits_of_float (to_float x)).
Definition unpack_value (bytes : Z) (bs : list byte) : spec_float :=
  if bytes =? 2 then float_of_bits (golem_fp16_to_float (le_value bs)) else float_of_bits (le_value bs).
Definition ReuseWindowGemm_pack (values : Values) (bytes : Z) : list byte := flat_map (pack_value bytes) values.
Definition ReuseWindowGemm_unpack (raw : list byte) (bytes : Z) : Values :=
  map (fun i => unpack_value bytes (bslice (Z.of_nat i * bytes) bytes raw)) (seq 0 (Z.to_nat (blen raw / bytes))).

(** ** Options *)

(** C's [strtoul(s, &end, 10)]: the value and what is left; without digits nothing is
    consumed. *)
Definition is_space (a : ascii) : bool :=
  let n := nat_of_ascii a in (n =? 32)%nat || ((9 <=? n) && (n <=? 13))%nat.
Definition digit_of (a : ascii) : option Z :=
  let n := Z.of_nat (nat_of_ascii a) in if (48 <=? n) && (n <=? 57) then Some (n - 48) else None.
Fixpoint strtoul_digits (s : string) (seen : bool) (v : Z) : option (Z * string) :=
  match s with
  | String a s' =>
      match digit_of a with
      | Some d => strtoul_digits s' true (v * 10 + d)
      | None => if seen then Some (v, s) else None
      end
  | EmptyString => if seen then Some (v, s) else None
  end.
Fixpoint skip_space (s : string) : string :=
  match s with String a s' => if is_space a then skip_space s' else s | EmptyString => s end.
Definition strtoul (s : string) : Z * string :=
  let t := skip_space s in
  let '(negative, t) := match t with
    | String "-"%char t' => (true, t')
    | String "+"%char t' => (false, t')
    | _ => (false, t)
    end in
  match strtoul_digits t false 0 with
  | None => (0, s)
  | Some (v, rest) => (if 2 ^ 64 <=? v then 2 ^ 64 - 1 else if negative then u64 (- v) else v, rest)
  end.

Definition ReuseWindowGemm_option (getenv : string -> option string) (name : string) (fallback lo hi : Z) : result Z :=
  match getenv name with
  | None => Ok fallback
  | Some s =>
      let '(v, rest) := strtoul s in
      if (s =? "")%string || negb (rest =? "")%string || (v <? lo) || (hi <? v) then Throw invalid_argument
      else Ok (u32 v)
  end.

(** ** The job *)

(** The arguments of [start] that are data, and what the job uses of its GM.  The
    callbacks that may be absent are flags or options. *)
Record GemmArgs := mkArgs {
  ga_rows : Z; ga_kTiles : Z; ga_tiles : list Z; ga_aScratch : Z; ga_bScratch : Z; ga_cScratch : Z;
  ga_weight : Z -> Z -> Z; ga_initial : bool; ga_inputAddress : option (Z -> Z);
  ga_independentOutput : bool; ga_fetch : bool; ga_acquire : bool;
  ga_gmLookaheadOverride : Z; ga_demandOrder : bool;
  gm_base : Z; gm_size : Z; localMaxRequestBytes : Z }.

(** The fields [start] assigns and nothing changes afterwards. *)
Record GemmJob := mkJob {
  args : GemmArgs;
  kWindow : Z; bridgeWeights : bool; slotCount : Z; gmLookahead : Z; aFirst : bool; inputPrefetch : bool;
  groups : Z; scatterWave : bool; earlyA : bool; lateLease : bool; detachOutput : bool }.

Definition rows (j : GemmJob) := ga_rows (args j).
Definition kTiles (j : GemmJob) := ga_kTiles (args j).
Definition tiles (j : GemmJob) := ga_tiles (args j).
Definition aBase (j : GemmJob) := ga_aScratch (args j).
Definition bBase (j : GemmJob) := ga_bScratch (args j).
Definition cBase (j : GemmJob) := ga_cScratch (args j).
Definition tile_count (j : GemmJob) : Z := Z.of_nat (length (tiles j)).
(** [tiles_[i]]. *)
Definition tile_at (j : GemmJob) (i : Z) : Z := default 0 (tiles j !! Z.to_nat i).
Definition arrays (j : GemmJob) : list Z := map Z.of_nat (seq 0 (Z.to_nat (rows j))).
Definition localMax (j : GemmJob) : Z := localMaxRequestBytes (args j).

Definition start_options (getenv : string -> option string) (a : GemmArgs) : result GemmJob :=
  let opt := ReuseWindowGemm_option getenv in
  let! kWindow := opt "GOLEM_REUSE_WINDOW_K_TILES"%string 32 1 32 in
  let! bridge := if ga_kTiles a <=? kWindow then opt "GOLEM_REUSE_WINDOW_B_WINDOW_BRIDGE"%string 0 0 1 else Ok 0 in
  let! slots := opt "GOLEM_REUSE_WINDOW_PREFETCH_SLOTS"%string 4 1 4 in
  let! look := if negb (ga_gmLookaheadOverride a =? 0) then Ok (ga_gmLookaheadOverride a)
               else opt "GOLEM_REUSE_WINDOW_GM_LOOKAHEAD"%string 4 1 4 in
  let! aFirst := opt "GOLEM_REUSE_WINDOW_A_FIRST"%string 0 0 1 in
  let! prefetch := opt "GOLEM_REUSE_WINDOW_A_PREFETCH"%string 0 0 1 in
  let! groups := if 32 <? ga_rows a then opt "GOLEM_REUSE_WINDOW_ARRAY_GROUPS"%string 2 1 2 else Ok 1 in
  let! wave := if 32 <? ga_rows a then opt "GOLEM_REUSE_WINDOW_SCATTER_WAVE"%string 0 0 1 else Ok 0 in
  let! earlyA := opt "GOLEM_REUSE_WINDOW_EARLY_A"%string 0 0 1 in
  let! late := opt "GOLEM_REUSE_WINDOW_LATE_LEASE"%string 0 0 1 in
  let! detach := if ga_independentOutput a && negb (ga_initial a)
                 then opt "GOLEM_REUSE_WINDOW_OUTPUT_OVERLAP"%string 0 0 1 else Ok 0 in
  Ok (mkJob a kWindow (negb (bridge =? 0)) slots (Z.min slots look) (negb (aFirst =? 0)) (negb (prefetch =? 0))
        (if wave =? 0 then groups else 2) (negb (wave =? 0)) (negb (earlyA =? 0)) (negb (late =? 0)) (negb (detach =? 0))).

(** The geometry check of [start]. *)
Definition region_fits (j : GemmJob) (addr bytes : Z) : bool :=
  let base := gm_base (args j) in
  let room := gm_size (args j) ⊟ 64 in
  (base <=? addr) && (addr - base <=? room) && (bytes <=? room ⊟ (addr - base)).
Definition regions_overlap (a x b y : Z) : bool := (a <? b ⊞ y) && (b <? a ⊞ x).
Definition aBytes (j : GemmJob) : Z := Z.min (kWindow j) (kTiles j) ⊠ rows j ⊠ 128.
Definition bBytes (j : GemmJob) : Z := u32 (slotCount j * 8192).
Definition cBytes (j : GemmJob) : Z := Z.min 4 (tile_count j) ⊠ rows j ⊠ 256.
Definition start_refused (j : GemmJob) : bool :=
  (rows j =? 0) || (64 <? rows j) || (kTiles j =? 0) || (tile_count j =? 0) ||
  negb (region_fits j (aBase j) (aBytes j)) || negb (region_fits j (bBase j) (bBytes j)) ||
  negb (region_fits j (cBase j) (cBytes j)) ||
  regions_overlap (aBase j) (aBytes j) (bBase j) (bBytes j) ||
  regions_overlap (aBase j) (aBytes j) (cBase j) (cBytes j) ||
  regions_overlap (bBase j) (bBytes j) (cBase j) (cBytes j).

(** ** State *)

(** The functions [next_] can hold. *)
Inductive Task :=
  | BeginWindow | RestoreC | LoadA | ReadChunk | WriteChunk | ProgramC | AcquireTile | ProgramB | ProgramA
  | Launch | Drain | WaitFinish.
(** The continuation of a GM write in pieces ([writeDone_]); a read has one use. *)
Inductive WriteDone := InputWritten | PartialWritten.

Record WeightSlot := mkWeightSlot {
  w_valid : bool; w_dma : bool; w_reading : bool; w_pending : bool; w_ready : bool;
  w_seq : Z; w_offset : Z; w_bytes : list byte }.
#[export] Instance WeightSlot_settable : Settable WeightSlot := fun s =>
  mkWeightSlot (w_valid s) (w_dma s) (w_reading s) (w_pending s) (w_ready s) (w_seq s) (w_offset s) (w_bytes s).
#[export] Instance w_valid_updater : Updater w_valid := ltac:(solve_updater).
#[export] Instance w_dma_updater : Updater w_dma := ltac:(solve_updater).
#[export] Instance w_reading_updater : Updater w_reading := ltac:(solve_updater).
#[export] Instance w_pending_updater : Updater w_pending := ltac:(solve_updater).
#[export] Instance w_ready_updater : Updater w_ready := ltac:(solve_updater).
#[export] Instance w_seq_updater : Updater w_seq := ltac:(solve_updater).
#[export] Instance w_offset_updater : Updater w_offset := ltac:(solve_updater).
#[export] Instance w_bytes_updater : Updater w_bytes := ltac:(solve_updater).
Definition WeightSlot_new : WeightSlot := mkWeightSlot false false false false false 0 0 [].

Record InputSlot := mkInputSlot {
  i_valid : bool; i_pending : bool; i_ready : bool; i_seq : Z; i_offset : Z; i_address : Z;
  i_bytes : list byte; i_values : Values }.
#[export] Instance InputSlot_settable : Settable InputSlot := fun s =>
  mkInputSlot (i_valid s) (i_pending s) (i_ready s) (i_seq s) (i_offset s) (i_address s) (i_bytes s) (i_values s).
#[export] Instance i_valid_updater : Updater i_valid := ltac:(solve_updater).
#[export] Instance i_pending_updater : Updater i_pending := ltac:(solve_updater).
#[export] Instance i_ready_updater : Updater i_ready := ltac:(solve_updater).
#[export] Instance i_seq_updater : Updater i_seq := ltac:(solve_updater).
#[export] Instance i_offset_updater : Updater i_offset := ltac:(solve_updater).
#[export] Instance i_address_updater : Updater i_address := ltac:(solve_updater).
#[export] Instance i_bytes_updater : Updater i_bytes := ltac:(solve_updater).
#[export] Instance i_values_updater : Updater i_values := ltac:(solve_updater).
Definition InputSlot_new : InputSlot := mkInputSlot false false false 0 0 0 [] [].

(** Accepted calls whose callback has not run. *)
Inductive Call :=
  | FetchWeight (index source destination : Z)
  | ReadWeight (index addr len : Z)
  | ReadInput (addr len : Z)
  | ReadInputSlot (index addr len : Z)
  | ReadBack (addr len : Z)
  | WriteGM (addr : Z) (bytes : list byte)
  | AskInput (k : Z)
  | AskInitial (tile : Z)
  | WriteOutput (ids : list Z) (values : Values)
  | ProgramMatrix (ids : list Z) (matrix : Values) (submitted : Z)
  | ScatterInput (ids : list Z) (values : Values)
  | ArrayMac (array mode group rows launched : Z) (computed : bool)
  | ReadOutput (ids : list Z) (bytes : Z).

(** The statistics counters. *)
Inductive Stat :=
  | localRead_ | localWrite_ | hbmRead_ | windows_ | launches_ | prefetchRequests_ | prefetchHits_ | cRead_ | cWrite_
  | drains_ | restores_ | bridgePrefetches_ | groupLaunches_ | groupOverlap_ | transferOverlap_ | groupProgram_
  | groupCompute_ | activeCycles_ | waitDma_ | waitGm_ | waitA_ | waitArray_ | waitOutput_ | outputPendingCycles_
  | outputComputeOverlap_ | leaseWait_ | gmDeferred_ | headBypassAdmissions_ | headBypassCycles_ | inputHighWater_
  | inputHits_ | phases_ (phase : Z).
#[export] Instance Stat_eq_dec : EqDecision Stat.
Proof. solve_decision. Defined.

Record ReuseWindowGemm := mkGemm {
  active : bool; pending : bool; outputWaiting : bool; outputAdvanced : bool; leaseHeld : bool;
  next : option Task; writeDone : option WriteDone;
  nBase : Z; kBase : Z; n : Z; k : Z; nCount : Z; kCount : Z; loadedA : Z; group : Z; phase : Z;
  remaining : Z -> Z; cycle : Z; tag : Z; cReadyCycle : Z;
  ioAddr : Z; io : list byte; offset : Z;
  slots : Z -> WeightSlot; nextPrefetch : Z;
  inputSlots : Z -> InputSlot; preparedSeq : Z; inputReading : bool; inputPending : bool; inputReady : bool;
  inputReadAddress : Z; inputOffset : Z; inputBytes : list byte; inputValues : Values;
  matrix : Values; result_ : Values; stats : list (Stat * Z);
  calls : list Call;                    (* what the surroundings still have to answer *)
  outputs : list (Z * Values);          (* the calls of [output_], in order *)
  finished : list bool }.               (* the calls of [done_] *)
#[export] Instance Gemm_settable : Settable ReuseWindowGemm := fun g =>
  mkGemm (active g) (pending g) (outputWaiting g) (outputAdvanced g) (leaseHeld g) (next g) (writeDone g)
    (nBase g) (kBase g) (n g) (k g) (nCount g) (kCount g) (loadedA g) (group g) (phase g)
    (remaining g) (cycle g) (tag g) (cReadyCycle g) (ioAddr g) (io g) (offset g) (slots g) (nextPrefetch g)
    (inputSlots g) (preparedSeq g) (inputReading g) (inputPending g) (inputReady g) (inputReadAddress g)
    (inputOffset g) (inputBytes g) (inputValues g) (matrix g) (result_ g) (stats g) (calls g) (outputs g) (finished g).
#[export] Instance active_updater : Updater active := ltac:(solve_updater).
#[export] Instance pending_updater : Updater pending := ltac:(solve_updater).
#[export] Instance outputWaiting_updater : Updater outputWaiting := ltac:(solve_updater).
#[export] Instance outputAdvanced_updater : Updater outputAdvanced := ltac:(solve_updater).
#[export] Instance leaseHeld_updater : Updater leaseHeld := ltac:(solve_updater).
#[export] Instance next_updater : Updater next := ltac:(solve_updater).
#[export] Instance writeDone_updater : Updater writeDone := ltac:(solve_updater).
#[export] Instance nBase_updater : Updater nBase := ltac:(solve_updater).
#[export] Instance kBase_updater : Updater kBase := ltac:(solve_updater).
#[export] Instance n_updater : Updater n := ltac:(solve_updater).
#[export] Instance k_updater : Updater k := ltac:(solve_updater).
#[export] Instance nCount_updater : Updater nCount := ltac:(solve_updater).
#[export] Instance kCount_updater : Updater kCount := ltac:(solve_updater).
#[export] Instance loadedA_updater : Updater loadedA := ltac:(solve_updater).
#[export] Instance group_updater : Updater group := ltac:(solve_updater).
#[export] Instance phase_updater : Updater phase := ltac:(solve_updater).
#[export] Instance remaining_updater : Updater remaining := ltac:(solve_updater).
#[export] Instance cycle_updater : Updater cycle := ltac:(solve_updater).
#[export] Instance tag_updater : Updater tag := ltac:(solve_updater).
#[export] Instance cReadyCycle_updater : Updater cReadyCycle := ltac:(solve_updater).
#[export] Instance ioAddr_updater : Updater ioAddr := ltac:(solve_updater).
#[export] Instance io_updater : Updater io := ltac:(solve_updater).
#[export] Instance offset_updater : Updater offset := ltac:(solve_updater).
#[export] Instance slots_updater : Updater slots := ltac:(solve_updater).
#[export] Instance nextPrefetch_updater : Updater nextPrefetch := ltac:(solve_updater).
#[export] Instance inputSlots_updater : Updater inputSlots := ltac:(solve_updater).
#[export] Instance preparedSeq_updater : Updater preparedSeq := ltac:(solve_updater).
#[export] Instance inputReading_updater : Updater inputReading := ltac:(solve_updater).
#[export] Instance inputPending_updater : Updater inputPending := ltac:(solve_updater).
#[export] Instance inputReady_updater : Updater inputReady := ltac:(solve_updater).
#[export] Instance inputReadAddress_updater : Updater inputReadAddress := ltac:(solve_updater).
#[export] Instance inputOffset_updater : Updater inputOffset := ltac:(solve_updater).
#[export] Instance inputBytes_updater : Updater inputBytes := ltac:(solve_updater).
#[export] Instance inputValues_updater : Updater inputValues := ltac:(solve_updater).
#[export] Instance matrix_updater : Updater matrix := ltac:(solve_updater).
#[export] Instance result__updater : Updater result_ := ltac:(solve_updater).
#[export] Instance stats_updater : Updater stats := ltac:(solve_updater).
#[export] Instance calls_updater : Updater calls := ltac:(solve_updater).
#[export] Instance outputs_updater : Updater outputs := ltac:(solve_updater).
#[export] Instance finished_updater : Updater finished := ltac:(solve_updater).

Definition ReuseWindowGemm_new : ReuseWindowGemm :=
  mkGemm false false false false false None None 0 0 0 0 0 0 0 0 0 (fun _ => 0) 0 0 0 0 [] 0
    (fun _ => WeightSlot_new) 0 (fun _ => InputSlot_new) (2 ^ 32 - 1) false false false 0 0 [] [] [] [] [] [] [] [].

(** The counters are an association list; a counter that is absent is zero. *)
Fixpoint stat (s : Stat) (l : list (Stat * Z)) : Z :=
  match l with [] => 0 | (s', v) :: l' => if bool_decide (s = s') then v else stat s l' end.
Fixpoint set_stat (s : Stat) (v : Z) (l : list (Stat * Z)) : list (Stat * Z) :=
  match l with
  | [] => [(s, v)]
  | (s', v') :: l' => if bool_decide (s = s') then (s, v) :: l' else (s', v') :: set_stat s v l'
  end.
Definition bump (s : Stat) (amount : Z) (g : ReuseWindowGemm) : ReuseWindowGemm :=
  g <| stats ::= fun l => set_stat s (stat s l ⊞ amount) l |>.
Definition bump_if (b : bool) (s : Stat) (g : ReuseWindowGemm) : ReuseWindowGemm := if b then bump s 1 g else g.
Definition schedule (t : Task) (g : ReuseWindowGemm) : ReuseWindowGemm := g <| next := Some t |>.
(** A call that was accepted. *)
Definition issue (c : Call) (g : ReuseWindowGemm) : ReuseWindowGemm := g <| calls ::= fun l => l ++ [c] |>.
Definition set_pending (b : bool) (g : ReuseWindowGemm) : ReuseWindowGemm := g <| pending := b |>.
Definition set_phase (p : Z) (g : ReuseWindowGemm) : ReuseWindowGemm := g <| phase := p |>.
Definition new_tag (g : ReuseWindowGemm) : ReuseWindowGemm := g <| tag ::= fun t => t ⊞ 1 |>.
Definition computing (g : ReuseWindowGemm) : bool := negb (remaining g 0 =? 0) || negb (remaining g 1 =? 0).

(** What the surroundings decide during one tick: whether a call with a tag is accepted,
    whether a launch is, whether the array lease is granted. *)
Record Replies := mkReplies { accepts : Z -> bool; launch_accepted : bool; lease_granted : bool }.

Section gemm.
Context (j : GemmJob) (cfg : TileUnitConfig).

Definition transferring (g : ReuseWindowGemm) : bool :=
  existsb (fun i => let s := slots g i in w_valid s && (w_dma s || w_reading s || w_pending s)) [0; 1; 2; 3] ||
  existsb (fun i => let s := inputSlots g i in i_valid s && negb (i_ready s)) [0; 1] ||
  inputReading g || inputPending g.

Definition currentSequence (g : ReuseWindowGemm) : Z :=
  u32 ((if bridgeWeights j then u32 (nBase g * kCount g) else 0) + u32 (n g * kCount g) + k g).
Definition sequenceLimit (g : ReuseWindowGemm) : Z :=
  u32 ((if bridgeWeights j then u32 (tile_count j) else nCount g) * kCount g).

Definition finish (ok : bool) (g : ReuseWindowGemm) : ReuseWindowGemm :=
  if negb (active g) then g
  else g <| active := false |> <| next := None |> <| pending := false |> <| finished ::= fun l => l ++ [ok] |>.

(** *** GM reads and writes in pieces *)

Definition chunk_length (g : ReuseWindowGemm) : Z := Z.min (localMax j) (blen (io g) - offset g).
Definition read (addr bytes : Z) (g : ReuseWindowGemm) : ReuseWindowGemm :=
  schedule ReadChunk (g <| ioAddr := addr |> <| io := replicate (Z.to_nat bytes) x00 |> <| offset := 0 |>).
Definition readChunk (re : Replies) (g : ReuseWindowGemm) : ReuseWindowGemm :=
  let g := new_tag (set_pending true g) in
  if accepts re (tag g) then issue (ReadBack (ioAddr g ⊞ offset g) (chunk_length g)) g
  else schedule ReadChunk (set_pending false g).
Definition write (addr : Z) (bytes : list byte) (d : WriteDone) (g : ReuseWindowGemm) : ReuseWindowGemm :=
  schedule WriteChunk (g <| ioAddr := addr |> <| io := bytes |> <| offset := 0 |> <| writeDone := Some d |>).
Definition writeChunk (re : Replies) (g : ReuseWindowGemm) : ReuseWindowGemm :=
  let g := new_tag (set_pending true g) in
  if accepts re (tag g) then issue (WriteGM (ioAddr g ⊞ offset g) (bslice (offset g) (chunk_length g) (io g))) g
  else schedule WriteChunk (set_pending false g).
(** [std::copy(b.begin(), b.end(), v.begin() + at)]. *)
Definition copy_at (at_ : Z) (b v : list byte) : list byte :=
  take (Z.to_nat at_) v ++ b ++ drop (Z.to_nat at_ + length b) v.

(** *** Weight slots *)

Definition set_slot (i : Z) (f : WeightSlot -> WeightSlot) (g : ReuseWindowGemm) : ReuseWindowGemm :=
  g <| slots ::= fun m => <[i := f (m i)]> m |>.
Definition weight_address (g : ReuseWindowGemm) (seq : Z) : Z :=
  let nn := seq / kCount g in
  let kk := seq mod kCount g in
  ga_weight (args j) (tile_at j (if bridgeWeights j then nn else u32 (nBase g + nn))) (u32 (kBase g + kk)).
Definition weight_slot_address (index : Z) : Z := bBase j ⊞ (index ⊠ 8192).

(** One iteration of the loop; [None] leaves it. *)
Definition fillPrefetch_one (g : ReuseWindowGemm) : option ReuseWindowGemm :=
  if negb (nextPrefetch g <? sequenceLimit g) then None
  else
    let index := nextPrefetch g mod slotCount j in
    if w_valid (slots g index) then None
    else
      let seq := nextPrefetch g in
      let g := set_slot index (fun _ => mkWeightSlot true true false false false seq 0 (replicate (Z.to_nat 8192) x00)) g in
      let g := g <| nextPrefetch ::= fun x => u32 (x + 1) |> in
      let g := bump_if (bridgeWeights j && (u32 (u32 (nBase g + nCount g) * kCount g) <=? seq)) bridgePrefetches_ g in
      let g := if ga_fetch (args j) then g else bump hbmRead_ 8192 g in
      let g := bump prefetchRequests_ 1 g in
      Some (issue (FetchWeight index (weight_address g seq) (weight_slot_address index)) g).
Fixpoint fillPrefetch_loop (fuel : nat) (g : ReuseWindowGemm) : ReuseWindowGemm :=
  match fuel with
  | O => g
  | S fuel' => match fillPrefetch_one g with None => g | Some g' => fillPrefetch_loop fuel' g' end
  end.
(** Four slots at most are free. *)
Definition fillPrefetch (g : ReuseWindowGemm) : ReuseWindowGemm := fillPrefetch_loop 4 g.

Definition pumpWeight (re : Replies) (index : Z) (g : ReuseWindowGemm) : ReuseWindowGemm * bool :=
  let s := slots g index in
  if negb (w_valid s) || negb (w_reading s) || w_pending s then (g, false)
  else
    let len := Z.min (localMax j) (8192 - w_offset s) in
    let g := new_tag g in
    if accepts re (tag g)
    then (issue (ReadWeight index (weight_slot_address index ⊞ w_offset s) len)
                (set_slot index (fun s => s <| w_pending := true |>) g), true)
    else (g, false).

(** *** Activations *)

Definition set_input_slot (i : Z) (f : InputSlot -> InputSlot) (g : ReuseWindowGemm) : ReuseWindowGemm :=
  g <| inputSlots ::= fun m => <[i := f (m i)]> m |>.
Definition input_address (g : ReuseWindowGemm) (kk : Z) : Z :=
  match ga_inputAddress (args j) with
  | Some f => f (u32 (kBase g + kk))
  | None => aBase j ⊞ (kk ⊠ rows j ⊠ 128)
  end.
Definition input_bytes : nat := Z.to_nat (u32 (rows j * 128)).

Definition prepare_slot (seq : Z) (g : ReuseWindowGemm) : ReuseWindowGemm :=
  if negb (active g) then g
  else
    let s := inputSlots g (seq mod 2) in
    if i_valid s then (if i_seq s =? seq then g else finish false g)
    else set_input_slot (seq mod 2) (fun _ =>
           mkInputSlot true false false seq 0 (input_address g (seq mod kCount g)) (replicate input_bytes x00) []) g.
Definition inputs_live (g : ReuseWindowGemm) : Z :=
  (if i_valid (inputSlots g 0) then 1 else 0) + (if i_valid (inputSlots g 1) then 1 else 0).
Definition prepareInput (seq : Z) (g : ReuseWindowGemm) : ReuseWindowGemm :=
  if preparedSeq g =? seq then g
  else
    let g := g <| preparedSeq := seq |> in
    if inputPrefetch j then
      let current := inputSlots g (seq mod 2) in
      let g := bump_if (i_valid current && (i_seq current =? seq) && i_ready current) inputHits_ g in
      let last := Z.min (u32 (seq + 2)) (sequenceLimit g) in
      let g := if seq <? last then prepare_slot seq g else g in
      let g := if u32 (seq + 1) <? last then prepare_slot (u32 (seq + 1)) g else g in
      if negb (active g) then g
      else g <| stats ::= fun l => set_stat inputHighWater_ (Z.max (stat inputHighWater_ l) (inputs_live g)) l |>
    else
      g <| inputOffset := 0 |> <| inputPending := false |> <| inputReady := false |> <| inputReading := true |>
        <| inputBytes := replicate input_bytes x00 |> <| inputReadAddress := input_address g (k g) |>.

Definition pumpInputSlot (re : Replies) (index : Z) (g : ReuseWindowGemm) : ReuseWindowGemm :=
  let s := inputSlots g index in
  if negb (i_valid s) || i_ready s || i_pending s then g
  else
    let len := Z.min (localMax j) (blen (i_bytes s) - i_offset s) in
    let g := new_tag g in
    if accepts re (tag g)
    then issue (ReadInputSlot index (i_address s ⊞ i_offset s) len)
               (set_input_slot index (fun s => s <| i_pending := true |>) g)
    else g.
Definition pumpInput (re : Replies) (g : ReuseWindowGemm) : ReuseWindowGemm :=
  if inputPrefetch j then
    let g := if active g then pumpInputSlot re (u32 (preparedSeq g) mod 2) g else g in
    if active g then pumpInputSlot re (u32 (preparedSeq g + 1) mod 2) g else g
  else if negb (inputReading g) || inputPending g then g
  else
    let len := Z.min (localMax j) (blen (inputBytes g) - inputOffset g) in
    let g := new_tag g in
    if accepts re (tag g)
    then issue (ReadInput (inputReadAddress g ⊞ inputOffset g) len) (g <| inputPending := true |>)
    else g.

(** *** The control flow of a tile *)

Definition beginWindow (g : ReuseWindowGemm) : ReuseWindowGemm :=
  if outputWaiting g then schedule BeginWindow (bump waitOutput_ 1 (set_phase 7 g))
  else
    let g := bump windows_ 1 (set_phase 0 g) in
    let g := g <| nCount := Z.min 4 (u32 (tile_count j - nBase g)) |>
               <| kCount := Z.min (kWindow j) (u32 (kTiles j - kBase g)) |>
               <| n := 0 |> <| k := 0 |> <| loadedA := 0 |> <| preparedSeq := 2 ^ 32 - 1 |> in
    let g := if negb (bridgeWeights j) || (nBase g =? 0)
             then g <| nextPrefetch := 0 |> <| slots := fun _ => WeightSlot_new |> else g in
    let g := fillPrefetch g in
    schedule (if bool_decide (is_Some (ga_inputAddress (args j))) then RestoreC else LoadA) g.

(** [input_] is asked for the tile; its callback is [input_given]. *)
Definition loadA (g : ReuseWindowGemm) : ReuseWindowGemm :=
  issue (AskInput (u32 (kBase g + loadedA g))) (set_pending true (set_phase 0 g)).
Definition input_given (ok : bool) (a : Values) (g : ReuseWindowGemm) : ReuseWindowGemm :=
  let g := set_pending false g in
  if negb ok || negb (Z.of_nat (length a) =? u32 (rows j * 64)) then finish false g
  else write (aBase j ⊞ (loadedA g ⊠ rows j ⊠ 128)) (ReuseWindowGemm_pack a 2) InputWritten g.
Definition input_written (g : ReuseWindowGemm) : ReuseWindowGemm :=
  let g := g <| loadedA ::= fun x => u32 (x + 1) |> in
  schedule (if loadedA g <? kCount g then LoadA else RestoreC) g.

Definition acquireArrays (re : Replies) (g : ReuseWindowGemm) : ReuseWindowGemm * bool :=
  if ga_acquire (args j) && negb (leaseHeld g) then
    let g := if earlyA j then prepareInput (u32 (u32 (n g * kCount g) + k g)) g else g in
    if negb (lease_granted re) then (bump leaseWait_ 1 g, false)
    else (g <| leaseHeld := true |>, true)
  else (g, true).

Definition partial_address (g : ReuseWindowGemm) : Z := cBase j ⊞ (n g ⊠ rows j ⊠ 256).
Definition restoreC (re : Replies) (g : ReuseWindowGemm) : ReuseWindowGemm :=
  let g := set_phase 1 g in
  let g := if lateLease j && ga_acquire (args j) && earlyA j
           then prepareInput (u32 (u32 (n g * kCount g) + k g)) g else g in
  let '(g, held) := if lateLease j then (g, true) else acquireArrays re g in
  if negb held then schedule RestoreC g
  else if computing g then schedule RestoreC (bump waitArray_ 1 g)
  else if negb (kBase g =? 0) then
    read (partial_address g) (u32 (rows j * 256)) (bump cRead_ (rows j ⊠ 256) g)
  else if ga_initial (args j) then
    issue (AskInitial (tile_at j (u32 (nBase g + n g)))) (set_pending true g)
  else schedule AcquireTile g.
(** The end of the read: [result_=unpack(b,4);schedule(programC)]. *)
Definition partial_read (b : list byte) (g : ReuseWindowGemm) : ReuseWindowGemm :=
  schedule ProgramC (g <| result_ := ReuseWindowGemm_unpack b 4 |>).
Definition initial_given (ok : bool) (v : Values) (g : ReuseWindowGemm) : ReuseWindowGemm :=
  let g := set_pending false g in
  if negb ok || negb (Z.of_nat (length v) =? u32 (rows j * 64)) then finish false g
  else schedule ProgramC (g <| result_ := v |>).

(** The tile engine takes a request that its checks accept when its queue has room. *)
Definition taken {A} (re : Replies) (t : Z) (request : option A) : bool := accepts re t && bool_decide (is_Some request).

Definition programC (re : Replies) (g : ReuseWindowGemm) : ReuseWindowGemm :=
  let g := set_phase 1 g in
  if cycle g <? cReadyCycle g then schedule ProgramC g
  else
    let '(g, held) := acquireArrays re g in
    if negb held then schedule ProgramC g
    else
      let g := new_tag (set_pending true g) in
      if taken re (tag g) (writeOutputGroupClassAsync cfg (arrays j) (result_ g) 4 ProjectionOutput)
      then issue (WriteOutput (arrays j) (result_ g)) g
      else schedule ProgramC (set_pending false g).
Definition output_written (ok : bool) (g : ReuseWindowGemm) : ReuseWindowGemm :=
  let g := set_pending false g in
  if negb ok then finish false g
  else schedule AcquireTile (bump restores_ 1 g <| result_ := [] |>).

Definition acquireTile (g : ReuseWindowGemm) : ReuseWindowGemm :=
  let g := set_phase 2 g in
  let seq := currentSequence g in
  let slot := slots g (seq mod slotCount j) in
  let g := if earlyA j then prepareInput seq g else g in
  if negb (w_ready slot) || negb (w_seq slot =? seq) then
    schedule AcquireTile (bump (if w_dma slot then waitDma_ else waitGm_) 1 g)
  else
    let g := bump prefetchHits_ 1 g <| matrix := ReuseWindowGemm_unpack (w_bytes slot) 2 |> <| group := 0 |> in
    schedule ProgramB (prepareInput seq g).

Definition group_begin (g : ReuseWindowGemm) : Z := if groups j =? 2 then u32 (group g * 32) else 0.
Definition group_end (g : ReuseWindowGemm) : Z := if groups j =? 2 then Z.min (u32 (group_begin g + 32)) (rows j) else rows j.
Definition groupArrays (g : ReuseWindowGemm) : list Z :=
  take (Z.to_nat (group_end g - group_begin g)) (drop (Z.to_nat (group_begin g)) (arrays j)).

Definition programB (re : Replies) (g : ReuseWindowGemm) : ReuseWindowGemm :=
  let g := set_phase 3 g in
  let '(g, held) := acquireArrays re g in
  if negb held then schedule ProgramB g
  else if negb (remaining g (group g) =? 0) || (scatterWave j && negb (remaining g 1 =? 0))
  then schedule ProgramB (bump waitArray_ 1 g)
  else
    let g := new_tag (set_pending true g) in
    let ids := if scatterWave j then arrays j else groupArrays g in
    if taken re (tag g) (programMatrixGroupClassBankAsync cfg ids 0 (matrix g) 2 ProjectionWeights)
    then issue (ProgramMatrix ids (matrix g) (cycle g)) g
    else schedule ProgramB (set_pending false g).
Definition matrix_programmed (ok : bool) (submitted : Z) (g : ReuseWindowGemm) : ReuseWindowGemm :=
  let g := set_pending false g in
  if negb ok then finish false g
  else schedule ProgramA (bump groupProgram_ (cycle g - submitted) g).

Definition input_is_ready (g : ReuseWindowGemm) : bool :=
  if inputPrefetch j then i_ready (inputSlots g (preparedSeq g mod 2)) else inputReady g.
Definition current_input (g : ReuseWindowGemm) : Values :=
  if inputPrefetch j then i_values (inputSlots g (preparedSeq g mod 2)) else inputValues g.
Definition programA (re : Replies) (g : ReuseWindowGemm) : ReuseWindowGemm :=
  let g := set_phase 4 g in
  if negb (input_is_ready g) then schedule ProgramA (bump waitA_ 1 g)
  else
    let a := take (Z.to_nat ((group_end g - group_begin g) * 64)) (drop (Z.to_nat (group_begin g * 64)) (current_input g)) in
    let g := new_tag (set_pending true g) in
    if taken re (tag g) (programInputScatterBankAsync cfg (groupArrays g) 0 a 2 ProjectionInputScatter)
    then issue (ScatterInput (groupArrays g) a) g
    else schedule ProgramA (set_pending false g).
Definition input_scattered (ok : bool) (g : ReuseWindowGemm) : ReuseWindowGemm :=
  let g := set_pending false g in
  if negb ok then finish false g else schedule Launch g.

Definition launch (re : Replies) (g : ReuseWindowGemm) : ReuseWindowGemm :=
  let g := set_phase 5 g in
  let ids := groupArrays g in
  let grp := group g in
  let count := Z.of_nat (length ids) in
  let mode := if negb (u32 (kBase g + k g) =? 0) || ga_initial (args j) then 1 else 0 in
  let g := g <| remaining ::= fun f => <[grp := count]> f |> in
  if negb (launch_accepted re) then schedule Launch (g <| remaining ::= fun f => <[grp := 0]> f |>)
  else
    let g := foldl (fun g id => issue (ArrayMac id mode grp count (cycle g) false) g) g ids in
    let g := bump groupLaunches_ 1 g <| group ::= fun x => u32 (x + 1) |> in
    if group g <? groups j then schedule (if scatterWave j then ProgramA else ProgramB) g
    else
      let g := bump launches_ 1 g <| matrix := [] |> <| inputValues := [] |> in
      let g := if inputPrefetch j then set_input_slot (preparedSeq g mod 2) (fun _ => InputSlot_new) g else g in
      let g := fillPrefetch (set_slot (currentSequence g mod slotCount j) (fun _ => WeightSlot_new) g) in
      let g := g <| k ::= fun x => u32 (x + 1) |> in
      schedule (if k g <? kCount g then AcquireTile else Drain) g.
Definition array_done (grp count launched : Z) (g : ReuseWindowGemm) : ReuseWindowGemm :=
  let g := g <| remaining ::= fun f => <[grp := u32 (f grp - 1)]> f |> in
  if remaining g grp =? 0 then bump groupCompute_ ((cycle g ⊟ launched) ⊠ count) g else g.

Definition drain_bytes (g : ReuseWindowGemm) : Z := if u32 (kBase g + kCount g) <? kTiles j then 4 else 2.
Definition drain (re : Replies) (g : ReuseWindowGemm) : ReuseWindowGemm :=
  let g := set_phase 6 g in
  if computing g then schedule Drain (bump waitArray_ 1 g)
  else if outputWaiting g then schedule Drain (bump waitOutput_ 1 g)
  else
    let g := new_tag (set_pending true g) in
    if taken re (tag g) (readOutputGroupClassAsync cfg (arrays j) (drain_bytes g) ProjectionOutput)
    then issue (ReadOutput (arrays j) (drain_bytes g)) g
    else schedule Drain (set_pending false g).

Definition waitFinish (g : ReuseWindowGemm) : ReuseWindowGemm :=
  let g := set_phase 8 g in
  if outputWaiting g then schedule WaitFinish (bump waitOutput_ 1 g) else finish true g.
Definition advanceN (g : ReuseWindowGemm) : ReuseWindowGemm :=
  let g := g <| k := 0 |> <| n ::= fun x => u32 (x + 1) |> in
  if n g <? nCount g then schedule RestoreC g
  else
    let g := g <| kBase ::= fun x => u32 (x + kCount g) |> in
    if kTiles j <=? kBase g then
      let g := g <| nBase ::= fun x => u32 (x + nCount g) |> <| kBase := 0 |> in
      if tile_count j <=? nBase g then waitFinish g else schedule BeginWindow g
    else schedule BeginWindow g.
Definition output_read (ok : bool) (v : Values) (g : ReuseWindowGemm) : ReuseWindowGemm :=
  let g := set_pending false g in
  if negb ok || negb (Z.of_nat (length v) =? u32 (rows j * 64)) then finish false g
  else
    let g := bump drains_ 1 g <| leaseHeld := false |> in
    if u32 (kBase g + kCount g) <? kTiles j then
      let b := ReuseWindowGemm_pack v 4 in
      write (partial_address g) b PartialWritten (bump cWrite_ (blen b) g)
    else
      let g := g <| result_ := v |> <| outputWaiting := true |> <| outputAdvanced := detachOutput j |> <| phase := 7 |> in
      let g := g <| outputs ::= fun l => l ++ [(tile_at j (u32 (nBase g + n g)), v)] |> in
      if detachOutput j then advanceN (g <| result_ := [] |>) else g.
Definition resumeOutput (g : ReuseWindowGemm) : ReuseWindowGemm :=
  if negb (outputWaiting g) then g
  else
    let g := g <| outputWaiting := false |> in
    if outputAdvanced g then g else advanceN (g <| result_ := [] |>).
Definition delayUntil (c : Z) (g : ReuseWindowGemm) : ReuseWindowGemm := g <| cReadyCycle ::= Z.max c |>.

(** *** The other callbacks *)

Definition weight_fetched (index : Z) (ok : bool) (g : ReuseWindowGemm) : ReuseWindowGemm :=
  if negb ok then finish false g
  else set_slot index (fun s => s <| w_dma := false |> <| w_reading := true |>) g.
Definition weight_read (index len : Z) (ok : bool) (b : list byte) (g : ReuseWindowGemm) : ReuseWindowGemm :=
  let g := set_slot index (fun s => s <| w_pending := false |>) g in
  if negb ok || negb (blen b =? len) then finish false g
  else
    bump localRead_ len (set_slot index (fun s =>
      let s := s <| w_bytes := copy_at (w_offset s) b (w_bytes s) |> <| w_offset := w_offset s + len |> in
      if w_offset s =? 8192 then s <| w_reading := false |> <| w_ready := true |> else s) g).
Definition input_read (len : Z) (ok : bool) (b : list byte) (g : ReuseWindowGemm) : ReuseWindowGemm :=
  let g := g <| inputPending := false |> in
  if negb ok || negb (blen b =? len) then finish false g
  else
    let g := g <| inputBytes := copy_at (inputOffset g) b (inputBytes g) |> <| inputOffset := inputOffset g + len |> in
    let g := bump localRead_ len g in
    if inputOffset g =? blen (inputBytes g)
    then g <| inputReading := false |> <| inputReady := true |>
           <| inputValues := ReuseWindowGemm_unpack (inputBytes g) 2 |> <| inputBytes := [] |>
    else g.
Definition input_slot_read (index len : Z) (ok : bool) (b : list byte) (g : ReuseWindowGemm) : ReuseWindowGemm :=
  let g := set_input_slot index (fun s => s <| i_pending := false |>) g in
  if negb ok || negb (blen b =? len) then finish false g
  else
    bump localRead_ len (set_input_slot index (fun s =>
      let s := s <| i_bytes := copy_at (i_offset s) b (i_bytes s) |> <| i_offset := i_offset s + len |> in
      if i_offset s =? blen (i_bytes s)
      then s <| i_ready := true |> <| i_values := ReuseWindowGemm_unpack (i_bytes s) 2 |> <| i_bytes := [] |>
      else s) g).
Definition chunk_read (len : Z) (ok : bool) (b : list byte) (g : ReuseWindowGemm) : ReuseWindowGemm :=
  let g := set_pending false g in
  if negb ok || negb (blen b =? len) then finish false g
  else
    let g := bump localRead_ len (g <| io := copy_at (offset g) b (io g) |> <| offset := offset g + len |>) in
    if offset g <? blen (io g) then schedule ReadChunk g
    else partial_read (io g) (g <| io := [] |>).
Definition chunk_written (len : Z) (ok : bool) (g : ReuseWindowGemm) : ReuseWindowGemm :=
  let g := set_pending false g in
  if negb ok then finish false g
  else
    let g := bump localWrite_ len (g <| offset := offset g + len |>) in
    if offset g <? blen (io g) then schedule WriteChunk g
    else
      let d := writeDone g in
      let g := g <| io := [] |> <| writeDone := None |> in
      match d with
      | Some InputWritten => input_written g
      | Some PartialWritten => advanceN g
      | None => g
      end.

(** *** The clock *)

Definition run_task (re : Replies) (t : Task) (g : ReuseWindowGemm) : ReuseWindowGemm :=
  match t with
  | BeginWindow => beginWindow g
  | RestoreC => restoreC re g
  | LoadA => loadA g
  | ReadChunk => readChunk re g
  | WriteChunk => writeChunk re g
  | ProgramC => programC re g
  | AcquireTile => acquireTile g
  | ProgramB => programB re g
  | ProgramA => programA re g
  | Launch => launch re g
  | Drain => drain re g
  | WaitFinish => waitFinish g
  end.

(** The loop over the weight slots; [orders] are the values of [order] still to come. *)
Fixpoint pump_slots (re : Replies) (current : Z) (orders : list Z) (g : ReuseWindowGemm) (transfer bypass : bool) : ReuseWindowGemm * bool * bool :=
  match orders with
  | [] => (g, transfer, bypass)
  | order :: orders' =>
      if negb (active g) then (g, transfer, bypass)
      else
        let i := if ga_demandOrder (args j) then u32 (current + order) mod slotCount j else order in
        let s := slots g i in
        let transfer := transfer || (w_valid s && (w_dma s || w_reading s || w_pending s)) in
        if w_valid s && w_reading s && (u32 (current + gmLookahead j) <=? w_seq s)
        then pump_slots re current orders' (bump gmDeferred_ 1 g) transfer bypass
        else
          let hi := current mod slotCount j in
          let head := slots g hi in
          let headNeedsRead := w_valid head && (w_seq head =? current) && w_reading head && negb (w_pending head) in
          let '(g, admitted) := pumpWeight re i g in
          let bypassed := admitted && headNeedsRead && negb (i =? hi) in
          let g := bump_if bypassed headBypassAdmissions_ g in
          if ga_demandOrder (args j) && (i =? hi) && headNeedsRead && negb admitted then (g, transfer, bypass || bypassed)
          else pump_slots re current orders' g transfer (bypass || bypassed)
  end.

Definition tick_counters (g : ReuseWindowGemm) : ReuseWindowGemm :=
  let g := bump (phases_ (phase g)) 1 (bump activeCycles_ 1 g) in
  let g := if outputWaiting g then bump_if (computing g) outputComputeOverlap_ (bump outputPendingCycles_ 1 g) else g in
  bump_if (negb (remaining g 0 =? 0) && negb (remaining g 1 =? 0)) groupOverlap_ g.
Definition tick_transfers (re : Replies) (g : ReuseWindowGemm) : ReuseWindowGemm :=
  let g := if aFirst j then pumpInput re g else g in
  if negb (active g) then g
  else
    let '(g, transfer, bypass) :=
      pump_slots re (currentSequence g) (map Z.of_nat (seq 0 (Z.to_nat (slotCount j)))) g false false in
    let g := bump_if bypass headBypassCycles_ g in
    if negb (active g) then g
    else
      let g := if aFirst j then g else pumpInput re g in
      if negb (active g) then g else bump_if (computing g && transfer) transferOverlap_ g.
Definition tick (re : Replies) (now : Z) (g : ReuseWindowGemm) : ReuseWindowGemm :=
  let g := g <| cycle := now |> in
  if negb (active g) then g
  else
    let g := tick_transfers re (tick_counters g) in
    if negb (active g) then g
    else match next g with
    | Some t => if pending g then g else run_task re t (g <| next := None |>)
    | None => g
    end.

(** *** The start of a job *)

Definition start (g : ReuseWindowGemm) : ReuseWindowGemm :=
  let g := g <| leaseHeld := false |> <| inputSlots := fun _ => InputSlot_new |>
    <| stats ::= fun l => foldr (fun s => set_stat s 0) l
         [leaseWait_; inputHighWater_; inputHits_; gmDeferred_; headBypassAdmissions_; headBypassCycles_] |> in
  if start_refused j then g <| finished ::= fun l => l ++ [false] |>
  else
    schedule BeginWindow
      (g <| active := true |> <| pending := false |> <| outputWaiting := false |>
         <| nBase := 0 |> <| kBase := 0 |> <| n := 0 |> <| k := 0 |> <| cReadyCycle := 0 |>
         <| stats := [] |> <| remaining := fun _ => 0 |> <| phase := 0 |> <| outputAdvanced := false |>
         <| inputReading := false |> <| inputPending := false |> <| inputReady := false |>).

End gemm.
