(* ===== verification/GemmValues.v ===== *)
(** * Values in memory: the round trips of the window GEMM's packing

    [ReuseWindowGemm_pack] and [_unpack] are inverse on single-precision values, and every
    value that comes out of [_unpack] or of the binary16 datapath is one; so a partial sum
    survives the spill to memory and back unchanged. *)

From Stdlib Require Import ZArith Lia.
From Stdlib Require Import Init.Byte.
From stdpp Require Import base numbers functions list.
From S2P Require Import Prelude RecordUpdate Ieee IeeeArith Fp16 TileArray ControlTransport WindowGemm.
Open Scope Z_scope.

(** ** Bytes *)

Lemma Z_of_byte_of_Z z : Z_of_byte (byte_of_Z z) = u8 z.
Proof.
  unfold Z_of_byte, byte_of_Z. pose proof (u8_range z) as Hr. unfold in_u8 in Hr.
  destruct (Byte.of_N (Z.to_N (u8 z))) as [b|] eqn:E.
  - apply Byte.to_of_N in E. cbn [from_option id]. rewrite E. lia.
  - apply Byte.of_N_None_iff in E. lia.
Qed.

Lemma le_bytes_length n w : length (le_bytes n w) = n.
Proof. unfold le_bytes. by rewrite length_map, length_seq. Qed.

Lemma le_bytes_S n w : le_bytes (S n) w = byte_of_Z w :: le_bytes n (Z.shiftr w 8).
Proof.
  unfold le_bytes. cbn [seq map]. rewrite <- seq_shift, map_map. change (Z.shiftr w (8 * Z.of_nat 0)) with w. f_equal.
  apply map_ext. intros i. rewrite Z.shiftr_shiftr by lia. do 2 f_equal. lia.
Qed.

Lemma le_value_bytes n : forall w, 0 <= w < 2 ^ (8 * Z.of_nat n) -> le_value (le_bytes n w) = w.
Proof.
  induction n as [|n IH]; intros w Hw; [cbn in Hw |- *; lia|].
  rewrite le_bytes_S. cbn [le_value]. rewrite Z_of_byte_of_Z, IH.
  - rewrite Z.shiftr_div_pow2 by lia. unfold u8. pose proof (Z.div_mod w (2 ^ 8) ltac:(lia)). lia.
  - rewrite Z.shiftr_div_pow2 by lia. split; [apply Z.div_pos; lia|].
    apply Z.div_lt_upper_bound; [lia|]. rewrite <- Z.pow_add_r by lia.
    replace (8 + 8 * Z.of_nat n) with (8 * Z.of_nat (S n)) by lia. apply Hw.
Qed.

(** ** Single precision *)

Definition single (x : spec_float) : Prop := valid_binary prec32 emax32 x = true.

Lemma single_to_float x : single x -> to_float x = x.
Proof.
  intros V. destruct x as [s|s| |s m e]; try done. unfold to_float, SFconv.
  rewrite binary_round_spec by (reflexivity || lia). by apply round_at_canonical.
Qed.
Lemma to_float_single x : single (to_float x).
Proof.
  destruct x as [s|s| |s m e]; try done. unfold single, to_float, SFconv.
  rewrite binary_round_spec by (reflexivity || lia). apply round_at_format; reflexivity || lia.
Qed.

Lemma bits_of_float_range x : single x -> 0 <= bits_of_float x < 2 ^ 32.
Proof.
  intros V. unfold bits_of_float, encode_bits. cbv zeta.
  change (2 ^ (23 + 8)) with 2147483648. change (Z.ones 8) with 255. change (2 ^ (8 - 1) - 1) with 127.
  change (2 ^ (23 - 1)) with 4194304. change (2 ^ 23) with 8388608. change (2 ^ 32) with 4294967296.
  destruct x as [s|s| |s m e]; try lia; try (destruct s; lia).
  unfold single in V. cbn in V. unfold bounded, canonical_mantissa in V. boolify.
  change (Z.pos (digits2_pos m)) with (Zdigits2 (Z.pos m)) in *.
  unfold fexp, SpecFloat.emin, prec32, emax32 in *.
  pose proof (Zdigits2_bounds (Z.pos m) ltac:(lia)) as [B1 B2].
  destruct (Z.ltb_spec (Z.pos m) 8388608) as [L|L]; [destruct s; lia|].
  assert (Z.pos m < 2 ^ 24).
  { eapply Z.lt_le_trans; [exact B2|]. apply Z.pow_le_mono_r; lia. }
  change (2 ^ 24) with 16777216 in *.
  assert (-149 <= e <= 104) by lia. destruct s; lia.
Qed.

Lemma decode_single w : single (float_of_bits w).
Proof.
  unfold float_of_bits, decode_bits. cbv zeta. change (2 ^ (8 - 1) - 1) with 127. change (Z.ones 8) with (2 ^ 8 - 1).
  change (Z.land (Z.shiftr w 23) (2 ^ 8 - 1)) with (Z.land (Z.shiftr w 23) (Z.ones 8)).
  rewrite !Z.land_ones by lia.
  pose proof (Z.mod_pos_bound (Z.shiftr w 23) (2 ^ 8) ltac:(lia)). pose proof (Z.mod_pos_bound w (2 ^ 23) ltac:(lia)).
  set (E := Z.shiftr w 23 mod 2 ^ 8) in *. set (F := w mod 2 ^ 23) in *.
  destruct (Z.eqb_spec E 0); [destruct (Z.eqb_spec F 0); [done|]|destruct (Z.eqb_spec E (2 ^ 8 - 1)); [destruct (F =? 0); done|]].
  - apply finite_valid; unfold SpecFloat.emin, prec32, emax32; try lia.
  - apply finite_valid; unfold SpecFloat.emin, prec32, emax32; try lia.
Qed.
Lemma half_single h : single (GolemFp16_to_float h).
Proof. apply decode_single. Qed.

(** ** Packing *)

Definition value_bytes (bytes : Z) : nat := if bytes =? 2 then 2 else 4.
Lemma pack_value_length bytes x : length (pack_value bytes x) = value_bytes bytes.
Proof. unfold pack_value, value_bytes. destruct (bytes =? 2); apply le_bytes_length. Qed.

Lemma pack_length bytes v : length (ReuseWindowGemm_pack v bytes) = (value_bytes bytes * length v)%nat.
Proof.
  unfold ReuseWindowGemm_pack. induction v as [|x v IH]; [cbn; lia|].
  cbn [flat_map length]. rewrite length_app, IH, pack_value_length. lia.
Qed.
Lemma pack_blen bytes v : (bytes = 2 \/ bytes = 4) -> blen (ReuseWindowGemm_pack v bytes) = bytes * Z.of_nat (length v).
Proof. intros H. unfold blen. rewrite pack_length. unfold value_bytes. destruct H as [-> | ->]; cbn [Z.eqb Pos.eqb]; lia. Qed.

Lemma unpack_length bytes bs : length (ReuseWindowGemm_unpack bs bytes) = Z.to_nat (blen bs / bytes).
Proof. unfold ReuseWindowGemm_unpack. by rewrite length_map, length_seq. Qed.
Lemma unpack_single bytes bs : Forall single (ReuseWindowGemm_unpack bs bytes).
Proof.
  apply Forall_forall. intros x Hx. unfold ReuseWindowGemm_unpack in Hx. apply list_elem_of_fmap in Hx as (i & -> & _).
  unfold unpack_value. destruct (bytes =? 2); apply decode_single.
Qed.

Lemma unpack_pack_value x : single x -> unpack_value 4 (pack_value 4 x) = x.
Proof.
  intros V. unfold unpack_value, pack_value. cbn [Z.eqb Pos.eqb]. rewrite single_to_float by done.
  rewrite le_value_bytes by (pose proof (bits_of_float_range x V); lia).
  apply decode_encode; [lia|lia|exact V].
Qed.

Lemma unpack_pack v : Forall single v -> ReuseWindowGemm_unpack (ReuseWindowGemm_pack v 4) 4 = v.
Proof.
  intros Hv. apply list_eq. intros i. unfold ReuseWindowGemm_unpack.
  rewrite pack_blen by lia. rewrite Z.mul_comm, Z.div_mul, Nat2Z.id by lia. rewrite list_lookup_fmap.
  destruct (Nat.lt_ge_cases i (length v)) as [L|L].
  2:{ rewrite lookup_ge_None_2 by (rewrite length_seq; lia). cbn. symmetry. by apply lookup_ge_None_2. }
  rewrite lookup_seq_lt by done. cbn [fmap option_fmap option_map]. destruct (lookup_lt_is_Some_2 v i L) as [x Ex].
  rewrite Ex. f_equal. rewrite <- (unpack_pack_value x) by (by eapply Forall_lookup_1). f_equal.
  unfold bslice. change (Z.to_nat 4) with 4%nat. rewrite <- (take_drop_middle v i x Ex) at 1.
  unfold ReuseWindowGemm_pack. rewrite flat_map_app. cbn [flat_map].
  pose proof (pack_length 4 (take i v)) as Hl. unfold ReuseWindowGemm_pack in Hl. rewrite length_take, Nat.min_l in Hl by lia.
  rewrite drop_app_length' by (rewrite Hl; cbn; lia). rewrite take_app_length'; [done|]. by rewrite pack_value_length.
Qed.
