(* ===== verification/GemmSystem.v ===== *)
(** * The window GEMM among its surroundings

    [WindowGemm] with the bank of tile units ([TileArray]), the core's global memory and
    the weights in host memory.  A call completes in one step, any time after it was
    accepted and in any order; what it reads it reads then.  The multiply of an array
    happens some time between its launch and its callback. *)

From Stdlib Require Import ZArith Lia.
From Stdlib Require Import Init.Byte.
From stdpp Require Import base numbers functions list.
From S2P Require Import Prelude RecordUpdate Ieee Fp16 AttentionBase ComputeUnit TileArray ControlTransport WindowGemm.
Open Scope Z_scope.

(** The bytes a memory holds. *)
Definition mem_bytes (m : Z -> byte) (addr : Z) (len : Z) : list byte :=
  map (fun i => m (addr + Z.of_nat i)) (seq 0 (Z.to_nat len)).

Record GemmSystem := mkSystem { gemm : ReuseWindowGemm; memory : Z -> byte; bank : TileBank }.

Section system.
Context (j : GemmJob) (cfg : TileUnitConfig).
(** What the weights' memory holds and what the input callbacks deliver. *)
Context (host : Z -> byte) (inputs initials : Z -> Values).

(** [LAUNCH_GROUP] on one array and its self event: output mode, active columns, multiply. *)
Definition array_multiply (id mode : Z) (b : TileBank) : TileBank :=
  let b := configureOutputMode cfg id mode b in
  match beginComputationActiveBank cfg id 0 64 b with
  | Some b' => result_or b' (handleSelfEvent cfg id 0 b')
  | None => b
  end.

Definition apply_request (f : option (TileBank -> TileBank)) (b : TileBank) : TileBank :=
  match f with Some f => f b | None => b end.
Definition read_request (f : option (TileBank -> bool * Values)) (b : TileBank) : bool * Values :=
  match f with Some f => f b | None => (false, []) end.

(** The successful completion of a call whose callback finds the GEMM in state [g]. *)
Definition answer (c : Call) (g : ReuseWindowGemm) (m : Z -> byte) (b : TileBank) : GemmSystem :=
  match c with
  | FetchWeight index source destination =>
      mkSystem (weight_fetched index true g) (write_mem m destination (mem_bytes host source 8192)) b
  | ReadWeight index addr len => mkSystem (weight_read index len true (mem_bytes m addr len) g) m b
  | ReadInput addr len => mkSystem (input_read len true (mem_bytes m addr len) g) m b
  | ReadInputSlot index addr len => mkSystem (input_slot_read index len true (mem_bytes m addr len) g) m b
  | ReadBack addr len => mkSystem (chunk_read len true (mem_bytes m addr len) g) m b
  | WriteGM addr bytes => mkSystem (chunk_written j (blen bytes) true g) (write_mem m addr bytes) b
  | AskInput kk => mkSystem (input_given j true (inputs kk) g) m b
  | AskInitial tile => mkSystem (initial_given j true (initials tile) g) m b
  | WriteOutput ids values =>
      mkSystem (output_written true g) m (apply_request (writeOutputGroupClassAsync cfg ids values 4 ProjectionOutput) b)
  | ProgramMatrix ids values submitted =>
      mkSystem (matrix_programmed true submitted g) m
        (apply_request (programMatrixGroupClassBankAsync cfg ids 0 values 2 ProjectionWeights) b)
  | ScatterInput ids values =>
      mkSystem (input_scattered true g) m
        (apply_request (programInputScatterBankAsync cfg ids 0 values 2 ProjectionInputScatter) b)
  | ArrayMac id mode grp count launched _ => mkSystem (array_done grp count launched g) m b
  | ReadOutput ids bytes =>
      let '(ok, v) := read_request (readOutputGroupClassAsync cfg ids bytes ProjectionOutput) b in
      mkSystem (output_read j ok v g) m b
  end.

(** The callback of a call that failed. *)
Definition refuse (c : Call) (g : ReuseWindowGemm) : ReuseWindowGemm :=
  match c with
  | FetchWeight index _ _ => weight_fetched index false g
  | ReadWeight index _ len => weight_read index len false [] g
  | ReadInput _ len => input_read len false [] g
  | ReadInputSlot index _ len => input_slot_read index len false [] g
  | ReadBack _ len => chunk_read len false [] g
  | WriteGM _ bytes => chunk_written j (blen bytes) false g
  | AskInput _ => input_given j false [] g
  | AskInitial _ => initial_given j false [] g
  | WriteOutput _ _ => output_written false g
  | ProgramMatrix _ _ submitted => matrix_programmed false submitted g
  | ScatterInput _ _ => input_scattered false g
  | ArrayMac _ _ grp count launched _ => array_done grp count launched g
  | ReadOutput _ _ => output_read j false [] g
  end.

(** An array's multiply must have happened before its callback. *)
Definition answerable (c : Call) : bool :=
  match c with ArrayMac _ _ _ _ _ computed => computed | _ => true end.

(** The memory the job relies on: its three regions and the resident input tiles. *)
Definition owned (a : Z) : Prop :=
  (aBase j <= a < aBase j + aBytes j) \/ (bBase j <= a < bBase j + bBytes j) \/ (cBase j <= a < cBase j + cBytes j) \/
  exists f kk, ga_inputAddress (args j) = Some f /\ 0 <= kk < kTiles j /\ f kk <= a < f kk + rows j * 128.

Inductive gemm_step : GemmSystem -> GemmSystem -> Prop :=
  | step_tick re now g m b : gemm_step (mkSystem g m b) (mkSystem (tick j cfg re now g) m b)
  | step_resume g m b : gemm_step (mkSystem g m b) (mkSystem (resumeOutput j g) m b)
  | step_delay c g m b : gemm_step (mkSystem g m b) (mkSystem (delayUntil c g) m b)
  | step_answer c l1 l2 g m b :
      calls g = l1 ++ c :: l2 -> answerable c = true ->
      gemm_step (mkSystem g m b) (answer c (g <| calls := l1 ++ l2 |>) m b)
  | step_multiply id mode grp count launched l1 l2 g m b :
      calls g = l1 ++ ArrayMac id mode grp count launched false :: l2 ->
      gemm_step (mkSystem g m b)
        (mkSystem (g <| calls := l1 ++ ArrayMac id mode grp count launched true :: l2 |>) m (array_multiply id mode b))
  | step_other m' g m b :
      (forall a, owned a -> m' a = m a) -> gemm_step (mkSystem g m b) (mkSystem g m' b).

(** ** What the job should compute *)

(** Tile [kk] of the activations, as the arrays see it. *)
Definition input_tile (m0 : Z -> byte) (kk : Z) : Values :=
  ReuseWindowGemm_unpack
    (match ga_inputAddress (args j) with
     | Some f => mem_bytes m0 (f kk) (rows j * 128)
     | None => ReuseWindowGemm_pack (inputs kk) 2
     end) 2.
Definition weight_tile (tile kk : Z) : Values :=
  ReuseWindowGemm_unpack (mem_bytes host (ga_weight (args j) tile kk) 8192) 2.

(** Row [r] of a tile after one more weight tile: every column takes the binary16 dot
    product of 64 multiply-adds, added to what was there. *)
Definition mac_row (weights a : Values) (accumulate : bool) (old : Values) : Values :=
  imap (fun col x =>
    let dot := TileUnit_projectionDot (take 64 (drop (col * 64) weights)) a in
    GolemFp16_to_float (if accumulate then GolemFp16_add dot (GolemFp16_of_float x) else dot)) old.
Definition tile_row (a : Values) (r : nat) : Values := take 64 (drop (r * 64) a).
Fixpoint product_row (m0 : Z -> byte) (tile : Z) (r : nat) (kk : nat) : Values :=
  match kk with
  | O => if ga_initial (args j) then map to_float (tile_row (initials tile) r) else replicate 64 tile_zero
  | S kk' =>
      mac_row (weight_tile tile (Z.of_nat kk')) (tile_row (input_tile m0 (Z.of_nat kk')) r)
        (ga_initial (args j) || (0 <? kk')%nat) (product_row m0 tile r kk')
  end.
Definition product (m0 : Z -> byte) (tile : Z) : Values :=
  flat_map (fun r => product_row m0 tile r (Z.to_nat (kTiles j))) (seq 0 (Z.to_nat (rows j))).

(** ** A scheduler, for concrete runs *)

Inductive GemmCommand := Tick (re : Replies) (now : Z) | Answer (i : nat) | Multiply (i : nat) | Resume.
Definition run_command (cmd : GemmCommand) (s : GemmSystem) : option GemmSystem :=
  match cmd with
  | Tick re now => Some (mkSystem (tick j cfg re now (gemm s)) (memory s) (bank s))
  | Resume => Some (mkSystem (resumeOutput j (gemm s)) (memory s) (bank s))
  | Answer i =>
      match calls (gemm s) !! i with
      | Some c => if answerable c
          then Some (answer c ((gemm s) <| calls := take i (calls (gemm s)) ++ drop (S i) (calls (gemm s)) |>) (memory s) (bank s))
          else None
      | None => None
      end
  | Multiply i =>
      match calls (gemm s) !! i with
      | Some (ArrayMac id mode grp count launched false) =>
          Some (mkSystem ((gemm s) <| calls := take i (calls (gemm s)) ++ ArrayMac id mode grp count launched true :: drop (S i) (calls (gemm s)) |>)
                  (memory s) (array_multiply id mode (bank s)))
      | _ => None
      end
  end.

(** Serves every call at once and ticks: the patient surroundings. *)
Definition serve_first (s : GemmSystem) : option GemmSystem :=
  match calls (gemm s) with
  | ArrayMac _ _ _ _ _ false :: _ => run_command (Multiply 0) s
  | _ :: _ => run_command (Answer 0) s
  | [] => None
  end.
Definition all_yes : Replies := mkReplies (fun _ => true) true true.
Fixpoint serve (fuel : nat) (now : Z) (s : GemmSystem) : GemmSystem :=
  match fuel with
  | O => s
  | S fuel' =>
      match serve_first s with
      | Some s' => serve fuel' now s'
      | None =>
          if outputWaiting (gemm s) then serve fuel' now (mkSystem (resumeOutput j (gemm s)) (memory s) (bank s))
          else if active (gemm s) then serve fuel' (now + 1) (mkSystem (tick j cfg all_yes (now + 1) (gemm s)) (memory s) (bank s))
          else s
      end
  end.
End system.
