(* ===== verification/GemmArrays.v ===== *)
(** * What the array transfers of the window GEMM do to the bank

    Frame lemmas for [TileArray]'s group operations: which contexts a broadcast, a scatter,
    a gather and a multiply change, and how. *)

From Stdlib Require Import ZArith Lia.
From Stdlib Require Import Init.Byte.
From stdpp Require Import base numbers functions sets list.
From S2P Require Import Prelude RecordUpdate Ieee IeeeArith Fp16 AttentionBase ComputeUnit TileArray ControlTransport WindowGemm GemmValues GemmSystem.
Open Scope Z_scope.

Lemma contexts_on_array r f b q :
  contexts (on_array r f b) q = if decide (q = r) then f (contexts b r) else contexts b q.
Proof.
  unfold on_array. cbn [contexts]. case_decide as E; [subst; by rewrite fn_lookup_insert|].
  by rewrite fn_lookup_insert_ne.
Qed.

(** The bank's precision settings are none of the transfers' business. *)
Definition same_precision (b b' : TileBank) : Prop := precisionEnabled b' = precisionEnabled b.

Section arrays.
Context (cfg : TileUnitConfig).
Hypothesis Hnum : numArrays cfg = 64.
Hypothesis Hin : inputArraySize cfg = 64.
Hypothesis Hout : outputArraySize cfg = 64.
Hypothesis Hfun : functionalCompute cfg = true.

Lemma numeric_true f v : numeric cfg f v = f v.
Proof. unfold numeric, requiresNumericalData. by rewrite Hfun. Qed.

Lemma transform_same v old : length old = length v -> transform_into v old = map to_float v.
Proof. intros H. unfold transform_into. rewrite drop_ge by lia. by rewrite app_nil_r. Qed.

(** *** Broadcast *)

Lemma broadcast_contexts fp m ids : NoDup ids -> forall b q,
  contexts (for_arrays (program_matrix cfg fp m) ids b) q =
  if decide (q ∈ ids) then with_matrix fp (transform_into m (matrixData (contexts b q))) (contexts b q) else contexts b q.
Proof.
  unfold for_arrays. induction 1 as [|r ids Hr Hd IH]; intros b q; cbn [foldl].
  - rewrite decide_False; [done|]. apply not_elem_of_nil.
  - rewrite IH. unfold program_matrix. rewrite contexts_on_array, numeric_true.
    destruct (decide (q = r)) as [->|Hq].
    + rewrite decide_False by done. rewrite decide_True by set_solver. done.
    + destruct (decide (q ∈ ids)); [rewrite decide_True by set_solver|rewrite decide_False by set_solver]; done.
Qed.
Lemma broadcast_precision fp m ids b : same_precision b (for_arrays (program_matrix cfg fp m) ids b).
Proof.
  unfold for_arrays. revert b. induction ids as [|r ids IH]; intros b; [done|]. cbn [foldl].
  unfold same_precision in *. by rewrite IH.
Qed.

(** *** Scatter *)

Lemma scatter_inputs_contexts ids : NoDup ids -> forall v b q,
  contexts (scatter_inputs cfg ids v b) q =
  match list_find (.= q) ids with
  | Some (l, _) => with_input (transform_into (tile_row v l) (inputVector (contexts b q))) (contexts b q)
  | None => contexts b q
  end.
Proof.
  induction 1 as [|r ids Hr Hd IH]; intros v b q; [done|]. cbn [scatter_inputs list_find].
  rewrite IH, contexts_on_array. unfold array_inputs. rewrite Hin. change (Z.to_nat 64) with 64%nat.
  destruct (decide (r = q)) as [->|Hq].
  - assert (list_find (.= q) ids = None) as ->.
    { apply list_find_None. apply Forall_forall. intros x Hx ->. done. }
    rewrite decide_True by done. done.
  - rewrite decide_False by congruence. destruct (list_find (.= q) ids) as [[l x]|]; [|done].
    cbn [prod_map fmap option_fmap option_map]. unfold tile_row. cbn. rewrite drop_drop. do 3 f_equal; try lia.
Qed.
Lemma scatter_inputs_precision ids : forall v b, same_precision b (scatter_inputs cfg ids v b).
Proof. unfold same_precision. induction ids as [|r ids IH]; intros v b; [done|]. cbn [scatter_inputs]. by rewrite IH. Qed.

Lemma scatter_outputs_contexts ids : NoDup ids -> forall v b q,
  contexts (scatter_outputs cfg ids v b) q =
  match list_find (.= q) ids with
  | Some (l, _) => with_output (transform_into (tile_row v l) (outputVector (contexts b q))) (contexts b q)
  | None => contexts b q
  end.
Proof.
  induction 1 as [|r ids Hr Hd IH]; intros v b q; [done|]. cbn [scatter_outputs list_find].
  rewrite IH. unfold write_output. rewrite contexts_on_array. unfold array_rows. rewrite Hout. change (Z.to_nat 64) with 64%nat.
  destruct (decide (r = q)) as [->|Hq].
  - assert (list_find (.= q) ids = None) as ->.
    { apply list_find_None. apply Forall_forall. intros x Hx ->. done. }
    rewrite decide_True by done. done.
  - rewrite decide_False by congruence. destruct (list_find (.= q) ids) as [[l x]|]; [|done].
    cbn [prod_map fmap option_fmap option_map]. unfold tile_row. cbn. rewrite drop_drop. do 3 f_equal; try lia.
Qed.
Lemma scatter_outputs_precision ids : forall v b, same_precision b (scatter_outputs cfg ids v b).
Proof. unfold same_precision. induction ids as [|r ids IH]; intros v b; [done|]. cbn [scatter_outputs]. by rewrite IH. Qed.

(** *** Gather *)

Lemma gather_contexts ids b : Forall (fun r => r < 64) ids -> forall v,
  gather_outputs cfg ids v b = (true, v ++ flat_map (fun r => outputVector (contexts b r)) ids).
Proof.
  induction 1 as [|r ids Hr Hd IH]; intros v; cbn [gather_outputs flat_map]; [by rewrite app_nil_r|].
  rewrite Hnum, (proj2 (Z.leb_gt _ _)) by lia. by rewrite IH, <- app_assoc.
Qed.

(** *** Multiply *)

Lemma configure_other id mode b q : q <> id -> contexts (configureOutputMode cfg id mode b) q = contexts b q.
Proof.
  intros Hq. unfold configureOutputMode, clearOutputVector.
  repeat case_match; rewrite ?contexts_on_array, ?decide_False by done; done.
Qed.
Lemma configure_precision id mode b : precisionEnabled (configureOutputMode cfg id mode b) = precisionEnabled b.
Proof. unfold configureOutputMode. by repeat case_match. Qed.
Lemma self_event_frame id b (q : Z) :
  precisionEnabled b = false ->
  precisionEnabled (result_or b (handleSelfEvent cfg id 0 b)) = false /\
  (q <> id -> contexts (result_or b (handleSelfEvent cfg id 0 b)) q = contexts b q).
Proof.
  intros Hp. unfold handleSelfEvent, computeBank. rewrite Hfun, Hp.
  destruct (validOperandContext cfg id 0); cbn [negb result_or]; [|done].
  destruct (bool_decide _); cbn [result_or]; unfold clearOutputVector;
    (split; [done|]; intros Hq; by rewrite !contexts_on_array, !decide_False by done).
Qed.

Lemma array_multiply_frame id mode b (q : Z) :
  precisionEnabled b = false ->
  precisionEnabled (array_multiply cfg id mode b) = false /\
  (q <> id -> contexts (array_multiply cfg id mode b) q = contexts b q).
Proof.
  intros Hp. unfold array_multiply. rewrite <- (configure_precision id mode b) in Hp.
  destruct (beginComputationActiveBank cfg id 0 64 _) as [b'|] eqn:E.
  - unfold beginComputationActiveBank in E. case_match; [done|]. injection E as <-.
    destruct (self_event_frame id (on_array id (with_columns 64) (configureOutputMode cfg id mode b)) q Hp) as [F1 F2].
    split; [exact F1|]. intros Hq. rewrite F2, contexts_on_array, decide_False by done. by apply configure_other.
  - split; [done|]. apply configure_other.
Qed.

Lemma imap_const_map {A B} (f : nat -> A) (g : B -> B) (l : list B) :
  imap (fun i _ => f i) (map g l) = imap (fun i _ => f i) l.
Proof. revert f. induction l as [|x l IH]; intros f; [done|]. cbn. f_equal. apply (IH (f ∘ S)). Qed.

Lemma array_multiply_row id mode b :
  let x := contexts b id in
  let y := contexts (array_multiply cfg id mode b) id in
  precisionEnabled b = false -> 0 <= id < 64 -> (mode = 0 \/ mode = 1) -> projectionFp16Context x = true ->
  length (inputVector x) = 64%nat -> length (outputVector x) = 64%nat ->
  outputVector y = mac_row (matrixData x) (inputVector x) (mode =? 1) (outputVector x) /\
  inputVector y = inputVector x /\ matrixData y = matrixData x /\ projectionFp16Context y = true.
Proof.
  intros x y Hp Hid Hmode Hctx Hlin Hlout. subst x y.
  unfold array_multiply, configureOutputMode. rewrite Hnum, (proj2 (Z.leb_gt 64 id)) by lia.
  unfold beginComputationActiveBank, handleSelfEvent, computeBank, validateActiveColumnRequest, validOperandContext.
  rewrite Hnum, Hin, Hfun, (proj2 (Z.ltb_lt id 64)) by lia. cbn [andb negb orb Z.eqb Z.ltb Z.leb Z.compare Pos.compare Pos.compare_cont].
  assert (E : forall m, precisionEnabled (on_array id (with_columns 64) (on_array id (with_mode m) b)) = false) by done.
  assert (C : forall m, contexts (on_array id (with_columns 64) (on_array id (with_mode m) b)) id =
                        with_columns 64 (with_mode m (contexts b id))).
  { intros m. rewrite !contexts_on_array, !decide_True by done. done. }
  assert (R : resize_output cfg (outputVector (contexts b id)) = outputVector (contexts b id)).
  { unfold resize_output, array_rows. rewrite Hout, Hlout. change (Z.to_nat 64) with 64%nat.
    rewrite take_ge by lia. cbn. by rewrite app_nil_r. }
  destruct Hmode as [-> | ->]; cbn [Z.eqb Pos.eqb]; rewrite E, C; cbn [result_or bool_decide with_columns with_mode outputMode].
  - rewrite bool_decide_eq_false_2 by done. unfold clearOutputVector. rewrite !contexts_on_array, !decide_True by done. cbn.
    rewrite Hp. cbn. rewrite R. split; [|done]. unfold mac_row.
    etransitivity; [|apply (imap_const_map (fun col => GolemFp16_to_float (TileUnit_projectionDot (take 64 (drop (col * 64) (matrixData (contexts b id)))) (inputVector (contexts b id)))) (const tile_zero))].
    apply imap_ext. intros i v _. unfold compute_row, array_inputs. rewrite Hin. cbn. rewrite Hctx.
    change (Pos.to_nat 64) with 64%nat. rewrite (take_ge (inputVector (contexts b id))) by lia. done.
  - rewrite bool_decide_eq_true_2 by done. rewrite !contexts_on_array, !decide_True by done. cbn. rewrite R. split; [|done].
    unfold mac_row. apply imap_ext. intros i v _. unfold compute_row, array_inputs. rewrite Hin. cbn. rewrite Hctx.
    change (Pos.to_nat 64) with 64%nat. rewrite (take_ge (inputVector (contexts b id))) by lia. done.
Qed.

Lemma mac_row_length w a acc old : length (mac_row w a acc old) = length old.
Proof. apply length_imap. Qed.
Lemma mac_row_single w a acc old : Forall single (mac_row w a acc old).
Proof.
  apply Forall_lookup. intros i x Hx. unfold mac_row in Hx. rewrite list_lookup_imap in Hx.
  destruct (old !! i); [|done]. cbn in Hx. injection Hx as <-. apply half_single.
Qed.
End arrays.
