(* ===== verification/GemmSlots.v ===== *)
(** * The two prefetchers of the window GEMM

    The weight slots and the activation snapshots of [WindowGemm] run on their own clock:
    the port pumps them every tick and their reads complete at any time.  This file states
    what each holds, relative to the sequence number [cur] the arrays consume next, and
    shows that pumping, completions and consumption keep it. *)

From Stdlib Require Import ZArith Lia.
From Stdlib Require Import Init.Byte.
From stdpp Require Import base numbers functions list.
From S2P Require Import Prelude RecordUpdate Ieee Fp16 AttentionBase ComputeUnit TileArray ControlTransport WindowGemm GemmValues GemmSystem.
Open Scope Z_scope.

(** ** Memory as lists of bytes *)

Lemma mem_bytes_length m a len : length (mem_bytes m a len) = Z.to_nat len.
Proof. unfold mem_bytes. by rewrite length_map, length_seq. Qed.
Lemma mem_bytes_blen m a len : 0 <= len -> blen (mem_bytes m a len) = len.
Proof. intros H. unfold blen. rewrite mem_bytes_length. lia. Qed.

Lemma mem_bytes_lookup m a len (i : nat) : Z.of_nat i < len -> mem_bytes m a len !! i = Some (m (a + Z.of_nat i)).
Proof. intros H. unfold mem_bytes. rewrite list_lookup_fmap, lookup_seq_lt by lia. done. Qed.

Lemma bslice_lookup off len bs (i : nat) :
  0 <= off -> bslice off len bs !! i = if decide (Z.of_nat i < len) then bs !! (Z.to_nat off + i)%nat else None.
Proof.
  intros H. unfold bslice. case_decide.
  - rewrite lookup_take_lt by lia. by rewrite lookup_drop.
  - by rewrite lookup_take_ge by lia.
Qed.

(** A read inside what the memory holds gives its slice. *)
Lemma read_held m a bs off len :
  holds m a bs -> 0 <= off -> 0 <= len -> off + len <= blen bs -> mem_bytes m (a + off) len = bslice off len bs.
Proof.
  intros H H1 H2 H3. apply list_eq. intros i. rewrite bslice_lookup by done. case_decide as Hi.
  - rewrite mem_bytes_lookup by done. unfold blen in H3.
    destruct (lookup_lt_is_Some_2 bs (Z.to_nat off + i)) as [b Hb]; [lia|]. rewrite Hb. f_equal.
    rewrite <- (H _ _ Hb). f_equal. lia.
  - apply lookup_ge_None_2. rewrite mem_bytes_length. lia.
Qed.
Lemma mem_bytes_held m a len : holds m a (mem_bytes m a len).
Proof.
  intros i b H. pose proof (lookup_lt_Some _ _ _ H) as Hl. rewrite mem_bytes_length in Hl.
  rewrite mem_bytes_lookup in H by lia. by injection H.
Qed.
Lemma held_mem_bytes m a bs : holds m a bs -> mem_bytes m a (blen bs) = bs.
Proof.
  intros H. rewrite <- (Z.add_0_r a), (read_held m a bs 0 (blen bs)) by (done || unfold blen; lia). apply bslice_all.
Qed.

(** Writing a piece of what is there changes nothing; writing the next piece extends it. *)
Lemma write_same m a bs off len :
  holds m a bs -> 0 <= off -> holds (write_mem m (a + off) (bslice off len bs)) a bs.
Proof.
  intros H Ho i b E. unfold write_mem. cbv zeta. case_match; [|by apply H]. boolify.
  rewrite bslice_lookup by done. case_decide; [|cbn; by apply H].
  replace (Z.to_nat off + Z.to_nat (a + Z.of_nat i - (a + off)))%nat with i by lia. by rewrite E.
Qed.
Lemma write_next m a bs off len :
  holds m a (bslice 0 off bs) -> 0 <= off -> 0 <= len -> off <= blen bs ->
  holds (write_mem m (a + off) (bslice off len bs)) a (bslice 0 (off + len) bs).
Proof.
  intros H H1 H2 H3. rewrite <- bslice_extend by done.
  assert (L : blen (bslice 0 off bs) = off) by (apply bslice_length; lia). apply holds_app.
  - apply write_keeps; [done|]. rewrite L. lia.
  - rewrite L. apply write_holds.
Qed.
Lemma holds_same m m' a bs :
  holds m a bs -> (forall x, a <= x < a + blen bs -> m' x = m x) -> holds m' a bs.
Proof.
  intros H E i b Hb. pose proof (lookup_lt_Some _ _ _ Hb). rewrite E by (unfold blen; lia). by apply H.
Qed.

(** *** Copies into a buffer *)

Lemma bslice_take len bs : bslice 0 len bs = take (Z.to_nat len) bs.
Proof. unfold bslice. change (Z.to_nat 0) with 0%nat. by rewrite drop_0. Qed.

Lemma copy_at_blen at_ b v : 0 <= at_ -> at_ + blen b <= blen v -> blen (copy_at at_ b v) = blen v.
Proof. unfold copy_at, blen. intros H1 H2. rewrite !length_app, length_take, length_drop. lia. Qed.

Lemma copy_next (target v : list byte) off len :
  blen v = blen target -> 0 <= off -> 0 <= len -> off + len <= blen target ->
  bslice 0 off v = bslice 0 off target ->
  bslice 0 (off + len) (copy_at off (bslice off len target) v) = bslice 0 (off + len) target.
Proof.
  intros Hl H1 H2 H3 H. rewrite <- (bslice_extend off len target) by done. rewrite <- H.
  assert (L : length (bslice off len target) = Z.to_nat len) by (unfold bslice, blen in *; rewrite length_take, length_drop; lia).
  unfold copy_at. rewrite !bslice_take, app_assoc.
  apply take_app_length'. rewrite length_app, L, length_take. unfold blen in *. lia.
Qed.

Lemma fn_insert_twice {A} (f : Z -> A) i x y q : (<[i := y]> (<[i := x]> f)) q = (<[i := y]> f) q.
Proof.
  destruct (decide (q = i)) as [->|]; [by rewrite !fn_lookup_insert|]. by rewrite !fn_lookup_insert_ne.
Qed.

(** ** Calls by the callback they wait for *)

Inductive GemmPort := PMain | PWeight (i : Z) | PInput | PSlot (i : Z) | PArray (r : Z).
#[export] Instance Port_eq_dec : EqDecision GemmPort.
Proof. solve_decision. Defined.
Definition port (c : Call) : GemmPort :=
  match c with
  | FetchWeight i _ _ | ReadWeight i _ _ => PWeight i
  | ReadInput _ _ => PInput
  | ReadInputSlot i _ _ => PSlot i
  | ArrayMac r _ _ _ _ _ => PArray r
  | _ => PMain
  end.
Definition on_port (p : GemmPort) (cs : list Call) : list Call := filter (fun c => port c = p) cs.

Lemma on_port_app p cs cs' : on_port p (cs ++ cs') = on_port p cs ++ on_port p cs'.
Proof. apply filter_app. Qed.
Lemma on_port_one p c : on_port p [c] = if decide (port c = p) then [c] else [].
Proof. done. Qed.
Lemma on_port_snoc p cs c : on_port p (cs ++ [c]) = on_port p cs ++ (if decide (port c = p) then [c] else []).
Proof. by rewrite on_port_app, on_port_one. Qed.
Lemma on_port_remove p l1 c l2 :
  on_port p (l1 ++ c :: l2) = on_port p l1 ++ (if decide (port c = p) then [c] else []) ++ on_port p l2.
Proof. unfold on_port. rewrite filter_app, filter_cons. by case_decide. Qed.

(** A port with one call outstanding: the call is that one, and without it there is none. *)
Lemma on_port_single p l1 c l2 c' :
  port c = p -> on_port p (l1 ++ c :: l2) = [c'] -> c = c' /\ on_port p (l1 ++ l2) = [].
Proof.
  intros Hp. rewrite on_port_remove, decide_True, on_port_app by done. intros H.
  destruct (on_port p l1); cbn in H; [|by destruct l].
  injection H as -> H. rewrite H. done.
Qed.
Lemma on_port_nil p l1 c l2 : port c = p -> on_port p (l1 ++ c :: l2) <> [].
Proof. intros Hp. rewrite on_port_remove, decide_True by done. by destruct (on_port p l1). Qed.
Lemma on_port_other p l1 c l2 : port c <> p -> on_port p (l1 ++ c :: l2) = on_port p (l1 ++ l2).
Proof. intros Hp. by rewrite on_port_remove, decide_False, on_port_app. Qed.

(** ** Weight slots *)

(** Everything of the GEMM the weight prefetcher leaves alone. *)
Definition weight_core (g : ReuseWindowGemm) : ReuseWindowGemm :=
  g <| slots := fun _ => WeightSlot_new |> <| nextPrefetch := 0 |> <| calls := [] |> <| tag := 0 |> <| stats := [] |>.
Definition weight_port (p : GemmPort) : bool := match p with PWeight _ => true | _ => false end.
Definition same_ports (f : GemmPort -> bool) (g g' : ReuseWindowGemm) : Prop :=
  forall p, f p = false -> on_port p (calls g') = on_port p (calls g).

Lemma same_ports_refl f g : same_ports f g g.
Proof. done. Qed.
Lemma same_ports_trans f g1 g2 g3 : same_ports f g1 g2 -> same_ports f g2 g3 -> same_ports f g1 g3.
Proof. intros H1 H2 p Hp. by rewrite H2, H1. Qed.
Lemma same_ports_issue f c g : f (port c) = true -> same_ports f g (issue c g).
Proof.
  intros H p Hp. unfold issue. read_fields. rewrite on_port_snoc, decide_False, app_nil_r by congruence. done.
Qed.

(** Opens the setters of [WindowGemm] and reads fields through them. *)
Ltac gemm_fields :=
  unfold bump_if, bump, new_tag, issue, set_slot, set_input_slot, schedule, set_pending, set_phase in *; read_fields.

Section weights.
Context (j : GemmJob) (host : Z -> byte) (source : Z -> Z) (weight_bytes : Z -> list byte).
Hypothesis Hbytes : forall s, mem_bytes host (source s) 8192 = weight_bytes s.
Hypothesis Hslots : 1 <= slotCount j <= 4.
Hypothesis Hmax : 1 <= localMax j.
Hypothesis Hbase : 0 <= bBase j /\ bBase j + slotCount j * 8192 <= 2 ^ 64.

(** What a slot that holds sequence number [s] may look like, with its outstanding calls. *)
Inductive weight_state (m : Z -> byte) (i s : Z) : WeightSlot -> list Call -> Prop :=
  | weight_dma bytes : blen bytes = 8192 ->
      weight_state m i s (mkWeightSlot true true false false false s 0 bytes) [FetchWeight i (source s) (weight_slot_address j i)]
  | weight_reading off bytes p : 0 <= off < 8192 -> blen bytes = 8192 ->
      bslice 0 off bytes = bslice 0 off (weight_bytes s) -> holds m (weight_slot_address j i) (weight_bytes s) ->
      weight_state m i s (mkWeightSlot true false true p false s off bytes)
        (if p : bool then [ReadWeight i (weight_slot_address j i ⊞ off) (Z.min (localMax j) (8192 - off))] else [])
  | weight_ready off :
      weight_state m i s (mkWeightSlot true false false false true s off (weight_bytes s)) [].

Definition slot_free (s : WeightSlot) (cs : list Call) : Prop := w_valid s = false /\ cs = [].
Definition slot_busy (m : Z -> byte) (cur nextP i : Z) (s : WeightSlot) (cs : list Call) : Prop :=
  cur <= w_seq s < nextP /\ w_seq s mod slotCount j = i /\ weight_state m i (w_seq s) s cs.
Definition weights_ok (m : Z -> byte) (cur nextP : Z) (sl : Z -> WeightSlot) (cs : list Call) : Prop :=
  0 <= cur <= nextP /\ nextP <= cur + slotCount j /\
  (forall i, slot_free (sl i) (on_port (PWeight i) cs) \/ slot_busy m cur nextP i (sl i) (on_port (PWeight i) cs)) /\
  (forall s, cur <= s < nextP -> w_valid (sl (s mod slotCount j)) = true /\ w_seq (sl (s mod slotCount j)) = s).
Definition weights_inv (m : Z -> byte) (cur : Z) (g : ReuseWindowGemm) : Prop := weights_ok m cur (nextPrefetch g) (slots g) (calls g).

Lemma weight_bytes_blen s : blen (weight_bytes s) = 8192.
Proof. rewrite <- Hbytes. by apply mem_bytes_blen. Qed.
Lemma weight_state_valid m i s w cs : weight_state m i s w cs -> w_valid w = true /\ w_seq w = s.
Proof. by destruct 1. Qed.

Lemma weight_state_reading m i s w cs :
  weight_state m i s w cs -> w_reading w = true ->
  exists off bytes p, w = mkWeightSlot true false true p false s off bytes /\
    cs = (if p : bool then [ReadWeight i (weight_slot_address j i ⊞ off) (Z.min (localMax j) (8192 - off))] else []) /\
    0 <= off < 8192 /\ blen bytes = 8192 /\ bslice 0 off bytes = bslice 0 off (weight_bytes s) /\
    holds m (weight_slot_address j i) (weight_bytes s).
Proof. destruct 1 as [bytes E|off bytes p E1 E2 E3 E4|off]; cbn; try discriminate. intros _. by exists off, bytes, p. Qed.

Lemma weight_state_calls m i s w cs : weight_state m i s w cs -> cs = [] \/ exists c, cs = [c].
Proof. destruct 1 as [| ? ? []|]; eauto. Qed.
Lemma weight_state_fetching m i s w i' src dst :
  weight_state m i s w [FetchWeight i' src dst] ->
  src = source s /\ dst = weight_slot_address j i /\
  exists bytes, blen bytes = 8192 /\ w = mkWeightSlot true true false false false s 0 bytes.
Proof.
  intros H. remember [FetchWeight i' src dst] as cs eqn:E. destruct H as [bytes|? ? []|]; try discriminate.
  injection E as _ -> ->. eauto.
Qed.
Lemma weight_state_read m i s w i' addr len : weight_state m i s w [ReadWeight i' addr len] -> w_reading w = true.
Proof.
  intros H. remember [ReadWeight i' addr len] as cs eqn:E. by destruct H as [bytes|? ? []|].
Qed.

Lemma slot_address_val i : 0 <= i < slotCount j -> weight_slot_address j i = bBase j + i * 8192.
Proof. intros H. unfold weight_slot_address. unwrap64. done. Qed.
Lemma weight_state_memory m m' i s w cs :
  weight_state m i s w cs -> 0 <= i < slotCount j ->
  (forall a, bBase j + i * 8192 <= a < bBase j + (i + 1) * 8192 -> m' a = m a) -> weight_state m' i s w cs.
Proof.
  intros B Hi Hm. destruct B as [bytes E|off bytes p E1 E2 E3 E4|off]; constructor; try done.
  eapply holds_same; [exact E4|]. intros a Ha. rewrite weight_bytes_blen, slot_address_val in Ha by lia. apply Hm. lia.
Qed.
Lemma slot_range m cur nextP sl cs i :
  weights_ok m cur nextP sl cs -> w_valid (sl i) = true -> 0 <= i < slotCount j.
Proof.
  intros (_ & _ & H & _) Hv. destruct (H i) as [[E _]|(_ & <- & _)]; [congruence|]. apply Z.mod_pos_bound. lia.
Qed.

Lemma weights_ext m cur nextP sl sl' cs :
  (forall q, sl' q = sl q) -> weights_ok m cur nextP sl cs -> weights_ok m cur nextP sl' cs.
Proof.
  intros E (H1 & H2 & H3 & H4). split; [done|]. split; [done|].
  split; [intros q; rewrite E; apply H3|intros s; rewrite E; apply H4].
Qed.

(** One slot and its port replaced, and perhaps its memory; the others are as they were. *)
Lemma weights_replace m m' cur nextP sl cs i s w cs' :
  weights_ok m cur nextP sl cs -> w_valid (sl i) = true -> w_seq (sl i) = s ->
  (forall q a, q <> i -> 0 <= q < slotCount j -> bBase j + q * 8192 <= a < bBase j + (q + 1) * 8192 -> m' a = m a) ->
  (forall p, p <> PWeight i -> on_port p cs' = on_port p cs) ->
  weight_state m' i s w (on_port (PWeight i) cs') ->
  weights_ok m' cur nextP (<[i := w]> sl) cs'.
Proof.
  intros (H1 & H2 & H3 & H4) Hv <- Hm Hp Hw. pose proof (weight_state_valid _ _ _ _ _ Hw) as [V1 V2].
  split; [done|]. split; [done|]. split.
  - intros q. destruct (decide (q = i)) as [->|Hq].
    + rewrite fn_lookup_insert. right. destruct (H3 i) as [[E _]|(B1 & B2 & _)]; [congruence|].
      unfold slot_busy. rewrite V2. done.
    + rewrite fn_lookup_insert_ne by done. rewrite Hp by congruence.
      destruct (H3 q) as [F|(B1 & B2 & B3)]; [by left|right]. split; [done|]. split; [done|].
      pose proof (Z.mod_pos_bound (w_seq (sl q)) (slotCount j) ltac:(lia)).
      apply (weight_state_memory m); [done|lia|]. intros a Ha. apply (Hm q); lia.
  - intros s' Hs. destruct (decide (s' mod slotCount j = i)) as [E|Hq].
    + rewrite E, fn_lookup_insert. split; [done|]. rewrite V2, <- E. by apply H4.
    + rewrite fn_lookup_insert_ne by done. by apply H4.
Qed.

(** Memory outside the slots may change. *)
Lemma weights_memory m m' cur nextP sl cs :
  weights_ok m cur nextP sl cs ->
  (forall a, bBase j <= a < bBase j + slotCount j * 8192 -> m' a = m a) -> weights_ok m' cur nextP sl cs.
Proof.
  intros (H1 & H2 & H3 & H4) Hm. split; [done|]. split; [done|]. split; [|done].
  intros i. destruct (H3 i) as [F|(B1 & B2 & B3)]; [by left|right]. split; [done|]. split; [done|].
  pose proof (Z.mod_pos_bound (w_seq (sl i)) (slotCount j) ltac:(lia)).
  apply (weight_state_memory m); [done|lia|]. intros a Ha. apply Hm. lia.
Qed.

Lemma pumpWeight_frame re i g :
  weight_core (pumpWeight j re i g).1 = weight_core g /\ same_ports weight_port g (pumpWeight j re i g).1 /\
  nextPrefetch (pumpWeight j re i g).1 = nextPrefetch g.
Proof.
  unfold pumpWeight. destruct (negb _ || negb _ || _); [done|]. destruct (accepts _ _); cbn [fst]; (split; [done|split; [|done]]).
  - intros p Hp. gemm_fields. rewrite on_port_snoc, decide_False, app_nil_r; [done|]. by intros <-.
  - done.
Qed.

Lemma pumpWeight_ok m cur re i g : weights_inv m cur g -> weights_inv m cur (pumpWeight j re i g).1.
Proof.
  unfold weights_inv. intros H. unfold pumpWeight.
  destruct (w_valid (slots g i)) eqn:Ev; cbn [negb orb]; [|done].
  destruct (w_reading (slots g i)) eqn:Er; cbn [negb orb]; [|done].
  destruct (w_pending (slots g i)) eqn:Ep; cbn [negb orb]; [done|].
  destruct (accepts _ _); cbn [fst]; gemm_fields; [|done].
  apply (weights_replace m m cur _ (slots g) (calls g) i (w_seq (slots g i))); [done|done|done|done| |].
  - intros p Hp. rewrite on_port_snoc, decide_False, app_nil_r; [done|]. cbn. congruence.
  - rewrite on_port_snoc, decide_True by done. destruct H as (_ & _ & H & _).
    destruct (H i) as [[E _]|(_ & _ & B)]; [congruence|].
    destruct (weight_state_reading _ _ _ _ _ B Er) as (off & bytes & p & Ew & Ec & E1 & E2 & E3 & E4).
    rewrite Ew in Ep |- *. cbn in Ep. subst p. rewrite Ec. exact (weight_reading m i _ off bytes true E1 E2 E3 E4).
Qed.

(** *** Completions *)

Lemma removed_other i l1 c l2 p : port c = PWeight i -> p <> PWeight i -> on_port p (l1 ++ l2) = on_port p (l1 ++ c :: l2).
Proof. intros Hc Hp. symmetry. apply on_port_other. congruence. Qed.

(** The port's slot when one of its calls completes. *)
Lemma weight_call m cur g l1 c l2 i :
  weights_inv m cur g -> calls g = l1 ++ c :: l2 -> port c = PWeight i ->
  exists s, w_seq (slots g i) = s /\ w_valid (slots g i) = true /\ 0 <= i < slotCount j /\
    on_port (PWeight i) (l1 ++ l2) = [] /\ weight_state m i s (slots g i) [c].
Proof.
  intros H E Hc. pose proof H as (_ & _ & H3 & _). specialize (H3 i). rewrite E in H3.
  pose proof (on_port_nil (PWeight i) l1 c l2 Hc) as N.
  destruct H3 as [[_ F]|(_ & _ & B)]; [done|].
  assert (V : w_valid (slots g i) = true) by (by destruct (weight_state_valid _ _ _ _ _ B)).
  assert (S : exists c', on_port (PWeight i) (l1 ++ c :: l2) = [c']).
  { by destruct (weight_state_calls _ _ _ _ _ B). }
  destruct S as [c' S]. destruct (on_port_single _ _ _ _ _ Hc S) as [<- R]. rewrite S in B.
  eexists. split; [done|]. split; [done|]. split; [by apply (slot_range _ _ _ _ _ i H)|]. done.
Qed.

Lemma weight_fetched_ok m cur g l1 l2 i src dst :
  weights_inv m cur g -> calls g = l1 ++ FetchWeight i src dst :: l2 ->
  dst = bBase j + i * 8192 /\ 0 <= i < slotCount j /\
  weights_inv (write_mem m dst (mem_bytes host src 8192)) cur (weight_fetched i true (g <| calls := l1 ++ l2 |>)).
Proof.
  intros H E. destruct (weight_call _ _ _ _ _ _ i H E eq_refl) as (s & Es & V & Hi & R & B).
  destruct (weight_state_fetching _ _ _ _ _ _ _ B) as (-> & -> & bytes & Hb & Ew).
  rewrite Hbytes, slot_address_val by done. split; [done|]. split; [done|].
  unfold weights_inv, weight_fetched. cbn [negb]. gemm_fields.
  apply (weights_replace m _ cur _ (slots g) (calls g) i s); [exact H|done|done| | |].
  - intros q a Hq Hr Ha. unfold write_mem. cbv zeta. rewrite weight_bytes_blen.
    destruct (Z.leb_spec (bBase j + i * 8192) a), (Z.ltb_spec a (bBase j + i * 8192 + 8192)); cbn [andb]; try done. lia.
  - intros p Hp. rewrite E. by apply (removed_other i).
  - rewrite R, Ew. apply (weight_reading _ i s 0 bytes false); [lia|done|done|].
    rewrite slot_address_val by done. apply write_holds.
Qed.

Lemma weight_read_ok m cur g l1 l2 i addr len :
  weights_inv m cur g -> calls g = l1 ++ ReadWeight i addr len :: l2 ->
  0 <= len /\ weights_inv m cur (weight_read i len true (mem_bytes m addr len) (g <| calls := l1 ++ l2 |>)).
Proof.
  intros H E. destruct (weight_call _ _ _ _ _ _ i H E eq_refl) as (s & Es & V & Hi & R & B).
  pose proof (weight_state_read _ _ _ _ _ _ _ B) as Er. pose proof (weight_bytes_blen s) as Hl.
  destruct (weight_state_reading _ _ _ _ _ B Er) as (off & bytes & p & Ew & Ec & E1 & E2 & E3 & E4).
  destruct p; [|discriminate]. injection Ec as -> ->.
  set (len' := Z.min (localMax j) (8192 - off)) in *.
  assert (Hlen : 0 < len' /\ off + len' <= 8192) by lia. clearbody len'. split; [lia|].
  rewrite slot_address_val in * by done.
  replace (bBase j + i * 8192 ⊞ off) with (bBase j + i * 8192 + off) by (unwrap64; lia).
  rewrite (read_held m _ _ off len' E4) by lia.
  assert (Hb : blen (bslice off len' (weight_bytes s)) = len') by (apply bslice_length; lia).
  assert (C : bslice 0 (off + len') (copy_at off (bslice off len' (weight_bytes s)) bytes) = bslice 0 (off + len') (weight_bytes s))
    by (apply copy_next; lia || done).
  assert (Hc : blen (copy_at off (bslice off len' (weight_bytes s)) bytes) = 8192) by (rewrite copy_at_blen; lia).
  unfold weight_read. rewrite Hb, Z.eqb_refl. cbn [negb orb]. unfold weights_inv. gemm_fields. rewrite !fn_lookup_insert.
  eapply weights_ext; [intros q; apply fn_insert_twice|]. rewrite Ew. read_fields. cbn [w_offset w_bytes].
  apply (weights_replace m m cur _ (slots g) (calls g) i s); [exact H|done|done|done| |].
  - intros q Hq. rewrite E. by apply (removed_other i).
  - rewrite R. destruct (Z.eqb_spec (off + len') 8192) as [Hd|Hd].
    + assert (Eb : copy_at off (bslice off len' (weight_bytes s)) bytes = weight_bytes s).
      { rewrite <- (bslice_all (copy_at _ _ _)), Hc, <- Hd, C, Hd, <- Hl. apply bslice_all. }
      rewrite Eb. apply weight_ready.
    + apply (weight_reading m i s (off + len') _ false); [lia|done|done|by rewrite slot_address_val].
Qed.

(** *** Consumption and refill *)

(** The arrays took tile [cur]: its slot is free again. *)
Lemma weights_consume m cur nextP sl cs :
  weights_ok m cur nextP sl cs -> cur < nextP -> on_port (PWeight (cur mod slotCount j)) cs = [] ->
  weights_ok m (cur + 1) nextP (<[cur mod slotCount j := WeightSlot_new]> sl) cs.
Proof.
  intros (H1 & H2 & H3 & H4) Hlt Hc.
  assert (Hmod : forall s, cur < s < nextP -> s mod slotCount j <> cur mod slotCount j).
  { intros s Hs E. destruct (H4 s) as [_ A]; [lia|]. destruct (H4 cur) as [_ B]; [lia|]. rewrite E in A. lia. }
  split; [lia|]. split; [lia|]. split.
  - intros i. destruct (decide (i = cur mod slotCount j)) as [->|Hi].
    + rewrite fn_lookup_insert. left. done.
    + rewrite fn_lookup_insert_ne by done. destruct (H3 i) as [F|(B1 & B2 & B3)]; [by left|right].
      split; [|done]. assert (w_seq (sl i) <> cur) by congruence. lia.
  - intros s Hs. rewrite fn_lookup_insert_ne by (apply not_eq_sym, Hmod; lia). apply H4. lia.
Qed.

(** A new tile in a free slot. *)
Lemma weights_allocate m cur nextP sl cs w cs' :
  weights_ok m cur nextP sl cs -> nextP < cur + slotCount j -> w_valid (sl (nextP mod slotCount j)) = false ->
  (forall p, p <> PWeight (nextP mod slotCount j) -> on_port p cs' = on_port p cs) ->
  weight_state m (nextP mod slotCount j) nextP w (on_port (PWeight (nextP mod slotCount j)) cs') ->
  weights_ok m cur (nextP + 1) (<[nextP mod slotCount j := w]> sl) cs'.
Proof.
  intros (H1 & H2 & H3 & H4) Hlt Hv Hp Hw. pose proof (weight_state_valid _ _ _ _ _ Hw) as [V1 V2].
  set (i := nextP mod slotCount j) in *. split; [lia|]. split; [lia|]. split.
  - intros q. destruct (decide (q = i)) as [->|Hq].
    + rewrite fn_lookup_insert. right. unfold slot_busy. rewrite V2. split; [lia|]. done.
    + rewrite fn_lookup_insert_ne by done. rewrite Hp by congruence.
      destruct (H3 q) as [F|(B1 & B2)]; [by left|right]. split; [lia|done].
  - intros s Hs. destruct (decide (s = nextP)) as [->|Hn].
    + fold i. by rewrite fn_lookup_insert.
    + destruct (H4 s) as [A B]; [lia|]. rewrite fn_lookup_insert_ne; [done|]. intros E. rewrite E in Hv. congruence.
Qed.

(** The tile the arrays are about to consume. *)
Lemma weights_ready m cur g :
  weights_inv m cur g -> cur < nextPrefetch g -> w_ready (slots g (cur mod slotCount j)) = true ->
  w_seq (slots g (cur mod slotCount j)) = cur /\ w_bytes (slots g (cur mod slotCount j)) = weight_bytes cur /\
  on_port (PWeight (cur mod slotCount j)) (calls g) = [].
Proof.
  intros (H1 & H2 & H3 & H4) Hlt Hr. destruct (H4 cur) as [V E]; [lia|].
  destruct (H3 (cur mod slotCount j)) as [[F _]|(_ & _ & B)]; [congruence|]. rewrite E in B. split; [done|].
  remember (on_port _ _) as cs eqn:Ecs. clear Ecs. revert Hr. by destruct B.
Qed.

Lemma sequenceLimit_core g : sequenceLimit j (weight_core g) = sequenceLimit j g.
Proof. done. Qed.
Lemma weight_address_core g s : weight_address j (weight_core g) s = weight_address j g s.
Proof. done. Qed.

Lemma fillPrefetch_one_ok m cur g :
  weights_inv m cur g ->
  (forall s, cur <= s < sequenceLimit j g -> weight_address j g s = source s) -> sequenceLimit j g < 2 ^ 32 ->
  match fillPrefetch_one j g with
  | None => sequenceLimit j g <= nextPrefetch g \/ nextPrefetch g = cur + slotCount j
  | Some g' =>
      weights_inv m cur g' /\ nextPrefetch g' = nextPrefetch g + 1 /\ nextPrefetch g < sequenceLimit j g /\
      weight_core g' = weight_core g /\ same_ports weight_port g g'
  end.
Proof.
  intros H Hs Hlim. pose proof H as (H1 & H2 & H3 & H4). unfold fillPrefetch_one.
  destruct (Z.ltb_spec (nextPrefetch g) (sequenceLimit j g)) as [Hlt|]; cbn [negb]; [|by left].
  set (i := nextPrefetch g mod slotCount j).
  destruct (w_valid (slots g i)) eqn:Ev.
  - right. destruct (H3 i) as [[E _]|(B1 & B2 & _)]; [congruence|].
    assert (slotCount j <= nextPrefetch g - w_seq (slots g i)); [|lia].
    apply Z.divide_pos_le; [lia|]. apply Z.mod_divide; [lia|].
    rewrite Zminus_mod, B2. unfold i. rewrite Z.sub_diag. by apply Z.mod_0_l; lia.
  - cbv zeta. fold i. set (g1 := set_slot i _ g). set (g2 := g1 <| nextPrefetch ::= _ |>).
    set (g3 := bump_if _ _ g2). set (g4 := if ga_fetch (args j) then g3 else _). set (g5 := bump prefetchRequests_ 1 g4).
    assert (C5 : weight_core g5 = weight_core g).
    { unfold g5, g4, g3, bump_if. destruct (bridgeWeights j && _), (ga_fetch (args j)); done. }
    assert (F5 : nextPrefetch g5 = u32 (nextPrefetch g + 1) /\ calls g5 = calls g /\ slots g5 = slots g1).
    { unfold g5, g4, g3, bump_if. destruct (bridgeWeights j && _), (ga_fetch (args j)); done. }
    clearbody g5. clear g2 g3 g4. destruct F5 as (F1 & F2 & F3).
    assert (Ea : weight_address j g5 (nextPrefetch g) = weight_address j g (nextPrefetch g))
      by (by rewrite <- weight_address_core, C5).
    assert (Hfull : nextPrefetch g < cur + slotCount j).
    { assert (nextPrefetch g <> cur + slotCount j); [|lia]. intros E.
      destruct (H4 cur) as [V _]; [lia|]. unfold i in Ev. rewrite E in Ev.
      replace (cur + slotCount j) with (cur + 1 * slotCount j) in Ev by lia. rewrite Z.mod_add in Ev by lia. congruence. }
    destruct (H3 i) as [[_ Hc]|(_ & _ & B)]; [|destruct (weight_state_valid _ _ _ _ _ B); congruence].
    split; [|split; [|split; [done|split]]].
    + unfold weights_inv. change (calls (issue ?c g5)) with (calls g5 ++ [c]).
      change (nextPrefetch (issue _ g5)) with (nextPrefetch g5). change (slots (issue _ g5)) with (slots g5).
      rewrite F1, F2, F3, Ea, Hs, u32_id by (unfold in_u32; lia).
      change (slots g1) with (<[i := mkWeightSlot true true false false false (nextPrefetch g) 0 (replicate (Z.to_nat 8192) x00)]> (slots g)).
      apply (weights_allocate m cur _ (slots g) (calls g)); [done|done|done| |].
      * intros p Hp. rewrite on_port_snoc, decide_False, app_nil_r by (cbn; intros <-; by apply Hp). done.
      * rewrite on_port_snoc, decide_True by done. fold i. rewrite Hc. constructor. unfold blen. rewrite length_replicate. lia.
    + change (nextPrefetch (issue _ g5)) with (nextPrefetch g5). rewrite F1. apply u32_id. unfold in_u32. lia.
    + exact C5.
    + intros p Hp. change (calls (issue ?c g5)) with (calls g5 ++ [c]). rewrite F2.
      rewrite on_port_snoc, decide_False, app_nil_r by (intros <-; done). done.
Qed.

Lemma fillPrefetch_loop_ok m cur fuel : forall g,
  weights_inv m cur g ->
  (forall s, cur <= s < sequenceLimit j g -> weight_address j g s = source s) -> sequenceLimit j g < 2 ^ 32 ->
  nextPrefetch g <= sequenceLimit j g ->
  Z.min (sequenceLimit j g) (cur + slotCount j) - nextPrefetch g <= Z.of_nat fuel ->
  let g' := fillPrefetch_loop j fuel g in
  weights_inv m cur g' /\ nextPrefetch g' = Z.min (sequenceLimit j g) (cur + slotCount j) /\
  weight_core g' = weight_core g /\ same_ports weight_port g g'.
Proof.
  induction fuel as [|fuel IH]; intros g H Hs Hlim Hle Hf; cbn zeta; cbn [fillPrefetch_loop].
  - split; [done|]. split; [|done]. destruct H as (H1 & H2 & _). lia.
  - pose proof (fillPrefetch_one_ok m cur g H Hs Hlim) as S.
    destruct (fillPrefetch_one j g) as [g'|].
    + destruct S as (S1 & S2 & S3 & S4 & S5).
      assert (L : sequenceLimit j g' = sequenceLimit j g) by (by rewrite <- sequenceLimit_core, S4).
      destruct (IH g') as (I1 & I2 & I3 & I4).
      * done.
      * intros s Hr. rewrite L in Hr. rewrite <- weight_address_core, S4. by apply Hs.
      * by rewrite L.
      * rewrite L. lia.
      * rewrite L. lia.
      * rewrite L in I2. split; [done|]. split; [done|]. split; [congruence|]. by eapply same_ports_trans.
    + split; [done|]. split; [|done]. destruct H as (H1 & H2 & _). lia.
Qed.

Lemma fillPrefetch_ok m cur g :
  weights_inv m cur g ->
  (forall s, cur <= s < sequenceLimit j g -> weight_address j g s = source s) -> sequenceLimit j g < 2 ^ 32 ->
  nextPrefetch g <= sequenceLimit j g ->
  let g' := fillPrefetch j g in
  weights_inv m cur g' /\ nextPrefetch g' = Z.min (sequenceLimit j g) (cur + slotCount j) /\
  weight_core g' = weight_core g /\ same_ports weight_port g g'.
Proof. intros H Hs Hlim Hle. apply fillPrefetch_loop_ok; try done. destruct H as (H1 & _). lia. Qed.

(** *** The pump *)

Lemma weights_stats m cur g s v : weights_inv m cur (bump s v g) <-> weights_inv m cur g.
Proof. done. Qed.

Lemma pump_slots_ok m cur re current orders : forall g transfer bypass,
  weights_inv m cur g ->
  let g' := (pump_slots j re current orders g transfer bypass).1.1 in
  weights_inv m cur g' /\ weight_core g' = weight_core g /\ same_ports weight_port g g' /\ nextPrefetch g' = nextPrefetch g.
Proof.
  induction orders as [|order orders IH]; intros g transfer bypass H; cbn zeta; cbn [pump_slots]; [done|].
  destruct (active g); cbn [negb]; [|done]. set (i := if _ : bool then _ else order).
  destruct (w_valid _ && _ && _).
  - apply (IH (bump gmDeferred_ 1 g)). done.
  - pose proof (pumpWeight_ok m cur re i g H) as P1. pose proof (pumpWeight_frame re i g) as (P2 & P3 & P4).
    destruct (pumpWeight j re i g) as [g1 admitted]. cbn [fst] in *.
    set (hn := w_valid _ && _ && _ && _). set (bp := admitted && hn && _).
    assert (Q : weights_inv m cur (bump_if bp headBypassAdmissions_ g1) /\
                weight_core (bump_if bp headBypassAdmissions_ g1) = weight_core g /\
                same_ports weight_port g (bump_if bp headBypassAdmissions_ g1) /\
                nextPrefetch (bump_if bp headBypassAdmissions_ g1) = nextPrefetch g) by (by destruct bp).
    destruct Q as (Q1 & Q2 & Q3 & Q4). destruct (_ && _ && hn && negb admitted); [done|].
    destruct (IH (bump_if bp headBypassAdmissions_ g1) (transfer || (w_valid (slots g i) && (w_dma (slots g i) || w_reading (slots g i) || w_pending (slots g i)))) (bypass || bp) Q1)
      as (I1 & I2 & I3 & I4).
    split; [done|]. split; [congruence|]. split; [by eapply same_ports_trans|congruence].
Qed.
End weights.

(** ** Activation reads *)

(** Everything of the GEMM the activation reads leave alone. *)
Definition input_core (g : ReuseWindowGemm) : ReuseWindowGemm :=
  g <| inputSlots := fun _ => InputSlot_new |> <| preparedSeq := 0 |> <| inputReading := false |>
    <| inputPending := false |> <| inputReady := false |> <| inputReadAddress := 0 |> <| inputOffset := 0 |>
    <| inputBytes := [] |> <| inputValues := [] |> <| calls := [] |> <| tag := 0 |> <| stats := [] |>.
Definition input_port (p : GemmPort) : bool := match p with PInput | PSlot _ => true | _ => false end.

Section activations.
Context (j : GemmJob) (input_data : Z -> list byte) (input_addr : Z -> Z).
Hypothesis Hrows : 1 <= rows j <= 64.
Hypothesis Hmax : 1 <= localMax j.
Hypothesis Hdata : forall s, blen (input_data s) = rows j * 128.
Hypothesis Haddr : forall s, 0 <= input_addr s /\ input_addr s + rows j * 128 <= 2 ^ 64.

(** A partial copy of tile [s] into [bytes], with the read that may be outstanding. *)
Definition copying (m : Z -> byte) (s addr off : Z) (bytes : list byte) : Prop :=
  addr = input_addr s /\ 0 <= off < rows j * 128 /\ blen bytes = rows j * 128 /\
  bslice 0 off bytes = bslice 0 off (input_data s) /\ holds m addr (input_data s).
Definition piece (off : Z) : Z := Z.min (localMax j) (rows j * 128 - off).

(** One stream, without snapshots. *)
Definition stream_ok (m : Z -> byte) (cur : Z) (g : ReuseWindowGemm) : Prop :=
  (preparedSeq g <> cur /\ inputReading g = false /\ inputPending g = false /\ on_port PInput (calls g) = []) \/
  (preparedSeq g = cur /\ inputReading g = true /\ inputReady g = false /\
   copying m cur (inputReadAddress g) (inputOffset g) (inputBytes g) /\
   on_port PInput (calls g) =
     if inputPending g then [ReadInput (inputReadAddress g ⊞ inputOffset g) (piece (inputOffset g))] else []) \/
  (preparedSeq g = cur /\ inputReading g = false /\ inputPending g = false /\ inputReady g = true /\
   inputValues g = ReuseWindowGemm_unpack (input_data cur) 2 /\ on_port PInput (calls g) = []).

Inductive snapshot_state (m : Z -> byte) (i s : Z) : InputSlot -> list Call -> Prop :=
  | snapshot_reading addr off bytes p vs : copying m s addr off bytes ->
      snapshot_state m i s (mkInputSlot true p false s off addr bytes vs)
        (if p : bool then [ReadInputSlot i (addr ⊞ off) (piece off)] else [])
  | snapshot_ready off addr bytes :
      snapshot_state m i s (mkInputSlot true false true s off addr bytes (ReuseWindowGemm_unpack (input_data s) 2)) [].
Definition snapshot_busy (m : Z -> byte) (cur limit i : Z) (s : InputSlot) (cs : list Call) : Prop :=
  cur <= i_seq s < cur + 2 /\ i_seq s < limit /\ i_seq s mod 2 = i /\ snapshot_state m i (i_seq s) s cs.
Definition snapshots_ok (m : Z -> byte) (cur limit : Z) (g : ReuseWindowGemm) : Prop :=
  (forall i, (i_valid (inputSlots g i) = false /\ on_port (PSlot i) (calls g) = []) \/
             snapshot_busy m cur limit i (inputSlots g i) (on_port (PSlot i) (calls g))) /\
  (preparedSeq g = cur -> cur < limit -> i_valid (inputSlots g (cur mod 2)) = true).

Definition inputs_inv (m : Z -> byte) (cur limit : Z) (g : ReuseWindowGemm) : Prop :=
  if inputPrefetch j then snapshots_ok m cur limit g /\ on_port PInput (calls g) = []
  else stream_ok m cur g /\ forall i, on_port (PSlot i) (calls g) = [].

Lemma snapshot_valid m i s w cs : snapshot_state m i s w cs -> i_valid w = true /\ i_seq w = s.
Proof. by destruct 1. Qed.
Lemma snapshot_calls m i s w cs : snapshot_state m i s w cs -> cs = [] \/ exists c, cs = [c].
Proof. destruct 1 as [? ? ? []|]; eauto. Qed.
Lemma snapshot_unread m i s w cs :
  snapshot_state m i s w cs -> i_ready w = false ->
  exists addr off bytes p vs, w = mkInputSlot true p false s off addr bytes vs /\ copying m s addr off bytes /\
    cs = if p : bool then [ReadInputSlot i (addr ⊞ off) (piece off)] else [].
Proof. destruct 1 as [addr off bytes p vs C|]; cbn; [|discriminate]. intros _. by exists addr, off, bytes, p, vs. Qed.
Lemma snapshot_read m i s w i' addr len :
  snapshot_state m i s w [ReadInputSlot i' addr len] -> i_ready w = false.
Proof. intros H. remember [ReadInputSlot i' addr len] as cs eqn:E. by destruct H as [? ? ? []|]. Qed.

Lemma copying_memory m m' s addr off bytes :
  copying m s addr off bytes -> (forall a, input_addr s <= a < input_addr s + rows j * 128 -> m' a = m a) ->
  copying m' s addr off bytes.
Proof.
  intros (C1 & C2 & C3 & C4 & C5) Hm. split; [done|]. split; [done|]. split; [done|]. split; [done|].
  eapply holds_same; [done|]. intros a Ha. rewrite Hdata in Ha. apply Hm. lia.
Qed.
(** A read that completes brings the next piece. *)
Lemma copying_next m s addr off bytes :
  copying m s addr off bytes ->
  mem_bytes m (addr ⊞ off) (piece off) = bslice off (piece off) (input_data s) /\
  blen (bslice off (piece off) (input_data s)) = piece off /\ 0 < piece off /\ off + piece off <= rows j * 128 /\
  let bytes' := copy_at off (bslice off (piece off) (input_data s)) bytes in
  blen bytes' = rows j * 128 /\ bslice 0 (off + piece off) bytes' = bslice 0 (off + piece off) (input_data s).
Proof.
  intros (-> & C2 & C3 & C4 & C5). pose proof (Hdata s) as Hl. pose proof (Haddr s) as Ha.
  set (len := piece off). assert (Hlen : 0 < len /\ off + len <= rows j * 128) by (unfold len, piece; lia).
  clearbody len. assert (Hb : blen (bslice off len (input_data s)) = len) by (apply bslice_length; lia).
  split; [|split; [done|split; [lia|split; [lia|split]]]].
  - unfold u64. rewrite Z.mod_small by lia. apply read_held; [done|lia|lia|lia].
  - rewrite copy_at_blen; lia.
  - apply copy_next; lia || done.
Qed.
Lemma copied_all s bytes : blen bytes = rows j * 128 ->
  bslice 0 (rows j * 128) bytes = bslice 0 (rows j * 128) (input_data s) -> bytes = input_data s.
Proof. intros H1 H2. rewrite <- (bslice_all bytes), H1, H2, <- (Hdata s). apply bslice_all. Qed.

(** Memory elsewhere may change. *)
Lemma inputs_memory m m' cur limit g :
  inputs_inv m cur limit g ->
  (forall s a, cur <= s < limit -> input_addr s <= a < input_addr s + rows j * 128 -> m' a = m a) ->
  (inputPrefetch j = false -> preparedSeq g = cur -> cur < limit) ->
  inputs_inv m' cur limit g.
Proof.
  unfold inputs_inv. intros H Hm Hlt. destruct (inputPrefetch j).
  - destruct H as [[H1 H2] H3]. split; [split; [|done]|done]. intros i.
    destruct (H1 i) as [F|(B1 & B2 & B3 & B4)]; [by left|right]. split; [done|]. split; [done|]. split; [done|].
    destruct B4 as [addr off bytes p vs C|off addr bytes]; [|constructor]. constructor.
    eapply copying_memory; [done|]. intros a Ha. apply (Hm (i_seq (inputSlots g i))); [lia|done].
  - destruct H as [[H|[(H1 & H2 & H3 & H4 & H5)|H]] Hi]; (split; [|done]); [by left| |by right; right].
    right; left. split; [done|]. split; [done|]. split; [done|]. split; [|done].
    eapply copying_memory; [done|]. intros a Ha. apply (Hm cur); [|done]. specialize (Hlt eq_refl H1). lia.
Qed.

(** *** The pump *)

Lemma bytes_in_row : Z.of_nat (input_bytes j) = rows j * 128.
Proof. unfold input_bytes. rewrite u32_id by (unfold in_u32; lia). lia. Qed.

(** One snapshot and its port replaced. *)
Lemma snapshots_replace m cur limit g g' i s w :
  snapshots_ok m cur limit g -> i_valid (inputSlots g i) = true -> i_seq (inputSlots g i) = s ->
  (forall q, q <> i -> inputSlots g' q = inputSlots g q) -> inputSlots g' i = w ->
  (forall p, p <> PSlot i -> on_port p (calls g') = on_port p (calls g)) -> preparedSeq g' = preparedSeq g ->
  snapshot_state m i s w (on_port (PSlot i) (calls g')) ->
  snapshots_ok m cur limit g'.
Proof.
  intros [H1 H2] Hv <- Hq <- Hp Hps Hw. pose proof (snapshot_valid _ _ _ _ _ Hw) as [V1 V2]. split.
  - intros q. destruct (decide (q = i)) as [->|Hn].
    + right. destruct (H1 i) as [[E _]|(B1 & B2 & B3 & _)]; [congruence|]. unfold snapshot_busy. rewrite V2. done.
    + rewrite Hq, Hp by congruence. apply H1.
  - rewrite Hps. intros E Hlt. destruct (decide (cur mod 2 = i)) as [->|Hn]; [done|]. rewrite Hq by done. by apply H2.
Qed.

Lemma pumpInputSlot_ok m cur limit re i g :
  inputPrefetch j = true -> inputs_inv m cur limit g ->
  let g' := pumpInputSlot j re i g in
  inputs_inv m cur limit g' /\ input_core g' = input_core g /\ same_ports input_port g g'.
Proof.
  unfold inputs_inv. intros Hpre H. rewrite Hpre in *. destruct H as [H HI]. cbv zeta. unfold pumpInputSlot.
  destruct (i_valid (inputSlots g i)) eqn:Ev; cbn [negb orb]; [|done].
  destruct (i_ready (inputSlots g i)) eqn:Er; cbn [negb orb]; [done|].
  destruct (i_pending (inputSlots g i)) eqn:Ep; cbn [negb orb]; [done|].
  destruct (accepts _ _).
  - set (g1 := set_input_slot _ _ _).
    assert (P : forall p, p <> PSlot i ->
      on_port p (calls g ++ [ReadInputSlot i (i_address (inputSlots g i) ⊞ i_offset (inputSlots g i))
        (Z.min (localMax j) (blen (i_bytes (inputSlots g i)) - i_offset (inputSlots g i)))]) = on_port p (calls g)).
    { intros p Hp. rewrite on_port_snoc, decide_False, app_nil_r by (cbn; congruence). done. }
    split; [split|split; [done|]].
    + apply (snapshots_replace m cur limit g _ i (i_seq (inputSlots g i)) ((inputSlots g i) <| i_pending := true |>));
        [done|done|done| | |exact P|done|].
      * intros q Hq. unfold g1. gemm_fields. by rewrite fn_lookup_insert_ne.
      * unfold g1. gemm_fields. by rewrite fn_lookup_insert.
      * change (calls (issue ?c g1)) with (calls g ++ [c]). rewrite on_port_snoc, decide_True by done.
        destruct H as [H _]. destruct (H i) as [[E _]|(_ & _ & _ & B)]; [congruence|].
        destruct (snapshot_unread _ _ _ _ _ B Er) as (addr & off & bytes & p & vs & Ew & C & Ec).
        rewrite Ew in Ep |- *. cbn in Ep. subst p. rewrite Ec. pose proof C as (_ & _ & Hb & _). cbn [i_bytes i_offset i_address]. rewrite Hb.
        exact (snapshot_reading m i _ addr off bytes true vs C).
    + change (calls (issue ?c g1)) with (calls g ++ [c]). rewrite P; [done|discriminate].
    + intros p Hp. change (calls (issue ?c g1)) with (calls g ++ [c]). apply P. intros ->. done.
  - done.
Qed.

Lemma pumpInput_ok m cur limit re g :
  inputs_inv m cur limit g ->
  let g' := pumpInput j re g in
  inputs_inv m cur limit g' /\ input_core g' = input_core g /\ same_ports input_port g g'.
Proof.
  intros H. cbv zeta. unfold pumpInput. destruct (inputPrefetch j) eqn:Hpre.
  - destruct (active g) eqn:Ea.
    + set (i1 := u32 _ mod 2). destruct (pumpInputSlot_ok m cur limit re i1 g Hpre H) as (S1 & S2 & S3).
      set (g1 := pumpInputSlot j re i1 g) in *. destruct (active g1); [|done]. set (i2 := u32 _ mod 2).
      destruct (pumpInputSlot_ok m cur limit re i2 g1 Hpre S1) as (T1 & T2 & T3).
      split; [done|]. split; [congruence|]. by eapply same_ports_trans.
    + rewrite Ea. done.
  - destruct (inputReading g) eqn:Er; cbn [negb orb]; [|done].
    destruct (inputPending g) eqn:Ep; cbn [negb orb]; [done|].
    destruct (accepts _ _); [|done]. unfold inputs_inv in *. rewrite Hpre in *. destruct H as [H HI].
    change (calls (issue ?c _)) with (calls g ++ [c]).
    split; [split|split; [done|]].
    + destruct H as [(_ & E & _)|[(H1 & H2 & H3 & H4 & H5)|(_ & E & _)]]; [congruence| |congruence].
      right; left. split; [done|]. split; [done|]. split; [done|]. split; [exact H4|].
      change (calls (issue ?c _)) with (calls g ++ [c]). rewrite on_port_snoc, decide_True by done. rewrite H5, Ep.
      pose proof H4 as (_ & _ & Hb & _). rewrite Hb. done.
    + intros i. rewrite on_port_snoc, decide_False, app_nil_r by done. apply HI.
    + intros p Hp. change (calls (issue ?c _)) with (calls g ++ [c]).
      rewrite on_port_snoc, decide_False, app_nil_r by (intros <-; done). done.
Qed.

(** *** Completions *)

Lemma input_read_ok m cur limit g l1 l2 addr len :
  inputs_inv m cur limit g -> calls g = l1 ++ ReadInput addr len :: l2 ->
  0 <= len /\ inputs_inv m cur limit (input_read len true (mem_bytes m addr len) (g <| calls := l1 ++ l2 |>)).
Proof.
  unfold inputs_inv. intros H E. pose proof (on_port_nil PInput l1 (ReadInput addr len) l2 eq_refl) as N.
  destruct (inputPrefetch j); destruct H as [H HI]; [by rewrite E in HI|].
  rewrite <- E in N. destruct H as [(_ & _ & _ & F)|[(H1 & H2 & H3 & H4 & H5)|(_ & _ & _ & _ & _ & F)]]; [done| |done].
  destruct (inputPending g); [|done]. rewrite E in H5.
  destruct (on_port_single _ _ _ _ _ eq_refl H5) as [Ec R]. injection Ec as -> ->.
  destruct (copying_next _ _ _ _ _ H4) as (C1 & C2 & C3 & C4 & C5 & C6). pose proof H4 as (A1 & A2 & A3 & A4 & A5).
  assert (HI' : forall i, on_port (PSlot i) (l1 ++ l2) = []).
  { intros i. specialize (HI i). by rewrite E, on_port_other in HI. }
  split; [lia|]. unfold input_read. rewrite C1, C2, Z.eqb_refl. cbn [negb orb]. gemm_fields. rewrite C5.
  destruct (Z.eqb_spec (inputOffset g + piece (inputOffset g)) (rows j * 128)) as [Hd|Hd]; gemm_fields; (split; [|exact HI']).
  - right; right. unfold stream_ok. gemm_fields. repeat (split; [done|]). split; [|done]. f_equal. apply copied_all; [done|].
    rewrite <- Hd at 1. rewrite C6. by rewrite Hd.
  - right; left. unfold stream_ok. gemm_fields. repeat (split; [done|]). split; [|done]. repeat (split; [done || lia|]). done.
Qed.

Lemma input_slot_read_ok m cur limit g l1 l2 i addr len :
  inputs_inv m cur limit g -> calls g = l1 ++ ReadInputSlot i addr len :: l2 ->
  0 <= len /\ inputs_inv m cur limit (input_slot_read i len true (mem_bytes m addr len) (g <| calls := l1 ++ l2 |>)).
Proof.
  unfold inputs_inv. intros H E. pose proof (on_port_nil (PSlot i) l1 (ReadInputSlot i addr len) l2 eq_refl) as N. rewrite <- E in N.
  destruct (inputPrefetch j); destruct H as [H HI]; [|by rewrite HI in N].
  pose proof H as [H1 _]. destruct (H1 i) as [[_ F]|(_ & _ & _ & B)]; [done|].
  assert (S : exists c', on_port (PSlot i) (calls g) = [c']) by (by destruct (snapshot_calls _ _ _ _ _ B)).
  destruct S as [c' S]. rewrite E in S. destruct (on_port_single (PSlot i) _ (ReadInputSlot i addr len) _ _ eq_refl S) as [<- R]. rewrite E, S in B.
  pose proof (snapshot_read _ _ _ _ _ _ _ B) as Er. remember (i_seq (inputSlots g i)) as s eqn:Es.
  destruct (snapshot_unread _ _ _ _ _ B Er) as (addr' & off & bytes & p & vs & Ew & C & Ec).
  destruct p; [|done]. injection Ec as -> ->.
  destruct (copying_next _ _ _ _ _ C) as (C1 & C2 & C3 & C4 & C5 & C6). pose proof C as (A1 & A2 & A3 & A4 & A5).
  assert (HI' : on_port PInput (l1 ++ l2) = []) by (by rewrite E, on_port_other in HI).
  split; [lia|]. unfold input_slot_read. rewrite C1, C2, Z.eqb_refl. cbn [negb orb]. gemm_fields.
  split; [|exact HI'].
  eapply (snapshots_replace m cur limit g _ i s); [done|by rewrite Ew|done| |reflexivity| |done|].
  - intros q Hq. gemm_fields. by rewrite !fn_lookup_insert_ne.
  - intros q Hq. rewrite E. symmetry. by apply on_port_other.
  - gemm_fields. rewrite R, !fn_lookup_insert, Ew. cbn [i_offset i_bytes]. read_fields. cbn [i_offset i_bytes i_pending]. rewrite C5.
    destruct (Z.eqb_spec (off + piece off) (rows j * 128)) as [Hd|Hd].
    + assert (Eb : copy_at off (bslice off (piece off) (input_data s)) bytes = input_data s).
      { apply copied_all; [done|]. rewrite <- Hd at 1. rewrite C6. by rewrite Hd. }
      rewrite Eb. apply snapshot_ready.
    + apply (snapshot_reading m i s addr' (off + piece off) _ false vs). repeat (split; [done || lia|]). done.
Qed.

(** *** Preparation and consumption *)

(** The arrays are about to take tile [cur] from a ready snapshot. *)
Lemma inputs_ready m cur limit g :
  inputs_inv m cur limit g -> preparedSeq g = cur -> cur < limit -> input_is_ready j g = true ->
  current_input j g = ReuseWindowGemm_unpack (input_data cur) 2.
Proof.
  unfold inputs_inv, input_is_ready, current_input. intros H Hps Hlt Hr. destruct (inputPrefetch j); destruct H as [H HI].
  - rewrite Hps in *. destruct H as [H1 H2]. specialize (H2 Hps Hlt).
    destruct (H1 (cur mod 2)) as [[F _]|(B1 & B2 & B3 & B4)]; [congruence|].
    assert (E : i_seq (inputSlots g (cur mod 2)) = cur).
    { pose proof (Z.div_mod (i_seq (inputSlots g (cur mod 2))) 2 ltac:(lia)).
      pose proof (Z.div_mod cur 2 ltac:(lia)). lia. }
    rewrite E in B4. revert Hr. by destruct B4.
  - destruct H as [(F & _)|[(_ & _ & F & _)|(_ & _ & _ & _ & F & _)]]; congruence.
Qed.

(** Tile [cur] was launched: its snapshot is dropped and [cur + 1] comes next. *)
Lemma inputs_consume m cur limit g :
  inputs_inv m cur limit g -> preparedSeq g = cur -> cur < limit -> input_is_ready j g = true ->
  let g1 := g <| inputValues := [] |> in
  inputs_inv m (cur + 1) limit (if inputPrefetch j then set_input_slot (cur mod 2) (fun _ => InputSlot_new) g1 else g1).
Proof.
  unfold inputs_inv, input_is_ready. intros H Hps Hlt Hr. cbv zeta. destruct (inputPrefetch j); destruct H as [H HI].
  - split; [|exact HI]. destruct H as [H1 H2]. specialize (H2 Hps Hlt). rewrite Hps in Hr.
    destruct (H1 (cur mod 2)) as [[F _]|(B1 & B2 & B3 & B4)]; [congruence|].
    assert (Ec : on_port (PSlot (cur mod 2)) (calls g) = []) by (revert Hr; by destruct B4).
    split.
    + intros i. gemm_fields. destruct (decide (i = cur mod 2)) as [->|Hi].
      * rewrite fn_lookup_insert. by left.
      * rewrite fn_lookup_insert_ne by done. destruct (H1 i) as [F|(D1 & D2 & D3 & D4)]; [by left|right].
        assert (i_seq (inputSlots g i) <> cur) by congruence.
        split; [lia|]. done.
    + gemm_fields. lia.
  - split; [|exact HI]. left. gemm_fields. split; [lia|].
    destruct H as [H|[(_ & _ & F & _)|H]]; [tauto|congruence|tauto].
Qed.

Lemma same_parity cur s t : cur <= s < cur + 2 -> cur <= t < cur + 2 -> s mod 2 = t mod 2 -> s = t.
Proof. intros Hs Ht E. pose proof (Z.div_mod s 2 ltac:(lia)). pose proof (Z.div_mod t 2 ltac:(lia)). lia. Qed.

Definition snapshots_busy (m : Z -> byte) (cur limit : Z) (g : ReuseWindowGemm) : Prop :=
  forall i, (i_valid (inputSlots g i) = false /\ on_port (PSlot i) (calls g) = []) \/
            snapshot_busy m cur limit i (inputSlots g i) (on_port (PSlot i) (calls g)).

Lemma prepare_slot_ok m cur limit seq g :
  snapshots_busy m cur limit g -> cur <= seq < cur + 2 -> seq < limit -> active g = true ->
  holds m (input_addr seq) (input_data seq) -> input_address j g (seq mod kCount g) = input_addr seq ->
  let g' := prepare_slot j seq g in
  snapshots_busy m cur limit g' /\ i_valid (inputSlots g' (seq mod 2)) = true /\
  (forall i, i_valid (inputSlots g i) = true -> i_valid (inputSlots g' i) = true) /\
  g' <| inputSlots := fun _ => InputSlot_new |> = g <| inputSlots := fun _ => InputSlot_new |>.
Proof.
  intros H Hseq Hlt Ha Hh Haddr'. cbv zeta. unfold prepare_slot. rewrite Ha. cbn [negb].
  destruct (i_valid (inputSlots g (seq mod 2))) eqn:Ev.
  - destruct (H (seq mod 2)) as [[F _]|(B1 & B2 & B3 & _)]; [congruence|].
    rewrite (same_parity cur _ seq B1 Hseq B3), Z.eqb_refl. done.
  - destruct (H (seq mod 2)) as [[_ Ec]|(_ & _ & _ & B)]; [|destruct (snapshot_valid _ _ _ _ _ B); congruence].
    split; [|split; [|split; [|done]]].
    + intros i. gemm_fields. destruct (decide (i = seq mod 2)) as [->|Hi].
      * rewrite fn_lookup_insert. right. rewrite Ec, Haddr'. split; [done|]. split; [done|]. split; [done|].
        apply (snapshot_reading m (seq mod 2) seq (input_addr seq) 0 _ false []). split; [done|]. split; [lia|].
        split; [unfold blen; rewrite length_replicate; apply bytes_in_row|]. split; [|done]. by rewrite !bslice_take.
      * rewrite fn_lookup_insert_ne by done. apply H.
    + gemm_fields. by rewrite fn_lookup_insert.
    + intros i Hi. gemm_fields. destruct (decide (i = seq mod 2)) as [->|Hn]; [by rewrite fn_lookup_insert|by rewrite fn_lookup_insert_ne].
Qed.

Lemma prepareInput_ok m cur limit g :
  inputs_inv m cur limit g -> 0 <= cur < limit -> limit < 2 ^ 32 - 2 -> active g = true -> sequenceLimit j g = limit ->
  (forall s, cur <= s < limit -> s < cur + 2 -> holds m (input_addr s) (input_data s)) ->
  (inputPrefetch j = true -> forall s, cur <= s < limit -> s < cur + 2 -> input_address j g (s mod kCount g) = input_addr s) ->
  (inputPrefetch j = false -> input_address j g (k g) = input_addr cur) ->
  let g' := prepareInput j cur g in
  inputs_inv m cur limit g' /\ preparedSeq g' = cur /\ input_core g' = input_core g /\ calls g' = calls g.
Proof.
  intros H Hcur Hlim Ha Hl Hh Hpa Hsa. cbv zeta. unfold prepareInput.
  destruct (Z.eqb_spec (preparedSeq g) cur) as [|Hne]; [done|].
  unfold inputs_inv in *. destruct (inputPrefetch j) eqn:Hpre.
  - destruct H as [[H1 H2] HI]. rewrite !u32_id by (unfold in_u32; lia).
    set (g1 := bump_if _ _ _).
    assert (F : snapshots_busy m cur limit g1 /\ active g1 = true /\ sequenceLimit j g1 = limit /\ kCount g1 = kCount g /\
                input_core g1 = input_core g /\ calls g1 = calls g /\ preparedSeq g1 = cur /\
                (forall s, input_address j g1 s = input_address j g s)).
    { unfold g1, bump_if. destruct (_ && _ && _); (split; [exact H1|]); (split; [exact Ha|]); (split; [exact Hl|]); done. }
    clearbody g1. destruct F as (F1 & F2 & F3 & F4 & F5 & F6 & F7 & F8). rewrite F3.
    rewrite (proj2 (Z.ltb_lt cur (Z.min (cur + 2) limit))) by lia.
    destruct (prepare_slot_ok m cur limit cur g1) as (P1 & P2 & P3 & P4); try done; try lia.
    { by apply Hh; lia. } { rewrite F4, F8. apply Hpa; lia. }
    set (g2 := prepare_slot j cur g1) in *.
    assert (G2 : active g2 = true /\ kCount g2 = kCount g /\ input_core g2 = input_core g1 /\ calls g2 = calls g1 /\
                 preparedSeq g2 = cur /\ (forall s, input_address j g2 s = input_address j g s)).
    { split; [|split; [|split; [|split; [|split]]]].
      - change (active (g2 <| inputSlots := fun _ => InputSlot_new |>) = true). by rewrite P4.
      - change (kCount (g2 <| inputSlots := fun _ => InputSlot_new |>) = kCount g). by rewrite P4.
      - change (input_core (g2 <| inputSlots := fun _ => InputSlot_new |>) = input_core g1). by rewrite P4.
      - change (calls (g2 <| inputSlots := fun _ => InputSlot_new |>) = calls g1). by rewrite P4.
      - change (preparedSeq (g2 <| inputSlots := fun _ => InputSlot_new |>) = cur). by rewrite P4.
      - intros s. change (input_address j (g2 <| inputSlots := fun _ => InputSlot_new |>) s = input_address j g s).
        rewrite P4. apply F8. }
    clearbody g2. destruct G2 as (A1 & A2 & A3 & A4 & A5 & A6).
    set (g3 := if cur + 1 <? _ then _ else g2).
    assert (G3 : snapshots_busy m cur limit g3 /\ i_valid (inputSlots g3 (cur mod 2)) = true /\ active g3 = true /\
                 input_core g3 = input_core g /\ calls g3 = calls g /\ preparedSeq g3 = cur).
    { unfold g3. destruct (Z.ltb_spec (cur + 1) (Z.min (cur + 2) limit)) as [Hlt|Hge].
      - destruct (prepare_slot_ok m cur limit (cur + 1) g2) as (Q1 & Q2 & Q3 & Q4); try done; try lia.
        { by apply Hh; lia. } { rewrite A2, A6. apply Hpa; lia. }
        set (g4 := prepare_slot j (cur + 1) g2) in *. split; [done|]. split; [by apply Q3|]. split; [|split; [|split]].
        + change (active (g4 <| inputSlots := fun _ => InputSlot_new |>) = true). by rewrite Q4.
        + change (input_core (g4 <| inputSlots := fun _ => InputSlot_new |>) = input_core g). rewrite Q4.
          etransitivity; [exact A3|done].
        + change (calls (g4 <| inputSlots := fun _ => InputSlot_new |>) = calls g). rewrite Q4.
          etransitivity; [exact A4|done].
        + change (preparedSeq (g4 <| inputSlots := fun _ => InputSlot_new |>) = cur). by rewrite Q4.
      - split; [done|]. split; [done|]. split; [done|]. split; [congruence|]. split; [congruence|done]. }
    destruct G3 as (G31 & G32 & G33 & G34 & G35 & G36). rewrite G33. cbn [negb].
    split; [|split; [exact G36|split; [exact G34|exact G35]]].
    split; [split; [exact G31|intros _ _; exact G32]|]. gemm_fields. by rewrite G35.
  - specialize (Hsa eq_refl). destruct H as [H HI]. split; [|done]. split; [|exact HI].
    destruct H as [(S1 & S2 & S3 & S4)|[(E & _)|(E & _)]]; [|done|done].
    right; left. unfold stream_ok. gemm_fields. split; [done|]. split; [done|]. split; [done|]. split; [|exact S4].
    split; [exact Hsa|]. split; [lia|]. split; [unfold blen; rewrite length_replicate; apply bytes_in_row|].
    split; [by rewrite !bslice_take|]. change (input_address j _ (k _)) with (input_address j g (k g)). rewrite Hsa. apply Hh; lia.
Qed.
End activations.
