(* ===== verification/GemmPumps.v ===== *)
(** * The pumps feed the next step

    In surroundings that accept every read, one tick asks for the next piece of the weight
    tile the arrays wait for, and of the activations of the prepared step. *)

From Stdlib Require Import ZArith Lia.
From Stdlib Require Import Init.Byte.
From stdpp Require Import base numbers functions list.
From S2P Require Import Prelude RecordUpdate Ieee Fp16 AttentionBase ComputeUnit TileArray ControlTransport WindowGemm GemmValues GemmSystem GemmArrays GemmSlots.
Open Scope Z_scope.

Section pumps.
Context (j : GemmJob).
Hypothesis Hslots : 1 <= slotCount j <= 4.
Hypothesis Hlook : 1 <= gmLookahead j.
Context (re : Replies).
Hypothesis Hre : forall t, accepts re t = true.

(** The slot that the loop over the weight slots looks at for [order]. *)
Definition visit (current order : Z) : Z :=
  if ga_demandOrder (args j) then u32 (current + order) mod slotCount j else order.
(** The slot waits for data: another piece of it can be asked for. *)
Definition asking (current : Z) (s : WeightSlot) : Prop := w_valid s = true /\ w_seq s = current /\ w_reading s = true.
Definition asked (b : bool) (s : WeightSlot) : WeightSlot := s <| w_pending := w_pending s || b |>.

Lemma asked_false s : asked false s = s.
Proof using Type. by destruct s as [? ? ? [] ? ? ? ?]. Qed.
Lemma asked_twice b b' s : asked b' (asked b s) = asked (b || b') s.
Proof using Type. destruct s as [? ? ? [] ? ? ? ?], b, b'; reflexivity. Qed.
Lemma asking_asked current b s : asking current s -> asking current (asked b s).
Proof using Type. done. Qed.

Lemma pumpWeight_asked current q g i :
  asking current (slots g q) ->
  slots (pumpWeight j re i g).1 q = asked (bool_decide (i = q)) (slots g q) /\ active (pumpWeight j re i g).1 = active g /\
  (i = q -> (pumpWeight j re i g).2 = negb (w_pending (slots g q))).
Proof using Hre.
  intros (A1 & A2 & A3). unfold pumpWeight. destruct (decide (i = q)) as [->|Hne].
  - rewrite bool_decide_eq_true_2, A1, A3 by done. cbn [negb orb]. destruct (w_pending (slots g q)) eqn:Ep; cbn [fst snd].
    + split; [|done]. unfold asked. rewrite Ep. destruct (slots g q); cbn in *. by subst.
    + rewrite Hre. cbn [fst snd]. split; [|done]. gemm_fields. rewrite fn_lookup_insert. unfold asked. by rewrite Ep.
  - rewrite bool_decide_eq_false_2, asked_false by done. destruct (_ || _); [done|]. rewrite Hre. cbn [fst snd]. split; [|done].
    gemm_fields. by rewrite fn_lookup_insert_ne.
Qed.
Lemma pump_slots_asked current orders : 0 <= current -> current + gmLookahead j < 2 ^ 32 ->
  let q := current mod slotCount j in
  forall g transfer bypass, active g = true -> asking current (slots g q) ->
  slots (pump_slots j re current orders g transfer bypass).1.1 q = asked (bool_decide (q ∈ map (visit current) orders)) (slots g q).
Proof using Hslots Hlook Hre.
  intros H0 Hc q. induction orders as [|order orders IH]; intros g transfer bypass Ha As; cbn [pump_slots map fst].
  { by rewrite bool_decide_eq_false_2, asked_false by (by apply not_elem_of_nil). }
  rewrite Ha. cbn [negb]. change (if ga_demandOrder (args j) then _ else order) with (visit current order).
  set (i := visit current order). set (orders' := map (visit current) orders).
  assert (Em : bool_decide (q ∈ i :: orders') = bool_decide (i = q) || bool_decide (q ∈ orders')).
  { apply eq_true_iff_eq. rewrite orb_true_iff, !bool_decide_eq_true, elem_of_cons. intuition congruence. }
  rewrite Em. pose proof As as (A1 & A2 & A3).
  destruct (w_valid (slots g i) && w_reading (slots g i) && (u32 (current + gmLookahead j) <=? w_seq (slots g i))) eqn:Ed.
  { assert (Hne : i <> q).
    { intros E. rewrite E, A2, u32_id in Ed by (unfold in_u32; lia). boolify. lia. }
    rewrite bool_decide_eq_false_2 by done. by apply (IH (bump gmDeferred_ 1 g)). }
  destruct (pumpWeight_asked current q g i As) as (P1 & P2 & P3).
  destruct (pumpWeight j re i g) as [g1 admitted]. cbn [fst snd] in P1, P2, P3. fold q. rewrite A1, A2, A3, Z.eqb_refl. cbn [andb].
  set (bp := admitted && negb (w_pending (slots g q)) && _).
  assert (Q : slots (bump_if bp headBypassAdmissions_ g1) = slots g1 /\ active (bump_if bp headBypassAdmissions_ g1) = active g1) by (by destruct bp).
  destruct Q as [Q1 Q2].
  assert (Ex : ga_demandOrder (args j) && (i =? q) && negb (w_pending (slots g q)) && negb admitted = false).
  { destruct (Z.eqb_spec i q) as [E|E]; [|by rewrite andb_false_r]. rewrite (P3 E). by destruct (ga_demandOrder _), (w_pending _). }
  rewrite Ex. rewrite IH; [by rewrite Q1, P1, asked_twice|congruence|]. rewrite Q1, P1. by apply asking_asked.
Qed.
(** The head is among the slots the loop looks at. *)
Lemma head_visited current : 0 <= current < 2 ^ 32 ->
  current mod slotCount j ∈ map (visit current) (map Z.of_nat (seq 0 (Z.to_nat (slotCount j)))).
Proof using Hslots.
  intros Hc. apply list_elem_of_fmap. unfold visit. destruct (ga_demandOrder (args j)).
  - exists 0. split; [by rewrite Z.add_0_r, u32_id by (unfold in_u32; lia)|].
    apply list_elem_of_fmap. exists 0%nat. split; [done|]. apply list_elem_of_In, in_seq. lia.
  - exists (current mod slotCount j). split; [done|]. pose proof (Z.mod_pos_bound current (slotCount j)).
    apply list_elem_of_fmap. exists (Z.to_nat (current mod slotCount j)). split; [lia|]. apply list_elem_of_In, in_seq. lia.
Qed.

(** *** Activations *)

(** What each pump leaves alone. *)
Definition weight_fields (g : ReuseWindowGemm) := (slots g, active g, currentSequence j g).
Definition input_fields (g : ReuseWindowGemm) := (inputSlots g, preparedSeq g, inputReading g, inputPending g, inputOffset g, active g).
Lemma pumpInput_fields g : weight_fields (pumpInput j re g) = weight_fields g.
Proof using Type.
  assert (Ks : forall i x, weight_fields (pumpInputSlot j re i x) = weight_fields x).
  { intros i x. unfold pumpInputSlot. destruct (_ || _); [done|]. by destruct (accepts _ _). }
  unfold pumpInput. destruct (inputPrefetch j).
  - set (g1 := if active g then _ else g). assert (E : weight_fields g1 = weight_fields g) by (unfold g1; destruct (active g); [apply Ks|done]).
    rewrite <- E. destruct (active g1); [apply Ks|done].
  - destruct (_ || _); [done|]. by destruct (accepts _ _).
Qed.
Lemma pump_slots_fields current orders : forall g transfer bypass,
  input_fields (pump_slots j re current orders g transfer bypass).1.1 = input_fields g.
Proof using Type.
  induction orders as [|order orders IH]; intros g transfer bypass; cbn [pump_slots]; [done|].
  destruct (active g); cbn [negb]; [|done]. set (i := if _ : bool then _ else order).
  destruct (w_valid _ && _ && _); [by rewrite IH|].
  assert (K : input_fields (pumpWeight j re i g).1 = input_fields g).
  { unfold pumpWeight. destruct (negb _ || _ || _); [done|]. by destruct (accepts _ _). }
  destruct (pumpWeight j re i g) as [g1 admitted]. cbn [fst] in K. set (hn := w_valid _ && _ && _ && _). set (bp := admitted && hn && _).
  assert (Q : input_fields (bump_if bp headBypassAdmissions_ g1) = input_fields g) by (rewrite <- K; by destruct bp).
  destruct (_ && _ && hn && negb admitted); cbn [fst]; [exact Q|]. by rewrite IH.
Qed.

(** The read under way, in either mode. *)
Definition input_missing (g : ReuseWindowGemm) : bool :=
  if inputPrefetch j
  then i_valid (inputSlots g (preparedSeq g mod 2)) && negb (i_ready (inputSlots g (preparedSeq g mod 2)))
  else inputReading g.
Definition input_asked (g : ReuseWindowGemm) : bool :=
  if inputPrefetch j then i_pending (inputSlots g (preparedSeq g mod 2)) else inputPending g.
Definition input_offset (g : ReuseWindowGemm) : Z :=
  if inputPrefetch j then i_offset (inputSlots g (preparedSeq g mod 2)) else inputOffset g.

Lemma pumpInputSlot_asked i q g :
  let s := inputSlots g q in i_valid s = true -> i_ready s = false ->
  inputSlots (pumpInputSlot j re i g) q = s <| i_pending := i_pending s || bool_decide (i = q) |> /\
  active (pumpInputSlot j re i g) = active g /\ preparedSeq (pumpInputSlot j re i g) = preparedSeq g.
Proof using Hre.
  intros s Hv Hr. assert (Es : s <| i_pending := i_pending s |> = s) by (unfold s; by destruct (inputSlots g q)). unfold pumpInputSlot. destruct (decide (i = q)) as [->|Hne].
  - fold s. rewrite bool_decide_eq_true_2, Hv, Hr by done. cbn [negb orb]. destruct (i_pending s) eqn:Ep.
    + split; [|done]. cbn [orb]. by rewrite Es.
    + rewrite Hre. split; [|done]. gemm_fields. by rewrite fn_lookup_insert.
  - rewrite bool_decide_eq_false_2, orb_false_r by done.
    rewrite Es.
    destruct (_ || _); [done|]. rewrite Hre. split; [|done]. gemm_fields. by rewrite fn_lookup_insert_ne.
Qed.
Lemma pumpInput_asked g : active g = true -> 0 <= preparedSeq g < 2 ^ 32 -> input_missing g = true ->
  input_asked (pumpInput j re g) = true /\ input_offset (pumpInput j re g) = input_offset g.
Proof using Hre.
  intros Ha Hp. unfold input_missing, input_asked, input_offset, pumpInput. destruct (inputPrefetch j).
  - intros H. apply andb_true_iff in H as [Hv Hr]. apply negb_true_iff in Hr. rewrite Ha, u32_id by done.
    set (q := preparedSeq g mod 2) in *. destruct (pumpInputSlot_asked q q g Hv Hr) as (E1 & E2 & E3).
    rewrite bool_decide_eq_true_2, orb_true_r in E1 by done. set (g1 := pumpInputSlot j re q g) in *. rewrite E2, Ha.
    set (i := u32 (preparedSeq g1 + 1) mod 2).
    destruct (pumpInputSlot_asked i q g1) as (F1 & F2 & F3); [by rewrite E1|by rewrite E1|].
    rewrite F3, E3. fold q. rewrite F1, E1. by split.
  - intros Hr. rewrite Hr. cbn [negb orb]. destruct (inputPending g) eqn:Ep; [done|]. by rewrite Hre.
Qed.

(** *** One tick's transfers *)

Lemma transfers_weight g current : let q := current mod slotCount j in
  active g = true -> currentSequence j g = current -> 0 <= current -> current + gmLookahead j < 2 ^ 32 -> asking current (slots g q) ->
  slots (tick_transfers j re g) q = asked true (slots g q).
Proof using Hslots Hlook Hre.
  intros q Ha Ec H0 Hc As. unfold tick_transfers. cbv zeta. set (g1 := if aFirst j then _ else g).
  assert (E1 : weight_fields g1 = weight_fields g) by (unfold g1; destruct (aFirst j); [apply pumpInput_fields|done]). clearbody g1.
  injection E1 as E1s E1a E1c. rewrite E1a, Ha. cbn [negb]. rewrite E1c, Ec.
  pose proof (pump_slots_asked current (map Z.of_nat (seq 0 (Z.to_nat (slotCount j)))) H0 Hc g1 false false) as P.
  rewrite E1a, E1s in P. specialize (P Ha As). rewrite bool_decide_eq_true_2 in P by (apply head_visited; lia).
  pose proof (pump_slots_fields current (map Z.of_nat (seq 0 (Z.to_nat (slotCount j)))) g1 false false) as F.
  destruct (pump_slots _ _ _ _ _ _ _) as [[g2 transfer] bypass]. cbn [fst] in P, F. injection F as _ _ _ _ _ Fa.
  set (g3 := bump_if bypass headBypassCycles_ g2). assert (E3 : slots g3 = slots g2 /\ active g3 = active g2) by (unfold g3; by destruct bypass).
  destruct E3 as [E3s E3a]. clearbody g3. rewrite E3a, Fa, E1a, Ha. cbn [negb].
  set (g4 := if aFirst j then g3 else _). assert (E4 : weight_fields g4 = weight_fields g3) by (unfold g4; destruct (aFirst j); [done|apply pumpInput_fields]).
  clearbody g4. injection E4 as E4s E4a _. unfold q. rewrite <- P, <- E3s, <- E4s.
  destruct (negb (active g4)); [done|]. by destruct (_ && transfer).
Qed.
Lemma input_view g g' : input_fields g' = input_fields g ->
  input_asked g' = input_asked g /\ input_offset g' = input_offset g /\ input_missing g' = input_missing g /\
  active g' = active g /\ preparedSeq g' = preparedSeq g.
Proof using Type. unfold input_asked, input_offset, input_missing. intros [= -> -> -> -> -> ->]. done. Qed.
Lemma transfers_input g :
  active g = true -> 0 <= preparedSeq g < 2 ^ 32 -> input_missing g = true ->
  input_asked (tick_transfers j re g) = true /\ input_offset (tick_transfers j re g) = input_offset g.
Proof using Hre.
  intros Ha Hp Hm. unfold tick_transfers. cbv zeta. destruct (aFirst j).
  - destruct (pumpInput_asked g Ha Hp Hm) as [<- <-]. pose proof (pumpInput_fields g) as E. injection E as _ Ea _. set (g1 := pumpInput j re g) in *.
    clearbody g1. rewrite Ea, Ha. cbn [negb].
    pose proof (pump_slots_fields (currentSequence j g1) (map Z.of_nat (seq 0 (Z.to_nat (slotCount j)))) g1 false false) as F.
    destruct (pump_slots _ _ _ _ _ _ _) as [[g2 transfer] bypass]. cbn [fst] in F.
    assert (F3 : input_fields (bump_if bypass headBypassCycles_ g2) = input_fields g1) by (rewrite <- F; by destruct bypass).
    apply input_view in F3 as (F3 & F4 & _ & F5 & _). set (g3 := bump_if _ _ _) in *. clearbody g3. rewrite F5, Ea, Ha. cbn [negb].
    rewrite <- F3, <- F4. by destruct (_ && transfer).
  - rewrite Ha. cbn [negb].
    pose proof (pump_slots_fields (currentSequence j g) (map Z.of_nat (seq 0 (Z.to_nat (slotCount j)))) g false false) as F.
    destruct (pump_slots _ _ _ _ _ _ _) as [[g2 transfer] bypass]. cbn [fst] in F.
    assert (F3 : input_fields (bump_if bypass headBypassCycles_ g2) = input_fields g) by (rewrite <- F; by destruct bypass).
    apply input_view in F3 as (_ & F4 & F3 & F5 & F6). set (g3 := bump_if _ _ _) in *. clearbody g3. rewrite F5, Ha. cbn [negb].
    rewrite <- F4. rewrite <- F5 in Ha. rewrite <- F6 in Hp. rewrite <- F3 in Hm. destruct (pumpInput_asked g3 Ha Hp Hm) as [<- <-].
    destruct (negb _); [done|]. by destruct (_ && transfer).
Qed.

End pumps.
