(* ===== verification/GemmInvariant.v ===== *)
(** * The invariant of the window GEMM

    Where a job is ([GemmStage]: the function the continuation will call or the call it waits
    for, with the window, the tile and the reduction step), what every part of the system
    holds there, and that the parts do not disturb each other. *)

From Stdlib Require Import ZArith Lia.
From Stdlib Require Import Init.Byte.
From stdpp Require Import base numbers functions list.
From S2P Require Import Prelude RecordUpdate Ieee Fp16 AttentionBase ComputeUnit TileArray ControlTransport WindowGemm GemmValues GemmSystem GemmArrays GemmSlots.
Open Scope Z_scope.

(** The part of a tile's work that is under way, by array group. *)
Inductive TilePhase :=
  | Acquiring
  | Broadcasting (q : Z) (w : bool)
  | Scattering (q : Z) (w : bool)
  | Launching (q : Z).

(** A flag [w] is set when the call was accepted and is awaited. *)
Inductive GemmStage :=
  | SBegin (base kb : Z)
  | SAsk (base kb i : Z) (w : bool)
  | SLoad (base kb i off : Z) (w : bool)
  | SRestore (base kb nn : Z)
  | SRead (base kb nn off : Z) (w : bool)
  | SInitial (base nn : Z)
  | SProgC (base kb nn : Z) (w : bool)
  | STile (base kb nn kk : Z) (ph : TilePhase)
  | SDrain (base kb nn : Z) (w : bool)
  | SSpill (base kb nn off : Z) (w : bool)
  | SEnd (base kb nn : Z) (parked : bool)
  | SFinish
  | SDone.

Section invariant.
Context (j : GemmJob) (cfg : TileUnitConfig) (host : Z -> byte) (inputs initials : Z -> Values) (m0 : Z -> byte).

(** ** What a job asks of its arguments *)

Definition disjoint (a x b y : Z) : Prop := a + x <= b \/ b + y <= a.
Record job_ok : Prop := mkJobOk {
  ok_rows : 1 <= rows j <= 64;
  ok_kTiles : 1 <= kTiles j;
  ok_tiles : 1 <= tile_count j;
  ok_sequence : tile_count j * kTiles j < 2 ^ 32 - 2;
  ok_window : 1 <= kWindow j <= 32;
  ok_slots : 1 <= slotCount j <= 4;
  ok_groups : groups j = (if 32 <? rows j then groups j else 1) /\ (groups j = 1 \/ groups j = 2);
  ok_wave : scatterWave j = true -> groups j = 2;
  ok_bridge : bridgeWeights j = true -> kTiles j <= kWindow j;
  ok_lease : bridgeWeights j = true -> earlyA j = true -> ga_acquire (args j) = true -> tile_count j <= 4;
  ok_max : 1 <= localMax j;
  ok_a : 0 <= aBase j /\ aBase j + Z.min (kWindow j) (kTiles j) * rows j * 128 <= 2 ^ 64;
  ok_b : 0 <= bBase j /\ bBase j + slotCount j * 8192 <= 2 ^ 64;
  ok_c : 0 <= cBase j /\ cBase j + Z.min 4 (tile_count j) * rows j * 256 <= 2 ^ 64;
  ok_ab : disjoint (aBase j) (Z.min (kWindow j) (kTiles j) * rows j * 128) (bBase j) (slotCount j * 8192);
  ok_ac : disjoint (aBase j) (Z.min (kWindow j) (kTiles j) * rows j * 128) (cBase j) (Z.min 4 (tile_count j) * rows j * 256);
  ok_bc : disjoint (bBase j) (slotCount j * 8192) (cBase j) (Z.min 4 (tile_count j) * rows j * 256);
  (** resident activations are in range and outside the job's own regions *)
  ok_resident : forall f kk, ga_inputAddress (args j) = Some f -> 0 <= kk < kTiles j ->
    0 <= f kk /\ f kk + rows j * 128 <= 2 ^ 64 /\
    disjoint (f kk) (rows j * 128) (bBase j) (slotCount j * 8192) /\
    disjoint (f kk) (rows j * 128) (cBase j) (Z.min 4 (tile_count j) * rows j * 256);
  (** the callbacks deliver whole tiles *)
  ok_inputs : forall kk, ga_inputAddress (args j) = None -> 0 <= kk < kTiles j -> Z.of_nat (length (inputs kk)) = rows j * 64;
  ok_initials : forall t, ga_initial (args j) = true -> Z.of_nat (length (initials t)) = rows j * 64 }.

Record arrays_fit : Prop := mkArraysFit {
  fit_num : numArrays cfg = 64; fit_in : inputArraySize cfg = 64; fit_out : outputArraySize cfg = 64;
  fit_fun : functionalCompute cfg = true }.

(** ** Windows *)

Definition nC (base : Z) : Z := Z.min 4 (tile_count j - base).
Definition kC (kb : Z) : Z := Z.min (kWindow j) (kTiles j - kb).
Definition tile_bytes : Z := rows j * 128.
Definition input_tile_bytes (kk : Z) : list byte :=
  match ga_inputAddress (args j) with
  | Some f => mem_bytes m0 (f kk) tile_bytes
  | None => ReuseWindowGemm_pack (inputs kk) 2
  end.
(** Address of the [i]-th activation tile of the window at [kb]. *)
Definition window_input (kb i : Z) : Z :=
  match ga_inputAddress (args j) with Some f => f (kb + i) | None => aBase j + i * tile_bytes end.
Definition seq_input (kb s : Z) : Z := window_input kb (s mod kC kb).
Definition seq_bytes (kb s : Z) : list byte := input_tile_bytes (kb + s mod kC kb).
Definition seq_tile (base kb s : Z) : Z := if bridgeWeights j then s / kC kb else base + s / kC kb.
Definition seq_source (base kb s : Z) : Z :=
  ga_weight (args j) (tile_at j (seq_tile base kb s)) (kb + s mod kC kb).
Definition seq_weights (base kb s : Z) : list byte := mem_bytes host (seq_source base kb s) 8192.

(** The sequence number of step [kk] of tile [nn], and the end of the numbering. *)
Definition seq_at (base kb nn kk : Z) : Z := (if bridgeWeights j then base * kC kb else 0) + nn * kC kb + kk.
Definition seq_limit (base kb : Z) : Z := (if bridgeWeights j then tile_count j else nC base) * kC kb.

(** Partial sums and where they are spilled. *)
Definition partial (ti : Z) (depth : Z) : Values :=
  flat_map (fun r => product_row j host inputs initials m0 (tile_at j ti) r (Z.to_nat depth)) (seq 0 (Z.to_nat (rows j))).
Definition spill (ti depth : Z) : list byte := ReuseWindowGemm_pack (partial ti depth) 4.
Definition spill_address (nn : Z) : Z := cBase j + nn * rows j * 256.
Definition spill_bytes : Z := rows j * 256.

(** ** Positions of a stage *)

Definition window_ok (base kb : Z) : Prop :=
  0 <= base < tile_count j /\ base mod 4 = 0 /\ 0 <= kb < kTiles j /\ (bridgeWeights j = true -> kb = 0).

Definition st_base (st : GemmStage) : Z :=
  match st with
  | SBegin b _ | SAsk b _ _ _ | SLoad b _ _ _ _ | SRestore b _ _ | SRead b _ _ _ _ | SInitial b _ | SProgC b _ _ _
  | STile b _ _ _ _ | SDrain b _ _ _ | SSpill b _ _ _ _ | SEnd b _ _ _ => b
  | SFinish | SDone => tile_count j
  end.
Definition st_kb (st : GemmStage) : Z :=
  match st with
  | SBegin _ kb | SAsk _ kb _ _ | SLoad _ kb _ _ _ | SRestore _ kb _ | SRead _ kb _ _ _ | SProgC _ kb _ _
  | STile _ kb _ _ _ | SDrain _ kb _ _ | SSpill _ kb _ _ _ | SEnd _ kb _ _ => kb
  | SInitial _ _ | SFinish | SDone => 0
  end.
Definition st_n (st : GemmStage) : Z :=
  match st with
  | SRestore _ _ nn | SRead _ _ nn _ _ | SInitial _ nn | SProgC _ _ nn _ | STile _ _ nn _ _ | SDrain _ _ nn _
  | SSpill _ _ nn _ _ | SEnd _ _ nn _ => nn
  | _ => 0
  end.
Definition st_k (st : GemmStage) : Z :=
  match st with
  | STile _ _ _ kk _ => kk
  | SDrain _ kb _ _ | SSpill _ kb _ _ _ | SEnd _ kb _ _ => kC kb
  | _ => 0
  end.
(** Between windows the position fields are those of the window that ended. *)
Definition in_window (st : GemmStage) : bool := match st with SBegin _ _ | SFinish | SDone => false | _ => true end.
Definition st_seq (st : GemmStage) : Z := seq_at (st_base st) (st_kb st) (st_n st) (st_k st).

Definition stage_ok (st : GemmStage) : Prop :=
  match st with
  | SFinish | SDone => True
  | SBegin base kb => window_ok base kb
  | SAsk base kb i _ => window_ok base kb /\ 0 <= i < kC kb /\ ga_inputAddress (args j) = None
  | SLoad base kb i off _ => window_ok base kb /\ 0 <= i < kC kb /\ ga_inputAddress (args j) = None /\ 0 <= off < tile_bytes
  | SRestore base kb nn | SDrain base kb nn _ => window_ok base kb /\ 0 <= nn < nC base
  | SProgC base kb nn _ => window_ok base kb /\ 0 <= nn < nC base /\ (0 < kb \/ ga_initial (args j) = true)
  | SRead base kb nn off _ => window_ok base kb /\ 0 <= nn < nC base /\ 0 < kb /\ 0 <= off < spill_bytes
  | SInitial base nn => window_ok base 0 /\ 0 <= nn < nC base /\ ga_initial (args j) = true
  | STile base kb nn kk ph => window_ok base kb /\ 0 <= nn < nC base /\ 0 <= kk < kC kb /\
      match ph with
      | Acquiring => True
      | Broadcasting q _ => 0 <= q < groups j /\ (scatterWave j = true -> q = 0)
      | Scattering q _ | Launching q => 0 <= q < groups j
      end
  | SSpill base kb nn off _ => window_ok base kb /\ 0 <= nn < nC base /\ kb + kC kb < kTiles j /\ 0 <= off < spill_bytes
  | SEnd base kb nn parked => window_ok base kb /\ 0 <= nn < nC base /\ (parked = true -> kb + kC kb = kTiles j)
  end.

(** ** Control *)

Definition waiting (st : GemmStage) : bool :=
  match st with
  | SAsk _ _ _ w | SLoad _ _ _ _ w | SRead _ _ _ _ w | SProgC _ _ _ w | SDrain _ _ _ w | SSpill _ _ _ _ w
  | STile _ _ _ _ (Broadcasting _ w) | STile _ _ _ _ (Scattering _ w) => w
  | SInitial _ _ => true
  | _ => false
  end.
Definition task_of (st : GemmStage) : option Task :=
  match st with
  | SBegin _ _ => Some BeginWindow
  | SAsk _ _ _ false => Some LoadA
  | SLoad _ _ _ _ false | SSpill _ _ _ _ false => Some WriteChunk
  | SRestore _ _ _ => Some RestoreC
  | SRead _ _ _ _ false => Some ReadChunk
  | SProgC _ _ _ false => Some ProgramC
  | STile _ _ _ _ Acquiring => Some AcquireTile
  | STile _ _ _ _ (Broadcasting _ false) => Some ProgramB
  | STile _ _ _ _ (Scattering _ false) => Some ProgramA
  | STile _ _ _ _ (Launching _) => Some Launch
  | SDrain _ _ _ false => Some Drain
  | SFinish => Some WaitFinish
  | _ => None
  end.

Definition grp_of (r : Z) : Z := if groups j =? 2 then r / 32 else 0.
Definition grp_begin (q : Z) : Z := if groups j =? 2 then q * 32 else 0.
Definition grp_end (q : Z) : Z := if groups j =? 2 then Z.min (q * 32 + 32) (rows j) else rows j.
Definition group_ids (q : Z) : list Z := map Z.of_nat (seq (Z.to_nat (grp_begin q)) (Z.to_nat (grp_end q - grp_begin q))).
Definition chunk (total off : Z) : Z := Z.min (localMax j) (total - off).
Definition st_weights (st : GemmStage) : Values := ReuseWindowGemm_unpack (seq_weights (st_base st) (st_kb st) (st_seq st)) 2.
Definition st_input (st : GemmStage) : Values := ReuseWindowGemm_unpack (seq_bytes (st_kb st) (st_seq st)) 2.
Definition group_input (q : Z) (a : Values) : Values :=
  take (Z.to_nat ((grp_end q - grp_begin q) * 64)) (drop (Z.to_nat (grp_begin q * 64)) a).
(** What [programC] loads. *)
Definition st_loaded (st : GemmStage) : Values :=
  if st_kb st =? 0 then initials (tile_at j (st_base st + st_n st)) else partial (st_base st + st_n st) (st_kb st).

Definition main_calls (st : GemmStage) (cs : list Call) : Prop :=
  match st with
  | SAsk _ kb i true => cs = [AskInput (kb + i)]
  | SLoad base kb i off true =>
      cs = [WriteGM (aBase j + i * tile_bytes + off) (bslice off (chunk tile_bytes off) (input_tile_bytes (kb + i)))]
  | SRead base kb nn off true => cs = [ReadBack (spill_address nn + off) (chunk spill_bytes off)]
  | SInitial base nn => cs = [AskInitial (tile_at j (base + nn))]
  | SProgC base kb nn true => cs = [WriteOutput (arrays j) (st_loaded st)] /\
      is_Some (writeOutputGroupClassAsync cfg (arrays j) (st_loaded st) 4 ProjectionOutput)
  | STile _ _ _ _ (Broadcasting q true) => exists submitted,
      let ids := if scatterWave j then arrays j else group_ids q in
      cs = [ProgramMatrix ids (st_weights st) submitted] /\
      is_Some (programMatrixGroupClassBankAsync cfg ids 0 (st_weights st) 2 ProjectionWeights)
  | STile _ _ _ _ (Scattering q true) =>
      cs = [ScatterInput (group_ids q) (group_input q (st_input st))] /\
      is_Some (programInputScatterBankAsync cfg (group_ids q) 0 (group_input q (st_input st)) 2 ProjectionInputScatter)
  | SDrain base kb nn true => exists bytes, cs = [ReadOutput (arrays j) bytes] /\
      is_Some (readOutputGroupClassAsync cfg (arrays j) bytes ProjectionOutput)
  | SSpill base kb nn off true =>
      cs = [WriteGM (spill_address nn + off) (bslice off (chunk spill_bytes off) (spill (base + nn) (kb + kC kb)))]
  | _ => cs = []
  end.

(** Fields the control flow does not read or that other parts own. *)
Definition flow_core (g : ReuseWindowGemm) : ReuseWindowGemm :=
  (input_core (weight_core g)) <| remaining := fun _ => 0 |> <| cycle := 0 |> <| cReadyCycle := 0 |> <| phase := 0 |>
    <| leaseHeld := false |> <| outputs := [] |> <| finished := [] |>.

(** The transfer in pieces and the registers of the current tile. *)
Definition io_ok (st : GemmStage) (g : ReuseWindowGemm) : Prop :=
  match st with
  | SLoad _ kb i off _ => ioAddr g = aBase j + i * tile_bytes /\ offset g = off /\ io g = input_tile_bytes (kb + i) /\
      writeDone g = Some InputWritten
  | SSpill base kb nn off _ => ioAddr g = spill_address nn /\ offset g = off /\ io g = spill (base + nn) (kb + kC kb) /\
      writeDone g = Some PartialWritten
  | SRead base kb nn off _ => ioAddr g = spill_address nn /\ offset g = off /\ blen (io g) = spill_bytes /\
      bslice 0 off (io g) = bslice 0 off (spill (base + nn) kb)
  | SProgC _ _ _ _ => result_ g = st_loaded st
  | STile _ _ _ _ (Broadcasting q _) | STile _ _ _ _ (Scattering q _) | STile _ _ _ _ (Launching q) =>
      group g = q /\ matrix g = st_weights st
  | _ => True
  end.
Definition place_ok (st : GemmStage) (g : ReuseWindowGemm) : Prop :=
  match st with
  | SFinish | SDone => True
  | SBegin base kb => nBase g = base /\ kBase g = kb
  | SAsk base kb i _ | SLoad base kb i _ _ =>
      nBase g = base /\ kBase g = kb /\ nCount g = nC base /\ kCount g = kC kb /\ n g = 0 /\ k g = 0 /\ loadedA g = i
  | _ => nBase g = st_base st /\ kBase g = st_kb st /\ nCount g = nC (st_base st) /\ kCount g = kC (st_kb st) /\
         n g = st_n st /\ k g = st_k st
  end.
(** The tile is done and its output waits to be resumed. *)
Definition parked_at (st : GemmStage) : bool := match st with SEnd _ _ _ w => w | _ => false end.
Definition flow_ok (st : GemmStage) (g : ReuseWindowGemm) (cs : list Call) : Prop :=
  active g = (match st with SDone => false | _ => true end) /\ pending g = waiting st /\ next g = task_of st /\
  (outputWaiting g = true -> outputAdvanced g = negb (parked_at st) /\ st <> SDone) /\
  (parked_at st = true -> outputWaiting g = true) /\
  place_ok st g /\ io_ok st g /\ main_calls st cs.

Lemma flow_frame st g g' cs : flow_core g' = flow_core g -> flow_ok st g cs -> flow_ok st g' cs.
Proof.
  intros E H. change (flow_ok st (flow_core g') cs). rewrite E. exact H.
Qed.

(** ** The arrays *)

(** Steps of the current tile that array [r] was launched for. *)
Definition launched_in (st : GemmStage) (r : Z) : Z :=
  match st with
  | STile _ kb _ kk ph => kb + kk +
      match ph with Acquiring => 0 | Broadcasting q _ | Scattering q _ | Launching q => if grp_of r <? q then 1 else 0 end
  | _ => st_kb st + st_k st
  end.
(** The arrays a broadcast for group [q] reaches. *)
Definition targeted (q r : Z) : bool := if scatterWave j then q <=? grp_of r else grp_of r =? q.
(** Whether array [r] holds the matrix, and the input, of the step under way. *)
Definition matrix_set (st : GemmStage) (r : Z) : bool :=
  match st with STile _ _ _ _ (Scattering q _) | STile _ _ _ _ (Launching q) => targeted q r | _ => false end.
Definition input_set (st : GemmStage) (r : Z) : bool :=
  match st with STile _ _ _ _ (Launching q) => grp_of r =? q | _ => false end.
(** Whether array [r] has no multiply under way. *)
Definition quiet (st : GemmStage) (r : Z) : bool :=
  match st with
  | STile _ _ _ _ (Broadcasting q true) | STile _ _ _ _ (Scattering q _) | STile _ _ _ _ (Launching q) => targeted q r
  | STile _ _ _ _ _ | SDrain _ _ _ false => false
  | _ => true
  end.
(** In these stages the arrays hold the current tile's sums. *)
Definition computing_stage (st : GemmStage) : bool :=
  match st with STile _ _ _ _ _ | SDrain _ _ _ _ => true | _ => false end.

Definition row_value (ti r depth : Z) : Values :=
  product_row j host inputs initials m0 (tile_at j ti) (Z.to_nat r) (Z.to_nat depth).
(** Nothing is known of the sums before the first step, unless they were loaded. *)
Definition sums_ok (ti r depth : Z) (x : ArrayContext) : Prop :=
  0 < depth \/ ga_initial (args j) = true -> outputVector x = row_value ti r depth.
Definition mode_of (depth : Z) : Z := if negb (depth =? 0) || ga_initial (args j) then 1 else 0.

(** An array, its outstanding multiply and the steps it was launched for. *)
Inductive row_state (base kb nn r depth : Z) (x : ArrayContext) : list Call -> Prop :=
  | row_idle : sums_ok (base + nn) r depth x -> row_state base kb nn r depth x []
  | row_launched kk count launched : depth = kb + kk + 1 -> 0 <= kk < kC kb ->
      sums_ok (base + nn) r (kb + kk) x -> projectionFp16Context x = true ->
      matrixData x = weight_tile j host (tile_at j (base + nn)) (kb + kk) ->
      inputVector x = tile_row (input_tile j inputs m0 (kb + kk)) (Z.to_nat r) ->
      row_state base kb nn r depth x [ArrayMac r (mode_of (kb + kk)) (grp_of r) count launched false]
  | row_multiplied mode count launched : sums_ok (base + nn) r depth x ->
      row_state base kb nn r depth x [ArrayMac r mode (grp_of r) count launched true].

Definition bank_sizes (b : TileBank) : Prop :=
  precisionEnabled b = false /\ forall r, 0 <= r < rows j ->
    length (inputVector (contexts b r)) = 64%nat /\ length (outputVector (contexts b r)) = 64%nat /\
    length (matrixData (contexts b r)) = 4096%nat.

Definition busy (cs : list Call) (r : Z) : bool := negb (bool_decide (on_port (PArray r) cs = [])).
Definition busy_count (q : Z) (cs : list Call) : Z :=
  Z.of_nat (length (filter (fun r => grp_of r = q /\ busy cs r = true) (arrays j))).

Definition row_ok (st : GemmStage) (r : Z) (x : ArrayContext) (cs : list Call) : Prop :=
  (quiet st r = true -> cs = []) /\
  (computing_stage st = true ->
     row_state (st_base st) (st_kb st) (st_n st) r (launched_in st r) x cs /\
     (matrix_set st r = true -> projectionFp16Context x = true /\
        matrixData x = weight_tile j host (tile_at j (st_base st + st_n st)) (st_kb st + st_k st)) /\
     (input_set st r = true -> inputVector x = tile_row (input_tile j inputs m0 (st_kb st + st_k st)) (Z.to_nat r))).
Definition arrays_ok (st : GemmStage) (rem : Z -> Z) (cs : list Call) (b : TileBank) : Prop :=
  bank_sizes b /\ rem 0 = busy_count 0 cs /\ rem 1 = busy_count 1 cs /\
  (forall r, ~ (0 <= r < rows j) -> on_port (PArray r) cs = []) /\
  (forall r, 0 <= r < rows j -> row_ok st r (contexts b r) (on_port (PArray r) cs)).

(** ** Memory *)

Definition loaded (st : GemmStage) : Z :=
  match st with
  | SBegin base _ => if bridgeWeights j && negb (base =? 0) then kTiles j else 0
  | SAsk base kb i _ | SLoad base kb i _ _ => if bridgeWeights j && negb (base =? 0) then kTiles j else i
  | SFinish | SDone => 0
  | _ => kC (st_kb st)
  end.
(** Tiles from [lo] on hold the sums of the previous windows, tiles below [hi] the new ones. *)
Definition spilled_lo (st : GemmStage) : Z :=
  match st with SBegin _ _ | SAsk _ _ _ _ | SLoad _ _ _ _ _ => 0 | SSpill _ _ nn _ _ | SEnd _ _ nn _ => nn + 1 | _ => st_n st end.
Definition spilled_hi (st : GemmStage) : Z := match st with SEnd _ _ nn _ => nn + 1 | _ => st_n st end.

Definition memory_ok (st : GemmStage) (m : Z -> byte) : Prop :=
  (forall f kk, ga_inputAddress (args j) = Some f -> 0 <= kk < kTiles j -> holds m (f kk) (input_tile_bytes kk)) /\
  (ga_inputAddress (args j) = None -> forall i, 0 <= i < loaded st ->
     holds m (aBase j + i * tile_bytes) (input_tile_bytes (st_kb st + i))) /\
  (0 < st_kb st -> forall i, spilled_lo st <= i < nC (st_base st) ->
     holds m (spill_address i) (spill (st_base st + i) (st_kb st))) /\
  (st_kb st + kC (st_kb st) < kTiles j -> forall i, 0 <= i < spilled_hi st ->
     holds m (spill_address i) (spill (st_base st + i) (st_kb st + kC (st_kb st)))) /\
  match st with
  | SLoad _ kb i off _ => holds m (aBase j + i * tile_bytes) (bslice 0 off (input_tile_bytes (kb + i)))
  | SSpill base kb nn off _ => holds m (spill_address nn) (bslice 0 off (spill (base + nn) (kb + kC kb)))
  | _ => True
  end.

(** ** The prefetchers and the results *)

(** No tile is held or on its way. *)
Definition weights_idle (g : ReuseWindowGemm) : Prop := forall i, w_valid (slots g i) = false /\ on_port (PWeight i) (calls g) = [].
Definition inputs_idle (g : ReuseWindowGemm) : Prop :=
  (if inputPrefetch j then forall i, i_valid (inputSlots g i) = false else inputReading g = false /\ inputPending g = false) /\
  on_port PInput (calls g) = [] /\ forall i, on_port (PSlot i) (calls g) = [].
(** The prefetchers run on: always inside a window, and between windows with the bridge. *)
Definition prefetching (st : GemmStage) : bool :=
  match st with SBegin base _ => bridgeWeights j && negb (base =? 0) | SFinish | SDone => false | _ => true end.
Definition needs_input (st : GemmStage) : bool :=
  match st with
  | STile _ _ _ _ (Broadcasting _ _) | STile _ _ _ _ (Scattering _ _) | STile _ _ _ _ (Launching _) => true
  | _ => false
  end.
(** Stages in which the activations of the step may have been asked for. *)
Definition prepares (st : GemmStage) : bool :=
  match st with SRestore _ _ _ | SRead _ _ _ _ _ | SInitial _ _ | SProgC _ _ _ _ | STile _ _ _ _ _ => true | _ => false end.
(** The window's activations are being written for the first time. *)
Definition fresh (st : GemmStage) : bool :=
  match st with SAsk base _ _ _ | SLoad base _ _ _ _ => negb (bridgeWeights j && negb (base =? 0)) | _ => false end.
Definition scattered (st : GemmStage) : bool :=
  match st with STile _ _ _ _ (Scattering _ true) | STile _ _ _ _ (Launching _) => true | _ => false end.

Definition prefetch_run (base kb cur : Z) (m : Z -> byte) (g : ReuseWindowGemm) : Prop :=
  weights_inv j (seq_source base kb) (seq_weights base kb) m cur g /\
  nextPrefetch g = Z.min (seq_limit base kb) (cur + slotCount j) /\
  inputs_inv j (seq_bytes kb) (seq_input kb) m cur (seq_limit base kb) g.
Definition tile_held (st : GemmStage) (g : ReuseWindowGemm) : Prop :=
  (needs_input st = true -> preparedSeq g = st_seq st /\ w_ready (slots g (st_seq st mod slotCount j)) = true) /\
  (prepares st = false -> preparedSeq g <> st_seq st) /\
  (fresh st = true -> inputs_idle g) /\
  (scattered st = true -> input_is_ready j g = true).
Definition prefetch_ok (st : GemmStage) (m : Z -> byte) (g : ReuseWindowGemm) : Prop :=
  if prefetching st then prefetch_run (st_base st) (st_kb st) (st_seq st) m g /\ tile_held st g
  else weights_idle g /\ inputs_idle g.

Definition outputs_done (st : GemmStage) : Z :=
  match st with
  | SBegin base _ => base
  | SFinish | SDone => tile_count j
  | SEnd base kb nn _ => base + (if kb + kC kb =? kTiles j then nn + 1 else 0)
  | _ => st_base st + (if st_kb st + kC (st_kb st) =? kTiles j then st_n st else 0)
  end.
Definition expected_outputs (count : Z) : list (Z * Values) :=
  map (fun i => (tile_at j (Z.of_nat i), product j host inputs initials m0 (tile_at j (Z.of_nat i)))) (seq 0 (Z.to_nat count)).

Record gemm_inv (out0 : list (Z * Values)) (fin0 : list bool) (st : GemmStage) (s : GemmSystem) : Prop := mkInv {
  inv_stage : stage_ok st;
  inv_flow : flow_ok st (gemm s) (on_port PMain (calls (gemm s)));
  inv_arrays : arrays_ok st (remaining (gemm s)) (calls (gemm s)) (bank s);
  inv_memory : memory_ok st (memory s);
  inv_prefetch : prefetch_ok st (memory s) (gemm s);
  inv_outputs : outputs (gemm s) = out0 ++ expected_outputs (outputs_done st);
  inv_finished : finished (gemm s) = fin0 ++ (match st with SDone => [true] | _ => [] end) }.
End invariant.
