(* ===== verification/GemmFacts.v ===== *)
(** * Arithmetic of windows, sequence numbers and regions

    The machine-width expressions of [WindowGemm] evaluated at a stage of the invariant. *)

From Stdlib Require Import ZArith Lia.
From Stdlib Require Import Init.Byte.
From stdpp Require Import base numbers functions list.
From S2P Require Import Prelude RecordUpdate Ieee Fp16 AttentionBase ComputeUnit TileArray ControlTransport WindowGemm GemmValues GemmSystem GemmArrays GemmSlots GemmInvariant.
Open Scope Z_scope.

(** Removes the 32-bit wrap-arounds innermost first. *)
Ltac unwrap32 :=
  repeat match goal with
  | |- context [u32 ?x] =>
      lazymatch x with
      | context [u32 _] => fail
      | _ => rewrite (u32_id x) by (unfold in_u32; lia)
      end
  end.

Section facts.
Context (j : GemmJob) (cfg : TileUnitConfig) (host : Z -> byte) (inputs initials : Z -> Values) (m0 : Z -> byte).
Hypothesis Hj : job_ok j inputs initials.

Notation nC := (nC j).
Notation kC := (kC j).
Notation window_ok := (window_ok j).
Notation stage_ok := (stage_ok j).
Notation seq_limit := (seq_limit j).
Notation seq_at := (seq_at j).

Lemma rows_range : 1 <= rows j <= 64.
Proof. apply Hj. Qed.
Lemma kTiles_range : 1 <= kTiles j < 2 ^ 32 - 2.
Proof. pose proof (ok_kTiles _ _ _ Hj). pose proof (ok_sequence _ _ _ Hj). pose proof (ok_tiles _ _ _ Hj). nia. Qed.
Lemma tiles_range : 1 <= tile_count j < 2 ^ 32 - 2.
Proof. pose proof (ok_kTiles _ _ _ Hj). pose proof (ok_sequence _ _ _ Hj). pose proof (ok_tiles _ _ _ Hj). nia. Qed.

Lemma kC_range base kb : window_ok base kb -> 1 <= kC kb <= 32 /\ kb + kC kb <= kTiles j /\ 0 <= kb < kTiles j.
Proof. intros (_ & _ & H & _). unfold GemmInvariant.kC. pose proof (ok_window _ _ _ Hj). lia. Qed.
Lemma nC_range base kb : window_ok base kb -> 1 <= nC base <= 4 /\ base + nC base <= tile_count j /\ 0 <= base < tile_count j.
Proof. intros (H & _). unfold GemmInvariant.nC. lia. Qed.
Lemma kC_bridge base kb : window_ok base kb -> bridgeWeights j = true -> kb = 0 /\ kC kb = kTiles j.
Proof.
  intros (_ & _ & _ & H) Hb. rewrite (H Hb). split; [done|]. unfold GemmInvariant.kC.
  pose proof (ok_bridge _ _ _ Hj Hb). lia.
Qed.

Lemma seq_limit_range base kb : window_ok base kb -> 1 <= seq_limit base kb < 2 ^ 32 - 2.
Proof.
  intros Hw. pose proof (kC_range _ _ Hw). pose proof (nC_range _ _ Hw). pose proof (ok_sequence _ _ _ Hj).
  pose proof kTiles_range. pose proof tiles_range. unfold GemmInvariant.seq_limit. destruct (bridgeWeights j); [nia|].
  assert (nC base * kC kb <= 128) by nia. lia.
Qed.
Lemma seq_at_range base kb nn kk :
  window_ok base kb -> 0 <= nn <= nC base -> 0 <= kk -> (nn < nC base -> kk <= kC kb) -> (nn = nC base -> kk = 0) ->
  0 <= seq_at base kb nn kk <= seq_limit base kb.
Proof.
  intros Hw Hn Hk H1 H2. pose proof (kC_range _ _ Hw). pose proof (nC_range _ _ Hw).
  unfold GemmInvariant.seq_limit, GemmInvariant.seq_at. destruct (bridgeWeights j); destruct (decide (nn = nC base)); nia.
Qed.
Lemma seq_at_lt base kb nn kk :
  window_ok base kb -> 0 <= nn < nC base -> 0 <= kk < kC kb -> 0 <= seq_at base kb nn kk < seq_limit base kb.
Proof.
  intros Hw Hn Hk. pose proof (kC_range _ _ Hw). pose proof (nC_range _ _ Hw).
  unfold GemmInvariant.seq_limit, GemmInvariant.seq_at. destruct (bridgeWeights j); nia.
Qed.

Lemma seq_at_mod base kb nn kk : window_ok base kb -> 0 <= kk < kC kb -> seq_at base kb nn kk mod kC kb = kk.
Proof.
  intros Hw Hk. unfold GemmInvariant.seq_at. destruct (bridgeWeights j).
  - replace (base * kC kb + nn * kC kb + kk) with (kk + (base + nn) * kC kb) by lia. rewrite Z.mod_add by lia. apply Z.mod_small. lia.
  - replace (0 + nn * kC kb + kk) with (kk + nn * kC kb) by lia. rewrite Z.mod_add by lia. apply Z.mod_small. lia.
Qed.
Lemma seq_at_tile base kb nn kk : window_ok base kb -> 0 <= kk < kC kb -> seq_tile j base kb (seq_at base kb nn kk) = base + nn.
Proof.
  intros Hw Hk. unfold GemmInvariant.seq_at, seq_tile. destruct (bridgeWeights j).
  - replace (base * kC kb + nn * kC kb + kk) with (kk + (base + nn) * kC kb) by lia. rewrite Z.div_add by lia. rewrite Z.div_small; lia.
  - replace (0 + nn * kC kb + kk) with (kk + nn * kC kb) by lia. rewrite Z.div_add by lia. rewrite Z.div_small; lia.
Qed.

(** The weights and activations of the current step. *)
Lemma weights_at base kb nn kk : window_ok base kb -> 0 <= kk < kC kb ->
  ReuseWindowGemm_unpack (seq_weights j host base kb (seq_at base kb nn kk)) 2 = weight_tile j host (tile_at j (base + nn)) (kb + kk).
Proof. intros Hw Hk. unfold seq_weights, seq_source, weight_tile. by rewrite seq_at_tile, seq_at_mod. Qed.
Lemma input_at base kb nn kk : window_ok base kb -> 0 <= kk < kC kb ->
  ReuseWindowGemm_unpack (seq_bytes j inputs m0 kb (seq_at base kb nn kk)) 2 = input_tile j inputs m0 (kb + kk).
Proof. intros Hw Hk. unfold seq_bytes. rewrite seq_at_mod by done. done. Qed.

(** *** Regions *)

Lemma mod_kC base kb s : window_ok base kb -> 0 <= s mod kC kb < kC kb.
Proof. intros Hw. pose proof (kC_range _ _ Hw). apply Z.mod_pos_bound. lia. Qed.

Lemma input_tile_blen kk : 0 <= kk < kTiles j -> blen (input_tile_bytes j inputs m0 kk) = rows j * 128.
Proof.
  intros Hk. unfold input_tile_bytes, tile_bytes. pose proof rows_range. destruct (ga_inputAddress (args j)) as [f|] eqn:E.
  - apply mem_bytes_blen. lia.
  - rewrite pack_blen by lia. rewrite (ok_inputs _ _ _ Hj kk E Hk). lia.
Qed.
Lemma seq_bytes_blen base kb s : window_ok base kb -> blen (seq_bytes j inputs m0 kb s) = rows j * 128.
Proof. intros Hw. pose proof (kC_range _ _ Hw). pose proof (mod_kC _ _ s Hw). apply input_tile_blen. lia. Qed.

(** The job's regions, and that the window's activations lie outside the others. *)
Lemma window_input_range base kb i : window_ok base kb -> 0 <= i < kC kb ->
  0 <= window_input j kb i /\ window_input j kb i + rows j * 128 <= 2 ^ 64 /\
  disjoint (window_input j kb i) (rows j * 128) (bBase j) (slotCount j * 8192) /\
  disjoint (window_input j kb i) (rows j * 128) (cBase j) (Z.min 4 (tile_count j) * rows j * 256).
Proof.
  intros Hw Hi. pose proof (kC_range _ _ Hw) as Hk. pose proof rows_range as Hr. unfold window_input.
  destruct (ga_inputAddress (args j)) as [f|] eqn:E.
  - apply (ok_resident _ _ _ Hj f (kb + i) E). lia.
  - pose proof (ok_a _ _ _ Hj). pose proof (ok_ab _ _ _ Hj). pose proof (ok_ac _ _ _ Hj). unfold disjoint, tile_bytes in *.
    assert (i * (rows j * 128) + rows j * 128 <= Z.min (kWindow j) (kTiles j) * rows j * 128).
    { assert (i + 1 <= Z.min (kWindow j) (kTiles j)) by (unfold GemmInvariant.kC in *; lia). nia. }
    assert (0 <= i * (rows j * 128)) by nia. lia.
Qed.
Lemma seq_input_range base kb s : window_ok base kb -> 0 <= seq_input j kb s /\ seq_input j kb s + rows j * 128 <= 2 ^ 64.
Proof. intros Hw. pose proof (mod_kC _ _ s Hw). unfold seq_input. destruct (window_input_range base kb (s mod kC kb) Hw); [done|tauto]. Qed.

Lemma spill_address_range base kb nn : window_ok base kb -> 0 <= nn < nC base ->
  cBase j <= spill_address j nn /\ spill_address j nn + rows j * 256 <= cBase j + Z.min 4 (tile_count j) * rows j * 256 /\
  0 <= spill_address j nn /\ spill_address j nn + rows j * 256 <= 2 ^ 64.
Proof.
  intros Hw Hn. pose proof (nC_range _ _ Hw). pose proof rows_range. pose proof (ok_c _ _ _ Hj). unfold spill_address.
  assert (nn + 1 <= Z.min 4 (tile_count j)) by (unfold GemmInvariant.nC in *; lia). nia.
Qed.

(** *** The expressions of the code at a position *)

(** The position registers of a window. *)
Definition at_window (base kb : Z) (g : ReuseWindowGemm) : Prop :=
  nBase g = base /\ kBase g = kb /\ nCount g = nC base /\ kCount g = kC kb.

Lemma sequenceLimit_at base kb g : window_ok base kb -> at_window base kb g -> sequenceLimit j g = seq_limit base kb.
Proof.
  intros Hw (E1 & E2 & E3 & E4). pose proof (seq_limit_range _ _ Hw). pose proof tiles_range. unfold sequenceLimit, GemmInvariant.seq_limit in *.
  rewrite E3, E4. destruct (bridgeWeights j); unwrap32; done.
Qed.
Lemma currentSequence_at base kb nn kk g :
  window_ok base kb -> at_window base kb g -> n g = nn -> k g = kk -> 0 <= nn < nC base -> 0 <= kk < kC kb ->
  currentSequence j g = seq_at base kb nn kk.
Proof.
  intros Hw (E1 & E2 & E3 & E4) <- <- Hn Hk. pose proof (seq_at_lt _ _ _ _ Hw Hn Hk) as Hs. pose proof (seq_limit_range _ _ Hw).
  pose proof (kC_range _ _ Hw). pose proof (nC_range _ _ Hw).
  unfold currentSequence, GemmInvariant.seq_at in *. rewrite E1, E4.
  assert (0 <= n g * kC kb) by nia. assert (0 <= base * kC kb) by nia.
  destruct (bridgeWeights j); unwrap32; done.
Qed.
(** The number the array lease prepares, right where the job's options allow it. *)
Lemma preparedSequence_at base kb nn kk g :
  window_ok base kb -> at_window base kb g -> n g = nn -> k g = kk -> 0 <= nn < nC base -> 0 <= kk < kC kb ->
  earlyA j = true -> ga_acquire (args j) = true ->
  u32 (u32 (n g * kCount g) + k g) = seq_at base kb nn kk.
Proof.
  intros Hw (E1 & E2 & E3 & E4) <- <- Hn Hk He Ha. pose proof (seq_at_lt _ _ _ _ Hw Hn Hk) as Hs. pose proof (seq_limit_range _ _ Hw).
  pose proof (kC_range _ _ Hw). assert (B : bridgeWeights j = true -> base = 0).
  { intros Hb. pose proof (ok_lease _ _ _ Hj Hb He Ha). destruct Hw as (W1 & W2 & _).
    pose proof (Z.div_mod base 4 ltac:(lia)). lia. }
  unfold GemmInvariant.seq_at in *. rewrite E4. assert (0 <= n g * kC kb) by nia.
  destruct (bridgeWeights j); [rewrite B in * by done|]; unwrap32; lia.
Qed.
Lemma weight_address_at base kb g s :
  window_ok base kb -> at_window base kb g -> 0 <= s < seq_limit base kb ->
  weight_address j g s = seq_source j base kb s.
Proof.
  intros Hw (E1 & E2 & E3 & E4) Hs. pose proof (kC_range _ _ Hw). pose proof (nC_range _ _ Hw). pose proof (mod_kC _ _ s Hw).
  pose proof kTiles_range. pose proof tiles_range.
  unfold weight_address, seq_source, seq_tile, GemmInvariant.seq_limit in *. cbv zeta. rewrite E1, E2, E4.
  rewrite (u32_id (kb + _)) by (unfold in_u32; lia).
  destruct (bridgeWeights j); [done|].
  assert (0 <= s / kC kb < nC base).
  { split; [apply Z.div_pos; lia|]. apply Z.div_lt_upper_bound; lia. }
  rewrite u32_id by (unfold in_u32; lia). done.
Qed.
Lemma input_address_at base kb g kk :
  window_ok base kb -> kBase g = kb -> 0 <= kk < kC kb -> input_address j g kk = window_input j kb kk.
Proof.
  intros Hw E Hk. pose proof (kC_range _ _ Hw). pose proof kTiles_range. pose proof (window_input_range _ _ _ Hw Hk) as Hr. pose proof rows_range.
  unfold input_address, window_input, tile_bytes in *. destruct (ga_inputAddress (args j)).
  - rewrite E, u32_id by (unfold in_u32; lia). done.
  - pose proof (ok_a _ _ _ Hj). assert (0 <= kk * rows j <= 2048) by nia.
    unwrap64. lia.
Qed.
Lemma partial_address_at base kb nn g :
  window_ok base kb -> n g = nn -> 0 <= nn < nC base -> partial_address j g = spill_address j nn.
Proof.
  intros Hw <- Hn. pose proof (spill_address_range _ _ _ Hw Hn). pose proof rows_range. pose proof (nC_range _ _ Hw).
  unfold partial_address, spill_address in *. assert (0 <= n g * rows j <= 256) by nia.
  unwrap64. lia.
Qed.
Lemma loaded_address base kb i : window_ok base kb -> 0 <= i < kC kb -> ga_inputAddress (args j) = None ->
  aBase j ⊞ (i ⊠ rows j ⊠ 128) = aBase j + i * tile_bytes j.
Proof.
  intros Hw Hi E. pose proof (window_input_range _ _ _ Hw Hi) as Hr. unfold window_input, tile_bytes in *. rewrite E in Hr.
  pose proof rows_range. pose proof (kC_range _ _ Hw). pose proof (ok_a _ _ _ Hj). assert (0 <= i * rows j <= 2048) by nia.
  unwrap64. lia.
Qed.
End facts.
