(* ===== verification/GemmSums.v ===== *)
(** * The sums of a tile

    Rows of the product at every depth of the reduction: their shape, how one multiply
    extends them, and what of them survives a spill to memory. *)

From Stdlib Require Import ZArith Lia.
From Stdlib Require Import Init.Byte.
From stdpp Require Import base numbers functions list.
From S2P Require Import Prelude RecordUpdate Ieee IeeeArith Fp16 AttentionBase ComputeUnit TileArray ControlTransport WindowGemm GemmValues GemmSystem GemmArrays GemmSlots GemmInvariant GemmFacts.
Open Scope Z_scope.

(** Rows of equal length, concatenated and taken apart. *)
Lemma flat_map_length {A} (f : nat -> list A) len ns :
  Forall (fun r => length (f r) = len) ns -> length (flat_map f ns) = (len * length ns)%nat.
Proof.
  induction 1 as [|r ns Hr _ IH]; [cbn; lia|]. cbn [flat_map length]. rewrite length_app, Hr, IH. lia.
Qed.
Lemma flat_map_row {A} (f : nat -> list A) len count r :
  (r < count)%nat -> (forall i, (i < count)%nat -> length (f i) = len) ->
  take len (drop (r * len) (flat_map f (seq 0 count))) = f r.
Proof.
  intros Hr Hl.
  assert (E : flat_map f (seq 0 count) = flat_map f (seq 0 r) ++ f r ++ flat_map f (seq (S r) (count - S r))).
  { replace count with (r + S (count - S r))%nat at 1 by lia. rewrite seq_app, flat_map_app. done. }
  rewrite E, drop_app_length'.
  - apply take_app_length'. symmetry. by apply Hl.
  - rewrite (flat_map_length f len), length_seq; [lia|]. apply Forall_forall. intros i Hi. apply elem_of_seq in Hi. apply Hl. lia.
Qed.
Lemma flat_map_Forall {A B} (P : B -> Prop) (f : A -> list B) l :
  Forall (fun x => Forall P (f x)) l -> Forall P (flat_map f l).
Proof. induction 1; [done|]. cbn. by apply Forall_app_2. Qed.
Lemma Forall_seq_lt (P : nat -> Prop) count : (forall i, (i < count)%nat -> P i) -> Forall P (seq 0 count).
Proof. intros H. apply Forall_forall. intros i Hi. apply elem_of_seq in Hi. apply H. lia. Qed.

Lemma map_single v : Forall single v -> map to_float v = v.
Proof. induction 1 as [|x v Hx _ IH]; [done|]. cbn. by rewrite single_to_float, IH. Qed.
(** Without accumulation the old sums only count. *)
Lemma imap_const_ext {A B} (f : nat -> B) (l l' : list A) :
  length l = length l' -> imap (fun i _ => f i) l = imap (fun i _ => f i) l'.
Proof.
  revert f l'. induction l as [|x l IH]; intros f [|y l'] H; try done. cbn. f_equal. apply (IH (f ∘ S)). by injection H.
Qed.

Section sums.
Context (j : GemmJob) (cfg : TileUnitConfig) (host : Z -> byte) (inputs initials : Z -> Values) (m0 : Z -> byte).
Hypothesis Hj : job_ok j inputs initials.

Notation product_row := (product_row j host inputs initials m0).
Notation row_value := (row_value j host inputs initials m0).
Notation partial := (partial j host inputs initials m0).
Notation spill := (spill j host inputs initials m0).

Lemma initial_row_length t r : ga_initial (args j) = true -> (Z.of_nat r < rows j) -> length (tile_row (initials t) r) = 64%nat.
Proof.
  intros Hi Hr. pose proof (ok_initials _ _ _ Hj t Hi). unfold tile_row. rewrite length_take, length_drop. lia.
Qed.
Lemma product_row_length t r kk : Z.of_nat r < rows j -> length (product_row t r kk) = 64%nat.
Proof.
  intros Hr. induction kk as [|kk IH]; cbn [GemmSystem.product_row].
  - destruct (ga_initial (args j)) eqn:E; [rewrite length_map; by apply initial_row_length|apply length_replicate].
  - by rewrite mac_row_length.
Qed.
Lemma product_row_single t r kk : Forall single (product_row t r kk).
Proof.
  destruct kk as [|kk]; cbn [GemmSystem.product_row]; [|apply mac_row_single].
  destruct (ga_initial (args j)); [|by apply Forall_replicate].
  apply Forall_forall. intros x Hx. apply list_elem_of_fmap in Hx as (y & -> & _). apply to_float_single.
Qed.

(** One multiply takes the sums of [depth] steps to those of [depth + 1]. *)
Lemma row_step ti r depth old :
  0 <= r < rows j -> 0 <= depth -> length old = 64%nat ->
  (0 < depth \/ ga_initial (args j) = true -> old = row_value ti r depth) ->
  mac_row (weight_tile j host (tile_at j ti) depth) (tile_row (input_tile j inputs m0 depth) (Z.to_nat r)) (mode_of j depth =? 1) old
  = row_value ti r (depth + 1).
Proof.
  intros Hr Hd Hl Ho. unfold GemmInvariant.row_value. rewrite Z2Nat.inj_add by lia. change (Z.to_nat 1) with 1%nat.
  rewrite Nat.add_comm. cbn [Nat.add GemmSystem.product_row]. rewrite Z2Nat.id by lia. unfold mode_of.
  destruct (Z.eqb_spec depth 0) as [->|Hz]; cbn [negb orb].
  - rewrite (proj2 (Nat.ltb_ge _ _)) by lia. rewrite orb_false_r. destruct (ga_initial (args j)) eqn:E; cbn [Z.eqb Pos.eqb].
    + by rewrite Ho by (by right).
    + refine (imap_const_ext (fun col => GolemFp16_to_float (TileUnit_projectionDot (take 64 (drop (col * 64) _)) _)) old _ _).
      rewrite product_row_length by lia. done.
  - rewrite (proj2 (Nat.ltb_lt _ _)) by lia. rewrite orb_true_r, Ho by lia. done.
Qed.

Lemma partial_blocks ti depth i : (i < Z.to_nat (rows j))%nat -> length (product_row (tile_at j ti) i (Z.to_nat depth)) = 64%nat.
Proof. intros Hi. apply product_row_length. lia. Qed.
Lemma partial_length ti depth : Z.of_nat (length (partial ti depth)) = rows j * 64.
Proof.
  pose proof (rows_range _ _ _ Hj). unfold GemmInvariant.partial. rewrite (flat_map_length _ 64), length_seq; [lia|].
  apply Forall_seq_lt. intros i Hi. by apply partial_blocks.
Qed.
Lemma partial_row ti depth r : 0 <= r < rows j -> tile_row (partial ti depth) (Z.to_nat r) = row_value ti r depth.
Proof. intros Hr. unfold tile_row, GemmInvariant.partial. rewrite flat_map_row; [done|lia|]. intros i. apply partial_blocks. Qed.
Lemma partial_single ti depth : Forall single (partial ti depth).
Proof. apply flat_map_Forall, Forall_seq_lt. intros i _. apply product_row_single. Qed.

Lemma spill_blen ti depth : blen (spill ti depth) = rows j * 256.
Proof. unfold GemmInvariant.spill. rewrite pack_blen by lia. rewrite partial_length. lia. Qed.
Lemma unpack_spill ti depth : ReuseWindowGemm_unpack (spill ti depth) 4 = partial ti depth.
Proof. apply unpack_pack, partial_single. Qed.

(** What loading a tile's sums leaves in row [r]. *)
Lemma loaded_row base kb nn r :
  0 <= r < rows j -> 0 < kb \/ ga_initial (args j) = true ->
  let v := if kb =? 0 then initials (tile_at j (base + nn)) else partial (base + nn) kb in
  Z.of_nat (length v) = rows j * 64 /\ map to_float (tile_row v (Z.to_nat r)) = row_value (base + nn) r kb.
Proof.
  intros Hr Hi. cbv zeta. destruct (Z.eqb_spec kb 0) as [->|Hz].
  - destruct Hi as [|Hi]; [lia|]. split; [by apply (ok_initials _ _ _ Hj)|].
    unfold GemmInvariant.row_value. change (Z.to_nat 0) with O. cbn [GemmSystem.product_row]. by rewrite Hi.
  - split; [apply partial_length|]. rewrite partial_row by done. apply map_single, product_row_single.
Qed.
End sums.
