(* ===== verification/GemmParts.v ===== *)
(** * The parts of the invariant, one at a time

    Frames: which changes of the calls, of memory and of the stage each part of
    [gemm_inv] survives. *)

From Stdlib Require Import ZArith Lia.
From Stdlib Require Import Init.Byte.
From stdpp Require Import base numbers functions list.
From S2P Require Import Prelude RecordUpdate Ieee IeeeArith Fp16 AttentionBase ComputeUnit TileArray ControlTransport WindowGemm GemmValues GemmSystem GemmArrays GemmSlots GemmInvariant GemmFacts GemmSums.
Open Scope Z_scope.

Section parts.
Context (j : GemmJob) (cfg : TileUnitConfig) (host : Z -> byte) (inputs initials : Z -> Values) (m0 : Z -> byte).
Hypothesis Hj : job_ok j inputs initials.

Notation nC := (nC j).
Notation kC := (kC j).
Notation window_ok := (window_ok j).
Notation stage_ok := (stage_ok j).
Notation seq_limit := (seq_limit j).
Notation seq_at := (seq_at j).
Notation st_seq := (st_seq j).
Notation arrays_ok := (arrays_ok j host inputs initials m0).
Notation memory_ok := (memory_ok j host inputs initials m0).
Notation prefetch_run := (prefetch_run j host inputs m0).
Notation prefetch_ok := (prefetch_ok j host inputs m0).
Notation weights_inv := (weights_inv j).
Notation inputs_inv := (inputs_inv j).

(** ** Calls *)

Definition prefetch_port (p : GemmPort) : bool := match p with PWeight _ | PInput | PSlot _ => true | _ => false end.
Definition array_port (p : GemmPort) : bool := match p with PArray _ => true | _ => false end.
(** The calls of the ports that [f] selects are the same. *)
Definition ports_kept (f : GemmPort -> bool) (cs cs' : list Call) : Prop :=
  forall p, f p = true -> on_port p cs' = on_port p cs.

Lemma ports_kept_refl f cs : ports_kept f cs cs.
Proof. done. Qed.
Lemma ports_kept_snoc f cs c : f (port c) = false -> ports_kept f cs (cs ++ [c]).
Proof. intros H p Hp. rewrite on_port_snoc, decide_False, app_nil_r by congruence. done. Qed.
Lemma ports_kept_removed f l1 c l2 : f (port c) = false -> ports_kept f (l1 ++ c :: l2) (l1 ++ l2).
Proof. intros H p Hp. symmetry. apply on_port_other. congruence. Qed.

Lemma busy_count_kept cs cs' q : ports_kept array_port cs cs' -> busy_count j q cs' = busy_count j q cs.
Proof.
  intros H. unfold busy_count. do 2 f_equal. apply list_filter_iff. intros r. unfold busy. by rewrite H.
Qed.
Lemma arrays_calls st rem cs cs' b : ports_kept array_port cs cs' -> arrays_ok st rem cs b -> arrays_ok st rem cs' b.
Proof.
  intros H (A1 & A2 & A3 & A4 & A5). split; [done|]. rewrite !(busy_count_kept cs cs') by done.
  split; [done|]. split; [done|]. split; intros r Hr; rewrite H by done; [by apply A4|by apply A5].
Qed.

(** The fields of the two prefetchers. *)
Definition prefetch_view (g : ReuseWindowGemm) : ReuseWindowGemm :=
  ReuseWindowGemm_new <| slots := slots g |> <| nextPrefetch := nextPrefetch g |> <| inputSlots := inputSlots g |>
    <| preparedSeq := preparedSeq g |> <| inputReading := inputReading g |> <| inputPending := inputPending g |>
    <| inputReady := inputReady g |> <| inputReadAddress := inputReadAddress g |> <| inputOffset := inputOffset g |>
    <| inputBytes := inputBytes g |> <| inputValues := inputValues g |>.

Lemma weights_calls source wb m cur nextP sl cs cs' :
  ports_kept prefetch_port cs cs' -> weights_ok j source wb m cur nextP sl cs -> weights_ok j source wb m cur nextP sl cs'.
Proof.
  intros H (W1 & W2 & W3 & W4). split; [done|]. split; [done|]. split; [|done]. intros i. rewrite H by done. apply W3.
Qed.
Lemma weights_view source wb m cur g g' :
  prefetch_view g' = prefetch_view g -> ports_kept prefetch_port (calls g) (calls g') ->
  weights_inv source wb m cur g -> weights_inv source wb m cur g'.
Proof.
  intros E H W. unfold GemmSlots.weights_inv.
  change (slots g') with (slots (prefetch_view g')). change (nextPrefetch g') with (nextPrefetch (prefetch_view g')).
  rewrite E. by apply (weights_calls _ _ _ _ _ _ (calls g)).
Qed.
Lemma inputs_view data addr m cur limit g g' :
  prefetch_view g' = prefetch_view g -> ports_kept prefetch_port (calls g) (calls g') ->
  inputs_inv data addr m cur limit g -> inputs_inv data addr m cur limit g'.
Proof.
  intros E H I. assert (I' : inputs_inv data addr m cur limit ((prefetch_view g) <| calls := calls g' |>)).
  { unfold GemmSlots.inputs_inv in *. destruct (inputPrefetch j); destruct I as [I1 I2]; split.
    - destruct I1 as [S1 S2]. split; [|exact S2]. intros i. specialize (S1 i). rewrite <- H in S1 by done. exact S1.
    - rewrite <- H in I2 by done. exact I2.
    - unfold stream_ok in *. rewrite <- H in I1 by done. exact I1.
    - intros i. specialize (I2 i). rewrite <- H in I2 by done. exact I2. }
  rewrite <- E in I'. exact I'.
Qed.
(** Each prefetcher ignores what the other one does. *)
Lemma inputs_core data addr m cur limit g g' :
  weight_core g' = weight_core g -> same_ports weight_port g g' ->
  inputs_inv data addr m cur limit g -> inputs_inv data addr m cur limit g'.
Proof.
  intros E H I. assert (I' : inputs_inv data addr m cur limit ((weight_core g) <| calls := calls g' |>)).
  { unfold GemmSlots.inputs_inv in *. destruct (inputPrefetch j); destruct I as [I1 I2]; split.
    - destruct I1 as [S1 S2]. split; [|exact S2]. intros i. specialize (S1 i). rewrite <- H in S1 by done. exact S1.
    - rewrite <- H in I2 by done. exact I2.
    - unfold stream_ok in *. rewrite <- H in I1 by done. exact I1.
    - intros i. specialize (I2 i). rewrite <- H in I2 by done. exact I2. }
  rewrite <- E in I'. exact I'.
Qed.
Lemma weights_core source wb m cur g g' :
  input_core g' = input_core g -> same_ports input_port g g' ->
  weights_inv source wb m cur g -> weights_inv source wb m cur g'.
Proof.
  intros E H (W1 & W2 & W3 & W4). unfold GemmSlots.weights_inv.
  change (slots g') with (slots (input_core g')). change (nextPrefetch g') with (nextPrefetch (input_core g')).
  rewrite E. split; [done|]. split; [done|]. split; [|done]. intros i. rewrite H by done. apply W3.
Qed.
Lemma idle_view g g' :
  prefetch_view g' = prefetch_view g -> ports_kept prefetch_port (calls g) (calls g') ->
  (weights_idle g -> weights_idle g') /\ (inputs_idle j g -> inputs_idle j g').
Proof.
  intros E H. unfold weights_idle, inputs_idle. split.
  - intros W i. change (slots g' i) with (slots (prefetch_view g') i). rewrite E, H by done. apply W.
  - change (inputSlots g') with (inputSlots (prefetch_view g')). change (inputReading g') with (inputReading (prefetch_view g')).
    change (inputPending g') with (inputPending (prefetch_view g')). rewrite E, H by done.
    intros (I1 & I2 & I3). split; [exact I1|]. split; [exact I2|]. intros i. rewrite H by done. apply I3.
Qed.
Lemma run_view base kb cur m g g' :
  prefetch_view g' = prefetch_view g -> ports_kept prefetch_port (calls g) (calls g') ->
  prefetch_run base kb cur m g -> prefetch_run base kb cur m g'.
Proof.
  intros E H (R1 & R2 & R3). split; [by apply (weights_view _ _ _ _ g)|]. split; [|by apply (inputs_view _ _ _ _ _ g)].
  change (nextPrefetch (prefetch_view g') = Z.min (seq_limit base kb) (cur + slotCount j)). by rewrite E.
Qed.
Lemma held_view st g g' :
  prefetch_view g' = prefetch_view g -> ports_kept prefetch_port (calls g) (calls g') ->
  tile_held j st g -> tile_held j st g'.
Proof.
  intros E H (T1 & T2 & T3 & T4). unfold tile_held, input_is_ready.
  change (preparedSeq g') with (preparedSeq (prefetch_view g')). change (slots g') with (slots (prefetch_view g')).
  change (inputSlots g') with (inputSlots (prefetch_view g')). change (inputReady g') with (inputReady (prefetch_view g')).
  rewrite E. split; [exact T1|]. split; [exact T2|]. split; [|exact T4].
  intros F. apply (idle_view g); auto.
Qed.
Lemma prefetch_calls st m g g' :
  prefetch_view g' = prefetch_view g -> ports_kept prefetch_port (calls g) (calls g') ->
  prefetch_ok st m g -> prefetch_ok st m g'.
Proof.
  intros E H. unfold GemmInvariant.prefetch_ok. destruct (prefetching j st).
  - intros [P1 P2]. split; [by apply (run_view _ _ _ _ g)|by apply (held_view _ g)].
  - intros [P1 P2]. destruct (idle_view g g' E H). auto.
Qed.

(** ** Memory *)

Definition in_a (x : Z) : Prop := aBase j <= x < aBase j + Z.min (kWindow j) (kTiles j) * rows j * 128.
Definition in_b (x : Z) : Prop := bBase j <= x < bBase j + slotCount j * 8192.
Definition in_c (x : Z) : Prop := cBase j <= x < cBase j + Z.min 4 (tile_count j) * rows j * 256.
Definition resident (x : Z) : Prop :=
  exists f kk, ga_inputAddress (args j) = Some f /\ 0 <= kk < kTiles j /\ f kk <= x < f kk + rows j * 128.
(** The activations of the job, wherever they are. *)
Definition in_inputs (x : Z) : Prop :=
  match ga_inputAddress (args j) with Some _ => resident x | None => in_a x end.

Lemma aBytes_val : aBytes j = Z.min (kWindow j) (kTiles j) * rows j * 128.
Proof.
  pose proof (ok_window _ _ _ Hj). pose proof (ok_kTiles _ _ _ Hj). pose proof (ok_rows _ _ _ Hj). unfold aBytes.
  assert (0 <= Z.min (kWindow j) (kTiles j) * rows j <= 2048) by nia. unwrap64. done.
Qed.
Lemma bBytes_val : bBytes j = slotCount j * 8192.
Proof. pose proof (ok_slots _ _ _ Hj). unfold bBytes. apply u32_id. unfold in_u32. lia. Qed.
Lemma cBytes_val : cBytes j = Z.min 4 (tile_count j) * rows j * 256.
Proof.
  pose proof (ok_rows _ _ _ Hj). pose proof (ok_tiles _ _ _ Hj). unfold cBytes.
  assert (0 <= Z.min 4 (tile_count j) * rows j <= 256) by nia. unwrap64. done.
Qed.
Lemma regions_owned x : in_a x \/ in_b x \/ in_c x \/ resident x -> owned j x.
Proof. unfold owned. rewrite aBytes_val, bBytes_val, cBytes_val. done. Qed.

Lemma window_input_inside base kb i x :
  window_ok base kb -> 0 <= i < kC kb -> window_input j kb i <= x < window_input j kb i + rows j * 128 -> in_inputs x.
Proof.
  intros Hw Hi. pose proof (kC_range _ _ _ Hj _ _ Hw). pose proof (rows_range _ _ _ Hj). unfold window_input, in_inputs, tile_bytes.
  destruct (ga_inputAddress (args j)) as [f|] eqn:E.
  - intros Hx. exists f, (kb + i). split; [done|]. split; [lia|done].
  - unfold in_a. intros Hx. assert (i + 1 <= Z.min (kWindow j) (kTiles j)) by (unfold GemmInvariant.kC in *; lia). nia.
Qed.
Lemma spill_inside base kb i x :
  window_ok base kb -> 0 <= i < nC base -> spill_address j i <= x < spill_address j i + rows j * 256 -> in_c x.
Proof. intros Hw Hi. pose proof (spill_address_range _ _ _ Hj _ _ _ Hw Hi). unfold in_c. lia. Qed.

Lemma inputs_outside x : in_inputs x -> ~ in_b x /\ ~ in_c x.
Proof.
  unfold in_inputs. destruct (ga_inputAddress (args j)) as [f|] eqn:E.
  - intros (f' & kk & E' & Hk & Hx). rewrite E in E'. injection E' as <-.
    destruct (ok_resident _ _ _ Hj f kk E Hk) as (_ & _ & D1 & D2). unfold disjoint, in_b, in_c in *. lia.
  - intros Hx. pose proof (ok_ab _ _ _ Hj). pose proof (ok_ac _ _ _ Hj). unfold disjoint, in_a, in_b, in_c in *. lia.
Qed.
Lemma b_outside x : in_b x -> ~ in_c x /\ ~ in_inputs x.
Proof.
  intros Hx. split; [|intros H; by destruct (inputs_outside x H)].
  pose proof (ok_bc _ _ _ Hj). unfold disjoint, in_b, in_c in *. lia.
Qed.
End parts.
