(* ===== verification/GemmMemory.v ===== *)
(** * Memory in the invariant of the window GEMM

    What the three regions hold as the job's own writes and the other users of memory
    change it, and what a stage that follows inherits. *)

From Stdlib Require Import ZArith Lia.
From Stdlib Require Import Init.Byte.
From stdpp Require Import base numbers functions list.
From S2P Require Import Prelude RecordUpdate Ieee IeeeArith Fp16 AttentionBase ComputeUnit TileArray ControlTransport WindowGemm GemmValues GemmSystem GemmArrays GemmSlots GemmInvariant GemmFacts GemmSums GemmParts.
Open Scope Z_scope.

Lemma write_outside m a bs x : ~ (a <= x < a + blen bs) -> write_mem m a bs x = m x.
Proof. intros H. unfold write_mem. cbv zeta. destruct (_ && _) eqn:E; [boolify; lia|done]. Qed.
(** Writing what is there already. *)
Lemma write_noop m a bs off len x : holds m a bs -> 0 <= off -> write_mem m (a + off) (bslice off len bs) x = m x.
Proof.
  intros H Ho. unfold write_mem. cbv zeta. case_match; [|done]. boolify. rewrite bslice_lookup by done.
  destruct (decide (Z.of_nat (Z.to_nat (x - (a + off))) < len)); [|done].
  destruct (bs !! (Z.to_nat off + Z.to_nat (x - (a + off)))%nat) as [b|] eqn:E; [|done]. cbn. rewrite <- (H _ _ E). f_equal. lia.
Qed.
Lemma holds_prefix m a bs len : holds m a bs -> holds m a (bslice 0 len bs).
Proof.
  intros H i b E. rewrite bslice_lookup in E by done. case_decide; [|done]. by apply H.
Qed.
Lemma bslice_blen_le off len bs : 0 <= len -> blen (bslice off len bs) <= len.
Proof. intros H. unfold blen, bslice. rewrite length_take. lia. Qed.

Section memory.
Context (j : GemmJob) (host : Z -> byte) (inputs initials : Z -> Values) (m0 : Z -> byte).
Hypothesis Hj : job_ok j inputs initials.

Notation nC := (nC j).
Notation kC := (kC j).
Notation window_ok := (window_ok j).
Notation stage_ok := (stage_ok j).
Notation seq_limit := (seq_limit j).
Notation memory_ok := (memory_ok j host inputs initials m0).
Notation prefetch_run := (prefetch_run j host inputs m0).
Notation prefetch_ok := (prefetch_ok j host inputs m0).
Notation input_tile_bytes := (input_tile_bytes j inputs m0).
Notation spill := (spill j host inputs initials m0).
Notation in_inputs := (in_inputs j).

Lemma stage_window st : stage_ok st -> st <> SFinish -> st <> SDone -> window_ok (st_base j st) (st_kb st).
Proof using Type. clear host inputs initials m0 Hj. destruct st; cbn; tauto. Qed.
Lemma loaded_range st :
  stage_ok st -> 0 < loaded j st -> window_ok (st_base j st) (st_kb st) /\ loaded j st <= kC (st_kb st).
Proof.
  intros H Hl. split; [apply stage_window; [done| |]; intros ->; cbn in Hl; lia|].
  assert (B : forall base kb, window_ok base kb -> bridgeWeights j && negb (base =? 0) = true -> kTiles j <= kC kb).
  { intros base kb Hw E. boolify. pose proof (kC_bridge _ _ _ Hj _ _ Hw). intuition lia. }
  destruct st as [base kb|base kb i w|base kb i off w| | | | | | | | | |]; cbn in *; try lia;
    destruct (bridgeWeights j && negb (base =? 0)) eqn:E; try lia; apply (B base); tauto.
Qed.
Lemma spilled_range st : stage_ok st -> spilled_hi st <= nC (st_base j st) /\ 0 <= spilled_lo st.
Proof.
  unfold GemmInvariant.nC. destruct st; cbn; unfold GemmInvariant.nC, GemmInvariant.window_ok; try lia.
Qed.

(** *** Changes elsewhere *)

Lemma input_tile_at f kk x : ga_inputAddress (args j) = Some f -> 0 <= kk < kTiles j ->
  f kk <= x < f kk + blen (input_tile_bytes kk) -> in_inputs x.
Proof.
  intros E Hk. rewrite (input_tile_blen _ _ _ _ Hj) by done. intros Hx. unfold GemmParts.in_inputs. rewrite E. by exists f, kk.
Qed.
Lemma loaded_tile_at base kb i x : window_ok base kb -> 0 <= i < kC kb -> ga_inputAddress (args j) = None ->
  aBase j + i * tile_bytes j <= x < aBase j + i * tile_bytes j + rows j * 128 -> in_inputs x.
Proof.
  intros Hw Hi E Hx. apply (window_input_inside _ _ _ Hj base kb i x Hw Hi). unfold window_input. by rewrite E.
Qed.
Lemma tile_blen base kb i : window_ok base kb -> 0 <= i < kC kb -> blen (input_tile_bytes (kb + i)) = rows j * 128.
Proof. intros Hw Hi. pose proof (kC_range _ _ _ Hj _ _ Hw). apply (input_tile_blen _ _ _ _ Hj). lia. Qed.

Lemma memory_same st m m' :
  stage_ok st -> memory_ok st m -> (forall x, in_inputs x \/ in_c j x -> m' x = m x) -> memory_ok st m'.
Proof.
  intros Hs (M1 & M2 & M3 & M4 & M5) H. pose proof (spilled_range st Hs) as [R1 R2]. split; [|split; [|split; [|split]]].
  - intros f kk E Hk. eapply holds_same; [by apply M1|]. intros x Hx. apply H. left. by apply (input_tile_at f kk).
  - intros E i Hi. destruct (loaded_range st Hs) as [Hw Hl]; [lia|]. eapply holds_same; [by apply M2|]. intros x Hx. apply H. left.
    rewrite (tile_blen _ _ _ Hw) in Hx by lia. apply (loaded_tile_at _ _ i x Hw); [lia|done|done].
  - intros Hk i Hi. eapply holds_same; [by apply M3|]. intros x Hx. apply H. right.
    rewrite (spill_blen _ _ _ _ _ Hj) in Hx.
    assert (Hw : window_ok (st_base j st) (st_kb st)) by (apply stage_window; [done| |]; intros ->; cbn in Hk; lia).
    apply (spill_inside _ _ _ Hj _ _ i x Hw); [lia|done].
  - intros Hk i Hi. eapply holds_same; [by apply M4|]. intros x Hx. apply H. right.
    rewrite (spill_blen _ _ _ _ _ Hj) in Hx.
    assert (Hw : window_ok (st_base j st) (st_kb st)) by (apply stage_window; [done| |]; intros ->; cbn in Hi; lia).
    apply (spill_inside _ _ _ Hj _ _ i x Hw); [lia|done].
  - destruct st as [base kb|base kb i w|base kb i off w| | | | | | |base kb nn off w| | |]; try done.
    + destruct Hs as (Hw & Hi & E & Ho). eapply holds_same; [done|]. intros x Hx. apply H. left.
      apply (loaded_tile_at base kb i x Hw Hi E). pose proof (bslice_blen_le 0 off (input_tile_bytes (kb + i)) ltac:(lia)).
      unfold tile_bytes in *. lia.
    + destruct Hs as (Hw & Hi & E & Ho). eapply holds_same; [done|]. intros x Hx. apply H. right.
      apply (spill_inside _ _ _ Hj base kb nn x Hw Hi). pose proof (bslice_blen_le 0 off (spill (base + nn) (kb + kC kb)) ltac:(lia)).
      unfold spill_bytes in *. lia.
Qed.

(** The prefetchers, while only memory changes. *)
Lemma seq_weights_read base kb s : mem_bytes host (seq_source j base kb s) 8192 = seq_weights j host base kb s.
Proof. unfold seq_weights. reflexivity. Qed.
Lemma weights_kept base kb cur m m' g :
  weights_inv j (seq_source j base kb) (seq_weights j host base kb) m cur g ->
  (forall x, in_b j x -> m' x = m x) ->
  weights_inv j (seq_source j base kb) (seq_weights j host base kb) m' cur g.
Proof.
  exact (fun H => weights_memory j host _ _ (seq_weights_read base kb) (ok_slots _ _ _ Hj) (ok_b _ _ _ Hj) m m' cur _ _ _ H).
Qed.
Lemma run_memory base kb cur m m' g :
  window_ok base kb -> prefetch_run base kb cur m g -> (preparedSeq g = cur -> cur < seq_limit base kb) ->
  (forall x, in_b j x \/ in_inputs x -> m' x = m x) -> prefetch_run base kb cur m' g.
Proof.
  intros Hw (R1 & R2 & R3) Hlt H. split; [|split; [done|]].
  - apply (weights_kept base kb cur m); [done|]. intros x Hx. apply H. by left.
  - apply inputs_memory with (m := m); try done.
    + intros s. by apply (seq_bytes_blen _ _ _ _ Hj base).
    + intros s a Hs Ha. apply H. right. pose proof (mod_kC _ _ _ Hj base kb s Hw).
      by apply (window_input_inside _ _ _ Hj base kb (s mod kC kb)).
Qed.
(** Idle activation reads satisfy every later need. *)
Lemma idle_inputs data addr m cur limit g : inputs_idle j g -> preparedSeq g <> cur -> inputs_inv j data addr m cur limit g.
Proof.
  unfold inputs_idle, inputs_inv. intros (I1 & I2 & I3) Hp. destruct (inputPrefetch j).
  - split; [split; [|done]|exact I2]. intros i. left. split; [apply I1|apply I3].
  - split; [left|exact I3]. destruct I1. done.
Qed.
Lemma run_idle_memory base kb cur m m' g :
  prefetch_run base kb cur m g -> inputs_idle j g -> preparedSeq g <> cur ->
  (forall x, in_b j x -> m' x = m x) -> prefetch_run base kb cur m' g.
Proof.
  intros (R1 & R2 & R3) Hi Hp H. split; [|split; [done|by apply idle_inputs]].
  by apply (weights_kept base kb cur m).
Qed.
Lemma held_lt st g : stage_ok st -> prefetching j st = true -> tile_held j st g ->
  preparedSeq g = st_seq j st -> st_seq j st < seq_limit (st_base j st) (st_kb st).
Proof.
  intros Hs Hp (_ & T & _) E. destruct (prepares st) eqn:Ep; [|by apply T in E].
  assert (Hw : window_ok (st_base j st) (st_kb st)) by (apply stage_window; [done| |]; by intros ->).
  pose proof (kC_range _ _ _ Hj _ _ Hw). apply (seq_at_lt _ _ _ Hj _ _ _ _ Hw); destruct st; cbn in *; try done; intuition lia.
Qed.
Lemma prefetch_same st m m' g :
  stage_ok st -> prefetch_ok st m g -> (forall x, in_b j x \/ in_inputs x -> m' x = m x) -> prefetch_ok st m' g.
Proof.
  intros Hs P H. unfold GemmInvariant.prefetch_ok in *. destruct (prefetching j st) eqn:Ep; [|done].
  destruct P as [P1 P2]. split; [|done]. apply (run_memory _ _ _ m); try done.
  - apply stage_window; [done| |]; by intros ->.
  - by apply held_lt.
Qed.
Lemma prefetch_fresh st m m' g :
  fresh j st = true -> prefetch_ok st m g -> (forall x, in_b j x -> m' x = m x) -> prefetch_ok st m' g.
Proof.
  intros Hf P H. unfold GemmInvariant.prefetch_ok in *. destruct (prefetching j st) eqn:Ep; [|done].
  destruct P as [P1 P2]. split; [|done]. destruct P2 as (_ & T2 & T3 & _).
  apply (run_idle_memory _ _ _ m); try done; [by apply T3|]. apply T2. by destruct st.
Qed.

(** *** The job's own writes *)

(** A piece of an activation tile. *)
Lemma memory_load base kb i off len m w w' :
  window_ok base kb -> 0 <= i < kC kb -> ga_inputAddress (args j) = None -> 0 <= off -> 0 <= len -> off + len <= rows j * 128 ->
  memory_ok (SLoad base kb i off w) m ->
  memory_ok (SLoad base kb i (off + len) w')
    (write_mem m (aBase j + i * tile_bytes j + off) (bslice off len (input_tile_bytes (kb + i)))).
Proof.
  intros Hw Hi E Ho Hl Hle (M1 & M2 & M3 & M4 & M5). pose proof (tile_blen base kb i Hw Hi) as Hb.
  set (bs := bslice off len _). assert (Hbs : blen bs = len) by (apply bslice_length; lia).
  pose proof (rows_range _ _ _ Hj) as Hr.
  assert (Hout : forall x, ~ in_inputs x -> write_mem m (aBase j + i * tile_bytes j + off) bs x = m x).
  { intros x Hx. apply write_outside. rewrite Hbs. intros Hy. apply Hx. apply (loaded_tile_at base kb i x Hw Hi E). lia. }
  assert (Hc : forall n' ti d, 0 <= n' < nC base -> holds m (spill_address j n') (spill ti d) ->
             holds (write_mem m (aBase j + i * tile_bytes j + off) bs) (spill_address j n') (spill ti d)).
  { intros n' ti d Hn H. eapply holds_same; [done|]. intros x Hx. rewrite (spill_blen _ _ _ _ _ Hj) in Hx. apply Hout.
    intros Hin. apply (inputs_outside _ _ _ Hj x Hin). by apply (spill_inside _ _ _ Hj base kb n' x Hw). }
  split; [|split; [|split; [|split]]].
  - intros f kk E'. congruence.
  - intros _ i' Hi'. assert (Hld : i' < kC kb).
    { destruct (loaded_range (SAsk base kb i false)) as [_ L]; cbn in *; [done|lia|lia]. }
    destruct (decide (i' = i)) as [->|Hn].
    + apply write_same; [|done]. apply (M2 E i Hi').
    + apply write_keeps; [apply (M2 E i' Hi')|]. cbn [st_kb]. rewrite (tile_blen base kb i' Hw) by lia. rewrite Hbs.
      unfold tile_bytes. destruct (Z.lt_total i' i) as [|[|]]; [right|done|left]; nia.
  - intros Hk n' Hn. cbn in *. apply Hc; [lia|]. apply (M3 Hk n' Hn).
  - cbn. intros _ n' Hn. lia.
  - apply write_next; [done|lia|lia|lia].
Qed.
Lemma memory_loaded base kb i m w w' :
  window_ok base kb -> 0 <= i < kC kb -> ga_inputAddress (args j) = None -> memory_ok (SLoad base kb i (rows j * 128) w) m ->
  memory_ok (if i + 1 <? kC kb then SAsk base kb (i + 1) w' else SRestore base kb 0) m.
Proof.
  intros Hw Hi E (M1 & M2 & M3 & M4 & M5).
  assert (T : forall i', 0 <= i' < i + 1 -> holds m (aBase j + i' * tile_bytes j) (input_tile_bytes (kb + i'))).
  { intros i' Hi'. destruct (decide (i' = i)) as [->|].
    - rewrite <- (tile_blen base kb i Hw Hi), bslice_all in M5. exact M5.
    - apply (M2 E i'). cbn. destruct (bridgeWeights j && negb (base =? 0)) eqn:Eb; [|lia].
      pose proof (kC_range _ _ _ Hj _ _ Hw). lia. }
  destruct (Z.ltb_spec (i + 1) (kC kb)).
  - split; [done|]. split; [|done]. intros _ i' Hi'. cbn in Hi'.
    destruct (bridgeWeights j && negb (base =? 0)) eqn:Eb; [|by apply T]. apply (M2 E i'). cbn. by rewrite Eb.
  - split; [done|]. split; [|done]. intros _ i' Hi'. apply T. cbn in Hi'. lia.
Qed.

(** A piece of a tile's sums. *)
Lemma memory_spill base kb nn off len m w w' :
  window_ok base kb -> 0 <= nn < nC base -> 0 <= off -> 0 <= len -> off + len <= rows j * 256 ->
  memory_ok (SSpill base kb nn off w) m ->
  memory_ok (SSpill base kb nn (off + len) w')
    (write_mem m (spill_address j nn + off) (bslice off len (spill (base + nn) (kb + kC kb)))).
Proof.
  intros Hw Hi Ho Hl Hle (M1 & M2 & M3 & M4 & M5). pose proof (spill_blen _ host _ _ m0 Hj (base + nn) (kb + kC kb)) as Hb.
  set (bs := bslice off len _). assert (Hbs : blen bs = len) by (apply bslice_length; lia).
  assert (Hout : forall x, ~ in_c j x -> write_mem m (spill_address j nn + off) bs x = m x).
  { intros x Hx. apply write_outside. rewrite Hbs. intros Hy. apply Hx. apply (spill_inside _ _ _ Hj base kb nn x Hw Hi). lia. }
  assert (Hc : forall n' ti d, 0 <= n' < nC base -> n' <> nn -> holds m (spill_address j n') (spill ti d) ->
             holds (write_mem m (spill_address j nn + off) bs) (spill_address j n') (spill ti d)).
  { intros n' ti d Hn Hne H. apply write_keeps; [done|]. rewrite Hbs, (spill_blen _ _ _ _ _ Hj). unfold spill_address.
    pose proof (rows_range _ _ _ Hj). destruct (Z.lt_total n' nn) as [|[|]]; [right|done|left]; nia. }
  split; [|split; [|split; [|split]]].
  - intros f kk E Hk. eapply holds_same; [by apply M1|]. intros x Hx. apply Hout. apply (inputs_outside _ _ _ Hj). by apply (input_tile_at f kk).
  - intros E i' Hi'. cbn in Hi'. eapply holds_same; [by apply (M2 E i')|]. intros x Hx. apply Hout. apply (inputs_outside _ _ _ Hj).
    cbn [st_kb] in Hx. rewrite (tile_blen base kb i' Hw) in Hx by lia. by apply (loaded_tile_at base kb i' x Hw).
  - intros Hk n' Hn. cbn in *. apply Hc; [lia|lia|]. apply (M3 Hk n' Hn).
  - intros Hk n' Hn. cbn in *. apply Hc; [lia|lia|]. apply (M4 Hk n' Hn).
  - apply write_next; [done|lia|lia|lia].
Qed.
Lemma memory_spilled base kb nn m w :
  memory_ok (SSpill base kb nn (rows j * 256) w) m -> memory_ok (SEnd base kb nn false) m.
Proof.
  intros (M1 & M2 & M3 & M4 & M5). split; [done|]. split; [done|]. split; [done|]. split; [|done]. cbn in *.
  intros Hk i Hi. destruct (decide (i = nn)) as [->|]; [|apply M4; [done|lia]].
  rewrite <- (spill_blen _ host _ _ m0 Hj (base + nn) (kb + kC kb)), bslice_all in M5. exact M5.
Qed.
(** The sums have been read out of the arrays. *)
Lemma memory_drained base kb nn m w :
  memory_ok (SDrain base kb nn w) m ->
  memory_ok (SSpill base kb nn 0 false) m /\ (kb + kC kb = kTiles j -> forall p, memory_ok (SEnd base kb nn p) m).
Proof.
  intros (M1 & M2 & M3 & M4 & M5). cbn in *.
  assert (M3' : 0 < kb -> forall i, nn + 1 <= i < nC base -> holds m (spill_address j i) (spill (base + i) kb)).
  { intros Hk i Hi. apply M3; [done|lia]. }
  split.
  - split; [done|]. split; [done|]. split; [done|]. split; [done|]. apply holds_nil.
  - intros Hk p. split; [done|]. split; [done|]. split; [done|]. split; [cbn; intros; lia|done].
Qed.
(** The next window. *)
Lemma memory_next_step base kb nn m p :
  nn + 1 = nC base -> kb + kC kb < kTiles j -> bridgeWeights j = false ->
  memory_ok (SEnd base kb nn p) m -> memory_ok (SBegin base (kb + kC kb)) m.
Proof.
  intros Hn Hk Hb (M1 & M2 & M3 & M4 & M5). cbn in *. split; [done|]. cbn. rewrite Hb.
  split; [cbn; intros; lia|]. split; [|split; [cbn; intros; lia|done]]. intros _ i Hi. apply M4; lia.
Qed.
Lemma memory_next_tiles base kb nn m p st :
  window_ok base kb -> st = SFinish \/ st = SDone \/ st = SBegin (base + nC base) 0 ->
  memory_ok (SEnd base kb nn p) m -> memory_ok st m.
Proof.
  intros Hw Hst (M1 & M2 & M3 & M4 & M5). split; [done|].
  split; [|destruct Hst as [-> | [-> | ->]]; cbn; (split; [intros; lia|]); (split; [intros; lia|done])].
  destruct Hst as [-> | [-> | ->]]; cbn; try (intros; lia). intros E i Hi. destruct (bridgeWeights j) eqn:Hb; cbn in Hi; [|lia].
  pose proof (kC_bridge _ _ _ Hj _ _ Hw Hb) as [-> HkC]. apply (M2 E i). cbn.
  destruct (negb _); lia.
Qed.
End memory.
