(* ===== verification/GemmRows.v ===== *)
(** * The arrays in the invariant of the window GEMM

    Groups of arrays, the counts of outstanding multiplies, and what every operation on
    the bank does to the rows' invariant. *)

From Stdlib Require Import ZArith Lia.
From Stdlib Require Import Init.Byte.
From stdpp Require Import base numbers functions sets list.
From S2P Require Import Prelude RecordUpdate Ieee IeeeArith Fp16 AttentionBase ComputeUnit TileArray ControlTransport WindowGemm GemmValues GemmSystem GemmArrays GemmSlots GemmInvariant GemmFacts GemmSums GemmParts.
Open Scope Z_scope.
(** Tiles of 8192 bytes are never computed here. *)
#[local] Opaque mem_bytes.

(** Consecutive array numbers. *)
Definition run_from (b len : nat) : list Z := map Z.of_nat (seq b len).
Lemma run_elem b len r : r ∈ run_from b len <-> Z.of_nat b <= r < Z.of_nat (b + len).
Proof.
  unfold run_from. rewrite list_elem_of_fmap. split.
  - intros (i & -> & Hi%elem_of_seq). lia.
  - intros Hr. exists (Z.to_nat r). rewrite elem_of_seq. lia.
Qed.
Lemma run_NoDup b len : NoDup (run_from b len).
Proof. unfold run_from. apply NoDup_fmap; [intros ? ? ?; lia|]. apply NoDup_seq. Qed.
Lemma run_length b len : length (run_from b len) = len.
Proof. unfold run_from. by rewrite length_map, length_seq. Qed.
Lemma run_find r len : forall b, Z.of_nat b <= r < Z.of_nat (b + len) ->
  list_find (.= r) (run_from b len) = Some ((Z.to_nat r - b)%nat, r).
Proof.
  unfold run_from. induction len as [|len IH]; intros b Hr; [lia|]. cbn [seq map list_find].
  destruct (decide (Z.of_nat b = r)) as [E|Hn].
  - subst r. do 2 f_equal. lia.
  - rewrite IH by lia. cbn. do 2 f_equal. lia.
Qed.
Lemma run_find_none r b len : ~ (Z.of_nat b <= r < Z.of_nat (b + len)) -> list_find (.= r) (run_from b len) = None.
Proof. intros H. apply list_find_None, Forall_forall. intros x Hx%run_elem ->. done. Qed.
Lemma run_from_zero len : arrays_from_zero (run_from 0 len) = true.
Proof. apply bool_decide_eq_true. by rewrite run_length. Qed.

Lemma flat_map_rows {A} (f : Z -> list A) (g : nat -> list A) ns :
  (forall i, i ∈ ns -> f (Z.of_nat i) = g i) -> flat_map f (map Z.of_nat ns) = flat_map g ns.
Proof.
  induction ns as [|i ns IH]; intros H; [done|]. cbn. rewrite IH by (intros i' Hi; apply H; by right). rewrite H by left. done.
Qed.

(** The sizes of filtered lists. *)
Lemma filter_ext_in {A} (P Q : A -> Prop) `{!forall x, Decision (P x), !forall x, Decision (Q x)} (l : list A) :
  (forall x, x ∈ l -> P x <-> Q x) -> filter P l = filter Q l.
Proof.
  induction l as [|x l IH]; intros He; [done|]. rewrite !filter_cons, IH by (intros y Hy; apply He; by right).
  assert (E : P x <-> Q x) by (apply He; left). destruct (decide (P x)), (decide (Q x)); tauto || done.
Qed.
Lemma filter_length_drop `{EqDecision A} (P Q : A -> Prop) `{!forall x, Decision (P x), !forall x, Decision (Q x)} (a : A) (l : list A) :
  NoDup l -> a ∈ l -> P a -> ~ Q a -> (forall x, x <> a -> P x <-> Q x) ->
  length (filter P l) = S (length (filter Q l)).
Proof.
  intros Hd Ha HP HQ He. induction Hd as [|x l Hx Hd IH]; [by apply not_elem_of_nil in Ha|].
  rewrite !filter_cons. destruct (decide (x = a)) as [->|Hn].
  - rewrite decide_True, decide_False by done. cbn. f_equal. f_equal.
    apply filter_ext_in. intros y Hy. apply He. by intros ->.
  - assert (Ha' : a ∈ l) by (apply elem_of_cons in Ha as [->|]; done). specialize (IH Ha'). specialize (He x Hn).
    destruct (decide (P x)), (decide (Q x)); cbn; tauto || lia.
Qed.

Section rows.
Context (j : GemmJob) (cfg : TileUnitConfig) (host : Z -> byte) (inputs initials : Z -> Values) (m0 : Z -> byte).
Hypothesis Hj : job_ok j inputs initials.

Notation nC := (nC j).
Notation kC := (kC j).
Notation arrays_ok := (arrays_ok j host inputs initials m0).
Notation row_ok := (row_ok j host inputs initials m0).
Notation row_state := (row_state j host inputs initials m0).
Notation group_ids := (group_ids j).
Notation grp_of := (grp_of j).

Lemma arrays_run : arrays j = run_from 0 (Z.to_nat (rows j)).
Proof. done. Qed.
Lemma in_arrays r : r ∈ arrays j <-> 0 <= r < rows j.
Proof. rewrite arrays_run, run_elem. pose proof (rows_range _ _ _ Hj). lia. Qed.

(** *** Groups *)

Lemma groups_cases : groups j = 1 \/ groups j = 2 /\ 32 < rows j.
Proof.
  destruct (ok_groups _ _ _ Hj) as [E [H|H] ]; [by left|]. right. split; [done|].
  destruct (Z.ltb_spec 32 (rows j)); [done|congruence].
Qed.
Lemma grp_bounds q : 0 <= q < groups j -> 0 <= grp_begin j q < grp_end j q /\ grp_end j q <= rows j.
Proof.
  intros Hq. pose proof (rows_range _ _ _ Hj). unfold grp_begin, grp_end.
  destruct groups_cases as [E|[E E32] ]; rewrite E in *; cbn [Z.eqb Pos.eqb]; lia.
Qed.
Lemma grp_of_range r : 0 <= r < rows j -> 0 <= grp_of r < groups j.
Proof.
  intros Hr. pose proof (rows_range _ _ _ Hj). unfold GemmInvariant.grp_of.
  destruct groups_cases as [E|[E E32] ]; rewrite E; cbn [Z.eqb Pos.eqb]; [lia|].
  pose proof (Z.div_mod r 32 ltac:(lia)). pose proof (Z.mod_pos_bound r 32 ltac:(lia)). lia.
Qed.
Lemma grp_of_small r : 0 <= r < rows j -> grp_of r = 0 \/ grp_of r = 1.
Proof. intros Hr. pose proof (grp_of_range r Hr). destruct groups_cases as [E|[E _]]; lia. Qed.
Lemma grp_member q r : 0 <= q < groups j -> 0 <= r < rows j -> (grp_begin j q <= r < grp_end j q <-> grp_of r = q).
Proof.
  intros Hq Hr. pose proof (rows_range _ _ _ Hj). unfold grp_begin, grp_end, GemmInvariant.grp_of.
  destruct groups_cases as [E|[E E32] ]; rewrite E in *; cbn [Z.eqb Pos.eqb]; [lia|].
  pose proof (Z.div_mod r 32 ltac:(lia)). pose proof (Z.mod_pos_bound r 32 ltac:(lia)). lia.
Qed.
Lemma group_ids_run q : group_ids q = run_from (Z.to_nat (grp_begin j q)) (Z.to_nat (grp_end j q - grp_begin j q)).
Proof. done. Qed.
Lemma in_group q r : 0 <= q < groups j -> r ∈ group_ids q <-> 0 <= r < rows j /\ grp_of r = q.
Proof.
  intros Hq. pose proof (grp_bounds q Hq). rewrite group_ids_run, run_elem. split.
  - intros Hr. assert (0 <= r < rows j) by lia. split; [done|]. apply (grp_member q r Hq); lia.
  - intros [Hr Hg]. apply (grp_member q r Hq) in Hg; lia.
Qed.
Lemma group_ids_length q : 0 <= q < groups j -> Z.of_nat (length (group_ids q)) = grp_end j q - grp_begin j q.
Proof. intros Hq. pose proof (grp_bounds q Hq). rewrite group_ids_run, run_length. lia. Qed.

Lemma groupArrays_at g q : group g = q -> 0 <= q < groups j ->
  groupArrays j g = group_ids q /\ group_begin j g = grp_begin j q /\ group_end j g = grp_end j q.
Proof.
  intros <- Hq. pose proof (grp_bounds _ Hq) as Hb. pose proof (rows_range _ _ _ Hj).
  assert (E : group_begin j g = grp_begin j (group g) /\ group_end j g = grp_end j (group g)).
  { unfold group_begin, group_end, group_begin, grp_begin, grp_end in *. destruct groups_cases as [E|[E E32] ]; rewrite E in *; cbn [Z.eqb Pos.eqb] in *;
      [done|]. unwrap32. done. }
  destruct E as [E1 E2]. split; [|done]. unfold groupArrays, GemmInvariant.group_ids, arrays. rewrite E1, E2.
  unfold GemmInvariant.group_ids. rewrite skipn_map, firstn_map. f_equal.
  rewrite drop_seq, take_seq. f_equal; lia.
Qed.

(** *** Outstanding multiplies *)

Lemma busy_iff cs r : busy cs r = true <-> on_port (PArray r) cs <> [].
Proof. unfold busy. rewrite negb_true_iff, bool_decide_eq_false. done. Qed.
Lemma busy_zero q cs : busy_count j q cs = 0 <-> (forall r, 0 <= r < rows j -> grp_of r = q -> on_port (PArray r) cs = []).
Proof.
  unfold busy_count. split.
  - intros H r Hr Hg. destruct (decide (on_port (PArray r) cs = [])) as [|Hn]; [done|].
    assert (Hin : r ∈ filter (fun r => grp_of r = q /\ busy cs r = true) (arrays j)).
    { apply list_elem_of_filter. split; [split; [done|by apply busy_iff]|by apply in_arrays]. }
    destruct (filter _ _); [by apply not_elem_of_nil in Hin|cbn in H; lia].
  - intros H. rewrite (filter_ext_in _ (fun _ => False)); [by induction (arrays j)|]. intros r Hr. split; [|done]. intros [Hg Hb].
    apply busy_iff in Hb. apply Hb, H; [by apply in_arrays|done].
Qed.
Lemma busy_same q cs cs' :
  (forall r, 0 <= r < rows j -> grp_of r = q -> (on_port (PArray r) cs' = [] <-> on_port (PArray r) cs = [])) ->
  busy_count j q cs' = busy_count j q cs.
Proof.
  intros H. unfold busy_count. do 2 f_equal. apply filter_ext_in. intros r Hr%in_arrays.
  rewrite !busy_iff. split; intros [Hg Hb]; (split; [done|]); intros E; apply Hb; by apply (H r Hr Hg).
Qed.
Lemma busy_all q cs : 0 <= q < groups j ->
  (forall r, 0 <= r < rows j -> grp_of r = q -> on_port (PArray r) cs <> []) ->
  busy_count j q cs = Z.of_nat (length (group_ids q)).
Proof.
  intros Hq H. unfold busy_count. f_equal. apply Permutation_length, NoDup_Permutation.
  - apply NoDup_filter. rewrite arrays_run. apply run_NoDup.
  - apply run_NoDup.
  - intros r. rewrite list_elem_of_filter, in_arrays, in_group, busy_iff by done.
    split; [tauto|]. intros [Hr Hg]. split; [split; [done|by apply H]|done].
Qed.
Lemma busy_done q r cs cs' :
  0 <= r < rows j -> grp_of r = q -> on_port (PArray r) cs <> [] -> on_port (PArray r) cs' = [] ->
  (forall r', r' <> r -> on_port (PArray r') cs' = on_port (PArray r') cs) ->
  busy_count j q cs' = busy_count j q cs - 1.
Proof.
  intros Hr Hg H H' Ho. unfold busy_count.
  rewrite (filter_length_drop (fun r => grp_of r = q /\ busy cs r = true) (fun r => grp_of r = q /\ busy cs' r = true) r (arrays j)).
  - lia.
  - rewrite arrays_run. apply run_NoDup.
  - by apply in_arrays.
  - split; [done|by apply busy_iff].
  - intros [_ Hb]. apply busy_iff in Hb. done.
  - intros x Hx. rewrite !busy_iff, Ho by done. done.
Qed.

(** *** Rows and stages *)

Lemma set_quiet st r : (matrix_set j st r = true \/ input_set j st r = true) -> quiet j st r = true.
Proof.
  destruct st as [| | | | | | | ? ? ? ? [|q w|q w|q]| | | | |]; cbn; intros [H|H]; try done.
  unfold targeted. destruct (scatterWave j); [apply Z.eqb_eq in H; lia|done].
Qed.
Lemma computing_quiet st r : computing_stage st = false -> quiet j st r = true.
Proof. by destruct st. Qed.

(** The stage may move where every row allows it. *)
Lemma arrays_stage st st' rem cs b :
  (forall r x c, 0 <= r < rows j -> c = on_port (PArray r) cs -> row_ok st r x c -> row_ok st' r x c) ->
  arrays_ok st rem cs b -> arrays_ok st' rem cs b.
Proof.
  intros H (A1 & A2 & A3 & A4 & A5). repeat (split; [done|]). intros r Hr. apply H; [done|done|]. by apply A5.
Qed.
(** No multiply is under way: the counters are at rest and stay so. *)
Lemma arrays_quiet st st' rem cs b :
  (forall r, 0 <= r < rows j -> quiet j st r = true) -> computing_stage st' = false ->
  arrays_ok st rem cs b -> arrays_ok st' rem cs b.
Proof.
  intros Hq Hc. apply arrays_stage. intros r x c Hr _ [R1 R2]. split; [intros _; by apply R1, Hq|]. by rewrite Hc.
Qed.
Lemma arrays_computing st rem cs b g :
  arrays_ok st rem cs b -> remaining g = rem -> computing g = negb (busy_count j 0 cs =? 0) || negb (busy_count j 1 cs =? 0).
Proof. intros (_ & A2 & A3 & _) <-. unfold computing. by rewrite A2, A3. Qed.
Lemma none_computing st rem cs b g r :
  arrays_ok st rem cs b -> remaining g = rem -> computing g = false -> 0 <= r < rows j -> on_port (PArray r) cs = [].
Proof.
  intros A E H Hr. rewrite (arrays_computing _ _ _ _ _ A E) in H. boolify.
  destruct (grp_of_small r Hr) as [Hg|Hg].
  - by apply (proj1 (busy_zero 0 cs)).
  - by apply (proj1 (busy_zero 1 cs)).
Qed.
Lemma quiet_computing st rem cs b g :
  arrays_ok st rem cs b -> remaining g = rem -> (forall r, 0 <= r < rows j -> quiet j st r = true) -> computing g = false.
Proof.
  intros A E H. rewrite (arrays_computing _ _ _ _ _ A E). destruct A as (_ & _ & _ & _ & A5).
  assert (Z : forall q, busy_count j q cs = 0).
  { intros q. apply busy_zero. intros r Hr _. by apply (A5 r Hr), H. }
  by rewrite !Z.
Qed.
(** The counter of a group says whether it is busy. *)
Lemma group_idle st rem cs b q r :
  arrays_ok st rem cs b -> 0 <= q < groups j -> rem q = 0 -> 0 <= r < rows j -> grp_of r = q -> on_port (PArray r) cs = [].
Proof.
  intros (_ & A2 & A3 & _) Hq H Hr Hg. apply (proj1 (busy_zero q cs)); try done.
  destruct groups_cases as [E|[E _]]; rewrite E in Hq; assert (q = 0 \/ q = 1) as [-> | ->] by lia; lia.
Qed.

(** *** The operations *)

Lemma bank_sizes_ext b b' :
  precisionEnabled b' = precisionEnabled b ->
  (forall r, 0 <= r < rows j ->
     length (inputVector (contexts b' r)) = length (inputVector (contexts b r)) /\
     length (outputVector (contexts b' r)) = length (outputVector (contexts b r)) /\
     length (matrixData (contexts b' r)) = length (matrixData (contexts b r))) ->
  bank_sizes j b -> bank_sizes j b'.
Proof.
  intros Hp H [B1 B2]. split; [by rewrite Hp|]. intros r Hr. destruct (H r Hr) as (-> & -> & ->). by apply B2.
Qed.

(** A launch of group [q]. *)
Definition next_phase (base kb nn kk q : Z) : GemmStage :=
  if q + 1 <? groups j
  then STile base kb nn kk (if scatterWave j then Scattering (q + 1) false else Broadcasting (q + 1) false)
  else if kk + 1 <? kC kb then STile base kb nn (kk + 1) Acquiring else SDrain base kb nn false.
Definition launches (q mode cyc : Z) : list Call :=
  map (fun id => ArrayMac id mode q (Z.of_nat (length (group_ids q))) cyc false) (group_ids q).

Lemma on_port_launches q mode cyc p : 0 <= q < groups j ->
  on_port p (launches q mode cyc) =
  match p with
  | PArray r => if decide (0 <= r < rows j /\ grp_of r = q)
      then [ArrayMac r mode q (Z.of_nat (length (group_ids q))) cyc false] else []
  | _ => []
  end.
Proof.
  intros Hq. unfold launches. generalize (Z.of_nat (length (group_ids q))) as count. intros count.
  assert (H : forall ids, NoDup ids -> on_port p (map (fun id => ArrayMac id mode q count cyc false) ids) =
    match p with PArray r => if decide (r ∈ ids) then [ArrayMac r mode q count cyc false] else [] | _ => [] end).
  { induction 1 as [|id ids Hn Hd IH]; [by destruct p|]. cbn [map]. unfold on_port in *. rewrite filter_cons. cbn [port].
    destruct p as [| | | |r]; try (rewrite decide_False by done; exact IH).
    destruct (decide (PArray id = PArray r)) as [[= ->]|Hne]; rewrite IH.
    - rewrite decide_False by done. rewrite decide_True by (by left). done.
    - apply decide_ext. rewrite elem_of_cons. split; [by right|]. intros [->|]; done. }
  rewrite H by apply run_NoDup. destruct p as [| | | |r]; try done. apply decide_ext. by apply in_group.
Qed.

Lemma arrays_launch base kb nn kk q rem cs b cyc :
  stage_ok j (STile base kb nn kk (Launching q)) ->
  arrays_ok (STile base kb nn kk (Launching q)) rem cs b ->
  arrays_ok (next_phase base kb nn kk q) (<[q := Z.of_nat (length (group_ids q))]> rem)
    (cs ++ launches q (mode_of j (kb + kk)) cyc) b.
Proof.
  intros (Hw & Hn & Hk & Hq) (A1 & A2 & A3 & A4 & A5).
  assert (P : forall r, on_port (PArray r) (cs ++ launches q (mode_of j (kb + kk)) cyc) =
    on_port (PArray r) cs ++ (if decide (0 <= r < rows j /\ grp_of r = q)
      then [ArrayMac r (mode_of j (kb + kk)) q (Z.of_nat (length (group_ids q))) cyc false] else [])).
  { intros r. rewrite on_port_app, on_port_launches by done. done. }
  assert (B : forall q', busy_count j q' (cs ++ launches q (mode_of j (kb + kk)) cyc) =
    if decide (q' = q) then Z.of_nat (length (group_ids q)) else busy_count j q' cs).
  { intros q'. case_decide as E.
    - subst q'. apply busy_all; [done|]. intros r Hr Hg. rewrite P, decide_True by done.
      intros H. apply app_eq_nil in H as [_ H]. done.
    - apply busy_same. intros r Hr Hg. rewrite P, decide_False, app_nil_r by (intros [_ ?]; congruence). done. }
  split; [done|]. rewrite !B.
  split; [destruct (decide (0 = q)) as [<-|]; [by rewrite fn_lookup_insert|by rewrite fn_lookup_insert_ne]|].
  split; [destruct (decide (1 = q)) as [<-|]; [by rewrite fn_lookup_insert|by rewrite fn_lookup_insert_ne]|].
  split.
  - intros r Hr. rewrite P, decide_False, app_nil_r by tauto. by apply A4.
  - intros r Hr. rewrite P. destruct (A5 r Hr) as [R1 R2]. destruct R2 as (R2 & R3 & R4); [done|]. cbn [quiet matrix_set input_set] in *.
    pose proof (grp_of_range r Hr) as Hg. unfold targeted in *.
    destruct (decide (0 <= r < rows j /\ grp_of r = q)) as [[_ E]|E].
    + assert (Et : (if scatterWave j then q <=? grp_of r else grp_of r =? q) = true) by (destruct (scatterWave j); lia).
      rewrite R1 in * by exact Et. destruct R3 as [R3 R3']; [exact Et|]. specialize (R4 ltac:(lia)). cbn [app].
      assert (S : row_state base kb nn r (kb + kk + 1) (contexts b r)
        [ArrayMac r (mode_of j (kb + kk)) q (Z.of_nat (length (group_ids q))) cyc false]).
      { rewrite <- E. apply row_launched; [reflexivity|exact Hk| |exact R3|exact R3'|exact R4].
        cbn in R2. rewrite E, Z.ltb_irrefl, Z.add_0_r in R2. by inversion R2. }
      unfold next_phase. destruct (Z.ltb_spec (q + 1) (groups j)).
      * destruct (scatterWave j) eqn:Es; (split; cbn; unfold targeted; rewrite ?Es).
        -- intros; lia.
        -- intros _. rewrite (proj2 (Z.ltb_lt (grp_of r) (q + 1))) by lia. split; [exact S|]. split; [intros; lia|discriminate].
        -- discriminate.
        -- intros _. rewrite (proj2 (Z.ltb_lt (grp_of r) (q + 1))) by lia. split; [exact S|split; discriminate].
      * destruct (Z.ltb_spec (kk + 1) (kC kb)); (split; [discriminate|]); intros _; (split; [|split; discriminate]); cbn.
        -- rewrite Z.add_0_r, Z.add_assoc. exact S.
        -- replace (kb + kC kb) with (kb + kk + 1) by lia. exact S.
    + assert (E' : grp_of r <> q) by tauto. rewrite app_nil_r. unfold next_phase. destruct (Z.ltb_spec (q + 1) (groups j)).
      * assert (L : launched_in j (STile base kb nn kk (Launching q)) r =
                   launched_in j (STile base kb nn kk (if scatterWave j then Scattering (q + 1) false else Broadcasting (q + 1) false)) r).
        { cbn. destruct (scatterWave j); cbn; f_equal; destruct (Z.ltb_spec (grp_of r) q), (Z.ltb_spec (grp_of r) (q + 1)); done || lia. }
        rewrite L in R2. destruct (scatterWave j) eqn:Es; (split; cbn; unfold targeted; rewrite ?Es).
        -- intros Ht. apply R1. lia.
        -- intros _. split; [exact R2|]. split; [|discriminate]. intros Ht. apply R3. lia.
        -- discriminate.
        -- intros _. split; [exact R2|split; discriminate].
      * assert (Hlt : grp_of r < q) by lia. cbn in R2. rewrite (proj2 (Z.ltb_lt _ _) Hlt) in R2.
        destruct (Z.ltb_spec (kk + 1) (kC kb)); (split; [discriminate|]); intros _; (split; [|split; discriminate]); cbn.
        -- rewrite Z.add_0_r, Z.add_assoc. exact R2.
        -- replace (kb + kC kb) with (kb + kk + 1) by lia. exact R2.
Qed.

(** A multiply, between its launch and its callback. *)
Hypothesis Hfit : arrays_fit cfg.

Lemma row_calls base kb nn r depth x cs :
  row_state base kb nn r depth x cs -> cs = [] \/ exists mode count launched computed,
    cs = [ArrayMac r mode (grp_of r) count launched computed].
Proof. destruct 1; eauto 8. Qed.
Lemma row_launched_inv base kb nn r depth x mode g count launched :
  row_state base kb nn r depth x [ArrayMac r mode g count launched false] ->
  exists kk, depth = kb + kk + 1 /\ 0 <= kk < kC kb /\ mode = mode_of j (kb + kk) /\
    sums_ok j host inputs initials m0 (base + nn) r (kb + kk) x /\ projectionFp16Context x = true /\
    matrixData x = weight_tile j host (tile_at j (base + nn)) (kb + kk) /\
    inputVector x = tile_row (input_tile j inputs m0 (kb + kk)) (Z.to_nat r).
Proof.
  intros H. inversion H as [|kk c' l' D K S F M I|]. exists kk. split; [exact D|]. split; [exact K|]. split; [reflexivity|].
  split; [exact S|]. split; [exact F|]. split; [exact M|exact I].
Qed.
(** The row of an outstanding multiply. *)
Lemma mac_row_of st rem l1 l2 id mode grp count launched computed b :
  arrays_ok st rem (l1 ++ ArrayMac id mode grp count launched computed :: l2) b ->
  0 <= id < rows j /\ grp = grp_of id /\ quiet j st id = false /\ computing_stage st = true /\
  on_port (PArray id) (l1 ++ ArrayMac id mode grp count launched computed :: l2) = [ArrayMac id mode grp count launched computed] /\
  on_port (PArray id) (l1 ++ l2) = [] /\
  row_state (st_base j st) (st_kb st) (st_n st) id (launched_in j st id) (contexts b id) [ArrayMac id mode grp count launched computed].
Proof.
  intros (_ & _ & _ & A4 & A5). set (c := ArrayMac id mode grp count launched computed) in *.
  pose proof (on_port_nil (PArray id) l1 c l2 eq_refl) as N.
  assert (Hr : 0 <= id < rows j) by (destruct (decide (0 <= id < rows j)); [done|by destruct N; apply A4]).
  destruct (A5 id Hr) as [R1 R2].
  assert (Hq : quiet j st id = false) by (destruct (quiet j st id); [by destruct N; apply R1|done]).
  assert (Hc : computing_stage st = true).
  { destruct (computing_stage st) eqn:E; [done|]. rewrite computing_quiet in Hq by done. discriminate. }
  destruct (R2 Hc) as (R3 & _).
  destruct (row_calls _ _ _ _ _ _ _ R3) as [E|(mode' & count' & launched' & computed' & E)]; [by destruct N|].
  destruct (on_port_single (PArray id) l1 c l2 _ eq_refl E) as [Ec R]. rewrite <- Ec in E. injection Ec as -> -> -> -> ->.
  rewrite E in R3. done.
Qed.

Lemma replaced_other p l1 c c' l2 :
  port c = port c' -> port c <> p -> on_port p (l1 ++ c' :: l2) = on_port p (l1 ++ c :: l2).
Proof. intros E H. rewrite !on_port_other by congruence. done. Qed.
Lemma on_port_only p l1 c l2 : port c = p -> on_port p (l1 ++ l2) = [] -> on_port p (l1 ++ c :: l2) = [c].
Proof.
  intros Hp H. rewrite on_port_remove, decide_True by done. rewrite on_port_app in H. apply app_eq_nil in H as [-> ->]. done.
Qed.

Lemma stage_kb st : stage_ok j st -> 0 <= st_kb st.
Proof. destruct st; cbn; unfold window_ok; intuition lia. Qed.
Lemma arrays_multiply st rem l1 l2 id mode grp count launched b :
  stage_ok j st ->
  arrays_ok st rem (l1 ++ ArrayMac id mode grp count launched false :: l2) b ->
  arrays_ok st rem (l1 ++ ArrayMac id mode grp count launched true :: l2) (array_multiply cfg id mode b).
Proof.
  intros Hs A. destruct (mac_row_of _ _ _ _ _ _ _ _ _ _ _ A) as (Hid & Eg & Hq & Hc & Ho & Hn & R). pose proof A as ([B1 B2] & A2 & A3 & A4 & A5).
  set (c := ArrayMac id mode grp count launched false) in *. set (c' := ArrayMac id mode grp count launched true).
  pose proof (rows_range _ _ _ Hj) as Hrows.
  assert (P : forall r, r <> id -> on_port (PArray r) (l1 ++ c' :: l2) = on_port (PArray r) (l1 ++ c :: l2))
    by (intros r Hr; apply replaced_other; [done|cbn; congruence]).
  assert (P' : on_port (PArray id) (l1 ++ c' :: l2) = [c']) by (by apply on_port_only).
  assert (BC : forall q, busy_count j q (l1 ++ c' :: l2) = busy_count j q (l1 ++ c :: l2)).
  { intros q. apply busy_same. intros r Hr _. destruct (decide (r = id)) as [->|Hne]; [|by rewrite P].
    rewrite P', Ho. split; discriminate. }
  destruct (B2 id Hid) as (L1 & L2 & L3).
  destruct Hfit as [F1 F2 F3 F4].
  destruct (row_launched_inv _ _ _ _ _ _ _ _ _ _ R) as (kk & D & K & E & Sm & Fp & Mx & In).
  assert (Hmode : mode = 0 \/ mode = 1) by (rewrite E; unfold mode_of; case_match; tauto).
  destruct (array_multiply_row cfg F1 F2 F3 F4 id mode b B1) as (Y1 & Y2 & Y3 & Y4); [lia|exact Hmode|exact Fp|exact L1|exact L2|].
  assert (Frame : forall q, precisionEnabled (array_multiply cfg id mode b) = false /\
      (q <> id -> contexts (array_multiply cfg id mode b) q = contexts b q))
    by (intros q; by apply array_multiply_frame).
  split; [|split; [by rewrite BC|split; [by rewrite BC|split]]].
  - apply (bank_sizes_ext b); [rewrite (proj1 (Frame 0)), B1; reflexivity| |split; assumption]. intros r Hr. destruct (decide (r = id)) as [->|Hne].
    + rewrite Y1, Y2, Y3, mac_row_length. repeat split.
    + rewrite (proj2 (Frame r) Hne). repeat split.
  - intros r Hr. destruct (decide (r = id)) as [->|Hne]; [lia|]. rewrite P by exact Hne. apply A4, Hr.
  - intros r Hr. destruct (decide (r = id)) as [->|Hne]; [|rewrite P, (proj2 (Frame r)) by exact Hne; apply A5, Hr].
    rewrite P'. split; [rewrite Hq; discriminate|]. intros _. split; [|split].
    + unfold c'. rewrite Eg. apply row_multiplied. intros _. rewrite Y1, Mx, In, E, D.
      apply (row_step j host inputs initials m0 Hj); [exact Hid| |exact L2|exact Sm].
      pose proof (stage_kb st Hs). lia.
    + intros Hm. rewrite (set_quiet st id) in Hq by (by left). discriminate Hq.
    + intros Hm. rewrite (set_quiet st id) in Hq by (by right). discriminate Hq.
Qed.

Lemma busy_le q cs : 0 <= busy_count j q cs <= 64.
Proof.
  pose proof (rows_range _ _ _ Hj). unfold busy_count. pose proof (length_filter (fun r => grp_of r = q /\ busy cs r = true) (arrays j)) as H1.
  rewrite arrays_run, run_length in H1. rewrite arrays_run. lia.
Qed.

(** The callback of a multiply. *)
Lemma arrays_done st rem l1 l2 id mode grp count launched b :
  arrays_ok st rem (l1 ++ ArrayMac id mode grp count launched true :: l2) b ->
  arrays_ok st (<[grp := u32 (rem grp - 1)]> rem) (l1 ++ l2) b.
Proof.
  intros A. destruct (mac_row_of _ _ _ _ _ _ _ _ _ _ _ A) as (Hid & Eg & Hq & Hc & Ho & Hn & R). destruct A as (A1 & A2 & A3 & A4 & A5).
  set (c := ArrayMac id mode grp count launched true) in *.
  assert (P : forall r, r <> id -> on_port (PArray r) (l1 ++ l2) = on_port (PArray r) (l1 ++ c :: l2)).
  { intros r Hr. symmetry. apply on_port_other. cbn. congruence. }
  assert (Rem : rem grp = busy_count j grp (l1 ++ c :: l2)).
  { destruct (grp_of_small id Hid) as [E|E]; rewrite Eg, E; assumption. }
  assert (Bd : busy_count j grp (l1 ++ l2) = busy_count j grp (l1 ++ c :: l2) - 1).
  { apply (busy_done grp id); [exact Hid|symmetry; exact Eg|rewrite Ho; discriminate|exact Hn|exact P]. }
  pose proof (busy_le grp (l1 ++ l2)) as Hle.
  assert (Bo : forall q, q <> grp -> busy_count j q (l1 ++ l2) = busy_count j q (l1 ++ c :: l2)).
  { intros q Hne. apply busy_same. intros r Hr Hg. rewrite P; [done|congruence]. }
  assert (G : forall q, rem q = busy_count j q (l1 ++ c :: l2) -> (<[grp := u32 (rem grp - 1)]> rem) q = busy_count j q (l1 ++ l2)).
  { intros q Hq'. destruct (decide (q = grp)) as [->|Hne].
    - rewrite fn_lookup_insert, Rem, Bd. apply u32_id. unfold in_u32. lia.
    - rewrite fn_lookup_insert_ne, Bo by congruence. exact Hq'. }
  split; [exact A1|]. split; [by apply G|]. split; [by apply G|]. split.
  - intros r Hr. destruct (decide (r = id)) as [->|Hne]; [exact Hn|]. rewrite P by exact Hne. by apply A4.
  - intros r Hr. destruct (decide (r = id)) as [->|Hne]; [|rewrite P by exact Hne; by apply A5].
    rewrite Hn. destruct (A5 id Hr) as [_ R2]. destruct (R2 Hc) as (_ & R3 & R4). split; [reflexivity|]. intros _.
    split; [|split; assumption]. inversion R as [| |mode' count' launched' Sm]. by apply row_idle.
Qed.

(** *** Transfers to the arrays *)

Lemma weight_tile_length t kk : length (weight_tile j host t kk) = 4096%nat.
Proof. unfold weight_tile. rewrite unpack_length, mem_bytes_blen by lia. reflexivity. Qed.
Lemma input_tile_length kk : 0 <= kk < kTiles j -> Z.of_nat (length (input_tile j inputs m0 kk)) = rows j * 64.
Proof.
  intros Hk. pose proof (rows_range _ _ _ Hj). unfold input_tile. rewrite unpack_length.
  change (match _ with Some f => _ | None => _ end) with (input_tile_bytes j inputs m0 kk).
  rewrite (input_tile_blen _ _ _ _ Hj) by done. replace (rows j * 128) with (rows j * 64 * 2) by lia. rewrite Z.div_mul by lia. lia.
Qed.
Lemma transform_single v old : Forall single v -> length old = length v -> transform_into v old = v.
Proof. intros Hv Hl. rewrite transform_same by done. by apply map_single. Qed.

Lemma targeted_ids q r : 0 <= q < groups j -> (scatterWave j = true -> q = 0) ->
  r ∈ (if scatterWave j then arrays j else group_ids q) <-> 0 <= r < rows j /\ targeted j q r = true.
Proof.
  intros Hq Hs. unfold targeted. destruct (scatterWave j).
  - rewrite in_arrays, Hs by done. split; [|tauto]. intros Hr. pose proof (grp_of_range r Hr). split; [done|lia].
  - rewrite in_group by done. by rewrite Z.eqb_eq.
Qed.

Lemma broadcast_sets q w b : 0 <= q < groups j -> (scatterWave j = true -> q = 0) ->
  bank_sizes j b -> length w = 4096%nat -> Forall single w ->
  let b' := for_arrays (program_matrix cfg true w) (if scatterWave j then arrays j else group_ids q) b in
  bank_sizes j b' /\
  forall r, 0 <= r < rows j -> contexts b' r = if targeted j q r then with_matrix true w (contexts b r) else contexts b r.
Proof.
  intros Hq Hs [B1 B2] Hlw Sw. cbv zeta. set (ids := if scatterWave j then arrays j else group_ids q).
  assert (Hd : NoDup ids) by (unfold ids; destruct (scatterWave j); [rewrite arrays_run|]; apply run_NoDup).
  assert (C : forall r, 0 <= r < rows j -> contexts (for_arrays (program_matrix cfg true w) ids b) r =
    if targeted j q r then with_matrix true w (contexts b r) else contexts b r).
  { intros r Hr. destruct Hfit as [F1 F2 F3 F4]. rewrite (broadcast_contexts cfg F1 F2 F3 F4) by exact Hd.
    destruct (B2 r Hr) as (_ & _ & L). destruct (targeted j q r) eqn:E.
    - rewrite decide_True by (apply (targeted_ids q r Hq Hs); done). rewrite transform_single; [done|done|congruence].
    - rewrite decide_False; [done|]. intros H. apply (targeted_ids q r Hq Hs) in H as [_ H]. congruence. }
  split; [|exact C]. apply (bank_sizes_ext b); [apply broadcast_precision| |done]. intros r Hr. rewrite C by done.
  destruct (targeted j q r); [|done]. cbn. destruct (B2 r Hr) as (_ & _ & ->). by rewrite Hlw.
Qed.
Lemma arrays_broadcast base kb nn kk q rem cs b :
  stage_ok j (STile base kb nn kk (Broadcasting q true)) ->
  arrays_ok (STile base kb nn kk (Broadcasting q true)) rem cs b ->
  arrays_ok (STile base kb nn kk (Scattering q false)) rem cs
    (for_arrays (program_matrix cfg true (weight_tile j host (tile_at j (base + nn)) (kb + kk)))
       (if scatterWave j then arrays j else group_ids q) b).
Proof.
  intros (Hw & Hn & Hk & Hq & Hs) (A1 & A2 & A3 & A4 & A5).
  destruct (broadcast_sets q (weight_tile j host (tile_at j (base + nn)) (kb + kk)) b Hq Hs A1) as [B C];
    [apply weight_tile_length|apply unpack_single|].
  split; [exact B|split; [exact A2|split; [exact A3|split; [exact A4|]]]].
  intros r Hr. rewrite C by exact Hr. destruct (A5 r Hr) as [R1 R2]. destruct (R2 eq_refl) as (R3 & _ & _). cbn [quiet] in R1.
  split; [exact R1|]. intros _. cbn [matrix_set input_set launched_in st_base st_kb st_n st_k] in *. split; [|split; [|discriminate]].
  - destruct (targeted j q r) eqn:E; [|exact R3]. rewrite R1 in * by reflexivity. inversion R3 as [Sm| |]. apply row_idle. exact Sm.
  - intros E. rewrite E. split; reflexivity.
Qed.

(** Lane [r - b] of a scatter to the arrays from [b] on belongs to array [r]. *)
Lemma tile_row_group a q r : 0 <= q < groups j -> 0 <= r < rows j -> grp_of r = q ->
  tile_row (group_input j q a) (Z.to_nat r - Z.to_nat (grp_begin j q)) = tile_row a (Z.to_nat r).
Proof.
  intros Hq Hr Hg. pose proof (grp_bounds q Hq). apply (grp_member q r Hq Hr) in Hg.
  unfold tile_row, group_input. rewrite skipn_firstn_comm, take_take, drop_drop.
  set (i := (Z.to_nat r - Z.to_nat (grp_begin j q))%nat).
  replace (Nat.min 64 _) with 64%nat by lia. f_equal. f_equal. lia.
Qed.
Lemma group_input_length a q : 0 <= q < groups j -> Z.of_nat (length a) = rows j * 64 ->
  Z.of_nat (length (group_input j q a)) = Z.of_nat (length (group_ids q)) * 64.
Proof.
  intros Hq Ha. pose proof (grp_bounds q Hq). rewrite group_ids_length by done. unfold group_input. rewrite length_take, length_drop. lia.
Qed.

Lemma scatter_sets q a b : 0 <= q < groups j -> bank_sizes j b -> Z.of_nat (length a) = rows j * 64 -> Forall single a ->
  let b' := scatter_inputs cfg (group_ids q) (group_input j q a) b in
  bank_sizes j b' /\
  forall r, 0 <= r < rows j ->
    contexts b' r = if grp_of r =? q then with_input (tile_row a (Z.to_nat r)) (contexts b r) else contexts b r.
Proof.
  intros Hq [B1 B2] Hla Sa. cbv zeta.
  assert (C : forall r, 0 <= r < rows j -> contexts (scatter_inputs cfg (group_ids q) (group_input j q a) b) r =
    if grp_of r =? q then with_input (tile_row a (Z.to_nat r)) (contexts b r) else contexts b r).
  { intros r Hr. pose proof (grp_bounds q Hq). rewrite (scatter_inputs_contexts cfg (fit_in _ Hfit)) by apply run_NoDup.
    destruct (B2 r Hr) as (L & _ & _). pose proof (grp_member q r Hq Hr) as Gm. destruct (Z.eqb_spec (grp_of r) q) as [E|E].
    - rewrite group_ids_run, run_find by lia. rewrite tile_row_group, transform_single; try done.
      + unfold tile_row. by apply Forall_take, Forall_drop.
      + rewrite L. unfold tile_row. rewrite length_take, length_drop. lia.
    - rewrite group_ids_run, run_find_none by lia. reflexivity. }
  split; [|exact C]. apply (bank_sizes_ext b); [apply scatter_inputs_precision| |done]. intros r Hr. rewrite C by done.
  destruct (grp_of r =? q); [|done]. cbn. destruct (B2 r Hr) as (-> & _ & _). split; [|done].
  unfold tile_row. rewrite length_take, length_drop. lia.
Qed.
Lemma arrays_scatter base kb nn kk q rem cs b :
  stage_ok j (STile base kb nn kk (Scattering q true)) ->
  arrays_ok (STile base kb nn kk (Scattering q true)) rem cs b ->
  arrays_ok (STile base kb nn kk (Launching q)) rem cs
    (scatter_inputs cfg (group_ids q) (group_input j q (input_tile j inputs m0 (kb + kk))) b).
Proof.
  intros (Hw & Hn & Hk & Hq) (A1 & A2 & A3 & A4 & A5).
  destruct (scatter_sets q (input_tile j inputs m0 (kb + kk)) b Hq A1) as [B C];
    [pose proof (kC_range _ _ _ Hj _ _ Hw); apply input_tile_length; lia|apply unpack_single|].
  split; [exact B|split; [exact A2|split; [exact A3|split; [exact A4|]]]].
  intros r Hr. rewrite C by exact Hr. destruct (A5 r Hr) as [R1 R2]. destruct (R2 eq_refl) as (R3 & R4 & _). cbn [quiet] in R1.
  split; [exact R1|]. intros _. cbn [matrix_set input_set launched_in st_base st_kb st_n st_k] in *.
  destruct (Z.eqb_spec (grp_of r) q) as [E|E]; [|split; [exact R3|split; [exact R4|discriminate]]].
  assert (Ht : targeted j q r = true) by (unfold targeted; destruct (scatterWave j); lia).
  rewrite R1 in * by exact Ht. inversion R3 as [Sm| |].
  split; [apply row_idle; exact Sm|]. split; [exact R4|]. intros _. reflexivity.
Qed.

(** The sums loaded into the arrays. *)
Lemma arrays_loaded base kb nn rem cs b :
  stage_ok j (SProgC base kb nn true) -> 0 < kb \/ ga_initial (args j) = true ->
  arrays_ok (SProgC base kb nn true) rem cs b ->
  arrays_ok (STile base kb nn 0 Acquiring) rem cs
    (scatter_outputs cfg (arrays j) (st_loaded j host inputs initials m0 (SProgC base kb nn true)) b).
Proof.
  intros (Hw & Hn) Hi ([B1 B2] & A2 & A3 & A4 & A5). set (v := st_loaded _ _ _ _ _ _).
  assert (V : forall r, 0 <= r < rows j -> Z.of_nat (length v) = rows j * 64 /\
    map to_float (tile_row v (Z.to_nat r)) = row_value j host inputs initials m0 (base + nn) r kb).
  { intros r Hr. by apply (loaded_row j host inputs initials m0 Hj base kb nn r). }
  clearbody v.
  assert (C : forall r, 0 <= r < rows j -> contexts (scatter_outputs cfg (arrays j) v b) r =
    with_output (row_value j host inputs initials m0 (base + nn) r kb) (contexts b r)).
  { intros r Hr. rewrite (scatter_outputs_contexts cfg (fit_out _ Hfit)) by (rewrite arrays_run; apply run_NoDup).
    destruct (B2 r Hr) as (_ & L & _). destruct (V r Hr) as [Hl <-].
    rewrite arrays_run, run_find, Nat.sub_0_r by lia. rewrite transform_same; [done|].
    rewrite L. unfold tile_row. rewrite length_take, length_drop. lia. }
  split; [|split; [exact A2|split; [exact A3|split; [exact A4|]]]].
  - apply (bank_sizes_ext b); [apply scatter_outputs_precision| |done]. intros r Hr. rewrite C by done.
    cbn [with_output inputVector outputVector matrixData]. destruct (B2 r Hr) as (_ & -> & _). split; [done|]. split; [|done].
    apply (product_row_length j host inputs initials m0 Hj). lia.
  - intros r Hr. rewrite C by done. destruct (A5 r Hr) as [R1 _]. rewrite R1 by done.
    split; [discriminate|]. intros _. split; [|split; discriminate]. apply row_idle. intros _.
    cbn [launched_in st_base st_n with_output outputVector]. by rewrite !Z.add_0_r.
Qed.
(** A tile whose sums start from nothing. *)
Lemma arrays_unloaded base nn rem cs b :
  ga_initial (args j) = false ->
  arrays_ok (SRestore base 0 nn) rem cs b -> arrays_ok (STile base 0 nn 0 Acquiring) rem cs b.
Proof.
  intros Hi. apply arrays_stage. intros r x c Hr _ [R1 _]. rewrite R1 by done. split; [discriminate|]. intros _.
  split; [|split; discriminate]. apply row_idle. intros [H|H]; [cbn in H; lia|congruence].
Qed.

(** The sums read out of the arrays. *)
Lemma arrays_drained base kb nn rem cs b :
  stage_ok j (SDrain base kb nn true) -> arrays_ok (SDrain base kb nn true) rem cs b ->
  gather_outputs cfg (arrays j) [] b = (true, partial j host inputs initials m0 (base + nn) (kb + kC kb)).
Proof.
  intros (Hw & Hn) (_ & _ & _ & _ & A5). pose proof (rows_range _ _ _ Hj). pose proof (kC_range _ _ _ Hj _ _ Hw).
  rewrite (gather_contexts cfg (fit_num _ Hfit)).
  - f_equal. cbn [app]. unfold GemmInvariant.partial, arrays.
    apply flat_map_rows. intros i Hi%elem_of_seq. assert (Hr : 0 <= Z.of_nat i < rows j) by lia.
    destruct (A5 _ Hr) as [R1 R2]. destruct (R2 eq_refl) as (R3 & _). rewrite R1 in R3 by done.
    inversion R3 as [Sm| |]. cbn [launched_in st_base st_kb st_n st_k] in Sm. rewrite Sm by (left; lia).
    unfold row_value. by rewrite Nat2Z.id.
  - rewrite arrays_run. apply Forall_forall. intros r Hr%run_elem. lia.
Qed.
End rows.
