(* ===== verification/GemmRank.v ===== *)
(** * How far a job is

    An order on the stages: the four tiles, the piece of the reduction and a level within
    them.  Every task and every callback leaves the job in its stage or a later one, and in
    smooth surroundings it moves on ([goes]).  The requests a job makes are accepted by
    arrays of the native geometry. *)

From Stdlib Require Import ZArith Lia.
From Stdlib Require Import Init.Byte.
From stdpp Require Import base numbers functions list.
From S2P Require Import Prelude RecordUpdate Ieee IeeeArith Fp16 AttentionBase ComputeUnit TileArray ControlTransport WindowGemm GemmValues GemmSystem GemmArrays GemmSlots GemmInvariant GemmFacts GemmSums GemmParts GemmRows.
Open Scope Z_scope.

Section rank.
Context (j : GemmJob) (inputs initials : Z -> Values).
Hypothesis Hj : job_ok j inputs initials.

Definition flag (w : bool) : Z := if w then 0 else 1.
Definition phase_level (ph : TilePhase) : Z :=
  match ph with
  | Acquiring => 1000
  | Broadcasting q w => 530 - 100 * q + flag w
  | Scattering q w => 520 - 100 * q + flag w
  | Launching q => 510 - 100 * q
  end.
Definition level (st : GemmStage) : Z :=
  match st with
  | SBegin _ _ => 7000000000
  | SAsk _ _ i w => 6000000000 + (40 - i) * 100000 + 20000 + flag w
  | SLoad _ _ i off w => 6000000000 + (40 - i) * 100000 + 2 * (tile_bytes j - off) + flag w
  | SRestore _ _ nn => (5 - nn) * 1000000000 + 100000000
  | SRead _ _ nn off w => (5 - nn) * 1000000000 + 99900000 + 2 * (spill_bytes j - off) + flag w
  | SInitial _ nn => (5 - nn) * 1000000000 + 99900000
  | SProgC _ _ nn w => (5 - nn) * 1000000000 + 99800000 + flag w
  | STile _ _ nn kk ph => (5 - nn) * 1000000000 + (900 - kk) * 100000 + phase_level ph
  | SDrain _ _ nn w => (5 - nn) * 1000000000 + 300000 + flag w
  | SSpill _ _ nn off w => (5 - nn) * 1000000000 + 200000 + 2 * (spill_bytes j - off) + flag w
  | SEnd _ _ nn p => (5 - nn) * 1000000000 + 100000 + (if p then 1 else 0)
  | SFinish => 1
  | SDone => 0
  end.
Definition later (st st' : GemmStage) : Prop :=
  st_base j st < st_base j st' \/
  st_base j st = st_base j st' /\ (st_kb st < st_kb st' \/ st_kb st = st_kb st' /\ level st' < level st).

Lemma later_trans st1 st2 st3 : later st1 st2 -> later st2 st3 -> later st1 st3.
Proof using Type. clear. unfold later. lia. Qed.
Lemma flag_range w : 0 <= flag w <= 1.
Proof using Type. clear. destruct w; cbn; lia. Qed.
Lemma stage_bounds st : stage_ok j st -> 0 <= level st /\ st_base j st <= tile_count j /\ st_kb st <= kTiles j.
Proof using Hj.
  pose proof (rows_range _ _ _ Hj). pose proof (ok_window _ _ _ Hj). pose proof (ok_groups _ _ _ Hj) as [_ Hg]. pose proof (ok_kTiles _ _ _ Hj).
  destruct st as [base kb|base kb i w|base kb i off w|base kb nn|base kb nn off w|base nn|base kb nn w|base kb nn kk [|q w|q w|q]
    |base kb nn w|base kb nn off w|base kb nn p| |]; cbn; unfold window_ok, nC, kC, tile_bytes, spill_bytes;
    try pose proof (flag_range w); try (destruct p); lia.
Qed.
(** Induction from the end of the job. *)
Lemma stage_induction (P : GemmStage -> Prop) :
  (forall st, stage_ok j st -> (forall st', stage_ok j st' -> later st st' -> P st') -> P st) ->
  forall st, stage_ok j st -> P st.
Proof using Hj.
  intros H. assert (G : forall a b c st, stage_ok j st -> tile_count j - st_base j st <= Z.of_nat a -> kTiles j - st_kb st <= Z.of_nat b ->
    level st <= Z.of_nat c -> P st).
  { intros a. induction (lt_wf a) as [a _ IHa]. intros b. induction (lt_wf b) as [b _ IHb]. intros c. induction (lt_wf c) as [c _ IHc].
    intros st S Ha Hb Hc. apply H; [exact S|]. intros st' S' L. destruct (stage_bounds _ S) as (B1 & B2 & B3), (stage_bounds _ S') as (B1' & B2' & B3').
    destruct L as [L|[L0 [L|[L1 L]]]].
    - apply (IHa (Z.to_nat (tile_count j - st_base j st')) ltac:(lia) (Z.to_nat (kTiles j - st_kb st')) (Z.to_nat (level st')) st' S'); lia.
    - apply (IHb (Z.to_nat (kTiles j - st_kb st')) ltac:(lia) (Z.to_nat (level st')) st' S'); lia.
    - apply (IHc (Z.to_nat (level st')) ltac:(lia) st' S'); lia. }
  intros st S. destruct (stage_bounds _ S) as (B1 & B2 & B3).
  apply (G (Z.to_nat (tile_count j - st_base j st)) (Z.to_nat (kTiles j - st_kb st)) (Z.to_nat (level st)) st S); lia.
Qed.

(** A parked or a passing end of a tile. *)
Definition settled (st : GemmStage) : bool := match st with SEnd _ _ _ false => false | _ => true end.
(** The job moves on, or keeps its stage for want of [c]. *)
Definition goes (st st' : GemmStage) (c : Prop) : Prop := settled st' = true /\ (later st st' \/ st' = st /\ ~ c).

(** The job moved on. *)
Definition moves (st st' : GemmStage) : Prop := settled st' = true /\ later st st'.

(** The arrays a broadcast reaches at most. *)
Definition broadcast_width : Z := if (groups j =? 2) && negb (scatterWave j) then 32 else rows j.
(** Surroundings that take every call at once, arrays at rest and no output waiting. *)
Record smooth (cfg : TileUnitConfig) (re : Replies) (g : ReuseWindowGemm) : Prop := mkSmooth {
  smooth_fanout : broadcast_width <= matrixBroadcastMaxFanout cfg;
  smooth_accepts : forall t, accepts re t = true;
  smooth_launch : launch_accepted re = true;
  smooth_lease : lease_granted re = true;
  smooth_arrays : computing g = false;
  smooth_output : outputWaiting g = false;
  smooth_cycle : cReadyCycle g <= cycle g }.
(** What a tile's step waits for. *)
Definition ready (st : GemmStage) (g : ReuseWindowGemm) : Prop :=
  match st with
  | STile _ _ _ _ Acquiring => w_ready (slots g (st_seq j st mod slotCount j)) = true
  | STile _ _ _ _ (Scattering _ false) => input_is_ready j g = true
  | _ => True
  end.

Lemma goes_on st st' (c : Prop) : settled st' = true -> later st st' -> goes st st' c.
Proof using Type. clear. intros H L. split; [exact H|by left]. Qed.
Lemma moves_goes st st' (c : Prop) : moves st st' -> goes st st' c.
Proof using Type. clear. intros [H L]. split; [exact H|by left]. Qed.
Lemma moves_trans st st1 st2 : later st st1 -> moves st1 st2 -> moves st st2.
Proof using Type. clear. intros L [H L']. split; [exact H|by apply (later_trans _ st1)]. Qed.
Lemma goes_stay st (c : Prop) : settled st = true -> ~ c -> goes st st c.
Proof using Type. clear. intros H L. split; [exact H|by right]. Qed.
Lemma goes_weaken st st' (c c' : Prop) : (c' -> c) -> goes st st' c -> goes st st' c'.
Proof using Type. clear. intros H [S [L|[E N]]]; (split; [exact S|]); [by left|right]. split; [exact E|]. intros C. by apply N, H. Qed.
(** A stage of one window, later in it. *)
Lemma later_in st st' : st_base j st = st_base j st' -> st_kb st = st_kb st' -> level st' < level st -> later st st'.
Proof using Type. clear. unfold later. lia. Qed.

(** A request that the surroundings accept or not. *)
Lemma goes_accepted st st' (w : bool) (c : Prop) : (c -> w = true) -> settled (if w then st' else st) = true ->
  (w = true -> later st st') -> goes st (if w then st' else st) c.
Proof using Type. clear. intros Hc S L. split; [exact S|]. destruct w; [left; by apply L|right]. split; [reflexivity|]. intros C. by specialize (Hc C). Qed.

(** What smoothness reads of the job, and its group. *)
Definition control (g : ReuseWindowGemm) := (remaining g, outputWaiting g, cReadyCycle g, cycle g, group g).
Lemma smooth_control cfg re g g' : control g' = control g -> smooth cfg re g -> smooth cfg re g'.
Proof using Type.
  unfold control. intros [= E1 E2 E3 E4 _] [S1 S2 S3 S4 S5 S6 S7]. unfold computing in *. split; unfold computing; rewrite ?E1, ?E2, ?E3, ?E4; assumption.
Qed.
Lemma at_rest g : computing g = false -> remaining g 0 = 0 /\ remaining g 1 = 0.
Proof using Type. clear. unfold computing. intros H. boolify. lia. Qed.
Lemma control_slot s g : control (prepare_slot j s g) = control g.
Proof using Type. unfold prepare_slot. destruct (active g) eqn:E; cbn [negb]; [|done]. unfold finish. rewrite E. set (sl := inputSlots g _). by destruct (i_valid sl), (i_seq sl =? s). Qed.
Lemma control_prepare s g : control (prepareInput j s g) = control g.
Proof using Type.
  unfold prepareInput. destruct (_ =? s); [done|]. cbv zeta. destruct (inputPrefetch j); [|done].
  set (g1 := bump_if _ _ _). assert (E1 : control g1 = control g) by (unfold g1; by destruct (_ && _)). clearbody g1.
  set (g2 := if s <? _ then _ else g1). assert (E2 : control g2 = control g) by (unfold g2; destruct (_ <? _); [by rewrite control_slot|done]). clearbody g2.
  set (g3 := if _ : bool then _ else g2). assert (E3 : control g3 = control g) by (unfold g3; destruct (_ <? _); [by rewrite control_slot|done]). clearbody g3.
  by destruct (active g3).
Qed.
Lemma control_acquire re g : control (acquireArrays j re g).1 = control g.
Proof using Type.
  unfold acquireArrays. destruct (_ && _); [|done]. set (g1 := if earlyA j then _ else g).
  assert (E : control g1 = control g) by (unfold g1; destruct (earlyA j); [apply control_prepare|done]). clearbody g1.
  by destruct (lease_granted re).
Qed.
Lemma acquire_held re g : lease_granted re = true -> (acquireArrays j re g).2 = true.
Proof using Type. unfold acquireArrays. intros E. destruct (_ && _); [|done]. by rewrite E. Qed.

(** ** Requests *)

Context (cfg : TileUnitConfig).
Hypothesis Hfit : arrays_fit cfg.

(** A run of arrays within the bank. *)
Definition served (ids : list Z) : Prop := exists b len, ids = run_from b len /\ (0 < len)%nat /\ (b + len <= 64)%nat.
Lemma arrays_served : served (arrays j).
Proof using Hj. pose proof (rows_range _ _ _ Hj). exists 0%nat, (Z.to_nat (rows j)). split; [reflexivity|lia]. Qed.
Lemma group_served q : 0 <= q < groups j -> served (group_ids j q).
Proof using Hj.
  intros Hq. pose proof (rows_range _ _ _ Hj). destruct (grp_bounds j inputs initials Hj q Hq) as [H1 H2].
  exists (Z.to_nat (grp_begin j q)), (Z.to_nat (grp_end j q - grp_begin j q)). split; [apply group_ids_run|lia].
Qed.
Lemma targets_served q : 0 <= q < groups j -> served (if scatterWave j then arrays j else group_ids j q).
Proof using Hj. intros Hq. destruct (scatterWave j); [apply arrays_served|by apply group_served]. Qed.
Lemma targets_width q : 0 <= q < groups j -> Z.of_nat (length (if scatterWave j then arrays j else group_ids j q)) <= broadcast_width.
Proof using Hj.
  intros Hq. pose proof (rows_range _ _ _ Hj). unfold broadcast_width. destruct (scatterWave j).
  - rewrite andb_false_r, arrays_run, run_length. lia.
  - rewrite andb_true_r, (group_ids_length j inputs initials Hj) by exact Hq. unfold grp_begin, grp_end. destruct (groups j =? 2); lia.
Qed.
Lemma served_facts ids : served ids ->
  bool_decide (ids = []) = false /\ Z.of_nat (length ids) <= 64 /\ unique_arrays ids = true /\ all_arrays cfg ids = true.
Proof using Hfit.
  intros (b & len & -> & H1 & H2). split; [|split; [|split]].
  - apply bool_decide_eq_false. intros E. apply (f_equal length) in E. rewrite run_length in E. cbn in E. lia.
  - rewrite run_length. lia.
  - apply bool_decide_eq_true, run_NoDup.
  - apply forallb_forall. intros r Hr. apply list_elem_of_In, run_elem in Hr. rewrite (fit_num _ Hfit). lia.
Qed.

Lemma program_taken ids w : served ids -> Z.of_nat (length ids) <= matrixBroadcastMaxFanout cfg -> length w = 4096%nat ->
  is_Some (programMatrixGroupClassBankAsync cfg ids 0 w 2 ProjectionWeights).
Proof using Hfit.
  intros Hs Hfan Hw. destruct (served_facts ids Hs) as (E1 & E2 & E3 & E4).
  unfold programMatrixGroupClassBankAsync, validateMatrixBroadcastRequest, validateActiveColumnRequest.
  rewrite E1, E3, E4, Hw, (fit_in _ Hfit), (fit_out _ Hfit). rewrite (proj2 (Z.leb_le _ _)) by lia. cbn. by eexists.
Qed.
Lemma scatter_taken ids v : served ids -> Z.of_nat (length v) = Z.of_nat (length ids) * 64 ->
  is_Some (programInputScatterBankAsync cfg ids 0 v 2 ProjectionInputScatter).
Proof using Hfit.
  intros Hs Hv. destruct (served_facts ids Hs) as (E1 & E2 & E3 & E4).
  unfold programInputScatterBankAsync, validateInputScatterRequest. rewrite E1, E3, E4, Hv, (fit_in _ Hfit), Z.eqb_refl. cbn. by eexists.
Qed.
Lemma output_valid bytes : bytes = 2 \/ bytes = 4 -> validateOutputGroupRequest cfg (arrays j) bytes ProjectionOutput = true.
Proof using Hj Hfit.
  intros Hb. destruct (served_facts _ arrays_served) as (E1 & E2 & _).
  unfold validateOutputGroupRequest. rewrite (fit_num _ Hfit), (fit_in _ Hfit), (fit_out _ Hfit), E1.
  rewrite arrays_run, run_from_zero, run_length. pose proof (rows_range _ _ _ Hj). rewrite (proj2 (Nat.leb_le _ _)) by lia. by destruct Hb as [-> | ->].
Qed.
Lemma write_taken v : Z.of_nat (length v) = rows j * 64 -> is_Some (writeOutputGroupClassAsync cfg (arrays j) v 4 ProjectionOutput).
Proof using Hj Hfit.
  intros Hv. pose proof (rows_range _ _ _ Hj). unfold writeOutputGroupClassAsync. rewrite output_valid by (by right).
  rewrite Hv, (fit_out _ Hfit). rewrite arrays_run, run_length, Z2Nat.id, Z.eqb_refl by lia. cbn. by eexists.
Qed.
Lemma read_taken bytes : bytes = 2 \/ bytes = 4 -> is_Some (readOutputGroupClassAsync cfg (arrays j) bytes ProjectionOutput).
Proof using Hj Hfit. intros Hb. unfold readOutputGroupClassAsync. rewrite output_valid by exact Hb. by eexists. Qed.
Lemma taken_accepted {A} (re : Replies) t (request : option A) : (forall t, accepts re t = true) -> is_Some request -> taken re t request = true.
Proof using Type. intros H R. unfold taken. rewrite H. by apply bool_decide_eq_true. Qed.
End rank.

(** The stage moves on within its window. *)
Ltac to_move := split; [reflexivity|apply later_in; [reflexivity|reflexivity|cbn; unfold spill_bytes, tile_bytes in *; lia]].
Ltac to_later := apply goes_on; [reflexivity|apply later_in; [reflexivity|reflexivity|cbn; unfold spill_bytes, tile_bytes in *; lia]].

