(* ===== verification/GemmFlow.v ===== *)
(** * Moving through the stages

    How the invariant of the window GEMM is rebuilt after a handler ran: what a handler
    that keeps its stage must leave alone, and what one that moves on must show. *)

From Stdlib Require Import ZArith Lia.
From Stdlib Require Import Init.Byte.
From stdpp Require Import base numbers functions list.
From S2P Require Import Prelude RecordUpdate Ieee IeeeArith Fp16 AttentionBase ComputeUnit TileArray ControlTransport WindowGemm GemmValues GemmSystem GemmArrays GemmSlots GemmInvariant GemmFacts GemmSums GemmParts GemmMemory GemmRows.
Open Scope Z_scope.

Lemma set_next_same g x : next g = x -> g <| next := x |> = g.
Proof. destruct g; cbn. by intros <-. Qed.

Lemma flow_core_input g t : flow_core ((input_core g) <| next := t |>) = flow_core (g <| next := t |>).
Proof. by destruct g. Qed.

Section flow.
Context (j : GemmJob) (cfg : TileUnitConfig) (host : Z -> byte) (inputs initials : Z -> Values) (m0 : Z -> byte).
Context (out0 : list (Z * Values)) (fin0 : list bool).
Hypothesis Hj : job_ok j inputs initials.

Notation inv := (gemm_inv j cfg host inputs initials m0 out0 fin0).
Notation nC := (nC j).
Notation kC := (kC j).
Notation stage_ok := (stage_ok j).
Notation flow_ok := (flow_ok j cfg host inputs initials m0).
Notation arrays_ok := (arrays_ok j host inputs initials m0).
Notation memory_ok := (memory_ok j host inputs initials m0).
Notation prefetch_ok := (prefetch_ok j host inputs m0).
Notation place_ok := (place_ok j).
Notation io_ok := (io_ok j host inputs initials m0).
Notation main_calls := (main_calls j cfg host inputs initials m0).
Notation seq_limit := (seq_limit j).
Notation st_seq := (st_seq j).

(** The invariant while a task runs: the continuation has been taken out. *)
Definition inv_rest (st : GemmStage) (g : ReuseWindowGemm) (m : Z -> byte) (b : TileBank) : Prop :=
  inv st (mkSystem (g <| next := task_of st |>) m b) /\ next g = None.

(** What the invariant does not look at. *)
Definition core_view (g : ReuseWindowGemm) : ReuseWindowGemm :=
  g <| next := None |> <| phase := 0 |> <| tag := 0 |> <| stats := [] |> <| leaseHeld := false |> <| cycle := 0 |>
    <| cReadyCycle := 0 |>.
Lemma next_view st g g' m b : core_view g' = core_view g ->
  inv st (mkSystem (g <| next := task_of st |>) m b) -> inv st (mkSystem (g' <| next := task_of st |>) m b).
Proof.
  intros E I. assert (I' : inv st (mkSystem ((core_view g) <| next := task_of st |>) m b)) by (destruct I as [I1 I2 I3 I4 I5 I6 I7]; split; [exact I1|exact I2|exact I3|exact I4|exact I5|exact I6|exact I7]).
  rewrite <- E in I'. destruct I' as [I1 I2 I3 I4 I5 I6 I7]. split; [exact I1|exact I2|exact I3|exact I4|exact I5|exact I6|exact I7].
Qed.
Lemma rest_view st g g' m b : core_view g' = core_view g -> next g' = next g -> inv_rest st g m b -> inv_rest st g' m b.
Proof. intros E En [I N]. split; [by apply (next_view st g)|congruence]. Qed.
Lemma rest_schedule st g m b t : inv_rest st g m b -> task_of st = Some t -> inv st (mkSystem (schedule t g) m b).
Proof. intros [I _] E. rewrite E in I. exact I. Qed.
Lemma inv_next st g m b : inv st (mkSystem g m b) -> inv st (mkSystem (g <| next := task_of st |>) m b) /\ next g = task_of st.
Proof.
  intros I. assert (E : next g = task_of st) by (by destruct I as [_ (_ & _ & E & _) _ _ _ _ _]).
  split; [|exact E]. by rewrite set_next_same.
Qed.
(** The continuation is taken out when its task starts. *)
Lemma rest_of st g m b : inv st (mkSystem g m b) -> inv_rest st (g <| next := None |>) m b.
Proof. intros I. apply inv_next in I as [I _]. split; [|reflexivity]. by apply (next_view st g). Qed.
(** A task that keeps its stage. *)
Lemma rest_stay st g g' m b t :
  inv_rest st g m b -> task_of st = Some t -> core_view g' = core_view g -> next g' = Some t -> inv st (mkSystem g' m b).
Proof.
  intros [I _] Ht E En. apply (next_view st g g') in I; [|done]. rewrite Ht, set_next_same in I; done.
Qed.
(** A task whose request was not accepted. *)
Lemma rest_retry st g g' m b t :
  inv_rest st g m b -> task_of st = Some t -> waiting st = false ->
  core_view g' = core_view (g <| pending := false |>) -> next g' = Some t -> inv st (mkSystem g' m b).
Proof.
  intros I Ht Hw E En. apply (rest_stay st g g' m b t I Ht); [|exact En]. rewrite E.
  destruct I as [[_ (_ & P & _) _ _ _ _ _] _]. rewrite Hw in P. change (pending g = false) in P.
  destruct g; cbn in P. by rewrite P.
Qed.
(** A change outside the stage. *)
Lemma inv_view st g g' m b : core_view g' = core_view g -> next g' = next g -> inv st (mkSystem g m b) -> inv st (mkSystem g' m b).
Proof.
  intros E En I. apply inv_next in I as [I N]. apply (next_view st g g') in I; [|done]. rewrite set_next_same in I; [done|congruence].
Qed.

(** *** Moves *)

Definition other_port (p : GemmPort) : bool := match p with PMain => false | _ => true end.
Lemma other_array cs cs' : ports_kept other_port cs cs' -> ports_kept array_port cs cs'.
Proof. intros H p Hp. apply H. by destruct p. Qed.
Lemma other_prefetch cs cs' : ports_kept other_port cs cs' -> ports_kept prefetch_port cs cs'.
Proof. intros H p Hp. apply H. by destruct p. Qed.

(** The registers of a stage that is neither parked nor over. *)
Definition flows (st st' : GemmStage) (g g' : ReuseWindowGemm) (cs' : list Call) : Prop :=
  active g' = active g /\ outputWaiting g' = outputWaiting g /\ outputAdvanced g' = outputAdvanced g /\
  pending g' = waiting st' /\ next g' = task_of st' /\ place_ok st' g' /\ io_ok st' g' /\ main_calls st' cs'.
Definition running (st : GemmStage) : bool := match st with SEnd _ _ _ true | SDone => false | _ => true end.

Lemma running_parked st : running st = true -> parked_at st = false /\ st <> SDone.
Proof. destruct st; cbn; try done. by destruct parked. Qed.

Lemma flow_move st st' g g' cs cs' :
  running st = true -> running st' = true -> flow_ok st g cs -> flows st st' g g' cs' -> flow_ok st' g' cs'.
Proof.
  intros R R' (F1 & F2 & F3 & F4 & F5 & F6 & F7 & F8) (G1 & G2 & G3 & G4 & G5 & G6 & G7 & G8).
  split; [rewrite G1, F1; by destruct st, st'|]. split; [exact G4|]. split; [exact G5|].
  split; [|split; [|split; [exact G6|split; [exact G7|exact G8]]]].
  - rewrite G2, G3. intros H. destruct (F4 H) as [-> _]. destruct (running_parked st R) as [-> _]. by destruct (running_parked st' R') as [-> ?].
  - destruct (running_parked st' R') as [-> _]. discriminate.
Qed.

(** The generic step: every part of the invariant moves to the new stage. *)
Lemma inv_move st st' g g' m m' b b' :
  inv_rest st g m b -> running st = true -> running st' = true -> stage_ok st' ->
  flows st st' g g' (on_port PMain (calls g')) ->
  (arrays_ok st (remaining g) (calls g) b -> arrays_ok st' (remaining g') (calls g') b') ->
  (memory_ok st m -> memory_ok st' m') ->
  (prefetch_ok st m g -> prefetch_ok st' m' g') ->
  outputs_done j st' = outputs_done j st -> outputs g' = outputs g -> finished g' = finished g ->
  inv st' (mkSystem g' m' b').
Proof.
  intros [[I1 I2 I3 I4 I5 I6 I7] _] R R' S F A M P O1 O2 O3. split.
  - exact S.
  - apply (flow_move st st' (g <| next := task_of st |>) g' _ _ R R' I2 F).
  - apply A, I3.
  - apply M, I4.
  - apply P. exact I5.
  - cbn in *. by rewrite O1, O2.
  - cbn in *. rewrite O3. revert R R' I7. by destruct st, st'.
Qed.

Lemma prefetch_stage st st' m g :
  prefetching j st = true -> prefetching j st' = true -> st_base j st' = st_base j st -> st_kb st' = st_kb st ->
  st_seq st' = st_seq st -> (tile_held j st g -> tile_held j st' g) -> prefetch_ok st m g -> prefetch_ok st' m g.
Proof.
  unfold GemmInvariant.prefetch_ok. intros -> -> -> -> -> H [P1 P2]. split; [exact P1|by apply H].
Qed.

(** The same, for a handler that only moves the stage and its own registers. *)
Lemma inv_step st st' g g' m b :
  inv_rest st g m b -> running st = true -> running st' = true -> stage_ok st' ->
  flows st st' g g' (on_port PMain (calls g')) ->
  (arrays_ok st (remaining g) (calls g) b -> arrays_ok st' (remaining g) (calls g) b) ->
  (memory_ok st m -> memory_ok st' m) ->
  (prefetch_ok st m g -> prefetch_ok st' m g) ->
  outputs_done j st' = outputs_done j st ->
  remaining g' = remaining g -> prefetch_view g' = prefetch_view g -> ports_kept other_port (calls g) (calls g') ->
  outputs g' = outputs g -> finished g' = finished g ->
  inv st' (mkSystem g' m b).
Proof.
  intros I R R' S F A M P O1 E1 E2 K O2 O3. apply (inv_move st st' g g' m m b b); try assumption.
  - intros H. rewrite E1. apply (arrays_calls _ _ _ _ _ _ _ (calls g)); [by apply other_array|by apply A].
  - intros H. apply (prefetch_calls _ _ _ _ _ _ g); [done|by apply other_prefetch|by apply P].
Qed.

(** *** Positions *)

Lemma place_window st g : in_window st = true -> place_ok st g ->
  at_window j (st_base j st) (st_kb st) g /\ n g = st_n st /\ k g = st_k j st.
Proof using Type.
  clear host inputs initials m0 out0 fin0 Hj cfg. unfold at_window. destruct st; cbn; try discriminate; intuition congruence. Qed.
Lemma rest_window st g m b : inv_rest st g m b -> in_window st = true ->
  window_ok j (st_base j st) (st_kb st) /\ at_window j (st_base j st) (st_kb st) g /\ n g = st_n st /\ k g = st_k j st /\ active g = true.
Proof.
  intros I Hw. split.
  - apply (stage_window j); [by destruct I as [[] _]| |]; by intros ->.
  - destruct I as [[_ (F1 & _ & _ & _ & _ & F6 & _) _ _ _ _ _] _]. apply (place_window _ _ Hw) in F6 as (P1 & P2 & P3).
    split; [exact P1|]. split; [exact P2|]. split; [exact P3|]. etransitivity; [exact F1|]. by destruct st.
Qed.
Lemma prepares_window st : prepares st = true -> in_window st = true /\ prefetching j st = true /\ running st = true /\ fresh j st = false.
Proof. by destruct st. Qed.
Lemma prepares_seq st : stage_ok st -> prepares st = true ->
  0 <= st_n st < nC (st_base j st) /\ 0 <= st_k j st < kC (st_kb st) /\ 0 <= st_seq st < seq_limit (st_base j st) (st_kb st).
Proof using Hj.
  clear host m0 out0 fin0 cfg.
  intros S Hp. assert (Hw : window_ok j (st_base j st) (st_kb st)) by (apply (stage_window j); [done| |]; by intros ->).
  pose proof (kC_range _ _ _ Hj _ _ Hw).
  assert (H1 : 0 <= st_n st < nC (st_base j st)) by (destruct st; cbn in *; try done; tauto).
  assert (H2 : 0 <= st_k j st < kC (st_kb st)) by (destruct st; cbn in *; try done; lia || tauto).
  split; [done|]. split; [done|]. by apply (seq_at_lt _ _ _ Hj).
Qed.

(** The activations a stage may prepare are in memory. *)
Lemma prepared_held st m s : stage_ok st -> prepares st = true -> memory_ok st m ->
  holds m (seq_input j (st_kb st) s) (seq_bytes j inputs m0 (st_kb st) s).
Proof.
  intros S Hp (M1 & M2 & _). assert (Hw : window_ok j (st_base j st) (st_kb st)) by (apply (stage_window j); [done| |]; by intros ->).
  pose proof (kC_range _ _ _ Hj _ _ Hw). pose proof (mod_kC _ _ _ Hj _ _ s Hw).
  unfold seq_input, window_input, seq_bytes. destruct (ga_inputAddress (args j)) as [f|] eqn:E.
  - apply (M1 f _ eq_refl). lia.
  - apply (M2 eq_refl). replace (loaded j st) with (kC (st_kb st)) by (by destruct st). lia.
Qed.

Lemma rest_prepare st g m b : inv_rest st g m b -> prepares st = true ->
  let g' := prepareInput j (st_seq st) g in
  inv_rest st g' m b /\ preparedSeq g' = st_seq st /\ input_core g' = input_core g /\ calls g' = calls g.
Proof.
  intros I Hp. cbv zeta. destruct (decide (preparedSeq g = st_seq st)) as [E|Hne].
  { unfold prepareInput. rewrite (proj2 (Z.eqb_eq _ _) E). done. }
  destruct (prepares_window st Hp) as (Hin & Hpf & Hrun & Hfr).
  destruct (rest_window st g m b I Hin) as (Hw & Pw & Pn & Pk & Ha).
  assert (S : stage_ok st) by apply (proj1 I). destruct (prepares_seq st S Hp) as (Hn & Hk & Hs).
  pose proof (seq_limit_range _ _ _ Hj _ _ Hw). pose proof I as [[_ I2 I3 I4 I5 I6 I7] N].
  unfold GemmInvariant.prefetch_ok in I5. rewrite Hpf in I5. destruct I5 as [(R1 & R2 & R3) (T1 & T2 & T3 & T4)].
  destruct (prepareInput_ok j (seq_bytes j inputs m0 (st_kb st)) (seq_input j (st_kb st)) (rows_range _ _ _ Hj) m (st_seq st) (seq_limit (st_base j st) (st_kb st)) g) as (G1 & G2 & G3 & G4).
  - exact R3.
  - exact Hs.
  - lia.
  - exact Ha.
  - exact (sequenceLimit_at _ _ _ Hj _ _ _ Hw Pw).
  - intros s _ _. by apply prepared_held.
  - intros _ s Hs' _. destruct Pw as (_ & P2 & _ & P4). rewrite P4. apply (input_address_at _ _ _ Hj (st_base j st)); [done|done|].
    by apply (mod_kC _ _ _ Hj (st_base j st)).
  - intros _. destruct Pw as (_ & P2 & _). rewrite Pk. unfold seq_input, GemmInvariant.st_seq.
    rewrite (seq_at_mod _ _ _ _ _ Hw Hk). by apply (input_address_at _ _ _ Hj (st_base j st)).
  - set (g' := prepareInput j (st_seq st) g) in *. split; [|done].
    split; [|change (next (input_core g') = None); rewrite G3; exact N].
    assert (En : needs_input st = false).
    { destruct (needs_input st); [|done]. destruct (T1 eq_refl) as [E _]. by destruct Hne. }
    assert (Es : slots g' = slots g) by (change (slots (input_core g') = slots (input_core g)); by rewrite G3).
    assert (Ex : nextPrefetch g' = nextPrefetch g) by (change (nextPrefetch (input_core g') = nextPrefetch (input_core g)); by rewrite G3).
    split.
    + exact S.
    + cbn [gemm]. change (calls (g' <| next := task_of st |>)) with (calls g'). rewrite G4.
      apply (flow_frame j cfg host inputs initials m0 st (g <| next := task_of st |>)); [|exact I2].
      by rewrite <- (flow_core_input g'), G3, flow_core_input.
    + cbn [gemm]. change (arrays_ok st (remaining (input_core g')) (calls g') b). rewrite G3, G4. exact I3.
    + exact I4.
    + cbn [gemm memory]. unfold GemmInvariant.prefetch_ok. rewrite Hpf. split; [split; [|split]|split; [|split; [|split]]].
      * unfold weights_inv. change (weights_ok j (seq_source j (st_base j st) (st_kb st)) (seq_weights j host (st_base j st) (st_kb st)) m (st_seq st) (nextPrefetch g') (slots g') (calls g')).
        rewrite Es, Ex, G4. exact R1.
      * change (nextPrefetch g' = Z.min (seq_limit (st_base j st) (st_kb st)) (st_seq st + slotCount j)). by rewrite Ex.
      * exact G1.
      * rewrite En. discriminate.
      * rewrite Hp. discriminate.
      * rewrite Hfr. discriminate.
      * destruct (scattered st) eqn:Esc; [|discriminate]. by destruct st as [| | | | | | | ? ? ? ? [|? ?|? ?|?]| | | | |].
    + change (outputs (input_core g') = out0 ++ expected_outputs j host inputs initials m0 (outputs_done j st)). rewrite G3. exact I6.
    + change (finished (input_core g') = fin0 ++ (match st with SDone => [true] | _ => [] end)). rewrite G3. exact I7.
Qed.
End flow.
