(* ===== verification/GemmTasks.v ===== *)
(** * The tasks of the window GEMM keep its invariant

    One lemma per function the continuation can hold: run from a state of its stage, it
    leaves the system in a stage of the invariant. *)

From Stdlib Require Import ZArith Lia.
From Stdlib Require Import Init.Byte.
From stdpp Require Import base numbers functions list.
From S2P Require Import Prelude RecordUpdate Ieee IeeeArith Fp16 AttentionBase ComputeUnit TileArray ControlTransport WindowGemm GemmValues GemmSystem GemmArrays GemmSlots GemmInvariant GemmFacts GemmSums GemmParts GemmMemory GemmRows GemmRank GemmFlow.
Open Scope Z_scope.

Section tasks.
Context (j : GemmJob) (cfg : TileUnitConfig) (host : Z -> byte) (inputs initials : Z -> Values) (m0 : Z -> byte).
Context (out0 : list (Z * Values)) (fin0 : list bool).
Hypothesis Hj : job_ok j inputs initials.
Hypothesis Hfit : arrays_fit cfg.

Notation inv := (gemm_inv j cfg host inputs initials m0 out0 fin0).
Notation rest := (inv_rest j cfg host inputs initials m0 out0 fin0).
Notation nC := (nC j).
Notation kC := (kC j).
Notation stage_ok := (stage_ok j).
Notation flow_ok := (flow_ok j cfg host inputs initials m0).
Notation arrays_ok := (arrays_ok j host inputs initials m0).
Notation memory_ok := (memory_ok j host inputs initials m0).
Notation prefetch_ok := (prefetch_ok j host inputs m0).
Notation place_ok := (place_ok j).
Notation io_ok := (io_ok j host inputs initials m0).
Notation main_calls := (main_calls j cfg host inputs initials m0).
Notation seq_limit := (seq_limit j).
Notation st_seq := (st_seq j).
Notation goes := (goes j).
Notation smooth := (smooth j cfg).
Notation rest_view := (rest_view j cfg host inputs initials m0 out0 fin0).
Notation rest_stay := (rest_stay j cfg host inputs initials m0 out0 fin0).
Notation rest_retry := (rest_retry j cfg host inputs initials m0 out0 fin0).
Notation rest_schedule := (rest_schedule j cfg host inputs initials m0 out0 fin0).
Notation inv_step := (inv_step j cfg host inputs initials m0 out0 fin0).
Notation rest_window := (rest_window j cfg host inputs initials m0 out0 fin0).
Notation rest_prepare := (rest_prepare j cfg host inputs initials m0 out0 fin0 Hj).

(** *** The lease *)

Lemma rest_lease_prepare st g m b :
  rest st g m b -> prepares st = true -> earlyA j = true -> ga_acquire (args j) = true ->
  rest st (prepareInput j (u32 (u32 (n g * kCount g) + k g)) g) m b.
Proof.
  intros I Hp He Ha. destruct (prepares_window j st Hp) as (Hin & _).
  destruct (rest_window st g m b I Hin) as (Hw & Pw & Pn & Pk & _).
  destruct (prepares_seq j inputs initials Hj st (inv_stage _ _ _ _ _ _ _ _ _ _ (proj1 I)) Hp) as (Hn & Hk & _).
  rewrite (preparedSequence_at _ _ _ Hj _ _ _ _ g Hw Pw Pn Pk Hn Hk He Ha). by apply rest_prepare.
Qed.
Lemma rest_acquire st g m b re :
  rest st g m b -> prepares st = true -> rest st (acquireArrays j re g).1 m b.
Proof.
  intros I Hp. unfold acquireArrays. destruct (ga_acquire (args j) && negb (leaseHeld g)) eqn:E; [|exact I].
  boolify. set (g1 := if earlyA j then _ else g).
  assert (I1 : rest st g1 m b) by (unfold g1; destruct (earlyA j) eqn:He; [by apply rest_lease_prepare|exact I]).
  destruct (lease_granted re); cbn [negb fst]; apply (rest_view st g1); reflexivity || exact I1.
Qed.

(** Splits the premises of a step; place, transfer and call remain. *)
Ltac split_flows N :=
  split; [reflexivity|split; [reflexivity|split; [reflexivity|split; [reflexivity|split; [exact N|split; [|split]]]]]].
Ltac step_to st st' g :=
  apply (inv_step st st' g);
  [assumption|reflexivity|reflexivity| | |exact (fun A => A)|exact (fun M => M)|exact (fun P => P)|reflexivity
  |reflexivity|reflexivity|apply ports_kept_snoc; reflexivity|reflexivity|reflexivity].

(** *** Activations *)

Lemma loadA_ok base kb i g m b :
  rest (SAsk base kb i false) g m b -> inv (SAsk base kb i true) (mkSystem (loadA g) m b).
Proof.
  intros I. pose proof I as [[S (F1 & F2 & F3 & F4 & F5 & F6 & F7 & F8) _ _ _ _ _] N].
  pose proof S as (Hw & Hi & Hn). pose proof (kC_range _ _ _ Hj _ _ Hw). pose proof (kTiles_range _ _ _ Hj).
  step_to (SAsk base kb i false) (SAsk base kb i true) g; [exact S|].
  split_flows N; [exact F6|exact F7|].
  destruct F6 as (_ & P2 & _ & _ & _ & _ & P7). change (kBase g = kb) in P2. change (loadedA g = i) in P7.
  change (calls (loadA g)) with (calls g ++ [AskInput (u32 (kBase g + loadedA g))]).
  rewrite on_port_snoc. change (on_port PMain (calls g) = []) in F8. rewrite F8, P2, P7, u32_id by (unfold in_u32; lia). reflexivity.
Qed.

Lemma chunk_range total off : 0 <= off < total -> 1 <= chunk j total off /\ off + chunk j total off <= total.
Proof. pose proof (ok_max _ _ _ Hj). unfold chunk. lia. Qed.
Lemma chunk_length_at g total off : blen (io g) = total -> offset g = off -> chunk_length j g = chunk j total off.
Proof. unfold chunk_length, chunk. by intros -> ->. Qed.

Lemma writeLoad_ok base kb i off g m b re :
  rest (SLoad base kb i off false) g m b ->
  inv (SLoad base kb i off (accepts re (tag g ⊞ 1))) (mkSystem (writeChunk j re g) m b).
Proof.
  intros I. unfold writeChunk. cbv zeta. set (g1 := new_tag (set_pending true g)).
  change (tag g1) with (tag g ⊞ 1). destruct (accepts re (tag g ⊞ 1)).
  2:{ apply (rest_retry _ g _ m b WriteChunk); [exact I|reflexivity|reflexivity|reflexivity|reflexivity]. }
  pose proof I as [[S (F1 & F2 & F3 & F4 & F5 & F6 & F7 & F8) _ _ _ _ _] N].
  pose proof S as (Hw & Hi & E & Ho). pose proof (tile_blen j inputs initials m0 Hj base kb i Hw Hi) as Hb.
  pose proof (window_input_range _ _ _ Hj _ _ _ Hw Hi) as Hr. unfold window_input in Hr. rewrite E in Hr. unfold tile_bytes in *.
  step_to (SLoad base kb i off false) (SLoad base kb i off true) g; [exact S|].
  split_flows N; [exact F6|exact F7|].
  change (calls (issue ?c g1)) with (calls g ++ [c]).
  rewrite on_port_snoc. change (on_port PMain (calls g) = []) in F8. rewrite F8.
  destruct F7 as (A1 & A2 & A3 & A4). change (ioAddr g = aBase j + i * tile_bytes j) in A1. change (offset g = off) in A2.
  change (io g = input_tile_bytes j inputs m0 (kb + i)) in A3.
  change (ioAddr g1) with (ioAddr g). change (offset g1) with (offset g). change (io g1) with (io g).
  change (chunk_length j g1) with (chunk_length j g).
  rewrite (chunk_length_at g (rows j * 128) off), A1, A2, A3 by congruence. unfold tile_bytes.
  rewrite u64_id by (unfold in_u64; lia). reflexivity.
Qed.
Lemma writeSpill_ok base kb nn off g m b re :
  rest (SSpill base kb nn off false) g m b ->
  inv (SSpill base kb nn off (accepts re (tag g ⊞ 1))) (mkSystem (writeChunk j re g) m b).
Proof.
  intros I. unfold writeChunk. cbv zeta. set (g1 := new_tag (set_pending true g)).
  change (tag g1) with (tag g ⊞ 1). destruct (accepts re (tag g ⊞ 1)).
  2:{ apply (rest_retry _ g _ m b WriteChunk); [exact I|reflexivity|reflexivity|reflexivity|reflexivity]. }
  pose proof I as [[S (F1 & F2 & F3 & F4 & F5 & F6 & F7 & F8) _ _ _ _ _] N].
  pose proof S as (Hw & Hi & E & Ho). pose proof (spill_blen j host inputs initials m0 Hj (base + nn) (kb + kC kb)) as Hb.
  pose proof (spill_address_range _ _ _ Hj _ _ _ Hw Hi) as Hr. unfold spill_bytes in *.
  step_to (SSpill base kb nn off false) (SSpill base kb nn off true) g; [exact S|].
  split_flows N; [exact F6|exact F7|].
  change (calls (issue ?c g1)) with (calls g ++ [c]).
  rewrite on_port_snoc. change (on_port PMain (calls g) = []) in F8. rewrite F8.
  destruct F7 as (A1 & A2 & A3 & A4). change (ioAddr g = spill_address j nn) in A1. change (offset g = off) in A2.
  change (io g = spill j host inputs initials m0 (base + nn) (kb + kC kb)) in A3.
  change (ioAddr g1) with (ioAddr g). change (offset g1) with (offset g). change (io g1) with (io g).
  change (chunk_length j g1) with (chunk_length j g).
  rewrite (chunk_length_at g (rows j * 256) off), A1, A2, A3 by congruence.
  rewrite u64_id by (unfold in_u64; lia). reflexivity.
Qed.
Lemma readChunk_ok base kb nn off g m b re :
  rest (SRead base kb nn off false) g m b ->
  inv (SRead base kb nn off (accepts re (tag g ⊞ 1))) (mkSystem (readChunk j re g) m b).
Proof.
  intros I. unfold readChunk. cbv zeta. set (g1 := new_tag (set_pending true g)).
  change (tag g1) with (tag g ⊞ 1). destruct (accepts re (tag g ⊞ 1)).
  2:{ apply (rest_retry _ g _ m b ReadChunk); [exact I|reflexivity|reflexivity|reflexivity|reflexivity]. }
  pose proof I as [[S (F1 & F2 & F3 & F4 & F5 & F6 & F7 & F8) _ _ _ _ _] N].
  pose proof S as (Hw & Hi & Hk & Ho). pose proof (spill_address_range _ _ _ Hj _ _ _ Hw Hi) as Hr. unfold spill_bytes in *.
  step_to (SRead base kb nn off false) (SRead base kb nn off true) g; [exact S|].
  split_flows N; [exact F6|exact F7|].
  change (calls (issue ?c g1)) with (calls g ++ [c]).
  rewrite on_port_snoc. change (on_port PMain (calls g) = []) in F8. rewrite F8.
  destruct F7 as (A1 & A2 & A3 & A4). change (ioAddr g = spill_address j nn) in A1. change (offset g = off) in A2.
  change (blen (io g) = rows j * 256) in A3.
  change (ioAddr g1) with (ioAddr g). change (offset g1) with (offset g). change (chunk_length j g1) with (chunk_length j g).
  rewrite (chunk_length_at g (rows j * 256) off), A1, A2 by congruence.
  rewrite u64_id by (unfold in_u64; lia). reflexivity.
Qed.

(** *** The sums *)

Lemma restoreC_ok base kb nn g m b re :
  rest (SRestore base kb nn) g m b ->
  exists st', goes (SRestore base kb nn) st' (smooth re g) /\ inv st' (mkSystem (restoreC j re g) m b).
Proof.
  intros I. unfold restoreC. cbv zeta. set (st := SRestore base kb nn) in *.
  assert (I1 : rest st (set_phase 1 g) m b /\ control (set_phase 1 g) = control g) by (split; [apply (rest_view _ g); done|done]).
  set (g1 := set_phase 1 g) in *. clearbody g1. clear I.
  set (g2 := if _ : bool then prepareInput j _ g1 else g1).
  assert (I2 : rest st g2 m b /\ control g2 = control g).
  { unfold g2. destruct (lateLease j && ga_acquire (args j) && earlyA j) eqn:E; [|exact I1]. boolify. destruct I1 as [I1 C1].
    split; [by apply rest_lease_prepare|by rewrite control_prepare]. }
  clearbody g2. clear I1 g1.
  set (r3 := if lateLease j then (g2, true) else acquireArrays j re g2).
  assert (I3 : rest st r3.1 m b /\ control r3.1 = control g /\ (lease_granted re = true -> r3.2 = true)).
  { unfold r3. destruct I2 as [I2 C2]. destruct (lateLease j); [done|].
    split; [by apply rest_acquire|]. split; [by rewrite control_acquire|apply acquire_held]. }
  destruct r3 as [g3 held]. cbn [fst snd] in I3. clear I2 g2. destruct I3 as (I3 & C3 & H3).
  destruct held; cbn [negb].
  2:{ exists st. split; [|by apply rest_schedule]. apply goes_stay; [reflexivity|]. intros Sm. specialize (H3 (smooth_lease _ _ _ _ Sm)). discriminate. }
  destruct (computing g3) eqn:Ec.
  { exists st. split; [|eapply rest_stay; [exact I3|reflexivity|reflexivity|reflexivity]]. apply goes_stay; [reflexivity|].
    intros Sm. apply (smooth_control _ _ _ _ g3), smooth_arrays in Sm; [congruence|exact C3]. }
  pose proof I3 as [[S (F1 & F2 & F3 & F4 & F5 & F6 & F7 & F8) _ _ _ _ _] N]. pose proof S as [Hw Hn].
  pose proof F6 as (P1 & P2 & P3 & P4 & P5 & P6). change (kBase g3 = kb) in P2. change (n g3 = nn) in P5. change (nBase g3 = base) in P1.
  change (pending g3 = false) in F2. change (on_port PMain (calls g3) = []) in F8.
  pose proof (rows_range _ _ _ Hj) as Hr. pose proof (nC_range _ _ _ Hw) as Hnc. pose proof (kC_range _ _ _ Hj _ _ Hw) as Hkc.
  pose proof (tiles_range _ _ _ Hj) as Ht.
  rewrite P2. destruct (Z.eqb_spec kb 0) as [Hk|Hk]; cbn [negb].
  - clear P2. subst kb. destruct (ga_initial (args j)) eqn:Hi.
    + exists (SInitial base nn). split; [to_later|]. step_to (SRestore base 0 nn) (SInitial base nn) g3; [split; [exact Hw|split; [exact Hn|exact Hi]]|].
      split_flows N; [exact F6|exact Logic.I|].
      change (calls (issue ?c _)) with (calls g3 ++ [c]). rewrite on_port_snoc, F8, P1, P5, u32_id by (unfold in_u32; lia). reflexivity.
    + exists (STile base 0 nn 0 Acquiring). split; [to_later|].
      apply (inv_step (SRestore base 0 nn) _ g3);
        [exact I3|reflexivity|reflexivity| | | |exact (fun M => M)|exact (fun P => P)|reflexivity|reflexivity|reflexivity|done|reflexivity|reflexivity].
      * split; [exact Hw|]. split; [exact Hn|]. split; [lia|exact Logic.I].
      * split; [reflexivity|]. split; [reflexivity|]. split; [reflexivity|]. split; [exact F2|]. split; [reflexivity|].
        split; [exact F6|]. split; [exact Logic.I|exact F8].
      * by apply arrays_unloaded.
  - exists (SRead base kb nn 0 false). split; [to_later|].
    apply (inv_step (SRestore base kb nn) _ g3);
      [exact I3|reflexivity|reflexivity| | |exact (fun A => A)|exact (fun M => M)|exact (fun P => P)|reflexivity|reflexivity|reflexivity|done|reflexivity|reflexivity].
    + split; [exact Hw|]. split; [exact Hn|]. split; [lia|]. unfold spill_bytes. lia.
    + split; [reflexivity|]. split; [reflexivity|]. split; [reflexivity|]. split; [exact F2|]. split; [reflexivity|].
      split; [exact F6|]. split; [|exact F8]. split; [exact (partial_address_at _ _ _ Hj _ _ _ g3 Hw P5 Hn)|].
      split; [reflexivity|]. split; [|by rewrite !bslice_take].
      change (blen (replicate (Z.to_nat (u32 (rows j * 256))) x00) = spill_bytes j). unfold blen, spill_bytes. rewrite length_replicate, u32_id by (unfold in_u32; lia). lia.
Qed.

Lemma taken_some {A} re t (request : option A) : taken re t request = true -> is_Some request.
Proof. unfold taken. intros H. by boolify. Qed.

Lemma loaded_length base kb nn w : stage_ok (SProgC base kb nn w) ->
  Z.of_nat (length (st_loaded j host inputs initials m0 (SProgC base kb nn w))) = rows j * 64.
Proof.
  intros (_ & _ & H). unfold st_loaded. cbn [st_kb st_base st_n]. destruct (Z.eqb_spec kb 0) as [E|E]; [|by apply partial_length].
  apply (ok_initials _ _ _ Hj). destruct H as [H|H]; [lia|exact H].
Qed.
Lemma programC_ok base kb nn g m b re :
  rest (SProgC base kb nn false) g m b ->
  exists w, goes (SProgC base kb nn false) (SProgC base kb nn w) (smooth re g) /\
    inv (SProgC base kb nn w) (mkSystem (programC j cfg re g) m b).
Proof.
  intros I. unfold programC. cbv zeta. change (cycle (set_phase 1 g)) with (cycle g). change (cReadyCycle (set_phase 1 g)) with (cReadyCycle g).
  destruct (Z.ltb_spec (cycle g) (cReadyCycle g)) as [Hc|Hc].
  { exists false. split; [|eapply rest_stay; [exact I|reflexivity|reflexivity|reflexivity]].
    apply goes_stay; [reflexivity|]. intros Sm. pose proof (smooth_cycle _ _ _ _ Sm). lia. }
  assert (I1 : rest (SProgC base kb nn false) (acquireArrays j re (set_phase 1 g)).1 m b).
  { apply rest_acquire; [|reflexivity]. apply (rest_view _ g); [reflexivity|reflexivity|exact I]. }
  pose proof (acquire_held j re (set_phase 1 g)) as H1.
  destruct (acquireArrays j re (set_phase 1 g)) as [g1 held]. cbn [fst snd] in I1, H1. clear I.
  destruct held; cbn [negb].
  2:{ exists false. split; [|by apply rest_schedule]. apply goes_stay; [reflexivity|]. intros Sm. specialize (H1 (smooth_lease _ _ _ _ Sm)). discriminate. }
  set (g2 := new_tag (set_pending true g1)). destruct (taken re (tag g2) _) eqn:E.
  2:{ exists false. split; [|apply (rest_retry _ g1 _ m b ProgramC); [exact I1|reflexivity|reflexivity|reflexivity|reflexivity]].
      apply goes_stay; [reflexivity|]. intros Sm. rewrite taken_accepted in E; [discriminate|apply (smooth_accepts _ _ _ _ Sm)|].
      apply (write_taken j inputs initials Hj cfg Hfit). change (result_ g2) with (result_ g1).
      pose proof I1 as [[S (_ & _ & _ & _ & _ & _ & F7 & _) _ _ _ _ _] _].
      change (result_ g1 = st_loaded j host inputs initials m0 (SProgC base kb nn false)) in F7. rewrite F7. by apply loaded_length. }
  apply taken_some in E. pose proof I1 as [[S (F1 & F2 & F3 & F4 & F5 & F6 & F7 & F8) _ _ _ _ _] N].
  exists true. split; [to_later|]. step_to (SProgC base kb nn false) (SProgC base kb nn true) g1; [exact S|].
  split_flows N; [exact F6|exact F7|].
  change (calls (issue ?c g2)) with (calls g1 ++ [c]). change (on_port PMain (calls g1) = []) in F8.
  change (result_ g1 = st_loaded j host inputs initials m0 (SProgC base kb nn true)) in F7. change (result_ g2) with (result_ g1) in *.
  rewrite on_port_snoc, F8, F7. rewrite F7 in E. split; [reflexivity|exact E].
Qed.
End tasks.
