(* ===== verification/GemmTiles.v ===== *)
(** * A tile in the arrays

    Acquiring a tile's weights, broadcasting and scattering, the launches and the drain keep
    the invariant of the window GEMM. *)

From Stdlib Require Import ZArith Lia.
From Stdlib Require Import Init.Byte.
From stdpp Require Import base numbers functions list.
From S2P Require Import Prelude RecordUpdate Ieee IeeeArith Fp16 AttentionBase ComputeUnit TileArray ControlTransport WindowGemm GemmValues GemmSystem GemmArrays GemmSlots GemmInvariant GemmFacts GemmSums GemmParts GemmMemory GemmRows GemmRank GemmFlow GemmTasks.
Open Scope Z_scope.
#[local] Opaque mem_bytes.

Section tiles.
Context (j : GemmJob) (cfg : TileUnitConfig) (host : Z -> byte) (inputs initials : Z -> Values) (m0 : Z -> byte).
Context (out0 : list (Z * Values)) (fin0 : list bool).
Hypothesis Hj : job_ok j inputs initials.
Hypothesis Hfit : arrays_fit cfg.

Notation inv := (gemm_inv j cfg host inputs initials m0 out0 fin0).
Notation rest := (inv_rest j cfg host inputs initials m0 out0 fin0).
Notation nC := (nC j).
Notation kC := (kC j).
Notation stage_ok := (stage_ok j).
Notation flow_ok := (flow_ok j cfg host inputs initials m0).
Notation arrays_ok := (arrays_ok j host inputs initials m0).
Notation memory_ok := (memory_ok j host inputs initials m0).
Notation prefetch_ok := (prefetch_ok j host inputs m0).
Notation place_ok := (place_ok j).
Notation io_ok := (io_ok j host inputs initials m0).
Notation main_calls := (main_calls j cfg host inputs initials m0).
Notation seq_limit := (seq_limit j).
Notation st_seq := (st_seq j).
Notation goes := (goes j).
Notation smooth := (smooth j cfg).
Notation rest_view := (rest_view j cfg host inputs initials m0 out0 fin0).
Notation rest_stay := (rest_stay j cfg host inputs initials m0 out0 fin0).
Notation rest_retry := (rest_retry j cfg host inputs initials m0 out0 fin0).
Notation rest_schedule := (rest_schedule j cfg host inputs initials m0 out0 fin0).
Notation inv_step := (inv_step j cfg host inputs initials m0 out0 fin0).
Notation rest_window := (rest_window j cfg host inputs initials m0 out0 fin0).
Notation rest_prepare := (rest_prepare j cfg host inputs initials m0 out0 fin0 Hj).

(** Splits the premises of a step; place, transfer and call remain. *)
Ltac split_flows N :=
  split; [reflexivity|split; [reflexivity|split; [reflexivity|split; [reflexivity|split; [exact N|split; [|split]]]]]].
Ltac step_to st st' g :=
  apply (inv_step st st' g);
  [assumption|reflexivity|reflexivity| | |exact (fun A => A)|exact (fun M => M)|exact (fun P => P)|reflexivity
  |reflexivity|reflexivity|apply ports_kept_snoc; reflexivity|reflexivity|reflexivity].


Notation rest_acquire := (rest_acquire j cfg host inputs initials m0 out0 fin0 Hj).

(** The weights of the step are in their slot. *)
Lemma slot_weights st g m b :
  rest st g m b -> prepares st = true -> w_ready (slots g (st_seq st mod slotCount j)) = true ->
  w_seq (slots g (st_seq st mod slotCount j)) = st_seq st /\
  w_bytes (slots g (st_seq st mod slotCount j)) = seq_weights j host (st_base j st) (st_kb st) (st_seq st).
Proof.
  intros I Hp Hr. destruct (prepares_window j st Hp) as (Hin & Hpf & _).
  destruct (prepares_seq j inputs initials Hj st (inv_stage _ _ _ _ _ _ _ _ _ _ (proj1 I)) Hp) as (_ & _ & Hs).
  pose proof (ok_slots _ _ _ Hj). pose proof (inv_prefetch _ _ _ _ _ _ _ _ _ _ (proj1 I)) as P.
  unfold GemmInvariant.prefetch_ok in P. rewrite Hpf in P. destruct P as [(R1 & R2 & _) _].
  destruct (weights_ready _ _ _ _ _ _ R1) as (E1 & E2 & _); [cbn in *; lia|exact Hr|]. split; [exact E1|exact E2].
Qed.

Lemma tile_seq base kb nn kk ph g m b :
  rest (STile base kb nn kk ph) g m b -> currentSequence j g = st_seq (STile base kb nn kk ph).
Proof.
  intros I. destruct (rest_window _ _ _ _ I eq_refl) as (Hw & Pw & Pn & Pk & _).
  pose proof (inv_stage _ _ _ _ _ _ _ _ _ _ (proj1 I)) as (_ & Hn & Hk & _).
  by apply (currentSequence_at _ _ _ Hj _ _ _ _ g Hw Pw Pn Pk).
Qed.

Lemma acquireTile_ok base kb nn kk g m b :
  rest (STile base kb nn kk Acquiring) g m b ->
  exists st', goes (STile base kb nn kk Acquiring) st' (ready j (STile base kb nn kk Acquiring) g) /\ inv st' (mkSystem (acquireTile j g) m b).
Proof.
  intros I. unfold acquireTile. cbv zeta. set (st := STile base kb nn kk Acquiring) in *.
  assert (I0 : rest st (set_phase 2 g) m b) by (apply (rest_view st g); [reflexivity|reflexivity|exact I]).
  clear I. change (ready j st g) with (ready j st (set_phase 2 g)). set (g0 := set_phase 2 g) in *. clearbody g0. clear g.
  rewrite (tile_seq _ _ _ _ _ _ _ _ I0). fold st. set (seq := st_seq st). set (i := seq mod slotCount j).
  set (g1 := if earlyA j then prepareInput j seq g0 else g0).
  assert (I1 : rest st g1 m b /\ slots g1 = slots g0).
  { unfold g1. destruct (earlyA j); [|split; [exact I0|reflexivity]].
    destruct (rest_prepare st g0 m b I0 eq_refl) as (J1 & _ & J3 & _). split; [exact J1|].
    change (slots (input_core (prepareInput j seq g0)) = slots (input_core g0)). unfold seq. by rewrite J3. }
  destruct I1 as [I1 Es]. clearbody g1.
  destruct (negb (w_ready (slots g0 i)) || negb (w_seq (slots g0 i) =? seq)) eqn:Er.
  { exists st. split; [|eapply rest_stay; [exact I1|reflexivity|reflexivity|reflexivity]]. apply goes_stay; [reflexivity|]. intros Rd.
    change (w_ready (slots g0 i) = true) in Rd. destruct (slot_weights st g0 m b I0 eq_refl Rd) as [Eq _].
    fold seq in Eq. fold i in Eq. rewrite Rd, Eq, Z.eqb_refl in Er. discriminate. }
  apply orb_false_iff in Er as [Er _]. apply negb_false_iff in Er. rewrite <- Es in Er |- *.
  destruct (slot_weights st g1 m b I1 eq_refl Er) as [_ Eb].
  set (g2 := bump prefetchHits_ 1 _).
  assert (I2 : rest st g2 m b).
  { pose proof I1 as [[S (F1 & F2 & F3 & F4 & F5 & F6 & F7 & F8) _ _ _ _ _] N]. split; [|exact N].
    apply (inv_step st st g1); [exact I1|reflexivity|reflexivity|exact S| |exact (fun A => A)|exact (fun M => M)|exact (fun P => P)
      |reflexivity|reflexivity|reflexivity|done|reflexivity|reflexivity].
    split; [reflexivity|]. split; [reflexivity|]. split; [reflexivity|]. split; [exact F2|]. split; [reflexivity|].
    split; [exact F6|]. split; [exact Logic.I|exact F8]. }
  assert (Em : matrix g2 = st_weights j host (STile base kb nn kk (Broadcasting 0 false)) /\ group g2 = 0 /\ slots g2 = slots g1).
  { split; [|split; reflexivity]. change (matrix g2) with (ReuseWindowGemm_unpack (w_bytes (slots g1 i)) 2).
    unfold st_weights. f_equal. exact Eb. }
  clearbody g2. clear I1. destruct (rest_prepare st g2 m b I2 eq_refl) as (I3 & Ep & Ec & _).
  set (g3 := prepareInput j (st_seq st) g2) in *.
  assert (Em3 : matrix g3 = matrix g2 /\ group g3 = group g2 /\ slots g3 = slots g2).
  { split; [change (matrix (input_core g3) = matrix (input_core g2))|split; [change (group (input_core g3) = group (input_core g2))|
      change (slots (input_core g3) = slots (input_core g2))]]; by rewrite Ec. }
  change (prepareInput j seq g2) with g3. clearbody g3.
  exists (STile base kb nn kk (Broadcasting 0 false)). split; [to_later|].
  pose proof I3 as [[S (F1 & F2 & F3 & F4 & F5 & F6 & F7 & F8) _ _ _ _ _] N]. pose proof S as (Hw & Hn & Hk & _).
  apply (inv_step st _ g3); [exact I3|reflexivity|reflexivity| | | |exact (fun M => M)| |reflexivity|reflexivity|reflexivity|done|reflexivity|reflexivity].
  - split; [exact Hw|]. split; [exact Hn|]. split; [exact Hk|]. split; [|done]. destruct (groups_cases j inputs initials Hj) as [E|[E _]]; rewrite E; lia.
  - split; [reflexivity|]. split; [reflexivity|]. split; [reflexivity|]. split; [exact F2|]. split; [reflexivity|].
    split; [exact F6|]. split; [|exact F8]. destruct Em as (Em & Eg & _), Em3 as (Em3 & Eg3 & _). split; [change (group g3 = 0); congruence|].
    change (matrix g3 = st_weights j host (STile base kb nn kk (Broadcasting 0 false))). congruence.
  - apply arrays_stage. intros r x c Hr _ [R1 R2]. split; [discriminate|]. intros _. destruct (R2 eq_refl) as (R3 & _).
    split; [|split; discriminate]. cbn [launched_in st] in *. pose proof (grp_of_range j inputs initials Hj r Hr).
    rewrite (proj2 (Z.ltb_ge _ _)) by lia. exact R3.
  - apply prefetch_stage; [reflexivity..|]. intros (T1 & T2 & T3 & T4).
    split; [intros _|split; [discriminate|split; discriminate]]. split; [exact Ep|].
    destruct Em as (_ & _ & Es2), Em3 as (_ & _ & Es3). rewrite Es3, Es2. exact Er.
Qed.

Lemma programB_ok base kb nn kk q g m b re :
  rest (STile base kb nn kk (Broadcasting q false)) g m b ->
  exists w, goes (STile base kb nn kk (Broadcasting q false)) (STile base kb nn kk (Broadcasting q w)) (smooth re g) /\
    inv (STile base kb nn kk (Broadcasting q w)) (mkSystem (programB j cfg re g) m b).
Proof.
  intros I. unfold programB. cbv zeta. set (st := STile base kb nn kk (Broadcasting q false)) in *.
  assert (I1 : rest st (acquireArrays j re (set_phase 3 g)).1 m b).
  { apply rest_acquire; [|reflexivity]. apply (rest_view st g); [reflexivity|reflexivity|exact I]. }
  pose proof (acquire_held j re (set_phase 3 g)) as H1. pose proof (control_acquire j re (set_phase 3 g)) as C1.
  destruct (acquireArrays j re (set_phase 3 g)) as [g1 held]. cbn [fst snd] in I1, H1, C1. clear I.
  destruct held; cbn [negb].
  2:{ exists false. split; [|by apply (rest_schedule st)]. apply goes_stay; [reflexivity|]. intros Sm. specialize (H1 (smooth_lease _ _ _ _ Sm)). discriminate. }
  assert (Gq : group g1 = q) by apply (proj1 I1). pose proof (inv_stage _ _ _ _ _ _ _ _ _ _ (proj1 I1)) as (_ & _ & _ & Hq' & _).
  destruct (negb (remaining g1 (group g1) =? 0) || (scatterWave j && negb (remaining g1 1 =? 0))) eqn:Eb.
  { exists false. split; [|apply (rest_stay st g1 _ m b ProgramB); [exact I1|reflexivity|reflexivity|reflexivity]].
    apply goes_stay; [reflexivity|]. intros Sm. apply (smooth_control _ _ _ _ g1) in Sm; [|exact C1].
    destruct (at_rest g1 (smooth_arrays _ _ _ _ Sm)) as [R0 R1].
    assert (Rq : remaining g1 q = 0) by (destruct (groups_cases j inputs initials Hj) as [Eg|[Eg _]]; [by replace q with 0 by lia|by assert (q = 0 \/ q = 1) as [-> | ->] by lia]).
    rewrite Gq, Rq, R1, andb_false_r in Eb. discriminate. }
  set (g2 := new_tag (set_pending true g1)). destruct (taken re (tag g2) _) eqn:E.
  2:{ exists false. split; [|apply (rest_retry st g1 _ m b ProgramB); [exact I1|reflexivity|reflexivity|reflexivity|reflexivity]].
      apply goes_stay; [reflexivity|]. intros Sm. rewrite taken_accepted in E; [discriminate|apply (smooth_accepts _ _ _ _ Sm)|].
      destruct (groupArrays_at j inputs initials Hj g1 q Gq Hq') as (Ei & _).
      change (groupArrays j g2) with (groupArrays j g1). change (matrix g2) with (matrix g1). rewrite Ei.
      assert (Em : matrix g1 = st_weights j host st) by apply (proj1 I1). rewrite Em.
      apply (program_taken cfg Hfit); [by apply (targets_served j inputs initials Hj)| |].
      { pose proof (targets_width j inputs initials Hj q Hq'). pose proof (smooth_fanout _ _ _ _ Sm). lia. }
      unfold st_weights, seq_weights. rewrite unpack_length, mem_bytes_blen by lia. reflexivity. }
  apply taken_some in E. pose proof I1 as [[S (F1 & F2 & F3 & F4 & F5 & F6 & F7 & F8) _ _ _ _ _] N].
  pose proof S as (Hw & Hn & Hk & Hq & Hsc). destruct F7 as [Eg Em]. change (group g1 = q) in Eg.
  change (matrix g1 = st_weights j host st) in Em. change (on_port PMain (calls g1) = []) in F8.
  destruct (groupArrays_at j inputs initials Hj g1 q Eg Hq) as (Ei & _). rewrite Eg in Eb.
  change (groupArrays j g2) with (groupArrays j g1) in *. change (matrix g2) with (matrix g1) in *. rewrite Ei, Em in *.
  exists true. split; [to_later|]. apply (inv_step st _ g1); [exact I1|reflexivity|reflexivity|exact S| | |exact (fun M => M)|exact (fun P => P)|reflexivity
    |reflexivity|reflexivity|apply ports_kept_snoc; reflexivity|reflexivity|reflexivity].
  - split_flows N; [exact F6|exact (conj Eg Em)|].
    change (calls (issue ?c g2)) with (calls g1 ++ [c]). rewrite on_port_snoc, F8. exists (cycle g2).
    split; [reflexivity|exact E].
  - intros A. revert A. apply arrays_stage. intros r x c Hr Ec [R1 R2]. split; [|exact R2].
    intros Ht. rewrite Ec. cbn [quiet] in Ht. apply orb_false_iff in Eb as [Eb1 Eb2].
    apply negb_false_iff, Z.eqb_eq in Eb1. pose proof (inv_arrays _ _ _ _ _ _ _ _ _ _ (proj1 I1)) as A.
    unfold targeted in Ht. destruct (scatterWave j) eqn:Es.
    + specialize (Hsc eq_refl). cbn [andb] in Eb2. apply negb_false_iff, Z.eqb_eq in Eb2.
      pose proof (ok_wave _ _ _ Hj Es) as Hg. destruct (grp_of_small j inputs initials Hj r Hr) as [Er|Er].
      * apply (group_idle j host inputs initials m0 Hj _ _ _ _ q r A Hq Eb1 Hr). congruence.
      * apply (group_idle j host inputs initials m0 Hj _ _ _ _ 1 r A); [lia|exact Eb2|exact Hr|exact Er].
    + apply (group_idle j host inputs initials m0 Hj _ _ _ _ q r A Hq Eb1 Hr). lia.
Qed.

Lemma step_scatter base kb nn kk q w : stage_ok (STile base kb nn kk (Scattering q w)) ->
  is_Some (programInputScatterBankAsync cfg (group_ids j q) 0
    (group_input j q (st_input j inputs m0 (STile base kb nn kk (Scattering q w)))) 2 ProjectionInputScatter).
Proof.
  intros (Hw & Hn & Hk & Hq). apply (scatter_taken cfg Hfit); [by apply (group_served j inputs initials Hj)|].
  apply (group_input_length j inputs initials Hj); [exact Hq|]. unfold st_input. cbn [st_kb]. rewrite unpack_length.
  rewrite (seq_bytes_blen _ _ _ _ Hj base kb) by exact Hw. pose proof (rows_range _ _ _ Hj).
  replace (rows j * 128) with (rows j * 64 * 2) by lia. rewrite Z.div_mul by lia. lia.
Qed.
Lemma programA_ok base kb nn kk q g m b re :
  rest (STile base kb nn kk (Scattering q false)) g m b ->
  exists w, goes (STile base kb nn kk (Scattering q false)) (STile base kb nn kk (Scattering q w))
      (smooth re g /\ ready j (STile base kb nn kk (Scattering q false)) g) /\
    inv (STile base kb nn kk (Scattering q w)) (mkSystem (programA j cfg re g) m b).
Proof.
  intros I. unfold programA. cbv zeta. set (st := STile base kb nn kk (Scattering q false)) in *.
  change (input_is_ready j (set_phase 4 g)) with (input_is_ready j g). destruct (input_is_ready j g) eqn:Er; cbn [negb].
  2:{ exists false. split; [|apply (rest_stay st g _ m b ProgramA); [exact I|reflexivity|reflexivity|reflexivity]].
      apply goes_stay; [reflexivity|]. intros [_ Rd]. change (input_is_ready j g = true) in Rd. congruence. }
  set (g2 := new_tag (set_pending true (set_phase 4 g))).
  pose proof I as [[S (F1 & F2 & F3 & F4 & F5 & F6 & F7 & F8) _ _ P _ _] N].
  pose proof S as (Hw & Hn & Hk & Hq). pose proof F7 as [F7g _]. change (group g = q) in F7g. change (on_port PMain (calls g) = []) in F8.
  destruct (groupArrays_at j inputs initials Hj g q F7g Hq) as (Ei & Ebg & Een).
  change (groupArrays j g2) with (groupArrays j g). change (current_input j (set_phase 4 g)) with (current_input j g).
  change (group_begin j (set_phase 4 g)) with (group_begin j g). change (group_end j (set_phase 4 g)) with (group_end j g).
  destruct P as [(_ & _ & R3) T]. pose proof T as (T1 & _). destruct (T1 eq_refl) as [Ep _].
  destruct (prepares_seq j inputs initials Hj st S eq_refl) as (_ & _ & Hs).
  assert (Ec : current_input j g = st_input j inputs m0 st).
  { apply (inputs_ready j _ _ m (st_seq st) (seq_limit base kb) g R3 Ep); [apply Hs|exact Er]. }
  rewrite Ei, Ebg, Een, Ec.
  destruct (taken re (tag g2) _) eqn:E.
  2:{ exists false. split; [|apply (rest_retry st g _ m b ProgramA); [exact I|reflexivity|reflexivity|reflexivity|reflexivity]].
      apply goes_stay; [reflexivity|]. intros [Sm _]. rewrite taken_accepted in E; [discriminate|apply (smooth_accepts _ _ _ _ Sm)|].
      by apply (step_scatter base kb nn kk q false). }
  apply taken_some in E. exists true. split; [to_later|].
  apply (inv_step st _ g); [exact I|reflexivity|reflexivity|exact S| |exact (fun A => A)|exact (fun M => M)| |reflexivity
    |reflexivity|reflexivity|apply ports_kept_snoc; reflexivity|reflexivity|reflexivity].
  - split_flows N; [exact F6|exact F7|].
    change (calls (issue ?c g2)) with (calls g ++ [c]). rewrite on_port_snoc, F8. split; [reflexivity|exact E].
  - apply prefetch_stage; [reflexivity..|]. intros (T1' & T2 & T3 & _). split; [exact T1'|]. split; [discriminate|]. split; [discriminate|].
    intros _. exact Er.
Qed.

Lemma drain_ok base kb nn g m b re :
  rest (SDrain base kb nn false) g m b ->
  exists w, goes (SDrain base kb nn false) (SDrain base kb nn w) (smooth re g) /\ inv (SDrain base kb nn w) (mkSystem (drain j cfg re g) m b).
Proof.
  intros I. unfold drain. cbv zeta. set (st := SDrain base kb nn false) in *.
  change (computing (set_phase 6 g)) with (computing g). destruct (computing g) eqn:Ec.
  { exists false. split; [|apply (rest_stay st g _ m b Drain); [exact I|reflexivity|reflexivity|reflexivity]].
    apply goes_stay; [reflexivity|]. intros Sm. pose proof (smooth_arrays _ _ _ _ Sm). congruence. }
  change (outputWaiting (set_phase 6 g)) with (outputWaiting g). destruct (outputWaiting g) eqn:Eo.
  { exists false. split; [|apply (rest_stay st g _ m b Drain); [exact I|reflexivity|reflexivity|reflexivity]].
    apply goes_stay; [reflexivity|]. intros Sm. pose proof (smooth_output _ _ _ _ Sm). congruence. }
  set (g2 := new_tag (set_pending true (set_phase 6 g))). destruct (taken re (tag g2) _) eqn:E.
  2:{ exists false. split; [|apply (rest_retry st g _ m b Drain); [exact I|reflexivity|reflexivity|reflexivity|reflexivity]].
      apply goes_stay; [reflexivity|]. intros Sm. rewrite taken_accepted in E; [discriminate|apply (smooth_accepts _ _ _ _ Sm)|].
      apply (read_taken j inputs initials Hj cfg Hfit). unfold drain_bytes. destruct (_ <? _); tauto. }
  apply taken_some in E. pose proof I as [[S (F1 & F2 & F3 & F4 & F5 & F6 & F7 & F8) A _ _ _ _] N].
  change (on_port PMain (calls g) = []) in F8. exists true. split; [to_later|].
  apply (inv_step st _ g); [exact I|reflexivity|reflexivity|exact S| | |exact (fun M => M)|exact (fun P => P)|reflexivity
    |reflexivity|reflexivity|apply ports_kept_snoc; reflexivity|reflexivity|reflexivity].
  - split_flows N; [exact F6|exact F7|].
    change (calls (issue ?c g2)) with (calls g ++ [c]). rewrite on_port_snoc, F8. exists (drain_bytes j g2). split; [reflexivity|exact E].
  - apply arrays_stage. intros r x c Hr Eq [R1 R2]. split; [|exact R2]. intros _. rewrite Eq.
    by apply (none_computing j host inputs initials m0 Hj st (remaining g) (calls g) b g).
Qed.

(** *** Launching *)

Lemma launch_calls (f : ReuseWindowGemm -> Z -> Call) ids :
  (forall g c id, f (issue c g) id = f g id) ->
  forall g, foldl (fun g id => issue (f g id) g) g ids = g <| calls := calls g ++ map (f g) ids |>.
Proof.
  intros Hf. induction ids as [|id ids IH]; intros g; cbn [foldl map].
  - rewrite app_nil_r. by destruct g.
  - rewrite IH. change (calls (issue ?c g)) with (calls g ++ [c]). rewrite <- app_assoc. cbn [app].
    rewrite (map_ext (f (issue (f g id) g)) (f g)) by (intros; apply Hf). reflexivity.
Qed.

(** What the prefetchers hold once the arrays took step [cur]. *)
Lemma run_consume base kb cur m g :
  window_ok j base kb -> at_window j base kb g -> 0 <= cur < seq_limit base kb -> preparedSeq g = cur ->
  prefetch_run j host inputs m0 base kb cur m g -> input_is_ready j g = true -> w_ready (slots g (cur mod slotCount j)) = true ->
  let g1 := g <| inputValues := [] |> in
  let g2 := if inputPrefetch j then set_input_slot (cur mod 2) (fun _ => InputSlot_new) g1 else g1 in
  let g3 := set_slot (cur mod slotCount j) (fun _ => WeightSlot_new) g2 in
  let g' := fillPrefetch j g3 in
  prefetch_run j host inputs m0 base kb (cur + 1) m g' /\ weight_core g' = weight_core g3 /\ same_ports weight_port g3 g' /\
  preparedSeq g' = cur.
Proof.
  intros Hw Pw Hc Hp (R1 & R2 & R3) Hi Hr g1 g2 g3 g'. pose proof (ok_slots _ _ _ Hj) as Hs. pose proof (seq_limit_range _ _ _ Hj _ _ Hw) as Hl.
  assert (Hlt : cur < nextPrefetch g) by lia.
  destruct (weights_ready _ _ _ _ _ _ R1 Hlt Hr) as (_ & _ & Ec).
  assert (E2 : input_core g2 = input_core g /\ calls g2 = calls g /\ slots g2 = slots g /\ nextPrefetch g2 = nextPrefetch g).
  { unfold g2. destruct (inputPrefetch j); repeat split. }
  destruct E2 as (E2 & E2c & E2s & E2n).
  assert (W3 : weights_inv j (seq_source j base kb) (seq_weights j host base kb) m (cur + 1) g3).
  { unfold weights_inv. change (calls g3) with (calls g2). change (nextPrefetch g3) with (nextPrefetch g2).
    change (slots g3) with (<[cur mod slotCount j := WeightSlot_new]> (slots g2)). rewrite E2c, E2s, E2n.
    by apply weights_consume. }
  assert (At : at_window j base kb g3).
  { destruct Pw as (P1 & P2 & P3 & P4). unfold at_window.
    change (nBase g3) with (nBase (input_core g2)). change (kBase g3) with (kBase (input_core g2)).
    change (nCount g3) with (nCount (input_core g2)). change (kCount g3) with (kCount (input_core g2)). rewrite E2. done. }
  pose proof (sequenceLimit_at _ _ _ Hj _ _ _ Hw At) as Elim.
  destruct (fillPrefetch_ok j (seq_source j base kb) (seq_weights j host base kb) Hs m (cur + 1) g3 W3) as (G1 & G2 & G3 & G4).
  - intros s Hs'. apply (weight_address_at _ _ _ Hj _ _ _ _ Hw At). rewrite Elim in Hs'. lia.
  - rewrite Elim. lia.
  - rewrite Elim. change (nextPrefetch g3) with (nextPrefetch g2). rewrite E2n, R2. lia.
  - fold g' in G1, G2, G3, G4. rewrite Elim in G2. split; [split; [exact G1|split; [exact G2|]]|split; [exact G3|split; [exact G4|]]].
    + apply (inputs_core j _ _ m (cur + 1) _ g3 g' G3 G4).
      pose proof (inputs_consume j _ _ (rows_range _ _ _ Hj) m cur _ g R3 Hp ltac:(lia) Hi) as C. cbv zeta in C. fold g1 in C.
      change (inputs_inv j (seq_bytes j inputs m0 kb) (seq_input j kb) m (cur + 1) (seq_limit base kb) g2) in C.
      apply (inputs_core j _ _ m (cur + 1) _ g2 g3); [reflexivity|done|exact C].
    + change (preparedSeq (weight_core g') = cur). rewrite G3. change (preparedSeq g2 = cur). unfold g2. by destruct (inputPrefetch j).
Qed.

Lemma rem_insert q (rem : Z -> Z) v q' : (<[q := v]> rem) q' = if decide (q' = q) then v else rem q'.
Proof. case_decide as E; [subst; by rewrite fn_lookup_insert|by rewrite fn_lookup_insert_ne]. Qed.

Lemma launch_refused base kb nn kk q g m b :
  rest (STile base kb nn kk (Launching q)) g m b -> forall count,
  inv (STile base kb nn kk (Launching q))
    (mkSystem (schedule Launch (g <| remaining ::= fun f => <[q := 0]> (<[q := count]> f) |>)) m b).
Proof.
  intros I count. set (st := STile base kb nn kk (Launching q)) in *.
  pose proof I as [[S (F1 & F2 & F3 & F4 & F5 & F6 & F7 & F8) (A1 & A2 & A3 & A4 & A5) _ _ _ _] N].
  pose proof S as (Hw & Hn & Hk & Hq).
  assert (Z0 : busy_count j q (calls g) = 0).
  { apply (busy_zero j inputs initials Hj). intros r Hr Hg. apply (A5 r Hr). cbn [quiet st]. unfold targeted. destruct (scatterWave j); lia. }
  apply (inv_move j cfg host inputs initials m0 out0 fin0 st st g _ m m b b);
    [exact I|reflexivity|reflexivity|exact S| | |exact (fun M => M)|exact (fun P => P)|reflexivity|reflexivity|reflexivity].
  - split; [reflexivity|split; [reflexivity|split; [reflexivity|split; [exact F2|split; [reflexivity|split; [exact F6|split; [exact F7|exact F8]]]]]]].
  - intros _. split; [exact A1|]. change (remaining (schedule _ (g <| remaining ::= _ |>))) with (<[q := 0]> (<[q := count]> (remaining g))).
    change (remaining g 0 = busy_count j 0 (calls g)) in A2. change (remaining g 1 = busy_count j 1 (calls g)) in A3.
    rewrite !rem_insert. split; [case_decide as E; [subst q; symmetry; exact Z0|exact A2]|].
    split; [case_decide as E; [subst q; symmetry; exact Z0|exact A3]|]. split; [exact A4|exact A5].
Qed.

Lemma next_phase_ok base kb nn kk q : stage_ok (STile base kb nn kk (Launching q)) -> stage_ok (next_phase j base kb nn kk q).
Proof.
  intros (Hw & Hn & Hk & Hq). unfold next_phase. destruct (Z.ltb_spec (q + 1) (groups j)).
  - destruct (scatterWave j) eqn:Es; (split; [exact Hw|split; [exact Hn|split; [exact Hk|]]]); [lia|].
    split; [lia|congruence].
  - destruct (Z.ltb_spec (kk + 1) (kC kb)); (split; [exact Hw|]); [split; [exact Hn|split; [lia|exact Logic.I]]|exact Hn].
Qed.
Lemma next_later base kb nn kk q (c : Prop) : stage_ok (STile base kb nn kk (Launching q)) ->
  goes (STile base kb nn kk (Launching q)) (next_phase j base kb nn kk q) c.
Proof.
  intros (Hw & Hn & Hk & Hq). pose proof (ok_window _ _ _ Hj). pose proof (ok_groups _ _ _ Hj) as [_ Hg].
  assert (Hk' : kk < 32) by (unfold GemmInvariant.kC in Hk; lia). unfold next_phase. destruct (_ <? groups j); [destruct (scatterWave j)|destruct (_ <? _)]; to_later.
Qed.
Lemma mode_at base kb nn kk ph g m b : rest (STile base kb nn kk ph) g m b ->
  (if negb (u32 (kBase g + k g) =? 0) || ga_initial (args j) then 1 else 0) = mode_of j (kb + kk).
Proof.
  intros I. destruct (rest_window _ _ _ _ I eq_refl) as (Hw & (_ & P2 & _) & _ & Pk & _).
  pose proof (inv_stage _ _ _ _ _ _ _ _ _ _ (proj1 I)) as (_ & _ & Hk & _).
  pose proof (kC_range _ _ _ Hj _ _ Hw). pose proof (kTiles_range _ _ _ Hj). cbn [st_kb st_k st_base] in *.
  rewrite P2, Pk, u32_id by (unfold in_u32; lia). reflexivity.
Qed.

(** The group was launched and another one follows. *)
Lemma launched_more base kb nn kk q g m b cyc :
  rest (STile base kb nn kk (Launching q)) g m b -> q + 1 < groups j ->
  let g1 := g <| remaining ::= fun f => <[q := Z.of_nat (length (group_ids j q))]> f |>
              <| calls := calls g ++ launches j q (mode_of j (kb + kk)) cyc |> <| group ::= fun x => u32 (x + 1) |> in
  group g1 = q + 1 /\
  inv (next_phase j base kb nn kk q) (mkSystem (schedule (if scatterWave j then ProgramA else ProgramB) g1) m b).
Proof.
  intros I Hlt g1. set (st := STile base kb nn kk (Launching q)) in *.
  pose proof I as [[S (F1 & F2 & F3 & F4 & F5 & F6 & F7 & F8) A M P _ _] N].
  pose proof S as (Hw & Hn & Hk & Hq). pose proof F7 as [Eg Em]. change (group g = q) in Eg.
  change (matrix g = st_weights j host st) in Em. change (on_port PMain (calls g) = []) in F8.
  assert (Eg1 : group g1 = q + 1).
  { change (group g1) with (u32 (group g + 1)). rewrite Eg. apply u32_id. unfold in_u32. destruct (groups_cases j inputs initials Hj) as [E|[E _]]; lia. }
  split; [exact Eg1|].
  apply (inv_move j cfg host inputs initials m0 out0 fin0 st _ g _ m m b b); [exact I|reflexivity| |by apply next_phase_ok| | | | | | |].
  - unfold next_phase. rewrite (proj2 (Z.ltb_lt _ _)) by exact Hlt. by destruct (scatterWave j).
  - unfold next_phase. rewrite (proj2 (Z.ltb_lt _ _)) by exact Hlt.
    split; [reflexivity|split; [reflexivity|split; [reflexivity|split]]]; [destruct (scatterWave j); exact F2|].
    split; [by destruct (scatterWave j)|]. split; [destruct (scatterWave j); exact F6|]. split.
    + destruct (scatterWave j); exact (conj Eg1 Em).
    + change (calls (schedule _ g1)) with (calls g ++ launches j q (mode_of j (kb + kk)) cyc).
      rewrite on_port_app, F8, (on_port_launches j inputs initials Hj) by exact Hq. by destruct (scatterWave j).
  - intros A'. exact (arrays_launch j host inputs initials m0 Hj base kb nn kk q (remaining g) (calls g) b cyc S A').
  - unfold next_phase. rewrite (proj2 (Z.ltb_lt _ _)) by exact Hlt. destruct (scatterWave j); exact (fun M => M).
  - intros P'. apply (prefetch_calls j host inputs m0 _ m g); [reflexivity| |].
    { change (calls (schedule _ g1)) with (calls g ++ launches j q (mode_of j (kb + kk)) cyc). intros p Hp.
      rewrite on_port_app, (on_port_launches j inputs initials Hj) by exact Hq. destruct p; try discriminate Hp; apply app_nil_r. }
    unfold next_phase. rewrite (proj2 (Z.ltb_lt _ _)) by exact Hlt. revert P'.
    apply prefetch_stage; try reflexivity; try (destruct (scatterWave j); reflexivity). intros (T1 & T2 & T3 & T4).
    split; [intros _; destruct (scatterWave j); exact (T1 eq_refl)|]. destruct (scatterWave j); (split; [discriminate|split; discriminate]).
  - unfold next_phase. rewrite (proj2 (Z.ltb_lt _ _)) by exact Hlt. by destruct (scatterWave j).
  - reflexivity.
  - reflexivity.
Qed.

(** The last group was launched: the step's tiles are dropped and the next one begins. *)
Lemma launched_last base kb nn kk q g m b cyc :
  rest (STile base kb nn kk (Launching q)) g m b -> groups j <= q + 1 -> forall g2,
  let g0 := g <| remaining ::= fun f => <[q := Z.of_nat (length (group_ids j q))]> f |>
              <| calls := calls g ++ launches j q (mode_of j (kb + kk)) cyc |> <| group ::= fun x => u32 (x + 1) |> in
  let g1 := bump launches_ 1 ((bump groupLaunches_ 1 g0) <| matrix := [] |>) in
  g2 = g1 <| inputValues := [] |> ->
  let cur := st_seq (STile base kb nn kk (Launching q)) in
  let g3 := if inputPrefetch j then set_input_slot (cur mod 2) (fun _ => InputSlot_new) g2 else g2 in
  let g4 := fillPrefetch j (set_slot (cur mod slotCount j) (fun _ => WeightSlot_new) g3) in
  let g5 := g4 <| k ::= fun x => u32 (x + 1) |> in
  k g5 = kk + 1 /\
  inv (next_phase j base kb nn kk q) (mkSystem (schedule (if kk + 1 <? kC kb then AcquireTile else Drain) g5) m b).
Proof.
  intros I Hlt g2 g0 g1 -> cur g3 g4 g5. set (st := STile base kb nn kk (Launching q)) in *.
  pose proof I as [[S (F1 & F2 & F3 & F4 & F5 & F6 & F7 & F8) A M P _ _] N].
  pose proof S as (Hw & Hn & Hk & Hq). change (on_port PMain (calls g) = []) in F8.
  destruct (rest_window st g m b I eq_refl) as (_ & Pw & Pn & Pk & _).
  destruct (prepares_seq j inputs initials Hj st S eq_refl) as (_ & _ & Hs). cbn [st_base st_kb st] in Hs, Pw.
  pose proof (kC_range _ _ _ Hj _ _ Hw). pose proof (kTiles_range _ _ _ Hj).
  destruct P as [R T]. pose proof T as (T1 & _ & _ & T4). destruct (T1 eq_refl) as [Ep Er].
  change (preparedSeq g = st_seq st) in Ep.
  assert (K1 : ports_kept prefetch_port (calls g) (calls g1)).
  { intros p Hp. change (calls g1) with (calls g ++ launches j q (mode_of j (kb + kk)) cyc).
    rewrite on_port_app, (on_port_launches j inputs initials Hj) by exact Hq. destruct p; try discriminate Hp; apply app_nil_r. }
  assert (R1 : prefetch_run j host inputs m0 base kb (st_seq st) m g1).
  { apply (run_view j host inputs m0 base kb _ m g g1); [reflexivity|exact K1|exact R]. }
  destruct (run_consume base kb (st_seq st) m g1 Hw Pw Hs Ep R1 (T4 eq_refl) Er) as (C1 & C2 & C3 & C4).
  cbv zeta in C1, C2, C3, C4.
  change (fillPrefetch j _) with g4 in C1, C2, C3, C4. change (set_slot _ _ _) with (set_slot (cur mod slotCount j) (fun _ => WeightSlot_new) g3) in C2, C3.
  clearbody g4.
  assert (E3 : input_core g3 = input_core g1 /\ calls g3 = calls g1) by (unfold g3; destruct (inputPrefetch j); split; reflexivity).
  destruct E3 as [E3 E3c]. clearbody g3.
  assert (E4 : input_core (weight_core g4) = input_core (weight_core g1)).
  { rewrite C2. exact (f_equal (fun x => input_core (weight_core x)) E3). }
  assert (Ek : k g5 = kk + 1).
  { change (k g5) with (u32 (k (input_core (weight_core g4)) + 1)). rewrite E4. change (u32 (k g + 1) = kk + 1). rewrite Pk. apply u32_id.
    unfold in_u32. cbn. lia. }
  split; [exact Ek|].
  assert (En : next_phase j base kb nn kk q = (if kk + 1 <? kC kb then STile base kb nn (kk + 1) Acquiring else SDrain base kb nn false)).
  { unfold next_phase. rewrite (proj2 (Z.ltb_ge _ _)) by exact Hlt. reflexivity. }
  set (st' := next_phase j base kb nn kk q) in *. set (t := if kk + 1 <? kC kb then AcquireTile else Drain).
  assert (Pc : forall p, weight_port p = false -> on_port p (calls g5) = on_port p (calls g1)).
  { intros p Hp. rewrite <- E3c. exact (C3 p Hp). }
  assert (St : running st' = true /\ st_base j st' = base /\ st_kb st' = kb /\ st_n st' = nn /\ st_k j st' = kk + 1 /\
               st_seq st' = cur + 1 /\ prefetching j st' = true /\ loaded j st' = kC kb /\ task_of st' = Some t /\ waiting st' = false).
  { rewrite En. unfold t, cur, GemmInvariant.st_seq, GemmInvariant.seq_at. destruct (Z.ltb_spec (kk + 1) (kC kb)); cbn; repeat split; lia. }
  destruct St as (St1 & St2 & St3 & St4 & St5 & St6 & St7 & St8 & St9 & St10).
  assert (View : forall {B} (f : ReuseWindowGemm -> B), (forall x, f (input_core (weight_core x)) = f x) -> f g4 = f g1).
  { intros B f Hf. by rewrite <- (Hf g4), E4, Hf. }
  apply (inv_move j cfg host inputs initials m0 out0 fin0 st st' g _ m m b b);
    [exact I|reflexivity|exact St1|by apply next_phase_ok| | | | | | |].
  - split; [exact (View _ active (fun _ => eq_refl))|]. split; [exact (View _ outputWaiting (fun _ => eq_refl))|].
    split; [exact (View _ outputAdvanced (fun _ => eq_refl))|].
    split; [rewrite St10; etransitivity; [exact (View _ pending (fun _ => eq_refl))|exact F2]|].
    split; [by rewrite St9|]. split; [|split].
    + destruct F6 as (P1 & P2 & P3 & P4 & P5 & P6). 
      assert (Pl : nBase g5 = base /\ kBase g5 = kb /\ nCount g5 = nC base /\ kCount g5 = kC kb /\ n g5 = nn /\ k g5 = kk + 1).
      { split; [etransitivity; [exact (View _ nBase (fun _ => eq_refl))|exact P1]|].
        split; [etransitivity; [exact (View _ kBase (fun _ => eq_refl))|exact P2]|].
        split; [etransitivity; [exact (View _ nCount (fun _ => eq_refl))|exact P3]|].
        split; [etransitivity; [exact (View _ kCount (fun _ => eq_refl))|exact P4]|].
        split; [etransitivity; [exact (View _ n (fun _ => eq_refl))|exact P5]|exact Ek]. }
      rewrite En. destruct (Z.ltb_spec (kk + 1) (kC kb)); [exact Pl|].
      replace (kk + 1) with (kC kb) in Pl by lia. exact Pl.
    + rewrite En. destruct (kk + 1 <? kC kb); exact Logic.I.
    + change (calls (schedule t g5)) with (calls g5). rewrite Pc by reflexivity.
      change (calls g1) with (calls g ++ launches j q (mode_of j (kb + kk)) cyc).
      rewrite on_port_app, F8, (on_port_launches j inputs initials Hj) by exact Hq. rewrite En. by destruct (kk + 1 <? kC kb).
  - intros A'. change (remaining (schedule t g5)) with (remaining g4). rewrite (View _ remaining (fun _ => eq_refl)).
    apply (arrays_calls j host inputs initials m0 _ _ (calls g1)); [intros p Hp; apply Pc; by destruct p|].
    exact (arrays_launch j host inputs initials m0 Hj base kb nn kk q (remaining g) (calls g) b cyc S A').
  - rewrite En. destruct (kk + 1 <? kC kb); exact (fun M => M).
  - intros _. apply (prefetch_calls j host inputs m0 _ m g4); [reflexivity|done|].
    unfold GemmInvariant.prefetch_ok. rewrite St7, St2, St3, St6. split; [exact C1|].
    split; [rewrite En; by destruct (kk + 1 <? kC kb)|]. split; [intros _; rewrite C4, St6; lia|].
    split; rewrite En; by destruct (kk + 1 <? kC kb).
  - rewrite En. by destruct (kk + 1 <? kC kb).
  - exact (View _ outputs (fun _ => eq_refl)).
  - exact (View _ finished (fun _ => eq_refl)).
Qed.

Lemma launch_ok base kb nn kk q g m b re :
  rest (STile base kb nn kk (Launching q)) g m b ->
  exists st', goes (STile base kb nn kk (Launching q)) st' (smooth re g) /\ inv st' (mkSystem (launch j re g) m b).
Proof.
  intros I. set (st := STile base kb nn kk (Launching q)) in *.
  assert (I0 : rest st (set_phase 5 g) m b) by (apply (rest_view st g); [reflexivity|reflexivity|exact I]). clear I.
  unfold launch. cbv zeta. assert (C0 : control (set_phase 5 g) = control g) by reflexivity. set (g0 := set_phase 5 g) in *. clearbody g0.
  pose proof I0 as [[S (F1 & F2 & F3 & F4 & F5 & F6 & F7 & F8) A M [_ T] _ _] N]. pose proof S as (Hw & Hn & Hk & Hq).
  pose proof F7 as [Eg _]. change (group g0 = q) in Eg. destruct (groupArrays_at j inputs initials Hj g0 q Eg Hq) as (Ei & _).
  destruct (T) as (T1 & _). destruct (T1 eq_refl) as [Ep _]. change (preparedSeq g0 = st_seq st) in Ep. clear F1 F2 F3 F4 F5 F6 F7 F8 A M T T1 N.
  pose proof (tile_seq _ _ _ _ _ _ _ _ I0) as Es. fold st in Es.
  pose proof (mode_at _ _ _ _ _ _ _ _ I0) as Em. rewrite Em, Ei, Eg. clear Em.
  set (count := Z.of_nat (length (group_ids j q))).
  destruct (launch_accepted re) eqn:La; cbn [negb].
  2:{ exists st. split; [apply goes_stay; [reflexivity|intros Sm; pose proof (smooth_launch _ _ _ _ Sm); congruence]|]. apply (inv_view j cfg host inputs initials m0 out0 fin0 st
        (schedule Launch (g0 <| remaining ::= fun f => <[q := 0]> (<[q := count]> f) |>))); [reflexivity|reflexivity|].
      by apply launch_refused. }
  rewrite (launch_calls (fun g id => ArrayMac id (mode_of j (kb + kk)) q count (cycle g) false)) by reflexivity.
  change (map _ (group_ids j q)) with (launches j q (mode_of j (kb + kk)) (cycle g0)).
  destruct (Z.ltb_spec (q + 1) (groups j)) as [Hlt|Hge].
  - destruct (launched_more base kb nn kk q g0 m b (cycle g0) I0 Hlt) as [Eg1 L].
    set (g1 := bump groupLaunches_ 1 _).
    change (group g1 = q + 1) in Eg1. rewrite Eg1. rewrite (proj2 (Z.ltb_lt _ _)) by exact Hlt.
    exists (next_phase j base kb nn kk q). split; [by apply next_later|]. eapply inv_view; [| |exact L]; reflexivity.
  - set (g1 := bump groupLaunches_ 1 _).
    assert (Eg1 : group g1 <? groups j = false).
    { change (group g1) with (u32 (group g0 + 1)). rewrite Eg, u32_id; [lia|]. unfold in_u32. destruct (groups_cases j inputs initials Hj) as [E|[E _]]; lia. }
    rewrite Eg1. set (g2 := bump launches_ 1 _).
    destruct (launched_last base kb nn kk q g0 m b (cycle g0) I0 Hge g2 eq_refl) as [Ek L]. fold st in Ek, L.
    assert (E2 : preparedSeq g2 = st_seq st) by exact Ep. rewrite E2. clear E2.
    assert (E3 : currentSequence j (if inputPrefetch j then set_input_slot (st_seq st mod 2) (fun _ => InputSlot_new) g2 else g2) = st_seq st)
      by (rewrite <- Es; destruct (inputPrefetch j); reflexivity).
    rewrite E3. clear E3. clearbody g2. set (g5 := _ <| k ::= _ |>) in *.
    assert (Ec : kCount g5 = kC kb).
    { pose proof (inv_flow _ _ _ _ _ _ _ _ _ _ L) as (_ & _ & _ & _ & _ & Pl & _). revert Pl. unfold next_phase.
      rewrite (proj2 (Z.ltb_ge _ _)) by exact Hge. destruct (kk + 1 <? kC kb); intros (_ & _ & _ & P4 & _); exact P4. }
    rewrite Ek, Ec. exists (next_phase j base kb nn kk q). split; [by apply next_later|exact L].
Qed.
End tiles.
