(* ===== verification/GemmWindows.v ===== *)
(** * Windows

    The end of a tile, of a window and of the job, and the start of a window, keep the
    invariant of the window GEMM. *)

From Stdlib Require Import ZArith Lia.
From Stdlib Require Import Init.Byte.
From stdpp Require Import base numbers functions list.
From S2P Require Import Prelude RecordUpdate Ieee IeeeArith Fp16 AttentionBase ComputeUnit TileArray ControlTransport WindowGemm GemmValues GemmSystem GemmArrays GemmSlots GemmInvariant GemmFacts GemmSums GemmParts GemmMemory GemmRows GemmRank GemmFlow GemmTasks.
Open Scope Z_scope.
#[local] Opaque mem_bytes.

Section windows.
Context (j : GemmJob) (cfg : TileUnitConfig) (host : Z -> byte) (inputs initials : Z -> Values) (m0 : Z -> byte).
Context (out0 : list (Z * Values)) (fin0 : list bool).
Hypothesis Hj : job_ok j inputs initials.
Hypothesis Hfit : arrays_fit cfg.

Notation inv := (gemm_inv j cfg host inputs initials m0 out0 fin0).
Notation rest := (inv_rest j cfg host inputs initials m0 out0 fin0).
Notation nC := (nC j).
Notation kC := (kC j).
Notation stage_ok := (stage_ok j).
Notation flow_ok := (flow_ok j cfg host inputs initials m0).
Notation arrays_ok := (arrays_ok j host inputs initials m0).
Notation memory_ok := (memory_ok j host inputs initials m0).
Notation prefetch_ok := (prefetch_ok j host inputs m0).
Notation place_ok := (place_ok j).
Notation io_ok := (io_ok j host inputs initials m0).
Notation main_calls := (main_calls j cfg host inputs initials m0).
Notation seq_limit := (seq_limit j).
Notation st_seq := (st_seq j).
Notation goes := (goes j).
Notation later := (later j).
Notation moves := (moves j).
Notation rest_view := (rest_view j cfg host inputs initials m0 out0 fin0).
Notation rest_stay := (rest_stay j cfg host inputs initials m0 out0 fin0).
Notation rest_retry := (rest_retry j cfg host inputs initials m0 out0 fin0).
Notation rest_schedule := (rest_schedule j cfg host inputs initials m0 out0 fin0).
Notation inv_step := (inv_step j cfg host inputs initials m0 out0 fin0).
Notation rest_window := (rest_window j cfg host inputs initials m0 out0 fin0).
Notation rest_prepare := (rest_prepare j cfg host inputs initials m0 out0 fin0 Hj).


(** *** Between windows *)

Lemma run_idle base kb cur m g :
  window_ok j base kb -> prefetch_run j host inputs m0 base kb cur m g -> cur = seq_limit base kb -> preparedSeq g <> cur ->
  weights_idle g /\ inputs_idle j g.
Proof.
  intros Hw ((W1 & W2 & W3 & W4) & R2 & R3) Hc Hp. pose proof (ok_slots _ _ _ Hj). split.
  - intros i. destruct (W3 i) as [[F1 F2]|(B1 & _)]; [done|lia].
  - unfold inputs_inv in R3. unfold inputs_idle. destruct (inputPrefetch j); destruct R3 as [R3 R4].
    + destruct R3 as [R3 _]. split; [|split; [exact R4|]]; intros i; (destruct (R3 i) as [[F1 F2]|(B1 & B2 & _)]; [done|lia]).
    + destruct R3 as [(_ & F1 & F2 & F3)|[(E & _)|(E & _)]]; [|congruence|congruence]. done.
Qed.

Lemma weights_sources source source' wb wb' m cur nextP sl cs :
  (forall s, source s = source' s) -> (forall s, wb s = wb' s) ->
  weights_ok j source wb m cur nextP sl cs -> weights_ok j source' wb' m cur nextP sl cs.
Proof.
  intros E1 E2 (W1 & W2 & W3 & W4). split; [done|]. split; [done|]. split; [|done].
  intros i. destruct (W3 i) as [F|(B1 & B2 & B3)]; [by left|right]. split; [done|]. split; [done|].
  remember (w_seq (sl i)) as s eqn:Es. clear Es. destruct B3 as [bytes Hb|off bytes p H1 H2 H3 H4|off].
  - rewrite E1. by constructor.
  - constructor; try done; by rewrite <- E2.
  - rewrite E2. constructor.
Qed.
(** With the bridge the prefetch runs on into the next four tiles. *)
Lemma run_bridge base cur m g :
  bridgeWeights j = true -> prefetch_run j host inputs m0 base 0 cur m g -> prefetch_run j host inputs m0 (base + 4) 0 cur m g.
Proof.
  intros Hb (R1 & R2 & R3). assert (E : seq_limit (base + 4) 0 = seq_limit base 0) by (unfold GemmInvariant.seq_limit; by rewrite Hb).
  assert (Es : forall s, seq_source j base 0 s = seq_source j (base + 4) 0 s) by (intros s; unfold seq_source, seq_tile; by rewrite Hb).
  unfold prefetch_run. rewrite E. split; [|split; [exact R2|exact R3]].
  eapply weights_sources; [exact Es| |exact R1]. intros s. unfold seq_weights. by rewrite Es.
Qed.

Lemma end_arrays base kb nn p st b rem cs : computing_stage st = false ->
  arrays_ok (SEnd base kb nn p) rem cs b -> arrays_ok st rem cs b.
Proof. intros H. apply arrays_quiet; [|exact H]. reflexivity. Qed.

Lemma next_base base kb : window_ok j base kb -> base + nC base < tile_count j -> nC base = 4 /\ window_ok j (base + nC base) 0.
Proof.
  intros (H1 & H2 & H3 & H4) Hlt. unfold GemmInvariant.nC in *. assert (Z.min 4 (tile_count j - base) = 4) as -> by lia.
  split; [done|]. split; [lia|]. split; [|split; [pose proof (ok_kTiles _ _ _ Hj); lia|done]].
  replace (base + 4) with (base + 1 * 4) by lia. by rewrite Z.mod_add by lia.
Qed.

Lemma rest_end_prefetch base kb nn g m b :
  rest (SEnd base kb nn false) g m b -> nn + 1 = nC base -> (bridgeWeights j = true -> base + nC base >= tile_count j) ->
  weights_idle g /\ inputs_idle j g.
Proof.
  intros I Hn Hb. pose proof I as [[S _ _ _ P _ _] _]. destruct S as (Hw & Hnn & _). destruct P as [R (_ & T & _)].
  apply (run_idle base kb (st_seq (SEnd base kb nn false)) m g Hw R); [|by apply T].
  unfold GemmInvariant.st_seq, GemmInvariant.seq_at, GemmInvariant.seq_limit. cbn.
  destruct (bridgeWeights j); [|nia]. specialize (Hb eq_refl). pose proof (nC_range _ _ _ Hw). replace (tile_count j) with (base + nn + 1) by lia. lia.
Qed.

(** The next tile of the window. *)
Lemma advance_tile base kb nn g m b :
  rest (SEnd base kb nn false) g m b -> nn + 1 < nC base ->
  inv (SRestore base kb (nn + 1)) (mkSystem (schedule RestoreC (g <| k := 0 |> <| n ::= fun x => u32 (x + 1) |>)) m b).
Proof.
  intros I Hlt. pose proof I as [[S (F1 & F2 & F3 & F4 & F5 & F6 & F7 & F8) _ _ _ _ _] N]. pose proof S as (Hw & Hn & _).
  pose proof (nC_range _ _ _ Hw). destruct F6 as (P1 & P2 & P3 & P4 & P5 & P6). change (n g = nn) in P5.
  apply (inv_step (SEnd base kb nn false) _ g);
    [exact I|reflexivity|reflexivity|split; [exact Hw|lia]| |by apply end_arrays|exact (fun M => M)| |reflexivity|reflexivity|reflexivity|done|reflexivity|reflexivity].
  - split; [reflexivity|]. split; [reflexivity|]. split; [reflexivity|]. split; [exact F2|]. split; [reflexivity|].
    split; [|split; [exact Logic.I|exact F8]].
    split; [exact P1|]. split; [exact P2|]. split; [exact P3|]. split; [exact P4|]. split; [|reflexivity].
    change (u32 (n g + 1) = nn + 1). rewrite P5. apply u32_id. unfold in_u32. lia.
  - apply prefetch_stage; [reflexivity|reflexivity|reflexivity|reflexivity| |].
    + unfold GemmInvariant.st_seq, GemmInvariant.seq_at. cbn. lia.
    + intros _. split; [discriminate|]. split; [discriminate|]. split; discriminate.
Qed.
(** The next piece of the reduction. *)
Lemma advance_step base kb nn g g' m b :
  rest (SEnd base kb nn false) g m b -> nn + 1 = nC base -> kb + kC kb < kTiles j ->
  core_view g' = core_view (g <| k := 0 |> <| n := nn + 1 |> <| kBase := kb + kC kb |>) -> next g' = Some BeginWindow ->
  inv (SBegin base (kb + kC kb)) (mkSystem g' m b).
Proof.
  intros I Hn Hk Eg En. pose proof I as [[S (F1 & F2 & F3 & F4 & F5 & F6 & F7 & F8) _ _ _ _ _] N]. pose proof S as (Hw & Hnn & _).
  pose proof (kC_range _ _ _ Hj _ _ Hw). destruct F6 as (P1 & P2 & P3 & P4 & P5 & P6).
  assert (Hb : bridgeWeights j = false).
  { destruct (bridgeWeights j) eqn:E; [|done]. destruct (kC_bridge _ _ _ Hj _ _ Hw E). lia. }
  apply (inv_view j cfg host inputs initials m0 out0 fin0 _
    (schedule BeginWindow (g <| k := 0 |> <| n := nn + 1 |> <| kBase := kb + kC kb |>))); [exact Eg|exact En|].
  apply (inv_step (SEnd base kb nn false) _ g);
    [exact I|reflexivity|reflexivity| | |by apply end_arrays|by apply memory_next_step| | |reflexivity|reflexivity|done|reflexivity|reflexivity].
  - destruct Hw as (W1 & W2 & W3 & W4). split; [exact W1|]. split; [exact W2|]. split; [lia|]. congruence.
  - split; [reflexivity|]. split; [reflexivity|]. split; [reflexivity|]. split; [exact F2|]. split; [reflexivity|].
    split; [|split; [exact Logic.I|exact F8]]. split; [exact P1|reflexivity].
  - intros _. unfold GemmInvariant.prefetch_ok. cbn [prefetching]. rewrite Hb. cbn [andb].
    apply (rest_end_prefetch base kb nn g m b I Hn). congruence.
  - cbn [outputs_done]. destruct (Z.eqb_spec (kb + kC kb) (kTiles j)); lia.
Qed.
(** The next four tiles, or the end. *)
Lemma advance_base base kb nn g g' m b :
  rest (SEnd base kb nn false) g m b -> nn + 1 = nC base -> kb + kC kb = kTiles j -> base + nC base < tile_count j ->
  core_view g' = core_view (g <| k := 0 |> <| n := nn + 1 |> <| nBase := base + nC base |> <| kBase := 0 |>) -> next g' = Some BeginWindow ->
  inv (SBegin (base + nC base) 0) (mkSystem g' m b).
Proof.
  intros I Hn Hk Hlt Eg En. pose proof I as [[S (F1 & F2 & F3 & F4 & F5 & F6 & F7 & F8) _ _ P _ _] N]. pose proof S as (Hw & Hnn & _).
  destruct (next_base _ _ Hw Hlt) as [H4 Hw'].
  apply (inv_view j cfg host inputs initials m0 out0 fin0 _
    (schedule BeginWindow (g <| k := 0 |> <| n := nn + 1 |> <| nBase := base + nC base |> <| kBase := 0 |>))); [exact Eg|exact En|].
  apply (inv_step (SEnd base kb nn false) _ g);
    [exact I|reflexivity|reflexivity|exact Hw'| |by apply end_arrays| | | |reflexivity|reflexivity|done|reflexivity|reflexivity].
  - split; [reflexivity|]. split; [reflexivity|]. split; [reflexivity|]. split; [exact F2|]. split; [reflexivity|].
    split; [|split; [exact Logic.I|exact F8]]. split; reflexivity.
  - apply (memory_next_tiles _ _ _ _ _ Hj _ _ _ _ _ _ Hw). by right; right.
  - intros _. unfold GemmInvariant.prefetch_ok. cbn [prefetching]. destruct (bridgeWeights j) eqn:Hb; cbn [andb].
    2:{ apply (rest_end_prefetch base kb nn g m b I Hn). congruence. }
    rewrite (proj2 (Z.eqb_neq (base + nC base) 0)) by (destruct Hw; lia). cbn [negb].
    destruct (kC_bridge _ _ _ Hj _ _ Hw Hb) as [-> _]. destruct P as [R (_ & T & _)].
    assert (Es : st_seq (SBegin (base + nC base) 0) = st_seq (SEnd base 0 nn false)).
    { unfold GemmInvariant.st_seq, GemmInvariant.seq_at. cbn. rewrite Hb, <- Hn. lia. }
    cbn [st_base st_kb]. split; [rewrite Es, H4; by apply run_bridge|].
    split; [discriminate|]. split; [intros _; rewrite Es; by apply T|]. split; discriminate.
  - cbn [outputs_done]. rewrite (proj2 (Z.eqb_eq _ _)) by exact Hk. lia.
Qed.

Lemma waitFinish_ok g m b : rest SFinish g m b ->
  exists st', goes SFinish st' (outputWaiting g = false) /\ inv st' (mkSystem (waitFinish g) m b).
Proof.
  intros I. unfold waitFinish. cbv zeta. change (outputWaiting (set_phase 8 g)) with (outputWaiting g).
  destruct (outputWaiting g) eqn:Eo.
  { exists SFinish. split; [by apply goes_stay|]. eapply rest_stay; [exact I|reflexivity|reflexivity|reflexivity]. }
  exists SDone. split; [to_later|]. pose proof I as [[S (F1 & F2 & F3 & F4 & F5 & F6 & F7 & F8) A M P O D] N]. change (active g = true) in F1.
  unfold finish. change (active (set_phase 8 g)) with (active g). rewrite F1. cbn [negb]. split.
  - exact Logic.I.
  - split; [reflexivity|]. split; [reflexivity|]. split; [reflexivity|].
    split; [intros H; change (outputWaiting g = true) in H; congruence|]. split; [discriminate|]. split; [exact Logic.I|]. split; [exact Logic.I|exact F8].
  - exact A.
  - exact M.
  - exact P.
  - exact O.
  - change (finished g ++ [true] = fin0 ++ [true]). change (finished g = fin0 ++ []) in D. by rewrite D, app_nil_r.
Qed.

Lemma advance_end base kb nn g g' m b :
  rest (SEnd base kb nn false) g m b -> nn + 1 = nC base -> kb + kC kb = kTiles j -> tile_count j <= base + nC base ->
  core_view g' = core_view (g <| k := 0 |> <| n := nn + 1 |> <| nBase := base + nC base |> <| kBase := 0 |>) -> next g' = None ->
  rest SFinish g' m b.
Proof.
  intros I Hn Hk Hge Eg En. pose proof I as [[S (F1 & F2 & F3 & F4 & F5 & F6 & F7 & F8) _ _ P _ _] N]. pose proof S as (Hw & Hnn & _).
  pose proof (nC_range _ _ _ Hw).
  apply (rest_view SFinish (g <| k := 0 |> <| n := nn + 1 |> <| nBase := base + nC base |> <| kBase := 0 |>)); [exact Eg|by rewrite En|].
  split; [|exact N].
  apply (inv_step (SEnd base kb nn false) _ g);
    [exact I|reflexivity|reflexivity|exact Logic.I| |by apply end_arrays| | | |reflexivity|reflexivity|done|reflexivity|reflexivity].
  - split; [reflexivity|]. split; [reflexivity|]. split; [reflexivity|]. split; [exact F2|]. split; [reflexivity|].
    split; [exact Logic.I|split; [exact Logic.I|exact F8]].
  - apply (memory_next_tiles _ _ _ _ _ Hj _ _ _ _ _ _ Hw). by left.
  - intros _. apply (rest_end_prefetch base kb nn g m b I Hn). lia.
  - cbn [outputs_done]. rewrite (proj2 (Z.eqb_eq _ _)) by exact Hk. lia.
Qed.

Lemma advanceN_ok base kb nn g m b :
  rest (SEnd base kb nn false) g m b ->
  exists st', moves (SEnd base kb nn false) st' /\ inv st' (mkSystem (advanceN j g) m b).
Proof.
  intros I. pose proof I as [[S (F1 & F2 & F3 & F4 & F5 & F6 & F7 & F8) _ _ _ _ _] N]. pose proof S as (Hw & Hnn & _).
  pose proof (nC_range _ _ _ Hw). pose proof (kC_range _ _ _ Hj _ _ Hw). pose proof (kTiles_range _ _ _ Hj). pose proof (tiles_range _ _ _ Hj).
  destruct F6 as (P1 & P2 & P3 & P4 & P5 & P6). change (n g = nn) in P5. change (nCount g = nC base) in P3. change (kCount g = kC kb) in P4.
  change (kBase g = kb) in P2. change (nBase g = base) in P1.
  unfold advanceN. cbv zeta. set (g1 := g <| k := 0 |> <| n ::= fun x => u32 (x + 1) |>).
  assert (E1 : n g1 = nn + 1).
  { change (u32 (n g + 1) = nn + 1). rewrite P5. apply u32_id. unfold in_u32. lia. }
  change (nCount g1) with (nCount g). rewrite E1, P3. destruct (Z.ltb_spec (nn + 1) (nC base)) as [Hlt|Hge].
  { exists (SRestore base kb (nn + 1)). split; [to_move|by apply advance_tile]. }
  assert (Hn : nn + 1 = nC base) by lia.
  set (g2 := g1 <| kBase ::= fun x => u32 (x + kCount g1) |>).
  assert (E2 : kBase g2 = kb + kC kb).
  { change (u32 (kBase g + kCount g) = kb + kC kb). rewrite P2, P4. apply u32_id. unfold in_u32. lia. }
  assert (V1 : forall x, core_view (g1 <| kBase := x |>) = core_view (g <| k := 0 |> <| n := nn + 1 |> <| kBase := x |>)).
  { intros x. rewrite <- E1. reflexivity. }
  rewrite E2. destruct (Z.leb_spec (kTiles j) (kb + kC kb)) as [Hk|Hk].
  2:{ exists (SBegin base (kb + kC kb)). split; [split; [reflexivity|right; cbn; lia]|]. apply (advance_step base kb nn g); [exact I|exact Hn|exact Hk| |reflexivity].
      rewrite <- E1, <- E2. reflexivity. }
  set (g3 := g2 <| nBase ::= fun x => u32 (x + nCount g2) |> <| kBase := 0 |>).
  assert (E3 : nBase g3 = base + nC base).
  { change (u32 (nBase g + nCount g) = base + nC base). rewrite P1, P3. apply u32_id. unfold in_u32. lia. }
  rewrite E3. destruct (Z.leb_spec (tile_count j) (base + nC base)) as [Ht|Ht].
  - assert (Le : later (SEnd base kb nn false) SFinish) by (left; cbn; destruct Hw; lia).
    destruct (waitFinish_ok g3 m b) as (st' & [Gs G] & I').
    { apply (advance_end base kb nn g); [exact I|exact Hn|lia|exact Ht| |exact N]. rewrite <- E1, <- E3. reflexivity. }
    exists st'. split; [split; [exact Gs|]|exact I']. destruct G as [G|[-> _]]; [by apply (later_trans j _ SFinish)|exact Le].
  - exists (SBegin (base + nC base) 0). split; [split; [reflexivity|left; cbn; lia]|]. apply (advance_base base kb nn g); [exact I|exact Hn|lia|exact Ht| |reflexivity].
    rewrite <- E1, <- E3. reflexivity.
Qed.

(** *** The start of a window *)

Lemma inputs_forget data addr m cur limit s g :
  inputs_inv j data addr m cur limit g -> preparedSeq g <> cur -> s <> cur -> inputs_inv j data addr m cur limit (g <| preparedSeq := s |>).
Proof.
  unfold inputs_inv. intros I Hp Hs. destruct (inputPrefetch j); destruct I as [I1 I2]; (split; [|exact I2]).
  - destruct I1 as [S1 S2]. split; [exact S1|]. intros E. change (s = cur) in E. congruence.
  - destruct I1 as [(_ & F)|[(E & _)|(E & _)]]; [|congruence|congruence]. left. split; [exact Hs|exact F].
Qed.
Lemma idle_core g g' : weight_core g' = weight_core g -> same_ports weight_port g g' -> inputs_idle j g -> inputs_idle j g'.
Proof.
  intros E H (I1 & I2 & I3). unfold inputs_idle. change (inputSlots g') with (inputSlots (weight_core g')).
  change (inputReading g') with (inputReading (weight_core g')). change (inputPending g') with (inputPending (weight_core g')).
  rewrite E, H by reflexivity. split; [exact I1|]. split; [exact I2|]. intros i. rewrite H by reflexivity. apply I3.
Qed.
Lemma weights_fresh source wb m g : weights_idle g ->
  weights_inv j source wb m 0 (g <| nextPrefetch := 0 |> <| slots := fun _ => WeightSlot_new |>).
Proof.
  intros W. pose proof (ok_slots _ _ _ Hj). split; [change (0 <= 0 <= 0); lia|].
  split; [change (0 <= 0 + slotCount j); lia|]. split; [|intros s Hs; change (0 <= s < 0) in Hs; lia].
  intros i. left. split; [reflexivity|]. apply (W i).
Qed.

(** The prefetch as a window starts: [g] has the position of the window. *)
Definition restarted (base : Z) (g : ReuseWindowGemm) : ReuseWindowGemm :=
  if negb (bridgeWeights j) || (base =? 0) then g <| nextPrefetch := 0 |> <| slots := fun _ => WeightSlot_new |> else g.
Lemma begin_prefetch base kb m g :
  window_ok j base kb -> at_window j base kb g -> prefetch_ok (SBegin base kb) m g ->
  let cur := st_seq (SBegin base kb) in
  let g' := fillPrefetch j (restarted base (g <| preparedSeq := 2 ^ 32 - 1 |>)) in
  prefetch_run j host inputs m0 base kb cur m g' /\ weight_core g' = weight_core (g <| preparedSeq := 2 ^ 32 - 1 |>) /\
  same_ports weight_port g g' /\ preparedSeq g' <> cur /\
  (negb (bridgeWeights j && negb (base =? 0)) = true -> inputs_idle j g').
Proof.
  intros Hw At P cur g'. pose proof (seq_limit_range _ _ _ Hj _ _ Hw) as Hl. pose proof (ok_slots _ _ _ Hj) as Hs.
  pose proof (kC_range _ _ _ Hj _ _ Hw) as Hk. pose proof (nC_range _ _ _ Hw) as Hn.
  set (g1 := g <| preparedSeq := 2 ^ 32 - 1 |>) in *. set (g2 := restarted base g1) in *.
  assert (Hc : 0 <= cur < seq_limit base kb) by (apply (seq_at_lt _ _ _ Hj _ _ _ _ Hw); cbn; lia).
  assert (C2 : weight_core g2 = weight_core g1 /\ calls g2 = calls g1) by (unfold g2, restarted; destruct (_ || _); split; reflexivity).
  destruct C2 as [C2 C2c].
  assert (K : weights_inv j (seq_source j base kb) (seq_weights j host base kb) m cur g2 /\ nextPrefetch g2 <= seq_limit base kb /\
              inputs_inv j (seq_bytes j inputs m0 kb) (seq_input j kb) m cur (seq_limit base kb) g1 /\
              (negb (bridgeWeights j && negb (base =? 0)) = true -> inputs_idle j g1)).
  { unfold GemmInvariant.prefetch_ok in P. cbn [prefetching] in P.
    destruct (bridgeWeights j && negb (base =? 0)) eqn:Eb.
    - boolify. destruct P as [(R1 & R2 & R3) (_ & T & _)]. specialize (T eq_refl). cbn [st_base st_kb] in R2.
      assert (E : negb (bridgeWeights j) || (base =? 0) = false) by (rewrite H; cbn; lia).
      unfold g2, restarted. rewrite E. split; [exact R1|]. split; [change (nextPrefetch g1) with (nextPrefetch g); rewrite R2; lia|].
      split; [|discriminate]. apply (inputs_forget _ _ _ _ _ _ g); [exact R3|exact T|lia].
    - assert (E : negb (bridgeWeights j) || (base =? 0) = true).
      { destruct (bridgeWeights j); [cbn in *; by apply negb_false_iff in Eb|reflexivity]. }
      assert (Ec : cur = 0).
      { unfold cur, GemmInvariant.st_seq, GemmInvariant.seq_at. cbn. destruct (bridgeWeights j); [cbn in E; lia|lia]. }
      destruct P as [Pw Pi]. unfold g2, restarted. rewrite E, Ec. split; [by apply weights_fresh|]. split; [change (0 <= seq_limit base kb); lia|].
      assert (Pi' : inputs_idle j g1) by exact Pi. split; [|by intros _]. apply idle_inputs; [exact Pi'|change (2 ^ 32 - 1 <> 0); lia]. }
  destruct K as (K1 & K2 & K3 & K4).
  assert (At2 : at_window j base kb g2).
  { unfold at_window. change (nBase g2) with (nBase (weight_core g2)). change (kBase g2) with (kBase (weight_core g2)).
    change (nCount g2) with (nCount (weight_core g2)). change (kCount g2) with (kCount (weight_core g2)). rewrite C2. exact At. }
  pose proof (sequenceLimit_at _ _ _ Hj _ _ _ Hw At2) as El.
  destruct (fillPrefetch_ok j (seq_source j base kb) (seq_weights j host base kb) Hs m cur g2 K1) as (G1 & G2 & G3 & G4).
  - intros s Hs'. rewrite El in Hs'. apply (weight_address_at _ _ _ Hj _ _ _ _ Hw At2). lia.
  - rewrite El. lia.
  - by rewrite El.
  - fold g' in G1, G2, G3, G4. rewrite El in G2.
    assert (G3' : weight_core g' = weight_core g1) by congruence.
    assert (G4' : same_ports weight_port g1 g') by (intros p Hp; rewrite G4, C2c by exact Hp; reflexivity).
    split; [split; [exact G1|split; [exact G2|by apply (inputs_core j _ _ m cur _ g1)]]|].
    split; [exact G3'|]. split; [exact G4'|]. split.
    + change (preparedSeq (weight_core g') <> cur). rewrite G3'. change (2 ^ 32 - 1 <> cur). lia.
    + intros E. by apply (idle_core g1), K4.
Qed.

Lemma beginWindow_ok base kb g m b :
  rest (SBegin base kb) g m b ->
  exists st', goes (SBegin base kb) st' (outputWaiting g = false) /\ inv st' (mkSystem (beginWindow j g) m b).
Proof.
  intros I. unfold beginWindow. cbv zeta. destruct (outputWaiting g) eqn:Eo.
  { exists (SBegin base kb). split; [by apply goes_stay|]. eapply rest_stay; [exact I|reflexivity|reflexivity|reflexivity]. }
  pose proof I as [[S (F1 & F2 & F3 & F4 & F5 & F6 & F7 & F8) _ _ P _ _] N]. pose proof S as Hw.
  pose proof (kC_range _ _ _ Hj _ _ Hw) as Hk. pose proof (nC_range _ _ _ Hw) as Hn. pose proof (kTiles_range _ _ _ Hj). pose proof (tiles_range _ _ _ Hj).
  destruct F6 as [P1 P2]. change (nBase g = base) in P1. change (kBase g = kb) in P2. change (on_port PMain (calls g) = []) in F8.
  set (g0 := bump windows_ 1 (set_phase 0 g)). change (nBase g0) with (nBase g). change (kBase g0) with (kBase g).
  rewrite P1, P2, !u32_id by (unfold in_u32; lia).
  set (G := _ <| loadedA := 0 |>). change (nBase (G <| preparedSeq := _ |>)) with (nBase g). rewrite P1.
  assert (At : at_window j base kb G) by (split; [exact P1|split; [exact P2|split; reflexivity]]).
  assert (PG : prefetch_ok (SBegin base kb) m G).
  { apply (prefetch_calls j host inputs m0 _ m (g <| next := task_of (SBegin base kb) |>)); [reflexivity|done|exact P]. }
  destruct (begin_prefetch base kb m G Hw At PG) as (B1 & B2 & B3 & B4 & B5).
  change (if negb (bridgeWeights j) || (base =? 0) then _ else _) with (restarted base (G <| preparedSeq := 2 ^ 32 - 1 |>)).
  set (g' := fillPrefetch j _) in *. clearbody g'.
  assert (View : forall {B} (f : ReuseWindowGemm -> B), (forall x, f (weight_core x) = f x) -> f g' = f (G <| preparedSeq := 2 ^ 32 - 1 |>)).
  { intros B f Hf. by rewrite <- (Hf g'), B2, Hf. }
  assert (Pl : nBase g' = base /\ kBase g' = kb /\ nCount g' = nC base /\ kCount g' = kC kb /\ n g' = 0 /\ k g' = 0 /\ loadedA g' = 0).
  { split; [etransitivity; [exact (View _ nBase (fun _ => eq_refl))|exact P1]|].
    split; [etransitivity; [exact (View _ kBase (fun _ => eq_refl))|exact P2]|].
    split; [exact (View _ nCount (fun _ => eq_refl))|]. split; [exact (View _ kCount (fun _ => eq_refl))|].
    split; [exact (View _ n (fun _ => eq_refl))|]. split; [exact (View _ k (fun _ => eq_refl))|exact (View _ loadedA (fun _ => eq_refl))]. }
  set (resident := bool_decide (is_Some (ga_inputAddress (args j)))).
  set (st' := if resident then SRestore base kb 0 else SAsk base kb 0 false).
  assert (Hres : if resident then is_Some (ga_inputAddress (args j)) else ga_inputAddress (args j) = None).
  { unfold resident. case_bool_decide as E; [exact E|]. by destruct (ga_inputAddress (args j)); [destruct E; eexists|]. }
  exists st'. split; [unfold st'; destruct resident; to_later|]. apply (inv_move j cfg host inputs initials m0 out0 fin0 (SBegin base kb) st' g _ m m b b);
    [exact I|reflexivity|by unfold st'; destruct resident| | | | | | | |].
  - unfold st'. destruct resident; [split; [exact Hw|lia]|]. split; [exact Hw|]. split; [lia|exact Hres].
  - split; [exact (View _ active (fun _ => eq_refl))|]. split; [exact (View _ outputWaiting (fun _ => eq_refl))|].
    split; [exact (View _ outputAdvanced (fun _ => eq_refl))|].
    split; [etransitivity; [exact (View _ pending (fun _ => eq_refl))|unfold st'; destruct resident; exact F2]|].
    split; [by unfold st'; destruct resident|]. split; [|split].
    + unfold st'. destruct Pl as (L1 & L2 & L3 & L4 & L5 & L6 & L7). destruct resident.
      * exact (conj L1 (conj L2 (conj L3 (conj L4 (conj L5 L6))))).
      * exact (conj L1 (conj L2 (conj L3 (conj L4 (conj L5 (conj L6 L7)))))).
    + unfold st'. by destruct resident.
    + change (calls (schedule _ g')) with (calls g'). rewrite B3 by reflexivity. change (calls G) with (calls g). rewrite F8.
      unfold st'. by destruct resident.
  - intros A. change (remaining (schedule _ g')) with (remaining g'). rewrite (View _ remaining (fun _ => eq_refl)).
    apply (arrays_calls j host inputs initials m0 _ _ (calls g)); [intros p Hp; apply B3; by destruct p|].
    unfold st'. destruct resident; exact A.
  - intros M. unfold st'. destruct resident; [|exact M]. destruct M as (M1 & _ & M3 & M4 & M5).
    split; [exact M1|]. split; [|split; [exact M3|split; [exact M4|exact M5]]]. intros E. rewrite E in Hres. by destruct Hres.
  - intros _. apply (prefetch_calls j host inputs m0 _ m g'); [reflexivity|done|].
    assert (X : prefetching j st' = true /\ st_base j st' = base /\ st_kb st' = kb /\ st_seq st' = st_seq (SBegin base kb) /\
                needs_input st' = false /\ scattered st' = false) by (unfold st'; by destruct resident).
    destruct X as (X1 & X2 & X3 & X4 & X5 & X6). unfold GemmInvariant.prefetch_ok. rewrite X1, X2, X3, X4. split; [exact B1|].
    split; [by rewrite X5|]. split; [intros _; by rewrite X4|]. split; [|by rewrite X6].
    intros Hf. apply B5. unfold st' in Hf. by destruct resident.
  - unfold st'. destruct resident; cbn [outputs_done st_base st_kb st_n]; case_match; lia.
  - exact (View _ outputs (fun _ => eq_refl)).
  - exact (View _ finished (fun _ => eq_refl)).
Qed.
End windows.
