(* ===== verification/GemmTick.v ===== *)
(** * One tick

    The pumps of the prefetchers and the task of the continuation: a tick keeps the
    invariant of the window GEMM. *)

From Stdlib Require Import ZArith Lia.
From Stdlib Require Import Init.Byte.
From stdpp Require Import base numbers functions list.
From S2P Require Import Prelude RecordUpdate Ieee IeeeArith Fp16 AttentionBase ComputeUnit TileArray ControlTransport WindowGemm GemmValues GemmSystem GemmArrays GemmSlots GemmInvariant GemmFacts GemmSums GemmParts GemmMemory GemmRows GemmRank GemmFlow GemmTasks GemmTiles GemmWindows.
Open Scope Z_scope.
#[local] Opaque mem_bytes.

Section tick.
Context (j : GemmJob) (cfg : TileUnitConfig) (host : Z -> byte) (inputs initials : Z -> Values) (m0 : Z -> byte).
Context (out0 : list (Z * Values)) (fin0 : list bool).
Hypothesis Hj : job_ok j inputs initials.
Hypothesis Hfit : arrays_fit cfg.

Notation inv := (gemm_inv j cfg host inputs initials m0 out0 fin0).
Notation rest := (inv_rest j cfg host inputs initials m0 out0 fin0).
Notation nC := (nC j).
Notation kC := (kC j).
Notation stage_ok := (stage_ok j).
Notation flow_ok := (flow_ok j cfg host inputs initials m0).
Notation arrays_ok := (arrays_ok j host inputs initials m0).
Notation memory_ok := (memory_ok j host inputs initials m0).
Notation prefetch_ok := (prefetch_ok j host inputs m0).
Notation place_ok := (place_ok j).
Notation io_ok := (io_ok j host inputs initials m0).
Notation main_calls := (main_calls j cfg host inputs initials m0).
Notation seq_limit := (seq_limit j).
Notation st_seq := (st_seq j).
Notation goes := (goes j).
Notation smooth := (smooth j cfg).
Notation ready := (ready j).
Notation rest_view := (rest_view j cfg host inputs initials m0 out0 fin0).
Notation rest_stay := (rest_stay j cfg host inputs initials m0 out0 fin0).
Notation rest_retry := (rest_retry j cfg host inputs initials m0 out0 fin0).
Notation rest_schedule := (rest_schedule j cfg host inputs initials m0 out0 fin0).
Notation inv_step := (inv_step j cfg host inputs initials m0 out0 fin0).
Notation rest_window := (rest_window j cfg host inputs initials m0 out0 fin0).
Notation rest_prepare := (rest_prepare j cfg host inputs initials m0 out0 fin0 Hj).


(** Only the prefetchers moved, and perhaps memory. *)
Lemma inv_pumped st g g' m m' b :
  inv st (mkSystem g m b) -> input_core (weight_core g') = input_core (weight_core g) ->
  (forall p, prefetch_port p = false -> on_port p (calls g') = on_port p (calls g)) ->
  (memory_ok st m -> memory_ok st m') -> (prefetch_ok st m g -> prefetch_ok st m' g') -> inv st (mkSystem g' m' b).
Proof.
  intros [I1 I2 I3 I4 I5 I6 I7] E K M P. split.
  - exact I1.
  - cbn [gemm] in *. rewrite K by reflexivity. apply (flow_frame j cfg host inputs initials m0 st g); [|exact I2].
    exact (f_equal (fun x => x <| remaining := fun _ => 0 |> <| cycle := 0 |> <| cReadyCycle := 0 |> <| phase := 0 |>
      <| leaseHeld := false |> <| outputs := [] |> <| finished := [] |>) E).
  - cbn [gemm bank] in *. change (remaining g') with (remaining (input_core (weight_core g'))). rewrite E.
    apply (arrays_calls j host inputs initials m0 _ _ (calls g)); [intros p Hp; apply K; by destruct p|exact I3].
  - exact (M I4).
  - exact (P I5).
  - cbn [gemm] in *. change (outputs g') with (outputs (input_core (weight_core g'))). rewrite E. exact I6.
  - cbn [gemm] in *. change (finished g') with (finished (input_core (weight_core g'))). rewrite E. exact I7.
Qed.

(** *** The pumps *)

Lemma pumpInput_idle re g : inputs_idle j g -> pumpInput j re g = g.
Proof.
  intros (I1 & _ & _). unfold pumpInput, pumpInputSlot. destruct (inputPrefetch j).
  - destruct (active g) eqn:E; rewrite !I1; cbn [negb orb]; by rewrite ?E.
  - destruct I1 as [-> ->]. reflexivity.
Qed.
Lemma pumpInputSlot_kept re i g :
  preparedSeq (pumpInputSlot j re i g) = preparedSeq g /\
  forall q, i_ready (inputSlots (pumpInputSlot j re i g) q) = i_ready (inputSlots g q).
Proof.
  unfold pumpInputSlot. destruct (negb _ || _ || _); [done|]. destruct (accepts _ _); [|done]. split; [done|].
  intros q. gemm_fields. destruct (decide (q = i)) as [->|H]; [by rewrite fn_lookup_insert|by rewrite fn_lookup_insert_ne].
Qed.
Lemma pumpInput_kept re g :
  preparedSeq (pumpInput j re g) = preparedSeq g /\ input_is_ready j (pumpInput j re g) = input_is_ready j g.
Proof.
  unfold pumpInput, input_is_ready. destruct (inputPrefetch j).
  - set (g1 := if active g then _ else g).
    assert (H1 : preparedSeq g1 = preparedSeq g /\ forall q, i_ready (inputSlots g1 q) = i_ready (inputSlots g q)).
    { unfold g1. destruct (active g); [apply pumpInputSlot_kept|done]. }
    destruct H1 as [H1 H1']. destruct (active g1).
    + destruct (pumpInputSlot_kept re (u32 (preparedSeq g1 + 1) mod 2) g1) as [H2 H2']. by rewrite H2, H2', H1, H1'.
    + by rewrite H1', H1.
  - destruct (negb _ || _); [done|]. by destruct (accepts _ _).
Qed.

Lemma pumpInput_inv st re g m b : inv st (mkSystem g m b) -> inv st (mkSystem (pumpInput j re g) m b).
Proof.
  intros I. pose proof (inv_prefetch _ _ _ _ _ _ _ _ _ _ I) as P. cbn [gemm memory] in P. unfold GemmInvariant.prefetch_ok in P.
  destruct (prefetching j st) eqn:Ep; [|destruct P as [_ P]; by rewrite pumpInput_idle].
  destruct P as [(R1 & R2 & R3) (T1 & T2 & T3 & T4)].
  destruct (pumpInput_ok j _ _ _ _ _ re g R3) as (G1 & G2 & G3).
  destruct (pumpInput_kept re g) as [K1 K2].
  assert (Es : slots (pumpInput j re g) = slots g /\ nextPrefetch (pumpInput j re g) = nextPrefetch g).
  { split; [change (slots (input_core (pumpInput j re g)) = slots (input_core g))|
      change (nextPrefetch (input_core (pumpInput j re g)) = nextPrefetch (input_core g))]; by rewrite G2. }
  destruct Es as [Es En].
  apply (inv_pumped st g _ m); [exact I|exact (f_equal weight_core G2)|intros p Hp; apply G3; by destruct p|exact (fun M => M)|].
  intros _. unfold GemmInvariant.prefetch_ok. rewrite Ep. split; [split; [|split; [by rewrite En|exact G1]]|].
  - by apply (weights_core j _ _ _ _ g).
  - split; [rewrite K1, Es; exact T1|]. split; [rewrite K1; exact T2|]. split; [|rewrite K2; exact T4].
    intros Hf. rewrite pumpInput_idle by (by apply T3). by apply T3.
Qed.

Lemma pumpWeight_ready re i g q : w_ready (slots (pumpWeight j re i g).1 q) = w_ready (slots g q).
Proof.
  unfold pumpWeight. destruct (negb _ || _ || _); [done|]. destruct (accepts _ _); [|done]. cbn [fst].
  gemm_fields. destruct (decide (q = i)) as [->|H]; [by rewrite fn_lookup_insert|by rewrite fn_lookup_insert_ne].
Qed.
Lemma pump_slots_ready re current q orders : forall g transfer bypass,
  w_ready (slots (pump_slots j re current orders g transfer bypass).1.1 q) = w_ready (slots g q).
Proof.
  induction orders as [|order orders IH]; intros g transfer bypass; cbn [pump_slots]; [done|].
  destruct (active g); cbn [negb]; [|done]. set (i := if _ : bool then _ else order).
  destruct (w_valid _ && _ && _); [by rewrite IH|].
  pose proof (pumpWeight_ready re i g q) as P. destruct (pumpWeight j re i g) as [g1 admitted]. cbn [fst] in P.
  set (hn := w_valid _ && _ && _ && _). set (bp := admitted && hn && _).
  assert (Q : slots (bump_if bp headBypassAdmissions_ g1) = slots g1) by (by destruct bp).
  destruct (_ && _ && hn && negb admitted); cbn [fst]; [by rewrite Q|]. by rewrite IH, Q.
Qed.
Lemma pump_slots_idle re current orders : forall g transfer bypass,
  weights_idle g -> (pump_slots j re current orders g transfer bypass).1.1 = g.
Proof.
  induction orders as [|order orders IH]; intros g transfer bypass W; cbn [pump_slots]; [done|].
  destruct (active g); cbn [negb]; [|done]. set (i := if _ : bool then _ else order).
  destruct (W i) as [Ev _]. destruct (W (current mod slotCount j)) as [Eh _]. unfold pumpWeight. rewrite Ev, Eh. cbn [andb negb orb bump_if].
  rewrite andb_false_r. cbn [andb]. by apply IH.
Qed.

Lemma seq_weights_source base kb s : mem_bytes host (seq_source j base kb s) 8192 = seq_weights j host base kb s.
Proof. reflexivity. Qed.
Lemma pump_slots_inv st re current orders g transfer bypass m b :
  inv st (mkSystem g m b) -> inv st (mkSystem (pump_slots j re current orders g transfer bypass).1.1 m b).
Proof.
  intros I. pose proof (inv_prefetch _ _ _ _ _ _ _ _ _ _ I) as P. cbn [gemm memory] in P. unfold GemmInvariant.prefetch_ok in P.
  destruct (prefetching j st) eqn:Ep; [|destruct P as [P _]; by rewrite pump_slots_idle].
  destruct P as [(R1 & R2 & R3) (T1 & T2 & T3 & T4)].
  destruct (pump_slots_ok j host _ _ (seq_weights_source (st_base j st) (st_kb st)) (ok_slots _ _ _ Hj) (ok_b _ _ _ Hj) m (st_seq st) re current orders g transfer bypass R1)
    as (G1 & G2 & G3 & G4).
  pose proof (fun q => pump_slots_ready re current q orders g transfer bypass) as Kr.
  set (g' := (pump_slots j re current orders g transfer bypass).1.1) in *. clearbody g'.
  assert (Vw : forall {B} (f : ReuseWindowGemm -> B), (forall x, f (weight_core x) = f x) -> f g' = f g).
  { intros B f Hf. by rewrite <- (Hf g'), G2, Hf. }
  apply (inv_pumped st g _ m); [exact I|exact (f_equal input_core G2)|intros p Hp; apply G3; by destruct p|exact (fun M => M)|].
  intros _. unfold GemmInvariant.prefetch_ok. rewrite Ep. split; [split; [exact G1|split; [by rewrite G4|by apply (inputs_core j _ _ _ _ _ g)]]|].
  rewrite <- (Vw _ preparedSeq (fun _ => eq_refl)) in T1, T2.
  split; [intros H; rewrite Kr; by apply T1|]. split; [exact T2|]. split.
  - intros Hf. apply (idle_core j g g' G2 G3). by apply T3.
  - intros Hs. rewrite (Vw _ (input_is_ready j) (fun _ => eq_refl)). by apply T4.
Qed.

(** *** The tick *)

Notation inv_view := (inv_view j cfg host inputs initials m0 out0 fin0).

Lemma bump_inv st s v g m b : inv st (mkSystem g m b) -> inv st (mkSystem (bump s v g) m b).
Proof. apply inv_view; reflexivity. Qed.
Lemma bump_if_inv st c s g m b : inv st (mkSystem g m b) -> inv st (mkSystem (bump_if c s g) m b).
Proof. destruct c; [apply bump_inv|done]. Qed.

Lemma tick_counters_inv st g m b : inv st (mkSystem g m b) -> inv st (mkSystem (tick_counters g) m b).
Proof.
  intros I. unfold tick_counters. cbv zeta. apply bump_if_inv. set (g1 := bump (phases_ (phase g)) 1 (bump activeCycles_ 1 g)).
  assert (I1 : inv st (mkSystem g1 m b)) by (by apply bump_inv, bump_inv).
  destruct (outputWaiting g1); [|exact I1]. by apply bump_if_inv, bump_inv.
Qed.
Lemma tick_transfers_inv st re g m b : inv st (mkSystem g m b) -> inv st (mkSystem (tick_transfers j re g) m b).
Proof.
  intros I. unfold tick_transfers. cbv zeta. set (g1 := if aFirst j then _ else g).
  assert (I1 : inv st (mkSystem g1 m b)) by (unfold g1; destruct (aFirst j); [by apply pumpInput_inv|exact I]).
  clearbody g1. destruct (active g1); cbn [negb]; [|exact I1].
  pose proof (pump_slots_inv st re (currentSequence j g1) (map Z.of_nat (seq 0 (Z.to_nat (slotCount j)))) g1 false false m b I1) as I2.
  destruct (pump_slots _ _ _ _ _ _ _) as [[g2 transfer] bypass]. cbn [fst] in I2.
  apply (bump_if_inv _ bypass headBypassCycles_) in I2. set (g3 := bump_if bypass headBypassCycles_ g2) in *. clearbody g3.
  destruct (active g3); cbn [negb]; [|exact I2].
  set (g4 := if aFirst j then g3 else _).
  assert (I4 : inv st (mkSystem g4 m b)) by (unfold g4; destruct (aFirst j); [exact I2|by apply pumpInput_inv]).
  clearbody g4. destruct (active g4); cbn [negb]; [|exact I4]. by apply bump_if_inv.
Qed.

Lemma accepted_ok st st' g g' m b (w : bool) re t :
  inv (if w then st' else st) (mkSystem g' m b) -> w = accepts re t -> settled st = true -> settled st' = true -> later j st st' ->
  exists st1, goes st st1 (smooth re g /\ ready st g) /\ inv st1 (mkSystem g' m b).
Proof.
  intros I E S S' L. exists (if w then st' else st). split; [|exact I].
  apply goes_accepted; [|by destruct w|by intros _]. intros [Sm _]. rewrite E. apply (smooth_accepts _ _ _ _ Sm).
Qed.
Lemma run_task_ok st g m b re t :
  rest st g m b -> task_of st = Some t ->
  exists st', goes st st' (smooth re g /\ ready st g) /\ inv st' (mkSystem (run_task j cfg re t g) m b).
Proof.
  intros I Ht. pose proof (inv_stage _ _ _ _ _ _ _ _ _ _ (proj1 I)) as S.
  destruct st as [base kb|base kb i w|base kb i off w|base kb nn|base kb nn off w|base nn|base kb nn w|base kb nn kk ph|base kb nn w|base kb nn off w|base kb nn p| |];
    try discriminate Ht; try (destruct w; [discriminate Ht|]); try (destruct ph as [|q w|q w|q]; try (destruct w; [discriminate Ht|])); injection Ht as <-.
  - destruct (beginWindow_ok j cfg host inputs initials m0 out0 fin0 Hj base kb g m b I) as (st' & G & I'). exists st'. split; [|exact I'].
    eapply goes_weaken; [|exact G]. intros [Sm _]. apply (smooth_output _ _ _ _ Sm).
  - exists (SAsk base kb i true). split; [to_later|]. by apply (loadA_ok j cfg host inputs initials m0 out0 fin0 Hj).
  - pose proof (writeLoad_ok j cfg host inputs initials m0 out0 fin0 Hj base kb i off g m b re I) as I'.
    apply (accepted_ok _ (SLoad base kb i off true) g _ m b (accepts re (tag g ⊞ 1)) re (tag g ⊞ 1)); [by destruct (accepts _ _)|done..|].
    apply later_in; [done..|cbn; lia].
  - destruct (restoreC_ok j cfg host inputs initials m0 out0 fin0 Hj base kb nn g m b re I) as (st' & G & I'). exists st'. split; [|exact I'].
    eapply goes_weaken; [|exact G]. tauto.
  - pose proof (readChunk_ok j cfg host inputs initials m0 out0 fin0 Hj base kb nn off g m b re I) as I'.
    apply (accepted_ok _ (SRead base kb nn off true) g _ m b (accepts re (tag g ⊞ 1)) re (tag g ⊞ 1)); [by destruct (accepts _ _)|done..|].
    apply later_in; [done..|cbn; lia].
  - destruct (programC_ok j cfg host inputs initials m0 out0 fin0 Hj Hfit base kb nn g m b re I) as (w & G & I'). eexists. split; [|exact I'].
    eapply goes_weaken; [|exact G]. tauto.
  - destruct (acquireTile_ok j cfg host inputs initials m0 out0 fin0 Hj base kb nn kk g m b I) as (st' & G & I'). exists st'. split; [|exact I'].
    eapply goes_weaken; [|exact G]. tauto.
  - destruct (programB_ok j cfg host inputs initials m0 out0 fin0 Hj Hfit base kb nn kk q g m b re I) as (w & G & I'). eexists. split; [|exact I'].
    eapply goes_weaken; [|exact G]. tauto.
  - destruct (programA_ok j cfg host inputs initials m0 out0 fin0 Hj Hfit base kb nn kk q g m b re I) as (w & G & I'). eexists. split; [exact G|exact I'].
  - destruct (launch_ok j cfg host inputs initials m0 out0 fin0 Hj base kb nn kk q g m b re I) as (st' & G & I'). exists st'. split; [|exact I'].
    eapply goes_weaken; [|exact G]. tauto.
  - destruct (drain_ok j cfg host inputs initials m0 out0 fin0 Hj Hfit base kb nn g m b re I) as (w & G & I'). eexists. split; [|exact I'].
    eapply goes_weaken; [|exact G]. tauto.
  - pose proof (writeSpill_ok j cfg host inputs initials m0 out0 fin0 Hj base kb nn off g m b re I) as I'.
    apply (accepted_ok _ (SSpill base kb nn off true) g _ m b (accepts re (tag g ⊞ 1)) re (tag g ⊞ 1)); [by destruct (accepts _ _)|done..|].
    apply later_in; [done..|cbn; lia].
  - destruct (waitFinish_ok j cfg host inputs initials m0 out0 fin0 g m b I) as (st' & G & I'). exists st'. split; [|exact I'].
    eapply goes_weaken; [|exact G]. intros [Sm _]. apply (smooth_output _ _ _ _ Sm).
Qed.

(** What the pumps leave of smoothness and readiness. *)
Definition kept (g g' : ReuseWindowGemm) : Prop :=
  control g' = control g /\ (forall q, w_ready (slots g' q) = w_ready (slots g q)) /\ input_is_ready j g' = input_is_ready j g.
Lemma kept_trans g1 g2 g3 : kept g1 g2 -> kept g2 g3 -> kept g1 g3.
Proof using Type. clear. intros (A1 & A2 & A3) (B1 & B2 & B3). split; [congruence|]. split; [|congruence]. intros q. by rewrite B2. Qed.
Lemma kept_ready st g g' : kept g g' -> ready st g -> ready st g'.
Proof using Type.
  intros (_ & K2 & K3). destruct st as [| | | | | | |base kb nn kk [|q w|q w|q]| | | | |]; cbn; try done; [by rewrite K2|].
  destruct w; [done|by rewrite K3].
Qed.
Lemma kept_bump s v g : kept g (bump s v g).
Proof using Type. done. Qed.
Lemma kept_bump_if c s g : kept g (bump_if c s g).
Proof using Type. by destruct c. Qed.
Lemma kept_pumpInput re g : kept g (pumpInput j re g).
Proof using Type.
  assert (Ks : forall i x, control (pumpInputSlot j re i x) = control x /\ slots (pumpInputSlot j re i x) = slots x).
  { intros i x. unfold pumpInputSlot. destruct (_ || _); [done|]. by destruct (accepts _ _). }
  destruct (pumpInput_kept re g) as [_ K3].
  assert (K : control (pumpInput j re g) = control g /\ slots (pumpInput j re g) = slots g).
  { unfold pumpInput. destruct (inputPrefetch j).
    - set (g1 := if active g then _ else g). assert (E : control g1 = control g /\ slots g1 = slots g) by (unfold g1; destruct (active g); [apply Ks|done]).
      destruct E as [E1 E2]. destruct (active g1); [|done]. destruct (Ks (u32 (preparedSeq g1 + 1) mod 2) g1) as [-> ->]. done.
    - destruct (_ || _); [done|]. by destruct (accepts _ _). }
  destruct K as [K1 K2]. split; [exact K1|]. split; [by rewrite K2|exact K3].
Qed.
Lemma kept_pump_slots re current orders : forall g transfer bypass, kept g (pump_slots j re current orders g transfer bypass).1.1.
Proof using Type.
  induction orders as [|order orders IH]; intros g transfer bypass; cbn [pump_slots]; [done|].
  destruct (active g); cbn [negb]; [|done]. set (i := if _ : bool then _ else order).
  destruct (w_valid _ && _ && _); [apply (kept_trans _ (bump gmDeferred_ 1 g)); [done|apply IH]|].
  assert (K : kept g (pumpWeight j re i g).1).
  { split; [|split; [intros q; apply pumpWeight_ready|]]; unfold pumpWeight; (destruct (negb _ || _ || _); [done|]); by destruct (accepts _ _). }
  destruct (pumpWeight j re i g) as [g1 admitted]. cbn [fst] in K. set (hn := w_valid _ && _ && _ && _). set (bp := admitted && hn && _).
  apply (kept_trans _ _ (bump_if bp headBypassAdmissions_ g1)) in K; [|apply kept_bump_if].
  destruct (_ && _ && hn && negb admitted); cbn [fst]; [exact K|]. by apply (kept_trans _ _ _ K).
Qed.
Lemma kept_transfers re g : kept g (tick_transfers j re g).
Proof using Type.
  unfold tick_transfers. cbv zeta. set (g1 := if aFirst j then _ else g).
  assert (K1 : kept g g1) by (unfold g1; destruct (aFirst j); [apply kept_pumpInput|done]). clearbody g1.
  destruct (active g1); cbn [negb]; [|exact K1].
  pose proof (kept_pump_slots re (currentSequence j g1) (map Z.of_nat (seq 0 (Z.to_nat (slotCount j)))) g1 false false) as K2.
  destruct (pump_slots _ _ _ _ _ _ _) as [[g2 transfer] bypass]. cbn [fst] in K2. apply (kept_trans _ _ _ K1) in K2.
  apply (kept_trans _ _ (bump_if bypass headBypassCycles_ g2)) in K2; [|apply kept_bump_if].
  set (g3 := bump_if bypass headBypassCycles_ g2) in *. clearbody g3. destruct (active g3); cbn [negb]; [|exact K2].
  set (g4 := if aFirst j then g3 else _).
  assert (K4 : kept g3 g4) by (unfold g4; destruct (aFirst j); [done|apply kept_pumpInput]). clearbody g4.
  apply (kept_trans _ _ _ K2) in K4. destruct (active g4); cbn [negb]; [|exact K4]. apply (kept_trans _ _ _ K4), kept_bump_if.
Qed.
Lemma kept_counters g : kept g (tick_counters g).
Proof using Type.
  unfold tick_counters. cbv zeta. set (g1 := bump (phases_ (phase g)) 1 (bump activeCycles_ 1 g)).
  apply (kept_trans _ (if outputWaiting g1 then bump_if (computing g1) outputComputeOverlap_ (bump outputPendingCycles_ 1 g1) else g1)); [|apply kept_bump_if].
  destruct (outputWaiting g1); [|done]. apply (kept_trans _ (bump outputPendingCycles_ 1 g1)); [done|apply kept_bump_if].
Qed.

(** A tick is the counters, the pumps and the task of the stage. *)
Lemma task_idle st : is_Some (task_of st) -> waiting st = false /\ st <> SDone.
Proof using Type.
  clear. intros [t Ht]. by destruct st as [|? ? ? []|? ? ? ? []| |? ? ? ? []| |? ? ? []|? ? ? ? [|? []|? []|]|? ? ? []|? ? ? ? []|? ? ? []| |].
Qed.
Lemma tick_runs st re now g m b t :
  inv st (mkSystem g m b) -> task_of st = Some t ->
  let g2 := tick_transfers j re (tick_counters (g <| cycle := now |>)) in
  rest st (g2 <| next := None |>) m b /\ kept (g <| cycle := now |>) g2 /\
  tick j cfg re now g = run_task j cfg re t (g2 <| next := None |>).
Proof.
  intros I Ht. cbv zeta. unfold tick. cbv zeta. set (g1 := g <| cycle := now |>).
  assert (I1 : inv st (mkSystem g1 m b)) by (apply (inv_view st g); [reflexivity|reflexivity|exact I]). clearbody g1.
  destruct (task_idle st) as [Hw Hd]; [by exists t|].
  assert (Ha : forall x, inv st (mkSystem x m b) -> active x = true /\ pending x = false /\ next x = Some t).
  { intros x [_ (F1 & F2 & F3 & _) _ _ _ _ _]. cbn [gemm] in *. rewrite F1, F2, F3. split; [by destruct st|done]. }
  destruct (Ha g1 I1) as [-> _]. cbn [negb].
  pose proof (kept_trans _ _ _ (kept_counters g1) (kept_transfers re (tick_counters g1))) as K.
  apply tick_counters_inv, (tick_transfers_inv st re) in I1. set (g2 := tick_transfers j re (tick_counters g1)) in *. clearbody g2.
  destruct (Ha g2 I1) as (-> & -> & ->). cbn [negb]. split; [by apply rest_of|]. by split.
Qed.
Lemma tick_ok st re now g m b :
  inv st (mkSystem g m b) -> settled st = true ->
  exists st', goes st st' (is_Some (task_of st) /\ smooth re (g <| cycle := now |>) /\ ready st g) /\
    inv st' (mkSystem (tick j cfg re now g) m b).
Proof.
  intros I Hs. destruct (task_of st) as [t|] eqn:Ht.
  - destruct (tick_runs st re now g m b t I Ht) as (R & K & ->). destruct (run_task_ok st _ m b re t R Ht) as (st' & G & I').
    exists st'. split; [|exact I']. eapply goes_weaken; [|exact G]. intros (_ & Sm & Rd). split.
    + apply (smooth_control _ _ _ (g <| cycle := now |>)); [exact (proj1 K)|exact Sm].
    + by apply (kept_ready st (g <| cycle := now |>)).
  - exists st. split; [apply goes_stay; [exact Hs|by intros ([] & _)]|]. unfold tick. cbv zeta. set (g1 := g <| cycle := now |>).
    assert (I1 : inv st (mkSystem g1 m b)) by (apply (inv_view st g); [reflexivity|reflexivity|exact I]). clearbody g1.
    destruct (active g1); cbn [negb]; [|exact I1].
    apply tick_counters_inv, (tick_transfers_inv st re) in I1. set (g2 := tick_transfers j re (tick_counters g1)) in *. clearbody g2.
    destruct (active g2); cbn [negb]; [|exact I1]. assert (E : next g2 = None) by (destruct I1 as [_ (_ & _ & E & _) _ _ _ _ _]; cbn [gemm] in E; congruence).
    by rewrite E.
Qed.
End tick.
