(* ===== verification/GemmAnswers.v ===== *)
(** * The callbacks of the control flow

    The call the job waits for completes: every callback keeps the invariant of the window
    GEMM. *)

From Stdlib Require Import ZArith Lia.
From Stdlib Require Import Init.Byte.
From stdpp Require Import base numbers functions list.
From S2P Require Import Prelude RecordUpdate Ieee IeeeArith Fp16 AttentionBase ComputeUnit TileArray ControlTransport WindowGemm GemmValues GemmSystem GemmArrays GemmSlots GemmInvariant GemmFacts GemmSums GemmParts GemmMemory GemmRows GemmRank GemmFlow GemmTasks GemmTiles GemmWindows.
Open Scope Z_scope.
#[local] Opaque mem_bytes.

Section answers.
Context (j : GemmJob) (cfg : TileUnitConfig) (host : Z -> byte) (inputs initials : Z -> Values) (m0 : Z -> byte).
Context (out0 : list (Z * Values)) (fin0 : list bool).
Hypothesis Hj : job_ok j inputs initials.
Hypothesis Hfit : arrays_fit cfg.

Notation inv := (gemm_inv j cfg host inputs initials m0 out0 fin0).
Notation rest := (inv_rest j cfg host inputs initials m0 out0 fin0).
Notation nC := (nC j).
Notation kC := (kC j).
Notation stage_ok := (stage_ok j).
Notation flow_ok := (flow_ok j cfg host inputs initials m0).
Notation arrays_ok := (arrays_ok j host inputs initials m0).
Notation memory_ok := (memory_ok j host inputs initials m0).
Notation prefetch_ok := (prefetch_ok j host inputs m0).
Notation place_ok := (place_ok j).
Notation io_ok := (io_ok j host inputs initials m0).
Notation main_calls := (main_calls j cfg host inputs initials m0).
Notation seq_limit := (seq_limit j).
Notation st_seq := (st_seq j).
Notation rest_view := (rest_view j cfg host inputs initials m0 out0 fin0).
Notation rest_stay := (rest_stay j cfg host inputs initials m0 out0 fin0).
Notation rest_retry := (rest_retry j cfg host inputs initials m0 out0 fin0).
Notation rest_schedule := (rest_schedule j cfg host inputs initials m0 out0 fin0).
Notation inv_step := (inv_step j cfg host inputs initials m0 out0 fin0).
Notation rest_window := (rest_window j cfg host inputs initials m0 out0 fin0).
Notation rest_prepare := (rest_prepare j cfg host inputs initials m0 out0 fin0 Hj).


Notation moves := (moves j).
Notation answer := (answer j cfg host inputs initials).

(** One more tile. *)
Lemma expected_snoc base nn : 0 <= base + nn ->
  expected_outputs j host inputs initials m0 (base + (nn + 1)) =
  expected_outputs j host inputs initials m0 (base + nn) ++ [(tile_at j (base + nn), product j host inputs initials m0 (tile_at j (base + nn)))].
Proof.
  intros H. unfold expected_outputs. replace (Z.to_nat (base + (nn + 1))) with (Z.to_nat (base + nn) + 1)%nat by lia.
  rewrite seq_app, map_app. cbn. by rewrite Z2Nat.id.
Qed.
(** The call the job waits for. *)
Lemma main_single st cs : main_calls st cs -> cs = [] \/ exists c, cs = [c].
Proof.
  destruct st as [base kb|base kb i []|base kb i off []|base kb nn|base kb nn off []|base nn|base kb nn []|base kb nn kk [|q []|q []|q]
    |base kb nn []|base kb nn off []|base kb nn p| |]; cbn [GemmInvariant.main_calls];
    first [intros ->; left; reflexivity | intros ->; right; eexists; reflexivity
          | intros [-> _]; right; eexists; reflexivity | intros (x & -> & _); right; eexists; reflexivity].
Qed.
Lemma main_task st c : main_calls st [c] -> task_of st = None.
Proof.
  destruct st as [base kb|base kb i []|base kb i off []|base kb nn|base kb nn off []|base nn|base kb nn []|base kb nn kk [|q []|q []|q]
    |base kb nn []|base kb nn off []|base kb nn p| |]; cbn [GemmInvariant.main_calls]; (intros _; reflexivity) || discriminate.
Qed.
(** The stage it belongs to. *)
Lemma awaited_stage st c : main_calls st [c] ->
  match c with
  | AskInput kk => exists base kb i, st = SAsk base kb i true /\ kk = kb + i
  | WriteGM addr bs =>
      (exists base kb i off, st = SLoad base kb i off true /\ addr = aBase j + i * tile_bytes j + off /\
         bs = bslice off (chunk j (tile_bytes j) off) (input_tile_bytes j inputs m0 (kb + i))) \/
      (exists base kb nn off, st = SSpill base kb nn off true /\ addr = spill_address j nn + off /\
         bs = bslice off (chunk j (spill_bytes j) off) (spill j host inputs initials m0 (base + nn) (kb + kC kb)))
  | ReadBack addr len => exists base kb nn off, st = SRead base kb nn off true /\ addr = spill_address j nn + off /\ len = chunk j (spill_bytes j) off
  | AskInitial tile => exists base nn, st = SInitial base nn /\ tile = tile_at j (base + nn)
  | WriteOutput ids v => exists base kb nn, st = SProgC base kb nn true /\ ids = arrays j /\ v = st_loaded j host inputs initials m0 st /\
      is_Some (writeOutputGroupClassAsync cfg ids v 4 ProjectionOutput)
  | ProgramMatrix ids v _ => exists base kb nn kk q, st = STile base kb nn kk (Broadcasting q true) /\
      ids = (if scatterWave j then arrays j else group_ids j q) /\ v = st_weights j host st /\
      is_Some (programMatrixGroupClassBankAsync cfg ids 0 v 2 ProjectionWeights)
  | ScatterInput ids v => exists base kb nn kk q, st = STile base kb nn kk (Scattering q true) /\
      ids = group_ids j q /\ v = group_input j q (st_input j inputs m0 st) /\
      is_Some (programInputScatterBankAsync cfg ids 0 v 2 ProjectionInputScatter)
  | ReadOutput ids bytes => exists base kb nn, st = SDrain base kb nn true /\ ids = arrays j /\
      is_Some (readOutputGroupClassAsync cfg ids bytes ProjectionOutput)
  | _ => False
  end.
Proof.
  destruct st as [base kb|base kb i []|base kb i off []|base kb nn|base kb nn off []|base nn|base kb nn []|base kb nn kk [|q []|q []|q]
    |base kb nn []|base kb nn off []|base kb nn p| |]; cbn [GemmInvariant.main_calls]; try discriminate.
  - intros [= ->]. by exists base, kb, i.
  - intros [= ->]. left. by exists base, kb, i, off.
  - intros [= ->]. by exists base, kb, nn, off.
  - intros [= ->]. by exists base, nn.
  - intros [[= ->] H]. by exists base, kb, nn.
  - intros (sub & [= ->] & H). by exists base, kb, nn, kk, q.
  - intros [[= ->] H]. by exists base, kb, nn, kk, q.
  - intros (bytes & [= ->] & H). by exists base, kb, nn.
  - intros [= ->]. right. by exists base, kb, nn, off.
Qed.
Lemma awaited st g m b l1 c l2 :
  inv st (mkSystem g m b) -> calls g = l1 ++ c :: l2 -> port c = PMain ->
  main_calls st [c] /\ task_of st = None /\ on_port PMain (l1 ++ l2) = [] /\ ports_kept other_port (calls g) (l1 ++ l2).
Proof.
  intros I E Hp. pose proof (inv_flow _ _ _ _ _ _ _ _ _ _ I) as (_ & _ & _ & _ & _ & _ & _ & M). cbn [gemm] in M.
  pose proof (on_port_nil PMain l1 c l2 Hp) as Nn. rewrite E in M |- *.
  destruct (main_single st _ M) as [E0|[c' E0]]; [by destruct Nn|].
  destruct (on_port_single PMain l1 c l2 c' Hp E0) as [<- R]. rewrite E0 in M. split; [exact M|]. split; [|split; [exact R|]].
  { by apply (main_task st c). }
  apply ports_kept_removed. by rewrite Hp.
Qed.
Lemma waiting_rest st g m b : inv st (mkSystem g m b) -> task_of st = None -> rest st g m b.
Proof.
  intros I Ht. destruct (inv_next j cfg host inputs initials m0 out0 fin0 _ _ _ _ I) as [I' N]. split; [exact I'|congruence].
Qed.

(** A callback: it moves the stage, its own registers, memory and the arrays. *)
Lemma inv_answer st st' g g' m m' b b' :
  rest st g m b -> running st = true -> running st' = true -> ports_kept other_port (calls g) (calls g') ->
  stage_ok st' -> flows j cfg host inputs initials m0 st st' g g' (on_port PMain (calls g')) ->
  (arrays_ok st (remaining g) (calls g) b -> arrays_ok st' (remaining g) (calls g) b') ->
  (memory_ok st m -> memory_ok st' m') -> (prefetch_ok st m g -> prefetch_ok st' m' g) ->
  outputs_done j st' = outputs_done j st ->
  remaining g' = remaining g -> prefetch_view g' = prefetch_view g -> outputs g' = outputs g -> finished g' = finished g ->
  inv st' (mkSystem g' m' b').
Proof.
  intros I R R' K S F A M P O1 E1 E2 O2 O3.
  apply (inv_move j cfg host inputs initials m0 out0 fin0 st st' g g' m m' b b'); try assumption.
  - intros H. rewrite E1. apply (arrays_calls _ _ _ _ _ _ _ (calls g)); [by apply other_array|by apply A].
  - intros H. apply (prefetch_calls _ _ _ _ _ _ g); [done|by apply other_prefetch|by apply P].
Qed.
(** Its premises; stage, registers, arrays, memory and prefetchers remain. *)
Ltac answer_to st st' g :=
  eapply (inv_answer st st' g);
  [eassumption|reflexivity|reflexivity|assumption| | | | | |try reflexivity|reflexivity|reflexivity|reflexivity|reflexivity].
Ltac answer_flows := do 5 (split; [reflexivity|]).

Lemma askInput_ok st kk g m b l1 l2 :
  inv st (mkSystem g m b) -> calls g = l1 ++ AskInput kk :: l2 ->
  exists st', moves st st' /\ inv st' (answer (AskInput kk) (g <| calls := l1 ++ l2 |>) m b).
Proof.
  intros I E. destruct (awaited _ _ _ _ _ _ _ I E eq_refl) as (M & Ht & R & K).
  destruct (awaited_stage _ _ M) as (base & kb & i & -> & ->). apply (waiting_rest _ _ _ _) in I as I0; [|exact Ht].
  pose proof I0 as [[S (F1 & F2 & F3 & F4 & F5 & F6 & F7 & F8) _ _ _ _ _] N].
  pose proof S as (Hw & Hi & Hn). pose proof (kC_range _ _ _ Hj _ _ Hw). pose proof (rows_range _ _ _ Hj).
  cbn [GemmSystem.answer]. unfold input_given. cbv zeta. cbn [negb orb].
  rewrite (ok_inputs _ _ _ Hj (kb + i) Hn) by lia. rewrite u32_id by (unfold in_u32; lia). rewrite Z.eqb_refl. cbn [negb].
  exists (SLoad base kb i 0 false). split; [to_move|].
  answer_to (SAsk base kb i true) (SLoad base kb i 0 false) g; [| |exact (fun A => A)| |exact (fun P => P)].
  - split; [exact Hw|]. split; [exact Hi|]. split; [exact Hn|]. unfold tile_bytes. lia.
  - answer_flows.
    split; [exact F6|]. split; [|exact R]. destruct F6 as (_ & _ & _ & _ & _ & _ & P7). change (loadedA g = i) in P7.
    split; [change (aBase j ⊞ (loadedA g ⊠ rows j ⊠ 128) = aBase j + i * tile_bytes j); rewrite P7; by apply (loaded_address _ _ _ Hj base kb)|].
    split; [reflexivity|]. split; [|reflexivity].
    change (ReuseWindowGemm_pack (inputs (kb + i)) 2 = input_tile_bytes j inputs m0 (kb + i)). unfold input_tile_bytes. by rewrite Hn.
  - intros (M1 & M2 & M3 & M4 & M5). split; [exact M1|]. split; [exact M2|]. split; [exact M3|]. split; [exact M4|]. apply holds_nil.
Qed.

(** *** Writes *)

Lemma load_prefetch base kb i off w len m g :
  stage_ok (SLoad base kb i off w) -> memory_ok (SLoad base kb i off w) m -> prefetch_ok (SLoad base kb i off w) m g ->
  0 <= len -> off + len <= rows j * 128 ->
  prefetch_ok (SLoad base kb i off w)
    (write_mem m (aBase j + i * tile_bytes j + off) (bslice off len (input_tile_bytes j inputs m0 (kb + i)))) g.
Proof.
  intros S M P Hl Hle. pose proof S as (Hw & Hi & E & Ho). set (m' := write_mem _ _ _).
  destruct (fresh j (SLoad base kb i off w)) eqn:Ef.
  - apply (prefetch_fresh j host inputs initials m0 Hj (SLoad base kb i off w) m); [exact Ef|exact P|].
    intros x Hx. apply write_outside. intros Hy. apply (b_outside j inputs initials Hj x Hx).
    apply (loaded_tile_at j inputs initials Hj base kb i x Hw Hi E).
    pose proof (bslice_blen_le off len (input_tile_bytes j inputs m0 (kb + i)) Hl). lia.
  - apply (prefetch_same j host inputs initials m0 Hj (SLoad base kb i off w) m); [exact S|exact P|].
    intros x _. apply write_noop; [|lia]. destruct M as (_ & M2 & _). apply (M2 E).
    cbn in Ef |- *. apply negb_false_iff in Ef. rewrite Ef. pose proof (kC_range _ _ _ Hj _ _ Hw). lia.
Qed.

Lemma loadChunk_ok base kb i off g m b l1 l2 bs addr :
  inv (SLoad base kb i off true) (mkSystem g m b) -> calls g = l1 ++ WriteGM addr bs :: l2 ->
  addr = aBase j + i * tile_bytes j + off ->
  bs = bslice off (chunk j (tile_bytes j) off) (input_tile_bytes j inputs m0 (kb + i)) ->
  exists st', moves (SLoad base kb i off true) st' /\ inv st' (answer (WriteGM addr bs) (g <| calls := l1 ++ l2 |>) m b).
Proof.
  intros I E Ha Hb. destruct (awaited _ _ _ _ _ _ _ I E eq_refl) as (M & Ht & R & K).
  apply (waiting_rest _ _ _ _) in I as I0; [|exact Ht].
  pose proof I0 as [[S (F1 & F2 & F3 & F4 & F5 & F6 & F7 & F8) _ Im Ip _ _] N].
  pose proof S as (Hw & Hi & Hn & Ho). pose proof (kC_range _ _ _ Hj _ _ Hw) as Hkc. pose proof (rows_range _ _ _ Hj) as Hr.
  pose proof (tile_blen j inputs initials m0 Hj base kb i Hw Hi) as Ht'.
  destruct (chunk_range j inputs initials Hj (tile_bytes j) off Ho) as [Hc1 Hc2].
  set (len := chunk j (tile_bytes j) off) in *.
  assert (Hlen : blen bs = len) by (rewrite Hb; apply bslice_length; unfold tile_bytes in *; lia).
  cbn [GemmSystem.answer]. rewrite Hlen, Ha, Hb. set (m' := write_mem m _ _).
  cbn [memory gemm] in Im, Ip.
  assert (Im' : memory_ok (SLoad base kb i (off + len) false) m').
  { apply (memory_load j host inputs initials m0 Hj base kb i off len m true false); [exact Hw|exact Hi|exact Hn|lia|lia|exact Hc2|exact Im]. }
  assert (Ip' : prefetch_ok (SLoad base kb i off true) m' g).
  { apply (load_prefetch base kb i off true len m g); [exact S|exact Im|exact Ip|lia|exact Hc2]. }
  clearbody m'.
  unfold chunk_written. cbv zeta. cbn [negb].
  destruct F7 as (A1 & A2 & A3 & A4). change (ioAddr g = aBase j + i * tile_bytes j) in A1. change (offset g = off) in A2.
  change (io g = input_tile_bytes j inputs m0 (kb + i)) in A3. change (writeDone g = Some InputWritten) in A4.
  destruct F6 as (P1 & P2 & P3 & P4 & P5 & P6 & P7). change (loadedA g = i) in P7. change (kCount g = kC kb) in P4.
  set (g1 := bump localWrite_ len _). change (offset g1) with (offset g + len). change (io g1) with (io g). change (writeDone g1) with (writeDone g).
  rewrite A2, A3, A4, Ht'.
  destruct (Z.ltb_spec (off + len) (rows j * 128)) as [Hlt|Hge].
  - exists (SLoad base kb i (off + len) false). split; [to_move|].
    answer_to (SLoad base kb i off true) (SLoad base kb i (off + len) false) g; [| |exact (fun A => A)|intros _; exact Im'|].
    + split; [exact Hw|]. split; [exact Hi|]. split; [exact Hn|]. unfold tile_bytes. lia.
    + answer_flows.
      split; [repeat split; assumption|]. split; [|exact R].
      split; [exact A1|]. split; [change (offset g + len = off + len); by rewrite A2|]. split; [exact A3|exact A4].
    + intros _. exact Ip'.
  - assert (off + len = rows j * 128) as Eo by (unfold tile_bytes in *; lia). rewrite Eo in Im'.
    apply (memory_loaded j host inputs initials m0 Hj base kb i m' false false Hw Hi Hn) in Im'.
    unfold input_written. cbv zeta. set (g2 := _ <| loadedA ::= _ |>).
    change (loadedA g2) with (u32 (loadedA g + 1)). change (kCount g2) with (kCount g).
    rewrite P7, P4, (u32_id (i + 1)) by (unfold in_u32; lia).
    destruct (Z.ltb_spec (i + 1) (kC kb)) as [Hlt|Hlast].
    + exists (SAsk base kb (i + 1) false). split; [to_move|].
      answer_to (SLoad base kb i off true) (SAsk base kb (i + 1) false) g; [| |exact (fun A => A)|intros _; exact Im'|].
      * split; [exact Hw|]. split; [lia|exact Hn].
      * answer_flows.
        split; [|split; [exact Logic.I|exact R]]. split; [exact P1|]. split; [exact P2|]. split; [exact P3|]. split; [exact P4|].
        split; [exact P5|]. split; [exact P6|]. change (u32 (loadedA g + 1) = i + 1). rewrite P7. apply u32_id. unfold in_u32. lia.
      * intros _. exact Ip'.
    + exists (SRestore base kb 0). split; [to_move|].
      answer_to (SLoad base kb i off true) (SRestore base kb 0) g; [| |exact (fun A => A)|intros _; exact Im'|].
      * split; [exact Hw|]. pose proof (nC_range _ _ _ Hw). lia.
      * answer_flows.
        split; [repeat split; assumption|]. split; [exact Logic.I|exact R].
      * intros _. revert Ip'. apply prefetch_stage; try reflexivity. intros (T1 & T2 & T3 & T4).
        split; [discriminate|]. split; [discriminate|]. split; discriminate.
Qed.

(** A callback that ends a tile. *)
Lemma advanced st base kb nn g m b : later j st (SEnd base kb nn false) -> rest (SEnd base kb nn false) g m b ->
  exists st', moves st st' /\ inv st' (mkSystem (advanceN j g) m b).
Proof.
  intros L I. destruct (advanceN_ok j cfg host inputs initials m0 out0 fin0 Hj base kb nn g m b I) as (st' & M & I').
  exists st'. split; [by apply (moves_trans _ _ (SEnd base kb nn false))|exact I'].
Qed.
(** The spill of a tile's sums has been written: on to the next tile. *)
Lemma spillChunk_ok base kb nn off g m b l1 l2 bs addr :
  inv (SSpill base kb nn off true) (mkSystem g m b) -> calls g = l1 ++ WriteGM addr bs :: l2 ->
  addr = spill_address j nn + off ->
  bs = bslice off (chunk j (spill_bytes j) off) (spill j host inputs initials m0 (base + nn) (kb + kC kb)) ->
  exists st', moves (SSpill base kb nn off true) st' /\ inv st' (answer (WriteGM addr bs) (g <| calls := l1 ++ l2 |>) m b).
Proof.
  intros I E Ha Hb. destruct (awaited _ _ _ _ _ _ _ I E eq_refl) as (M & Ht & R & K).
  apply (waiting_rest _ _ _ _) in I as I0; [|exact Ht].
  pose proof I0 as [[S (F1 & F2 & F3 & F4 & F5 & F6 & F7 & F8) _ Im Ip _ _] N].
  pose proof S as (Hw & Hi & Hk & Ho). pose proof (rows_range _ _ _ Hj) as Hr.
  pose proof (spill_blen j host inputs initials m0 Hj (base + nn) (kb + kC kb)) as Ht'.
  destruct (chunk_range j inputs initials Hj (spill_bytes j) off Ho) as [Hc1 Hc2].
  set (len := chunk j (spill_bytes j) off) in *.
  assert (Hlen : blen bs = len) by (rewrite Hb; apply bslice_length; unfold spill_bytes in *; lia).
  cbn [GemmSystem.answer]. rewrite Hlen, Ha, Hb. set (m' := write_mem m _ _).
  cbn [memory gemm] in Im, Ip.
  assert (Im' : memory_ok (SSpill base kb nn (off + len) false) m').
  { apply (memory_spill j host inputs initials m0 Hj base kb nn off len m true false); [exact Hw|exact Hi|lia|lia|exact Hc2|exact Im]. }
  assert (Ip' : prefetch_ok (SSpill base kb nn off true) m' g).
  { apply (prefetch_same j host inputs initials m0 Hj (SSpill base kb nn off true) m); [exact S|exact Ip|].
    intros x Hx. apply write_outside. rewrite <- Hb, Hlen. intros Hy.
    assert (Hc : in_c j x) by (apply (spill_inside j inputs initials Hj base kb nn x Hw Hi); unfold spill_bytes in *; lia).
    destruct Hx as [Hx|Hx]; [destruct (b_outside j inputs initials Hj x Hx) as [D _]; exact (D Hc)|destruct (inputs_outside j inputs initials Hj x Hx) as [_ D]; exact (D Hc)]. }
  clearbody m'.
  unfold chunk_written. cbv zeta. cbn [negb].
  destruct F7 as (A1 & A2 & A3 & A4). change (ioAddr g = spill_address j nn) in A1. change (offset g = off) in A2.
  change (io g = spill j host inputs initials m0 (base + nn) (kb + kC kb)) in A3. change (writeDone g = Some PartialWritten) in A4.
  set (g1 := bump localWrite_ len _). change (offset g1) with (offset g + len). change (io g1) with (io g). change (writeDone g1) with (writeDone g).
  rewrite A2, A3, A4, Ht'.
  destruct (Z.ltb_spec (off + len) (rows j * 256)) as [Hlt|Hge].
  - exists (SSpill base kb nn (off + len) false). split; [to_move|].
    answer_to (SSpill base kb nn off true) (SSpill base kb nn (off + len) false) g; [| |exact (fun A => A)|intros _; exact Im'|].
    + split; [exact Hw|]. split; [exact Hi|]. split; [exact Hk|]. unfold spill_bytes. lia.
    + answer_flows. split; [exact F6|]. split; [|exact R].
      split; [exact A1|]. split; [change (offset g + len = off + len); by rewrite A2|]. split; [exact A3|exact A4].
    + intros _. exact Ip'.
  - assert (off + len = rows j * 256) as Eo by (unfold spill_bytes in *; lia). rewrite Eo in Im'.
    apply (memory_spilled j host inputs initials m0 Hj) in Im'.
    apply (advanced (SSpill base kb nn off true) base kb nn), waiting_rest; [apply later_in; [done..|cbn; unfold spill_bytes in *; lia]| |reflexivity].
    answer_to (SSpill base kb nn off true) (SEnd base kb nn false) g; [| |exact (fun A => A)|intros _; exact Im'|intros _; exact Ip'|].
    + split; [exact Hw|]. split; [exact Hi|discriminate].
    + do 4 (split; [reflexivity|]). split; [exact N|]. split; [exact F6|]. split; [exact Logic.I|exact R].
    + cbn. rewrite (proj2 (Z.eqb_neq (kb + kC kb) (kTiles j))) by lia. reflexivity.
Qed.
Lemma writeGM_ok st addr bs g m b l1 l2 :
  inv st (mkSystem g m b) -> calls g = l1 ++ WriteGM addr bs :: l2 ->
  exists st', moves st st' /\ inv st' (answer (WriteGM addr bs) (g <| calls := l1 ++ l2 |>) m b).
Proof.
  intros I E. destruct (awaited _ _ _ _ _ _ _ I E eq_refl) as (M & _).
  destruct (awaited_stage _ _ M) as [(base & kb & i & off & -> & Ha & Hb)|(base & kb & nn & off & -> & Ha & Hb)].
  - by apply (loadChunk_ok base kb i off).
  - by apply (spillChunk_ok base kb nn off).
Qed.

(** *** Reads *)

Lemma readBack_ok st addr len g m b l1 l2 :
  inv st (mkSystem g m b) -> calls g = l1 ++ ReadBack addr len :: l2 ->
  exists st', moves st st' /\ inv st' (answer (ReadBack addr len) (g <| calls := l1 ++ l2 |>) m b).
Proof.
  intros I E. destruct (awaited _ _ _ _ _ _ _ I E eq_refl) as (M & Ht & R & K).
  destruct (awaited_stage _ _ M) as (base & kb & nn & off & -> & Ha & Hl).
  apply (waiting_rest _ _ _ _) in I as I0; [|exact Ht].
  pose proof I0 as [[S (F1 & F2 & F3 & F4 & F5 & F6 & F7 & F8) _ Im Ip _ _] N].
  pose proof S as (Hw & Hi & Hk & Ho). pose proof (rows_range _ _ _ Hj) as Hr.
  pose proof (spill_blen j host inputs initials m0 Hj (base + nn) kb) as Ht'.
  destruct (chunk_range j inputs initials Hj (spill_bytes j) off Ho) as [Hc1 Hc2]. rewrite <- Hl in Hc1, Hc2. unfold spill_bytes in Hc2.
  assert (Hb : mem_bytes m addr len = bslice off len (spill j host inputs initials m0 (base + nn) kb)).
  { rewrite Ha. apply read_held; [|lia|lia|lia]. destruct Im as (_ & _ & M3 & _). apply (M3 Hk). cbn. unfold spilled_lo. cbn. lia. }
  cbn [GemmSystem.answer]. rewrite Hb. set (bs := bslice off len _).
  assert (Hlen : blen bs = len) by (apply bslice_length; lia).
  unfold chunk_read. cbv zeta. rewrite Hlen, Z.eqb_refl. cbn [negb orb].
  destruct F7 as (A1 & A2 & A3 & A4). change (ioAddr g = spill_address j nn) in A1. change (offset g = off) in A2.
  change (blen (io g) = rows j * 256) in A3. change (bslice 0 off (io g) = bslice 0 off (spill j host inputs initials m0 (base + nn) kb)) in A4.
  set (g1 := bump localRead_ len _). change (offset g1) with (offset g + len).
  change (io g1) with (copy_at (offset g) bs (io g)). rewrite A2.
  assert (Hn : bslice 0 (off + len) (copy_at off bs (io g)) = bslice 0 (off + len) (spill j host inputs initials m0 (base + nn) kb)).
  { apply copy_next; [congruence|lia|lia|lia|exact A4]. }
  assert (Hcl : blen (copy_at off bs (io g)) = rows j * 256) by (rewrite copy_at_blen; lia).
  rewrite Hcl. destruct (Z.ltb_spec (off + len) (rows j * 256)) as [Hlt|Hge].
  - exists (SRead base kb nn (off + len) false). split; [to_move|].
    answer_to (SRead base kb nn off true) (SRead base kb nn (off + len) false) g; [| |exact (fun A => A)|exact (fun M' => M')|exact (fun P => P)].
    + split; [exact Hw|]. split; [exact Hi|]. split; [exact Hk|]. unfold spill_bytes. lia.
    + answer_flows. split; [exact F6|]. split; [|exact R].
      split; [exact A1|]. split; [change (offset g + len = off + len); by rewrite A2|].
      change (io (schedule ReadChunk g1)) with (copy_at (offset g) bs (io g)). rewrite A2. split; [exact Hcl|exact Hn].
  - assert (off + len = rows j * 256) as Eo by lia. rewrite Eo in Hn.
    rewrite <- Hcl, bslice_all, Hcl, <- Ht', bslice_all in Hn.
    exists (SProgC base kb nn false). split; [to_move|].
    answer_to (SRead base kb nn off true) (SProgC base kb nn false) g; [| |exact (fun A => A)|exact (fun M' => M')|exact (fun P => P)].
    + split; [exact Hw|]. split; [exact Hi|by left].
    + answer_flows. split; [exact F6|]. split; [|exact R].
      change (ReuseWindowGemm_unpack (copy_at off bs (io g)) 4 = st_loaded j host inputs initials m0 (SProgC base kb nn false)).
      rewrite Hn, (unpack_spill j host inputs initials m0). unfold st_loaded. cbn [st_kb st_base st_n].
      by rewrite (proj2 (Z.eqb_neq kb 0)) by lia.
Qed.

Lemma askInitial_ok st tile g m b l1 l2 :
  inv st (mkSystem g m b) -> calls g = l1 ++ AskInitial tile :: l2 ->
  exists st', moves st st' /\ inv st' (answer (AskInitial tile) (g <| calls := l1 ++ l2 |>) m b).
Proof.
  intros I E. destruct (awaited _ _ _ _ _ _ _ I E eq_refl) as (M & Ht & R & K).
  destruct (awaited_stage _ _ M) as (base & nn & -> & ->).
  apply (waiting_rest _ _ _ _) in I as I0; [|exact Ht].
  pose proof I0 as [[S (F1 & F2 & F3 & F4 & F5 & F6 & F7 & F8) _ Im Ip _ _] N].
  pose proof S as (Hw & Hi & Hini). pose proof (rows_range _ _ _ Hj) as Hr.
  cbn [GemmSystem.answer]. unfold initial_given. cbv zeta. rewrite (ok_initials _ _ _ Hj _ Hini), u32_id by (unfold in_u32; lia).
  rewrite Z.eqb_refl. cbn [negb orb]. exists (SProgC base 0 nn false). split; [to_move|].
  answer_to (SInitial base nn) (SProgC base 0 nn false) g; [| |exact (fun A => A)|exact (fun M' => M')|exact (fun P => P)].
  - split; [exact Hw|]. split; [exact Hi|by right].
  - answer_flows. split; [exact F6|]. split; [reflexivity|exact R].
Qed.

(** *** The arrays *)

Lemma write_accepted ids v : is_Some (writeOutputGroupClassAsync cfg ids v 4 ProjectionOutput) ->
  writeOutputGroupClassAsync cfg ids v 4 ProjectionOutput = Some (scatter_outputs cfg ids v).
Proof. unfold writeOutputGroupClassAsync. destruct (_ || _); [by intros []|done]. Qed.
Lemma program_accepted ids w : is_Some (programMatrixGroupClassBankAsync cfg ids 0 w 2 ProjectionWeights) ->
  programMatrixGroupClassBankAsync cfg ids 0 w 2 ProjectionWeights = Some (for_arrays (program_matrix cfg true w) ids).
Proof. unfold programMatrixGroupClassBankAsync. destruct (_ || _); [by intros []|done]. Qed.
Lemma scatter_accepted ids v : is_Some (programInputScatterBankAsync cfg ids 0 v 2 ProjectionInputScatter) ->
  programInputScatterBankAsync cfg ids 0 v 2 ProjectionInputScatter = Some (scatter_inputs cfg ids v).
Proof. unfold programInputScatterBankAsync. destruct (_ || _); [by intros []|done]. Qed.
Lemma read_accepted ids bytes : is_Some (readOutputGroupClassAsync cfg ids bytes ProjectionOutput) ->
  readOutputGroupClassAsync cfg ids bytes ProjectionOutput = Some (gather_outputs cfg ids []).
Proof. unfold readOutputGroupClassAsync. destruct (negb _); [by intros []|done]. Qed.

Lemma writeOutput_ok st ids v g m b l1 l2 :
  inv st (mkSystem g m b) -> calls g = l1 ++ WriteOutput ids v :: l2 ->
  exists st', moves st st' /\ inv st' (answer (WriteOutput ids v) (g <| calls := l1 ++ l2 |>) m b).
Proof.
  intros I E. destruct (awaited _ _ _ _ _ _ _ I E eq_refl) as (M & Ht & R & K).
  destruct (awaited_stage _ _ M) as (base & kb & nn & -> & -> & -> & Ha).
  apply (waiting_rest _ _ _ _) in I as I0; [|exact Ht].
  pose proof I0 as [[S (F1 & F2 & F3 & F4 & F5 & F6 & F7 & F8) _ Im Ip _ _] N].
  pose proof S as (Hw & Hi & Hl). pose proof (kC_range _ _ _ Hj _ _ Hw).
  cbn [GemmSystem.answer]. rewrite (write_accepted _ _ Ha). cbn [apply_request]. unfold output_written. cbv zeta. cbn [negb].
  exists (STile base kb nn 0 Acquiring). split; [to_move|].
  answer_to (SProgC base kb nn true) (STile base kb nn 0 Acquiring) g; [| | |exact (fun M' => M')|exact (fun P => P)].
  - split; [exact Hw|]. split; [exact Hi|]. split; [lia|exact Logic.I].
  - answer_flows. split; [exact F6|]. split; [exact Logic.I|exact R].
  - by apply (arrays_loaded j cfg host inputs initials m0 Hj Hfit).
Qed.

Lemma programMatrix_ok st ids v submitted g m b l1 l2 :
  inv st (mkSystem g m b) -> calls g = l1 ++ ProgramMatrix ids v submitted :: l2 ->
  exists st', moves st st' /\ inv st' (answer (ProgramMatrix ids v submitted) (g <| calls := l1 ++ l2 |>) m b).
Proof.
  intros I E. destruct (awaited _ _ _ _ _ _ _ I E eq_refl) as (M & Ht & R & K).
  destruct (awaited_stage _ _ M) as (base & kb & nn & kk & q & -> & -> & -> & Ha).
  apply (waiting_rest _ _ _ _) in I as I0; [|exact Ht].
  pose proof I0 as [[S (F1 & F2 & F3 & F4 & F5 & F6 & F7 & F8) _ Im Ip _ _] N].
  pose proof S as (Hw & Hi & Hk & Hq & _).
  cbn [GemmSystem.answer]. rewrite (program_accepted _ _ Ha). cbn [apply_request]. unfold matrix_programmed. cbv zeta. cbn [negb].
  exists (STile base kb nn kk (Scattering q false)). split; [to_move|].
  answer_to (STile base kb nn kk (Broadcasting q true)) (STile base kb nn kk (Scattering q false)) g; [| | |exact (fun M' => M')|exact (fun P => P)].
  - split; [exact Hw|]. split; [exact Hi|]. split; [exact Hk|exact Hq].
  - answer_flows. split; [exact F6|]. split; [exact F7|exact R].
  - unfold st_weights. cbn [st_base st_kb]. unfold GemmInvariant.st_seq. cbn [st_base st_kb st_n st_k].
    rewrite (weights_at j host base kb nn kk Hw Hk). by apply (arrays_broadcast j cfg host inputs initials m0 Hj Hfit).
Qed.

Lemma scatterInput_ok st ids v g m b l1 l2 :
  inv st (mkSystem g m b) -> calls g = l1 ++ ScatterInput ids v :: l2 ->
  exists st', moves st st' /\ inv st' (answer (ScatterInput ids v) (g <| calls := l1 ++ l2 |>) m b).
Proof.
  intros I E. destruct (awaited _ _ _ _ _ _ _ I E eq_refl) as (M & Ht & R & K).
  destruct (awaited_stage _ _ M) as (base & kb & nn & kk & q & -> & -> & -> & Ha).
  apply (waiting_rest _ _ _ _) in I as I0; [|exact Ht].
  pose proof I0 as [[S (F1 & F2 & F3 & F4 & F5 & F6 & F7 & F8) _ Im Ip _ _] N].
  pose proof S as (Hw & Hi & Hk & Hq).
  cbn [GemmSystem.answer]. rewrite (scatter_accepted _ _ Ha). cbn [apply_request]. unfold input_scattered. cbv zeta. cbn [negb].
  exists (STile base kb nn kk (Launching q)). split; [to_move|].
  answer_to (STile base kb nn kk (Scattering q true)) (STile base kb nn kk (Launching q)) g; [| | |exact (fun M' => M')|exact (fun P => P)].
  - split; [exact Hw|]. split; [exact Hi|]. split; [exact Hk|exact Hq].
  - answer_flows. split; [exact F6|]. split; [exact F7|exact R].
  - unfold st_input. cbn [st_base st_kb]. unfold GemmInvariant.st_seq. cbn [st_base st_kb st_n st_k].
    rewrite (input_at j inputs m0 base kb nn kk Hw Hk). by apply (arrays_scatter j cfg host inputs initials m0 Hj Hfit).
Qed.

(** The sums of a finished tile go to the consumer, unfinished ones back to memory. *)
Lemma readOutput_ok st ids bytes g m b l1 l2 :
  inv st (mkSystem g m b) -> calls g = l1 ++ ReadOutput ids bytes :: l2 ->
  exists st', moves st st' /\ inv st' (answer (ReadOutput ids bytes) (g <| calls := l1 ++ l2 |>) m b).
Proof.
  intros I E. destruct (awaited _ _ _ _ _ _ _ I E eq_refl) as (M & Ht & R & K).
  destruct (awaited_stage _ _ M) as (base & kb & nn & -> & -> & Ha).
  apply (waiting_rest _ _ _ _) in I as I0; [|exact Ht].
  pose proof I0 as [[S (F1 & F2 & F3 & F4 & F5 & F6 & F7 & F8) A Im Ip Io If] N].
  pose proof S as (Hw & Hi). pose proof (kC_range _ _ _ Hj _ _ Hw) as Hkc. pose proof (nC_range _ _ _ Hw) as Hnc.
  pose proof (rows_range _ _ _ Hj) as Hr. pose proof (kTiles_range _ _ _ Hj). pose proof (tiles_range _ _ _ Hj).
  cbn [GemmSystem.answer]. rewrite (read_accepted _ _ Ha). cbn [read_request].
  rewrite (arrays_drained j cfg host inputs initials m0 Hj Hfit base kb nn _ _ b S A). set (v := partial _ _ _ _ _ _ _).
  assert (Hv : Z.of_nat (length v) = rows j * 64) by (by apply partial_length).
  unfold output_read. cbv zeta. rewrite Hv, u32_id, Z.eqb_refl by (unfold in_u32; lia). cbn [negb orb].
  set (g1 := bump drains_ 1 _ <| leaseHeld := false |>).
  destruct F6 as (P1 & P2 & P3 & P4 & P5 & P6). change (kBase g = kb) in P2. change (kCount g = kC kb) in P4.
  change (n g = nn) in P5. change (nBase g = base) in P1.
  change (kBase g1) with (kBase g). change (kCount g1) with (kCount g). rewrite P2, P4, (u32_id (kb + kC kb)) by (unfold in_u32; lia).
  cbn [memory] in Im. apply (memory_drained j host inputs initials m0) in Im as [Im1 Im2].
  destruct (Z.ltb_spec (kb + kC kb) (kTiles j)) as [Hlt|Hge].
  - exists (SSpill base kb nn 0 false). split; [to_move|].
    answer_to (SDrain base kb nn true) (SSpill base kb nn 0 false) g; [| |by apply arrays_quiet|intros _; exact Im1|exact (fun P => P)].
    + split; [exact Hw|]. split; [exact Hi|]. split; [exact Hlt|]. unfold spill_bytes. lia.
    + answer_flows. split; [repeat split; assumption|]. split; [|exact R].
      split; [by apply (partial_address_at j inputs initials Hj base kb nn)|]. split; [reflexivity|]. split; reflexivity.
  - assert (Ek : kb + kC kb = kTiles j) by lia.
    assert (Ev : v = product j host inputs initials m0 (tile_at j (base + nn))) by (unfold v, product; by rewrite Ek).
    set (g2 := _ <| outputs ::= _ |>).
    assert (I2 : forall g', inv (SEnd base kb nn (negb (detachOutput j))) (mkSystem (g2 <| result_ := g' |>) m b)).
    { intros g'. split.
      - split; [exact Hw|]. split; [exact Hi|]. intros _. exact Ek.
      - split; [exact F1|]. split; [reflexivity|]. split; [exact N|]. split; [|split; [|split; [|split; [exact Logic.I|exact R]]]].
        + intros _. split; [|discriminate]. cbn. by rewrite negb_involutive.
        + reflexivity.
        + repeat split; assumption.
      - apply (arrays_calls _ _ _ _ _ _ _ (calls g)); [by apply other_array|]. revert A. by apply arrays_quiet.
      - by apply Im2.
      - apply (prefetch_calls _ _ _ _ _ _ g); [reflexivity|by apply other_prefetch|]. exact Ip.
      - change (outputs g ++ [(tile_at j (u32 (nBase g + n g)), v)] = out0 ++ expected_outputs j host inputs initials m0 (outputs_done j (SEnd base kb nn (negb (detachOutput j))))).
        change (outputs g = out0 ++ expected_outputs j host inputs initials m0 (outputs_done j (SDrain base kb nn true))) in Io.
        rewrite Io, <- app_assoc. f_equal. cbn. rewrite (proj2 (Z.eqb_eq _ _) Ek), P1, P5, u32_id, Ev by (unfold in_u32; lia).
        symmetry. apply expected_snoc. lia.
      - exact If. }
    destruct (detachOutput j).
    + apply (advanced (SDrain base kb nn true) base kb nn), waiting_rest; [apply later_in; [done..|cbn; unfold spill_bytes in *; lia]|apply I2|reflexivity].
    + exists (SEnd base kb nn true). split; [to_move|]. exact (I2 v).
Qed.

End answers.
