(* ===== verification/GemmSteps.v ===== *)
(** * The other steps

    The prefetchers' callbacks, the arrays' multiplies and callbacks, the resumption of an
    output and changes of memory elsewhere: every step of the window GEMM among its
    surroundings keeps its invariant. *)

From Stdlib Require Import ZArith Lia.
From Stdlib Require Import Init.Byte.
From stdpp Require Import base numbers functions list.
From S2P Require Import Prelude RecordUpdate Ieee IeeeArith Fp16 AttentionBase ComputeUnit TileArray ControlTransport WindowGemm GemmValues GemmSystem GemmArrays GemmSlots GemmInvariant GemmFacts GemmSums GemmParts GemmMemory GemmRows GemmRank GemmFlow GemmTasks GemmTiles GemmWindows GemmTick GemmAnswers.
Open Scope Z_scope.
#[local] Opaque mem_bytes.

Section steps.
Context (j : GemmJob) (cfg : TileUnitConfig) (host : Z -> byte) (inputs initials : Z -> Values) (m0 : Z -> byte).
Context (out0 : list (Z * Values)) (fin0 : list bool).
Hypothesis Hj : job_ok j inputs initials.
Hypothesis Hfit : arrays_fit cfg.

Notation inv := (gemm_inv j cfg host inputs initials m0 out0 fin0).
Notation rest := (inv_rest j cfg host inputs initials m0 out0 fin0).
Notation nC := (nC j).
Notation kC := (kC j).
Notation stage_ok := (stage_ok j).
Notation flow_ok := (flow_ok j cfg host inputs initials m0).
Notation arrays_ok := (arrays_ok j host inputs initials m0).
Notation memory_ok := (memory_ok j host inputs initials m0).
Notation prefetch_ok := (prefetch_ok j host inputs m0).
Notation place_ok := (place_ok j).
Notation io_ok := (io_ok j host inputs initials m0).
Notation main_calls := (main_calls j cfg host inputs initials m0).
Notation seq_limit := (seq_limit j).
Notation st_seq := (st_seq j).
Notation moves := (moves j).
Notation rest_view := (rest_view j cfg host inputs initials m0 out0 fin0).
Notation rest_stay := (rest_stay j cfg host inputs initials m0 out0 fin0).
Notation rest_retry := (rest_retry j cfg host inputs initials m0 out0 fin0).
Notation rest_schedule := (rest_schedule j cfg host inputs initials m0 out0 fin0).
Notation inv_step := (inv_step j cfg host inputs initials m0 out0 fin0).
Notation rest_window := (rest_window j cfg host inputs initials m0 out0 fin0).
Notation rest_prepare := (rest_prepare j cfg host inputs initials m0 out0 fin0 Hj).
Notation inv_pumped := (inv_pumped j cfg host inputs initials m0 out0 fin0).
Notation inv_view := (inv_view j cfg host inputs initials m0 out0 fin0).
Notation answer := (answer j cfg host inputs initials).

(** *** The prefetchers *)

Lemma prefetch_call st g m b l1 c l2 :
  inv st (mkSystem g m b) -> calls g = l1 ++ c :: l2 -> prefetch_port (port c) = true ->
  prefetching j st = true /\ prefetch_run j host inputs m0 (st_base j st) (st_kb st) (st_seq st) m g /\ tile_held j st g /\
  (forall p, p <> port c -> on_port p (l1 ++ l2) = on_port p (calls g)).
Proof.
  intros I E Hp. pose proof (inv_prefetch _ _ _ _ _ _ _ _ _ _ I) as P. cbn [gemm memory] in P. unfold GemmInvariant.prefetch_ok in P.
  pose proof (on_port_nil (port c) l1 c l2 eq_refl) as Nn. rewrite <- E in Nn.
  destruct (prefetching j st).
  - destruct P as [P1 P2]. split; [reflexivity|]. split; [exact P1|]. split; [exact P2|].
    intros p Hne. rewrite E. symmetry. by apply on_port_other.
  - destruct P as [W (_ & I2 & I3)]. destruct Nn. destruct (port c); try discriminate Hp; [apply W|exact I2|apply I3].
Qed.
Lemma reading_window st g l1 c l2 :
  stage_ok st -> prefetching j st = true -> tile_held j st g -> calls g = l1 ++ c :: l2 -> input_port (port c) = true ->
  fresh j st = false /\ window_ok j (st_base j st) (st_kb st).
Proof.
  intros S Ep (_ & _ & T3 & _) E Hp. split; [|apply (stage_window j); [exact S| |]; by intros ->].
  destruct (fresh j st); [|reflexivity]. destruct (T3 eq_refl) as (_ & I2 & I3).
  pose proof (on_port_nil (port c) l1 c l2 eq_refl) as Nn. rewrite <- E in Nn. destruct Nn.
  destruct (port c); try discriminate Hp; [exact I2|apply I3].
Qed.
(** A callback of the weight prefetcher. *)
Lemma inv_weights st g g' m m' b :
  inv st (mkSystem g m b) -> prefetching j st = true ->
  prefetch_run j host inputs m0 (st_base j st) (st_kb st) (st_seq st) m g -> tile_held j st g ->
  weight_core g' = weight_core g -> same_ports weight_port g g' -> nextPrefetch g' = nextPrefetch g ->
  (forall q, w_ready (slots g q) = true -> w_ready (slots g' q) = true) ->
  (forall x, ~ in_b j x -> m' x = m x) ->
  weights_inv j (seq_source j (st_base j st) (st_kb st)) (seq_weights j host (st_base j st) (st_kb st)) m' (st_seq st) g' ->
  inv st (mkSystem g' m' b).
Proof.
  intros I Ep (R1 & R2 & R3) T C P En Hr Hm W. pose proof I as [S _ _ _ _ _ _]. pose proof T as (T1 & T2 & T3 & T4).
  assert (Vw : forall {B} (f : ReuseWindowGemm -> B), (forall x, f (weight_core x) = f x) -> f g' = f g).
  { intros B f Hf. by rewrite <- (Hf g'), C, Hf. }
  apply (inv_pumped st g _ m); [exact I|exact (f_equal input_core C)|intros p Hp; apply P; by destruct p| |].
  - intros M. apply (memory_same j host inputs initials m0 Hj st m); [exact S|exact M|].
    intros x Hx. apply Hm. intros Hb. destruct (b_outside j inputs initials Hj x Hb). tauto.
  - intros _. unfold GemmInvariant.prefetch_ok. rewrite Ep. split; [split; [exact W|split; [by rewrite En|]]|].
    + apply (inputs_core j _ _ _ _ _ g); [exact C|exact P|]. destruct (fresh j st) eqn:Ef.
      { apply idle_inputs; [by apply T3|]. apply T2. by destruct st. }
      assert (Hw : window_ok j (st_base j st) (st_kb st)) by (apply (stage_window j); [exact S| |]; by intros ->).
      apply (inputs_memory j _ _) with (m := m); [|exact R3| |].
      * intros s. by apply (seq_bytes_blen _ _ _ _ Hj (st_base j st)).
      * intros s a Hs Ha. apply Hm. intros Hb. destruct (b_outside j inputs initials Hj a Hb) as [_ D]. apply D.
        apply (window_input_inside _ _ _ Hj (st_base j st) (st_kb st) (s mod kC (st_kb st))); [exact Hw|by apply (mod_kC _ _ _ Hj (st_base j st))|exact Ha].
      * intros _. by apply (held_lt j host inputs initials m0 Hj).
    + rewrite <- (Vw _ preparedSeq (fun _ => eq_refl)) in T1, T2.
      split; [intros H; destruct (T1 H) as [E1 E2]; split; [exact E1|by apply Hr]|]. split; [exact T2|]. split.
      * intros Hf. apply (idle_core j g g' C P). by apply T3.
      * intros Hs. rewrite (Vw _ (input_is_ready j) (fun _ => eq_refl)). by apply T4.
Qed.
(** A callback of the activation reads. *)
Lemma inv_inputs st g g' m b :
  inv st (mkSystem g m b) -> prefetching j st = true -> fresh j st = false ->
  prefetch_run j host inputs m0 (st_base j st) (st_kb st) (st_seq st) m g -> tile_held j st g ->
  input_core g' = input_core g -> same_ports input_port g g' -> preparedSeq g' = preparedSeq g ->
  (input_is_ready j g = true -> input_is_ready j g' = true) ->
  inputs_inv j (seq_bytes j inputs m0 (st_kb st)) (seq_input j (st_kb st)) m (st_seq st) (seq_limit (st_base j st) (st_kb st)) g' ->
  inv st (mkSystem g' m b).
Proof.
  intros I Ep Ef (R1 & R2 & R3) (T1 & T2 & T3 & T4) C P En Hr W.
  assert (Es : slots g' = slots g) by (change (slots (input_core g') = slots (input_core g)); by rewrite C).
  assert (Ex : nextPrefetch g' = nextPrefetch g) by (change (nextPrefetch (input_core g') = nextPrefetch (input_core g)); by rewrite C).
  apply (inv_pumped st g _ m); [exact I|exact (f_equal weight_core C)|intros p Hp; apply P; by destruct p|exact (fun M => M)|].
  intros _. unfold GemmInvariant.prefetch_ok. rewrite Ep. split; [split; [|split; [by rewrite Ex|exact W]]|].
  - by apply (weights_core j _ _ _ _ g).
  - split; [rewrite En, Es; exact T1|]. split; [rewrite En; exact T2|]. split; [rewrite Ef; discriminate|]. intros Hs. by apply Hr, T4.
Qed.

Lemma fetchWeight_ok st i src dst g m b l1 l2 :
  inv st (mkSystem g m b) -> calls g = l1 ++ FetchWeight i src dst :: l2 ->
  inv st (answer (FetchWeight i src dst) (g <| calls := l1 ++ l2 |>) m b).
Proof.
  intros I E. destruct (prefetch_call _ _ _ _ _ _ _ I E eq_refl) as (Ep & R & T & K). pose proof R as (R1 & _).
  destruct (weight_fetched_ok j host _ _ (seq_weights_read j host (st_base j st) (st_kb st)) (ok_slots _ _ _ Hj) (ok_b _ _ _ Hj)
    m (st_seq st) g l1 l2 i src dst R1 E) as (Hd & Hi & W).
  cbn [GemmSystem.answer]. apply (inv_weights st g _ m); [exact I|exact Ep|exact R|exact T|reflexivity| |reflexivity| | |exact W].
  - intros p Hp. apply K. by destruct p.
  - intros q Hq. unfold weight_fetched. cbn [negb]. gemm_fields. destruct (decide (q = i)) as [->|H]; [by rewrite fn_lookup_insert|by rewrite fn_lookup_insert_ne].
  - intros x Hx. apply write_outside. rewrite mem_bytes_blen by lia. unfold in_b in Hx. lia.
Qed.
Lemma readWeight_ok st i addr len g m b l1 l2 :
  inv st (mkSystem g m b) -> calls g = l1 ++ ReadWeight i addr len :: l2 ->
  inv st (answer (ReadWeight i addr len) (g <| calls := l1 ++ l2 |>) m b).
Proof.
  intros I E. destruct (prefetch_call _ _ _ _ _ _ _ I E eq_refl) as (Ep & R & T & K). pose proof R as (R1 & _).
  destruct (weight_read_ok j host _ _ (seq_weights_read j host (st_base j st) (st_kb st)) (ok_slots _ _ _ Hj) (ok_max _ _ _ Hj) (ok_b _ _ _ Hj)
    m (st_seq st) g l1 l2 i addr len R1 E) as (Hl & W).
  cbn [GemmSystem.answer]. revert W. set (bs := mem_bytes m addr len). assert (Hb : blen bs = len) by (by apply mem_bytes_blen). clearbody bs.
  unfold weight_read. rewrite Hb, Z.eqb_refl. cbn [negb orb]. intros W.
  apply (inv_weights st g _ m); [exact I|exact Ep|exact R|exact T|reflexivity| |reflexivity| |reflexivity|exact W].
  - intros p Hp. apply K. by destruct p.
  - intros q Hq. gemm_fields. destruct (decide (q = i)) as [->|H]; [|by rewrite !fn_lookup_insert_ne].
    rewrite !fn_lookup_insert. read_fields. destruct (_ =? _); [reflexivity|exact Hq].
Qed.

Lemma readInput_ok st addr len g m b l1 l2 :
  inv st (mkSystem g m b) -> calls g = l1 ++ ReadInput addr len :: l2 ->
  inv st (answer (ReadInput addr len) (g <| calls := l1 ++ l2 |>) m b).
Proof.
  intros I E. destruct (prefetch_call _ _ _ _ _ _ _ I E eq_refl) as (Ep & R & T & K). pose proof R as (_ & _ & R3).
  destruct (reading_window st g _ _ _ (inv_stage _ _ _ _ _ _ _ _ _ _ I) Ep T E eq_refl) as [Ef Hw].
  destruct (input_read_ok j _ _ (ok_max _ _ _ Hj) (fun s => seq_bytes_blen _ _ _ _ Hj (st_base j st) _ s Hw)
    (fun s => seq_input_range _ host _ _ m0 Hj (st_base j st) _ s Hw) m (st_seq st) _ g l1 l2 addr len R3 E) as (Hl & W).
  cbn [GemmSystem.answer]. revert W. set (bs := mem_bytes m addr len). assert (Hb : blen bs = len) by (by apply mem_bytes_blen). clearbody bs.
  unfold input_read. rewrite Hb, Z.eqb_refl. cbn [negb orb]. intros W.
  apply (inv_inputs st g); [exact I|exact Ep|exact Ef|exact R|exact T| | | | |exact W].
  - by destruct (_ =? _).
  - intros p Hp. transitivity (on_port p (l1 ++ l2)); [by destruct (_ =? _)|]. apply K. by destruct p.
  - by destruct (_ =? _).
  - unfold input_is_ready. destruct (inputPrefetch j); destruct (_ =? _); done.
Qed.
Lemma readInputSlot_ok st i addr len g m b l1 l2 :
  inv st (mkSystem g m b) -> calls g = l1 ++ ReadInputSlot i addr len :: l2 ->
  inv st (answer (ReadInputSlot i addr len) (g <| calls := l1 ++ l2 |>) m b).
Proof.
  intros I E. destruct (prefetch_call _ _ _ _ _ _ _ I E eq_refl) as (Ep & R & T & K). pose proof R as (_ & _ & R3).
  destruct (reading_window st g _ _ _ (inv_stage _ _ _ _ _ _ _ _ _ _ I) Ep T E eq_refl) as [Ef Hw].
  destruct (input_slot_read_ok j _ _ (ok_max _ _ _ Hj) (fun s => seq_bytes_blen _ _ _ _ Hj (st_base j st) _ s Hw)
    (fun s => seq_input_range _ host _ _ m0 Hj (st_base j st) _ s Hw) m (st_seq st) _ g l1 l2 i addr len R3 E) as (Hl & W).
  cbn [GemmSystem.answer]. revert W. set (bs := mem_bytes m addr len). assert (Hb : blen bs = len) by (by apply mem_bytes_blen). clearbody bs.
  unfold input_slot_read. rewrite Hb, Z.eqb_refl. cbn [negb orb]. intros W.
  apply (inv_inputs st g); [exact I|exact Ep|exact Ef|exact R|exact T|reflexivity| |reflexivity| |exact W].
  - intros p Hp. apply K. by destruct p.
  - unfold input_is_ready. destruct (inputPrefetch j); [|done]. gemm_fields.
    destruct (decide (preparedSeq g mod 2 = i)) as [->|H]; [|by rewrite !fn_lookup_insert_ne].
    rewrite !fn_lookup_insert. read_fields. by destruct (_ =? _).
Qed.

(** *** The arrays *)

Lemma inv_array st g g' m b b' :
  inv st (mkSystem g m b) -> flow_core g' = flow_core g -> prefetch_view g' = prefetch_view g ->
  outputs g' = outputs g -> finished g' = finished g ->
  (forall p, array_port p = false -> on_port p (calls g') = on_port p (calls g)) ->
  (arrays_ok st (remaining g) (calls g) b -> arrays_ok st (remaining g') (calls g') b') ->
  inv st (mkSystem g' m b').
Proof.
  intros [I1 I2 I3 I4 I5 I6 I7] E V O F K A. split; cbn [gemm memory bank] in *.
  - exact I1.
  - rewrite K by reflexivity. apply (flow_frame j cfg host inputs initials m0 st g); [exact E|exact I2].
  - by apply A.
  - exact I4.
  - apply (prefetch_calls _ _ _ _ _ _ g); [exact V|intros p Hp; apply K; by destruct p|exact I5].
  - by rewrite O.
  - by rewrite F.
Qed.
Lemma arrayMac_ok st id mode grp count launched g m b l1 l2 :
  inv st (mkSystem g m b) -> calls g = l1 ++ ArrayMac id mode grp count launched true :: l2 ->
  inv st (answer (ArrayMac id mode grp count launched true) (g <| calls := l1 ++ l2 |>) m b).
Proof.
  intros I E. cbn [GemmSystem.answer]. unfold array_done. cbv zeta.
  set (g1 := _ <| remaining ::= _ |>).
  assert (I1 : inv st (mkSystem g1 m b)).
  { apply (inv_array st g _ m b); [exact I|reflexivity|reflexivity|reflexivity|reflexivity| |].
    - intros p Hp. change (calls g1) with (l1 ++ l2). rewrite E. symmetry. apply on_port_other. by destruct p.
    - rewrite E. apply (arrays_done j host inputs initials m0 Hj). }
  destruct (remaining g1 grp =? 0); [|exact I1]. by apply (inv_view st g1).
Qed.
Lemma multiply_ok st id mode grp count launched g m b l1 l2 :
  inv st (mkSystem g m b) -> calls g = l1 ++ ArrayMac id mode grp count launched false :: l2 ->
  inv st (mkSystem (g <| calls := l1 ++ ArrayMac id mode grp count launched true :: l2 |>) m (array_multiply cfg id mode b)).
Proof.
  intros I E. apply (inv_array st g _ m b); [exact I|reflexivity|reflexivity|reflexivity|reflexivity| |].
  - intros p Hp. cbn [calls]. rewrite E. apply replaced_other; [reflexivity|]. by destruct p.
  - rewrite E. apply (arrays_multiply j cfg host inputs initials m0 Hj Hfit). exact (inv_stage _ _ _ _ _ _ _ _ _ _ I).
Qed.

(** *** The surroundings *)

Lemma resumeOutput_ok st g m b : inv st (mkSystem g m b) ->
  exists st', (moves st st' \/ st' = st /\ resumeOutput j g = g <| outputWaiting := false |>) /\ inv st' (mkSystem (resumeOutput j g) m b).
Proof.
  intros I. unfold resumeOutput. destruct (outputWaiting g) eqn:Ew; cbn [negb].
  2:{ exists st. split; [|exact I]. right. split; [reflexivity|]. destruct g; cbn in Ew. by subst. }
  cbv zeta. set (g1 := g <| outputWaiting := false |>). change (outputAdvanced g1) with (outputAdvanced g).
  pose proof I as [S (F1 & F2 & F3 & F4 & F5 & F6 & F7 & F8) A M P O F]. cbn [gemm memory bank] in *.
  destruct (F4 Ew) as [Ea Hd]. destruct (parked_at st) eqn:Ep; rewrite Ea; cbn [negb].
  - destruct st as [| | | | | | | | | |base kb nn []| |]; try discriminate Ep. destruct S as (Hw & Hi & Hk).
    destruct (advanced j cfg host inputs initials m0 out0 fin0 Hj (SEnd base kb nn true) base kb nn (g1 <| result_ := [] |>) m b) as (st' & Mv & I').
    + apply later_in; [done..|cbn; lia].
    + apply (waiting_rest j cfg host inputs initials m0 out0 fin0); [|reflexivity].
      split; [split; [exact Hw|split; [exact Hi|discriminate]]| |exact A|exact M|exact P|exact O|exact F].
      split; [exact F1|]. split; [exact F2|]. split; [exact F3|]. split; [discriminate|]. split; [discriminate|].
      split; [exact F6|]. split; [exact F7|exact F8].
    + exists st'. split; [by left|exact I'].
  - exists st. split; [by right|]. split; [exact S| |exact A|exact M|exact P|exact O|exact F].
    split; [exact F1|]. split; [exact F2|]. split; [exact F3|]. split; [discriminate|]. split; [rewrite Ep; discriminate|].
    split; [by destruct st|]. split; [by destruct st|exact F8].
Qed.
Lemma other_ok st g m m' b : inv st (mkSystem g m b) -> (forall a, owned j a -> m' a = m a) -> inv st (mkSystem g m' b).
Proof.
  intros I H. assert (Ho : forall x, in_b j x \/ in_inputs j x \/ in_c j x -> m' x = m x).
  { intros x Hx. apply H, (regions_owned j inputs initials Hj). unfold in_inputs in Hx. destruct (ga_inputAddress (args j)); tauto. }
  apply (inv_pumped st g g m); [exact I|reflexivity|reflexivity| |]; intros Q.
  - apply (memory_same j host inputs initials m0 Hj st m); [exact (inv_stage _ _ _ _ _ _ _ _ _ _ I)|exact Q|]. intros x Hx. apply Ho. tauto.
  - apply (prefetch_same j host inputs initials m0 Hj st m); [exact (inv_stage _ _ _ _ _ _ _ _ _ _ I)|exact Q|]. intros x Hx. apply Ho. tauto.
Qed.

(** The callback of the call the job waits for moves it on; the others keep its stage. *)
Lemma main_answer_ok st c g m b l1 l2 :
  inv st (mkSystem g m b) -> calls g = l1 ++ c :: l2 -> port c = PMain ->
  exists st', moves st st' /\ inv st' (answer c (g <| calls := l1 ++ l2 |>) m b).
Proof.
  intros I E Hc. destruct c as [i src dst|i addr len|addr len|i addr len|addr len|addr bs|kk|tile|ids v|ids v sub|ids v|id mode grp count launched computed|ids bytes];
    try discriminate Hc.
  - by apply (readBack_ok j cfg host inputs initials m0 out0 fin0 Hj st).
  - by apply (writeGM_ok j cfg host inputs initials m0 out0 fin0 Hj st).
  - by apply (askInput_ok j cfg host inputs initials m0 out0 fin0 Hj st).
  - by apply (askInitial_ok j cfg host inputs initials m0 out0 fin0 Hj st).
  - by apply (writeOutput_ok j cfg host inputs initials m0 out0 fin0 Hj Hfit st).
  - by apply (programMatrix_ok j cfg host inputs initials m0 out0 fin0 Hj Hfit st).
  - by apply (scatterInput_ok j cfg host inputs initials m0 out0 fin0 Hj Hfit st).
  - by apply (readOutput_ok j cfg host inputs initials m0 out0 fin0 Hj Hfit st).
Qed.
Lemma side_answer_ok st c g m b l1 l2 :
  inv st (mkSystem g m b) -> calls g = l1 ++ c :: l2 -> port c <> PMain -> answerable c = true ->
  inv st (answer c (g <| calls := l1 ++ l2 |>) m b).
Proof.
  intros I E Hp Hc. destruct c as [i src dst|i addr len|addr len|i addr len|addr len|addr bs|kk|tile|ids v|ids v sub|ids v|id mode grp count launched computed|ids bytes];
    try by destruct Hp.
  - by apply fetchWeight_ok.
  - by apply readWeight_ok.
  - by apply readInput_ok.
  - by apply readInputSlot_ok.
  - cbn in Hc. subst computed. by apply arrayMac_ok.
Qed.
Lemma step_ok st s s' : inv st s -> settled st = true -> gemm_step j cfg host inputs initials s s' ->
  exists st', settled st' = true /\ inv st' s'.
Proof.
  intros I Hs H. destruct H as [re now g m b|g m b|c g m b|c l1 l2 g m b E Hc|id mode grp count launched l1 l2 g m b E|m' g m b H].
  - destruct (tick_ok j cfg host inputs initials m0 out0 fin0 Hj Hfit st re now g m b I Hs) as (st' & [S' _] & I'). by exists st'.
  - destruct (resumeOutput_ok st g m b I) as (st' & [[S' _]|[-> _]] & I'); by exists st' || by exists st.
  - exists st. split; [exact Hs|]. by apply (inv_view st g).
  - destruct (decide (port c = PMain)) as [Hp|Hp].
    + destruct (main_answer_ok st c g m b l1 l2 I E Hp) as (st' & [S' _] & I'). by exists st'.
    + exists st. split; [exact Hs|]. by apply side_answer_ok.
  - exists st. split; [exact Hs|]. by apply multiply_ok.
  - exists st. split; [exact Hs|]. by apply (other_ok st g m).
Qed.
End steps.
