(* ===== verification/GemmProgress.v ===== *)
(** * The window GEMM comes to its end

    From every state of the invariant the surroundings can bring the job to its end: the
    tiles a step waits for are read piece by piece, the arrays finish, the awaited call is
    answered, and each moves the job to a later stage. *)

From Stdlib Require Import ZArith Lia.
From Stdlib Require Import Init.Byte.
From stdpp Require Import base numbers functions list relations.
From S2P Require Import Prelude RecordUpdate Ieee IeeeArith Fp16 AttentionBase ComputeUnit TileArray ControlTransport WindowGemm GemmValues GemmSystem GemmArrays GemmSlots GemmPumps GemmInvariant GemmFacts GemmSums GemmParts GemmMemory GemmRows GemmRank GemmFlow GemmTasks GemmTiles GemmWindows GemmTick GemmAnswers GemmSteps.
Open Scope Z_scope.
#[local] Opaque mem_bytes.

Lemma on_port_split p cs c : on_port p cs = [c] -> exists l1 l2, cs = l1 ++ c :: l2 /\ port c = p.
Proof.
  intros E. assert (H : c ∈ on_port p cs) by (rewrite E; by apply list_elem_of_singleton).
  apply list_elem_of_filter in H as [Hp H]. apply list_elem_of_split in H as (l1 & l2 & ->). by exists l1, l2.
Qed.

Section progress.
Context (j : GemmJob) (cfg : TileUnitConfig) (host : Z -> byte) (inputs initials : Z -> Values) (m0 : Z -> byte).
Context (out0 : list (Z * Values)) (fin0 : list bool).
Hypothesis Hj : job_ok j inputs initials.
Hypothesis Hfit : arrays_fit cfg.

Notation inv := (gemm_inv j cfg host inputs initials m0 out0 fin0).
Notation rest := (inv_rest j cfg host inputs initials m0 out0 fin0).
Notation nC := (nC j).
Notation kC := (kC j).
Notation stage_ok := (stage_ok j).
Notation flow_ok := (flow_ok j cfg host inputs initials m0).
Notation arrays_ok := (arrays_ok j host inputs initials m0).
Notation memory_ok := (memory_ok j host inputs initials m0).
Notation prefetch_ok := (prefetch_ok j host inputs m0).
Notation place_ok := (place_ok j).
Notation io_ok := (io_ok j host inputs initials m0).
Notation main_calls := (main_calls j cfg host inputs initials m0).
Notation seq_limit := (seq_limit j).
Notation st_seq := (st_seq j).
Notation moves := (moves j).
Notation rest_view := (rest_view j cfg host inputs initials m0 out0 fin0).
Notation rest_stay := (rest_stay j cfg host inputs initials m0 out0 fin0).
Notation rest_retry := (rest_retry j cfg host inputs initials m0 out0 fin0).
Notation rest_schedule := (rest_schedule j cfg host inputs initials m0 out0 fin0).
Notation inv_step := (inv_step j cfg host inputs initials m0 out0 fin0).
Notation rest_window := (rest_window j cfg host inputs initials m0 out0 fin0).
Notation rest_prepare := (rest_prepare j cfg host inputs initials m0 out0 fin0 Hj).
Notation inv_pumped := (inv_pumped j cfg host inputs initials m0 out0 fin0).
Notation inv_view := (inv_view j cfg host inputs initials m0 out0 fin0).
Notation answer := (answer j cfg host inputs initials).
Notation ready := (ready j).
Notation step := (gemm_step j cfg host inputs initials).
Hypothesis Hfan : broadcast_width j <= matrixBroadcastMaxFanout cfg.
Hypothesis Hlook : 1 <= gmLookahead j <= 4.
Hypothesis Hseq : tile_count j * kTiles j < 2 ^ 32 - 8.

(** *** The tiles of a step arrive *)

(** Pieces of a weight tile, and of an activation tile, that are still to come. *)
Definition weight_left (s : WeightSlot) : Z :=
  if w_dma s then 20000 else 2 * (8192 - w_offset s) - (if w_pending s then 1 else 0).
Definition input_left (g : ReuseWindowGemm) : Z := 2 * (tile_bytes j - input_offset j g) - (if input_asked j g then 1 else 0).
Definition left_of (st : GemmStage) (g : ReuseWindowGemm) : Z :=
  match st with
  | STile _ _ _ _ Acquiring => weight_left (slots g (st_seq st mod slotCount j))
  | STile _ _ _ _ (Scattering _ false) => input_left g
  | _ => 0
  end.
(** What one step does for a stage that is not ready. *)
Definition fed (st : GemmStage) (s : GemmSystem) : Prop :=
  exists s', step s s' /\
    ((inv st s' /\ (ready st (gemm s') \/ 0 < left_of st (gemm s) /\ left_of st (gemm s') < left_of st (gemm s))) \/
     (exists st', moves st st' /\ inv st' s')).

Lemma slots_slot s g : slots (prepare_slot j s g) = slots g.
Proof using Type. unfold prepare_slot. destruct (active g) eqn:E; cbn [negb]; [|done]. unfold finish. rewrite E. set (sl := inputSlots g _). by destruct (i_valid sl), (i_seq sl =? s). Qed.
Lemma slots_prepare s g : slots (prepareInput j s g) = slots g.
Proof using Type.
  unfold prepareInput. destruct (_ =? s); [done|]. cbv zeta. destruct (inputPrefetch j); [|done].
  set (g1 := bump_if _ _ _). assert (E1 : slots g1 = slots g) by (unfold g1; by destruct (_ && _)). clearbody g1.
  set (g2 := if s <? _ then _ else g1). assert (E2 : slots g2 = slots g) by (unfold g2; destruct (_ <? _); [by rewrite slots_slot|done]). clearbody g2.
  set (g3 := if _ : bool then _ else g2). assert (E3 : slots g3 = slots g) by (unfold g3; destruct (_ <? _); [by rewrite slots_slot|done]). clearbody g3.
  by destruct (active g3).
Qed.
(** A tile that is not there leaves the slots to the pumps. *)
Lemma acquireTile_waits g : w_ready (slots g (currentSequence j g mod slotCount j)) = false -> slots (acquireTile j g) = slots g.
Proof using Type.
  intros H. unfold acquireTile. cbv zeta. change (currentSequence j (set_phase 2 g)) with (currentSequence j g).
  change (slots (set_phase 2 g)) with (slots g). rewrite H. cbn [negb orb].
  change (slots ((if earlyA j then prepareInput j (currentSequence j g) (set_phase 2 g) else set_phase 2 g)) = slots g).
  destruct (earlyA j); [by rewrite slots_prepare|done].
Qed.
Lemma programA_waits re g : input_is_ready j g = false -> programA j cfg re g = schedule ProgramA (bump waitA_ 1 (set_phase 4 g)).
Proof using Type. intros H. unfold programA. cbv zeta. change (input_is_ready j (set_phase 4 g)) with (input_is_ready j g). by rewrite H. Qed.
Lemma counters_fields g : weight_fields j (tick_counters g) = weight_fields j g /\ input_fields (tick_counters g) = input_fields g.
Proof using Type.
  unfold tick_counters. cbv zeta. set (g1 := bump (phases_ (phase g)) 1 (bump activeCycles_ 1 g)).
  set (g2 := if outputWaiting g1 then _ else g1).
  assert (E : weight_fields j g2 = weight_fields j g /\ input_fields g2 = input_fields g) by (unfold g2; destruct (outputWaiting g1); [by destruct (computing g1)|done]).
  clearbody g2. by destruct (_ && _).
Qed.

Lemma seq_limit_le base kb : window_ok j base kb -> seq_limit base kb <= tile_count j * kTiles j.
Proof using Hj.
  intros Hw. pose proof (kC_range _ _ _ Hj _ _ Hw). pose proof (nC_range _ _ _ Hw). destruct Hw as (H1 & _ & H3 & _).
  unfold GemmInvariant.seq_limit. destruct (bridgeWeights j); nia.
Qed.
(** One tick asks for the next piece of the weights. *)
Lemma tick_asks_weight base kb nn kk g m b :
  let st := STile base kb nn kk Acquiring in let q := st_seq st mod slotCount j in
  inv st (mkSystem g m b) -> asking (st_seq st) (slots g q) -> w_ready (slots g q) = false ->
  slots (tick j cfg all_yes (cycle g) g) q = asked true (slots g q).
Proof using Hj Hlook Hseq.
  intros st q I As Hr. destruct (tick_runs j cfg host inputs initials m0 out0 fin0 Hj st all_yes (cycle g) g m b AcquireTile I eq_refl) as (R & (_ & K & _) & ->).
  pose proof (tile_seq j cfg host inputs initials m0 out0 fin0 Hj base kb nn kk Acquiring _ m b R) as Eq. fold st in Eq.
  set (g1 := g <| cycle := cycle g |>) in *. destruct (counters_fields g1) as [Cw _]. set (g1' := tick_counters g1) in *. injection Cw as Cs Ca Cc.
  assert (Ha : active g = true) by (destruct I as [_ (F1 & _) _ _ _ _ _]; exact F1).
  pose proof (inv_stage _ _ _ _ _ _ _ _ _ _ I) as S. destruct (prepares_seq j inputs initials Hj st S eq_refl) as (_ & _ & Hs).
  destruct (rest_window st _ _ _ R eq_refl) as (Hw & _). pose proof (seq_limit_le _ _ Hw) as Hl.
  assert (Ec : currentSequence j g1' = st_seq st).
  { rewrite Cc. assert (Rg : rest st (g <| next := None |>) m b) by (by apply rest_of).
    exact (tile_seq j cfg host inputs initials m0 out0 fin0 Hj base kb nn kk Acquiring _ m b Rg). }
  assert (Hlim : st_seq st + gmLookahead j < 2 ^ 32) by (cbn [st_base st_kb st] in *; lia).
  cbn [run_task]. set (g2 := tick_transfers j all_yes g1') in *. 
  rewrite acquireTile_waits; [|rewrite Eq; change (w_ready (slots g2 q) = false); rewrite K; exact Hr].
  change (slots g2 q = asked true (slots g q)).
  pose proof (transfers_weight j (ok_slots _ _ _ Hj) ltac:(lia) all_yes (fun _ => eq_refl) g1' (st_seq st)) as T. cbv zeta in T.
  fold q in T. rewrite Ca, Cs in T. change (active g1) with (active g) in T. change (slots g1) with (slots g) in T. apply T; [exact Ha|exact Ec|lia|exact Hlim|exact As].
Qed.
(** And of the activations. *)
Lemma tick_asks_input base kb nn kk q g m b :
  let st := STile base kb nn kk (Scattering q false) in
  inv st (mkSystem g m b) -> input_missing j g = true -> input_is_ready j g = false ->
  input_asked j (tick j cfg all_yes (cycle g) g) = true /\ input_offset j (tick j cfg all_yes (cycle g) g) = input_offset j g.
Proof using Hj.
  intros st I Hm Hr. destruct (tick_runs j cfg host inputs initials m0 out0 fin0 Hj st all_yes (cycle g) g m b ProgramA I eq_refl) as (_ & (_ & _ & K) & ->).
  set (g1 := g <| cycle := cycle g |>) in *. destruct (counters_fields g1) as [_ Ci]. set (g1' := tick_counters g1) in *.
  pose proof (inv_stage _ _ _ _ _ _ _ _ _ _ I) as S. destruct (prepares_seq j inputs initials Hj st S eq_refl) as (_ & _ & Hs).
  pose proof (seq_limit_range _ _ _ Hj _ _ (proj1 S)) as Hl. cbn [st_base st_kb st] in Hs.
  pose proof I as [_ (F1 & _) _ _ [_ (T1 & _)] _ _]. destruct (T1 eq_refl) as [Ep _]. cbn [gemm] in F1, Ep.
  apply (input_view j) in Ci as (C1 & C2 & C3 & C4 & C5).
  destruct (transfers_input j all_yes (fun _ => eq_refl) g1') as [<- E2]; [by rewrite C4|rewrite C5; change (0 <= preparedSeq g < 2 ^ 32); lia|by rewrite C3|].
  set (g2 := tick_transfers j all_yes g1') in *.
  cbn [run_task]. rewrite programA_waits by (change (input_is_ready j g2 = false); by rewrite K). split; [reflexivity|].
  change (input_offset j g2 = input_offset j g). rewrite E2. exact C2.
Qed.

(** *** One piece *)

Lemma side_step st p c g m b : inv st (mkSystem g m b) -> on_port p (calls g) = [c] -> p <> PMain -> answerable c = true ->
  exists l1 l2, calls g = l1 ++ c :: l2 /\ step (mkSystem g m b) (answer c (g <| calls := l1 ++ l2 |>) m b) /\
    inv st (answer c (g <| calls := l1 ++ l2 |>) m b).
Proof.
  intros I E Hp Ha. apply on_port_split in E as (l1 & l2 & E & <-). exists l1, l2. split; [exact E|].
  split; [by constructor|]. by apply (side_answer_ok j cfg host inputs initials m0 out0 fin0 Hj st).
Qed.
Lemma tick_fed st t g m b :
  inv st (mkSystem g m b) -> settled st = true -> task_of st = Some t ->
  (let g' := tick j cfg all_yes (cycle g) g in 0 < left_of st g /\ left_of st g' < left_of st g) ->
  fed st (mkSystem g m b).
Proof.
  intros I Hs Ht Hl. destruct (tick_ok j cfg host inputs initials m0 out0 fin0 Hj Hfit st all_yes (cycle g) g m b I Hs) as (st' & [S' G] & I').
  exists (mkSystem (tick j cfg all_yes (cycle g) g) m b). split; [constructor|]. destruct G as [L|[-> _]].
  - right. exists st'. by split.
  - left. split; [exact I'|]. by right.
Qed.

Lemma feed_weight base kb nn kk g m b :
  let st := STile base kb nn kk Acquiring in
  inv st (mkSystem g m b) -> w_ready (slots g (st_seq st mod slotCount j)) = false -> fed st (mkSystem g m b).
Proof.
  intros st I Hr. set (q := st_seq st mod slotCount j) in *.
  pose proof (inv_stage _ _ _ _ _ _ _ _ _ _ I) as S. destruct (prepares_seq j inputs initials Hj st S eq_refl) as (_ & _ & Hs).
  pose proof (ok_slots _ _ _ Hj) as Hsl. pose proof (ok_max _ _ _ Hj) as Hmx.
  pose proof I as [_ _ _ _ [((_ & _ & W3 & W4) & R2 & _) _] _ _]. cbn [gemm memory] in *.
  destruct (W4 (st_seq st)) as [Hv Hq]; [cbn [st_base st_kb st] in *; lia|]. fold q in Hv, Hq.
  destruct (W3 q) as [[F _]|(_ & _ & B)]; [congruence|]. rewrite Hq in B.
  remember (slots g q) as w eqn:Ew. remember (on_port (PWeight q) (calls g)) as cs eqn:Ec.
  destruct B as [bytes Hb|off bytes p H1 H2 H3 H4|off]; [| |discriminate Hr].
  - edestruct (side_step st) as (l1 & l2 & _ & St & I'); [exact I|exact (eq_sym Ec)|discriminate|reflexivity|].
    eexists. split; [exact St|]. left. split; [exact I'|]. right. cbn [left_of st gemm]. fold q. rewrite <- Ew.
    cbn [GemmSystem.answer gemm]. unfold weight_fetched. cbn [negb]. gemm_fields. rewrite fn_lookup_insert, <- Ew. unfold weight_left. read_fields. cbn. lia.
  - destruct p.
    + edestruct (side_step st) as (l1 & l2 & _ & St & I'); [exact I|exact (eq_sym Ec)|discriminate|reflexivity|].
      eexists. split; [exact St|]. left. split; [exact I'|]. cbn [ready left_of st gemm GemmSystem.answer]. fold q. rewrite <- Ew.
      unfold weight_read. rewrite mem_bytes_blen, Z.eqb_refl by lia. cbn [negb orb]. gemm_fields. rewrite !fn_lookup_insert, <- Ew. read_fields.
      cbn [w_offset]. destruct (Z.eqb_spec (off + Z.min (localMax j) (8192 - off)) 8192); [by left|right]. unfold weight_left. read_fields. cbn. lia.
    + apply (tick_fed st AcquireTile); [exact I|done|done|]. cbv zeta. cbn [left_of st]. fold q.
      pose proof (tick_asks_weight base kb nn kk g m b I) as T. fold st q in T. rewrite T by (rewrite <- Ew; done).
      rewrite <- Ew. unfold asked, weight_left. read_fields. cbn. lia.
Qed.

Lemma tick_feeds_input base kb nn kk q g m b :
  let st := STile base kb nn kk (Scattering q false) in
  inv st (mkSystem g m b) -> input_missing j g = true -> input_is_ready j g = false ->
  input_asked j g = false -> 0 <= input_offset j g < tile_bytes j -> fed st (mkSystem g m b).
Proof.
  intros st I Hm Hr Ha Ho. apply (tick_fed st ProgramA); [exact I|done|done|]. cbv zeta. cbn [left_of st].
  destruct (tick_asks_input base kb nn kk q g m b I Hm Hr) as [T1 T2]. unfold input_left. rewrite T1, T2, Ha. lia.
Qed.
Lemma feed_input base kb nn kk q g m b :
  let st := STile base kb nn kk (Scattering q false) in
  inv st (mkSystem g m b) -> input_is_ready j g = false -> fed st (mkSystem g m b).
Proof.
  intros st I Hr. pose proof (ok_max _ _ _ Hj) as Hmx.
  pose proof (inv_stage _ _ _ _ _ _ _ _ _ _ I) as S. destruct (prepares_seq j inputs initials Hj st S eq_refl) as (_ & _ & Hs).
  pose proof I as [_ _ _ _ [(_ & _ & R3) (T1 & _)] _ _]. cbn [gemm memory] in *. destruct (T1 eq_refl) as [Ep _].
  cbn [st_base st_kb st] in Hs. fold st in Hs, Ep.
  pose proof (tick_feeds_input base kb nn kk q g m b I) as Tk. fold st in Tk.
  unfold inputs_inv in R3. unfold input_missing, input_is_ready, input_asked, input_offset in Tk, Hr. rewrite Ep in Tk, Hr.
  destruct (inputPrefetch j) eqn:Epf.
  - destruct R3 as [[B V] _]. specialize (V Ep (proj2 Hs)). set (i := st_seq st mod 2) in *. destruct (B i) as [[F _]|(_ & _ & _ & C)]; [congruence|].
    destruct (snapshot_unread _ _ _ _ _ _ _ _ C Hr) as (addr & off & bytes & p & vs & Ew & (_ & Ho & Hb & _) & Ec).
    rewrite Ew in Tk, Hr. cbn [i_valid i_ready i_pending i_offset] in *. destruct p; [|by apply Tk].
    edestruct (side_step st) as (l1 & l2 & _ & St & I'); [exact I|exact Ec|discriminate|reflexivity|].
    eexists. split; [exact St|]. left. split; [exact I'|]. cbn [gemm GemmSystem.answer left_of ready st].
    unfold input_left, input_is_ready, input_asked, input_offset. rewrite Epf.
    unfold input_slot_read. rewrite mem_bytes_blen, Z.eqb_refl by (unfold piece; lia). cbn [negb orb].
    gemm_fields. rewrite Ep. fold st i. rewrite !fn_lookup_insert, Ew. read_fields. cbn [i_offset i_bytes].
    rewrite copy_at_blen, Hb by (rewrite ?mem_bytes_blen; unfold piece; lia).
    destruct (Z.eqb_spec (off + piece j off) (rows j * 128)); [by left|right]. unfold piece, tile_bytes in *. read_fields. cbn. lia.
  - destruct R3 as [[(N & _)|[(_ & E1 & _ & (_ & Ho & Hb & _) & Ec)|(_ & _ & _ & E3 & _)]] _]; [congruence| |congruence].
    destruct (inputPending g) eqn:Eq; [|by apply Tk].
    edestruct (side_step st) as (l1 & l2 & _ & St & I'); [exact I|exact Ec|discriminate|reflexivity|].
    eexists. split; [exact St|]. left. split; [exact I'|]. cbn [gemm GemmSystem.answer left_of ready st].
    unfold input_left, input_is_ready, input_asked, input_offset. rewrite Epf.
    unfold input_read. rewrite mem_bytes_blen, Z.eqb_refl by (unfold piece; lia). cbn [negb orb].
    gemm_fields. rewrite Eq. cbn zeta. rewrite copy_at_blen, Hb by (rewrite ?mem_bytes_blen; unfold piece; lia).
    destruct (Z.eqb_spec (inputOffset g + piece j (inputOffset g)) (rows j * 128)); [by left|right]. unfold piece, tile_bytes in *. read_fields. cbn. lia.
Qed.

Lemma ready_or_fed st s : inv st s -> ready st (gemm s) \/ fed st s.
Proof.
  intros I. destruct s as [g m b].
  destruct st as [| | | | | | |base kb nn kk [|q w|q [] |q]| | | | |]; try (by left); cbn [ready gemm].
  - destruct (w_ready _) eqn:E; [by left|right]. by apply feed_weight.
  - destruct (input_is_ready j g) eqn:E; [by left|right]. by apply feed_input.
Qed.
Lemma feed_loop st s : inv st s ->
  exists s', rtc step s s' /\ ((inv st s' /\ ready st (gemm s')) \/ exists st', moves st st' /\ inv st' s').
Proof.
  remember (Z.to_nat (left_of st (gemm s))) as fuel eqn:E. revert s E. induction (lt_wf fuel) as [fuel _ IH]. intros s E I.
  destruct (ready_or_fed st s I) as [R|(s1 & St & [[I1 [R|[L1 L2]]]|M])].
  - exists s. split; [done|]. by left.
  - exists s1. split; [by apply rtc_once|]. by left.
  - destruct (IH (Z.to_nat (left_of st (gemm s1))) ltac:(lia) s1 eq_refl I1) as (s' & R & C). exists s'. split; [by eapply rtc_l|exact C].
  - exists s1. split; [by apply rtc_once|]. by right.
Qed.

(** *** The arrays come to rest *)

(** Steps an array's call still takes. *)
Definition mac_weight (c : Call) : nat := match c with ArrayMac _ _ _ _ _ computed => if computed then 1 else 2 | _ => 0 end.
Definition macs (cs : list Call) : nat := list_sum (map mac_weight cs).
Lemma macs_app cs cs' : macs (cs ++ cs') = (macs cs + macs cs')%nat.
Proof using Type. clear. unfold macs. by rewrite map_app, list_sum_app. Qed.
Lemma macs_cons c cs : macs (c :: cs) = (mac_weight c + macs cs)%nat.
Proof using Type. reflexivity. Qed.
Lemma macs_none cs r : macs cs = 0%nat -> on_port (PArray r) cs = [].
Proof using Type.
  clear. unfold on_port. induction cs as [|c cs IH]; [done|]. rewrite macs_cons. intros H.
  rewrite filter_cons_False, IH; [done|lia|]. destruct c as [| | | | | | | | | | |? ? ? ? ? []|]; discriminate.
Qed.
Lemma macs_some cs : macs cs <> 0%nat -> exists l1 l2 id mode grp count launched computed, cs = l1 ++ ArrayMac id mode grp count launched computed :: l2.
Proof using Type.
  clear. induction cs as [|c cs IH]; [by intros []|]. rewrite macs_cons. intros H. destruct (decide (mac_weight c = 0%nat)) as [E|E].
  - destruct IH as (l1 & l2 & id & mode & grp & count & la & co & ->); [by rewrite E in H|].
    by exists (c :: l1), l2, id, mode, grp, count, la, co.
  - destruct c as [| | | | | | | | | | |id mode grp count la co|]; try done. by exists [], cs, id, mode, grp, count, la, co.
Qed.

Lemma arrays_at_rest st g b : arrays_ok st (remaining g) (calls g) b -> (forall r, on_port (PArray r) (calls g) = []) -> computing g = false.
Proof.
  intros A H. rewrite (arrays_computing j host inputs initials m0 _ _ _ _ _ A eq_refl).
  assert (Z : forall q, busy_count j q (calls g) = 0) by (intros q; apply (busy_zero j inputs initials Hj); intros r _ _; apply H). by rewrite !Z.
Qed.
Lemma drain_loop st s : inv st s ->
  exists s', rtc step s s' /\ inv st s' /\ computing (gemm s') = false /\
    prefetch_view (gemm s') = prefetch_view (gemm s) /\ outputWaiting (gemm s') = outputWaiting (gemm s).
Proof.
  remember (macs (calls (gemm s))) as fuel eqn:E. revert s E. induction (lt_wf fuel) as [fuel _ IH]. intros [g m b] E I. cbn [gemm] in *.
  destruct (decide (macs (calls g) = 0%nat)) as [Hz|Hz].
  { exists (mkSystem g m b). split; [done|]. split; [exact I|]. split; [|done].
    apply (arrays_at_rest st g b); [exact (inv_arrays _ _ _ _ _ _ _ _ _ _ I)|]. intros r. by apply macs_none. }
  destruct (macs_some _ Hz) as (l1 & l2 & id & mode & grp & count & la & co & Ec). rewrite Ec, macs_app, macs_cons in E. destruct co; cbn [mac_weight] in E.
  - pose proof (side_answer_ok j cfg host inputs initials m0 out0 fin0 Hj st _ g m b l1 l2 I Ec ltac:(discriminate) eq_refl) as I1.
    set (s1 := answer _ _ m b) in *.
    assert (St : step (mkSystem g m b) s1) by (by constructor).
    assert (V : calls (gemm s1) = l1 ++ l2 /\ prefetch_view (gemm s1) = prefetch_view g /\ outputWaiting (gemm s1) = outputWaiting g).
    { unfold s1. cbn [GemmSystem.answer gemm]. unfold array_done. cbv zeta. by destruct (_ =? 0). }
    destruct V as (V1 & V2 & V3). destruct (IH (macs (l1 ++ l2)) ltac:(rewrite macs_app; lia) s1 ltac:(by rewrite V1) I1) as (s' & R & C1 & C2 & C3 & C4).
    exists s'. split; [by eapply rtc_l|]. split; [exact C1|]. split; [exact C2|]. split; [by rewrite C3|by rewrite C4].
  - pose proof (multiply_ok j cfg host inputs initials m0 out0 fin0 Hj Hfit st _ _ _ _ _ g m b l1 l2 I Ec) as I1.
    set (s1 := mkSystem _ m (array_multiply cfg id mode b)) in *.
    assert (St : step (mkSystem g m b) s1) by (by constructor).
    assert (E1 : macs (calls (gemm s1)) = (macs l1 + (1 + macs l2))%nat) by exact (macs_app l1 (ArrayMac id mode grp count la true :: l2)).
    destruct (IH (macs (calls (gemm s1))) ltac:(lia) s1 eq_refl I1) as (s' & R & C1 & C2 & C3 & C4).
    exists s'. split; [by eapply rtc_l|]. split; [exact C1|]. split; [exact C2|]. by split.
Qed.

(** *** To the end *)

Lemma ready_view st g g' : prefetch_view g' = prefetch_view g -> ready st g -> ready st g'.
Proof using Type.
  intros E R. assert (V : forall x, ready st (prefetch_view x) = ready st x) by (intros x; by destruct st as [| | | | | | |base kb nn kk [|q w|q []|q]| | | | |]).
  by rewrite <- V, E, V.
Qed.
Lemma stage_cases st : st = SDone \/ parked_at st = true \/ settled st = false \/ is_Some (task_of st) \/ waiting st = true.
Proof using Type.
  clear. destruct st as [| |? ? ? ? []| |? ? ? ? []| |? ? ? []|? ? ? ? [|? []|? []|]|? ? ? []|? ? ? ? []|? ? ? []| |]; cbn; eauto.
  destruct w; eauto.
Qed.

(** A step's task runs: the output is resumed, the tiles arrive, the arrays finish, and a
    tick finds everything at hand. *)
Lemma task_moves st s : inv st s -> settled st = true -> is_Some (task_of st) ->
  exists s' st', rtc step s s' /\ moves st st' /\ inv st' s'.
Proof.
  intros I Hs Ht. destruct (feed_loop st s I) as (s1 & R1 & [[I1 Rd]|(st' & M & I1)]); [|by exists s1, st'].
  destruct s1 as [g1 m1 b1]. destruct (resumeOutput_ok j cfg host inputs initials m0 out0 fin0 Hj st g1 m1 b1 I1) as (st' & D & I2).
  set (s2 := mkSystem (resumeOutput j g1) m1 b1) in *.
  assert (R2 : rtc step s s2) by (eapply rtc_r; [exact R1|by constructor]).
  destruct D as [M|[-> E2]]; [by exists s2, st'|].
  destruct (drain_loop st s2 I2) as ([g3 m3 b3] & R3 & I3 & C3 & V3 & O3). cbn [gemm s2] in *. rewrite E2 in V3, O3.
  assert (Rd3 : ready st g3) by (by apply (ready_view st g1)).
  destruct (tick_ok j cfg host inputs initials m0 out0 fin0 Hj Hfit st all_yes (cReadyCycle g3) g3 m3 b3 I3 Hs) as (st' & [S' G] & I4).
  exists (mkSystem (tick j cfg all_yes (cReadyCycle g3) g3) m3 b3), st'. split; [|split; [|exact I4]].
  - eapply rtc_r; [by etrans|by constructor].
  - split; [exact S'|]. destruct G as [L|[_ N]]; [exact L|]. destruct N. split; [exact Ht|]. split; [|exact Rd3].
    split; [exact Hfan|done|done|done|exact C3|exact O3|]. change (cReadyCycle g3 <= cReadyCycle g3). lia.
Qed.
Lemma stage_moves st s : inv st s -> settled st = true -> st <> SDone ->
  exists s' st', rtc step s s' /\ moves st st' /\ inv st' s'.
Proof.
  intros I Hs Hd. destruct (stage_cases st) as [E|[E|[E|[E|E]]]]; [by destruct Hd| |congruence|by apply task_moves|].
  - destruct s as [g m b]. destruct (resumeOutput_ok j cfg host inputs initials m0 out0 fin0 Hj st g m b I) as (st' & [M|[-> E2]] & I').
    + exists (mkSystem (resumeOutput j g) m b), st'. split; [apply rtc_once; by constructor|]. by split.
    + exfalso. rewrite E2 in I'. pose proof (inv_flow _ _ _ _ _ _ _ _ _ _ I') as (_ & _ & _ & _ & F & _). specialize (F E). discriminate F.
  - destruct s as [g m b]. pose proof (inv_flow _ _ _ _ _ _ _ _ _ _ I) as (_ & _ & _ & _ & _ & _ & _ & M). cbn [gemm] in M.
    destruct (main_single j cfg host inputs initials m0 st _ M) as [E0|[c Ec]].
    + exfalso. rewrite E0 in M.
      destruct st as [|? ? ? []|? ? ? ? []| |? ? ? ? []| |? ? ? []|? ? ? ? [|? []|? []|]|? ? ? []|? ? ? ? []|? ? ? []| |]; cbn in E, M;
        first [discriminate | destruct M as [M _]; discriminate | destruct M as (? & M & _); discriminate].
    + apply on_port_split in Ec as (l1 & l2 & Ec & Hp).
      destruct (main_answer_ok j cfg host inputs initials m0 out0 fin0 Hj Hfit st c g m b l1 l2 I Ec Hp) as (st' & Mv & I').
      exists (answer c (g <| calls := l1 ++ l2 |>) m b), st'. split; [|by split]. apply rtc_once. constructor; [exact Ec|]. by destruct c.
Qed.
Lemma reaches_end st s : inv st s -> settled st = true -> exists s', rtc step s s' /\ inv SDone s'.
Proof.
  intros I. pose proof (inv_stage _ _ _ _ _ _ _ _ _ _ I) as S. revert s I. pattern st. revert st S.
  apply (stage_induction j inputs initials Hj). intros st S IH s I Hs.
  assert (Hd : st = SDone \/ st <> SDone) by (destruct st; by (left; reflexivity) || by right). destruct Hd as [->|Hd]; [by exists s|].
  destruct (stage_moves st s I Hs Hd) as (s1 & st1 & R1 & [S1 L1] & I1).
  destruct (IH st1 (inv_stage _ _ _ _ _ _ _ _ _ _ I1) L1 s1 I1 S1) as (s' & R & I'). exists s'. split; [by etrans|exact I'].
Qed.
End progress.
