(* ===== verification/GemmTheory.v ===== *)
(** * The window GEMM computes the product

    What [start] checks and what its caller owes give the invariant its hypotheses; from
    then on every schedule of ticks, callbacks, multiplies and output resumptions delivers
    the tiles of the product in order.  A refused call ends the job once. *)

From Stdlib Require Import ZArith Lia String.
From Stdlib Require Import Init.Byte.
From stdpp Require Import base numbers functions list relations.
From S2P Require Import Prelude RecordUpdate Ieee IeeeArith Fp16 AttentionBase ComputeUnit TileArray ControlTransport WindowGemm GemmValues GemmSystem GemmArrays GemmSlots GemmInvariant GemmFacts GemmSums GemmParts GemmMemory GemmRows GemmRank GemmFlow GemmTasks GemmTiles GemmWindows GemmTick GemmAnswers GemmSteps GemmProgress.
Open Scope Z_scope.

(** ** Starting *)

Lemma option_range getenv name fallback lo hi v :
  0 <= lo -> hi < 2 ^ 32 -> ReuseWindowGemm_option getenv name fallback lo hi = Ok v -> v = fallback \/ lo <= v <= hi.
Proof.
  intros Hlo Hhi. unfold ReuseWindowGemm_option. destruct (getenv name) as [s|]; [|by intros [= <-]; left].
  destruct (strtoul s) as [w rest]. destruct (_ || _) eqn:E; [discriminate|]. intros [= <-]. right. boolify.
  rewrite u32_id by (unfold in_u32; lia). lia.
Qed.

(** The options as [start] reads them. *)
Record options_ok (a : GemmArgs) (j : GemmJob) : Prop := mkOptionsOk {
  opt_args : args j = a;
  opt_window : 1 <= kWindow j <= 32;
  opt_bridge : bridgeWeights j = true -> ga_kTiles a <= kWindow j;
  opt_slots : 1 <= slotCount j <= 4;
  opt_groups : groups j = (if 32 <? ga_rows a then groups j else 1) /\ (groups j = 1 \/ groups j = 2);
  opt_wave : scatterWave j = true -> groups j = 2;
  opt_look : 0 <= ga_gmLookaheadOverride a -> 1 <= gmLookahead j <= 4 }.

Lemma bind_inv {A B} (r : result A) (f : A -> result B) b : rbind r f = Ok b -> exists a, r = Ok a /\ f a = Ok b.
Proof. destruct r as [a|e]; [|discriminate]. intros H. by exists a. Qed.
Lemma start_options_ok getenv a j : start_options getenv a = Ok j -> options_ok a j.
Proof.
  unfold start_options. cbv zeta. intros H.
  apply bind_inv in H as (kw & E1 & H). apply option_range in E1; [|lia|lia].
  apply bind_inv in H as (br & E2 & H). apply bind_inv in H as (sl & E3 & H). apply option_range in E3; [|lia|lia].
  apply bind_inv in H as (look & E5' & H). apply bind_inv in H as (af & _ & H). apply bind_inv in H as (pf & _ & H).
  apply bind_inv in H as (gr & E4 & H). apply bind_inv in H as (wv & E5 & H).
  apply bind_inv in H as (ea & _ & H). apply bind_inv in H as (la & _ & H). apply bind_inv in H as (de & _ & H).
  injection H as <-. split; cbn [args kWindow bridgeWeights slotCount groups scatterWave gmLookahead].
  - reflexivity.
  - lia.
  - destruct (Z.leb_spec (ga_kTiles a) kw); [by intros _|]. injection E2 as <-. discriminate.
  - lia.
  - destruct (32 <? ga_rows a).
    + apply option_range in E4; [|lia|lia]. split; [reflexivity|]. destruct (wv =? 0); lia.
    + injection E4 as <-. injection E5 as <-. split; [reflexivity|by left].
  - intros Hw. destruct (wv =? 0); [discriminate|reflexivity].
  - intros Ho. assert (1 <= look); [|lia]. destruct (Z.eqb_spec (ga_gmLookaheadOverride a) 0); cbn [negb] in E5'.
    + apply option_range in E5'; lia.
    + injection E5' as <-. lia.
Qed.

(** What the caller of [start] owes besides: machine widths, a global memory below the end
    of the address space, resident tiles outside the job's scratch and whole tiles from the
    callbacks.  With the early activations and a lease a bridged job has one group of
    tiles (see the findings). *)
Record caller_ok (j : GemmJob) (inputs initials : Z -> Values) : Prop := mkCallerOk {
  caller_width : 0 <= rows j /\ 0 <= kTiles j;
  caller_sequence : tile_count j * kTiles j < 2 ^ 32 - 2;
  caller_lease : bridgeWeights j = true -> earlyA j = true -> ga_acquire (args j) = true -> tile_count j <= 4;
  caller_max : 1 <= localMax j;
  caller_gm : 64 <= gm_size (args j) < 2 ^ 64 /\ 0 <= gm_base (args j) /\ gm_base (args j) + gm_size (args j) <= 2 ^ 64;
  caller_resident : forall f kk, ga_inputAddress (args j) = Some f -> 0 <= kk < kTiles j ->
    0 <= f kk /\ f kk + rows j * 128 <= 2 ^ 64 /\
    disjoint (f kk) (rows j * 128) (bBase j) (slotCount j * 8192) /\
    disjoint (f kk) (rows j * 128) (cBase j) (Z.min 4 (tile_count j) * rows j * 256);
  caller_inputs : forall kk, ga_inputAddress (args j) = None -> 0 <= kk < kTiles j -> Z.of_nat (length (inputs kk)) = rows j * 64;
  caller_initials : forall t, ga_initial (args j) = true -> Z.of_nat (length (initials t)) = rows j * 64 }.

Lemma regions_apart a x b y : 0 <= x -> 0 <= y -> 0 <= a -> 0 <= b -> a + x < 2 ^ 64 -> b + y < 2 ^ 64 -> regions_overlap a x b y = false -> disjoint a x b y.
Proof.
  intros Hx Hy Ha Hb H1 H2. unfold regions_overlap, disjoint. rewrite !u64_id by (unfold in_u64; lia). intros H. boolify.
  destruct (Z.ltb_spec a (b + y)); cbn [andb] in H; [|lia]. destruct (Z.ltb_spec b (a + x)); [discriminate|lia].
Qed.

Lemma start_job_ok a j inputs initials :
  options_ok a j -> start_refused j = false -> caller_ok j inputs initials -> job_ok j inputs initials.
Proof.
  intros [<- O2 O3 O4 O5 O6 _] H [[W1 W2] C2 C3 C4 [G1 [G2 G3]] C6 C7 C8]. unfold start_refused in H.
  repeat (apply orb_false_elim in H as [H ?]).
  assert (Hrows : 1 <= rows j <= 64) by (boolify; lia). assert (Hk : 1 <= kTiles j) by (boolify; lia).
  assert (Ht : 1 <= tile_count j) by (unfold tile_count in *; boolify; lia).
  assert (Ea : aBytes j = Z.min (kWindow j) (kTiles j) * rows j * 128).
  { unfold aBytes. assert (0 <= Z.min (kWindow j) (kTiles j) * rows j <= 2048) by nia. unwrap64. done. }
  assert (Eb : bBytes j = slotCount j * 8192) by (apply u32_id; unfold in_u32; lia).
  assert (Ec : cBytes j = Z.min 4 (tile_count j) * rows j * 256).
  { unfold cBytes. assert (0 <= Z.min 4 (tile_count j) * rows j <= 256) by nia. unwrap64. done. }
  assert (F : forall addr bytes, 0 <= bytes -> region_fits j addr bytes = true -> 0 <= addr /\ addr + bytes < 2 ^ 64).
  { intros addr bytes Hb. unfold region_fits. cbv zeta. rewrite (u64_id (gm_size (args j) - 64)) by (unfold in_u64; lia).
    intros E. apply andb_true_iff in E as [E E3]. apply andb_true_iff in E as [E1 E2]. apply Z.leb_le in E1, E2, E3.
    rewrite u64_id in E3 by (unfold in_u64; lia). lia. }
  repeat match goal with H : negb _ = false |- _ => apply negb_false_iff in H; apply F in H; [|nia] end.
  rewrite Ea, Eb, Ec in *.
  repeat match goal with H : regions_overlap _ _ _ _ = false |- _ => apply regions_apart in H; [|nia|nia|lia|lia|lia|lia] end.
  split; try assumption; lia.
Qed.

(** ** Every run *)

(** A GEMM between jobs. *)
Definition idle (g : ReuseWindowGemm) : Prop := calls g = [] /\ forall i, w_valid (slots g i) = false.

Section runs.
Context (j : GemmJob) (cfg : TileUnitConfig) (host : Z -> byte) (inputs initials : Z -> Values).
Hypothesis Hj : job_ok j inputs initials.
Hypothesis Hfit : arrays_fit cfg.

Lemma start_inv g0 m0 b0 :
  start_refused j = false -> idle g0 -> bank_sizes j b0 ->
  gemm_inv j cfg host inputs initials m0 (outputs g0) (finished g0) (SBegin 0 0) (mkSystem (start j g0) m0 b0).
Proof.
  intros Hs [Ec Hv] Hb. unfold start. cbv zeta. rewrite Hs. pose proof (ok_tiles _ _ _ Hj). pose proof (ok_kTiles _ _ _ Hj).
  set (g := schedule BeginWindow _). assert (Eg : calls g = []) by exact Ec. split; cbn [gemm memory bank].
  - split; [lia|]. split; [reflexivity|]. split; [lia|reflexivity].
  - rewrite Eg. repeat split; discriminate.
  - rewrite Eg. split; [exact Hb|]. split; [exact (eq_sym (proj2 (busy_zero j inputs initials Hj 0 []) (fun _ _ _ => eq_refl)))|].
    split; [exact (eq_sym (proj2 (busy_zero j inputs initials Hj 1 []) (fun _ _ _ => eq_refl)))|].
    split; [reflexivity|]. intros r Hr. split; [reflexivity|discriminate].
  - split; [|split; [|split; [|split; [|exact Logic.I]]]].
    + intros f kk Ef Hk. unfold input_tile_bytes. rewrite Ef. apply mem_bytes_held.
    + intros _ i Hi. exfalso. revert Hi. cbn. rewrite andb_false_r. lia.
    + cbn. lia.
    + intros _ i Hi. exfalso. unfold spilled_hi in Hi. cbn in Hi. lia.
  - unfold prefetch_ok. cbn [prefetching]. rewrite andb_false_r. split.
    + intros i. rewrite Eg. split; [apply Hv|reflexivity].
    + split; [by destruct (inputPrefetch j)|]. rewrite Eg. done.
  - cbn. by rewrite app_nil_r.
  - cbn. by rewrite app_nil_r.
Qed.

Lemma run_inv st s s' m0 out0 fin0 :
  gemm_inv j cfg host inputs initials m0 out0 fin0 st s -> settled st = true -> rtc (gemm_step j cfg host inputs initials) s s' ->
  exists st', settled st' = true /\ gemm_inv j cfg host inputs initials m0 out0 fin0 st' s'.
Proof.
  intros I Hs R. revert st I Hs. induction R as [s|s s1 s' H _ IH]; intros st I Hs; [by exists st|].
  destruct (step_ok j cfg host inputs initials m0 out0 fin0 Hj Hfit st s s1 I Hs H) as (st1 & H1 & I1). by apply (IH st1).
Qed.

(** What the invariant says of the results. *)
Lemma inv_results st s m0 out0 fin0 :
  gemm_inv j cfg host inputs initials m0 out0 fin0 st s ->
  exists count, 0 <= count <= tile_count j /\
    outputs (gemm s) = out0 ++ expected_outputs j host inputs initials m0 count /\
    ((active (gemm s) = true /\ finished (gemm s) = fin0) \/
     (active (gemm s) = false /\ finished (gemm s) = fin0 ++ [true] /\ count = tile_count j)).
Proof.
  intros [S (Ea & _) _ _ _ Eo Ef]. exists (outputs_done j st). pose proof (ok_tiles _ _ _ Hj).
  assert (Hd : 0 <= outputs_done j st <= tile_count j).
  { destruct st; unfold stage_ok, window_ok, nC in S; cbn; try destruct (_ =? _); lia. }
  split; [exact Hd|]. split; [exact Eo|]. rewrite Ea, Ef. destruct st; (right; done) || (left; by rewrite app_nil_r).
Qed.
(** A state where the job is over. *)
Lemma inv_done s m0 out0 fin0 :
  gemm_inv j cfg host inputs initials m0 out0 fin0 SDone s ->
  active (gemm s) = false /\ finished (gemm s) = fin0 ++ [true] /\
  outputs (gemm s) = out0 ++ expected_outputs j host inputs initials m0 (tile_count j).
Proof using Type. intros [_ (Ea & _) _ _ _ Eo Ef]. by split. Qed.
End runs.

(** ** The properties *)

(** C3: an accepted job delivers the product.  Take any environment of options that
    [start] accepts, a caller that keeps its side ([caller_ok]), arrays of the native
    geometry and any run: ticks with any replies, callbacks in any order, multiplies at any
    time between launch and callback, outputs resumed at any time, foreign writes to memory
    outside the job's regions.  What has been delivered is the products of the first tiles,
    in order and each bit for bit the sums the specification [product] accumulates; the job
    is reported done at most once, with success, and only when every tile was delivered.
    The caller's side includes [caller_lease]: a job with the window bridge, the early
    activations and a lease of the arrays at once has at most four output tiles.  [start]
    accepts such jobs with more tiles, but prepares activations of the wrong sequence for
    them (see the findings), and the theorem says nothing about those. *)
Theorem gemm_delivers_product getenv a j cfg host inputs initials g0 m0 b0 s :
  start_options getenv a = Ok j -> start_refused j = false -> caller_ok j inputs initials ->
  arrays_fit cfg -> idle g0 -> bank_sizes j b0 ->
  rtc (gemm_step j cfg host inputs initials) (mkSystem (start j g0) m0 b0) s ->
  exists count, 0 <= count <= tile_count j /\
    outputs (gemm s) = outputs g0 ++ expected_outputs j host inputs initials m0 count /\
    ((active (gemm s) = true /\ finished (gemm s) = finished g0) \/
     (active (gemm s) = false /\ finished (gemm s) = finished g0 ++ [true] /\ count = tile_count j)).
Proof.
  intros Ho Hs Hc Hfit Hi Hb R. apply start_options_ok in Ho as Hok.
  assert (Hj : job_ok j inputs initials) by (by apply (start_job_ok a)).
  destruct (run_inv j cfg host inputs initials Hj Hfit _ _ s m0 _ _ (start_inv j cfg host inputs initials Hj g0 m0 b0 Hs Hi Hb) eq_refl R) as (st & _ & I).
  by apply (inv_results j cfg host inputs initials Hj st).
Qed.

(** A job of one row, one reduction step and two tiles. *)
Definition gemm_cfg : TileUnitConfig := mkTileUnitConfig 64 64 64 true true 16 64.
Definition gemm_args : GemmArgs :=
  mkArgs 1 1 [5; 7] 0x10000 0x20000 0x30000 (fun tile k => 0x1000000 + (tile + k) * 8192) false None true false false 0 false
    0 0x40000 8192.
Definition gemm_job : GemmJob := mkJob gemm_args 32 false 4 4 false false 1 false false false false.
Definition gemm_row (k : Z) : Values := replicate 64 tile_zero.
Definition gemm_started : GemmSystem := mkSystem (start gemm_job ReuseWindowGemm_new) (fun _ => x00) (TileBank_new gemm_cfg).
Lemma gemm_job_accepted :
  start_options (fun _ => None) gemm_args = Ok gemm_job /\ start_refused gemm_job = false /\ caller_ok gemm_job gemm_row gemm_row /\
  arrays_fit gemm_cfg /\ idle ReuseWindowGemm_new /\ bank_sizes gemm_job (TileBank_new gemm_cfg).
Proof.
  split; [reflexivity|]. split; [reflexivity|]. split; [|split; [done|split; [done|]]].
  - split; done || (cbn; lia).
  - split; [reflexivity|]. intros r _. cbn [TileBank_new contexts context_new inputVector outputVector matrixData].
    rewrite !length_replicate. split; [reflexivity|]. split; reflexivity.
Qed.
Lemma gemm_delivers_product_witness :
  let s := mkSystem (tick gemm_job gemm_cfg all_yes 1 (gemm gemm_started)) (memory gemm_started) (bank gemm_started) in
  exists count, 0 <= count <= tile_count gemm_job /\
    outputs (gemm s) = outputs ReuseWindowGemm_new ++ expected_outputs gemm_job (fun _ => x00) gemm_row gemm_row (fun _ => x00) count /\
    ((active (gemm s) = true /\ finished (gemm s) = finished ReuseWindowGemm_new) \/
     (active (gemm s) = false /\ finished (gemm s) = finished ReuseWindowGemm_new ++ [true] /\ count = tile_count gemm_job)).
Proof.
  destruct gemm_job_accepted as (H1 & H2 & H3 & H4 & H5 & H6).
  apply (gemm_delivers_product (fun _ => None) gemm_args gemm_job gemm_cfg (fun _ => x00) gemm_row gemm_row ReuseWindowGemm_new
    (fun _ => x00) (TileBank_new gemm_cfg) _ H1 H2 H3 H4 H5 H6).
  apply rtc_once, step_tick.
Defined.

(** C4: a job whose weight broadcasts fit the arrays' fan-out never gets stuck.  Besides
    what the product theorem asks - [caller_ok] with its limit on bridged, leased jobs
    included - a broadcast of the job must not be wider than the arrays'
    [matrixBroadcastMaxFanout] (16 by default), the lookahead the caller overrides is not
    negative and the sequence numbers stay below 2^32 - 8.  Then, whatever the surroundings
    did so far - ticks that refused every call, callbacks in any order, outputs not resumed,
    launches refused - from every state a run reaches they can still bring the job to its
    end: after finitely many further steps every tile of the product has been delivered and
    the job reports success.  The limit on the fan-out is needed: [start] accepts a job of
    up to 64 rows, and with a wider broadcast [programB] is refused and schedules itself
    again whenever it runs ([narrow_broadcast_retries]). *)
Theorem gemm_can_finish getenv a j cfg host inputs initials g0 m0 b0 s :
  start_options getenv a = Ok j -> start_refused j = false -> caller_ok j inputs initials ->
  arrays_fit cfg -> broadcast_width j <= matrixBroadcastMaxFanout cfg ->
  0 <= ga_gmLookaheadOverride a -> tile_count j * kTiles j < 2 ^ 32 - 8 -> idle g0 -> bank_sizes j b0 ->
  rtc (gemm_step j cfg host inputs initials) (mkSystem (start j g0) m0 b0) s ->
  exists s', rtc (gemm_step j cfg host inputs initials) s s' /\
    active (gemm s') = false /\ finished (gemm s') = finished g0 ++ [true] /\
    outputs (gemm s') = outputs g0 ++ expected_outputs j host inputs initials m0 (tile_count j).
Proof.
  intros Ho Hs Hc Hfit Hfan Hov Hseq Hi Hb R. apply start_options_ok in Ho as Hok.
  assert (Hj : job_ok j inputs initials) by (by apply (start_job_ok a)).
  destruct (run_inv j cfg host inputs initials Hj Hfit _ _ s m0 _ _ (start_inv j cfg host inputs initials Hj g0 m0 b0 Hs Hi Hb) eq_refl R) as (st & St & I).
  destruct (reaches_end j cfg host inputs initials m0 _ _ Hj Hfit Hfan (opt_look _ _ Hok Hov) Hseq st s I St) as (s' & R' & I').
  exists s'. split; [exact R'|]. by apply inv_done in I'.
Qed.
Lemma gemm_can_finish_witness :
  let s := mkSystem (tick gemm_job gemm_cfg all_yes 1 (gemm gemm_started)) (memory gemm_started) (bank gemm_started) in
  exists s', rtc (gemm_step gemm_job gemm_cfg (fun _ => x00) gemm_row gemm_row) s s' /\
    active (gemm s') = false /\ finished (gemm s') = [true] /\
    outputs (gemm s') = expected_outputs gemm_job (fun _ => x00) gemm_row gemm_row (fun _ => x00) (tile_count gemm_job).
Proof.
  destruct gemm_job_accepted as (H1 & H2 & H3 & H4 & H5 & H6).
  apply (gemm_can_finish (fun _ => None) gemm_args gemm_job gemm_cfg (fun _ => x00) gemm_row gemm_row ReuseWindowGemm_new
    (fun _ => x00) (TileBank_new gemm_cfg) _ H1 H2 H3 H4); [vm_compute; discriminate|vm_compute; discriminate|reflexivity|exact H5|exact H6|].
  apply rtc_once, step_tick.
Defined.

(** A broadcast wider than the fan-out is refused by the arrays' check, and [programB]
    takes the refusal for a full queue: it asks again, whatever the surroundings reply. *)
Lemma narrow_broadcast_retries j cfg re g :
  matrixBroadcastMaxFanout cfg < Z.of_nat (length (if scatterWave j then arrays j else groupArrays j g)) ->
  let g' := programB j cfg re g in next g' = Some ProgramB /\ calls g' = calls (acquireArrays j re (set_phase 3 g)).1.
Proof.
  intros Hf. cbv zeta. unfold programB. cbv zeta. pose proof (control_acquire j re (set_phase 3 g)) as [= _ _ _ _ Hg].
  destruct (acquireArrays j re (set_phase 3 g)) as [g1 held]. cbn [fst] in Hg |- *. change (group g1 = group g) in Hg.
  destruct held; cbn [negb]; [|done]. destruct (_ || _); [done|]. set (g2 := new_tag (set_pending true g1)).
  assert (E : groupArrays j g2 = groupArrays j g) by (unfold groupArrays, group_end, group_begin; change (group g2) with (group g1); by rewrite Hg).
  rewrite E. assert (N : programMatrixGroupClassBankAsync cfg (if scatterWave j then arrays j else groupArrays j g) 0 (matrix g2) 2 ProjectionWeights = None).
  { unfold programMatrixGroupClassBankAsync, validateMatrixBroadcastRequest. rewrite (proj2 (Z.leb_gt _ _)) by exact Hf. rewrite andb_false_r. reflexivity. }
  rewrite N. unfold taken. rewrite bool_decide_eq_false_2 by (by intros []). by rewrite andb_false_r.
Qed.

(** The failed callbacks, up to [finish]. *)
Ltac failed_callback :=
  cbn [refuse]; unfold weight_fetched, weight_read, input_read, input_slot_read, chunk_read, chunk_written, input_given,
    initial_given, output_written, matrix_programmed, input_scattered, output_read; cbv zeta; cbn [negb orb].

(** C12: a call that fails ends the job, once.  Whatever the call, its failed callback
    reports [false], drops the continuation and delivers nothing; after it no failure is
    reported again and ticks do nothing.  (An array's callback has no failure.) *)
Theorem refused_call_ends_job j cfg c g :
  active g = true -> (forall id mode grp count launched computed, c <> ArrayMac id mode grp count launched computed) ->
  let g' := refuse j c g in
  finished g' = finished g ++ [false] /\ active g' = false /\ next g' = None /\ outputs g' = outputs g /\ calls g' = calls g /\
  (forall c', finished (refuse j c' g') = finished g' /\ outputs (refuse j c' g') = outputs g') /\
  (forall re now, tick j cfg re now g' = g' <| cycle := now |>).
Proof.
  intros Ha Hc. cbv zeta.
  assert (E : exists h, refuse j c g = finish false h /\ active h = true /\ finished h = finished g /\ outputs h = outputs g /\ calls h = calls g)
    by (destruct c; lazymatch goal with
        | |- context [refuse _ (ArrayMac _ _ _ _ _ _) _] => exfalso; by eapply Hc
        | _ => failed_callback; eexists; split; [reflexivity|split; [exact Ha|done]] end).
  destruct E as (h & -> & Hh & E1 & E2 & E3). unfold finish. rewrite Hh. cbn [negb].
  set (g' := h <| active := false |> <| next := None |> <| pending := false |> <| finished ::= _ |>).
  assert (I : active g' = false) by reflexivity.
  split; [by rewrite <- E1|]. split; [reflexivity|]. split; [reflexivity|]. split; [exact E2|]. split; [exact E3|]. split.
  - intros c'. clearbody g'. destruct c'; failed_callback; unfold finish, array_done; gemm_fields; rewrite ?I; cbn [negb]; try done.
    by destruct (_ =? 0).
  - intros re now. unfold tick. cbv zeta. clearbody g'. change (active (g' <| cycle := now |>)) with (active g'). by rewrite I.
Qed.
Lemma refused_call_ends_job_witness :
  let g := refuse gemm_job (AskInput 0) (start gemm_job ReuseWindowGemm_new) in
  finished g = [false] /\ active g = false /\ tick gemm_job gemm_cfg all_yes 7 g = g <| cycle := 7 |>.
Proof.
  destruct (refused_call_ends_job gemm_job gemm_cfg (AskInput 0) (start gemm_job ReuseWindowGemm_new) eq_refl) as (H1 & H2 & _ & _ & _ & _ & H7).
  - discriminate.
  - exact (conj H1 (conj H2 (H7 all_yes 7))).
Defined.
